(* ===== verification/_CoqProject ===== *)
-Q . S2P
Prelude.v
Zip.v
Hits.v
Span.v
SearchNode.v
SearchNodeOk.v
ExtTerm.v
Query.v
Ranker.v
Search.v
Doclist.v
DoclistOk.v
HitBuilder.v
HitBuilderOk.v
SearchExample.v
FileIO.v
BinSearch.v
DocidLookup.v
DocidLookupOk.v
BitCount.v
BitVec.v
DeadMap.v
KillList.v
IndexKill.v
Sort.v
SortOk.v
Update.v
Reader.v
ReaderOk.v
MatchQueue.v
MatchQueueOk.v
Phrase.v
PhraseOk.v
HitNode.v
HitNodeOk.v
PhraseNode.v
PhraseNodeOk.v
Utf8.v
Wildcard.v
WildcardOk.v
RowAttr.v
Schema.v
SchemaOk.v
MinMax.v
MinMaxOk.v
AttrUpdate.v
AttrUpdateOk.v
Blob.v
BlobOk.v
Filter.v
FilterOk.v
FilterCreate.v
FilterCreateOk.v
FilterMerge.v
FilterMergeOk.v
FullScan.v
FullScanOk.v
RowIter.v
RowIterOk.v
Queue.v
RowUnion.v
RowUnionOk.v
RtSegment.v
RtSegmentOk.v
RtDelete.v
RtQword.v
RtQwordOk.v
RtSearch.v
OpenHash.v
OpenHashOk.v
RtAccum.v
RtAccumOk.v
RtRam.v
RtFullText.v
RtRamOk.v
RtChunk.v
RtReach.v
RtExample.v
