(* ===== verification/Prelude.v ===== *)
(** * Manticore Search: a verification library

    A model of the core of the Manticore Search engine (src/src), as functions
    that can be evaluated, and the theorems that make it correct.

    ** The parts and how they interact

    A plain index keeps, per keyword, a list of the documents (rows) with the hits
    in each. The indexer sorts hits and feeds them to the hit builder, which writes
    doclists, hitlists and skiplists through a buffered file writer, all of them in
    variable-length integers. A search opens a reader per keyword and builds a tree
    of streamers over them; a phrase or proximity operator runs a state machine over
    the hits of a document. A ranker pulls documents from the root in chunks, and the
    match loop pushes them to a sorter until a cutoff or a deadline; the sorter keeps
    the best matches, and sorters are merged into each other. Documents have ids: the
    docid lookup file maps ids to rows, deletions walk a kill list against it and set
    bits in the dead row map, and updates walk it to find their rows.

    A row has attributes at the places that the schema gives them, and blobs in a
    file of their own. A query has filters on attributes, made from settings that are
    merged before; a query without keywords scans the rows, skips the blocks whose
    ranges of values the filters reject, or follows iterators of row ids that indexes
    on attributes give, intersected and united.

    A real-time index takes documents in transactions. An accumulator collects rows
    and hits; a commit removes duplicates, packs the rest into a new RAM segment,
    kills the older versions through the id maps of the segments, and a worker merges
    segments. A search of the RAM chunk runs the streamers over each segment.

    ** The files

    Shared:
    - [Prelude]: machine integers and casts, lists, bytes, the automation.
    - [Zip] (std/zip_impl.h): variable-length integers of both byte orders.
    - [Hits] (sphinx.h), modules [Hitman] and [FieldMask]: [Hitman_c], the packing of
      hits, and [FieldMask_t], the fields of a document.
    - [Span] (sphinxint.h): [FindSpan]. [BinSearch] (std/binarysearch_impl.h): the
      binary searches. [BitCount], [BitVec] (std/bitcount_impl.h, std/bitvec_impl.h):
      bits. [Sort], [SortOk] (std/sort_impl.h): [sphSort]. [OpenHash], [OpenHashOk]
      (std/openhash.h, std/openhash_impl.h): the open-addressing hash. [Queue]
      (std/queue_impl.h): [CSphQueue].
    - [Utf8] (sphinxint.h), [Wildcard], [WildcardOk] (sphinxutils.cpp): decoding and
      matching of wildcards.

    Searching:
    - [SearchNode], [SearchNodeOk] (searchnode.cpp): the streamers for AND, OR,
      MAYBE and AND-NOT. [ExtNode_i] is the interface of a streamer; its laws
      ([ExtNodeOk]) say what the chunks of a streamer are of its list of
      documents, and every node is shown to keep them if its children do.
    - [ExtTerm] (searchnode.cpp, sphinxsearch.h): the streamer of a keyword, over
      the interface [ISphQword] of a doclist reader with its laws [QwordOk].
    - [Query] (searchnode.cpp): from a query to a tree of streamers.
    - [Ranker] (sphinxsearch.cpp, sphinx.cpp): the filtering of candidates, two
      rankers and the match loop. [Search]: the result of a search as a list of
      matches ([result], [cut]) and the theorems on a whole search.
    - [Phrase], [PhraseOk] with [ProximityOk] (searchnode.cpp): the machines for
      phrases and proximity. [HitNode], [HitNodeOk] with [HitAndOk], [NWayOk] and
      [DiskHits]: the hits of terms and AND nodes and the N-way node. [PhraseNode],
      [PhraseNodeOk] with [PhraseExample]: the phrase node and its construction.
    - [MatchQueue], [MatchQueueOk] with [KbufferOk] (sphinxsort.cpp,
      sortertraits.cpp): the two queues of matches.

    A plain index on files:
    - [FileIO] (fileio.cpp): [CSphWriter] on a file that may refuse writes. [Reader],
      [ReaderOk] with [FileRoundtrip]: [CSphReader], and the round trip of files.
    - [Doclist], [DoclistOk] (sphinx.cpp): the reader of a doclist with its skiplist;
      it implements [ISphQword]. [HitBuilder], [HitBuilderOk] with [HitBuilderRead]:
      the builder and the round trip to the reader. [SearchExample]: searches.
    - [DocidLookup], [DocidLookupOk] with [DocidLookupWrite] and [DocidLookupUuid]
      (docidlookup.h, docidlookup.cpp): the lookup file, its writer, reader, iterator,
      UUID part and upgrade.
    - [DeadMap] (killlist.cpp): the dead row map. [KillList] (killlist.h): the
      intersection of two id readers, over the interfaces [TargetReader] and
      [KillerReader]. [IndexKill] with [IndexDupes] (sphinx.cpp): the deletions of a
      disk index. [Update] (sphinx.cpp): the rows of an attribute update.

    Rows, filters and scans:
    - [RowAttr] (schema/locator_impl.h), [Schema], [SchemaOk] (schema/schema.cpp,
      schema/helper.cpp): attributes in a row and their places.
    - [MinMax], [MinMaxOk] (attrindex_builder.cpp): the ranges of blocks.
      [AttrUpdate], [AttrUpdateOk] (sphinx.cpp): updates of plain attributes.
    - [Blob], [BlobOk] (attribute.cpp): blob attributes and their file.
    - [Filter], [FilterOk] (sphinxfilter.h, sphinxfilter.cpp): the filters and their
      test on a block. [FilterCreate], [FilterCreateOk]: from settings to filters.
      [FilterMerge], [FilterMergeOk]: [OptimizeFilters], over intervals [Icl] of a
      library with their laws [IclLaws].
    - [FullScan], [FullScanOk] (sphinx.cpp): the scan loop, over the interface
      [RowSource], and the scan by blocks. [RowIter], [RowIterOk]
      (secondaryindex.cpp): the intersection and the wrapper of row iterators.
      [RowUnion], [RowUnionOk]: their union.

    The real-time index (sphinxrt.cpp, accumulator.cpp):
    - [RtSegment], [RtSegmentOk] with [RtCreateOk] and [RtMergeOk]: the words,
      documents and hits of a RAM segment, their packing and the merge of two.
    - [RtDelete]: dropping a field.
    - [RtQword], [RtQwordOk]: looking a keyword up and reading it; [RtQword_t]
      implements [ISphQword] as well. [RtSearch]: the query tree over a segment.
    - [RtAccum], [RtAccumOk] with [RtGroupOk]: the accumulator.
    - [RtRam], [RtRamOk] with [RtRamMergeOk]: segments with their rows and id maps,
      commits, kills, the choice and the merge of segments.
    - [RtFullText]: the match loop over the segments.
    - [RtChunk] with [RtStepOk], [RtReach] with [RtRamSearch]: the chunk as a map of
      documents, the relation [reach] of the states that commits and merge steps lead
      to, and the theorems over all of them, the search included. [RtExample] with
      [RtTxnBugs]: examples, and transactions that do not do what they should.

    ** How code is modelled

    A function of the source is a function here, with the state it changes as an
    argument and a result. Integers are [Z] with the conversions of the source
    written out ([cast]); floats are the bits of single precision where only their
    order matters, and numbers of the Standard Library's [SpecFloat] in the ranker. An
    access outside a buffer, or a loop without fuel, is [None], and the theorems show
    that neither happens: fuel is a bound computed from the arguments (the words of a
    vector, the ids of two lists, the rows an iterator has left, the positions of a
    segment that is sorted or partitioned), and the theorems about results are
    existence statements. Files are lists of bytes; a list of booleans says which
    reads or writes fail. Time is a countdown that a search consults where the source
    does. Code outside the repository (the intervals of boost, hash functions,
    the libraries that give row iterators) is a parameter with its laws as a class,
    and every such class has an instance.

    ** What the theorems show

    Codings: round trips, lengths and the agreement of the unrolled decoders with the
    reference ones. Searching: a query over any tree feeds the sorter exactly the
    matches of its result, with their ranks, in order, and a first part of them when
    the cutoff or the time is reached; skipping blocks loses nothing; phrases and
    words close to each other are found exactly where they are (proximity in fields
    below 128). Sorting: [sphSort] sorts, and both match queues return the best matches
    in order, also after merging. Indexing: what the builder writes is what the reader
    decodes. Files: a file written with writes and seeks back holds what was not taken
    back, what was written is read back, and a reader whose error flag is clear has
    returned what the file holds. Lookups: every written id is found, an upgrade keeps
    the pairs. Deletions: exactly the listed documents die, the counts are right and
    the hook is told their ids. Rows: attributes have their own bits, the ranges bound
    the values (floats that are no NaN) and blobs read back. Filters: made from the
    settings they accept what the settings say, merging loses no row, and a block that
    is skipped has no row that passes, for ranges that include both ends or none.
    Scans: exactly the alive rows that pass, over blocks, intersections and unions.
    Real-time: the RAM chunk refines a map of documents through all commits, kills and
    merges; every commit and every chain of merges ends; its segments are well-formed;
    a search finds exactly the documents of the map that match. Some theorems pin down
    behaviour that differs from a comment of the source or from what the code is for.

    ** Bounds

    The real-time theorems hold for chunks that took fewer than [2^27] hits and
    [2^31] documents, so that offsets and counters of 32 bits do not wrap; vectors grow
    as defined up to 1838740736 items, which is where the conversion of the source
    overflows. Sorting is shown for up to [2^36] elements, which the stack of 32
    segments and the depth limit allow. Rows are below [INVALID_ROWID], hits and
    frequencies are those a file of the format can hold.

    ** What is not modelled

    Threads, coroutines and locks, memory mapping, throttling and statistics. In the
    modelled parts: the node cache of a query tree; short reads before the end of a
    file; the errors that end a commit before it starts (a transaction bound to another
    index, a schema altered since); attributes of a real-time index other than plain
    ones; filters by user variables, strings, expressions, JSON and columnar
    attributes, columns that are aliases of the weight, and the error of a filter tree
    that needs too much stack; sort expressions, random weights and packed factors in
    the match loops. Other parts: the nodes for quorum, order, NEAR, units and zones,
    the rankers that look at hits, expressions, group-by, disk chunks and the binary
    log of a real-time index, the daemon and its protocols, tokenizers and
    dictionaries, and bindings to libraries that are not in the repository. *)

From Stdlib Require Export ZArith Lia.
From stdpp Require Export base numbers tactics list_numbers list.

#[global] Open Scope Z_scope.

(** ** Machine integers *)

(** A C++ integer type: its width in bits and whether it is signed. *)
Record ctype := CType { bits : Z; is_signed : bool }.

Definition BYTE := CType 8 false.
Definition WORD := CType 16 false.
Definition DWORD := CType 32 false.
Definition uint64_t := CType 64 false.
Definition int32_t := CType 32 true.
Definition int64_t := CType 64 true.
Definition SphOffset_t := int64_t.

(** Conversion of a mathematical integer to an unsigned [w]-bit value. *)
Definition wrap (w x : Z) : Z := x mod 2 ^ w.

(** Conversion to the type [T] (modulo [2^bits], two's complement when
    signed), the result of [static_cast<T>]. *)
Definition cast (T : ctype) (x : Z) : Z :=
  let u := wrap (bits T) x in
  if is_signed T then if u <? 2 ^ (bits T - 1) then u else u - 2 ^ bits T
  else u.

(** The values of the type. *)
Definition in_type (T : ctype) (x : Z) : Prop :=
  if is_signed T then - 2 ^ (bits T - 1) <= x < 2 ^ (bits T - 1)
  else 0 <= x < 2 ^ bits T.

#[export] Instance in_type_dec T x : Decision (in_type T x).
Proof. unfold in_type. destruct (is_signed T); apply _. Defined.

Lemma wrap_range w x : 0 <= w -> 0 <= wrap w x < 2 ^ w.
Proof. intros. apply Z.mod_pos_bound, Z.pow_pos_nonneg; lia. Qed.

Lemma wrap_small w x : 0 <= x < 2 ^ w -> wrap w x = x.
Proof. apply Z.mod_small. Qed.

Lemma cast_cong T x : cast T x mod 2 ^ bits T = x mod 2 ^ bits T.
Proof.
  unfold cast, wrap.
  destruct (is_signed T); [destruct (_ <? _)|]; rewrite ?Zmod_mod; auto.
  rewrite Zminus_mod, Z_mod_same_full, Z.sub_0_r, !Zmod_mod. done.
Qed.

(** Casts only depend on the value modulo [2^bits]. *)
Lemma cast_eq T x y : x mod 2 ^ bits T = y mod 2 ^ bits T -> cast T x = cast T y.
Proof. intros E. unfold cast, wrap. by rewrite E. Qed.

Lemma cast_cast T x : cast T (cast T x) = cast T x.
Proof. apply cast_eq, cast_cong. Qed.

Lemma cast_id T x : 0 < bits T -> in_type T x -> cast T x = x.
Proof.
  intros Hb. unfold in_type, cast, wrap.
  pose proof (Z.pow_pos_nonneg 2 (bits T - 1)).
  assert (2 ^ bits T = 2 * 2 ^ (bits T - 1)) as Hp.
  { rewrite <- Z.pow_succ_r by lia. f_equal; lia. }
  destruct (is_signed T); intros Hx; [|by rewrite Z.mod_small].
  destruct (decide (0 <= x)).
  - rewrite Z.mod_small by lia. by rewrite (proj2 (Z.ltb_lt _ _)) by lia.
  - rewrite <- (Z_mod_plus_full x 1), Z.mod_small by lia.
    rewrite (proj2 (Z.ltb_ge _ _)) by lia. lia.
Qed.

Lemma cast_in_type T x : 0 < bits T -> in_type T (cast T x).
Proof.
  intros Hb. unfold in_type, cast.
  pose proof (wrap_range (bits T) x).
  assert (2 ^ bits T = 2 * 2 ^ (bits T - 1)) as Hp.
  { rewrite <- Z.pow_succ_r by lia. f_equal; lia. }
  destruct (is_signed T); [|lia].
  destruct (Z.ltb_spec (wrap (bits T) x) (2 ^ (bits T - 1))); lia.
Qed.

(** Goals [in_type T x] for a concrete type, and casts of values in range. *)
Ltac in_range :=
  unfold in_type in *;
  cbn [is_signed bits BYTE WORD DWORD uint64_t int32_t int64_t SphOffset_t] in *; lia.
Ltac uncast := rewrite cast_id by (done || in_range).

(** The membership goals that most lemmas leave. *)
Create HintDb ctype discriminated.
#[export] Hint Resolve cast_in_type : ctype.
#[export] Hint Extern 1 (in_type _ _) => in_range : ctype.
#[export] Hint Extern 1 (0 < bits _) => reflexivity : ctype.

(** ** Bitwise helpers *)

(** Appending a [k]-bit group below a shifted value. *)
Lemma lor_shiftl_add a d k :
  0 <= k -> 0 <= d < 2 ^ k -> Z.lor (Z.shiftl a k) d = a * 2 ^ k + d.
Proof.
  intros Hk Hd.
  assert (Z.land (Z.shiftl a k) d = 0) as Hl.
  { apply Z.bits_inj'. intros i Hi. rewrite Z.land_spec, Z.bits_0.
    destruct (decide (i < k)).
    - by rewrite Z.shiftl_spec_low by lia.
    - rewrite <- (Z.mod_small d (2 ^ k)) by lia.
      rewrite Z.mod_pow2_bits_high by lia. apply andb_false_r. }
  pose proof (Z.add_lor_land (Z.shiftl a k) d).
  rewrite Hl in *. rewrite Z.shiftl_mul_pow2 in * by lia. lia.
Qed.

Lemma land_ones_mod x k : 0 <= k -> Z.land x (2 ^ k - 1) = x mod 2 ^ k.
Proof. intros. rewrite <- Z.land_ones by lia. by rewrite Z.ones_equiv. Qed.

Lemma land_7f x : Z.land x 0x7f = x mod 128.
Proof. apply (land_ones_mod x 7). lia. Qed.

(** Unfolds one turn without evaluating the state. *)
Lemma fold_left_cons {A B} (f : A -> B -> A) x l a : fold_left f (x :: l) a = fold_left f l (f a x).
Proof. reflexivity. Qed.

(** ** Filters *)

Lemma list_filter_ext {B} (P1 P2 : B -> Prop) `{!∀ x, Decision (P1 x), !∀ x, Decision (P2 x)} (l : list B) :
  (∀ x, x ∈ l -> (P1 x <-> P2 x)) -> filter P1 l = filter P2 l.
Proof.
  induction l as [|x l IH]; intros Hl; [done|]. rewrite !filter_cons. rewrite IH by (intros y Hy; apply Hl; by right).
  pose proof (Hl x ltac:(by left)). repeat case_decide; tauto.
Qed.

Lemma list_filter_none {B} (P : B -> Prop) `{!∀ x, Decision (P x)} (l : list B) : (∀ x, x ∈ l -> P x -> False) -> filter P l = [].
Proof.
  induction l as [|x l IH]; intros Hl; [done|]. rewrite filter_cons_False by (intros Hx; apply (Hl x); [by left|done]).
  apply IH. intros y Hy. apply Hl. by right.
Qed.

Lemma list_filter_all {B} (P : B -> Prop) `{!∀ x, Decision (P x)} (l : list B) : (∀ x, x ∈ l -> P x) -> filter P l = l.
Proof.
  induction l as [|x l IH]; intros Hl; [done|]. rewrite filter_cons_True by (apply Hl; by left). f_equal. apply IH. intros y Hy. apply Hl. by right.
Qed.

(** ** Bytes *)

Definition is_byte (b : Z) : Prop := 0 <= b < 256.

(** A boolean property of bytes is decided by evaluating it on all of them. *)
Lemma byte_check (P : Z -> bool) b :
  forallb P (seqZ 0 256) = true -> is_byte b -> P b = true.
Proof.
  intros HP Hb. rewrite forallb_forall in HP. apply HP.
  apply list_elem_of_In, elem_of_seqZ. unfold is_byte in Hb. lia.
Qed.

(** The continuation flag of a 7-bit group. *)
Lemma byte_hi b : is_byte b -> (Z.land b 0x80 =? 0) = (b <? 128).
Proof.
  intros Hb. apply eqb_prop.
  apply (byte_check (λ b, eqb (Z.land b 0x80 =? 0) (b <? 128))); done.
Qed.
