(* ===== verification/Zip.v ===== *)
(** * Variable-length integer codec (src/src/std/zip_impl.h)

    The 7-bit group encodings every posting list, doclist, hitlist and
    binlog record of the daemon is written with.  A reader [fnGet] is a
    function on the remaining input bytes (a byte is a [Z] in [0..255]),
    reading past the end is [None]; a writer [fnPut] appends to the output.
    The codecs are templates: the integer type is the argument [T]. *)

From S2P Require Import Prelude.

Module Zip.

(** ** Definitions *)

(** [fnGet()] over a buffer: the lambda [*pBuf++]. *)
Definition get (s : list Z) : option (Z * list Z) :=
  match s with
  | [] => None
  | b :: s' => Some (b, s')
  end.

(** The [while ( uValue )] loop of [sphCalcZippedLen]; [2^fuel] exceeds the
    value, so the fuel never runs out. *)
Fixpoint calc_len_loop (fuel : nat) (uValue nBytes : Z) : Z :=
  match fuel with
  | O => nBytes
  | S fuel' =>
      if uValue =? 0 then nBytes
      else calc_len_loop fuel' (Z.shiftr uValue 7) (nBytes + 1)
  end.

Definition sphCalcZippedLen (T : ctype) (tValue : Z) : Z :=
  let uValue := wrap (bits T) tValue in
  calc_len_loop (Z.to_nat (bits T)) (Z.shiftr uValue 7) 1.

(** [for ( int i = nBytes - 1; i >= 0; --i ) fnPut ( ... )]; the argument is
    [i + 1].  The shift is on the signed value, hence arithmetic. *)
Fixpoint zip_be_loop (i : nat) (tValue : Z) : list Z :=
  match i with
  | O => []
  | S i' =>
      Z.lor (Z.land 0x7f (Z.shiftr tValue (7 * Z.of_nat i')))
        (match i' with O => 0 | S _ => 0x80 end)
      :: zip_be_loop i' tValue
  end.

Definition ZipValueBE (T : ctype) (tValue : Z) : list Z :=
  zip_be_loop (Z.to_nat (sphCalcZippedLen T tValue)) tValue.

(** What [CSphWriter::ZipInt] and [CSphWriter::ZipOffset] write. *)
Definition zint (v : Z) : list Z := ZipValueBE DWORD v.
Definition zoff (v : Z) : list Z := ZipValueBE uint64_t v.

(** [UnzipValueBE_reference], the loop of the non-PARANOID build:
    [res] is the value accumulated so far. *)
Fixpoint unzip_be_loop (T : ctype) (res : Z) (s : list Z) : option (Z * list Z) :=
  match s with
  | [] => None
  | b :: s' =>
      if Z.land b 0x80 =? 0 then Some (cast T (Z.lor (Z.shiftl res 7) b), s')
      else unzip_be_loop T (cast T (Z.lor (Z.shiftl res 7) (Z.land b 0x7f))) s'
  end.

Definition UnzipValueBE_reference (T : ctype) (s : list Z) : option (Z * list Z) :=
  unzip_be_loop T 0 s.

(** The unrolled 4-byte version: at most five bytes, the last one unmasked. *)
Definition UnzipValueBE4 (T : ctype) (s : list Z) : option (Z * list Z) :=
  '(b, s) ← get s;
  let res := Z.land b 0x7f in
  if Z.land b 0x80 =? 0 then Some (cast T res, s) else
  '(b, s) ← get s;
  let res := cast T (Z.lor (Z.shiftl res 7) (Z.land b 0x7f)) in
  if Z.land b 0x80 =? 0 then Some (res, s) else
  '(b, s) ← get s;
  let res := cast T (Z.lor (Z.shiftl res 7) (Z.land b 0x7f)) in
  if Z.land b 0x80 =? 0 then Some (res, s) else
  '(b, s) ← get s;
  let res := cast T (Z.lor (Z.shiftl res 7) (Z.land b 0x7f)) in
  if Z.land b 0x80 =? 0 then Some (res, s) else
  '(b, s) ← get s;
  Some (cast T (Z.lor (Z.shiftl res 7) b), s).

(** The 8-byte version is the reference loop. *)
Definition UnzipValueBE8 (T : ctype) (s : list Z) : option (Z * list Z) :=
  unzip_be_loop T 0 s.

Definition UnzipIntBE (pBuf : list Z) : option (Z * list Z) :=
  UnzipValueBE4 DWORD pBuf.

Definition UnzipOffsetBE (pBuf : list Z) : option (Z * list Z) :=
  UnzipValueBE8 SphOffset_t pBuf.

(** The [do ... while ( uValue )] loop of [ZipValueLE]. *)
Fixpoint zip_le_loop (fuel : nat) (uValue : Z) : list Z :=
  match fuel with
  | O => []
  | S fuel' =>
      let bOut := Z.land uValue 0x7f in
      let uValue := Z.shiftr uValue 7 in
      if uValue =? 0 then [bOut]
      else Z.lor bOut 0x80 :: zip_le_loop fuel' uValue
  end.

Definition ZipValueLE (T : ctype) (tValue : Z) : list Z :=
  zip_le_loop (Z.to_nat (bits T)) (wrap (bits T) tValue).

(** [UnzipValueLE_reference]; a shift by the width or more is undefined
    behaviour, [None] here. *)
Fixpoint unzip_le_loop (T : ctype) (res iOff : Z) (s : list Z) : option (Z * list Z) :=
  match s with
  | [] => None
  | b :: s' =>
      if bits T <=? iOff then None else
      let res := cast T (res + cast T (Z.shiftl (Z.land b 0x7f) iOff)) in
      let iOff := cast BYTE (iOff + 7) in
      if Z.land b 0x80 =? 0 then Some (res, s')
      else unzip_le_loop T res iOff s'
  end.

Definition UnzipValueLE_reference (T : ctype) (s : list Z) : option (Z * list Z) :=
  unzip_le_loop T 0 0 s.

(** The unrolled 4-byte version accumulates in a DWORD. *)
Definition UnzipValueLE4 (T : ctype) (s : list Z) : option (Z * list Z) :=
  '(b, s) ← get s;
  let res := Z.land b 0x7f in
  if Z.land b 0x80 =? 0 then Some (cast T res, s) else
  '(b, s) ← get s;
  let res := Z.lor res (Z.shiftl (Z.land b 0x7f) 7) in
  if Z.land b 0x80 =? 0 then Some (cast T res, s) else
  '(b, s) ← get s;
  let res := Z.lor res (Z.shiftl (Z.land b 0x7f) 14) in
  if Z.land b 0x80 =? 0 then Some (cast T res, s) else
  '(b, s) ← get s;
  if Z.land b 0x80 =? 0
  then Some (cast T (Z.lor res (Z.shiftl (Z.land b 0x7f) 21)), s) else
  '(b', s) ← get s;
  Some (cast T (Z.lor (Z.lor res (Z.shiftl (Z.land b 0x7f) 21))
                 (cast DWORD (Z.shiftl b' 28))), s).

(** The unrolled 8-byte version: nine 7-bit groups and a last bit. *)
Definition UnzipValueLE8 (T : ctype) (s : list Z) : option (Z * list Z) :=
  '(b, s) ← get s;
  let res := Z.land b 0x7f in
  if Z.land b 0x80 =? 0 then Some (res, s) else
  '(b, s) ← get s;
  let res := Z.lor res (Z.shiftl (Z.land b 0x7f) 7) in
  if Z.land b 0x80 =? 0 then Some (res, s) else
  '(b, s) ← get s;
  let res := Z.lor res (Z.shiftl (Z.land b 0x7f) 14) in
  if Z.land b 0x80 =? 0 then Some (res, s) else
  '(b, s) ← get s;
  let res := Z.lor res (Z.shiftl (Z.land b 0x7f) 21) in
  if Z.land b 0x80 =? 0 then Some (res, s) else
  '(b, s) ← get s;
  let res := Z.lor res (Z.shiftl (Z.land b 0x7f) 28) in
  if Z.land b 0x80 =? 0 then Some (res, s) else
  '(b, s) ← get s;
  let res := Z.lor res (Z.shiftl (Z.land b 0x7f) 35) in
  if Z.land b 0x80 =? 0 then Some (res, s) else
  '(b, s) ← get s;
  let res := Z.lor res (Z.shiftl (Z.land b 0x7f) 42) in
  if Z.land b 0x80 =? 0 then Some (res, s) else
  '(b, s) ← get s;
  let res := Z.lor res (Z.shiftl (Z.land b 0x7f) 49) in
  if Z.land b 0x80 =? 0 then Some (res, s) else
  '(b, s) ← get s;
  if Z.land b 0x80 =? 0
  then Some (Z.lor res (Z.shiftl (Z.land b 0x7f) 56), s) else
  '(b', s) ← get s;
  Some (Z.lor (Z.lor res (Z.shiftl (Z.land b 0x7f) 56))
          (cast T (Z.shiftl b' 63)), s).

Definition UnzipIntLE (pBuf : list Z) : option (Z * list Z) :=
  UnzipValueLE4 DWORD pBuf.

Definition UnzipOffsetLE (pBuf : list Z) : option (Z * list Z) :=
  UnzipValueLE8 SphOffset_t pBuf.

(** ** Encoded length *)

Lemma calc_len_loop_spec fuel u n :
  0 <= u < 2 ^ Z.of_nat fuel ->
  ∃ m, 0 <= m /\ calc_len_loop fuel u n = n + m /\ u < 128 ^ m /\
       (m = 0 \/ 128 ^ (m - 1) <= u).
Proof.
  revert u n. induction fuel as [|fuel IH]; intros u n Hu; cbn [calc_len_loop].
  { exists 0. simpl in Hu. lia. }
  destruct (Z.eqb_spec u 0) as [->|Hn]; [exists 0; lia|].
  rewrite Z.shiftr_div_pow2 by lia. change (2 ^ 7) with 128.
  destruct (IH (u / 128) (n + 1)) as (m & Hm & -> & Hlt & Hge).
  { rewrite Nat2Z.inj_succ, Z.pow_succ_r in Hu by lia.
    split; [apply Z.div_pos; lia|]. apply Z.div_lt_upper_bound; lia. }
  exists (m + 1). rewrite Z.pow_add_r by lia. change (128 ^ 1) with 128.
  pose proof (Z.mul_div_le u 128 ltac:(lia)).
  pose proof (Z.mul_succ_div_gt u 128 ltac:(lia)).
  repeat split; [lia|lia|nia|right].
  replace (m + 1 - 1) with m by lia.
  destruct (decide (m = 0)) as [->|]; [simpl; lia|].
  replace m with (m - 1 + 1) by lia. rewrite Z.pow_add_r by lia.
  change (128 ^ 1) with 128. nia.
Qed.

(** The zipped length is the least positive number of 7-bit groups that hold
    the unsigned image of the value. *)
Lemma sphCalcZippedLen_spec T v :
  0 <= bits T ->
  let n := sphCalcZippedLen T v in let u := wrap (bits T) v in
  1 <= n /\ u < 128 ^ n /\ (n = 1 \/ 128 ^ (n - 1) <= u).
Proof.
  intros Hb n u. unfold n, sphCalcZippedLen. fold u.
  pose proof (wrap_range (bits T) v Hb) as Hu. fold u in Hu.
  rewrite Z.shiftr_div_pow2 by lia. change (2 ^ 7) with 128.
  pose proof (Z.mul_div_le u 128 ltac:(lia)).
  pose proof (Z.mul_succ_div_gt u 128 ltac:(lia)).
  destruct (calc_len_loop_spec (Z.to_nat (bits T)) (u / 128) 1) as (m & Hm & -> & Hlt & Hge).
  { rewrite Z2Nat.id by lia. split; [apply Z.div_pos; lia|].
    apply Z.div_lt_upper_bound; lia. }
  rewrite Z.pow_add_r by lia. change (128 ^ 1) with 128.
  repeat split; [lia|nia|]. replace (1 + m - 1) with m by lia.
  destruct (decide (m = 0)) as [->|]; [lia|right].
  replace m with (m - 1 + 1) by lia.
  rewrite Z.pow_add_r by lia. change (128 ^ 1) with 128. nia.
Qed.

Lemma zip_be_loop_length n v : length (zip_be_loop n v) = n.
Proof. induction n; simpl; congruence. Qed.

(** ** Groups *)

Lemma group_low x : Z.land 0x7f x = x mod 128.
Proof. rewrite Z.land_comm. apply land_7f. Qed.

Lemma group_range x : 0 <= x mod 128 < 128.
Proof. apply Z.mod_pos_bound. lia. Qed.

Lemma group_cont d : 0 <= d < 128 -> Z.lor d 0x80 = d + 128.
Proof.
  intros Hd. rewrite Z.lor_comm.
  pose proof (lor_shiftl_add 1 d 7 ltac:(lia) Hd) as H.
  change (Z.shiftl 1 7) with 128 in H. lia.
Qed.

Lemma cont_hi d : 0 <= d < 128 -> (Z.land (d + 128) 0x80 =? 0) = false.
Proof. intros. rewrite byte_hi by (unfold is_byte; lia). lia. Qed.

Lemma cont_low d : 0 <= d < 128 -> Z.land (d + 128) 0x7f = d.
Proof.
  intros. rewrite land_7f.
  rewrite <- (Z.mul_1_l 128) at 1. rewrite Z_mod_plus_full. by apply Z.mod_small.
Qed.

Lemma last_hi d : 0 <= d < 128 -> (Z.land d 0x80 =? 0) = true.
Proof. intros. rewrite byte_hi by (unfold is_byte; lia). lia. Qed.

Lemma last_low d : 0 <= d < 128 -> Z.land d 0x7f = d.
Proof. intros. rewrite land_7f. by apply Z.mod_small. Qed.

(** ** Big-endian round trip *)

Lemma cast_snoc T res d :
  0 <= d < 128 -> cast T (Z.lor (Z.shiftl (cast T res) 7) d) = cast T (res * 128 + d).
Proof.
  intros Hd. rewrite lor_shiftl_add by lia. change (2 ^ 7) with 128.
  apply cast_eq. rewrite Zplus_mod, Zmult_mod, cast_cong.
  by rewrite <- Zmult_mod, <- Zplus_mod.
Qed.

Lemma unzip_be_zip T n v res rest :
  unzip_be_loop T (cast T res) (zip_be_loop (S n) v ++ rest) =
  Some (cast T (res * 128 ^ Z.of_nat (S n) + v mod 128 ^ Z.of_nat (S n)), rest).
Proof.
  revert res. induction n as [|n IH]; intros res.
  - cbn -[Z.land Z.lor Z.shiftl Z.mul Z.modulo Z.pow].
    rewrite Z.lor_0_r, group_low, Z.shiftr_0_r.
    pose proof (group_range v). rewrite last_hi, cast_snoc by done. done.
  - replace (zip_be_loop (S (S n)) v ++ rest) with
      (Z.lor (Z.land 0x7f (Z.shiftr v (7 * Z.of_nat (S n)))) 0x80
         :: zip_be_loop (S n) v ++ rest) by done.
    cbn [unzip_be_loop]. rewrite group_low. set (g := _ mod 128).
    pose proof (group_range (Z.shiftr v (7 * Z.of_nat (S n)))) as Hg. fold g in Hg.
    rewrite group_cont, cont_hi, cont_low, cast_snoc by done.
    rewrite IH. do 3 f_equal. unfold g.
    rewrite Z.shiftr_div_pow2, Z.pow_mul_r by lia. change (2 ^ 7) with 128.
    set (p := 128 ^ Z.of_nat (S n)).
    replace (128 ^ Z.of_nat (S (S n))) with (p * 128)
      by (unfold p; rewrite !Nat2Z.inj_succ, !Z.pow_succ_r by lia; lia).
    rewrite (Z.rem_mul_r v p 128) by (unfold p; lia). lia.
Qed.

(** The unsigned image reduced modulo the written groups determines the value. *)
Lemma zipped_value T v :
  0 < bits T -> in_type T v ->
  cast T (v mod 128 ^ sphCalcZippedLen T v) = v.
Proof.
  intros Hb Hv. rewrite <- (cast_id T v) at 3 by done. apply cast_eq.
  destruct (sphCalcZippedLen_spec T v) as (Hn & Hlt & _); [lia|].
  set (n := sphCalcZippedLen T v) in *.
  destruct (decide (bits T <= 7 * n)) as [Hbn|Hbn].
  - apply Z.mod_mod_divide. exists (2 ^ (7 * n - bits T)).
    rewrite <- Z.pow_add_r by lia. change 128 with (2 ^ 7).
    rewrite <- Z.pow_mul_r by lia. f_equal. lia.
  - unfold wrap in Hlt. change 128 with (2 ^ 7) in *. rewrite <- Z.pow_mul_r in * by lia.
    pose proof (wrap_range (bits T) v ltac:(lia)) as Hr. unfold wrap in Hr.
    assert (v mod 2 ^ (7 * n) = v mod 2 ^ bits T) as ->; [|apply Zmod_mod].
    rewrite <- (Z.mod_mod_divide v (2 ^ bits T) (2 ^ (7 * n))).
    { apply Z.mod_small. lia. }
    exists (2 ^ (bits T - 7 * n)). rewrite <- Z.pow_add_r by lia. f_equal. lia.
Qed.

Lemma unzip_be_reference_zip T v rest :
  0 < bits T -> in_type T v ->
  UnzipValueBE_reference T (ZipValueBE T v ++ rest) = Some (v, rest).
Proof.
  intros Hb Hv. unfold UnzipValueBE_reference, ZipValueBE.
  destruct (sphCalcZippedLen_spec T v) as (Hn & _); [lia|].
  destruct (Z.to_nat (sphCalcZippedLen T v)) as [|n] eqn:En; [lia|].
  assert (0 = cast T 0) as -> by (symmetry; apply cast_id; [|unfold in_type; destruct (is_signed T)]; lia).
  rewrite unzip_be_zip, Z.mul_0_l, Z.add_0_l, <- En, Z2Nat.id by lia.
  by rewrite zipped_value.
Qed.

(** *** The unrolled big-endian reader *)

(** Number of leading bytes with the continuation flag. *)
Fixpoint cont_prefix (s : list Z) : nat :=
  match s with
  | [] => O
  | b :: s' => if Z.land b 0x80 =? 0 then O else S (cont_prefix s')
  end.

Lemma land_hi_0 b : is_byte b -> (Z.land b 0x80 =? 0) = true -> Z.land b 0x7f = b.
Proof.
  intros Hb. rewrite byte_hi, Z.ltb_lt by done. intros. apply last_low.
  unfold is_byte in Hb. lia.
Qed.

(** One byte of the unrolled reader against one turn of the loop. *)
Ltac be_step s Hs :=
  let b := fresh "b" in
  destruct s as [|b s]; [done|];
  cbn [get mbind option_bind unzip_be_loop cont_prefix] in *;
  apply Forall_cons_1 in Hs; destruct Hs as [? Hs];
  destruct (Z.land b 0x80 =? 0) eqn:?; [by rewrite (land_hi_0 b) by done|].

Lemma UnzipValueBE4_loop T s :
  bits T = 32 -> Forall is_byte s -> (cont_prefix s <= 4)%nat ->
  UnzipValueBE4 T s = unzip_be_loop T 0 s.
Proof.
  intros HT Hs Hc.
  assert (∀ d, 0 <= d < 128 -> cast T d = d) as Hid.
  { intros d Hd. apply cast_id; [lia|]. unfold in_type. rewrite HT.
    destruct (is_signed T); lia. }
  unfold UnzipValueBE4.
  destruct s as [|b0 s]; [done|]. cbn [get mbind option_bind unzip_be_loop cont_prefix] in *.
  inversion Hs as [|? ? Hb0 Hs0]; subst. rewrite Z.shiftl_0_l, !Z.lor_0_l.
  destruct (Z.land b0 0x80 =? 0) eqn:E0; [by rewrite land_hi_0|].
  rewrite Hid by (rewrite land_7f; apply group_range). clear Hs Hid.
  do 3 be_step s Hs0. destruct s as [|b4 s]; [done|].
  cbn [get mbind option_bind unzip_be_loop cont_prefix] in *.
  destruct (Z.land b4 0x80 =? 0); [done|lia].
Qed.

(** ** Little-endian round trip *)

Lemma unzip_le_zip T fuel u res off rest :
  0 < bits T <= 64 -> 0 <= off -> 0 <= u < 2 ^ Z.of_nat fuel ->
  (0 < fuel)%nat -> off < bits T -> u * 2 ^ off < 2 ^ bits T ->
  unzip_le_loop T res off (zip_le_loop fuel u ++ rest) =
  Some (cast T (res + u * 2 ^ off), rest).
Proof.
  intros HT. revert u res off. induction fuel as [|fuel IH]; intros u res off Ho Hu Hf Hoff Hlt; [lia|].
  cbn [zip_le_loop]. rewrite land_7f, Z.shiftr_div_pow2 by lia. change (2 ^ 7) with 128.
  pose proof (group_range u) as Hg. pose proof (Z.div_mod u 128 ltac:(lia)) as Hdm.
  assert (0 <= u / 128) by (apply Z.div_pos; lia).
  assert (∀ d, cast T (res + cast T (Z.shiftl d off)) = cast T (res + d * 2 ^ off)) as Hc.
  { intros d. apply cast_eq. rewrite Zplus_mod, cast_cong, <- Zplus_mod.
    by rewrite Z.shiftl_mul_pow2 by lia. }
  case_match eqn:E.
  - apply Z.eqb_eq in E. rewrite E in Hdm. cbn [app unzip_le_loop].
    rewrite (proj2 (Z.leb_gt _ _)) by lia. rewrite last_hi, last_low, Hc by lia.
    by replace (u mod 128) with u by lia.
  - apply Z.eqb_neq in E. cbn [app unzip_le_loop].
    rewrite (proj2 (Z.leb_gt _ _)) by lia. rewrite group_cont, cont_hi, cont_low, Hc by lia.
    assert (0 < 2 ^ off) by (apply Z.pow_pos_nonneg; lia).
    assert (2 ^ (off + 7) = 128 * 2 ^ off) as Hp by (rewrite Z.pow_add_r by lia; lia).
    assert (off + 7 < bits T).
    { apply (Z.pow_lt_mono_r_iff 2); [lia|lia|]. rewrite Hp. nia. }
    rewrite (cast_id BYTE (off + 7)) by (cbv [BYTE bits is_signed in_type]; lia).
    rewrite IH.
    + do 2 f_equal. apply cast_eq. rewrite Zplus_mod, cast_cong, <- Zplus_mod.
      f_equal. rewrite Hp. nia.
    + lia.
    + rewrite Nat2Z.inj_succ, Z.pow_succ_r in Hu by lia.
      split; [lia|apply Z.div_lt_upper_bound; lia].
    + destruct fuel; [|lia]. simpl in Hu. assert (u / 128 = 0); [|lia].
      apply Z.div_small; lia.
    + lia.
    + rewrite Hp. nia.
Qed.

Lemma unzip_le_reference_zip T v rest :
  0 < bits T <= 64 -> in_type T v ->
  UnzipValueLE_reference T (ZipValueLE T v ++ rest) = Some (v, rest).
Proof.
  intros Hb Hv. unfold UnzipValueLE_reference, ZipValueLE.
  pose proof (wrap_range (bits T) v ltac:(lia)).
  rewrite unzip_le_zip; rewrite ?Z2Nat.id by lia; try lia.
  rewrite Z.mul_1_r, Z.add_0_l. rewrite <- (cast_id T v) at 2 by (done || lia).
  do 2 f_equal. apply cast_eq. apply Zmod_mod.
Qed.

(** *** The unrolled little-endian readers *)

Lemma le_step T res off b s :
  0 <= off -> off + 7 < bits T <= 64 -> 0 <= res < 2 ^ off ->
  let res' := Z.lor res (Z.shiftl (Z.land b 0x7f) off) in
  0 <= res' < 2 ^ (off + 7) /\
  unzip_le_loop T res off (b :: s) =
    if Z.land b 0x80 =? 0 then Some (res', s) else unzip_le_loop T res' (off + 7) s.
Proof.
  intros Ho Hb Hr res'. cbn [unzip_le_loop].
  rewrite (proj2 (Z.leb_gt _ _)) by lia.
  rewrite (cast_id BYTE (off + 7)) by (cbv [BYTE bits is_signed in_type]; lia).
  assert (res' = Z.land b 0x7f * 2 ^ off + res) as Hres'.
  { unfold res'. rewrite Z.lor_comm. apply lor_shiftl_add; lia. }
  assert (2 ^ (off + 7) = 128 * 2 ^ off) as Hp by (rewrite Z.pow_add_r by lia; lia).
  rewrite land_7f in Hres'. pose proof (group_range b).
  assert (0 <= res' < 2 ^ (off + 7)) as Hres by (rewrite Hp; nia).
  assert (cast T (res + cast T (Z.shiftl (Z.land b 0x7f) off)) = res') as ->; [|done].
  assert (2 ^ (off + 7) <= 2 ^ (bits T - 1)) by (apply Z.pow_le_mono_r; lia).
  assert (2 ^ (bits T - 1) <= 2 ^ bits T) by (apply Z.pow_le_mono_r; lia).
  rewrite land_7f, Z.shiftl_mul_pow2 by lia.
  assert (∀ x, 0 <= x < 2 ^ (bits T - 1) -> cast T x = x) as Hid.
  { intros x Hx. apply cast_id; [lia|]. unfold in_type. destruct (is_signed T); lia. }
  rewrite (Hid (_ * _)) by nia. rewrite Hid by lia. lia.
Qed.

(** The last group of the widest encoding: only its low bits are kept. *)
Lemma cast_top T b off :
  0 <= off -> off + 7 >= bits T -> 0 < bits T ->
  cast T (Z.shiftl (Z.land b 0x7f) off) = cast T (Z.shiftl b off).
Proof.
  intros. apply cast_eq. rewrite land_7f, !Z.shiftl_mul_pow2 by lia.
  rewrite (Z.div_mod b 128) at 2 by lia.
  replace ((128 * (b / 128) + b mod 128) * 2 ^ off) with
    (b mod 128 * 2 ^ off + b / 128 * 2 ^ (off + 7 - bits T) * 2 ^ bits T).
  { by rewrite Z_mod_plus_full. }
  rewrite <- Z.mul_assoc, <- Z.pow_add_r by lia.
  replace (off + 7 - bits T + bits T) with (7 + off) by lia.
  rewrite Z.pow_add_r by lia. lia.
Qed.

(** What the reference does with a last group at offset [off = bits - k]. *)
Lemma le_last T res off b s r :
  0 <= off < bits T -> bits T <= off + 7 -> bits T <= 64 -> 0 <= res < 2 ^ off ->
  unzip_le_loop T res off (b :: s) = Some r ->
  r = (cast T (res + cast T (Z.shiftl b off)), s).
Proof.
  intros Ho Hb Hb' Hr. cbn [unzip_le_loop].
  rewrite (proj2 (Z.leb_gt _ _)) by lia.
  rewrite (cast_id BYTE (off + 7)) by (cbv [BYTE bits is_signed in_type]; lia).
  rewrite cast_top by lia. case_match; [by intros [= <-]|].
  destruct s; cbn [unzip_le_loop]; [done|].
  by rewrite (proj2 (Z.leb_le _ _)) by lia.
Qed.
Lemma lor_top res b off :
  0 <= off -> 0 <= res < 2 ^ off -> Z.lor res (Z.shiftl b off) = res + Z.shiftl b off.
Proof.
  intros. rewrite Z.lor_comm, lor_shiftl_add, Z.shiftl_mul_pow2 by lia. lia.
Qed.

(** One byte of an unrolled little-endian reader against one turn of the
    reference loop, from offset [off] to [off']. *)
Ltac le_unroll T s off off' Hid :=
  let b := fresh "b" in let Hr' := fresh "Hr" in
  destruct s as [|b s]; [done|];
  match goal with
  | Hr : 0 <= ?res < 2 ^ off |- _ =>
      destruct (le_step T res off b s) as [Hr' ->]; [lia|lia|exact Hr|];
      change (off + 7) with off' in *; rewrite ?Z.shiftl_0_r, ?Z.lor_0_l in *;
      clear Hr; cbn [get mbind option_bind];
      destruct (Z.land b 0x80 =? 0);
        [intros [= <-]; by rewrite ?Hid by (revert Hr'; clear; lia)|]
  end.

Lemma UnzipValueLE4_refines T s r :
  bits T = 32 -> UnzipValueLE_reference T s = Some r -> UnzipValueLE4 T s = Some r.
Proof.
  intros HT. unfold UnzipValueLE_reference, UnzipValueLE4.
  assert (0 <= 0 < 2 ^ 0) by lia.
  assert (∀ x, 0 <= x < 2 ^ 28 -> cast T x = x) as Hid.
  { intros x Hx. apply cast_id; [lia|]. unfold in_type. rewrite HT. destruct (is_signed T); lia. }
  le_unroll T s 0 7 Hid. le_unroll T s 7 14 Hid. le_unroll T s 14 21 Hid. le_unroll T s 21 28 Hid.
  destruct s as [|b' s]; [done|]. intros E.
  apply le_last in E as ->; [|lia..]. cbn [get mbind option_bind]. do 2 f_equal.
  match goal with |- cast T (Z.lor ?x _) = _ => set (res := x) in * end.
  assert (∃ k, cast DWORD (Z.shiftl b' 28) = Z.shiftl k 28 /\
               k * 2 ^ 28 mod 2 ^ 32 = Z.shiftl b' 28 mod 2 ^ 32) as (k & -> & Hk).
  { exists (b' mod 2 ^ 4). rewrite !Z.shiftl_mul_pow2 by lia.
    unfold cast, wrap; simpl (is_signed _); simpl (bits _).
    change (2 ^ 32) with (2 ^ 4 * 2 ^ 28). by rewrite !Zmult_mod_distr_r, Zmod_mod. }
  rewrite lor_top by lia. apply cast_eq. rewrite HT.
  rewrite (Zplus_mod res (cast _ _)). pose proof (cast_cong T (Z.shiftl b' 28)) as Hc.
  rewrite HT in Hc. rewrite Hc, <- Zplus_mod, <- (Zplus_mod_idemp_r (Z.shiftl b' 28)), <- Hk.
  by rewrite Zplus_mod_idemp_r, Z.shiftl_mul_pow2.
Qed.

(** The tenth byte contributes the top bit only. *)
Lemma cast_bit63 T b res :
  bits T = 64 -> 0 <= res < 2 ^ 63 ->
  ∃ k, cast T (Z.shiftl b 63) = Z.shiftl k 63 /\ in_type T (k * 2 ^ 63 + res).
Proof.
  intros HT Hr. unfold cast, in_type, wrap. rewrite HT, Z.shiftl_mul_pow2 by lia.
  change (2 ^ 64) with (2 * 2 ^ 63). rewrite Zmult_mod_distr_r.
  pose proof (Z.mod_pos_bound b 2 ltac:(lia)). change (64 - 1) with 63.
  destruct (is_signed T).
  - destruct (Z.ltb_spec (b mod 2 * 2 ^ 63) (2 ^ 63)).
    + exists 0. rewrite Z.shiftl_0_l. lia.
    + exists (-1). rewrite Z.shiftl_mul_pow2 by lia. lia.
  - exists (b mod 2). rewrite Z.shiftl_mul_pow2 by lia. lia.
Qed.

Lemma UnzipValueLE8_refines T s r :
  bits T = 64 -> UnzipValueLE_reference T s = Some r -> UnzipValueLE8 T s = Some r.
Proof.
  intros HT. unfold UnzipValueLE_reference, UnzipValueLE8.
  assert (0 <= 0 < 2 ^ 0) by lia.
  le_unroll T s 0 7 tt. le_unroll T s 7 14 tt. le_unroll T s 14 21 tt. le_unroll T s 21 28 tt.
  le_unroll T s 28 35 tt. le_unroll T s 35 42 tt. le_unroll T s 42 49 tt. le_unroll T s 49 56 tt.
  le_unroll T s 56 63 tt.
  destruct s as [|b' s]; [done|]. intros E.
  apply le_last in E as ->; [|lia..]. cbn [get mbind option_bind]. do 2 f_equal.
  match goal with |- Z.lor ?x _ = _ => set (res := x) in * end.
  destruct (cast_bit63 T b' res) as (k & -> & Hk); [done|lia|].
  rewrite lor_top by lia. symmetry. apply cast_id; [lia|].
  by rewrite Z.shiftl_mul_pow2, Z.add_comm by lia.
Qed.

(** ** The properties *)

Lemma zip_be_bytes n v : Forall is_byte (zip_be_loop n v).
Proof.
  induction n as [|n IH]; cbn [zip_be_loop]; constructor; [|done].
  rewrite group_low. pose proof (group_range (Z.shiftr v (7 * Z.of_nat n))).
  unfold is_byte. destruct n; [rewrite Z.lor_0_r|rewrite group_cont by done]; lia.
Qed.

Lemma zip_be_cont n v rest : cont_prefix (zip_be_loop (S n) v ++ rest) = n.
Proof.
  induction n as [|n IH].
  - cbn -[Z.land Z.lor Z.mul Z.modulo Z.shiftr].
    rewrite Z.lor_0_r, group_low, last_hi by apply group_range. done.
  - change (zip_be_loop (S (S n)) v ++ rest) with
      (Z.lor (Z.land 0x7f (Z.shiftr v (7 * Z.of_nat (S n)))) 0x80
         :: zip_be_loop (S n) v ++ rest).
    cbn [cont_prefix]. rewrite group_low, group_cont, cont_hi by apply group_range.
    by rewrite IH.
Qed.

Lemma sphCalcZippedLen_max T v :
  0 <= bits T -> 7 * (sphCalcZippedLen T v - 1) < Z.max 1 (bits T).
Proof.
  intros Hb. destruct (sphCalcZippedLen_spec T v Hb) as (Hn & _ & [->|Hge]); [lia|].
  pose proof (wrap_range (bits T) v Hb) as Hu.
  set (n := sphCalcZippedLen T v) in *.
  assert (7 * (n - 1) < bits T); [|lia].
  apply (Z.pow_lt_mono_r_iff 2); [lia|lia|]. rewrite Z.pow_mul_r by lia.
  change (2 ^ 7) with 128. lia.
Qed.

(** The number of bytes [ZipValueBE] puts is the length
    [sphCalcZippedLen] computes: at least one, at most [ceil(bits/7)], and the
    least number of 7-bit groups that hold the value. *)
Theorem zip_be_length T v (Hb : 0 < bits T) :
  let n := sphCalcZippedLen T v in
  Z.of_nat (length (ZipValueBE T v)) = n /\
  1 <= n /\ 7 * (n - 1) < bits T /\
  wrap (bits T) v < 128 ^ n /\ (n = 1 \/ 128 ^ (n - 1) <= wrap (bits T) v).
Proof.
  intros n. pose proof (sphCalcZippedLen_spec T v ltac:(lia)) as Hs. cbv zeta in Hs. fold n in Hs.
  pose proof (sphCalcZippedLen_max T v ltac:(lia)) as Hm. fold n in Hm.
  unfold ZipValueBE. rewrite zip_be_loop_length. fold n.
  destruct Hs as (? & ? & ?). repeat split; [lia|done|lia|done|done].
Qed.

Lemma zip_be_length_witness :
  Z.of_nat (length (ZipValueBE DWORD 300)) = sphCalcZippedLen DWORD 300.
Proof. apply (zip_be_length DWORD 300). reflexivity. Defined.

Lemma zint_bytes v : Forall is_byte (zint v).
Proof. apply zip_be_bytes. Qed.
Lemma zoff_bytes v : Forall is_byte (zoff v).
Proof. apply zip_be_bytes. Qed.

(** Encoded data are bytes. *)
Ltac bytes :=
  repeat match goal with
  | |- Forall is_byte (_ ++ _) => apply Forall_app; split
  | |- Forall is_byte (zint _) => apply zint_bytes
  | |- Forall is_byte (zoff _) => apply zoff_bytes
  | |- Forall is_byte (if ?b then _ else _) => destruct b
  | |- _ => assumption
  end.

Lemma zint_ne v : (0 < length (zint v))%nat.
Proof.
  unfold zint, ZipValueBE. rewrite zip_be_loop_length.
  destruct (sphCalcZippedLen_spec DWORD v) as [H _]; [simpl; lia|]. lia.
Qed.

Lemma zoff_ne v : (0 < length (zoff v))%nat.
Proof.
  unfold zoff, ZipValueBE. rewrite zip_be_loop_length.
  destruct (sphCalcZippedLen_spec uint64_t v) as [H _]; [simpl; lia|]. lia.
Qed.

Lemma unzip_be4_zip T v rest :
  bits T = 32 -> in_type T v -> Forall is_byte rest ->
  UnzipValueBE4 T (ZipValueBE T v ++ rest) = Some (v, rest).
Proof.
  intros HT Hv Hrest.
  rewrite UnzipValueBE4_loop; [by apply unzip_be_reference_zip; [lia|]|done|..].
  - apply Forall_app; split; [apply zip_be_bytes|done].
  - destruct (sphCalcZippedLen_spec T v) as [Hlen _]; [lia|].
    pose proof (sphCalcZippedLen_max T v ltac:(lia)). unfold ZipValueBE.
    destruct (Z.to_nat (sphCalcZippedLen T v)) eqn:E; [lia|].
    rewrite zip_be_cont. lia.
Qed.

Lemma unzip_be8_zip T v rest :
  bits T = 64 -> in_type T v -> UnzipValueBE8 T (ZipValueBE T v ++ rest) = Some (v, rest).
Proof. intros HT Hv. apply unzip_be_reference_zip; [lia|done]. Qed.

(** Big-endian round trip, both widths and both signednesses: the
    unrolled 4-byte reader and the 8-byte reader return the value that was
    zipped and leave the rest of the buffer untouched. *)
Theorem zip_be_roundtrip T v rest (Hv : in_type T v) (Hrest : Forall is_byte rest) :
  (bits T = 32 -> UnzipValueBE4 T (ZipValueBE T v ++ rest) = Some (v, rest)) /\
  (bits T = 64 -> UnzipValueBE8 T (ZipValueBE T v ++ rest) = Some (v, rest)).
Proof.
  split; intros HT; [by apply unzip_be4_zip|by apply unzip_be8_zip].
Qed.

Lemma zip_be_roundtrip_witness :
  UnzipOffsetBE (ZipValueBE SphOffset_t (-300) ++ [1]) = Some (-300, [1]).
Proof.
  refine (proj2 (zip_be_roundtrip SphOffset_t (-300) [1] _ _) eq_refl).
  - cbv [in_type SphOffset_t int64_t is_signed bits]. lia.
  - repeat constructor; unfold is_byte; lia.
Defined.

(** Little-endian round trip through the unrolled readers, both widths
    and both signednesses. *)
Theorem zip_le_roundtrip T v rest (Hv : in_type T v) :
  (bits T = 32 -> UnzipValueLE4 T (ZipValueLE T v ++ rest) = Some (v, rest)) /\
  (bits T = 64 -> UnzipValueLE8 T (ZipValueLE T v ++ rest) = Some (v, rest)).
Proof.
  split; intros HT; [apply UnzipValueLE4_refines|apply UnzipValueLE8_refines];
    try done; apply unzip_le_reference_zip; (lia || done).
Qed.

Lemma zip_le_roundtrip_witness :
  UnzipIntLE (ZipValueLE DWORD 0xfedcba98 ++ [1]) = Some (0xfedcba98, [1]).
Proof.
  refine (proj1 (zip_le_roundtrip DWORD 0xfedcba98 [1] _) eq_refl).
  cbv [in_type DWORD is_signed bits]. lia.
Defined.

(** The unrolled readers implement the reference loops on every input,
    well-formed or not: the big-endian one wherever the reference stops within
    five bytes, the little-endian ones wherever the reference has defined
    behaviour. *)
Theorem unzip_unrolled_reference T s (Hs : Forall is_byte s) :
  (bits T = 32 -> (cont_prefix s <= 4)%nat ->
     UnzipValueBE4 T s = UnzipValueBE_reference T s) /\
  (bits T = 64 -> UnzipValueBE8 T s = UnzipValueBE_reference T s) /\
  (bits T = 32 -> ∀ r, UnzipValueLE_reference T s = Some r -> UnzipValueLE4 T s = Some r) /\
  (bits T = 64 -> ∀ r, UnzipValueLE_reference T s = Some r -> UnzipValueLE8 T s = Some r).
Proof.
  repeat split; intros.
  - by apply UnzipValueBE4_loop.
  - by apply UnzipValueLE4_refines.
  - by apply UnzipValueLE8_refines.
Qed.

Lemma unzip_unrolled_reference_witness :
  UnzipValueBE4 DWORD [0x82; 0x2c; 9] = UnzipValueBE_reference DWORD [0x82; 0x2c; 9].
Proof.
  refine (proj1 (unzip_unrolled_reference DWORD [0x82; 0x2c; 9] _) eq_refl _);
    [|vm_compute; lia].
  repeat constructor; unfold is_byte; lia.
Defined.

(** A number read at another signedness is the same number cast. *)
Lemma unzip_be_cast T T' r s :
  bits T = bits T' -> Forall is_byte s ->
  unzip_be_loop T' (cast T' r) s = (λ p : Z * list Z, (cast T' p.1, p.2)) <$> unzip_be_loop T (cast T r) s.
Proof.
  intros Hb Hs. revert r. induction Hs as [|b s Hbyte Hs IH]; intros r; [done|]. cbn [unzip_be_loop].
  assert (∀ x y, 0 <= y < 128 -> cast T' (Z.lor (Z.shiftl (cast T' x) 7) y) = cast T' (Z.lor (Z.shiftl x 7) y)) as C'.
  { intros x y Hy. rewrite !lor_shiftl_add by lia. apply cast_eq.
    rewrite Zplus_mod, Zmult_mod, cast_cong, <- Zmult_mod, <- Zplus_mod. done. }
  assert (∀ x y, 0 <= y < 128 -> cast T (Z.lor (Z.shiftl (cast T x) 7) y) = cast T (Z.lor (Z.shiftl x 7) y)) as C.
  { intros x y Hy. rewrite !lor_shiftl_add by lia. apply cast_eq.
    rewrite Zplus_mod, Zmult_mod, cast_cong, <- Zmult_mod, <- Zplus_mod. done. }
  assert (∀ x, cast T' (cast T x) = cast T' x) as CC by (intros x; apply cast_eq; rewrite <- Hb; apply cast_cong).
  unfold is_byte in Hbyte. rewrite byte_hi by done. destruct (Z.ltb_spec b 128).
  - simpl. by rewrite C', C, CC by lia.
  - rewrite land_7f. pose proof (Z.mod_pos_bound b 128 ltac:(lia)). rewrite C', C by lia. apply IH.
Qed.

Lemma unzip_offset_zoff v rest :
  in_type uint64_t v -> Forall is_byte rest ->
  UnzipOffsetBE (zoff v ++ rest) = Some (cast SphOffset_t v, rest).
Proof.
  intros Hv Hr. unfold UnzipOffsetBE, UnzipValueBE8. change 0 with (cast SphOffset_t 0).
  rewrite (unzip_be_cast uint64_t) by (done || (apply Forall_app; split; [apply zoff_bytes|done])).
  change (cast uint64_t 0) with 0. change (unzip_be_loop uint64_t 0) with (UnzipValueBE8 uint64_t).
  unfold zoff. by rewrite unzip_be8_zip.
Qed.
End Zip.
