(* ===== verification/Hits.v ===== *)
(** * Hit positions and field masks (src/src/sphinx.h)

    A hit position packs a field number, a field-end marker and a position
    into 32 bits; a field mask is an array of [SIZE] double words, one bit per
    full-text field. *)

From S2P Require Import Prelude.

Module Hitman.

Definition FIELD_OFF : Z := 24.
Definition POS_BITS : Z := 23.
Definition FIELDEND_MASK : Z := 0x00800000.
Definition POS_MASK : Z := 0x007FFFFF.
Definition FIELD_MASK : Z := 0xFF000000.
Definition EMPTY_HIT : Z := 0.

Definition Create (iField iPos : Z) (bEnd : bool) : Z :=
  cast DWORD (Z.shiftl iField FIELD_OFF + Z.shiftl (Z.b2z bEnd) POS_BITS + Z.land iPos POS_MASK).

Definition GetField (uHitpos : Z) : Z := Z.shiftr uHitpos FIELD_OFF.
Definition GetPos (uHitpos : Z) : Z := Z.land uHitpos POS_MASK.
Definition IsEnd (uHitpos : Z) : bool := negb (Z.land uHitpos FIELDEND_MASK =? 0).
(** [uHitpos & ~FIELDEND_MASK] in 32 bits. *)
Definition GetPosWithField (uHitpos : Z) : Z := Z.land uHitpos 0xFF7FFFFF.
Definition SetEndMarker (uHitpos : Z) : Z := Z.lor uHitpos FIELDEND_MASK.
Definition AddPos (uHitpos iAdd : Z) : Z := cast DWORD (uHitpos + iAdd).
Definition CreateSum (uHitpos iAdd : Z) : Z := Z.land (cast DWORD (uHitpos + iAdd)) (cast DWORD (Z.lnot FIELDEND_MASK)).
Definition DecrementField (uHitpos : Z) : Z := cast DWORD (uHitpos - Z.shiftl 1 FIELD_OFF).

Lemma testbit_high x k i : 0 <= x < 2 ^ k -> k <= i -> Z.testbit x i = false.
Proof.
  intros Hx Hi. destruct (decide (0 <= k)); [|rewrite Z.pow_neg_r in Hx; lia].
  rewrite <- (Z.mod_small x (2 ^ k)) by lia. apply Z.mod_pow2_bits_high. lia.
Qed.

(** A hit position is the concatenation of its parts. *)
Definition pack (f : Z) (e : bool) (p : Z) : Z :=
  Z.lor (Z.shiftl f 24) (Z.lor (Z.shiftl (Z.b2z e) 23) p).

Lemma pack_eq f e p :
  0 <= p < 2 ^ 23 -> pack f e p = f * 2 ^ 24 + Z.b2z e * 2 ^ 23 + p.
Proof.
  intros. unfold pack. rewrite (lor_shiftl_add _ p), (lor_shiftl_add f) by (destruct e; simpl; lia).
  lia.
Qed.

Lemma pack_bits f e p i :
  0 <= p < 2 ^ 23 -> 0 <= i ->
  Z.testbit (pack f e p) i =
  if i <? 23 then Z.testbit p i else if i =? 23 then e else Z.testbit f (i - 24).
Proof.
  intros Hp Hi. unfold pack. rewrite !Z.lor_spec, !Z.shiftl_spec by lia.
  destruct (Z.ltb_spec i 23); [|rewrite (testbit_high p 23 i) by lia; destruct (Z.eqb_spec i 23)].
  - by rewrite !(Z.testbit_neg_r _ (_ - _)) by lia.
  - subst i. rewrite (Z.testbit_neg_r f) by lia. by destruct e.
  - rewrite (testbit_high (Z.b2z e) 1) by (destruct e; simpl; lia). by rewrite !orb_false_r.
Qed.

Lemma Create_pack f p e : 0 <= f < 256 -> 0 <= p < 2 ^ 23 -> Create f p e = pack f e p.
Proof.
  intros Hf Hp. unfold Create, FIELD_OFF, POS_BITS, POS_MASK.
  change 0x7FFFFF with (2 ^ 23 - 1).
  rewrite (land_ones_mod p 23), (Z.mod_small p), !Z.shiftl_mul_pow2, pack_eq by lia.
  apply cast_id; [done|]. unfold in_type. simpl. destruct e; simpl; lia.
Qed.

Lemma land_pos_mask_bits i : 0 <= i < 32 -> Z.testbit 0xFF7FFFFF i = negb (i =? 23).
Proof.
  intros Hi. change 0xFF7FFFFF with (Z.lxor (Z.ones 32) (2 ^ 23)).
  rewrite Z.lxor_spec, Z.ones_spec_low, Z.pow2_bits_eqb, Z.eqb_sym by lia.
  by destruct (i =? 23).
Qed.

Lemma pack_pos_field f e p :
  0 <= f < 256 -> 0 <= p < 2 ^ 23 -> GetPosWithField (pack f e p) = pack f false p.
Proof.
  intros Hf Hp. apply Z.bits_inj'. intros i Hi. unfold GetPosWithField.
  rewrite Z.land_spec, !pack_bits by lia.
  destruct (decide (i < 32)).
  - rewrite land_pos_mask_bits by lia.
    destruct (Z.ltb_spec i 23), (Z.eqb_spec i 23); simpl; try lia; rewrite ?andb_true_r, ?andb_false_r; done.
  - rewrite (proj2 (Z.ltb_ge i 23)), (proj2 (Z.eqb_neq i 23)) by lia.
    by rewrite (testbit_high f 8) by lia.
Qed.

Lemma pack_set_end f e p : 0 <= p < 2 ^ 23 -> SetEndMarker (pack f e p) = pack f true p.
Proof.
  intros Hp. apply Z.bits_inj'. intros i Hi. unfold SetEndMarker.
  change FIELDEND_MASK with (2 ^ 23).
  rewrite Z.lor_spec, Z.pow2_bits_eqb, !pack_bits by lia.
  destruct (Z.ltb_spec i 23), (Z.eqb_spec i 23), (Z.eqb_spec 23 i); try lia;
    rewrite ?orb_false_r, ?orb_true_r; done.
Qed.

Lemma pack_is_end f e p : 0 <= p < 2 ^ 23 -> IsEnd (pack f e p) = e.
Proof.
  intros Hp. unfold IsEnd. change FIELDEND_MASK with (2 ^ 23).
  assert (∀ i, 0 <= i -> Z.testbit (Z.land (pack f e p) (2 ^ 23)) i = (i =? 23) && e) as Hb.
  { intros i Hi. rewrite Z.land_spec, Z.pow2_bits_eqb, pack_bits by lia.
    destruct (Z.ltb_spec i 23), (Z.eqb_spec i 23), (Z.eqb_spec 23 i); try lia;
      rewrite ?andb_false_r, ?andb_true_r; done. }
  destruct (Z.eqb_spec (Z.land (pack f e p) (2 ^ 23)) 0) as [E|N].
  - specialize (Hb 23). rewrite E, Z.bits_0 in Hb. simpl in *. by rewrite <- Hb.
  - destruct e; [done|]. destruct N. apply Z.bits_inj'. intros i Hi.
    by rewrite Hb, andb_false_r, Z.bits_0.
Qed.

(** The three parts of a hit position do not interfere. *)
Lemma pack_parts f e p :
  0 <= f < 256 -> 0 <= p < 2 ^ 23 ->
  GetField (pack f e p) = f /\ GetPos (pack f e p) = p.
Proof.
  intros Hf Hp. unfold GetField, GetPos, FIELD_OFF. change POS_MASK with (2 ^ 23 - 1).
  rewrite land_ones_mod, Z.shiftr_div_pow2, pack_eq by lia.
  change (2 ^ 24) with 16777216. change (2 ^ 23) with 8388608 in *.
  destruct e; cbn [Z.b2z]; split; Z.to_euclidean_division_equations; lia.
Qed.

(** Every 32-bit hit position is such a concatenation. *)
Lemma dword_pack p :
  in_type DWORD p -> ∃ f e x, 0 <= f < 256 /\ 0 <= x < 2 ^ 23 /\ p = pack f e x.
Proof.
  unfold in_type. cbn [is_signed DWORD bits]. intros Hp.
  exists (p / 2 ^ 24), (negb ((p / 2 ^ 23) mod 2 =? 0)), (p mod 2 ^ 23).
  pose proof (Z.mod_pos_bound p (2 ^ 23) ltac:(lia)) as Hx.
  split; [|split; [done|]].
  - split; [apply Z.div_pos; lia|apply Z.div_lt_upper_bound; lia].
  - rewrite pack_eq by done. change (2 ^ 24) with (2 ^ 23 * 2).
    rewrite <- Z.div_div by lia. pose proof (Z.div_mod p (2 ^ 23) ltac:(lia)).
    pose proof (Z.div_mod (p / 2 ^ 23) 2 ltac:(lia)).
    pose proof (Z.mod_pos_bound (p / 2 ^ 23) 2 ltac:(lia)).
    destruct (Z.eqb_spec ((p / 2 ^ 23) mod 2) 0); simpl Z.b2z; lia.
Qed.

Lemma pos_field_end p :
  in_type DWORD p ->
  GetField (GetPosWithField p) = GetField p /\ in_type DWORD (GetPosWithField p) /\
  (if IsEnd p then SetEndMarker (GetPosWithField p) = p /\ GetPosWithField p <> p
   else GetPosWithField p = p).
Proof.
  intros (f & e & x & Hf & Hx & ->)%dword_pack.
  rewrite pack_pos_field, pack_is_end by done.
  destruct (pack_parts f false x Hf Hx) as [-> _], (pack_parts f e x Hf Hx) as [-> _].
  split; [done|]. split.
  - unfold in_type. cbn [is_signed DWORD bits]. rewrite pack_eq by done. simpl Z.b2z. lia.
  - destruct e; [|done]. rewrite pack_set_end by done. split; [done|].
    rewrite !pack_eq by done. simpl Z.b2z. lia.
Qed.

(** Field, position and end marker of a hit position are recovered from
    what [Create] packed; [GetPosWithField] clears the marker and
    [SetEndMarker] sets it without touching field or position. *)
Theorem hitman_parts f p e :
  0 <= f < 256 -> 0 <= p < 2 ^ 23 ->
  GetField (Create f p e) = f /\ GetPos (Create f p e) = p /\ IsEnd (Create f p e) = e /\
  GetPosWithField (Create f p e) = Create f p false /\
  SetEndMarker (Create f p e) = Create f p true.
Proof.
  intros Hf Hp. rewrite !Create_pack by done. destruct (pack_parts f e p Hf Hp).
  split; [done|]. split; [done|]. split; [by apply pack_is_end|].
  split; [by apply pack_pos_field|by apply pack_set_end].
Qed.

Lemma hitman_parts_witness :
  GetField (Create 255 8388607 true) = 255.
Proof. refine (proj1 (hitman_parts 255 8388607 true _ _)); lia. Defined.
End Hitman.

Module FieldMask.

Definition SIZE : nat := 8.

(** [m_dMask]. *)
Abbreviation FieldMask_t := (list Z).

Definition wf (m : FieldMask_t) : Prop := length m = SIZE /\ Forall (in_type DWORD) m.

Definition word (m : FieldMask_t) (i : nat) : Z := nth i m 0.

Definition UnsetAll : FieldMask_t := replicate SIZE 0.
Definition SetAll : FieldMask_t := replicate SIZE 0xFFFFFFFF.
Definition Assign32 (uMask : Z) : FieldMask_t := <[0%nat := uMask]> UnsetAll.
Definition GetMask32 (m : FieldMask_t) : Z := word m 0.

Definition bit_of (k : Z) : Z := cast DWORD (Z.shiftl 1 k).

Definition Set_ (m : FieldMask_t) (iIdx : Z) : FieldMask_t :=
  let i := Z.to_nat (iIdx / 32) in
  <[i := Z.lor (word m i) (bit_of (iIdx mod 32))]> m.

Definition Unset (m : FieldMask_t) (iIdx : Z) : FieldMask_t :=
  let i := Z.to_nat (iIdx / 32) in
  <[i := Z.ldiff (word m i) (bit_of (iIdx mod 32))]> m.

Definition Test_ (m : FieldMask_t) (iIdx : Z) : bool :=
  negb (Z.land (word m (Z.to_nat (iIdx / 32))) (bit_of (iIdx mod 32)) =? 0).

Definition TestAll (m : FieldMask_t) (bSet : bool) : bool :=
  let uTest := if bSet then 0xFFFFFFFF else 0 in
  forallb (λ uMask, uMask =? uTest) m.

Definition Negate (m : FieldMask_t) : FieldMask_t :=
  map (λ uMask, cast DWORD (Z.lnot uMask)) m.

(** The loop over the words above [iDwordIdx], [n] of them left, highest first. *)
Fixpoint delete_loop (n iDwordIdx : nat) (m : FieldMask_t) (uCarryBit : Z) : FieldMask_t * Z :=
  match n with
  | O => (m, uCarryBit)
  | S n' =>
      let i := (iDwordIdx + n)%nat in
      let bNextCarry := negb (Z.land (word m i) 1 =? 0) in
      delete_loop n' iDwordIdx (<[i := Z.lor uCarryBit (Z.shiftr (word m i) 1)]> m)
        (if bNextCarry then 0x80000000 else 0)
  end.

Definition DeleteBit (m : FieldMask_t) (iIdx : Z) : FieldMask_t :=
  let iDwordIdx := Z.to_nat (iIdx / 32) in
  let '(m, uCarryBit) := delete_loop (SIZE - 1 - iDwordIdx) iDwordIdx m 0 in
  let uShiftBit := bit_of (iIdx mod 32) in
  let uKeepMask := cast DWORD (uShiftBit - 1) in
  let uMoveMask := cast DWORD (Z.lnot (Z.lor uShiftBit uKeepMask)) in
  let uKept := Z.land (word m iDwordIdx) uKeepMask in
  <[iDwordIdx := Z.lor (Z.lor uCarryBit (Z.shiftr (Z.land (word m iDwordIdx) uMoveMask) 1)) uKept]> m.

(** ** Bits of a mask *)

Definition bitw (m : FieldMask_t) (i : nat) (k : Z) : bool := Z.testbit (word m i) k.

Lemma bit_of_eq k : 0 <= k < 32 -> bit_of k = 2 ^ k.
Proof.
  intros Hk. unfold bit_of. rewrite Z.shiftl_1_l. apply cast_id; [done|].
  unfold in_type. simpl. split; [lia|]. apply Z.pow_lt_mono_r; lia.
Qed.

Lemma land_pow2 x k : 0 <= k -> negb (Z.land x (2 ^ k) =? 0) = Z.testbit x k.
Proof.
  intros Hk. destruct (Z.eqb_spec (Z.land x (2 ^ k)) 0) as [E|N]; simpl.
  - assert (Z.testbit (Z.land x (2 ^ k)) k = false) as H by (by rewrite E, Z.bits_0).
    by rewrite Z.land_spec, Z.pow2_bits_true, andb_true_r in H by lia.
  - destruct (Z.testbit x k) eqn:E; [done|]. destruct N. apply Z.bits_inj'. intros i Hi.
    rewrite Z.land_spec, Z.pow2_bits_eqb, Z.bits_0 by lia.
    destruct (Z.eqb_spec k i) as [<-|]; [by rewrite E|apply andb_false_r].
Qed.

Lemma Test_bitw m j : 0 <= j -> Test_ m j = bitw m (Z.to_nat (j / 32)) (j mod 32).
Proof.
  intros Hj. unfold Test_, bitw.
  pose proof (Z.mod_pos_bound j 32 ltac:(lia)). rewrite bit_of_eq by lia. apply land_pow2. lia.
Qed.

Lemma word_insert m i j x :
  (i < length m)%nat -> word (<[i := x]> m) j = if decide (i = j) then x else word m j.
Proof.
  intros Hi. unfold word. rewrite !nth_lookup. case_decide as E.
  - rewrite <- E. by rewrite list_lookup_insert_eq.
  - by rewrite list_lookup_insert_ne.
Qed.

Lemma word_high m i k : wf m -> 32 <= k -> Z.testbit (word m i) k = false.
Proof.
  intros [Hl Hw] Hk. unfold word. rewrite nth_lookup.
  destruct (m !! i) as [x|] eqn:E; simpl.
  - rewrite Forall_lookup in Hw.
    specialize (Hw _ _ E). unfold in_type in Hw. simpl in Hw.
    apply (Hitman.testbit_high x 32); [done|lia].
  - apply Z.bits_0.
Qed.

Lemma carry_bits (b : bool) k :
  0 <= k -> Z.testbit (if b then 0x80000000 else 0) k = b && (k =? 31).
Proof.
  intros Hk. destruct b; simpl; [|apply Z.bits_0].
  change 0x80000000 with (2 ^ 31). rewrite Z.pow2_bits_eqb by lia. apply Z.eqb_sym.
Qed.

(** After the loop every word above [idx] is shifted right by one, its top bit
    coming from the word above it, and the low bit of word [idx+1] is carried. *)
Lemma delete_loop_spec n idx m (c : bool) :
  (idx + n < length m)%nat ->
  let '(m', c') := delete_loop n idx m (if c then 0x80000000 else 0) in
  length m' = length m /\
  c' = (if (if n is O then c else bitw m (S idx) 0) then 0x80000000 else 0) /\
  ∀ i k, 0 <= k ->
    bitw m' i k =
    if decide (idx < i <= idx + n)%nat then
      bitw m i (k + 1) ||
      ((k =? 31) && (if decide (i = idx + n)%nat then c else bitw m (S i) 0))
    else bitw m i k.
Proof.
  revert m c. induction n as [|n IH]; intros m c Hlen; cbn [delete_loop].
  { split; [done|]. split; [done|]. intros i k _. by rewrite decide_False by lia. }
  set (i0 := (idx + S n)%nat) in *.
  assert (negb (Z.land (word m i0) 1 =? 0) = bitw m i0 0) as -> by apply (land_pow2 _ 0 ltac:(lia)).
  set (m1 := <[i0 := _]> m).
  assert (length m1 = length m) as El by apply length_insert.
  specialize (IH m1 (bitw m i0 0)). destruct (delete_loop n idx m1 _) as [m' c'].
  destruct IH as (IH1 & IH2 & IH3); [lia|].
  assert (∀ i k, 0 <= k -> bitw m1 i k = if decide (i0 = i) then bitw m i (k + 1) || ((k =? 31) && c)
    else bitw m i k) as Hb.
  { intros i k Hk. unfold bitw, m1. rewrite word_insert by lia.
    destruct (decide (i0 = i)) as [Ei|]; [|done].
    rewrite Z.lor_spec, Z.shiftr_spec, carry_bits by lia. rewrite Ei.
    rewrite orb_comm. by destruct c, (k =? 31). }
  split; [lia|]. split.
  - rewrite IH2. destruct n; [by replace i0 with (S idx) by lia|].
    by rewrite Hb, decide_False by lia.
  - intros i k Hk. rewrite IH3, !Hb by lia.
    destruct (decide (i0 = i)) as [Ei|Ni].
    + rewrite decide_False, decide_True, decide_True by lia. done.
    + destruct (decide (idx < i <= idx + n)%nat).
      * rewrite (decide_True (P := (idx < i <= idx + S n)%nat)) by lia.
        rewrite (decide_False (P := (i = idx + S n)%nat)) by lia.
        destruct (decide (i = idx + n)%nat) as [->|].
        -- by replace (S (idx + n)) with i0 by lia.
        -- by rewrite decide_False by lia.
      * by rewrite decide_False by lia.
Qed.

(** The masks of the word the deleted bit is in. *)
Lemma keep_mask_bits k i : 0 <= k < 32 -> 0 <= i ->
  Z.testbit (cast DWORD (bit_of k - 1)) i = (i <? k) /\
  Z.testbit (cast DWORD (Z.lnot (Z.lor (bit_of k) (cast DWORD (bit_of k - 1))))) i =
    (k <? i) && (i <? 32).
Proof.
  intros Hk Hi.
  assert (0 < 2 ^ k <= 2 ^ 31) as Hp by (split; [|apply Z.pow_le_mono_r]; lia).
  assert (cast DWORD (bit_of k - 1) = Z.ones k) as ->.
  { rewrite bit_of_eq, Z.ones_equiv by lia. apply cast_id; [done|]. unfold in_type. simpl. lia. }
  rewrite Z.testbit_ones_nonneg by lia. split; [done|].
  unfold cast, wrap. cbn [is_signed DWORD bits].
  destruct (decide (i < 32)).
  - rewrite Z.mod_pow2_bits_low, Z.lnot_spec, Z.lor_spec, bit_of_eq, Z.pow2_bits_eqb,
      Z.testbit_ones_nonneg by lia.
    rewrite (proj2 (Z.ltb_lt i 32)) by lia.
    destruct (Z.eqb_spec k i), (Z.ltb_spec i k), (Z.ltb_spec k i); simpl; lia.
  - rewrite Z.mod_pow2_bits_high, (proj2 (Z.ltb_ge i 32)) by lia. by rewrite andb_false_r.
Qed.

(** Which bit of the old mask each bit of the new one comes from. *)
Lemma DeleteBit_bitw m q s i k :
  wf m -> (q < SIZE)%nat -> 0 <= s < 32 -> 0 <= k < 32 ->
  bitw (DeleteBit m (32 * Z.of_nat q + s)) i k =
  if (i <? q)%nat || (bool_decide (i = q) && (k <? s)) then bitw m i k
  else if k =? 31 then bitw m (S i) 0 else bitw m i (k + 1).
Proof.
  intros Hwf Hq Hs Hk. unfold DeleteBit.
  replace (Z.to_nat ((32 * Z.of_nat q + s) / 32)) with q
    by (rewrite Z.mul_comm, Z.div_add_l, Z.div_small by lia; lia).
  replace ((32 * Z.of_nat q + s) mod 32) with s
    by (rewrite Z.add_comm, Z.mul_comm, Z_mod_plus_full, Z.mod_small by lia; done).
  pose proof (proj1 Hwf) as Hlen.
  pose proof (delete_loop_spec (SIZE - 1 - q) q m false ltac:(unfold SIZE in *; lia)) as D.
  cbn [negb] in D. destruct (delete_loop (SIZE - 1 - q) q m 0) as [m' c'].
  destruct D as (D1 & D2 & D3).
  assert (∀ i, (SIZE <= i)%nat -> ∀ k, bitw m i k = false) as Hout.
  { intros i0 Hi0 k0. unfold bitw, word. rewrite nth_overflow by lia. apply Z.bits_0. }
  assert (∀ k, bitw m q k = Z.testbit (word m' q) k \/ k < 0) as Hqk.
  { intros k0. destruct (decide (0 <= k0)); [left|right; lia].
    specialize (D3 q k0 ltac:(done)). rewrite decide_False in D3 by lia. done. }
  unfold bitw at 1. rewrite word_insert by lia. destruct (decide (q = i)) as [Ei|Ni].
  - subst i. rewrite bool_decide_true by done. rewrite Nat.ltb_irrefl. simpl.
    destruct (keep_mask_bits s k Hs ltac:(lia)) as [K1 K2].
    destruct (keep_mask_bits s (k + 1) Hs ltac:(lia)) as [K3 K4].
    rewrite !Z.lor_spec, Z.shiftr_spec, !Z.land_spec, K1, K4 by lia.
    replace c' with (if (if decide (SIZE - 1 - q = 0)%nat then false else bitw m (S q) 0)
      then 0x80000000 else 0) by (rewrite D2; by destruct (SIZE - 1 - q)%nat).
    rewrite carry_bits by lia.
    destruct (Hqk k) as [<-|]; [|lia]. destruct (Hqk (k + 1)) as [<-|]; [|lia].
    destruct (Z.eqb_spec k 31) as [->|].
    + rewrite (proj2 (Z.ltb_ge (31 + 1) 32)), (proj2 (Z.ltb_ge 31 s)) by lia.
      rewrite !andb_false_r, !orb_false_r, andb_true_r.
      destruct (decide (SIZE - 1 - q = 0)%nat); [|done]. symmetry. apply (Hout (S q) ltac:(unfold SIZE in *; lia) 0).
    + rewrite andb_false_r, (proj2 (Z.ltb_lt (k + 1) 32)) by lia. simpl.
      destruct (Z.ltb_spec k s), (Z.ltb_spec s (k + 1)); try lia;
        by rewrite ?andb_false_r, ?andb_true_r, ?orb_false_r.
  - rewrite (bool_decide_false (i = q)) by lia. rewrite orb_false_r.
    change (Z.testbit (word m' i) k) with (bitw m' i k). rewrite D3 by lia.
    destruct (Nat.ltb_spec i q) as [Hlt|Hge].
    { by rewrite decide_False by lia. }
    destruct (decide (q < i <= q + (SIZE - 1 - q))%nat) as [Hin|Hout'].
    + destruct (Z.eqb_spec k 31) as [->|]; cbn [andb];
        [|by rewrite orb_false_r].
      unfold bitw at 1. rewrite (word_high m i (31 + 1) Hwf) by lia. cbn [orb].
      case_decide; [|done]. symmetry. apply (Hout (S i) ltac:(unfold SIZE in *; lia) 0).
    + rewrite !Hout by (unfold SIZE in *; lia). by destruct (k =? 31).
Qed.

(** ** Setting bits *)

Lemma UnsetAll_wf : wf UnsetAll.
Proof. split; [done|]. apply Forall_replicate. unfold in_type. simpl. lia. Qed.

Lemma Assign32_wf x : in_type DWORD x -> wf (Assign32 x).
Proof.
  intros Hx. split; [done|]. apply Forall_insert; [apply UnsetAll_wf|done].
Qed.

Lemma word_in m i : wf m -> in_type DWORD (word m i).
Proof.
  intros [_ Hw]. unfold word. rewrite nth_lookup. destruct (m !! i) as [x|] eqn:E; simpl.
  - rewrite Forall_lookup in Hw. by apply (Hw i).
  - unfold in_type. simpl. lia.
Qed.

Lemma lor_dword a b : in_type DWORD a -> in_type DWORD b -> in_type DWORD (Z.lor a b).
Proof.
  unfold in_type. cbn [is_signed DWORD bits]. intros Ha Hb. split; [apply Z.lor_nonneg; lia|].
  apply Z.nle_gt. intros Hle. assert (0 < Z.lor a b) as Hp by lia.
  pose proof (Z.log2_le_mono _ _ Hle) as Hl. rewrite Z.log2_pow2, Z.log2_lor in Hl by lia.
  destruct (decide (a = 0)), (decide (b = 0)); subst; try (rewrite ?Z.lor_0_l, ?Z.lor_0_r in Hp; simpl in Hl; lia);
  assert (∀ x, x <> 0 -> 0 <= x < 2 ^ 32 -> Z.log2 x < 32) as L
    by (intros; apply Z.log2_lt_pow2; lia).
  - change (Z.log2 0) with 0 in Hl. specialize (L b ltac:(done) Hb). lia.
  - change (Z.log2 0) with 0 in Hl. specialize (L a ltac:(done) Ha). lia.
  - pose proof (L a ltac:(done) Ha). pose proof (L b ltac:(done) Hb). lia.
Qed.

Lemma Set_wf m i : wf m -> 0 <= i < 256 -> wf (Set_ m i).
Proof.
  intros Hm Hi. pose proof (Z.mod_pos_bound i 32 ltac:(lia)). unfold Set_. split.
  - rewrite length_insert. apply Hm.
  - apply Forall_insert; [apply Hm|]. apply lor_dword; [by apply word_in|].
    unfold bit_of. apply cast_in_type. simpl. lia.
Qed.

Lemma Test_Set m i j :
  wf m -> 0 <= i < 256 -> 0 <= j < 256 -> Test_ (Set_ m i) j = (i =? j) || Test_ m j.
Proof.
  intros Hm Hi Hj. pose proof (Z.mod_pos_bound i 32 ltac:(lia)). pose proof (Z.mod_pos_bound j 32 ltac:(lia)).
  rewrite !Test_bitw by lia. unfold bitw, Set_. rewrite word_insert, bit_of_eq by (try lia;
    rewrite (proj1 Hm); unfold SIZE; apply Nat2Z.inj_lt; rewrite Z2Nat.id by (apply Z.div_pos; lia);
    apply Z.div_lt_upper_bound; lia).
  pose proof (Z.div_mod i 32 ltac:(lia)). pose proof (Z.div_mod j 32 ltac:(lia)).
  pose proof (Z.div_pos i 32 ltac:(lia) ltac:(lia)). pose proof (Z.div_pos j 32 ltac:(lia) ltac:(lia)).
  case_decide as E.
  - rewrite Z.lor_spec, Z.pow2_bits_eqb by lia. rewrite E, orb_comm. f_equal.
    destruct (Z.eqb_spec (i mod 32) (j mod 32)), (Z.eqb_spec i j); lia.
  - rewrite (proj2 (Z.eqb_neq i j)); [done|]. intros ->. done.
Qed.

Lemma Test_UnsetAll j : 0 <= j -> Test_ UnsetAll j = false.
Proof.
  intros Hj. rewrite Test_bitw by lia. unfold bitw, word, UnsetAll. rewrite nth_lookup.
  destruct (_ !! _) as [x|] eqn:Ex; simpl; [|apply Z.bits_0].
  apply lookup_replicate in Ex as [-> _]. apply Z.bits_0.
Qed.

Lemma Test_Assign32 m j :
  0 <= j < 256 -> Test_ (Assign32 (GetMask32 m)) j = (j <? 32) && Test_ m j.
Proof.
  intros Hj. pose proof (Z.div_pos j 32 ltac:(lia) ltac:(lia)).
  rewrite !Test_bitw by lia. unfold bitw, Assign32, GetMask32. rewrite word_insert by (simpl; lia).
  pose proof (Z.div_mod j 32 ltac:(lia)). pose proof (Z.mod_pos_bound j 32 ltac:(lia)).
  case_decide as E.
  - rewrite <- E. destruct (Z.ltb_spec j 32); [done|]. lia.
  - destruct (Z.ltb_spec j 32) as [L|L].
    + rewrite Z.div_small in E by lia. done.
    + pose proof (Test_UnsetAll j ltac:(lia)) as T. by rewrite Test_bitw in T by lia.
Qed.

(** [DeleteBit] removes one bit from the middle of a 256-bit mask: the
    fields below it keep their bits, every field above it moves down by one
    across the word boundaries, and the top bit becomes clear. *)
Theorem fieldmask_delete m idx j :
  wf m -> 0 <= idx < 256 -> 0 <= j < 256 ->
  Test_ (DeleteBit m idx) j =
  if j <? idx then Test_ m j else if j =? 255 then false else Test_ m (j + 1).
Proof.
  intros Hwf Hi Hj. rewrite !Test_bitw by lia.
  pose proof (Z.div_mod idx 32 ltac:(lia)). pose proof (Z.mod_pos_bound idx 32 ltac:(lia)).
  pose proof (Z.div_mod j 32 ltac:(lia)). pose proof (Z.mod_pos_bound j 32 ltac:(lia)).
  set (q := Z.to_nat (idx / 32)). set (i := Z.to_nat (j / 32)).
  assert (idx = 32 * Z.of_nat q + idx mod 32) as E by lia. rewrite E at 1.
  rewrite DeleteBit_bitw by (unfold SIZE; done || lia).
  destruct (Z.ltb_spec j idx).
  { destruct (Nat.ltb_spec i q); [done|]. rewrite bool_decide_true by lia.
    by rewrite (proj2 (Z.ltb_lt _ _)) by lia. }
  rewrite (proj2 (Nat.ltb_ge i q)) by lia.
  assert (bool_decide (i = q) && (j mod 32 <? idx mod 32) = false) as ->.
  { case_bool_decide; [|done]. apply Z.ltb_ge. lia. }
  simpl. destruct (Z.eqb_spec (j mod 32) 31) as [E31|].
  - destruct (Z.eqb_spec j 255) as [->|].
    + unfold bitw, word. rewrite nth_overflow; [done|]. destruct Hwf as [-> _]. done.
    + replace (Z.to_nat ((j + 1) / 32)) with (S i).
      * by replace ((j + 1) mod 32) with 0 by (apply Z.mod_unique with (j / 32 + 1); lia).
      * rewrite <- (Z.div_unique (j + 1) 32 (j / 32 + 1) 0); lia.
  - rewrite (proj2 (Z.eqb_neq j 255)) by (intros ->; done).
    replace ((j + 1) / 32) with (j / 32) by (apply Z.div_unique with (j mod 32 + 1); lia).
    by replace ((j + 1) mod 32) with (j mod 32 + 1) by (apply Z.mod_unique with (j / 32); lia).
Qed.

Lemma fieldmask_delete_witness : Test_ (DeleteBit (Set_ UnsetAll 64) 5) 63 = true.
Proof.
  rewrite fieldmask_delete; [reflexivity| |lia|lia].
  split; [reflexivity|]. apply (bool_decide_unpack _). vm_compute. exact I.
Defined.
End FieldMask.
