(* ===== verification/Span.v ===== *)
(** * [FindSpan] (src/src/sphinxint.h)

    Finds the index [i] with [dVec[i] <= tRef < dVec[i+1]] in a sorted vector,
    by a linear scan of short vectors and by bisection of long ones.  The
    elements are given by the keys the comparison operators look at. *)

From S2P Require Import Prelude.

Module Span.

Definition at_ (d : list Z) (i : Z) : Z := nth (Z.to_nat i) d 0.

Definition len (d : list Z) : Z := Z.of_nat (length d).

(** [dVec[i]<tRef || dVec[i]==tRef], [tRef<dVec[j]]. *)
Definition le_at (d : list Z) (i tRef : Z) : bool := (at_ d i <? tRef) || (at_ d i =? tRef).
Definition gt_at (d : list Z) (i tRef : Z) : bool := tRef <? at_ d i.

(** The [for] loop over short vectors, [n] turns left. *)
Fixpoint span_linear (d : list Z) (tRef : Z) (n : nat) (i : Z) : Z :=
  match n with
  | O => -1
  | S n' =>
      if le_at d i tRef && gt_at d (i + 1) tRef then i
      else span_linear d tRef n' (i + 1)
  end.

(** The bisection; [pStart] and [pEnd] as indexes. *)
Fixpoint span_bisect (fuel : nat) (d : list Z) (tRef pStart pEnd : Z) : option Z :=
  match fuel with
  | O => None
  | S fuel' =>
      if pEnd - pStart >? 1 then
        if gt_at d pStart tRef || (at_ d pEnd <? tRef) then Some (-1)
        else
          let pMid := pStart + (pEnd - pStart) / 2 in
          if le_at d pMid tRef && gt_at d (pMid + 1) tRef then Some pMid
          else if gt_at d pMid tRef then span_bisect fuel' d tRef pStart pMid
          else span_bisect fuel' d tRef pMid pEnd
      else Some (-1)
  end.

Definition FindSpan (dVec : list Z) (tRef : Z) (iSmallTreshold : Z) : option Z :=
  let n := len dVec in
  if n =? 0 then Some (-1)
  else if le_at dVec (n - 1) tRef then Some (n - 1)
  else if n <=? iSmallTreshold then Some (span_linear dVec tRef (Z.to_nat (n - 1)) 0)
  else if le_at dVec 0 tRef && gt_at dVec 1 tRef then Some 0
  else if le_at dVec (n - 2) tRef && gt_at dVec (n - 1) tRef then Some (n - 2)
  else span_bisect (Z.to_nat n) dVec tRef 0 (n - 1).

(** ** Specification *)

Definition sorted (d : list Z) : Prop :=
  ∀ i j, 0 <= i <= j -> j < len d -> at_ d i <= at_ d j.

(** The last index whose element is not above [tRef], [-1] if there is none. *)
Definition is_span (d : list Z) (tRef i : Z) : Prop :=
  -1 <= i < len d /\
  (0 <= i -> at_ d i <= tRef) /\ (∀ j, i < j < len d -> tRef < at_ d j).

Definition sortedb (d : list Z) : bool :=
  forallb (λ i, at_ d i <=? at_ d (i + 1)) (seqZ 0 (len d - 1)).

Lemma sortedb_sorted d : sortedb d = true -> sorted d.
Proof.
  intros H i j Hij. replace j with (i + Z.of_nat (Z.to_nat (j - i))) by lia.
  generalize (Z.to_nat (j - i)) as n. induction n as [|n IH]; intros Hj.
  { by rewrite Z.add_0_r. }
  etransitivity; [apply IH; lia|]. unfold sortedb in H. rewrite forallb_forall in H.
  specialize (H (i + Z.of_nat n)). rewrite Z.leb_le in H.
  replace (i + Z.of_nat (S n)) with (i + Z.of_nat n + 1) by lia.
  apply H, list_elem_of_In, elem_of_seqZ. lia.
Qed.

Lemma le_at_spec d i tRef : le_at d i tRef = true <-> at_ d i <= tRef.
Proof. unfold le_at. rewrite orb_true_iff, Z.ltb_lt, Z.eqb_eq. lia. Qed.

Lemma gt_at_spec d i tRef : gt_at d i tRef = true <-> tRef < at_ d i.
Proof. apply Z.ltb_lt. Qed.

Lemma span_found d tRef i :
  sorted d -> 0 <= i -> i + 1 < len d ->
  le_at d i tRef && gt_at d (i + 1) tRef = true -> is_span d tRef i.
Proof.
  intros Hs Hi Hn. rewrite andb_true_iff, le_at_spec, gt_at_spec. intros [H1 H2].
  split; [lia|]. split; [done|]. intros j Hj.
  pose proof (Hs (i + 1) j). lia.
Qed.

Lemma span_last d tRef :
  sorted d -> 0 < len d -> at_ d (len d - 1) <= tRef -> is_span d tRef (len d - 1).
Proof. intros. split; [lia|]. split; [done|]. lia. Qed.

Lemma span_below d tRef : sorted d -> tRef < at_ d 0 -> is_span d tRef (-1).
Proof.
  intros Hs H0. split; [unfold len; lia|]. split; [lia|]. intros j Hj.
  pose proof (Hs 0 j). lia.
Qed.

Lemma span_linear_ok d tRef n i :
  sorted d -> 0 <= i -> Z.of_nat n = len d - 1 - i -> tRef < at_ d (len d - 1) ->
  at_ d i <= tRef \/ i = 0 -> is_span d tRef (span_linear d tRef n i).
Proof.
  intros Hs. revert i. induction n as [|n IH]; intros i Hi Hn Hl Hc; cbn [span_linear].
  - replace (len d - 1) with i in Hl by lia. apply span_below; [done|].
    destruct Hc as [?|E]; [lia|by subst].
  - destruct (le_at d i tRef && gt_at d (i + 1) tRef) eqn:E.
    + apply span_found; auto. lia.
    + apply andb_false_iff in E.
      destruct (decide (at_ d i <= tRef)) as [Hle|Hgt].
      * apply IH; [lia|lia|done|]. left. destruct E as [E|E].
        -- by rewrite (proj2 (le_at_spec d i tRef) Hle) in E.
        -- apply Z.ltb_ge in E. done.
      * assert (i = 0) as Ei by (destruct Hc; [lia|done]). subst i.
        assert (∀ m k, 0 <= k -> Z.of_nat m = len d - 1 - k -> span_linear d tRef m k = -1) as Hno.
        { clear -Hs Hgt. induction m as [|m IH]; intros k Hk Hm; [done|]. cbn [span_linear].
          destruct (le_at d k tRef) eqn:El; [|apply IH; lia].
          apply le_at_spec in El. pose proof (Hs 0 k). lia. }
        rewrite Hno by lia. apply span_below; [done|]. lia.
Qed.

(** Invariant of the bisection: [dVec[pStart+1] <= tRef < dVec[pEnd]]. *)
Lemma span_bisect_ok fuel d tRef s e :
  sorted d -> 0 <= s < e -> e < len d -> at_ d (s + 1) <= tRef -> tRef < at_ d e ->
  e - s < Z.of_nat fuel ->
  ∃ i, span_bisect fuel d tRef s e = Some i /\ is_span d tRef i.
Proof.
  intros Hs. revert s e. induction fuel as [|fuel IH]; intros s e Hse He H1 H2 Hf; [lia|].
  assert (s + 1 < e) as Hgap.
  { destruct (decide (s + 1 < e)); [done|]. replace (s + 1) with e in H1 by lia. lia. }
  cbn [span_bisect]. rewrite (proj2 (Z.gtb_lt (e - s) 1)) by lia.
  pose proof (Hs s (s + 1)).
  assert (gt_at d s tRef || (at_ d e <? tRef) = false) as ->
    by (apply orb_false_iff; split; apply Z.ltb_ge; lia).
  set (m := s + (e - s) / 2).
  assert (s < m < e) as Hm.
  { pose proof (Z.div_lt (e - s) 2). pose proof (Z.div_le_lower_bound (e - s) 2 1). lia. }
  destruct (le_at d m tRef && gt_at d (m + 1) tRef) eqn:E.
  { exists m. split; [done|]. apply span_found; auto; lia. }
  apply andb_false_iff in E. destruct (gt_at d m tRef) eqn:Eg.
  - apply gt_at_spec in Eg. apply IH; auto; lia.
  - apply Z.ltb_ge in Eg.
    destruct E as [E|E]; [by rewrite (proj2 (le_at_spec d m tRef) Eg) in E|].
    apply Z.ltb_ge in E. apply IH; auto; lia.
Qed.

Lemma is_span_unique d tRef i j : is_span d tRef i -> is_span d tRef j -> i = j.
Proof.
  intros (A1 & A2 & A3) (B1 & B2 & B3).
  destruct (decide (i < j)); [specialize (A3 j); lia|].
  destruct (decide (j < i)); [specialize (B3 i); lia|lia].
Qed.

Lemma FindSpan_ok d tRef thr :
  sorted d -> 2 <= thr -> ∃ i, FindSpan d tRef thr = Some i /\ is_span d tRef i.
Proof.
  intros Hs Ht. unfold FindSpan.
  destruct (Z.eqb_spec (len d) 0) as [E0|N0].
  { exists (-1). split; [done|]. split; [lia|]. split; [lia|]. lia. }
  assert (0 < len d) as Hn by (unfold len in *; lia).
  destruct (le_at d (len d - 1) tRef) eqn:El.
  { apply le_at_spec in El. eexists. split; [done|]. by apply span_last. }
  assert (tRef < at_ d (len d - 1)) as Hlast.
  { destruct (decide (tRef < at_ d (len d - 1))); [done|].
    by rewrite (proj2 (le_at_spec d (len d - 1) tRef)) in El by lia. }
  destruct (Z.leb_spec (len d) thr).
  { eexists. split; [done|]. apply span_linear_ok; auto; lia. }
  destruct (le_at d 0 tRef && gt_at d 1 tRef) eqn:E1.
  { eexists. split; [done|]. apply span_found; auto; lia. }
  destruct (le_at d (len d - 2) tRef && gt_at d (len d - 1) tRef) eqn:E2.
  { eexists. split; [done|]. apply span_found; [done|lia|lia|].
    by replace (len d - 2 + 1) with (len d - 1) by lia. }
  destruct (decide (tRef < at_ d 0)) as [Hlt|Hge].
  - exists (-1). split; [|by apply span_below].
    destruct (Z.to_nat (len d)) eqn:En; [lia|]. cbn [span_bisect].
    rewrite (proj2 (Z.gtb_lt (len d - 1 - 0) 1)) by lia.
    by rewrite (proj2 (gt_at_spec d 0 tRef)).
  - apply andb_false_iff in E1 as [E1|E1].
    + by rewrite (proj2 (le_at_spec d 0 tRef)) in E1 by lia.
    + apply Z.ltb_ge in E1. apply span_bisect_ok; auto; lia.
Qed.

(** The hand-tuned search returns, for a sorted vector of any length, the
    last index whose element is not above the reference, [-1] exactly when all
    elements are above it; the bisection always terminates, and the answer does
    not depend on the threshold below which the scan is linear. *)
Theorem find_span_correct d tRef thr thr' :
  sorted d -> 2 <= thr -> 2 <= thr' ->
  ∃ i, FindSpan d tRef thr = Some i /\ FindSpan d tRef thr' = Some i /\
    -1 <= i < len d /\ (0 <= i -> at_ d i <= tRef) /\ (∀ j, i < j < len d -> tRef < at_ d j).
Proof.
  intros Hs H1 H2. destruct (FindSpan_ok d tRef thr Hs H1) as (i & E1 & S1).
  destruct (FindSpan_ok d tRef thr' Hs H2) as (j & E2 & S2).
  exists i. rewrite E2, (is_span_unique _ _ _ _ S2 S1). done.
Qed.

Lemma find_span_correct_witness :
  ∃ i, FindSpan [1; 3; 5; 7; 9; 11; 13; 15; 17; 19] 12 8 = Some i /\
       FindSpan [1; 3; 5; 7; 9; 11; 13; 15; 17; 19] 12 100 = Some i.
Proof.
  destruct (find_span_correct [1; 3; 5; 7; 9; 11; 13; 15; 17; 19] 12 8 100) as (i & E1 & E2 & _);
    [|lia|lia|by exists i].
  apply sortedb_sorted. reflexivity.
Defined.
End Span.
