(* ===== verification/SearchNode.v ===== *)
(** * Boolean matching nodes (src/src/searchnode.cpp)

    A full-text query is evaluated by a tree of streamers.  Each streamer
    hands out its matching documents in ascending row id order, in chunks of
    at most [MAX_BLOCK_DOCS-1] documents, and its parent merges the chunks of
    its children.  A node class is a state type with an instance of
    [ExtNode_i], the operations of the C++ interface the boolean nodes use;
    [ExtNodeOk] states what a node promises to its parent. *)

From Stdlib Require Import SpecFloat.
From S2P Require Import Prelude.

Module SearchNode.

(** ** Data *)

(** IEEE single precision, as [float]. *)
Definition float32 := spec_float.
Definition fadd : float32 -> float32 -> float32 := SFadd 24 128.
Definition fmul : float32 -> float32 -> float32 := SFmul 24 128.
Definition fdiv : float32 -> float32 -> float32 := SFdiv 24 128.
(** Conversion of an unsigned integer to [float]. *)
Definition float_of (n : Z) : float32 := binary_normalize 24 128 n 0 false.
(** [SPH_BM25_K1], the single precision number nearest to 1.2. *)
Definition SPH_BM25_K1 : float32 := S754_finite false 10066330 (-23).

Definition INVALID_ROWID : Z := 0xFFFFFFFF.
Definition MAX_BLOCK_DOCS : nat := 32.

Record ExtDoc_t := ExtDoc {
  m_tRowID : Z;
  m_uDocFields : Z;
  m_fTFIDF : float32
}.

(** A [const ExtDoc_t *]: [None] is the null pointer, [Some l] points into the
    block of the child that returned it, [l] being the documents from there to
    the [INVALID_ROWID] sentinel.  A child overwrites its block only in its own
    [GetDocsChunk], which a parent calls when it stands at the sentinel. *)
Definition docptr := option (list ExtDoc_t).

Definition docs (p : docptr) : list ExtDoc_t := default [] p.

Definition HasDocs (p : docptr) : bool :=
  match p with Some (_ :: _) => true | _ => false end.

(** [pDoc->m_tRowID], the sentinel included. *)
Definition RowAt (l : list ExtDoc_t) : Z :=
  match l with [] => INVALID_ROWID | d :: _ => m_tRowID d end.

(** ** The clock and the kill flag

    [sph::TimeExceeded ( m_iMaxTimer )] reads a clock that only moves forward:
    a run is determined by the number of readings before the deadline,
    [w_timer = None] when there is none ([m_iMaxTimer<=0]).  [w_kill] is the
    number of interrupt checks before one finds the daemon shutting down or
    the session killed. *)
Record World := mkWorld { w_timer : option nat; w_kill : option nat }.

Definition tick (c : option nat) : bool * option nat :=
  match c with
  | None => (false, None)
  | Some O => (true, Some O)
  | Some (S n) => (false, Some n)
  end.

Definition TimeExceeded (w : World) : bool * World :=
  let '(b, t) := tick (w_timer w) in (b, mkWorld t (w_kill w)).

(** [sph::TimeExceeded ( m_iCheckTimePoint )] together with the tests of
    [g_bInterruptNow] and [session::GetKilled()]. *)
Definition Interrupted (w : World) : bool * World :=
  let '(b, t) := tick (w_kill w) in (b, mkWorld (w_timer w) t).

(** ** The node interface *)

(** [GetDocsChunk] is [None] when a loop of the node runs out of fuel (never,
    by [chunk_ok]).  [work] bounds the turns those loops can make; it is the
    only member that is not in the source. *)
Class ExtNode_i (S : Type) := {
  GetDocsChunk : S -> World -> option (docptr * S * World);
  HintRowID : Z -> S -> S;
  work : S -> nat
}.

Definition ReturnDocsChunk (out : list ExtDoc_t) : docptr :=
  match out with [] => None | _ => Some out end.

Section Warmup.
Context {S : Type} {N : ExtNode_i S}.

(** [WarmupDocs ( pDoc, pNode )]. *)
Definition WarmupDocs (p : docptr) (s : S) (w : World) :
    option (bool * docptr * S * World) :=
  if HasDocs p then Some (true, p, s, w)
  else
    '(p', s', w') ← GetDocsChunk s w;
    Some (HasDocs p', p', s', w').

(** [WarmupDocs ( pDocL, pDocR, pLeft )]: a hint from the other side first. *)
Definition WarmupDocsHint (p q : docptr) (s : S) (w : World) :
    option (bool * docptr * S * World) :=
  if HasDocs p then Some (true, p, s, w)
  else
    let s := if HasDocs q then HintRowID (RowAt (docs q)) s else s in
    '(p', s', w') ← GetDocsChunk s w;
    Some (HasDocs p', p', s', w').
End Warmup.

(** ** Two-children nodes *)

Record ExtTwofer_c (L R : Type) := ExtTwofer {
  m_pLeft : L;
  m_pRight : R;
  m_pDocL : docptr;
  m_pDocR : docptr
}.
Arguments ExtTwofer {L R}.
Arguments m_pLeft {L R}.
Arguments m_pRight {L R}.
Arguments m_pDocL {L R}.
Arguments m_pDocR {L R}.

Section Twofer.
Context {L R : Type} {NL : ExtNode_i L} {NR : ExtNode_i R}.

Definition twofer_init (l : L) (r : R) : ExtTwofer_c L R := ExtTwofer l r None None.

Definition twofer_hint (tRowID : Z) (t : ExtTwofer_c L R) : ExtTwofer_c L R :=
  ExtTwofer (HintRowID tRowID (m_pLeft t)) (HintRowID tRowID (m_pRight t))
    (m_pDocL t) (m_pDocR t).

Definition twofer_work (t : ExtTwofer_c L R) : nat :=
  work (m_pLeft t) + work (m_pRight t) +
  length (docs (m_pDocL t)) + length (docs (m_pDocR t)).

(** The document emitted when both children stand on the same row. *)
Definition both (a b : ExtDoc_t) : ExtDoc_t :=
  ExtDoc (m_tRowID a) (Z.lor (m_uDocFields a) (m_uDocFields b))
    (fadd (m_fTFIDF a) (m_fTFIDF b)).

Definition has_room (out : list ExtDoc_t) : bool :=
  (length out <? MAX_BLOCK_DOCS - 1)%nat.

(** *** [ExtAnd_c::GetDocsChunk]; the locals [pDocL], [pDocR] are kept in the
    fields they are written back to. *)
Fixpoint and_loop (fuel : nat) (t : ExtTwofer_c L R) (out : list ExtDoc_t) (w : World) :
    option (list ExtDoc_t * ExtTwofer_c L R * World) :=
  match fuel with
  | O => None
  | S fuel' =>
      if negb (has_room out) then Some (out, t, w) else
      '(ok, pL, l, w) ← WarmupDocsHint (m_pDocL t) (m_pDocR t) (m_pLeft t) w;
      let t := ExtTwofer l (m_pRight t) pL (m_pDocR t) in
      if negb ok then Some (out, t, w) else
      '(ok, pR, r, w) ← WarmupDocsHint (m_pDocR t) (m_pDocL t) (m_pRight t) w;
      let t := ExtTwofer l r pL pR in
      if negb ok then Some (out, t, w) else
      match docs pL, docs pR with
      | a :: pL', b :: pR' =>
          if m_tRowID a =? m_tRowID b then
            and_loop fuel' (ExtTwofer l r (Some pL') (Some pR')) (out ++ [both a b]) w
          else if m_tRowID a <? m_tRowID b then
            and_loop fuel' (ExtTwofer l r (Some pL') pR) out w
          else
            and_loop fuel' (ExtTwofer l r pL (Some pR')) out w
      | _, _ => None
      end
  end.

Definition and_chunk (t : ExtTwofer_c L R) (w : World) :
    option (docptr * ExtTwofer_c L R * World) :=
  '(out, t, w) ← and_loop (S (twofer_work t)) t [] w;
  Some (ReturnDocsChunk out, t, w).

(** *** [ExtOr_c::GetDocsChunk] *)

(** [if ( !HasDocs(p) ) { p = child->GetDocsChunk(); if ( !p && TimeExceeded() ) break; }],
    the first component is the [break]. *)
Definition or_refill {S : Type} {N : ExtNode_i S} (p : docptr) (s : S) (w : World) :
    option (bool * docptr * S * World) :=
  if HasDocs p then Some (false, p, s, w)
  else
    '(p', s', w') ← GetDocsChunk s w;
    match p' with
    | None => let '(late, w'') := TimeExceeded w' in Some (late, p', s', w'')
    | Some _ => Some (false, p', s', w')
    end.

Fixpoint or_loop (fuel : nat) (t : ExtTwofer_c L R) (out : list ExtDoc_t) (w : World) :
    option (list ExtDoc_t * ExtTwofer_c L R * World) :=
  match fuel with
  | O => None
  | S fuel' =>
      if negb (has_room out) then Some (out, t, w) else
      '(brk, pL, l, w) ← or_refill (m_pDocL t) (m_pLeft t) w;
      let t := ExtTwofer l (m_pRight t) pL (m_pDocR t) in
      if (brk : bool) then Some (out, t, w) else
      '(brk, pR, r, w) ← or_refill (m_pDocR t) (m_pRight t) w;
      let t := ExtTwofer l r pL pR in
      if (brk : bool) then Some (out, t, w) else
      match docs pL, docs pR with
      | [], [] => Some (out, t, w)
      | a :: pL', b :: pR' =>
          if m_tRowID a =? m_tRowID b then
            or_loop fuel' (ExtTwofer l r (Some pL') (Some pR')) (out ++ [both a b]) w
          else if m_tRowID a <? m_tRowID b then
            or_loop fuel' (ExtTwofer l r (Some pL') pR) (out ++ [a]) w
          else
            or_loop fuel' (ExtTwofer l r pL (Some pR')) (out ++ [b]) w
      | a :: pL', [] => or_loop fuel' (ExtTwofer l r (Some pL') pR) (out ++ [a]) w
      | [], b :: pR' => or_loop fuel' (ExtTwofer l r pL (Some pR')) (out ++ [b]) w
      end
  end.

Definition or_chunk (t : ExtTwofer_c L R) (w : World) :
    option (docptr * ExtTwofer_c L R * World) :=
  '(out, t, w) ← or_loop (S (twofer_work t)) t [] w;
  Some (ReturnDocsChunk out, t, w).

(** *** [ExtMaybe_c::GetDocsChunk]: left documents, weighted by the right. *)

(** [if ( !bRightEmpty && !WarmupDocs ( pDocR, m_pRight ) ) { if ( TimeExceeded() ) break;
    bRightEmpty = true; }]: the break, the new flag, the right cursor. *)
Definition maybe_right (bRightEmpty : bool) (p : docptr) (s : R) (w : World) :
    option (bool * bool * docptr * R * World) :=
  if bRightEmpty then Some (false, true, p, s, w)
  else
    '(ok, p, s, w) ← WarmupDocs p s w;
    if (ok : bool) then Some (false, false, p, s, w)
    else let '(late, w) := TimeExceeded w in Some (late, true, p, s, w).

Fixpoint maybe_loop (fuel : nat) (bRightEmpty : bool) (t : ExtTwofer_c L R)
    (out : list ExtDoc_t) (w : World) : option (list ExtDoc_t * ExtTwofer_c L R * World) :=
  match fuel with
  | O => None
  | S fuel' =>
      if negb (has_room out) then Some (out, t, w) else
      '(ok, pL, l, w) ← WarmupDocs (m_pDocL t) (m_pLeft t) w;
      let t := ExtTwofer l (m_pRight t) pL (m_pDocR t) in
      if negb ok then Some (out, t, w) else
      '(brk, bRightEmpty, pR, r, w) ← maybe_right bRightEmpty (m_pDocR t) (m_pRight t) w;
      let t := ExtTwofer l r pL pR in
      if (brk : bool) then Some (out, t, w) else
      match docs pL with
      | [] => None
      | a :: pL' =>
          if (bRightEmpty : bool) then
            maybe_loop fuel' true (ExtTwofer l r (Some pL') pR) (out ++ [a]) w
          else
            match docs pR with
            | [] => None
            | b :: pR' =>
                if m_tRowID a =? m_tRowID b then
                  maybe_loop fuel' false (ExtTwofer l r (Some pL') (Some pR')) (out ++ [both a b]) w
                else if m_tRowID a <? m_tRowID b then
                  maybe_loop fuel' false (ExtTwofer l r (Some pL') pR) (out ++ [a]) w
                else
                  maybe_loop fuel' false (ExtTwofer l r pL (Some pR')) out w
            end
      end
  end.

Definition maybe_chunk (t : ExtTwofer_c L R) (w : World) :
    option (docptr * ExtTwofer_c L R * World) :=
  '(out, t, w) ← maybe_loop (S (twofer_work t)) false t [] w;
  Some (ReturnDocsChunk out, t, w).
End Twofer.

(** The node classes differ in their type, as in the source. *)
Record ExtAnd_c (L R : Type) := ExtAnd { and_base : ExtTwofer_c L R }.
Record ExtOr_c (L R : Type) := ExtOr { or_base : ExtTwofer_c L R }.
Record ExtMaybe_c (L R : Type) := ExtMaybe { maybe_base : ExtTwofer_c L R }.
Record ExtAndNot_c (L R : Type) := ExtAndNot {
  andnot_base : ExtTwofer_c L R;
  m_bPassthrough : bool
}.
Arguments ExtAnd {L R}. Arguments and_base {L R}.
Arguments ExtOr {L R}. Arguments or_base {L R}.
Arguments ExtMaybe {L R}. Arguments maybe_base {L R}.
Arguments ExtAndNot {L R}. Arguments andnot_base {L R}. Arguments m_bPassthrough {L R}.

(** *** [ExtAndNot_c::GetDocsChunk] *)

(** copy accepted until min rejected id *)
Fixpoint copy_accepted (pL pR out : list ExtDoc_t) : list ExtDoc_t * list ExtDoc_t :=
  match pL with
  | [] => (pL, out)
  | a :: pL' =>
      if (RowAt pL <? RowAt pR) && has_room out then copy_accepted pL' pR (out ++ [a])
      else (pL, out)
  end.

(** skip rejected until min accepted id *)
Fixpoint skip_rejected (pL pR : list ExtDoc_t) : list ExtDoc_t :=
  match pR with
  | [] => pR
  | _ :: pR' => if RowAt pR <? RowAt pL then skip_rejected pL pR' else pR
  end.

(** skip both while ids match *)
Fixpoint skip_both (pL pR : list ExtDoc_t) : list ExtDoc_t * list ExtDoc_t :=
  match pL with
  | [] => (pL, pR)
  | _ :: pL' => if RowAt pL =? RowAt pR then skip_both pL' (tail pR) else (pL, pR)
  end.

(** The [while (true)] loop that performs filtering inside the two blocks. *)
Fixpoint filter_blocks (fuel : nat) (pL pR out : list ExtDoc_t) :
    option (list ExtDoc_t * list ExtDoc_t * list ExtDoc_t) :=
  match fuel with
  | O => None
  | S fuel' =>
      let '(pL, out) := copy_accepted pL pR out in
      if (match pL with [] => true | _ => false end) || negb (has_room out)
      then Some (pL, pR, out) else
      let pR := skip_rejected pL pR in
      if (match pR with [] => true | _ => false end) then Some (pL, pR, out) else
      let '(pL, pR) := skip_both pL pR in
      if (match pL with [] => true | _ => false end) || (match pR with [] => true | _ => false end)
      then Some (pL, pR, out) else
      filter_blocks fuel' pL pR out
  end.

(** [while ( HasDocs(pDocL) && iDoc<MAX_BLOCK_DOCS-1 ) m_dDocs[iDoc++] = *pDocL++]. *)
Fixpoint copy_leftovers (pL out : list ExtDoc_t) : list ExtDoc_t * list ExtDoc_t :=
  match pL with
  | [] => (pL, out)
  | a :: pL' => if has_room out then copy_leftovers pL' (out ++ [a]) else (pL, out)
  end.

Section AndNot.
Context {L R : Type} {NL : ExtNode_i L} {NR : ExtNode_i R}.

Fixpoint andnot_loop (fuel : nat) (t : ExtTwofer_c L R) (out : list ExtDoc_t) (w : World) :
    option (list ExtDoc_t * ExtAndNot_c L R * World) :=
  match fuel with
  | O => None
  | S fuel' =>
      if negb (has_room out) then Some (out, ExtAndNot t false, w) else
      '(ok, pL, l, w) ← WarmupDocs (m_pDocL t) (m_pLeft t) w;
      let t := ExtTwofer l (m_pRight t) pL (m_pDocR t) in
      if negb ok then Some (out, ExtAndNot t false, w) else
      '(ok, pR, r, w) ← WarmupDocs (m_pDocR t) (m_pRight t) w;
      let t := ExtTwofer l r pL pR in
      let '(late, w) := if (ok : bool) then (false, w) else TimeExceeded w in
      if (late : bool) then Some (out, ExtAndNot t false, w) else
      match docs pR with
      | [] =>
          let '(pL, out) := copy_leftovers (docs pL) out in
          Some (out, ExtAndNot (ExtTwofer l r (Some pL) pR)
                       (match pL with [] => true | _ => false end), w)
      | _ :: _ =>
          '(pL, pR, out) ←
            filter_blocks (S (length (docs pL) + length (docs pR))) (docs pL) (docs pR) out;
          andnot_loop fuel' (ExtTwofer l r (Some pL) (Some pR)) out w
      end
  end.

Definition andnot_chunk (t : ExtAndNot_c L R) (w : World) :
    option (docptr * ExtAndNot_c L R * World) :=
  let b := andnot_base t in
  if m_bPassthrough t then
    '(p, l, w) ← GetDocsChunk (m_pLeft b) w;
    Some (p, ExtAndNot (ExtTwofer l (m_pRight b) (m_pDocL b) (m_pDocR b)) true, w)
  else
    '(out, t, w) ← andnot_loop (S (twofer_work b)) b [] w;
    Some (ReturnDocsChunk out, t, w).

#[export] Instance ExtAnd_node : ExtNode_i (ExtAnd_c L R) := {
  GetDocsChunk t w :=
    '(p, b, w) ← and_chunk (and_base t) w; Some (p, ExtAnd b, w);
  HintRowID r t := ExtAnd (twofer_hint r (and_base t));
  work t := twofer_work (and_base t)
}.

#[export] Instance ExtOr_node : ExtNode_i (ExtOr_c L R) := {
  GetDocsChunk t w :=
    '(p, b, w) ← or_chunk (or_base t) w; Some (p, ExtOr b, w);
  HintRowID r t := ExtOr (twofer_hint r (or_base t));
  work t := twofer_work (or_base t)
}.

#[export] Instance ExtMaybe_node : ExtNode_i (ExtMaybe_c L R) := {
  GetDocsChunk t w :=
    '(p, b, w) ← maybe_chunk (maybe_base t) w; Some (p, ExtMaybe b, w);
  HintRowID r t := ExtMaybe (twofer_hint r (maybe_base t));
  work t := twofer_work (maybe_base t)
}.

#[export] Instance ExtAndNot_node : ExtNode_i (ExtAndNot_c L R) := {
  GetDocsChunk := andnot_chunk;
  HintRowID r t := ExtAndNot (twofer_hint r (andnot_base t)) (m_bPassthrough t);
  work t := twofer_work (andnot_base t)
}.
End AndNot.
End SearchNode.
