(* ===== verification/SearchNodeOk.v ===== *)
(** * What the matching nodes compute

    The contract [ExtNodeOk] of a streamer, and the proof that the four
    boolean nodes meet it when their children do: whatever the chunk
    boundaries, the stream of a node is the merge of the streams of its
    children. *)

From S2P Require Import Prelude SearchNode.
Import SearchNode.

Module SearchNodeOk.

(** ** Ascending document lists *)

Fixpoint asc (b : Z) (l : list ExtDoc_t) : Prop :=
  match l with
  | [] => True
  | d :: l' => b < m_tRowID d < INVALID_ROWID /\ asc (m_tRowID d) l'
  end.

(** Row id of the last document of [l], [b] if there is none. *)
Fixpoint last_row (b : Z) (l : list ExtDoc_t) : Z :=
  match l with [] => b | d :: l' => last_row (m_tRowID d) l' end.

Fixpoint find_row (x : Z) (l : list ExtDoc_t) : option ExtDoc_t :=
  match l with
  | [] => None
  | d :: l' => if m_tRowID d =? x then Some d else find_row x l'
  end.

(** The documents from row [k] on. *)
Definition ge_docs (k : Z) (l : list ExtDoc_t) : list ExtDoc_t :=
  filter (λ d, k <= m_tRowID d) l.

Lemma asc_weaken b b' l : asc b l -> b' <= b -> asc b' l.
Proof. destruct l; simpl; [done|]. intros [??]; split; [lia|done]. Qed.

Lemma asc_end l : asc INVALID_ROWID l -> l = [].
Proof. destruct l; simpl; [done|lia]. Qed.

Lemma asc_app b l1 l2 : asc b (l1 ++ l2) <-> asc b l1 /\ asc (last_row b l1) l2.
Proof. revert b. induction l1 as [|d l1 IH]; intros b; simpl; [tauto|]. rewrite IH. tauto. Qed.

Lemma last_row_app b l1 l2 : last_row b (l1 ++ l2) = last_row (last_row b l1) l2.
Proof. revert b. induction l1; intros b; simpl; auto. Qed.

Lemma last_row_ge b l : asc b l -> b <= last_row b l.
Proof.
  revert b. induction l as [|d l IH]; intros b; simpl; [lia|].
  intros [? H]. apply IH in H. lia.
Qed.

Lemma find_row_Some x l d : find_row x l = Some d -> m_tRowID d = x.
Proof.
  induction l as [|e l IH]; simpl; [done|].
  destruct (Z.eqb_spec (m_tRowID e) x); [congruence|auto].
Qed.

Lemma find_row_low b x l : asc b l -> x <= b -> find_row x l = None.
Proof.
  revert b. induction l as [|d l IH]; intros b; simpl; [done|].
  intros [? H] ?. rewrite (proj2 (Z.eqb_neq _ _)) by lia. apply (IH _ H). lia.
Qed.

(** An ascending list is determined by its lookups. *)
Lemma asc_ext b b' l l' :
  asc b l -> asc b' l' -> (∀ x, find_row x l = find_row x l') -> l = l'.
Proof.
  revert b b' l'. induction l as [|d l IH]; intros b b' [|d' l'] Hl Hl' E.
  - done.
  - specialize (E (m_tRowID d')). simpl in E. by rewrite Z.eqb_refl in E.
  - specialize (E (m_tRowID d)). simpl in E. by rewrite Z.eqb_refl in E.
  - simpl in Hl, Hl'. destruct Hl as [? Hl], Hl' as [? Hl'].
    assert (m_tRowID d = m_tRowID d') as Hid.
    { pose proof (E (m_tRowID d)) as E1. pose proof (E (m_tRowID d')) as E2. simpl in E1, E2.
      rewrite Z.eqb_refl in E1, E2.
      destruct (Z.eqb_spec (m_tRowID d') (m_tRowID d)); [done|].
      destruct (Z.eqb_spec (m_tRowID d) (m_tRowID d')); [done|].
      destruct (decide (m_tRowID d < m_tRowID d')).
      - by rewrite (find_row_low (m_tRowID d')) in E1 by (done || lia).
      - by rewrite (find_row_low (m_tRowID d)) in E2 by (done || lia). }
    f_equal.
    + specialize (E (m_tRowID d)). simpl in E. rewrite <- Hid, Z.eqb_refl in E. congruence.
    + apply (IH _ _ _ Hl Hl'). intros x. specialize (E x). simpl in E. rewrite <- Hid in E.
      destruct (Z.eqb_spec (m_tRowID d) x) as [Hx|]; [|done].
      rewrite (find_row_low _ _ _ Hl), (find_row_low _ _ _ Hl') by lia. done.
Qed.

Lemma find_row_ge k x l :
  find_row x (ge_docs k l) = if decide (k <= x) then find_row x l else None.
Proof.
  unfold ge_docs. induction l as [|d l IH]; [simpl; by case_decide|].
  rewrite filter_cons. destruct (decide (k <= m_tRowID d)) as [Hk|Hk]; cbn [find_row];
    rewrite IH; destruct (Z.eqb_spec (m_tRowID d) x) as [Hx|]; try done;
    case_decide; (done || lia).
Qed.

Lemma asc_ge b k l : asc b l -> asc b (ge_docs k l).
Proof.
  unfold ge_docs. revert b. induction l as [|d l IH]; intros b; simpl; [done|].
  intros [? H]. rewrite filter_cons. case_decide; simpl.
  - split; [done|auto].
  - apply asc_weaken with (m_tRowID d); [auto|lia].
Qed.

Lemma asc_from_ge b k l : asc b l -> asc (k - 1) (ge_docs k l).
Proof.
  intros H%(asc_ge _ k). destruct (ge_docs k l) as [|d l'] eqn:E; [done|].
  assert (d ∈ ge_docs k l) as Hd by (rewrite E; left).
  apply list_elem_of_filter in Hd as [Hd _]. destruct H. split; [lia|done].
Qed.

Lemma ge_docs_id b k l : asc b l -> k <= b + 1 -> ge_docs k l = l.
Proof.
  intros H Hk. apply (asc_ext b b); [by apply asc_ge|done|]. intros x.
  rewrite find_row_ge. case_decide; [done|]. symmetry. apply (find_row_low b); [done|lia].
Qed.

Lemma ge_docs_app k l1 l2 : ge_docs k (l1 ++ l2) = ge_docs k l1 ++ ge_docs k l2.
Proof. apply filter_app. Qed.

(** ** Merges of ascending lists *)

Definition sem_and (l r : list ExtDoc_t) : list ExtDoc_t :=
  omap (λ a, both a <$> find_row (m_tRowID a) r) l.

Definition sem_maybe (l r : list ExtDoc_t) : list ExtDoc_t :=
  map (λ a, match find_row (m_tRowID a) r with Some b => both a b | None => a end) l.

Definition sem_andnot (l r : list ExtDoc_t) : list ExtDoc_t :=
  filter (λ a, find_row (m_tRowID a) r = None) l.

Fixpoint sem_or (l : list ExtDoc_t) : list ExtDoc_t -> list ExtDoc_t :=
  fix aux r :=
    match l, r with
    | [], _ => r
    | _, [] => l
    | a :: l', b :: r' =>
        if m_tRowID a =? m_tRowID b then both a b :: sem_or l' r'
        else if m_tRowID a <? m_tRowID b then a :: sem_or l' r
        else b :: aux r'
    end.

(** Union of two lookups. *)
Definition or_doc (a b : option ExtDoc_t) : option ExtDoc_t :=
  match a, b with
  | Some a, Some b => Some (both a b)
  | Some a, None => Some a
  | None, _ => b
  end.

Lemma sem_or_nil_r l : sem_or l [] = l.
Proof. by destruct l. Qed.

Lemma sem_or_nil_l r : sem_or [] r = r.
Proof. by destruct r. Qed.

Lemma sem_or_cons a l b r :
  sem_or (a :: l) (b :: r) =
  if m_tRowID a =? m_tRowID b then both a b :: sem_or l r
  else if m_tRowID a <? m_tRowID b then a :: sem_or l (b :: r)
  else b :: sem_or (a :: l) r.
Proof. reflexivity. Qed.

Lemma sem_or_asc b l r : asc b l -> asc b r -> asc b (sem_or l r).
Proof.
  revert b r. induction l as [|a l IH]; intros b r Hl Hr; [by rewrite sem_or_nil_l|].
  revert b Hl Hr. induction r as [|c r IHr]; intros b Hl Hr; [by rewrite sem_or_nil_r|].
  rewrite sem_or_cons. destruct Hl as [Ha Hl], Hr as [Hc Hr].
  destruct (Z.eqb_spec (m_tRowID a) (m_tRowID c)) as [E|].
  { split; [done|]. apply IH; simpl; [done|by rewrite E]. }
  destruct (Z.ltb_spec (m_tRowID a) (m_tRowID c)).
  - split; [done|]. apply IH; [done|]. split; [lia|done].
  - split; [done|]. apply IHr; [|done]. split; [lia|done].
Qed.

Lemma find_row_or b l r x :
  asc b l -> asc b r -> find_row x (sem_or l r) = or_doc (find_row x l) (find_row x r).
Proof.
  revert b r. induction l as [|a l IH]; intros b r Hl Hr; [by rewrite sem_or_nil_l|].
  revert b Hl Hr. induction r as [|c r IHr]; intros b Hl Hr.
  { rewrite sem_or_nil_r. cbn [find_row]. by destruct (m_tRowID a =? x), (find_row x l). }
  rewrite sem_or_cons. destruct Hl as [Ha Hl], Hr as [Hc Hr].
  destruct (Z.eqb_spec (m_tRowID a) (m_tRowID c)) as [E|].
  { cbn [find_row]. change (m_tRowID (both a c)) with (m_tRowID a). rewrite E.
    destruct (m_tRowID c =? x); [done|]. apply (IH (m_tRowID c)); [by rewrite <- E|done]. }
  destruct (Z.ltb_spec (m_tRowID a) (m_tRowID c)).
  - cbn [find_row]. destruct (Z.eqb_spec (m_tRowID a) x) as [<-|].
    + rewrite (proj2 (Z.eqb_neq (m_tRowID c) _)) by lia.
      by rewrite (find_row_low (m_tRowID c)) by (done || lia).
    + rewrite (IH (m_tRowID a)); [done|done|]. split; [lia|done].
  - cbn [find_row]. destruct (Z.eqb_spec (m_tRowID c) x) as [<-|].
    + rewrite (proj2 (Z.eqb_neq (m_tRowID a) _)) by lia.
      by rewrite (find_row_low (m_tRowID a) _ l) by (done || lia).
    + rewrite (IHr (m_tRowID c)); [done| |done]. split; [lia|done].
Qed.
(** The other merges look only at the right rows of the left documents. *)
Lemma sem_ext l r1 r2 :
  Forall (λ a, find_row (m_tRowID a) r1 = find_row (m_tRowID a) r2) l ->
  sem_and l r1 = sem_and l r2 /\ sem_maybe l r1 = sem_maybe l r2 /\
  sem_andnot l r1 = sem_andnot l r2.
Proof.
  unfold sem_and, sem_maybe, sem_andnot.
  induction 1 as [|a l E _ (IH1 & IH2 & IH3)]; [done|]. cbn [omap list_omap map].
  rewrite !filter_cons, E, IH1, IH2. repeat split. by rewrite IH3.
Qed.

Lemma asc_rows b l : asc b l -> Forall (λ a, b < m_tRowID a < INVALID_ROWID) l.
Proof.
  revert b. induction l as [|d l IH]; intros b; [constructor|]. intros [? H].
  constructor; [done|]. eapply Forall_impl; [apply (IH _ H)|]. simpl. lia.
Qed.

Lemma sem_skip_r b l r :
  asc (m_tRowID b) l ->
  sem_and l (b :: r) = sem_and l r /\ sem_maybe l (b :: r) = sem_maybe l r /\
  sem_andnot l (b :: r) = sem_andnot l r.
Proof.
  intros H. apply sem_ext. eapply Forall_impl; [apply (asc_rows _ _ H)|].
  intros a Ha. simpl in *. by rewrite (proj2 (Z.eqb_neq _ _)) by lia.
Qed.

Lemma sem_ge_r k l r :
  asc (k - 1) l ->
  sem_and l (ge_docs k r) = sem_and l r /\ sem_maybe l (ge_docs k r) = sem_maybe l r /\
  sem_andnot l (ge_docs k r) = sem_andnot l r.
Proof.
  intros H. apply sem_ext. eapply Forall_impl; [apply (asc_rows _ _ H)|].
  intros a Ha. simpl in Ha. rewrite find_row_ge, decide_True by lia. done.
Qed.

Definition and_doc (a b : option ExtDoc_t) : option ExtDoc_t :=
  a ← a; b ← b; Some (both a b).
Definition maybe_doc (a b : option ExtDoc_t) : option ExtDoc_t :=
  a ← a; Some (match b with Some b => both a b | None => a end).
Definition andnot_doc (a b : option ExtDoc_t) : option ExtDoc_t :=
  match b with None => a | Some _ => None end.

Lemma find_row_and x l r :
  find_row x (sem_and l r) = and_doc (find_row x l) (find_row x r).
Proof.
  unfold sem_and, and_doc. induction l as [|a l IH]; [done|]. cbn [omap list_omap find_row].
  destruct (Z.eqb_spec (m_tRowID a) x) as [<-|].
  - destruct (find_row (m_tRowID a) r) as [b|] eqn:E; simpl.
    + by rewrite Z.eqb_refl.
    + etrans; [apply IH|]. by destruct (find_row _ l).
  - destruct (find_row (m_tRowID a) r); simpl; [|done].
    by rewrite (proj2 (Z.eqb_neq _ _)) by done.
Qed.

Lemma find_row_maybe x l r :
  find_row x (sem_maybe l r) = maybe_doc (find_row x l) (find_row x r).
Proof.
  unfold sem_maybe, maybe_doc. induction l as [|a l IH]; [done|]. cbn [map find_row].
  set (d := match find_row (m_tRowID a) r with Some b => both a b | None => a end).
  assert (m_tRowID d = m_tRowID a) as Hd by (unfold d; by destruct (find_row (m_tRowID a) r)).
  rewrite Hd. destruct (Z.eqb_spec (m_tRowID a) x) as [Hx|]; [by rewrite <- Hx|apply IH].
Qed.

Lemma find_row_andnot x l r :
  find_row x (sem_andnot l r) = andnot_doc (find_row x l) (find_row x r).
Proof.
  unfold sem_andnot, andnot_doc. induction l as [|a l IH]; [simpl; by case_match|].
  rewrite filter_cons. cbn [find_row].
  destruct (Z.eqb_spec (m_tRowID a) x) as [Hx|].
  - case_decide as E; cbn [find_row]; rewrite <- ?Hx.
    + by rewrite Z.eqb_refl, E.
    + rewrite <- Hx in IH. rewrite IH. by destruct (find_row (m_tRowID a) r).
  - case_decide; cbn [find_row]; [|done]. by rewrite (proj2 (Z.eqb_neq _ _)) by done.
Qed.

Lemma sem_asc b l r : asc b l ->
  asc b (sem_and l r) /\ asc b (sem_maybe l r) /\ asc b (sem_andnot l r).
Proof.
  unfold sem_and, sem_maybe, sem_andnot.
  revert b. induction l as [|a l IH]; intros b; [done|]. intros [Ha Hl].
  destruct (IH _ Hl) as (H1 & H2 & H3). cbn [omap list_omap map]. rewrite filter_cons.
  split; [|split].
  - destruct (find_row (m_tRowID a) r); simpl; [done|].
    eapply asc_weaken; [done|lia].
  - destruct (find_row (m_tRowID a) r); done.
  - case_decide; simpl; [done|]. eapply asc_weaken; [done|lia].
Qed.

(** Taking the documents from a row on commutes with every merge. *)
Lemma sem_ge b k l r :
  asc b l -> asc b r ->
  ge_docs k (sem_and l r) = sem_and (ge_docs k l) (ge_docs k r) /\
  ge_docs k (sem_or l r) = sem_or (ge_docs k l) (ge_docs k r).
Proof.
  intros Hl Hr. pose proof (asc_ge b k l Hl). pose proof (asc_ge b k r Hr). split.
  - apply (asc_ext b b); [by apply asc_ge, sem_asc|by apply sem_asc|]. intros x.
    rewrite find_row_ge, !find_row_and, !find_row_ge. by case_decide.
  - apply (asc_ext b b); [by apply asc_ge, sem_or_asc|by apply sem_or_asc|]. intros x.
    rewrite find_row_ge, !(find_row_or b), !find_row_ge by done. by case_decide.
Qed.

Lemma sem_ge_left b k l r :
  asc b l ->
  ge_docs k (sem_maybe l r) = sem_maybe (ge_docs k l) (ge_docs k r) /\
  ge_docs k (sem_andnot l r) = sem_andnot (ge_docs k l) (ge_docs k r).
Proof.
  intros Hl. pose proof (asc_ge b k l Hl). split.
  - apply (asc_ext b b); [by apply asc_ge, sem_asc|by apply sem_asc|]. intros x.
    rewrite find_row_ge, !find_row_maybe, !find_row_ge. by case_decide.
  - apply (asc_ext b b); [by apply asc_ge, sem_asc|by apply sem_asc|]. intros x.
    rewrite find_row_ge, !find_row_andnot, !find_row_ge. by case_decide.
Qed.

(** A common bound below both streams makes the intersection insensitive to
    what a hint drops. *)
Lemma sem_and_ge_l k l r : asc (k - 1) r -> sem_and (ge_docs k l) r = sem_and l r.
Proof.
  intros H. unfold sem_and, ge_docs. induction l as [|a l IH]; [done|].
  rewrite filter_cons. case_decide; cbn [omap list_omap]; [by rewrite IH|].
  by rewrite (find_row_low (k - 1)) by (done || lia).
Qed.
(** ** The contract of a node *)

(** The deadline has passed. *)
Definition expired (w : World) : Prop := w_timer w = Some O.

(** The clock moves forward: a deadline that has passed has passed for good,
    and there is none unless the query has one. *)
Definition later (w w' : World) : Prop :=
  (expired w -> expired w') /\ (w_timer w = None -> w_timer w' = None).

#[export] Instance later_preorder : PreOrder later.
Proof. unfold later. split; [done|]. intros ? ? ? [? ?] [? ?]. auto. Qed.

Lemma later_expired w w' : later w w' -> expired w -> expired w'.
Proof. by intros []. Qed.

#[export] Hint Resolve later_expired : core.
#[export] Hint Extern 0 (later ?w ?w) => reflexivity : core.
#[export] Hint Extern 3 (later _ _) => etransitivity; eassumption : core.

Section Contract.
Context {S : Type} {N : ExtNode_i S}.
Variable rem : S -> list ExtDoc_t.
Variable inv : Z -> S -> Prop.

(** What one [GetDocsChunk] call does to the stream [rem] of a node: it cuts a
    non-empty block off its front, and returns null only at the end of the
    stream or past the deadline ([inv INVALID_ROWID] leaves no row id, and holds
    for good once it holds). *)
Record chunk_post (b : Z) (s : S) (w : World) (p : docptr) (s' : S) (w' : World) : Prop := {
  cp_ne : p <> Some [];
  cp_len : (length (docs p) <= MAX_BLOCK_DOCS - 1)%nat;
  cp_rem : rem s = docs p ++ rem s';
  cp_inv : inv (last_row b (docs p)) s';
  cp_work : (work s' + length (docs p) <= work s)%nat;
  cp_kill : w_kill w' = None;
  cp_none : p = None -> inv INVALID_ROWID s' \/ expired w';
  cp_exp : later w w'
}.
End Contract.

(** [rem s]: the documents the node will still hand out; [inv b s]: the node is
    well formed and they are all after row [b].  A hint may drop documents
    before the hinted row and leaves the others in place. *)
Class ExtNodeOk (S : Type) {N : ExtNode_i S} := {
  rem : S -> list ExtDoc_t;
  inv : Z -> S -> Prop;
  inv_asc b s : inv b s -> asc b (rem s);
  inv_weaken b b' s : inv b s -> b' <= b -> inv b' s;
  chunk_ok b s w : inv b s -> w_kill w = None ->
    ∃ p s' w', GetDocsChunk s w = Some (p, s', w') /\ chunk_post rem inv b s w p s' w';
  hint_ok b k s : inv b s ->
    inv b (HintRowID k s) /\
    ge_docs k (rem (HintRowID k s)) = ge_docs k (rem s) /\
    (work (HintRowID k s) <= work s)%nat
}.

Lemma TimeExceeded_spec w :
  let '(late, w') := TimeExceeded w in
  w_kill w' = w_kill w /\ later w w' /\
  (late = true -> expired w') /\ (late = false -> ~ expired w).
Proof.
  unfold TimeExceeded.
  unfold later, expired. destruct (w_timer w) as [[|n]|]; simpl; done.
Qed.

Lemma HasDocs_docs p : HasDocs p = true <-> docs p <> [].
Proof. destruct p as [[|]|]; simpl; split; try done; intros []; done. Qed.

Lemma HasDocs_false p : HasDocs p = false <-> docs p = [].
Proof. destruct p as [[|]|]; simpl; done. Qed.

(** ** A child under its parent's cursor *)

Section Child.
Context {S : Type} {N : ExtNode_i S} {K : ExtNodeOk S}.

(** The stream of the child as the parent sees it. *)
Definition str (p : docptr) (s : S) : list ExtDoc_t := docs p ++ rem s.

Definition child_ok (b : Z) (p : docptr) (s : S) : Prop :=
  asc b (docs p) /\ inv (last_row b (docs p)) s.

Lemma child_asc b p s : child_ok b p s -> asc b (str p s).
Proof. intros [H1 H2]. apply asc_app. split; [done|by apply inv_asc]. Qed.

Lemma child_end p s : child_ok INVALID_ROWID p s -> str p s = [].
Proof. intros H. by apply asc_end, child_asc. Qed.

Lemma child_weaken b b' p s : child_ok b p s -> b' <= b -> child_ok b' p s.
Proof.
  intros [H1 H2] Hb. split; [by apply asc_weaken with b|].
  destruct (docs p); simpl in *; [by eapply inv_weaken|done].
Qed.

Lemma child_tail b p s a l :
  child_ok b p s -> docs p = a :: l ->
  b < m_tRowID a < INVALID_ROWID /\ child_ok (m_tRowID a) (Some l) s /\
  str p s = a :: str (Some l) s.
Proof. unfold child_ok, str. intros [H1 H2] E. rewrite E in *. simpl in *. tauto. Qed.

Lemma child_raise b b' p s a l :
  child_ok b p s -> docs p = a :: l -> b' < m_tRowID a -> child_ok b' p s.
Proof.
  unfold child_ok. intros [H1 H2] E. rewrite E in *. simpl in *. intros. split; [|done].
  destruct H1. split; [lia|done].
Qed.

Lemma child_hint b k p s :
  child_ok b p s ->
  child_ok b p (HintRowID k s) /\
  ge_docs k (str p (HintRowID k s)) = ge_docs k (str p s).
Proof.
  intros [H1 H2]. destruct (hint_ok _ k _ H2) as (H3 & H4 & _). split; [done|].
  unfold str. by rewrite !ge_docs_app, H4.
Qed.

Record warm_post (b : Z) (p : docptr) (s : S) (w : World)
    (p' : docptr) (s' : S) (w' : World) : Prop := {
  wp_ok : child_ok b p' s';
  wp_str : str p' s' = str p s;
  wp_work : (length (docs p') + work s' <= length (docs p) + work s)%nat;
  wp_kill : w_kill w' = None;
  wp_none : docs p' = [] -> child_ok INVALID_ROWID p' s' \/ expired w';
  wp_exp : later w w'
}.

Lemma warm_here b p s w :
  child_ok b p s -> w_kill w = None -> HasDocs p = true -> warm_post b p s w p s w.
Proof. intros ? ? H%HasDocs_docs. by split. Qed.

Lemma warm_chunk b p s w p' s' w' :
  child_ok b p s -> HasDocs p = false ->
  chunk_post rem inv b s w p' s' w' -> warm_post b p s w p' s' w'.
Proof.
  intros [H1 H2] E%HasDocs_false [C1 C2 C3 C4 C5 C6 C7 C8]. unfold child_ok, str in *.
  rewrite E in *. simpl in *. split; try done.
  - split; [|done]. apply (inv_asc _ _) in H2. rewrite C3 in H2. by apply asc_app in H2 as [? _].
  - unfold str. rewrite E, C3. done.
  - rewrite E. simpl. lia.
  - destruct p' as [[|]|]; [done|done|]. intros _.
    destruct (C7 eq_refl); [left; by split|by right].
Qed.

Lemma WarmupDocs_ok b p s w :
  child_ok b p s -> w_kill w = None ->
  ∃ p' s' w', WarmupDocs p s w = Some (HasDocs p', p', s', w') /\
              warm_post b p s w p' s' w'.
Proof.
  intros H Hw. unfold WarmupDocs. destruct (HasDocs p) eqn:E.
  - exists p, s, w. rewrite E. split; [done|by apply warm_here].
  - pose proof H as [H1 H2]. pose proof (proj1 (HasDocs_false p) E) as E'.
    rewrite E' in H2. simpl in H2.
    destruct (chunk_ok b s w H2 Hw) as (p' & s' & w' & -> & C).
    exists p', s', w'. split; [done|by apply warm_chunk].
Qed.

(** The state of the child after the hint [WarmupDocsHint] gives it. *)
Definition hinted (p q : docptr) (s : S) : S :=
  if HasDocs p then s else if HasDocs q then HintRowID (RowAt (docs q)) s else s.

Lemma WarmupDocsHint_eq p q s w : WarmupDocsHint p q s w = WarmupDocs p (hinted p q s) w.
Proof. unfold WarmupDocsHint, WarmupDocs, hinted. by destruct (HasDocs p). Qed.

Lemma hinted_ok b p q s :
  child_ok b p s ->
  child_ok b p (hinted p q s) /\ (work (hinted p q s) <= work s)%nat /\
  (str p (hinted p q s) = str p s \/
   (HasDocs q = true /\
    ge_docs (RowAt (docs q)) (str p (hinted p q s)) = ge_docs (RowAt (docs q)) (str p s))).
Proof.
  intros H. unfold hinted. destruct (HasDocs p); [by auto|]. destruct (HasDocs q); [|by auto].
  destruct (child_hint b (RowAt (docs q)) p s H) as [? ?].
  destruct H as [_ Hi]. destruct (hint_ok _ (RowAt (docs q)) _ Hi) as (_ & _ & ?). auto.
Qed.

Lemma or_refill_ok b p s w :
  child_ok b p s -> w_kill w = None ->
  ∃ brk p' s' w', or_refill p s w = Some (brk, p', s', w') /\
    warm_post b p s w p' s' w' /\
    (brk = true -> expired w') /\
    (brk = false -> docs p' = [] -> child_ok INVALID_ROWID p' s').
Proof.
  intros H Hw. unfold or_refill. destruct (HasDocs p) eqn:E.
  - exists false, p, s, w. split; [done|]. split; [by apply warm_here|]. split; [done|].
    intros _ E'. apply HasDocs_docs in E. done.
  - pose proof H as [H1 H2]. pose proof (proj1 (HasDocs_false p) E) as E'.
    rewrite E' in H2. simpl in H2.
    destruct (chunk_ok b s w H2 Hw) as (p' & s' & w' & -> & C). cbn [mbind option_bind].
    pose proof (warm_chunk b p s w p' s' w' H E C) as W.
    destruct p' as [l|].
    + exists false, (Some l), s', w'. split; [done|]. split; [done|]. split; [done|].
      intros _ ?. simpl in *. subst l. by destruct (cp_ne _ _ _ _ _ _ _ _ C).
    + pose proof (TimeExceeded_spec w') as T. destruct (TimeExceeded w') as [late w''].
      destruct T as (T1 & T2 & T3 & T4). exists late, None, s', w''.
      destruct W as [W1 W2 W3 W4 W5 W6]. split; [done|]. split; [|split].
      * split; try done; [congruence| |auto]. intros ?. destruct W5 as [?|?]; eauto.
      * done.
      * intros ? _. destruct W5 as [?|?]; [done|done|]. exfalso. by apply T4.
Qed.
End Child.
(** ** Loops that fill a block *)

Section Loop.
Context {T : Type}.
Variable lrem : T -> list ExtDoc_t.
Variable linv : Z -> T -> Prop.
Variable lwork : T -> nat.

(** The loop has appended [new] to the block [out]. *)
Record loop_end (b : Z) (t : T) (out : list ExtDoc_t) (w : World)
    (new : list ExtDoc_t) (t' : T) (w' : World) : Prop := {
  le_rem : lrem t = new ++ lrem t';
  le_inv : linv (last_row b (out ++ new)) t';
  le_len : (length (out ++ new) <= MAX_BLOCK_DOCS - 1)%nat;
  le_work : (lwork t' + length new <= lwork t)%nat;
  le_kill : w_kill w' = None;
  le_done : out ++ new = [] -> linv INVALID_ROWID t' \/ expired w';
  le_exp : later w w'
}.

Definition loop_post (b : Z) (t : T) (out : list ExtDoc_t) (w : World)
    (res : option (list ExtDoc_t * T * World)) : Prop :=
  ∃ new t' w', res = Some (out ++ new, t', w') /\ loop_end b t out w new t' w'.

Lemma loop_stop b t out w t' w' :
  lrem t' = lrem t -> linv (last_row b out) t' ->
  (length out <= MAX_BLOCK_DOCS - 1)%nat -> (lwork t' <= lwork t)%nat ->
  w_kill w' = None ->
  ((length out < MAX_BLOCK_DOCS - 1)%nat -> linv INVALID_ROWID t' \/ expired w') ->
  later w w' ->
  loop_post b t out w (Some (out, t', w')).
Proof.
  intros ? ? ? ? ? Hd ?. exists [], t', w'. rewrite app_nil_r. split; [done|].
  split; rewrite ?app_nil_r; simpl; try (done || lia).
  intros ->. apply Hd. vm_compute. lia.
Qed.

Lemma loop_skip b t t1 out w w1 res :
  lrem t1 = lrem t -> (lwork t1 <= lwork t)%nat -> later w w1 ->
  loop_post b t1 out w1 res -> loop_post b t out w res.
Proof.
  intros Hr Hw He (new & t' & w' & -> & [? ? ? ? ? ? ?]). exists new, t', w'.
  split; [done|]. split; try done; [congruence|lia|auto].
Qed.

Lemma loop_emits b t t1 l out w w1 res :
  lrem t = l ++ lrem t1 -> (lwork t1 + length l <= lwork t)%nat -> later w w1 ->
  loop_post b t1 (out ++ l) w1 res -> loop_post b t out w res.
Proof.
  intros Hr Hw He (new & t' & w' & -> & [E ? ? ? ? ? ?]).
  rewrite <- app_assoc in *. exists (l ++ new), t', w'.
  split; [done|]. split; try done.
  - by rewrite Hr, E, app_assoc.
  - rewrite length_app. lia.
  - auto.
Qed.

Lemma loop_emit b t t1 d out w w1 res :
  lrem t = d :: lrem t1 -> (lwork t1 < lwork t)%nat -> later w w1 ->
  loop_post b t1 (out ++ [d]) w1 res -> loop_post b t out w res.
Proof. intros Hr Hw. apply loop_emits; [done|simpl; lia]. Qed.
End Loop.

Lemma has_room_spec out :
  if has_room out then (length out < MAX_BLOCK_DOCS - 1)%nat
  else (MAX_BLOCK_DOCS - 1 <= length out)%nat.
Proof. unfold has_room. destruct (Nat.ltb_spec (length out) (MAX_BLOCK_DOCS - 1)); lia. Qed.

Lemma last_row_snoc b l d : last_row b (l ++ [d]) = m_tRowID d.
Proof. by rewrite last_row_app. Qed.

Lemma twofer_work_eq {L R : Type} {NL : ExtNode_i L} {NR : ExtNode_i R} (l : L) (r : R) pL pR :
  twofer_work (ExtTwofer l r pL pR) =
  (work l + work r + length (docs pL) + length (docs pR))%nat.
Proof. done. Qed.

Lemma docs_step p a l : docs p = a :: l -> length (docs p) = S (length (docs (Some l))).
Proof. by intros ->. Qed.

Lemma length_snoc {A} (l : list A) x : length (l ++ [x]) = S (length l).
Proof. rewrite length_app. simpl. lia. Qed.

(** Arithmetic on the work left. *)
Ltac work_lia := rewrite ?twofer_work_eq, ?length_snoc in *; lia.

(** The block of a finished loop as the chunk of its node. *)
Lemma chunk_of_end {S T : Type} {N : ExtNode_i S} (base : S -> T)
    (lrem : T -> list ExtDoc_t) (linv : Z -> T -> Prop) lwork b s w new s' w' :
  (∀ s, work s = lwork (base s)) ->
  loop_end lrem linv lwork b (base s) [] w new (base s') w' ->
  chunk_post (λ s, lrem (base s)) (λ b s, linv b (base s)) b s w (ReturnDocsChunk new) s' w'.
Proof.
  intros Hwork [H1 H2 H3 H4 H5 H6 H7].
  assert (docs (ReturnDocsChunk new) = new) as E by (by destruct new).
  split; rewrite ?E, ?Hwork; try done.
  - by destruct new.
  - destruct new; [|done]. auto.
Qed.

(** ** [ExtAnd_c] *)

Section And.
Context {L R : Type} {NL : ExtNode_i L} {NR : ExtNode_i R}
  {KL : ExtNodeOk L} {KR : ExtNodeOk R}.

Definition strL (t : ExtTwofer_c L R) := str (m_pDocL t) (m_pLeft t).
Definition strR (t : ExtTwofer_c L R) := str (m_pDocR t) (m_pRight t).

Definition and_rem (t : ExtTwofer_c L R) : list ExtDoc_t := sem_and (strL t) (strR t).

Definition both_ok (b : Z) (t : ExtTwofer_c L R) : Prop :=
  child_ok b (m_pDocL t) (m_pLeft t) /\ child_ok b (m_pDocR t) (m_pRight t).

(** A row of the intersection is a row of both streams, so a bound on either
    of them bounds it. *)
Definition and_ok (b : Z) (t : ExtTwofer_c L R) : Prop :=
  both_ok (-1) t /\
  (child_ok b (m_pDocL t) (m_pLeft t) \/ child_ok b (m_pDocR t) (m_pRight t)).

Lemma head_asc {S} {N : ExtNode_i S} {K : ExtNodeOk S} b q (s : S) :
  child_ok b q s -> HasDocs q = true -> asc (RowAt (docs q) - 1) (str q s).
Proof.
  intros H E%HasDocs_docs. destruct (docs q) as [|x l] eqn:Eq; [done|].
  apply child_asc in H. unfold str in *. rewrite Eq in *. simpl in *.
  destruct H. split; [lia|done].
Qed.

Lemma and_hinted_l b pL (l : L) pR (r : R) :
  child_ok b pL l -> child_ok b pR r ->
  sem_and (str pL (hinted pL pR l)) (str pR r) = sem_and (str pL l) (str pR r).
Proof.
  intros Hl Hr. destruct (hinted_ok b pL pR l Hl) as (_ & _ & [->|[E Hge]]); [done|].
  pose proof (head_asc b pR r Hr E) as Ha.
  by rewrite <- (sem_and_ge_l _ _ _ Ha), Hge, (sem_and_ge_l _ _ _ Ha).
Qed.

Lemma and_hinted_r b pL (l : L) pR (r : R) :
  child_ok b pL l -> child_ok b pR r ->
  sem_and (str pL l) (str pR (hinted pR pL r)) = sem_and (str pL l) (str pR r).
Proof.
  intros Hl Hr. destruct (hinted_ok b pR pL r Hr) as (_ & _ & [->|[E Hge]]); [done|].
  pose proof (head_asc b pL l Hl E) as Ha.
  rewrite <- (proj1 (sem_ge_r _ _ _ Ha)), Hge. apply (sem_ge_r _ _ _ Ha).
Qed.

(** One comparison of the two heads. *)
Lemma and_heads b l r pL pR a dl c dr :
  and_ok b (ExtTwofer l r pL pR) -> docs pL = a :: dl -> docs pR = c :: dr ->
  let t := ExtTwofer l r pL pR in
  if m_tRowID a =? m_tRowID c then
    let t' := ExtTwofer l r (Some dl) (Some dr) in
    and_rem t = both a c :: and_rem t' /\ and_ok (m_tRowID a) t'
  else if m_tRowID a <? m_tRowID c then
    let t' := ExtTwofer l r (Some dl) pR in and_rem t' = and_rem t /\ and_ok b t'
  else
    let t' := ExtTwofer l r pL (Some dr) in and_rem t' = and_rem t /\ and_ok b t'.
Proof.
  intros [[Hl Hr] Hb] DL DR. unfold and_ok, both_ok, and_rem, strL, strR.
  cbn [m_pDocL m_pLeft m_pDocR m_pRight] in *.
  destruct (child_tail _ _ _ _ _ Hl DL) as (Ra & Hl' & SL).
  destruct (child_tail _ _ _ _ _ Hr DR) as (Rc & Hr' & SR).
  pose proof (child_weaken _ (-1) _ _ Hl' ltac:(lia)) as Hl1.
  pose proof (child_weaken _ (-1) _ _ Hr' ltac:(lia)) as Hr1.
  destruct (Z.eqb_spec (m_tRowID a) (m_tRowID c)) as [Eq|Ne];
    [|destruct (Z.ltb_spec (m_tRowID a) (m_tRowID c))].
  - rewrite SL, SR. split; [|by auto]. simpl. rewrite Eq, Z.eqb_refl. simpl. f_equal.
    apply sem_skip_r. rewrite <- Eq. by apply child_asc.
  - rewrite SL. split.
    + assert (asc (m_tRowID a) (str pR r)) as HR
        by (apply child_asc, (child_raise _ _ _ _ _ _ Hr DR); lia).
      simpl. by rewrite (find_row_low _ _ _ HR) by lia.
    + split; [done|]. destruct Hb as [Hb|]; [left|by right].
      destruct (child_tail _ _ _ _ _ Hb DL) as (? & Hb' & _). apply (child_weaken _ _ _ _ Hb'). lia.
  - rewrite SR. split.
    + symmetry. apply sem_skip_r, child_asc, (child_raise _ _ _ _ _ _ Hl DL). lia.
    + split; [done|]. destruct Hb as [|Hb]; [by left|right].
      destruct (child_tail _ _ _ _ _ Hb DR) as (? & Hb' & _). apply (child_weaken _ _ _ _ Hb'). lia.
Qed.

Lemma sem_and_nil_r l : sem_and l [] = [].
Proof. unfold sem_and. by induction l. Qed.

(** Both refills of a turn of the loop. *)
Lemma and_warm_l b w l r pL pR :
  and_ok b (ExtTwofer l r pL pR) -> w_kill w = None ->
  ∃ p' l' w', WarmupDocsHint pL pR l w = Some (HasDocs p', p', l', w') /\
    let t := ExtTwofer l r pL pR in let t' := ExtTwofer l' r p' pR in
    and_ok b t' /\ and_rem t' = and_rem t /\ (twofer_work t' <= twofer_work t)%nat /\
    w_kill w' = None /\ (docs p' = [] -> and_ok INVALID_ROWID t' \/ expired w') /\
    later w w'.
Proof.
  intros [[Hl Hr] Hb] Hw. cbn [m_pDocL m_pLeft m_pDocR m_pRight] in *. rewrite WarmupDocsHint_eq.
  destruct (hinted_ok _ pL pR l Hl) as (Hl1 & Hlw & _).
  destruct (WarmupDocs_ok _ pL _ w Hl1 Hw) as (p' & l' & w1 & E & [A1 A2 A3 A4 A5 A6]).
  rewrite E. exists p', l', w1. split; [done|].
  unfold and_ok, both_ok, and_rem, strL, strR, twofer_work.
  cbn [m_pDocL m_pLeft m_pDocR m_pRight]. rewrite A2.
  split; [|split; [by apply (and_hinted_l (-1))|split; [lia|split; [done|split; [|done]]]]].
  2: { intros E0. destruct (A5 E0); [left|by right]. split; [done|by left]. }
  split; [done|]. destruct Hb as [Hb|]; [left|by right].
  destruct (hinted_ok _ pL pR l Hb) as (Hb1 & _ & _).
  destruct (WarmupDocs_ok _ pL _ w Hb1 Hw) as (? & ? & ? & E' & [W _ _ _ _ _]).
  rewrite E in E'. by simplify_eq.
Qed.

Lemma and_warm_r b w l r pL pR :
  and_ok b (ExtTwofer l r pL pR) -> w_kill w = None ->
  ∃ p' r' w', WarmupDocsHint pR pL r w = Some (HasDocs p', p', r', w') /\
    let t := ExtTwofer l r pL pR in let t' := ExtTwofer l r' pL p' in
    and_ok b t' /\ and_rem t' = and_rem t /\ (twofer_work t' <= twofer_work t)%nat /\
    w_kill w' = None /\ (docs p' = [] -> and_ok INVALID_ROWID t' \/ expired w') /\
    later w w'.
Proof.
  intros [[Hl Hr] Hb] Hw. cbn [m_pDocL m_pLeft m_pDocR m_pRight] in *. rewrite WarmupDocsHint_eq.
  destruct (hinted_ok _ pR pL r Hr) as (Hr1 & Hrw & _).
  destruct (WarmupDocs_ok _ pR _ w Hr1 Hw) as (p' & r' & w1 & E & [A1 A2 A3 A4 A5 A6]).
  rewrite E. exists p', r', w1. split; [done|].
  unfold and_ok, both_ok, and_rem, strL, strR, twofer_work.
  cbn [m_pDocL m_pLeft m_pDocR m_pRight]. rewrite A2.
  split; [|split; [by apply (and_hinted_r (-1))|split; [lia|split; [done|split; [|done]]]]].
  2: { intros E0. destruct (A5 E0); [left|by right]. split; [done|by right]. }
  split; [done|]. destruct Hb as [|Hb]; [by left|right].
  destruct (hinted_ok _ pR pL r Hb) as (Hb1 & _ & _).
  destruct (WarmupDocs_ok _ pR _ w Hb1 Hw) as (? & ? & ? & E' & [W _ _ _ _ _]).
  rewrite E in E'. by simplify_eq.
Qed.

Lemma and_loop_ok b fuel t out w :
  w_kill w = None -> and_ok (last_row b out) t ->
  (length out <= MAX_BLOCK_DOCS - 1)%nat -> (twofer_work t < fuel)%nat ->
  loop_post and_rem and_ok twofer_work b t out w (and_loop fuel t out w).
Proof.
  revert t out w. induction fuel as [|fuel IH]; intros [l r pL pR] out w Hw Ht Hout Hf; [lia|].
  cbn [and_loop m_pDocL m_pDocR m_pLeft m_pRight].
  pose proof (has_room_spec out) as Hroom. destruct (has_room out); cbn [negb].
  2: { apply loop_stop; auto; lia. }
  destruct (and_warm_l _ w _ _ _ _ Ht Hw) as (pL' & l' & w1 & -> & A1 & A2 & A3 & A4 & A5 & A6).
  cbn [mbind option_bind]. destruct (HasDocs pL') eqn:EL; cbn [negb].
  2: { apply HasDocs_false in EL. apply loop_stop; auto. }
  destruct (and_warm_r _ w1 _ _ _ _ A1 A4) as (pR' & r' & w2 & -> & B1 & B2 & B3 & B4 & B5 & B6).
  cbn [mbind option_bind]. destruct (HasDocs pR') eqn:ER; cbn [negb].
  2: { apply HasDocs_false in ER. apply loop_stop; auto; [congruence|lia]. }
  apply HasDocs_docs in EL, ER.
  apply (loop_skip _ _ _ _ _ (ExtTwofer l' r' pL' pR') _ _ w2); [congruence|lia|auto|].
  destruct (docs pL') as [|a dl] eqn:DL; [done|]. destruct (docs pR') as [|c dr] eqn:DR; [done|].
  pose proof (and_heads _ _ _ _ _ _ _ _ _ B1 DL DR) as H.
  cbv zeta in H. apply docs_step in DL, DR.
  destruct (_ =? _); [|destruct (_ <? _)]; destruct H as [H1 H2].
  - eapply loop_emit; [exact H1| | |apply IH; [done|by rewrite last_row_snoc|..]];
      first [done|work_lia].
  - eapply loop_skip; [exact H1| | |apply IH; [done|done|done|]]; first [done|work_lia].
  - eapply loop_skip; [exact H1| | |apply IH; [done|done|done|]]; first [done|work_lia].
Qed.

Lemma twofer_hint_str b b' k (t : ExtTwofer_c L R) :
  child_ok b (m_pDocL t) (m_pLeft t) -> child_ok b' (m_pDocR t) (m_pRight t) ->
  let t' := twofer_hint k t in
  child_ok b (m_pDocL t') (m_pLeft t') /\ child_ok b' (m_pDocR t') (m_pRight t') /\
  ge_docs k (strL t') = ge_docs k (strL t) /\ ge_docs k (strR t') = ge_docs k (strR t).
Proof.
  intros Hl Hr. destruct (child_hint b k _ _ Hl), (child_hint b' k _ _ Hr). done.
Qed.

Lemma twofer_hint_work b b' k (t : ExtTwofer_c L R) :
  child_ok b (m_pDocL t) (m_pLeft t) -> child_ok b' (m_pDocR t) (m_pRight t) ->
  (twofer_work (twofer_hint k t) <= twofer_work t)%nat.
Proof.
  intros [_ Hl] [_ Hr]. destruct (hint_ok _ k _ Hl) as (_ & _ & ?).
  destruct (hint_ok _ k _ Hr) as (_ & _ & ?). unfold twofer_work. simpl. lia.
Qed.

Lemma and_ok_asc b t : and_ok b t -> asc b (and_rem t).
Proof.
  intros [[Hl Hr] Hb]. apply child_asc in Hl. unfold and_rem, strL, strR.
  destruct Hb as [Hb|Hb]; apply child_asc in Hb; [by apply sem_asc|].
  rewrite <- (sem_and_ge_l (b + 1)) by (by replace (b + 1 - 1) with b by lia).
  replace b with (b + 1 - 1) at 1 by lia. by eapply sem_asc, asc_from_ge.
Qed.

#[export] Program Instance ExtAnd_ok : ExtNodeOk (ExtAnd_c L R) := {
  rem t := and_rem (and_base t);
  inv b t := and_ok b (and_base t)
}.
Next Obligation. intros b [t]. apply and_ok_asc. Qed.
Next Obligation.
  intros b b' [t] [? [H|H]] ?; (split; [done|]);
    [left|right]; by apply child_weaken with b.
Qed.
Next Obligation.
  intros b [t] w Ht Hw. cbn [GetDocsChunk ExtAnd_node and_base] in *. unfold and_chunk.
  destruct (and_loop_ok b (S (twofer_work t)) t [] w) as (new & t' & w' & -> & H);
    [done|done|simpl; lia|lia|].
  cbn [mbind option_bind app]. exists (ReturnDocsChunk new), (ExtAnd t'), w'. split; [done|].
  by apply (chunk_of_end and_base and_rem and_ok twofer_work).
Qed.
Next Obligation.
  intros b k [t] [[Hl Hr] Hb]. cbn [HintRowID ExtAnd_node and_base work] in *.
  destruct (twofer_hint_str _ _ k t Hl Hr) as (Hl' & Hr' & H2 & H3).
  split; [|split; [|by eapply twofer_hint_work]].
  - split; [done|]. destruct Hb as [Hb|Hb]; [left|right]; by apply child_hint.
  - unfold and_rem, strL, strR in *. apply child_asc in Hl, Hr, Hl', Hr'.
    rewrite (proj1 (sem_ge _ k _ _ Hl' Hr')), (proj1 (sem_ge _ k _ _ Hl Hr)). congruence.
Qed.

(** ** [ExtOr_c] *)

Definition or_rem (t : ExtTwofer_c L R) : list ExtDoc_t := sem_or (strL t) (strR t).

(** One turn of the merge once both cursors are refilled. *)
Lemma or_heads b l r pL pR :
  both_ok b (ExtTwofer l r pL pR) ->
  (docs pL = [] -> child_ok INVALID_ROWID pL l) ->
  (docs pR = [] -> child_ok INVALID_ROWID pR r) ->
  let t := ExtTwofer l r pL pR in
  match docs pL, docs pR with
  | [], [] => both_ok INVALID_ROWID t
  | a :: dl, c :: dr =>
      if m_tRowID a =? m_tRowID c then
        let t' := ExtTwofer l r (Some dl) (Some dr) in
        or_rem t = both a c :: or_rem t' /\ both_ok (m_tRowID a) t'
      else if m_tRowID a <? m_tRowID c then
        let t' := ExtTwofer l r (Some dl) pR in
        or_rem t = a :: or_rem t' /\ both_ok (m_tRowID a) t'
      else
        let t' := ExtTwofer l r pL (Some dr) in
        or_rem t = c :: or_rem t' /\ both_ok (m_tRowID c) t'
  | a :: dl, [] =>
      let t' := ExtTwofer l r (Some dl) pR in
      or_rem t = a :: or_rem t' /\ both_ok (m_tRowID a) t'
  | [], c :: dr =>
      let t' := ExtTwofer l r pL (Some dr) in
      or_rem t = c :: or_rem t' /\ both_ok (m_tRowID c) t'
  end.
Proof.
  intros [Hl Hr] EL ER. unfold both_ok, or_rem, strL, strR.
  cbn [m_pDocL m_pLeft m_pDocR m_pRight] in *.
  destruct (docs pL) as [|a dl] eqn:DL, (docs pR) as [|c dr] eqn:DR;
    try (destruct (child_tail _ _ _ _ _ Hl DL) as (Ra & Hl' & SL));
    try (destruct (child_tail _ _ _ _ _ Hr DR) as (Rc & Hr' & SR)).
  - auto.
  - rewrite (child_end _ _ (EL eq_refl)), SR, !sem_or_nil_l.
    split; [done|]. split; [|done]. apply child_weaken with INVALID_ROWID; [auto|lia].
  - rewrite (child_end _ _ (ER eq_refl)), SL, !sem_or_nil_r.
    split; [done|]. split; [done|]. apply child_weaken with INVALID_ROWID; [auto|lia].
  - rewrite SL, SR, sem_or_cons.
    destruct (Z.eqb_spec (m_tRowID a) (m_tRowID c)) as [Eq|Ne];
      [|destruct (Z.ltb_spec (m_tRowID a) (m_tRowID c))].
    + split; [done|]. split; [done|by rewrite Eq].
    + split; [done|]. split; [done|]. apply (child_raise _ _ _ _ _ _ Hr DR). lia.
    + split; [done|]. split; [|done]. apply (child_raise _ _ _ _ _ _ Hl DL). lia.
Qed.

Lemma or_loop_ok b fuel t out w :
  w_kill w = None -> both_ok (last_row b out) t ->
  (length out <= MAX_BLOCK_DOCS - 1)%nat -> (twofer_work t < fuel)%nat ->
  loop_post or_rem both_ok twofer_work b t out w (or_loop fuel t out w).
Proof.
  revert t out w. induction fuel as [|fuel IH]; intros [l r pL pR] out w Hw [Hl Hr] Hout Hf; [lia|].
  cbn [or_loop m_pDocL m_pDocR m_pLeft m_pRight] in *.
  pose proof (has_room_spec out) as Hroom. destruct (has_room out); cbn [negb].
  2: { apply loop_stop; auto; [by split|lia]. }
  destruct (or_refill_ok _ pL l w Hl Hw) as (brk & pL' & l' & w1 & -> & [A1 A2 A3 A4 A5 A6] & A7 & A8).
  cbn [mbind option_bind].
  assert (or_rem (ExtTwofer l' r pL' pR) = or_rem (ExtTwofer l r pL pR)) as E1
    by (unfold or_rem, strL; simpl; by rewrite A2).
  destruct brk. { apply loop_stop; auto; [by split|work_lia]. }
  destruct (or_refill_ok _ pR r w1 Hr A4) as (brk & pR' & r' & w2 & -> & [B1 B2 B3 B4 B5 B6] & B7 & B8).
  cbn [mbind option_bind].
  assert (or_rem (ExtTwofer l' r' pL' pR') = or_rem (ExtTwofer l r pL pR)) as E2
    by (rewrite <- E1; unfold or_rem, strR; simpl; by rewrite B2).
  destruct brk. { apply loop_stop; auto; [by split|work_lia]. }
  assert (twofer_work (ExtTwofer l' r' pL' pR') <= twofer_work (ExtTwofer l r pL pR))%nat as W
    by work_lia.
  apply (loop_skip _ _ _ _ _ (ExtTwofer l' r' pL' pR') _ _ w2); [done|done|auto|].
  pose proof (or_heads _ _ _ _ _ (conj A1 B1) (A8 eq_refl) (B8 eq_refl)) as H. cbv zeta in H.
  destruct (docs pL') as [|a dl] eqn:DL, (docs pR') as [|c dr] eqn:DR;
    try apply docs_step in DL; try apply docs_step in DR.
  1: { apply loop_stop; auto; by split. }
  3: destruct (_ =? _); [|destruct (_ <? _)].
  all: destruct H as [H1 H2];
    eapply loop_emit; [exact H1| | |apply IH; [done|by rewrite last_row_snoc|..]];
    first [done|work_lia].
Qed.

#[export] Program Instance ExtOr_ok : ExtNodeOk (ExtOr_c L R) := {
  rem t := or_rem (or_base t);
  inv b t := both_ok b (or_base t)
}.
Next Obligation. intros b [t] [Hl Hr]. apply sem_or_asc; by apply child_asc. Qed.
Next Obligation. intros b b' [t] [Hl Hr] ?. split; by apply child_weaken with b. Qed.
Next Obligation.
  intros b [t] w Ht Hw. cbn [GetDocsChunk ExtOr_node or_base] in *. unfold or_chunk.
  destruct (or_loop_ok b (S (twofer_work t)) t [] w) as (new & t' & w' & -> & H);
    [done|done|simpl; lia|lia|].
  cbn [mbind option_bind app]. exists (ReturnDocsChunk new), (ExtOr t'), w'. split; [done|].
  by apply (chunk_of_end or_base or_rem both_ok twofer_work).
Qed.
Next Obligation.
  intros b k [t] [Hl Hr]. cbn [HintRowID ExtOr_node or_base work] in *.
  destruct (twofer_hint_str _ _ k t Hl Hr) as (Hl' & Hr' & H2 & H3).
  split; [by split|split; [|by eapply twofer_hint_work]].
  unfold or_rem, strL, strR in *. apply child_asc in Hl, Hr, Hl', Hr'.
  rewrite (proj2 (sem_ge _ k _ _ Hl' Hr')), (proj2 (sem_ge _ k _ _ Hl Hr)). congruence.
Qed.

(** ** [ExtMaybe_c] *)

Definition maybe_rem (t : ExtTwofer_c L R) : list ExtDoc_t := sem_maybe (strL t) (strR t).

(** Only the left stream bounds the documents to come. *)
Definition left_ok (b : Z) (t : ExtTwofer_c L R) : Prop :=
  child_ok b (m_pDocL t) (m_pLeft t) /\ child_ok (-1) (m_pDocR t) (m_pRight t).

Lemma maybe_heads b l r pL pR a dl :
  left_ok b (ExtTwofer l r pL pR) -> docs pL = a :: dl ->
  (docs pR = [] -> child_ok INVALID_ROWID pR r) ->
  let t := ExtTwofer l r pL pR in
  match docs pR with
  | [] =>
      let t' := ExtTwofer l r (Some dl) pR in
      maybe_rem t = a :: maybe_rem t' /\ left_ok (m_tRowID a) t'
  | c :: dr =>
      if m_tRowID a =? m_tRowID c then
        let t' := ExtTwofer l r (Some dl) (Some dr) in
        maybe_rem t = both a c :: maybe_rem t' /\ left_ok (m_tRowID a) t'
      else if m_tRowID a <? m_tRowID c then
        let t' := ExtTwofer l r (Some dl) pR in
        maybe_rem t = a :: maybe_rem t' /\ left_ok (m_tRowID a) t'
      else
        let t' := ExtTwofer l r pL (Some dr) in
        maybe_rem t' = maybe_rem t /\ left_ok b t'
  end.
Proof.
  intros [Hl Hr] DL ER. unfold left_ok, maybe_rem, strL, strR.
  cbn [m_pDocL m_pLeft m_pDocR m_pRight] in *.
  destruct (child_tail _ _ _ _ _ Hl DL) as (Ra & Hl' & SL).
  destruct (docs pR) as [|c dr] eqn:DR.
  { rewrite SL, (child_end _ _ (ER eq_refl)). done. }
  destruct (child_tail _ _ _ _ _ Hr DR) as (Rc & Hr' & SR).
  pose proof (child_weaken _ (-1) _ _ Hr' ltac:(lia)) as Hr1.
  destruct (Z.eqb_spec (m_tRowID a) (m_tRowID c)) as [Eq|Ne];
    [|destruct (Z.ltb_spec (m_tRowID a) (m_tRowID c))].
  - rewrite SL, SR. split; [|done]. simpl. rewrite Eq, Z.eqb_refl. f_equal.
    apply sem_skip_r. rewrite <- Eq. by apply child_asc.
  - rewrite SL. split; [|done].
    assert (asc (m_tRowID a) (str pR r)) as HR
      by (apply child_asc, (child_raise _ _ _ _ _ _ Hr DR); lia).
    simpl. by rewrite (find_row_low _ _ _ HR) by lia.
  - rewrite SR. split; [|done].
    symmetry. apply sem_skip_r, child_asc, (child_raise _ _ _ _ _ _ Hl DL). lia.
Qed.

(** [!WarmupDocs ( pDocR, m_pRight ) && TimeExceeded()]: a right side found
    empty in time is over. *)
Lemma warm_late {S} {N : ExtNode_i S} {K : ExtNodeOk S} b p (s : S) w p' s' w' :
  warm_post b p s w p' s' w' -> docs p' = [] ->
  let '(late, w'') := TimeExceeded w' in
  warm_post b p s w p' s' w'' /\ (late = true -> expired w'') /\
  (late = false -> child_ok INVALID_ROWID p' s').
Proof.
  intros [W1 W2 W3 W4 W5 W6] E. pose proof (TimeExceeded_spec w') as T.
  destruct (TimeExceeded w') as [late w'']. destruct T as (T1 & T2 & T3 & T4).
  split; [|split; [done|]].
  - split; try done; [congruence| |auto]. intros ?. destruct W5; eauto.
  - intros Hl. destruct (W5 E) as [?|He]; [done|]. by destruct (T4 Hl).
Qed.

(** The refill of the right side, skipped once it is known to be empty. *)
Lemma maybe_right_ok bRE pR (r : R) w :
  child_ok (-1) pR r -> w_kill w = None ->
  (bRE = true -> child_ok INVALID_ROWID pR r) ->
  ∃ brk bRE' pR' r' w',
    maybe_right bRE pR r w = Some (brk, bRE', pR', r', w') /\
    warm_post (-1) pR r w pR' r' w' /\ (brk = true -> expired w') /\
    (brk = false -> bRE' = true -> child_ok INVALID_ROWID pR' r') /\
    (bRE' = false -> docs pR' <> []).
Proof.
  intros Hr Hw HE. unfold maybe_right. destruct bRE.
  - exists false, true, pR, r, w. split; [done|]. split; [|by auto].
    split; [done|done|lia|done|by auto|done].
  - destruct (WarmupDocs_ok _ pR r w Hr Hw) as (pR' & r' & w2 & -> & B). cbn [mbind option_bind].
    destruct (HasDocs pR') eqn:ER.
    + exists false, false, pR', r', w2. apply HasDocs_docs in ER. done.
    + apply HasDocs_false in ER. pose proof (warm_late _ _ _ _ _ _ _ B ER) as T.
      destruct (TimeExceeded w2) as [late w3]. destruct T as (T1 & T2 & T3).
      exists late, true, pR', r', w3. split; [done|]. split; [done|]. by split; auto.
Qed.

Lemma maybe_loop_ok b fuel bRightEmpty t out w :
  w_kill w = None -> left_ok (last_row b out) t ->
  (bRightEmpty = true -> child_ok INVALID_ROWID (m_pDocR t) (m_pRight t)) ->
  (length out <= MAX_BLOCK_DOCS - 1)%nat -> (twofer_work t < fuel)%nat ->
  loop_post maybe_rem left_ok twofer_work b t out w (maybe_loop fuel bRightEmpty t out w).
Proof.
  revert bRightEmpty t out w.
  induction fuel as [|fuel IH]; intros bRE [l r pL pR] out w Hw [Hl Hr] HE Hout Hf; [lia|].
  cbn [maybe_loop m_pDocL m_pDocR m_pLeft m_pRight] in *.
  pose proof (has_room_spec out) as Hroom. destruct (has_room out); cbn [negb].
  2: { apply loop_stop; auto; [by split|lia]. }
  destruct (WarmupDocs_ok _ pL l w Hl Hw) as (pL' & l' & w1 & -> & [A1 A2 A3 A4 A5 A6]).
  cbn [mbind option_bind].
  assert (maybe_rem (ExtTwofer l' r pL' pR) = maybe_rem (ExtTwofer l r pL pR)) as E1
    by (unfold maybe_rem, strL; simpl; by rewrite A2).
  destruct (HasDocs pL') eqn:EL; cbn [negb].
  2: { apply HasDocs_false in EL. apply loop_stop; auto; [by split|work_lia|].
       intros _. destruct (A5 EL); [left|by right]. by split. }
  destruct (maybe_right_ok bRE pR r w1 Hr A4 HE)
    as (brk & bRE' & pR' & r' & w2 & -> & B & Hbrk & HE' & HE2).
  cbn [mbind option_bind]. destruct B as [B1 B2 B3 B4 B5 B6].
  assert (maybe_rem (ExtTwofer l' r' pL' pR') = maybe_rem (ExtTwofer l r pL pR)) as E2
    by (rewrite <- E1; unfold maybe_rem, strR; simpl; by rewrite B2).
  assert (twofer_work (ExtTwofer l' r' pL' pR') <= twofer_work (ExtTwofer l r pL pR))%nat as W
    by work_lia.
  destruct brk. { apply loop_stop; auto; by split. }
  apply (loop_skip _ _ _ _ _ (ExtTwofer l' r' pL' pR') _ _ w2); [done|done|auto|].
  apply HasDocs_docs in EL. destruct (docs pL') as [|a dl] eqn:DL; [done|].
  pose proof (maybe_heads _ _ _ _ _ _ _ (conj A1 B1) DL) as H. cbv zeta in H.
  apply docs_step in DL.
  destruct bRE'.
  - assert (docs pR' = []) as DR.
    { specialize (HE' eq_refl eq_refl). apply child_end in HE'. by apply app_eq_nil in HE' as [? _]. }
    rewrite DR in H. destruct H as [H1 H2]; [by auto|].
    eapply loop_emit; [exact H1| | |apply IH; [done|by rewrite last_row_snoc|by auto|..]];
      first [done|work_lia].
  - specialize (HE2 eq_refl). destruct (docs pR') as [|c dr] eqn:DR; [done|]. apply docs_step in DR.
    specialize (H ltac:(done)).
    destruct (_ =? _); [|destruct (_ <? _)]; destruct H as [H1 H2].
    3: eapply loop_skip; [exact H1| | |apply IH; [done|done|done|done|]]; first [done|work_lia].
    all: eapply loop_emit; [exact H1| | |apply IH; [done|by rewrite last_row_snoc|done|..]];
      first [done|work_lia].
Qed.

Lemma left_ok_asc b t : left_ok b t -> asc b (maybe_rem t) /\ asc b (sem_andnot (strL t) (strR t)).
Proof. intros [Hl _]. split; by apply sem_asc, child_asc. Qed.

#[export] Program Instance ExtMaybe_ok : ExtNodeOk (ExtMaybe_c L R) := {
  rem t := maybe_rem (maybe_base t);
  inv b t := left_ok b (maybe_base t)
}.
Next Obligation. intros b [t] H. by apply left_ok_asc. Qed.
Next Obligation. intros b b' [t] [Hl Hr] ?. split; [by apply child_weaken with b|done]. Qed.
Next Obligation.
  intros b [t] w Ht Hw. cbn [GetDocsChunk ExtMaybe_node maybe_base] in *. unfold maybe_chunk.
  destruct (maybe_loop_ok b (S (twofer_work t)) false t [] w) as (new & t' & w' & -> & H);
    [done|done|done|simpl; lia|lia|].
  cbn [mbind option_bind app]. exists (ReturnDocsChunk new), (ExtMaybe t'), w'. split; [done|].
  by apply (chunk_of_end maybe_base maybe_rem left_ok twofer_work).
Qed.
Next Obligation.
  intros b k [t] [Hl Hr]. cbn [HintRowID ExtMaybe_node maybe_base work] in *.
  destruct (twofer_hint_str _ _ k t Hl Hr) as (Hl' & Hr' & H2 & H3).
  split; [by split|split; [|by eapply twofer_hint_work]].
  unfold maybe_rem, strL, strR in *. apply child_asc in Hl, Hl'.
  rewrite (proj1 (sem_ge_left _ k _ _ Hl')), (proj1 (sem_ge_left _ k _ _ Hl)). congruence.
Qed.

(** ** [ExtAndNot_c] *)

(** Once the reject list is over the left documents pass through. *)
Definition andnot_rem (t : ExtAndNot_c L R) : list ExtDoc_t :=
  let t0 := andnot_base t in
  if m_bPassthrough t then strL t0 else sem_andnot (strL t0) (strR t0).

Definition andnot_ok (b : Z) (t : ExtAndNot_c L R) : Prop :=
  left_ok b (andnot_base t) /\
  (m_bPassthrough t = true -> docs (m_pDocL (andnot_base t)) = []).

Definition andnot_work (t : ExtAndNot_c L R) : nat := twofer_work (andnot_base t).

(** The filtering loops move documents inside the two blocks; the children do
    not change. *)
Section Blocks.
Variables (b : Z) (l : L) (r : R).

Record blocks := Blocks { bL : list ExtDoc_t; bR : list ExtDoc_t; bOut : list ExtDoc_t }.

Definition blocks_ok (x : blocks) : Prop :=
  child_ok (last_row b (bOut x)) (Some (bL x)) l /\ child_ok (-1) (Some (bR x)) r /\
  (length (bOut x) <= MAX_BLOCK_DOCS - 1)%nat.

Definition blocks_rem (x : blocks) : list ExtDoc_t :=
  sem_andnot (str (Some (bL x)) l) (str (Some (bR x)) r).

Definition blocks_size (x : blocks) : nat :=
  length (bL x) + length (bR x).

Record blocks_step (x y : blocks) (new : list ExtDoc_t) : Prop := {
  bs_ok : blocks_ok y;
  bs_out : bOut y = bOut x ++ new;
  bs_rem : blocks_rem x = new ++ blocks_rem y;
  bs_size : (blocks_size y + length new <= blocks_size x)%nat;
  bs_move : x = y \/ (blocks_size y < blocks_size x)%nat
}.

Definition blocks_to (x y : blocks) : Prop := ∃ new, blocks_step x y new.

Lemma blocks_refl x : blocks_ok x -> blocks_to x x.
Proof. intros H. exists []. split; rewrite ?app_nil_r; simpl; (done || lia || by left). Qed.

Lemma blocks_trans x y z : blocks_to x y -> blocks_to y z -> blocks_to x z.
Proof.
  intros [n1 [A1 A2 A3 A4 A5]] [n2 [B1 B2 B3 B4 B5]]. exists (n1 ++ n2). split.
  - done.
  - by rewrite B2, A2, app_assoc.
  - by rewrite A3, B3, app_assoc.
  - rewrite length_app. lia.
  - destruct A5 as [->|], B5 as [->|]; auto; right; lia.
Qed.

Lemma step_accept a pL pR out :
  blocks_ok (Blocks (a :: pL) pR out) -> pR <> [] -> m_tRowID a < RowAt pR ->
  has_room out = true ->
  blocks_to (Blocks (a :: pL) pR out) (Blocks pL pR (out ++ [a])).
Proof.
  intros (Hl & Hr & Ho) Hne Hlt Hroom. simpl in *. destruct pR as [|c pR]; [done|].
  destruct (child_tail _ _ _ _ _ Hl eq_refl) as (Ra & Hl' & SL).
  pose proof (has_room_spec out) as Hs. rewrite Hroom in Hs.
  assert (asc (m_tRowID a) (str (Some (c :: pR)) r)) as HR
    by (apply child_asc, (child_raise _ _ _ _ c pR Hr eq_refl); done).
  exists [a]. split; [| | |unfold blocks_size; simpl; lia|right; unfold blocks_size; simpl; lia].
  - split; simpl; [by rewrite last_row_snoc|]. split; [done|]. rewrite length_snoc. clear -Hs. unfold MAX_BLOCK_DOCS in *. simpl in *. lia.
  - done.
  - unfold blocks_rem. cbn [bL bR]. rewrite SL. unfold sem_andnot at 1.
    rewrite filter_cons, decide_True; [done|]. apply (find_row_low _ _ _ HR). lia.
Qed.

Lemma step_reject a pL c pR out :
  blocks_ok (Blocks (a :: pL) (c :: pR) out) -> m_tRowID c < m_tRowID a ->
  blocks_to (Blocks (a :: pL) (c :: pR) out) (Blocks (a :: pL) pR out).
Proof.
  intros (Hl & Hr & Ho) Hlt. simpl in *.
  destruct (child_tail _ _ _ _ _ Hr eq_refl) as (Rc & Hr' & SR).
  exists []. split; [| | |unfold blocks_size; simpl; lia|right; unfold blocks_size; simpl; lia].
  - split; [done|]. split; [|done]. apply child_weaken with (m_tRowID c); [done|lia].
  - by rewrite app_nil_r.
  - unfold blocks_rem. cbn [bL bR]. rewrite SR.
    apply sem_skip_r, child_asc, (child_raise _ _ _ _ a pL Hl eq_refl). lia.
Qed.

Lemma step_match a pL c pR out :
  blocks_ok (Blocks (a :: pL) (c :: pR) out) -> m_tRowID a = m_tRowID c ->
  blocks_to (Blocks (a :: pL) (c :: pR) out) (Blocks pL pR out).
Proof.
  intros (Hl & Hr & Ho) Heq. simpl in *.
  destruct (child_tail _ _ _ _ _ Hl eq_refl) as (Ra & Hl' & SL).
  destruct (child_tail _ _ _ _ _ Hr eq_refl) as (Rc & Hr' & SR).
  exists []. split; [| | |unfold blocks_size; simpl; lia|right; unfold blocks_size; simpl; lia].
  - split; simpl; [apply child_weaken with (m_tRowID a); [done|lia]|]. split; [|done].
    apply child_weaken with (m_tRowID c); [done|lia].
  - by rewrite app_nil_r.
  - unfold blocks_rem. cbn [bL bR]. rewrite SL, SR. unfold sem_andnot at 1.
    rewrite filter_cons, decide_False.
    + apply sem_skip_r. rewrite <- Heq. by apply child_asc.
    + simpl. by rewrite Heq, Z.eqb_refl.
Qed.

Lemma copy_accepted_ok pL pR out :
  blocks_ok (Blocks pL pR out) -> pR <> [] ->
  let '(pL', out') := copy_accepted pL pR out in
  blocks_to (Blocks pL pR out) (Blocks pL' pR out') /\
  (pL' = [] \/ has_room out' = false \/ RowAt pR <= RowAt pL').
Proof.
  revert out. induction pL as [|a pL IH]; intros out H Hne; simpl.
  { split; [by apply blocks_refl|by left]. }
  destruct (Z.ltb_spec (m_tRowID a) (RowAt pR)); simpl.
  2: { split; [by apply blocks_refl|auto]. }
  destruct (has_room out) eqn:E.
  2: { split; [by apply blocks_refl|auto]. }
  pose proof (step_accept _ _ _ _ H Hne ltac:(done) E) as St.
  specialize (IH (out ++ [a])). destruct (copy_accepted pL pR (out ++ [a])) as [pL' out'].
  destruct IH as [IH1 IH2]; [by destruct St as [? []]|done|].
  split; [by eapply blocks_trans|done].
Qed.

Lemma skip_rejected_ok a pL pR out :
  blocks_ok (Blocks (a :: pL) pR out) ->
  let pR' := skip_rejected (a :: pL) pR in
  blocks_to (Blocks (a :: pL) pR out) (Blocks (a :: pL) pR' out) /\
  (pR' = [] \/ m_tRowID a <= RowAt pR').
Proof.
  induction pR as [|c pR IH]; intros H; cbn [skip_rejected].
  { split; [by apply blocks_refl|by left]. }
  cbn [RowAt]. destruct (Z.ltb_spec (m_tRowID c) (m_tRowID a)).
  - pose proof (step_reject _ _ _ _ _ H ltac:(done)) as St.
    destruct IH as [IH1 IH2]; [by destruct St as [? []]|].
    split; [by eapply blocks_trans|done].
  - split; [by apply blocks_refl|by right].
Qed.

Lemma skip_both_ok pL pR out :
  blocks_ok (Blocks pL pR out) ->
  let '(pL', pR') := skip_both pL pR in
  blocks_to (Blocks pL pR out) (Blocks pL' pR' out) /\ (pL' = [] \/ RowAt pL' <> RowAt pR').
Proof.
  revert pR. induction pL as [|a pL IH]; intros pR H; cbn [skip_both].
  { split; [by apply blocks_refl|by left]. }
  cbn [RowAt]. destruct (Z.eqb_spec (m_tRowID a) (RowAt pR)) as [E|].
  2: { split; [by apply blocks_refl|by right]. }
  destruct pR as [|c pR]; cbn [RowAt tail] in *.
  - destruct H as (Hl & _). destruct (child_tail _ _ _ _ _ Hl eq_refl) as (Ra & _). lia.
  - pose proof (step_match _ _ _ _ _ H E) as St.
    specialize (IH pR). destruct (skip_both pL pR) as [pL' pR'].
    destruct IH as [IH1 IH2]; [by destruct St as [? []]|].
    split; [by eapply blocks_trans|done].
Qed.

Lemma blocks_ok_to x y : blocks_to x y -> blocks_ok y.
Proof. by intros [? []]. Qed.

Lemma blocks_cycle x y : blocks_to x y -> blocks_to y x -> x = y.
Proof. intros [? [_ _ _ _ [?|?]]] [? [_ _ _ _ [?|?]]]; (done || lia). Qed.

Lemma filter_blocks_ok fuel pL pR out :
  blocks_ok (Blocks pL pR out) -> pL <> [] -> pR <> [] -> has_room out = true ->
  (blocks_size (Blocks pL pR out) < fuel)%nat ->
  ∃ pL' pR' out', filter_blocks fuel pL pR out = Some (pL', pR', out') /\
    blocks_to (Blocks pL pR out) (Blocks pL' pR' out') /\
    Blocks pL pR out <> Blocks pL' pR' out'.
Proof.
  revert pL pR out. induction fuel as [|fuel IH]; intros pL pR out H HL HR Hroom Hf; [lia|].
  cbn [filter_blocks].
  pose proof (copy_accepted_ok pL pR out H HR) as A.
  destruct (copy_accepted pL pR out) as [pL1 out1]. destruct A as [A1 A2].
  destruct pL1 as [|a1 pL1]; cbn [orb].
  { exists [], pR, out1. split; [done|]. split; [done|]. intros [=]. done. }
  destruct (has_room out1) eqn:Er1; cbn [negb orb].
  2: { eexists _, _, _. split; [done|]. split; [done|]. intros [=]; congruence. }
  pose proof (skip_rejected_ok a1 pL1 pR out1 (blocks_ok_to _ _ A1)) as B.
  cbv zeta in B. set (pR1 := skip_rejected (a1 :: pL1) pR) in *. destruct B as [B1 B2].
  pose proof (blocks_trans _ _ _ A1 B1) as AB.
  destruct pR1 as [|c1 pR1].
  { eexists _, _, _. split; [done|]. split; [done|]. intros [=]; congruence. }
  pose proof (skip_both_ok (a1 :: pL1) (c1 :: pR1) out1 (blocks_ok_to _ _ AB)) as C.
  destruct (skip_both (a1 :: pL1) (c1 :: pR1)) as [pL2 pR2]. destruct C as [C1 C2].
  pose proof (blocks_trans _ _ _ AB C1) as ABC.
  assert (Blocks pL pR out <> Blocks pL2 pR2 out1) as Hmove.
  { intros E. rewrite <- E in C1. pose proof (blocks_cycle _ _ AB C1) as E2.
    rewrite <- E2 in B1. pose proof (blocks_cycle _ _ A1 B1) as E1. simplify_eq.
    destruct A2 as [?|[?|?]], B2, C2; simpl in *; (congruence || lia). }
  destruct pL2 as [|a2 pL2]; cbn [orb]; [by eexists _, _, _|].
  destruct pR2 as [|c2 pR2]; cbn [orb]; [by eexists _, _, _|].
  destruct (IH (a2 :: pL2) (c2 :: pR2) out1) as (pL' & pR' & out' & E1 & E2 & E3);
    [by eapply blocks_ok_to|done|done|done|..].
  { destruct ABC as [n [_ _ _ _ [?|?]]]; [done|lia]. }
  exists pL', pR', out'. split; [done|]. split; [by eapply blocks_trans|].
  intros E. rewrite <- E in E2. by destruct (Hmove (blocks_cycle _ _ ABC E2)).
Qed.
End Blocks.

Lemma copy_leftovers_ok b (l : L) pL out :
  child_ok (last_row b out) (Some pL) l -> (length out <= MAX_BLOCK_DOCS - 1)%nat ->
  ∃ new pL', copy_leftovers pL out = (pL', out ++ new) /\ pL = new ++ pL' /\
    child_ok (last_row b (out ++ new)) (Some pL') l /\
    (length (out ++ new) <= MAX_BLOCK_DOCS - 1)%nat /\
    (pL <> [] -> has_room out = true -> new <> []).
Proof.
  revert out. induction pL as [|a pL IH]; intros out H Ho; cbn [copy_leftovers].
  { exists [], []. by rewrite app_nil_r. }
  pose proof (has_room_spec out) as Hr. destruct (has_room out) eqn:E.
  2: { exists [], (a :: pL). by rewrite app_nil_r. }
  destruct (child_tail _ _ _ _ _ H eq_refl) as (Ra & H' & _).
  destruct (IH (out ++ [a])) as (new & pL' & E1 & E2 & E3 & E4 & _).
  { by rewrite last_row_snoc. }
  { rewrite length_snoc. lia. }
  rewrite <- app_assoc in *. exists (a :: new), pL'. by subst pL.
Qed.

Lemma sem_andnot_nil_r l : sem_andnot l [] = l.
Proof. unfold sem_andnot. induction l; [done|]. rewrite filter_cons, decide_True by done. by f_equal. Qed.

(** The last turn of the loop, with nothing to filter against. *)
Lemma andnot_leftovers_ok b l r pL pR out w :
  left_ok (last_row b out) (ExtTwofer l r (Some pL) pR) -> child_ok INVALID_ROWID pR r ->
  w_kill w = None -> has_room out = true -> pL <> [] ->
  loop_post andnot_rem andnot_ok andnot_work b
    (ExtAndNot (ExtTwofer l r (Some pL) pR) false) out w
    (let '(pL, out) := copy_leftovers pL out in
     Some (out, ExtAndNot (ExtTwofer l r (Some pL) pR)
                  (match pL with [] => true | _ => false end), w)).
Proof.
  intros [Hl Hr] HE Hw Hroom HL. pose proof (has_room_spec out) as Hs. rewrite Hroom in Hs.
  cbn [m_pDocL m_pLeft m_pDocR m_pRight] in *.
  destruct (copy_leftovers_ok b l pL out Hl) as (new & pL' & -> & E2 & E3 & E4 & E5); [lia|].
  exists new, (ExtAndNot (ExtTwofer l r (Some pL') pR) (match pL' with [] => true | _ => false end)), w.
  split; [done|]. specialize (E5 HL Hroom). split; try done.
  - unfold andnot_rem, strL, strR. cbn [m_bPassthrough andnot_base m_pDocL m_pLeft m_pDocR m_pRight].
    rewrite (child_end _ _ HE), !sem_andnot_nil_r. unfold str. simpl. rewrite E2, <- app_assoc.
    by destruct pL'.
  - split; [by split|]. by destruct pL'.
  - unfold andnot_work. cbn [andnot_base]. rewrite !twofer_work_eq. simpl. rewrite E2, length_app. lia.
  - destruct new; [done|]. by destruct out.
Qed.

Lemma warm_right_ok pR (r : R) w :
  child_ok (-1) pR r -> w_kill w = None ->
  ∃ pR' r' w2 late w3, WarmupDocs pR r w = Some (HasDocs pR', pR', r', w2) /\
    (if HasDocs pR' then (false, w2) else TimeExceeded w2) = (late, w3) /\
    warm_post (-1) pR r w pR' r' w3 /\ (late = true -> expired w3) /\
    (late = false -> docs pR' = [] -> child_ok INVALID_ROWID pR' r').
Proof.
  intros Hr Hw. destruct (WarmupDocs_ok _ pR r w Hr Hw) as (pR' & r' & w2 & E & B).
  exists pR', r', w2. destruct (HasDocs pR') eqn:ER.
  - exists false, w2. apply HasDocs_docs in ER. done.
  - apply HasDocs_false in ER. pose proof (warm_late _ _ _ _ _ _ _ B ER) as T.
    destruct (TimeExceeded w2) as [late w3]. exists late, w3. destruct T as (T1 & T2 & T3).
    split; [done|]. split; [done|]. split; [done|]. by split; auto.
Qed.

Lemma andnot_loop_ok b fuel t out w :
  w_kill w = None -> left_ok (last_row b out) t ->
  (length out <= MAX_BLOCK_DOCS - 1)%nat -> (twofer_work t < fuel)%nat ->
  loop_post andnot_rem andnot_ok andnot_work b (ExtAndNot t false) out w (andnot_loop fuel t out w).
Proof.
  revert t out w. induction fuel as [|fuel IH]; intros [l r pL pR] out w Hw [Hl Hr] Hout Hf; [lia|].
  cbn [andnot_loop m_pDocL m_pDocR m_pLeft m_pRight] in *.
  pose proof (has_room_spec out) as Hroom. destruct (has_room out) eqn:Er; cbn [negb].
  2: { apply loop_stop; auto; [by split|lia]. }
  destruct (WarmupDocs_ok _ pL l w Hl Hw) as (pL' & l' & w1 & -> & [A1 A2 A3 A4 A5 A6]).
  cbn [mbind option_bind].
  assert (andnot_rem (ExtAndNot (ExtTwofer l' r pL' pR) false) =
          andnot_rem (ExtAndNot (ExtTwofer l r pL pR) false)) as E1
    by (unfold andnot_rem, strL; simpl; by rewrite A2).
  destruct (HasDocs pL') eqn:EL; cbn [negb].
  2: { apply HasDocs_false in EL. apply loop_stop; auto; [by split|unfold andnot_work; cbn [andnot_base]; work_lia|].
       intros _. destruct (A5 EL); [left|by right]. by split. }
  destruct (warm_right_ok pR r w1 Hr A4)
    as (pR' & r' & w2 & late & w3 & -> & Ew & [B1 B2 B3 B4 B5 B6] & Hlate & HE).
  cbn [mbind option_bind]. rewrite Ew.
  assert (andnot_rem (ExtAndNot (ExtTwofer l' r' pL' pR') false) =
          andnot_rem (ExtAndNot (ExtTwofer l r pL pR) false)) as E2
    by (rewrite <- E1; unfold andnot_rem, strR; simpl; by rewrite B2).
  assert (twofer_work (ExtTwofer l' r' pL' pR') <= twofer_work (ExtTwofer l r pL pR))%nat as W
    by work_lia.
  destruct late. { apply loop_stop; auto; by split. }
  apply HasDocs_docs in EL.
  apply (loop_skip _ _ _ _ _ (ExtAndNot (ExtTwofer l' r' pL' pR') false) _ _ w3); [done|done|auto|].
  destruct (docs pR') as [|c dr] eqn:DR.
  { destruct (docs pL') as [|a dl] eqn:DL; [done|]. destruct pL' as [pL'|]; [|done].
    simpl in DL. rewrite DL in *. apply andnot_leftovers_ok; auto. by split. }
  destruct (filter_blocks_ok b l' r' (S (length (docs pL') + length (c :: dr)))
    (docs pL') (c :: dr) out) as (p1 & p2 & out' & -> & [new [F1 F2 F3 F4 F5]] & F6);
    [|done|done|done|unfold blocks_size; simpl; lia|].
  { split; [done|]. split; [|done]. unfold child_ok in *. by rewrite DR in B1. }
  cbn [mbind option_bind]. simpl in F2. subst out'. destruct F5 as [?|F5]; [done|].
  destruct F1 as (G1 & G2 & G3). unfold blocks_size in *. cbn [bL bR bOut] in *.
  assert (length (docs pR') = length (c :: dr)) as DR' by (by rewrite DR).
  eapply loop_emits; [| |done|apply IH; [done|by split|done|]].
  - unfold andnot_rem, strL, strR.
    cbn [m_bPassthrough andnot_base m_pDocL m_pLeft m_pDocR m_pRight].
    etrans; [|apply F3]. unfold blocks_rem, str. cbn [bL bR]. by rewrite DR.
  - unfold andnot_work. cbn [andnot_base]. rewrite !twofer_work_eq. simpl docs. lia.
  - rewrite !twofer_work_eq in *. simpl docs. lia.
Qed.

#[export] Program Instance ExtAndNot_ok : ExtNodeOk (ExtAndNot_c L R) := {
  rem t := andnot_rem t;
  inv b t := andnot_ok b t
}.
Next Obligation.
  intros b [t []] [H _]; [|by apply left_ok_asc]. destruct H as [H _]. by apply child_asc.
Qed.
Next Obligation. intros b b' t [[Hl Hr] Hp] ?. split; [|done]. split; [by apply child_weaken with b|done]. Qed.
Next Obligation.
  intros b [t []] w [[Hl Hr] Hp] Hw; cbn [GetDocsChunk ExtAndNot_node andnot_base m_bPassthrough] in *;
    unfold andnot_chunk; cbn [andnot_base m_bPassthrough].
  - destruct t as [l r pL pR]. cbn [m_pDocL m_pLeft m_pDocR m_pRight] in *. specialize (Hp eq_refl).
    destruct Hl as [_ Hl]. rewrite Hp in Hl. simpl in Hl.
    destruct (chunk_ok b l w Hl Hw) as (p & l' & w' & -> & [C1 C2 C3 C4 C5 C6 C7 C8]).
    cbn [mbind option_bind].
    exists p, (ExtAndNot (ExtTwofer l' r pL pR) true), w'. split; [done|].
    unfold andnot_rem, andnot_ok, left_ok, child_ok, strL, str. split;
      cbn [andnot_base m_bPassthrough m_pDocL m_pLeft m_pDocR m_pRight]; rewrite ?Hp; try done.
    + simpl. rewrite ?twofer_work_eq. lia.
    + intros Hn. destruct (C7 Hn); [left|by right]. done.
  - destruct (andnot_loop_ok b (S (twofer_work t)) t [] w) as (new & t' & w' & -> & H);
      [done|by split|simpl; lia|lia|].
    cbn [mbind option_bind app]. exists (ReturnDocsChunk new), t', w'. split; [done|].
    by apply (chunk_of_end id andnot_rem andnot_ok andnot_work).
Qed.
Next Obligation.
  intros b k [t p] [[Hl Hr] Hp]. cbn [HintRowID ExtAndNot_node andnot_base work m_bPassthrough] in *.
  destruct (twofer_hint_str _ _ k t Hl Hr) as (Hl' & Hr' & H2 & H3).
  split; [by split|split; [|by eapply twofer_hint_work]].
  unfold andnot_rem, strL, strR in *. cbn [m_bPassthrough andnot_base].
  destruct p; [done|]. apply child_asc in Hl, Hl'.
  rewrite (proj2 (sem_ge_left _ k _ _ Hl')), (proj2 (sem_ge_left _ k _ _ Hl)). congruence.
Qed.
End And.
End SearchNodeOk.
