(* ===== verification/ExtTerm.v ===== *)
(** * The keyword streamer (src/src/searchnode.cpp, [ExtTerm_T])

    The leaf of the matching tree: reads the postings of one keyword through
    the [ISphQword] interface, keeps those in the queried fields and inside the
    row id boundaries, and hands them out as documents.  [QwordOk] is what it
    relies on; with it the streamer meets [ExtNodeOk]. *)

From S2P Require Import Prelude Hits SearchNode SearchNodeOk.
Import Hitman FieldMask SearchNode SearchNodeOk.

Module ExtTerm.

(** ** The interface of a keyword reader (src/src/sphinxsearch.h) *)

(** The iterator state a node reads, and the operations it calls.  [qwork]
    bounds the documents still to be read and is not in the source. *)
Class ISphQword (Q : Type) := {
  q_iDocs : Q -> Z;                 (* m_iDocs *)
  q_set_iDocs : Z -> Q -> Q;
  q_tRowID : Q -> Z;                (* row id of the match GetNextDoc() returns *)
  q_dQwordFields : Q -> FieldMask_t;
  q_uMatchHits : Q -> Z;
  q_iHitlistPos : Q -> Z;
  GetNextDoc : Q -> Q;
  CollectHitMask : Q -> Q;
  q_HintRowID : Z -> Q -> Q;
  SeekHitlist : Z -> Q -> Q;
  GetNextHit : Q -> Z * Q;
  qwork : Q -> nat
}.

Record StoredHit_t := StoredHit { m_tHitlistOffset : Z; sh_tRowID : Z }.

Record RowIdBoundaries_t := RowIdBoundaries { m_tMinRowID : Z; m_tMaxRowID : Z }.

(** [ExtTerm_T<true,ROWID_LIMITS,STATS>]; the two counters are those of
    [m_pStats] the class updates, [m_dHits] the hits block of the node. *)
Record ExtTerm_T (Q : Type) := MkTerm {
  m_pQword : Q;
  ROWID_LIMITS : bool;
  STATS : bool;
  m_dQueriedFields : FieldMask_t;
  m_bHasWideFields : bool;
  m_fIDF : float32;
  m_bCollectHits : bool;
  m_tBoundaries : RowIdBoundaries_t;
  m_iAtomPos : Z;
  m_dStoredHits : list StoredHit_t;
  m_iFetchedDocs : Z;
  m_iFetchedHits : Z;
  m_iSkips : Z
}.
Arguments MkTerm {Q}.
Arguments m_pQword {Q}. Arguments ROWID_LIMITS {Q}. Arguments STATS {Q}.
Arguments m_dQueriedFields {Q}. Arguments m_bHasWideFields {Q}. Arguments m_fIDF {Q}.
Arguments m_bCollectHits {Q}. Arguments m_tBoundaries {Q}. Arguments m_iAtomPos {Q}.
Arguments m_dStoredHits {Q}. Arguments m_iFetchedDocs {Q}. Arguments m_iFetchedHits {Q}.
Arguments m_iSkips {Q}.

Section Term.
Context {Q : Type} {I : ISphQword Q}.
Abbreviation term := (ExtTerm_T Q).

Definition set_qword (q : Q) (t : term) : term :=
  MkTerm q (ROWID_LIMITS t) (STATS t) (m_dQueriedFields t) (m_bHasWideFields t) (m_fIDF t)
    (m_bCollectHits t) (m_tBoundaries t) (m_iAtomPos t) (m_dStoredHits t)
    (m_iFetchedDocs t) (m_iFetchedHits t) (m_iSkips t).

Definition add_stored (l : list StoredHit_t) (t : term) : term :=
  MkTerm (m_pQword t) (ROWID_LIMITS t) (STATS t) (m_dQueriedFields t) (m_bHasWideFields t) (m_fIDF t)
    (m_bCollectHits t) (m_tBoundaries t) (m_iAtomPos t) (m_dStoredHits t ++ l)
    (m_iFetchedDocs t) (m_iFetchedHits t) (m_iSkips t).

Definition count_docs (n : Z) (t : term) : term :=
  MkTerm (m_pQword t) (ROWID_LIMITS t) (STATS t) (m_dQueriedFields t) (m_bHasWideFields t) (m_fIDF t)
    (m_bCollectHits t) (m_tBoundaries t) (m_iAtomPos t) (m_dStoredHits t)
    (if STATS t then m_iFetchedDocs t + n else m_iFetchedDocs t) (m_iFetchedHits t) (m_iSkips t).

(** [float(m_uMatchHits) / float(m_uMatchHits+SPH_BM25_K1) * m_fIDF]. *)
Definition tfidf (uMatchHits : Z) (fIDF : float32) : float32 :=
  fmul (fdiv (float_of uMatchHits) (fadd (float_of uMatchHits) SPH_BM25_K1)) fIDF.

Definition has_same_fields (a b : FieldMask_t) : bool :=
  existsb (λ i, negb (Z.land (word a i) (word b i) =? 0)) (seq 0 SIZE).

(** The [while ( iDoc<MAX_BLOCK_DOCS-1 )] loop; [stored] are the hits appended
    through [pStoredHit]. *)
Fixpoint term_loop (fuel : nat) (t : term) (out : list ExtDoc_t) :
    option (list ExtDoc_t * term) :=
  match fuel with
  | O => None
  | S fuel' =>
      if negb (has_room out) then Some (out, t) else
      let q := GetNextDoc (m_pQword t) in
      let row := q_tRowID q in
      if ROWID_LIMITS t && (row <? m_tMinRowID (m_tBoundaries t)) then
        term_loop fuel' (set_qword q t) out
      else if ROWID_LIMITS t && (m_tMaxRowID (m_tBoundaries t) <? row) then
        Some (out, set_qword (q_set_iDocs 0 q) t)
      else if row =? INVALID_ROWID then
        Some (out, set_qword (q_set_iDocs 0 q) t)
      else
        let q := if m_bHasWideFields t then CollectHitMask q else q in
        let same :=
          if m_bHasWideFields t then has_same_fields (q_dQwordFields q) (m_dQueriedFields t)
          else negb (Z.land (GetMask32 (q_dQwordFields q)) (GetMask32 (m_dQueriedFields t)) =? 0) in
        if negb same then term_loop fuel' (set_qword q t) out
        else
          let tDoc := ExtDoc row
            (Z.land (GetMask32 (q_dQwordFields q)) (GetMask32 (m_dQueriedFields t)))
            (tfidf (q_uMatchHits q) (m_fIDF t)) in
          let t := set_qword q t in
          let t := if m_bCollectHits t
                   then add_stored [StoredHit (q_iHitlistPos q) row] t else t in
          term_loop fuel' t (out ++ [tDoc])
  end.

Definition term_chunk (t : term) (w : World) : option (docptr * term * World) :=
  if q_iDocs (m_pQword t) =? 0 then Some (None, t, w) else
  let '(late, w) := TimeExceeded w in
  if (late : bool) then Some (None, t, w) else
  let '(killed, w) := Interrupted w in
  if (killed : bool) then Some (None, t, w) else
  '(out, t) ← term_loop (S (qwork (m_pQword t))) t [];
  Some (ReturnDocsChunk out, count_docs (Z.of_nat (length out)) t, w).

Definition term_hint (tRowID : Z) (t : term) : term :=
  MkTerm (q_HintRowID tRowID (m_pQword t)) (ROWID_LIMITS t) (STATS t) (m_dQueriedFields t)
    (m_bHasWideFields t) (m_fIDF t) (m_bCollectHits t) (m_tBoundaries t) (m_iAtomPos t)
    (m_dStoredHits t) (m_iFetchedDocs t) (m_iFetchedHits t)
    (if STATS t then m_iSkips t + 1 else m_iSkips t).

Definition SetRowidBoundaries (tBoundaries : RowIdBoundaries_t) (t : term) : term :=
  term_hint (m_tMinRowID tBoundaries)
    (MkTerm (m_pQword t) (ROWID_LIMITS t) (STATS t) (m_dQueriedFields t) (m_bHasWideFields t)
      (m_fIDF t) (m_bCollectHits t) tBoundaries (m_iAtomPos t) (m_dStoredHits t)
      (m_iFetchedDocs t) (m_iFetchedHits t) (m_iSkips t)).

#[export] Instance ExtTerm_node : ExtNode_i term := {
  GetDocsChunk := term_chunk;
  HintRowID := term_hint;
  work t := if q_iDocs (m_pQword t) =? 0 then O else qwork (m_pQword t)
}.
End Term.

(** ** What a keyword reader promises *)

(** A posting: the iterator state after [GetNextDoc], and the field mask after
    [CollectHitMask]. *)
Record posting := Posting {
  p_row : Z; p_fields : FieldMask_t; p_mask : FieldMask_t; p_hits : Z; p_hitpos : Z
}.

Fixpoint pasc (b : Z) (l : list posting) : Prop :=
  match l with
  | [] => True
  | p :: l' => b < p_row p < INVALID_ROWID /\ pasc (p_row p) l'
  end.

Definition ge_postings (k : Z) (l : list posting) : list posting :=
  filter (λ p, k <= p_row p) l.

(** [qrem q]: the postings not read yet.  Past the last of them [GetNextDoc]
    reports [INVALID_ROWID]. *)
Class QwordOk (Q : Type) {I : ISphQword Q} := {
  qrem : Q -> list posting;
  qinv : Z -> Q -> Prop;
  qinv_asc b q : qinv b q -> pasc b (qrem q);
  qinv_weaken b b' q : qinv b q -> b' <= b -> qinv b' q;
  next_none b q : qinv b q -> qrem q = [] -> q_tRowID (GetNextDoc q) = INVALID_ROWID;
  next_some b q p l : qinv b q -> qrem q = p :: l ->
    let q' := GetNextDoc q in
    q_tRowID q' = p_row p /\ q_dQwordFields q' = p_fields p /\ q_uMatchHits q' = p_hits p /\
    q_iHitlistPos q' = p_hitpos p /\ qrem q' = l /\ qinv (p_row p) q' /\
    (qwork q' < qwork q)%nat;
  mask_ok b q p l : qinv b q -> qrem q = p :: l ->
    let q' := CollectHitMask (GetNextDoc q) in
    q_tRowID q' = p_row p /\ q_dQwordFields q' = p_mask p /\ q_uMatchHits q' = p_hits p /\
    q_iHitlistPos q' = p_hitpos p /\ qrem q' = l /\ qinv (p_row p) q' /\
    (qwork q' < qwork q)%nat;
  next_iDocs q : q_iDocs (GetNextDoc q) = q_iDocs q;
  mask_iDocs q : q_iDocs (CollectHitMask q) = q_iDocs q;
  set_iDocs n q : q_iDocs (q_set_iDocs n q) = n;
  qhint_ok b k q : qinv b q ->
    qinv b (q_HintRowID k q) /\
    ge_postings k (qrem (q_HintRowID k q)) = ge_postings k (qrem q) /\
    (qwork (q_HintRowID k q) <= qwork q)%nat;
  qhint_iDocs k q : q_iDocs (q_HintRowID k q) = q_iDocs q
}.

(** ** The streamer meets the contract of a node *)

Section TermOk.
Context {Q : Type} {I : ISphQword Q} {K : QwordOk Q}.
Abbreviation term := (ExtTerm_T Q).

Definition term_fields (t : term) (p : posting) : FieldMask_t :=
  if m_bHasWideFields t then p_mask p else p_fields p.

(** The posting is in a queried field. *)
Definition term_accepts (t : term) (p : posting) : bool :=
  if m_bHasWideFields t then has_same_fields (p_mask p) (m_dQueriedFields t)
  else negb (Z.land (GetMask32 (p_fields p)) (GetMask32 (m_dQueriedFields t)) =? 0).

Definition term_doc (t : term) (p : posting) : ExtDoc_t :=
  ExtDoc (p_row p) (Z.land (GetMask32 (term_fields t p)) (GetMask32 (m_dQueriedFields t)))
    (tfidf (p_hits p) (m_fIDF t)).

Definition term_below (t : term) (p : posting) : bool :=
  ROWID_LIMITS t && (p_row p <? m_tMinRowID (m_tBoundaries t)).
Definition term_above (t : term) (p : posting) : bool :=
  ROWID_LIMITS t && (m_tMaxRowID (m_tBoundaries t) <? p_row p).

(** What the streamer makes of a list of postings: the reference definition. *)
Definition term_docs (t : term) (l : list posting) : list ExtDoc_t :=
  map (term_doc t)
    (filter (λ p, (negb (term_below t p) && negb (term_above t p) && term_accepts t p) = true) l).

Definition term_rem (t : term) : list ExtDoc_t :=
  if q_iDocs (m_pQword t) =? 0 then [] else term_docs t (qrem (m_pQword t)).

(** Boundaries never exceed [INVALID_ROWID], and [m_tMinRowID <= m_tMaxRowID]
    is not needed. *)
Definition bounds_ok (t : term) : Prop :=
  ROWID_LIMITS t = true -> m_tMinRowID (m_tBoundaries t) <= INVALID_ROWID.

Definition term_inv (b : Z) (t : term) : Prop :=
  bounds_ok t /\ (q_iDocs (m_pQword t) <> 0 -> qinv b (m_pQword t)).

Definition term_work (t : term) : nat := work t.

Lemma pasc_above t b p l :
  pasc b (p :: l) -> term_above t p = true -> term_docs t (p :: l) = [].
Proof.
  intros H Ha. unfold term_docs.
  assert (Forall (λ p, term_above t p = true) (p :: l)) as Hall.
  { constructor; [done|]. destruct H as [_ H]. unfold term_above in *.
    apply andb_true_iff in Ha as [-> Ha]. apply Z.ltb_lt in Ha. simpl.
    remember (p_row p) as c eqn:Ec. clear Ec b. revert c Ha H.
    induction l as [|x l IH]; intros c Ha H; [constructor|]. destruct H as [Hx H].
    constructor; [apply Z.ltb_lt; lia|]. apply (IH (p_row x)); [lia|done]. }
  clear H Ha. induction Hall as [|x l' Hx _ IH]; [done|].
  rewrite filter_cons, decide_False; [done|]. rewrite Hx. simpl. by rewrite andb_false_r.
Qed.

Lemma term_docs_below t p l : term_below t p = true -> term_docs t (p :: l) = term_docs t l.
Proof. intros H. unfold term_docs. rewrite filter_cons, H. by rewrite decide_False. Qed.

(** One turn of the loop on a posting inside the boundaries. *)
Lemma term_docs_cons t p l :
  term_below t p = false -> term_above t p = false ->
  term_docs t (p :: l) =
  if term_accepts t p then term_doc t p :: term_docs t l else term_docs t l.
Proof.
  intros Hb Ha. unfold term_docs. rewrite filter_cons, Hb, Ha. simpl.
  destruct (term_accepts t p) eqn:E; [by rewrite decide_True|by rewrite decide_False].
Qed.

Lemma term_accepts_eq t p :
  (if m_bHasWideFields t then has_same_fields (term_fields t p) (m_dQueriedFields t)
   else negb (Z.land (GetMask32 (term_fields t p)) (GetMask32 (m_dQueriedFields t)) =? 0)) =
  term_accepts t p.
Proof. unfold term_fields, term_accepts. by destruct (m_bHasWideFields t). Qed.

Lemma term_rem_on t : q_iDocs (m_pQword t) <> 0 -> term_rem t = term_docs t (qrem (m_pQword t)).
Proof. intros H. unfold term_rem. by rewrite (proj2 (Z.eqb_neq _ _)). Qed.

Lemma term_work_on t : q_iDocs (m_pQword t) <> 0 -> term_work t = qwork (m_pQword t).
Proof. intros H. unfold term_work. simpl. by rewrite (proj2 (Z.eqb_neq _ _)). Qed.

Lemma term_off b t q :
  bounds_ok t -> q_iDocs q = 0 ->
  term_rem (set_qword q t) = [] /\ term_inv b (set_qword q t) /\ term_work (set_qword q t) = O.
Proof.
  intros Hb Hq. unfold term_rem, term_inv, term_work. simpl. rewrite Hq. simpl. done.
Qed.

(** The end of the keyword: [m_iDocs] is cleared and nothing is left. *)
Lemma term_stop b t out w q :
  bounds_ok t -> q_iDocs q = 0 -> term_rem t = [] -> (length out <= MAX_BLOCK_DOCS - 1)%nat ->
  w_kill w = None ->
  loop_post term_rem term_inv term_work b t out w (Some (out, set_qword q t, w)).
Proof.
  intros Hb Hq Hr Ho Hw. destruct (term_off (last_row b out) t q Hb Hq) as (E1 & E2 & E3).
  apply loop_stop; [congruence|done|done|lia|done| |done].
  intros _. left. by apply term_off.
Qed.

Definition with_world (w : World) (r : option (list ExtDoc_t * term)) :
    option (list ExtDoc_t * term * World) :=
  '(out, t) ← r; Some (out, t, w).

(** Moving to the next posting without and with a document. *)
Lemma term_next t t1 l :
  (∀ l, term_docs t1 l = term_docs t l) -> q_iDocs (m_pQword t) <> 0 ->
  q_iDocs (m_pQword t1) = q_iDocs (m_pQword t) -> qrem (m_pQword t1) = l ->
  (qwork (m_pQword t1) < qwork (m_pQword t))%nat ->
  term_rem t1 = term_docs t l /\ (term_work t1 < term_work t)%nat.
Proof.
  intros E2 Hd Eq <- Hw. rewrite term_rem_on, !term_work_on, E2 by congruence. done.
Qed.

Lemma term_next_skip b t t1 out w l res :
  (∀ l, term_docs t1 l = term_docs t l) -> q_iDocs (m_pQword t) <> 0 ->
  q_iDocs (m_pQword t1) = q_iDocs (m_pQword t) -> qrem (m_pQword t1) = l ->
  (qwork (m_pQword t1) < qwork (m_pQword t))%nat -> term_rem t = term_docs t l ->
  loop_post term_rem term_inv term_work b t1 out w res ->
  loop_post term_rem term_inv term_work b t out w res.
Proof.
  intros E1 Hd Eq El Hw Hr. destruct (term_next t t1 l E1 Hd Eq El Hw).
  apply loop_skip; (congruence || lia || done).
Qed.

Lemma term_next_emit b t t1 out w d l res :
  (∀ l, term_docs t1 l = term_docs t l) -> q_iDocs (m_pQword t) <> 0 ->
  q_iDocs (m_pQword t1) = q_iDocs (m_pQword t) -> qrem (m_pQword t1) = l ->
  (qwork (m_pQword t1) < qwork (m_pQword t))%nat -> term_rem t = d :: term_docs t l ->
  loop_post term_rem term_inv term_work b t1 (out ++ [d]) w res ->
  loop_post term_rem term_inv term_work b t out w res.
Proof.
  intros E1 Hd Eq El Hw Hr. destruct (term_next t t1 l E1 Hd Eq El Hw).
  apply loop_emit; (congruence || lia || done).
Qed.

(** What the loop body reads of the current posting. *)
Lemma term_read b t q p l :
  qinv b q -> qrem q = p :: l ->
  let q' := if m_bHasWideFields t then CollectHitMask (GetNextDoc q) else GetNextDoc q in
  q_iDocs q' = q_iDocs q /\ q_dQwordFields q' = term_fields t p /\ q_uMatchHits q' = p_hits p /\
  qrem q' = l /\ qinv (p_row p) q' /\ (qwork q' < qwork q)%nat.
Proof.
  intros Hq Er. destruct (next_some _ _ _ _ Hq Er) as (N1 & N2 & N3 & N4 & N5 & N6 & N7).
  destruct (mask_ok _ _ _ _ Hq Er) as (M1 & M2 & M3 & M4 & M5 & M6 & M7).
  unfold term_fields. destruct (m_bHasWideFields t); rewrite ?mask_iDocs, next_iDocs; done.
Qed.

(** The loop at the end of the list. *)
Lemma term_loop_end b c fuel t out w :
  w_kill w = None -> bounds_ok t -> q_iDocs (m_pQword t) <> 0 -> qinv c (m_pQword t) ->
  (length out <= MAX_BLOCK_DOCS - 1)%nat -> has_room out = true ->
  qrem (m_pQword t) = [] ->
  loop_post term_rem term_inv term_work b t out w (with_world w (term_loop (S fuel) t out)).
Proof.
  intros Hw Hb Hd Hq Hout Hroom Er. cbn [term_loop]. rewrite Hroom. cbn [negb].
  rewrite (next_none _ _ Hq Er).
  assert (ROWID_LIMITS t && (INVALID_ROWID <? m_tMinRowID (m_tBoundaries t)) = false) as ->.
  { destruct (ROWID_LIMITS t) eqn:El; [|done]. apply Z.ltb_ge. by apply Hb. }
  rewrite Z.eqb_refl.
  assert (term_rem t = []) as E by (rewrite term_rem_on by done; by rewrite Er).
  destruct (_ && _); apply term_stop; auto; by rewrite set_iDocs.
Qed.

Lemma term_loop_ok b fuel t out w :
  w_kill w = None -> bounds_ok t -> q_iDocs (m_pQword t) <> 0 ->
  qinv (last_row b out) (m_pQword t) ->
  (length out <= MAX_BLOCK_DOCS - 1)%nat -> (qwork (m_pQword t) < fuel)%nat ->
  loop_post term_rem term_inv term_work b t out w (with_world w (term_loop fuel t out)).
Proof.
  intros Hw. revert t out.
  induction fuel as [|fuel IH]; intros t out Hb Hd Hq Hout Hf; [lia|].
  destruct (has_room out) eqn:Er0.
  2: { cbn [term_loop]. rewrite Er0. pose proof (has_room_spec out) as Hroom. rewrite Er0 in Hroom.
       apply loop_stop; auto; [by split|lia]. }
  pose proof (has_room_spec out) as Hroom. rewrite Er0 in Hroom.
  destruct (qrem (m_pQword t)) as [|p l] eqn:Er.
  { by apply (term_loop_end b (last_row b out)). }
  cbn [term_loop]. rewrite Er0. cbn [negb]. set (q := m_pQword t) in *.
  pose proof (qinv_asc _ _ Hq) as Ha. rewrite Er in Ha.
  destruct (next_some _ _ _ _ Hq Er) as (N1 & N2 & N3 & N4 & N5 & N6 & N7).
  rewrite N1. fold (term_below t p). fold (term_above t p).
  assert (term_rem t = term_docs t (p :: l)) as Et by (rewrite term_rem_on by done; fold q; by rewrite Er).
  assert (last_row b out <= p_row p) as Hge by (destruct Ha; lia).
  destruct (term_below t p) eqn:Ebe.
  { apply (term_next_skip b t (set_qword (GetNextDoc q) t) out w l);
      [done|done|exact (next_iDocs q)|done|done|by rewrite Et, term_docs_below|].
    apply IH; simpl; try done; [by rewrite next_iDocs|by apply (qinv_weaken _ _ _ N6)|lia]. }
  destruct (term_above t p) eqn:Eab.
  { apply term_stop; auto; [by rewrite set_iDocs|by rewrite Et; eapply pasc_above]. }
  rewrite (term_docs_cons t p l Ebe Eab) in Et.
  rewrite (proj2 (Z.eqb_neq (p_row p) INVALID_ROWID)) by (destruct Ha; lia).
  destruct (term_read _ t _ _ _ Hq Er) as (Q1 & Q2 & Q3 & Q4 & Q5 & Q6).
  set (q' := if m_bHasWideFields t then _ else _) in *. rewrite Q2, Q3, term_accepts_eq.
  destruct (term_accepts t p) eqn:Eac; cbn [negb].
  2: { apply (term_next_skip b t (set_qword q' t) out w l); try done.
       apply IH; simpl; try done; [by rewrite Q1|by apply (qinv_weaken _ _ _ Q5)|lia]. }
  set (t1 := if m_bCollectHits _ then _ else _).
  assert (m_pQword t1 = q' /\ (∀ l, term_docs t1 l = term_docs t l) /\ bounds_ok t1) as (T1 & T2 & T3)
    by (unfold t1; simpl; by destruct (m_bCollectHits t)).
  apply (term_next_emit b t t1 out w (term_doc t p) l); rewrite ?T1; try done.
  apply IH; rewrite ?T1, ?last_row_snoc, ?length_snoc; try done; [by rewrite Q1|lia..].
Qed.

Lemma term_docs_asc b t l : pasc b l -> asc b (term_docs t l).
Proof.
  unfold term_docs. revert b. induction l as [|p l IH]; intros b; [done|]. intros [Hp H].
  rewrite filter_cons. case_decide; simpl.
  - split; [done|by apply IH].
  - apply asc_weaken with (p_row p); [by apply IH|lia].
Qed.

Lemma ge_term_docs k t l : ge_docs k (term_docs t l) = term_docs t (ge_postings k l).
Proof.
  unfold term_docs, ge_docs, ge_postings. induction l as [|p l IH]; [done|].
  rewrite !filter_cons. case_decide as E; cbn [map]; rewrite ?filter_cons; simpl m_tRowID;
    destruct (decide (k <= p_row p)); rewrite ?filter_cons; rewrite ?decide_True by done;
    rewrite ?decide_False by done; cbn [map]; rewrite ?IH; done.
Qed.

#[export] Program Instance ExtTerm_ok : ExtNodeOk term := {
  rem := term_rem;
  inv := term_inv
}.
Next Obligation.
  intros b t [_ H]. unfold term_rem. destruct (Z.eqb_spec (q_iDocs (m_pQword t)) 0); [done|].
  by apply term_docs_asc, qinv_asc, H.
Qed.
Next Obligation. intros b b' t [H1 H2] ?. split; [done|]. intros. by eapply qinv_weaken; [apply H2|]. Qed.
Next Obligation.
  intros b t w [Hb Hi] Hw. cbn [GetDocsChunk ExtTerm_node]. unfold term_chunk.
  destruct (Z.eqb_spec (q_iDocs (m_pQword t)) 0) as [E|N].
  { exists None, t, w. split; [done|]. split; simpl; try done; try lia.
    intros _. left. split; [done|]. by rewrite E. }
  pose proof (TimeExceeded_spec w) as T. destruct (TimeExceeded w) as [late w1].
  destruct T as (T1 & T2 & T3 & T4). destruct late.
  { exists None, t, w1. split; [done|]. split; simpl; try done; try lia; [congruence|auto]. }
  unfold Interrupted. rewrite T1, Hw. simpl tick. cbv beta iota zeta.
  destruct (term_loop_ok b (S (qwork (m_pQword t))) t [] (mkWorld (w_timer w1) None))
    as (new & t' & w' & E & H); [done|done|done|by apply Hi|simpl; lia|lia|].
  destruct (term_loop _ t []) as [[out t0]|]; [|done]. cbn [mbind option_bind] in *.
  unfold with_world in E. simpl in E. injection E as -> -> <-.
  exists (ReturnDocsChunk new), (count_docs (Z.of_nat (length new)) t'), (mkWorld (w_timer w1) None).
  split; [done|].
  assert (loop_end term_rem term_inv term_work b t [] w new t' (mkWorld (w_timer w1) None)) as H'.
  { destruct H. split; try done. }
  by destruct (chunk_of_end id term_rem term_inv term_work b t w new t' _ (λ _, eq_refl) H').
Qed.
Next Obligation.
  intros b k t [Hb Hi]. cbn [HintRowID ExtTerm_node]. unfold term_hint.
  unfold term_rem, term_inv. simpl. rewrite qhint_iDocs.
  destruct (Z.eqb_spec (q_iDocs (m_pQword t)) 0) as [E|N]; [done|].
  destruct (qhint_ok b k (m_pQword t) (Hi N)) as (H1 & H2 & H3).
  split; [done|]. split; [|done].
  change (ge_docs k (term_docs t (qrem (q_HintRowID k (m_pQword t)))) =
          ge_docs k (term_docs t (qrem (m_pQword t)))).
  by rewrite !ge_term_docs, H2.
Qed.
End TermOk.
End ExtTerm.
