(* ===== verification/Query.v ===== *)
(** * The evaluation tree of a query (src/src/searchnode.cpp, [ExtNode_i::Create])

    A parsed query is turned into a tree of streamers; the theorems of this
    file say what the tree as a whole computes: the rows that satisfy the
    query, each once, in ascending order, whatever the block boundaries. *)

From S2P Require Import Prelude Hits SearchNode SearchNodeOk ExtTerm.
Import SearchNode SearchNodeOk ExtTerm.

Module Query.

(** The operators of [XQOperator_e] built of two-children nodes. *)
Inductive XQOperator_e := SPH_QUERY_AND | SPH_QUERY_OR | SPH_QUERY_MAYBE | SPH_QUERY_ANDNOT.

Section Tree.
Context {Q : Type} {I : ISphQword Q} {K : QwordOk Q}.

#[local] Set Warnings "-register-all".
(** A query node: a keyword, with the streamer [Create] makes of it ([None] when
    it makes none), or an operator and its children. *)
Inductive XQNode_t :=
  | XQKeyword (pTerm : option (ExtTerm_T Q))
  | XQOp (eOp : XQOperator_e) (dChildren : list XQNode_t).

(** The tree of streamers, two children per operator. *)
Inductive tree :=
  | Term (t : ExtTerm_T Q)
  | Twofer (eOp : XQOperator_e) (l r : tree).

(** [GetDocsCount]; an AND node knows since its construction whether a child is
    empty ([m_bEmpty]). *)
Fixpoint GetDocsCount (t : tree) : Z :=
  match t with
  | Term t => q_iDocs (m_pQword t)
  | Twofer SPH_QUERY_AND l r => if (GetDocsCount l =? 0) || (GetDocsCount r =? 0) then 0 else 2 ^ 31 - 1
  | Twofer _ _ _ => 2 ^ 31 - 1
  end.

(** The constructors of the two-children nodes; the one of [ExtAnd_c] puts an
    empty child first. *)
Definition new_twofer (eOp : XQOperator_e) (l r : tree) : tree :=
  match eOp with
  | SPH_QUERY_AND => if negb (GetDocsCount l =? 0) && (GetDocsCount r =? 0) then Twofer eOp r l else Twofer eOp l r
  | _ => Twofer eOp l r
  end.

(** [ExtNode_i::Create], the generic case: streamers that could not be created
    are skipped and the others are combined from the left. The node cache, whose
    proxies repeat what a shared node gave before, is left out. *)
Fixpoint Create (pNode : XQNode_t) : option tree :=
  match pNode with
  | XQKeyword pTerm => Term <$> pTerm
  | XQOp eOp dChildren =>
      fold_left (λ pCur pChild,
        match Create pChild with
        | None => pCur
        | Some pNext =>
            match pCur with
            | None => Some pNext
            | Some pCur => Some (new_twofer eOp pCur pNext)
            end
        end) dChildren None
  end.

(** The class of the node built for an operator. *)
Definition class_of (eOp : XQOperator_e) (L R : Type) : Type :=
  match eOp with
  | SPH_QUERY_AND => ExtAnd_c L R
  | SPH_QUERY_OR => ExtOr_c L R
  | SPH_QUERY_MAYBE => ExtMaybe_c L R
  | SPH_QUERY_ANDNOT => ExtAndNot_c L R
  end.

Fixpoint state_of (t : tree) : Type :=
  match t with
  | Term _ => ExtTerm_T Q
  | Twofer eOp l r => class_of eOp (state_of l) (state_of r)
  end.

Definition node_class eOp {L R} (NL : ExtNode_i L) (NR : ExtNode_i R) : ExtNode_i (class_of eOp L R) :=
  match eOp with
  | SPH_QUERY_AND => ExtAnd_node
  | SPH_QUERY_OR => ExtOr_node
  | SPH_QUERY_MAYBE => ExtMaybe_node
  | SPH_QUERY_ANDNOT => ExtAndNot_node
  end.

(** The virtual methods of a node. *)
#[export] Instance node_of : ∀ t, ExtNode_i (state_of t) :=
  fix node_of t :=
    match t with
    | Term _ => ExtTerm_node
    | Twofer eOp l r => node_class eOp (node_of l) (node_of r)
    end.

Definition ok_class eOp {L R} (NL : ExtNode_i L) (NR : ExtNode_i R)
    (KL : ExtNodeOk L) (KR : ExtNodeOk R) : @ExtNodeOk (class_of eOp L R) (node_class eOp NL NR) :=
  match eOp with
  | SPH_QUERY_AND => ExtAnd_ok
  | SPH_QUERY_OR => ExtOr_ok
  | SPH_QUERY_MAYBE => ExtMaybe_ok
  | SPH_QUERY_ANDNOT => ExtAndNot_ok
  end.

#[export] Instance ok_of : ∀ t, ExtNodeOk (state_of t) :=
  fix ok_of t :=
    match t with
    | Term _ => ExtTerm_ok
    | Twofer eOp l r => ok_class eOp (node_of l) (node_of r) (ok_of l) (ok_of r)
    end.

(** The constructor of the class. *)
Definition new_node eOp {L R} (l : L) (r : R) : class_of eOp L R :=
  match eOp with
  | SPH_QUERY_AND => ExtAnd (twofer_init l r)
  | SPH_QUERY_OR => ExtOr (twofer_init l r)
  | SPH_QUERY_MAYBE => ExtMaybe (twofer_init l r)
  | SPH_QUERY_ANDNOT => ExtAndNot (twofer_init l r) false
  end.

Fixpoint init (t : tree) : state_of t :=
  match t with
  | Term t => t
  | Twofer eOp l r => new_node eOp (init l) (init r)
  end.

(** ** The meaning of a query, row by row *)

Definition op_doc (eOp : XQOperator_e) : option ExtDoc_t -> option ExtDoc_t -> option ExtDoc_t :=
  match eOp with
  | SPH_QUERY_AND => and_doc
  | SPH_QUERY_OR => or_doc
  | SPH_QUERY_MAYBE => maybe_doc
  | SPH_QUERY_ANDNOT => andnot_doc
  end.

Fixpoint eval (t : tree) (x : Z) : option ExtDoc_t :=
  match t with
  | Term t => find_row x (term_rem t)
  | Twofer eOp l r => op_doc eOp (eval l x) (eval r x)
  end.

(** The keyword streamers of the tree are well formed. *)
Fixpoint tree_ok (t : tree) : Prop :=
  match t with
  | Term t => term_inv (-1) t
  | Twofer _ l r => tree_ok l /\ tree_ok r
  end.

Lemma init_ok t : tree_ok t -> inv (-1) (init t).
Proof.
  induction t as [t|eOp l IHl r IHr]; [done|]. intros [Hl%IHl Hr%IHr].
  assert (child_ok (-1) None (init l)) by done. assert (child_ok (-1) None (init r)) by done.
  destruct eOp; simpl; [|done|done|]; split; try done. by left.
Qed.

Lemma find_row_init t x : tree_ok t -> find_row x (rem (init t)) = eval t x.
Proof.
  induction t as [t|eOp l IHl r IHr]; [done|]. intros [Hl Hr].
  pose proof (inv_asc _ _ (init_ok _ Hl)). pose proof (inv_asc _ _ (init_ok _ Hr)).
  cbn [eval]. rewrite <- IHl, <- IHr by done. destruct eOp; simpl.
  - apply find_row_and.
  - by eapply find_row_or.
  - apply find_row_maybe.
  - apply find_row_andnot.
Qed.

(** ** The meaning of a parsed query *)

Definition hits (t : ExtTerm_T Q) (x : Z) : bool := bool_decide (is_Some (find_row x (term_rem t))).

Fixpoint creatable (n : XQNode_t) : bool :=
  match n with
  | XQKeyword p => bool_decide (is_Some p)
  | XQOp _ ch => existsb creatable ch
  end.

(** [AND]: all children match; [OR]: any does; [MAYBE]: the first one does;
    [ANDNOT]: the first one does and no other does.  A child no streamer could
    be made for does not count. *)
Definition op_matches (eOp : XQOperator_e) (l : list bool) : bool :=
  match l with
  | [] => false
  | b :: l' =>
      match eOp with
      | SPH_QUERY_AND => b && forallb id l'
      | SPH_QUERY_OR => b || existsb id l'
      | SPH_QUERY_MAYBE => b
      | SPH_QUERY_ANDNOT => b && negb (existsb id l')
      end
  end.

Fixpoint matches (n : XQNode_t) (x : Z) : bool :=
  match n with
  | XQKeyword p => match p with Some t => hits t x | None => false end
  | XQOp eOp ch =>
      op_matches eOp (omap (λ c, if creatable c then Some (matches c x) else None) ch)
  end.

Lemma XQNode_ind' (P : XQNode_t -> Prop) :
  (∀ p, P (XQKeyword p)) -> (∀ eOp ch, Forall P ch -> P (XQOp eOp ch)) -> ∀ n, P n.
Proof.
  intros H1 H2. fix IH 1. intros [p|eOp ch]; [apply H1|]. apply H2.
  induction ch; constructor; [apply IH|done].
Qed.

Lemma op_doc_some eOp a b :
  bool_decide (is_Some (op_doc eOp a b)) =
  match eOp with
  | SPH_QUERY_AND => bool_decide (is_Some a) && bool_decide (is_Some b)
  | SPH_QUERY_OR => bool_decide (is_Some a) || bool_decide (is_Some b)
  | SPH_QUERY_MAYBE => bool_decide (is_Some a)
  | SPH_QUERY_ANDNOT => bool_decide (is_Some a) && negb (bool_decide (is_Some b))
  end.
Proof. by destruct eOp, a, b. Qed.

Lemma eval_new_twofer eOp l r x :
  bool_decide (is_Some (eval (new_twofer eOp l r) x)) = bool_decide (is_Some (op_doc eOp (eval l x) (eval r x))).
Proof.
  unfold new_twofer. destruct eOp; try done. destruct (_ && _); [|done]. cbn [eval]. rewrite !op_doc_some. apply andb_comm.
Qed.

(** The fold that combines the children. *)
Definition combine (eOp : XQOperator_e) (pCur : option tree) (pChild : XQNode_t) : option tree :=
  match Create pChild with
  | None => pCur
  | Some pNext => match pCur with None => Some pNext | Some c => Some (new_twofer eOp c pNext) end
  end.

Definition tree_matches (t : option tree) (x : Z) : bool :=
  match t with Some t => bool_decide (is_Some (eval t x)) | None => false end.

Lemma fold_matches eOp ch x :
  Forall (λ n, creatable n = bool_decide (is_Some (Create n)) /\ matches n x = tree_matches (Create n) x) ch ->
  ∀ cur, let l := omap (λ c, if creatable c then Some (matches c x) else None) ch in
  let res := fold_left (combine eOp) ch cur in
  bool_decide (is_Some res) = bool_decide (is_Some cur) || existsb creatable ch /\
  tree_matches res x =
  op_matches eOp (match cur with Some t => bool_decide (is_Some (eval t x)) :: l | None => l end).
Proof.
  induction 1 as [|n ch [Hc Hm] _ IH]; intros cur; cbv zeta in *.
  { simpl. rewrite orb_false_r. destruct cur as [t|]; [|done]. split; [done|].
    simpl. by destruct eOp; rewrite ?andb_true_r, ?orb_false_r. }
  cbn [fold_left existsb omap list_omap].
  assert (combine eOp cur n = match Create n with
    | None => cur
    | Some t1 => match cur with None => Some t1 | Some c => Some (new_twofer eOp c t1) end end) as ->
    by done.
  rewrite Hc, Hm. destruct (Create n) as [t1|].
  2: apply IH.
  rewrite (bool_decide_true (is_Some (Some t1))) by done.
  destruct (IH (match cur with None => Some t1 | Some c => Some (new_twofer eOp c t1) end)) as [-> ->].
  split; [destruct cur; simpl; by rewrite ?orb_true_r|].
  destruct cur as [c|]; [|done]. cbn [tree_matches]. rewrite eval_new_twofer, op_doc_some.
  destruct eOp; simpl; rewrite ?negb_orb, ?andb_assoc, ?orb_assoc; done.
Qed.

End Tree.
Arguments tree : clear implicits.
Arguments XQNode_t : clear implicits.
End Query.
