(* ===== verification/Ranker.v ===== *)
(** * Ranking and the matching loop (src/src/sphinxsearch.cpp, src/src/sphinx.cpp)

    The ranker pulls blocks of documents from the root of the tree, drops what
    the filters reject, weighs the rest and hands out blocks of matches;
    [MatchExtended] pushes them into the result set sorter. *)

From Stdlib Require Import SpecFloat.
From S2P Require Import Prelude SearchNode SearchNodeOk.
Import SearchNode SearchNodeOk.

Module Ranker.

Definition SPH_BM25_SCALE : Z := 1000.

(** Conversion of a [float] to [int] truncates toward zero (out of range values
    are undefined in C++; they map to 0 here). *)
Definition int_of_float (f : float32) : Z :=
  match f with
  | S754_finite s m e =>
      let a := if 0 <=? e then Z.pos m * 2 ^ e else Z.pos m / 2 ^ (- e) in
      let x := if s then - a else a in
      if decide (in_type int32_t x) then x else 0
  | _ => 0
  end.

(** [0.5f] *)
Definition half : float32 := S754_finite false 8388608 (-24).

Definition bm25_weight (d : ExtDoc_t) : Z :=
  int_of_float (fmul (fadd (m_fTFIDF d) half) (float_of SPH_BM25_SCALE)).

(** An element of [m_dMyDocs] with the weight its [m_dMyMatches] entry got,
    [None] when [USE_BM25] is off and the entry keeps an old weight. *)
Record candidate := Candidate { c_doc : ExtDoc_t; c_weight : option Z }.

(** [CSphMatch]: the fields the matching loop reads. *)
Record CSphMatch := Match_ { mt_tRowID : Z; m_iWeight : Z }.

(** What a ranker is configured with. *)
Record config := Config {
  USE_BM25 : bool;
  EarlyReject : Z -> bool;      (* m_pIndex->EarlyReject ( m_pCtx, m_tTestMatch ) *)
  m_iWeights : nat;
  m_pWeights : nat -> Z
}.

Section Ranker.
Context {U : Type} {N : ExtNode_i U}.
Variable cfg : config.

Record ExtRanker_c := ExtRanker { m_pRoot : option U; m_pDoclist : option (list candidate) }.

(** The loop over the documents of a block. *)
Fixpoint filter_cand (pCand : list ExtDoc_t) : list candidate :=
  match pCand with
  | [] => []
  | d :: pCand' =>
      if EarlyReject cfg (m_tRowID d) then filter_cand pCand'
      else Candidate d (if USE_BM25 cfg then Some (bm25_weight d) else None) :: filter_cand pCand'
  end.

Fixpoint filtered_loop (fuel : nat) (s : U) (w : World) :
    option (option (list candidate) * U * World) :=
  match fuel with
  | O => None
  | S fuel' =>
      '(pCand, s, w) ← GetDocsChunk s w;
      match pCand with
      | None => Some (None, s, w)
      | Some l =>
          match filter_cand l with
          | [] => filtered_loop fuel' s w
          | c => Some (Some c, s, w)
          end
      end
  end.

Definition GetFilteredDocs (s : U) (w : World) : option (option (list candidate) * U * World) :=
  filtered_loop (S (work s)) s w.

(** The weight of the lowest 32 fields. *)
Definition field_rank (uMask : Z) : Z :=
  if uMask =? 0 then 1
  else
    fold_left (λ uRank i,
      if negb (Z.land uMask (Z.shiftl 1 (Z.of_nat i)) =? 0)
      then cast DWORD (uRank + m_pWeights cfg i) else uRank)
      (seq 0 (Nat.min (m_iWeights cfg) 32)) 0.

(** The match [ExtRanker_WeightSum_c] makes of a candidate. *)
Definition weight_sum (c : candidate) : CSphMatch :=
  let uRank := field_rank (m_uDocFields (c_doc c)) in
  Match_ (m_tRowID (c_doc c))
    (if USE_BM25 cfg then cast int32_t (default 0 (c_weight c) + uRank * SPH_BM25_SCALE)
     else cast int32_t uRank).

(** The match [ExtRanker_None_c] makes of a candidate. *)
Definition weight_none (c : candidate) : CSphMatch := Match_ (m_tRowID (c_doc c)) 1.

(** [GetMatches], for the ranker that weighs with [weigh]. *)
Fixpoint matches_loop (weigh : candidate -> CSphMatch) (fuel : nat) (s : U)
    (pDoc : option (list candidate)) (out : list CSphMatch) (w : World) :
    option (list CSphMatch * U * option (list candidate) * World) :=
  match fuel with
  | O => None
  | S fuel' =>
      if (MAX_BLOCK_DOCS <=? length out)%nat then Some (out, s, pDoc, w) else
      '(pDoc, s, w) ←
        match pDoc with
        | None | Some [] => GetFilteredDocs s w
        | Some _ => Some (pDoc, s, w)
        end;
      match pDoc with
      | None => Some (out, s, pDoc, w)
      | Some [] => None
      | Some (c :: pDoc') => matches_loop weigh fuel' s (Some pDoc') (out ++ [weigh c]) w
      end
  end.

Definition GetMatches (weigh : candidate -> CSphMatch) (r : ExtRanker_c) (w : World) :
    option (list CSphMatch * ExtRanker_c * World) :=
  match m_pRoot r with
  | None => Some ([], r, w)
  | Some s =>
      '(out, s, pDoc, w) ← matches_loop weigh (S MAX_BLOCK_DOCS) s (m_pDoclist r) [] w;
      Some (out, ExtRanker (Some s) pDoc, w)
  end.
End Ranker.
Arguments ExtRanker_c : clear implicits.

(** ** [CSphIndex_VLN::MatchExtended] *)

(** [ISphMatchSorter::Push] over all sorters of the query: the flag says whether
    one of them took the match as new. *)
Class ISphMatchSorter (T : Type) := { Push : CSphMatch -> T -> bool * T }.

(** The template arguments and what the loop reads; [RANDOMIZE], [USE_FACTORS]
    and the attribute calculations ([HAS_SORT_CALC], [HAS_FILTER_CALC]) are off. *)
Record match_cfg := MatchCfg {
  USE_KLIST : bool;
  m_tDeadRowMap : Z -> bool;    (* m_tDeadRowMap.IsSet ( tRowID ) *)
  HAS_WEIGHT_FILTER : bool;
  m_pWeightFilter : CSphMatch -> bool;
  HAS_CUTOFF : bool;
  iIndexWeight : Z
}.

Section MatchExtended.
Context {U : Type} {N : ExtNode_i U} {T : Type} {P : ISphMatchSorter T}.
Variables (cfg : config) (mcfg : match_cfg) (weigh : candidate -> CSphMatch).

(** The [for] loop over a block; the last flag is set when the cutoff was hit. *)
Fixpoint push_block (l : list CSphMatch) (sorter : T) (iCutoff : Z) : T * Z * bool :=
  match l with
  | [] => (sorter, iCutoff, false)
  | m :: l' =>
      if USE_KLIST mcfg && m_tDeadRowMap mcfg (mt_tRowID m) then push_block l' sorter iCutoff
      else
        let m := Match_ (mt_tRowID m) (cast int32_t (m_iWeight m * iIndexWeight mcfg)) in
        if HAS_WEIGHT_FILTER mcfg && negb (m_pWeightFilter mcfg m) then push_block l' sorter iCutoff
        else
          let '(bNewMatch, sorter) := Push m sorter in
          if HAS_CUTOFF mcfg && (bNewMatch : bool) then
            let iCutoff := iCutoff - 1 in
            if iCutoff =? 0 then (sorter, iCutoff, true) else push_block l' sorter iCutoff
          else push_block l' sorter iCutoff
  end.

(** The [while (true)] loop, with what is left of the cutoff; it needs a turn per
    block. *)
Fixpoint match_loop (fuel : nat) (r : ExtRanker_c U) (sorter : T) (iCutoff : Z) (w : World) :
    option (T * Z * World) :=
  match fuel with
  | O => None
  | S fuel' =>
      '(l, r, w) ← GetMatches cfg weigh r w;
      match l with
      | [] => Some (sorter, iCutoff, w)
      | _ =>
          let '(sorter, iCutoff, _) := push_block l sorter iCutoff in
          if HAS_CUTOFF mcfg && (iCutoff =? 0) then Some (sorter, iCutoff, w)
          else match_loop fuel' r sorter iCutoff w
      end
  end.

Definition ranker_work (r : ExtRanker_c U) : nat :=
  length (default [] (m_pDoclist r)) + match m_pRoot r with Some s => work s | None => O end.

Definition MatchExtended (r : ExtRanker_c U) (sorter : T) (iCutoff : Z) (w : World) :
    option (T * World) :=
  if iCutoff =? 0 then Some (sorter, w)
  else '(sorter, _, w) ← match_loop (S (ranker_work r)) r sorter iCutoff w; Some (sorter, w).
End MatchExtended.

(** ** The blocks of a ranker are a cut of one stream *)

Section Stream.
Context {U : Type} {N : ExtNode_i U} {K : ExtNodeOk U}.
Variable cfg : config.

Definition node_ok (s : U) : Prop := ∃ b, inv b s.

Lemma filter_cand_app l1 l2 : filter_cand cfg (l1 ++ l2) = filter_cand cfg l1 ++ filter_cand cfg l2.
Proof.
  induction l1 as [|d l1 IH]; [done|]. simpl. rewrite IH. by destruct (EarlyReject cfg (m_tRowID d)).
Qed.

Lemma filter_cand_length l : (length (filter_cand cfg l) <= length l)%nat.
Proof. induction l as [|d l IH]; simpl; [lia|]. destruct (EarlyReject cfg _); simpl; lia. Qed.

(** The candidates a ranker will still hand out. *)
Definition stream (pDoc : option (list candidate)) (s : U) : list candidate :=
  default [] pDoc ++ filter_cand cfg (rem s).

(** [p] was cut off the front of the candidates of [s]; it is null only at the
    end or past the deadline. *)
Record filtered_post (s : U) (w : World) (p : option (list candidate)) (s' : U) (w' : World) : Prop := {
  fp_ok : node_ok s';
  fp_ne : p <> Some [];
  fp_stream : filter_cand cfg (rem s) = stream p s';
  fp_none : p = None -> rem s' = [] \/ expired w';
  fp_work : (length (default [] p) + work s' <= work s)%nat;
  fp_kill : w_kill w' = None;
  fp_exp : later w w'
}.

Lemma filtered_loop_ok fuel s w :
  node_ok s -> w_kill w = None -> (work s < fuel)%nat ->
  ∃ p s' w', filtered_loop cfg fuel s w = Some (p, s', w') /\ filtered_post s w p s' w'.
Proof.
  revert s w. induction fuel as [|fuel IH]; intros s w [b Hs] Hw Hf; [lia|]. cbn [filtered_loop].
  destruct (chunk_ok b s w Hs Hw) as (p & s1 & w1 & -> & [C1 C2 C3 C4 C5 C6 C7 C8]).
  cbn [mbind option_bind]. destruct p as [l|].
  2: { exists None, s1, w1. split; [done|]. split; try done; [by eexists|by rewrite C3| |simpl in *; lia].
       intros _. destruct (C7 eq_refl) as [Hi|]; [left|by right]. by apply asc_end, inv_asc. }
  simpl docs in *. pose proof (filter_cand_length l).
  destruct (filter_cand cfg l) as [|c cs] eqn:Ec.
  - destruct (IH s1 w1) as (p & s' & w' & E & [F1 F2 F3 F4 F5 F6 F7]);
      [by eexists|done|destruct l; [done|simpl in *; lia]|].
    exists p, s', w'. split; [done|].
    split; try done; [by rewrite C3, filter_cand_app, Ec|lia|auto].
  - exists (Some (c :: cs)), s1, w1. split; [done|].
    split; try done; [by eexists|by rewrite C3, filter_cand_app, Ec|simpl in *; lia].
Qed.

Variable weigh : candidate -> CSphMatch.

Record matches_post (out : list CSphMatch) (pDoc : option (list candidate)) (s : U) (w : World)
    (new : list candidate) (pDoc' : option (list candidate)) (s' : U) (w' : World) : Prop := {
  mp_ok : node_ok s';
  mp_stream : stream pDoc s = new ++ stream pDoc' s';
  mp_done : (length out + length new < MAX_BLOCK_DOCS)%nat -> stream pDoc' s' = [] \/ expired w';
  mp_work : (length new + length (default [] pDoc') + work s' <= length (default [] pDoc) + work s)%nat;
  mp_kill : w_kill w' = None;
  mp_exp : later w w'
}.

(** [if ( !pDoc || pDoc is at the end ) pDoc = GetFilteredDocs()]. *)
Lemma refill_ok pDoc s w :
  node_ok s -> w_kill w = None ->
  ∃ p s' w',
    match pDoc with
    | None | Some [] => GetFilteredDocs cfg s w
    | Some _ => Some (pDoc, s, w)
    end = Some (p, s', w') /\
    node_ok s' /\ p <> Some [] /\ stream pDoc s = stream p s' /\
    (p = None -> rem s' = [] \/ expired w') /\
    (length (default [] p) + work s' <= length (default [] pDoc) + work s)%nat /\
    w_kill w' = None /\ later w w'.
Proof.
  intros Hs Hw.
  assert (∃ p s' w', GetFilteredDocs cfg s w = Some (p, s', w') /\ filtered_post s w p s' w')
    as (p & s' & w' & E & [F1 F2 F3 F4 F5 F6 F7]) by (apply filtered_loop_ok; auto; lia).
  destruct pDoc as [[|c cs]|].
  - exists p, s', w'. done.
  - exists (Some (c :: cs)), s, w. split; [done|]. done.
  - exists p, s', w'. done.
Qed.

Lemma matches_loop_ok fuel s pDoc out w :
  node_ok s -> w_kill w = None -> (length out <= MAX_BLOCK_DOCS)%nat ->
  (MAX_BLOCK_DOCS < length out + fuel)%nat ->
  ∃ new s' pDoc' w',
    matches_loop cfg weigh fuel s pDoc out w = Some (out ++ map weigh new, s', pDoc', w') /\
    (length out + length new <= MAX_BLOCK_DOCS)%nat /\
    matches_post out pDoc s w new pDoc' s' w'.
Proof.
  revert s pDoc out w. induction fuel as [|fuel IH]; intros s pDoc out w Hs Hw Ho Hf; [lia|].
  cbn [matches_loop]. destruct (Nat.leb_spec MAX_BLOCK_DOCS (length out)).
  { exists [], s, pDoc, w. simpl. rewrite app_nil_r. split; [done|]. split; [lia|].
    split; try done; simpl; lia. }
  destruct (refill_ok pDoc s w Hs Hw) as (p & s1 & w1 & -> & R1 & R2 & R3 & R4 & R5 & R6 & R7).
  cbn [mbind option_bind]. destruct p as [[|c cs]|]; [done| |].
  - destruct (IH s1 (Some cs) (out ++ [weigh c]) w1 R1 R6) as (new & s' & p' & w' & -> & L & [M1 M2 M3 M4 M5 M6]);
      [rewrite length_snoc; lia..|]. rewrite length_snoc in *.
    exists (c :: new), s', p', w'. rewrite <- app_assoc. split; [done|]. split; [simpl; lia|].
    split; try done; try (simpl in *; lia).
    + rewrite R3. unfold stream in *. simpl in *. by rewrite M2.
    + simpl. intros. apply M3. lia.
    + auto.
  - exists [], s1, None, w1. simpl. rewrite app_nil_r. split; [done|]. split; [lia|].
    split; try done; try (simpl in *; lia).
    intros _. destruct (R4 eq_refl) as [E|]; [left|by right]. unfold stream. by rewrite E.
Qed.

Definition ranker_ok (r : ExtRanker_c U) : Prop :=
  match m_pRoot r with Some s => node_ok s | None => m_pDoclist r = None end.

Definition ranker_stream (r : ExtRanker_c U) : list candidate :=
  match m_pRoot r with Some s => stream (m_pDoclist r) s | None => [] end.

Lemma GetMatches_ok r w :
  ranker_ok r -> w_kill w = None ->
  ∃ new r' w', GetMatches cfg weigh r w = Some (map weigh new, r', w') /\
    (length new <= MAX_BLOCK_DOCS)%nat /\
    ranker_ok r' /\ ranker_stream r = new ++ ranker_stream r' /\
    ((length new < MAX_BLOCK_DOCS)%nat -> ranker_stream r' = [] \/ expired w') /\
    (length new + ranker_work r' <= ranker_work r)%nat /\
    w_kill w' = None /\ later w w'.
Proof.
  intros Hr Hw. unfold GetMatches, ranker_ok, ranker_stream, ranker_work in *.
  destruct r as [[s|] pDoc]; cbn [m_pRoot m_pDoclist] in *.
  - destruct (matches_loop_ok (S MAX_BLOCK_DOCS) s pDoc [] w Hr Hw)
      as (new & s' & p' & w' & -> & L & [M1 M2 M3 M4 M5 M6]); [simpl; lia..|].
    exists new, (ExtRanker (Some s') p'), w'. cbn [m_pRoot m_pDoclist mbind option_bind length app] in *.
    split; [done|]. repeat (split; [done || lia|]). done.
  - subst pDoc. exists [], (ExtRanker None None), w. simpl.
    split; [done|]. split; [lia|]. split; [done|]. split; [done|]. split; [by left|]. done.
Qed.
End Stream.

Section MatchExtendedOk.
Context {U : Type} {N : ExtNode_i U} {K : ExtNodeOk U} {T : Type} {P : ISphMatchSorter T}.
Variables (cfg : config) (mcfg : match_cfg) (weigh : candidate -> CSphMatch).

Lemma push_block_app l1 l2 sorter iCutoff :
  push_block mcfg (l1 ++ l2) sorter iCutoff =
  let '(s1, c1, stop) := push_block mcfg l1 sorter iCutoff in
  if (stop : bool) then (s1, c1, true) else push_block mcfg l2 s1 c1.
Proof.
  revert sorter iCutoff. induction l1 as [|m l1 IH]; intros sorter iCutoff; [done|].
  cbn [app push_block]. destruct (_ && _); [apply IH|]. destruct (_ && _); [apply IH|].
  destruct (Push _ sorter) as [new s1]. destruct (_ && _); [|apply IH].
  destruct (_ =? _); [done|apply IH].
Qed.

Lemma push_block_stop l sorter iCutoff :
  iCutoff <> 0 ->
  let '(_, c1, stop) := push_block mcfg l sorter iCutoff in
  stop = HAS_CUTOFF mcfg && (c1 =? 0) /\ (stop = false -> c1 <> 0).
Proof.
  revert sorter iCutoff. induction l as [|m l IH]; intros sorter iCutoff Hc; cbn [push_block].
  { rewrite (proj2 (Z.eqb_neq _ _) Hc). by rewrite andb_false_r. }
  destruct (_ && _); [by apply IH|]. destruct (_ && _); [by apply IH|].
  destruct (Push _ sorter) as [new s1].
  destruct (HAS_CUTOFF mcfg && new) eqn:E; [|by apply IH].
  apply andb_true_iff in E as [E1 _]. destruct (Z.eqb_spec (iCutoff - 1) 0) as [E2|].
  - rewrite E1, E2. done.
  - apply IH. done.
Qed.

(** Whatever the blocks, the sorter sees a prefix of the stream of candidates,
    and all of it unless the cutoff or the deadline stops the loop. *)
Lemma match_loop_ok fuel r sorter iCutoff w :
  ranker_ok r -> w_kill w = None -> iCutoff <> 0 -> (ranker_work r < fuel)%nat ->
  ∃ seen rest w',
    ranker_stream cfg r = seen ++ rest /\
    match_loop cfg mcfg weigh fuel r sorter iCutoff w =
      Some ((push_block mcfg (map weigh seen) sorter iCutoff).1, w') /\
    (rest = [] \/ (push_block mcfg (map weigh seen) sorter iCutoff).2 = true \/ expired w') /\
    later w w' /\ w_kill w' = None.
Proof.
  revert r sorter iCutoff w.
  induction fuel as [|fuel IH]; intros r sorter iCutoff w Hr Hw Hc Hf; [lia|]. cbn [match_loop].
  destruct (GetMatches_ok cfg weigh r w Hr Hw) as (new & r1 & w1 & -> & G1 & G2 & G3 & G4 & G5 & G6 & G7).
  cbn [mbind option_bind]. destruct new as [|c new]; cbn [map].
  { exists [], (ranker_stream cfg r1), w1. split; [done|]. split; [done|]. split; [|done].
    destruct G4; [simpl; vm_compute; lia|by left|by right; right]. }
  set (blk := weigh c :: map weigh new) in *.
  pose proof (push_block_stop blk sorter iCutoff Hc) as Hs.
  destruct (push_block mcfg blk sorter iCutoff) as [[s1 c1] stop] eqn:E. destruct Hs as [Hs1 Hs2].
  rewrite <- Hs1. destruct stop.
  { exists (c :: new), (ranker_stream cfg r1), w1. cbn [map]. fold blk. rewrite E.
    split; [done|]. split; [done|]. split; [by right; left|done]. }
  destruct (IH r1 s1 c1 w1 G2 G6 (Hs2 eq_refl)) as (seen & rest & w' & E1 & E2 & E3 & E4);
    [simpl in G5; lia|].
  exists ((c :: new) ++ seen), rest, w'. rewrite map_app. cbn [map]. fold blk.
  rewrite push_block_app, E. split; [by rewrite <- app_assoc, G3, E1|].
  split; [done|]. split; [done|]. destruct E4 as [E4 E5]. split; [by etransitivity|done].
Qed.
End MatchExtendedOk.
End Ranker.
