(* ===== verification/Search.v ===== *)
(** * Full-text search, end to end

    The keyword streamers, the boolean nodes, the ranker and the matching loop
    put together: what reaches the result set of a query. *)

From stdpp Require Import sorting.
From S2P Require Import Prelude Hits SearchNode SearchNodeOk ExtTerm Query Ranker.
Import FieldMask SearchNode SearchNodeOk ExtTerm Query Ranker.

Module Search.

(** ** What a result set is fed *)

Section Pushes.
Context {A T : Type} (push : A -> T -> bool * T).

(** All matches of a list, in order. *)
Fixpoint push_all (l : list A) (sorter : T) : T :=
  match l with [] => sorter | m :: l' => push_all l' (push m sorter).2 end.

(** How many of them the sorter takes as new. *)
Fixpoint new_matches (l : list A) (sorter : T) : Z :=
  match l with [] => 0 | m :: l' => (if (push m sorter).1 then 1 else 0) + new_matches l' (push m sorter).2 end.

(** Of the matches [l1 ++ l2] only [l1] are pushed: with a cutoff, the last match
    of [l1] is the first at which the number of new matches reaches it; matches
    are left out only at the cutoff, or if [late] holds. *)
Record cut (bCutoff : bool) (iCutoff : Z) (sorter : T) (l1 l2 : list A) (late : Prop) : Prop := {
  cut_before : bCutoff = true -> ∀ l3 l4, l1 = l3 ++ l4 -> l4 <> [] -> new_matches l3 sorter <> iCutoff;
  cut_after : l2 = [] \/ (bCutoff = true /\ new_matches l1 sorter = iCutoff) \/ late
}.

Lemma push_all_app l1 l2 s : push_all (l1 ++ l2) s = push_all l2 (push_all l1 s).
Proof. revert s. induction l1 as [|m l1 IH]; intros s; [done|apply IH]. Qed.

Lemma new_matches_app l1 l2 s : new_matches (l1 ++ l2) s = new_matches l1 s + new_matches l2 (push_all l1 s).
Proof. revert s. induction l1 as [|m l1 IH]; intros s; cbn [app new_matches push_all]; [done|]. rewrite IH. lia. Qed.

Lemma cut_weaken b c s l1 l2 (P Q : Prop) : (P -> Q) -> cut b c s l1 l2 P -> cut b c s l1 l2 Q.
Proof. intros H [B E]. split; [exact B|]. tauto. Qed.

(** More matches after a stop. *)
Lemma cut_stop b c s l1 l2 l2' P : b = true -> new_matches l1 s = c -> cut b c s l1 l2 P -> cut b c s l1 l2' P.
Proof. intros Hb Hc [B _]. split; [exact B|]. by right; left. Qed.

Lemma cut_cons b c s m l1 l2 P : c <> 0 -> cut b (c - (if (push m s).1 then 1 else 0)) (push m s).2 l1 l2 P -> cut b c s (m :: l1) l2 P.
Proof.
  intros Hc [B E]. split; cbn [new_matches].
  - intros Hb [|m' l3] l4 E4 N4; [cbn; lia|]. injection E4 as <- E4. cbn [new_matches]. specialize (B Hb l3 l4 E4 N4). lia.
  - destruct E as [E|[[Hb E]|E]]; [by left|right; left; split; [done|lia]|by right; right].
Qed.

(** A second list of matches after one that did not reach the cutoff. *)
Lemma cut_app b c s l1 l1' l2' P : cut b c s l1 [] P -> (b = true -> new_matches l1 s <> c) ->
  cut b (c - new_matches l1 s) (push_all l1 s) l1' l2' P -> cut b c s (l1 ++ l1') l2' P.
Proof.
  intros [B1 _] Hc [B2 E2]. split.
  - intros Hb l3 l4 E N. apply app_eq_app in E as (l & [[-> E]|[-> E]]).
    + destruct l as [|x l]; [cbn in E; rewrite app_nil_r in *; by apply Hc|]. by apply (B1 Hb l3 (x :: l)).
    + rewrite new_matches_app. specialize (B2 Hb l l4 E N). lia.
  - rewrite new_matches_app. destruct E2 as [E|[[Hb E]|E]]; [by left|right; left; split; [done|lia]|by right; right].
Qed.

Lemma new_matches_nonneg l s : 0 <= new_matches l s.
Proof. revert s. induction l as [|m l IH]; intros s; cbn [new_matches]; [lia|]. specialize (IH (push m s).2). destruct (push m s).1; lia. Qed.
End Pushes.

(** ** The matches of a query *)

Section Spec.
Variables (cfg : config) (bWeightSum : bool).

(** The rank of a document: 1 for [SPH_RANK_NONE]; for the weight sums, the sum of
    the weights of its fields among the lowest 32, scaled and with the BM25 part if
    the ranker has one. *)
Definition field_weights (uMask : Z) : Z :=
  if uMask =? 0 then 1
  else cast DWORD (foldr Z.add 0 (map (m_pWeights cfg) (List.filter (λ i, Z.testbit uMask (Z.of_nat i)) (seq 0 (Nat.min (m_iWeights cfg) 32))))).

Definition doc_rank (d : ExtDoc_t) : Z :=
  if bWeightSum then
    cast int32_t (if USE_BM25 cfg then int_of_float (fmul (fadd (m_fTFIDF d) half) (float_of 1000)) + field_weights (m_uDocFields d) * 1000 else field_weights (m_uDocFields d))
  else 1.

(** The ranker's function. *)
Definition weigh_of : candidate -> CSphMatch := if bWeightSum then weight_sum cfg else weight_none.

Lemma field_rank_ok uMask : field_rank cfg uMask = field_weights uMask.
Proof.
  unfold field_rank, field_weights. destruct (uMask =? 0); [done|].
  assert (∀ js u, fold_left (λ uRank i, if negb (Z.land uMask (Z.shiftl 1 (Z.of_nat i)) =? 0) then cast DWORD (uRank + m_pWeights cfg i) else uRank) js (cast DWORD u) =
    cast DWORD (u + foldr Z.add 0 (map (m_pWeights cfg) (List.filter (λ i, Z.testbit uMask (Z.of_nat i)) js)))) as H.
  { induction js as [|i js IH]; intros u; cbn [fold_left List.filter map foldr]; [by rewrite Z.add_0_r|].
    rewrite Z.shiftl_1_l, land_pow2 by lia. destruct (Z.testbit uMask (Z.of_nat i)); [|apply IH]. cbn [map foldr].
    replace (cast DWORD (cast DWORD u + m_pWeights cfg i)) with (cast DWORD (u + m_pWeights cfg i)); [rewrite IH; f_equal; lia|].
    cbn. unfold wrap. by rewrite Zplus_mod_idemp_l. }
  exact (H _ 0).
Qed.

(** A candidate that [filter_cand] makes. *)
Definition candidate_ok (c : candidate) : Prop :=
  EarlyReject cfg (m_tRowID (c_doc c)) = false /\ c_weight c = if USE_BM25 cfg then Some (bm25_weight (c_doc c)) else None.

Lemma weigh_ok c : candidate_ok c -> weigh_of c = Match_ (m_tRowID (c_doc c)) (doc_rank (c_doc c)).
Proof.
  intros [_ Hc]. unfold weigh_of, doc_rank, weight_sum, weight_none. destruct bWeightSum; [|done]. rewrite field_rank_ok, Hc.
  destruct (USE_BM25 cfg); [|done]. unfold bm25_weight, SPH_BM25_SCALE. done.
Qed.

Lemma filter_cand_ok docs : Forall candidate_ok (filter_cand cfg docs).
Proof. induction docs as [|d docs IH]; cbn [filter_cand]; [constructor|]. destruct (EarlyReject cfg (m_tRowID d)) eqn:E; [done|]. by constructor. Qed.

Variable mcfg : match_cfg.

(** The match a document is reported as. *)
Definition report (d : ExtDoc_t) : option CSphMatch :=
  if EarlyReject cfg (m_tRowID d) || (USE_KLIST mcfg && m_tDeadRowMap mcfg (m_tRowID d)) then None else
  let m := Match_ (m_tRowID d) (cast int32_t (doc_rank d * iIndexWeight mcfg)) in
  if HAS_WEIGHT_FILTER mcfg && negb (m_pWeightFilter mcfg m) then None else Some m.

(** [l] is the result of a query with the documents [found]: a match for every
    document that the filters accept and that is not in the kill-list, and no
    other, in the order of the rows. *)
Record result (found : Z -> option ExtDoc_t) (l : list CSphMatch) : Prop := {
  res_order : StronglySorted (λ a b, mt_tRowID a < mt_tRowID b) l;
  res_exact m : m ∈ l <-> ∃ d, found (mt_tRowID m) = Some d /\
    EarlyReject cfg (mt_tRowID m) = false /\ (USE_KLIST mcfg = true -> m_tDeadRowMap mcfg (mt_tRowID m) = false) /\
    m_iWeight m = cast int32_t (doc_rank d * iIndexWeight mcfg) /\
    (HAS_WEIGHT_FILTER mcfg = true -> m_pWeightFilter mcfg m = true)
}.

Lemma report_iff d m : report d = Some m <->
  mt_tRowID m = m_tRowID d /\ EarlyReject cfg (mt_tRowID m) = false /\ (USE_KLIST mcfg = true -> m_tDeadRowMap mcfg (mt_tRowID m) = false) /\
  m_iWeight m = cast int32_t (doc_rank d * iIndexWeight mcfg) /\ (HAS_WEIGHT_FILTER mcfg = true -> m_pWeightFilter mcfg m = true).
Proof.
  unfold report. split.
  - destruct (EarlyReject cfg _) eqn:E1; [done|]. destruct (USE_KLIST mcfg && _) eqn:E2; [done|]. cbn [orb]. destruct (HAS_WEIGHT_FILTER mcfg && _) eqn:E3; [done|]. intros [= <-].
    split; [done|]. split; [done|]. split; [intros H; by rewrite H in E2|]. split; [done|]. intros H. rewrite H in E3. by apply negb_false_iff in E3.
  - destruct m as [row wt]. cbn [mt_tRowID m_iWeight]. intros (-> & -> & H2 & -> & H4). cbn [orb].
    destruct (USE_KLIST mcfg); [rewrite (H2 eq_refl)|]; (cbn [andb]; destruct (HAS_WEIGHT_FILTER mcfg); [by rewrite (H4 eq_refl)|done]).
Qed.

Lemma find_row_elem b docs d : asc b docs -> d ∈ docs -> find_row (m_tRowID d) docs = Some d.
Proof.
  revert b. induction docs as [|e docs IH]; intros b; [by intros _ ?%not_elem_of_nil|]. intros [He Ha] [->|Hd]%elem_of_cons; cbn [find_row]; [by rewrite Z.eqb_refl|].
  destruct (Z.eqb_spec (m_tRowID e) (m_tRowID d)) as [E|]; [|by apply (IH (m_tRowID e))]. pose proof (IH (m_tRowID e) Ha Hd) as F.
  by rewrite (find_row_low (m_tRowID e)) in F by (done || lia).
Qed.

Lemma find_row_in x docs d : find_row x docs = Some d -> d ∈ docs /\ m_tRowID d = x.
Proof.
  induction docs as [|e docs IH]; [done|]. cbn [find_row]. destruct (Z.eqb_spec (m_tRowID e) x) as [<-|]; [intros [= <-]; split; [by left|done]|].
  intros [H1 H2]%IH. split; [by right|done].
Qed.

Lemma report_sorted docs b : asc b docs -> Forall (λ m, b < mt_tRowID m) (omap report docs) /\ StronglySorted (λ a b, mt_tRowID a < mt_tRowID b) (omap report docs).
Proof.
  revert b. induction docs as [|d docs IH]; intros b; [by split; constructor|]. intros [Hd Ha]. destruct (IH _ Ha) as [F S]. cbn [omap list_omap].
  destruct (report d) as [m|] eqn:E.
  - apply report_iff in E as [E _]. split; constructor; try done; [lia| |].
    + eapply Forall_impl; [exact F|]. cbn. lia.
    + eapply Forall_impl; [exact F|]. cbn. lia.
  - split; [|done]. eapply Forall_impl; [exact F|]. cbn. lia.
Qed.

(** The reported documents are the result. *)
Lemma report_result found docs : asc (-1) docs -> (∀ x, find_row x docs = found x) -> result found (omap report docs).
Proof.
  intros Ha Hf. split; [by apply (report_sorted docs (-1))|]. intros m. rewrite list_elem_of_omap. split.
  - intros (d & Hd & Hr). pose proof (proj1 (report_iff d m) Hr) as [E _]. exists d. rewrite <- Hf, E. split; [by apply (find_row_elem (-1))|]. rewrite <- E. by apply report_iff.
  - intros (d & Hd & H). rewrite <- Hf in Hd. apply find_row_in in Hd as [Hd E]. exists d. split; [done|]. by apply report_iff.
Qed.

Lemma report_filtered docs : omap report docs = omap report (map c_doc (filter_cand cfg docs)).
Proof.
  induction docs as [|d docs IH]; [done|]. cbn [filter_cand omap list_omap]. destruct (EarlyReject cfg (m_tRowID d)) eqn:E.
  - unfold report at 1. by rewrite E.
  - cbn [map c_doc omap list_omap]. by rewrite IH.
Qed.

Context {T : Type} {P : ISphMatchSorter T}.

(** The loop over a block pushes what is reported of its candidates. *)
Lemma push_block_ok cs : Forall candidate_ok cs -> ∀ sorter iCutoff, iCutoff <> 0 ->
  ∃ l1 l2, omap report (map c_doc cs) = l1 ++ l2 /\ cut Push (HAS_CUTOFF mcfg) iCutoff sorter l1 l2 False /\
    let '(s, c, stop) := push_block mcfg (map weigh_of cs) sorter iCutoff in
    s = push_all Push l1 sorter /\ c = iCutoff - (if HAS_CUTOFF mcfg then new_matches Push l1 sorter else 0) /\
    if (stop : bool) then HAS_CUTOFF mcfg = true /\ new_matches Push l1 sorter = iCutoff else l2 = [].
Proof.
  induction 1 as [|c cs Hc _ IH]; intros sorter iCutoff H0.
  { exists [], []. split; [done|]. split; [split; [by intros _ [|] ? ?|by left]|]. cbn. split; [done|]. split; [by destruct (HAS_CUTOFF mcfg); lia|done]. }
  cbn [map push_block omap list_omap]. rewrite (weigh_ok c Hc). cbn [mt_tRowID m_iWeight]. unfold report at 1. rewrite (proj1 Hc). cbn [orb].
  destruct (USE_KLIST mcfg && _); [by apply IH|]. destruct (HAS_WEIGHT_FILTER mcfg && _); [by apply IH|].
  set (m := Match_ _ _). destruct (Push m sorter) as [new s1] eqn:Ep.
  assert (∀ l1 l2, cut Push (HAS_CUTOFF mcfg) (iCutoff - (if new then 1 else 0)) s1 l1 l2 False -> cut Push (HAS_CUTOFF mcfg) iCutoff sorter (m :: l1) l2 False) as K
    by (intros l1 l2 K; apply cut_cons; [done|by rewrite Ep]).
  assert (∀ l, push_all Push (m :: l) sorter = push_all Push l s1 /\ new_matches Push (m :: l) sorter = (if new then 1 else 0) + new_matches Push l s1) as E
    by (intros l; cbn [push_all new_matches]; by rewrite Ep).
  destruct (HAS_CUTOFF mcfg && new) eqn:Eh.
  - apply andb_true_iff in Eh as [Eh ->]. rewrite Eh in *. destruct (Z.eqb_spec (iCutoff - 1) 0) as [E0|N0].
    + exists [m], (omap report (map c_doc cs)). split; [done|]. destruct (E []) as [E1 E2]. rewrite E1, E2. cbn [push_all new_matches] in *.
      split; [|split; [done|split; [lia|split; [done|lia]]]]. apply K. split; [by intros _ [|] ? ?|]. right; left. split; [done|]. cbn. lia.
    + destruct (IH s1 (iCutoff - 1) N0) as (l1 & l2 & E3 & E4 & E5). exists (m :: l1), l2. rewrite E3. split; [done|]. split; [by apply K|].
      destruct (E l1) as [-> ->]. destruct (push_block _ _ _ _) as [[s c1] stop]. destruct E5 as (-> & -> & E5). split; [done|]. split; [lia|].
      destruct stop; [|done]. destruct E5 as [E5 E6]. split; [done|lia].
  - destruct (IH s1 iCutoff H0) as (l1 & l2 & E3 & E4 & E5). exists (m :: l1), l2. rewrite E3. split; [done|]. destruct (E l1) as [-> ->].
    split.
    { apply cut_cons; [done|]. rewrite Ep. cbn [fst snd]. destruct (HAS_CUTOFF mcfg) eqn:Hh; [cbn in Eh; subst new; by rewrite Z.sub_0_r|].
      destruct E4 as [_ E4]. split; [done|]. destruct E4 as [?|[[? _]|[]]]; [by left|done]. }
    destruct (push_block _ _ _ _) as [[s c1] stop]. destruct E5 as (-> & -> & E5). split; [done|]. destruct (HAS_CUTOFF mcfg) eqn:Hh; cbn in Eh; subst; (split; [lia|]); destruct stop; [|done|by destruct E5|done].
    destruct E5 as [E5 E6]. split; [done|lia].
Qed.
End Spec.

(** ** The match loop *)

(** Any node under the ranker. *)
Section Node.
Context {U : Type} {N : ExtNode_i U} {K : ExtNodeOk U} {T : Type} {P : ISphMatchSorter T}.
Variables (cfg : config) (mcfg : match_cfg) (bWeightSum : bool).

(** A run of the match loop feeds the sorter the result of the documents of the
    node, up to the cutoff or the deadline. *)
Lemma match_loop_node (s : U) found sorter iCutoff w (r := ExtRanker (Some s) None) :
  inv (-1) s -> (∀ x, find_row x (rem s) = found x) -> w_kill w = None -> iCutoff <> 0 ->
  ∃ l1 l2 w', result cfg bWeightSum mcfg found (l1 ++ l2) /\ cut Push (HAS_CUTOFF mcfg) iCutoff sorter l1 l2 (expired w') /\ later w w' /\ w_kill w' = None /\
    match_loop cfg mcfg (weigh_of cfg bWeightSum) (S (ranker_work r)) r sorter iCutoff w =
      Some (push_all Push l1 sorter, iCutoff - (if HAS_CUTOFF mcfg then new_matches Push l1 sorter else 0), w').
Proof.
  intros Hs Hf Hk Hc.
  destruct (match_loop_ok cfg mcfg (weigh_of cfg bWeightSum) (S (ranker_work r)) r sorter iCutoff w)
    as (seen & rest & w' & E1 & E2 & E3 & E4 & E5); [by exists (-1)|done|done|lia|].
  change (ranker_stream cfg r) with (filter_cand cfg (rem s)) in E1.
  pose proof (filter_cand_ok cfg (rem s)) as Ok. rewrite E1 in Ok. apply Forall_app in Ok as [Ok _].
  destruct (push_block_ok cfg bWeightSum mcfg seen Ok sorter iCutoff Hc) as (l1 & l2 & F1 & F2 & F3).
  exists l1, (l2 ++ omap (report cfg bWeightSum mcfg) (map c_doc rest)), w'.
  assert (l1 ++ l2 ++ omap (report cfg bWeightSum mcfg) (map c_doc rest) = omap (report cfg bWeightSum mcfg) (rem s)) as ->
    by (rewrite (report_filtered cfg bWeightSum mcfg (rem s)), E1, map_app, omap_app, F1; apply app_assoc).
  split; [by apply report_result; [apply inv_asc|]|]. rewrite E2.
  destruct (push_block _ _ _ _) as [[s1 c1] stop] eqn:Ep. destruct F3 as (-> & -> & F3). split; [|done].
  destruct stop; [destruct F3 as [? ?]; eapply cut_stop; [done..|]; by eapply cut_weaken, F2|]. subst l2.
  split; [apply F2|]. destruct E3 as [->|[E3|E3]]; [by left|done|by right; right].
Qed.

Lemma match_node (s : U) found sorter iCutoff w :
  inv (-1) s -> (∀ x, find_row x (rem s) = found x) -> w_kill w = None -> iCutoff <> 0 ->
  ∃ l1 l2 w', result cfg bWeightSum mcfg found (l1 ++ l2) /\ cut Push (HAS_CUTOFF mcfg) iCutoff sorter l1 l2 (expired w') /\ later w w' /\
    MatchExtended cfg mcfg (weigh_of cfg bWeightSum) (ExtRanker (Some s) None) sorter iCutoff w = Some (push_all Push l1 sorter, w').
Proof.
  intros Hs Hf Hk Hc. destruct (match_loop_node s found sorter iCutoff w Hs Hf Hk Hc) as (l1 & l2 & w' & R & C & L & _ & E).
  exists l1, l2, w'. unfold MatchExtended. by rewrite (proj2 (Z.eqb_neq _ _) Hc), E.
Qed.
End Node.

Section Search.
Context {Q : Type} {I : ISphQword Q} {K : QwordOk Q} {T : Type} {P : ISphMatchSorter T}.
Variables (cfg : config) (mcfg : match_cfg) (bWeightSum : bool).

(** The ranker of a query, before the first block. *)
Definition ranker_of (t : tree Q) : ExtRanker_c (state_of t) := ExtRanker (Some (init t)) None.

(** [C1] A query without a deadline puts into the result set exactly the documents
    that satisfy it, that the filters let through and that are not in the
    kill-list: the sorter is fed one match for each of them, in ascending order of
    the rows, with the rank of the document times the weight of the index, whatever
    the block boundaries between the nodes of the tree. With a cutoff it is fed
    the first matches of that list, up to the one that makes the number of new
    matches reach the cutoff. The loops of every node terminate. *)
Theorem search_complete t sorter iCutoff w :
  tree_ok t -> w_kill w = None -> w_timer w = None -> iCutoff <> 0 ->
  ∃ l1 l2 w', result cfg bWeightSum mcfg (eval t) (l1 ++ l2) /\
    cut Push (HAS_CUTOFF mcfg) iCutoff sorter l1 l2 False /\
    MatchExtended cfg mcfg (weigh_of cfg bWeightSum) (ranker_of t) sorter iCutoff w = Some (push_all Push l1 sorter, w').
Proof.
  intros Ht Hk Hw Hc. destruct (match_node cfg mcfg bWeightSum (init t) (eval t) sorter iCutoff w) as (l1 & l2 & w' & R & C & L & E);
    [by apply init_ok|intros x; by apply find_row_init|done..|].
  exists l1, l2, w'. split; [done|]. split; [|done]. eapply cut_weaken, C. unfold expired. destruct L as [_ L]. by rewrite (L Hw).
Qed.

(** [C27] A query that runs into [max_query_time] returns a correct partial
    result: the sorter is fed the first matches of the complete result of the
    query, with the same ranks, and matches are missing only if the
    cutoff or the deadline was reached. *)
Theorem search_deadline t sorter iCutoff w :
  tree_ok t -> w_kill w = None -> iCutoff <> 0 ->
  ∃ l1 l2 w', result cfg bWeightSum mcfg (eval t) (l1 ++ l2) /\
    cut Push (HAS_CUTOFF mcfg) iCutoff sorter l1 l2 (expired w') /\
    MatchExtended cfg mcfg (weigh_of cfg bWeightSum) (ranker_of t) sorter iCutoff w = Some (push_all Push l1 sorter, w').
Proof.
  intros Ht Hk Hc. destruct (match_node cfg mcfg bWeightSum (init t) (eval t) sorter iCutoff w) as (l1 & l2 & w' & R & C & _ & E);
    [by apply init_ok|intros x; by apply find_row_init|done..|]. by exists l1, l2, w'.
Qed.
End Search.
End Search.
