(* ===== verification/Doclist.v ===== *)
(** * Reading a keyword's postings (src/src/sphinx.cpp, [DiskIndexQword_c])

    The decoder of the doclist and hitlist files: document entries are delta
    coded, a skiplist allows to seek inside long doclists, single hits are
    inlined into the doclist.  The class is an instance of [ISphQword]. *)

From S2P Require Import Prelude Zip Hits Span SearchNode ExtTerm.
Import Zip Hitman FieldMask Span SearchNode.

Module Doclist.

(** ** File readers (src/src/datareader.cpp, [ThinMMapReader_c]) *)

(** The bytes from the read position on; past the end [GetByte] returns 0 and
    does not move, so one more zero byte stands for all of them (a zero byte
    ends every number). *)
Definition drop_eof (r : list Z) : list Z := take (length r - 1) r.

Definition UnzipInt (rd : list Z) : Z * list Z :=
  match UnzipValueBE4 DWORD (rd ++ [0]) with
  | Some (v, r) => (v, drop_eof r)
  | None => (0, [])
  end.

Definition UnzipOffset (rd : list Z) : Z * list Z :=
  match UnzipValueBE8 uint64_t (rd ++ [0]) with
  | Some (v, r) => (v, drop_eof r)
  | None => (0, [])
  end.

Definition SeekTo (file : list Z) (iPos : Z) : list Z := drop (Z.to_nat iPos) file.
Definition GetPos (file rd : list Z) : Z := Z.of_nat (length file - length rd).

(** ** Skiplists (src/src/sphinxsearch.cpp) *)

Record SkiplistEntry_t := SkiplistEntry {
  m_tBaseRowIDPlus1 : Z;
  m_iOffset : Z;
  m_iBaseHitlistPos : Z
}.

(** The loop of [SkipData_t::Read], [n] entries left, [p] the last one. *)
Fixpoint read_skips (n : nat) (iSkipBlockSize : Z) (p : SkiplistEntry_t) (pSkip : list Z) :
    option (list SkiplistEntry_t) :=
  match n with
  | O => Some []
  | S n' =>
      '(a, pSkip) ← UnzipIntBE pSkip;
      '(b, pSkip) ← UnzipOffsetBE pSkip;
      '(c, pSkip) ← UnzipOffsetBE pSkip;
      let t := SkiplistEntry
        (cast DWORD (m_tBaseRowIDPlus1 p + iSkipBlockSize + a))
        (cast int64_t (m_iOffset p + 4 * iSkipBlockSize + b))
        (cast int64_t (m_iBaseHitlistPos p + c)) in
      l ← read_skips n' iSkipBlockSize t pSkip;
      Some (t :: l)
  end.

(** [pSkip] are the bytes at [pSkips + tRes.m_iSkiplistOffset]; [None] is a read
    beyond them. *)
Definition SkipData_Read (pSkip : list Z) (iDoclistOffset iDocs iSkipBlockSize : Z) :
    option (list SkiplistEntry_t) :=
  let t0 := SkiplistEntry 0 iDoclistOffset 0 in
  l ← read_skips (Z.to_nat (iDocs / iSkipBlockSize - 1)) iSkipBlockSize t0 pSkip;
  Some (t0 :: l).

(** ** The decoder *)

(** What is fixed when the word is set up. *)
Record setup := Setup {
  INLINE_HITS : bool;
  m_bHasHitlist : bool;
  f_doclist : list Z;
  f_hitlist : list Z;
  m_pSkipData : option (list SkiplistEntry_t)
}.

(** The doclist side of the iterator. *)
Record docstate := DocState {
  m_rdDoclist : list Z;
  m_tDoc : Z;                    (* m_tDoc.m_tRowID *)
  m_dQwordFields : FieldMask_t;
  m_uMatchHits : Z;
  m_iHitlistPos : Z;
  m_uHitPosition : Z;
  m_bAllFieldsKnown : bool;
  m_iSkipListBlock : Z
}.

(** The hitlist side. *)
Record hitstate := HitState {
  m_rdHitlist : list Z;
  m_uHitState : Z;
  m_iHitPos : Z;
  m_uInlinedHit : Z
}.

Record DiskIndexQword_c := DiskIndexQword {
  qs : setup;
  qd : docstate;
  qh : hitstate;
  m_iDocs : Z
}.

(** [ReadNext]. *)
Definition ReadNext (c : setup) (d : docstate) : docstate :=
  let '(uDelta, rd) := UnzipInt (m_rdDoclist d) in
  if uDelta =? 0 then
    DocState rd INVALID_ROWID (m_dQwordFields d) (m_uMatchHits d) (m_iHitlistPos d)
      (m_uHitPosition d) (m_bAllFieldsKnown d) (m_iSkipListBlock d)
  else
    let tRowID := cast DWORD (m_tDoc d + uDelta) in
    if INLINE_HITS c then
      let '(uMatchHits, rd) := UnzipInt rd in
      let '(uFirst, rd) := UnzipInt rd in
      if (uMatchHits =? 1) && m_bHasHitlist c then
        let '(uField, rd) := UnzipInt rd in
        DocState rd tRowID
          (Set_ UnsetAll (Z.land (Z.shiftr uField 1) 255)) uMatchHits
          (cast SphOffset_t (Z.lor (Z.lor uFirst (cast DWORD (Z.shiftl uField 23))) (2 ^ 63)))
          (m_uHitPosition d) true (m_iSkipListBlock d)
      else
        let '(uOff, rd) := UnzipOffset rd in
        let uHitPosition := cast SphOffset_t (m_uHitPosition d + uOff) in
        DocState rd tRowID (Assign32 uFirst) uMatchHits uHitPosition uHitPosition false
          (m_iSkipListBlock d)
    else
      let '(iDeltaPos, rd) := UnzipOffset rd in
      let '(uFields, rd) := UnzipInt rd in
      let '(uMatchHits, rd) := UnzipInt rd in
      DocState rd tRowID (Assign32 uFields) uMatchHits
        (cast SphOffset_t (m_iHitlistPos d + cast SphOffset_t iDeltaPos))
        (m_uHitPosition d) false (m_iSkipListBlock d).

(** [SeekHitlist], the instantiation that may seek. *)
Definition seek_hitlist (c : setup) (uOff : Z) (h : hitstate) : hitstate :=
  if negb (Z.shiftr uOff 63 =? 0) then
    HitState (m_rdHitlist h) 1 (m_iHitPos h) (cast DWORD uOff)
  else HitState (SeekTo (f_hitlist c) uOff) 0 EMPTY_HIT (m_uInlinedHit h).

(** [GetHitlistEntry] and [GetNextHit]; an impossible state is fatal in the
    source. *)
Definition get_next_hit (h : hitstate) : Z * hitstate :=
  if m_uHitState h =? 1 then
    (m_uInlinedHit h, HitState (m_rdHitlist h) 2 (m_iHitPos h) (m_uInlinedHit h))
  else if m_uHitState h =? 2 then
    (EMPTY_HIT, HitState (m_rdHitlist h) 0 (m_iHitPos h) (m_uInlinedHit h))
  else
    let '(iDelta, rd) := UnzipInt (m_rdHitlist h) in
    let iHitPos := if iDelta =? 0 then EMPTY_HIT else cast DWORD (m_iHitPos h + iDelta) in
    (iHitPos, HitState rd (m_uHitState h) iHitPos (m_uInlinedHit h)).

(** The loop of [CollectHitMask]. *)
Fixpoint hit_mask_loop (fuel : nat) (m : FieldMask_t) (h : hitstate) : FieldMask_t * hitstate :=
  match fuel with
  | O => (m, h)
  | S fuel' =>
      let '(uHit, h) := get_next_hit h in
      if uHit =? EMPTY_HIT then (m, h)
      else hit_mask_loop fuel' (Set_ m (GetField uHit)) h
  end.

Definition collect_hit_mask (c : setup) (d : docstate) (h : hitstate) : docstate * hitstate :=
  if m_bAllFieldsKnown d then (d, h)
  else
    let h := seek_hitlist c (m_iHitlistPos d) h in
    let '(m, h) := hit_mask_loop (3 + length (f_hitlist c)) (m_dQwordFields d) h in
    (DocState (m_rdDoclist d) (m_tDoc d) m (m_uMatchHits d) (m_iHitlistPos d)
       (m_uHitPosition d) true (m_iSkipListBlock d), h).

Definition set_block (i : Z) (d : docstate) : docstate :=
  DocState (m_rdDoclist d) (m_tDoc d) (m_dQwordFields d) (m_uMatchHits d) (m_iHitlistPos d)
    (m_uHitPosition d) (m_bAllFieldsKnown d) i.

Definition bases (l : list SkiplistEntry_t) : list Z := map m_tBaseRowIDPlus1 l.

(** The part of [HintRowID] after the block is chosen: seek forward to it. *)
Definition seek_block (c : setup) (dSkiplist : list SkiplistEntry_t) (d : docstate) : bool * docstate :=
  match dSkiplist !! Z.to_nat (m_iSkipListBlock d) with
  | None => (false, d)
  | Some t =>
      if m_iOffset t <=? GetPos (f_doclist c) (m_rdDoclist d) then (false, d)
      else
        (true, DocState (SeekTo (f_doclist c) (m_iOffset t)) (cast DWORD (m_tBaseRowIDPlus1 t - 1))
           (m_dQwordFields d) (m_uMatchHits d) (m_iBaseHitlistPos t) (m_iBaseHitlistPos t)
           (m_bAllFieldsKnown d) (m_iSkipListBlock d))
  end.

(** [HintRowID]: whether the decoder was moved, and its state. *)
Definition hint_rowid (c : setup) (tRowID : Z) (d : docstate) : bool * docstate :=
  if m_iSkipListBlock d =? -1 then
    match m_pSkipData c with
    | None => (true, d)
    | Some dSkiplist =>
        let i := default (-1) (FindSpan (bases dSkiplist) tRowID 8) in
        let d := set_block i d in
        if i <? 0 then (false, d) else seek_block c dSkiplist d
    end
  else
    let dSkiplist := default [] (m_pSkipData c) in
    let n := Z.of_nat (length dSkiplist) in
    if m_iSkipListBlock d <? n - 1 then
      let iNextBlock := m_iSkipListBlock d + 1 in
      if tRowID >=? at_ (bases dSkiplist) iNextBlock then
        let i := default (-1) (FindSpan (drop (Z.to_nat iNextBlock) (bases dSkiplist)) tRowID 8) in
        if i <? 0 then (false, set_block i d)
        else seek_block c dSkiplist (set_block (i + iNextBlock) d)
      else seek_block c dSkiplist d
    else (false, d).

(** [while ( m_tDoc.m_tRowID < tRowID ) ReadNext();] *)
Fixpoint advance_loop (fuel : nat) (c : setup) (tRowID : Z) (d : docstate) : option docstate :=
  match fuel with
  | O => None
  | S fuel' => if m_tDoc d <? tRowID then advance_loop fuel' c tRowID (ReadNext c d) else Some d
  end.

Definition AdvanceTo (c : setup) (tRowID : Z) (d : docstate) : option (Z * docstate) :=
  if negb (m_tDoc d =? INVALID_ROWID) && (tRowID <=? m_tDoc d) then Some (m_tDoc d, d)
  else
    let '(bRewound, d) := hint_rowid c tRowID d in
    let d := if bRewound || (m_tDoc d =? INVALID_ROWID) then ReadNext c d else d in
    d ← advance_loop (S (length (m_rdDoclist d))) c tRowID d;
    Some (m_tDoc d, d).

Definition set_d (q : DiskIndexQword_c) (d : docstate) : DiskIndexQword_c :=
  DiskIndexQword (qs q) d (qh q) (m_iDocs q).
Definition set_h (q : DiskIndexQword_c) (h : hitstate) : DiskIndexQword_c :=
  DiskIndexQword (qs q) (qd q) h (m_iDocs q).

#[export] Instance DiskIndexQword_qword : ExtTerm.ISphQword DiskIndexQword_c := {
  ExtTerm.q_iDocs := m_iDocs;
  ExtTerm.q_set_iDocs n q := DiskIndexQword (qs q) (qd q) (qh q) n;
  ExtTerm.q_tRowID q := m_tDoc (qd q);
  ExtTerm.q_dQwordFields q := m_dQwordFields (qd q);
  ExtTerm.q_uMatchHits q := m_uMatchHits (qd q);
  ExtTerm.q_iHitlistPos q := m_iHitlistPos (qd q);
  ExtTerm.GetNextDoc q := set_d q (ReadNext (qs q) (qd q));
  ExtTerm.CollectHitMask q :=
    let '(d, h) := collect_hit_mask (qs q) (qd q) (qh q) in
    DiskIndexQword (qs q) d h (m_iDocs q);
  ExtTerm.q_HintRowID k q := set_d q (hint_rowid (qs q) k (qd q)).2;
  ExtTerm.SeekHitlist o q := set_h q (seek_hitlist (qs q) o (qh q));
  ExtTerm.GetNextHit q := let '(x, h) := get_next_hit (qh q) in (x, set_h q h);
  ExtTerm.qwork q := length (m_rdDoclist (qd q))
}.
End Doclist.
