(* ===== verification/DoclistOk.v ===== *)
(** * What the doclist decoder reads

    The format of a doclist as an encoding of its entries, and the proof that
    [DiskIndexQword_c] decodes it, also across skiplist seeks: the decoder meets
    [QwordOk], the contract the keyword streamer relies on. *)

From S2P Require Import Prelude Zip Hits Span SearchNode SearchNodeOk ExtTerm Doclist.
Import Zip Hitman FieldMask Span SearchNode ExtTerm Doclist.

Module DoclistOk.

(** ** The format *)

(** One document of a keyword: its row, the number of hits, the mask of the low
    32 fields, the position of the last hit, and the distance of its hits from
    those of the previous document in the hitlist file. *)
Record entry := Entry {
  e_row : Z; e_hits : Z; e_fields : Z; e_lastpos : Z; e_delta : Z
}.

Section Format.
Variable c : setup.

(** The only hit is stored in the doclist entry itself. *)
Definition inlined (e : entry) : bool := INLINE_HITS c && (e_hits e =? 1) && m_bHasHitlist c.

Definition enc_body (e : entry) : list Z :=
  if INLINE_HITS c then
    zint (e_hits e) ++
    (if inlined e then zint (Z.land (e_lastpos e) 0x7FFFFF) ++ zint (Z.shiftr (e_lastpos e) 23)
     else zint (e_fields e) ++ zoff (e_delta e))
  else zoff (e_delta e) ++ zint (e_fields e) ++ zint (e_hits e).

Definition enc_entry (prev : Z) (e : entry) : list Z :=
  zint (e_row e - prev) ++ enc_body e.

(** The entries, without and with the end marker. *)
Fixpoint enc_pre (prev : Z) (es : list entry) : list Z :=
  match es with [] => [] | e :: es' => enc_entry prev e ++ enc_pre (e_row e) es' end.

Fixpoint last_of (prev : Z) (es : list entry) : Z :=
  match es with [] => prev | e :: es' => last_of (e_row e) es' end.

Definition enc (prev : Z) (es : list entry) : list Z := enc_pre prev es ++ zint 0.

(** The hitlist position after the entries. *)
Definition next_hp (hp : Z) (e : entry) : Z := if inlined e then hp else hp + e_delta e.
Fixpoint hp_after (hp : Z) (es : list entry) : Z :=
  match es with [] => hp | e :: es' => hp_after (next_hp hp e) es' end.

Definition entry_ok (e : entry) : Prop :=
  in_type DWORD (e_hits e) /\ in_type DWORD (e_fields e) /\ in_type DWORD (e_lastpos e) /\
  0 <= e_delta e.

(** Rows ascend and hitlist positions stay in range. *)
Fixpoint entries_ok (prev hp : Z) (es : list entry) : Prop :=
  match es with
  | [] => True
  | e :: es' =>
      prev < e_row e < INVALID_ROWID /\ entry_ok e /\ hp + e_delta e < 2 ^ 63 /\
      entries_ok (e_row e) (next_hp hp e) es'
  end.

(** The doclist fields after an entry was read. *)
Definition read_fields (e : entry) : FieldMask_t :=
  if inlined e then Set_ UnsetAll (GetField (e_lastpos e)) else Assign32 (e_fields e).
Definition read_hitpos (hp : Z) (e : entry) : Z :=
  if inlined e then cast SphOffset_t (Z.lor (e_lastpos e) (2 ^ 63)) else hp + e_delta e.

Lemma enc_pre_app prev es1 es2 :
  enc_pre prev (es1 ++ es2) = enc_pre prev es1 ++ enc_pre (last_of prev es1) es2.
Proof.
  revert prev. induction es1 as [|e es1 IH]; intros prev; simpl; [done|].
  by rewrite IH, app_assoc.
Qed.

Lemma enc_app prev es1 es2 :
  enc prev (es1 ++ es2) = enc_pre prev es1 ++ enc (last_of prev es1) es2.
Proof. unfold enc. by rewrite enc_pre_app, app_assoc. Qed.

Lemma last_of_app prev es1 es2 : last_of prev (es1 ++ es2) = last_of (last_of prev es1) es2.
Proof. revert prev. induction es1; intros prev; simpl; auto. Qed.

Lemma hp_after_app hp es1 es2 : hp_after hp (es1 ++ es2) = hp_after (hp_after hp es1) es2.
Proof. revert hp. induction es1; intros hp; simpl; auto. Qed.

Lemma entries_ok_app prev hp es1 es2 :
  entries_ok prev hp (es1 ++ es2) <->
  entries_ok prev hp es1 /\ entries_ok (last_of prev es1) (hp_after hp es1) es2.
Proof.
  revert prev hp. induction es1 as [|e es1 IH]; intros prev hp; simpl; [tauto|].
  rewrite IH. tauto.
Qed.

(** ** Readers on encoded numbers *)

Lemma drop_eof_snoc l : drop_eof (l ++ [0]) = l.
Proof. unfold drop_eof. rewrite length_app. simpl. by rewrite Nat.add_sub, take_app_length. Qed.

Lemma UnzipInt_zint v rest :
  in_type DWORD v -> Forall is_byte rest -> UnzipInt (zint v ++ rest) = (v, rest).
Proof.
  intros Hv Hr. unfold UnzipInt, zint. rewrite <- app_assoc, unzip_be4_zip; [|done|done|].
  - by rewrite drop_eof_snoc.
  - apply Forall_app. split; [done|]. constructor; [unfold is_byte; lia|done].
Qed.

Lemma UnzipOffset_zoff v rest :
  in_type uint64_t v -> UnzipOffset (zoff v ++ rest) = (v, rest).
Proof.
  intros Hv. unfold UnzipOffset, zoff. rewrite <- app_assoc, unzip_be8_zip by done.
  by rewrite drop_eof_snoc.
Qed.

(** ** One entry *)

Lemma split_hit x :
  in_type DWORD x ->
  in_type DWORD (Z.land x 0x7FFFFF) /\ in_type DWORD (Z.shiftr x 23) /\
  Z.lor (Z.land x 0x7FFFFF) (cast DWORD (Z.shiftl (Z.shiftr x 23) 23)) = x /\
  Z.land (Z.shiftr (Z.shiftr x 23) 1) 255 = GetField x.
Proof.
  unfold in_type. cbn [is_signed DWORD bits]. intros Hx.
  change 0x7FFFFF with (2 ^ 23 - 1). change 255 with (2 ^ 8 - 1).
  rewrite !land_ones_mod, Z.shiftr_shiftr by lia. unfold GetField, FIELD_OFF.
  rewrite !Z.shiftr_div_pow2, Z.shiftl_mul_pow2 by lia.
  pose proof (Z.mod_pos_bound x (2 ^ 23) ltac:(lia)).
  pose proof (Z.div_mod x (2 ^ 23) ltac:(lia)).
  assert (0 <= x / 2 ^ 23 < 2 ^ 9) as H9.
  { split; [apply Z.div_pos; lia|]. apply Z.div_lt_upper_bound; lia. }
  split; [lia|]. split; [lia|]. split.
  - rewrite cast_id; [|done|unfold in_type; cbn [is_signed DWORD bits]; lia].
    rewrite Z.lor_comm, <- Z.shiftl_mul_pow2, lor_shiftl_add by lia. lia.
  - apply Z.mod_small. split; [apply Z.div_pos; lia|]. apply Z.div_lt_upper_bound; lia.
Qed.

(** The position hitlist deltas are added to. *)
Definition rpos (d : docstate) : Z := if INLINE_HITS c then m_uHitPosition d else m_iHitlistPos d.

Record read_post (d d' : docstate) (hp : Z) (e : entry) (rest : list Z) : Prop := {
  rp_rd : m_rdDoclist d' = rest;
  rp_row : m_tDoc d' = e_row e;
  rp_fields : m_dQwordFields d' = read_fields e;
  rp_hits : m_uMatchHits d' = e_hits e;
  rp_hitpos : m_iHitlistPos d' = read_hitpos hp e;
  rp_rpos : rpos d' = next_hp hp e;
  rp_known : m_bAllFieldsKnown d' = inlined e;
  rp_block : m_iSkipListBlock d' = m_iSkipListBlock d
}.

Lemma ReadNext_end d rest :
  m_rdDoclist d = zint 0 ++ rest -> Forall is_byte rest -> m_tDoc (ReadNext c d) = INVALID_ROWID.
Proof. intros E Hr. unfold ReadNext. by rewrite E, UnzipInt_zint. Qed.

Lemma cast_offset x : 0 <= x < 2 ^ 63 -> cast SphOffset_t x = x.
Proof. intros. apply cast_id; [done|]. unfold in_type. simpl. lia. Qed.

Lemma row_delta prev row :
  -1 <= prev < row -> row < INVALID_ROWID ->
  in_type DWORD (row - prev) /\ (row - prev =? 0) = false /\
  cast DWORD (cast DWORD prev + (row - prev)) = row.
Proof.
  unfold INVALID_ROWID. intros H1 H2. split; [unfold in_type; simpl; lia|]. split; [lia|].
  rewrite <- (cast_id DWORD row) at 2; [|done|unfold in_type; simpl; lia].
  apply cast_eq. rewrite Zplus_mod, cast_cong, <- Zplus_mod. f_equal. lia.
Qed.

(** The fields of a freshly built state. *)
Ltac read_field :=
  unfold rpos, read_fields, read_hitpos, next_hp, inlined;
  cbn [m_rdDoclist m_tDoc m_dQwordFields m_uMatchHits m_iHitlistPos m_uHitPosition
    m_bAllFieldsKnown m_iSkipListBlock];
  repeat match goal with E : INLINE_HITS c = _ |- _ => rewrite E end; cbn [andb].

Lemma ReadNext_entry d prev hp e rest :
  m_rdDoclist d = enc_entry prev e ++ rest -> m_tDoc d = cast DWORD prev ->
  -1 <= prev < e_row e -> e_row e < INVALID_ROWID -> entry_ok e ->
  rpos d = hp -> 0 <= hp -> hp + e_delta e < 2 ^ 63 -> Forall is_byte rest ->
  read_post d (ReadNext c d) hp e rest.
Proof.
  intros Er Ed Hp Hinv (O1 & O2 & O3 & O4) Ehp Hhp Hd Hrest.
  destruct (row_delta prev (e_row e) Hp Hinv) as (D1 & D2 & D3).
  unfold ReadNext, enc_entry in *. rewrite Er, <- app_assoc.
  assert (∀ l, Forall is_byte l -> UnzipInt (zint (e_row e - prev) ++ l) = (e_row e - prev, l)) as U
    by (intros; by apply UnzipInt_zint).
  assert (in_type uint64_t (e_delta e)) as O5 by (unfold in_type; simpl; lia).
  pose proof (split_hit (e_lastpos e) O3) as (S1 & S2 & S3 & S4).
  unfold enc_body, rpos, read_fields, read_hitpos, next_hp, inlined in *.
  destruct (INLINE_HITS c) eqn:Ei; cbn [andb] in *.
  - rewrite U, D2, Ed, D3.
    2: bytes.
    rewrite <- app_assoc, UnzipInt_zint; [|done|].
    2: bytes.
    destruct ((e_hits e =? 1) && m_bHasHitlist c) eqn:En.
    + rewrite <- app_assoc, !UnzipInt_zint by (done || bytes).
      split; read_field; rewrite ?S3, ?S4, ?En; done.
    + rewrite <- app_assoc, UnzipInt_zint, UnzipOffset_zoff by (done || bytes).
      rewrite Ehp, cast_offset by lia. split; read_field; rewrite ?En; done.
  - rewrite U, D2, Ed, D3.
    2: bytes.
    rewrite <- !app_assoc, UnzipOffset_zoff, !UnzipInt_zint by (done || bytes).
    rewrite Ehp, !cast_offset by (rewrite ?cast_offset; lia). split; read_field; done.
Qed.

(** ** The list a decoder will read *)

(** A hit reader to start from; [collect_hit_mask] seeks first. *)
Definition hit0 : hitstate := HitState [] 0 0 0.

Definition posting_at (d : docstate) : posting :=
  Posting (m_tDoc d) (m_dQwordFields d) (m_dQwordFields (collect_hit_mask c d hit0).1)
    (m_uMatchHits d) (m_iHitlistPos d).

Fixpoint decode (fuel : nat) (d : docstate) : list posting :=
  match fuel with
  | O => []
  | S fuel' =>
      let d := ReadNext c d in
      if m_tDoc d =? INVALID_ROWID then [] else posting_at d :: decode fuel' d
  end.

Lemma hit_loop_indep fuel m rd hp i i' :
  (hit_mask_loop fuel m (HitState rd 0 hp i)).1 = (hit_mask_loop fuel m (HitState rd 0 hp i')).1.
Proof.
  revert m rd hp. induction fuel as [|fuel IH]; intros m rd hp; [done|].
  cbn [hit_mask_loop]. unfold get_next_hit.
  cbn [m_uHitState m_rdHitlist m_iHitPos m_uInlinedHit]. cbn [Z.eqb].
  destruct (UnzipInt rd) as [x rd']. destruct (_ =? EMPTY_HIT); [done|apply IH].
Qed.

Lemma hit_loop_inlined n m rd hp i :
  (hit_mask_loop (S (S n)) m (HitState rd 1 hp i)).1 =
  if i =? EMPTY_HIT then m else Set_ m (GetField i).
Proof.
  change (hit_mask_loop (S (S n)) m (HitState rd 1 hp i)) with
    (if i =? EMPTY_HIT then (m, HitState rd 2 hp i)
     else (Set_ m (GetField i), HitState rd 0 hp i)).
  by destruct (i =? EMPTY_HIT).
Qed.

(** The collected mask does not depend on where the hit reader stands. *)
Lemma collect_indep d h h' : (collect_hit_mask c d h).1 = (collect_hit_mask c d h').1.
Proof.
  unfold collect_hit_mask. destruct (m_bAllFieldsKnown d); [done|].
  assert (∀ m, (hit_mask_loop (3 + length (f_hitlist c)) m (seek_hitlist c (m_iHitlistPos d) h)).1 =
    (hit_mask_loop (3 + length (f_hitlist c)) m (seek_hitlist c (m_iHitlistPos d) h')).1) as E.
  { intros m. unfold seek_hitlist. destruct (negb _); [|apply hit_loop_indep].
    cbn [Nat.add]. by rewrite !hit_loop_inlined. }
  specialize (E (m_dQwordFields d)).
  destruct (hit_mask_loop _ _ (seek_hitlist c (m_iHitlistPos d) h)) as [m1 h1],
    (hit_mask_loop _ _ (seek_hitlist c (m_iHitlistPos d) h')) as [m2 h2]. simpl in *. by subst m2.
Qed.

(** Collecting the mask changes only the mask. *)
Lemma collect_frame d h :
  let d' := (collect_hit_mask c d h).1 in
  m_rdDoclist d' = m_rdDoclist d /\ m_tDoc d' = m_tDoc d /\ m_uMatchHits d' = m_uMatchHits d /\
  m_iHitlistPos d' = m_iHitlistPos d /\ m_uHitPosition d' = m_uHitPosition d /\
  m_iSkipListBlock d' = m_iSkipListBlock d.
Proof.
  unfold collect_hit_mask. destruct (m_bAllFieldsKnown d); [done|].
  destruct (hit_mask_loop _ _ _) as [m h1]. done.
Qed.

(** ** Where the decoder stands *)

Section Word.
(** The entries of the keyword, what is in the file before and after them. *)
Variables (before : list Z) (all : list entry) (after : list Z).

Definition file_ok : Prop :=
  f_doclist c = before ++ enc (-1) all ++ after /\
  Forall is_byte (f_doclist c) /\ entries_ok (-1) 0 all.

(** The decoder has read [done] and has [rest] ahead of it. *)
Record stands (d : docstate) (done rest : list entry) : Prop := {
  st_all : all = done ++ rest;
  st_rd : m_rdDoclist d = enc (last_of (-1) done) rest ++ after;
  st_row : m_tDoc d = cast DWORD (last_of (-1) done);
  st_rpos : rpos d = hp_after 0 done
}.

Lemma hp_after_nonneg prev hp es : entries_ok prev hp es -> 0 <= hp -> 0 <= hp_after hp es.
Proof.
  revert prev hp. induction es as [|e es IH]; intros prev hp; simpl; [lia|].
  intros (_ & (_ & _ & _ & Hd) & _ & H) Hhp. apply (IH _ _ H). unfold next_hp.
  destruct (inlined e); lia.
Qed.

Lemma last_of_ge prev hp es : entries_ok prev hp es -> prev <= last_of prev es.
Proof.
  revert prev hp. induction es as [|e es IH]; intros prev hp; simpl; [lia|].
  intros (Hr & _ & _ & H). apply IH in H. lia.
Qed.

Lemma file_bytes d done rest :
  file_ok -> stands d done rest -> Forall is_byte (m_rdDoclist d).
Proof.
  intros (F1 & F2 & _) [S1 S2 _ _]. rewrite F1, S1, enc_app in F2.
  rewrite !Forall_app in F2. rewrite S2. apply Forall_app. tauto.
Qed.

Lemma stands_next d done e rest :
  file_ok -> stands d done (e :: rest) ->
  let d' := ReadNext c d in
  stands d' (done ++ [e]) rest /\ read_post d d' (hp_after 0 done) e (m_rdDoclist d') /\
  (length (m_rdDoclist d') < length (m_rdDoclist d))%nat.
Proof.
  intros F S. pose proof (file_bytes _ _ _ F S) as HB. destruct F as (F1 & F2 & F3).
  destruct S as [S1 S2 S3 S4]. rewrite S1 in F3. apply entries_ok_app in F3 as [G1 G2].
  destruct G2 as (R1 & R2 & R3 & R4).
  pose proof (hp_after_nonneg _ _ _ G1 ltac:(lia)). pose proof (last_of_ge _ _ _ G1).
  assert (m_rdDoclist d = enc_entry (last_of (-1) done) e ++ (enc (e_row e) rest ++ after)) as E.
  { rewrite S2. unfold enc. simpl. by rewrite <- !app_assoc. }
  rewrite E in HB. apply Forall_app in HB as [_ HB].
  pose proof (ReadNext_entry d _ _ e _ E S3 ltac:(lia) ltac:(lia) R2 S4 ltac:(lia) R3 HB) as P.
  destruct P as [P1 P2 P3 P4 P5 P6 P7 P8]. cbv zeta. split; [|split].
  - split.
    + by rewrite <- app_assoc.
    + rewrite P1, last_of_app. done.
    + rewrite P2, last_of_app. simpl. symmetry. apply cast_id; [done|].
      unfold in_type, INVALID_ROWID in *. cbn [is_signed DWORD bits]. clear -R1 H0. lia.
    + rewrite P6, hp_after_app. done.
  - split; done.
  - rewrite P1, E. unfold enc_entry. rewrite !length_app.
    pose proof (zint_ne (e_row e - last_of (-1) done)). lia.
Qed.

Lemma stands_end d done :
  file_ok -> stands d done [] -> m_tDoc (ReadNext c d) = INVALID_ROWID.
Proof.
  intros F S. pose proof (file_bytes _ _ _ F S) as HB. destruct S as [S1 S2 S3 S4].
  rewrite S2 in HB. unfold enc in *. cbn [enc_pre app] in *. apply Forall_app in HB as [_ HB].
  by apply (ReadNext_end d after).
Qed.

(** The posting of an entry. *)
Definition posting_of (hp : Z) (e : entry) : posting :=
  Posting (e_row e) (read_fields e)
    (if inlined e then read_fields e
     else (hit_mask_loop (3 + length (f_hitlist c)) (read_fields e)
             (seek_hitlist c (read_hitpos hp e) hit0)).1)
    (e_hits e) (read_hitpos hp e).

Fixpoint postings (hp : Z) (es : list entry) : list posting :=
  match es with [] => [] | e :: es' => posting_of hp e :: postings (next_hp hp e) es' end.

Lemma posting_at_eq d d' hp e rest : read_post d d' hp e rest -> posting_at d' = posting_of hp e.
Proof.
  intros [P1 P2 P3 P4 P5 P6 P7 P8]. unfold posting_at, posting_of, collect_hit_mask.
  rewrite P7. destruct (inlined e) eqn:Ei.
  - simpl. by rewrite P2, P3, P4, P5.
  - rewrite P2, P3, P4, P5. by destruct (hit_mask_loop _ _ _).
Qed.

Lemma decode_stands fuel d done rest :
  file_ok -> stands d done rest -> (length (m_rdDoclist d) < fuel)%nat ->
  decode fuel d = postings (hp_after 0 done) rest.
Proof.
  intros F. revert d done rest. induction fuel as [|fuel IH]; intros d done rest S Hf; [lia|].
  cbn [decode]. destruct rest as [|e rest].
  { by rewrite (stands_end _ _ F S), Z.eqb_refl. }
  destruct (stands_next _ _ _ _ F S) as (S' & P & L).
  pose proof (rp_row _ _ _ _ _ P) as Hrow.
  assert (e_row e < INVALID_ROWID) as Hlt.
  { destruct F as (_ & _ & F3). destruct S as [S1 _ _ _]. rewrite S1 in F3.
    apply entries_ok_app in F3 as [_ (R1 & _)]. lia. }
  rewrite Hrow, (proj2 (Z.eqb_neq (e_row e) INVALID_ROWID)) by lia.
  rewrite (posting_at_eq _ _ _ _ _ P), (IH _ _ _ S') by lia.
  simpl. by rewrite hp_after_app.
Qed.

(** ** Skiplists *)

(** The skiplist entry describes the decoder state after a prefix. *)
Definition skip_at (t : SkiplistEntry_t) (done : list entry) : Prop :=
  (∃ rest, all = done ++ rest) /\
  m_iOffset t = Z.of_nat (length before + length (enc_pre (-1) done)) /\
  m_tBaseRowIDPlus1 t = last_of (-1) done + 1 /\
  m_iBaseHitlistPos t = hp_after 0 done.

Definition skips_ok : Prop :=
  ∀ l, m_pSkipData c = Some l ->
    l <> [] /\ sorted (bases l) /\ Forall (λ t, ∃ done, skip_at t done) l.

(** The skiplist cursor is never ahead of the decoder. *)
Definition cursor_ok (d : docstate) : Prop :=
  m_iSkipListBlock d = -1 \/
  ∃ l t, m_pSkipData c = Some l /\ 0 <= m_iSkipListBlock d /\
    l !! Z.to_nat (m_iSkipListBlock d) = Some t /\ m_iOffset t <= GetPos (f_doclist c) (m_rdDoclist d).

Lemma GetPos_stands d done rest :
  file_ok -> stands d done rest ->
  GetPos (f_doclist c) (m_rdDoclist d) = Z.of_nat (length before + length (enc_pre (-1) done)).
Proof.
  intros (F1 & _) [S1 S2 _ _]. unfold GetPos. rewrite F1, S2, S1, enc_app, !length_app. lia.
Qed.

Lemma enc_pre_length prev es1 es2 :
  (length (enc_pre prev es1) <= length (enc_pre prev (es1 ++ es2)))%nat.
Proof. rewrite enc_pre_app, length_app. lia. Qed.

(** A skiplist entry further in the file is further in the entries. *)
Lemma skip_forward d done rest t done' :
  file_ok -> stands d done rest -> skip_at t done' ->
  GetPos (f_doclist c) (m_rdDoclist d) < m_iOffset t ->
  ∃ mid rest', rest = mid ++ rest' /\ done' = done ++ mid.
Proof.
  intros F S ([rest0 K1] & K2 & _ & _) Hlt. rewrite (GetPos_stands _ _ _ F S), K2 in Hlt.
  pose proof (st_all _ _ _ S) as E. rewrite K1 in E.
  apply app_eq_inv in E as [(k & -> & ->)|(k & -> & ->)].
  - by exists k, rest0.
  - pose proof (enc_pre_length (-1) done' k). lia.
Qed.

Lemma seek_stands d t mid rest done :
  file_ok -> stands d done (mid ++ rest) -> skip_at t (done ++ mid) ->
  stands (DocState (SeekTo (f_doclist c) (m_iOffset t)) (cast DWORD (m_tBaseRowIDPlus1 t - 1))
           (m_dQwordFields d) (m_uMatchHits d) (m_iBaseHitlistPos t) (m_iBaseHitlistPos t)
           (m_bAllFieldsKnown d) (m_iSkipListBlock d)) (done ++ mid) rest.
Proof.
  intros (F1 & _) [S1 _ _ _] (_ & K2 & K3 & K4). split.
  - by rewrite S1, app_assoc.
  - cbn [m_rdDoclist]. unfold SeekTo. rewrite F1, K2, Nat2Z.id, S1, (app_assoc done), enc_app.
    rewrite <- app_assoc, app_assoc, <- length_app. apply drop_app_length.
  - cbn [m_tDoc]. rewrite K3. f_equal. lia.
  - unfold rpos. simpl. by destruct (INLINE_HITS c).
Qed.

Lemma postings_rows prev hp es : entries_ok prev hp es -> pasc prev (postings hp es).
Proof.
  revert prev hp. induction es as [|e es IH]; intros prev hp; [done|].
  intros (H1 & _ & _ & H2). split; [done|by apply IH].
Qed.

(** Entries up to the base of a skiplist entry are below every hint that picks it. *)
Lemma ge_postings_skip k prev hp mid rest :
  entries_ok prev hp (mid ++ rest) -> last_of prev mid < k ->
  ge_postings k (postings hp (mid ++ rest)) = ge_postings k (postings (hp_after hp mid) rest).
Proof.
  revert prev hp. induction mid as [|e mid IH]; intros prev hp; [done|].
  intros (H1 & _ & _ & H2) Hk. simpl in *. unfold ge_postings at 1.
  pose proof (proj1 (entries_ok_app _ _ mid rest) H2) as [G _].
  pose proof (last_of_ge _ _ _ G). rewrite filter_cons, decide_False by (simpl; lia).
  by apply (IH (e_row e)).
Qed.

(** ** Hints *)

Record hint_post (k : Z) (d : docstate) (done rest : list entry) (d' : docstate) : Prop := {
  hp_stands : ∃ mid rest', rest = mid ++ rest' /\ stands d' (done ++ mid) rest' /\
    (mid = [] \/ last_of (-1) (done ++ mid) < k);
  hp_cursor : cursor_ok d';
  hp_len : (length (m_rdDoclist d') <= length (m_rdDoclist d))%nat
}.

Lemma hint_stay k d done rest i :
  stands d done rest -> cursor_ok (set_block i d) -> hint_post k d done rest (set_block i d).
Proof.
  intros S C. split; [|done|done]. exists [], rest. rewrite app_nil_r.
  split; [done|]. split; [|by left]. by destruct S.
Qed.

Lemma hint_here k d done rest :
  stands d done rest -> cursor_ok d -> hint_post k d done rest d.
Proof.
  intros S C. split; [|done|done]. exists [], rest. rewrite app_nil_r.
  split; [done|]. split; [done|by left].
Qed.

Lemma bases_lookup l i t :
  l !! Z.to_nat i = Some t -> at_ (bases l) i = m_tBaseRowIDPlus1 t.
Proof. intros E. unfold at_, bases. by rewrite nth_lookup, list_lookup_fmap, E. Qed.

Lemma seek_block_ok k d done rest l i :
  file_ok -> skips_ok -> stands d done rest -> m_pSkipData c = Some l ->
  0 <= i < Z.of_nat (length l) -> at_ (bases l) i <= k ->
  hint_post k d done rest (seek_block c l (set_block i d)).2.
Proof.
  intros F K S El Hi Hk. destruct (K l El) as (_ & _ & K3). unfold seek_block.
  cbn [m_iSkipListBlock set_block].
  destruct (lookup_lt_is_Some_2 l (Z.to_nat i)) as [t Et]; [lia|]. rewrite Et.
  rewrite Forall_lookup in K3. destruct (K3 _ _ Et) as [done' Ks].
  rewrite (bases_lookup _ _ _ Et) in Hk.
  change (m_rdDoclist (set_block i d)) with (m_rdDoclist d).
  destruct (Z.leb_spec (m_iOffset t) (GetPos (f_doclist c) (m_rdDoclist d))).
  { apply hint_stay; [done|]. right. exists l, t. simpl. split; [done|]. split; [lia|done]. }
  destruct (skip_forward _ _ _ _ _ F S Ks) as (mid & rest' & -> & ->); [lia|].
  assert (stands (set_block i d) done (mid ++ rest')) as Sb by (by destruct S).
  pose proof (seek_stands (set_block i d) t mid rest' done F Sb Ks) as S''.
  cbn [snd]. match goal with |- hint_post _ _ _ _ ?x => set (d' := x) end.
  change (stands d' (done ++ mid) rest') in S''. split.
  - exists mid, rest'. split; [done|]. split; [done|]. right.
    destruct Ks as (_ & _ & Ks3 & _). lia.
  - right. exists l, t. split; [done|]. split; [simpl; lia|]. split; [done|].
    rewrite (GetPos_stands _ _ _ F S''). destruct Ks as (_ & -> & _). lia.
  - rewrite (st_rd _ _ _ S''), (st_rd _ _ _ S), enc_app, last_of_app, !length_app. lia.
Qed.

Lemma sorted_drop l n : sorted l -> sorted (drop n l).
Proof.
  intros Hs i j Hij Hj. unfold at_, len in *. rewrite length_drop in Hj.
  rewrite !nth_lookup, !lookup_drop, <- !nth_lookup.
  specialize (Hs (Z.of_nat n + i) (Z.of_nat n + j)). unfold at_, len in Hs.
  replace (n + Z.to_nat i)%nat with (Z.to_nat (Z.of_nat n + i)) by lia.
  replace (n + Z.to_nat j)%nat with (Z.to_nat (Z.of_nat n + j)) by lia. apply Hs; lia.
Qed.

Lemma at_drop l n i : 0 <= i -> at_ (drop n l) i = at_ l (Z.of_nat n + i).
Proof.
  intros Hi. unfold at_. rewrite !nth_lookup, lookup_drop. do 2 f_equal. lia.
Qed.

Lemma hint_rowid_ok k d done rest :
  file_ok -> skips_ok -> stands d done rest -> cursor_ok d ->
  hint_post k d done rest (hint_rowid c k d).2.
Proof.
  intros F K S C. unfold hint_rowid. destruct (Z.eqb_spec (m_iSkipListBlock d) (-1)) as [E|N].
  - destruct (m_pSkipData c) as [l|] eqn:El.
    2: by apply hint_here.
    destruct (K l El) as (_ & K2 & _).
    destruct (FindSpan_ok (bases l) k 8 K2 ltac:(lia)) as (i & -> & I1 & I2 & I3). simpl.
    unfold len, bases in I1. rewrite length_map in I1.
    destruct (Z.ltb_spec i 0).
    + apply hint_stay; [done|]. left. simpl. lia.
    + apply seek_block_ok; auto; lia.
  - destruct C as [?|(l & t & El & C1 & C2 & C3)]; [done|]. rewrite El. simpl.
    destruct (K l El) as (_ & K2 & _).
    assert (hint_post k d done rest d) as Hd by (apply hint_here; [done|right; by exists l, t]).
    destruct (Z.ltb_spec (m_iSkipListBlock d) (Z.of_nat (length l) - 1)); [|done].
    destruct (k >=? _) eqn:Ek.
    + set (n := Z.to_nat (m_iSkipListBlock d + 1)).
      destruct (FindSpan_ok (drop n (bases l)) k 8 (sorted_drop _ n K2) ltac:(lia))
        as (i & -> & I1 & I2 & I3). simpl.
      unfold len, bases in I1. rewrite length_drop, length_map in I1.
      destruct (Z.ltb_spec i 0).
      * apply hint_stay; [done|]. left. simpl. lia.
      * apply seek_block_ok; auto; [lia|]. specialize (I2 ltac:(lia)). rewrite at_drop in I2 by lia.
        replace (i + (m_iSkipListBlock d + 1)) with (Z.of_nat n + i) by lia. done.
    + unfold seek_block. rewrite C2. by rewrite (proj2 (Z.leb_le _ _)).
Qed.
End Word.
End Format.

(** ** The decoder meets the contract of a keyword reader *)

Definition qinv_at (before : list Z) (all : list entry) (after : list Z)
    (b : Z) (q : DiskIndexQword_c) (done rest : list entry) : Prop :=
  file_ok (qs q) before all after /\ skips_ok (qs q) before all /\
  stands (qs q) all after (qd q) done rest /\ cursor_ok (qs q) (qd q) /\
  pasc b (postings (qs q) (hp_after (qs q) 0 done) rest).

Definition disk_inv (b : Z) (q : DiskIndexQword_c) : Prop :=
  ∃ before all after done rest, qinv_at before all after b q done rest.

Definition disk_rem (q : DiskIndexQword_c) : list posting :=
  decode (qs q) (S (length (m_rdDoclist (qd q)))) (qd q).

Lemma disk_rem_eq before all after b q done rest :
  qinv_at before all after b q done rest ->
  disk_rem q = postings (qs q) (hp_after (qs q) 0 done) rest.
Proof. intros (F & _ & S & _). apply (decode_stands _ _ _ _ _ _ _ _ F S). lia. Qed.

Lemma pasc_weaken b b' l : pasc b l -> b' <= b -> pasc b' l.
Proof. destruct l; simpl; [done|]. intros [? ?] ?. split; [lia|done]. Qed.

Lemma pasc_suffix c b hp mid rest :
  pasc b (postings c hp (mid ++ rest)) -> pasc b (postings c (hp_after c hp mid) rest).
Proof.
  revert b hp. induction mid as [|e mid IH]; intros b hp; [done|]. simpl. intros [H1 H2].
  apply IH. apply (pasc_weaken _ _ _ H2). lia.
Qed.

(** Moving the decoder without changing what it reads. *)
Lemma stands_frame c all after d d' done rest :
  stands c all after d done rest -> m_rdDoclist d' = m_rdDoclist d -> m_tDoc d' = m_tDoc d ->
  rpos c d' = rpos c d -> stands c all after d' done rest.
Proof. intros [S1 S2 S3 S4] E1 E2 E3. split; congruence. Qed.

Lemma cursor_frame c d d' :
  cursor_ok c d -> m_iSkipListBlock d' = m_iSkipListBlock d ->
  (length (m_rdDoclist d') <= length (m_rdDoclist d))%nat -> cursor_ok c d'.
Proof.
  intros [H|(l & t & H1 & H2 & H3 & H4)] E L; [left; congruence|right].
  exists l, t. rewrite E. split; [done|]. split; [done|]. split; [done|]. unfold GetPos in *. lia.
Qed.

(** Reading one entry, then whatever changes neither reader nor row. *)
Lemma disk_next before all after b q d' done e rest :
  qinv_at before all after b q done (e :: rest) ->
  let d1 := ReadNext (qs q) (qd q) in
  m_rdDoclist d' = m_rdDoclist d1 -> m_tDoc d' = m_tDoc d1 -> rpos (qs q) d' = rpos (qs q) d1 ->
  m_iSkipListBlock d' = m_iSkipListBlock d1 ->
  let q' := set_d q d' in
  let p := posting_of (qs q) (hp_after (qs q) 0 done) e in
  qinv_at before all after (p_row p) q' (done ++ [e]) rest /\
  disk_rem q' = postings (qs q) (next_hp (qs q) (hp_after (qs q) 0 done) e) rest /\
  read_post (qs q) (qd q) d1 (hp_after (qs q) 0 done) e (m_rdDoclist d1) /\
  (length (m_rdDoclist d') < length (m_rdDoclist (qd q)))%nat.
Proof.
  intros (F & K & S & C & A) d1 E1 E2 E3 E4 q' p.
  destruct (stands_next _ _ _ _ _ _ _ _ F S) as (S' & P & L). fold d1 in S', P, L.
  assert (qinv_at before all after (p_row p) q' (done ++ [e]) rest) as I.
  { split; [done|]. split; [done|]. split; [by eapply stands_frame|]. split.
    - apply (cursor_frame _ _ _ C); [|simpl; rewrite E1; lia]. simpl. rewrite E4. apply (rp_block _ _ _ _ _ _ P).
    - rewrite hp_after_app. apply A. }
  split; [done|]. rewrite (disk_rem_eq _ _ _ _ _ _ _ I). rewrite hp_after_app. rewrite E1. done.
Qed.

#[export] Program Instance DiskIndexQword_ok : QwordOk DiskIndexQword_c := {
  qrem := disk_rem;
  qinv := disk_inv
}.
Next Obligation.
  intros b q (before & all & after & done & rest & H). rewrite (disk_rem_eq _ _ _ _ _ _ _ H). apply H.
Qed.
Next Obligation.
  intros b b' q (before & all & after & done & rest & F & K & S & C & A) Hb.
  exists before, all, after, done, rest. repeat (split; [done|]). by eapply pasc_weaken.
Qed.
Next Obligation.
  intros b q (before & all & after & done & rest & H) Er. rewrite (disk_rem_eq _ _ _ _ _ _ _ H) in Er.
  destruct rest; [|done]. destruct H as (F & _ & S & _). simpl.
  by apply (stands_end _ _ _ _ _ _ F S).
Qed.
Next Obligation.
  intros b q p l (before & all & after & done & rest & H) Er. rewrite (disk_rem_eq _ _ _ _ _ _ _ H) in Er.
  destruct rest as [|e rest]; [done|]. simpl in Er. injection Er as <- <-.
  destruct (disk_next _ _ _ _ _ _ _ _ _ H eq_refl eq_refl eq_refl eq_refl) as (I & R & P & L).
  destruct P as [P1 P2 P3 P4 P5 P6 P7 P8]. simpl.
  repeat (split; [done|]). split; [|done]. by exists before, all, after, (done ++ [e]), rest.
Qed.
Next Obligation.
  intros b q p l (before & all & after & done & rest & H) Er. rewrite (disk_rem_eq _ _ _ _ _ _ _ H) in Er.
  destruct rest as [|e rest]; [done|]. simpl in Er. injection Er as <- <-.
  set (d1 := ReadNext (qs q) (qd q)).
  destruct (collect_frame (qs q) d1 (qh q)) as (C1 & C2 & C3 & C4 & C5 & C6).
  pose proof (collect_indep (qs q) d1 (qh q) hit0) as Ci.
  destruct (disk_next _ _ _ _ _ (collect_hit_mask (qs q) d1 (qh q)).1 _ _ _ H C1 C2) as (I & R & P & L);
    [unfold rpos; by rewrite C4, C5|done|].
  fold d1 in P. pose proof (posting_at_eq _ _ _ _ _ _ P) as Ep. destruct P as [P1 P2 P3 P4 P5 P6 P7 P8].
  cbn [CollectHitMask GetNextDoc DiskIndexQword_qword qs qd qh set_d]. fold d1.
  destruct (collect_hit_mask (qs q) d1 (qh q)) as [d2 h2]. cbn [fst] in *.
  cbn [q_tRowID q_dQwordFields q_uMatchHits q_iHitlistPos qwork DiskIndexQword_qword qs qd qh set_d
       posting_of p_row p_mask p_hits p_hitpos].
  split; [congruence|]. split.
  { apply (f_equal p_mask) in Ep. cbn [posting_at posting_of p_mask] in Ep. by rewrite <- Ep, Ci. }
  split; [congruence|]. split; [congruence|]. split; [done|]. split; [|done].
  by exists before, all, after, (done ++ [e]), rest.
Qed.
Next Obligation. done. Qed.
Next Obligation. intros q. simpl. by destruct (collect_hit_mask _ _ _). Qed.
Next Obligation. done. Qed.
Next Obligation.
  intros b k q (before & all & after & done & rest & H).
  destruct (hint_rowid_ok _ _ _ _ k _ _ _ (proj1 H) (proj1 (proj2 H)) (proj1 (proj2 (proj2 H)))
    (proj1 (proj2 (proj2 (proj2 H))))) as [(mid & rest' & -> & S' & Hm) C' L].
  assert (disk_inv b (q_HintRowID k q) /\
    disk_rem (q_HintRowID k q) = postings (qs q) (hp_after (qs q) 0 (done ++ mid)) rest') as [I R].
  { destruct H as (F & K & S & C & A).
    assert (qinv_at before all after b (q_HintRowID k q) (done ++ mid) rest') as I.
    { repeat (split; [done|]). rewrite hp_after_app. by apply pasc_suffix. }
    split; [by exists before, all, after, (done ++ mid), rest'|apply (disk_rem_eq _ _ _ _ _ _ _ I)]. }
  split; [done|]. split; [|done].
  cbn [qrem]. rewrite R, (disk_rem_eq _ _ _ _ _ _ _ H), hp_after_app.
  destruct Hm as [->|Hm]; [done|]. symmetry.
  destruct H as ((_ & _ & F3) & _ & [S1 _ _ _] & _). rewrite S1 in F3.
  apply entries_ok_app in F3 as [_ F3]. apply (ge_postings_skip _ _ _ _ _ _ F3).
  by rewrite <- last_of_app.
Qed.
Next Obligation. done. Qed.

(** ** [AdvanceTo] *)

Fixpoint first_ge (k : Z) (es : list entry) : Z :=
  match es with
  | [] => INVALID_ROWID
  | e :: es' => if k <=? e_row e then e_row e else first_ge k es'
  end.

Lemma last_of_snoc (es : list entry) : es <> [] -> ∃ es' e, es = es' ++ [e].
Proof. intros H. destruct (exists_last H) as (es' & e & ->). by exists es', e. Qed.

Section Advance.
Variables (c : setup) (before : list Z) (all : list entry) (after : list Z).
Hypothesis F : file_ok c before all after.

Lemma stands_row d done e rest :
  stands c all after d (done ++ [e]) rest -> m_tDoc d = e_row e /\ e_row e < INVALID_ROWID.
Proof.
  intros [S1 _ S3 _]. rewrite last_of_app in S3. simpl in S3.
  destruct F as (_ & _ & F3). rewrite S1 in F3. apply entries_ok_app in F3 as [F3 _].
  apply entries_ok_app in F3 as [F4 (R1 & _)]. pose proof (last_of_ge _ _ _ _ F4).
  rewrite S3. split; [|lia]. apply cast_id; [done|]. unfold in_type, INVALID_ROWID in *.
  cbn [is_signed DWORD bits]. lia.
Qed.

(** The loop from a document that was read. *)
Lemma advance_loop_ok fuel k d done e rest :
  k <= INVALID_ROWID -> stands c all after d (done ++ [e]) rest ->
  (length (m_rdDoclist d) < fuel)%nat ->
  ∃ d', advance_loop fuel c k d = Some d' /\ m_tDoc d' = first_ge k (e :: rest).
Proof.
  intros Hk. revert d done e rest. induction fuel as [|fuel IH]; intros d done e rest St Hf; [lia|].
  cbn [advance_loop first_ge]. destruct (stands_row _ _ _ _ St) as [Er He]. rewrite Er.
  destruct (Z.ltb_spec (e_row e) k), (Z.leb_spec k (e_row e)); try lia.
  2: { by exists d. }
  destruct rest as [|e' rest].
  - exists (ReadNext c d). pose proof (stands_end _ _ _ _ _ _ F St) as E.
    pose proof (file_bytes _ _ _ _ _ _ _ F St) as HB. destruct fuel as [|fuel].
    + rewrite (st_rd _ _ _ _ _ _ St) in Hf. unfold enc in Hf. rewrite !length_app in Hf.
      pose proof (zint_ne 0). lia.
    + cbn [advance_loop]. rewrite E, (proj2 (Z.ltb_ge _ _)) by done. done.
  - destruct (stands_next _ _ _ _ _ _ _ _ F St) as (St' & _ & L).
    apply (IH _ _ _ _ St'). lia.
Qed.

(** The read and the loop from a state whose entries ahead are [rest]. *)
Lemma read_advance_ok k d done rest :
  k <= INVALID_ROWID -> stands c all after d done rest ->
  ∃ d', advance_loop (S (length (m_rdDoclist (ReadNext c d)))) c k (ReadNext c d) = Some d' /\
        m_tDoc d' = first_ge k rest.
Proof.
  intros Hk St. destruct rest as [|e rest].
  - pose proof (stands_end _ _ _ _ _ _ F St) as E. exists (ReadNext c d). cbn [advance_loop first_ge].
    by rewrite E, (proj2 (Z.ltb_ge _ _)).
  - destruct (stands_next _ _ _ _ _ _ _ _ F St) as (St' & _ & L).
    apply (advance_loop_ok _ _ _ _ _ _ Hk St'). lia.
Qed.

Lemma first_ge_skip k prev hp mid rest :
  entries_ok c prev hp (mid ++ rest) -> last_of prev mid < k ->
  first_ge k (mid ++ rest) = first_ge k rest.
Proof.
  revert prev hp. induction mid as [|e mid IH]; intros prev hp; [done|].
  intros (H1 & _ & _ & H2) Hk. simpl in *.
  pose proof (proj1 (entries_ok_app _ _ _ mid rest) H2) as [G _]. pose proof (last_of_ge _ _ _ _ G).
  rewrite (proj2 (Z.leb_gt _ _)) by lia. by apply (IH (e_row e) (next_hp c hp e)).
Qed.


(** Past the early return: everything read so far is below [k]. *)
Lemma advance_go k d done rest :
  skips_ok c before all -> stands c all after d done rest -> cursor_ok c d ->
  0 <= k <= INVALID_ROWID -> last_of (-1) done < k ->
  ∃ d', (let '(bRewound, d) := hint_rowid c k d in
         let d := if bRewound || (m_tDoc d =? INVALID_ROWID) then ReadNext c d else d in
         d ← advance_loop (S (length (m_rdDoclist d))) c k d; Some (m_tDoc d, d))
        = Some (first_ge k rest, d').
Proof.
  intros K St C Hk Hlast.
  destruct (hint_rowid_ok _ _ _ _ k _ _ _ F K St C) as [(mid & rest' & -> & St' & Hm) _ _].
  destruct (hint_rowid c k d) as [rw d1]. cbn [snd] in *. cbv zeta.
  assert (last_of (-1) (done ++ mid) < k) as Hl by (destruct Hm as [->|]; [by rewrite app_nil_r|done]).
  assert (first_ge k (mid ++ rest') = first_ge k rest') as ->.
  { destruct F as (_ & _ & F3). rewrite (st_all _ _ _ _ _ _ St) in F3.
    apply entries_ok_app in F3 as [_ F3]. rewrite last_of_app in Hl. by eapply first_ge_skip. }
  destruct (rw || (m_tDoc d1 =? INVALID_ROWID)) eqn:Er.
  - destruct (read_advance_ok k _ _ _ ltac:(lia) St') as (d' & -> & E).
    cbn [mbind option_bind]. exists d'. by rewrite E.
  - apply orb_false_iff in Er as [_ Er].
    destruct (done ++ mid) as [|e0 es] eqn:Ed.
    { rewrite (st_row _ _ _ _ _ _ St') in Er. done. }
    rewrite <- Ed in *. destruct (last_of_snoc (done ++ mid) ltac:(by rewrite Ed)) as (done' & e & E).
    rewrite E in St', Hl. rewrite last_of_app in Hl. simpl in Hl.
    destruct (advance_loop_ok (S (length (m_rdDoclist d1))) k d1 done' e rest' ltac:(lia) St' ltac:(lia))
      as (d' & -> & E'). cbn [mbind option_bind]. exists d'. rewrite E'. cbn [first_ge].
    by rewrite (proj2 (Z.leb_gt _ _)).
Qed.
End Advance.

(** [C11] [AdvanceTo] with the skiplist finds what a linear scan of the doclist
    would find: the current document if it is not below the target, else the
    first later document that is not, [INVALID_ROWID] if there is none; the
    loop terminates. *)
Theorem advance_to_correct before all after b q done rest k :
  qinv_at before all after b q done rest -> 0 <= k <= INVALID_ROWID ->
  ∃ d', AdvanceTo (qs q) k (qd q) =
    Some (if (match done with [] => false | _ => true end) && (k <=? last_of (-1) done)
          then last_of (-1) done else first_ge k rest, d').
Proof.
  intros (F & K & St & C & A) Hk. unfold AdvanceTo.
  destruct done as [|e0 es] eqn:Ed; cbn [andb].
  { rewrite (st_row _ _ _ _ _ _ St). apply (advance_go _ _ _ _ F _ _ []); auto. simpl. lia. }
  destruct (last_of_snoc (e0 :: es) ltac:(done)) as (done' & e & E). rewrite E in *.
  destruct (stands_row _ _ _ _ F _ _ _ _ St) as [Hr He]. rewrite Hr, last_of_app. simpl last_of.
  rewrite (proj2 (Z.eqb_neq _ _)) by lia. cbn [negb andb].
  destruct (Z.leb_spec k (e_row e)); [by eexists|].
  apply (advance_go _ _ _ _ F _ _ (done' ++ [e])); auto. rewrite last_of_app. simpl. lia.
Qed.
End DoclistOk.
