(* ===== verification/HitBuilder.v ===== *)
(** * Building the posting files (src/src/sphinx.cpp, [CSphHitBuilder])

    The indexer feeds hits sorted by keyword, document and position to
    [cidxHit], which writes the doclist, hitlist and skiplist files and the
    dictionary entries. *)

From S2P Require Import Prelude Zip Hits SearchNode Doclist.
Import Zip Hitman FieldMask Doclist.

Module HitBuilder.

Definition INVALID_ROWID := SearchNode.INVALID_ROWID.
Definition HITLESS_DOC_MASK : Z := 0x7FFFFFFF.
Definition HITLESS_DOC_FLAG : Z := 0x80000000.

Inductive ESphHitless := SPH_HITLESS_NONE | SPH_HITLESS_SOME | SPH_HITLESS_ALL.
Inductive ESphHitFormat := SPH_HIT_FORMAT_PLAIN | SPH_HIT_FORMAT_INLINE.

Record AggregateHit_t := AggregateHit {
  m_tRowID : Z;
  m_uWordID : Z;
  m_szKeyword : list Z;
  m_iWordPos : Z;
  m_dFieldMask : FieldMask_t
}.

Record DictEntry_t := DictEntry {
  w_uWordID : Z;
  w_szKeyword : list Z;
  w_iDocs : Z;
  w_iHits : Z;
  w_iDoclistOffset : Z;
  w_iDoclistLength : Z;
  w_iSkiplistOffset : Z
}.

(** What the constructor takes from the settings and the dictionary. *)
Record settings := Settings {
  m_iSkiplistBlockSize : Z;
  m_eHitFormat : ESphHitFormat;
  m_eHitless : ESphHitless;
  bWordDict : bool;             (* m_pDict->GetSettings().IsWordDict() *)
  bKeywordsV2 : bool;           (* the dictionary format is KEYWORDS_V2 *)
  iKeywordBuf : nat             (* m_dLastKeyword.GetLength() *)
}.

(** The three files, as the bytes before the write position of their writers
    ([FileIO] relates them to the buffered writers). *)
Record files := Files { m_wrDoclist : list Z; m_wrHitlist : list Z; m_wrSkiplist : list Z }.

(** [m_tLastHit] and the trackers of the hitlist. *)
Record lasthit := LastHit {
  l_tRowID : Z;
  l_uWordID : Z;
  l_iWordPos : Z;
  l_szKeyword : list Z;
  m_iPrevHitPos : Z;
  m_bGotFieldEnd : bool
}.

(** The trackers of the doclist entry. *)
Record doctrack := DocTrack {
  m_iLastHitlistPos : Z;
  m_iLastHitlistDelta : Z;
  m_dLastDocFields : FieldMask_t;
  m_uLastDocHits : Z
}.

Record CSphHitBuilder := Builder {
  b_files : files;
  b_last : lasthit;
  b_doc : doctrack;
  m_tWord : DictEntry_t;
  m_dSkiplist : list SkiplistEntry_t;
  b_dict : list DictEntry_t;     (* the entries given to m_pDict->DictEntry() *)
  b_dict_end : option Z;         (* the argument of m_pDict->DictEndEntries() *)
  m_bError : bool
}.

Definition wr_pos (f : list Z) : Z := Z.of_nat (length f).

Definition docs_of (w : DictEntry_t) (n : Z) : DictEntry_t :=
  DictEntry (w_uWordID w) (w_szKeyword w) n (w_iHits w) (w_iDoclistOffset w)
    (w_iDoclistLength w) (w_iSkiplistOffset w).
Definition hits_of (w : DictEntry_t) (n : Z) : DictEntry_t :=
  DictEntry (w_uWordID w) (w_szKeyword w) (w_iDocs w) n (w_iDoclistOffset w)
    (w_iDoclistLength w) (w_iSkiplistOffset w).
Definition skip_of (w : DictEntry_t) (n : Z) : DictEntry_t :=
  DictEntry (w_uWordID w) (w_szKeyword w) (w_iDocs w) (w_iHits w) (w_iDoclistOffset w)
    (w_iDoclistLength w) n.

Section Builder.
Variable cfg : settings.

Definition put_doclist (bytes : list Z) (b : CSphHitBuilder) : CSphHitBuilder :=
  let f := b_files b in
  Builder (Files (m_wrDoclist f ++ bytes) (m_wrHitlist f) (m_wrSkiplist f)) (b_last b) (b_doc b)
    (m_tWord b) (m_dSkiplist b) (b_dict b) (b_dict_end b) (m_bError b).

Definition put_hitlist (bytes : list Z) (b : CSphHitBuilder) : CSphHitBuilder :=
  let f := b_files b in
  Builder (Files (m_wrDoclist f) (m_wrHitlist f ++ bytes) (m_wrSkiplist f)) (b_last b) (b_doc b)
    (m_tWord b) (m_dSkiplist b) (b_dict b) (b_dict_end b) (m_bError b).

Definition set_last (l : lasthit) (b : CSphHitBuilder) : CSphHitBuilder :=
  Builder (b_files b) l (b_doc b) (m_tWord b) (m_dSkiplist b) (b_dict b) (b_dict_end b) (m_bError b).
Definition set_doc (d : doctrack) (b : CSphHitBuilder) : CSphHitBuilder :=
  Builder (b_files b) (b_last b) d (m_tWord b) (m_dSkiplist b) (b_dict b) (b_dict_end b) (m_bError b).
Definition set_word (w : DictEntry_t) (b : CSphHitBuilder) : CSphHitBuilder :=
  Builder (b_files b) (b_last b) (b_doc b) w (m_dSkiplist b) (b_dict b) (b_dict_end b) (m_bError b).

(** [CSphHitBuilder::DoclistBeginEntry]. *)
Definition DoclistBeginEntry (tRowid : Z) (b : CSphHitBuilder) : CSphHitBuilder :=
  let b :=
    if Z.land (w_iDocs (m_tWord b)) (m_iSkiplistBlockSize cfg - 1) =? 0 then
      let tBlock := SkiplistEntry
        (cast DWORD (l_tRowID (b_last b) + 1))
        (wr_pos (m_wrDoclist (b_files b)))
        (m_iLastHitlistPos (b_doc b)) in
      Builder (b_files b) (b_last b) (b_doc b) (m_tWord b) (m_dSkiplist b ++ [tBlock])
        (b_dict b) (b_dict_end b) (m_bError b)
    else b in
  put_doclist (zint (cast DWORD (tRowid - l_tRowID (b_last b)))) b.

(** [CSphHitBuilder::DoclistEndEntry].  After [SeekTo] back inside the hitlist
    the next hits overwrite what followed, [cidxDone] truncates the rest. *)
Definition DoclistEndEntry (uLastPos : Z) (b : CSphHitBuilder) : CSphHitBuilder :=
  let d := b_doc b in
  let b :=
    match m_eHitFormat cfg with
    | SPH_HIT_FORMAT_INLINE =>
        let bIgnoreHits :=
          match m_eHitless cfg with
          | SPH_HITLESS_ALL => true
          | SPH_HITLESS_SOME => negb (Z.land (w_iDocs (m_tWord b)) HITLESS_DOC_FLAG =? 0)
          | SPH_HITLESS_NONE => false
          end in
        let b := put_doclist (zint (m_uLastDocHits d)) b in
        if (m_uLastDocHits d =? 1) && negb bIgnoreHits then
          let f := b_files b in
          let b := Builder (Files (m_wrDoclist f)
                              (take (Z.to_nat (m_iLastHitlistPos d)) (m_wrHitlist f)) (m_wrSkiplist f))
            (b_last b) (b_doc b) (m_tWord b) (m_dSkiplist b) (b_dict b) (b_dict_end b) (m_bError b) in
          let b := put_doclist (zint (Z.land uLastPos 0x7FFFFF)) b in
          let b := put_doclist (zint (Z.shiftr uLastPos 23)) b in
          set_doc (DocTrack (m_iLastHitlistPos d - m_iLastHitlistDelta d) (m_iLastHitlistDelta d)
                     (m_dLastDocFields d) (m_uLastDocHits d)) b
        else
          put_doclist (zoff (m_iLastHitlistDelta d))
            (put_doclist (zint (GetMask32 (m_dLastDocFields d))) b)
    | SPH_HIT_FORMAT_PLAIN =>
        put_doclist (zint (m_uLastDocHits d))
          (put_doclist (zint (GetMask32 (m_dLastDocFields d)))
             (put_doclist (zoff (m_iLastHitlistDelta d)) b))
    end in
  let d := b_doc b in
  let b := set_doc (DocTrack (m_iLastHitlistPos d) (m_iLastHitlistDelta d) UnsetAll 0) b in
  set_word (docs_of (m_tWord b) (w_iDocs (m_tWord b) + 1)) b.

(** The loop that delta codes the skiplist, [tLast] being the entry before. *)
Fixpoint enc_skips (tLast : SkiplistEntry_t) (l : list SkiplistEntry_t) : list Z :=
  match l with
  | [] => []
  | t :: l' =>
      zint (cast DWORD (m_tBaseRowIDPlus1 t - m_tBaseRowIDPlus1 tLast - m_iSkiplistBlockSize cfg)) ++
      zoff (m_iOffset t - m_iOffset tLast - 4 * m_iSkiplistBlockSize cfg) ++
      zoff (m_iBaseHitlistPos t - m_iBaseHitlistPos tLast) ++
      enc_skips t l'
  end.

(** [CSphHitBuilder::DoclistEndList]. *)
Definition DoclistEndList (b : CSphHitBuilder) : CSphHitBuilder :=
  let b := put_doclist (zint 0) b in
  let b :=
    if Z.land (w_iDocs (m_tWord b)) HITLESS_DOC_MASK >? m_iSkiplistBlockSize cfg then
      let f := b_files b in
      let bytes := match m_dSkiplist b with [] => [] | t :: l => enc_skips t l end in
      Builder (Files (m_wrDoclist f) (m_wrHitlist f) (m_wrSkiplist f ++ bytes)) (b_last b) (b_doc b)
        (skip_of (m_tWord b) (wr_pos (m_wrSkiplist f))) (m_dSkiplist b) (b_dict b) (b_dict_end b)
        (m_bError b)
    else b in
  Builder (b_files b) (b_last b) (b_doc b) (m_tWord b) [] (b_dict b) (b_dict_end b) (m_bError b).

(** [CopyKeywordBounded]: what fits, and whether it was everything. *)
Definition CopyKeywordBounded (pSrc : list Z) : list Z * bool :=
  let n := (iKeywordBuf cfg - 4)%nat in
  (take n pSrc, bool_decide (length pSrc <= n)%nat).

Definition with_pos (p : Z) (l : lasthit) : lasthit :=
  LastHit (l_tRowID l) (l_uWordID l) p (l_szKeyword l) (m_iPrevHitPos l) (m_bGotFieldEnd l).

(** A postponed hit is written, its field end marker set by [p]. *)
Definition flush_field_end (p : Z) (b : CSphHitBuilder) : CSphHitBuilder :=
  let l := b_last b in
  set_last (LastHit (l_tRowID l) (l_uWordID l) p (l_szKeyword l) (m_iPrevHitPos l) false)
    (put_hitlist (zint (cast DWORD (p - m_iPrevHitPos l))) b).

(** [if ( bNextDoc )], first time: finish the hitlist and the doclist entry. *)
Definition finish_doc (b : CSphHitBuilder) : CSphHitBuilder :=
  let uLastPos := l_iWordPos (b_last b) in
  let b :=
    if uLastPos =? EMPTY_HIT then b
    else
      let l := b_last b in
      set_last (LastHit (l_tRowID l) (l_uWordID l) EMPTY_HIT (l_szKeyword l) EMPTY_HIT (m_bGotFieldEnd l))
        (put_hitlist (zint 0) b) in
  if l_tRowID (b_last b) =? INVALID_ROWID then b else DoclistEndEntry uLastPos b.

(** [if ( bNextWord )]: finish the doclist and emit the dictionary entry. *)
Definition finish_word (b : CSphHitBuilder) : CSphHitBuilder :=
  if l_tRowID (b_last b) =? INVALID_ROWID then b
  else
    let b := DoclistEndList b in
    let w := m_tWord b in
    let l := b_last b in
    let w := DictEntry (l_uWordID l) (l_szKeyword l) (w_iDocs w) (w_iHits w) (w_iDoclistOffset w)
      (wr_pos (m_wrDoclist (b_files b)) - w_iDoclistOffset w) (w_iSkiplistOffset w) in
    let d := b_doc b in
    Builder (b_files b)
      (LastHit INVALID_ROWID (l_uWordID l) (l_iWordPos l) (l_szKeyword l) (m_iPrevHitPos l) (m_bGotFieldEnd l))
      (DocTrack 0 (m_iLastHitlistDelta d) (m_dLastDocFields d) (m_uLastDocHits d))
      (hits_of (docs_of w 0) 0) (m_dSkiplist b)
      (if w_iDocs w =? 0 then b_dict b else b_dict b ++ [w]) (b_dict_end b) (m_bError b).

(** The trackers of the new keyword; the flag is the early return on error. *)
Definition begin_word (pHit : AggregateHit_t) (b : CSphHitBuilder) : CSphHitBuilder * bool :=
  let w := m_tWord b in
  let b := set_word (DictEntry (w_uWordID w) (w_szKeyword w) (w_iDocs w) (w_iHits w)
    (wr_pos (m_wrDoclist (b_files b))) (w_iDoclistLength w) (w_iSkiplistOffset w)) b in
  let l := b_last b in
  if bWordDict cfg then
    let '(kw, bCopied) := CopyKeywordBounded (m_szKeyword pHit) in
    let b := set_last (LastHit (l_tRowID l) (m_uWordID pHit) (l_iWordPos l) kw (m_iPrevHitPos l)
                         (m_bGotFieldEnd l)) b in
    if negb bCopied && bKeywordsV2 cfg then
      (Builder (b_files b) (b_last b) (b_doc b) (m_tWord b) (m_dSkiplist b) (b_dict b)
         (b_dict_end b) true, true)
    else (b, false)
  else
    (set_last (LastHit (l_tRowID l) (m_uWordID pHit) (l_iWordPos l) (l_szKeyword l)
                 (m_iPrevHitPos l) (m_bGotFieldEnd l)) b, false).

(** [if ( bNextDoc )], second time: begin a doclist entry. *)
Definition begin_doc (pHit : AggregateHit_t) (b : CSphHitBuilder) : CSphHitBuilder :=
  let b := DoclistBeginEntry (m_tRowID pHit) b in
  let pos := wr_pos (m_wrHitlist (b_files b)) in
  let d := b_doc b in
  let l := b_last b in
  set_last (LastHit (m_tRowID pHit) (l_uWordID l) (l_iWordPos l) (l_szKeyword l) (m_iPrevHitPos l)
              (m_bGotFieldEnd l))
    (set_doc (DocTrack pos (pos - m_iLastHitlistPos d) (m_dLastDocFields d) (m_uLastDocHits d)) b).

Definition mask_or (a m : FieldMask_t) : FieldMask_t := zip_with Z.lor a m.

(** "the hit": an aggregate hit, a duplicate, or a new position. *)
Definition add_hit (pHit : AggregateHit_t) (b : CSphHitBuilder) : CSphHitBuilder :=
  if negb (TestAll (m_dFieldMask pHit) false) then
    let iHitCount := m_iWordPos pHit in
    let d := b_doc b in
    let b := set_doc (DocTrack (m_iLastHitlistPos d) (m_iLastHitlistDelta d)
      (mask_or (m_dLastDocFields d) (m_dFieldMask pHit))
      (cast DWORD (m_uLastDocHits d + iHitCount))) b in
    let w := hits_of (m_tWord b) (w_iHits (m_tWord b) + iHitCount) in
    set_word (match m_eHitless cfg with
              | SPH_HITLESS_SOME => docs_of w (Z.lor (w_iDocs w) HITLESS_DOC_FLAG)
              | _ => w
              end) b
  else
    let pos := m_iWordPos pHit in
    let iHitPosPure := GetPosWithField pos in
    if iHitPosPure =? l_iWordPos (b_last b) then b
    else
      let b :=
        if m_bGotFieldEnd (b_last b) then
          let lp := l_iWordPos (b_last b) in
          flush_field_end (if GetField pos =? GetField lp then lp else SetEndMarker lp) b
        else b in
      let l := b_last b in
      let b :=
        if iHitPosPure =? pos then
          set_last (with_pos pos l) (put_hitlist (zint (cast DWORD (pos - l_iWordPos l))) b)
        else
          set_last (LastHit (l_tRowID l) (l_uWordID l) (GetPosWithField pos) (l_szKeyword l)
                      (l_iWordPos l) true) b in
      let d := b_doc b in
      let b := set_doc (DocTrack (m_iLastHitlistPos d) (m_iLastHitlistDelta d)
        (Set_ (m_dLastDocFields d) (GetField pos)) (cast DWORD (m_uLastDocHits d + 1))) b in
      set_word (hits_of (m_tWord b) (w_iHits (m_tWord b) + 1)) b.

(** [CSphHitBuilder::cidxHit]. *)
Definition cidxHit (pHit : AggregateHit_t) (b : CSphHitBuilder) : CSphHitBuilder :=
  if m_bError b then b
  else
    let bNextWord := negb (l_uWordID (b_last b) =? m_uWordID pHit) ||
      (bWordDict cfg && negb (bool_decide (l_szKeyword (b_last b) = m_szKeyword pHit))) in
    let bNextDoc := bNextWord || negb (l_tRowID (b_last b) =? m_tRowID pHit) in
    let b :=
      if m_bGotFieldEnd (b_last b) && bNextDoc
      then flush_field_end (SetEndMarker (l_iWordPos (b_last b))) b else b in
    let b := if bNextDoc then finish_doc b else b in
    let '(b, stop) :=
      if bNextWord then
        let b := finish_word b in
        if m_iWordPos pHit =? EMPTY_HIT then
          (Builder (b_files b) (b_last b) (b_doc b) (m_tWord b) (m_dSkiplist b) (b_dict b)
             (Some (wr_pos (m_wrDoclist (b_files b)))) (m_bError b), true)
        else begin_word pHit b
      else (b, false) in
    if (stop : bool) then b
    else
      let b := if bNextDoc then begin_doc pHit b else b in
      add_hit pHit b.

(** The constructor and [HitReset], after [CreateIndexFiles] has put the dummy
    byte into each file. *)
Definition init_builder : CSphHitBuilder :=
  Builder (Files [1] [1] [1]) (LastHit INVALID_ROWID 0 EMPTY_HIT [] 0 false)
    (DocTrack 0 0 UnsetAll 0) (DictEntry 0 [] 0 0 0 0 0) [] [] None false.
End Builder.

(** The end of [DiskIndexQwordSetup_c::Setup], for a keyword whose dictionary
    entry was found: the readers over the files and the skiplist, which is read
    anew (the cache in front of it holds what was read before). *)
Definition DiskIndexQwordSetup (cfg : settings) (f : files) (tRes : DictEntry_t) : option DiskIndexQword_c :=
  let iLayoutDocs := Z.land (w_iDocs tRes) HITLESS_DOC_MASK in
  let iDocs :=
    match m_eHitless cfg with
    | SPH_HITLESS_SOME => Z.land (w_iDocs tRes) HITLESS_DOC_MASK
    | _ => w_iDocs tRes
    end in
  let bHasHitlist :=
    match m_eHitless cfg with
    | SPH_HITLESS_NONE => true
    | SPH_HITLESS_SOME => Z.land (w_iDocs tRes) HITLESS_DOC_FLAG =? 0
    | SPH_HITLESS_ALL => false
    end in
  pSkipData ←
    (if iLayoutDocs >? m_iSkiplistBlockSize cfg then
       l ← SkipData_Read (SeekTo (m_wrSkiplist f) (w_iSkiplistOffset tRes)) (w_iDoclistOffset tRes)
             iDocs (m_iSkiplistBlockSize cfg);
       Some (Some l)
     else Some None);
  let c := Setup (match m_eHitFormat cfg with SPH_HIT_FORMAT_INLINE => true | _ => false end)
             bHasHitlist (m_wrDoclist f) (m_wrHitlist f) pSkipData in
  Some (DiskIndexQword c
    (DocState (SeekTo (m_wrDoclist f) (w_iDoclistOffset tRes)) INVALID_ROWID UnsetAll 0 0 0 false (-1))
    (HitState (m_wrHitlist f) 0 EMPTY_HIT 0) iDocs).
End HitBuilder.
