(* ===== verification/HitBuilderOk.v ===== *)
(** * The posting files hold what was indexed

    The hits of a keyword are written by [CSphHitBuilder] and read back by
    [DiskIndexQword_c]: rows, hit counts, fields and positions survive, for the
    plain and the inline format, with the skiplist the builder wrote. *)

From S2P Require Import Prelude Zip Hits Span SearchNode ExtTerm Doclist DoclistOk HitBuilder.
Import Zip Hitman FieldMask Span Doclist DoclistOk HitBuilder.

Module HitBuilderOk.

Abbreviation INVALID_ROWID := SearchNode.INVALID_ROWID.

(** ** The hits of a document *)

(** Consecutive positions: ascending, different also without the field end
    marker, and a marked position is the last one of its field. *)
Definition adjacent (p p' : Z) : Prop :=
  p < p' /\ GetPosWithField p <> GetPosWithField p' /\ (IsEnd p = true -> GetField p <> GetField p').

Fixpoint hits_from (p : Z) (l : list Z) : Prop :=
  match l with [] => True | p' :: l' => in_type DWORD p' /\ adjacent p p' /\ hits_from p' l' end.

(** A document of the keyword: its row and its hit positions, at least one. *)
Record doc := Doc { d_row : Z; d_first : Z; d_more : list Z }.

Definition d_hits (d : doc) : list Z := d_first d :: d_more d.

(** [adjacent 0]: the first position is not [EMPTY_HIT]. *)
Definition doc_ok (d : doc) : Prop :=
  hits_from EMPTY_HIT (d_hits d) /\ Z.of_nat (length (d_hits d)) < 2 ^ 32.

Fixpoint enc_hits (prev : Z) (l : list Z) : list Z :=
  match l with [] => [] | p :: l' => zint (p - prev) ++ enc_hits p l' end.

Definition fields_of (l : list Z) : FieldMask_t := fold_left Set_ (map GetField l) UnsetAll.

Fixpoint last_hit (p : Z) (l : list Z) : Z := match l with [] => p | p' :: l' => last_hit p' l' end.

(** The hits before the last one. *)
Definition init_hits (l : list Z) : list Z := removelast l.

(** ** The state of the builder *)

Lemma enc_hits_app prev l1 l2 :
  enc_hits prev (l1 ++ l2) = enc_hits prev l1 ++ enc_hits (last_hit prev l1) l2.
Proof. revert prev. induction l1 as [|p l1 IH]; intros prev; simpl; [done|]. by rewrite IH, app_assoc. Qed.

Lemma last_hit_app p l1 l2 : last_hit p (l1 ++ l2) = last_hit (last_hit p l1) l2.
Proof. revert p. induction l1; intros p; simpl; auto. Qed.

Lemma fields_of_snoc l p : fields_of (l ++ [p]) = Set_ (fields_of l) (GetField p).
Proof. unfold fields_of. by rewrite map_app, fold_left_app. Qed.

Lemma hits_from_app p l1 l2 :
  hits_from p (l1 ++ l2) <-> hits_from p l1 /\ hits_from (last_hit p l1) l2.
Proof. revert p. induction l1 as [|p' l1 IH]; intros p; simpl; [tauto|]. rewrite IH. tauto. Qed.

(** Deltas of ascending positions are written as they are. *)
Lemma hit_delta p p' : in_type DWORD p' -> 0 <= p < p' -> cast DWORD (p' - p) = p' - p.
Proof.
  unfold in_type. cbn [is_signed DWORD bits]. intros. apply cast_id; [done|].
  unfold in_type. cbn [is_signed DWORD bits]. lia.
Qed.

Lemma hits_from_nonneg p l : 0 <= p -> hits_from p l -> 0 <= last_hit p l /\ (l <> [] -> in_type DWORD (last_hit p l)).
Proof.
  revert p. induction l as [|p' l IH]; intros p Hp; simpl; [done|]. intros (H1 & (H2 & _) & H3).
  destruct (IH p' ltac:(lia) H3) as [? ?]. split; [done|]. intros _. destruct l; auto.
Qed.

Section Word.
Variable cfg : settings.
Variable c : setup.
Hypothesis Hless : m_eHitless cfg = SPH_HITLESS_NONE.
Hypothesis Hfmt : INLINE_HITS c = match m_eHitFormat cfg with SPH_HIT_FORMAT_INLINE => true | _ => false end.
Hypothesis Hhits : m_bHasHitlist c = true.

(** The keyword, and the files when it begins. *)
Variables (uWordID : Z) (kw : list Z) (D0 S0 : list Z) (dict0 : list DictEntry_t) (dend : option Z).

Definition hit_of (row p : Z) : AggregateHit_t := AggregateHit row uWordID kw p UnsetAll.

(** The skiplist for the entries [done], oldest first, a new block every
    [m_iSkiplistBlockSize] documents. *)
Fixpoint skips (n : nat) (prev hp : Z) (off : nat) (es : list entry) : list SkiplistEntry_t :=
  match es with
  | [] => []
  | e :: es' =>
      (if Z.land (Z.of_nat n) (m_iSkiplistBlockSize cfg - 1) =? 0
       then [SkiplistEntry (prev + 1) (Z.of_nat off) hp] else []) ++
      skips (S n) (e_row e) (next_hp c hp e) (off + length (enc_entry c prev e)) es'
  end.

(** The entry of a document whose hits begin [delta] after those before. *)
Definition entry_of (d : doc) (delta : Z) : entry :=
  Entry (d_row d) (Z.of_nat (length (d_hits d))) (GetMask32 (fields_of (d_hits d)))
    (last_hit 0 (d_hits d)) delta.

(** Between two documents of the keyword, [done] written. *)
Record closed_doc (b : CSphHitBuilder) (done : list entry) (H : list Z) (nhits : Z) : Prop := {
  cd_doclist : m_wrDoclist (b_files b) = D0 ++ enc_pre c (-1) done;
  cd_hitlist : m_wrHitlist (b_files b) = H;
  cd_skip : m_wrSkiplist (b_files b) = S0;
  cd_row : l_tRowID (b_last b) = cast DWORD (last_of (-1) done);
  cd_word : l_uWordID (b_last b) = uWordID;
  cd_kw : bWordDict cfg = true -> l_szKeyword (b_last b) = kw;
  cd_pos : l_iWordPos (b_last b) = EMPTY_HIT;
  cd_end : m_bGotFieldEnd (b_last b) = false;
  cd_hpos : m_iLastHitlistPos (b_doc b) = hp_after c 0 done;
  cd_fields : m_dLastDocFields (b_doc b) = UnsetAll;
  cd_dochits : m_uLastDocHits (b_doc b) = 0;
  cd_docs : w_iDocs (m_tWord b) = Z.of_nat (length done);
  cd_hits : w_iHits (m_tWord b) = nhits;
  cd_off : w_iDoclistOffset (m_tWord b) = wr_pos D0;
  cd_skips : m_dSkiplist b = skips 0 (-1) 0 (length D0) done;
  cd_dict : b_dict b = dict0;
  cd_dend : b_dict_end b = dend;
  cd_err : m_bError b = false
}.

(** Inside a document, after the hits [all]: [written] are in the hitlist, the
    last one may be pending. *)
Record in_doc (b : CSphHitBuilder) (done : list entry) (H : list Z) (nhits row : Z)
    (all written : list Z) (lastpos : Z) (pending : bool) : Prop := {
  od_doclist : m_wrDoclist (b_files b) = D0 ++ enc_pre c (-1) done ++ zint (row - last_of (-1) done);
  od_hitlist : m_wrHitlist (b_files b) = H ++ enc_hits 0 written;
  od_skip : m_wrSkiplist (b_files b) = S0;
  od_row : l_tRowID (b_last b) = row;
  od_word : l_uWordID (b_last b) = uWordID;
  od_kw : bWordDict cfg = true -> l_szKeyword (b_last b) = kw;
  od_pos : l_iWordPos (b_last b) = lastpos;
  od_prev : pending = true -> m_iPrevHitPos (b_last b) = last_hit 0 written;
  od_end : m_bGotFieldEnd (b_last b) = pending;
  od_hpos : m_iLastHitlistPos (b_doc b) = Z.of_nat (length H);
  od_delta : m_iLastHitlistDelta (b_doc b) = Z.of_nat (length H) - hp_after c 0 done;
  od_fields : m_dLastDocFields (b_doc b) = fields_of all;
  od_dochits : m_uLastDocHits (b_doc b) = Z.of_nat (length all);
  od_docs : w_iDocs (m_tWord b) = Z.of_nat (length done);
  od_hits : w_iHits (m_tWord b) = nhits + Z.of_nat (length all);
  od_off : w_iDoclistOffset (m_tWord b) = wr_pos D0;
  od_skips : m_dSkiplist b =
    skips 0 (-1) 0 (length D0) done ++
    (if Z.land (Z.of_nat (length done)) (m_iSkiplistBlockSize cfg - 1) =? 0
     then [SkiplistEntry (last_of (-1) done + 1) (Z.of_nat (length D0 + length (enc_pre c (-1) done)))
             (hp_after c 0 done)] else []);
  od_dict : b_dict b = dict0;
  od_dend : b_dict_end b = dend;
  od_err : m_bError b = false
}.

(** The state after a hit [p], and after a pending hit is written. *)
Definition open_doc b done H nhits row hs p : Prop :=
  in_doc b done H nhits row (hs ++ [p]) (if IsEnd p then hs else hs ++ [p])
    (GetPosWithField p) (IsEnd p).
Definition flushed_doc b done H nhits row hs p : Prop :=
  in_doc b done H nhits row (hs ++ [p]) (hs ++ [p]) p false.

Lemma flush_open b done H nhits row hs p q :
  open_doc b done H nhits row hs p -> hits_from 0 (hs ++ [p]) -> (IsEnd p = true -> q = p) ->
  flushed_doc (if m_bGotFieldEnd (b_last b) then flush_field_end q b else b) done H nhits row hs p.
Proof.
  intros O Hh Hq. apply hits_from_app in Hh as [Hh1 (Dp & (Lp & _) & _)].
  destruct (hits_from_nonneg 0 hs ltac:(lia) Hh1) as [Hn _].
  destruct (pos_field_end p Dp) as (F1 & F2 & F3). unfold open_doc, flushed_doc in *.
  rewrite (od_end _ _ _ _ _ _ _ _ _ O). destruct (IsEnd p) eqn:Ep.
  - rewrite (Hq eq_refl). destruct O. unfold flush_field_end. rewrite od_prev0 by done. split; simpl; try done.
    rewrite od_hitlist0, enc_hits_app, <- app_assoc. simpl. by rewrite app_nil_r, hit_delta by done.
  - by rewrite F3 in O.
Qed.

(** A new position in a document with nothing pending. *)
Definition new_hit (p : Z) (b : CSphHitBuilder) : CSphHitBuilder :=
  let l := b_last b in
  let b :=
    if GetPosWithField p =? p then
      set_last (with_pos p l) (put_hitlist (zint (cast DWORD (p - l_iWordPos l))) b)
    else
      set_last (LastHit (l_tRowID l) (l_uWordID l) (GetPosWithField p) (l_szKeyword l)
                  (l_iWordPos l) true) b in
  let d := b_doc b in
  let b := set_doc (DocTrack (m_iLastHitlistPos d) (m_iLastHitlistDelta d)
    (Set_ (m_dLastDocFields d) (GetField p)) (cast DWORD (m_uLastDocHits d + 1))) b in
  set_word (hits_of (m_tWord b) (w_iHits (m_tWord b) + 1)) b.

Lemma new_hit_ok b done H nhits row hs p :
  in_doc b done H nhits row hs hs (last_hit 0 hs) false -> hits_from 0 (hs ++ [p]) ->
  Z.of_nat (length hs) + 1 < 2 ^ 32 -> open_doc (new_hit p b) done H nhits row hs p.
Proof.
  intros O Hh Hlen. apply hits_from_app in Hh as [Hh1 (Dp & (Lp & _) & _)].
  destruct (hits_from_nonneg 0 hs ltac:(lia) Hh1) as [Hn _].
  destruct (pos_field_end p Dp) as (F1 & F2 & F3).
  assert (cast DWORD (Z.of_nat (length hs) + 1) = Z.of_nat (length (hs ++ [p]))) as Ec.
  { rewrite length_app. simpl. rewrite cast_id; [lia|done|]. unfold in_type. cbn [is_signed DWORD bits]. lia. }
  destruct O. unfold open_doc, new_hit. destruct (IsEnd p).
  - destruct F3 as [_ F3]. rewrite (proj2 (Z.eqb_neq _ _) F3).
    split; simpl; rewrite ?od_dochits0, ?od_fields0, ?fields_of_snoc, ?Ec; try done.
    rewrite od_hits0, length_app. simpl. lia.
  - rewrite F3, Z.eqb_refl.
    split; simpl; rewrite ?od_dochits0, ?od_fields0, ?fields_of_snoc, ?Ec; try done.
    + rewrite od_hitlist0, od_pos0, enc_hits_app, <- app_assoc, hit_delta by done. simpl.
      by rewrite app_nil_r.
    + rewrite od_hits0, length_app. simpl. lia.
Qed.

(** A further hit of the open document. *)
Lemma add_hit_open b done H nhits row hs p p' :
  open_doc b done H nhits row hs p -> hits_from 0 ((hs ++ [p]) ++ [p']) ->
  Z.of_nat (length (hs ++ [p])) + 1 < 2 ^ 32 ->
  open_doc (add_hit cfg (hit_of row p') b) done H nhits row (hs ++ [p]) p'.
Proof.
  intros O Hh Hlen. pose proof Hh as Hh'. apply hits_from_app in Hh' as [Hh1 (Dp' & Adj & _)].
  rewrite last_hit_app in Adj. simpl in Adj. destruct Adj as (Hlt & Hpure & Hfld).
  pose proof (proj2 (proj1 (hits_from_app 0 hs [p]) Hh1)) as (Dp & _ & _).
  destruct (pos_field_end p Dp) as (F1 & F2 & F3).
  unfold add_hit, hit_of. cbn [m_dFieldMask m_iWordPos].
  change (TestAll UnsetAll false) with true. cbn [negb].
  rewrite (od_pos _ _ _ _ _ _ _ _ _ O), (proj2 (Z.eqb_neq _ _)) by congruence.
  set (q := if GetField p' =? _ then _ else _).
  assert (IsEnd p = true -> q = p) as Hq.
  { intros Ep. subst q. rewrite Ep in F3. rewrite F1, (proj2 (Z.eqb_neq _ _)); [apply F3|].
    intros E. by apply (Hfld Ep). }
  pose proof (flush_open _ _ _ _ _ _ _ q O Hh1 Hq) as O'.
  apply (new_hit_ok _ _ _ _ _ _ p'); [|done|done].
  rewrite last_hit_app. exact O'.
Qed.

(** ** From document to document *)

Lemma skips_snoc n prev hp off es e :
  skips n prev hp off (es ++ [e]) =
  skips n prev hp off es ++
  (if Z.land (Z.of_nat (n + length es)) (m_iSkiplistBlockSize cfg - 1) =? 0
   then [SkiplistEntry (last_of prev es + 1) (Z.of_nat (off + length (enc_pre c prev es))) (hp_after c hp es)]
   else []).
Proof.
  revert n prev hp off. induction es as [|e' es IH]; intros n prev hp off; simpl.
  - rewrite Nat.add_0_r, Nat.add_0_r, app_nil_r. done.
  - rewrite IH, <- app_assoc. f_equal. f_equal.
    rewrite length_app, <- Nat.add_succ_comm, <- (Nat.add_assoc off). done.
Qed.

Lemma begin_doc_ok b done H nhits row p :
  closed_doc b done H nhits -> -1 <= last_of (-1) done < row -> row < INVALID_ROWID ->
  in_doc (begin_doc cfg (hit_of row p) b) done H nhits row [] [] (last_hit 0 []) false.
Proof.
  intros C Hr Hi. destruct (row_delta (last_of (-1) done) row Hr Hi) as (D1 & D2 & D3).
  assert (cast DWORD (row - cast DWORD (last_of (-1) done)) = row - last_of (-1) done) as E1.
  { etransitivity; [|by apply (cast_id DWORD (row - last_of (-1) done))]. apply cast_eq.
    rewrite Zminus_mod, cast_cong, <- Zminus_mod. done. }
  assert (cast DWORD (cast DWORD (last_of (-1) done) + 1) = last_of (-1) done + 1) as E2.
  { etransitivity; [|apply (cast_id DWORD (last_of (-1) done + 1)); [done|]].
    - apply cast_eq. rewrite Zplus_mod, cast_cong, <- Zplus_mod. done.
    - unfold in_type. unfold SearchNode.INVALID_ROWID in Hi. cbn [is_signed DWORD bits]. lia. }
  destruct C. unfold begin_doc, DoclistBeginEntry.
  rewrite cd_docs0.
  destruct (Z.land (Z.of_nat (length done)) (m_iSkiplistBlockSize cfg - 1) =? 0) eqn:Es;
    split; simpl; rewrite ?cd_doclist0, ?cd_hitlist0, ?cd_row0, ?cd_hpos0, ?cd_fields0, ?cd_dochits0,
      ?cd_hits0, ?cd_skips0, ?E1, ?E2, ?Es, ?app_nil_r; unfold wr_pos; rewrite ?length_app;
      try done; try lia; by rewrite <- app_assoc.
Qed.

Lemma first_hit_ok b done H nhits row p :
  in_doc b done H nhits row [] [] 0 false -> hits_from 0 [p] ->
  open_doc (add_hit cfg (hit_of row p) b) done H nhits row [] p.
Proof.
  intros O Hh. pose proof Hh as (_ & (_ & Hne & _) & _).
  unfold add_hit, hit_of. cbn [m_dFieldMask m_iWordPos].
  change (TestAll UnsetAll false) with true. cbn [negb].
  rewrite (od_pos _ _ _ _ _ _ _ _ _ O), (proj2 (Z.eqb_neq _ _)) by (intros E; by rewrite E in Hne).
  rewrite (od_end _ _ _ _ _ _ _ _ _ O). by apply (new_hit_ok b done H nhits row [] p).
Qed.

(** The entry and the hitlist bytes of a document. *)
Definition mk_entry (row : Z) (hs : list Z) (done : list entry) (H : list Z) : entry :=
  Entry row (Z.of_nat (length hs)) (GetMask32 (fields_of hs)) (last_hit 0 hs)
    (Z.of_nat (length H) - hp_after c 0 done).

Definition hitlist_after (H hs : list Z) (e : entry) : list Z :=
  if inlined c e then H else H ++ enc_hits 0 hs ++ zint 0.

Lemma finish_doc_ok b done H nhits row hs p :
  flushed_doc b done H nhits row hs p -> 0 < p -> 0 <= row < INVALID_ROWID ->
  let e := mk_entry row (hs ++ [p]) done H in
  closed_doc (finish_doc cfg b) (done ++ [e]) (hitlist_after H (hs ++ [p]) e)
    (nhits + Z.of_nat (length (hs ++ [p]))).
Proof.
  intros O Hp Hr e. unfold flushed_doc in O.
  assert (last_of (-1) (done ++ [e]) = row) as El by (by rewrite last_of_app).
  assert (cast DWORD row = row) as Er.
  { apply cast_id; [done|]. unfold in_type. unfold SearchNode.INVALID_ROWID in Hr. cbn [is_signed DWORD bits]. lia. }
  assert (enc_pre c (-1) (done ++ [e]) = enc_pre c (-1) done ++ zint (row - last_of (-1) done) ++ enc_body c e) as Ee.
  { rewrite enc_pre_app. simpl. rewrite app_nil_r. done. }
  assert (e_lastpos e = p) as Elp by (simpl; by rewrite last_hit_app).
  assert (inlined c e = INLINE_HITS c && (Z.of_nat (length (hs ++ [p])) =? 1)) as Ei
    by (unfold inlined; rewrite Hhits; apply andb_true_r).
  assert (skips 0 (-1) 0 (length D0) (done ++ [e]) = m_dSkiplist b) as Esk
    by (rewrite skips_snoc; simpl; by rewrite (od_skips _ _ _ _ _ _ _ _ _ O)).
  assert (∀ (x : bool), x = inlined c e ->
    hp_after c 0 (done ++ [e]) = if x then hp_after c 0 done else Z.of_nat (length H)) as Ehp.
  { intros x ->. rewrite hp_after_app. simpl. unfold next_hp. destruct (inlined c e); simpl; lia. }
  assert (length (done ++ [e]) = S (length done)) as Eln by (rewrite length_app; simpl; lia).
  destruct O. unfold finish_doc. rewrite od_pos0, (proj2 (Z.eqb_neq p EMPTY_HIT)) by (unfold EMPTY_HIT; lia).
  cbn [b_last set_last put_hitlist l_tRowID].
  rewrite od_row0, (proj2 (Z.eqb_neq row _)) by (unfold HitBuilder.INVALID_ROWID; lia).
  unfold DoclistEndEntry. cbn [b_doc b_files set_last put_hitlist put_doclist set_doc].
  rewrite Hless. cbn [negb]. rewrite andb_true_r, od_dochits0, od_fields0, od_hpos0, od_delta0.
  unfold hitlist_after. unfold enc_body in Ee.
  destruct (m_eHitFormat cfg); rewrite Hfmt in *; cbn [andb] in *.
  - rewrite Ei. specialize (Ehp false (eq_sym Ei)).
    split; simpl; rewrite ?El, ?Er, ?Ehp, ?Esk, ?Ee, ?Eln; try done; try lia.
    + rewrite od_doclist0. simpl. by rewrite <- !app_assoc.
    + rewrite od_hitlist0. by rewrite <- !app_assoc.
  - rewrite Ei in *. destruct (Z.of_nat (length (hs ++ [p])) =? 1) eqn:E1.
    + specialize (Ehp true eq_refl).
      split; simpl; rewrite ?El, ?Er, ?Ehp, ?Esk, ?Ee, ?Eln; try done; try lia.
      * rewrite od_doclist0, Elp. simpl. by rewrite <- !app_assoc.
      * rewrite od_hitlist0, <- app_assoc, Nat2Z.id. apply take_app_length.
    + specialize (Ehp false eq_refl).
      split; simpl; rewrite ?El, ?Er, ?Ehp, ?Esk, ?Ee, ?Eln; try done; try lia.
      * rewrite od_doclist0. simpl. by rewrite <- !app_assoc.
      * rewrite od_hitlist0. by rewrite <- !app_assoc.
Qed.

(** ** The hits of a keyword *)

Lemma same_word b done H nhits row all written lastpos pending p row' :
  in_doc b done H nhits row all written lastpos pending ->
  cidxHit cfg (hit_of row' p) b =
  if negb (row =? row') then
    add_hit cfg (hit_of row' p)
      (begin_doc cfg (hit_of row' p)
         (finish_doc cfg
            (if m_bGotFieldEnd (b_last b)
             then flush_field_end (SetEndMarker (l_iWordPos (b_last b))) b else b)))
  else add_hit cfg (hit_of row' p) b.
Proof.
  intros O. destruct O. unfold cidxHit. rewrite od_err0, od_word0, od_row0. cbn [hit_of m_uWordID m_szKeyword m_tRowID].
  rewrite Z.eqb_refl. cbn [negb orb].
  assert (bWordDict cfg && negb (bool_decide (l_szKeyword (b_last b) = kw)) = false) as ->.
  { destruct (bWordDict cfg); [|done]. rewrite (od_kw0 eq_refl), bool_decide_true by done. done. }
  cbn [orb]. destruct (row =? row'); cbn [negb]; [by rewrite andb_false_r|].
  by rewrite andb_true_r.
Qed.

(** The hits of the open document, after the first. *)
Lemma more_hits_ok l b done H nhits row hs p :
  open_doc b done H nhits row hs p -> hits_from 0 ((hs ++ [p]) ++ l) ->
  Z.of_nat (length ((hs ++ [p]) ++ l)) < 2 ^ 32 ->
  ∃ hs' p', hs' ++ [p'] = (hs ++ [p]) ++ l /\
    open_doc (fold_left (λ b p, cidxHit cfg (hit_of row p) b) l b) done H nhits row hs' p'.
Proof.
  revert b hs p. induction l as [|p' l IH]; intros b hs p O Hh Hlen.
  { exists hs, p. rewrite app_nil_r. done. }
  cbn [fold_left]. rewrite (same_word _ _ _ _ _ _ _ _ _ p' row O), Z.eqb_refl. cbn [negb].
  assert ((hs ++ [p]) ++ p' :: l = ((hs ++ [p]) ++ [p']) ++ l) as E by (by rewrite <- (app_assoc _ [p'])).
  rewrite E in *. apply (IH _ (hs ++ [p]) p'); [|done|done].
  apply add_hit_open; [done| |].
  - by apply hits_from_app in Hh as [? _].
  - rewrite !length_app in *. simpl in *. lia.
Qed.

(** A document after the builder has closed the one before. *)
Lemma doc_hits_ok b done H nhits d :
  closed_doc b done H nhits -> doc_ok d -> -1 <= last_of (-1) done < d_row d -> d_row d < INVALID_ROWID ->
  ∃ hs p, hs ++ [p] = d_hits d /\
    open_doc (fold_left (λ b p, cidxHit cfg (hit_of (d_row d) p) b) (d_more d)
      (add_hit cfg (hit_of (d_row d) (d_first d)) (begin_doc cfg (hit_of (d_row d) (d_first d)) b)))
      done H nhits (d_row d) hs p.
Proof.
  intros C [Hh Hlen] H1 H2. unfold d_hits in *.
  pose proof (proj1 (hits_from_app 0 [d_first d] (d_more d)) Hh) as [Hf _].
  apply (more_hits_ok (d_more d) _ done H nhits (d_row d) [] (d_first d)); [|done|done].
  apply first_hit_ok; [|done]. apply (begin_doc_ok _ _ _ _ _ (d_first d) C H1 H2).
Qed.

(** What the documents become, after [done] and the hitlist [H]. *)
Fixpoint build (done : list entry) (H : list Z) (ds : list doc) : list entry * list Z :=
  match ds with
  | [] => (done, H)
  | d :: ds' =>
      let e := mk_entry (d_row d) (d_hits d) done H in
      build (done ++ [e]) (hitlist_after H (d_hits d) e) ds'
  end.

Fixpoint rows_ok (prev : Z) (ds : list doc) : Prop :=
  match ds with
  | [] => True
  | d :: ds' => prev < d_row d < INVALID_ROWID /\ doc_ok d /\ rows_ok (d_row d) ds'
  end.

Definition doc_stream (d : doc) : list AggregateHit_t := map (hit_of (d_row d)) (d_hits d).

Definition total_hits (ds : list doc) : Z := Z.of_nat (length (concat (map d_hits ds))).

Definition feed (hits : list AggregateHit_t) (b : CSphHitBuilder) : CSphHitBuilder :=
  fold_left (λ b h, cidxHit cfg h b) hits b.

(** The builder state with the open document finished. *)
Definition settle (b : CSphHitBuilder) : CSphHitBuilder :=
  finish_doc cfg (if m_bGotFieldEnd (b_last b)
                  then flush_field_end (SetEndMarker (l_iWordPos (b_last b))) b else b).

Lemma settle_ok b done H nhits row hs p d :
  open_doc b done H nhits row hs p -> hs ++ [p] = d_hits d -> row = d_row d ->
  doc_ok d -> 0 <= row < INVALID_ROWID ->
  let e := mk_entry (d_row d) (d_hits d) done H in
  closed_doc (settle b) (done ++ [e]) (hitlist_after H (d_hits d) e)
    (nhits + Z.of_nat (length (d_hits d))).
Proof.
  intros O E -> [Hh _] Hr e. pose proof Hh as Hh'. rewrite <- E in Hh'.
  apply hits_from_app in Hh' as [Hh1 (Dp & (Lp & _) & _)].
  destruct (hits_from_nonneg EMPTY_HIT hs ltac:(unfold EMPTY_HIT; lia) Hh1) as [Hn _].
  unfold e. rewrite <- E. apply finish_doc_ok; [|lia|done].
  apply flush_open; [done|by rewrite E|]. intros Ep.
  destruct (pos_field_end p Dp) as (_ & _ & F3). rewrite Ep in F3.
  rewrite (od_pos _ _ _ _ _ _ _ _ _ O). apply F3.
Qed.

Lemma feed_doc d b : feed (doc_stream d) b =
  fold_left (λ b p, cidxHit cfg (hit_of (d_row d) p) b) (d_more d)
    (cidxHit cfg (hit_of (d_row d) (d_first d)) b).
Proof.
  unfold feed, doc_stream, d_hits. cbn [map fold_left]. generalize (cidxHit cfg (hit_of (d_row d) (d_first d)) b).
  induction (d_more d) as [|p l IH]; intros b'; [done|]. simpl. apply IH.
Qed.

Lemma feed_app l1 l2 b : feed (l1 ++ l2) b = feed l2 (feed l1 b).
Proof. apply fold_left_app. Qed.

Lemma docs_ok ds b done H nhits d hs p :
  open_doc b done H nhits (d_row d) hs p -> hs ++ [p] = d_hits d -> doc_ok d ->
  0 <= d_row d < INVALID_ROWID -> rows_ok (d_row d) ds ->
  let '(es, H') := build done H (d :: ds) in
  closed_doc (settle (feed (concat (map doc_stream ds)) b)) es H' (nhits + total_hits (d :: ds)).
Proof.
  revert b done H nhits d hs p. induction ds as [|d' ds IH]; intros b done H nhits d hs p O E Hd Hr Hds.
  { cbn [build]. unfold total_hits. simpl. rewrite app_nil_r.
    exact (settle_ok _ _ _ _ _ _ _ d O E eq_refl Hd Hr). }
  destruct Hds as (Hr' & Hd' & Hds). cbn [map concat]. rewrite feed_app, feed_doc.
  rewrite (same_word _ _ _ _ _ _ _ _ _ (d_first d') (d_row d') O).
  rewrite (proj2 (Z.eqb_neq (d_row d) (d_row d'))) by lia. cbn [negb].
  pose proof (settle_ok _ _ _ _ _ _ _ d O E eq_refl Hd Hr) as C. cbv zeta in C.
  set (e := mk_entry (d_row d) (d_hits d) done H) in *.
  destruct (doc_hits_ok _ _ _ _ d' C Hd') as (hs' & p' & E' & O').
  { rewrite last_of_app. simpl. lia. }
  { lia. }
  specialize (IH _ _ _ _ _ _ _ O' E' Hd' ltac:(lia) Hds).
  change (build done H (d :: d' :: ds)) with (build (done ++ [e]) (hitlist_after H (d_hits d) e) (d' :: ds)).
  destruct (build (done ++ [e]) (hitlist_after H (d_hits d) e) (d' :: ds)) as [es H'].
  replace (nhits + total_hits (d :: d' :: ds)) with
    (nhits + Z.of_nat (length (d_hits d)) + total_hits (d' :: ds)); [exact IH|].
  unfold total_hits. cbn [map concat]. rewrite (length_app (d_hits d)). lia.
Qed.

(** ** From keyword to keyword *)

Definition word_entry (es : list entry) (nhits : Z) (w : DictEntry_t) : DictEntry_t :=
  let D1 := D0 ++ enc c (-1) es in
  DictEntry uWordID (w_szKeyword w) (Z.of_nat (length es)) nhits (wr_pos D0)
    (wr_pos D1 - wr_pos D0) (w_iSkiplistOffset w).

(** The skiplist bytes of a keyword, written for more than one block. *)
Definition skip_bytes (es : list entry) : list Z :=
  if Z.of_nat (length es) >? m_iSkiplistBlockSize cfg then
    match skips 0 (-1) 0 (length D0) es with [] => [] | t :: l => enc_skips cfg t l end
  else [].
End Word.

(** Before a keyword: nothing is open. *)
Record fresh (b : CSphHitBuilder) : Prop := {
  fr_row : l_tRowID (b_last b) = INVALID_ROWID;
  fr_pos : l_iWordPos (b_last b) = EMPTY_HIT;
  fr_end : m_bGotFieldEnd (b_last b) = false;
  fr_hpos : m_iLastHitlistPos (b_doc b) = 0;
  fr_fields : m_dLastDocFields (b_doc b) = UnsetAll;
  fr_dochits : m_uLastDocHits (b_doc b) = 0;
  fr_docs : w_iDocs (m_tWord b) = 0;
  fr_hits : w_iHits (m_tWord b) = 0;
  fr_skips : m_dSkiplist b = [];
  fr_err : m_bError b = false
}.

Section Words.
Variable cfg : settings.
Variable c : setup.
Hypothesis Hless : m_eHitless cfg = SPH_HITLESS_NONE.
Hypothesis Hfmt : INLINE_HITS c = match m_eHitFormat cfg with SPH_HIT_FORMAT_INLINE => true | _ => false end.
Hypothesis Hhits : m_bHasHitlist c = true.

(** A keyword of the index. *)
Record word := Word { wd_id : Z; wd_kw : list Z; wd_first : doc; wd_more : list doc }.
Definition wd_docs (w : word) : list doc := wd_first w :: wd_more w.

Definition word_ok (w : word) : Prop :=
  rows_ok (-1) (wd_docs w) /\ (bWordDict cfg = true -> (length (wd_kw w) <= iKeywordBuf cfg - 4)%nat).

(** The keyword differs from the one before. *)
Definition new_word (w : word) (b : CSphHitBuilder) : Prop :=
  l_uWordID (b_last b) <> wd_id w \/ (bWordDict cfg = true /\ l_szKeyword (b_last b) <> wd_kw w).

Lemma fresh_finish b : fresh b -> finish_word cfg (settle cfg b) = b.
Proof.
  intros [F1 F2 F3 F4 F5 F6 F7 F8 F9 F10]. unfold settle. rewrite F3. unfold finish_doc.
  rewrite F2, Z.eqb_refl. change (HitBuilder.INVALID_ROWID) with INVALID_ROWID. rewrite F1, Z.eqb_refl.
  unfold finish_word. change (HitBuilder.INVALID_ROWID) with INVALID_ROWID. by rewrite F1, Z.eqb_refl.
Qed.

Lemma start_word b w :
  fresh b -> word_ok w ->
  ∃ b1, begin_word cfg (hit_of (wd_id w) (wd_kw w) (d_row (wd_first w)) (d_first (wd_first w))) b = (b1, false) /\
    closed_doc cfg c (wd_id w) (wd_kw w) (m_wrDoclist (b_files b)) (m_wrSkiplist (b_files b)) (b_dict b)
      (b_dict_end b) b1 [] (m_wrHitlist (b_files b)) 0.
Proof.
  intros [F1 F2 F3 F4 F5 F6 F7 F8 F9 F10] [_ Hk]. unfold begin_word, CopyKeywordBounded, hit_of.
  cbn [m_szKeyword m_uWordID]. destruct (bWordDict cfg) eqn:Ew.
  - rewrite bool_decide_true by auto. cbn [negb andb]. eexists. split; [done|].
    split; simpl; rewrite ?app_nil_r; try done. intros _. apply take_ge. auto.
  - eexists. split; [done|]. split; simpl; rewrite ?app_nil_r; try done. by rewrite Ew.
Qed.

Definition word_stream (w : word) : list AggregateHit_t :=
  concat (map (doc_stream (wd_id w) (wd_kw w)) (wd_docs w)).

Definition is_next (h : AggregateHit_t) (b : CSphHitBuilder) : bool :=
  negb (l_uWordID (b_last b) =? m_uWordID h) ||
  (bWordDict cfg && negb (bool_decide (l_szKeyword (b_last b) = m_szKeyword h))).

(** The open keyword finished. *)
Definition fin (b : CSphHitBuilder) : CSphHitBuilder := finish_word cfg (settle cfg b).

Lemma cidx_next h b :
  m_bError b = false -> is_next h b = true ->
  cidxHit cfg h b =
  let b := fin b in
  if m_iWordPos h =? EMPTY_HIT then
    Builder (b_files b) (b_last b) (b_doc b) (m_tWord b) (m_dSkiplist b) (b_dict b)
      (Some (wr_pos (m_wrDoclist (b_files b)))) (m_bError b)
  else
    let '(b, stop) := begin_word cfg h b in
    if (stop : bool) then b else add_hit cfg h (begin_doc cfg h b).
Proof.
  intros He Hn. unfold cidxHit. rewrite He. unfold is_next in Hn. rewrite Hn. cbn [orb].
  rewrite andb_true_r. unfold fin, settle. cbv zeta. by destruct (m_iWordPos h =? EMPTY_HIT).
Qed.

Lemma new_word_next w b row p :
  new_word w b -> is_next (hit_of (wd_id w) (wd_kw w) row p) b = true.
Proof.
  intros [Hn|[H1 Hn]]; unfold is_next; cbn [hit_of m_uWordID m_szKeyword].
  - by rewrite (proj2 (Z.eqb_neq _ _) Hn).
  - rewrite H1, (bool_decide_false _ Hn). by rewrite orb_true_r.
Qed.

(** The state of the builder when the last document of the keyword is finished. *)
Lemma word_settled b w :
  fresh b -> word_ok w -> new_word w b ->
  let '(es, H') := build c [] (m_wrHitlist (b_files b)) (wd_docs w) in
  closed_doc cfg c (wd_id w) (wd_kw w) (m_wrDoclist (b_files b)) (m_wrSkiplist (b_files b)) (b_dict b)
    (b_dict_end b) (settle cfg (feed cfg (word_stream w) b)) es H' (total_hits (wd_docs w)).
Proof.
  intros F Hw Hn. pose proof Hw as [Hr _]. destruct Hr as (Hr & Hd & Hds).
  destruct (start_word b w F Hw) as (b1 & E1 & C1).
  unfold word_stream, wd_docs. cbn [map concat]. rewrite feed_app, feed_doc.
  rewrite cidx_next; [|apply F|by apply new_word_next]. unfold fin. rewrite fresh_finish by done. cbv zeta.
  cbn [hit_of m_iWordPos]. fold (hit_of (wd_id w) (wd_kw w) (d_row (wd_first w)) (d_first (wd_first w))).
  assert ((d_first (wd_first w) =? EMPTY_HIT) = false) as ->.
  { apply Z.eqb_neq. destruct Hd as [(_ & (Hlt & _) & _) _]. unfold EMPTY_HIT in *. lia. }
  rewrite E1. destruct (doc_hits_ok cfg c _ _ _ _ _ _ _ _ _ _ (wd_first w) C1 Hd) as (hs & p & E & O);
    [simpl; lia|lia|].
  pose proof (docs_ok cfg c Hless Hfmt Hhits _ _ _ _ _ _ (wd_more w) _ _ _ _ _ _ _ O E Hd ltac:(lia) Hds) as D.
  by rewrite Z.add_0_l in D.
Qed.

Lemma build_extends done H ds :
  ∃ es Hs, build c done H ds = (done ++ es, H ++ Hs) /\ length es = length ds.
Proof.
  revert done H. induction ds as [|d ds IH]; intros done H; cbn [build].
  { exists [], []. by rewrite !app_nil_r. }
  set (e := mk_entry c (d_row d) (d_hits d) done H).
  destruct (IH (done ++ [e]) (hitlist_after c H (d_hits d) e)) as (es & Hs & -> & L).
  exists (e :: es). unfold hitlist_after. destruct (inlined c e).
  - exists Hs. rewrite <- app_assoc. simpl. by rewrite L.
  - exists ((enc_hits 0 (d_hits d) ++ zint 0) ++ Hs). rewrite <- !app_assoc. simpl. by rewrite L.
Qed.

Lemma build_last es0 H ds :
  ds <> [] -> rows_ok (-1) ds -> let '(es, _) := build c es0 H ds in
  0 <= last_of (-1) es < INVALID_ROWID.
Proof.
  intros Hne Hr.
  assert (∀ prev done H, -1 <= prev -> rows_ok prev ds ->
    0 <= last_of (-1) (build c done H ds).1 < INVALID_ROWID) as G.
  { clear Hr. induction ds as [|d ds IH]; [done|]. intros prev done H' Hp (H1 & _ & H2). cbn [build].
    destruct ds as [|d' ds].
    - simpl. rewrite last_of_app. simpl. lia.
    - apply (IH ltac:(done) (d_row d)); [lia|done]. }
  specialize (G (-1) es0 H ltac:(lia) Hr). by destruct (build c es0 H ds).
Qed.

(** One keyword: the files grow by its lists, the dictionary by its entry. *)
Lemma word_done b w :
  fresh b -> word_ok w -> new_word w b -> 0 < m_iSkiplistBlockSize cfg ->
  Z.of_nat (length (wd_docs w)) < 2 ^ 31 ->
  let f := b_files b in
  let '(es, H') := build c [] (m_wrHitlist f) (wd_docs w) in
  let b1 := fin (feed cfg (word_stream w) b) in
  fresh b1 /\
  b_files b1 = Files (m_wrDoclist f ++ enc c (-1) es) H'
    (m_wrSkiplist f ++ skip_bytes cfg c (m_wrDoclist f) es) /\
  l_uWordID (b_last b1) = wd_id w /\ (bWordDict cfg = true -> l_szKeyword (b_last b1) = wd_kw w) /\
  ∃ de, b_dict b1 = b_dict b ++ [de] /\ w_uWordID de = wd_id w /\
    (bWordDict cfg = true -> w_szKeyword de = wd_kw w) /\
    w_iDocs de = Z.of_nat (length es) /\ w_iHits de = total_hits (wd_docs w) /\
    w_iDoclistOffset de = wr_pos (m_wrDoclist f) /\
    w_iDoclistLength de = wr_pos (enc c (-1) es) /\
    (m_iSkiplistBlockSize cfg < Z.of_nat (length es) -> w_iSkiplistOffset de = wr_pos (m_wrSkiplist f)).
Proof.
  intros F Hw Hn Hb Hlen f. pose proof (word_settled b w F Hw Hn) as C.
  pose proof (build_last [] (m_wrHitlist f) (wd_docs w) ltac:(done) (proj1 Hw)) as Hl.
  destruct (build_extends [] (m_wrHitlist f) (wd_docs w)) as (es' & Hs & E & L).
  fold f in C. rewrite E in *. cbn [app] in *. set (es := es') in *.
  set (b2 := settle cfg (feed cfg (word_stream w) b)) in *. unfold fin. fold b2.
  assert (Z.land (Z.of_nat (length es)) HITLESS_DOC_MASK = Z.of_nat (length es)) as Em.
  { unfold HITLESS_DOC_MASK. change 0x7FFFFFFF with (2 ^ 31 - 1). rewrite land_ones_mod by lia.
    apply Z.mod_small. lia. }
  assert (cast DWORD (last_of (-1) es) = last_of (-1) es) as Ec.
  { apply cast_id; [done|]. unfold in_type, SearchNode.INVALID_ROWID in *. cbn [is_signed DWORD bits]. lia. }
  destruct C. unfold finish_word. rewrite cd_row0, Ec.
  rewrite (proj2 (Z.eqb_neq _ _)) by (unfold HitBuilder.INVALID_ROWID; lia).
  assert (m_wrDoclist f ++ enc c (-1) es = (m_wrDoclist f ++ enc_pre c (-1) es) ++ zint 0) as Ed
    by (unfold enc; by rewrite app_assoc).
  assert (length es <> 0%nat) as Hne by (rewrite L; done).
  unfold DoclistEndList. cbn [m_tWord put_doclist b_files m_dSkiplist].
  rewrite cd_docs0, Em. unfold skip_bytes. rewrite cd_skips0.
  destruct (Z.of_nat (length es) >? m_iSkiplistBlockSize cfg) eqn:Eb;
    cbn [m_tWord b_files b_last b_doc m_dSkiplist b_dict b_dict_end m_bError w_iDocs skip_of put_doclist
         w_iHits w_iDoclistOffset w_iSkiplistOffset m_wrDoclist m_wrHitlist m_wrSkiplist];
    rewrite ?cd_docs0, (proj2 (Z.eqb_neq (Z.of_nat (length es)) 0)) by lia;
    rewrite ?cd_doclist0, ?cd_hitlist0, ?cd_skip0, ?cd_dict0, ?cd_hits0, ?cd_off0;
    (split; [split; simpl; done|]); (split; [by rewrite Ed, ?app_nil_r|]);
    (split; [done|]); (split; [done|]); eexists; (split; [done|]);
    cbn [w_uWordID w_szKeyword w_iDocs w_iHits w_iDoclistOffset w_iDoclistLength w_iSkiplistOffset];
    (split; [done|]); (split; [done|]); (split; [done|]); (split; [done|]); (split; [done|]);
    (split; [unfold wr_pos, enc; rewrite !length_app; lia|]).
  - done.
  - intros Hgt. rewrite Z.gtb_ltb, Z.ltb_ge in Eb. lia.
Qed.
End Words.
End HitBuilderOk.

(** * Reading back what the builder wrote

    The lists of [HitBuilderOk] meet the format [DoclistOk] decodes, the
    skiplist the builder writes is the one [SkipData_t::Read] needs, and the
    hitlist gives the positions back. *)

From S2P Require Import Prelude Zip Hits Span SearchNode ExtTerm Doclist DoclistOk HitBuilder.
Import Zip Hitman FieldMask Span ExtTerm Doclist DoclistOk HitBuilder HitBuilderOk.

Module HitBuilderRead.

(** ** Sizes *)

Section Sizes.
Variable c : setup.

(** "4 bytes/doc minimum" *)
Lemma enc_entry_min prev e : (4 <= length (enc_entry c prev e))%nat.
Proof.
  unfold enc_entry, enc_body. rewrite length_app. pose proof (zint_ne (e_row e - prev)).
  destruct (INLINE_HITS c); [rewrite length_app; destruct (inlined c e)|]; rewrite !length_app;
    repeat match goal with |- context [length (zint ?v)] => pose proof (zint_ne v);
      generalize dependent (length (zint v)); intros end;
    repeat match goal with |- context [length (zoff ?v)] => pose proof (zoff_ne v);
      generalize dependent (length (zoff v)); intros end; lia.
Qed.

Lemma entries_gap prev hp es :
  entries_ok c prev hp es ->
  Z.of_nat (length es) <= last_of prev es - prev /\ (4 * length es <= length (enc_pre c prev es))%nat /\
  hp <= hp_after c hp es.
Proof.
  revert prev hp. induction es as [|e es IH]; intros prev hp; simpl; [lia|].
  intros (H1 & (_ & _ & _ & Hd) & _ & H2). destruct (IH _ _ H2) as (I1 & I2 & I3).
  pose proof (enc_entry_min prev e). rewrite length_app. unfold next_hp in *.
  split; [lia|]. split; [lia|]. destruct (inlined c e); lia.
Qed.

End Sizes.

(** ** Reading the skiplist *)

Section Skips.
Variables (cfg : settings) (c : setup).
Variable k : nat.
Abbreviation block := (2 ^ Z.of_nat k).
Hypothesis Hblock : m_iSkiplistBlockSize cfg = block.

(** Two consecutive skiplist entries. *)
Definition apart (t t' : SkiplistEntry_t) : Prop :=
  m_tBaseRowIDPlus1 t + block <= m_tBaseRowIDPlus1 t' /\
  m_iOffset t + 4 * block <= m_iOffset t' /\ m_iBaseHitlistPos t <= m_iBaseHitlistPos t'.

Definition skip_range (t : SkiplistEntry_t) : Prop :=
  0 <= m_tBaseRowIDPlus1 t < 2 ^ 32 /\ 0 <= m_iOffset t < 2 ^ 62 /\ 0 <= m_iBaseHitlistPos t < 2 ^ 62.

Fixpoint chained (t : SkiplistEntry_t) (l : list SkiplistEntry_t) : Prop :=
  match l with [] => True | t' :: l' => apart t t' /\ skip_range t' /\ chained t' l' end.

Lemma unzip_int_be v rest :
  in_type DWORD v -> Forall is_byte rest -> UnzipIntBE (zint v ++ rest) = Some (v, rest).
Proof. intros. by apply unzip_be4_zip. Qed.

(** Offsets are written as [uint64_t] and read as [SphOffset_t]. *)
Lemma unzip_offset_be v rest :
  0 <= v < 2 ^ 63 -> UnzipOffsetBE (zoff v ++ rest) = Some (v, rest).
Proof.
  intros Hv. unfold UnzipOffsetBE, zoff.
  replace (ZipValueBE uint64_t v) with (ZipValueBE SphOffset_t v) by reflexivity.
  apply unzip_be8_zip; [done|]. unfold in_type. cbn [is_signed SphOffset_t int64_t bits]. lia.
Qed.

Lemma enc_skips_bytes t l : Forall is_byte (enc_skips cfg t l).
Proof.
  revert t. induction l as [|t' l IH]; intros t; cbn [enc_skips]; [constructor|].
  pose proof (IH t'). bytes.
Qed.

Lemma read_skips_ok n t l rest :
  skip_range t -> chained t l -> Forall is_byte rest -> (n <= length l)%nat ->
  read_skips n block t (enc_skips cfg t l ++ rest) = Some (take n l).
Proof.
  revert t l. induction n as [|n IH]; intros t l Ht Hl Hr Hn; [done|].
  destruct l as [|t' l]; [simpl in Hn; lia|]. destruct Hl as ((A1 & A2 & A3) & R & Hl).
  pose proof R as (R1 & R2 & R3). destruct Ht as (T1 & T2 & T3).
  assert (0 < block) by lia.
  cbn [enc_skips read_skips]. rewrite Hblock, <- !app_assoc.
  assert (cast DWORD (m_tBaseRowIDPlus1 t' - m_tBaseRowIDPlus1 t - block) =
    m_tBaseRowIDPlus1 t' - m_tBaseRowIDPlus1 t - block) as ->.
  { apply cast_id; [done|]. unfold in_type. cbn [is_signed DWORD bits]. lia. }
  rewrite unzip_int_be.
  2: { unfold in_type. cbn [is_signed DWORD bits]. lia. }
  2: { pose proof (enc_skips_bytes t' l). bytes. }
  cbn [mbind option_bind]. rewrite unzip_offset_be by lia. cbn [mbind option_bind].
  rewrite unzip_offset_be by lia. cbn [mbind option_bind].
  set (t1 := SkiplistEntry _ _ _).
  assert (t1 = t') as ->.
  { subst t1. destruct t' as [x y z]. simpl in *. f_equal.
    - replace (m_tBaseRowIDPlus1 t + block + (x - m_tBaseRowIDPlus1 t - block)) with x by lia.
      apply cast_id; [done|]. unfold in_type. cbn [is_signed DWORD bits]. lia.
    - replace (m_iOffset t + 4 * block + (y - m_iOffset t - 4 * block)) with y by lia.
      apply cast_offset. lia.
    - replace (m_iBaseHitlistPos t + (z - m_iBaseHitlistPos t)) with z by lia.
      apply cast_offset. lia. }
  rewrite (IH t' l R Hl Hr) by (simpl in Hn; lia). done.
Qed.

(** The entries the builder makes. *)

Lemma multiple_of n : (Z.land n (m_iSkiplistBlockSize cfg - 1) =? 0) = true <-> n mod block = 0.
Proof. rewrite Hblock, land_ones_mod by lia. apply Z.eqb_eq. Qed.

Lemma block_pos : 0 < block.
Proof. lia. Qed.

Lemma skips_spec n prev hp off es t :
  t ∈ skips cfg c n prev hp off es ->
  ∃ pre post, es = pre ++ post /\
    t = SkiplistEntry (last_of prev pre + 1) (Z.of_nat (off + length (enc_pre c prev pre))) (hp_after c hp pre).
Proof.
  revert n prev hp off. induction es as [|e es IH]; intros n prev hp off; simpl.
  { intros H. by apply elem_of_nil in H. }
  intros [H|H]%elem_of_app.
  - destruct (_ =? 0); [|by apply elem_of_nil in H]. apply list_elem_of_singleton in H as ->.
    exists [], (e :: es). split; [done|]. simpl. by rewrite Nat.add_0_r.
  - destruct (IH _ _ _ _ H) as (pre & post & -> & ->). exists (e :: pre), post. split; [done|].
    simpl. by rewrite length_app, Nat.add_assoc.
Qed.

Lemma skips_chained n n0 prev0 hp0 off0 mid es :
  entries_ok c prev0 hp0 (mid ++ es) -> n = (n0 + length mid)%nat -> mid <> [] ->
  Z.of_nat n0 mod block = 0 -> -1 <= prev0 -> 0 <= hp0 ->
  Forall skip_range (skips cfg c n (last_of prev0 mid) (hp_after c hp0 mid)
    (off0 + length (enc_pre c prev0 mid)) es) ->
  chained (SkiplistEntry (prev0 + 1) (Z.of_nat off0) hp0)
    (skips cfg c n (last_of prev0 mid) (hp_after c hp0 mid) (off0 + length (enc_pre c prev0 mid)) es).
Proof.
  revert n n0 prev0 hp0 off0 mid. induction es as [|e es IH];
    intros n n0 prev0 hp0 off0 mid He Hn Hm H0 Hp Hh Hr; cbn [skips]; [done|].
  cbn [skips] in Hr. apply Forall_app in Hr as [Hr1 Hr2].
  pose proof He as He'. apply entries_ok_app in He' as [Hmid Hes].
  destruct (entries_gap _ _ _ _ Hmid) as (G1 & G2 & G3).
  assert (∀ mid', off0 + length (enc_pre c prev0 (mid' ++ [e])) =
    off0 + length (enc_pre c prev0 mid') + length (enc_entry c (last_of prev0 mid') e))%nat as Eo.
  { intros mid'. rewrite enc_pre_app, length_app. simpl. rewrite app_nil_r. lia. }
  destruct (Z.land (Z.of_nat n) (m_iSkiplistBlockSize cfg - 1) =? 0) eqn:En.
  - apply multiple_of in En. cbn [app chained].
    assert (block <= Z.of_nat (length mid)) as Hge.
    { assert (Z.of_nat (length mid) mod block = 0) as Hmod.
      { replace (Z.of_nat (length mid)) with (Z.of_nat n - Z.of_nat n0) by lia.
        by rewrite Zminus_mod, En, H0, Z.sub_diag, Zmod_0_l. }
      destruct (decide (block <= Z.of_nat (length mid))); [done|].
      rewrite Z.mod_small in Hmod by lia. destruct mid; [done|simpl in Hmod; lia]. }
    split; [split; [|split]; simpl; lia|]. split; [by inversion Hr1|].
    assert (enc_pre c (last_of prev0 mid) [e] = enc_entry c (last_of prev0 mid) e) as E1
      by (simpl; apply app_nil_r).
    pose proof (IH (S n) n (last_of prev0 mid) (hp_after c hp0 mid)
      (off0 + length (enc_pre c prev0 mid))%nat [e]) as I. rewrite E1 in I. cbn [last_of hp_after] in I.
    apply I; [done|simpl; lia|done|done|lia|lia|done].
  - cbn [app].
    replace (e_row e) with (last_of prev0 (mid ++ [e])) in * by (by rewrite last_of_app).
    replace (next_hp c (hp_after c hp0 mid) e) with (hp_after c hp0 (mid ++ [e])) in *
      by (by rewrite hp_after_app).
    rewrite <- Eo in *. apply (IH (S n) n0); [by rewrite <- app_assoc| | |done|done|done|done].
    + rewrite length_app. simpl. lia.
    + by destruct mid.
Qed.

(** One skiplist entry for every started block. *)
Lemma skips_length n prev hp off es :
  Z.of_nat (length (skips cfg c n prev hp off es)) =
  (Z.of_nat (n + length es) + block - 1) / block - (Z.of_nat n + block - 1) / block.
Proof.
  pose proof block_pos as Hb.
  revert n prev hp off. induction es as [|e es IH]; intros n prev hp off; cbn [skips].
  { rewrite Nat.add_0_r. simpl. lia. }
  rewrite length_app, Nat2Z.inj_add, IH. cbn [length]. rewrite Nat.add_succ_comm, Nat2Z.inj_succ.
  assert (Z.of_nat n + 1 + block - 1 = Z.of_nat n + 1 * block) as E by lia.
  replace (Z.succ (Z.of_nat n) + block - 1) with (Z.of_nat n + 1 * block) by lia.
  rewrite Z.div_add by lia. pose proof (Z.div_mod (Z.of_nat n) block ltac:(lia)) as Dn.
  destruct (Z.land (Z.of_nat n) (m_iSkiplistBlockSize cfg - 1) =? 0) eqn:En; cbn [length].
  - apply multiple_of in En. rewrite En, Z.add_0_r in Dn.
    replace ((Z.of_nat n + block - 1) / block) with (Z.of_nat n / block); [lia|].
    apply (Z.div_unique _ _ _ (block - 1)); lia.
  - assert (Z.of_nat n mod block <> 0) by (intros E0; apply multiple_of in E0; congruence).
    pose proof (Z.mod_pos_bound (Z.of_nat n) block Hb).
    replace ((Z.of_nat n + block - 1) / block) with (Z.of_nat n / block + 1); [lia|].
    apply (Z.div_unique _ _ _ (Z.of_nat n mod block - 1)); lia.
Qed.

Lemma chained_take t l n : chained t l -> chained t (take n l).
Proof.
  revert t n. induction l as [|t' l IH]; intros t n; [by rewrite take_nil|].
  destruct n; [done|]. simpl. intros (? & ? & ?). auto.
Qed.

Lemma chained_ge t l : chained t l -> Forall (λ t', m_tBaseRowIDPlus1 t <= m_tBaseRowIDPlus1 t') l.
Proof.
  revert t. induction l as [|t' l IH]; intros t; [constructor|]. intros ((H & _) & _ & Hl).
  pose proof block_pos. constructor; [lia|]. specialize (IH _ Hl).
  eapply Forall_impl; [exact IH|]. simpl. lia.
Qed.

Lemma at_cons x l i : at_ (x :: l) i = if decide (i <= 0) then x else at_ l (i - 1).
Proof.
  unfold at_. destruct (decide (i <= 0)).
  - by replace (Z.to_nat i) with 0%nat by lia.
  - by replace (Z.to_nat i) with (S (Z.to_nat (i - 1))) by lia.
Qed.

Lemma sorted_cons x l : sorted l -> Forall (λ y, x <= y) l -> sorted (x :: l).
Proof.
  intros Hs Hx i j Hij Hj. unfold len in Hj. simpl in Hj. rewrite !at_cons.
  repeat case_decide; [lia| |lia|].
  - rewrite Forall_lookup in Hx. unfold at_. rewrite nth_lookup.
    destruct (lookup_lt_is_Some_2 l (Z.to_nat (j - 1))) as [y Hy]; [lia|]. rewrite Hy. simpl. eauto.
  - apply Hs; [lia|]. unfold len. lia.
Qed.

Lemma chained_sorted t l : chained t l -> sorted (bases (t :: l)).
Proof.
  revert t. induction l as [|t' l IH]; intros t H.
  { intros i j Hij Hj. unfold len in Hj. simpl in Hj. by replace j with i by lia. }
  pose proof (chained_ge _ _ H) as G. destruct H as (_ & _ & H).
  apply sorted_cons; [by apply IH|]. by apply (proj2 (List.Forall_map m_tBaseRowIDPlus1 (λ y, m_tBaseRowIDPlus1 t <= y) (t' :: l))).
Qed.

(** What [SkipData_t::Read] makes of the bytes of [DoclistEndList]. *)
Lemma skipdata_read (D0 : list Z) es rest :
  entries_ok c (-1) 0 es -> block < Z.of_nat (length es) ->
  Z.of_nat (length D0 + length (enc_pre c (-1) es)) < 2 ^ 62 -> hp_after c 0 es < 2 ^ 62 ->
  last_of (-1) es < SearchNode.INVALID_ROWID -> Forall is_byte rest ->
  ∃ l, SkipData_Read (skip_bytes cfg c D0 es ++ rest) (Z.of_nat (length D0)) (Z.of_nat (length es)) block = Some l /\
    l <> [] /\ sorted (bases l) /\ Forall (λ t, ∃ done, skip_at c D0 es t done) l.
Proof.
  intros He Hn HD HH Hl Hr. pose proof block_pos as Hb.
  assert (∀ t, t ∈ skips cfg c 0 (-1) 0 (length D0) es -> skip_range t /\ ∃ done, skip_at c D0 es t done) as Hall.
  { intros t Ht. destruct (skips_spec _ _ _ _ _ _ Ht) as (pre & post & -> & ->).
    apply entries_ok_app in He as [E1 E2]. pose proof (last_of_ge _ _ _ _ E1).
    pose proof (last_of_ge _ _ _ _ E2). pose proof (hp_after_nonneg _ _ _ _ E1 ltac:(lia)).
    destruct (entries_gap _ _ _ _ E2) as (_ & _ & G). rewrite last_of_app in Hl. rewrite hp_after_app in HH.
    rewrite enc_pre_app, length_app in HD. unfold SearchNode.INVALID_ROWID in Hl. split.
    - unfold skip_range. simpl. lia.
    - exists pre. split; [by exists post|done]. }
  destruct es as [|e es]; [simpl in Hn; lia|].
  pose proof (skips_length 0 (-1) 0 (length D0) (e :: es)) as Hlen.
  unfold skip_bytes. rewrite Hblock, Z.gtb_ltb, (proj2 (Z.ltb_lt _ _)) by done.
  cbn [skips] in *. change (Z.land (Z.of_nat 0) (m_iSkiplistBlockSize cfg - 1) =? 0) with true in *.
  cbn [app] in *. set (l := skips cfg c 1 _ _ _ es) in *.
  assert (chained (SkiplistEntry 0 (Z.of_nat (length D0)) 0) l) as Hc.
  { pose proof (skips_chained 1 0 (-1) 0 (length D0) [e] es) as K. cbn [last_of hp_after] in K.
    replace (enc_pre c (-1) [e]) with (enc_entry c (-1) e) in K by (simpl; by rewrite app_nil_r).
    apply K; [done|done|done|apply Zmod_0_l|lia|lia|]. apply Forall_forall. intros t Ht.
    apply Hall. by right. }
  set (t0 := SkiplistEntry 0 (Z.of_nat (length D0)) 0) in *.
  change (SkiplistEntry (-1 + 1) (Z.of_nat (length D0)) 0) with t0 in *.
  assert (skip_range t0) as Hr0 by (unfold skip_range; simpl; lia).
  assert (Z.to_nat (Z.of_nat (length (e :: es)) / block - 1) <= length l)%nat as Hle.
  { cbn [length] in Hlen. set (n := Z.of_nat (length (e :: es))) in *.
    change (Z.of_nat (0 + Datatypes.S (length es))) with n in Hlen.
    rewrite (Z.div_small (Z.of_nat 0 + block - 1)) in Hlen by lia.
    assert (n / block <= (n + block - 1) / block) by (apply Z.div_le_mono; lia). lia. }
  unfold SkipData_Read. fold t0. rewrite (read_skips_ok _ _ _ _ Hr0 Hc Hr Hle). cbn [mbind option_bind].
  eexists. split; [done|]. split; [done|]. split.
  - by apply chained_sorted, chained_take.
  - constructor.
    + apply Hall. by left.
    + apply Forall_take, Forall_forall. intros t Ht. apply Hall. by right.
Qed.
End Skips.

(** ** The entries are well formed *)

Section Entries.
Variable c : setup.
Hypothesis Hhits : m_bHasHitlist c = true.

Lemma hit_field p : in_type DWORD p -> 0 <= GetField p < 256.
Proof. intros (f & e & x & Hf & Hx & ->)%dword_pack. destruct (pack_parts f e x Hf Hx) as [-> _]. done. Qed.

Lemma hits_from_dword p l : hits_from p l -> Forall (in_type DWORD) l.
Proof. revert p. induction l as [|p' l IH]; intros p; constructor; destruct H as (? & ? & ?); eauto. Qed.

Lemma fold_set_wf l m :
  wf m -> Forall (in_type DWORD) l -> wf (fold_left Set_ (map GetField l) m).
Proof.
  revert m. induction l as [|p l IH]; intros m Hm Hl; [done|]. inversion Hl; subst. simpl.
  apply IH; [|done]. apply Set_wf; [done|by apply hit_field].
Qed.

Lemma fold_set_test l m f :
  wf m -> Forall (in_type DWORD) l -> 0 <= f < 256 ->
  Test_ (fold_left Set_ (map GetField l) m) f = Test_ m f || existsb (Z.eqb f) (map GetField l).
Proof.
  intros Hm Hl Hf. revert m Hm. induction l as [|p l IH]; intros m Hm; simpl; [by rewrite orb_false_r|].
  inversion Hl; subst. pose proof (hit_field p H1). rewrite (IH H2) by (by apply Set_wf).
  rewrite Test_Set by done. rewrite (Z.eqb_sym (GetField p)). by destruct (f =? GetField p), (Test_ m f).
Qed.

Lemma hitlist_after_len H hs e : (length H <= length (hitlist_after c H hs e))%nat.
Proof. unfold hitlist_after. destruct (inlined c e); [done|]. rewrite !length_app. lia. Qed.

(** The entries the builder makes are ascending and in range as long as the
    hitlist file is. *)
Lemma build_ok ds done H prev :
  entries_ok c (-1) 0 done -> hp_after c 0 done <= Z.of_nat (length H) -> last_of (-1) done <= prev ->
  rows_ok prev ds -> Z.of_nat (length (build c done H ds).2) < 2 ^ 62 ->
  entries_ok c (-1) 0 (build c done H ds).1 /\
  hp_after c 0 (build c done H ds).1 <= Z.of_nat (length (build c done H ds).2).
Proof.
  revert done H prev. induction ds as [|d ds IH]; intros done H prev He Hh Hp Hr Hlen.
  { done. }
  destruct Hr as (R1 & [R2 R2'] & R3). cbn [build] in *.
  set (e := mk_entry c (d_row d) (d_hits d) done H) in *.
  pose proof (hitlist_after_len H (d_hits d) e) as HL.
  assert (e_delta e = Z.of_nat (length H) - hp_after c 0 done) as Ed by reflexivity.
  destruct (build_extends c (done ++ [e]) (hitlist_after c H (d_hits d) e) ds) as (es & Hs & Eb & _).
  pose proof (hits_from_dword _ _ R2) as Hd.
  assert (in_type DWORD (last_hit 0 (d_hits d))) as Hlast
    by (apply (hits_from_nonneg 0 (d_hits d)); [lia|done|done]).
  apply (IH _ _ (d_row d)); [| |by rewrite last_of_app|done|done].
  - apply entries_ok_app. split; [done|]. cbn [entries_ok]. split; [|split; [|split; [|done]]].
    + simpl. lia.
    + split; [|split; [|split]]; simpl.
      * unfold in_type. cbn [is_signed DWORD bits]. unfold d_hits in *. simpl in *. lia.
      * apply word_in, fold_set_wf; [apply UnsetAll_wf|done].
      * done.
      * lia.
    + rewrite Eb in Hlen. cbn [snd] in Hlen. rewrite length_app in Hlen. lia.
  - rewrite hp_after_app. cbn [hp_after]. unfold next_hp. destruct (inlined c e); [lia|].
    lia.
Qed.

(** ** The hits of a document *)

Fixpoint read_hits (fuel : nat) (h : hitstate) : list Z :=
  match fuel with
  | O => []
  | S fuel' => let '(uHit, h) := get_next_hit h in if uHit =? EMPTY_HIT then [] else uHit :: read_hits fuel' h
  end.

(** The positions [GetNextHit] gives after a [SeekHitlist]. *)
Definition hits_at (pos : Z) : list Z := read_hits (3 + length (f_hitlist c)) (seek_hitlist c pos hit0).

Lemma hit_mask_hits fuel m h :
  (hit_mask_loop fuel m h).1 = fold_left Set_ (map GetField (read_hits fuel h)) m.
Proof.
  revert m h. induction fuel as [|fuel IH]; intros m h; [done|]. cbn [hit_mask_loop read_hits].
  destruct (get_next_hit h) as [x h']. destruct (x =? EMPTY_HIT); [done|apply IH].
Qed.

Lemma read_hits_enc fuel p l i post :
  0 <= p -> hits_from p l -> Forall is_byte post -> (length l < fuel)%nat ->
  read_hits fuel (HitState (enc_hits p l ++ zint 0 ++ post) 0 p i) = l.
Proof.
  intros Hp Hh Hpost. revert p Hp Hh fuel. induction l as [|p' l IH]; intros p Hp Hh fuel Hf;
    (destruct fuel as [|fuel]; [simpl in Hf; lia|]); cbn [read_hits enc_hits]; unfold get_next_hit;
    cbn [m_uHitState m_rdHitlist m_iHitPos m_uInlinedHit Z.eqb].
  - cbn [app]. rewrite UnzipInt_zint by done. done.
  - destruct Hh as (D & (Lt & _) & Hh).
    assert (Forall is_byte (enc_hits p' l ++ zint 0 ++ post)) as HB.
    { assert (∀ q, Forall is_byte (enc_hits q l)) as G
        by (clear; induction l as [|x l IH]; intros q; cbn [enc_hits]; [constructor|]; pose proof (IH x); bytes).
      pose proof (G p'). bytes. }
    rewrite <- app_assoc, UnzipInt_zint; [|unfold in_type in *; cbn [is_signed DWORD bits] in *; lia|done].
    rewrite (proj2 (Z.eqb_neq (p' - p) 0)) by lia.
    replace (p + (p' - p)) with p' by lia. rewrite cast_id by done.
    rewrite (proj2 (Z.eqb_neq p' EMPTY_HIT)) by (unfold EMPTY_HIT; lia).
    f_equal. apply IH; [lia|done|simpl in Hf; lia].
Qed.

Lemma enc_hits_len p l : (length l <= length (enc_hits p l))%nat.
Proof.
  revert p. induction l as [|x l IH]; intros p; [done|]. cbn [enc_hits length].
  rewrite length_app. pose proof (zint_ne (x - p)). specialize (IH x). lia.
Qed.

Lemma seek_inlined x :
  in_type DWORD x -> 0 < x -> hits_at (cast SphOffset_t (Z.lor x (2 ^ 63))) = [x].
Proof.
  unfold in_type. cbn [is_signed DWORD bits]. intros Hx Hp. unfold hits_at, seek_hitlist.
  assert (Z.lor x (2 ^ 63) = 2 ^ 63 + x) as ->.
  { rewrite Z.lor_comm. change (2 ^ 63) with (Z.shiftl 1 63) at 1. rewrite lor_shiftl_add; lia. }
  assert (cast SphOffset_t (2 ^ 63 + x) = x - 2 ^ 63) as ->.
  { rewrite <- (cast_id SphOffset_t (x - 2 ^ 63)); [|done|unfold in_type; simpl; lia].
    apply cast_eq. change (bits SphOffset_t) with 64.
    replace (2 ^ 63 + x) with (x - 2 ^ 63 + 1 * 2 ^ 64) by lia. by rewrite Z.mod_add. }
  assert (Z.shiftr (x - 2 ^ 63) 63 = -1) as ->.
  { rewrite Z.shiftr_div_pow2 by lia. symmetry. apply (Z.div_unique _ _ _ x); lia. }
  assert (cast DWORD (x - 2 ^ 63) = x) as ->.
  { rewrite <- (cast_id DWORD x) at 2; [|done|unfold in_type; simpl; lia].
    apply cast_eq. change (bits DWORD) with 32.
    replace (x - 2 ^ 63) with (x + (- 2 ^ 31) * 2 ^ 32) by lia. by rewrite Z.mod_add. }
  change (negb (-1 =? 0)) with true. cbv iota.
  cbn [Nat.add read_hits]. unfold get_next_hit. cbn [m_uHitState m_uInlinedHit m_rdHitlist m_iHitPos].
  cbn [Z.eqb Pos.eqb]. rewrite (proj2 (Z.eqb_neq x EMPTY_HIT)) by (unfold EMPTY_HIT; lia). done.
Qed.

Lemma seek_hits H hs post :
  f_hitlist c = H ++ enc_hits 0 hs ++ zint 0 ++ post -> hits_from 0 hs -> Forall is_byte post ->
  Z.of_nat (length H) < 2 ^ 62 -> hits_at (Z.of_nat (length H)) = hs.
Proof.
  intros E Hh HB HL. unfold hits_at, seek_hitlist.
  rewrite (Z.shiftr_div_pow2 _ 63), Z.div_small by lia. cbn [Z.eqb negb]. unfold SeekTo.
  rewrite E, Nat2Z.id, drop_app_length. change EMPTY_HIT with 0. apply read_hits_enc; [lia|done|done|].
  rewrite !length_app. pose proof (enc_hits_len 0 hs). lia.
Qed.

(** What a posting has to say of a document. *)
Definition posting_is (d : doc) (p : ExtTerm.posting) : Prop :=
  ExtTerm.p_row p = d_row d /\ ExtTerm.p_hits p = Z.of_nat (length (d_hits d)) /\
  hits_at (ExtTerm.p_hitpos p) = d_hits d /\
  ∀ f, 0 <= f < 256 -> Test_ (ExtTerm.p_mask p) f = existsb (Z.eqb f) (map GetField (d_hits d)).

(** One document, its hits at the end of [H]. *)
Lemma doc_posting d done H post prev :
  let e := mk_entry c (d_row d) (d_hits d) done H in
  f_hitlist c = hitlist_after c H (d_hits d) e ++ post -> Forall is_byte post -> doc_ok d ->
  prev < d_row d -> 0 <= hp_after c 0 done -> Z.of_nat (length H) < 2 ^ 62 ->
  posting_is d (posting_of c (hp_after c 0 done) e).
Proof.
  intros e E HB [Hh Hlen] Hp H0 HL. pose proof (hits_from_dword _ _ Hh) as Hd.
  assert (in_type DWORD (last_hit 0 (d_hits d))) as Hlast
    by (apply (hits_from_nonneg 0 (d_hits d)); [lia|done|done]).
  assert (wf (fields_of (d_hits d))) as Hw by (apply fold_set_wf; [apply UnsetAll_wf|done]).
  unfold posting_is, posting_of, read_fields, read_hitpos.
  cbn [ExtTerm.p_row ExtTerm.p_hits ExtTerm.p_hitpos ExtTerm.p_mask].
  split; [done|]. split; [done|]. unfold hitlist_after in E. destruct (inlined c e) eqn:Ei.
  - assert (d_hits d = [d_first d]) as Eh.
    { unfold inlined in Ei. apply andb_prop in Ei as [Ei _]. apply andb_prop in Ei as [_ Ei].
      unfold e, mk_entry in Ei. cbn [e_hits] in Ei. unfold d_hits in *. destruct (d_more d); [done|].
      apply Z.eqb_eq in Ei. simpl in Ei. lia. }
    unfold e, mk_entry. cbn [e_lastpos]. rewrite Eh in *. cbn [last_hit map existsb] in *.
    destruct Hh as (D & (Lt & _) & _). split; [apply seek_inlined; [done|unfold EMPTY_HIT in *; lia]|].
    intros f Hf. rewrite Test_Set by (done || apply UnsetAll_wf || by apply hit_field).
    by rewrite Z.eqb_sym, Test_UnsetAll by lia.
  - unfold e, mk_entry. cbn [e_delta e_fields].
    replace (hp_after c 0 done + (Z.of_nat (length H) - hp_after c 0 done)) with (Z.of_nat (length H)) by lia.
    rewrite <- !app_assoc in E. pose proof (seek_hits _ _ _ E Hh HB HL) as Es. split; [done|].
    intros f Hf. rewrite hit_mask_hits. unfold hits_at in Es. rewrite Es.
    rewrite fold_set_test by (done || apply Assign32_wf, word_in, Hw).
    rewrite Test_Assign32 by done. unfold fields_of. rewrite fold_set_test by (done || apply UnsetAll_wf).
    rewrite Test_UnsetAll by lia. by destruct (f <? 32), (existsb _ _).
Qed.

Lemma build_postings ds done H prev post :
  f_hitlist c = (build c done H ds).2 ++ post -> Forall is_byte (f_hitlist c) ->
  Z.of_nat (length (f_hitlist c)) < 2 ^ 62 -> entries_ok c (-1) 0 (build c done H ds).1 ->
  rows_ok prev ds -> ∃ es, (build c done H ds).1 = done ++ es /\
  Forall2 posting_is ds (postings c (hp_after c 0 done) es).
Proof.
  revert done H prev. induction ds as [|d ds IH]; intros done H prev E HB HL He Hr.
  { exists []. simpl. by rewrite app_nil_r. }
  destruct Hr as (R1 & R2 & R3). cbn [build] in *.
  set (e := mk_entry c (d_row d) (d_hits d) done H) in *.
  destruct (build_extends c (done ++ [e]) (hitlist_after c H (d_hits d) e) ds) as (es' & Hs & Eb & _).
  destruct (IH _ _ (d_row d) E HB HL He R3) as (es & E1 & F2). exists (e :: es).
  split; [by rewrite E1, <- app_assoc|]. cbn [postings]. constructor.
  2: by rewrite hp_after_app in F2.
  rewrite Eb in E, He. cbn [fst snd] in *. rewrite <- app_assoc in E.
  rewrite <- app_assoc in He. apply entries_ok_app in He as [He _].
  apply (doc_posting d done H (Hs ++ post) prev); [done| |done|lia| |].
  - rewrite E in HB. by apply Forall_app in HB as [_ ?].
  - apply (hp_after_nonneg _ _ _ _ He). lia.
  - pose proof (hitlist_after_len H (d_hits d) e). rewrite E, !length_app in HL. lia.
Qed.
End Entries.

(** ** The round trip *)

Section RoundTrip.
Variable cfg : settings.
Variable k : nat.
Hypothesis Hblock : m_iSkiplistBlockSize cfg = 2 ^ Z.of_nat k.
Hypothesis Hless : m_eHitless cfg = SPH_HITLESS_NONE.

Definition cfg_inline : bool := match m_eHitFormat cfg with SPH_HIT_FORMAT_INLINE => true | _ => false end.

Lemma seek_app (l1 l2 : list Z) : SeekTo (l1 ++ l2) (wr_pos l1) = l2.
Proof. unfold SeekTo, wr_pos. by rewrite Nat2Z.id, drop_app_length. Qed.

(** A reader set up on a well formed list at the end of [D0]. *)
Lemma start_inv D D0 es after H skip :
  let c := Setup cfg_inline true D H skip in
  D = D0 ++ enc c (-1) es ++ after -> Forall is_byte D -> entries_ok c (-1) 0 es -> skips_ok c D0 es ->
  let q := DiskIndexQword c (DocState (SeekTo D (wr_pos D0)) INVALID_ROWID UnsetAll 0 0 0 false (-1))
             (HitState H 0 EMPTY_HIT 0) (Z.of_nat (length es)) in
  disk_inv (-1) q /\ disk_rem q = postings c 0 es.
Proof.
  intros c E HB He Hs q. assert (qinv_at D0 es after (-1) q [] es) as I.
  { split; [split; [done|split; done]|]. split; [done|]. split; [|split].
    - split; [done| |done|].
      + cbn [qd q m_rdDoclist]. by rewrite E, seek_app.
      + unfold rpos. simpl. by destruct cfg_inline.
    - by left.
    - by apply postings_rows. }
  split; [by exists D0, es, after, [], es|]. exact (disk_rem_eq _ _ _ _ _ _ _ I).
Qed.

(** The dictionary entry and the skiplist bytes of a keyword set its reader up. *)
Lemma setup_ok c D0 S0 es f de sk after :
  m_wrSkiplist f = (S0 ++ skip_bytes cfg c D0 es) ++ after -> Forall is_byte after ->
  c = Setup cfg_inline true (m_wrDoclist f) (m_wrHitlist f) sk ->
  entries_ok c (-1) 0 es -> Z.of_nat (length D0 + length (enc_pre c (-1) es)) < 2 ^ 62 ->
  hp_after c 0 es < 2 ^ 62 -> last_of (-1) es < SearchNode.INVALID_ROWID -> Z.of_nat (length es) < 2 ^ 31 ->
  w_iDocs de = Z.of_nat (length es) -> w_iDoclistOffset de = wr_pos D0 ->
  (m_iSkiplistBlockSize cfg < Z.of_nat (length es) -> w_iSkiplistOffset de = wr_pos S0) ->
  ∃ skip, let c' := Setup cfg_inline true (m_wrDoclist f) (m_wrHitlist f) skip in
    skips_ok c' D0 es /\
    DiskIndexQwordSetup cfg f de =
      Some (DiskIndexQword c' (DocState (SeekTo (m_wrDoclist f) (wr_pos D0)) INVALID_ROWID UnsetAll 0 0 0 false (-1))
             (HitState (m_wrHitlist f) 0 EMPTY_HIT 0) (Z.of_nat (length es))).
Proof.
  intros Es HB Ec He HD HH HL Hn W1 W3 W5. unfold DiskIndexQwordSetup. rewrite Hless, W1, W3. fold cfg_inline.
  assert (Z.land (Z.of_nat (length es)) HITLESS_DOC_MASK = Z.of_nat (length es)) as ->.
  { unfold HITLESS_DOC_MASK. change 0x7FFFFFFF with (2 ^ 31 - 1). rewrite land_ones_mod by lia.
    apply Z.mod_small. lia. }
  destruct (Z.of_nat (length es) >? m_iSkiplistBlockSize cfg) eqn:Egt.
  - rewrite Z.gtb_ltb, Z.ltb_lt in Egt. rewrite (W5 Egt), Es, <- app_assoc, seek_app.
    destruct (skipdata_read cfg c k Hblock D0 es after He) as (l & El' & L1 & L2 & L3);
      [lia|done|done|done|done|].
    unfold wr_pos in *. rewrite Hblock, El'. cbn [mbind option_bind]. exists (Some l). split; [|done].
    intros l' [= <-]. split; [done|]. split; [done|]. subst c. exact L3.
  - exists None. split; [|done]. intros l' [=].
Qed.

(** [C7] What was indexed is what is read.  The hits of a keyword are fed to the
    builder, the dictionary entry it emits and the three files (with any bytes
    other keywords append later) set a reader up, and the reader gives back the
    documents in order, with the right number of hits, the right positions and
    the right set of fields; it keeps the contract of a keyword reader.  Plain
    and inline hit format, with and without a skiplist. *)
Theorem index_roundtrip b w dafter hafter safter f :
  fresh b -> word_ok cfg w -> new_word cfg w b -> Z.of_nat (length (wd_docs w)) < 2 ^ 31 ->
  let b1 := fin cfg (feed cfg (word_stream w) b) in
  f = Files (m_wrDoclist (b_files b1) ++ dafter) (m_wrHitlist (b_files b1) ++ hafter)
        (m_wrSkiplist (b_files b1) ++ safter) ->
  Forall is_byte (m_wrDoclist f) -> Forall is_byte (m_wrHitlist f) -> Forall is_byte safter ->
  Z.of_nat (length (m_wrDoclist f)) < 2 ^ 62 -> Z.of_nat (length (m_wrHitlist f)) < 2 ^ 62 ->
  ∃ de q, last (b_dict b1) = Some de /\ DiskIndexQwordSetup cfg f de = Some q /\
    disk_inv (-1) q /\ Forall2 (posting_is (qs q)) (wd_docs w) (disk_rem q).
Proof.
  intros F Hw Hn Hlen b1 E HBd HBh HBs Ld Lh.
  set (c := Setup cfg_inline true (m_wrDoclist f) (m_wrHitlist f) None).
  pose proof (word_done cfg c Hless eq_refl eq_refl b w F Hw Hn ltac:(lia) Hlen) as W. cbv zeta in W.
  pose proof (build_ok c (wd_docs w) [] (m_wrHitlist (b_files b)) (-1)) as BO.
  pose proof (λ post, build_postings c (wd_docs w) [] (m_wrHitlist (b_files b)) (-1) post) as BP.
  pose proof (build_last c [] (m_wrHitlist (b_files b)) (wd_docs w) ltac:(done) (proj1 Hw)) as BL.
  destruct (build_extends c [] (m_wrHitlist (b_files b)) (wd_docs w)) as (es & Hs & Eb & El).
  rewrite Eb in *. cbn [app fst snd] in *. fold b1 in W.
  destruct W as (_ & Ef & _ & _ & de & Ed & _ & _ & W1 & _ & W3 & _ & W5). rewrite Ef in E.
  assert (m_wrDoclist f = m_wrDoclist (b_files b) ++ enc c (-1) es ++ dafter) as Edoc
    by (rewrite E; simpl; by rewrite <- app_assoc).
  assert (m_wrHitlist f = (m_wrHitlist (b_files b) ++ Hs) ++ hafter) as Ehit by (by rewrite E).
  assert (m_wrSkiplist f = (m_wrSkiplist (b_files b) ++ skip_bytes cfg c (m_wrDoclist (b_files b)) es) ++ safter)
    as Eskip by (by rewrite E).
  clear E. pose proof Ld as Ld'. pose proof Lh as Lh'. rewrite Edoc in Ld'. rewrite Ehit in Lh'.
  unfold enc in Ld'. rewrite !length_app in Ld', Lh'. rewrite (length_app (enc_pre c (-1) es)) in Ld'.
  destruct BO as (He & Hhp); [done|simpl; lia|simpl; lia|apply Hw|rewrite length_app; lia|].
  rewrite length_app in Hhp.
  destruct (BP hafter Ehit HBh Lh He (proj1 Hw)) as (es' & <- & F2).
  destruct (setup_ok c _ _ es f de None safter Eskip HBs eq_refl He) as (skip & Sk & Eq); try done; try lia.
  destruct (start_inv _ (m_wrDoclist (b_files b)) es dafter (m_wrHitlist f) skip Edoc HBd He Sk) as (I & R).
  eexists de, _. split; [by rewrite Ed, last_snoc|]. split; [exact Eq|]. split; [exact I|].
  rewrite R. exact F2.
Qed.
End RoundTrip.

Definition demo_cfg : settings :=
  Settings 2 SPH_HIT_FORMAT_INLINE SPH_HITLESS_NONE true false 128.
Definition demo_word : word :=
  Word 7 [97; 98] (Doc 3 (Create 0 1 false) [Create 0 5 true; Create 40 2 true])
    [Doc 4 (Create 2 9 false) []; Doc 300 (Create 1 1 true) []; Doc 301 (Create 0 2 false) [Create 0 3 false];
     Doc 70000 (Create 0 1 false) []].

Lemma index_roundtrip_witness :
  ∃ de q,
    last (b_dict (fin demo_cfg (feed demo_cfg (word_stream demo_word) init_builder))) = Some de /\
    DiskIndexQwordSetup demo_cfg (b_files (fin demo_cfg (feed demo_cfg (word_stream demo_word) init_builder))) de
      = Some q /\
    disk_inv (-1) q /\ Forall2 (posting_is (qs q)) (wd_docs demo_word) (disk_rem q).
Proof.
  refine (index_roundtrip demo_cfg 1 eq_refl eq_refl init_builder demo_word [] [] [] _ _ _ _ _ _ _ _ _ _ _);
    try (vm_compute; reflexivity).
  - split; reflexivity.
  - split; [|intros _; simpl; lia]. simpl. unfold doc_ok, in_type, adjacent. cbn [hits_from d_hits d_first d_more].
    unfold SearchNode.INVALID_ROWID. unfold in_type, adjacent.
    repeat split; try (vm_compute; congruence).
  - left. vm_compute. congruence.
  - apply (bool_decide_unpack _). vm_compute. exact I.
  - apply (bool_decide_unpack _). vm_compute. exact I.
  - constructor.
Defined.
End HitBuilderRead.
