(* ===== verification/SearchExample.v ===== *)
(** * A worked example

    Two keywords of a small index, as bytes of a doclist file: the theorems on
    readers and on whole queries applied to them. *)

From S2P Require Import Prelude Zip Hits Span SearchNode SearchNodeOk ExtTerm Query Ranker Search Doclist DoclistOk.
Import Zip Hitman FieldMask Span SearchNode SearchNodeOk ExtTerm Query Ranker Search Doclist DoclistOk.

Module SearchExample.

Definition first_kw : list entry :=
  [Entry 3 1 1 1 1; Entry 7 2 1 4 2; Entry 9 1 2 16777217 3; Entry 500 1 2 16777217 3].
Definition second_kw : list entry := [Entry 7 1 1 1 1; Entry 8 1 1 2 2].

(** The setup of the reader of a keyword whose list is the whole file, with a
    skiplist of two blocks. *)
Definition file_of (es : list entry) : list Z := enc (Setup false true [] [] None) (-1) es.
Definition skips_of (es : list entry) : option (list SkiplistEntry_t) :=
  match es with
  | [e1; e2; e3; e4] =>
      Some [SkiplistEntry 0 0 0;
            SkiplistEntry 8 (Z.of_nat (length (enc_pre (Setup false true [] [] None) (-1) [e1; e2]))) 3]
  | _ => None
  end.
Definition setup_of (es : list entry) : setup := Setup false true (file_of es) [1; 2; 3] (skips_of es).
Definition reader_of (es : list entry) : DiskIndexQword_c :=
  DiskIndexQword (setup_of es) (DocState (file_of es) INVALID_ROWID UnsetAll 0 0 0 false (-1))
    (HitState [] 0 0 0) (Z.of_nat (length es)).

Lemma reader_inv es :
  entries_ok (setup_of es) (-1) 0 es -> Forall is_byte (file_of es) -> skips_ok (setup_of es) [] es ->
  qinv_at [] es [] (-1) (reader_of es) [] es.
Proof.
  intros He HB Hs. split; [split; [by rewrite app_nil_r|split; done]|]. split; [done|].
  split; [split; try done; by rewrite app_nil_r|]. split; [by left|]. by apply postings_rows.
Qed.

Lemma first_inv : qinv_at [] first_kw [] (-1) (reader_of first_kw) [] first_kw.
Proof.
  apply reader_inv.
  - apply (bool_decide_unpack _). unfold entries_ok, entry_ok, in_type. vm_compute. exact I.
  - apply (bool_decide_unpack _). vm_compute. exact I.
  - intros l [= <-]. split; [done|]. split; [apply sortedb_sorted; reflexivity|].
    constructor; [|constructor; [|constructor]].
    + exists []. split; [by exists first_kw|done].
    + exists (take 2 first_kw). split; [by exists (drop 2 first_kw)|]. by vm_compute.
Qed.

Lemma second_inv : qinv_at [] second_kw [] (-1) (reader_of second_kw) [] second_kw.
Proof.
  apply reader_inv.
  - apply (bool_decide_unpack _). unfold entries_ok, entry_ok, in_type. vm_compute. exact I.
  - apply (bool_decide_unpack _). vm_compute. exact I.
  - intros l [=].
Qed.

Lemma advance_to_correct_witness :
  ∃ d', AdvanceTo (setup_of first_kw) 10 (qd (reader_of first_kw)) = Some (500, d').
Proof.
  refine (advance_to_correct [] first_kw [] (-1) (reader_of first_kw) [] first_kw 10 first_inv _).
  unfold INVALID_ROWID. lia.
Defined.

Definition term_of (es : list entry) : ExtTerm_T DiskIndexQword_c :=
  MkTerm (reader_of es) false false SetAll false half false (RowIdBoundaries 0 INVALID_ROWID) 1 [] 0 0 0.

(** [first MAYBE second], and a sorter that counts. *)
Definition demo_tree : tree DiskIndexQword_c :=
  Twofer SPH_QUERY_MAYBE (Term (term_of first_kw)) (Term (term_of second_kw)).

#[export] Instance count_sorter : ISphMatchSorter (list CSphMatch) := { Push m l := (true, l ++ [m]) }.

Definition demo_cfg : config := Config true (λ _, false) 1 (λ _, 1).
Definition demo_mcfg : match_cfg := MatchCfg true (λ x, x =? 9) false (λ _, true) true 1.

Lemma demo_tree_ok : tree_ok demo_tree.
Proof.
  split; (split; [done|]); intros _.
  - by exists [], first_kw, [], [], first_kw; apply first_inv.
  - by exists [], second_kw, [], [], second_kw; apply second_inv.
Qed.

Lemma search_complete_witness :
  ∃ l1 l2 w', result demo_cfg true demo_mcfg (eval demo_tree) (l1 ++ l2) /\
    cut Push true 10 [] l1 l2 False /\
    MatchExtended demo_cfg demo_mcfg (weigh_of demo_cfg true) (ranker_of demo_tree) [] 10 (mkWorld None None) = Some (push_all Push l1 [], w').
Proof.
  refine (search_complete demo_cfg demo_mcfg true demo_tree [] 10 (mkWorld None None) demo_tree_ok eq_refl eq_refl _). lia.
Defined.

Lemma search_deadline_witness :
  ∃ l1 l2 w', result demo_cfg true demo_mcfg (eval demo_tree) (l1 ++ l2) /\
    cut Push true 2 [] l1 l2 (expired w') /\
    MatchExtended demo_cfg demo_mcfg (weigh_of demo_cfg true) (ranker_of demo_tree) [] 2 (mkWorld (Some 1%nat) None) = Some (push_all Push l1 [], w').
Proof.
  refine (search_deadline demo_cfg demo_mcfg true demo_tree [] 2 (mkWorld (Some 1%nat) None) demo_tree_ok eq_refl _). lia.
Defined.

(** The three rows 3, 7 and 500 are found, row 9 is in the kill list. *)
Example demo_rows :
  (map mt_tRowID ∘ fst) <$>
    MatchExtended demo_cfg demo_mcfg (weigh_of demo_cfg true) (ranker_of demo_tree) [] 10 (mkWorld None None)
  = Some [3; 7; 500].
Proof. vm_compute. reflexivity. Qed.
End SearchExample.
