(* ===== verification/FileIO.v ===== *)
(** * Buffered file output (src/src/fileio.cpp, [CSphWriter])

    Every index file is written through [CSphWriter], a buffer in front of a
    file descriptor.  The writer is modelled with its buffer, its positions and
    failing writes, and shown to refine a plain file with a write position. *)

From S2P Require Import Prelude Zip.
Import Zip.

Module FileIO.

(** Overwrite [f] with [bs] at [p], extending it at the end. *)
Definition overlay (f : list Z) (p : nat) (bs : list Z) : list Z :=
  take p f ++ bs ++ drop (p + length bs) f.

(** ** The writer *)

Record CSphWriter := Writer {
  w_disk : list Z;        (* the contents of the file *)
  w_fdpos : nat;          (* the offset of the descriptor *)
  m_iPos : Z;
  m_iDiskPos : Z;
  m_iPoolUsed : Z;
  w_pool : list Z;        (* the bytes from m_pBuffer to m_pPool *)
  m_iBufferSize : Z;
  m_bError : bool;
  w_io : list bool        (* the outcomes of the next writes to the descriptor *)
}.

(** [sphWriteThrottled]; a failed write leaves the file as it was. *)
Definition write_fd (bs : list Z) (w : CSphWriter) : bool * CSphWriter :=
  let '(ok, io) := match w_io w with [] => (true, []) | b :: l => (b, l) end in
  if (ok : bool) then
    (true, Writer (overlay (w_disk w) (w_fdpos w) bs) (w_fdpos w + length bs) (m_iPos w) (m_iDiskPos w)
       (m_iPoolUsed w) (w_pool w) (m_iBufferSize w) (m_bError w) io)
  else
    (false, Writer (w_disk w) (w_fdpos w) (m_iPos w) (m_iDiskPos w) (m_iPoolUsed w) (w_pool w)
       (m_iBufferSize w) (m_bError w) io).

(** [Flush], for a writer with a file of its own ([m_pSharedOffset] null). *)
Definition Flush (w : CSphWriter) : CSphWriter :=
  let '(ok, w) := write_fd (take (Z.to_nat (m_iPoolUsed w)) (w_pool w)) w in
  Writer (w_disk w) (w_fdpos w) (m_iPos w) (m_iDiskPos w + m_iPoolUsed w) 0 [] (m_iBufferSize w)
    (if (ok : bool) then m_bError w else true) (w_io w).

Definition UpdatePoolUsed (w : CSphWriter) : CSphWriter :=
  let n := Z.of_nat (length (w_pool w)) in
  Writer (w_disk w) (w_fdpos w) (m_iPos w) (m_iDiskPos w)
    (if m_iPoolUsed w <? n then n else m_iPoolUsed w) (w_pool w) (m_iBufferSize w) (m_bError w) (w_io w).

(** [memcpy ( m_pPool, ... ); m_pPool += ...]. *)
Definition copy_pool (bs : list Z) (w : CSphWriter) : CSphWriter :=
  Writer (w_disk w) (w_fdpos w) (m_iPos w) (m_iDiskPos w) (m_iPoolUsed w) (w_pool w ++ bs)
    (m_iBufferSize w) (m_bError w) (w_io w).

Definition add_pos (n : Z) (w : CSphWriter) : CSphWriter :=
  Writer (w_disk w) (w_fdpos w) (m_iPos w + n) (m_iDiskPos w) (m_iPoolUsed w) (w_pool w)
    (m_iBufferSize w) (m_bError w) (w_io w).

Definition PutByte (uValue : Z) (w : CSphWriter) : CSphWriter :=
  let w := if m_iPoolUsed w =? m_iBufferSize w then Flush w else w in
  add_pos 1 (UpdatePoolUsed (copy_pool [uValue] w)).

(** The loop of [PutBytes]; a turn writes at least one byte. *)
Fixpoint put_loop (fuel : nat) (pBuf : list Z) (w : CSphWriter) : option CSphWriter :=
  match fuel with
  | O => None
  | S fuel' =>
      let iSize := Z.of_nat (length pBuf) in
      if iSize >? 0 then
        let iPut := if iSize <? m_iBufferSize w then iSize else m_iBufferSize w in
        let w := if m_iPoolUsed w + iPut >? m_iBufferSize w then Flush w else w in
        let w := add_pos iPut (UpdatePoolUsed (copy_pool (take (Z.to_nat iPut) pBuf) w)) in
        put_loop fuel' (drop (Z.to_nat iPut) pBuf) w
      else Some w
  end.

Definition PutBytes (pData : list Z) (w : CSphWriter) : CSphWriter :=
  default w (put_loop (S (length pData)) pData w).

(** Integers are stored in memory order, little endian. *)
Fixpoint le_bytes (n : nat) (v : Z) : list Z :=
  match n with O => [] | S n' => v mod 256 :: le_bytes n' (v / 256) end.

Definition PutDword (v : Z) : CSphWriter -> CSphWriter := PutBytes (le_bytes 4 v).
Definition PutOffset (v : Z) : CSphWriter -> CSphWriter := PutBytes (le_bytes 8 v).
Definition ZipInt (v : Z) (w : CSphWriter) : CSphWriter := fold_left (λ w b, PutByte b w) (zint v) w.
Definition ZipOffset (v : Z) (w : CSphWriter) : CSphWriter := fold_left (λ w b, PutByte b w) (zoff v) w.

(** Strings with their length before them; the length is an [int]. *)
Definition PutString (s : list Z) (w : CSphWriter) : CSphWriter :=
  let iLen := cast int32_t (Z.of_nat (length s)) in
  let w := PutDword (cast DWORD iLen) w in
  if iLen =? 0 then w else PutBytes (take (Z.to_nat iLen) s) w.
Definition PutZString (s : list Z) (w : CSphWriter) : CSphWriter :=
  let iLen := cast int32_t (Z.of_nat (length s)) in
  let w := ZipOffset (cast uint64_t iLen) w in
  if iLen =? 0 then w else PutBytes (take (Z.to_nat iLen) s) w.

(** [sphTruncate]: the file ends at the offset of the descriptor; [ftruncate]
    fills with zeros what is missing. *)
Definition sphTruncate (p : nat) (f : list Z) : list Z := take p f ++ replicate (p - length f) 0.

Definition SeekTo (iPos : Z) (bTruncate : bool) (w : CSphWriter) : CSphWriter :=
  if (m_iDiskPos w <=? iPos) && (iPos <=? m_iDiskPos w + m_iPoolUsed w) then
    let n := iPos - m_iDiskPos w in
    Writer (w_disk w) (w_fdpos w) iPos (m_iDiskPos w) n (take (Z.to_nat n) (w_pool w)) (m_iBufferSize w)
      (m_bError w) (w_io w)
  else
    let w := Flush w in
    let p := Z.to_nat iPos in
    Writer (if bTruncate then sphTruncate p (w_disk w) else w_disk w) p iPos iPos 0 [] (m_iBufferSize w)
      (m_bError w) (w_io w).

(** [CloseFile], up to the closing of the descriptor. *)
Definition CloseFile (bTruncate : bool) (w : CSphWriter) : CSphWriter :=
  let w := Flush w in
  Writer (if bTruncate then sphTruncate (w_fdpos w) (w_disk w) else w_disk w) (w_fdpos w) (m_iPos w) (m_iDiskPos w)
    (m_iPoolUsed w) (w_pool w) (m_iBufferSize w) (m_bError w) (w_io w).

(** [OpenFile] of a new file. *)
Definition OpenFile (iBufferSize : Z) (io : list bool) : CSphWriter :=
  Writer [] 0 0 0 0 [] iBufferSize false io.

(** ** The file a writer stands for *)

(** What the file holds once the buffer is written, and where the next byte
    goes. *)
Definition view (w : CSphWriter) : list Z := overlay (w_disk w) (Z.to_nat (m_iDiskPos w)) (w_pool w).

(** Well formed, as long as no write has failed. *)
Record writer_ok (w : CSphWriter) : Prop := {
  wk_fd : m_iDiskPos w = Z.of_nat (w_fdpos w);
  wk_in : (w_fdpos w <= length (w_disk w))%nat;
  wk_used : m_iPoolUsed w = Z.of_nat (length (w_pool w));
  wk_pos : m_iPos w = m_iDiskPos w + m_iPoolUsed w;
  wk_cap : m_iPoolUsed w <= m_iBufferSize w;
  wk_size : 0 < m_iBufferSize w
}.

(** [w] is a writer without an error whose file is [f], writing at [p]. *)
Definition holds (w : CSphWriter) (f : list Z) (p : nat) : Prop :=
  0 < m_iBufferSize w /\
  (m_bError w = false -> writer_ok w /\ view w = f /\ m_iPos w = Z.of_nat p).

Lemma overlay_length f p bs : (p <= length f)%nat -> length (overlay f p bs) = Nat.max (length f) (p + length bs).
Proof. intros. unfold overlay. rewrite !length_app, length_take, length_drop. lia. Qed.

Lemma overlay_overlay f p bs bs' :
  (p <= length f)%nat -> overlay (overlay f p bs) (p + length bs) bs' = overlay f p (bs ++ bs').
Proof.
  intros Hp. unfold overlay at 2. rewrite (app_assoc (take p f)).
  assert (length (take p f ++ bs) = (p + length bs)%nat) as El by (rewrite length_app, length_take; lia).
  rewrite <- El. unfold overlay. rewrite take_app_length, drop_app_ge, El, drop_drop by lia.
  rewrite <- !app_assoc, !length_app. do 4 f_equal. lia.
Qed.

Lemma overlay_nil f p : (p <= length f)%nat -> overlay f p [] = f.
Proof. intros. unfold overlay. simpl. rewrite Nat.add_0_r. apply take_drop. Qed.

Lemma overlay_end f bs : overlay f (length f) bs = f ++ bs.
Proof. unfold overlay. rewrite firstn_all, drop_ge by lia. by rewrite app_nil_r. Qed.

Lemma overlay_lookup f p bs i :
  (p <= length f)%nat ->
  overlay f p bs !! i = if decide (i < p)%nat then f !! i
                        else if decide (i < p + length bs)%nat then bs !! (i - p)%nat else f !! i.
Proof.
  intros Hp. unfold overlay. case_decide.
  - rewrite lookup_app_l by (rewrite length_take; lia). by rewrite lookup_take_lt.
  - rewrite lookup_app_r by (rewrite length_take; lia). rewrite length_take, Nat.min_l by lia.
    case_decide.
    + by rewrite lookup_app_l by lia.
    + rewrite lookup_app_r, lookup_drop by lia. f_equal. lia.
Qed.

(** An error stays. *)
Lemma Flush_error w : m_bError (Flush w) = false -> m_bError w = false.
Proof. unfold Flush, write_fd. destruct (w_io w) as [|[] l]; done. Qed.

Lemma Flush_ok w :
  writer_ok w -> m_bError (Flush w) = false ->
  writer_ok (Flush w) /\ view (Flush w) = view w /\ m_iPos (Flush w) = m_iPos w /\
  w_pool (Flush w) = [] /\ m_iBufferSize (Flush w) = m_iBufferSize w /\
  m_iDiskPos (Flush w) = m_iPos w /\ w_disk (Flush w) = view w.
Proof.
  intros [K1 K2 K3 K4 K5 K6] He. unfold Flush, write_fd in *.
  rewrite K3, Nat2Z.id, firstn_all in *.
  assert (overlay (w_disk w) (w_fdpos w) (w_pool w) = view w) as Ev by (unfold view; by rewrite K1, Nat2Z.id).
  assert (length (view w) = Nat.max (length (w_disk w)) (w_fdpos w + length (w_pool w))) as El
    by (rewrite <- Ev; by apply overlay_length).
  assert (∀ io, let w' := Writer (view w) (w_fdpos w + length (w_pool w)) (m_iPos w) (m_iDiskPos w + m_iPoolUsed w)
      0 [] (m_iBufferSize w) (m_bError w) io in
    writer_ok w' /\ view w' = view w /\ m_iPos w' = m_iPos w /\ w_pool w' = [] /\
    m_iBufferSize w' = m_iBufferSize w /\ m_iDiskPos w' = m_iPos w /\ w_disk w' = view w) as G.
  { intros io w'. split; [split; simpl; lia|]. split.
    - unfold view at 1. subst w'. cbn [w_disk m_iDiskPos w_pool]. apply overlay_nil. lia.
    - subst w'. cbn [m_iPos w_pool m_iBufferSize m_iDiskPos w_disk]. repeat (split; [done|]). split; [lia|done]. }
  destruct (w_io w) as [|[] l]; simpl in *; rewrite ?Ev, <- ?K3; [apply G|apply G|done].
Qed.

(** Bytes that fit go to the buffer. *)
Lemma copy_ok w bs :
  writer_ok w -> m_iPoolUsed w + Z.of_nat (length bs) <= m_iBufferSize w ->
  let w' := add_pos (Z.of_nat (length bs)) (UpdatePoolUsed (copy_pool bs w)) in
  writer_ok w' /\ view w' = overlay (view w) (Z.to_nat (m_iPos w)) bs /\
  m_iPos w' = m_iPos w + Z.of_nat (length bs) /\ m_bError w' = m_bError w /\
  m_iBufferSize w' = m_iBufferSize w.
Proof.
  intros [K1 K2 K3 K4 K5 K6] Hf w'. subst w'.
  assert ((if m_iPoolUsed w <? Z.of_nat (length (w_pool w ++ bs)) then Z.of_nat (length (w_pool w ++ bs))
           else m_iPoolUsed w) = Z.of_nat (length (w_pool w ++ bs))) as Eu.
  { destruct (Z.ltb_spec (m_iPoolUsed w) (Z.of_nat (length (w_pool w ++ bs)))); [done|].
    rewrite length_app in *. lia. }
  unfold add_pos, UpdatePoolUsed, copy_pool. cbn [m_iPoolUsed w_pool]. rewrite Eu.
  split; [split; simpl; rewrite ?length_app; lia|]. split; [|done].
  unfold view. cbn [w_disk m_iDiskPos w_pool].
  replace (Z.to_nat (m_iPos w)) with (Z.to_nat (m_iDiskPos w) + length (w_pool w))%nat by lia.
  symmetry. apply overlay_overlay. lia.
Qed.

(** The loop ends, also after an error. *)
Definition writer_size (w : CSphWriter) : Prop := 0 < m_iBufferSize w.

Lemma Flush_size w : m_iBufferSize (Flush w) = m_iBufferSize w.
Proof. unfold Flush, write_fd. by destruct (w_io w) as [|[] l]. Qed.

Lemma put_loop_total fuel bs w :
  writer_size w -> (length bs < fuel)%nat -> is_Some (put_loop fuel bs w).
Proof.
  unfold writer_size. revert bs w. induction fuel as [|fuel IH]; intros bs w Hs Hf; [lia|]. cbn [put_loop].
  destruct (Z.gtb_spec (Z.of_nat (length bs)) 0) as [Hn|Hn]; [|done].
  apply IH.
  - cbn [add_pos UpdatePoolUsed copy_pool m_iBufferSize]. destruct (_ >? _); [by rewrite Flush_size|done].
  - rewrite length_drop. destruct (_ <? _); lia.
Qed.

Lemma put_loop_error fuel bs w w' :
  put_loop fuel bs w = Some w' -> m_bError w' = false -> m_bError w = false.
Proof.
  revert bs w. induction fuel as [|fuel IH]; intros bs w; [done|]. cbn [put_loop].
  destruct (_ >? 0); [|by intros [= ->]]. intros E He. specialize (IH _ _ E He).
  cbn [add_pos UpdatePoolUsed copy_pool m_bError] in IH. destruct (_ >? _); [by apply Flush_error|done].
Qed.

Lemma put_loop_ok fuel bs w :
  writer_ok w -> (length bs < fuel)%nat ->
  ∃ w', put_loop fuel bs w = Some w' /\
    (m_bError w' = false -> writer_ok w' /\ view w' = overlay (view w) (Z.to_nat (m_iPos w)) bs /\
       m_iPos w' = m_iPos w + Z.of_nat (length bs)).
Proof.
  revert bs w. induction fuel as [|fuel IH]; intros bs w K Hf; [lia|]. cbn [put_loop].
  destruct (Z.gtb_spec (Z.of_nat (length bs)) 0) as [Hn|Hn].
  2: { destruct bs; [|simpl in Hn; lia]. exists w. split; [done|]. intros _. split; [done|].
       rewrite overlay_nil; [split; [done|simpl; lia]|]. unfold view. destruct K.
       rewrite overlay_length; lia. }
  set (iPut := if _ <? _ then _ else _).
  assert (0 < iPut <= Z.of_nat (length bs) /\ iPut <= m_iBufferSize w) as Hp.
  { pose proof (wk_size _ K). subst iPut. destruct (Z.ltb_spec (Z.of_nat (length bs)) (m_iBufferSize w)); lia. }
  set (w1 := if _ >? _ then Flush w else w).
  assert (iPut = Z.of_nat (length (take (Z.to_nat iPut) bs))) as El by (rewrite length_take; lia).
  destruct (decide (m_bError w1 = false)) as [He|He].
  - assert (writer_ok w1 /\ view w1 = view w /\ m_iPos w1 = m_iPos w /\ m_iPoolUsed w1 + iPut <= m_iBufferSize w1) as (K1 & V1 & P1 & C1).
    { subst w1. destruct (Z.gtb_spec (m_iPoolUsed w + iPut) (m_iBufferSize w)).
      - destruct (Flush_ok w K He) as (G1 & G2 & G3 & G4 & G5 & _). repeat (split; [done|]).
        rewrite (wk_used _ G1), G4, G5. simpl. lia.
      - done. }
    rewrite El in C1. destruct (copy_ok w1 _ K1 C1) as (K2 & V2 & P2 & E2 & B2). rewrite <- El in K2, V2, P2, E2, B2.
    destruct (IH (drop (Z.to_nat iPut) bs) _ K2) as (w' & E & G); [rewrite length_drop; lia|].
    exists w'. split; [done|]. intros He'. destruct (G He') as (G1 & G2 & G3). split; [done|].
    rewrite G2, G3, V2, P2, V1, P1. rewrite length_drop. split; [|lia].
    pose proof (wk_pos _ K). pose proof (wk_fd _ K). pose proof (wk_used _ K). pose proof (wk_in _ K).
    replace (Z.to_nat (m_iPos w + iPut)) with (Z.to_nat (m_iPos w) + length (take (Z.to_nat iPut) bs))%nat by lia.
    rewrite overlay_overlay; [by rewrite take_drop|]. unfold view. rewrite overlay_length; lia.
  - assert (∀ fuel bs w, writer_size w -> (length bs < fuel)%nat -> is_Some (put_loop fuel bs w)) as T by apply put_loop_total.
    destruct (T fuel (drop (Z.to_nat iPut) bs) (add_pos iPut (UpdatePoolUsed (copy_pool (take (Z.to_nat iPut) bs) w1)))) as [w' E].
    + unfold writer_size. subst w1. pose proof (wk_size _ K). cbn [add_pos UpdatePoolUsed copy_pool m_iBufferSize].
      destruct (_ >? _); [by rewrite Flush_size|done].
    + rewrite length_drop. lia.
    + exists w'. split; [done|]. intros He'. destruct He. exact (put_loop_error _ _ _ _ E He').
Qed.

Lemma put_loop_size fuel bs w w' :
  put_loop fuel bs w = Some w' -> m_iBufferSize w' = m_iBufferSize w.
Proof.
  revert bs w. induction fuel as [|fuel IH]; intros bs w; [done|]. cbn [put_loop].
  destruct (_ >? 0); [|by intros [= ->]]. intros E. rewrite (IH _ _ E).
  cbn [add_pos UpdatePoolUsed copy_pool m_iBufferSize]. destruct (_ >? _); [apply Flush_size|done].
Qed.

Lemma PutBytes_ok bs w f p :
  holds w f p -> holds (PutBytes bs w) (overlay f p bs) (p + length bs).
Proof.
  intros [Hs H]. unfold PutBytes.
  destruct (put_loop_total (S (length bs)) bs w Hs ltac:(lia)) as [w' E]. rewrite E.
  change (default w (Some w')) with w'. split; [by rewrite (put_loop_size _ _ _ _ E)|]. intros He.
  destruct (H (put_loop_error _ _ _ _ E He)) as (K & <- & Ep).
  destruct (put_loop_ok (S (length bs)) bs w K ltac:(lia)) as (w'' & E' & G). rewrite E in E'. injection E' as <-.
  destruct (G He) as (G1 & G2 & G3). rewrite Ep, Nat2Z.id in G2. split; [done|]. split; [done|]. lia.
Qed.

Lemma PutByte_ok b w f p : holds w f p -> holds (PutByte b w) (overlay f p [b]) (p + 1).
Proof.
  intros [Hs H]. unfold PutByte. set (w1 := if _ =? _ then Flush w else w).
  assert (m_iBufferSize w1 = m_iBufferSize w) as Es by (subst w1; destruct (_ =? _); [apply Flush_size|done]).
  split; [cbn [add_pos UpdatePoolUsed copy_pool m_iBufferSize]; lia|]. intros He.
  cbn [add_pos UpdatePoolUsed copy_pool m_bError] in He.
  assert (writer_ok w1 /\ view w1 = f /\ m_iPos w1 = Z.of_nat p /\ m_iPoolUsed w1 < m_iBufferSize w1) as (K & V & P & C).
  { subst w1. destruct (Z.eqb_spec (m_iPoolUsed w) (m_iBufferSize w)) as [E|N].
    - destruct (H (Flush_error _ He)) as (K & V & P). destruct (Flush_ok w K He) as (G1 & G2 & G3 & G4 & G5 & _).
      split; [done|]. split; [congruence|]. split; [congruence|]. rewrite (wk_used _ G1), G4. simpl. lia.
    - destruct (H He) as (K & V & P). repeat (split; [done|]). pose proof (wk_cap _ K). lia. }
  destruct (copy_ok w1 [b] K) as (K2 & V2 & P2 & E2 & _); [simpl; lia|].
  change (Z.of_nat (length [b])) with 1 in *.
  split; [done|]. rewrite V2, V, P, Nat2Z.id. split; [done|]. lia.
Qed.

Lemma put_bytes_each bs w f p :
  (p <= length f)%nat ->
  holds w f p -> holds (fold_left (λ w b, PutByte b w) bs w) (overlay f p bs) (p + length bs).
Proof.
  revert w f p. induction bs as [|b bs IH]; intros w f p Hp H; simpl.
  { rewrite overlay_nil by done. by rewrite Nat.add_0_r. }
  pose proof (PutByte_ok b w f p H) as H1. apply IH in H1.
  2: { rewrite overlay_length; simpl; lia. }
  change (p + 1)%nat with (p + length [b])%nat in H1.
  rewrite overlay_overlay in H1 by done. simpl in H1. by replace (p + S (length bs))%nat with (p + 1 + length bs)%nat by lia.
Qed.

(** A seek that does not go back into the buffer keeps everything written. *)
Lemma SeekTo_ok iPos w f p :
  holds w f p -> (iPos <= length f)%nat ->
  (m_bError w = false -> Z.of_nat iPos < m_iDiskPos w \/ (p <= iPos)%nat) ->
  holds (SeekTo (Z.of_nat iPos) false w) f iPos.
Proof.
  intros [Hs H] Hi Hb. unfold SeekTo.
  destruct (Z.leb_spec (m_iDiskPos w) (Z.of_nat iPos)), (Z.leb_spec (Z.of_nat iPos) (m_iDiskPos w + m_iPoolUsed w));
    cbn [andb]; (split; [cbn [m_iBufferSize]; rewrite ?Flush_size; done|]); cbn [m_bError]; intros He.
  2-4: destruct (H (Flush_error _ He)) as ([K1 K2 K3 K4 K5 K6] & V & P);
       destruct (Flush_ok w (Build_writer_ok _ K1 K2 K3 K4 K5 K6) He) as (G1 & G2 & G3 & G4 & G5 & G6 & G7);
       (split; [split; cbn [m_iDiskPos w_fdpos w_disk m_iPoolUsed w_pool m_iPos m_iBufferSize length];
          rewrite ?G7, ?V, ?G5; lia|]);
       (split; [unfold view; cbn [w_disk m_iDiskPos w_pool]; rewrite G7, V; by apply overlay_nil; lia|done]).
  destruct (H He) as ([K1 K2 K3 K4 K5 K6] & V & P). destruct (Hb He) as [?|?]; [lia|].
  assert (Z.of_nat iPos - m_iDiskPos w = m_iPoolUsed w) as E by lia. rewrite E, K3, Nat2Z.id, firstn_all.
  split; [split; simpl; lia|]. split; [exact V|done].
Qed.

(** A seek past the end that truncates makes the file longer. *)
Lemma SeekTo_grow iPos w f : holds w f (length f) -> (length f <= iPos)%nat -> holds (SeekTo (Z.of_nat iPos) true w) (f ++ replicate (iPos - length f) 0) iPos.
Proof.
  intros [Hs H] Hi. assert (length (f ++ replicate (iPos - length f) 0) = iPos) as El by (rewrite length_app, length_replicate; lia). unfold SeekTo.
  destruct (Z.leb_spec (m_iDiskPos w) (Z.of_nat iPos)), (Z.leb_spec (Z.of_nat iPos) (m_iDiskPos w + m_iPoolUsed w));
    cbn [andb]; (split; [cbn [m_iBufferSize]; rewrite ?Flush_size; done|]); cbn [m_bError]; intros He.
  2-4: destruct (H (Flush_error _ He)) as (K & V & P); destruct (Flush_ok w K He) as (G1 & G2 & G3 & G4 & G5 & G6 & G7);
       rewrite Nat2Z.id, G7, V; unfold sphTruncate; rewrite take_ge by lia;
       (split; [split; cbn [m_iDiskPos w_fdpos w_disk m_iPoolUsed w_pool m_iPos m_iBufferSize length]; rewrite ?El, ?G5; lia|]);
       (split; [unfold view; cbn [w_disk m_iDiskPos w_pool]; rewrite Nat2Z.id; apply overlay_nil; lia|done]).
  destruct (H He) as ([K1 K2 K3 K4 K5 K6] & V & P).
  assert (Z.of_nat iPos - m_iDiskPos w = m_iPoolUsed w) as E by lia. rewrite E, K3, Nat2Z.id, firstn_all. replace (iPos - length f)%nat with 0%nat by lia. rewrite app_nil_r.
  split; [split; simpl; lia|]. split; [exact V|done].
Qed.

(** ** Patching what is already on disk *)

(** [holds], and what is before [b] has left the buffer. *)
Definition holds_from (w : CSphWriter) (f : list Z) (p : nat) (b : Z) : Prop :=
  holds w f p /\ (m_bError w = false -> b <= m_iDiskPos w).

Lemma put_loop_disk fuel bs w w' :
  0 <= m_iPoolUsed w -> put_loop fuel bs w = Some w' -> m_iDiskPos w <= m_iDiskPos w'.
Proof.
  revert bs w. induction fuel as [|fuel IH]; intros bs w Hu; [done|]. cbn [put_loop].
  destruct (_ >? 0); [|by intros [= ->]]. intros E. set (w1 := if _ >? m_iBufferSize w then Flush w else w) in E.
  assert (0 <= m_iPoolUsed w1 /\ m_iDiskPos w <= m_iDiskPos w1) as [U1 D1].
  { subst w1. destruct (_ >? _); [|done]. unfold Flush, write_fd. destruct (w_io w) as [|[] l]; simpl; lia. }
  apply IH in E; cbn [add_pos UpdatePoolUsed copy_pool m_iDiskPos m_iPoolUsed] in *; [lia|].
  match goal with |- 0 <= (if ?b then _ else _) => destruct b end; lia.
Qed.

Lemma PutBytes_error bs w : 0 < m_iBufferSize w -> m_bError (PutBytes bs w) = false -> m_bError w = false.
Proof.
  intros Hs. unfold PutBytes. destruct (put_loop_total (S (length bs)) bs w Hs ltac:(lia)) as [w' E]. rewrite E.
  apply (put_loop_error _ _ _ _ E).
Qed.

Lemma PutBytes_from bs w f p b :
  holds_from w f p b -> holds_from (PutBytes bs w) (overlay f p bs) (p + length bs) b.
Proof.
  intros [H Hb]. split; [by apply PutBytes_ok|]. intros He. pose proof (PutBytes_error bs w (proj1 H) He) as He0.
  destruct H as [Hs H]. destruct (H He0) as (K & _). specialize (Hb He0). unfold PutBytes.
  destruct (put_loop_total (S (length bs)) bs w Hs ltac:(lia)) as [w' E]. rewrite E. simpl.
  pose proof (put_loop_disk _ _ _ _ ltac:(rewrite (wk_used _ K); lia) E). lia.
Qed.

Lemma Flush_from w f p : holds w f p -> holds_from (Flush w) f p (Z.of_nat p).
Proof.
  intros [Hs H]. split; [split; [by rewrite Flush_size|]|]; intros He;
    destruct (H (Flush_error _ He)) as (K & V & P); destruct (Flush_ok w K He) as (G1 & G2 & G3 & _ & _ & G6 & _).
  - split; [done|]. split; congruence.
  - lia.
Qed.

(** Seeking into what has left the buffer, or forward. *)
Lemma SeekTo_from iPos w f p b :
  holds_from w f p b -> (iPos <= length f)%nat -> Z.of_nat iPos < b \/ (p <= iPos)%nat ->
  holds_from (SeekTo (Z.of_nat iPos) false w) f iPos (if bool_decide (iPos = p) then b else Z.of_nat iPos).
Proof.
  intros [H Hb] Hi Hp. split.
  - apply (SeekTo_ok iPos w f p); [done|done|]. intros He. specialize (Hb He). lia.
  - destruct H as [Hs H]. unfold SeekTo.
    destruct (Z.leb_spec (m_iDiskPos w) (Z.of_nat iPos)), (Z.leb_spec (Z.of_nat iPos) (m_iDiskPos w + m_iPoolUsed w));
      cbn [andb m_bError m_iDiskPos]; intros He.
    2-4: case_bool_decide; [|done]; specialize (Hb (Flush_error _ He)); destruct (H (Flush_error _ He)) as (K & _ & P);
         pose proof (wk_pos _ K); pose proof (wk_used _ K); subst; lia.
    specialize (Hb He). destruct (H He) as (K & _ & P). pose proof (wk_pos _ K). case_bool_decide; lia.
Qed.

(** Every operation keeps the buffer and an error. *)
Definition evolves (w w' : CSphWriter) : Prop :=
  0 < m_iBufferSize w -> 0 < m_iBufferSize w' /\ (m_bError w' = false -> m_bError w = false).

#[export] Instance evolves_preorder : PreOrder evolves.
Proof.
  split; [by intros w Hs|]. intros w1 w2 w3 H1 H2 Hs. destruct (H1 Hs) as [S1 E1]. destruct (H2 S1) as [S2 E2]. auto.
Qed.

Lemma put_evolves bs w : evolves w (PutBytes bs w).
Proof.
  intros Hs. split; [|by apply PutBytes_error]. unfold PutBytes.
  destruct (put_loop_total (S (length bs)) bs w Hs ltac:(lia)) as [w' E]. rewrite E.
  change (default w (Some w')) with w'. by rewrite (put_loop_size _ _ _ _ E).
Qed.

Lemma flush_evolves w : evolves w (Flush w).
Proof. intros Hs. rewrite Flush_size. split; [done|apply Flush_error]. Qed.

Lemma seek_evolves p b w : evolves w (SeekTo p b w).
Proof.
  intros Hs. unfold SeekTo. destruct (_ && _); [done|]. cbn [m_iBufferSize m_bError].
  rewrite Flush_size. split; [done|apply Flush_error].
Qed.

Lemma fold_evolves {A} (f : CSphWriter -> A -> CSphWriter) l w :
  (∀ w x, evolves w (f w x)) -> evolves w (fold_left f l w).
Proof.
  intros Hf. revert w. induction l as [|x l IH]; intros w; [done|]. rewrite fold_left_cons.
  etransitivity; [apply Hf|apply IH].
Qed.

Lemma failed_holds w w' f p b :
  evolves w w' -> 0 < m_iBufferSize w -> m_bError w = true -> holds_from w' f p b.
Proof.
  intros H Hs He. destruct (H Hs) as [S1 E1]. split; [split; [done|]|]; intros E; apply E1 in E; congruence.
Qed.

(** ** What precedes the write position *)

(** The bytes before the write position are [f]. *)
Definition wrote (w : CSphWriter) (f : list Z) : Prop :=
  0 < m_iBufferSize w /\
  (m_bError w = false -> writer_ok w /\ m_iPos w = Z.of_nat (length f) /\ ∃ tail, view w = f ++ tail).

Lemma view_length w : writer_ok w -> m_iPos w <= Z.of_nat (length (view w)).
Proof.
  intros [K1 K2 K3 K4 K5 K6]. unfold view. rewrite overlay_length; lia.
Qed.

Lemma wrote_put w w' f bs :
  (∀ g p, holds w g p -> holds w' (overlay g p bs) (p + length bs)) -> (m_bError w' = false -> m_bError w = false) ->
  wrote w f -> wrote w' (f ++ bs).
Proof.
  intros H He [Hs W].
  destruct (H (view w) (Z.to_nat (m_iPos w))) as [Hs' W'].
  { split; [done|]. intros E. destruct (W E) as (K & P & _). split; [done|]. split; [done|]. lia. }
  split; [done|]. intros E. destruct (W' E) as (K' & V' & P'). destruct (W (He E)) as (K & P & tail & V).
  split; [done|]. rewrite P, Nat2Z.id in *. split; [by rewrite P', length_app|].
  rewrite V', V. unfold overlay. rewrite take_app_length. eexists. by rewrite <- app_assoc.
Qed.

Lemma PutByte_error b w : m_bError (PutByte b w) = false -> m_bError w = false.
Proof.
  unfold PutByte. cbn [add_pos UpdatePoolUsed copy_pool m_bError]. destruct (_ =? _); [apply Flush_error|done].
Qed.

Lemma PutByte_each bs w f : wrote w f -> wrote (fold_left (λ w b, PutByte b w) bs w) (f ++ bs).
Proof.
  revert w f. induction bs as [|b bs IH]; intros w f H; simpl; [by rewrite app_nil_r|].
  assert (wrote (PutByte b w) (f ++ [b])) as H1.
  { apply (wrote_put w); [intros; by apply PutByte_ok|apply PutByte_error|done]. }
  pose proof (IH _ _ H1) as I. by rewrite <- app_assoc in I.
Qed.

(** Seeking back, inside the buffer or behind it. *)
Lemma SeekTo_back iPos w f :
  wrote w f -> (iPos <= length f)%nat -> wrote (SeekTo (Z.of_nat iPos) false w) (take iPos f).
Proof.
  intros [Hs W] Hi. unfold SeekTo.
  destruct (Z.leb_spec (m_iDiskPos w) (Z.of_nat iPos)), (Z.leb_spec (Z.of_nat iPos) (m_iDiskPos w + m_iPoolUsed w));
    cbn [andb]; (split; [cbn [m_iBufferSize]; rewrite ?Flush_size; done|]); cbn [m_bError]; intros He.
  2-4: destruct (W (Flush_error _ He)) as (K & P & tail & V); pose proof (view_length _ K);
       destruct (Flush_ok w K He) as (G1 & G2 & G3 & G4 & G5 & G6 & G7);
       (split; [split; cbn [m_iDiskPos w_fdpos w_disk m_iPoolUsed w_pool m_iPos m_iBufferSize length];
          rewrite ?G7, ?G5; lia|]);
       (split; [cbn [m_iPos]; rewrite length_take; lia|]); exists (drop iPos f ++ tail);
       unfold view; cbn [w_disk m_iDiskPos w_pool]; rewrite G7, overlay_nil by lia;
       by rewrite app_assoc, take_drop.
  destruct (W He) as ([K1 K2 K3 K4 K5 K6] & P & tail & V).
  split; [split; cbn [m_iDiskPos w_fdpos w_disk m_iPoolUsed w_pool m_iPos m_iBufferSize]; rewrite ?length_take; lia|].
  split; [cbn [m_iPos]; rewrite length_take; lia|].
  assert (take iPos (view w) = take iPos f) as <- by (rewrite V; apply take_app_le; lia).
  unfold view. cbn [w_disk m_iDiskPos w_pool]. unfold overlay. rewrite K1, Nat2Z.id.
  assert (length (take (w_fdpos w) (w_disk w)) = w_fdpos w) as El by (rewrite length_take; lia).
  rewrite take_app_ge, El, take_app_le by lia.
  replace (Z.to_nat (Z.of_nat iPos - Z.of_nat (w_fdpos w))) with (iPos - w_fdpos w)%nat by lia.
  rewrite app_assoc. by eexists.
Qed.

Lemma CloseFile_ok w f p :
  holds w f p -> let w' := CloseFile false w in m_bError w' = false -> w_disk w' = f.
Proof.
  intros [Hs H] w' He. subst w'. unfold CloseFile in *. cbn [m_bError w_disk] in *.
  destruct (H (Flush_error _ He)) as (K & V & P). destruct (Flush_ok w K He) as (_ & _ & _ & _ & _ & _ & ->). done.
Qed.

Lemma CloseFile_truncate w f :
  wrote w f -> let w' := CloseFile true w in m_bError w' = false -> w_disk w' = f.
Proof.
  intros [Hs H] w' He. subst w'. unfold CloseFile in *. cbn [m_bError w_disk] in *.
  destruct (H (Flush_error _ He)) as (K & P & tail & V).
  destruct (Flush_ok w K He) as (G1 & _ & _ & _ & _ & G6 & ->).
  replace (w_fdpos (Flush w)) with (length f) by (rewrite (wk_fd _ G1) in G6; lia).
  rewrite V. unfold sphTruncate. rewrite take_app_length, length_app. replace (length f - _)%nat with 0%nat by lia. apply app_nil_r.
Qed.

(** ** Runs of a writer *)

(** What the index builder does with a posting file. *)
Inductive op := Bytes (bs : list Z) | Zipped (bs : list Z) | Back (iPos : nat).

Definition exec (o : op) (w : CSphWriter) : CSphWriter :=
  match o with
  | Bytes bs => PutBytes bs w
  | Zipped bs => fold_left (λ w b, PutByte b w) bs w
  | Back n => SeekTo (Z.of_nat n) false w
  end.

(** The same on the bytes before the write position. *)
Definition exec_ref (o : op) (f : list Z) : list Z :=
  match o with Bytes bs | Zipped bs => f ++ bs | Back n => take n f end.

(** Seeks go back, not beyond the end. *)
Fixpoint ops_ok (ops : list op) (f : list Z) : bool :=
  match ops with
  | [] => true
  | o :: ops' =>
      match o with Back n => bool_decide (n <= length f)%nat | _ => true end && ops_ok ops' (exec_ref o f)
  end.

Lemma exec_ok ops w f :
  wrote w f -> ops_ok ops f = true ->
  wrote (fold_left (λ w o, exec o w) ops w) (fold_left (λ f o, exec_ref o f) ops f).
Proof.
  revert w f. induction ops as [|o ops IH]; intros w f H Ho; [done|]. simpl in *.
  apply andb_prop in Ho as [H1 H2]. apply IH; [|done]. destruct o; simpl.
  - apply (wrote_put w); [intros; by apply PutBytes_ok|exact (PutBytes_error bs w (proj1 H))|done].
  - by apply PutByte_each.
  - apply SeekTo_back; [done|]. by apply bool_decide_eq_true in H1.
Qed.

(** [C12] A file written from its start through [CSphWriter] with writes and with
    seeks back to a position already written, as the hit builder takes bytes back,
    and closed with truncation: if there was no error, it holds exactly the bytes
    that were written and not taken back, whatever the buffer size and wherever the
    buffer was flushed. A seek back takes back everything behind its position;
    forward seeks and closes without truncation are not part of the claim, as
    what is left behind the position then depends on the buffer. *)
Theorem writer_refines_file ops iBufferSize io :
  0 < iBufferSize -> ops_ok ops [] = true ->
  let w := CloseFile true (fold_left (λ w o, exec o w) ops (OpenFile iBufferSize io)) in
  m_bError w = false -> w_disk w = fold_left (λ f o, exec_ref o f) ops [].
Proof.
  intros Hb Ho. assert (wrote (OpenFile iBufferSize io) []) as H0.
  { split; [done|]. intros _. split; [split; simpl; lia|]. split; [done|]. by exists []. }
  exact (CloseFile_truncate _ _ (exec_ok ops _ [] H0 Ho)).
Qed.

Lemma writer_refines_file_witness :
  w_disk (CloseFile true (fold_left (λ w o, exec o w)
    [Bytes [1; 2; 3; 4; 5]; Zipped [6; 7]; Back 4; Zipped [8]; Bytes [9; 10; 11; 12]; Back 7] (OpenFile 3 [])))
  = [1; 2; 3; 4; 8; 9; 10].
Proof. refine (writer_refines_file _ 3 [] _ _ _); [lia|reflexivity|reflexivity]. Defined.
End FileIO.
