(* ===== verification/BinSearch.v ===== *)
(** * Binary search (src/src/std/binarysearch_impl.h)

    The three searches over a sorted range [pStart..pEnd], both ends included.
    A range is a list and two indices, the list holding what the functor
    extracts from the elements. *)

From S2P Require Import Prelude Span.
Import Span.

Module BinSearch.

Section Search.
Variables (d : list Z) (tRef : Z).

(** The loop of [BinarySearch]; the range halves, its length bounds the turns. *)
Fixpoint search_loop (fuel : nat) (pStart pEnd : Z) : option Z :=
  match fuel with
  | O => None
  | S fuel' =>
      if pEnd - pStart >? 1 then
        if (tRef <? at_ d pStart) || (at_ d pEnd <? tRef) then None
        else
          let pMid := pStart + (pEnd - pStart) / 2 in
          if tRef =? at_ d pMid then Some pMid
          else if tRef <? at_ d pMid then search_loop fuel' pStart pMid
          else search_loop fuel' pMid pEnd
      else None
  end.

(** [BinarySearch]; [None] is the null pointer. *)
Definition BinarySearch (pStart pEnd : Z) : option Z :=
  if pEnd <? pStart then None
  else if at_ d pStart =? tRef then Some pStart
  else if at_ d pEnd =? tRef then Some pEnd
  else search_loop (S (Z.to_nat (pEnd - pStart))) pStart pEnd.

(** [BinarySearchFirst] on indices: -1 when there is no occurrence. *)
Fixpoint first_loop (fuel : nat) (iStart iEnd : Z) : Z :=
  match fuel with
  | O => -1
  | S fuel' =>
      if iEnd - iStart >? 1 then
        if (tRef <? at_ d iStart) || (tRef >? at_ d iEnd) then -1
        else
          let iMid := iStart + (iEnd - iStart) / 2 in
          if at_ d iMid >=? tRef then first_loop fuel' iStart iMid else first_loop fuel' iMid iEnd
      else if at_ d iStart =? tRef then iStart
      else if at_ d iEnd =? tRef then iEnd
      else -1
  end.

Definition BinarySearchFirstIndex (iStart iEnd : Z) : Z :=
  first_loop (S (Z.to_nat (iEnd - iStart))) iStart iEnd.

(** [BinarySearchFirst] on pointers. *)
Fixpoint lower_loop (fuel : nat) (pStart pEnd : Z) : option Z :=
  match fuel with
  | O => None
  | S fuel' =>
      if pStart =? pEnd then Some pStart
      else
        let pMid := pStart + (pEnd - pStart) / 2 in
        if tRef >? at_ d pMid then lower_loop fuel' (pMid + 1) pEnd else lower_loop fuel' pStart pMid
  end.

Definition BinarySearchFirst (pStart pEnd : Z) : option Z :=
  if pEnd <? pStart then None else lower_loop (S (Z.to_nat (pEnd - pStart))) pStart pEnd.

(** ** Correctness *)

Hypothesis Hs : sorted d.

Lemma mid_range s e : 0 <= s -> s + 1 < e -> s < s + (e - s) / 2 < e.
Proof.
  intros. pose proof (Z.div_mod (e - s) 2 ltac:(lia)). pose proof (Z.mod_pos_bound (e - s) 2 ltac:(lia)). lia.
Qed.

Lemma search_loop_ok fuel s e :
  0 <= s <= e -> e < len d -> (Z.to_nat (e - s) < fuel)%nat -> at_ d s <> tRef -> at_ d e <> tRef ->
  match search_loop fuel s e with
  | Some i => s <= i <= e /\ at_ d i = tRef
  | None => ∀ i, s <= i <= e -> at_ d i <> tRef
  end.
Proof.
  revert s e. induction fuel as [|fuel IH]; intros s e H1 H2 Hf Ns Ne; [lia|]. cbn [search_loop].
  destruct (Z.gtb_spec (e - s) 1) as [Hg|Hg].
  2: { intros i Hi. assert (i = s \/ i = e) as [->| ->] by lia; done. }
  destruct (Z.ltb_spec tRef (at_ d s)), (Z.ltb_spec (at_ d e) tRef); cbn [orb];
    try (intros i Hi; pose proof (Hs s i ltac:(lia) ltac:(lia)); pose proof (Hs i e ltac:(lia) ltac:(lia)); lia).
  set (m := s + (e - s) / 2). pose proof (mid_range s e ltac:(lia) ltac:(lia)) as Hm. fold m in Hm.
  destruct (Z.eqb_spec tRef (at_ d m)) as [E|N]; [split; [lia|done]|].
  destruct (Z.ltb_spec tRef (at_ d m)) as [L|L].
  - specialize (IH s m ltac:(lia) ltac:(lia) ltac:(lia) Ns ltac:(lia)).
    destruct (search_loop fuel s m) as [i|]; [split; [lia|tauto]|]. intros i Hi.
    destruct (decide (i <= m)); [apply IH; lia|]. pose proof (Hs m i ltac:(lia) ltac:(lia)). lia.
  - specialize (IH m e ltac:(lia) ltac:(lia) ltac:(lia) ltac:(lia) Ne).
    destruct (search_loop fuel m e) as [i|]; [split; [lia|tauto]|]. intros i Hi.
    destruct (decide (m <= i)); [apply IH; lia|]. pose proof (Hs i m ltac:(lia) ltac:(lia)). lia.
Qed.

(** [i] is the first index of the range whose element is not below [tRef]. *)
Definition is_first (s e i : Z) : Prop :=
  s <= i <= e /\ tRef <= at_ d i /\ ∀ j, s <= j < i -> at_ d j < tRef.

Lemma first_loop_ok fuel s e :
  0 <= s <= e -> e < len d -> (Z.to_nat (e - s) < fuel)%nat ->
  let i := first_loop fuel s e in
  (i = -1 /\ (∀ j, s <= j <= e -> at_ d j <> tRef)) \/ (is_first s e i /\ at_ d i = tRef).
Proof.
  revert s e. induction fuel as [|fuel IH]; intros s e H1 H2 Hf; [lia|]. cbn [first_loop].
  destruct (Z.gtb_spec (e - s) 1) as [Hg|Hg].
  2: { destruct (Z.eqb_spec (at_ d s) tRef) as [E|N]; [right; split; [split; [lia|split; lia]|done]|].
       destruct (Z.eqb_spec (at_ d e) tRef) as [E|N'].
       - right. split; [|done]. split; [lia|]. split; [lia|]. intros j Hj.
         pose proof (Hs j e ltac:(lia) ltac:(lia)). assert (j = s) as -> by lia. lia.
       - left. split; [done|]. intros j Hj. assert (j = s \/ j = e) as [->| ->] by lia; done. }
  destruct (Z.ltb_spec tRef (at_ d s)), (Z.gtb_spec tRef (at_ d e)); cbn [orb];
    try (left; split; [done|]; intros i Hi; pose proof (Hs s i ltac:(lia) ltac:(lia));
         pose proof (Hs i e ltac:(lia) ltac:(lia)); lia).
  set (m := s + (e - s) / 2). pose proof (mid_range s e ltac:(lia) ltac:(lia)) as Hm. fold m in Hm.
  destruct (Z.geb_spec (at_ d m) tRef) as [L|L].
  - destruct (IH s m ltac:(lia) ltac:(lia) ltac:(lia)) as [[-> G]|[(G1 & G2 & G3) G4]].
    + left. split; [done|]. intros j Hj. destruct (decide (j <= m)); [apply G; lia|].
      pose proof (G m ltac:(lia)). pose proof (Hs m j ltac:(lia) ltac:(lia)). lia.
    + right. split; [|done]. split; [lia|]. by split.
  - destruct (IH m e ltac:(lia) ltac:(lia) ltac:(lia)) as [[-> G]|[(G1 & G2 & G3) G4]].
    + left. split; [done|]. intros j Hj. destruct (decide (m <= j)); [apply G; lia|].
      pose proof (Hs j m ltac:(lia) ltac:(lia)). lia.
    + right. split; [|done]. split; [lia|]. split; [done|]. intros j Hj.
      destruct (decide (m <= j)); [apply G3; lia|]. pose proof (Hs j m ltac:(lia) ltac:(lia)). lia.
Qed.

Lemma lower_loop_ok fuel s e :
  0 <= s <= e -> e < len d -> (Z.to_nat (e - s) < fuel)%nat ->
  ∃ i, lower_loop fuel s e = Some i /\ s <= i <= e /\ (∀ j, s <= j < i -> at_ d j < tRef) /\
       (i < e -> tRef <= at_ d i).
Proof.
  revert s e. induction fuel as [|fuel IH]; intros s e H1 H2 Hf; [lia|]. cbn [lower_loop].
  destruct (Z.eqb_spec s e) as [->|N].
  { exists e. split; [done|]. split; [lia|]. split; [intros; lia|lia]. }
  set (m := s + (e - s) / 2).
  assert (s <= m < e) as Hm.
  { subst m. pose proof (Z.div_mod (e - s) 2 ltac:(lia)). pose proof (Z.mod_pos_bound (e - s) 2 ltac:(lia)). lia. }
  destruct (Z.gtb_spec tRef (at_ d m)) as [L|L].
  - destruct (IH (m + 1) e ltac:(lia) ltac:(lia) ltac:(lia)) as (i & E & G1 & G2 & G3).
    exists i. split; [done|]. split; [lia|]. split; [|done]. intros j Hj.
    destruct (decide (m < j)); [apply G2; lia|]. pose proof (Hs j m ltac:(lia) ltac:(lia)). lia.
  - destruct (IH s m ltac:(lia) ltac:(lia) ltac:(lia)) as (i & E & G1 & G2 & G3).
    exists i. split; [done|]. split; [lia|]. split; [done|]. intros _.
    destruct (decide (i = m)) as [->|]; [lia|]. apply G3. lia.
Qed.

(** The search the lookups use: the last element if all are below [tRef]. *)
Lemma BinarySearchFirst_ok s e :
  0 <= s <= e -> e < len d ->
  ∃ i, BinarySearchFirst s e = Some i /\ s <= i <= e /\ (∀ j, s <= j < i -> at_ d j < tRef) /\
       (tRef <= at_ d e -> tRef <= at_ d i).
Proof.
  intros H1 H2. unfold BinarySearchFirst. destruct (Z.ltb_spec e s); [lia|].
  destruct (lower_loop_ok (S (Z.to_nat (e - s))) s e H1 H2 ltac:(lia)) as (i & E & G1 & G2 & G3).
  exists i. split; [done|]. split; [done|]. split; [done|]. intros He.
  destruct (decide (i = e)) as [->|]; [done|]. apply G3. lia.
Qed.
End Search.

(** The searches are correct on a sorted range: [BinarySearch] returns an
    occurrence of the value, or null only if there is none; the index search
    returns the leftmost occurrence, or -1 only if there is none; the pointer
    search returns the first element that is not below the value, the last
    element if all are below. *)
Theorem binary_search_correct d tRef s e :
  sorted d -> 0 <= s <= e -> e < len d ->
  match BinarySearch d tRef s e with
  | Some i => s <= i <= e /\ at_ d i = tRef
  | None => ∀ i, s <= i <= e -> at_ d i <> tRef
  end /\
  (let i := BinarySearchFirstIndex d tRef s e in
   (i = -1 /\ ∀ j, s <= j <= e -> at_ d j <> tRef) \/ (is_first d tRef s e i /\ at_ d i = tRef)) /\
  ∃ i, BinarySearchFirst d tRef s e = Some i /\ s <= i <= e /\
    (∀ j, s <= j < i -> at_ d j < tRef) /\ (tRef <= at_ d e -> tRef <= at_ d i).
Proof.
  intros Hs H1 H2. split; [|split].
  - unfold BinarySearch. destruct (Z.ltb_spec e s); [lia|].
    destruct (Z.eqb_spec (at_ d s) tRef); [split; [lia|done]|].
    destruct (Z.eqb_spec (at_ d e) tRef); [split; [lia|done]|].
    apply search_loop_ok; auto; lia.
  - apply first_loop_ok; auto; lia.
  - by apply BinarySearchFirst_ok.
Qed.

Lemma binary_search_correct_witness :
  BinarySearchFirst [1; 3; 3; 3; 8] 3 0 4 = Some 1 /\
  match BinarySearch [1; 3; 3; 3; 8] 3 0 4 with
  | Some i => 0 <= i <= 4 /\ at_ [1; 3; 3; 3; 8] i = 3
  | None => ∀ i, 0 <= i <= 4 -> at_ [1; 3; 3; 3; 8] i <> 3
  end.
Proof.
  split; [reflexivity|]. refine (proj1 (binary_search_correct [1; 3; 3; 3; 8] 3 0 4 _ _ _)).
  - apply sortedb_sorted. reflexivity.
  - lia.
  - reflexivity.
Defined.
End BinSearch.
