(* ===== verification/DocidLookup.v ===== *)
(** * Document id lookup files (src/src/docidlookup.h, docidlookup.cpp)

    The .spt file of an index maps document ids to rows: pairs sorted by id (as
    unsigned numbers), delta coded in blocks, with a checkpoint per block; and,
    for tables with UUID ids, a sorted array of UUID keys.  Its writer, its
    readers and the checks and the upgrade of older files.

    A pointer into the mapped file is an offset; a read outside the file is
    [None]. *)

From S2P Require Import Prelude Zip Span BinSearch FileIO SearchNode.
Import Zip Span BinSearch FileIO SearchNode.

Module DocidLookup.

(** [(uint64_t)tDocID]. *)
Definition u64 (x : Z) : Z := cast uint64_t x.

Record DocidRowidPair_t := DocidRowidPair { m_tDocID : Z; m_tRowID : Z }.
Record DocidLookupCheckpoint_t := DocidLookupCheckpoint { m_tBaseDocID : Z; m_tOffset : Z }.
Record UuidDocidKey_t := UuidDocidKey { m_uHi : Z; m_uLo : Z }.
Record UuidDocidLookupPair_t := UuidDocidLookupPair { m_tKey : UuidDocidKey_t; u_tDocID : Z }.

Definition DOCS_PER_LOOKUP_CHECKPOINT : Z := 64.

(** ** The writer *)

Record DocidLookupWriter_c := LookupWriter {
  m_tWriter : CSphWriter;
  m_nDocs : Z;
  m_iProcessed : Z;
  m_iCheckpoint : nat;
  m_tMaxDocIDPos : Z;
  m_tUuidLookupOffsetPos : Z;
  m_tCheckpointStart : Z;
  m_tLastDocID : Z;
  m_dCheckpoints : list DocidLookupCheckpoint_t
}.

Definition new_writer (w : CSphWriter) (nDocs : Z) : DocidLookupWriter_c :=
  LookupWriter w nDocs 0 0 0 0 0 0 [].

Definition Start (l : DocidLookupWriter_c) : DocidLookupWriter_c :=
  let w := PutDword DOCS_PER_LOOKUP_CHECKPOINT (PutDword (m_nDocs l) (m_tWriter l)) in
  let tMaxDocIDPos := m_iPos w in
  let w := PutOffset 0 w in
  let tUuidLookupOffsetPos := m_iPos w in
  let w := PutOffset 0 w in
  let nCheckpoints :=
    cast DWORD (m_nDocs l + DOCS_PER_LOOKUP_CHECKPOINT - 1) / DOCS_PER_LOOKUP_CHECKPOINT in
  let tCheckpointStart := m_iPos w in
  let w := Nat.iter (Z.to_nat nCheckpoints) (λ w, PutOffset 0 (PutOffset 0 w)) w in
  LookupWriter w (m_nDocs l) (m_iProcessed l) (m_iCheckpoint l) tMaxDocIDPos tUuidLookupOffsetPos
    tCheckpointStart (m_tLastDocID l)
    (replicate (Z.to_nat nCheckpoints) (DocidLookupCheckpoint 0 0)).

Definition AddPair (tPair : DocidRowidPair_t) (l : DocidLookupWriter_c) : DocidLookupWriter_c :=
  let '(w, iCheckpoint, dCheckpoints) :=
    if m_iProcessed l mod DOCS_PER_LOOKUP_CHECKPOINT =? 0 then
      (m_tWriter l, S (m_iCheckpoint l),
       <[m_iCheckpoint l := DocidLookupCheckpoint (m_tDocID tPair) (m_iPos (m_tWriter l))]> (m_dCheckpoints l))
    else
      (ZipOffset (cast uint64_t (u64 (m_tDocID tPair) - u64 (m_tLastDocID l))) (m_tWriter l),
       m_iCheckpoint l, m_dCheckpoints l) in
  let w := PutDword (m_tRowID tPair) w in
  LookupWriter w (m_nDocs l) (m_iProcessed l + 1) iCheckpoint (m_tMaxDocIDPos l)
    (m_tUuidLookupOffsetPos l) (m_tCheckpointStart l) (m_tDocID tPair) dCheckpoints.

Definition set_writer (w : CSphWriter) (l : DocidLookupWriter_c) : DocidLookupWriter_c :=
  LookupWriter w (m_nDocs l) (m_iProcessed l) (m_iCheckpoint l) (m_tMaxDocIDPos l)
    (m_tUuidLookupOffsetPos l) (m_tCheckpointStart l) (m_tLastDocID l) (m_dCheckpoints l).

Definition SetUuidLookupOffset (tOffset : Z) (l : DocidLookupWriter_c) : DocidLookupWriter_c :=
  let w := m_tWriter l in
  let tEnd := m_iPos w in
  let w := SeekTo (m_tUuidLookupOffsetPos l) false w in
  let w := PutOffset tOffset w in
  set_writer (SeekTo tEnd false w) l.

Definition FinalizeNumeric (l : DocidLookupWriter_c) : bool * DocidLookupWriter_c :=
  let w := Flush (m_tWriter l) in
  let tEnd := m_iPos w in
  let w := SeekTo (m_tMaxDocIDPos l) false w in
  let w := PutOffset (m_tLastDocID l) w in
  let w := SeekTo (m_tCheckpointStart l) false w in
  let w := fold_left (λ w i, PutOffset (m_tOffset i) (PutOffset (m_tBaseDocID i) w)) (m_dCheckpoints l) w in
  let w := SeekTo tEnd false w in
  (negb (m_bError w), set_writer w l).

Definition Finalize (l : DocidLookupWriter_c) : bool * DocidLookupWriter_c :=
  let '(ok, l) := FinalizeNumeric l in
  if negb ok then (false, l)
  else
    let w := CloseFile false (m_tWriter l) in
    (negb (m_bError w), set_writer w l).

(** [WriteDocidLookup] of pairs: success and the writer when the file is closed. *)
Definition WriteDocidLookup (iBufferSize : Z) (io : list bool) (dLookup : list DocidRowidPair_t) :
    bool * CSphWriter :=
  let tWriter := Start (new_writer (OpenFile iBufferSize io) (Z.of_nat (length dLookup))) in
  let tWriter := fold_left (λ l i, AddPair i l) dLookup tWriter in
  let '(ok, l) := Finalize tWriter in
  (ok, m_tWriter l).

(** [WriteDocidLookup] of pairs and UUID keys. *)
Definition WriteDocidLookupUuid (iBufferSize : Z) (io : list bool) (dLookup : list DocidRowidPair_t)
    (dUuidLookup : list UuidDocidLookupPair_t) : bool * CSphWriter :=
  let l := Start (new_writer (OpenFile iBufferSize io) (Z.of_nat (length dLookup))) in
  let l := fold_left (λ l i, AddPair i l) dLookup l in
  let '(ok, l) := FinalizeNumeric l in
  if negb ok then (false, m_tWriter l)
  else
    let tEntriesOffset := m_iPos (m_tWriter l) in
    let l := SetUuidLookupOffset tEntriesOffset l in
    let w := fold_left (λ w t, PutOffset (u_tDocID t) (PutOffset (m_uLo (m_tKey t)) (PutOffset (m_uHi (m_tKey t)) w)))
               dUuidLookup (m_tWriter l) in
    let w := CloseFile false w in
    (negb (m_bError w), w).

(** ** The reader *)

Fixpoint le_value (l : list Z) : Z := match l with [] => 0 | b :: l' => b + 256 * le_value l' end.

(** A load of [n] bytes at an offset. *)
Definition load (n : nat) (data : list Z) (off : Z) : option Z :=
  if (0 <=? off) && (off + Z.of_nat n <=? Z.of_nat (length data))
  then Some (le_value (take n (drop (Z.to_nat off) data))) else None.

Definition load_dword (data : list Z) (off : Z) : option Z := load 4 data off.
Definition load_offset (data : list Z) (off : Z) : option Z := cast int64_t <$> load 8 data off.

Record LookupReader_c := LookupReader {
  r_nDocs : Z;
  m_nDocsPerCheckpoint : Z;
  m_nCheckpoints : Z;
  m_tMaxDocID : Z;
  m_pData : list Z;
  m_pCheckpoints : Z      (* the offset of the checkpoint table *)
}.

(** [SetData] on a file that is not empty; the UUID part of the result second.
    A division by zero is [None]. *)
Definition SetData (pData : list Z) (uIndexVersion : Z) : option (LookupReader_c * (Z * Z)) :=
  nDocs ← load_dword pData 0;
  nDocsPerCheckpoint ← load_dword pData 4;
  tMaxDocID ← load_offset pData 8;
  '(tUuidEntriesOffset, p) ←
    (if uIndexVersion >=? 71 then o ← load_offset pData 16; Some (o, 24) else Some (0, 16));
  if nDocsPerCheckpoint =? 0 then None else
  let nCheckpoints := cast int32_t (cast DWORD (nDocs + nDocsPerCheckpoint - 1) / nDocsPerCheckpoint) in
  Some (LookupReader nDocs nDocsPerCheckpoint nCheckpoints tMaxDocID pData p, (tUuidEntriesOffset, nDocs)).

Section Reader.
Variable r : LookupReader_c.

(** [m_pCheckpoints[i]]. *)
Definition checkpoint (i : Z) : option DocidLookupCheckpoint_t :=
  a ← load_offset (m_pData r) (m_pCheckpoints r + 16 * i);
  b ← load_offset (m_pData r) (m_pCheckpoints r + 16 * i + 8);
  Some (DocidLookupCheckpoint a b).

(** The loop of [sphBinarySearchFirst] over checkpoints [pStart..pEnd]. *)
Fixpoint checkpoint_loop (fuel : nat) (tDocID pStart pEnd : Z) : option Z :=
  match fuel with
  | O => None
  | S fuel' =>
      if pStart =? pEnd then Some pStart
      else
        let pMid := pStart + (pEnd - pStart) / 2 in
        c ← checkpoint pMid;
        if u64 tDocID >? u64 (m_tBaseDocID c) then checkpoint_loop fuel' tDocID (pMid + 1) pEnd
        else checkpoint_loop fuel' tDocID pStart pMid
  end.

(** [FindCheckpoint]: the inner [None] is the null pointer. *)
Definition FindCheckpoint (tDocID pStart : Z) : option (option Z) :=
  c ← checkpoint pStart;
  if (u64 tDocID <? u64 (m_tBaseDocID c)) || (u64 tDocID >? u64 (m_tMaxDocID r)) then Some None
  else
    let pEnd := m_nCheckpoints r - 1 in
    if pEnd <? pStart then None else
    pFound ← checkpoint_loop (S (Z.to_nat (pEnd - pStart))) tDocID pStart pEnd;
    c ← checkpoint pFound;
    if u64 (m_tBaseDocID c) >? u64 tDocID then
      if pFound =? 0 then Some None else Some (Some (pFound - 1))
    else Some (Some pFound).

Definition IsLastCheckpoint (pCheckpoint : Z) : bool := pCheckpoint =? m_nCheckpoints r - 1.

Definition GetNumDocsInCheckpoint (pCheckpoint : Z) : Z :=
  if negb (IsLastCheckpoint pCheckpoint) then m_nDocsPerCheckpoint r
  else
    let iLeftover := r_nDocs r mod m_nDocsPerCheckpoint r in
    if iLeftover =? 0 then m_nDocsPerCheckpoint r else iLeftover.

(** [UnzipOffsetBE ( pCur )]: the number and the advanced pointer. *)
Definition unzip_at (pCur : Z) : option (Z * Z) :=
  '(v, rest) ← UnzipOffsetBE (drop (Z.to_nat pCur) (m_pData r));
  Some (cast uint64_t v, Z.of_nat (length (m_pData r) - length rest)).

(** The loop over the entries of a block after its first, [n] left. *)
Fixpoint find_loop (n : nat) (tDocID pCur tCurDocID : Z) : option Z :=
  match n with
  | O => Some INVALID_ROWID
  | S n' =>
      '(tDeltaDocID, pCur) ← unzip_at pCur;
      tRowID ← load_dword (m_pData r) pCur;
      let pCur := pCur + 4 in
      let tCurDocID := cast int64_t (tCurDocID + tDeltaDocID) in
      if tCurDocID =? tDocID then Some tRowID
      else if u64 tCurDocID >? u64 tDocID then Some INVALID_ROWID
      else find_loop n' tDocID pCur tCurDocID
  end.

Definition Find (tDocID : Z) : option Z :=
  c0 ← checkpoint 0;
  if (u64 tDocID <? u64 (m_tBaseDocID c0)) || (u64 tDocID >? u64 (m_tMaxDocID r)) then Some INVALID_ROWID
  else
    found ← FindCheckpoint tDocID 0;
    match found with
    | None => Some INVALID_ROWID
    | Some pFound =>
        c ← checkpoint pFound;
        tRowID ← load_dword (m_pData r) (m_tOffset c);
        if m_tBaseDocID c =? tDocID then Some tRowID
        else find_loop (Z.to_nat (GetNumDocsInCheckpoint pFound - 1)) tDocID (m_tOffset c + 4) (m_tBaseDocID c)
    end.
End Reader.

(** ** The iterator *)

Record LookupReaderIterator_c := LookupIterator {
  it_reader : LookupReader_c;
  m_pCurCheckpoint : option Z;
  m_pCur : Z;
  m_tCurDocID : Z;
  m_iProcessedDocs : Z;
  m_iCheckpointDocs : Z
}.

Definition SetCheckpoint (pCheckpoint : option Z) (it : LookupReaderIterator_c) : option LookupReaderIterator_c :=
  match pCheckpoint with
  | None => Some (LookupIterator (it_reader it) None (m_pCur it) (m_tCurDocID it) (m_iProcessedDocs it) (m_iCheckpointDocs it))
  | Some p =>
      c ← checkpoint (it_reader it) p;
      Some (LookupIterator (it_reader it) (Some p) (m_tOffset c) (m_tBaseDocID c) 0
              (GetNumDocsInCheckpoint (it_reader it) p))
  end.

(** The constructor. *)
Definition LookupReaderIterator (pData : list Z) (uIndexVersion : Z) : option LookupReaderIterator_c :=
  '(r, _) ← SetData pData uIndexVersion;
  SetCheckpoint (Some 0) (LookupIterator r None 0 0 0 0).

(** The rest of [Read], from "no docid stored for first entry" on. *)
Definition read_entry (it : LookupReaderIterator_c) : option (option DocidRowidPair_t * LookupReaderIterator_c) :=
  let r := it_reader it in
  if m_iProcessedDocs it =? 0 then
    tRowID ← load_dword (m_pData r) (m_pCur it);
    Some (Some (DocidRowidPair (m_tCurDocID it) tRowID),
          LookupIterator r (m_pCurCheckpoint it) (m_pCur it + 4) (m_tCurDocID it)
            (m_iProcessedDocs it + 1) (m_iCheckpointDocs it))
  else
    '(tDelta, pCur) ← unzip_at r (m_pCur it);
    tRowID ← load_dword (m_pData r) pCur;
    let tCurDocID := cast int64_t (m_tCurDocID it + tDelta) in
    Some (Some (DocidRowidPair tCurDocID tRowID),
          LookupIterator r (m_pCurCheckpoint it) (pCur + 4) tCurDocID
            (m_iProcessedDocs it + 1) (m_iCheckpointDocs it)).

(** [Read]: the pair, or [None] at the end. *)
Definition Read (it : LookupReaderIterator_c) : option (option DocidRowidPair_t * LookupReaderIterator_c) :=
  match m_pCurCheckpoint it with
  | None => Some (None, it)
  | Some p =>
      let r := it_reader it in
      let over := m_iProcessedDocs it =? m_iCheckpointDocs it in
      if over && IsLastCheckpoint r p then
        Some (None, LookupIterator r None (m_pCur it) (m_tCurDocID it) (m_iProcessedDocs it) (m_iCheckpointDocs it))
      else
        it ← (if over then SetCheckpoint (Some (p + 1)) it else Some it);
        read_entry it
  end.

Definition HintDocID (tDocID : Z) (it : LookupReaderIterator_c) : option LookupReaderIterator_c :=
  match m_pCurCheckpoint it with
  | None => Some it
  | Some p =>
      let r := it_reader it in
      if IsLastCheckpoint r p then Some it
      else
        c ← checkpoint r (p + 1);
        if u64 tDocID <? u64 (m_tBaseDocID c) then Some it
        else
          found ← FindCheckpoint r tDocID (p + 1);
          SetCheckpoint found it
  end.

(** ** UUID keys *)

Definition SameUuidKey (a b : UuidDocidKey_t) : bool := (m_uHi a =? m_uHi b) && (m_uLo a =? m_uLo b).
Definition LessUuidKey (a b : UuidDocidKey_t) : bool :=
  if m_uHi a =? m_uHi b then m_uLo a <? m_uLo b else m_uHi a <? m_uHi b.

(** [m_pEntries] as the offset of the entries, [None] when there are none. *)
Record UuidLookupReader_c := UuidLookupReader {
  ur_pData : list Z;
  m_pEntries : option Z;
  ur_nDocs : Z
}.

Definition UuidSetData (pData : list Z) (tEntriesOffset nDocs : Z) : UuidLookupReader_c :=
  if tEntriesOffset =? 0 then UuidLookupReader pData None 0
  else UuidLookupReader pData (Some tEntriesOffset) nDocs.

Definition UuidGet (r : UuidLookupReader_c) (uEntry : Z) : option UuidDocidLookupPair_t :=
  p ← m_pEntries r;
  let pEntry := p + uEntry * 24 in
  hi ← load 8 (ur_pData r) pEntry;
  lo ← load 8 (ur_pData r) (pEntry + 8);
  id ← load_offset (ur_pData r) (pEntry + 16);
  Some (UuidDocidLookupPair (UuidDocidKey hi lo) id).

(** The bisection of [UuidLookupReader_c::Find]. *)
Fixpoint uuid_loop (fuel : nat) (r : UuidLookupReader_c) (tKey : UuidDocidKey_t) (uBegin uEnd : Z) : option Z :=
  match fuel with
  | O => None
  | S fuel' =>
      if uBegin <? uEnd then
        let uMid := uBegin + (uEnd - uBegin) / 2 in
        tPair ← UuidGet r uMid;
        if LessUuidKey (m_tKey tPair) tKey then uuid_loop fuel' r tKey (uMid + 1) uEnd
        else uuid_loop fuel' r tKey uBegin uMid
      else Some uBegin
  end.

Definition UuidFind (r : UuidLookupReader_c) (tKey : UuidDocidKey_t) : option Z :=
  uBegin ← uuid_loop (S (Z.to_nat (ur_nDocs r))) r tKey 0 (ur_nDocs r);
  if uBegin =? ur_nDocs r then Some 0
  else
    tPair ← UuidGet r uBegin;
    Some (if SameUuidKey (m_tKey tPair) tKey then u_tDocID tPair else 0).

(** ** Format checks and the upgrade of older files *)

Definition DOCID_LOOKUP_SPLIT_VERSION : Z := 65.
Definition DOCID_LOOKUP_SUSPECT_MIN : Z := 71.
Definition DOCID_LOOKUP_SUSPECT_MAX : Z := 72.
Definition DOCID_LOOKUP_UUID_VERSION : Z := 71.

Definition DocidLookupHeaderSize (uIndexVersion : Z) : Z :=
  if uIndexVersion >=? DOCID_LOOKUP_UUID_VERSION then 24 else 16.

Definition FixedIndexFormatVersion (uVersion : Z) : Z :=
  if (uVersion =? 72) || (uVersion =? 74) then 74 else 73.

(** [CheckDocidLookupFormat], the verdict without the message; [None] is a read
    outside the file. *)
Definition CheckDocidLookupFormat (pData : list Z) (uIndexVersion : Z) : option bool :=
  if (uIndexVersion <? DOCID_LOOKUP_SUSPECT_MIN) || (uIndexVersion >? DOCID_LOOKUP_SUSPECT_MAX) then Some true
  else
    let iDataLen := Z.of_nat (length pData) in
    let iHeader := DocidLookupHeaderSize uIndexVersion in
    if iDataLen <? iHeader then Some false
    else
      nDocs ← load_dword pData 0;
      nDocsPerCheckpoint ← load_dword pData 4;
      if nDocs =? 0 then Some true
      else if nDocsPerCheckpoint =? 0 then Some false
      else
        let nCheckpoints := (nDocs + nDocsPerCheckpoint - 1) / nDocsPerCheckpoint in
        let iExpected := iHeader + nCheckpoints * 16 in
        if iDataLen <? iExpected then Some false
        else
          tFirst ← load_offset pData (iHeader + 8);
          Some (tFirst =? iExpected).

Definition DetectDocidLookupVersion (pData : list Z) : option Z :=
  ok ← CheckDocidLookupFormat pData DOCID_LOOKUP_UUID_VERSION;
  if (ok : bool) then Some DOCID_LOOKUP_UUID_VERSION
  else
    ok ← CheckDocidLookupFormat pData (DOCID_LOOKUP_UUID_VERSION - 1);
    Some (if (ok : bool) then DOCID_LOOKUP_UUID_VERSION - 1 else 0).

(** The checkpoints of the old file, written with their offsets shifted. *)
Fixpoint copy_checkpoints (n : nat) (pData : list Z) (p iShift : Z) (w : CSphWriter) : option CSphWriter :=
  match n with
  | O => Some w
  | S n' =>
      a ← load_offset pData p;
      b ← load_offset pData (p + 8);
      copy_checkpoints n' pData (p + 16) iShift (PutOffset (b + iShift) (PutOffset a w))
  end.

(** [UpgradeDocidLookupFile] on the bytes of the file: the result and the bytes
    afterwards; the new file replaces the old one by a rename, which may fail. *)
Definition UpgradeDocidLookupFile (iBufferSize : Z) (io : list bool) (rename_ok : bool) (pData : list Z)
    (uIndexVersion : Z) : option (bool * list Z) :=
  if (uIndexVersion >=? DOCID_LOOKUP_UUID_VERSION) || (uIndexVersion <? DOCID_LOOKUP_SPLIT_VERSION)
  then Some (true, pData)
  else
    ok ← CheckDocidLookupFormat pData uIndexVersion;
    if negb ok then Some (false, pData)
    else
      let iOldHeader := DocidLookupHeaderSize uIndexVersion in
      let iShift := DocidLookupHeaderSize DOCID_LOOKUP_UUID_VERSION - iOldHeader in
      nDocs ← load_dword pData 0;
      nDocsPerCheckpoint ← load_dword pData 4;
      tMaxDocID ← load_offset pData 8;
      if negb (nDocs =? 0) && (nDocsPerCheckpoint =? 0) then None else
      let nCheckpoints := if nDocs =? 0 then 0 else (nDocs + nDocsPerCheckpoint - 1) / nDocsPerCheckpoint in
      let iDataStart := iOldHeader + nCheckpoints * 16 in
      let w := OpenFile iBufferSize io in
      let w := PutDword nDocsPerCheckpoint (PutDword nDocs w) in
      let w := PutOffset 0 (PutOffset tMaxDocID w) in
      w ← copy_checkpoints (Z.to_nat nCheckpoints) pData iOldHeader iShift w;
      let w := PutBytes (drop (Z.to_nat iDataStart) pData) w in
      let w := CloseFile false w in
      if m_bError w then Some (false, pData)
      else if negb rename_ok then Some (false, pData)
      else Some (true, w_disk w).
End DocidLookup.
