(* ===== verification/DocidLookupOk.v ===== *)
(** * What a document id lookup file holds

    The format of the .spt file, the proof that the writer produces it and that
    the readers find in it exactly the pairs that were written. *)

From S2P Require Import Prelude Zip Span BinSearch FileIO SearchNode DocidLookup.
Import Zip Span BinSearch FileIO SearchNode DocidLookup.

Module DocidLookupOk.

Abbreviation pair := DocidRowidPair_t.

(** ** Numbers in memory order *)

Lemma le_bytes_length n v : length (le_bytes n v) = n.
Proof. revert v. induction n; intros v; simpl; auto. Qed.

Lemma le_bytes_bytes n v : Forall is_byte (le_bytes n v).
Proof.
  revert v. induction n as [|n IH]; intros v; simpl; constructor; [|apply IH].
  unfold is_byte. pose proof (Z.mod_pos_bound v 256 ltac:(lia)). lia.
Qed.

Lemma le_value_bytes n v : le_value (le_bytes n v) = v mod 256 ^ Z.of_nat n.
Proof.
  revert v. induction n as [|n IH]; intros v; simpl le_bytes; simpl le_value.
  { by rewrite Z.mod_1_r. }
  rewrite IH. rewrite Nat2Z.inj_succ, Z.pow_succ_r by lia.
  rewrite Z.rem_mul_r by (try lia; apply Z.pow_pos_nonneg; lia). lia.
Qed.

#[global] Arguments le_bytes : simpl never.

Lemma load_at n pre v post :
  load n (pre ++ le_bytes n v ++ post) (Z.of_nat (length pre)) = Some (v mod 256 ^ Z.of_nat n).
Proof.
  unfold load. rewrite !length_app, le_bytes_length, Nat2Z.id.
  rewrite (proj2 (Z.leb_le _ _)), (proj2 (Z.leb_le _ _)) by lia. cbn [andb].
  rewrite drop_app_length. rewrite <- (le_bytes_length n v) at 1. by rewrite take_app_length, le_value_bytes.
Qed.

Lemma load_dword_at pre v post :
  in_type DWORD v -> load_dword (pre ++ le_bytes 4 v ++ post) (Z.of_nat (length pre)) = Some v.
Proof.
  unfold in_type. cbn [is_signed DWORD bits]. intros Hv. unfold load_dword. rewrite load_at.
  change (256 ^ Z.of_nat 4) with (2 ^ 32). by rewrite Z.mod_small.
Qed.

Lemma load_offset_at pre v post :
  in_type int64_t v -> load_offset (pre ++ le_bytes 8 v ++ post) (Z.of_nat (length pre)) = Some v.
Proof.
  intros Hv. unfold load_offset. rewrite load_at. simpl. f_equal.
  rewrite <- (cast_id int64_t v) at 2 by done. apply cast_eq.
  change (256 ^ Z.of_nat 8) with (2 ^ bits int64_t). by rewrite Zmod_mod.
Qed.

(** Loads do not look at what follows. *)
Lemma load_app n data off v post : load n data off = Some v -> load n (data ++ post) off = Some v.
Proof.
  unfold load. destruct (Z.leb_spec 0 off); [|done].
  destruct (Z.leb_spec (off + Z.of_nat n) (Z.of_nat (length data))); [|done]. cbn [andb].
  rewrite length_app. destruct (Z.leb_spec (off + Z.of_nat n) (Z.of_nat (length data + length post))); [|lia].
  intros <-. do 2 f_equal. rewrite drop_app_le by lia. apply take_app_le. rewrite length_drop. lia.
Qed.

(** ** The entries of a file *)

Section Format.
Variable P : Z.             (* documents per checkpoint *)

Fixpoint enc_from (i : nat) (prev : Z) (l : list pair) : list Z :=
  match l with
  | [] => []
  | p :: l' =>
      (if Z.of_nat i mod P =? 0 then [] else zoff (cast uint64_t (u64 (m_tDocID p) - u64 prev))) ++
      le_bytes 4 (m_tRowID p) ++ enc_from (S i) (m_tDocID p) l'
  end.

Fixpoint last_doc (prev : Z) (l : list pair) : Z :=
  match l with [] => prev | p :: l' => last_doc (m_tDocID p) l' end.

Lemma last_doc_app prev l1 l2 : last_doc prev (l1 ++ l2) = last_doc (last_doc prev l1) l2.
Proof. revert prev. induction l1; intros prev; simpl; auto. Qed.

Lemma enc_from_app i prev l1 l2 :
  enc_from i prev (l1 ++ l2) = enc_from i prev l1 ++ enc_from (i + length l1) (last_doc prev l1) l2.
Proof.
  revert i prev. induction l1 as [|p l1 IH]; intros i prev; simpl.
  { by rewrite Nat.add_0_r. }
  rewrite IH, <- !app_assoc. do 3 f_equal. by rewrite <- Nat.add_succ_comm.
Qed.

Lemma enc_from_bytes i prev l : Forall is_byte (enc_from i prev l).
Proof.
  revert i prev. induction l as [|p l IH]; intros i prev; cbn [enc_from]; [constructor|].
  rewrite !Forall_app. split; [destruct (_ =? 0); [constructor|apply zoff_bytes]|].
  split; [apply le_bytes_bytes|apply IH].
Qed.

(** Ids ascend as unsigned numbers, rows are in range. *)
Definition pair_ok (p : pair) : Prop := in_type int64_t (m_tDocID p) /\ in_type DWORD (m_tRowID p).
Definition ids (l : list pair) : list Z := map (u64 ∘ m_tDocID) l.
Definition pairs_ok (l : list pair) : Prop := Forall pair_ok l /\ sorted (ids l).

(** The checkpoint table of [pairs] when the entries begin at [base]. *)
Definition checkpoint_is (base : Z) (pairs : list pair) (i : Z) (c : DocidLookupCheckpoint_t) : Prop :=
  ∃ pre p post, pairs = pre ++ p :: post /\ Z.of_nat (length pre) = i * P /\
    c = DocidLookupCheckpoint (m_tDocID p) (base + Z.of_nat (length (enc_from 0 0 pre))).

Definition count (n : Z) : Z := (n + P - 1) / P.

(** The file [data] is a lookup of [pairs] with a header of [hdr] bytes. *)
Record spt_ok (data : list Z) (hdr : Z) (pairs : list pair) : Prop := {
  so_docs : load_dword data 0 = Some (Z.of_nat (length pairs));
  so_per : load_dword data 4 = Some P;
  so_max : load_offset data 8 = Some (last_doc 0 pairs);
  so_uuid : hdr = 24 -> ∃ o, load_offset data 16 = Some o;
  so_table : ∀ i, 0 <= i < count (Z.of_nat (length pairs)) ->
    ∃ c, checkpoint_is (hdr + 16 * count (Z.of_nat (length pairs))) pairs i c /\
      load_offset data (hdr + 16 * i) = Some (m_tBaseDocID c) /\
      load_offset data (hdr + 16 * i + 8) = Some (m_tOffset c);
  so_entries : ∃ before after, data = before ++ enc_from 0 0 pairs ++ after /\
    Z.of_nat (length before) = hdr + 16 * count (Z.of_nat (length pairs)) /\ Forall is_byte after
}.
End Format.

(** ** Decoding *)

Lemma unzip_zoff v rest :
  in_type uint64_t v -> Forall is_byte rest ->
  UnzipOffsetBE (zoff v ++ rest) = Some (cast SphOffset_t v, rest) /\
  cast uint64_t (cast SphOffset_t v) = v.
Proof.
  intros Hv Hr. split; [by apply unzip_offset_zoff|].
  etransitivity; [|apply (cast_id uint64_t v); done]. apply cast_eq.
  change (bits uint64_t) with (bits SphOffset_t). apply cast_cong.
Qed.

Lemma u64_range x : 0 <= u64 x < 2 ^ 64.
Proof. pose proof (cast_in_type uint64_t x ltac:(simpl; lia)) as H. exact H. Qed.

(** Ids are equal when they are as unsigned numbers. *)
Lemma u64_inj x y : in_type int64_t x -> in_type int64_t y -> u64 x = u64 y -> x = y.
Proof.
  intros Hx Hy E. rewrite <- (cast_id int64_t x), <- (cast_id int64_t y) by done. apply cast_eq.
  pose proof (cast_cong uint64_t x) as Cx. pose proof (cast_cong uint64_t y) as Cy. fold (u64 x) in Cx. fold (u64 y) in Cy.
  change (bits int64_t) with (bits uint64_t). congruence.
Qed.

Lemma add_delta prev d :
  in_type int64_t d -> cast int64_t (prev + cast uint64_t (u64 d - u64 prev)) = d.
Proof.
  intros Hd. rewrite <- (cast_id int64_t d) at 2 by done. apply cast_eq.
  change (bits int64_t) with (bits uint64_t).
  rewrite Zplus_mod, cast_cong, <- Zplus_mod. rewrite Zplus_mod, Zminus_mod. unfold u64. rewrite !cast_cong.
  rewrite <- Zminus_mod, <- Zplus_mod. f_equal. lia.
Qed.

Section Reader.
Variables (P : Z) (data : list Z) (hdr : Z) (pairs : list pair).
Hypothesis HP : 0 < P.
Hypothesis Hpairs : pairs_ok pairs.
Hypothesis Hspt : spt_ok P data hdr pairs.
Hypothesis Hne : pairs <> [].
Hypothesis Hsize : Z.of_nat (length pairs) + P <= 2 ^ 31.
Hypothesis Hhdr : hdr = 16 \/ hdr = 24.

Abbreviation n := (Z.of_nat (length pairs)).
Abbreviation base := (hdr + 16 * count P n).

Definition reader : LookupReader_c := LookupReader n P (count P n) (last_doc 0 pairs) data hdr.

Lemma n_pos : 0 < n.
Proof. destruct pairs; [done|]. simpl. lia. Qed.

Lemma count_range : 0 < count P n <= n /\ (count P n - 1) * P < n <= count P n * P.
Proof.
  pose proof n_pos. unfold count. pose proof (Z.div_mod (n + P - 1) P ltac:(lia)) as D.
  pose proof (Z.mod_pos_bound (n + P - 1) P HP). split; [split|]; nia.
Qed.

Lemma SetData_ok ver :
  hdr = (if ver >=? 71 then 24 else 16) ->
  ∃ uo, SetData data ver = Some (reader, (uo, n)) /\ (hdr = 24 -> load_offset data 16 = Some uo).
Proof.
  intros Hv. pose proof n_pos. pose proof count_range. destruct Hspt. unfold SetData.
  rewrite so_docs0, so_per0, so_max0. cbn [mbind option_bind].
  assert (cast int32_t (cast DWORD (n + P - 1) / P) = count P n) as Ec.
  { rewrite (cast_id DWORD) by (done || (unfold in_type; cbn [is_signed DWORD bits]; lia)). fold (count P n).
    apply cast_id; [done|]. unfold in_type. cbn [is_signed int32_t bits]. lia. }
  destruct (ver >=? 71).
  - destruct (so_uuid0 Hv) as [o Eo]. rewrite Eo. cbn [mbind option_bind]. rewrite (proj2 (Z.eqb_neq P 0)) by lia.
    exists o. unfold reader. by rewrite Ec, Hv.
  - cbn [mbind option_bind]. rewrite (proj2 (Z.eqb_neq P 0)) by lia. exists 0. unfold reader. rewrite Ec, Hv.
    split; [done|]. lia.
Qed.

Lemma pair_at pre p post : pairs = pre ++ p :: post -> pair_ok p.
Proof. intros E. destruct Hpairs as [H _]. rewrite E, Forall_app, Forall_cons in H. tauto. Qed.

(** Where the entry after [pre] begins. *)
Definition pos_of (pre : list pair) : Z := base + Z.of_nat (length (enc_from P 0 0 pre)).

Lemma entry_at pre p post :
  pairs = pre ++ p :: post ->
  if Z.of_nat (length pre) mod P =? 0 then
    load_dword data (pos_of pre) = Some (m_tRowID p) /\ pos_of (pre ++ [p]) = pos_of pre + 4
  else
    ∃ v pCur, unzip_at reader (pos_of pre) = Some (v, pCur) /\
      cast int64_t (last_doc 0 pre + v) = m_tDocID p /\
      load_dword data pCur = Some (m_tRowID p) /\ pos_of (pre ++ [p]) = pCur + 4.
Proof.
  intros E. destruct (pair_at _ _ _ E) as [Hd Hr].
  destruct (so_entries _ _ _ _ Hspt) as (before & after & Ed & Eb & Ha).
  unfold pos_of. rewrite <- Eb. rewrite E in Ed. rewrite enc_from_app in Ed |- *. cbn [enc_from Nat.add] in Ed |- *.
  rewrite <- !app_assoc in Ed. rewrite app_nil_r. rewrite !length_app, le_bytes_length.
  destruct (Z.of_nat (length pre) mod P =? 0).
  - cbn [app] in *. rewrite Ed. split; [|simpl; lia]. rewrite app_assoc.
    rewrite <- Nat2Z.inj_add, <- length_app. by apply load_dword_at.
  - set (v := cast uint64_t (u64 (m_tDocID p) - u64 (last_doc 0 pre))) in *.
    assert (in_type uint64_t v) as Hv by (apply cast_in_type; simpl; lia).
    destruct (unzip_zoff v (le_bytes 4 (m_tRowID p) ++ enc_from P (S (length pre)) (m_tDocID p) post ++ after) Hv) as [U1 U2].
    { rewrite !Forall_app. split; [apply le_bytes_bytes|]. split; [apply enc_from_bytes|done]. }
    exists v, (Z.of_nat (length before) + Z.of_nat (length (enc_from P 0 0 pre)) + Z.of_nat (length (zoff v))).
    unfold unzip_at. cbn [reader m_pData]. split; [|split; [by apply add_delta|split; [|lia]]].
    + rewrite Ed at 1. rewrite app_assoc, <- Nat2Z.inj_add, Nat2Z.id, <- length_app, drop_app_length, U1.
      cbn [mbind option_bind]. rewrite U2. do 2 f_equal. rewrite Ed, !length_app. lia.
    + rewrite Ed. rewrite (app_assoc before), (app_assoc (before ++ _)).
      match goal with |- load_dword (?l ++ _) ?p = _ =>
        replace p with (Z.of_nat (length l)) by (rewrite !length_app; lia) end.
      by apply load_dword_at.
Qed.

(** ** Checkpoints *)

Definition id_at (i : Z) : Z := at_ (ids pairs) i.

Lemma id_at_split pre p post : pairs = pre ++ p :: post -> id_at (Z.of_nat (length pre)) = u64 (m_tDocID p).
Proof.
  intros E. unfold id_at, at_. rewrite Nat2Z.id, E. unfold ids. rewrite map_app.
  rewrite app_nth2 by (rewrite length_map; lia). rewrite length_map, Nat.sub_diag. done.
Qed.

Lemma id_at_mono i j : 0 <= i <= j -> j < n -> id_at i <= id_at j.
Proof. intros H1 H2. apply Hpairs; [done|]. unfold len, ids. by rewrite length_map. Qed.

Definition cp_at (i : Z) : Z := id_at (i * P).
Definition cp_ids : list Z := map cp_at (seqZ 0 (count P n)).

Lemma cp_ids_at i : 0 <= i < count P n -> at_ cp_ids i = cp_at i.
Proof.
  intros Hi. unfold at_, cp_ids. rewrite nth_lookup, list_lookup_fmap, lookup_seqZ_lt by lia. simpl.
  f_equal. lia.
Qed.

Lemma cp_ids_len : len cp_ids = count P n.
Proof. unfold len, cp_ids. rewrite length_map, length_seqZ. pose proof count_range. lia. Qed.

Lemma block_in i : 0 <= i < count P n -> 0 <= i * P < n.
Proof. pose proof count_range. nia. Qed.

Lemma cp_mono i j : 0 <= i <= j -> j < count P n -> cp_at i <= cp_at j.
Proof. intros. pose proof (block_in j ltac:(lia)). apply id_at_mono; nia. Qed.

Lemma cp_sorted : sorted cp_ids.
Proof.
  intros i j Hij Hj. rewrite cp_ids_len in Hj. rewrite !cp_ids_at by lia. by apply cp_mono.
Qed.

Lemma checkpoint_ok i :
  0 <= i < count P n ->
  ∃ pre p post, pairs = pre ++ p :: post /\ Z.of_nat (length pre) = i * P /\
    checkpoint reader i = Some (DocidLookupCheckpoint (m_tDocID p) (pos_of pre)) /\ u64 (m_tDocID p) = cp_at i.
Proof.
  intros Hi. destruct (so_table _ _ _ _ Hspt i Hi) as (c & (pre & p & post & E & Hl & ->) & L1 & L2).
  exists pre, p, post. split; [done|]. split; [done|]. split.
  - unfold checkpoint. cbn [reader m_pData m_pCheckpoints]. by rewrite L1, L2.
  - unfold cp_at. by rewrite <- Hl, (id_at_split _ _ _ E).
Qed.

Lemma checkpoint_loop_eq fuel tDocID s e :
  0 <= s <= e -> e < count P n ->
  checkpoint_loop reader fuel tDocID s e = lower_loop cp_ids (u64 tDocID) fuel s e.
Proof.
  revert s e. induction fuel as [|fuel IH]; intros s e Hs He; [done|]. cbn [checkpoint_loop lower_loop].
  destruct (Z.eqb_spec s e) as [|N]; [done|]. set (m := s + (e - s) / 2).
  assert (s <= m < e) as Hm.
  { subst m. pose proof (Z.div_mod (e - s) 2 ltac:(lia)). pose proof (Z.mod_pos_bound (e - s) 2 ltac:(lia)). lia. }
  destruct (checkpoint_ok m ltac:(lia)) as (pre & p & post & _ & _ & -> & Eu). cbn [mbind option_bind m_tBaseDocID].
  rewrite cp_ids_at, Eu by lia. destruct (_ >? _); apply IH; lia.
Qed.

(** The block an id belongs to, if it is in the file. *)
Definition block_of (tDocID s j : Z) : Prop :=
  s <= j < count P n /\
  ((cp_at j = u64 tDocID /\ ∀ i, s <= i < j -> cp_at i < u64 tDocID) \/
   (cp_at j < u64 tDocID /\ ∀ i, j < i < count P n -> u64 tDocID < cp_at i)).

Lemma FindCheckpoint_ok tDocID s :
  0 <= s < count P n ->
  ∃ res, FindCheckpoint reader tDocID s = Some res /\
    match res with
    | None => u64 tDocID < cp_at s \/ u64 (last_doc 0 pairs) < u64 tDocID
    | Some j => block_of tDocID s j
    end.
Proof.
  intros Hs. unfold FindCheckpoint.
  destruct (checkpoint_ok s Hs) as (pre & p & post & _ & _ & -> & Eu). cbn [mbind option_bind m_tBaseDocID].
  rewrite Eu. cbn [reader m_tMaxDocID m_nCheckpoints]. fold reader.
  destruct (Z.ltb_spec (u64 tDocID) (cp_at s)), (Z.gtb_spec (u64 tDocID) (u64 (last_doc 0 pairs))); cbn [orb];
    try (exists None; split; [done|auto]; fail).
  destruct (Z.ltb_spec (count P n - 1) s); [lia|].
  rewrite checkpoint_loop_eq by lia.
  destruct (BinarySearchFirst_ok cp_ids (u64 tDocID) cp_sorted s (count P n - 1)) as (i & Ei & G1 & G2 & G3);
    [lia|rewrite cp_ids_len; lia|].
  unfold BinarySearchFirst in Ei. rewrite (proj2 (Z.ltb_ge _ _)) in Ei by lia. rewrite Ei. cbn [mbind option_bind].
  destruct (checkpoint_ok i ltac:(lia)) as (pre' & p' & post' & _ & _ & -> & Eu'). cbn [mbind option_bind m_tBaseDocID].
  rewrite Eu'.
  assert (∀ k, s <= k < i -> cp_at k < u64 tDocID) as G2'.
  { intros k Hk. specialize (G2 k Hk). by rewrite cp_ids_at in G2 by lia. }
  destruct (Z.gtb_spec (cp_at i) (u64 tDocID)) as [Hgt|Hle].
  - assert (s < i) by (destruct (decide (s = i)) as [->|]; lia).
    destruct (Z.eqb_spec i 0); [lia|]. exists (Some (i - 1)). split; [done|]. split; [lia|]. right.
    split; [apply G2'; lia|]. intros k Hk. pose proof (cp_mono i k ltac:(lia) ltac:(lia)). lia.
  - exists (Some i). split; [done|]. split; [lia|].
    destruct (decide (cp_at i = u64 tDocID)) as [E|Ne]; [by left|right]. split; [lia|]. intros k Hk.
    rewrite !cp_ids_at in G3 by lia. pose proof (cp_mono k (count P n - 1) ltac:(lia) ltac:(lia)).
    pose proof (cp_mono i k ltac:(lia) ltac:(lia)). destruct (Z.le_gt_cases (cp_at k) (u64 tDocID)); [|done].
    (* all checkpoints are below the id, so the search stopped at the last one *)
    destruct (lower_loop_ok cp_ids (u64 tDocID) cp_sorted (S (Z.to_nat (count P n - 1 - s))) s (count P n - 1))
      as (i' & Ei' & L1 & L2 & L3); [lia|rewrite cp_ids_len; lia|lia|].
    rewrite Ei in Ei'. injection Ei' as <-. rewrite cp_ids_at in L3 by lia. specialize (L3 ltac:(lia)). lia.
Qed.

(** ** [Find] *)

Lemma docs_in_block j :
  0 <= j < count P n -> GetNumDocsInCheckpoint reader j = Z.min P (n - j * P).
Proof.
  intros Hj. pose proof count_range as [C1 C2]. unfold GetNumDocsInCheckpoint, IsLastCheckpoint.
  cbn [reader m_nCheckpoints m_nDocsPerCheckpoint r_nDocs].
  destruct (Z.eqb_spec j (count P n - 1)) as [->|N]; cbn [negb].
  - set (k := count P n - 1) in *. assert (0 < n - k * P <= P) as Hk by (subst k; nia).
    pose proof (Z.div_mod n P ltac:(lia)) as D. pose proof (Z.mod_pos_bound n P HP) as B.
    destruct (Z.eqb_spec (n mod P) 0) as [E0|E0].
    + assert (n / P = k + 1) as Ek by nia. nia.
    + assert (n / P = k) as Ek by nia. nia.
  - assert ((j + 1) * P <= (count P n - 1) * P) by nia. nia.
Qed.

Definition in_pairs (d r : Z) (l : list pair) : Prop := DocidRowidPair d r ∈ l.

(** Scanning a block after [pre]. *)
Lemma find_loop_ok tDocID l pre post :
  pairs = pre ++ l ++ post -> in_type int64_t tDocID ->
  (∀ k, (k < length l)%nat -> Z.of_nat (length pre + k) mod P <> 0) ->
  ∃ r, find_loop reader (length l) tDocID (pos_of pre) (last_doc 0 pre) = Some r /\
    (in_pairs tDocID r l \/ (r = INVALID_ROWID /\ ∀ r', ¬ in_pairs tDocID r' l)).
Proof.
  revert pre. induction l as [|p l IH]; intros pre E Ht Hm; cbn [length find_loop].
  { exists INVALID_ROWID. split; [done|]. right. split; [done|]. intros r' H. by apply elem_of_nil in H. }
  assert (pairs = pre ++ p :: (l ++ post)) as E1 by done.
  pose proof (entry_at _ _ _ E1) as En. pose proof (Hm 0%nat ltac:(simpl; lia)) as H0. rewrite Nat.add_0_r in H0.
  rewrite (proj2 (Z.eqb_neq _ _) H0) in En. destruct En as (v & pCur & U1 & U2 & U3 & U4).
  destruct (pair_at _ _ _ E1) as [Hd _].
  rewrite U1. cbn [mbind option_bind]. cbn [reader m_pData]. rewrite U3. cbn [mbind option_bind]. fold reader. rewrite U2.
  destruct (Z.eqb_spec (m_tDocID p) tDocID) as [Ed|Nd].
  { exists (m_tRowID p). split; [done|]. left. unfold in_pairs. rewrite <- Ed. destruct p. by left. }
  assert (pairs = (pre ++ [p]) ++ l ++ post) as E2 by (by rewrite <- app_assoc).
  destruct (Z.gtb_spec (u64 (m_tDocID p)) (u64 tDocID)) as [Hgt|Hle].
  - exists INVALID_ROWID. split; [done|]. right. split; [done|]. intros r' Hin.
    apply elem_of_cons in Hin as [<-|Hin]; [done|]. apply list_elem_of_split in Hin as (l1 & l2 & ->).
    assert (pairs = (pre ++ p :: l1) ++ DocidRowidPair tDocID r' :: (l2 ++ post)) as E3
      by (rewrite E1, <- !app_assoc; done).
    pose proof (id_at_split _ _ _ E1). pose proof (id_at_split _ _ _ E3) as I3. cbn [m_tDocID] in I3.
    assert (Z.of_nat (length (pre ++ p :: l1)) < n) as Hn by (rewrite E3, (length_app (pre ++ p :: l1)); simpl; lia).
    pose proof (id_at_mono (Z.of_nat (length pre)) (Z.of_nat (length (pre ++ p :: l1)))) as M.
    rewrite (length_app pre) in M at 1. specialize (M ltac:(lia) Hn). lia.
  - rewrite <- U4. assert (m_tDocID p = last_doc 0 (pre ++ [p])) as El by (by rewrite last_doc_app).
    rewrite El. destruct (IH (pre ++ [p]) E2 Ht) as (r & -> & Hr).
    { intros k Hk. specialize (Hm (S k) ltac:(simpl; lia)). rewrite length_app. simpl.
      by replace (length pre + 1 + k)%nat with (length pre + S k)%nat by lia. }
    exists r. split; [done|]. destruct Hr as [Hr|[Hr1 Hr2]]; [left; by right|right]. split; [done|].
    intros r' Hin. apply elem_of_cons in Hin as [<-|Hin]; [done|]. by apply (Hr2 r').
Qed.

Lemma split_block j :
  0 <= j < count P n ->
  ∃ pre p l post, pairs = pre ++ p :: l ++ post /\ Z.of_nat (length pre) = j * P /\
    Z.of_nat (S (length l)) = Z.min P (n - j * P) /\
    checkpoint reader j = Some (DocidLookupCheckpoint (m_tDocID p) (pos_of pre)) /\ u64 (m_tDocID p) = cp_at j.
Proof.
  intros Hj. destruct (checkpoint_ok j Hj) as (pre & p & post & E & Hl & C1 & C2).
  set (k := Z.to_nat (Z.min P (n - j * P) - 1)). pose proof (block_in j Hj).
  assert (length post = length pairs - length pre - 1)%nat as Lp
    by (apply (f_equal length) in E; rewrite length_app in E; simpl in E; lia).
  exists pre, p, (take k post), (drop k post). rewrite take_drop. split; [done|]. split; [done|].
  split; [rewrite length_take; lia|done].
Qed.

Lemma block_mod j k : Z.of_nat k < P -> (k <> 0)%nat -> (j * P + Z.of_nat k) mod P <> 0.
Proof. intros. rewrite Z.add_comm, Z.mod_add, Z.mod_small by lia. lia. Qed.

(** A pair outside the block has another id. *)
Lemma outside_block tDocID j pre p l post q r' :
  pairs = pre ++ p :: l ++ post -> Z.of_nat (length pre) = j * P ->
  Z.of_nat (S (length l)) = Z.min P (n - j * P) -> 0 <= j < count P n ->
  cp_at j < u64 tDocID -> (∀ i, j < i < count P n -> u64 tDocID < cp_at i) ->
  q = DocidRowidPair tDocID r' -> q ∈ pairs -> q ∈ l.
Proof.
  intros E Hl Hb Hj H1 H2 Eq Hin. subst q. apply list_elem_of_split in Hin as (l1 & l2 & Eq).
  pose proof (id_at_split _ _ _ Eq) as Iq. cbn [m_tDocID] in Iq. set (k := length l1) in *.
  assert (Z.of_nat k < n) as Hkn by (apply (f_equal length) in Eq; rewrite length_app in Eq; simpl in Eq; lia).
  assert (j * P < Z.of_nat k) as Hk.
  { apply Z.nle_gt. intros Hle. pose proof (id_at_mono (Z.of_nat k) (j * P) ltac:(lia) (proj2 (block_in j Hj))).
    unfold cp_at in H1. lia. }
  assert (Z.of_nat k < j * P + P) as Hk2.
  { apply Z.nle_gt. intros Hle. assert (j + 1 < count P n) as Hj1.
    { pose proof count_range as [_ C2]. nia. }
    specialize (H2 (j + 1) ltac:(lia)). unfold cp_at in H2.
    pose proof (id_at_mono ((j + 1) * P) (Z.of_nat k) ltac:(nia) Hkn). lia. }
  assert (pairs !! k = Some (DocidRowidPair tDocID r')) as Lk by (rewrite Eq; by apply list_lookup_middle).
  rewrite E, lookup_app_r in Lk by lia. destruct (k - length pre)%nat as [|m] eqn:Em; [lia|]. simpl in Lk.
  rewrite lookup_app_l in Lk by lia. by eapply list_elem_of_lookup_2.
Qed.

Lemma Find_ok tDocID :
  in_type int64_t tDocID ->
  ∃ r, Find reader tDocID = Some r /\
    (in_pairs tDocID r pairs \/ (r = INVALID_ROWID /\ ∀ r', ¬ in_pairs tDocID r' pairs)).
Proof.
  intros Ht. pose proof count_range as [C1 C2]. unfold Find.
  destruct (split_block 0 ltac:(lia)) as (pre0 & p0 & l0 & post0 & E0 & Hl0 & _ & -> & Eu0).
  cbn [mbind option_bind m_tBaseDocID]. rewrite Eu0. cbn [reader m_tMaxDocID]. fold reader.
  assert (u64 tDocID < cp_at 0 \/ u64 (last_doc 0 pairs) < u64 tDocID -> ∀ r', ¬ in_pairs tDocID r' pairs) as Hout.
  { intros Ho r' Hin. apply list_elem_of_split in Hin as (l1 & l2 & Eq).
    pose proof (id_at_split _ _ _ Eq) as Iq. cbn [m_tDocID] in Iq.
    assert (Z.of_nat (length l1) < n) by (apply (f_equal length) in Eq; rewrite length_app in Eq; simpl in Eq; lia).
    destruct (exists_last Hne) as (pl & q & El). pose proof (id_at_split pl q [] El) as Il.
    assert (Z.of_nat (length pl) = n - 1) by (apply (f_equal length) in El; rewrite length_app in El; simpl in El; lia).
    pose proof (id_at_mono 0 (Z.of_nat (length l1)) ltac:(lia) ltac:(lia)).
    pose proof (id_at_mono (Z.of_nat (length l1)) (Z.of_nat (length pl)) ltac:(lia) ltac:(lia)).
    rewrite El, last_doc_app in Ho. cbn [last_doc] in Ho. change (cp_at 0) with (id_at 0) in Ho. lia. }
  destruct (Z.ltb_spec (u64 tDocID) (cp_at 0)); cbn [orb]; [exists INVALID_ROWID; split; [done|]; right; auto|].
  destruct (Z.gtb_spec (u64 tDocID) (u64 (last_doc 0 pairs))); [exists INVALID_ROWID; split; [done|]; right; auto|].
  destruct (FindCheckpoint_ok tDocID 0 ltac:(lia)) as ([j|] & -> & Hr); cbn [mbind option_bind].
  2: { exists INVALID_ROWID. split; [done|]. right. auto. }
  destruct Hr as (Hj & Hr). destruct (split_block j Hj) as (pre & p & l & post & E & Hl & Hb & -> & Eu).
  cbn [mbind option_bind m_tOffset m_tBaseDocID].
  pose proof (entry_at _ _ _ E) as En. rewrite Hl, Z.mod_mul, Z.eqb_refl in En by lia. destruct En as [Er Ep].
  change (m_pData reader) with data. rewrite Er.
  cbn [mbind option_bind]. destruct (pair_at _ _ _ E) as [Hd _].
  destruct (Z.eqb_spec (m_tDocID p) tDocID) as [Ed|Nd].
  { exists (m_tRowID p). split; [done|]. left. unfold in_pairs. rewrite <- Ed, E. apply elem_of_app. right. destruct p. by left. }
  destruct Hr as [[Hr _]|[Hr1 Hr2]]; [destruct Nd; apply u64_inj; [done|done|lia]|].
  rewrite docs_in_block, <- Hb by done. replace (Z.to_nat (Z.of_nat (S (length l)) - 1)) with (length l) by lia.
  rewrite <- Ep. assert (m_tDocID p = last_doc 0 (pre ++ [p])) as -> by (by rewrite last_doc_app).
  destruct (find_loop_ok tDocID l (pre ++ [p]) post) as (r & -> & Hf); [by rewrite <- app_assoc|done| |].
  { intros k Hk. rewrite length_app. simpl. replace (Z.of_nat (length pre + 1 + k)) with (j * P + Z.of_nat (S k)) by lia.
    apply block_mod; lia. }
  exists r. split; [done|]. unfold in_pairs in *. destruct Hf as [Hf|[Hf1 Hf2]].
  - left. rewrite E. apply elem_of_app. right. right. apply elem_of_app. by left.
  - right. split; [done|]. intros r' Hin. apply (Hf2 r'). by eapply outside_block.
Qed.

(** ** The iterator *)

(** The iterator stands in block [j] after [k] of its entries. *)
Record in_block (it : LookupReaderIterator_c) (pre rest : list pair) (j k : Z) : Prop := {
  ib_reader : it_reader it = reader;
  ib_cur : m_pCurCheckpoint it = Some j;
  ib_pairs : pairs = pre ++ rest;
  ib_j : 0 <= j < count P n;
  ib_len : Z.of_nat (length pre) = j * P + k;
  ib_k : 0 <= k <= Z.min P (n - j * P);
  ib_processed : m_iProcessedDocs it = k;
  ib_docs : m_iCheckpointDocs it = Z.min P (n - j * P);
  ib_pos : m_pCur it = pos_of pre;
  ib_id : m_tCurDocID it = if k =? 0 then match rest with p :: _ => m_tDocID p | [] => 0 end else last_doc 0 pre
}.

(** The pairs the iterator has not read yet. *)
Definition it_stands (it : LookupReaderIterator_c) (rest : list pair) : Prop :=
  (m_pCurCheckpoint it = None /\ rest = []) \/ ∃ pre j k, in_block it pre rest j k.

Lemma SetCheckpoint_ok it j :
  it_reader it = reader -> 0 <= j < count P n ->
  ∃ it' pre rest, SetCheckpoint (Some j) it = Some it' /\ in_block it' pre rest j 0.
Proof.
  intros Er Hj. destruct (checkpoint_ok j Hj) as (pre & p & post & E & Hl & Ec & _).
  unfold SetCheckpoint. rewrite Er, Ec. cbn [mbind option_bind m_tOffset m_tBaseDocID].
  eexists _, pre, (p :: post). split; [done|]. pose proof (block_in j Hj).
  split; try done; cbn [m_iCheckpointDocs]; [lia|lia|by apply docs_in_block].
Qed.

Lemma start_stands ver :
  hdr = (if ver >=? 71 then 24 else 16) ->
  ∃ it, LookupReaderIterator data ver = Some it /\ it_stands it pairs.
Proof.
  intros Hv. destruct (SetData_ok ver Hv) as (uo & E & _). pose proof count_range.
  unfold LookupReaderIterator. rewrite E. cbn [mbind option_bind].
  destruct (SetCheckpoint_ok (LookupIterator reader None 0 0 0 0) 0 eq_refl ltac:(lia)) as (it & pre & rest & -> & B).
  exists it. split; [done|]. right. exists pre, 0, 0. destruct B.
  destruct pre; [|simpl in ib_len0; lia]. cbn [app] in ib_pairs0. by subst rest.
Qed.

(** Reading inside a block. *)
Lemma read_in_block it pre p rest j k :
  in_block it pre (p :: rest) j k -> k < Z.min P (n - j * P) ->
  ∃ it', in_block it' (pre ++ [p]) rest j (k + 1) /\ read_entry it = Some (Some p, it').
Proof.
  intros B Hk. destruct B. pose proof (entry_at _ _ _ ib_pairs0) as En. rewrite ib_len0 in En.
  unfold read_entry. rewrite ib_reader0, ib_processed0. cbn [reader m_pData]. fold reader.
  assert (pairs = (pre ++ [p]) ++ rest) as E2 by (by rewrite <- app_assoc).
  assert (Z.of_nat (length (pre ++ [p])) = j * P + (k + 1)) as L2 by (rewrite length_app; simpl; lia).
  assert ((k + 1 =? 0) = false) as Ek by lia.
  assert (last_doc 0 (pre ++ [p]) = m_tDocID p) as El by (by rewrite last_doc_app).
  destruct (Z.eqb_spec k 0) as [->|Nk].
  - rewrite Z.add_0_r, Z.mod_mul, Z.eqb_refl in En by lia. destruct En as [E3 E4].
    rewrite ib_pos0, E3. cbn [mbind option_bind]. rewrite ib_id0. destruct p as [d r]. cbn [m_tDocID m_tRowID] in *.
    eexists. split; [|done]. split; cbn [it_reader m_pCurCheckpoint m_iProcessedDocs m_iCheckpointDocs m_pCur m_tCurDocID];
      rewrite ?Ek, ?El; try done; try lia.
  - assert ((j * P + k) mod P <> 0) as Hm.
    { replace k with (Z.of_nat (Z.to_nat k)) by lia. apply block_mod; lia. }
    rewrite (proj2 (Z.eqb_neq _ _) Hm) in En. destruct En as (v & pCur & U1 & U2 & U3 & U4).
    rewrite ib_pos0, U1. cbn [mbind option_bind]. rewrite U3. cbn [mbind option_bind]. cbv zeta.
    rewrite ib_id0, U2. destruct p as [d r]. cbn [m_tDocID m_tRowID] in *.
    eexists. split; [|done]. split; cbn [it_reader m_pCurCheckpoint m_iProcessedDocs m_iCheckpointDocs m_pCur m_tCurDocID];
      rewrite ?Ek, ?El; try done; try lia.
Qed.

Lemma Read_ok it rest :
  it_stands it rest ->
  ∃ it', Read it = Some (head rest, it') /\ it_stands it' (tail rest).
Proof.
  intros [[En ->]|(pre & j & k & B)].
  { exists it. unfold Read. rewrite En. split; [done|]. by left. }
  pose proof count_range as [C1 C2]. pose proof (ib_k _ _ _ _ _ B) as Hk. pose proof (ib_j _ _ _ _ _ B) as Hj.
  pose proof (ib_len _ _ _ _ _ B) as Hl. pose proof (ib_pairs _ _ _ _ _ B) as Ep.
  assert (length rest = length pairs - length pre)%nat as Lr by (rewrite Ep, length_app; lia).
  unfold Read. rewrite (ib_cur _ _ _ _ _ B), (ib_reader _ _ _ _ _ B), (ib_processed _ _ _ _ _ B), (ib_docs _ _ _ _ _ B).
  destruct (Z.eqb_spec k (Z.min P (n - j * P))) as [Ek|Nk]; cbn [andb].
  - unfold IsLastCheckpoint. cbn [reader m_nCheckpoints]. fold reader.
    destruct (Z.eqb_spec j (count P n - 1)) as [Ej|Nj].
    + assert (rest = []) as -> by (destruct rest; [done|]; simpl in Lr; nia).
      eexists. split; [done|]. left. done.
    + destruct (SetCheckpoint_ok it (j + 1) (ib_reader _ _ _ _ _ B) ltac:(lia)) as (it1 & pre1 & rest1 & E1 & B1).
      rewrite E1. cbn [mbind option_bind].
      assert (Z.min P (n - j * P) = P) as Em by nia.
      assert (pre1 = pre /\ rest1 = rest) as [-> ->].
      { apply app_inj_1; [|rewrite <- (ib_pairs _ _ _ _ _ B1); done].
        pose proof (ib_len _ _ _ _ _ B1). lia. }
      assert (rest <> []) as Hr.
      { intros ->. pose proof (block_in (j + 1) ltac:(lia)). simpl in Lr. pose proof (ib_len _ _ _ _ _ B1). lia. }
      destruct rest as [|p rest]; [done|].
      destruct (read_in_block it1 pre p rest (j + 1) 0 B1) as (it' & B' & E');
        [pose proof (block_in (j + 1) ltac:(lia)); lia|].
      rewrite E'.
      exists it'. split; [done|]. right. by exists (pre ++ [p]), (j + 1), (0 + 1).
  - cbn [mbind option_bind]. destruct rest as [|p rest]; [simpl in Lr; nia|].
    destruct (read_in_block it pre p rest j k B ltac:(lia)) as (it' & B' & E').
    rewrite E'.
    exists it'. split; [done|]. right. by exists (pre ++ [p]), j, (k + 1).
Qed.

(** A hint skips only ids below it, if the ids of the file are different. *)
Lemma HintDocID_ok tDocID it rest :
  (∀ i j, 0 <= i < j -> j < n -> id_at i < id_at j) -> it_stands it rest ->
  ∃ it' skipped rest', HintDocID tDocID it = Some it' /\ rest = skipped ++ rest' /\
    Forall (λ p, u64 (m_tDocID p) < u64 tDocID) skipped /\ it_stands it' rest'.
Proof.
  intros Hstrict [[En ->]|(pre & j & k & B)].
  { exists it, [], []. unfold HintDocID. rewrite En. split; [done|]. split; [done|]. split; [constructor|]. by left. }
  pose proof count_range as [C1 C2]. pose proof (ib_k _ _ _ _ _ B) as Hk. pose proof (ib_j _ _ _ _ _ B) as Hj.
  pose proof (ib_len _ _ _ _ _ B) as Hl. pose proof (ib_pairs _ _ _ _ _ B) as Ep.
  assert (∃ it' skipped rest', Some it = Some it' /\ rest = skipped ++ rest' /\
    Forall (λ p, u64 (m_tDocID p) < u64 tDocID) skipped /\ it_stands it' rest') as Hsame.
  { exists it, [], rest. split; [done|]. split; [done|]. split; [constructor|]. right. by exists pre, j, k. }
  unfold HintDocID. rewrite (ib_cur _ _ _ _ _ B), (ib_reader _ _ _ _ _ B). unfold IsLastCheckpoint.
  cbn [reader m_nCheckpoints]. fold reader. destruct (Z.eqb_spec j (count P n - 1)) as [Ej|Nj]; [done|].
  destruct (checkpoint_ok (j + 1) ltac:(lia)) as (pre1 & p1 & post1 & _ & _ & -> & Eu).
  cbn [mbind option_bind m_tBaseDocID]. rewrite Eu.
  destruct (Z.ltb_spec (u64 tDocID) (cp_at (j + 1))) as [Hlt|Hge]; [done|].
  destruct (FindCheckpoint_ok tDocID (j + 1) ltac:(lia)) as ([b|] & -> & Hr); cbn [mbind option_bind].
  - destruct Hr as (Hb & Hr). destruct (SetCheckpoint_ok it b (ib_reader _ _ _ _ _ B) ltac:(lia)) as (it' & pre' & rest' & -> & B').
    pose proof (ib_len _ _ _ _ _ B') as Hl'. pose proof (ib_pairs _ _ _ _ _ B') as Ep'.
    assert ((j + 1) * P <= b * P) as Hjb by (apply Z.mul_le_mono_nonneg_r; lia).
    assert (length pre <= length pre')%nat as Hle by lia.
    assert (∃ mid, pre' = pre ++ mid /\ rest = mid ++ rest') as (mid & Em & Er).
    { rewrite Ep in Ep'. apply app_eq_inv in Ep' as [(l & -> & ->)|(l & -> & ->)].
      - rewrite length_app in Hle. destruct l; [|simpl in Hle; lia]. exists []. by rewrite !app_nil_r.
      - by exists l. }
    exists it', mid, rest'. split; [done|]. split; [done|]. split; [|right; by exists pre', b, 0].
    apply Forall_forall. intros q Hq. apply list_elem_of_split in Hq as (m1 & m2 & ->).
    assert (pairs = (pre ++ m1) ++ q :: (m2 ++ rest')) as Eq by (rewrite Ep, Er, <- !app_assoc; done).
    rewrite <- (id_at_split _ _ _ Eq). pose proof (block_in b ltac:(lia)).
    assert (Z.of_nat (length (pre ++ m1)) < b * P) as Hq.
    { rewrite Em, !length_app in Hl'. rewrite length_app. simpl in Hl'. lia. }
    specialize (Hstrict _ _ (conj (Nat2Z.is_nonneg _) Hq) ltac:(lia)).
    change (id_at (b * P)) with (cp_at b) in Hstrict. destruct Hr as [[Hr _]|[Hr _]]; lia.
  - destruct Hr as [Hr|Hr]; [lia|].
    eexists _, rest, []. split; [done|]. split; [by rewrite app_nil_r|]. split; [|by left].
    apply Forall_forall. intros q Hq. apply list_elem_of_split in Hq as (m1 & m2 & ->).
    assert (pairs = (pre ++ m1) ++ q :: m2) as Eq by (rewrite Ep, <- !app_assoc; done).
    rewrite <- (id_at_split _ _ _ Eq).
    destruct (exists_last Hne) as (pl & z & El). pose proof (id_at_split pl z [] El) as Il.
    assert (length pl = length pairs - 1)%nat as L1 by (rewrite El, length_app; simpl; lia).
    assert (Z.of_nat (length (pre ++ m1)) < n) as L2 by (rewrite Eq, (length_app (pre ++ m1)); simpl; lia).
    pose proof (id_at_mono (Z.of_nat (length (pre ++ m1))) (Z.of_nat (length pl)) ltac:(lia) ltac:(lia)).
    rewrite El, last_doc_app in Hr. cbn [last_doc] in Hr. lia.
Qed.
End Reader.
End DocidLookupOk.

(** * The lookup writer writes what the readers read

    [DocidLookupWriter_c] reserves the header and the checkpoint table, writes
    the entries and then patches the header and the table; the file it closes is
    the format of [DocidLookupOk]. *)

From S2P Require Import Prelude Zip Span BinSearch FileIO SearchNode DocidLookup.
Import Zip Span BinSearch FileIO SearchNode DocidLookup DocidLookupOk.

Module DocidLookupWrite.

(** ** The parts of the file *)

Abbreviation P := DOCS_PER_LOOKUP_CHECKPOINT.

Definition header (N mx uo : Z) : list Z := le_bytes 4 N ++ le_bytes 4 P ++ le_bytes 8 mx ++ le_bytes 8 uo.

Definition table (cps : list DocidLookupCheckpoint_t) : list Z :=
  concat (map (λ c, le_bytes 8 (m_tBaseDocID c) ++ le_bytes 8 (m_tOffset c)) cps).

Lemma header_length N mx uo : length (header N mx uo) = 24%nat.
Proof. unfold header. by rewrite !length_app, !le_bytes_length. Qed.

Lemma table_app l1 l2 : table (l1 ++ l2) = table l1 ++ table l2.
Proof. unfold table. by rewrite map_app, concat_app. Qed.

Lemma table_cons c l : table (c :: l) = le_bytes 8 (m_tBaseDocID c) ++ le_bytes 8 (m_tOffset c) ++ table l.
Proof. unfold table. cbn [map concat]. by rewrite <- app_assoc. Qed.

Lemma table_length l : length (table l) = (16 * length l)%nat.
Proof.
  induction l as [|c l IH]; [done|]. unfold table in *. cbn [map concat length].
  rewrite !length_app, !le_bytes_length, IH. lia.
Qed.

(** The checkpoints of the pairs, the entries beginning at [off]. *)
Fixpoint cps (i : nat) (prev off : Z) (l : list pair) : list DocidLookupCheckpoint_t :=
  match l with
  | [] => []
  | p :: l' =>
      (if Z.of_nat i mod P =? 0 then [DocidLookupCheckpoint (m_tDocID p) off] else []) ++
      cps (S i) (m_tDocID p) (off + Z.of_nat (length (enc_from P i prev [p]))) l'
  end.

Lemma enc_from_cons i prev p l : enc_from P i prev (p :: l) = enc_from P i prev [p] ++ enc_from P (S i) (m_tDocID p) l.
Proof. rewrite (enc_from_app P i prev [p] l : enc_from P i prev (p :: l) = _). simpl length. by rewrite Nat.add_1_r. Qed.

Lemma cps_snoc i prev off l p :
  cps i prev off (l ++ [p]) =
  cps i prev off l ++
  (if Z.of_nat (i + length l) mod P =? 0
   then [DocidLookupCheckpoint (m_tDocID p) (off + Z.of_nat (length (enc_from P i prev l)))] else []).
Proof.
  revert i prev off. induction l as [|q l IH]; intros i prev off; cbn [app cps length].
  - rewrite Nat.add_0_r, app_nil_r. cbn [enc_from length]. by rewrite Z.add_0_r.
  - rewrite IH, <- app_assoc, (enc_from_cons i prev q l), length_app. do 2 f_equal.
    rewrite <- Nat.add_succ_comm. destruct (_ =? 0); [|done]. do 2 f_equal. lia.
Qed.

Lemma cps_length i prev off l :
  Z.of_nat (length (cps i prev off l)) = count P (Z.of_nat (i + length l)) - count P (Z.of_nat i).
Proof.
  revert i prev off. induction l as [|p l IH]; intros i prev off; cbn [cps length].
  { rewrite Nat.add_0_r. lia. }
  rewrite length_app, Nat2Z.inj_add, IH. rewrite Nat.add_succ_comm.
  assert (count P (Z.of_nat (S i)) = Z.of_nat i / P + 1) as E1.
  { unfold count, P. replace (Z.of_nat (S i) + 64 - 1) with (Z.of_nat i + 1 * 64) by lia. by rewrite Z.div_add by lia. }
  pose proof (Z.div_mod (Z.of_nat i) P ltac:(done)). pose proof (Z.mod_pos_bound (Z.of_nat i) P ltac:(done)).
  destruct (Z.eqb_spec (Z.of_nat i mod P) 0); cbn [length].
  - replace (count P (Z.of_nat i)) with (Z.of_nat i / P); [lia|]. unfold count.
    apply (Z.div_unique _ _ _ (P - 1)); unfold P in *; lia.
  - replace (count P (Z.of_nat i)) with (Z.of_nat i / P + 1); [lia|]. unfold count.
    apply (Z.div_unique _ _ _ (Z.of_nat i mod P - 1)); unfold P in *; lia.
Qed.

Lemma cps_spec i prev off l c :
  c ∈ cps i prev off l ->
  ∃ pre p post, l = pre ++ p :: post /\ Z.of_nat (i + length pre) mod P = 0 /\
    c = DocidLookupCheckpoint (m_tDocID p) (off + Z.of_nat (length (enc_from P i prev pre))).
Proof.
  revert i prev off. induction l as [|q l IH]; intros i prev off; cbn [cps].
  { intros H. by apply elem_of_nil in H. }
  intros [H|H]%elem_of_app.
  - destruct (Z.eqb_spec (Z.of_nat i mod P) 0); [|by apply elem_of_nil in H]. apply list_elem_of_singleton in H as ->.
    exists [], q, l. rewrite Nat.add_0_r. cbn [enc_from length]. by rewrite Z.add_0_r.
  - destruct (IH _ _ _ H) as (pre & p & post & -> & Hm & ->). exists (q :: pre), p, post. split; [done|].
    split; [cbn [length]; by rewrite <- Nat.add_succ_comm|]. rewrite (enc_from_cons i prev q pre), length_app. f_equal. lia.
Qed.

(** The [i]-th checkpoint is that of the [i]-th block. *)
Lemma cps_lookup off l k c :
  cps 0 0 off l !! k = Some c -> checkpoint_is P off l (Z.of_nat k) c.
Proof.
  intros Hk. induction l as [|p l IH] using rev_ind; [done|]. rewrite cps_snoc in Hk.
  cbn [Nat.add] in Hk. pose proof (cps_length 0 0 off l) as Hlen. cbn [Nat.add] in Hlen.
  change (count P (Z.of_nat 0)) with 0 in Hlen. rewrite Z.sub_0_r in Hlen.
  apply lookup_app_Some in Hk as [Hk|[Hge Hk]].
  - destruct (IH Hk) as (pre & q & post & -> & H1 & H2). exists pre, q, (post ++ [p]).
    split; [by rewrite <- app_assoc|done].
  - destruct (Z.eqb_spec (Z.of_nat (length l) mod P) 0) as [E|]; [|done].
    apply list_lookup_singleton_Some in Hk as [Hk <-]. exists l, p, []. split; [done|]. split; [|done].
    unfold count, P in *. pose proof (Z.div_mod (Z.of_nat (length l)) 64 ltac:(lia)) as D. rewrite E in D.
    assert ((Z.of_nat (length l) + 64 - 1) / 64 = Z.of_nat (length l) / 64) as E2
      by (symmetry; apply (Z.div_unique _ _ _ 63); lia). lia.
Qed.

(** ** The finished file has the format *)

Definition spt_file (pairs : list pair) (uo : Z) (tail : list Z) : list Z :=
  let nc := count P (Z.of_nat (length pairs)) in
  header (Z.of_nat (length pairs)) (last_doc 0 pairs) uo ++
  table (cps 0 0 (24 + 16 * nc) pairs) ++ enc_from P 0 0 pairs ++ tail.

Lemma spt_uuid_offset pairs uo tail :
  in_type int64_t uo -> load_offset (spt_file pairs uo tail) 16 = Some uo.
Proof.
  intros Hu. unfold spt_file, header. set (n := Z.of_nat (length pairs)).
  rewrite <- !app_assoc, (app_assoc (le_bytes 4 n)), (app_assoc (le_bytes 4 n ++ _)).
  by apply (load_offset_at ((le_bytes 4 n ++ le_bytes 4 P) ++ le_bytes 8 (last_doc 0 pairs))).
Qed.

Lemma checkpoint_range off pairs c k :
  Forall pair_ok pairs -> 0 <= off -> off + Z.of_nat (length (enc_from P 0 0 pairs)) < 2 ^ 63 ->
  checkpoint_is P off pairs k c -> in_type int64_t (m_tBaseDocID c) /\ in_type int64_t (m_tOffset c).
Proof.
  intros Hp Ho Hl (pre & p & post & -> & _ & ->). rewrite Forall_app, Forall_cons in Hp. cbn [m_tBaseDocID m_tOffset].
  split; [apply Hp|]. rewrite enc_from_app, length_app in Hl. unfold in_type. cbn [is_signed int64_t bits]. lia.
Qed.

(** A header, a table and entries that fit together. *)
Lemma layout_ok Pv pairs mx uo C tail :
  let n := Z.of_nat (length pairs) in
  in_type DWORD n -> in_type DWORD Pv -> mx = last_doc 0 pairs -> in_type int64_t mx -> in_type int64_t uo ->
  Z.of_nat (length C) = count Pv n -> Forall is_byte tail ->
  (∀ k c, C !! k = Some c -> checkpoint_is Pv (24 + 16 * count Pv n) pairs (Z.of_nat k) c /\
     in_type int64_t (m_tBaseDocID c) /\ in_type int64_t (m_tOffset c)) ->
  spt_ok Pv ((le_bytes 4 n ++ le_bytes 4 Pv ++ le_bytes 8 mx ++ le_bytes 8 uo) ++ table C ++ enc_from Pv 0 0 pairs ++ tail)
    24 pairs.
Proof.
  intros n Hn HP Em Hm Hu Lc Ht HC. split.
  - rewrite <- !app_assoc. by apply (load_dword_at []).
  - rewrite <- !app_assoc. by apply (load_dword_at (le_bytes 4 n)).
  - rewrite <- !app_assoc, app_assoc, <- Em. by apply (load_offset_at (le_bytes 4 n ++ le_bytes 4 Pv)).
  - intros _. exists uo. rewrite <- !app_assoc, (app_assoc (le_bytes 4 n)), (app_assoc (le_bytes 4 n ++ _)).
    by apply (load_offset_at ((le_bytes 4 n ++ le_bytes 4 Pv) ++ le_bytes 8 mx)).
  - fold n. intros i Hi. destruct (lookup_lt_is_Some_2 C (Z.to_nat i)) as [c Ec]; [lia|]. exists c.
    destruct (HC _ _ Ec) as (Hc & R1 & R2). rewrite Z2Nat.id in Hc by lia. split; [done|].
    rewrite <- (take_drop_middle _ _ _ Ec), table_app, table_cons. rewrite <- (app_assoc (table _)).
    set (h := le_bytes 4 n ++ le_bytes 4 Pv ++ le_bytes 8 mx ++ le_bytes 8 uo).
    assert (length h = 24%nat) as Lh by (unfold h; by rewrite !length_app, !le_bytes_length).
    assert (length (table (take (Z.to_nat i) C)) = Z.to_nat (16 * i)) as Lt by (rewrite table_length, length_take; lia).
    rewrite <- !app_assoc. split.
    + rewrite (app_assoc h). replace (24 + 16 * i) with (Z.of_nat (length (h ++ table (take (Z.to_nat i) C))))
        by (rewrite length_app, Lt, Lh; lia). by apply load_offset_at.
    + rewrite (app_assoc h), (app_assoc (h ++ _)).
      replace (24 + 16 * i + 8) with (Z.of_nat (length ((h ++ table (take (Z.to_nat i) C)) ++ le_bytes 8 (m_tBaseDocID c))))
        by (rewrite !length_app, Lt, Lh, le_bytes_length; lia). by apply load_offset_at.
  - exists ((le_bytes 4 n ++ le_bytes 4 Pv ++ le_bytes 8 mx ++ le_bytes 8 uo) ++ table C), tail.
    split; [rewrite <- !app_assoc; done|]. split; [|done].
    rewrite !length_app, !le_bytes_length, table_length. fold n. lia.
Qed.

Lemma last_doc_range pairs : Forall pair_ok pairs -> in_type int64_t (last_doc 0 pairs).
Proof.
  intros Hp. assert (∀ x, in_type int64_t x -> in_type int64_t (last_doc x pairs)) as G.
  { induction Hp as [|p l [H _] _ IH]; intros x Hx; simpl; auto. }
  apply G. unfold in_type. simpl. lia.
Qed.

Lemma spt_file_ok pairs uo tail :
  Forall pair_ok pairs -> Z.of_nat (length pairs) < 2 ^ 31 -> in_type int64_t uo -> Forall is_byte tail ->
  Z.of_nat (length (spt_file pairs uo tail)) < 2 ^ 63 ->
  spt_ok P (spt_file pairs uo tail) 24 pairs.
Proof.
  intros Hp Hn Hu Ht Hl. unfold spt_file, header in *.
  set (C := cps 0 0 (24 + 16 * count P (Z.of_nat (length pairs))) pairs) in *.
  assert (Z.of_nat (length C) = count P (Z.of_nat (length pairs))) as Lc.
  { unfold C. rewrite cps_length. cbn [Nat.add]. change (count P (Z.of_nat 0)) with 0. lia. }
  rewrite !length_app, !le_bytes_length, table_length in Hl.
  apply layout_ok; try done.
  - unfold in_type. cbn [is_signed DWORD bits]. lia.
  - by apply last_doc_range.
  - intros k c Hk. pose proof (cps_lookup _ _ _ _ Hk) as Hc. split; [done|].
    refine (checkpoint_range _ pairs c _ Hp _ _ Hc); lia.
Qed.

(** ** Writer steps *)

Lemma overlay_mid h m t bs : length bs = length m -> overlay (h ++ m ++ t) (length h) bs = h ++ bs ++ t.
Proof.
  intros E. unfold overlay. rewrite take_app_length. do 2 f_equal. rewrite E.
  rewrite app_assoc, <- length_app. apply drop_app_length.
Qed.

Lemma put_end bs w f b :
  holds_from w f (length f) b -> holds_from (PutBytes bs w) (f ++ bs) (length (f ++ bs)) b.
Proof. intros H. rewrite <- overlay_end at 1. rewrite length_app. by apply PutBytes_from. Qed.

Lemma put_end_holds bs w f :
  holds w f (length f) -> holds (PutBytes bs w) (f ++ bs) (length (f ++ bs)).
Proof. intros H. rewrite <- overlay_end at 1. rewrite length_app. by apply PutBytes_ok. Qed.

Lemma dword_end v w f b :
  holds_from w f (length f) b -> holds_from (PutDword v w) (f ++ le_bytes 4 v) (length (f ++ le_bytes 4 v)) b.
Proof. apply put_end. Qed.

Lemma offset_end v w f b :
  holds_from w f (length f) b -> holds_from (PutOffset v w) (f ++ le_bytes 8 v) (length (f ++ le_bytes 8 v)) b.
Proof. apply put_end. Qed.

Lemma put_mid bs w h m t b :
  length bs = length m -> holds_from w (h ++ m ++ t) (length h) b ->
  holds_from (PutBytes bs w) (h ++ bs ++ t) (length (h ++ bs)) b.
Proof. intros E H. rewrite <- (overlay_mid h m t bs E), length_app. by apply PutBytes_from. Qed.

Lemma offset_mid v w h m t b :
  length m = 8%nat -> holds_from w (h ++ m ++ t) (length h) b ->
  holds_from (PutOffset v w) ((h ++ le_bytes 8 v) ++ t) (length (h ++ le_bytes 8 v)) b.
Proof. intros E H. rewrite <- app_assoc. apply (put_mid _ _ _ m); [by rewrite le_bytes_length|done]. Qed.

Lemma zip_end v w f : holds w f (length f) -> holds (ZipOffset v w) (f ++ zoff v) (length (f ++ zoff v)).
Proof. intros H. rewrite <- overlay_end at 1. rewrite length_app. by apply put_bytes_each. Qed.

Lemma ZipOffset_error v w : m_bError (ZipOffset v w) = false -> m_bError w = false.
Proof.
  unfold ZipOffset. generalize (zoff v). intros l. revert w. induction l as [|b l IH]; intros w; [done|].
  simpl. intros H. by apply IH, PutByte_error in H.
Qed.

Definition zero_cp : DocidLookupCheckpoint_t := DocidLookupCheckpoint 0 0.

#[local] Opaque PutBytes.

Section Writer.
Variable N : Z.
Hypothesis HN : 0 <= N < 2 ^ 31.
Abbreviation nc := (Z.to_nat (count P N)).
Abbreviation off := (24 + 16 * count P N).

Lemma nc_pos : 0 <= count P N.
Proof. unfold count, P. apply Z.div_pos; lia. Qed.

(** The file while the entries of [done] are in it. *)
Definition partial (done : list pair) : list Z :=
  header N 0 0 ++ table (replicate nc zero_cp) ++ enc_from P 0 0 done.

Lemma partial_length done : Z.of_nat (length (partial done)) = off + Z.of_nat (length (enc_from P 0 0 done)).
Proof. unfold partial. rewrite !length_app, header_length, table_length, length_replicate. pose proof nc_pos. lia. Qed.

Record lw (l : DocidLookupWriter_c) (done : list pair) : Prop := {
  lw_docs : m_nDocs l = N;
  lw_file : holds (m_tWriter l) (partial done) (length (partial done));
  lw_processed : m_iProcessed l = Z.of_nat (length done);
  lw_last : m_tLastDocID l = last_doc 0 done;
  lw_pos : m_bError (m_tWriter l) = false ->
    m_tMaxDocIDPos l = 8 /\ m_tUuidLookupOffsetPos l = 16 /\ m_tCheckpointStart l = 24;
  lw_checkpoint : m_iCheckpoint l = length (cps 0 0 off done);
  lw_checkpoints : m_bError (m_tWriter l) = false ->
    m_dCheckpoints l = cps 0 0 off done ++ replicate (nc - length (cps 0 0 off done)) zero_cp
}.

Lemma iter_put k w f b :
  holds_from w f (length f) b ->
  holds_from (Nat.iter k (λ w, PutOffset 0 (PutOffset 0 w)) w) (f ++ table (replicate k zero_cp))
    (length (f ++ table (replicate k zero_cp))) b.
Proof.
  intros H. induction k as [|k IH]; [by rewrite app_nil_r|]. cbn [Nat.iter].
  pose proof (offset_end 0 _ _ _ (offset_end 0 _ _ _ IH)) as G.
  rewrite <- !app_assoc in G. rewrite replicate_S_end, table_app.
  change (table [zero_cp]) with ((le_bytes 8 0 ++ le_bytes 8 0) ++ []). rewrite app_nil_r. exact G.
Qed.

Lemma Start_ok iBufferSize io :
  0 < iBufferSize -> lw (Start (new_writer (OpenFile iBufferSize io) N)) [].
Proof.
  intros Hb. assert (holds_from (OpenFile iBufferSize io) [] (length (@nil Z)) 0) as H0.
  { split; [|done]. split; [done|]. intros _. split; [|done]. split; simpl; lia. }
  set (w2 := PutDword P (PutDword N (OpenFile iBufferSize io))).
  set (w3 := PutOffset 0 w2). set (w4 := PutOffset 0 w3).
  set (w5 := Nat.iter nc (λ w, PutOffset 0 (PutOffset 0 w)) w4).
  pose proof (dword_end P _ _ _ (dword_end N _ _ _ H0)) as H2. fold w2 in H2.
  pose proof (offset_end 0 _ _ _ H2) as H3. fold w3 in H3. pose proof (offset_end 0 _ _ _ H3) as H4. fold w4 in H4.
  pose proof (iter_put nc _ _ _ H4) as H5. fold w5 in H5.
  unfold Start. cbn [new_writer m_nDocs m_tWriter m_iProcessed m_iCheckpoint m_tLastDocID].
  assert (cast DWORD (N + P - 1) / P = count P N) as ->.
  { unfold count. rewrite cast_id; [done|done|]. unfold in_type, P. cbn [is_signed DWORD bits]. lia. }
  fold w2 w3 w4 w5.
  assert (∀ w f p b, holds_from w f p b -> m_bError w = false -> m_iPos w = Z.of_nat p) as Hp
    by (intros ? ? ? ? [[_ H] _] He; by destruct (H He) as (_ & _ & ?)).
  assert (m_bError w5 = false -> m_bError w4 = false) as E54.
  { subst w5. generalize nc. intros k. induction k as [|k IH]; [trivial|]. cbn [Nat.iter]. intros He. apply IH.
    pose proof (iter_put k _ _ _ H4) as Hk. pose proof (offset_end 0 _ _ _ Hk) as Hk1.
    exact (PutBytes_error _ _ (proj1 (proj1 Hk)) (PutBytes_error _ _ (proj1 (proj1 Hk1)) He)). }
  split; cbn [m_nDocs m_tWriter m_iProcessed m_tLastDocID m_tMaxDocIDPos m_tUuidLookupOffsetPos m_tCheckpointStart
              m_iCheckpoint m_dCheckpoints]; try done.
  - unfold partial, header. cbn [enc_from]. rewrite app_nil_r, <- !app_assoc in *. exact (proj1 H5).
  - intros He. pose proof (E54 He) as He4. pose proof (PutBytes_error _ _ (proj1 (proj1 H3)) He4) as He3.
    pose proof (PutBytes_error _ _ (proj1 (proj1 H2)) He3) as He2.
    rewrite (Hp _ _ _ _ H2 He2), (Hp _ _ _ _ H3 He3), (Hp _ _ _ _ H4 He4). rewrite !length_app, !le_bytes_length. done.
  - intros _. cbn [cps length app]. by rewrite Nat.sub_0_r.
Qed.

Lemma holds_pos w f p : holds w f p -> m_bError w = false -> m_iPos w = Z.of_nat p.
Proof. intros [_ H] He. by destruct (H He) as (_ & _ & ?). Qed.

Lemma partial_snoc done p :
  partial (done ++ [p]) = partial done ++ enc_from P (length done) (last_doc 0 done) [p].
Proof. unfold partial. rewrite enc_from_app. cbn [Nat.add]. by rewrite <- !app_assoc. Qed.

Lemma cps_room done p :
  Z.of_nat (length (done ++ [p])) <= N -> (length (cps 0 0 off (done ++ [p])) <= nc)%nat.
Proof.
  intros H. pose proof (cps_length 0 0 off (done ++ [p])) as L. cbn [Nat.add] in L.
  change (count P (Z.of_nat 0)) with 0 in L.
  assert (count P (Z.of_nat (length (done ++ [p]))) <= count P N) by (unfold count, P; apply Z.div_le_mono; lia). lia.
Qed.

Lemma AddPair_ok l done p :
  lw l done -> Z.of_nat (length (done ++ [p])) <= N -> lw (AddPair p l) (done ++ [p]).
Proof.
  intros L Hn. destruct L. unfold AddPair. rewrite lw_processed0. pose proof (cps_room done p Hn) as Hroom.
  pose proof (cps_snoc 0 0 off done p) as Hs. cbn [Nat.add] in Hs.
  assert (last_doc 0 (done ++ [p]) = m_tDocID p) as El by (by rewrite last_doc_app).
  assert (Z.of_nat (length done) + 1 = Z.of_nat (length (done ++ [p]))) as Ep by (rewrite length_app; simpl; lia).
  pose proof (partial_snoc done p) as Ef. cbn [enc_from] in Ef. rewrite app_nil_r in Ef.
  destruct (Z.of_nat (length done) mod P =? 0).
  - assert (holds (PutDword (m_tRowID p) (m_tWriter l)) (partial (done ++ [p])) (length (partial (done ++ [p])))) as Hh.
    { rewrite Ef. cbn [app]. by apply put_end_holds. }
    split; cbn [m_nDocs m_tWriter m_iProcessed m_tLastDocID m_tMaxDocIDPos m_tUuidLookupOffsetPos m_tCheckpointStart
              m_iCheckpoint m_dCheckpoints]; try done.
    + intros He. apply lw_pos0. exact (PutBytes_error _ _ (proj1 lw_file0) He).
    + rewrite Hs, length_app, lw_checkpoint0. simpl. lia.
    + intros He. pose proof (PutBytes_error _ _ (proj1 lw_file0) He) as He0.
      rewrite (lw_checkpoints0 He0), lw_checkpoint0, (holds_pos _ _ _ lw_file0 He0), partial_length.
      rewrite insert_app_r_alt by lia. rewrite Nat.sub_diag, Hs, length_app. rewrite Hs, length_app in Hroom. simpl in Hroom |- *.
      destruct (nc - length (cps 0 0 off done))%nat as [|m] eqn:Em; [lia|].
      replace (nc - (length (cps 0 0 off done) + 1))%nat with m by lia. simpl. by rewrite <- app_assoc.
  - pose proof (zip_end (cast uint64_t (u64 (m_tDocID p) - u64 (m_tLastDocID l))) _ _ lw_file0) as Hz.
    set (w1 := ZipOffset _ (m_tWriter l)) in *.
    assert (holds (PutDword (m_tRowID p) w1) (partial (done ++ [p])) (length (partial (done ++ [p])))) as Hh.
    { rewrite Ef, app_assoc, <- lw_last0. by apply put_end_holds. }
    rewrite app_nil_r in Hs.
    assert (m_bError (PutDword (m_tRowID p) w1) = false -> m_bError (m_tWriter l) = false) as Hm.
    { intros He. exact (ZipOffset_error _ _ (PutBytes_error _ _ (proj1 Hz) He)). }
    split; cbn [m_nDocs m_tWriter m_iProcessed m_tLastDocID m_tMaxDocIDPos m_tUuidLookupOffsetPos m_tCheckpointStart
              m_iCheckpoint m_dCheckpoints]; rewrite ?Hs; auto.
Qed.

Lemma AddPairs_ok ps l done :
  lw l done -> Z.of_nat (length (done ++ ps)) <= N -> lw (fold_left (λ l i, AddPair i l) ps l) (done ++ ps).
Proof.
  revert l done. induction ps as [|p ps IH]; intros l done L Hn; cbn [fold_left]; [by rewrite app_nil_r|].
  assert (done ++ p :: ps = (done ++ [p]) ++ ps) as E by (by rewrite <- app_assoc). rewrite E in *.
  apply IH; [|done]. apply AddPair_ok; [done|]. rewrite (length_app (done ++ [p])) in Hn. lia.
Qed.

(** Patching the header and the table. *)

Lemma split16 (m : list Z) k :
  length m = (16 + k)%nat ->
  ∃ m1 m2 m3, m = m1 ++ m2 ++ m3 /\ length m1 = 8%nat /\ length m2 = 8%nat /\ length m3 = k.
Proof.
  intros Hm. exists (take 8 m), (take 8 (drop 8 m)), (drop 16 m).
  split; [|rewrite !length_take, !length_drop; lia].
  rewrite <- (take_drop 8 m) at 1. f_equal. rewrite <- (take_drop 8 (drop 8 m)) at 1. by rewrite drop_drop.
Qed.

Lemma table_step c w h m1 m2 m3 t b :
  length m1 = 8%nat -> length m2 = 8%nat -> holds_from w (h ++ (m1 ++ m2 ++ m3) ++ t) (length h) b ->
  holds_from (PutOffset (m_tOffset c) (PutOffset (m_tBaseDocID c) w))
    ((h ++ le_bytes 8 (m_tBaseDocID c) ++ le_bytes 8 (m_tOffset c)) ++ m3 ++ t)
    (length (h ++ le_bytes 8 (m_tBaseDocID c) ++ le_bytes 8 (m_tOffset c))) b.
Proof.
  intros L1 L2 H. rewrite <- !app_assoc in H.
  pose proof (offset_mid (m_tBaseDocID c) w h m1 _ b L1 H) as H1.
  pose proof (offset_mid (m_tOffset c) _ _ m2 _ b L2 H1) as H2. rewrite <- (app_assoc h) in H2. exact H2.
Qed.

Lemma table_put C h t w b :
  ∀ m, length m = length (table C) -> holds_from w (h ++ m ++ t) (length h) b ->
  holds_from (fold_left (λ w i, PutOffset (m_tOffset i) (PutOffset (m_tBaseDocID i) w)) C w)
    (h ++ table C ++ t) (length (h ++ table C)) b.
Proof.
  revert h w. induction C as [|c C IH]; intros h w m Hm H.
  { apply nil_length_inv in Hm. subst m. rewrite app_nil_r. exact H. }
  rewrite fold_left_cons. rewrite table_cons, !length_app, !le_bytes_length in Hm.
  destruct (split16 m (length (table C)) Hm) as (m1 & m2 & m3 & -> & L1 & L2 & L3).
  specialize (IH _ _ m3 L3 (table_step c w h m1 m2 m3 t b L1 L2 H)).
  rewrite table_cons. rewrite <- !app_assoc in *. exact IH.
Qed.

(** [spt_file] without the table and the header patched. *)
Lemma spt_parts pairs uo tail :
  Z.of_nat (length pairs) = N ->
  spt_file pairs uo tail = header N (last_doc 0 pairs) uo ++ table (cps 0 0 off pairs) ++ enc_from P 0 0 pairs ++ tail.
Proof. intros E. unfold spt_file. by rewrite E. Qed.

Lemma full_cps pairs : Z.of_nat (length pairs) = N -> length (cps 0 0 off pairs) = nc.
Proof.
  intros E. pose proof (cps_length 0 0 off pairs) as L. cbn [Nat.add] in L. change (count P (Z.of_nat 0)) with 0 in L.
  rewrite E in L. lia.
Qed.

Definition finalize_steps (l : DocidLookupWriter_c) (w : CSphWriter) (tEnd : Z) : CSphWriter :=
  SeekTo tEnd false
    (fold_left (λ w i, PutOffset (m_tOffset i) (PutOffset (m_tBaseDocID i) w)) (m_dCheckpoints l)
       (SeekTo (m_tCheckpointStart l) false
          (PutOffset (m_tLastDocID l) (SeekTo (m_tMaxDocIDPos l) false w)))).

Lemma finalize_evolves l w tEnd : evolves w (finalize_steps l w tEnd).
Proof.
  unfold finalize_steps. etransitivity; [apply (seek_evolves (m_tMaxDocIDPos l) false)|].
  etransitivity; [apply (put_evolves (le_bytes 8 (m_tLastDocID l)))|].
  etransitivity; [apply (seek_evolves (m_tCheckpointStart l) false)|].
  etransitivity; [|apply seek_evolves]. apply fold_evolves. intros w' x.
  etransitivity; apply put_evolves.
Qed.

Lemma finalize_steps_ok l pairs :
  lw l pairs -> Z.of_nat (length pairs) = N -> m_bError (m_tWriter l) = false ->
  let f := spt_file pairs 0 [] in
  holds_from (finalize_steps l (Flush (m_tWriter l)) (Z.of_nat (length f))) f (length f) 24.
Proof.
  intros L HE He f. destruct L. unfold finalize_steps. destruct (lw_pos0 He) as (-> & _ & ->).
  change 8 with (Z.of_nat 8). change (SeekTo 24) with (SeekTo (Z.of_nat 24)). specialize (lw_checkpoints0 He).
  rewrite (full_cps pairs HE), Nat.sub_diag in lw_checkpoints0. cbn [replicate] in lw_checkpoints0. rewrite app_nil_r in lw_checkpoints0.
  rewrite lw_checkpoints0, lw_last0.
  pose proof (Flush_from _ _ _ lw_file0) as H0. set (w0 := Flush (m_tWriter l)) in *.
  pose proof (partial_length pairs) as Lp. pose proof nc_pos as Hnc.
  assert (length f = length (partial pairs)) as Lf.
  { unfold f. rewrite (spt_parts pairs 0 [] HE), app_nil_r. unfold partial. rewrite !length_app, !header_length, !table_length.
    by rewrite (full_cps pairs HE), length_replicate. }
  assert (partial pairs = (le_bytes 4 N ++ le_bytes 4 P) ++ le_bytes 8 0 ++
    (le_bytes 8 0 ++ table (replicate nc zero_cp) ++ enc_from P 0 0 pairs)) as Ep
    by (unfold partial, header; by rewrite <- !app_assoc).
  pose proof (SeekTo_from 8 w0 _ _ _ H0 ltac:(lia) ltac:(left; lia)) as H1. rewrite bool_decide_false in H1 by lia.
  rewrite Ep in H1. pose proof (offset_mid (last_doc 0 pairs) _ _ (le_bytes 8 0) _ _ (le_bytes_length 8 0) H1) as H2.
  set (w2 := PutOffset (last_doc 0 pairs) _) in *. clearbody w2. clear H1.
  pose proof (SeekTo_from 24 w2 _ _ _ H2) as H3.
  rewrite !length_app, !le_bytes_length in H3. specialize (H3 ltac:(lia) ltac:(right; lia)). rewrite bool_decide_false in H3 by lia.
  set (w3 := SeekTo (Z.of_nat 24) false w2) in *. clearbody w3. clear H2.
  assert (((le_bytes 4 N ++ le_bytes 4 P) ++ le_bytes 8 (last_doc 0 pairs)) ++ le_bytes 8 0 ++
    table (replicate nc zero_cp) ++ enc_from P 0 0 pairs =
    header N (last_doc 0 pairs) 0 ++ table (replicate nc zero_cp) ++ enc_from P 0 0 pairs) as Eh
    by (unfold header; by rewrite <- !app_assoc).
  rewrite Eh in H3. rewrite <- (header_length N (last_doc 0 pairs) 0) in H3 at 1.
  pose proof (table_put (cps 0 0 off pairs) _ _ _ _ (table (replicate nc zero_cp))
    ltac:(by rewrite !table_length, (full_cps pairs HE), length_replicate) H3) as H4.
  set (w4 := fold_left _ _ w3) in *. clearbody w4. clear H3.
  assert (header N (last_doc 0 pairs) 0 ++ table (cps 0 0 off pairs) ++ enc_from P 0 0 pairs = f) as E5
    by (unfold f; by rewrite (spt_parts pairs 0 [] HE), app_nil_r).
  rewrite E5 in H4.
  assert (length (header N (last_doc 0 pairs) 0 ++ table (cps 0 0 off pairs)) <= length f)%nat as L5
    by (rewrite <- E5, !length_app; lia).
  pose proof (SeekTo_from (length f) w4 _ _ _ H4 ltac:(lia) ltac:(right; lia)) as [G1 G2].
  split; [done|]. intros E. specialize (G2 E). case_bool_decide; lia.
Qed.

(** The file after [FinalizeNumeric]. *)
Lemma FinalizeNumeric_ok l pairs :
  lw l pairs -> Z.of_nat (length pairs) = N ->
  let '(ok, l') := FinalizeNumeric l in
  ok = negb (m_bError (m_tWriter l')) /\ m_tUuidLookupOffsetPos l' = m_tUuidLookupOffsetPos l /\
  (m_bError (m_tWriter l') = false -> m_bError (m_tWriter l) = false) /\
  holds_from (m_tWriter l') (spt_file pairs 0 []) (length (spt_file pairs 0 [])) 24.
Proof.
  intros L HE.
  change (FinalizeNumeric l) with
    (let w := finalize_steps l (Flush (m_tWriter l)) (m_iPos (Flush (m_tWriter l))) in
     (negb (m_bError w), set_writer w l)).
  cbv zeta iota beta. cbn [set_writer m_tWriter m_tUuidLookupOffsetPos].
  pose proof (lw_file _ _ L) as Hf. pose proof (proj1 Hf) as Hs.
  assert (evolves (m_tWriter l) (finalize_steps l (Flush (m_tWriter l)) (m_iPos (Flush (m_tWriter l))))) as Ev.
  { etransitivity; [apply flush_evolves|apply finalize_evolves]. }
  split; [done|]. split; [done|]. split; [apply (Ev Hs)|].
  destruct (m_bError (m_tWriter l)) eqn:He; [by apply (failed_holds (m_tWriter l))|].
  pose proof (finalize_steps_ok l pairs L HE He) as H. cbv zeta in H.
  destruct (m_bError (Flush (m_tWriter l))) eqn:He1.
  { apply (failed_holds (Flush (m_tWriter l))); [apply finalize_evolves| |done]. by rewrite Flush_size. }
  pose proof (Flush_from _ _ _ Hf) as [H0 _]. rewrite (holds_pos _ _ _ H0 He1).
  assert (length (spt_file pairs 0 []) = length (partial pairs)) as <-; [|exact H].
  rewrite (spt_parts pairs 0 [] HE), app_nil_r. unfold partial. rewrite !length_app, !header_length, !table_length.
  by rewrite (full_cps pairs HE), length_replicate.
Qed.

(** The patch of the UUID offset. *)
Lemma SetUuid_ok l pairs tOffset :
  Z.of_nat (length pairs) = N -> m_bError (m_tWriter l) = false -> m_tUuidLookupOffsetPos l = 16 ->
  holds_from (m_tWriter l) (spt_file pairs 0 []) (length (spt_file pairs 0 [])) 24 ->
  holds (m_tWriter (SetUuidLookupOffset tOffset l)) (spt_file pairs tOffset []) (length (spt_file pairs tOffset [])).
Proof.
  intros HE He Hp H0. unfold SetUuidLookupOffset. cbn [set_writer m_tWriter]. rewrite Hp, (holds_pos _ _ _ (proj1 H0) He).
  assert (∀ uo, length (spt_file pairs uo []) = length (spt_file pairs 0 [])) as Lf.
  { intros uo. rewrite !(spt_parts pairs _ [] HE), !length_app, !header_length. done. }
  assert (24 <= length (spt_file pairs 0 []))%nat as L24 by (rewrite (spt_parts pairs 0 [] HE), length_app, header_length; lia).
  change 16 with (Z.of_nat 16).
  pose proof (SeekTo_from 16 _ _ _ _ H0 ltac:(lia) ltac:(left; lia)) as H1. rewrite bool_decide_false in H1 by lia.
  assert (∀ uo, spt_file pairs uo [] = ((le_bytes 4 N ++ le_bytes 4 P) ++ le_bytes 8 (last_doc 0 pairs)) ++ le_bytes 8 uo ++
    (table (cps 0 0 off pairs) ++ enc_from P 0 0 pairs)) as Es.
  { intros uo. rewrite (spt_parts pairs uo [] HE), app_nil_r. unfold header. by rewrite <- !app_assoc. }
  rewrite (Es 0) in H1 at 1. pose proof (offset_mid tOffset _ _ (le_bytes 8 0) _ _ (le_bytes_length 8 0) H1) as H2.
  set (w2 := PutOffset tOffset _) in *. clearbody w2. rewrite <- app_assoc, <- Es in H2.
  rewrite !length_app, !le_bytes_length in H2. rewrite (Lf tOffset).
  refine (proj1 (SeekTo_from (length (spt_file pairs 0 [])) w2 _ _ _ H2 _ _)); [rewrite (Lf tOffset); lia|right; lia].
Qed.
End Writer.

Lemma zoff_max v : (length (zoff v) <= 10)%nat.
Proof.
  unfold zoff, ZipValueBE. rewrite zip_be_loop_length. pose proof (sphCalcZippedLen_max uint64_t v ltac:(simpl; lia)) as H.
  cbn [bits uint64_t] in H. lia.
Qed.

Lemma enc_from_max i prev l : (length (enc_from P i prev l) <= 14 * length l)%nat.
Proof.
  revert i prev. induction l as [|p l IH]; intros i prev; cbn [enc_from length]; [lia|].
  rewrite !length_app, le_bytes_length. specialize (IH (S i) (m_tDocID p)).
  pose proof (zoff_max (cast uint64_t (u64 (m_tDocID p) - u64 prev))). destruct (_ =? 0); [simpl|]; lia.
Qed.

Lemma spt_file_length pairs uo tail :
  Z.of_nat (length (spt_file pairs uo tail)) <= 24 + 16 * count P (Z.of_nat (length pairs)) +
    14 * Z.of_nat (length pairs) + Z.of_nat (length tail).
Proof.
  unfold spt_file. rewrite !length_app, header_length, table_length.
  pose proof (enc_from_max 0 0 pairs).
  pose proof (cps_length 0 0 (24 + 16 * count P (Z.of_nat (length pairs))) pairs) as L. cbn [Nat.add] in L.
  change (count P (Z.of_nat 0)) with 0 in L. lia.
Qed.

Lemma spt_fits pairs uo : Z.of_nat (length pairs) < 2 ^ 31 -> Z.of_nat (length (spt_file pairs uo [])) < 2 ^ 62.
Proof.
  intros Hn. pose proof (spt_file_length pairs uo []). simpl length in *.
  assert (count P (Z.of_nat (length pairs)) <= Z.of_nat (length pairs) + 64) by (unfold count, P; apply Z.div_le_upper_bound; lia).
  lia.
Qed.

(** The file [WriteDocidLookup] closes. *)
Lemma WriteDocidLookup_ok iBufferSize io pairs :
  0 < iBufferSize -> Z.of_nat (length pairs) < 2 ^ 31 ->
  let '(ok, w) := WriteDocidLookup iBufferSize io pairs in
  ok = true -> w_disk w = spt_file pairs 0 [].
Proof.
  intros Hb Hn. unfold WriteDocidLookup. set (N := Z.of_nat (length pairs)) in *.
  assert (0 <= N < 2 ^ 31) as HN by (unfold N in *; lia).
  pose proof (AddPairs_ok N HN pairs _ [] (Start_ok N HN iBufferSize io Hb)) as L. cbn [app] in L.
  specialize (L (Z.le_refl _)). set (l := fold_left _ _ _) in *. clearbody l.
  unfold Finalize. pose proof (FinalizeNumeric_ok N HN l pairs L eq_refl) as F.
  destruct (FinalizeNumeric l) as [ok l']. destruct F as (-> & _ & _ & [H _]).
  destruct (m_bError (m_tWriter l')); cbn [negb]; [done|]. cbn [set_writer m_tWriter].
  intros E. apply negb_true_iff in E. exact (CloseFile_ok _ _ _ H E).
Qed.

(** ** Round trips *)

(** [C9] What is written to a lookup file is found in it: for pairs sorted by
    (unsigned) document id, the file [WriteDocidLookup] closes without an error
    can be opened, and [Find] returns for every id a row that was written with
    it, or [INVALID_ROWID] exactly if the id was not written; no read leaves
    the file. *)
Theorem lookup_find_correct iBufferSize io pairs ver :
  0 < iBufferSize -> pairs_ok pairs -> pairs <> [] -> Z.of_nat (length pairs) + P <= 2 ^ 31 -> 71 <= ver ->
  let '(ok, w) := WriteDocidLookup iBufferSize io pairs in
  ok = true ->
  ∃ r uo, SetData (w_disk w) ver = Some (r, uo) /\
    ∀ tDocID, in_type int64_t tDocID ->
    ∃ row, Find r tDocID = Some row /\
      (in_pairs tDocID row pairs \/ (row = INVALID_ROWID /\ ∀ row', ¬ in_pairs tDocID row' pairs)).
Proof.
  intros Hb Hp Hne Hn Hv. pose proof (WriteDocidLookup_ok iBufferSize io pairs Hb) as W.
  unfold P in Hn. destruct (WriteDocidLookup iBufferSize io pairs) as [ok w]. intros Hok.
  specialize (W ltac:(lia) Hok). pose proof (spt_fits pairs 0 ltac:(lia)).
  assert (spt_ok P (w_disk w) 24 pairs) as So.
  { rewrite W. apply spt_file_ok; [apply Hp|lia| |constructor|lia]. unfold in_type. simpl. lia. }
  destruct (SetData_ok P (w_disk w) 24 pairs ltac:(done) Hp So Hne Hn ver) as (uo & E & _).
  { rewrite Z.geb_leb, (proj2 (Z.leb_le _ _)) by lia. done. }
  exists (reader P (w_disk w) 24 pairs), (uo, Z.of_nat (length pairs)). split; [done|]. intros d Hd.
  exact (Find_ok P (w_disk w) 24 pairs eq_refl Hp So Hne Hn (or_intror eq_refl) d Hd).
Qed.

Definition demo_pairs : list pair :=
  map (λ i, DocidRowidPair (3 * i + 1) (1000 - i)) (seqZ 0 70) ++ [DocidRowidPair (-5) 7].

Lemma demo_pairs_ok : pairs_ok demo_pairs.
Proof.
  split; [|apply sortedb_sorted; vm_compute; reflexivity].
  apply (bool_decide_unpack _). unfold pair_ok, in_type. vm_compute. exact I.
Qed.

Lemma lookup_find_correct_witness :
  (WriteDocidLookup 100 [] demo_pairs).1 = true /\
  let '(ok, w) := WriteDocidLookup 100 [] demo_pairs in
  ok = true ->
  ∃ r uo, SetData (w_disk w) 74 = Some (r, uo) /\
    ∀ tDocID, in_type int64_t tDocID ->
    ∃ row, Find r tDocID = Some row /\
      (in_pairs tDocID row demo_pairs \/ (row = INVALID_ROWID /\ ∀ row', ¬ in_pairs tDocID row' demo_pairs)).
Proof.
  split; [vm_compute; reflexivity|].
  refine (lookup_find_correct 100 [] demo_pairs 74 _ demo_pairs_ok _ _ _); [lia|discriminate|vm_compute; discriminate|lia].
Defined.
End DocidLookupWrite.

(** * UUID lookups and the upgrade of lookup files

    The UUID part of a lookup file round trips; a file of the older layout is
    upgraded to one with the same pairs; what the format check accepts. *)

From S2P Require Import Prelude Zip Span BinSearch FileIO SearchNode DocidLookup.
Import Zip Span BinSearch FileIO SearchNode DocidLookup DocidLookupOk DocidLookupWrite.

Module DocidLookupUuid.

#[local] Opaque PutBytes.

(** ** UUID keys as numbers *)

Definition key_ok (k : UuidDocidKey_t) : Prop := in_type uint64_t (m_uHi k) /\ in_type uint64_t (m_uLo k).
Definition key_z (k : UuidDocidKey_t) : Z := m_uHi k * 2 ^ 64 + m_uLo k.

Lemma less_key a b : key_ok a -> key_ok b -> LessUuidKey a b = (key_z a <? key_z b).
Proof.
  unfold key_ok, in_type, LessUuidKey, key_z. cbn [is_signed uint64_t bits]. intros [A1 A2] [B1 B2].
  destruct (Z.eqb_spec (m_uHi a) (m_uHi b)) as [->|N].
  - destruct (Z.ltb_spec (m_uLo a) (m_uLo b)), (Z.ltb_spec (m_uHi b * 2 ^ 64 + m_uLo a) (m_uHi b * 2 ^ 64 + m_uLo b)); lia.
  - destruct (Z.ltb_spec (m_uHi a) (m_uHi b)), (Z.ltb_spec (m_uHi a * 2 ^ 64 + m_uLo a) (m_uHi b * 2 ^ 64 + m_uLo b)); lia.
Qed.

Lemma same_key a b : key_ok a -> key_ok b -> SameUuidKey a b = (key_z a =? key_z b).
Proof.
  unfold key_ok, in_type, SameUuidKey, key_z. cbn [is_signed uint64_t bits]. intros [A1 A2] [B1 B2].
  destruct (Z.eqb_spec (m_uHi a) (m_uHi b)), (Z.eqb_spec (m_uLo a) (m_uLo b)),
    (Z.eqb_spec (m_uHi a * 2 ^ 64 + m_uLo a) (m_uHi b * 2 ^ 64 + m_uLo b)); simpl; lia.
Qed.

Lemma key_z_inj a b : key_ok a -> key_ok b -> key_z a = key_z b -> a = b.
Proof.
  unfold key_ok, in_type, key_z. cbn [is_signed uint64_t bits]. destruct a as [h l], b as [h' l']. simpl.
  intros [A1 A2] [B1 B2] E. f_equal; lia.
Qed.

(** ** The entries *)

Definition uuid_ok (t : UuidDocidLookupPair_t) : Prop := key_ok (m_tKey t) /\ in_type int64_t (u_tDocID t).

Definition uuid_bytes (t : UuidDocidLookupPair_t) : list Z :=
  le_bytes 8 (m_uHi (m_tKey t)) ++ le_bytes 8 (m_uLo (m_tKey t)) ++ le_bytes 8 (u_tDocID t).

Definition uuids_bytes (l : list UuidDocidLookupPair_t) : list Z := concat (map uuid_bytes l).

Lemma uuids_length l : length (uuids_bytes l) = (24 * length l)%nat.
Proof.
  induction l as [|t l IH]; [done|]. unfold uuids_bytes in *. cbn [map concat length].
  rewrite length_app, IH. unfold uuid_bytes. rewrite !length_app, !le_bytes_length. lia.
Qed.

Lemma uuids_app l1 l2 : uuids_bytes (l1 ++ l2) = uuids_bytes l1 ++ uuids_bytes l2.
Proof. unfold uuids_bytes. by rewrite map_app, concat_app. Qed.

Lemma uuids_is_bytes l : Forall is_byte (uuids_bytes l).
Proof.
  induction l as [|t l IH]; [constructor|]. unfold uuids_bytes in *. cbn [map concat].
  unfold uuid_bytes at 1. rewrite !Forall_app. split; [|done]. repeat split; apply le_bytes_bytes.
Qed.

Section Find.
Variables (data before : list Z) (l : list UuidDocidLookupPair_t).
Hypothesis Hdata : data = before ++ uuids_bytes l.
Hypothesis Hok : Forall uuid_ok l.
Hypothesis Hbefore : before <> [].

Definition uuid_reader : UuidLookupReader_c :=
  UuidSetData data (Z.of_nat (length before)) (Z.of_nat (length l)).

Lemma reader_eq : uuid_reader = UuidLookupReader data (Some (Z.of_nat (length before))) (Z.of_nat (length l)).
Proof.
  unfold uuid_reader, UuidSetData. rewrite (proj2 (Z.eqb_neq _ _)); [done|]. destruct before; [done|simpl; lia].
Qed.

Lemma UuidGet_ok i t : l !! i = Some t -> UuidGet uuid_reader (Z.of_nat i) = Some t.
Proof.
  intros Hi. rewrite reader_eq. unfold UuidGet. cbn [m_pEntries mbind option_bind ur_pData].
  pose proof (proj1 (Forall_lookup _ _) Hok i t Hi) as [[K1 K2] K3].
  rewrite <- (take_drop_middle _ _ _ Hi), uuids_app in Hdata.
  change (uuids_bytes (t :: drop (S i) l)) with (uuid_bytes t ++ uuids_bytes (drop (S i) l)) in Hdata.
  unfold uuid_bytes in Hdata. rewrite <- !app_assoc in Hdata.
  assert (i < length l)%nat as Hlt by (by apply lookup_lt_Some in Hi).
  assert (length (uuids_bytes (take i l)) = (24 * i)%nat) as L1 by (rewrite uuids_length, length_take; lia).
  set (b1 := before ++ uuids_bytes (take i l)).
  assert (Z.of_nat (length before) + Z.of_nat i * 24 = Z.of_nat (length b1)) as -> by (unfold b1; rewrite length_app, L1; lia).
  assert (∀ x, in_type uint64_t x -> x mod 256 ^ Z.of_nat 8 = x) as Hm.
  { intros x. unfold in_type. cbn [is_signed uint64_t bits]. intros. apply Z.mod_small. exact H. }
  rewrite (app_assoc before) in Hdata. fold b1 in Hdata. rewrite Hdata.
  rewrite load_at, Hm by done. cbn [mbind option_bind].
  rewrite (app_assoc b1). set (b2 := b1 ++ _).
  assert (Z.of_nat (length b1) + 8 = Z.of_nat (length b2)) as -> by (unfold b2; rewrite length_app, le_bytes_length; lia).
  rewrite load_at, Hm by done. cbn [mbind option_bind].
  rewrite (app_assoc b2). set (b3 := b2 ++ _).
  assert (Z.of_nat (length b1) + 16 = Z.of_nat (length b3)) as ->
    by (unfold b3, b2; rewrite !length_app, !le_bytes_length; lia).
  rewrite load_offset_at by done. cbn [mbind option_bind]. by destruct t as [[h lo] d].
Qed.

Definition keys : list Z := map (key_z ∘ m_tKey) l.

Lemma keys_at i t : l !! i = Some t -> at_ keys (Z.of_nat i) = key_z (m_tKey t).
Proof. intros H. unfold at_, keys. by rewrite nth_lookup, list_lookup_fmap, Nat2Z.id, H. Qed.

Hypothesis Hsorted : sorted keys.

Lemma uuid_loop_ok fuel k s e :
  key_ok k -> 0 <= s <= e -> e <= Z.of_nat (length l) -> (Z.to_nat (e - s) < fuel)%nat ->
  ∃ i, uuid_loop fuel uuid_reader k s e = Some i /\ s <= i <= e /\
    (∀ j, s <= j < i -> at_ keys j < key_z k) /\ (i < e -> key_z k <= at_ keys i).
Proof.
  intros Hk. revert s e. induction fuel as [|fuel IH]; intros s e H1 H2 Hf; [lia|]. cbn [uuid_loop].
  destruct (Z.ltb_spec s e) as [Hlt|Hge].
  2: { exists s. split; [done|]. split; [lia|]. split; [lia|lia]. }
  set (m := s + (e - s) / 2).
  assert (s <= m < e) as Hm.
  { subst m. pose proof (Z.div_mod (e - s) 2 ltac:(lia)). pose proof (Z.mod_pos_bound (e - s) 2 ltac:(lia)). lia. }
  destruct (lookup_lt_is_Some_2 l (Z.to_nat m)) as [t Et]; [lia|].
  pose proof (UuidGet_ok _ _ Et) as G. rewrite Z2Nat.id in G by lia. rewrite G. cbn [mbind option_bind].
  pose proof (keys_at _ _ Et) as Ka. rewrite Z2Nat.id in Ka by lia.
  rewrite less_key; [|apply (proj1 (Forall_lookup _ _) Hok _ _ Et)|done]. rewrite <- Ka.
  assert (len keys = Z.of_nat (length l)) as Lk by (unfold len, keys; by rewrite length_map).
  destruct (Z.ltb_spec (at_ keys m) (key_z k)) as [L|L].
  - destruct (IH (m + 1) e ltac:(lia) ltac:(lia) ltac:(lia)) as (i & E & G1 & G2 & G3).
    exists i. split; [done|]. split; [lia|]. split; [|done]. intros j Hj.
    destruct (decide (m < j)); [apply G2; lia|]. pose proof (Hsorted j m ltac:(lia) ltac:(lia)). lia.
  - destruct (IH s m ltac:(lia) ltac:(lia) ltac:(lia)) as (i & E & G1 & G2 & G3).
    exists i. split; [done|]. split; [lia|]. split; [done|]. intros _.
    destruct (decide (i = m)) as [->|]; [lia|]. apply G3. lia.
Qed.

Lemma UuidFind_ok k :
  key_ok k ->
  ∃ d, UuidFind uuid_reader k = Some d /\
    (UuidDocidLookupPair k d ∈ l \/ (d = 0 /\ ∀ d', UuidDocidLookupPair k d' ∉ l)).
Proof.
  intros Hk. unfold UuidFind.
  assert (ur_nDocs uuid_reader = Z.of_nat (length l)) as -> by (by rewrite reader_eq).
  destruct (uuid_loop_ok (S (Z.to_nat (Z.of_nat (length l)))) k 0 (Z.of_nat (length l)) Hk ltac:(lia) ltac:(lia) ltac:(lia))
    as (i & -> & G1 & G2 & G3). cbn [mbind option_bind].
  assert (∀ j t, l !! j = Some t -> key_ok (m_tKey t)) as Hkk by (intros j t Hj; apply (proj1 (Forall_lookup _ _) Hok _ _ Hj)).
  assert (len keys = Z.of_nat (length l)) as Lk by (unfold len, keys; by rewrite length_map).
  destruct (Z.eqb_spec i (Z.of_nat (length l))) as [->|N].
  - exists 0. split; [done|]. right. split; [done|]. intros d' Hin. apply list_elem_of_lookup_1 in Hin as [j Hj].
    pose proof (keys_at _ _ Hj) as Kj. cbn [m_tKey] in Kj. apply lookup_lt_Some in Hj.
    specialize (G2 (Z.of_nat j) ltac:(lia)). lia.
  - destruct (lookup_lt_is_Some_2 l (Z.to_nat i)) as [t Et]; [lia|].
    pose proof (UuidGet_ok _ _ Et) as G. rewrite Z2Nat.id in G by lia. rewrite G. cbn [mbind option_bind].
    pose proof (keys_at _ _ Et) as Ka. rewrite Z2Nat.id in Ka by lia.
    rewrite same_key by eauto. destruct (Z.eqb_spec (key_z (m_tKey t)) (key_z k)) as [E|Ne].
    + apply key_z_inj in E; [|eauto|done]. exists (u_tDocID t). split; [done|]. left. rewrite <- E.
      destruct t. by eapply list_elem_of_lookup_2.
    + exists 0. split; [done|]. right. split; [done|]. intros d' Hin. apply list_elem_of_lookup_1 in Hin as [j Hj].
      pose proof (keys_at _ _ Hj) as Kj. cbn [m_tKey] in Kj. pose proof (lookup_lt_Some _ _ _ Hj).
      destruct (decide (Z.of_nat j < i)); [specialize (G2 (Z.of_nat j) ltac:(lia)); lia|].
      pose proof (Hsorted i (Z.of_nat j) ltac:(lia) ltac:(lia)). specialize (G3 ltac:(lia)). lia.
Qed.
End Find.

(** ** The file with UUID keys *)

Lemma uuids_put l w f :
  holds w f (length f) ->
  holds (fold_left (λ w t, PutOffset (u_tDocID t) (PutOffset (m_uLo (m_tKey t)) (PutOffset (m_uHi (m_tKey t)) w))) l w)
    (f ++ uuids_bytes l) (length (f ++ uuids_bytes l)).
Proof.
  revert w f. induction l as [|t l IH]; intros w f H; [by rewrite app_nil_r|]. rewrite fold_left_cons.
  pose proof (put_end_holds (le_bytes 8 (u_tDocID t)) _ _ (put_end_holds (le_bytes 8 (m_uLo (m_tKey t))) _ _
    (put_end_holds (le_bytes 8 (m_uHi (m_tKey t))) _ _ H))) as H3.
  specialize (IH _ _ H3).
  change (uuids_bytes (t :: l)) with ((le_bytes 8 (m_uHi (m_tKey t)) ++ le_bytes 8 (m_uLo (m_tKey t)) ++ le_bytes 8 (u_tDocID t)) ++ uuids_bytes l).
  rewrite <- !app_assoc in *. exact IH.
Qed.

Lemma spt_file_tail pairs uo tail : spt_file pairs uo tail = spt_file pairs uo [] ++ tail.
Proof. unfold spt_file. by rewrite app_nil_r, <- !app_assoc. Qed.

Lemma WriteDocidLookupUuid_ok iBufferSize io pairs l :
  0 < iBufferSize -> Z.of_nat (length pairs) < 2 ^ 31 ->
  let '(ok, w) := WriteDocidLookupUuid iBufferSize io pairs l in
  ok = true -> w_disk w = spt_file pairs (Z.of_nat (length (spt_file pairs 0 []))) (uuids_bytes l).
Proof.
  intros Hb Hn. unfold WriteDocidLookupUuid. set (N := Z.of_nat (length pairs)) in *.
  assert (0 <= N < 2 ^ 31) as HN by (unfold N in *; lia).
  pose proof (AddPairs_ok N HN pairs _ [] (Start_ok N HN iBufferSize io Hb)) as L. cbn [app] in L.
  specialize (L (Z.le_refl _)). set (lw0 := fold_left _ pairs _) in *. clearbody lw0.
  pose proof (FinalizeNumeric_ok N HN lw0 pairs L eq_refl) as F.
  destruct (FinalizeNumeric lw0) as [ok l']. destruct F as (-> & Hp & He & H).
  destruct (m_bError (m_tWriter l')) eqn:E; cbn [negb]; [done|]. specialize (He eq_refl).
  destruct (lw_pos _ _ _ L He) as (_ & Hu & _). rewrite Hu in Hp.
  rewrite (holds_pos _ _ _ (proj1 H) E).
  pose proof (SetUuid_ok N l' pairs (Z.of_nat (length (spt_file pairs 0 []))) eq_refl E Hp H) as H1.
  pose proof (uuids_put l _ _ H1) as H2. set (w := fold_left _ l _) in *. clearbody w.
  intros Ec. apply negb_true_iff in Ec. rewrite (CloseFile_ok _ _ _ H2 Ec). by rewrite <- spt_file_tail.
Qed.

(** UUID lookups round trip: after [WriteDocidLookup] with UUID keys sorted
    as 128 bit numbers, the entries the header points to give for every key the
    document id it was written with, or 0 exactly if the key was not written. *)
Theorem uuid_lookup_correct iBufferSize io pairs l ver :
  0 < iBufferSize -> pairs_ok pairs -> pairs <> [] -> Z.of_nat (length pairs) + P <= 2 ^ 31 -> 71 <= ver ->
  length l = length pairs -> Forall uuid_ok l -> sorted (keys l) ->
  let '(ok, w) := WriteDocidLookupUuid iBufferSize io pairs l in
  ok = true ->
  ∃ r tEntriesOffset nDocs, SetData (w_disk w) ver = Some (r, (tEntriesOffset, nDocs)) /\
    ∀ k, key_ok k ->
    ∃ d, UuidFind (UuidSetData (w_disk w) tEntriesOffset nDocs) k = Some d /\
      (UuidDocidLookupPair k d ∈ l \/ (d = 0 /\ ∀ d', UuidDocidLookupPair k d' ∉ l)).
Proof.
  intros Hb Hsrt Hne Hn Hv Hl Hu Hs. pose proof (proj1 Hsrt) as Hp. unfold P in Hn.
  pose proof (WriteDocidLookupUuid_ok iBufferSize io pairs l Hb ltac:(lia)) as W.
  destruct (WriteDocidLookupUuid iBufferSize io pairs l) as [ok w]. intros Hok. specialize (W Hok).
  set (uo := Z.of_nat (length (spt_file pairs 0 []))) in *. pose proof (spt_fits pairs 0 ltac:(lia)) as Hf. fold uo in Hf.
  assert (length (spt_file pairs uo []) = length (spt_file pairs 0 [])) as Lf
    by (unfold spt_file; rewrite !length_app, !header_length; done).
  assert (in_type int64_t uo) as Huo by (unfold in_type; cbn [is_signed int64_t bits]; unfold uo in *; lia).
  assert (spt_ok P (w_disk w) 24 pairs) as So.
  { rewrite W. apply spt_file_ok; [done|lia|done|apply uuids_is_bytes|].
    rewrite spt_file_tail, length_app, uuids_length, Hl, Lf. unfold uo in Hf. lia. }
  destruct (SetData_ok P (w_disk w) 24 pairs eq_refl Hsrt So Hne Hn ver) as (uo' & E & Eu).
  { rewrite Z.geb_leb, (proj2 (Z.leb_le _ _)) by lia. done. }
  rewrite W, (spt_uuid_offset pairs uo _ Huo) in Eu. specialize (Eu eq_refl). injection Eu as <-.
  eexists _, _, _. split; [exact E|]. intros k Hk. rewrite <- Hl.
  assert (w_disk w = spt_file pairs uo [] ++ uuids_bytes l) as Ed by (by rewrite W, <- spt_file_tail).
  assert (uo = Z.of_nat (length (spt_file pairs uo []))) as -> by (by rewrite Lf).
  apply (UuidFind_ok (w_disk w) (spt_file pairs uo []) l Ed Hu); [|done|done].
  intros E0. apply (f_equal length) in E0. unfold spt_file in E0. rewrite length_app, header_length in E0. simpl in E0. lia.
Qed.

Definition demo_uuids : list UuidDocidLookupPair_t :=
  map (λ i, UuidDocidLookupPair (UuidDocidKey (i / 2) (i mod 2)) (100 + i)) (seqZ 0 71).

Lemma uuid_lookup_correct_witness :
  (WriteDocidLookupUuid 100 [] demo_pairs demo_uuids).1 = true /\
  let '(ok, w) := WriteDocidLookupUuid 100 [] demo_pairs demo_uuids in
  ok = true ->
  ∃ r tEntriesOffset nDocs, SetData (w_disk w) 74 = Some (r, (tEntriesOffset, nDocs)) /\
    ∀ k, key_ok k ->
    ∃ d, UuidFind (UuidSetData (w_disk w) tEntriesOffset nDocs) k = Some d /\
      (UuidDocidLookupPair k d ∈ demo_uuids \/ (d = 0 /\ ∀ d', UuidDocidLookupPair k d' ∉ demo_uuids)).
Proof.
  split; [vm_compute; reflexivity|].
  refine (uuid_lookup_correct 100 [] demo_pairs demo_uuids 74 _ demo_pairs_ok _ _ _ _ _ _);
    [lia|discriminate|vm_compute; discriminate|lia|vm_compute; reflexivity| |].
  - apply (bool_decide_unpack _). unfold uuid_ok, key_ok, in_type. vm_compute. exact I.
  - apply sortedb_sorted. vm_compute. reflexivity.
Defined.

(** ** Upgrading older files *)

Section Upgrade.
Variables (Pv : Z) (data : list Z) (pairs : list pair).
Hypothesis HP : 0 < Pv.
Hypothesis Hspt : spt_ok Pv data 16 pairs.

Definition old_base (j : Z) : Z := default 0 (load_offset data (16 + 16 * j)).
Definition old_offset (j : Z) : Z := default 0 (load_offset data (16 + 16 * j + 8)).
Definition new_cp (j : Z) : DocidLookupCheckpoint_t := DocidLookupCheckpoint (old_base j) (old_offset j + 8).

Lemma copy_checkpoints_ok k i w f :
  0 <= i -> i + Z.of_nat k <= count Pv (Z.of_nat (length pairs)) -> holds w f (length f) ->
  ∃ w', copy_checkpoints k data (16 + 16 * i) 8 w = Some w' /\
    holds w' (f ++ table (map new_cp (seqZ i (Z.of_nat k)))) (length (f ++ table (map new_cp (seqZ i (Z.of_nat k))))).
Proof.
  revert i w f. induction k as [|k IH]; intros i w f Hi Hk H; cbn [copy_checkpoints].
  { exists w. split; [done|]. by rewrite seqZ_nil, app_nil_r by lia. }
  destruct (so_table _ _ _ _ Hspt i ltac:(lia)) as (c & _ & L1 & L2). rewrite L1, L2. cbn [mbind option_bind].
  pose proof (put_end_holds (le_bytes 8 (m_tOffset c + 8)) _ _ (put_end_holds (le_bytes 8 (m_tBaseDocID c)) _ _ H)) as H2.
  replace (16 + 16 * i + 16) with (16 + 16 * (i + 1)) by lia.
  destruct (IH (i + 1) _ _ ltac:(lia) ltac:(lia) H2) as (w' & E & H3). exists w'. split; [exact E|].
  rewrite (seqZ_cons i) by lia. cbn [map]. rewrite table_cons.
  assert (m_tBaseDocID (new_cp i) = m_tBaseDocID c) as -> by (unfold new_cp, old_base; by rewrite L1).
  assert (m_tOffset (new_cp i) = m_tOffset c + 8) as -> by (unfold new_cp, old_offset; by rewrite L2).
  replace (Z.succ i) with (i + 1) by lia. replace (Z.pred (Z.of_nat (S k))) with (Z.of_nat k) by lia.
  rewrite <- !app_assoc in *. exact H3.
Qed.

Hypothesis Hpairs : Forall pair_ok pairs.
Hypothesis Hsize : Z.of_nat (length pairs) + Pv <= 2 ^ 31.
Hypothesis Hlen : Z.of_nat (length data) < 2 ^ 62.

Abbreviation n := (Z.of_nat (length pairs)).
Definition upgraded : list Z :=
  (le_bytes 4 n ++ le_bytes 4 Pv ++ le_bytes 8 (last_doc 0 pairs) ++ le_bytes 8 0) ++
  table (map new_cp (seqZ 0 (count Pv n))) ++ drop (Z.to_nat (16 + 16 * count Pv n)) data.

Lemma count_nonneg : 0 <= count Pv n.
Proof. unfold count. apply Z.div_pos; lia. Qed.

Lemma upgraded_ok : spt_ok Pv upgraded 24 pairs.
Proof.
  unfold upgraded. destruct (so_entries _ _ _ _ Hspt) as (before & after & E & Lb & Ha). pose proof count_nonneg.
  assert (drop (Z.to_nat (16 + 16 * count Pv n)) data = enc_from Pv 0 0 pairs ++ after) as ->.
  { rewrite E. replace (Z.to_nat (16 + 16 * count Pv n)) with (length before) by lia. by rewrite drop_app_length. }
  apply layout_ok; try done.
  - unfold in_type. cbn [is_signed DWORD bits]. lia.
  - unfold in_type. cbn [is_signed DWORD bits]. lia.
  - by apply last_doc_range.
  - rewrite length_map, length_seqZ. lia.
  - intros k c Hk. apply list_lookup_fmap_Some in Hk as (i & -> & Hi). apply lookup_seqZ in Hi as [-> Hk].
    rewrite Z.add_0_l. destruct (so_table _ _ _ _ Hspt (Z.of_nat k) ltac:(lia)) as (c & Hc & L1 & L2).
    assert (new_cp (Z.of_nat k) = DocidLookupCheckpoint (m_tBaseDocID c) (m_tOffset c + 8)) as ->
      by (unfold new_cp, old_base, old_offset; by rewrite L1, L2).
    destruct Hc as (pre & p & post & Ep & Lp & ->). cbn [m_tBaseDocID m_tOffset].
    assert (checkpoint_is Pv (24 + 16 * count Pv n) pairs (Z.of_nat k)
      (DocidLookupCheckpoint (m_tDocID p) (16 + 16 * count Pv n + Z.of_nat (length (enc_from Pv 0 0 pre)) + 8))) as Hc
      by (exists pre, p, post; repeat split; [done..|f_equal; lia]).
    split; [exact Hc|]. apply (f_equal length) in E. rewrite !length_app in E.
    cbn [m_tBaseDocID m_tOffset]. split; [rewrite Ep, Forall_app, Forall_cons in Hpairs; apply Hpairs|].
    rewrite Ep, enc_from_app, length_app in E. unfold in_type. cbn [is_signed int64_t bits]. lia.
Qed.

Lemma Upgrade_ok iBufferSize io rename_ok ver :
  0 < iBufferSize -> 65 <= ver < 71 ->
  ∃ ok data', UpgradeDocidLookupFile iBufferSize io rename_ok data ver = Some (ok, data') /\
    data' = (if (ok : bool) then upgraded else data).
Proof.
  intros Hb Hv. unfold UpgradeDocidLookupFile. pose proof count_nonneg as Hc.
  rewrite Z.geb_leb, (proj2 (Z.leb_gt _ _)), (proj2 (Z.ltb_ge _ _)) by (unfold DOCID_LOOKUP_UUID_VERSION, DOCID_LOOKUP_SPLIT_VERSION; lia).
  cbn [orb]. unfold CheckDocidLookupFormat.
  rewrite (proj2 (Z.ltb_lt ver DOCID_LOOKUP_SUSPECT_MIN)) by (unfold DOCID_LOOKUP_SUSPECT_MIN; lia).
  cbn [orb mbind option_bind negb]. rewrite (so_docs _ _ _ _ Hspt), (so_per _ _ _ _ Hspt), (so_max _ _ _ _ Hspt).
  cbn [mbind option_bind]. rewrite (proj2 (Z.eqb_neq Pv 0)), andb_false_r by lia.
  assert ((if n =? 0 then 0 else (n + Pv - 1) / Pv) = count Pv n) as ->.
  { destruct (Z.eqb_spec n 0) as [->|]; [|done]. unfold count. symmetry. apply Z.div_small. lia. }
  assert (DocidLookupHeaderSize ver = 16) as ->.
  { unfold DocidLookupHeaderSize. rewrite Z.geb_leb, (proj2 (Z.leb_gt _ _)) by (unfold DOCID_LOOKUP_UUID_VERSION; lia). done. }
  change (DocidLookupHeaderSize DOCID_LOOKUP_UUID_VERSION - 16) with 8.
  assert (holds_from (OpenFile iBufferSize io) [] (length (@nil Z)) 0) as H0.
  { split; [|done]. split; [done|]. intros _. split; [|done]. split; simpl; lia. }
  pose proof (offset_end 0 _ _ _ (offset_end (last_doc 0 pairs) _ _ _ (dword_end Pv _ _ _ (dword_end n _ _ _ H0)))) as H1.
  destruct (copy_checkpoints_ok (Z.to_nat (count Pv n)) 0 _ _ ltac:(lia) ltac:(lia) (proj1 H1)) as (w & E & H2).
  rewrite Z.mul_0_r, Z.add_0_r in E. rewrite E. cbn [mbind option_bind]. rewrite Z2Nat.id in H2 by lia.
  replace (16 + count Pv n * 16) with (16 + 16 * count Pv n) by lia.
  pose proof (put_end_holds (drop (Z.to_nat (16 + 16 * count Pv n)) data) _ _ H2) as H3.
  pose proof (CloseFile_ok _ _ _ H3) as H4. cbn [app] in H4. rewrite <- !app_assoc in H4.
  destruct (m_bError (CloseFile false _)); [by eexists _, _|]. destruct rename_ok; [|by eexists _, _].
  eexists _, _. split; [done|]. unfold upgraded. rewrite <- !app_assoc. by apply H4.
Qed.
End Upgrade.

(** Upgrading a lookup file of the layout without the UUID offset (index
    versions 65 to 70) keeps its contents: [UpgradeDocidLookupFile] never reads
    outside a well-formed file; if it fails the file is untouched; if it
    succeeds the new file opens as a current one and [Find] answers for the
    same pairs. *)
Theorem upgrade_keeps_pairs Pv data pairs iBufferSize io rename_ok ver ver' :
  0 < Pv -> spt_ok Pv data 16 pairs -> pairs_ok pairs -> pairs <> [] ->
  Z.of_nat (length pairs) + Pv <= 2 ^ 31 -> Z.of_nat (length data) < 2 ^ 62 ->
  0 < iBufferSize -> 65 <= ver < 71 -> 71 <= ver' ->
  ∃ ok data', UpgradeDocidLookupFile iBufferSize io rename_ok data ver = Some (ok, data') /\
    (ok = false -> data' = data) /\
    (ok = true -> ∃ r uo, SetData data' ver' = Some (r, uo) /\
       ∀ tDocID, in_type int64_t tDocID ->
       ∃ row, Find r tDocID = Some row /\
         (in_pairs tDocID row pairs \/ (row = INVALID_ROWID /\ ∀ row', ¬ in_pairs tDocID row' pairs))).
Proof.
  intros HP So Hp Hne Hn Hl Hb Hv Hv'.
  destruct (Upgrade_ok Pv data pairs HP So iBufferSize io rename_ok ver Hb Hv) as (ok & data' & E & Ed).
  exists ok, data'. split; [done|]. split; [by intros ->|]. intros ->.
  pose proof (upgraded_ok Pv data pairs HP So (proj1 Hp) Hn Hl) as So'. rewrite Ed.
  destruct (SetData_ok Pv _ 24 pairs HP Hp So' Hne Hn ver') as (uo & Es & _).
  { rewrite Z.geb_leb, (proj2 (Z.leb_le _ _)) by lia. done. }
  eexists _, _. split; [exact Es|]. exact (Find_ok Pv _ 24 pairs HP Hp So' Hne Hn (or_intror eq_refl)).
Qed.

(** A file of the older layout. *)
Definition old_pairs : list pair := [DocidRowidPair 5 1; DocidRowidPair 300 0; DocidRowidPair (-1) 2].
Definition old_file : list Z :=
  le_bytes 4 3 ++ le_bytes 4 64 ++ le_bytes 8 (-1) ++ (le_bytes 8 5 ++ le_bytes 8 32) ++ enc_from 64 0 0 old_pairs.

Lemma old_pairs_ok : pairs_ok old_pairs.
Proof.
  split; [|apply sortedb_sorted; vm_compute; reflexivity].
  apply (bool_decide_unpack _). unfold pair_ok, in_type. vm_compute. exact I.
Qed.

Lemma old_file_ok : spt_ok 64 old_file 16 old_pairs.
Proof.
  split; [vm_compute; reflexivity..|lia| |].
  - intros i Hi. change (count 64 (Z.of_nat (length old_pairs))) with 1 in *. assert (i = 0) as -> by lia.
    exists (DocidLookupCheckpoint 5 32). split; [|split; vm_compute; reflexivity].
    by exists [], (DocidRowidPair 5 1), [DocidRowidPair 300 0; DocidRowidPair (-1) 2].
  - exists (take 32 old_file), []. split; [vm_compute; reflexivity|]. split; [vm_compute; reflexivity|constructor].
Qed.

Lemma upgrade_keeps_pairs_witness :
  (∃ data', UpgradeDocidLookupFile 7 [] true old_file 70 = Some (true, data')) /\
  ∃ ok data', UpgradeDocidLookupFile 7 [] true old_file 70 = Some (ok, data') /\
    (ok = false -> data' = old_file) /\
    (ok = true -> ∃ r uo, SetData data' 74 = Some (r, uo) /\
       ∀ tDocID, in_type int64_t tDocID ->
       ∃ row, Find r tDocID = Some row /\
         (in_pairs tDocID row old_pairs \/ (row = INVALID_ROWID /\ ∀ row', ¬ in_pairs tDocID row' old_pairs))).
Proof.
  split; [eexists; vm_compute; reflexivity|].
  refine (upgrade_keeps_pairs 64 old_file old_pairs 7 [] true 70 74 _ old_file_ok old_pairs_ok _ _ _ _ _ _);
    [lia|discriminate|vm_compute; discriminate|vm_compute; reflexivity|lia|lia|lia].
Defined.

(** ** Detecting the layout *)

(** [DetectDocidLookupVersion] never answers that neither layout fits: the
    second check is made with version 70, which [CheckDocidLookupFormat] accepts
    without looking at the file, so whatever the bytes are the answer is 71 or
    70, and it is 70 exactly if the 71 check fails. *)
Theorem detect_never_unknown pData v :
  DetectDocidLookupVersion pData = Some v ->
  v <> 0 /\ (v = 71 <-> CheckDocidLookupFormat pData 71 = Some true) /\ (v = 70 <-> CheckDocidLookupFormat pData 71 = Some false).
Proof.
  unfold DetectDocidLookupVersion. change (CheckDocidLookupFormat pData (DOCID_LOOKUP_UUID_VERSION - 1)) with (Some true).
  change DOCID_LOOKUP_UUID_VERSION with 71. destruct (CheckDocidLookupFormat pData 71) as [[]|]; cbn [mbind option_bind];
    intros E; simplify_eq/=; (split; [lia|]); split; split; intros H; first [done|lia].
Qed.

Lemma detect_never_unknown_witness :
  DetectDocidLookupVersion (repeat 255 64) = Some 70 /\
  (70 <> 0 /\ (70 = 71 <-> CheckDocidLookupFormat (repeat 255 64) 71 = Some true) /\
   (70 = 70 <-> CheckDocidLookupFormat (repeat 255 64) 71 = Some false)).
Proof. split; [vm_compute; reflexivity|]. apply (detect_never_unknown (repeat 255 64) 70). vm_compute. reflexivity. Defined.
End DocidLookupUuid.
