(* ===== verification/BitCount.v ===== *)
(** * Counting bits

    The three [sphBitCount] overloads and the table variant of
    src/src/std/bitcount_impl.h. Compilers that have it use their own population
    count ([popcount] here); the others use the multiplication tricks, which are
    shown to compute the same number on every input. *)

From S2P Require Import Prelude.

Module BitCount.

(** The number of ones among the low [w] bits. *)
Definition sum (l : list Z) : Z := foldr Z.add 0 l.
Definition popcount (w n : Z) : Z := sum (map (λ i, Z.b2z (Z.testbit n i)) (seqZ 0 w)).

(** [sphBitCount ( DWORD )] without the builtin. *)
Definition sphBitCount_DWORD (n : Z) : Z :=
  let n := cast DWORD (n - Z.land (Z.shiftr n 1) 0x55555555) in
  let tmp := Z.land n 0x33333333 in
  let n := cast DWORD (Z.land (Z.shiftr n 2) 0x33333333 + tmp) in
  let n := Z.land (cast DWORD (n + Z.shiftr n 4)) 0x0F0F0F0F in
  let n := cast DWORD (n * 0x01010101) in
  Z.shiftr n 24.

(** [sphBitCount ( uint64_t )] without the builtin. *)
Definition sphBitCount_uint64 (n : Z) : Z :=
  let n := cast uint64_t (n - Z.land (Z.shiftr n 1) 0x5555555555555555) in
  let tmp := Z.land n 0x3333333333333333 in
  let n := cast uint64_t (Z.land (Z.shiftr n 2) 0x3333333333333333 + tmp) in
  let n := Z.land (cast uint64_t (n + Z.shiftr n 4)) 0x0F0F0F0F0F0F0F0F in
  let n := cast uint64_t (n * 0x0101010101010101) in
  Z.shiftr n 56.

(** [sphBitCount ( BYTE )]. *)
Definition sphBitCount_BYTE (n : Z) : Z :=
  cast int32_t (Z.shiftr (cast DWORD (Z.land (Z.shiftr (cast DWORD (n * 0x08040201)) 3) 0x11111111 * 0x11111111)) 28).

(** [sphBitCount_case]. *)
Definition nbits : list Z := [0;1;1;2;1;2;2;3;1;2;2;3;2;3;3;4].
Definition sphBitCount_case (n : Z) : Z :=
  nth (Z.to_nat (Z.shiftr n 4)) nbits 0 + nth (Z.to_nat (Z.land n 0x0F)) nbits 0.

(** ** Population count by bytes *)

Lemma sum_app l1 l2 : sum (l1 ++ l2) = sum l1 + sum l2.
Proof. induction l1 as [|x l IH]; simpl; [done|]. unfold sum in *. simpl. lia. Qed.

Lemma map_seqZ_ext {A} (f g : Z -> A) a n : (∀ i, a <= i < a + n -> f i = g i) -> map f (seqZ a n) = map g (seqZ a n).
Proof. intros H. apply map_ext_in. intros i Hi. apply H. by apply list_elem_of_In, elem_of_seqZ in Hi. Qed.

Lemma popcount_split k w n : 0 <= k -> 0 <= w -> popcount (k + w) n = popcount k n + popcount w (Z.shiftr n k).
Proof.
  intros Hk Hw. unfold popcount. rewrite (seqZ_app 0 k w), map_app, sum_app by lia. f_equal. f_equal.
  replace (seqZ (0 + k) w) with (map (Z.add k) (seqZ 0 w)) by (etransitivity; [apply (fmap_add_seqZ k 0)|f_equal; lia]).
  rewrite map_map. apply map_seqZ_ext. intros i Hi. rewrite Z.shiftr_spec by lia. do 2 f_equal. lia.
Qed.

Lemma popcount_mod w n : popcount w (n mod 2 ^ w) = popcount w n.
Proof. unfold popcount. f_equal. apply map_seqZ_ext. intros i Hi. by rewrite Z.mod_pow2_bits_low by lia. Qed.

Lemma sum_bits_range (f : Z -> bool) l : 0 <= sum (map (λ i, Z.b2z (f i)) l) <= Z.of_nat (length l).
Proof. induction l as [|i l IH]; [done|]. unfold sum in *. simpl. destruct (f i); simpl; lia. Qed.

Lemma popcount_range w n : 0 <= popcount w n <= Z.max 0 w.
Proof. unfold popcount. pose proof (sum_bits_range (Z.testbit n) (seqZ 0 w)). rewrite length_seqZ in *. lia. Qed.

(** The bytes of a word of [8 k] bits, lowest first. *)
Fixpoint join (l : list Z) : Z := match l with [] => 0 | a :: l' => a + 256 * join l' end.

Fixpoint bytes_of (k : nat) (n : Z) : list Z :=
  match k with O => [] | S k' => n mod 256 :: bytes_of k' (n / 256) end.

Lemma bytes_of_join k n : 0 <= n < 256 ^ Z.of_nat k -> join (bytes_of k n) = n.
Proof.
  revert n. induction k as [|k IH]; intros n Hn; cbn [bytes_of join]; [simpl in Hn; lia|].
  rewrite IH; [rewrite (Z.div_mod n 256) at 3 by lia; lia|].
  rewrite Nat2Z.inj_succ, Z.pow_succ_r in Hn by lia. split; [apply Z.div_pos; lia|apply Z.div_lt_upper_bound; lia].
Qed.

Lemma bytes_of_bytes k n : Forall is_byte (bytes_of k n).
Proof.
  revert n. induction k as [|k IH]; intros n; cbn [bytes_of]; constructor; [|apply IH].
  unfold is_byte. apply Z.mod_pos_bound. lia.
Qed.

Lemma bytes_of_length k n : length (bytes_of k n) = k.
Proof. revert n. induction k as [|k IH]; intros n; cbn [bytes_of length]; [done|]. by rewrite IH. Qed.

Lemma popcount_join l : Forall is_byte l ->
  popcount (8 * Z.of_nat (length l)) (join l) = sum (map (popcount 8) l).
Proof.
  induction 1 as [|b l Hb Hl IH]; [reflexivity|]. cbn [join map length]. unfold sum in *. cbn [foldr]. unfold is_byte in Hb.
  replace (8 * Z.of_nat (S (length l))) with (8 + 8 * Z.of_nat (length l)) by lia.
  rewrite popcount_split by lia. rewrite <- (popcount_mod 8 (b + 256 * join l)).
  change (2 ^ 8) with 256. rewrite (Z.mul_comm 256), Z.mod_add, Z.mod_small by lia.
  rewrite Z.shiftr_div_pow2 by lia. change (2 ^ 8) with 256. rewrite Z.div_add, (Z.div_small b) by lia.
  rewrite Z.add_0_l. lia.
Qed.

(** An operation that works on each byte by itself. *)
Definition bytewise (F f : Z -> Z) : Prop := ∀ l, Forall is_byte l -> F (join l) = join (map f l).


Lemma byte_high u i : is_byte u -> 8 <= i -> Z.testbit u i = false.
Proof.
  unfold is_byte. intros Hu Hi. rewrite <- (Z.mod_small u (2 ^ 8)) by (simpl; lia). apply Z.mod_pow2_bits_high. lia.
Qed.

Lemma join_bits u v i : is_byte u -> 0 <= i -> Z.testbit (u + 256 * v) i = if i <? 8 then Z.testbit u i else Z.testbit v (i - 8).
Proof.
  intros Hu Hi. replace (u + 256 * v) with (Z.lor (Z.shiftl v 8) u).
  - rewrite Z.lor_spec. destruct (Z.ltb_spec i 8).
    + by rewrite Z.shiftl_spec_low by lia.
    + rewrite Z.shiftl_spec by lia. by rewrite (byte_high u), orb_false_r by done.
  - unfold is_byte in Hu. rewrite (lor_shiftl_add v u 8) by (simpl; lia). change (2 ^ 8) with 256. lia.
Qed.

Lemma land_byte u m : is_byte m -> is_byte (Z.land u m).
Proof.
  intros Hm. unfold is_byte in *. assert (0 <= Z.land u m) as H0 by (apply Z.land_nonneg; lia). split; [done|].
  replace (Z.land u m) with (Z.land u m mod 2 ^ 8); [apply Z.mod_pos_bound; simpl; lia|].
  apply Z.bits_inj'. intros i Hi. destruct (Z.lt_ge_cases i 8).
  - by rewrite Z.mod_pow2_bits_low by lia.
  - rewrite Z.mod_pow2_bits_high, Z.land_spec, (byte_high m) by (done || lia). by rewrite andb_false_r.
Qed.

(** A masked shift does not mix bytes if the mask of a byte leaves out the bits
    that come from the next one. *)
Lemma land_split k a b m y :
  is_byte a -> 0 <= k <= 8 -> 0 <= m < 2 ^ (8 - k) ->
  Z.land (Z.shiftr (a + 256 * b) k) (m + 256 * y) = Z.land (Z.shiftr a k) m + 256 * Z.land (Z.shiftr b k) y.
Proof.
  intros Ha Hk Hm. assert (2 ^ (8 - k) <= 2 ^ 8) by (apply Z.pow_le_mono_r; lia).
  assert (is_byte m) as Hmb by (unfold is_byte; change (2 ^ 8) with 256 in *; lia).
  apply Z.bits_inj'. intros i Hi. rewrite Z.land_spec, Z.shiftr_spec by lia.
  rewrite (join_bits a), (join_bits m), (join_bits (Z.land _ _)) by (done || lia || by apply land_byte).
  rewrite !Z.land_spec, !Z.shiftr_spec by lia.
  destruct (Z.ltb_spec i 8), (Z.ltb_spec (i + k) 8); try lia.
  - done.
  - rewrite <- (Z.mod_small m (2 ^ (8 - k))) by lia. rewrite Z.mod_pow2_bits_high by lia. by rewrite !andb_false_r.
  - rewrite Z.shiftr_spec by lia. by replace (i - 8 + k) with (i + k - 8) by lia.
Qed.

Fixpoint rep (m : Z) (k : nat) : Z := match k with O => 0 | S k' => m + 256 * rep m k' end.

Lemma land_bytes k m l :
  0 <= k <= 8 -> 0 <= m < 2 ^ (8 - k) -> Forall is_byte l ->
  Z.land (Z.shiftr (join l) k) (rep m (length l)) = join (map (λ b, Z.land (Z.shiftr b k) m) l).
Proof.
  intros Hk Hm. induction 1 as [|b l Hb Hl IH]; cbn [join length rep map]; [apply Z.land_0_r|].
  by rewrite land_split, IH.
Qed.

Lemma join_map2 (f g : Z -> Z) l : join (map f l) + join (map g l) = join (map (λ b, f b + g b) l).
Proof. induction l as [|b l IH]; cbn [map join]; [done|]. rewrite <- IH. lia. Qed.

Lemma join_sub (f : Z -> Z) l : join l - join (map f l) = join (map (λ b, b - f b) l).
Proof. induction l as [|b l IH]; cbn [map join]; [done|]. rewrite <- IH. lia. Qed.

Lemma join_range l : Forall is_byte l -> 0 <= join l < 256 ^ Z.of_nat (length l).
Proof.
  unfold is_byte. induction 1 as [|b l Hb Hl IH]; cbn [join length]; [simpl; lia|].
  rewrite Nat2Z.inj_succ, Z.pow_succ_r by lia. lia.
Qed.

Lemma map_bytes (f : Z -> Z) l :
  forallb (λ b, (0 <=? f b) && (f b <? 256)) (seqZ 0 256) = true -> Forall is_byte l -> Forall is_byte (map f l).
Proof.
  intros Hf. induction 1 as [|b l Hb Hl IH]; cbn [map]; constructor; [|done].
  pose proof (byte_check (λ b, (0 <=? f b) && (f b <? 256)) b Hf Hb) as C. cbv beta in C. unfold is_byte. lia.
Qed.

(** The three masked steps on one byte. *)
Definition step1 (b : Z) : Z := b - Z.land (Z.shiftr b 1) 0x55.
Definition step2 (b : Z) : Z := Z.land (Z.shiftr b 2) 0x33 + Z.land (Z.shiftr b 0) 0x33.
Definition step3 (b : Z) : Z := Z.land (b + Z.shiftr b 4) 0x0F.

Lemma steps_popcount b : is_byte b -> step3 (step2 (step1 b)) = popcount 8 b.
Proof.
  intros Hb. apply Z.eqb_eq. by apply (byte_check (λ b, step3 (step2 (step1 b)) =? popcount 8 b)).
Qed.

(** Both halves of the byte are small. *)
Definition small (b : Z) : Prop := 0 <= b /\ b mod 16 <= 4 /\ b / 16 <= 4.

Lemma small_byte b : small b -> is_byte b.
Proof. unfold small, is_byte. intros. pose proof (Z.div_mod b 16). lia. Qed.

Lemma add_fold l :
  Forall small l ->
  Z.land (join l + Z.shiftr (join l) 4) (rep 0x0F (length l)) = join (map step3 l) /\
  (join l mod 16 <= 4 /\ join l + Z.shiftr (join l) 4 < 256 ^ Z.of_nat (length l)).
Proof.
  induction 1 as [|a l Ha Hl [IH1 [IH2 IH3]]]; [done|]. cbn [join length rep map].
  rewrite Nat2Z.inj_succ, Z.pow_succ_r by lia. pose proof (join_range l (Forall_impl _ _ _ Hl small_byte)) as Hj.
  set (b := join l) in *. set (y := rep 0x0F (length l)) in *. pose proof (small_byte a Ha) as Hab.
  unfold small, is_byte in *. rewrite Z.shiftr_div_pow2 in * by lia. change (2 ^ 4) with 16 in *.
  assert ((a + 256 * b) / 16 = a / 16 + 16 * b) as ->.
  { replace (a + 256 * b) with (a + (16 * b) * 16) by lia. rewrite Z.div_add by lia. lia. }
  pose proof (Z.div_mod a 16 ltac:(lia)). pose proof (Z.div_mod b 16 ltac:(lia)).
  pose proof (Z.mod_pos_bound a 16 ltac:(lia)). pose proof (Z.mod_pos_bound b 16 ltac:(lia)).
  replace (a + 256 * b + (a / 16 + 16 * b)) with ((a + a / 16 + 16 * (b mod 16)) + 256 * (b + b / 16)) by lia.
  split; [|split].
  - rewrite <- IH1. pose proof (land_split 0 (a + a / 16 + 16 * (b mod 16)) (b + b / 16) 0x0F y) as L.
    rewrite !Z.shiftr_0_r in L. rewrite L; [|unfold is_byte; lia|lia|simpl; lia].
    f_equal. unfold step3. rewrite Z.shiftr_div_pow2 by lia. change 0x0F with (2 ^ 4 - 1). rewrite !land_ones_mod by lia.
    change (2 ^ 4) with 16. rewrite (Z.mul_comm 16), Z.mod_add by lia. done.
  - replace (a + 256 * b) with (a + (16 * b) * 16) by lia. rewrite Z.mod_add by lia. lia.
  - lia.
Qed.

(** Multiplying by [0x01...01] makes the prefix sums of the bytes. *)
Fixpoint psums (acc : Z) (l : list Z) : list Z := match l with [] => [] | b :: l' => acc + b :: psums (acc + b) l' end.

Lemma rep_S k : rep 1 (S k) = rep 1 k + 256 ^ Z.of_nat k.
Proof.
  induction k as [|k IH]; [done|]. change (rep 1 (S (S k))) with (1 + 256 * rep 1 (S k)). rewrite IH at 1.
  change (rep 1 (S k)) with (1 + 256 * rep 1 k). rewrite (Nat2Z.inj_succ k), Z.pow_succ_r by lia. lia.
Qed.

Lemma mul_psums l acc :
  ∃ q, acc * rep 1 (length l) + join l * rep 1 (length l) = join (psums acc l) + q * 256 ^ Z.of_nat (length l).
Proof.
  revert acc. induction l as [|b l IH]; intros acc; cbn [length join psums]; [exists 0; simpl; lia|].
  destruct (IH (acc + b)) as [q Hq]. exists (q + join l). pose proof (rep_S (length l)) as R.
  change (rep 1 (S (length l))) with (1 + 256 * rep 1 (length l)) in *.
  rewrite Nat2Z.inj_succ, Z.pow_succ_r by lia. set (r := rep 1 (length l)) in *. set (m := 256 ^ _) in *.
  replace (join (psums (acc + b) l)) with ((acc + b) * r + join l * r - q * m) by lia.
  assert (m = 1 + 256 * r - r) as -> by lia. lia.
Qed.

Lemma sum_nonneg l : Forall (λ b, 0 <= b) l -> 0 <= sum l.
Proof. induction 1; unfold sum in *; simpl; lia. Qed.

Lemma psums_bytes l acc : 0 <= acc -> Forall (λ b, 0 <= b) l -> acc + sum l < 256 -> Forall is_byte (psums acc l).
Proof.
  intros Ha Hp. revert acc Ha. induction Hp as [|b l Hb Hl IH]; intros acc Ha Hs; cbn [psums]; [constructor|].
  unfold sum in *. cbn [foldr] in Hs. pose proof (sum_nonneg l Hl). unfold sum in *.
  constructor; [unfold is_byte; lia|]. apply IH; lia.
Qed.

Lemma psums_length l acc : length (psums acc l) = length l.
Proof. revert acc. induction l as [|b l IH]; intros acc; cbn [psums length]; [done|]. by rewrite IH. Qed.

Lemma top_byte l b : Forall is_byte l -> Z.shiftr (join (l ++ [b])) (8 * Z.of_nat (length l)) = b.
Proof.
  induction 1 as [|a l Ha Hl IH]; cbn [app join length]; [rewrite Z.shiftr_0_r; lia|].
  rewrite <- IH at 2. replace (8 * Z.of_nat (S (length l))) with (8 + 8 * Z.of_nat (length l)) by lia.
  rewrite <- Z.shiftr_shiftr by lia. f_equal. unfold is_byte in Ha. rewrite Z.shiftr_div_pow2 by lia.
  change (2 ^ 8) with 256. rewrite (Z.mul_comm 256), Z.div_add, Z.div_small by lia. lia.
Qed.

Lemma psums_last l b acc : psums acc (l ++ [b]) = psums acc l ++ [acc + sum (l ++ [b])].
Proof.
  revert acc. induction l as [|a l IH]; intros acc; cbn [app psums]; [unfold sum; simpl; do 2 f_equal; lia|].
  rewrite IH. unfold sum. cbn [foldr]. do 3 f_equal. lia.
Qed.

Lemma mul_top w l :
  length l = S w -> Forall (λ b, 0 <= b) l -> sum l < 256 ->
  Z.shiftr (join l * rep 1 (S w) mod 256 ^ Z.of_nat (S w)) (8 * Z.of_nat w) = sum l.
Proof.
  intros Hl Hp Hs. destruct (mul_psums l 0) as [q Hq]. rewrite Hl, Z.mul_0_l, Z.add_0_l in Hq. rewrite Hq.
  rewrite Z.mod_add by (apply Z.pow_nonzero; lia).
  pose proof (psums_bytes l 0 ltac:(lia) Hp ltac:(lia)) as Hb. pose proof (join_range _ Hb) as Hr.
  rewrite psums_length, Hl in Hr. rewrite Z.mod_small by lia.
  destruct (exists_last (l := l)) as (l' & b & ->); [by intros ->|].
  rewrite length_app in Hl. cbn [length] in Hl. rewrite psums_last in *. rewrite Forall_app in Hb.
  replace w with (length (psums 0 l')) by (rewrite psums_length; lia). rewrite top_byte by apply Hb. lia.
Qed.

(** ** The multiplication counts *)

(** The common scheme of the two word counts, for a word of [S w] bytes. *)
Lemma hackmem w (T : ctype) n :
  is_signed T = false -> bits T = 8 * Z.of_nat (S w) -> (w < 16)%nat -> in_type T n ->
  let K := S w in
  let n1 := cast T (n - Z.land (Z.shiftr n 1) (rep 0x55 K)) in
  let n2 := cast T (Z.land (Z.shiftr n1 2) (rep 0x33 K) + Z.land n1 (rep 0x33 K)) in
  let n3 := Z.land (cast T (n2 + Z.shiftr n2 4)) (rep 0x0F K) in
  Z.shiftr (cast T (n3 * rep 1 K)) (8 * Z.of_nat w) = popcount (bits T) n.
Proof.
  intros Hsg Hbits Hw Hn K n1 n2 n3.
  assert (2 ^ bits T = 256 ^ Z.of_nat K) as Hpow by (rewrite Hbits, Z.pow_mul_r by lia; done).
  assert (∀ x, cast T x = x mod 256 ^ Z.of_nat K) as Hcast by (intros x; unfold cast, wrap; by rewrite Hsg, Hpow).
  unfold in_type in Hn. rewrite Hsg, Hpow in Hn.
  set (l := bytes_of K n). assert (Forall is_byte l) as Hl by apply bytes_of_bytes.
  assert (length l = K) as Ll by apply bytes_of_length. assert (join l = n) as El by (by apply bytes_of_join).
  assert (Forall is_byte (map step1 l)) as H1 by (by apply map_bytes).
  assert (Forall is_byte (map step2 (map step1 l))) as H2 by (by apply map_bytes).
  assert (Forall small (map step2 (map step1 l))) as H2s.
  { clear -Hl. induction Hl as [|b l Hb Hl IH]; cbn [map]; constructor; [|done]. unfold small.
    pose proof (byte_check (λ b, (0 <=? step2 (step1 b)) && (step2 (step1 b) mod 16 <=? 4) && (step2 (step1 b) / 16 <=? 4)) b eq_refl Hb) as C.
    cbv beta in C. lia. }
  assert (∀ l', Forall is_byte l' -> length l' = K -> join l' mod 256 ^ Z.of_nat K = join l') as Hsmall.
  { intros l' Hb Hlen. apply Z.mod_small. rewrite <- Hlen. by apply join_range. }
  assert (n1 = join (map step1 l)) as E1.
  { unfold n1. rewrite Hcast, <- El, <- Ll, land_bytes, join_sub by (done || (simpl; lia)).
    rewrite Ll. apply Hsmall; [done|]. by rewrite length_map. }
  assert (n2 = join (map step2 (map step1 l))) as E2.
  { unfold n2. rewrite Hcast, E1. rewrite <- (Z.shiftr_0_r (join (map step1 l))) at 2.
    replace K with (length (map step1 l)) at 1 2 by (by rewrite length_map).
    rewrite !land_bytes, join_map2 by (done || (simpl; lia)). apply Hsmall; [done|]. by rewrite !length_map. }
  destruct (add_fold _ H2s) as (A1 & A2 & A3). rewrite !length_map, Ll in A1, A3.
  assert (n3 = join (map (popcount 8) l)) as E3.
  { unfold n3. rewrite Hcast, E2, Z.mod_small; [|split; [|done]; pose proof (join_range _ H2); rewrite Z.shiftr_div_pow2 by lia;
      pose proof (Z.div_pos (join (map step2 (map step1 l))) (2 ^ 4)); lia].
    rewrite A1, !map_map. f_equal. apply map_ext_in. intros b Hb. apply steps_popcount.
    rewrite Forall_forall in Hl. apply Hl. by apply list_elem_of_In. }
  rewrite Hcast, E3. unfold K. rewrite (mul_top w (map (popcount 8) l)).
  - rewrite <- popcount_join by done. by rewrite Ll, El, Hbits.
  - by rewrite length_map.
  - apply Forall_map, Forall_true. intros b. apply popcount_range.
  - assert (sum (map (popcount 8) l) <= 8 * Z.of_nat (length l)) as B; [|lia].
    clear. unfold sum. induction l as [|b l IH]; [done|]. cbn [map foldr length]. pose proof (popcount_range 8 b). lia.
Qed.

(** All the variants of [sphBitCount] count the ones of their argument:
    the multiplication variants that are compiled without a builtin agree with
    the population count on every 32-bit, 64-bit and 8-bit value, and so does
    the nibble table. *)
Theorem bitcount_correct :
  (∀ n, in_type DWORD n -> sphBitCount_DWORD n = popcount 32 n) /\
  (∀ n, in_type uint64_t n -> sphBitCount_uint64 n = popcount 64 n) /\
  (∀ n, in_type BYTE n -> sphBitCount_BYTE n = popcount 8 n /\ sphBitCount_case n = popcount 8 n).
Proof.
  split; [|split].
  - intros n Hn. exact (hackmem 3 DWORD n eq_refl eq_refl ltac:(lia) Hn).
  - intros n Hn. exact (hackmem 7 uint64_t n eq_refl eq_refl ltac:(lia) Hn).
  - intros n Hn. assert (is_byte n) as Hb by exact Hn.
    pose proof (byte_check (λ n, (sphBitCount_BYTE n =? popcount 8 n) && (sphBitCount_case n =? popcount 8 n)) n eq_refl Hb) as C.
    cbv beta in C. lia.
Qed.

Lemma bitcount_correct_witness :
  in_type DWORD 0xFFFF0001 /\ sphBitCount_DWORD 0xFFFF0001 = popcount 32 0xFFFF0001 /\ popcount 32 0xFFFF0001 = 17.
Proof.
  assert (in_type DWORD 0xFFFF0001) as H by (unfold in_type; simpl; lia).
  split; [exact H|]. split; [exact (proj1 bitcount_correct _ H)|vm_compute; reflexivity].
Defined.
End BitCount.
