(* ===== verification/BitVec.v ===== *)
(** * Bit vectors

    [BitVec_T<T,STATICBITS>] of src/src/std/bitvec.h and bitvec_impl.h: a vector
    of bits with a small static buffer and a heap buffer for the larger sizes.
    [T] is [DWORD] (the default) or [uint64_t]. *)

From S2P Require Import Prelude BitCount.
Import BitCount.

Module BitVec.

(** Where [m_pData] points: nowhere, to the buffer inside the object, or to
    words of its own (or of the caller, for the constructor that is given a
    buffer). *)
Inductive storage := Null | Static | Dynamic (l : list Z).

Record BitVec_T := BitVec {
  m_pData : storage;
  m_dStatic : list Z;
  m_uElements : Z;
  m_bOwnStorage : bool
}.

Section Ops.
Variables (T : ctype) (STATICBITS : Z).

Definition SIZEBITS : Z := bits T.
Definition STATICSIZE : nat := Z.to_nat (STATICBITS / SIZEBITS).
Definition MASK : Z := cast T (SIZEBITS - 1).

(** The number of bits of a number, [sphLog2const]. *)
Definition sphLog2const (uValue : Z) : Z := Z.log2 (Z.lor uValue 1) + 1.
Definition SHIFT : Z := sphLog2const SIZEBITS - 1.

Definition new : BitVec_T := BitVec Null (replicate STATICSIZE 0) 0 true.

Definition words (v : BitVec_T) : list Z :=
  match m_pData v with Null => [] | Static => m_dStatic v | Dynamic l => l end.

Definition set_words (l : list Z) (v : BitVec_T) : BitVec_T :=
  match m_pData v with
  | Null => v
  | Static => BitVec Static l (m_uElements v) (m_bOwnStorage v)
  | Dynamic _ => BitVec (Dynamic l) (m_dStatic v) (m_uElements v) (m_bOwnStorage v)
  end.

Definition CalcStorage (v : BitVec_T) : Z := cast int32_t (cast DWORD (cast DWORD (m_uElements v + SIZEBITS) - 1) / SIZEBITS).
Definition GetSizeBytes (v : BitVec_T) : Z := CalcStorage v * (SIZEBITS / 8).
Definition GetSize (v : BitVec_T) : Z := m_uElements v.
Definition IsEmpty (v : BitVec_T) : bool :=
  match m_pData v with Null => true | _ => GetSize v =? 0 end.

(** [memset] of the words with a byte repeated into [x]; [None] beyond the buffer. *)
Definition fill (x : Z) (v : BitVec_T) : option BitVec_T :=
  let n := Z.to_nat (CalcStorage v) in
  if (n <=? length (words v))%nat then Some (set_words (replicate n x ++ drop n (words v)) v) else None.

Definition Clear (v : BitVec_T) : option BitVec_T := fill 0 v.
Definition SetAll (v : BitVec_T) : option BitVec_T := fill (2 ^ SIZEBITS - 1) v.

(** [Init]; the new heap buffer is not initialised, [Clear] does that. *)
Definition Init (heap : nat -> list Z) (uElements : Z) (v : BitVec_T) : option BitVec_T :=
  let v' := BitVec Static (m_dStatic v) uElements (m_bOwnStorage v) in
  if uElements >? STATICBITS
  then Clear (BitVec (Dynamic (heap (Z.to_nat (CalcStorage v')))) (m_dStatic v) uElements (m_bOwnStorage v))
  else Clear v'.

(** The constructor over a caller's buffer. *)
Definition BitVec_over (pData : list Z) (uElements : Z) : BitVec_T :=
  BitVec (Dynamic pData) (replicate STATICSIZE 0) uElements false.

(** The copy constructor. *)
Definition BitVec_copy (heap : nat -> list Z) (rhs : BitVec_T) : option BitVec_T :=
  let v := BitVec Null (replicate STATICSIZE 0) (m_uElements rhs) true in
  let iStorage := Z.to_nat (CalcStorage v) in
  if (iStorage <=? length (words rhs))%nat then
    Some (if m_uElements rhs >? STATICBITS
          then BitVec (Dynamic (take iStorage (words rhs) ++ drop iStorage (heap iStorage))) (m_dStatic v) (m_uElements v) true
          else BitVec Static (take iStorage (words rhs) ++ drop iStorage (m_dStatic v)) (m_uElements v) true)
  else None.

(** [Swap]: both objects afterwards. *)
Definition Swap (a b : BitVec_T) : BitVec_T * BitVec_T :=
  let '(a', b') :=
    match m_pData a, m_pData b with
    | Static, Static => (BitVec Static (m_dStatic b) (m_uElements a) (m_bOwnStorage a),
                         BitVec Static (m_dStatic a) (m_uElements b) (m_bOwnStorage b))
    | Static, p => (BitVec p (m_dStatic a) (m_uElements a) (m_bOwnStorage a),
                    BitVec Static (m_dStatic a) (m_uElements b) (m_bOwnStorage b))
    | p, Static => (BitVec Static (m_dStatic b) (m_uElements a) (m_bOwnStorage a),
                    BitVec p (m_dStatic b) (m_uElements b) (m_bOwnStorage b))
    | p, q => (BitVec q (m_dStatic a) (m_uElements a) (m_bOwnStorage a),
               BitVec p (m_dStatic b) (m_uElements b) (m_bOwnStorage b))
    end in
  (BitVec (m_pData a') (m_dStatic a') (m_uElements b) (m_bOwnStorage a'),
   BitVec (m_pData b') (m_dStatic b') (m_uElements a) (m_bOwnStorage b')).

Definition BitGet (uIndex : Z) (v : BitVec_T) : option bool :=
  w ← words v !! Z.to_nat (Z.shiftr uIndex SHIFT);
  Some (negb (Z.land w (Z.shiftl 1 (Z.land uIndex MASK)) =? 0)).

Definition BitGetOr (uIndex : Z) (bAlternative : bool) (v : BitVec_T) : option bool :=
  match m_pData v with
  | Null => Some bAlternative
  | _ => if uIndex <? m_uElements v then BitGet uIndex v else Some bAlternative
  end.

Definition BitSet (uIndex : Z) (v : BitVec_T) : option BitVec_T :=
  let i := Z.to_nat (Z.shiftr uIndex SHIFT) in
  w ← words v !! i;
  Some (set_words (<[i := cast T (Z.lor w (Z.shiftl 1 (Z.land uIndex MASK)))]> (words v)) v).

Definition BitClear (uIndex : Z) (v : BitVec_T) : option BitVec_T :=
  let i := Z.to_nat (Z.shiftr uIndex SHIFT) in
  w ← words v !! i;
  Some (set_words (<[i := cast T (Z.land w (cast uint64_t (Z.lnot (Z.shiftl 1 (Z.land uIndex MASK)))))]> (words v)) v).

(** The first [CalcStorage] words, which the loops visit. *)
Definition used (v : BitVec_T) : option (list Z) :=
  let n := Z.to_nat (CalcStorage v) in
  if (n <=? length (words v))%nat then Some (take n (words v)) else None.

(** The result is an [int] sum returned as a [DWORD]. *)
Definition BitCount (v : BitVec_T) : option Z :=
  l ← used v;
  Some (cast DWORD (fold_left (λ iBitSet w, cast int32_t (iBitSet + popcount SIZEBITS w)) l 0)).

Fixpoint scan_bits (n : nat) (uData i : Z) : Z :=
  match n with
  | O => 0
  | S n' => if negb (Z.land uData (Z.shiftl 1 i) =? 0) then i else scan_bits n' uData (i + 1)
  end.
Definition ScanBit (w iStart : Z) : Z := scan_bits (Z.to_nat (SIZEBITS - iStart)) w iStart.

(** The loop over the words that are zero. *)
Fixpoint scan_words (n : nat) (v : BitVec_T) (iIndex iSize : Z) : option Z :=
  match n with
  | O => None
  | S n' =>
      if iIndex <? iSize then
        w ← words v !! Z.to_nat iIndex;
        if w =? 0 then scan_words n' v (iIndex + 1) iSize else Some iIndex
      else Some iIndex
  end.

Definition Scan (uStart : Z) (v : BitVec_T) : option Z :=
  let iIndex := cast int32_t (Z.shiftr uStart SHIFT) in
  let uMask := cast T (Z.lnot (cast T (Z.shiftl 1 (Z.land uStart MASK) - 1))) in
  w ← words v !! Z.to_nat iIndex;
  if negb (Z.land w uMask =? 0)
  then Some (cast DWORD (Z.shiftl iIndex SHIFT + ScanBit w (Z.land uStart MASK)))
  else
    let iSize := CalcStorage v in
    iIndex ← scan_words (S (length (words v))) v (iIndex + 1) iSize;
    if iIndex >=? iSize then Some (m_uElements v)
    else
      w ← words v !! Z.to_nat iIndex;
      Some (cast DWORD (Z.shiftl iIndex SHIFT + ScanBit w 0)).

Definition Negate (v : BitVec_T) : option BitVec_T :=
  let n := Z.to_nat (CalcStorage v) in
  if (n <=? length (words v))%nat
  then Some (set_words (map (λ w, cast T (Z.lnot w)) (take n (words v)) ++ drop n (words v)) v) else None.


(** ** The bits a vector stands for *)

Hypothesis HT : T = DWORD \/ T = uint64_t.
Abbreviation W := (SIZEBITS).

Lemma W_cases : W = 32 /\ SHIFT = 5 /\ MASK = 31 /\ is_signed T = false \/ W = 64 /\ SHIFT = 6 /\ MASK = 63 /\ is_signed T = false.
Proof. unfold SHIFT, MASK, SIZEBITS. destruct HT as [E|E]; rewrite E; [left|right]; done. Qed.

Lemma shift_div i : Z.shiftr i SHIFT = i / W.
Proof. destruct W_cases as [(-> & -> & _)|(-> & -> & _)]; by rewrite Z.shiftr_div_pow2. Qed.

Lemma mask_mod i : Z.land i MASK = i mod W.
Proof. destruct W_cases as [(-> & _ & -> & _)|(-> & _ & -> & _)]; [apply (land_ones_mod i 5)|apply (land_ones_mod i 6)]; lia. Qed.

Lemma W_pos : 0 < W <= 64.
Proof. destruct W_cases as [(-> & _)|(-> & _)]; lia. Qed.

Lemma cast_bit x j : 0 <= j < W -> Z.testbit (cast T x) j = Z.testbit x j.
Proof.
  intros Hj. unfold cast, wrap. assert (is_signed T = false) as -> by (by destruct W_cases as [(_ & _ & _ & ?)|(_ & _ & _ & ?)]).
  apply Z.mod_pow2_bits_low. exact (proj2 Hj).
Qed.

Lemma cast_word x : in_type T (cast T x).
Proof. apply cast_in_type, W_pos. Qed.

Lemma test_land w k : 0 <= k -> negb (Z.land w (Z.shiftl 1 k) =? 0) = Z.testbit w k.
Proof.
  intros Hk. rewrite Z.shiftl_1_l. destruct (Z.testbit w k) eqn:E.
  - apply negb_true_iff, Z.eqb_neq. intros H0. apply (f_equal (λ z, Z.testbit z k)) in H0.
    by rewrite Z.land_spec, Z.pow2_bits_true, E, Z.bits_0 in H0 by lia.
  - apply negb_false_iff, Z.eqb_eq, Z.bits_inj'. intros j Hj. rewrite Z.land_spec, Z.bits_0.
    destruct (decide (j = k)) as [->|]; [by rewrite E|]. by rewrite Z.pow2_bits_false, andb_false_r by lia.
Qed.

Definition bit (l : list Z) (i : Z) : bool :=
  match l !! Z.to_nat (i / W) with Some w => Z.testbit w (i mod W) | None => false end.
Definition content (v : BitVec_T) : list bool := map (bit (words v)) (seqZ 0 (m_uElements v)).

(** A vector that [Init] or one of the other constructors has set up. *)
Record wf (v : BitVec_T) : Prop := {
  wf_size : 0 <= m_uElements v < 2 ^ 31;
  wf_words : Forall (in_type T) (words v);
  wf_room : (Z.to_nat (CalcStorage v) <= length (words v))%nat;
  wf_set : m_pData v <> Null
}.

Lemma storage_ok v : 0 <= m_uElements v < 2 ^ 31 -> CalcStorage v = (m_uElements v + W - 1) / W.
Proof.
  intros Hv. pose proof W_pos. unfold CalcStorage.
  rewrite !(cast_id DWORD) by (done || unfold in_type; cbn [is_signed DWORD bits]; rewrite ?(cast_id DWORD) by (done || unfold in_type; cbn [is_signed DWORD bits]; lia); lia).
  apply cast_id; [done|]. unfold in_type. cbn [is_signed int32_t bits].
  pose proof (Z.div_pos (m_uElements v + W - 1) W ltac:(lia) ltac:(lia)).
  pose proof (Z.div_le_upper_bound (m_uElements v + W - 1) W (m_uElements v) ltac:(lia)) as D.
  destruct (decide (m_uElements v = 0)) as [E|]; [rewrite E, Z.div_small by lia; lia|]. split; [lia|]. 
  assert ((m_uElements v + W - 1) / W <= m_uElements v) by (apply D; nia). lia.
Qed.

Lemma in_words v i : wf v -> 0 <= i < m_uElements v -> (Z.to_nat (i / W) < Z.to_nat (CalcStorage v))%nat.
Proof.
  intros Hv Hi. pose proof W_pos. rewrite storage_ok by apply Hv.
  assert (i / W < (m_uElements v + W - 1) / W); [|pose proof (Z.div_pos i W); lia].
  assert ((i + W) / W = i / W + 1) by (rewrite <- (Z.div_add i 1 W) by lia; f_equal; lia).
  apply Z.lt_le_trans with ((i + W) / W); [lia|].
  apply Z.div_le_mono; lia.
Qed.

Lemma words_set v l : m_pData v <> Null -> words (set_words l v) = l.
Proof. unfold words, set_words. by destruct (m_pData v). Qed.

Lemma elements_set v l : m_uElements (set_words l v) = m_uElements v.
Proof. unfold set_words. by destruct (m_pData v). Qed.

Lemma storage_set v l : CalcStorage (set_words l v) = CalcStorage v.
Proof. unfold CalcStorage. by rewrite elements_set. Qed.

Lemma null_set v l : m_pData v <> Null -> m_pData (set_words l v) <> Null.
Proof. unfold set_words. by destruct (m_pData v) eqn:E; rewrite ?E. Qed.

Lemma BitGet_ok i v : wf v -> 0 <= i < m_uElements v -> BitGet i v = Some (bit (words v) i).
Proof.
  intros Hv Hi. pose proof (in_words v i Hv Hi). pose proof (wf_room v Hv). pose proof W_pos.
  unfold BitGet, bit. rewrite shift_div, mask_mod.
  destruct (words v !! Z.to_nat (i / W)) as [w|] eqn:E; [|apply lookup_ge_None in E; lia].
  cbn [mbind option_bind]. by rewrite test_land by (apply Z.mod_pos_bound; lia).
Qed.

(** Changing one bit of one word. *)
Lemma update_word v i w x b :
  wf v -> 0 <= i -> words v !! Z.to_nat (i / W) = Some w ->
  (∀ j, 0 <= j < W -> Z.testbit x j = if j =? i mod W then b else Z.testbit w j) ->
  let v' := set_words (<[Z.to_nat (i / W) := cast T x]> (words v)) v in
  wf v' /\ m_uElements v' = m_uElements v /\
  ∀ j, 0 <= j -> bit (words v') j = if j =? i then b else bit (words v) j.
Proof.
  intros Hv Hi Hw Hx v'. pose proof (wf_set v Hv) as Hn. pose proof W_pos as HW.
  assert (words v' = <[Z.to_nat (i / W) := cast T x]> (words v)) as Ew by (by apply words_set).
  split; [|split; [apply elements_set|]].
  - split; rewrite ?Ew; unfold v'; rewrite ?elements_set, ?storage_set; try apply Hv.
    + apply Forall_insert; [apply Hv|apply cast_word].
    + rewrite length_insert. apply Hv.
    + by apply null_set.
  - intros j Hj. rewrite Ew. unfold bit. pose proof (Z.mod_pos_bound j W ltac:(lia)). pose proof (Z.div_pos j W).
    pose proof (Z.div_pos i W). pose proof (Z.div_mod i W ltac:(lia)). pose proof (Z.div_mod j W ltac:(lia)).
    destruct (decide (j / W = i / W)) as [Eq|Nq].
    + rewrite Eq, list_lookup_insert_eq by (eapply lookup_lt_Some; done). rewrite cast_bit, Hx, Hw by done.
      destruct (Z.eqb_spec (j mod W) (i mod W)), (Z.eqb_spec j i); try done; [|congruence]. exfalso. congruence.
    + rewrite list_lookup_insert_ne by lia. destruct (Z.eqb_spec j i) as [->|]; done.
Qed.

Lemma word_at v i : wf v -> 0 <= i < m_uElements v -> ∃ w, words v !! Z.to_nat (i / W) = Some w.
Proof.
  intros Hv Hi. pose proof (in_words v i Hv Hi). pose proof (wf_room v Hv).
  destruct (words v !! Z.to_nat (i / W)) eqn:E; [by eexists|]. apply lookup_ge_None in E. lia.
Qed.

Definition sets (i : Z) (b : bool) (v v' : BitVec_T) : Prop :=
  wf v' /\ m_uElements v' = m_uElements v /\ ∀ j, 0 <= j -> bit (words v') j = if j =? i then b else bit (words v) j.

Lemma BitSet_ok i v : wf v -> 0 <= i < m_uElements v -> ∃ v', BitSet i v = Some v' /\ sets i true v v'.
Proof.
  intros Hv Hi. destruct (word_at v i Hv Hi) as [w Hw]. pose proof W_pos. pose proof (Z.mod_pos_bound i W ltac:(lia)).
  unfold BitSet. rewrite shift_div, mask_mod, Hw. cbn [mbind option_bind]. eexists. split; [done|].
  apply update_word with w; [done|lia|done|]. intros j Hj.
  rewrite Z.lor_spec, Z.shiftl_1_l, Z.pow2_bits_eqb, Z.eqb_sym by lia. destruct (Z.eqb_spec j (i mod W)) as [->|]; [apply orb_true_r|apply orb_false_r].
Qed.

Lemma BitClear_ok i v : wf v -> 0 <= i < m_uElements v -> ∃ v', BitClear i v = Some v' /\ sets i false v v'.
Proof.
  intros Hv Hi. destruct (word_at v i Hv Hi) as [w Hw]. pose proof W_pos. pose proof (Z.mod_pos_bound i W ltac:(lia)).
  unfold BitClear. rewrite shift_div, mask_mod, Hw. cbn [mbind option_bind]. eexists. split; [done|].
  apply update_word with w; [done|lia|done|]. intros j Hj. rewrite Z.land_spec.
  assert (Z.testbit (cast uint64_t (Z.lnot (Z.shiftl 1 (i mod W)))) j = negb (j =? i mod W)) as ->.
  { unfold cast, wrap. cbn [is_signed uint64_t bits]. rewrite Z.mod_pow2_bits_low, Z.lnot_spec by lia.
    by rewrite Z.shiftl_1_l, Z.pow2_bits_eqb, Z.eqb_sym by lia. }
  destruct (j =? i mod W); [apply andb_false_r|apply andb_true_r].
Qed.

(** Operations on all the words. *)
Lemma all_words v (f : Z -> Z) (b : bool -> bool) :
  wf v ->
  (∀ w, in_type T w -> in_type T (f w)) -> (∀ w j, in_type T w -> 0 <= j < W -> Z.testbit (f w) j = b (Z.testbit w j)) ->
  let n := Z.to_nat (CalcStorage v) in
  let v' := set_words (map f (take n (words v)) ++ drop n (words v)) v in
  wf v' /\ m_uElements v' = m_uElements v /\ ∀ j, 0 <= j < m_uElements v -> bit (words v') j = b (bit (words v) j).
Proof.
  intros Hv Hf Hb n v'. pose proof (wf_set v Hv) as Hn. pose proof (wf_room v Hv) as Hr. fold n in Hr. pose proof W_pos.
  assert (words v' = map f (take n (words v)) ++ drop n (words v)) as Ew by (by apply words_set).
  assert (length (map f (take n (words v))) = n) as Lm by (rewrite length_map, length_take; lia).
  pose proof (wf_words v Hv) as Hw. rewrite <- (take_drop n (words v)), Forall_app in Hw.
  split; [|split; [apply elements_set|]].
  - split; rewrite ?Ew; unfold v'; rewrite ?elements_set, ?storage_set; try apply Hv.
    + rewrite Forall_app. split; [|apply Hw]. apply Forall_map. eapply Forall_impl; [apply Hw|]. auto.
    + rewrite length_app, Lm, length_drop. fold n. lia.
    + by apply null_set.
  - intros j Hj. rewrite Ew. unfold bit. pose proof (in_words v j Hv Hj) as Hi. fold n in Hi.
    destruct (word_at v j Hv Hj) as [w E]. rewrite lookup_app_l by lia.
    assert (map f (take n (words v)) !! Z.to_nat (j / W) = Some (f w)) as ->.
    { apply list_lookup_fmap_Some. exists w. split; [done|]. by rewrite lookup_take_lt. }
    rewrite E. apply Hb; [|apply Z.mod_pos_bound; lia]. eapply Forall_lookup_1; [apply Hv|done].
Qed.

Lemma cast_is_mod x : cast T x = x mod 2 ^ W.
Proof. unfold cast, wrap. by destruct W_cases as [(_ & _ & _ & ->)|(_ & _ & _ & ->)]. Qed.

Lemma word_is x : in_type T x <-> 0 <= x < 2 ^ W.
Proof. unfold in_type. by destruct W_cases as [(_ & _ & _ & ->)|(_ & _ & _ & ->)]. Qed.

Definition maps (b : bool -> bool) (v v' : BitVec_T) : Prop :=
  wf v' /\ m_uElements v' = m_uElements v /\ ∀ j, 0 <= j < m_uElements v -> bit (words v') j = b (bit (words v) j).

Lemma fill_ok x b v :
  in_type T x -> (∀ j, 0 <= j < W -> Z.testbit x j = b) -> wf v -> ∃ v', fill x v = Some v' /\ maps (λ _, b) v v'.
Proof.
  intros Hx Hb Hv. unfold fill. pose proof (wf_room v Hv) as Hr. rewrite (proj2 (Nat.leb_le _ _) Hr).
  eexists. split; [done|].
  pose proof (all_words v (λ _, x) (λ _, b) Hv (λ _ _, Hx) (λ _ j _, Hb j)) as H. cbv zeta in H.
  assert (∀ l : list Z, map (λ _, x) l = replicate (length l) x) as E by (intros l; induction l; simpl; congruence).
  rewrite E, length_take, Nat.min_l in H by lia. exact H.
Qed.

Lemma Clear_ok v : wf v -> ∃ v', Clear v = Some v' /\ maps (λ _, false) v v'.
Proof.
  apply fill_ok; [apply word_is; split; [lia|apply Z.pow_pos_nonneg; pose proof W_pos; lia]|]. intros. apply Z.bits_0.
Qed.

Lemma SetAll_ok v : wf v -> ∃ v', SetAll v = Some v' /\ maps (λ _, true) v v'.
Proof.
  pose proof W_pos. pose proof (Z.pow_pos_nonneg 2 W). apply fill_ok; [apply word_is; lia|].
  intros j Hj. replace (2 ^ W - 1) with (Z.ones W) by (rewrite Z.ones_equiv; lia). by apply Z.ones_spec_low.
Qed.

Lemma Negate_ok v : wf v -> ∃ v', Negate v = Some v' /\ maps negb v v'.
Proof.
  intros Hv. unfold Negate. pose proof (wf_room v Hv) as Hr. rewrite (proj2 (Nat.leb_le _ _) Hr).
  eexists. split; [done|]. apply (all_words v (λ w, cast T (Z.lnot w)) negb Hv); [intros; apply cast_word|].
  intros w j _ Hj. by rewrite cast_bit, Z.lnot_spec by lia.
Qed.

(** [new T[n]] gives [n] words with any values. *)
Definition heap_ok (heap : nat -> list Z) : Prop := ∀ n, length (heap n) = n /\ Forall (in_type T) (heap n).

Hypothesis HS : STATICBITS = 128.

Lemma static_room n : 0 <= n <= 128 -> (Z.to_nat ((n + W - 1) / W) <= STATICSIZE)%nat.
Proof.
  intros Hn. unfold STATICSIZE. rewrite HS. pose proof W_pos.
  assert ((n + W - 1) / W <= (128 + W - 1) / W) by (apply Z.div_le_mono; lia).
  assert ((128 + W - 1) / W = 128 / W) as E by (destruct W_cases as [(-> & _)|(-> & _)]; done). rewrite E in *.
  apply Z2Nat.inj_le; [apply Z.div_pos; lia|destruct W_cases as [(-> & _)|(-> & _)]; done|done].
Qed.

Lemma Init_ok heap n v :
  heap_ok heap -> 0 <= n < 2 ^ 31 -> Forall (in_type T) (m_dStatic v) -> length (m_dStatic v) = STATICSIZE ->
  ∃ v', Init heap n v = Some v' /\ wf v' /\ m_uElements v' = n /\ ∀ j, 0 <= j < n -> bit (words v') j = false.
Proof.
  intros Hh Hn Hs Ls. unfold Init. destruct (Z.gtb_spec n STATICBITS).
  - set (v2 := BitVec (Dynamic _) _ _ _). destruct (Hh (Z.to_nat (CalcStorage v2))) as [L F].
    destruct (Clear_ok v2) as (v' & E & H1 & H2 & H3); [|by exists v'].
    split; [done|done| |done]. change (words v2) with (heap (Z.to_nat (CalcStorage v2))). by rewrite L.
  - set (v1 := BitVec _ _ _ _). destruct (Clear_ok v1) as (v' & E & H1 & H2 & H3); [|by exists v'].
    split; [done|done| |done]. rewrite storage_ok by done. change (words v1) with (m_dStatic v). rewrite Ls.
    apply static_room. cbn [m_uElements v1]. lia.
Qed.

(** ** Refinement: a vector is a list of booleans *)

Lemma content_length v : length (content v) = Z.to_nat (m_uElements v).
Proof. unfold content. by rewrite length_map, length_seqZ. Qed.

Lemma content_at v i : 0 <= i < m_uElements v -> content v !! Z.to_nat i = Some (bit (words v) i).
Proof.
  intros Hi. apply list_lookup_fmap_Some. exists i. split; [done|]. apply lookup_seqZ. lia.
Qed.

Lemma content_eq v (l : list bool) :
  length l = Z.to_nat (m_uElements v) -> (∀ i, 0 <= i < m_uElements v -> l !! Z.to_nat i = Some (bit (words v) i)) -> content v = l.
Proof.
  intros Hl H. apply list_eq_same_length with (length l); [done|by rewrite content_length|].
  intros k x y Hk Hx Hy. assert (0 <= Z.of_nat k < m_uElements v) as Hi by lia.
  pose proof (content_at v _ Hi) as C. specialize (H _ Hi). rewrite Nat2Z.id in *. congruence.
Qed.

Lemma sets_content i b v v' : sets i b v v' -> 0 <= i < m_uElements v -> content v' = <[Z.to_nat i := b]> (content v).
Proof.
  intros (_ & E & H) Hi. apply content_eq; [by rewrite length_insert, content_length, E|].
  intros j Hj. rewrite E in Hj. rewrite H by lia. destruct (Z.eqb_spec j i) as [->|].
  - apply list_lookup_insert_eq. rewrite content_length. lia.
  - rewrite list_lookup_insert_ne by lia. by apply content_at.
Qed.

Lemma maps_content f v v' : maps f v v' -> content v' = map f (content v).
Proof.
  intros (_ & E & H). apply content_eq; [by rewrite length_map, content_length, E|].
  intros j Hj. rewrite E in Hj. rewrite H by lia. apply list_lookup_fmap_Some. eexists. split; [done|]. by apply content_at.
Qed.

Inductive op := OpSet (i : Z) | OpClear (i : Z) | OpSetAll | OpClearAll | OpNegate.

Definition exec (o : op) (v : BitVec_T) : option BitVec_T :=
  match o with
  | OpSet i => BitSet i v | OpClear i => BitClear i v
  | OpSetAll => SetAll v | OpClearAll => Clear v | OpNegate => Negate v
  end.

Definition spec (o : op) (l : list bool) : list bool :=
  match o with
  | OpSet i => <[Z.to_nat i := true]> l | OpClear i => <[Z.to_nat i := false]> l
  | OpSetAll => map (λ _, true) l | OpClearAll => map (λ _, false) l | OpNegate => map negb l
  end.

Definition op_ok (n : Z) (o : op) : Prop :=
  match o with OpSet i | OpClear i => 0 <= i < n | _ => True end.

Fixpoint execs (ops : list op) (v : BitVec_T) : option BitVec_T :=
  match ops with [] => Some v | o :: ops' => v ← exec o v; execs ops' v end.

Lemma op_exec_ok o v : wf v -> op_ok (m_uElements v) o ->
  ∃ v', exec o v = Some v' /\ wf v' /\ m_uElements v' = m_uElements v /\ content v' = spec o (content v).
Proof.
  intros Hv Ho. destruct o; cbn [exec spec op_ok] in *.
  - destruct (BitSet_ok i v Hv Ho) as (v' & E & H). exists v'. split; [done|]. split; [apply H|]. split; [apply H|].
    by apply sets_content.
  - destruct (BitClear_ok i v Hv Ho) as (v' & E & H). exists v'. split; [done|]. split; [apply H|]. split; [apply H|].
    by apply sets_content.
  - destruct (SetAll_ok v Hv) as (v' & E & H). exists v'. split; [done|]. split; [apply H|]. split; [apply H|]. by apply maps_content.
  - destruct (Clear_ok v Hv) as (v' & E & H). exists v'. split; [done|]. split; [apply H|]. split; [apply H|]. by apply maps_content.
  - destruct (Negate_ok v Hv) as (v' & E & H). exists v'. split; [done|]. split; [apply H|]. split; [apply H|]. by apply maps_content.
Qed.

Lemma execs_ok ops v : wf v -> Forall (op_ok (m_uElements v)) ops ->
  ∃ v', execs ops v = Some v' /\ wf v' /\ m_uElements v' = m_uElements v /\
    content v' = fold_left (λ l o, spec o l) ops (content v).
Proof.
  revert v. induction ops as [|o ops IH]; intros v Hv Ho; [by exists v|]. inversion Ho as [|? ? H1 H2]; subst.
  destruct (op_exec_ok o v Hv H1) as (v1 & E1 & W1 & N1 & C1). cbn [execs fold_left]. rewrite E1. cbn [mbind option_bind].
  rewrite <- N1 in H2. destruct (IH v1 W1 H2) as (v' & E' & W' & N' & C'). exists v'.
  split; [done|]. split; [done|]. split; [congruence|]. by rewrite C', C1.
Qed.

Lemma new_static : Forall (in_type T) (m_dStatic new) /\ length (m_dStatic new) = STATICSIZE.
Proof.
  split; [|apply length_replicate]. apply Forall_replicate, word_is. split; [lia|]. apply Z.pow_pos_nonneg; pose proof W_pos; lia.
Qed.

Lemma refines heap n ops :
  heap_ok heap -> 0 <= n < 2 ^ 31 -> Forall (op_ok n) ops ->
  ∃ v0 v, Init heap n new = Some v0 /\ execs ops v0 = Some v /\ GetSize v = n /\
    ∀ i, 0 <= i < n -> BitGet i v = fold_left (λ l o, spec o l) ops (replicate (Z.to_nat n) false) !! Z.to_nat i.
Proof.
  intros Hh Hn Ho. destruct new_static as [S1 S2]. destruct (Init_ok heap n new Hh Hn S1 S2) as (v0 & E0 & W0 & N0 & Z0).
  rewrite <- N0 in Ho. destruct (execs_ok ops v0 W0 Ho) as (v & E & Wv & Nv & C). exists v0, v.
  split; [done|]. split; [done|]. split; [unfold GetSize; lia|]. intros i Hi.
  assert (content v0 = replicate (Z.to_nat n) false) as C0.
  { apply content_eq; [by rewrite length_replicate, N0|]. intros j Hj. rewrite Z0 by lia. apply lookup_replicate. lia. }
  rewrite <- C0, <- C, content_at by lia. apply BitGet_ok; [done|lia].
Qed.

(** ** Scanning *)

Lemma scan_bits_ok n w i :
  0 <= i -> (∃ j, i <= j < i + Z.of_nat n /\ Z.testbit w j = true) ->
  let r := scan_bits n w i in i <= r < i + Z.of_nat n /\ Z.testbit w r = true /\ ∀ j, i <= j < r -> Z.testbit w j = false.
Proof.
  revert i. induction n as [|n IH]; intros i Hi (j & Hj & Hb); [lia|]. cbn [scan_bits]. rewrite test_land by lia.
  destruct (Z.testbit w i) eqn:E; [split; [lia|]; split; [done|]; lia|].
  destruct (IH (i + 1)) as (R1 & R2 & R3); [lia|exists j; split; [|done]; destruct (decide (j = i)); [congruence|lia]|].
  split; [lia|]. split; [done|]. intros k Hk. destruct (decide (k = i)) as [->|]; [done|]. apply R3. lia.
Qed.

Lemma high_bits w j : in_type T w -> W <= j -> Z.testbit w j = false.
Proof.
  intros Hw Hj. apply word_is in Hw. rewrite <- (Z.mod_small w (2 ^ W)) by lia.
  apply Z.mod_pow2_bits_high. pose proof W_pos. lia.
Qed.

Lemma nonzero_bit w : in_type T w -> w <> 0 -> ∃ j, 0 <= j < W /\ Z.testbit w j = true.
Proof.
  intros Hw Hn. apply word_is in Hw as Hr. exists (Z.log2 w). split; [|apply Z.bit_log2; lia].
  split; [apply Z.log2_nonneg|]. apply Z.log2_lt_pow2; lia.
Qed.

Lemma mask_bits k j : 0 <= k < W -> 0 <= j < W -> Z.testbit (cast T (Z.lnot (cast T (Z.shiftl 1 k - 1)))) j = (k <=? j).
Proof.
  intros Hk Hj. rewrite cast_bit, Z.lnot_spec, cast_bit by lia.
  replace (Z.shiftl 1 k - 1) with (Z.ones k) by (rewrite Z.shiftl_1_l, Z.ones_equiv; lia).
  destruct (Z.leb_spec k j); [rewrite Z.ones_spec_high by lia; done|rewrite Z.ones_spec_low by lia; done].
Qed.

Lemma masked w k : in_type T w -> 0 <= k < W ->
  let m := cast T (Z.lnot (cast T (Z.shiftl 1 k - 1))) in
  if Z.land w m =? 0 then ∀ j, k <= j -> Z.testbit w j = false else ∃ j, k <= j < W /\ Z.testbit w j = true.
Proof.
  intros Hw Hk m. destruct (Z.eqb_spec (Z.land w m) 0) as [E|N].
  - intros j Hj. destruct (Z.lt_ge_cases j W); [|by apply high_bits].
    apply (f_equal (λ z, Z.testbit z j)) in E. rewrite Z.land_spec, Z.bits_0 in E. unfold m in E.
    rewrite mask_bits, (proj2 (Z.leb_le k j)), andb_true_r in E by lia. done.
  - assert (in_type T (Z.land w m)) as Hl.
    { apply word_is. apply word_is in Hw as Hr. split; [apply Z.land_nonneg; lia|].
      destruct (decide (Z.land w m = 0)); [lia|]. apply Z.log2_lt_pow2; [pose proof (proj2 (Z.land_nonneg w m)); lia|].
      pose proof (cast_word (Z.lnot (cast T (Z.shiftl 1 k - 1)))) as Hm. apply word_is in Hm. fold m in Hm.
      pose proof (Z.log2_land w m ltac:(lia) ltac:(lia)).
      destruct (decide (w = 0)) as [->|]; [by rewrite Z.land_0_l in *|].
      pose proof (proj1 (Z.log2_lt_pow2 w W ltac:(lia)) ltac:(lia)). lia. }
    destruct (nonzero_bit _ Hl N) as (j & Hj & Hb). rewrite Z.land_spec in Hb. apply andb_true_iff in Hb as [B1 B2].
    unfold m in B2. rewrite mask_bits in B2 by lia. exists j. apply Z.leb_le in B2. split; [lia|done].
Qed.

Lemma scan_words_ok n v i iSize :
  0 <= i -> (Z.to_nat iSize <= length (words v))%nat -> Z.max 0 (iSize - i) < Z.of_nat n ->
  ∃ r, scan_words n v i iSize = Some r /\ i <= r /\ (r <= iSize \/ r = i) /\
    (∀ k, i <= k < r -> words v !! Z.to_nat k = Some 0) /\
    (r < iSize -> ∃ w, words v !! Z.to_nat r = Some w /\ w <> 0).
Proof.
  revert i. induction n as [|n IH]; intros i Hi Hl Hn; cbn [scan_words].
  { lia. }
  destruct (Z.ltb_spec i iSize); [|exists i; split_and!; [done|lia|lia|intros; lia|intros; lia]].
  destruct (lookup_lt_is_Some_2 (words v) (Z.to_nat i)) as [w E]; [lia|]. rewrite E. cbn [mbind option_bind].
  destruct (Z.eqb_spec w 0) as [->|]; [|exists i; split_and!; [done|lia|lia|intros; lia|intros; by exists w]].
  destruct (IH (i + 1)) as (r & R1 & R2 & R3 & R4 & R5); [lia|done|lia|]. exists r. split; [done|]. split; [lia|].
  split; [lia|]. split; [|done]. intros k Hk. destruct (decide (k = i)) as [->|]; [done|]. apply R4. lia.
Qed.

(** The bits between the last element and the end of its word are zero. *)
Definition tail_clean (v : BitVec_T) : Prop := ∀ j, m_uElements v <= j < W * CalcStorage v -> bit (words v) j = false.

Lemma bit_word l q k w : l !! Z.to_nat q = Some w -> 0 <= k < W -> 0 <= q -> bit l (q * W + k) = Z.testbit w k.
Proof.
  intros E Hk Hq. unfold bit. pose proof W_pos. rewrite Z.div_add_l, Z.div_small, Z.add_0_r by lia.
  rewrite E. by rewrite Z.add_comm, Z.mod_add, Z.mod_small by lia.
Qed.

(** The found position, in the word [q] at bit [k]. *)
Lemma scan_result v q w k s :
  wf v -> 0 <= q -> q < CalcStorage v -> words v !! Z.to_nat q = Some w -> 0 <= s < W ->
  (∃ j, s <= j < W /\ Z.testbit w j = true) -> tail_clean v -> k = ScanBit w s ->
  let r := cast DWORD (Z.shiftl q SHIFT + k) in
  r = q * W + k /\ s <= k < W /\ bit (words v) r = true /\ r < m_uElements v /\ ∀ j, q * W + s <= j < r -> bit (words v) j = false.
Proof.
  intros Hv Hq Hc Ew Hs Hj Ht Ek r. pose proof W_pos as HW. pose proof (wf_size v Hv) as Hz.
  destruct (scan_bits_ok (Z.to_nat (W - s)) w s) as (R1 & R2 & R3); [lia|rewrite Z2Nat.id by lia; replace (s + (W - s)) with W by lia; done|].
  fold (ScanBit w s) in R1, R2, R3. rewrite <- Ek in R1, R2, R3. rewrite Z2Nat.id in R1 by lia.
  assert (Z.shiftl q SHIFT = q * W) as Es.
  { destruct W_cases as [(-> & -> & _)|(-> & -> & _)]; by rewrite Z.shiftl_mul_pow2. }
  assert (bit (words v) (q * W + k) = true) as Hb by (rewrite (bit_word _ _ _ w); [done|done|lia|lia]).
  assert (q * W + k < m_uElements v) as Hlt.
  { destruct (Z.lt_ge_cases (q * W + k) (m_uElements v)); [done|]. rewrite Ht in Hb; [done|]. split; [lia|].
    assert (q * W + W <= W * CalcStorage v) by nia. lia. }
  assert (r = q * W + k) as Er.
  { unfold r. rewrite Es. apply cast_id; [done|]. unfold in_type. cbn [is_signed DWORD bits]. nia. }
  rewrite Er. split; [done|]. split; [lia|]. split; [done|]. split; [done|]. intros j Hjj.
  replace j with (q * W + (j - q * W)) by lia. rewrite (bit_word _ _ _ w); [|done|lia|lia]. apply R3. lia.
Qed.

Lemma Scan_ok s v : wf v -> tail_clean v -> 0 <= s < m_uElements v ->
  ∃ r, Scan s v = Some r /\ s <= r <= m_uElements v /\ (∀ j, s <= j < r -> bit (words v) j = false) /\
    (r < m_uElements v -> bit (words v) r = true).
Proof.
  intros Hv Ht Hs. pose proof W_pos as HW. pose proof (wf_size v Hv) as Hz. pose proof (wf_room v Hv) as Hr.
  pose proof (in_words v s Hv Hs) as Hi. pose proof (storage_ok v Hz) as Ec.
  pose proof (Z.div_mod s W ltac:(lia)) as Dm. pose proof (Z.mod_pos_bound s W ltac:(lia)) as Hm.
  pose proof (Z.div_pos s W ltac:(lia) ltac:(lia)) as Hq0.
  assert (s / W <= s) by (apply Z.div_le_upper_bound; nia).
  unfold Scan. rewrite shift_div, mask_mod.
  rewrite (cast_id int32_t) by (done || unfold in_type; cbn [is_signed int32_t bits]; lia).
  destruct (word_at v s Hv Hs) as [w Ew]. rewrite Ew. cbn [mbind option_bind].
  assert (in_type T w) as Hw by (eapply Forall_lookup_1; [apply Hv|done]).
  pose proof (masked w (s mod W) Hw Hm) as Hmask. cbv zeta in Hmask.
  destruct (Z.land w _ =? 0); cbn [negb].
  - destruct (scan_words_ok (S (length (words v))) v (s / W + 1) (CalcStorage v)) as (q & -> & Q1 & Q2 & Q3 & Q4); [lia|done|lia|].
    cbn [mbind option_bind].
    assert (∀ j, s <= j < q * W -> bit (words v) j = false) as Hzero.
    { intros j Hj. pose proof (Z.div_mod j W ltac:(lia)). pose proof (Z.mod_pos_bound j W ltac:(lia)).
      replace j with (j / W * W + j mod W) by lia. assert (j / W < q) by (apply Z.div_lt_upper_bound; lia).
      assert (s / W <= j / W) by (apply Z.div_le_mono; lia).
      destruct (decide (j / W = s / W)) as [E|].
      - rewrite (bit_word _ _ _ w); [|by rewrite E|lia|lia]. apply Hmask. nia.
      - rewrite (bit_word _ _ _ 0); [apply Z.bits_0|apply Q3; lia|lia|lia]. }
    rewrite Z.geb_leb. destruct (Z.leb_spec (CalcStorage v) q).
    + exists (m_uElements v). split; [done|]. split; [lia|]. split; [|lia]. intros j Hj. apply Hzero.
      assert (m_uElements v <= CalcStorage v * W).
      { rewrite Ec. pose proof (Z.div_mod (m_uElements v + W - 1) W ltac:(lia)).
        pose proof (Z.mod_pos_bound (m_uElements v + W - 1) W ltac:(lia)). lia. }
      nia.
    + destruct (Q4 H0) as (w' & E' & N'). rewrite E'. cbn [mbind option_bind].
      assert (in_type T w') as Hw' by (eapply Forall_lookup_1; [apply Hv|done]).
      destruct (scan_result v q w' (ScanBit w' 0) 0 Hv ltac:(lia) H0 E' ltac:(lia) (nonzero_bit w' Hw' N') Ht eq_refl)
        as (R1 & R2 & R3 & R4 & R5).
      eexists. split; [done|]. split; [nia|]. split; [|done]. intros j Hj.
      destruct (Z.lt_ge_cases j (q * W)); [apply Hzero; lia|apply R5; lia].
  - destruct (scan_result v (s / W) w (ScanBit w (s mod W)) (s mod W) Hv ltac:(lia) ltac:(lia) Ew Hm Hmask Ht eq_refl)
      as (R1 & R2 & R3 & R4 & R5).
    eexists. split; [done|]. split; [nia|]. split; [|done]. intros j Hj. apply R5. lia.
Qed.

(** ** Counting *)

Lemma fold_count l acc :
  cast DWORD (fold_left (λ iBitSet w, cast int32_t (iBitSet + popcount W w)) l acc) = cast DWORD (acc + sum (map (popcount W) l)).
Proof.
  revert acc. induction l as [|w l IH]; intros acc; cbn [fold_left map]; [unfold sum; cbn [foldr]; by rewrite Z.add_0_r|].
  rewrite IH. change (sum (popcount W w :: map (popcount W) l)) with (popcount W w + sum (map (popcount W) l)).
  apply cast_eq. pose proof (cast_cong int32_t (acc + popcount W w)) as C. cbn [bits int32_t DWORD] in *.
  rewrite Zplus_mod, C, <- Zplus_mod. f_equal. lia.
Qed.

Lemma sum_words l :
  sum (map (popcount W) l) = sum (map (λ j, Z.b2z (bit l j)) (seqZ 0 (W * Z.of_nat (length l)))).
Proof.
  pose proof W_pos as HW. induction l as [|w l IH] using rev_ind; [by rewrite Z.mul_0_r|].
  rewrite map_app, sum_app, IH, length_app. cbn [length map].
  replace (W * Z.of_nat (length l + 1)) with (W * Z.of_nat (length l) + W) by lia.
  rewrite seqZ_app, map_app, sum_app by lia. f_equal.
  - f_equal. apply map_seqZ_ext. intros j Hj. f_equal. unfold bit. rewrite lookup_app_l; [done|].
    assert (j / W < Z.of_nat (length l)) by (apply Z.div_lt_upper_bound; lia). pose proof (Z.div_pos j W). lia.
  - unfold sum at 1. cbn [foldr]. rewrite Z.add_0_r. unfold popcount. f_equal.
    replace (seqZ (0 + W * Z.of_nat (length l)) W) with (map (Z.add (W * Z.of_nat (length l))) (seqZ 0 W))
      by (etransitivity; [apply (fmap_add_seqZ _ 0)|f_equal; lia]).
    rewrite map_map. apply map_seqZ_ext. intros j Hj. f_equal. rewrite (Z.mul_comm W).
    rewrite (bit_word _ _ _ w); [done| |lia|lia]. rewrite Nat2Z.id. by apply list_lookup_middle.
Qed.

Lemma BitCount_ok v : wf v -> tail_clean v -> BitCount v = Some (sum (map Z.b2z (content v))).
Proof.
  intros Hv Ht. pose proof W_pos as HW. pose proof (wf_size v Hv) as Hz. pose proof (wf_room v Hv) as Hr.
  unfold BitCount, used. rewrite (proj2 (Nat.leb_le _ _) Hr). cbn [mbind option_bind]. f_equal.
  rewrite fold_count, Z.add_0_l, sum_words, length_take, Nat.min_l by lia.
  pose proof (storage_ok v Hz) as Ec. set (n := CalcStorage v) in *.
  pose proof (Z.div_mod (m_uElements v + W - 1) W ltac:(lia)) as D.
  pose proof (Z.mod_pos_bound (m_uElements v + W - 1) W ltac:(lia)). rewrite <- Ec in D.
  assert (0 <= n) as Hn by (rewrite Ec; apply Z.div_pos; lia). rewrite Z2Nat.id by lia.
  replace (W * n) with (m_uElements v + (W * n - m_uElements v)) by lia.
  rewrite seqZ_app, map_app, sum_app by lia.
  assert (∀ j, 0 <= j < W * n -> bit (take (Z.to_nat n) (words v)) j = bit (words v) j) as Hb.
  { intros j Hj. unfold bit. rewrite lookup_take_lt; [done|]. assert (j / W < n) by (apply Z.div_lt_upper_bound; lia).
    pose proof (Z.div_pos j W). lia. }
  rewrite (map_seqZ_ext _ (λ j, Z.b2z (bit (words v) j))) by (intros; rewrite Hb by lia; done).
  rewrite (map_seqZ_ext (λ j, Z.b2z (bit (take _ _) j)) (λ _, 0)) by (intros; rewrite Hb, Ht by lia; done).
  assert (∀ l : list Z, sum (map (λ _, 0) l) = 0) as -> by (intros l; unfold sum; induction l; simpl; lia).
  rewrite Z.add_0_r. unfold content. rewrite map_map. apply cast_id; [done|].
  pose proof (sum_bits_range (bit (words v)) (seqZ 0 (m_uElements v))) as B. rewrite length_seqZ in B.
  unfold in_type. cbn [is_signed DWORD bits]. lia.
Qed.

(** ** Copies and swaps *)

Lemma bitvec_copy_ok heap rhs :
  heap_ok heap -> wf rhs -> ∃ v, BitVec_copy heap rhs = Some v /\ wf v /\ m_uElements v = m_uElements rhs /\ content v = content rhs.
Proof.
  intros Hh Hr. pose proof (wf_size _ Hr) as Hz. pose proof (wf_room _ Hr) as Hroom. destruct new_static as [S1 S2].
  unfold BitVec_copy. set (v0 := BitVec Null _ _ _). change (CalcStorage v0) with (CalcStorage rhs).
  rewrite (proj2 (Nat.leb_le _ _) Hroom). set (n := Z.to_nat (CalcStorage rhs)) in *. eexists. split; [done|].
  assert (∀ t, Forall (in_type T) t -> (n <= length t)%nat ->
    Forall (in_type T) (take n (words rhs) ++ drop n t) /\ (n <= length (take n (words rhs) ++ drop n t))%nat /\
    ∀ j, 0 <= j < m_uElements rhs -> bit (take n (words rhs) ++ drop n t) j = bit (words rhs) j) as G.
  { intros t Ft Lt. split; [|split].
    - rewrite Forall_app. split; [apply Forall_take, Hr|by apply Forall_drop].
    - rewrite length_app, length_take. lia.
    - intros j Hj. pose proof (in_words rhs j Hr Hj) as Hi. fold n in Hi. unfold bit.
      rewrite lookup_app_l, lookup_take_lt by (rewrite ?length_take; lia). done. }
  assert (∀ v, words v = take n (words rhs) ++ drop n (heap n) \/ words v = take n (words rhs) ++ drop n (replicate STATICSIZE 0) /\ (n <= STATICSIZE)%nat ->
    m_pData v <> Null -> m_uElements v = m_uElements rhs -> wf v /\ m_uElements v = m_uElements rhs /\ content v = content rhs) as F.
  { intros v Ew Hnn En. assert (CalcStorage v = CalcStorage rhs) as Ec by (unfold CalcStorage; by rewrite En).
    assert (∃ t, words v = take n (words rhs) ++ drop n t /\ Forall (in_type T) t /\ (n <= length t)%nat) as (t & Et & Ft & Lt).
    { destruct Ew as [Ew|[Ew Hn]]; eexists; (split; [exact Ew|]); [destruct (Hh n) as [L A]; split; [done|lia]|split; [done|by rewrite length_replicate]]. }
    destruct (G t Ft Lt) as (G1 & G2 & G3). split; [|split; [done|]].
    - split; [lia|by rewrite Et|rewrite Et, Ec; done|done].
    - unfold content. rewrite En. apply map_seqZ_ext. intros j Hj. rewrite Et. apply G3. lia. }
  destruct (Z.gtb_spec (m_uElements rhs) STATICBITS); (apply F; [|done|done]); [by left|right; split; [done|]].
  unfold n. rewrite storage_ok by done. apply static_room. lia.
Qed.

Lemma words_eq a b : m_uElements a = m_uElements b -> words a = words b -> content a = content b.
Proof. intros E1 E2. unfold content. by rewrite E1, E2. Qed.

Lemma Swap_ok a b : let '(a', b') := Swap a b in
  words a' = words b /\ words b' = words a /\ m_uElements a' = m_uElements b /\ m_uElements b' = m_uElements a.
Proof. destruct a as [[] ? ? ?], b as [[] ? ? ?]; done. Qed.

(** Clean tails are kept by the operations on one bit and by [Clear]. *)
Lemma sets_clean i b v v' : sets i b v v' -> 0 <= i < m_uElements v -> tail_clean v -> tail_clean v'.
Proof.
  intros (_ & E & H) Hi Ht j Hj. assert (CalcStorage v' = CalcStorage v) as Ec by (unfold CalcStorage; by rewrite E).
  rewrite E, Ec in Hj. rewrite H by lia. rewrite (proj2 (Z.eqb_neq j i)) by lia. by apply Ht.
Qed.
End Ops.

(** A bit vector behaves as a list of booleans: after [Init], for any
    sequence of [BitSet], [BitClear], [Set], [Clear] and [Negate] with indexes
    in range, no access leaves the storage and [BitGet] returns what the same
    sequence makes of the list, both for the words inside the object (up to 128
    bits) and for the heap ones, for words of 32 and of 64 bits. *)
Theorem bitvec_refines T heap n ops :
  T = DWORD \/ T = uint64_t -> heap_ok T heap -> 0 <= n < 2 ^ 31 -> Forall (op_ok n) ops ->
  ∃ v0 v, Init T 128 heap n (new T 128) = Some v0 /\ execs T ops v0 = Some v /\ GetSize v = n /\
    ∀ i, 0 <= i < n -> BitGet T i v = fold_left (λ l o, spec o l) ops (replicate (Z.to_nat n) false) !! Z.to_nat i.
Proof. intros HT Hh Hn Ho. by apply refines. Qed.

Lemma bitvec_refines_witness :
  ∃ v0 v, Init DWORD 128 (λ n, replicate n 5) 200 (new DWORD 128) = Some v0 /\
    execs DWORD [OpSet 199; OpNegate; OpClear 64; OpSet 7] v0 = Some v /\ GetSize v = 200 /\
    ∀ i, 0 <= i < 200 -> BitGet DWORD i v =
      fold_left (λ l o, spec o l) [OpSet 199; OpNegate; OpClear 64; OpSet 7] (replicate (Z.to_nat 200) false) !! Z.to_nat i.
Proof.
  apply (bitvec_refines DWORD (λ n, replicate n 5) 200); [by left| |lia|].
  - intros k. split; [apply length_replicate|]. apply Forall_replicate. unfold in_type. simpl. lia.
  - repeat constructor; simpl; lia.
Defined.

(** On a vector whose bits past the end are clear, [Scan] from any element
    returns the first set element at or after it, or the size if there is none,
    and [BitCount] returns the number of set elements. *)
Theorem bitvec_scan_correct T v s :
  T = DWORD \/ T = uint64_t -> wf T v -> tail_clean T v -> 0 <= s < m_uElements v ->
  ∃ r, Scan T s v = Some r /\ s <= r <= m_uElements v /\
    (∀ j, s <= j < r -> BitGet T j v = Some false) /\ (r < m_uElements v -> BitGet T r v = Some true) /\
    BitCount T v = Some (sum (map Z.b2z (content T v))).
Proof.
  intros HT Hv Ht Hs. destruct (Scan_ok T HT s v Hv Ht Hs) as (r & E & R1 & R2 & R3). exists r.
  split; [done|]. split; [done|]. split; [|split].
  - intros j Hj. rewrite (BitGet_ok T HT) by (done || lia). by rewrite R2.
  - intros Hr. rewrite (BitGet_ok T HT) by (done || lia). by rewrite R3.
  - by apply BitCount_ok.
Qed.

(** A vector of 70 bits with the bits 3 and 68 set. *)
Definition demo_bits : BitVec_T := BitVec Static [8; 0; 16; 0] 70 true.

Lemma demo_bits_ok : wf DWORD demo_bits /\ tail_clean DWORD demo_bits.
Proof.
  split.
  - split; [cbn; lia|repeat constructor; cbn; lia|vm_compute; lia|done].
  - intros j Hj. change (m_uElements demo_bits) with 70 in Hj. change (SIZEBITS DWORD * CalcStorage DWORD demo_bits) with 96 in Hj.
    assert (forallb (λ j, negb (bit DWORD (words demo_bits) j)) (seqZ 70 26) = true) as H by (vm_compute; reflexivity).
    rewrite forallb_forall in H. apply negb_true_iff, H, list_elem_of_In, elem_of_seqZ. lia.
Qed.

Lemma bitvec_scan_correct_witness :
  ∃ r, Scan DWORD 4 demo_bits = Some r /\ 4 <= r <= 70 /\
    (∀ j, 4 <= j < r -> BitGet DWORD j demo_bits = Some false) /\ (r < 70 -> BitGet DWORD r demo_bits = Some true) /\
    BitCount DWORD demo_bits = Some (sum (map Z.b2z (content DWORD demo_bits))).
Proof.
  apply (bitvec_scan_correct DWORD demo_bits 4 (or_introl eq_refl) (proj1 demo_bits_ok) (proj2 demo_bits_ok)). cbn. lia.
Defined.

(** Copying and swapping keep the bits: the copy constructor gives a
    vector with the same elements, and [Swap] (which assignment and the move
    constructor use) exchanges the elements of two vectors whichever of them
    use the buffer inside the object. *)
Theorem bitvec_copy_swap T heap a b :
  T = DWORD \/ T = uint64_t -> heap_ok T heap -> wf T a -> wf T b ->
  (∃ c, BitVec_copy T 128 heap a = Some c /\ wf T c /\ content T c = content T a) /\
  let '(a', b') := Swap a b in wf T a' /\ wf T b' /\ content T a' = content T b /\ content T b' = content T a.
Proof.
  intros HT Hh Ha Hb. split.
  - destruct (bitvec_copy_ok T 128 HT eq_refl heap a Hh Ha) as (c & E & W & _ & C). by exists c.
  - pose proof (Swap_ok a b) as S. destruct (Swap a b) as [a' b'] eqn:Es. destruct S as (S1 & S2 & S3 & S4).
    assert (m_pData a' <> Null /\ m_pData b' <> Null) as [N1 N2].
    { pose proof (wf_set T a Ha). pose proof (wf_set T b Hb). clear -H H0 Es.
      destruct a as [[] ? ? ?], b as [[] ? ? ?]; unfold Swap in Es; simpl in *; by inversion Es; subst. }
    split; [|split; [|split; by apply words_eq]]; split; try done; rewrite ?S1, ?S2, ?S3, ?S4; try apply Ha; try apply Hb;
      unfold CalcStorage; rewrite ?S3, ?S4; try apply Ha; apply Hb.
Qed.

Lemma bitvec_copy_swap_witness :
  (∃ c, BitVec_copy DWORD 128 (λ n, replicate n 5) demo_bits = Some c /\ wf DWORD c /\ content DWORD c = content DWORD demo_bits) /\
  let '(a', b') := Swap demo_bits demo_bits in
  wf DWORD a' /\ wf DWORD b' /\ content DWORD a' = content DWORD demo_bits /\ content DWORD b' = content DWORD demo_bits.
Proof.
  apply (bitvec_copy_swap DWORD (λ n, replicate n 5)); [by left| |apply demo_bits_ok|apply demo_bits_ok].
  intros k. split; [apply length_replicate|]. apply Forall_replicate. unfold in_type. simpl. lia.
Defined.
End BitVec.
