(* ===== verification/DeadMap.v ===== *)
(** * The dead row map

    [DeadRowMap_c], [DeadRowMap_Ram_c] and [DeadRowMap_Disk_c] of
    src/src/killlist.h and killlist.cpp: one bit per row of an index, set when
    the row is deleted. The two classes differ in where the words are (a heap
    vector, a mapped file); the words are a list here. *)

From stdpp Require Import gmap.
From S2P Require Import Prelude FileIO BitCount BitVec SearchNode DocidLookup DocidLookupOk.
Import FileIO BitCount BitVec SearchNode DocidLookup DocidLookupOk DocidLookupWrite.

Module DeadMap.

#[local] Opaque PutBytes.

Record DeadRowMap_c := DeadRowMap {
  m_bHaveDead : bool;
  m_iNumDeads : Z;
  m_uRows : Z;
  m_dData : list Z
}.

(** [Set]: whether the row was alive; [None] is a write outside the words. *)
Definition Set_ (tRowID : Z) (m : DeadRowMap_c) : option (bool * DeadRowMap_c) :=
  if tRowID =? INVALID_ROWID then Some (false, m)
  else
    let i := Z.to_nat (Z.shiftr tRowID 5) in
    let uMask := Z.shiftl 1 (Z.land tRowID 31) in
    uPrev ← m_dData m !! i;
    let bSet := Z.land uPrev uMask =? 0 in
    Some (bSet,
      DeadRowMap (m_bHaveDead m || bSet)
        (if bSet && (m_iNumDeads m >=? 0) then m_iNumDeads m + 1 else m_iNumDeads m)
        (m_uRows m) (<[i := Z.lor uPrev uMask]> (m_dData m))).

Definition IsSet (tRowID : Z) (m : DeadRowMap_c) : option bool :=
  if negb (m_bHaveDead m) || (tRowID =? INVALID_ROWID) then Some false
  else
    w ← m_dData m !! Z.to_nat (Z.shiftr tRowID 5);
    Some (negb (Z.land w (Z.shiftl 1 (Z.land tRowID 31)) =? 0)).

Definition CountBits (dData : list Z) : Z := fold_left (λ U uData, cast DWORD (U + popcount 32 uData)) dData 0.

(** [GetNumDeads] counts on the first call and keeps the number. *)
Definition GetNumDeads (m : DeadRowMap_c) : Z * DeadRowMap_c :=
  let n := if m_iNumDeads m <? 0 then (if m_bHaveDead m then CountBits (m_dData m) else 0) else m_iNumDeads m in
  (cast DWORD n, DeadRowMap (m_bHaveDead m) n (m_uRows m) (m_dData m)).

Definition GetNumAlive (m : DeadRowMap_c) : Z * DeadRowMap_c :=
  let '(n, m) := GetNumDeads m in (cast DWORD (m_uRows m - n), m).

(** The loop of [CheckForDead]: whether a word is set, the last word visited,
    and whether the end was reached. *)
Fixpoint check_loop (bHaveDead : bool) (prev : Z) (l : list Z) : bool * Z * bool :=
  match l with
  | [] => (bHaveDead, prev, true)
  | w :: l' => if bHaveDead then (bHaveDead, prev, false) else check_loop (negb (w =? 0)) w l'
  end.

Definition CheckForDead (m : DeadRowMap_c) : DeadRowMap_c :=
  let '(bHaveDead, last, at_end) := check_loop false 0 (m_dData m) in
  DeadRowMap bHaveDead
    (if negb bHaveDead then 0 else if (at_end : bool) then popcount 32 last else m_iNumDeads m)
    (m_uRows m) (m_dData m).

Definition Reset (uRows : Z) : DeadRowMap_c :=
  DeadRowMap false 0 uRows (replicate (Z.to_nat (cast DWORD (uRows + 31) / 32)) 0).

(** The words of the bytes that [GetBytes] stores. *)
Fixpoint to_words (n : nat) (dBytes : list Z) : list Z :=
  match n with O => [] | S n' => le_value (take 4 dBytes) :: to_words n' (drop 4 dBytes) end.

(** [Load], given the bytes the reader delivers; the tail word that is zeroed
    first is overwritten by them. *)
Definition Load (uRows : Z) (dBytes : list Z) : DeadRowMap_c :=
  CheckForDead (DeadRowMap false (-1) uRows (to_words (Z.to_nat (cast DWORD (uRows + 31) / 32)) dBytes)).

Definition Save (m : DeadRowMap_c) (w : CSphWriter) : CSphWriter := PutBytes (concat (map (le_bytes 4) (m_dData m))) w.

(** [DeadRowMap_Disk_c]: the map of a file, and what it knows after [Preread]. *)
Definition Prealloc (uRows : Z) (dBytes : list Z) : DeadRowMap_c :=
  DeadRowMap true (-1) uRows (to_words (length dBytes / 4) dBytes).

Definition Preread (m : DeadRowMap_c) : DeadRowMap_c :=
  let n := CountBits (m_dData m) in DeadRowMap (0 <? n) n (m_uRows m) (m_dData m).

(** [WriteDeadRowMap]: the result and the file. *)
Definition WriteDeadRowMap (iBufferSize : Z) (io : list bool) (uTotalDocs : Z) : bool * CSphWriter :=
  let nEntries := cast int32_t (cast DWORD (uTotalDocs + 31) / 32) in
  let w := CloseFile false (Nat.iter (Z.to_nat nEntries) (PutDword 0) (OpenFile iBufferSize io)) in
  (negb (m_bError w), w).

(** ** What a map stands for *)

Abbreviation dead m := (bit DWORD (m_dData m)).
Definition num_dead (m : DeadRowMap_c) : Z := sum (map (popcount 32) (m_dData m)).

Record dm_ok (m : DeadRowMap_c) : Prop := {
  dm_rows : 0 <= m_uRows m < 2 ^ 32 - 32;
  dm_words : Forall (in_type DWORD) (m_dData m);
  dm_length : Z.of_nat (length (m_dData m)) = (m_uRows m + 31) / 32;
  dm_tail : ∀ r, m_uRows m <= r -> dead m r = false;
  dm_have : m_bHaveDead m = false -> ∀ r, 0 <= r -> dead m r = false;
  dm_num : m_iNumDeads m = -1 \/ m_iNumDeads m = num_dead m
}.

Lemma dword_W : DWORD = DWORD \/ DWORD = uint64_t.
Proof. by left. Qed.
Abbreviation DW := (dword_W).

Lemma land_31 r : Z.land r 31 = r mod 32.
Proof. apply (land_ones_mod r 5). lia. Qed.

Lemma row_word m r : dm_ok m -> 0 <= r < m_uRows m -> ∃ w, m_dData m !! Z.to_nat (r / 32) = Some w.
Proof.
  intros Hm Hr. apply lookup_lt_is_Some_2. pose proof (dm_length m Hm) as L.
  assert ((r + 32) / 32 = r / 32 + 1) by (rewrite <- (Z.div_add r 1 32) by lia; f_equal; lia).
  assert ((r + 32) / 32 <= (m_uRows m + 31) / 32) by (apply Z.div_le_mono; lia). pose proof (Z.div_pos r 32). lia.
Qed.

Lemma IsSet_ok m r : dm_ok m -> 0 <= r < m_uRows m -> IsSet r m = Some (dead m r).
Proof.
  intros Hm Hr. unfold IsSet. pose proof (dm_rows m Hm).
  rewrite (proj2 (Z.eqb_neq r INVALID_ROWID)) by (unfold INVALID_ROWID; lia). rewrite orb_false_r.
  destruct (m_bHaveDead m) eqn:E; cbn [negb]; [|by rewrite (dm_have m Hm E) by lia].
  destruct (row_word m r Hm Hr) as [w Ew]. rewrite Z.shiftr_div_pow2 by lia. change (2 ^ 5) with 32. rewrite Ew.
  cbn [mbind option_bind]. rewrite land_31.
  rewrite test_land by (apply Z.mod_pos_bound; lia). unfold bit. change (SIZEBITS DWORD) with 32. by rewrite Ew.
Qed.

Lemma lor_sets w k : in_type DWORD w -> 0 <= k < 32 ->
  in_type DWORD (Z.lor w (Z.shiftl 1 k)) /\ ∀ j, 0 <= j -> Z.testbit (Z.lor w (Z.shiftl 1 k)) j = Z.testbit w j || (j =? k).
Proof.
  intros Hw Hk. rewrite Z.shiftl_1_l. split.
  - unfold in_type in *. cbn [is_signed DWORD bits] in *. split; [apply Z.lor_nonneg; split; [lia|apply Z.pow_nonneg; lia]|].
    destruct (decide (w = 0)) as [->|]; [rewrite Z.lor_0_l; apply Z.pow_lt_mono_r; lia|].
    pose proof (Z.pow_pos_nonneg 2 k). apply Z.log2_lt_pow2; [|rewrite Z.log2_lor, Z.log2_pow2 by lia; apply Z.max_lub_lt; [apply Z.log2_lt_pow2; lia|lia]].
    assert (0 <= Z.lor w (2 ^ k)) by (apply Z.lor_nonneg; lia).
    destruct (decide (Z.lor w (2 ^ k) = 0)) as [E|]; [apply Z.lor_eq_0_iff in E; lia|lia].
  - intros j Hj. by rewrite Z.lor_spec, Z.pow2_bits_eqb, Z.eqb_sym by lia.
Qed.

Lemma popcount_ext w a b : (∀ j, 0 <= j < w -> Z.testbit a j = Z.testbit b j) -> popcount w a = popcount w b.
Proof. intros H. unfold popcount. f_equal. apply map_seqZ_ext. intros j Hj. by rewrite H by lia. Qed.

Lemma popcount_bit w k n : 0 <= k < w ->
  popcount w n = popcount k n + Z.b2z (Z.testbit n k) + popcount (w - k - 1) (Z.shiftr n (k + 1)).
Proof.
  intros Hk. replace w with (k + (1 + (w - k - 1))) at 1 by lia. rewrite !popcount_split by lia.
  rewrite Z.shiftr_shiftr by lia. assert (popcount 1 (Z.shiftr n k) = Z.b2z (Z.testbit n k)) as ->; [|lia].
  unfold popcount. change (seqZ 0 1) with [0]. unfold sum. cbn [map foldr]. rewrite Z.shiftr_spec by lia.
  rewrite !Z.add_0_l. lia.
Qed.

Lemma popcount_set w k n m : 0 <= k < w -> (∀ j, 0 <= j -> Z.testbit m j = Z.testbit n j || (j =? k)) ->
  popcount w m = popcount w n + Z.b2z (negb (Z.testbit n k)).
Proof.
  intros Hk H. rewrite !(popcount_bit w k) by lia.
  rewrite (popcount_ext k m n), (popcount_ext (w - k - 1) (Z.shiftr m _) (Z.shiftr n (k + 1))).
  - rewrite H, Z.eqb_refl, orb_true_r by lia. destruct (Z.testbit n k); simpl; lia.
  - intros j Hj. rewrite !Z.shiftr_spec, H, (proj2 (Z.eqb_neq _ _)), orb_false_r by lia. done.
  - intros j Hj. rewrite H, (proj2 (Z.eqb_neq _ _)), orb_false_r by lia. done.
Qed.

Lemma sum_insert (f : Z -> Z) l i w x : l !! i = Some w -> sum (map f (<[i := x]> l)) = sum (map f l) - f w + f x.
Proof.
  revert i. induction l as [|y l IH]; intros i Hi; [done|]. destruct i as [|i]; simpl in Hi.
  - injection Hi as ->. cbn [insert list_insert map]. unfold sum. cbn [foldr]. lia.
  - specialize (IH i Hi). change (<[S i := x]> (y :: l)) with (y :: <[i := x]> l). unfold sum in *. cbn [map foldr]. lia.
Qed.

Lemma Set_ok m r : dm_ok m -> 0 <= r < m_uRows m ->
  ∃ m', Set_ r m = Some (negb (dead m r), m') /\ dm_ok m' /\ m_uRows m' = m_uRows m /\
    (∀ j, 0 <= j -> dead m' j = dead m j || (j =? r)) /\ num_dead m' = num_dead m + Z.b2z (negb (dead m r)).
Proof.
  intros Hm Hr. pose proof (dm_rows m Hm). destruct (row_word m r Hm Hr) as [w Ew].
  assert (in_type DWORD w) as Hw by (eapply Forall_lookup_1; [apply Hm|done]).
  pose proof (Z.mod_pos_bound r 32 ltac:(lia)) as Hk.
  destruct (lor_sets w (r mod 32) Hw Hk) as [L1 L2].
  unfold Set_. rewrite (proj2 (Z.eqb_neq r INVALID_ROWID)) by (unfold INVALID_ROWID; lia).
  rewrite Z.shiftr_div_pow2 by lia. change (2 ^ 5) with 32. rewrite Ew, land_31. cbn [mbind option_bind]. cbv zeta.
  assert ((Z.land w (Z.shiftl 1 (r mod 32)) =? 0) = negb (dead m r)) as ->.
  { rewrite <- (negb_involutive (_ =? 0)), test_land by lia. unfold bit. change (SIZEBITS DWORD) with 32. by rewrite Ew. }
  assert (dead m r = Z.testbit w (r mod 32)) as Ed by (unfold bit; change (SIZEBITS DWORD) with 32; by rewrite Ew).
  set (m' := DeadRowMap _ _ _ _). exists m'. split; [done|].
  assert (∀ j, 0 <= j -> dead m' j = dead m j || (j =? r)) as Hd.
  { intros j Hj. unfold bit. cbn [m_dData m']. change (SIZEBITS DWORD) with 32. pose proof (Z.div_pos j 32). pose proof (Z.div_pos r 32).
    pose proof (Z.div_mod j 32). pose proof (Z.div_mod r 32).
    destruct (decide (j / 32 = r / 32)) as [E|N].
    - rewrite E, list_lookup_insert_eq by (eapply lookup_lt_Some; done). rewrite Ew, L2 by (apply Z.mod_pos_bound; lia).
      f_equal. destruct (Z.eqb_spec (j mod 32) (r mod 32)), (Z.eqb_spec j r); try done; exfalso; [lia|congruence].
    - rewrite list_lookup_insert_ne by lia. destruct (Z.eqb_spec j r) as [->|]; [done|]. by rewrite orb_false_r. }
  assert (num_dead m' = num_dead m + Z.b2z (negb (dead m r))) as Hn.
  { unfold num_dead. cbn [m_dData m']. rewrite (sum_insert _ _ _ w) by done. rewrite (popcount_set 32 (r mod 32) w _ Hk L2).
    rewrite Ed. lia. }
  split; [|split; [done|split; done]]. split; try done.
  - cbn [m_dData m']. apply Forall_insert; [apply Hm|done].
  - cbn [m_dData m' m_uRows]. rewrite length_insert. apply Hm.
  - intros j Hj. cbn [m_uRows m'] in Hj. rewrite Hd, (dm_tail m Hm) by lia. rewrite orb_false_l. apply Z.eqb_neq. lia.
  - cbn [m_bHaveDead m']. intros [H1 H2]%orb_false_iff j Hj. rewrite Hd, (dm_have m Hm H1) by lia. rewrite orb_false_l.
    apply Z.eqb_neq. intros ->. apply negb_false_iff in H2. by rewrite (dm_have m Hm H1) in H2 by lia.
  - rewrite Hn. cbn [m_iNumDeads m']. pose proof (dm_num m Hm) as [E|E].
    + left. rewrite E, andb_false_r. done.
    + right. assert (0 <= num_dead m) by (unfold num_dead; apply sum_nonneg, Forall_map, Forall_true; intros; apply popcount_range).
      rewrite E, Z.geb_leb, (proj2 (Z.leb_le 0 _)), andb_true_r by lia. destruct (dead m r); simpl; lia.
Qed.

(** ** Counting *)

Lemma num_dead_range m : dm_ok m -> 0 <= num_dead m < 2 ^ 32.
Proof.
  intros Hm. pose proof (dm_rows m Hm). pose proof (dm_length m Hm) as L. unfold num_dead. split.
  - apply sum_nonneg, Forall_map, Forall_true. intros. apply popcount_range.
  - assert (∀ l, sum (map (popcount 32) l) <= 32 * Z.of_nat (length l)) as B.
    { intros l. unfold sum. induction l as [|w l IH]; [done|]. cbn [map foldr length]. pose proof (popcount_range 32 w). lia. }
    specialize (B (m_dData m)). pose proof (Z.div_mod (m_uRows m + 31) 32 ltac:(lia)).
    pose proof (Z.mod_pos_bound (m_uRows m + 31) 32 ltac:(lia)). lia.
Qed.

Lemma CountBits_mod l acc : fold_left (λ U uData, cast DWORD (U + popcount 32 uData)) l (cast DWORD acc) = cast DWORD (acc + sum (map (popcount 32) l)).
Proof.
  revert acc. induction l as [|w l IH]; intros acc; cbn [fold_left map]; [unfold sum; cbn [foldr]; by rewrite Z.add_0_r|].
  assert (cast DWORD (cast DWORD acc + popcount 32 w) = cast DWORD (acc + popcount 32 w)) as ->.
  { apply cast_eq. rewrite Zplus_mod, cast_cong, <- Zplus_mod. done. }
  rewrite IH. unfold sum. cbn [foldr]. f_equal. lia.
Qed.

Lemma CountBits_ok m : dm_ok m -> CountBits (m_dData m) = num_dead m.
Proof.
  intros Hm. unfold CountBits. change 0 with (cast DWORD 0) at 1. rewrite CountBits_mod, Z.add_0_l.
  apply cast_id; [done|]. by apply num_dead_range.
Qed.

Lemma zero_words l : Forall (in_type DWORD) l -> (∀ r, 0 <= r -> bit DWORD l r = false) -> Forall (λ w, w = 0) l.
Proof.
  intros Hl H. apply Forall_lookup. intros i w Hi. apply Z.bits_inj'. intros j Hj. rewrite Z.bits_0.
  destruct (Z.lt_ge_cases j 32).
  - specialize (H (Z.of_nat i * 32 + j) ltac:(lia)). change 32 with (SIZEBITS DWORD) in H.
    by rewrite (bit_word DWORD dword_W l (Z.of_nat i) j w) in H by (rewrite ?Nat2Z.id; done || (change (SIZEBITS DWORD) with 32; lia)).
  - apply (high_bits DWORD dword_W); [eapply Forall_lookup_1; done|change (SIZEBITS DWORD) with 32; lia].
Qed.

Lemma zero_sum l : Forall (λ w, w = 0) l -> sum (map (popcount 32) l) = 0.
Proof. induction 1 as [|w l -> _ IH]; [done|]. unfold sum in *. cbn [map foldr]. rewrite IH. done. Qed.

Lemma GetNumDeads_ok m : dm_ok m -> (GetNumDeads m).1 = num_dead m /\ dm_ok (GetNumDeads m).2 /\
  (GetNumDeads m).2 = DeadRowMap (m_bHaveDead m) (num_dead m) (m_uRows m) (m_dData m).
Proof.
  intros Hm. pose proof (num_dead_range m Hm) as Hr.
  assert ((if m_iNumDeads m <? 0 then if m_bHaveDead m then CountBits (m_dData m) else 0 else m_iNumDeads m) = num_dead m) as E.
  { destruct (Z.ltb_spec (m_iNumDeads m) 0).
    - destruct (m_bHaveDead m) eqn:Eh; [by apply CountBits_ok|]. symmetry. apply zero_sum, zero_words; [apply Hm|]. by apply (dm_have m Hm).
    - destruct (dm_num m Hm); lia. }
  unfold GetNumDeads. rewrite E. cbn [fst snd]. split; [|split; [|done]].
  - apply cast_id; [done|]. exact Hr.
  - destruct Hm. split; try done. by right.
Qed.

Lemma GetNumAlive_ok m : dm_ok m -> num_dead m <= m_uRows m -> (GetNumAlive m).1 = m_uRows m - num_dead m.
Proof.
  intros Hm Hle. pose proof (GetNumDeads_ok m Hm) as (E1 & _ & E2). unfold GetNumAlive. destruct (GetNumDeads m) as [n m'].
  cbn [fst snd] in *. subst. cbn [m_uRows fst]. pose proof (num_dead_range m Hm). pose proof (dm_rows m Hm).
  apply cast_id; [done|]. unfold in_type. cbn [is_signed DWORD bits]. lia.
Qed.

Lemma bit_nil r : bit DWORD [] r = false.
Proof. done. Qed.

Lemma bit_zeros n r : 0 <= r -> bit DWORD (replicate n 0) r = false.
Proof.
  intros Hr. unfold bit. destruct (replicate n 0 !! _) as [w|] eqn:E; [|done].
  apply lookup_replicate in E as [-> _]. apply Z.bits_0.
Qed.

Lemma Reset_ok n : 0 <= n < 2 ^ 32 - 32 -> dm_ok (Reset n) /\ num_dead (Reset n) = 0.
Proof.
  intros Hn. assert (cast DWORD (n + 31) = n + 31) as Ec.
  { apply cast_id; [done|]. unfold in_type. cbn [is_signed DWORD bits]. lia. }
  pose proof (Z.div_pos (n + 31) 32). unfold Reset. rewrite Ec.
  assert (num_dead (DeadRowMap false 0 n (replicate (Z.to_nat ((n + 31) / 32)) 0)) = 0) as E0
    by (apply zero_sum, Forall_replicate; done).
  split; [|done]. split; cbn [m_uRows m_dData m_bHaveDead m_iNumDeads]; try done.
  - apply Forall_replicate. unfold in_type. simpl. lia.
  - rewrite length_replicate. lia.
  - intros r Hr. apply bit_zeros. lia.
  - intros _ r Hr. by apply bit_zeros.
  - right. by rewrite E0.
Qed.

Fixpoint set_rows (rows : list Z) (m : DeadRowMap_c) : option DeadRowMap_c :=
  match rows with [] => Some m | r :: rows' => '(_, m) ← Set_ r m; set_rows rows' m end.

(** The rows of a map as a finite set. *)
Definition stands_for (m : DeadRowMap_c) (D : gset Z) : Prop :=
  dm_ok m /\ (∀ r, 0 <= r -> dead m r = bool_decide (r ∈ D)) /\ num_dead m = Z.of_nat (size D).

Lemma set_stands m D r : stands_for m D -> 0 <= r < m_uRows m ->
  ∃ m', Set_ r m = Some (bool_decide (r ∉ D), m') /\ stands_for m' ({[r]} ∪ D) /\ m_uRows m' = m_uRows m.
Proof.
  intros (Hm & Hd & Hn) Hr. destruct (Set_ok m r Hm Hr) as (m' & E & Hm' & Er & Hd' & Hn').
  rewrite Hd in E, Hn' by lia. exists m'. split; [|split; [|done]].
  - rewrite E. do 2 f_equal. destruct (decide (r ∈ D)); [by rewrite bool_decide_true, bool_decide_false by tauto|].
    by rewrite bool_decide_false, bool_decide_true by tauto.
  - split; [done|]. split.
    + intros j Hj. rewrite Hd', Hd by lia. destruct (Z.eqb_spec j r) as [->|]; [|rewrite orb_false_r; apply bool_decide_ext; set_solver].
      rewrite orb_true_r. symmetry. apply bool_decide_true. set_solver.
    + rewrite Hn', Hn. destruct (decide (r ∈ D)) as [Hi|Hi].
      * rewrite bool_decide_true by done. assert ({[r]} ∪ D = D) as -> by set_solver. simpl. lia.
      * rewrite bool_decide_false by done. rewrite size_union by set_solver. rewrite size_singleton. simpl. lia.
Qed.

Lemma set_rows_stands rows m D : stands_for m D -> Forall (λ r, 0 <= r < m_uRows m) rows ->
  ∃ m', set_rows rows m = Some m' /\ stands_for m' (list_to_set rows ∪ D) /\ m_uRows m' = m_uRows m.
Proof.
  revert m D. induction rows as [|r rows IH]; intros m D Hs Hr; cbn [set_rows].
  { exists m. split; [done|]. split; [|done]. by rewrite list_to_set_nil, union_empty_l_L. }
  apply Forall_cons in Hr as [H1 H2]. destruct (set_stands m D r Hs H1) as (m1 & -> & S1 & E1). cbn [mbind option_bind].
  destruct (IH m1 _ S1) as (m' & E & S' & E'); [by rewrite E1|]. exists m'. split; [done|]. split; [|lia].
  rewrite list_to_set_cons. by rewrite (union_comm_L {[r]}), <- union_assoc_L.
Qed.

Lemma fresh_stands n : 0 <= n < 2 ^ 32 - 32 -> stands_for (Reset n) ∅.
Proof.
  intros Hn. destruct (Reset_ok n Hn) as [H1 H2]. split; [done|]. split; [|by rewrite H2, size_empty].
  intros r Hr. rewrite bool_decide_false by set_solver. by apply (dm_have _ H1).
Qed.

Lemma rows_size n (rows : list Z) : 0 <= n -> Forall (λ r, 0 <= r < n) rows -> Z.of_nat (size (list_to_set rows : gset Z)) <= n.
Proof.
  intros Hn Hr. assert (size (list_to_set rows : gset Z) <= size (list_to_set (seqZ 0 n) : gset Z))%nat as Hs.
  { apply subseteq_size. intros r. rewrite !elem_of_list_to_set, elem_of_seqZ. rewrite Forall_forall in Hr. intros H. specialize (Hr _ H). lia. }
  rewrite (size_list_to_set (seqZ 0 n)) in Hs by apply NoDup_seqZ. rewrite length_seqZ in Hs. lia.
Qed.

(** A dead row map is the set of the rows that were deleted: after
    [Reset], and [Set] of any rows in any order, no access leaves the words,
    [IsSet] answers membership, and [GetNumDeads] and [GetNumAlive] return the
    number of different deleted rows and of the others. *)
Theorem dead_map_is_set n rows :
  0 <= n < 2 ^ 32 - 32 -> Forall (λ r, 0 <= r < n) rows ->
  ∃ m, set_rows rows (Reset n) = Some m /\
    (∀ r, 0 <= r < n -> IsSet r m = Some (bool_decide (r ∈ rows))) /\
    (GetNumDeads m).1 = Z.of_nat (size (list_to_set rows : gset Z)) /\
    (GetNumAlive m).1 = n - Z.of_nat (size (list_to_set rows : gset Z)).
Proof.
  intros Hn Hr. destruct (set_rows_stands rows (Reset n) ∅ (fresh_stands n Hn) Hr) as (m & E & (Hm & Hd & Hc) & Er).
  rewrite union_empty_r_L in *. change (m_uRows (Reset n)) with n in Er. exists m. split; [done|].
  pose proof (rows_size n rows ltac:(lia) Hr). split; [|split].
  - intros r H1. rewrite IsSet_ok, Hd by (done || lia). f_equal. apply bool_decide_ext. by rewrite elem_of_list_to_set.
  - by rewrite <- Hc; apply GetNumDeads_ok.
  - rewrite <- Hc, <- Er. apply GetNumAlive_ok; [done|lia].
Qed.

Lemma dead_map_is_set_witness :
  ∃ m, set_rows [40; 3; 40; 99] (Reset 100) = Some m /\
    (∀ r, 0 <= r < 100 -> IsSet r m = Some (bool_decide (r ∈ [40; 3; 40; 99]))) /\
    (GetNumDeads m).1 = Z.of_nat (size (list_to_set [40; 3; 40; 99] : gset Z)) /\
    (GetNumAlive m).1 = 100 - Z.of_nat (size (list_to_set [40; 3; 40; 99] : gset Z)).
Proof. apply (dead_map_is_set 100 [40; 3; 40; 99]); [lia|]. repeat constructor; lia. Defined.

(** ** Saving and loading *)

Lemma le_value_le_bytes w : in_type DWORD w -> le_value (le_bytes 4 w) = w.
Proof. intros Hw. rewrite le_value_bytes. apply Z.mod_small. exact Hw. Qed.

Lemma to_words_saved l rest : Forall (in_type DWORD) l -> to_words (length l) (concat (map (le_bytes 4) l) ++ rest) = l.
Proof.
  induction 1 as [|w l Hw Hl IH]; [done|]. cbn [length to_words map concat]. rewrite <- app_assoc.
  pose proof (le_bytes_length 4 w) as L. rewrite take_app_le, take_ge, drop_app_ge, L, drop_0 by lia.
  by rewrite IH, le_value_le_bytes.
Qed.

Lemma check_loop_ok l b prev :
  let '(h, last, at_end) := check_loop b prev l in
  (h = b || existsb (λ w, negb (w =? 0)) l) /\
  (b = false -> h = true -> at_end = true -> popcount 32 last = sum (map (popcount 32) l)) /\
  (l <> [] -> b = true -> at_end = false).
Proof.
  revert b prev. induction l as [|w l IH]; intros b prev; cbn [check_loop existsb].
  - rewrite orb_false_r. split; [done|]. split; [congruence|done].
  - destruct b; [split; [done|]; split; [congruence|done]|]. specialize (IH (negb (w =? 0)) w).
    destruct (check_loop _ w l) as [[h last] at_end] eqn:E. destruct IH as (H1 & H2 & H3). split; [done|]. split; [|done].
    intros _ Hh He. destruct (Z.eqb_spec w 0) as [->|N]; cbn [negb] in *.
    + rewrite H2 by done. unfold sum. cbn [map foldr]. change (popcount 32 0) with 0. lia.
    + destruct l as [|x l]; [|rewrite H3 in He by done; done]. cbn [check_loop] in E. injection E as <- <- <-.
      unfold sum. cbn [map foldr]. lia.
Qed.

Lemma CheckForDead_ok n l k :
  0 <= n < 2 ^ 32 - 32 -> Forall (in_type DWORD) l -> Z.of_nat (length l) = (n + 31) / 32 ->
  (∀ r, n <= r -> bit DWORD l r = false) -> dm_ok (CheckForDead (DeadRowMap k (-1) n l)).
Proof.
  intros Hn Hw Hl Ht. unfold CheckForDead. cbn [m_dData m_uRows m_iNumDeads]. pose proof (check_loop_ok l false 0) as C.
  destruct (check_loop false 0 l) as [[h last] at_end]. cbn [orb] in C. destruct C as (H1 & H2 & _).
  assert (h = false -> Forall (λ w, w = 0) l) as Hz.
  { intros E. rewrite H1 in E. clear -E. induction l as [|w l IH]; [constructor|]. cbn [existsb] in E.
    apply orb_false_iff in E as [E1 E2]. apply negb_false_iff, Z.eqb_eq in E1. constructor; auto. }
  split; cbn [m_bHaveDead m_iNumDeads m_uRows m_dData]; try done.
  - intros E r Hr. unfold bit. destruct (l !! _) as [w|] eqn:Ew; [|done]. specialize (Hz E).
    rewrite (Forall_lookup_1 _ _ _ _ Hz Ew). apply Z.bits_0.
  - unfold num_dead. cbn [m_dData]. destruct h; cbn [negb].
    + destruct at_end; [|by left]. right. by apply H2.
    + right. symmetry. by apply zero_sum, Hz.
Qed.

(** The bytes [Save] writes. *)
Definition saved (m : DeadRowMap_c) : list Z := concat (map (le_bytes 4) (m_dData m)).

Lemma Load_saved m : dm_ok m -> m_dData (Load (m_uRows m) (saved m)) = m_dData m /\ dm_ok (Load (m_uRows m) (saved m)).
Proof.
  intros Hm. pose proof (dm_rows m Hm). assert (cast DWORD (m_uRows m + 31) = m_uRows m + 31) as Ec.
  { apply cast_id; [done|]. unfold in_type. cbn [is_signed DWORD bits]. lia. }
  pose proof (dm_length m Hm) as L. unfold Load, saved. rewrite Ec, <- L, Nat2Z.id.
  pose proof (to_words_saved (m_dData m) [] (dm_words m Hm)) as E. rewrite app_nil_r in E. rewrite E. split.
  - unfold CheckForDead. by destruct (check_loop _ _ _) as [[? ?] ?].
  - by apply CheckForDead_ok; apply Hm.
Qed.

(** What [Save] writes, [Load] reads back: the file that a writer closes
    without an error after [Save] loads as a map with the same rows deleted and
    the same counts. *)
Theorem dead_map_roundtrip m iBufferSize io :
  dm_ok m -> 0 < iBufferSize ->
  let w := CloseFile false (Save m (OpenFile iBufferSize io)) in
  m_bError w = false ->
  let m' := Load (m_uRows m) (w_disk w) in
  (∀ r, 0 <= r < m_uRows m -> IsSet r m' = IsSet r m) /\ (GetNumDeads m').1 = (GetNumDeads m).1 /\ m_uRows m' = m_uRows m.
Proof.
  intros Hm Hb w He m'. assert (holds (OpenFile iBufferSize io) [] (length (@nil Z))) as H0.
  { split; [done|]. intros _. split; [|done]. split; simpl; lia. }
  pose proof (put_end_holds (saved m) _ _ H0) as H1.
  assert (w_disk w = saved m) as E by exact (CloseFile_ok _ _ _ H1 He).
  unfold m'. rewrite E. destruct (Load_saved m Hm) as [L1 L2].
  assert (m_uRows (Load (m_uRows m) (saved m)) = m_uRows m) as Er
    by (unfold Load, CheckForDead; cbn [m_dData]; by destruct (check_loop _ _ _) as [[? ?] ?]).
  split; [|split; [|done]].
  - intros r Hr. rewrite !IsSet_ok by (done || lia). by rewrite L1.
  - destruct (GetNumDeads_ok m Hm) as [-> _]. destruct (GetNumDeads_ok _ L2) as [-> _]. unfold num_dead. by rewrite L1.
Qed.

Lemma dead_map_roundtrip_witness :
  ∃ m, set_rows [40; 3; 99] (Reset 100) = Some m /\
  let w := CloseFile false (Save m (OpenFile 5 [])) in
  m_bError w = false /\
  let m' := Load (m_uRows m) (w_disk w) in
  (∀ r, 0 <= r < m_uRows m -> IsSet r m' = IsSet r m) /\ (GetNumDeads m').1 = (GetNumDeads m).1 /\ m_uRows m' = m_uRows m.
Proof.
  destruct (set_rows_stands [40; 3; 99] (Reset 100) ∅ (fresh_stands 100 ltac:(lia))) as (m & E & S & _).
  { repeat constructor; cbn; lia. }
  exists m. split; [done|]. intros w.
  assert (m_bError w = false) as He by (injection E as <-; vm_compute; reflexivity).
  split; [done|]. apply (dead_map_roundtrip m 5 [] (proj1 S)); [lia|done].
Defined.

(** The tail of a loaded map is not cleared: [Load] sets the last word to
    zero "to ensure tail bits after the end are zeroed" and then reads over it,
    so a file with a bit set after the last row gives a map that counts a dead
    row although no row is dead: of one row, alive, none is counted alive. *)
Theorem load_keeps_tail :
  let m := Load 1 [2; 0; 0; 0] in
  IsSet 0 m = Some false /\ (GetNumDeads m).1 = 1 /\ (GetNumAlive m).1 = 0.
Proof. vm_compute. done. Qed.

(** ** New files *)

Lemma put_zeros n w f b : holds_from w f (length f) b ->
  holds_from (Nat.iter n (PutDword 0) w) (f ++ concat (replicate n (le_bytes 4 0))) (length (f ++ concat (replicate n (le_bytes 4 0)))) b.
Proof.
  intros H. induction n as [|n IH]; [by rewrite app_nil_r|]. cbn [Nat.iter].
  pose proof (dword_end 0 _ _ _ IH) as G. rewrite <- app_assoc in G.
  rewrite replicate_S_end, concat_app. cbn [concat]. rewrite app_nil_r. exact G.
Qed.

(** The file [WriteDeadRowMap] writes is that of a fresh map. *)
Lemma WriteDeadRowMap_ok iBufferSize io n :
  0 < iBufferSize -> 0 <= n < 2 ^ 32 - 32 ->
  let '(ok, w) := WriteDeadRowMap iBufferSize io n in ok = true -> w_disk w = saved (Reset n).
Proof.
  intros Hb Hn. unfold WriteDeadRowMap. set (k := cast int32_t _).
  assert (cast DWORD (n + 31) = n + 31) as Ec.
  { apply cast_id; [done|]. unfold in_type. cbn [is_signed DWORD bits]. lia. }
  assert (k = (n + 31) / 32) as Ek.
  { unfold k. rewrite Ec. apply cast_id; [done|]. pose proof (Z.div_pos (n + 31) 32). unfold in_type. cbn [is_signed int32_t bits].
    pose proof (Z.div_lt_upper_bound (n + 31) 32 (2 ^ 31)). lia. }
  assert (holds_from (OpenFile iBufferSize io) [] (length (@nil Z)) 0) as H0.
  { split; [|done]. split; [done|]. intros _. split; [|done]. split; simpl; lia. }
  pose proof (proj1 (put_zeros (Z.to_nat k) _ _ _ H0)) as H1. intros E. apply negb_true_iff in E.
  rewrite (CloseFile_ok _ _ _ H1 E). cbn [app]. unfold saved, Reset. cbn [m_dData]. rewrite Ec, Ek.
  f_equal. generalize (Z.to_nat ((n + 31) / 32)). intros q. induction q as [|q IH]; [done|].
  cbn [replicate map]. by rewrite IH.
Qed.
End DeadMap.
