(* ===== verification/KillList.v ===== *)
(** * Killing documents by id

    [Intersect], [ProcessIntersected], [KillByLookup] and [DocidListReader_c] of
    src/src/killlist.h.

    [Intersect] is a template over two readers. What it needs of them is the
    interface of this file (classes [TargetReader] and [KillerReader] with their
    laws); the lookup iterator and the list readers implement it. *)

From stdpp Require Import gmap sorting.
From S2P Require Import Prelude Span FileIO BitCount BitVec SearchNode DocidLookup DocidLookupOk DeadMap.
Import Span FileIO BitCount BitVec SearchNode DocidLookup DocidLookupOk DocidLookupWrite DeadMap.

Module KillList.

(** ** The readers *)

Class TargetReader (R : Type) := {
  t_Read : R -> option (option DocidRowidPair_t * R);
  t_HintDocID : Z -> R -> option R
}.

Class KillerReader (R : Type) := {
  k_ReadDocID : R -> option (option Z * R);
  k_HintDocID : Z -> R -> option R
}.

Abbreviation uid p := (u64 (m_tDocID p)).

(** A target stands before a list of pairs; a hint drops only smaller ids. *)
Class TargetLaws {R} `{TargetReader R} (stands : R -> list DocidRowidPair_t -> Prop) := {
  t_read_ok r l : stands r l -> ∃ r', t_Read r = Some (head l, r') /\ stands r' (tail l);
  t_hint_ok d r l : stands r l ->
    ∃ r' skipped l', t_HintDocID d r = Some r' /\ l = skipped ++ l' /\ Forall (λ p, uid p < u64 d) skipped /\ stands r' l'
}.

(** A killer stands before a list of elements with an id; [last] is the element
    it has read last. *)
Class KillerLaws {R E} `{KillerReader R} (kid : E -> Z) (stands : R -> list E -> Prop) (last : R -> E -> Prop) := {
  k_read_ok r l : stands r l ->
    ∃ r', k_ReadDocID r = Some (kid <$> head l, r') /\ stands r' (tail l) /\ (∀ e, head l = Some e -> last r' e);
  k_hint_ok d r l : stands r l ->
    ∃ r' skipped l', k_HintDocID d r = Some r' /\ l = skipped ++ l' /\ Forall (λ e, u64 (kid e) < u64 d) skipped /\ stands r' l'
}.

(** ** The intersection *)

Section Intersect.
Context {R1 R2 S : Type} `{TargetReader R1} `{KillerReader R2}.
Variable fnFunctor : Z -> Z -> R2 -> S -> option S.

(** The [while] loop; [None] when the fuel is used up or a read fails. *)
Fixpoint intersect_loop (fuel : nat) (h1 : option DocidRowidPair_t) (h2 : option Z) (r1 : R1) (r2 : R2) (st : S)
    : option (R1 * R2 * S) :=
  match fuel with
  | O => None
  | Datatypes.S fuel' =>
      match h1, h2 with
      | Some (DocidRowidPair tDocID1 tRowID1), Some tDocID2 =>
          if u64 tDocID1 <? u64 tDocID2 then
            r1 ← t_HintDocID tDocID2 r1;
            '(h1, r1) ← t_Read r1;
            intersect_loop fuel' h1 h2 r1 r2 st
          else if u64 tDocID1 >? u64 tDocID2 then
            r2 ← k_HintDocID tDocID1 r2;
            '(h2, r2) ← k_ReadDocID r2;
            intersect_loop fuel' h1 h2 r1 r2 st
          else
            st ← fnFunctor tRowID1 tDocID1 r2 st;
            '(h1, r1) ← t_Read r1;
            '(h2, r2) ← k_ReadDocID r2;
            intersect_loop fuel' h1 h2 r1 r2 st
      | _, _ => Some (r1, r2, st)
      end
  end.

Definition Intersect (fuel : nat) (tReader1 : R1) (tReader2 : R2) (st : S) : option S :=
  '(h1, r1) ← t_Read tReader1;
  '(h2, r2) ← k_ReadDocID tReader2;
  '(_, _, st) ← intersect_loop fuel h1 h2 r1 r2 st;
  Some st.
End Intersect.

(** The pairs of the target with the first element of the killer that has the
    same id. *)
Section Joined.
Context {E : Type} (kid : E -> Z).

Fixpoint first_with (d : Z) (l : list E) : option E :=
  match l with [] => None | e :: l' => if u64 (kid e) =? u64 d then Some e else first_with d l' end.

Fixpoint joined (l1 : list DocidRowidPair_t) (l2 : list E) : list (DocidRowidPair_t * E) :=
  match l1 with
  | [] => []
  | p :: l1' => match first_with (m_tDocID p) l2 with Some e => (p, e) :: joined l1' l2 | None => joined l1' l2 end
  end.

Definition ascending (l : list DocidRowidPair_t) : Prop := StronglySorted (λ p q, uid p < uid q) l.
Definition ascending_ids (l : list E) : Prop := StronglySorted (λ d e, u64 (kid d) <= u64 (kid e)) l.

Lemma first_with_none d l : Forall (λ e, u64 (kid e) <> u64 d) l -> first_with d l = None.
Proof. induction 1 as [|e l He Hl IH]; [done|]. cbn [first_with]. by rewrite (proj2 (Z.eqb_neq _ _) He). Qed.

Lemma first_with_skip d l1 l2 : Forall (λ e, u64 (kid e) <> u64 d) l1 -> first_with d (l1 ++ l2) = first_with d l2.
Proof. induction 1 as [|e l He Hl IH]; [done|]. cbn [app first_with]. by rewrite (proj2 (Z.eqb_neq _ _) He). Qed.

Lemma joined_skip_target sk l1 l2 : Forall (λ p, Forall (λ e, u64 (kid e) <> uid p) l2) sk -> joined (sk ++ l1) l2 = joined l1 l2.
Proof. induction 1 as [|p sk Hp Hs IH]; [done|]. cbn [app joined]. by rewrite first_with_none. Qed.

Lemma joined_skip_killer sk l1 l2 : Forall (λ p, Forall (λ e, u64 (kid e) <> uid p) sk) l1 -> joined l1 (sk ++ l2) = joined l1 l2.
Proof. induction 1 as [|p l1 Hp Hs IH]; [done|]. cbn [joined]. rewrite first_with_skip by done. by rewrite IH. Qed.

Lemma joined_nil l1 : joined l1 [] = [].
Proof. by induction l1. Qed.
End Joined.

(** Checking the orders. *)
Fixpoint chain {A} (f : A -> A -> bool) (l : list A) : bool :=
  match l with a :: ((b :: _) as l') => f a b && chain f l' | _ => true end.

Lemma chain_sorted {A} (f : A -> A -> bool) (R : relation A) l :
  (∀ a b, f a b = true -> R a b) -> (∀ a b c, R a b -> R b c -> R a c) -> chain f l = true -> StronglySorted R l.
Proof.
  intros Hf Ht Hc. apply Sorted_StronglySorted; [exact Ht|]. induction l as [|a [|b l] IH]; [constructor|by constructor|].
  cbn [chain] in Hc. apply andb_true_iff in Hc as [H1 H2]. constructor; [by apply IH|]. constructor. by apply Hf.
Qed.

Lemma ascending_chain l : chain (λ p q, uid p <? uid q) l = true -> ascending l.
Proof. apply chain_sorted; intros *; lia. Qed.

Lemma ascending_ids_chain l : chain (λ d e, u64 d <=? u64 e) l = true -> ascending_ids (λ d : Z, d) l.
Proof. apply chain_sorted; intros *; lia. Qed.

Fixpoint foldM {A S} (f : A -> S -> option S) (l : list A) (st : S) : option S :=
  match l with [] => Some st | a :: l' => st ← f a st; foldM f l' st end.

Lemma sorted_suffix {A} (R : relation A) l1 l2 : StronglySorted R (l1 ++ l2) -> StronglySorted R l2.
Proof. induction l1 as [|a l1 IH]; [done|]. inversion 1; subst. auto. Qed.

Section IntersectOk.
Context {R1 R2 E S : Type} `{TargetReader R1} `{KillerReader R2} (kid : E -> Z).
Context (st1 : R1 -> list DocidRowidPair_t -> Prop) (st2 : R2 -> list E -> Prop) (last : R2 -> E -> Prop).
Context {L1 : TargetLaws st1} {L2 : KillerLaws kid st2 last}.
Variable fnFunctor : Z -> Z -> R2 -> S -> option S.
Variable g : DocidRowidPair_t * E -> S -> option S.
Hypothesis Hg : ∀ p e r2 st, last r2 e -> fnFunctor (m_tRowID p) (m_tDocID p) r2 st = g (p, e) st.

(** The loop calls the functor for exactly the common ids, in order. *)
Lemma intersect_loop_ok fuel l1 l2 r1 r2 st :
  (length l1 + length l2 < fuel)%nat -> ascending l1 -> ascending_ids kid l2 ->
  st1 r1 (tail l1) -> st2 r2 (tail l2) -> (∀ e, head l2 = Some e -> last r2 e) ->
  (λ x, x.2) <$> intersect_loop fnFunctor fuel (head l1) (kid <$> head l2) r1 r2 st = foldM g (joined kid l1 l2) st.
Proof.
  revert l1 l2 r1 r2 st. induction fuel as [|fuel IH]; intros l1 l2 r1 r2 st Hf A1 A2 S1 S2 Hl; [lia|].
  cbn [intersect_loop]. destruct l1 as [|p l1]; [done|]. cbn [head]. destruct l2 as [|e l2].
  { cbn [head fmap option_fmap option_map]. rewrite joined_nil. by destruct p. }
  cbn [head tail fmap option_fmap option_map length] in *. destruct p as [d r].
  inversion A1 as [|? ? A1' F1]; subst. inversion A2 as [|? ? A2' F2]; subst.
  destruct (Z.ltb_spec (u64 d) (u64 (kid e))) as [Hlt|Hge].
  - destruct (t_hint_ok (kid e) r1 l1 S1) as (r1' & sk & l1' & -> & -> & Hsk & S1'). cbn [mbind option_bind].
    destruct (t_read_ok r1' l1' S1') as (r1'' & -> & S1''). cbn [mbind option_bind].
    change (Some (kid e)) with (kid <$> head (e :: l2)).
    rewrite IH; [| |eapply sorted_suffix; done|done|done|done|done].
    2:{ rewrite length_app in Hf. simpl. lia. }
    f_equal. change (DocidRowidPair d r :: sk ++ l1') with ((DocidRowidPair d r :: sk) ++ l1'). symmetry.
    apply joined_skip_target. apply Forall_cons. split; [|eapply Forall_impl; [exact Hsk|]]; cbv beta; intros;
      (apply Forall_cons; split; [simpl in *; lia|eapply Forall_impl; [exact F2|]; cbv beta; simpl in *; intros; lia]).
  - rewrite Z.gtb_ltb. destruct (Z.ltb_spec (u64 (kid e)) (u64 d)) as [Hgt|Hle].
    + destruct (k_hint_ok d r2 l2 S2) as (r2' & sk & l2' & -> & -> & Hsk & S2'). cbn [mbind option_bind].
      destruct (k_read_ok r2' l2' S2') as (r2'' & -> & S2'' & Hlast). cbn [mbind option_bind].
      change (Some (DocidRowidPair d r)) with (head (DocidRowidPair d r :: l1)).
      rewrite IH; [| |done|eapply sorted_suffix; done|done|done|done].
      2:{ rewrite length_app in Hf. simpl. lia. }
      f_equal. change (e :: sk ++ l2') with ((e :: sk) ++ l2'). symmetry. apply joined_skip_killer.
      assert (Forall (λ x, u64 (kid x) < u64 d) (e :: sk)) as Hsk' by (by constructor).
      apply Forall_cons. split; [|eapply Forall_impl; [exact F1|]]; cbv beta; intros;
        (eapply Forall_impl; [exact Hsk'|]; cbv beta; simpl in *; intros; lia).
    + assert (u64 (kid e) = u64 d) as Heq by lia. cbn [joined m_tDocID first_with]. rewrite (proj2 (Z.eqb_eq _ _) Heq). cbn [foldM].
      pose proof (Hg (DocidRowidPair d r) e r2 st (Hl e eq_refl)) as G. cbn [m_tRowID m_tDocID] in G. rewrite G. destruct (g (DocidRowidPair d r, e) st) as [st'|]; [|done].
      cbn [mbind option_bind]. destruct (t_read_ok r1 l1 S1) as (r1'' & -> & S1''). cbn [mbind option_bind].
      destruct (k_read_ok r2 l2 S2) as (r2'' & -> & S2'' & Hlast). cbn [mbind option_bind].
      rewrite IH; [|lia|done|done|done|done|done]. f_equal. symmetry.
      change (e :: l2) with ([e] ++ l2). apply joined_skip_killer. eapply Forall_impl; [exact F1|]. cbv beta. simpl in *.
      intros. apply Forall_cons. split; [lia|constructor].
Qed.

Lemma Intersect_ok fuel l1 l2 r1 r2 st :
  (length l1 + length l2 < fuel)%nat -> ascending l1 -> ascending_ids kid l2 -> st1 r1 l1 -> st2 r2 l2 ->
  Intersect fnFunctor fuel r1 r2 st = foldM g (joined kid l1 l2) st.
Proof.
  intros Hf A1 A2 S1 S2. unfold Intersect. destruct (t_read_ok r1 l1 S1) as (r1' & -> & S1'). cbn [mbind option_bind].
  destruct (k_read_ok r2 l2 S2) as (r2' & -> & S2' & Hl). cbn [mbind option_bind].
  rewrite <- (intersect_loop_ok fuel l1 l2 r1' r2' st Hf A1 A2 S1' S2' Hl).
  by destruct (intersect_loop _ _ _ _ _ _ _) as [[[? ?] ?]|].
Qed.
End IntersectOk.

(** ** The readers of ids *)

(** [DocidListReader_c]: the ids from [m_pIterator] on. *)
Record DocidListReader_c := DocidListReader { m_pIterator : list Z }.

Definition ListReadDocID (r : DocidListReader_c) : option (option Z * DocidListReader_c) :=
  match m_pIterator r with
  | [] => Some (None, r)
  | d :: l => Some (Some d, DocidListReader l)
  end.

#[export] Instance list_killer : KillerReader DocidListReader_c := {
  k_ReadDocID := ListReadDocID;
  k_HintDocID _ r := Some r
}.

#[export] Instance list_killer_laws :
  KillerLaws (R := DocidListReader_c) (λ d : Z, d) (λ r l, m_pIterator r = l) (λ _ _, True).
Proof.
  split.
  - intros r [|d l] Hs; simpl; unfold ListReadDocID; rewrite Hs; eexists; done.
  - intros d r l Hs. exists r, [], l. done.
Qed.

(** The lookup iterator as a target and as a killer. *)
Definition LookupReadDocID (it : LookupReaderIterator_c) : option (option Z * LookupReaderIterator_c) :=
  '(p, it) ← Read it; Some (option_map m_tDocID p, it).

#[export] Instance lookup_target : TargetReader LookupReaderIterator_c := {
  t_Read := Read;
  t_HintDocID := HintDocID
}.

#[export] Instance lookup_killer : KillerReader LookupReaderIterator_c := {
  k_ReadDocID := LookupReadDocID;
  k_HintDocID := HintDocID
}.

Section LookupLaws.
Context (P : Z) (data : list Z) (hdr : Z) (pairs : list DocidRowidPair_t).
Context (HP : 0 < P) (Hpairs : pairs_ok pairs) (Hspt : spt_ok P data hdr pairs) (Hne : pairs <> []).
Context (Hsize : Z.of_nat (length pairs) + P <= 2 ^ 31) (Hhdr : hdr = 16 \/ hdr = 24) (Hasc : ascending pairs).

Lemma ascending_at i j : 0 <= i < j -> j < Z.of_nat (length pairs) -> id_at pairs i < id_at pairs j.
Proof.
  intros Hi Hj.
  assert (∀ l (a b : nat), ascending l -> (a < b)%nat -> (b < length l)%nat -> nth a (ids l) 0 < nth b (ids l) 0) as G.
  { clear. intros l. induction l as [|p l IH]; intros a b A Hab Hb; [simpl in Hb; lia|]. inversion A as [|? ? A' F]; subst.
    destruct b as [|b]; [lia|]. cbn [ids map nth length] in *. destruct a as [|a]; [|apply (IH a b); [done|lia|lia]].
    rewrite Forall_forall in F.
    destruct (lookup_lt_is_Some_2 l b) as [q Hq]; [lia|]. specialize (F q). 
    assert (nth b (map (u64 ∘ m_tDocID) l) 0 = uid q) as ->; [|apply F; by eapply list_elem_of_lookup_2].
    apply nth_lookup_Some. rewrite (list_lookup_fmap (u64 ∘ m_tDocID)). by rewrite Hq. }
  unfold id_at, at_. apply G; [done|lia|lia].
Qed.

#[export] Instance lookup_target_laws : TargetLaws (it_stands P data hdr pairs).
Proof.
  split.
  - intros r l Hs. exact (Read_ok P data hdr pairs HP Hpairs Hspt Hne Hsize Hhdr r l Hs).
  - intros d r l Hs. apply (HintDocID_ok P data hdr pairs HP Hpairs Hspt Hne Hsize); [apply ascending_at|done].
Qed.

#[export] Instance lookup_killer_laws : KillerLaws m_tDocID (it_stands P data hdr pairs) (λ _ _, True).
Proof.
  split.
  - intros r l Hs. destruct (t_read_ok r l Hs) as (r' & E & S). simpl in *. exists r'. unfold LookupReadDocID. rewrite E. done.
  - intros d r l Hs. exact (t_hint_ok d r l Hs).
Qed.
End LookupLaws.

(** ** Killing *)

Section Kill.
Context {R1 R2 : Type} `{TargetReader R1} `{KillerReader R2}.

(** The functor of [ProcessIntersected] around an action. *)
Definition count_action {S} (fnAction : Z -> Z -> S -> option (bool * S)) (tRowID tDocID : Z) (_ : R2) (st : Z * S) : option (Z * S) :=
  '(b, s) ← fnAction tRowID tDocID st.2; Some (if (b : bool) then cast int32_t (st.1 + 1) else st.1, s).

Definition ProcessIntersected {S} (fuel : nat) (tReader1 : R1) (tReader2 : R2) (fnAction : Z -> Z -> S -> option (bool * S)) (s : S)
    : option (Z * S) :=
  Intersect (count_action fnAction) fuel tReader1 tReader2 (0, s).

Definition KillByLookup (fuel : nat) (tTargetReader : R1) (tKillerReader : R2) (m : DeadRowMap_c) : option (Z * DeadRowMap_c) :=
  ProcessIntersected fuel tTargetReader tKillerReader (λ tRowID _ m, Set_ tRowID m) m.
End Kill.

(** The rows that the pairs joined with a kill list name. *)
Definition killed {E} (kid : E -> Z) (l1 : list DocidRowidPair_t) (l2 : list E) : list Z :=
  map (λ pe, m_tRowID pe.1) (joined kid l1 l2).

Lemma joined_in {E} (kid : E -> Z) l1 l2 p : (∃ e, (p, e) ∈ joined kid l1 l2) <-> p ∈ l1 /\ Exists (λ e, u64 (kid e) = uid p) l2.
Proof.
  assert (∀ d, is_Some (first_with kid d l2) <-> Exists (λ e, u64 (kid e) = u64 d) l2) as F.
  { intros d. induction l2 as [|e l2 IH]; cbn [first_with]; [split; [by intros []|by inversion 1]|].
    rewrite Exists_cons. destruct (Z.eqb_spec (u64 (kid e)) (u64 d)); [split; [by left|done]|]. rewrite IH. naive_solver. }
  induction l1 as [|q l1 IH]; cbn [joined].
  - split; [intros [e He]; by apply not_elem_of_nil in He|intros [Hp _]; by apply not_elem_of_nil in Hp].
  - rewrite elem_of_cons. specialize (F (m_tDocID q)). destruct (first_with kid (m_tDocID q) l2) as [e|]; split.
    + intros [e' He]. apply elem_of_cons in He as [He|He]; [injection He as -> ->; split; [by left|apply F; done]|].
      destruct (proj1 IH (ex_intro _ e' He)) as [? ?]. split; [by right|done].
    + intros [[->|Hp] Hx]; [exists e; by left|]. destruct (proj2 IH (conj Hp Hx)) as [e' He]. exists e'. by right.
    + intros [e' He]. destruct (proj1 IH (ex_intro _ e' He)) as [? ?]. split; [by right|done].
    + intros [[->|Hp] Hx]; [apply F in Hx as [? ?]; done|]. by apply IH.
Qed.

Lemma joined_length {E} (kid : E -> Z) l1 l2 : (length (joined kid l1 l2) <= length l1)%nat.
Proof. induction l1 as [|p l1 IH]; [done|]. cbn [joined]. destruct (first_with _ _ _); simpl; lia. Qed.
End KillList.
