(* ===== verification/IndexKill.v ===== *)
(** * Deleting documents of a disk index

    The deletions of [CSphIndex_VLN] (src/src/sphinx.cpp): [Kill], [KillMulti],
    [CheckThenKillMulti], [KillDupes], [IsAlive] and [FindAliveUuidDocid], on
    the docid lookup file and the dead row map of the index. *)

From stdpp Require Import gmap sorting.
From S2P Require Import Prelude Span FileIO BitCount BitVec SearchNode DocidLookup DocidLookupOk DeadMap KillList.
Import Span FileIO BitCount BitVec SearchNode DocidLookup DocidLookupOk DocidLookupWrite DeadMap KillList.

Module IndexKill.

Definition ATTRS_ROWMAP_UPDATED : Z := Z.shiftl 1 2.

(** The members of the index that deletions use. [m_pKillHook] is the list of
    the ids another segment was told to kill, when one is hooked. *)
Record CSphIndex_VLN := Index {
  m_tDocidLookup : list Z;
  m_uVersion : Z;
  m_tLookupReader : LookupReader_c;
  m_tUuidLookupReader : UuidLookupReader_c;
  m_tDeadRowMap : DeadRowMap_c;
  m_uAttrsStatus : Z;
  m_pKillHook : option (list Z)
}.

Definition with_map (m : DeadRowMap_c) (hook : option (list Z)) (x : CSphIndex_VLN) : CSphIndex_VLN :=
  Index (m_tDocidLookup x) (m_uVersion x) (m_tLookupReader x) (m_tUuidLookupReader x) m (m_uAttrsStatus x) hook.

Definition rowmap_updated (x : CSphIndex_VLN) : CSphIndex_VLN :=
  Index (m_tDocidLookup x) (m_uVersion x) (m_tLookupReader x) (m_tUuidLookupReader x) (m_tDeadRowMap x)
    (Z.lor (m_uAttrsStatus x) ATTRS_ROWMAP_UPDATED) (m_pKillHook x).

Definition KillHook (tDocID : Z) (hook : option (list Z)) : option (list Z) := (λ l, l ++ [tDocID]) <$> hook.

Definition GetRowidByDocid (tDocID : Z) (x : CSphIndex_VLN) : option Z := Find (m_tLookupReader x) tDocID.

Definition Kill (tDocID : Z) (x : CSphIndex_VLN) : option (Z * CSphIndex_VLN) :=
  row ← GetRowidByDocid tDocID x;
  '(b, m) ← Set_ row (m_tDeadRowMap x);
  Some (if (b : bool)
        then (1, with_map m (KillHook tDocID (m_pKillHook x)) (rowmap_updated x))
        else (0, with_map m (m_pKillHook x) x)).

Definition IsAlive (tDocID : Z) (x : CSphIndex_VLN) : option bool :=
  tRow ← GetRowidByDocid tDocID x;
  if tRow =? INVALID_ROWID then Some false
  else b ← IsSet tRow (m_tDeadRowMap x); Some (negb b).

Definition FindAliveUuidDocid (tKey : UuidDocidKey_t) (x : CSphIndex_VLN) : option Z :=
  tDocID ← UuidFind (m_tUuidLookupReader x) tKey;
  if tDocID =? 0 then Some 0
  else b ← IsAlive tDocID x; Some (if (b : bool) then tDocID else 0).

(** The end of the bulk deletions. *)
Definition finish_kill (iTotalKilled : Z) (x : CSphIndex_VLN) : Z * CSphIndex_VLN :=
  (iTotalKilled, if iTotalKilled =? 0 then x else rowmap_updated x).

(** The loop ends after as many turns as there are ids in both readers. *)
Definition kill_fuel (x : CSphIndex_VLN) (dKlist : list Z) : nat := S (Z.to_nat (r_nDocs (m_tLookupReader x)) + length dKlist).

(** The action that tells the hook. *)
Definition hook_action (tRow tDoc : Z) (s : DeadRowMap_c * option (list Z)) : option (bool * (DeadRowMap_c * option (list Z))) :=
  '(b, m) ← Set_ tRow s.1;
  Some (if (b : bool) then (true, (m, KillHook tDoc s.2)) else (false, (m, s.2))).

Definition KillMulti (dKlist : list Z) (x : CSphIndex_VLN) : option (Z * CSphIndex_VLN) :=
  tTargetReader ← LookupReaderIterator (m_tDocidLookup x) (m_uVersion x);
  let tKillerReader := DocidListReader dKlist in
  match m_pKillHook x with
  | None =>
      '(n, m) ← KillByLookup (kill_fuel x dKlist) tTargetReader tKillerReader (m_tDeadRowMap x);
      Some (finish_kill n (with_map m None x))
  | Some _ =>
      '(n, (m, hook)) ← ProcessIntersected (kill_fuel x dKlist) tTargetReader tKillerReader
        hook_action
        (m_tDeadRowMap x, m_pKillHook x);
      Some (finish_kill n (with_map m hook x))
  end.

(** [fnWatcher] is a callback with a state of its own; [Verify] of a [Set] that
    does not set would abort a debug build. *)
Definition check_action {C} (fnWatcher : C -> bool * C) (tRow tDoc : Z) (s : DeadRowMap_c * option (list Z) * C)
    : option (bool * (DeadRowMap_c * option (list Z) * C)) :=
  let '(m, hook, c) := s in
  dead ← IsSet tRow m;
  if (dead : bool) then Some (false, s)
  else
    let '(go, c) := fnWatcher c in
    if negb go then Some (false, (m, hook, c))
    else '(_, m) ← Set_ tRow m; Some (true, (m, KillHook tDoc hook, c)).

Definition CheckThenKillMulti {C} (dKlist : list Z) (fnWatcher : C -> bool * C) (c : C) (x : CSphIndex_VLN)
    : option (Z * CSphIndex_VLN * C) :=
  tTargetReader ← LookupReaderIterator (m_tDocidLookup x) (m_uVersion x);
  let tKillerReader := DocidListReader dKlist in
  '(n, (m, hook, c)) ← ProcessIntersected (kill_fuel x dKlist) tTargetReader tKillerReader
    (check_action fnWatcher)
    (m_tDeadRowMap x, m_pKillHook x, c);
  Some (finish_kill n (with_map m hook x), c).

(** [KillDupes]: rows whose id repeats the id before. *)
Fixpoint dupes_loop (fuel : nat) (it : LookupReaderIterator_c) (tLastDocID iTotalKilled : Z) (m : DeadRowMap_c)
    : option (Z * DeadRowMap_c) :=
  match fuel with
  | O => None
  | S fuel' =>
      '(p, it) ← Read it;
      match p with
      | None => Some (iTotalKilled, m)
      | Some (DocidRowidPair tDocID tRowID) =>
          if tDocID =? tLastDocID then
            '(_, m) ← Set_ tRowID m;
            dupes_loop fuel' it tLastDocID (cast int32_t (iTotalKilled + 1)) m
          else dupes_loop fuel' it tDocID iTotalKilled m
      end
  end.

Definition KillDupes (x : CSphIndex_VLN) : option (Z * CSphIndex_VLN) :=
  tLookup ← LookupReaderIterator (m_tDocidLookup x) (m_uVersion x);
  '(n, m) ← dupes_loop (kill_fuel x []) tLookup 0 0 (m_tDeadRowMap x);
  Some (finish_kill n (with_map m (m_pKillHook x) x)).

(** ** An index that is set up *)

Section Index.
Context (P hdr : Z) (pairs : list DocidRowidPair_t).

(** The lookup file holds [pairs], the rows are those of the dead row map. *)
Record index_ok (x : CSphIndex_VLN) (D : gset Z) : Prop := {
  ix_per : 0 < P;
  ix_pairs : pairs_ok pairs;
  ix_file : spt_ok P (m_tDocidLookup x) hdr pairs;
  ix_some : pairs <> [];
  ix_size : Z.of_nat (length pairs) + P <= 2 ^ 31;
  ix_version : hdr = (if m_uVersion x >=? 71 then 24 else 16);
  ix_reader : m_tLookupReader x = reader P (m_tDocidLookup x) hdr pairs;
  ix_map : stands_for (m_tDeadRowMap x) D;
  ix_rows : Forall (λ p, 0 <= m_tRowID p < m_uRows (m_tDeadRowMap x)) pairs
}.

Lemma ix_hdr x D : index_ok x D -> hdr = 16 \/ hdr = 24.
Proof. intros Hx. rewrite (ix_version x D Hx). destruct (_ >=? _); auto. Qed.

Lemma fuel_enough x D dKlist : index_ok x D -> (length pairs + length dKlist < kill_fuel x dKlist)%nat.
Proof. intros Hx. unfold kill_fuel. rewrite (ix_reader x D Hx). cbn [reader r_nDocs]. lia. Qed.

Lemma start x D : index_ok x D -> ∃ it, LookupReaderIterator (m_tDocidLookup x) (m_uVersion x) = Some it /\
  it_stands P (m_tDocidLookup x) hdr pairs it pairs.
Proof.
  intros Hx. destruct Hx. by apply start_stands.
Qed.

(** An action on a pair of the target that was found in the kill list. *)
Definition on_pair {S} (act : Z -> Z -> S -> option (bool * S)) (pe : DocidRowidPair_t * Z) (st : Z * S) : option (Z * S) :=
  count_action (R2 := DocidListReader_c) act (m_tRowID pe.1) (m_tDocID pe.1) (DocidListReader []) st.

(** The fold of an action over the common ids. *)
Lemma process_ok {S} x D dKlist (act : Z -> Z -> S -> option (bool * S)) s it :
  index_ok x D -> ascending pairs -> ascending_ids (λ d : Z, d) dKlist ->
  it_stands P (m_tDocidLookup x) hdr pairs it pairs ->
  ProcessIntersected (kill_fuel x dKlist) it (DocidListReader dKlist) act s =
    foldM (on_pair act)
      (joined (λ d : Z, d) pairs dKlist) (0, s).
Proof.
  intros Hx Hasc Hk Hit. unfold ProcessIntersected. pose proof (ix_hdr x D Hx). pose proof (fuel_enough x D dKlist Hx) as Hf.
  destruct Hx. pose proof (lookup_target_laws P (m_tDocidLookup x) hdr pairs ix_per0 ix_pairs0 ix_file0 ix_some0 ix_size0 H Hasc).
  by eapply (Intersect_ok (λ d : Z, d) _ _ _ (count_action act)); [|exact Hf|exact Hasc|exact Hk|exact Hit|].
Qed.

(** The ids of the rows that were not dead before, in order. *)
Fixpoint newly (l : list (DocidRowidPair_t * Z)) (D : gset Z) : list Z :=
  match l with
  | [] => []
  | (p, _) :: l' =>
      if decide (m_tRowID p ∈ D) then newly l' D else m_tDocID p :: newly l' ({[m_tRowID p]} ∪ D)
  end.

Definition rows_of (l : list (DocidRowidPair_t * Z)) : gset Z := list_to_set (map (λ pe, m_tRowID pe.1) l).

Lemma rows_of_cons p e l D : rows_of ((p, e) :: l) ∪ D = rows_of l ∪ ({[m_tRowID p]} ∪ D).
Proof. unfold rows_of. cbn [map fst]. rewrite list_to_set_cons. set_solver. Qed.

Lemma newly_count l D : Z.of_nat (length (newly l D)) = Z.of_nat (size (rows_of l ∪ D)) - Z.of_nat (size D).
Proof.
  revert D. induction l as [|[p e] l IH]; intros D; cbn [newly].
  - unfold rows_of. cbn [map length]. rewrite list_to_set_nil, union_empty_l_L. lia.
  - rewrite rows_of_cons. destruct (decide (m_tRowID p ∈ D)) as [Hi|Hi].
    + rewrite IH. by assert ({[m_tRowID p]} ∪ D = D) as -> by set_solver.
    + cbn [length]. rewrite Nat2Z.inj_succ, IH, (size_union {[m_tRowID p]} D), size_singleton by set_solver. lia.
Qed.

(** Rows that differ: the ids of the rows of [l] that were not dead. *)
Lemma newly_elem l D d : NoDup (map (λ pe, m_tRowID pe.1) l) -> d ∈ newly l D <-> ∃ pe, pe ∈ l /\ m_tDocID pe.1 = d /\ m_tRowID pe.1 ∉ D.
Proof.
  revert D. induction l as [|[p e] l IH]; intros D; cbn [map newly]; [split; [by intros ?%not_elem_of_nil|by intros (? & ?%not_elem_of_nil & _)]|].
  intros [Hp Hl]%NoDup_cons. cbn [fst] in *. assert (∀ pe, pe ∈ l -> m_tRowID pe.1 <> m_tRowID p) as Hne by (intros pe Hpe E; apply Hp, list_elem_of_fmap; by exists pe).
  destruct (decide (m_tRowID p ∈ D)) as [Hi|Hi].
  - rewrite (IH D Hl). split; [intros (pe & ? & ?); exists pe; split; [by right|done]|]. intros (pe & [->|?]%elem_of_cons & Hq); [by destruct Hq|by exists pe].
  - rewrite elem_of_cons, (IH _ Hl). split.
    + intros [->|(pe & Hpe & E & Hn)]; [exists (p, e); split; [by left|done]|exists pe; split; [by right|split; [done|set_solver]]].
    + intros (pe & [->|Hpe]%elem_of_cons & E & Hn); [by left|right]. exists pe. specialize (Hne pe Hpe). split; [done|]. split; [done|]. set_solver.
Qed.

Lemma newly_sub l D : newly l D `sublist_of` map (λ pe, m_tDocID pe.1) l.
Proof. revert D. induction l as [|[p e] l IH]; intros D; cbn [map newly fst]; [constructor|]. destruct (decide _); [by apply sublist_cons|by apply sublist_skip]. Qed.

Lemma joined_sub {B} (g : DocidRowidPair_t -> B) l dKlist : map (λ pe, g pe.1) (joined (λ d : Z, d) l dKlist) `sublist_of` map g l.
Proof. induction l as [|p l IH]; cbn [joined map]; [constructor|]. destruct (first_with _ _ _) as [e|]; cbn [map fst]; [by apply sublist_skip|by apply sublist_cons]. Qed.

Lemma sorted_sub {B} (R : B -> B -> Prop) (l l' : list B) : l `sublist_of` l' -> StronglySorted R l' -> StronglySorted R l.
Proof.
  induction 1 as [|x l l' Hl IH|x l l' Hl IH]; intros Hs; [constructor| |]; apply StronglySorted_inv in Hs as [Hs Hx]; [|by apply IH].
  constructor; [by apply IH|]. rewrite Forall_forall in *. intros y Hy. apply Hx. by eapply elem_of_submseteq, sublist_submseteq.
Qed.

(** The ids that [KillMulti] tells the hook: those of the list that are alive. *)
Lemma told_ids x D dKlist : index_ok x D -> ascending pairs -> NoDup (map m_tRowID pairs) -> Forall (in_type int64_t) dKlist ->
  let ids := newly (joined (λ d : Z, d) pairs dKlist) D in
  StronglySorted (λ a b, u64 a < u64 b) ids /\ ∀ d, d ∈ ids <-> d ∈ dKlist /\ Exists (λ p, m_tDocID p = d /\ m_tRowID p ∉ D) pairs.
Proof.
  intros Hx Hasc Hnd Hk ids. split.
  - apply (sorted_sub _ ids (map m_tDocID pairs)); [etrans; [apply newly_sub|apply joined_sub]|]. clear -Hasc. unfold ascending in Hasc. induction Hasc as [|p l Hl IH Hp]; cbn [map]; [constructor|]. constructor; [done|]. by rewrite Forall_map.
  - intros d. unfold ids. rewrite newly_elem by (by eapply sublist_NoDup, joined_sub). rewrite Exists_exists. rewrite Forall_forall in Hk. pose proof (proj1 (Forall_forall _ _) (proj1 (ix_pairs x D Hx))) as Hpo. split.
    + intros ([p e] & Hpe & <- & Hn). destruct (proj1 (joined_in (λ d : Z, d) pairs dKlist p) (ex_intro _ e Hpe)) as [Hp (e' & He & Eu)%Exists_exists].
      split; [|by exists p]. apply u64_inj in Eu; [by subst|by apply Hk|by apply Hpo].
    + intros [Hd (p & Hp & <- & Hn)]. destruct (proj2 (joined_in (λ d : Z, d) pairs dKlist p)) as [e He]; [split; [done|]; apply Exists_exists; by exists (m_tDocID p)|]. by exists (p, e).
Qed.

Definition rows_in (m : DeadRowMap_c) (l : list (DocidRowidPair_t * Z)) : Prop := Forall (λ pe, 0 <= m_tRowID pe.1 < m_uRows m) l.

Lemma count_next n : 0 <= n -> n + 1 < 2 ^ 31 -> cast int32_t (n + 1) = n + 1.
Proof. intros. apply cast_id; [done|]. unfold in_type. cbn [is_signed int32_t bits]. lia. Qed.

(** Killing the rows of [l] one after another. *)
Lemma kill_hook_fold l m D n hook :
  stands_for m D -> rows_in m l -> 0 <= n -> n + Z.of_nat (length l) < 2 ^ 31 ->
  ∃ m', foldM (on_pair hook_action) l (n, (m, hook))
      = Some (n + Z.of_nat (length (newly l D)), (m', (λ h, h ++ newly l D) <$> hook)) /\
    stands_for m' (rows_of l ∪ D) /\ m_uRows m' = m_uRows m.
Proof.
  revert m D n hook. induction l as [|[p e] l IH]; intros m D n hook Hs Hr Hn Hl; cbn [foldM newly].
  { exists m. unfold rows_of. cbn [map length]. rewrite list_to_set_nil, union_empty_l_L, Z.add_0_r.
    split; [|done]. destruct hook; cbn; by rewrite ?app_nil_r. }
  apply Forall_cons in Hr as [H1 H2]. cbn [fst] in H1. cbn [length] in Hl.
  destruct (set_stands m D (m_tRowID p) Hs H1) as (m1 & E1 & S1 & U1).
  assert (on_pair hook_action (p, e) (n, (m, hook))
    = Some (if bool_decide (m_tRowID p ∉ D) then (cast int32_t (n + 1), (m1, KillHook (m_tDocID p) hook)) else (n, (m1, hook)))) as ->
    by (unfold on_pair, count_action, hook_action; cbn [fst snd]; rewrite E1; cbn [mbind option_bind]; by destruct (bool_decide _)).
  cbn [mbind option_bind]. rewrite rows_of_cons.
  assert (rows_in m1 l) as Hr1 by (unfold rows_in; by rewrite U1).
  destruct (decide (m_tRowID p ∈ D)) as [Hi|Hi].
  - rewrite bool_decide_false by tauto.
    destruct (IH m1 _ n hook S1 Hr1 Hn ltac:(lia)) as (m' & E' & S' & U').
    assert ({[m_tRowID p]} ∪ D = D) as ED by set_solver. rewrite ED in *. exists m'. split; [done|]. split; [done|lia].
  - rewrite bool_decide_true, count_next by (done || lia).
    destruct (IH m1 _ (n + 1) (KillHook (m_tDocID p) hook) S1 Hr1 ltac:(lia) ltac:(lia)) as (m' & E' & S' & U').
    exists m'. split; [|split; [done|lia]]. rewrite E'. cbn [length]. do 2 f_equal; [lia|]. f_equal.
    destruct hook; cbn; by rewrite <- ?app_assoc.
Qed.

(** Without a hook the map goes through the same states. *)
Lemma no_hook l n m :
  foldM (on_pair (λ tRowID _ m, Set_ tRowID m)) l (n, m) = (λ s, (s.1, s.2.1)) <$> foldM (on_pair hook_action) l (n, (m, None)).
Proof.
  revert n m. induction l as [|[p e] l IH]; intros n m; [done|]. cbn [foldM].
  set (f := foldM _ l) in *. set (g := foldM _ l) in *. unfold on_pair, count_action, hook_action. cbn [fst snd].
  destruct (Set_ (m_tRowID p) m) as [[[] m']|]; [| |done]; cbn [mbind option_bind]; apply IH.
Qed.

Lemma joined_rows x D dKlist : index_ok x D -> rows_in (m_tDeadRowMap x) (joined (λ d : Z, d) pairs dKlist).
Proof.
  intros Hx. apply Forall_forall. intros [p e] Hp. pose proof (ix_rows x D Hx) as Hrows. rewrite Forall_forall in Hrows.
  apply Hrows. apply (joined_in (λ d : Z, d) pairs dKlist p). by exists e.
Qed.

Lemma KillMulti_ok x D dKlist :
  index_ok x D -> ascending pairs -> ascending_ids (λ d : Z, d) dKlist ->
  let l := joined (λ d : Z, d) pairs dKlist in
  let n := Z.of_nat (length (newly l D)) in
  ∃ m', KillMulti dKlist x = Some (finish_kill n (with_map m' ((λ h, h ++ newly l D) <$> m_pKillHook x) x)) /\
    stands_for m' (rows_of l ∪ D) /\ m_uRows m' = m_uRows (m_tDeadRowMap x).
Proof.
  intros Hx Hasc Hk l n. destruct (start x D Hx) as (it & Eit & Sit). unfold KillMulti. rewrite Eit. cbn [mbind option_bind].
  assert (rows_in (m_tDeadRowMap x) l) as Hr by (by eapply joined_rows).
  assert (0 + Z.of_nat (length l) < 2 ^ 31) as Hl.
  { pose proof (joined_length (λ d : Z, d) pairs dKlist) as Hj. fold l in Hj. destruct Hx. lia. }
  destruct (m_pKillHook x) as [hook|] eqn:Eh.
  - rewrite (process_ok x D dKlist _ _ it Hx Hasc Hk Sit). fold l.
    destruct (kill_hook_fold l (m_tDeadRowMap x) D 0 (Some hook) (ix_map x D Hx) Hr ltac:(lia) Hl) as (m' & E & S & U).
    rewrite E. cbn [mbind option_bind]. exists m'. split; [|done]. rewrite Z.add_0_l. done.
  - unfold KillByLookup. rewrite (process_ok x D dKlist _ _ it Hx Hasc Hk Sit), no_hook. fold l.
    destruct (kill_hook_fold l (m_tDeadRowMap x) D 0 None (ix_map x D Hx) Hr ltac:(lia) Hl) as (m' & E & S & U).
    rewrite E. cbn [mbind option_bind]. exists m'. split; [|done]. rewrite Z.add_0_l. done.
Qed.

Lemma ascending_inj p q : ascending pairs -> p ∈ pairs -> q ∈ pairs -> uid p = uid q -> p = q.
Proof.
  intros A. unfold ascending in A. induction A as [|a l A IH F]; intros Hp Hq E; [by apply not_elem_of_nil in Hp|].
  rewrite Forall_forall in F. apply elem_of_cons in Hp, Hq.
  destruct Hp as [->|Hp], Hq as [->|Hq]; [done| | |by apply IH].
  - specialize (F q Hq). lia.
  - specialize (F p Hp). lia.
Qed.

Lemma IsAlive_ok x D d :
  index_ok x D -> ascending pairs -> in_type int64_t d ->
  IsAlive d x = Some (bool_decide (Exists (λ p, m_tDocID p = d /\ m_tRowID p ∉ D) pairs)).
Proof.
  intros Hx Hasc Hd. pose proof (ix_hdr x D Hx) as Hh. pose proof (ix_map x D Hx) as (Hm & Hdead & _).
  pose proof (dm_rows _ Hm) as Hrows. pose proof (ix_rows x D Hx) as Hr. rewrite Forall_forall in Hr.
  unfold IsAlive, GetRowidByDocid. rewrite (ix_reader x D Hx). destruct Hx.
  destruct (Find_ok P (m_tDocidLookup x) hdr pairs ix_per0 ix_pairs0 ix_file0 ix_some0 ix_size0 Hh d Hd) as (r & -> & [Hin|[-> Hno]]);
    cbn [mbind option_bind].
  - specialize (Hr _ Hin). cbn [m_tRowID] in Hr. rewrite (proj2 (Z.eqb_neq r INVALID_ROWID)) by (unfold INVALID_ROWID; lia).
    rewrite IsSet_ok, Hdead by (done || lia). cbn [mbind option_bind]. f_equal.
    rewrite <- bool_decide_not. apply bool_decide_ext. rewrite Exists_exists. split.
    + intros Hn. by exists (DocidRowidPair d r).
    + intros (p & Hp & Ep & Hn). assert (p = DocidRowidPair d r) as -> by (apply ascending_inj; [done|done|done|by rewrite Ep]). done.
  - rewrite Z.eqb_refl. f_equal. symmetry. apply bool_decide_false. rewrite Exists_exists. intros (p & Hp & <- & _).
    apply (Hno (m_tRowID p)). unfold in_pairs. by destruct p.
Qed.

Lemma index_ok_map x D D' m' hook st :
  index_ok x D -> stands_for m' D' -> m_uRows m' = m_uRows (m_tDeadRowMap x) ->
  index_ok (Index (m_tDocidLookup x) (m_uVersion x) (m_tLookupReader x) (m_tUuidLookupReader x) m' st hook) D'.
Proof. intros Hx Hm E. destruct Hx. split; try done. cbn [m_tDeadRowMap]. by rewrite E. Qed.

(** Which rows a kill list names, when every document has its own row. *)
Lemma named_rows dKlist p :
  NoDup (map m_tRowID pairs) -> Forall (in_type int64_t) dKlist -> Forall pair_ok pairs -> p ∈ pairs ->
  m_tRowID p ∈ rows_of (joined (λ d : Z, d) pairs dKlist) <-> m_tDocID p ∈ dKlist.
Proof.
  intros Hnd Hk Hpo Hp. unfold rows_of. rewrite elem_of_list_to_set. rewrite Forall_forall in Hk. rewrite Forall_forall in Hpo.
  assert (∀ q, q ∈ pairs -> m_tRowID q = m_tRowID p -> q = p) as Hinj.
  { intros q Hq E. apply list_elem_of_lookup_1 in Hp as [i Hi]. apply list_elem_of_lookup_1 in Hq as [j Hj].
    assert (map m_tRowID pairs !! i = Some (m_tRowID p)) as Ei by (apply list_lookup_fmap_Some; by exists p).
    assert (map m_tRowID pairs !! j = Some (m_tRowID p)) as Ej by (apply list_lookup_fmap_Some; by exists q).
    pose proof (NoDup_lookup _ _ _ _ Hnd Ei Ej). congruence. }
  assert (m_tDocID p ∈ dKlist <-> Exists (λ e : Z, u64 e = uid p) dKlist) as He.
  { rewrite Exists_exists. split; [by eexists|]. intros (e & Hin & E). apply u64_inj in E; [by subst|by apply Hk|by apply Hpo]. }
  rewrite He. split.
  - intros Hin. apply list_elem_of_fmap in Hin as ([q e] & Er & Hq). cbn [fst] in Er.
    destruct (proj1 (joined_in (λ d : Z, d) pairs dKlist q) (ex_intro _ e Hq)) as [Hq1 Hq2].
    by rewrite <- (Hinj q Hq1 (eq_sym Er)).
  - intros Hx. destruct (proj2 (joined_in (λ d : Z, d) pairs dKlist p) (conj Hp Hx)) as [e Hin].
    apply list_elem_of_fmap. by exists (p, e).
Qed.

(** ** Waiting before the kill *)

Lemma set_again m D r : stands_for m D -> 0 <= r < m_uRows m -> r ∈ D -> Set_ r m = Some (false, m).
Proof.
  intros Hs Hr Hi. destruct (set_stands m D r Hs Hr) as (m' & E & _). rewrite bool_decide_false in E by tauto.
  destruct Hs as (Hm & Hd & _). specialize (Hd r ltac:(lia)). rewrite bool_decide_true in Hd by done.
  unfold Set_ in *. pose proof (dm_rows m Hm).
  rewrite (proj2 (Z.eqb_neq r INVALID_ROWID)) in * by (unfold INVALID_ROWID; lia).
  rewrite Z.shiftr_div_pow2, land_31 in * by lia. change (2 ^ 5) with 32 in *.
  destruct (m_dData m !! Z.to_nat (r / 32)) as [w|] eqn:Ew; [|done]. cbn [mbind option_bind] in *. cbv zeta in *.
  injection E as Ef _. rewrite Ef. cbn [andb]. rewrite orb_false_r. do 2 f_equal. destruct m as [h k u l]. f_equal.
  cbn [m_dData] in *. apply list_insert_id. rewrite Ew. f_equal.
  assert (Z.testbit w (r mod 32) = true) as Hb by (unfold bit in Hd; change (SIZEBITS DWORD) with 32 in Hd; by rewrite Ew in Hd).
  apply Z.bits_inj'. intros j Hj. pose proof (Z.mod_pos_bound r 32).
  rewrite Z.lor_spec, Z.shiftl_1_l, Z.pow2_bits_eqb by lia. destruct (Z.eqb_spec (r mod 32) j) as [<-|]; [by rewrite Hb|by rewrite orb_false_r].
Qed.

Lemma check_fold {C} (fnWatcher : C -> bool * C) c l m D n hook :
  (∀ c, (fnWatcher c).1 = true) ->
  stands_for m D -> rows_in m l -> 0 <= n -> n + Z.of_nat (length l) < 2 ^ 31 ->
  (λ s, (s.1, s.2.1)) <$> foldM (on_pair (check_action fnWatcher)) l (n, (m, hook, c)) =
  foldM (on_pair hook_action)
        l (n, (m, hook)).
Proof.
  intros Hw. revert c m D n hook. induction l as [|[p e] l IH]; intros c m D n hook Hs Hr Hn Hl; [done|]. cbn [foldM].
  apply Forall_cons in Hr as [H1 H2]. cbn [fst] in *. cbn [length] in Hl. set (f := foldM _ l). set (g := foldM _ l).
  destruct (set_stands m D (m_tRowID p) Hs H1) as (m1 & E1 & S1 & U1). pose proof Hs as (Hm & Hd & _).
  unfold on_pair, count_action, check_action, hook_action. cbn [fst snd]. rewrite IsSet_ok, Hd by (done || lia). cbn [mbind option_bind].
  destruct (decide (m_tRowID p ∈ D)) as [Hi|Hi].
  - rewrite bool_decide_true by done. rewrite (set_again m D _ Hs H1 Hi). cbn [mbind option_bind].
    apply (IH c m D); [done|done|done|lia].
  - rewrite bool_decide_false by done. pose proof (Hw c) as Hc. destruct (fnWatcher c) as [go c']. cbn [fst] in Hc. subst go.
    cbn [negb]. rewrite E1, bool_decide_true by done. cbn [mbind option_bind]. rewrite count_next by lia.
    apply (IH c' m1 ({[m_tRowID p]} ∪ D)); [done|unfold rows_in; by rewrite U1|lia|lia].
Qed.

(** The watcher refuses: nothing is killed. *)
Lemma check_refused {C} (fnWatcher : C -> bool * C) c l m D n hook :
  (∀ c, (fnWatcher c).1 = false) -> stands_for m D -> rows_in m l ->
  ∃ c', foldM (on_pair (check_action fnWatcher)) l (n, (m, hook, c)) = Some (n, (m, hook, c')).
Proof.
  intros Hw Hs. revert c. induction l as [|[p e] l IH]; intros c Hr; [by exists c|]. cbn [foldM].
  apply Forall_cons in Hr as [H1 H2]. cbn [fst] in *. pose proof Hs as (Hm & Hd & _).
  set (f := foldM _ l) in *. unfold on_pair, count_action, check_action. cbn [fst snd]. rewrite IsSet_ok by (done || lia). cbn [mbind option_bind].
  destruct (dead _ _); [by apply IH|]. pose proof (Hw c) as Hc. destruct (fnWatcher c) as [go c']. cbn [fst] in Hc. subst go.
  cbn [negb mbind option_bind]. by apply IH.
Qed.
End Index.

(** [C8] Killing a list of documents: on an index whose lookup file holds
    [pairs] (ids in unsigned order, a row each), [KillMulti] with a list of ids
    in unsigned order never reads outside the file, and afterwards a document
    is alive exactly if it was alive and is not in the list; the result is the
    number of documents that died, and the row map is marked as changed exactly
    if there are any; a hooked segment is told the ids of those documents and no
    others, each once and in unsigned order. *)
Theorem kill_multi_correct P hdr pairs x D dKlist :
  index_ok P hdr pairs x D -> ascending pairs -> NoDup (map m_tRowID pairs) ->
  ascending_ids (λ d : Z, d) dKlist -> Forall (in_type int64_t) dKlist ->
  ∃ n x' D' dead_ids, KillMulti dKlist x = Some (n, x') /\ index_ok P hdr pairs x' D' /\
    (∀ d, in_type int64_t d -> ∃ b, IsAlive d x = Some b /\ IsAlive d x' = Some (b && negb (bool_decide (d ∈ dKlist)))) /\
    n = (GetNumDeads (m_tDeadRowMap x')).1 - (GetNumDeads (m_tDeadRowMap x)).1 /\ n = Z.of_nat (length dead_ids) /\
    m_uAttrsStatus x' = (if n =? 0 then m_uAttrsStatus x else Z.lor (m_uAttrsStatus x) ATTRS_ROWMAP_UPDATED) /\
    StronglySorted (λ a b, u64 a < u64 b) dead_ids /\ (∀ d, d ∈ dead_ids <-> d ∈ dKlist /\ IsAlive d x = Some true) /\
    m_pKillHook x' = (λ h, h ++ dead_ids) <$> m_pKillHook x.
Proof.
  intros Hx Hasc Hnd Hk Hkt. destruct (KillMulti_ok P hdr pairs x D dKlist Hx Hasc Hk) as (m' & E & S & U).
  set (l := joined (λ d : Z, d) pairs dKlist) in *. set (n := Z.of_nat (length (newly l D))) in *.
  pose proof (ix_map _ _ _ x D Hx) as S0. pose proof S0 as (Hm0 & _ & Hn0). pose proof S as (Hm1 & _ & Hn1).
  set (hook := (λ h, h ++ newly l D) <$> m_pKillHook x) in *.
  assert (index_ok P hdr pairs (finish_kill n (with_map m' hook x)).2 (rows_of l ∪ D)) as Hx'.
  { unfold finish_kill. cbn [snd]. destruct (n =? 0); by apply (index_ok_map P hdr pairs x D). }
  assert ((finish_kill n (with_map m' hook x)).1 = n /\ m_tDeadRowMap (finish_kill n (with_map m' hook x)).2 = m' /\
    m_pKillHook (finish_kill n (with_map m' hook x)).2 = hook) as (F1 & F2 & F3)
    by (unfold finish_kill; cbn [fst snd]; by destruct (n =? 0)).
  exists n, (finish_kill n (with_map m' hook x)).2, (rows_of l ∪ D), (newly l D).
  split; [rewrite E; by rewrite <- F1 at 2; destruct (finish_kill _ _)|]. split; [done|]. split; [|split; [|split; [done|split]]].
  - intros d Hd. eexists. split; [by apply (IsAlive_ok P hdr pairs x D)|].
    rewrite (IsAlive_ok P hdr pairs _ (rows_of l ∪ D) d Hx' Hasc Hd). f_equal.
    rewrite <- bool_decide_not, <- bool_decide_and. apply bool_decide_ext. rewrite !Exists_exists.
    assert (∀ p, p ∈ pairs -> m_tRowID p ∈ rows_of l <-> m_tDocID p ∈ dKlist) as N.
    { intros p Hp. apply named_rows; [done|done|apply (ix_pairs _ _ _ _ _ Hx)|done]. }
    split.
    + intros (p & Hp & <- & Hn). specialize (N p Hp). split; [exists p; set_solver|set_solver].
    + intros ((p & Hp & <- & Hn) & Hd'). specialize (N p Hp). exists p. set_solver.
  - rewrite F2. destruct (GetNumDeads_ok m' Hm1) as [-> _]. destruct (GetNumDeads_ok _ Hm0) as [-> _].
    unfold n. rewrite newly_count, Hn1, Hn0. done.
  - unfold finish_kill. cbn [snd]. by destruct (n =? 0).
  - destruct (told_ids P hdr pairs x D dKlist Hx Hasc Hnd Hkt) as [T1 T2]. split; [done|]. split; [|done]. intros d. fold l in T2. rewrite (T2 d). rewrite Forall_forall in Hkt.
    split; intros [Hd Ha]; (split; [done|]); rewrite (IsAlive_ok P hdr pairs x D d Hx Hasc (Hkt d Hd)) in *; [by rewrite bool_decide_true|]. injection Ha as Ha. by apply bool_decide_eq_true in Ha.
Qed.

(** An index of 71 documents. *)
Definition demo_index (hook : option (list Z)) : CSphIndex_VLN :=
  Index (spt_file demo_pairs 0 []) 74 (reader 64 (spt_file demo_pairs 0 []) 24 demo_pairs)
    (UuidSetData (spt_file demo_pairs 0 []) 0 71) (Reset 1001) 0 hook.

Lemma demo_index_ok hook : index_ok 64 24 demo_pairs (demo_index hook) ∅.
Proof.
  split; [lia|exact demo_pairs_ok| |discriminate|vm_compute; discriminate|done|done|apply fresh_stands; lia|].
  - apply spt_file_ok; [apply demo_pairs_ok|vm_compute; reflexivity|unfold in_type; simpl; lia|constructor|vm_compute; reflexivity].
  - apply (bool_decide_unpack _). vm_compute. exact I.
Qed.

Lemma demo_ascending : ascending demo_pairs.
Proof. apply ascending_chain. vm_compute. reflexivity. Qed.

Lemma demo_rows_differ : NoDup (map m_tRowID demo_pairs).
Proof. apply (bool_decide_unpack _). vm_compute. exact I. Qed.

Lemma kill_multi_correct_witness :
  ∃ n x' D' dead_ids, KillMulti [1; 4; 5; -5] (demo_index (Some [])) = Some (n, x') /\ index_ok 64 24 demo_pairs x' D' /\
    (∀ d, in_type int64_t d -> ∃ b, IsAlive d (demo_index (Some [])) = Some b /\ IsAlive d x' = Some (b && negb (bool_decide (d ∈ [1; 4; 5; -5])))) /\
    n = (GetNumDeads (m_tDeadRowMap x')).1 - (GetNumDeads (m_tDeadRowMap (demo_index (Some [])))).1 /\ n = Z.of_nat (length dead_ids) /\
    m_uAttrsStatus x' = (if n =? 0 then m_uAttrsStatus (demo_index (Some [])) else Z.lor (m_uAttrsStatus (demo_index (Some []))) ATTRS_ROWMAP_UPDATED) /\
    StronglySorted (λ a b, u64 a < u64 b) dead_ids /\ (∀ d, d ∈ dead_ids <-> d ∈ [1; 4; 5; -5] /\ IsAlive d (demo_index (Some [])) = Some true) /\
    m_pKillHook x' = (λ h, h ++ dead_ids) <$> m_pKillHook (demo_index (Some [])).
Proof.
  apply (kill_multi_correct 64 24 demo_pairs (demo_index (Some [])) ∅ [1; 4; 5; -5]
    (demo_index_ok _) demo_ascending demo_rows_differ).
  - apply ascending_ids_chain. vm_compute. reflexivity.
  - repeat constructor; cbn; lia.
Defined.

Example demo_killed : fst <$> KillMulti [1; 4; 5; -5] (demo_index (Some [])) = Some 3.
Proof. vm_compute. reflexivity. Qed.

Lemma Check_ok {C} P hdr pairs x D dKlist (fnWatcher : C -> bool * C) c :
  index_ok P hdr pairs x D -> ascending pairs -> ascending_ids (λ d : Z, d) dKlist ->
  ((∀ c, (fnWatcher c).1 = true) -> fst <$> CheckThenKillMulti dKlist fnWatcher c x = KillMulti dKlist x) /\
  ((∀ c, (fnWatcher c).1 = false) -> ∃ c', CheckThenKillMulti dKlist fnWatcher c x = Some (0, x, c')).
Proof.
  intros Hx Hasc Hk. destruct (start P hdr pairs x D Hx) as (it & Eit & Sit). unfold CheckThenKillMulti, KillMulti.
  set (l := joined (λ d : Z, d) pairs dKlist).
  assert (rows_in (m_tDeadRowMap x) l) as Hr by (by eapply joined_rows).
  assert (0 + Z.of_nat (length l) < 2 ^ 31) as Hl.
  { pose proof (joined_length (λ d : Z, d) pairs dKlist) as Hj. fold l in Hj. destruct Hx. lia. }
  pose proof (ix_map _ _ _ x D Hx) as Hs.
  rewrite Eit. cbn [mbind option_bind]. rewrite (process_ok P hdr pairs x D dKlist _ _ it Hx Hasc Hk Sit). fold l. split.
  - intros Hw. pose proof (check_fold fnWatcher c l _ D 0 (m_pKillHook x) Hw Hs Hr ltac:(lia) Hl) as Ec.
    destruct (kill_hook_fold l (m_tDeadRowMap x) D 0 (m_pKillHook x) Hs Hr ltac:(lia) Hl) as (m' & Eh & _).
    rewrite Eh in Ec. destruct (foldM _ l _) as [[n [[m hook] c']]|]; [|done]. cbn in Ec. injection Ec as -> -> ->.
    cbn [mbind option_bind fmap option_fmap option_map fst].
    destruct (m_pKillHook x) as [h|] eqn:Ehk.
    + rewrite (process_ok P hdr pairs x D dKlist _ _ it Hx Hasc Hk Sit). fold l. rewrite Eh. done.
    + unfold KillByLookup. rewrite (process_ok P hdr pairs x D dKlist _ _ it Hx Hasc Hk Sit), no_hook. fold l. rewrite Eh. done.
  - intros Hw. destruct (check_refused fnWatcher c l _ D 0 (m_pKillHook x) Hw Hs Hr) as [c' Ec].
    rewrite Ec. cbn [mbind option_bind]. exists c'. unfold finish_kill, with_map. by destruct x.
Qed.

(** Killing with a watcher ([CheckThenKillMulti], used while the saving of
    a table is disabled): if the watcher lets every kill pass, the outcome is
    that of [KillMulti]; if it lets none pass, nothing is killed and the index
    is unchanged. *)
Theorem check_then_kill_correct C P hdr pairs x D dKlist (fnWatcher : C -> bool * C) c :
  index_ok P hdr pairs x D -> ascending pairs -> ascending_ids (λ d : Z, d) dKlist ->
  ((∀ c, (fnWatcher c).1 = true) -> fst <$> CheckThenKillMulti dKlist fnWatcher c x = KillMulti dKlist x) /\
  ((∀ c, (fnWatcher c).1 = false) -> ∃ c', CheckThenKillMulti dKlist fnWatcher c x = Some (0, x, c')).
Proof. apply Check_ok. Qed.

Lemma check_then_kill_correct_witness :
  (fst <$> CheckThenKillMulti [1; 4; -5] (λ n : nat, (true, S n)) 0%nat (demo_index None) = KillMulti [1; 4; -5] (demo_index None)) /\
  (∃ c', CheckThenKillMulti [1; 4; -5] (λ n : nat, (false, S n)) 0%nat (demo_index None) = Some (0, demo_index None, c')).
Proof.
  assert (ascending_ids (λ d : Z, d) [1; 4; -5]) as Hk by (apply ascending_ids_chain; vm_compute; reflexivity).
  split.
  - apply (check_then_kill_correct nat 64 24 demo_pairs (demo_index None) ∅ _ (λ n : nat, (true, S n)) 0%nat
      (demo_index_ok _) demo_ascending Hk). done.
  - apply (check_then_kill_correct nat 64 24 demo_pairs (demo_index None) ∅ _ (λ n : nat, (false, S n)) 0%nat
      (demo_index_ok _) demo_ascending Hk). done.
Defined.
End IndexKill.

(** * Killing duplicate documents

    [CSphIndex_VLN::KillDupes] (src/src/sphinx.cpp, modelled in [IndexKill]):
    a table built by an old version may hold several rows of one document id;
    the first row of each id in the lookup stays. *)

From stdpp Require Import gmap sorting.
From S2P Require Import Prelude Span FileIO BitCount BitVec SearchNode DocidLookup DocidLookupOk DeadMap KillList.
Import Span FileIO BitCount BitVec SearchNode DocidLookup DocidLookupOk DocidLookupWrite DeadMap KillList IndexKill.

Module IndexDupes.

(** The pairs whose id is that of the pair before. *)
Fixpoint repeats (last : Z) (l : list DocidRowidPair_t) : list DocidRowidPair_t :=
  match l with
  | [] => []
  | p :: l' => if m_tDocID p =? last then p :: repeats last l' else repeats (m_tDocID p) l'
  end.

(** The pair at [i] has the id of a pair before it. *)
Definition repeated (l : list DocidRowidPair_t) (i : nat) : Prop :=
  ∃ j p q, (j < i)%nat /\ l !! j = Some q /\ l !! i = Some p /\ m_tDocID q = m_tDocID p.

Definition in_order (l : list DocidRowidPair_t) : Prop := StronglySorted (λ p q, uid p <= uid q) l.

Lemma repeats_in p l : ∀ last, in_order l -> Forall pair_ok l -> in_type int64_t last -> Forall (λ q, u64 last <= uid q) l ->
  p ∈ repeats last l <-> ∃ i, l !! i = Some p /\ (m_tDocID p = last \/ repeated l i).
Proof.
  induction l as [|a l IH]; intros last Ho Hp Hl Hm.
  { cbn. split; [by intros ?%not_elem_of_nil|]. by intros (i & Hi & _). }
  inversion Ho as [|? ? Ho' F]; subst. pose proof Hp as Hp0. apply Forall_cons in Hp as [[Ha _] Hp]. apply Forall_cons in Hm as [Hma Hm]. cbn [repeats].
  assert (∀ i, l !! i = Some p -> repeated (a :: l) (S i) <-> m_tDocID a = m_tDocID p \/ repeated l i) as Hrep.
  { intros i Hi. split.
    - intros (j & p' & q & Hj & Hq & Hp' & E). change (l !! i = Some p') in Hp'. rewrite Hi in Hp'. injection Hp' as <-.
      destruct j as [|j]; [injection Hq as <-; left; exact E|].
      right. exists j, p, q. repeat split; auto. lia.
    - intros [E|(j & p' & q & Hj & Hq & Hp' & E)]; [exists 0%nat, p, a; repeat split; auto; lia|].
      exists (S j), p', q. repeat split; auto. lia. }
  destruct (Z.eqb_spec (m_tDocID a) last) as [Ea|Ea].
  - rewrite elem_of_cons, (IH last) by done. split.
    + intros [->|(i & Hi & H)]; [exists 0%nat; auto|]. exists (S i). split; [done|]. rewrite Hrep by done. tauto.
    + intros ([|i] & Hi & H); cbn in Hi; [simplify_eq; by left|]. right. exists i. split; [done|]. rewrite Hrep in H by done.
      destruct H as [?|[?|?]]; [by left|left; congruence|by right].
  - rewrite (IH (m_tDocID a)) by done. split.
    + intros (i & Hi & H). exists (S i). split; [done|]. rewrite Hrep by done. right. destruct H; [left; congruence|by right].
    + intros ([|i] & Hi & H); cbn in Hi.
      * simplify_eq. destruct H as [?|(j & _ & _ & ? & _)]; [congruence|lia].
      * exists i. split; [done|]. rewrite Hrep in H by done. destruct H as [E|[E|?]]; [|by left; congruence|by right].
        exfalso. apply Ea. rewrite Forall_forall in F. specialize (F p). cbn beta in F.
        apply u64_inj; [done|done|]. assert (p ∈ l) as Hin by (by eapply list_elem_of_lookup_2).
        specialize (F Hin). rewrite E in F. lia.
Qed.

Lemma repeats_length last l : (length (repeats last l) <= length l)%nat.
Proof. revert last. induction l as [|p l IH]; intros last; cbn [repeats]; [done|]. case_match; cbn [length]; [specialize (IH last)|specialize (IH (m_tDocID p))]; lia. Qed.

Lemma repeats_sub last l p : p ∈ repeats last l -> p ∈ l.
Proof.
  revert last. induction l as [|q l IH]; intros last; cbn [repeats]; [done|]. rewrite elem_of_cons. case_match.
  - intros [->|H1]%elem_of_cons; eauto.
  - eauto.
Qed.

Section Dupes.
Context (P hdr : Z) (pairs : list DocidRowidPair_t) (data : list Z).
Context (HP : 0 < P) (Hpairs : pairs_ok pairs) (Hspt : spt_ok P data hdr pairs) (Hne : pairs <> []).
Context (Hsize : Z.of_nat (length pairs) + P <= 2 ^ 31) (Hhdr : hdr = 16 \/ hdr = 24).

Definition pair_rows (l : list DocidRowidPair_t) : gset Z := list_to_set (map m_tRowID l).

Lemma dupes_loop_ok fuel : ∀ l it last n m D, (length l < fuel)%nat -> it_stands P data hdr pairs it l -> stands_for m D ->
  Forall (λ p, 0 <= m_tRowID p < m_uRows m) l -> 0 <= n -> n + Z.of_nat (length l) < 2 ^ 31 ->
  ∃ m', dupes_loop fuel it last n m = Some (n + Z.of_nat (length (repeats last l)), m') /\
    stands_for m' (pair_rows (repeats last l) ∪ D) /\ m_uRows m' = m_uRows m.
Proof.
  induction fuel as [|fuel IH]; intros l it last n m D Hf Hit Hs Hr Hn Hl; [lia|]. cbn [dupes_loop].
  destruct (Read_ok P data hdr pairs HP Hpairs Hspt Hne Hsize Hhdr it l Hit) as (it' & -> & Hit'). cbn [mbind option_bind].
  destruct l as [|[d r] l]; cbn [head tail repeats m_tDocID length] in *.
  { exists m. rewrite Z.add_0_r. split; [done|]. split; [|done]. unfold pair_rows. cbn [map]. by rewrite list_to_set_nil, union_empty_l_L. }
  apply Forall_cons in Hr as [Hr1 Hr]. cbn [m_tRowID] in Hr1. destruct (d =? last).
  - destruct (set_stands m D r Hs Hr1) as (m1 & -> & S1 & U1). cbn [mbind option_bind]. rewrite count_next by lia.
    destruct (IH l it' last (n + 1) m1 ({[r]} ∪ D)) as (m' & E & S' & U'); auto; [lia|by rewrite U1|lia|lia|].
    exists m'. cbn [length]. split; [rewrite E; do 2 f_equal; lia|]. split; [|congruence].
    unfold pair_rows in *. cbn [map m_tRowID]. rewrite list_to_set_cons.
    by assert ({[r]} ∪ list_to_set (map m_tRowID (repeats last l)) ∪ D = list_to_set (map m_tRowID (repeats last l)) ∪ ({[r]} ∪ D)) as -> by set_solver.
  - apply IH; auto; lia.
Qed.
End Dupes.

Lemma pairs_in_order pairs : pairs_ok pairs -> in_order pairs.
Proof.
  intros [_ Hs].
  assert (∀ a b, (a <= b < length pairs)%nat -> nth a (ids pairs) 0 <= nth b (ids pairs) 0) as H.
  { intros a b Hab. specialize (Hs (Z.of_nat a) (Z.of_nat b)). unfold at_ in Hs. rewrite !Nat2Z.id in Hs. apply Hs; [lia|].
    unfold Span.len, ids. rewrite length_map. lia. }
  clear Hs. induction pairs as [|p l IH]; constructor.
  - apply IH. intros a b Hab. apply (H (S a) (S b)). cbn [length]. lia.
  - apply Forall_lookup. intros k q Hk. pose proof (lookup_lt_Some _ _ _ Hk) as Hl.
    specialize (H 0%nat (S k)). cbn [ids map nth length] in H. erewrite (nth_lookup_Some _ k) in H; [apply H; lia|].
    by rewrite (list_lookup_fmap (u64 ∘ m_tDocID)), Hk.
Qed.

(** Killing duplicates: on an index whose lookup file holds [pairs], a row
    each and no document with id 0, [KillDupes] kills exactly the rows whose
    document id stands earlier in the lookup as well, so that of the rows of
    one id the first stays as it was; it returns their number and marks the row
    map as changed exactly if there are any. *)
Theorem kill_dupes_correct P hdr pairs x D :
  index_ok P hdr pairs x D -> NoDup (map m_tRowID pairs) -> Forall (λ p, m_tDocID p <> 0) pairs ->
  ∃ n x' D', KillDupes x = Some (n, x') /\ index_ok P hdr pairs x' D' /\
    (∀ i p, pairs !! i = Some p -> m_tRowID p ∈ D' <-> m_tRowID p ∈ D \/ repeated pairs i) /\
    n = Z.of_nat (length (repeats 0 pairs)) /\
    m_uAttrsStatus x' = (if n =? 0 then m_uAttrsStatus x else Z.lor (m_uAttrsStatus x) ATTRS_ROWMAP_UPDATED).
Proof.
  intros Hx Hnd H0. destruct (start P hdr pairs x D Hx) as (it & Eit & Sit). unfold KillDupes. rewrite Eit. cbn [mbind option_bind].
  pose proof (ix_hdr P hdr pairs x D Hx) as Hh. pose proof (fuel_enough P hdr pairs x D [] Hx) as Hf. rewrite Nat.add_0_r in Hf.
  pose proof Hx as []. destruct (dupes_loop_ok P hdr pairs (m_tDocidLookup x) ix_per0 ix_pairs0 ix_file0 ix_some0 ix_size0 Hh
    (kill_fuel x []) pairs it 0 0 (m_tDeadRowMap x) D) as (m' & -> & S' & U'); auto; [lia|lia|].
  cbn [mbind option_bind]. rewrite Z.add_0_l. set (n := Z.of_nat (length (repeats 0 pairs))).
  exists n, (finish_kill n (with_map m' (m_pKillHook x) x)).2, (pair_rows (repeats 0 pairs) ∪ D).
  split; [done|]. split; [unfold finish_kill; cbn [snd]; destruct (n =? 0); by apply (index_ok_map P hdr pairs x D)|].
  split; [|split; [done|unfold finish_kill; cbn [snd]; by destruct (n =? 0)]].
  intros i p Hp. unfold pair_rows. rewrite elem_of_union, elem_of_list_to_set. pose proof (proj1 ix_pairs0) as Hpo.
  assert (∀ q, q ∈ repeats 0 pairs <-> ∃ i, pairs !! i = Some q /\ repeated pairs i) as Hrep.
  { intros q. rewrite repeats_in; [|by apply pairs_in_order|done|unfold in_type; cbn; lia|].
    - rewrite Forall_forall in H0. split; intros (k & Hk & H); exists k; (split; [done|]); [|by right].
      destruct H as [E|?]; [|done]. exfalso. by apply (H0 q); [eapply list_elem_of_lookup_2|].
    - apply Forall_forall. intros q' _. change (u64 0) with 0. apply u64_range. }
  split.
  - intros [Hin|?]; [right|by left]. apply list_elem_of_fmap in Hin as (q & Er & Hq). apply Hrep in Hq as (k & Hk & Hr).
    assert (k = i) as ->; [|done]. eapply (NoDup_lookup _ k i (m_tRowID p) Hnd); apply list_lookup_fmap_Some; [by exists q|by exists p].
  - intros [?|Hr]; [by right|left]. apply list_elem_of_fmap. exists p. split; [done|]. apply Hrep. by exists i.
Qed.

(** An index with three rows of the document 4. *)
Definition dup_pairs : list DocidRowidPair_t :=
  [DocidRowidPair 1 9; DocidRowidPair 4 3; DocidRowidPair 4 8; DocidRowidPair 4 1; DocidRowidPair (-5) 7].
Definition dup_index : CSphIndex_VLN :=
  Index (spt_file dup_pairs 0 []) 74 (reader 64 (spt_file dup_pairs 0 []) 24 dup_pairs)
    (UuidSetData (spt_file dup_pairs 0 []) 0 5) (Reset 10) 0 None.

Lemma dup_index_ok : index_ok 64 24 dup_pairs dup_index ∅.
Proof.
  split; [lia| | |discriminate|vm_compute; discriminate|done|done|apply fresh_stands; lia|].
  - split; [|apply sortedb_sorted; vm_compute; reflexivity]. apply (bool_decide_unpack _). unfold pair_ok, in_type. vm_compute. exact I.
  - apply spt_file_ok; [|vm_compute; reflexivity|unfold in_type; simpl; lia|constructor|vm_compute; reflexivity].
    apply (bool_decide_unpack _). unfold pair_ok, in_type. vm_compute. exact I.
  - apply (bool_decide_unpack _). vm_compute. exact I.
Qed.

Lemma kill_dupes_correct_witness : ∃ n x' D', KillDupes dup_index = Some (n, x') /\ index_ok 64 24 dup_pairs x' D' /\
  (∀ i p, dup_pairs !! i = Some p -> m_tRowID p ∈ D' <-> m_tRowID p ∈ (∅ : gset Z) \/ repeated dup_pairs i) /\
  n = Z.of_nat (length (repeats 0 dup_pairs)) /\
  m_uAttrsStatus x' = (if n =? 0 then m_uAttrsStatus dup_index else Z.lor (m_uAttrsStatus dup_index) ATTRS_ROWMAP_UPDATED).
Proof.
  apply (kill_dupes_correct 64 24 dup_pairs dup_index ∅ dup_index_ok).
  - apply (bool_decide_unpack _). vm_compute. exact I.
  - repeat constructor; cbn; discriminate.
Defined.

Example dup_killed : (λ s, (s.1, m_dData (m_tDeadRowMap s.2))) <$> KillDupes dup_index = Some (2, [258]).
Proof. vm_compute. reflexivity. Qed.
End IndexDupes.
