(* ===== verification/Sort.v ===== *)
(** * Sorting

    [sphSort] of src/src/std/sort_impl.h: quicksort with an explicit stack of 32
    segments, insertion sort for the small segments, heapsort when the
    partitions are bad. The array is a list; the comparator is any function
    [IsLess]; the accessor is the default one (elements are their keys). An
    access outside the array or a push on a full stack is [None]. *)

From stdpp Require Import sorting.
From S2P Require Import Prelude BitVec.
Import BitVec.

Module Sort.

Section Sort.
Context {A : Type} (IsLess : A -> A -> bool).

(** ** The array *)

Definition at_ (l : list A) (i : Z) : option A := if 0 <=? i then l !! Z.to_nat i else None.

(** [ACC.Swap] of two positions. *)
Definition swap (i j : Z) (l : list A) : option (list A) :=
  x ← at_ l i; y ← at_ l j; Some (<[Z.to_nat i := y]> (<[Z.to_nat j := x]> l)).

(** ** Heap sort, on the [iCount] elements from position [pData] on *)

Fixpoint SiftDown (fuel : nat) (pData iStart iEnd : Z) (l : list A) : option (list A) :=
  match fuel with
  | O => None
  | S fuel' =>
      let iChild := iStart * 2 + 1 in
      if iChild >? iEnd then Some l
      else
        let iChild1 := iChild + 1 in
        c ← at_ l (pData + iChild);
        bRight ← (if iChild1 <=? iEnd then c1 ← at_ l (pData + iChild1); Some (IsLess c c1) else Some false);
        let iChild := if (bRight : bool) then iChild1 else iChild in
        c ← at_ l (pData + iChild);
        s ← at_ l (pData + iStart);
        if IsLess c s then Some l
        else
          l ← swap (pData + iChild) (pData + iStart) l;
          SiftDown fuel' pData iChild iEnd l
  end.

(** The loop that builds the heap, from [n - 1] down to [0]. *)
Fixpoint build_heap (n : nat) (pData iCount : Z) (l : list A) : option (list A) :=
  match n with
  | O => Some l
  | S n' => l ← SiftDown (Z.to_nat iCount) pData (Z.of_nat n') (iCount - 1) l; build_heap n' pData iCount l
  end.

(** The loop that moves the root to the end, from [iEnd = n] down to [1]. *)
Fixpoint pop_heap (n : nat) (pData iCount : Z) (l : list A) : option (list A) :=
  match n with
  | O => Some l
  | S n' =>
      l ← swap pData (pData + Z.of_nat n) l;
      l ← SiftDown (Z.to_nat iCount) pData 0 (Z.of_nat n') l;
      pop_heap n' pData iCount l
  end.

Definition HeapSort (pData iCount : Z) (l : list A) : option (list A) :=
  if iCount <=? 1 then Some l
  else
    l ← build_heap (Z.to_nat (Z.shiftr (iCount - 2) 1 + 1)) pData iCount l;
    pop_heap (Z.to_nat (iCount - 1)) pData iCount l.

(** ** Insertion sort of the positions from [a] to [b] *)

Fixpoint sink (n : nat) (a j : Z) (l : list A) : option (list A) :=
  match n with
  | O => Some l
  | S n' =>
      if j >? a then
        let j1 := j - 1 in
        x ← at_ l j1; y ← at_ l j;
        if IsLess x y then Some l
        else l ← swap j j1 l; sink n' a j1 l
      else Some l
  end.

Fixpoint insertion (n : nat) (a i b : Z) (l : list A) : option (list A) :=
  match n with
  | O => Some l
  | S n' =>
      if i <=? b then l ← sink (Z.to_nat (i - a)) a i l; insertion n' a (i + 1) b l
      else Some l
  end.

(** ** Partition around [x] *)

Fixpoint scan_up (n : nat) (i b : Z) (x : A) (l : list A) : option Z :=
  match n with
  | O => Some i
  | S n' => if i <=? b then y ← at_ l i; if IsLess y x then scan_up n' (i + 1) b x l else Some i else Some i
  end.

Fixpoint scan_down (n : nat) (j a : Z) (x : A) (l : list A) : option Z :=
  match n with
  | O => Some j
  | S n' => if j >=? a then y ← at_ l j; if IsLess x y then scan_down n' (j - 1) a x l else Some j else Some j
  end.

Fixpoint partition (fuel : nat) (a b : Z) (x : A) (i j : Z) (l : list A) : option (Z * Z * list A) :=
  match fuel with
  | O => None
  | S fuel' =>
      if i <=? j then
        i ← scan_up (Z.to_nat (b - i + 1)) i b x l;
        j ← scan_down (Z.to_nat (j - a + 1)) j a x l;
        if i <=? j then
          l ← swap i j l;
          partition fuel' a b x (i + 1) (j - 1) l
        else partition fuel' a b x i j l
      else Some (i, j, l)
  end.

(** The stack of segments, its top first. *)
Definition STACK_SIZE : nat := 32.
Definition push (a b : Z) (st : list (Z * Z)) : option (list (Z * Z)) :=
  if (length st <? STACK_SIZE)%nat then Some ((a, b) :: st) else None.

(** The [while ( a < b )] loop: partitions once, then stacks the two parts. *)
Fixpoint split_loop (fuel : nat) (x : A) (a b i j : Z) (st : list (Z * Z)) (l : list A) : option (list (Z * Z) * list A) :=
  match fuel with
  | O => None
  | S fuel' =>
      if a <? b then
        '(i, j, l) ← partition (S (Z.to_nat (b - a + 1))) a b x i j l;
        if j - a >=? b - i then
          st ← (if a <? j then push a j st else Some st);
          split_loop fuel' x i b i j st l
        else
          st ← (if i <? b then push i b st else Some st);
          split_loop fuel' x a j i j st l
      else Some (st, l)
  end.

Definition SMALL_THRESH : Z := 32.

Fixpoint sort_loop (fuel : nat) (iDepthLimit : Z) (st : list (Z * Z)) (l : list A) : option (list A) :=
  match st with
  | [] => Some l
  | (a, b) :: st =>
      match fuel with
      | O => None
      | S fuel' =>
          let iDepthLimit := match st with [] => iDepthLimit - 1 | _ => iDepthLimit end in
          if (match st with [] => true | _ => false end) && (iDepthLimit =? 0) then HeapSort a (b - a + 1) l
          else
            let iLen := b - a in
            if iLen <=? SMALL_THRESH then
              l ← insertion (Z.to_nat iLen) a (a + 1) b l;
              sort_loop fuel' iDepthLimit st l
            else
              x ← at_ l (a + iLen / 2);
              '(st, l) ← split_loop 3 x a b a b st l;
              sort_loop fuel' iDepthLimit st l
      end
  end.

Definition sphSort (l : list A) : option (list A) :=
  let iCount := Z.of_nat (length l) in
  if iCount <? 2 then Some l
  else
    let iDepthLimit := sphLog2const iCount in
    let iDepthLimit := Z.shiftr (Z.shiftl iDepthLimit 2 + iDepthLimit) 1 in
    sort_loop (2 * length l) iDepthLimit [(0, iCount - 1)] l.
End Sort.

Example sort_small : sphSort Z.ltb [5; 3; 9; 1; 3] = Some [1; 3; 3; 5; 9].
Proof. reflexivity. Qed.

Example sort_large : sphSort Z.ltb (map (λ i, (i * 37) mod 101) (seqZ 0 101)) = Some (seqZ 0 101).
Proof. vm_compute. reflexivity. Qed.
End Sort.
