(* ===== verification/SortOk.v ===== *)
(** * [sphSort] sorts

    For a comparator that is a strict weak order, [sphSort] returns a sorted
    permutation; it never leaves the array nor overflows its stack. *)

From stdpp Require Import sorting.
From S2P Require Import Prelude BitVec Sort.
Import BitVec Sort.

Module SortOk.

Section SortOk.
Context {A : Type} `{!Inhabited A} (IsLess : A -> A -> bool).

(** [x] may stand before [y]. *)
Definition le (x y : A) : Prop := IsLess y x = false.

Hypothesis less_asym : ∀ x y, IsLess x y = true -> IsLess y x = false.
Hypothesis le_trans : ∀ x y z, le x y -> le y z -> le x z.

Lemma less_le x y : IsLess x y = true -> le x y.
Proof. apply less_asym. Qed.

Lemma le_refl x : le x x.
Proof. unfold le. destruct (IsLess x x) eqn:E; [|done]. pose proof (less_asym _ _ E). congruence. Qed.

Lemma le_total x y : le x y \/ le y x.
Proof. unfold le. destruct (IsLess y x) eqn:E; [right; by apply less_asym|by left]. Qed.

(** ** Positions *)

Definition g (l : list A) (i : Z) : A := l !!! Z.to_nat i.
Abbreviation len l := (Z.of_nat (length l)).

Lemma at_ok l i : 0 <= i < len l -> at_ l i = Some (g l i).
Proof.
  intros Hi. unfold at_, g. rewrite (proj2 (Z.leb_le 0 i)) by lia. apply list_lookup_lookup_total_lt. lia.
Qed.

Definition exch (i j : Z) (l : list A) : list A := <[Z.to_nat i := g l j]> (<[Z.to_nat j := g l i]> l).

Lemma swap_ok i j l : 0 <= i < len l -> 0 <= j < len l -> swap i j l = Some (exch i j l).
Proof. intros Hi Hj. unfold swap. rewrite !at_ok by done. done. Qed.

Lemma exch_length i j l : length (exch i j l) = length l.
Proof. unfold exch. by rewrite !length_insert. Qed.

Lemma exch_at i j l k : 0 <= i < len l -> 0 <= j < len l -> 0 <= k ->
  g (exch i j l) k = if k =? i then g l j else if k =? j then g l i else g l k.
Proof.
  intros Hi Hj Hk. unfold exch, g at 1. destruct (Z.eqb_spec k i) as [->|N1].
  - apply list_lookup_total_insert_eq. rewrite length_insert. lia.
  - rewrite list_lookup_total_insert_ne by lia. destruct (Z.eqb_spec k j) as [->|N2].
    + apply list_lookup_total_insert_eq. lia.
    + rewrite list_lookup_total_insert_ne by lia. done.
Qed.

Lemma split_two (l : list A) (a b : nat) : (a < b < length l)%nat ->
  ∃ p m e, l = p ++ (l !!! a) :: m ++ (l !!! b) :: e /\ length p = a /\ length m = (b - a - 1)%nat.
Proof.
  intros Hab. exists (take a l), (take (b - a - 1) (drop (S a) l)), (drop (S b) l).
  pose proof (list_lookup_lookup_total_lt l a ltac:(lia)) as Ea.
  pose proof (list_lookup_lookup_total_lt l b ltac:(lia)) as Eb.
  rewrite !length_take, length_drop. repeat split; [|lia|lia].
  rewrite <- (take_drop_middle l a _ Ea) at 1. do 2 f_equal.
  assert (drop (S a) l !! (b - a - 1)%nat = Some (l !!! b)) as E.
  { rewrite lookup_drop. by replace (S a + (b - a - 1))%nat with b by lia. }
  rewrite <- (take_drop_middle _ _ _ E) at 1. do 2 f_equal. rewrite drop_drop. f_equal. lia.
Qed.

Lemma insert_mid {B} (p e : list B) x y k : length p = k -> <[k := y]> (p ++ x :: e) = p ++ y :: e.
Proof. intros <-. induction p as [|z p IH]; [done|]. cbn. f_equal. exact IH. Qed.

Lemma exch_perm i j l : 0 <= i < len l -> 0 <= j < len l -> exch i j l ≡ₚ l.
Proof.
  intros Hi Hj.
  assert (∀ a b, (a < b < length l)%nat -> <[a := l !!! b]> (<[b := l !!! a]> l) ≡ₚ l) as G.
  { intros a b Hab. destruct (split_two l a b Hab) as (p & m & e & E & Lp & Lm).
    set (x := l !!! a) in *. set (y := l !!! b) in *. rewrite E, app_comm_cons, app_assoc.
    rewrite insert_mid by (rewrite length_app; cbn; lia). rewrite <- app_assoc. cbn [app].
    rewrite insert_mid by done. rewrite <- app_assoc. cbn [app]. rewrite <- !Permutation_middle. apply perm_swap. }
  unfold exch, g. destruct (Nat.lt_trichotomy (Z.to_nat i) (Z.to_nat j)) as [H|[H|H]].
  - apply G. lia.
  - rewrite H, list_insert_insert_eq. rewrite list_insert_id; [done|]. apply list_lookup_lookup_total_lt. lia.
  - rewrite list_insert_insert_ne by lia. apply G. lia.
Qed.

(** [l'] rearranges the positions from [a] to [b] of [l]. *)
Record perm_in (a b : Z) (l l' : list A) : Prop := {
  pi_len : length l' = length l;
  pi_perm : l' ≡ₚ l;
  pi_out : ∀ k, 0 <= k -> k < a \/ b < k -> g l' k = g l k;
  pi_in : ∀ k, a <= k <= b -> ∃ k', a <= k' <= b /\ g l' k = g l k' }.

Lemma perm_in_refl a b l : perm_in a b l l.
Proof. split; eauto. Qed.

Lemma perm_in_trans a b l1 l2 l3 : perm_in a b l1 l2 -> perm_in a b l2 l3 -> perm_in a b l1 l3.
Proof.
  intros [L1 P1 O1 I1] [L2 P2 O2 I2]. split.
  - congruence.
  - by rewrite P2.
  - intros k H0 Hk. by rewrite O2, O1.
  - intros k Hk. destruct (I2 k Hk) as (k' & Hk' & ->). eauto.
Qed.

Lemma perm_in_mono a b a' b' l l' : 0 <= a' -> a' <= a -> b <= b' -> perm_in a b l l' -> perm_in a' b' l l'.
Proof.
  intros H0 Ha Hb [L P O I]. split; auto.
  - intros k Hk ?. apply O; lia.
  - intros k Hk. destruct (decide (a <= k <= b)) as [H|H].
    + destruct (I k H) as (k' & ? & ->). exists k'. split; [lia|done].
    + exists k. split; [lia|]. apply O; lia.
Qed.

Lemma exch_perm_in a b i j l : 0 <= a -> b < len l -> a <= i <= b -> a <= j <= b -> perm_in a b l (exch i j l).
Proof.
  intros Ha Hb Hi Hj. split.
  - apply exch_length.
  - apply exch_perm; lia.
  - intros k Hk Ho. rewrite exch_at by lia.
    rewrite (proj2 (Z.eqb_neq k i)), (proj2 (Z.eqb_neq k j)) by lia. done.
  - intros k Hk. rewrite exch_at by lia. destruct (k =? i); [eauto|]. destruct (k =? j); eauto.
Qed.

(** The positions from [a] to [b] are in order. *)
Definition srt (a b : Z) (l : list A) : Prop := ∀ p q, a <= p -> p < q -> q <= b -> le (g l p) (g l q).

(** ** Insertion sort *)

Ltac at_exch := rewrite !exch_at by lia; repeat (case Z.eqb_spec; intros; try lia).

Lemma sink_ok n a i : ∀ j l, n = Z.to_nat (j - a) -> 0 <= a -> a <= j <= i -> i < len l ->
  (∀ p q, a <= p -> p < q -> q <= i -> p <> j -> q <> j -> le (g l p) (g l q)) ->
  (∀ q, j < q <= i -> le (g l j) (g l q)) ->
  ∃ l', sink IsLess n a j l = Some l' /\ perm_in a i l l' /\ srt a i l'.
Proof.
  assert (∀ j l, a <= j -> (∀ p q, a <= p -> p < q -> q <= i -> p <> j -> q <> j -> le (g l p) (g l q)) ->
    (∀ q, j < q <= i -> le (g l j) (g l q)) -> (∀ p, a <= p < j -> le (g l p) (g l j)) -> srt a i l) as Fin.
  { intros j l Hj H1 H2 H3 p q Hp Hpq Hq. destruct (decide (p = j)) as [->|]; [apply H2; lia|].
    destruct (decide (q = j)) as [->|]; [apply H3; lia|]. auto. }
  induction n as [|n IH]; intros j l En Ha Hj Hi H1 H2.
  - exists l. split; [done|]. split; [apply perm_in_refl|]. apply (Fin j); auto; lia.
  - cbn [sink]. rewrite Z.gtb_ltb, (proj2 (Z.ltb_lt _ _)) by lia. rewrite !at_ok by lia. cbn [mbind option_bind].
    destruct (IsLess (g l (j - 1)) (g l j)) eqn:E.
    + exists l. split; [done|]. split; [apply perm_in_refl|]. apply (Fin j); auto; [lia|]. intros p Hp.
      destruct (decide (p = j - 1)) as [->|]; [by apply less_le|].
      apply (le_trans _ (g l (j - 1))); [apply H1; lia|by apply less_le].
    + rewrite swap_ok by lia. cbn [mbind option_bind].
      destruct (IH (j - 1) (exch j (j - 1) l)) as (l' & -> & P & S'); rewrite ?exch_length; try lia.
      * intros p q Hp Hpq Hq N1 N2. at_exch; apply H1; lia.
      * intros q Hq. at_exch; [exact E|apply H2; lia].
      * exists l'. split; [done|]. split; [|done]. eapply perm_in_trans; [|done]. apply exch_perm_in; lia.
Qed.

Lemma insertion_ok n a b : ∀ i l, n = Z.to_nat (b - i + 1) -> 0 <= a -> a < i <= b + 1 -> b < len l -> srt a (i - 1) l ->
  ∃ l', insertion IsLess n a i b l = Some l' /\ perm_in a b l l' /\ srt a b l'.
Proof.
  induction n as [|n IH]; intros i l En Ha Hi Hb Hs.
  - exists l. split; [done|]. split; [apply perm_in_refl|]. by replace b with (i - 1) by lia.
  - cbn [insertion]. rewrite (proj2 (Z.leb_le _ _)) by lia.
    destruct (sink_ok (Z.to_nat (i - a)) a i i l) as (l1 & -> & P1 & S1); try lia.
    { intros p q Hp Hpq Hq N1 N2. apply Hs; lia. }
    cbn [mbind option_bind]. destruct (IH (i + 1) l1) as (l2 & -> & P2 & S2); rewrite ?(pi_len _ _ _ _ P1); try lia.
    { by replace (i + 1 - 1) with i by lia. }
    exists l2. split; [done|]. split; [|done]. eapply perm_in_trans; [|done]. eapply perm_in_mono; [..|exact P1]; lia.
Qed.

(** ** Partition *)

Lemma scan_up_ok n b x l : ∀ i, n = Z.to_nat (b - i + 1) -> 0 <= i <= b + 1 -> b < len l ->
  ∃ i', scan_up IsLess n i b x l = Some i' /\ i <= i' <= b + 1 /\ (∀ k, i <= k < i' -> le (g l k) x) /\
    (i' <= b -> le x (g l i')) /\ (∀ k, i <= k <= b -> le x (g l k) -> i' <= k).
Proof.
  induction n as [|n IH]; intros i En Hi Hb.
  - exists i. split; [done|]. repeat split; try lia; intros; lia.
  - cbn [scan_up]. rewrite (proj2 (Z.leb_le _ _)) by lia. rewrite at_ok by lia. cbn [mbind option_bind].
    destruct (IsLess (g l i) x) eqn:E.
    + destruct (IH (i + 1)) as (i' & -> & R & F & St & M); try lia. exists i'. split; [done|]. repeat split; try lia; auto.
      * intros k Hk. destruct (decide (k = i)) as [->|]; [by apply less_le|apply F; lia].
      * intros k Hk Hx. apply M; [|done]. destruct (decide (k = i)) as [->|]; [|lia].
        unfold le in Hx. congruence.
    + exists i. split; [done|]. repeat split; try lia; try (intros; lia). intros _. exact E.
Qed.

Lemma scan_down_ok n a x l : ∀ j, n = Z.to_nat (j - a + 1) -> 0 <= a -> a - 1 <= j < len l ->
  ∃ j', scan_down IsLess n j a x l = Some j' /\ a - 1 <= j' <= j /\ (∀ k, j' < k <= j -> le x (g l k)) /\
    (a <= j' -> le (g l j') x) /\ (∀ k, a <= k <= j -> le (g l k) x -> k <= j').
Proof.
  induction n as [|n IH]; intros j En Ha Hj.
  - exists j. split; [done|]. repeat split; try lia; intros; lia.
  - cbn [scan_down]. rewrite Z.geb_leb, (proj2 (Z.leb_le _ _)) by lia. rewrite at_ok by lia. cbn [mbind option_bind].
    destruct (IsLess x (g l j)) eqn:E.
    + destruct (IH (j - 1)) as (j' & -> & R & F & St & M); try lia. exists j'. split; [done|]. repeat split; try lia; auto.
      * intros k Hk. destruct (decide (k = j)) as [->|]; [by apply less_le|apply F; lia].
      * intros k Hk Hx. apply M; [|done]. destruct (decide (k = j)) as [->|]; [|lia].
        unfold le in Hx. congruence.
    + exists j. split; [done|]. repeat split; try lia; try (intros; lia). intros _. exact E.
Qed.

(** Everything before [i] may stand before [x], everything after [j] after it. *)
Definition parted (a b : Z) (x : A) (i j : Z) (l : list A) : Prop :=
  (∀ k, a <= k < i -> le (g l k) x) /\ (∀ k, j < k <= b -> le x (g l k)).

(** The partition has moved off the ends, or will do so. *)
Definition moves (a b : Z) (x : A) (i j : Z) (l : list A) : Prop :=
  (a < i /\ j < b) \/ ∃ m, i <= m <= j /\ g l m = x.

Lemma partition_ok fuel a b x : ∀ i j l, (Z.to_nat (j - i + 1) < fuel)%nat -> 0 <= a -> a <= i <= b + 1 -> a - 1 <= j <= b ->
  b < len l -> parted a b x i j l -> moves a b x i j l ->
  ∃ i' j' l', partition IsLess fuel a b x i j l = Some (i', j', l') /\ perm_in a b l l' /\
    parted a b x i' j' l' /\ j' < i' /\ a < i' <= b + 1 /\ a - 1 <= j' < b.
Proof.
  induction fuel as [|fuel IH]; intros i j l Hf Ha Hi Hj Hb [PL PR] Mv; [lia|]. cbn [partition].
  destruct (Z.leb_spec i j) as [Hij|Hij].
  2:{ exists i, j, l. split; [done|]. split; [apply perm_in_refl|]. destruct Mv as [?|(m & ? & _)]; [|lia]. repeat split; auto; lia. }
  destruct (scan_up_ok (Z.to_nat (b - i + 1)) b x l i) as (i1 & -> & Ri & Fi & Si & Mi); try lia.
  destruct (scan_down_ok (Z.to_nat (j - a + 1)) a x l j) as (j1 & -> & Rj & Fj & Sj & Mj); try lia. cbn [mbind option_bind].
  assert (parted a b x i1 j1 l) as [QL QR].
  { split; intros k Hk; [destruct (decide (k < i)); [apply PL|apply Fi]; lia|destruct (decide (j < k)); [apply PR|apply Fj]; lia]. }
  destruct (Z.leb_spec i1 j1) as [H1|H1].
  - rewrite swap_ok by lia. cbn [mbind option_bind].
    destruct (IH (i1 + 1) (j1 - 1) (exch i1 j1 l)) as (i2 & j2 & l2 & -> & P & Q); rewrite ?exch_length; try lia.
    + split; intros k Hk; at_exch; subst;
        first [apply Si; lia|apply Sj; lia|apply QL; lia|apply QR; lia|replace j1 with i1 by lia; apply Si; lia].
    + left. lia.
    + exists i2, j2, l2. split; [done|]. split; [|done]. eapply perm_in_trans; [|done]. apply exch_perm_in; lia.
  - assert (a < i1 /\ j1 < b) as Hm.
    { destruct Mv as [?|(m & Hm & Ex)]; [lia|].
      pose proof (Mi m ltac:(lia)) as M1. pose proof (Mj m ltac:(lia)) as M2. rewrite Ex in M1, M2.
      specialize (M1 (le_refl x)). specialize (M2 (le_refl x)). lia. }
    destruct (IH i1 j1 l) as (i2 & j2 & l2 & -> & P & Q); try lia; [by split|by left|]. eauto 10.
Qed.

(** ** One partition of a segment and its two parts on the stack *)

Definition size (s : Z * Z) : Z := s.2 - s.1 + 1.
Definition proper (a b : Z) : list (Z * Z) := if a <? b then [(a, b)] else [].

Lemma push_proper a b st : (length st < STACK_SIZE)%nat ->
  (if a <? b then push a b st else Some st) = Some (proper a b ++ st).
Proof. intros H. unfold push, proper. rewrite (proj2 (Nat.ltb_lt _ _)) by done. by destruct (a <? b). Qed.

(** The smaller part ends on the top. *)
Definition parts (a b i j : Z) : list (Z * Z) :=
  if j - a >=? b - i then proper i b ++ proper a j else proper a j ++ proper i b.

Lemma partition_done fuel a b x i j l : j < i -> partition IsLess (S fuel) a b x i j l = Some (i, j, l).
Proof. intros. cbn [partition]. by rewrite (proj2 (Z.leb_gt _ _)) by lia. Qed.

Lemma proper_length a b : (length (proper a b) <= 1)%nat.
Proof. unfold proper. case_match; cbn; lia. Qed.

(** One turn of the loop, when the segment is partitioned by [i] and [j]. *)
Lemma split_loop_step fuel x a b i0 j0 i j st l l' : a < b -> (length st < STACK_SIZE)%nat ->
  partition IsLess (S (Z.to_nat (b - a + 1))) a b x i0 j0 l = Some (i, j, l') ->
  split_loop IsLess (S fuel) x a b i0 j0 st l =
    if j - a >=? b - i then split_loop IsLess fuel x i b i j (proper a j ++ st) l'
    else split_loop IsLess fuel x a j i j (proper i b ++ st) l'.
Proof.
  intros Hab Hst E. cbn [split_loop]. rewrite (proj2 (Z.ltb_lt a b)), E by lia. cbn [mbind option_bind].
  rewrite !push_proper by done. done.
Qed.

Lemma split_loop_done fuel x a b i j st l : b <= a -> split_loop IsLess (S fuel) x a b i j st l = Some (st, l).
Proof. intros. cbn [split_loop]. by rewrite (proj2 (Z.ltb_ge _ _)) by lia. Qed.

Lemma proper_none a b : b <= a -> proper a b = [].
Proof. intros. unfold proper. by rewrite (proj2 (Z.ltb_ge _ _)) by lia. Qed.

Lemma split_loop_ok a b x st l : 0 <= a < b -> b < len l -> (length st + 2 <= STACK_SIZE)%nat ->
  (∃ m, a <= m <= b /\ g l m = x) ->
  ∃ i j l', split_loop IsLess 3 x a b a b st l = Some (parts a b i j ++ st, l') /\ perm_in a b l l' /\
    parted a b x i j l' /\ j < i /\ a < i <= b + 1 /\ a - 1 <= j < b.
Proof.
  intros Ha Hb Hst Hx.
  destruct (partition_ok (S (Z.to_nat (b - a + 1))) a b x a b l) as (i & j & l' & E & P & Q & B); try lia.
  { split; intros; lia. } { by right. }
  exists i, j, l'. split; [|done]. rewrite (split_loop_step _ _ _ _ _ _ i j _ _ l') by (done || lia).
  unfold parts. pose proof (proper_length a j). pose proof (proper_length i b). destruct (Z.geb_spec (j - a) (b - i)) as [C|C].
  - destruct (Z.ltb_spec i b) as [H1|H1]; [|by rewrite split_loop_done, (proper_none i b) by lia].
    rewrite (split_loop_step _ _ _ _ _ _ i j _ _ l') by (rewrite ?length_app; lia || (apply partition_done; lia)).
    rewrite Z.geb_leb, (proj2 (Z.leb_gt _ _)), split_loop_done by lia. by rewrite app_assoc.
  - destruct (Z.ltb_spec a j) as [H1|H1]; [|by rewrite split_loop_done, (proper_none a j) by lia].
    rewrite (split_loop_step _ _ _ _ _ _ i j _ _ l') by (rewrite ?length_app; lia || (apply partition_done; lia)).
    rewrite Z.geb_leb, (proj2 (Z.leb_le _ _)), split_loop_done by lia. by rewrite app_assoc.
Qed.

(** ** Heap sort *)

(** [c] is a child of [k]. *)
Definition child (k c : Z) : Prop := c = 2 * k + 1 \/ c = 2 * k + 2.

(** The positions from [s] to [e] (from [a] on) are a heap, but for [i]. *)
Definition heap_but (a s e i : Z) (l : list A) : Prop :=
  ∀ k c, s <= k -> k <> i -> child k c -> c <= e -> le (g l (a + c)) (g l (a + k)).

(** The children of [i] may stand under its parent. *)
Definition grand (a s e i : Z) (l : list A) : Prop :=
  ∀ k c, s <= k -> child k i -> child i c -> c <= e -> le (g l (a + c)) (g l (a + k)).

Lemma SiftDown_ok fuel a s e : ∀ i l, e - i + 1 <= Z.of_nat fuel -> (0 < fuel)%nat -> 0 <= a -> 0 <= s <= i -> a + e < len l ->
  heap_but a s e i l -> grand a s e i l ->
  ∃ l', SiftDown IsLess fuel a i e l = Some l' /\ perm_in (a + s) (a + e) l l' /\ heap_but a s e (-1) l'.
Proof.
  induction fuel as [|fuel IH]; intros i l Hf H0 Ha Hs He Hh Hg; [lia|]. cbn [SiftDown].
  replace (i * 2 + 1) with (2 * i + 1) by lia. destruct (Z.gtb_spec (2 * i + 1) e) as [C|C].
  { exists l. split; [done|]. split; [apply perm_in_refl|]. intros k c Hk _ Hc Hce. apply Hh; auto. unfold child in *. lia. }
  rewrite (at_ok l (a + (2 * i + 1))) by lia. cbn [mbind option_bind].
  assert (∃ b c, (if 2 * i + 1 + 1 <=? e then c1 ← at_ l (a + (2 * i + 1 + 1)); Some (IsLess (g l (a + (2 * i + 1))) c1) else Some false) = Some b /\
    c = (if (b : bool) then 2 * i + 1 + 1 else 2 * i + 1) /\ child i c /\ c <= e /\
    ∀ c', child i c' -> c' <= e -> le (g l (a + c')) (g l (a + c))) as (b & c & -> & Ec & Hc & Hce & Hmax).
  { destruct (Z.leb_spec (2 * i + 1 + 1) e) as [C1|C1].
    - rewrite at_ok by lia. cbn [mbind option_bind]. destruct (IsLess _ _) eqn:E; eexists _, _; (split; [done|]); (split; [done|]); unfold child in *;
        (split; [lia|]); (split; [lia|]); intros c' [->| ->] Hc'; replace (2 * i + 1 + 1) with (2 * i + 2) in * by lia;
        first [apply le_refl|by apply less_le|exact E].
    - exists false, (2 * i + 1). split; [done|]. split; [done|]. unfold child. split; [lia|]. split; [lia|].
      intros c' [->| ->] Hc'; [apply le_refl|lia]. }
  cbn [mbind option_bind]. rewrite <- Ec. clear Ec. unfold child in Hc. rewrite !at_ok by lia. cbn [mbind option_bind].
  destruct (IsLess (g l (a + c)) (g l (a + i))) eqn:E.
  - exists l. split; [done|]. split; [apply perm_in_refl|]. intros k c' Hk _ Hc' Hce'.
    destruct (decide (k = i)) as [->|]; [|by apply Hh]. apply (le_trans _ (g l (a + c))); [by apply Hmax|by apply less_le].
  - rewrite swap_ok by lia. cbn [mbind option_bind].
    destruct (IH c (exch (a + c) (a + i) l)) as (l' & -> & P & Q); rewrite ?exch_length; try lia.
    + intros k c' Hk N Hc' Hce'. unfold child in Hc'. at_exch;
        first [exact E|apply Hmax; unfold child; lia|apply Hg; unfold child; lia|apply Hh; unfold child; lia].
    + intros k c' Hk Hc1 Hc2 Hce'. unfold child in *. replace k with i in * by lia. at_exch. apply Hh; unfold child; lia.
    + exists l'. split; [done|]. split; [|done]. eapply perm_in_trans; [|done]. apply exch_perm_in; lia.
Qed.

Lemma build_heap_ok n a cnt : ∀ l, 2 <= cnt -> 0 <= a -> a + cnt <= len l -> heap_but a (Z.of_nat n) (cnt - 1) (-1) l ->
  ∃ l', build_heap IsLess n a cnt l = Some l' /\ perm_in a (a + cnt - 1) l l' /\ heap_but a 0 (cnt - 1) (-1) l'.
Proof.
  induction n as [|n IH]; intros l Hc Ha Hl Hh; cbn [build_heap].
  { exists l. split; [done|]. split; [apply perm_in_refl|done]. }
  destruct (SiftDown_ok (Z.to_nat cnt) a (Z.of_nat n) (cnt - 1) (Z.of_nat n) l) as (l1 & -> & P1 & H1); try lia.
  { intros k c Hk N Hcc Hce. apply Hh; auto; lia. }
  { intros k c Hk Hcc _ _. unfold child in Hcc. lia. }
  cbn [mbind option_bind]. destruct (IH l1) as (l2 & -> & P2 & H2); rewrite ?(pi_len _ _ _ _ P1); auto.
  exists l2. split; [done|]. split; [|done]. eapply perm_in_trans; [|done]. eapply perm_in_mono; [..|exact P1]; lia.
Qed.

Lemma heap_root a e l : heap_but a 0 e (-1) l -> ∀ k, 0 <= k <= e -> le (g l (a + k)) (g l (a + 0)).
Proof.
  intros Hh k. induction k as [k IH] using (well_founded_induction (Z.lt_wf 0)). intros Hk.
  destruct (decide (k = 0)) as [->|]; [apply le_refl|].
  pose proof (Z.div_mod (k - 1) 2 ltac:(lia)) as D. pose proof (Z.mod_pos_bound (k - 1) 2 ltac:(lia)) as M.
  apply (le_trans _ (g l (a + (k - 1) / 2))).
  - apply Hh; try lia. unfold child. lia.
  - apply IH; lia.
Qed.

Lemma pop_heap_ok n a cnt : ∀ l, 2 <= cnt -> 0 <= a -> a + cnt <= len l -> Z.of_nat n < cnt ->
  heap_but a 0 (Z.of_nat n) (-1) l ->
  (∀ p q, 0 <= p -> p < q -> Z.of_nat n < q < cnt -> le (g l (a + p)) (g l (a + q))) ->
  ∃ l', pop_heap IsLess n a cnt l = Some l' /\ perm_in a (a + cnt - 1) l l' /\ srt a (a + cnt - 1) l'.
Proof.
  induction n as [|n IH]; intros l Hc Ha Hl Hn Hh Ho.
  { exists l. split; [done|]. split; [apply perm_in_refl|]. intros p q Hp Hpq Hq.
    replace p with (a + (p - a)) by lia. replace q with (a + (q - a)) by lia. apply Ho; lia. }
  cbn [pop_heap]. rewrite swap_ok by lia. cbn [mbind option_bind]. set (l1 := exch a (a + Z.of_nat (S n)) l).
  assert (length l1 = length l) as L1 by apply exch_length.
  pose proof (heap_root _ _ _ Hh) as Hr. rewrite Z.add_0_r in Hr.
  destruct (SiftDown_ok (Z.to_nat cnt) a 0 (Z.of_nat n) 0 l1) as (l2 & -> & P2 & H2); rewrite ?L1; try lia.
  { intros k c Hk N Hcc Hce. unfold l1, child in *. at_exch. apply Hh; unfold child; lia. }
  { intros k c Hk Hcc _ _. unfold child in Hcc. lia. }
  cbn [mbind option_bind].
  assert (perm_in a (a + cnt - 1) l l2) as P.
  { eapply perm_in_trans; [apply exch_perm_in|eapply perm_in_mono; [..|exact P2]]; lia. }
  destruct (IH l2) as (l3 & -> & P3 & S3); rewrite ?(pi_len _ _ _ _ P); try lia; auto.
  { intros p q Hp Hpq Hq. rewrite (pi_out _ _ _ _ P2 (a + q)) by lia.
    assert (∀ p', 0 <= p' < q -> le (g l1 (a + p')) (g l1 (a + q))) as G.
    { intros p' Hp'. unfold l1. at_exch;
        first [apply Hr; lia|apply Ho; lia|replace (g l a) with (g l (a + 0)) by (f_equal; lia); apply Ho; lia]. }
    destruct (decide (p <= Z.of_nat n)) as [Hpn|Hpn].
    - destruct (pi_in _ _ _ _ P2 (a + p)) as (k & Hk & ->); [lia|]. replace k with (a + (k - a)) by lia. apply G. lia.
    - rewrite (pi_out _ _ _ _ P2 (a + p)) by lia. apply G. lia. }
  exists l3. split; [done|]. split; [|done]. by eapply perm_in_trans.
Qed.

Lemma HeapSort_ok a cnt l : 0 <= a -> 2 <= cnt -> a + cnt <= len l ->
  ∃ l', HeapSort IsLess a cnt l = Some l' /\ perm_in a (a + cnt - 1) l l' /\ srt a (a + cnt - 1) l'.
Proof.
  intros Ha Hc Hl. unfold HeapSort. rewrite (proj2 (Z.leb_gt _ _)) by lia. rewrite Z.shiftr_div_pow2 by lia. change (2 ^ 1) with 2.
  pose proof (Z.div_mod (cnt - 2) 2 ltac:(lia)). pose proof (Z.mod_pos_bound (cnt - 2) 2 ltac:(lia)).
  destruct (build_heap_ok (Z.to_nat ((cnt - 2) / 2 + 1)) a cnt l) as (l1 & -> & P1 & H1); auto.
  { intros k c Hk _ Hcc Hce. unfold child in Hcc. lia. }
  cbn [mbind option_bind]. destruct (pop_heap_ok (Z.to_nat (cnt - 1)) a cnt l1) as (l2 & -> & P2 & S2); rewrite ?(pi_len _ _ _ _ P1); try lia.
  { by rewrite Z2Nat.id by lia. }
  exists l2. split; [done|]. split; [|done]. by eapply perm_in_trans.
Qed.

(** ** The stack of segments *)

Definition apart (s s' : Z * Z) : Prop := s.2 < s'.1 \/ s'.2 < s.1.

Fixpoint disjoint_segs (st : list (Z * Z)) : Prop :=
  match st with [] => True | s :: st => Forall (apart s) st /\ disjoint_segs st end.

(** Each part on the stack has at most half the size allowed below it. *)
Fixpoint fits (n : Z) (st : list (Z * Z)) : Prop :=
  match st with [] => True | s :: st => size s * 2 ^ Z.of_nat (length st) <= n /\ fits n st end.

Fixpoint todo (st : list (Z * Z)) : Z :=
  match st with [] => 0 | s :: st => 2 * size s - 1 + todo st end.

Definition inside (a b : Z) (s : Z * Z) : Prop := a <= s.1 /\ s.1 < s.2 /\ s.2 <= b.
Definition covers (st : list (Z * Z)) (p q : Z) : Prop := Exists (λ s, s.1 <= p /\ q <= s.2) st.

(** What the loop keeps: two positions are in order unless one segment that
    is still to be sorted has them both. *)
Record stack_inv (st : list (Z * Z)) (l : list A) : Prop := {
  si_in : Forall (inside 0 (len l - 1)) st;
  si_apart : disjoint_segs st;
  si_ord : ∀ p q, 0 <= p -> p < q -> q < len l -> le (g l p) (g l q) \/ covers st p q }.

Lemma disjoint_app st1 st2 : disjoint_segs st1 -> disjoint_segs st2 -> Forall (λ s, Forall (apart s) st2) st1 ->
  disjoint_segs (st1 ++ st2).
Proof.
  induction st1 as [|s st1 IH]; cbn; [done|]. intros [H1 H2] H3 H4. apply Forall_cons in H4 as [H4 H5].
  rewrite Forall_app. auto.
Qed.

Lemma stack_inv_step a b st segs l l' : stack_inv ((a, b) :: st) l -> perm_in a b l l' ->
  Forall (inside a b) segs -> disjoint_segs segs ->
  (∀ p q, a <= p -> p < q -> q <= b -> le (g l' p) (g l' q) \/ covers segs p q) ->
  stack_inv (segs ++ st) l'.
Proof.
  intros [Hin [Ha Hd] Ho] P Hs Hsd Hso. apply Forall_cons in Hin as [(H1 & H2 & H3) Hin]. cbn in H1, H2, H3.
  rewrite Forall_forall in Ha. split.
  - rewrite (pi_len _ _ _ _ P). apply Forall_app. split; [|done]. eapply Forall_impl; [exact Hs|]. unfold inside. lia.
  - apply disjoint_app; auto. eapply Forall_impl; [exact Hs|]. intros s [? ?]. apply Forall_forall. intros s' Hs'.
    specialize (Ha s' Hs'). unfold apart in *. cbn in Ha. lia.
  - rewrite (pi_len _ _ _ _ P). intros p q Hp Hpq Hq.
    assert (∀ p' q', 0 <= p' -> p' < q' -> q' < len l -> p' < a \/ b < q' -> (a <= p' <= b \/ p' = p) -> (a <= q' <= b \/ q' = q) ->
      le (g l p') (g l q') \/ covers (segs ++ st) p q) as G.
    { intros p' q' ? ? ? Hpq' Ep Eq. destruct (Ho p' q') as [|C]; [lia..|by left|]. right. unfold covers in *. apply Exists_app. right.
      apply Exists_cons in C as [C|C]; [cbn in C; lia|]. apply Exists_exists in C as (s & Hs' & C). specialize (Ha s Hs').
      unfold apart in Ha. cbn in Ha. apply Exists_exists. exists s. split; [done|]. lia. }
    destruct (decide (a <= p <= b)) as [Ip|Ip], (decide (a <= q <= b)) as [Iq|Iq].
    + destruct (Hso p q) as [?|C]; [lia..|by left|]. right. apply Exists_app. by left.
    + destruct (pi_in _ _ _ _ P p Ip) as (p' & Hp' & ->). rewrite (pi_out _ _ _ _ P q) by lia. apply G; lia.
    + destruct (pi_in _ _ _ _ P q Iq) as (q' & Hq' & ->). rewrite (pi_out _ _ _ _ P p) by lia. apply G; lia.
    + rewrite (pi_out _ _ _ _ P q), (pi_out _ _ _ _ P p) by lia. destruct (decide (p < a /\ b < q)); [apply G; lia|].
      destruct (Ho p q) as [?|C]; [lia..|by left|]. right. apply Exists_app. right. apply Exists_cons in C as [C|C]; [cbn in C; lia|done].
Qed.

Lemma stack_inv_done a b st l l' : stack_inv ((a, b) :: st) l -> perm_in a b l l' -> srt a b l' -> stack_inv st l'.
Proof.
  intros I P Q. apply (stack_inv_step a b st [] l l' I P); [by constructor|done|]. intros p q ? ? ?. left. by apply Q.
Qed.

(** ** The loop *)

Lemma parts_ok n a b i j st : a < b -> j < i -> a < i <= b + 1 -> a - 1 <= j < b -> fits n ((a, b) :: st) ->
  Forall (inside a b) (parts a b i j) /\ disjoint_segs (parts a b i j) /\ fits n (parts a b i j ++ st) /\
  todo (parts a b i j ++ st) < todo ((a, b) :: st) /\
  (∀ p q, a <= p -> p < q -> q <= b -> i <= p \/ q <= j -> covers (parts a b i j) p q).
Proof.
  intros Hab Hji Hi Hj [F1 F2].
  assert (0 < 2 ^ Z.of_nat (length st)) as Hp by (apply Z.pow_pos_nonneg; lia).
  assert (∀ k, Z.of_nat (S k) = Z.succ (Z.of_nat k)) as Sk by lia.
  unfold parts, proper, covers, size in *. destruct (Z.geb_spec (j - a) (b - i)) as [C|C];
    destruct (Z.ltb_spec i b) as [Ci|Ci], (Z.ltb_spec a j) as [Cj|Cj];
    cbn [app fits todo disjoint_segs length] in *; unfold size in *; cbn [fst snd] in *; rewrite ?Sk, ?Z.pow_succ_r by lia;
    (split; [repeat constructor; cbn; lia|]); (split; [unfold apart; repeat constructor; cbn; lia|]);
    (split; [repeat split; auto; nia|]); (split; [lia|]); intros p q Hp1 Hpq Hq [H|H];
    first [lia|apply Exists_cons_hd; cbn; lia|apply Exists_cons_tl, Exists_cons_hd; cbn; lia].
Qed.

Lemma sort_loop_ok n fuel : ∀ d st l, todo st <= Z.of_nat fuel -> n < 34 * 2 ^ 31 -> stack_inv st l -> fits n st ->
  ∃ l', sort_loop IsLess fuel d st l = Some l' /\ l' ≡ₚ l /\ stack_inv [] l'.
Proof.
  assert (∀ st m, Forall (inside 0 m) st -> 0 <= todo st) as Tn.
  { intros st m. induction 1 as [|s st [? ?] _ IH]; cbn [todo]; unfold size; lia. }
  induction fuel as [|fuel IH]; intros d st l Hf Hn Hi Hfit; destruct st as [|[a b] st]; cbn [sort_loop]; try by exists l.
  { pose proof (si_in _ _ Hi) as I. apply Forall_cons in I as [(? & ? & ?) I]. apply Tn in I. cbn in *. unfold size in Hf. cbn in Hf. lia. }
  pose proof (si_in _ _ Hi) as I. apply Forall_cons in I as [(H0 & H1 & H2) I]. cbn [fst snd] in H0, H1, H2. apply Tn in I.
  assert (todo st <= Z.of_nat fuel) as Hf' by (cbn [todo] in Hf; unfold size in Hf; cbn [fst snd] in Hf; lia).
  case_match eqn:Eh.
  { destruct st; [|done]. destruct (HeapSort_ok a (b - a + 1) l) as (l' & -> & P & Q); [lia..|].
    replace (a + (b - a + 1) - 1) with b in * by lia. exists l'. split; [done|]. split; [exact (pi_perm _ _ _ _ P)|].
    by apply (stack_inv_done a b [] l). }
  clear Eh. destruct (Z.leb_spec (b - a) SMALL_THRESH) as [Hs|Hs].
  - destruct (insertion_ok (Z.to_nat (b - a)) a b (a + 1) l) as (l1 & -> & P1 & S1); [lia..| |].
    { intros p q ? ? ?. lia. }
    cbn [mbind option_bind]. destruct (IH (match st with [] => d - 1 | _ => d end) st l1) as (l2 & -> & P2 & Q2); auto.
    { by apply (stack_inv_done a b st l). }
    { apply Hfit. }
    exists l2. split; [done|]. split; [|done]. rewrite P2. exact (pi_perm _ _ _ _ P1).
  - pose proof (Z.div_le_upper_bound (b - a) 2 (b - a) ltac:(lia) ltac:(lia)).
    pose proof (Z.div_pos (b - a) 2 ltac:(lia) ltac:(lia)). rewrite at_ok by lia. cbn [mbind option_bind].
    unfold SMALL_THRESH in Hs.
    assert (length st + 2 <= STACK_SIZE)%nat as Hst.
    { destruct Hfit as [F _]. unfold size in F. cbn [fst snd] in F. unfold STACK_SIZE.
      destruct (decide (length st + 2 <= 32)%nat) as [|Hc]; [done|]. assert (2 ^ 31 <= 2 ^ Z.of_nat (length st)) by (apply Z.pow_le_mono_r; lia). nia. }
    destruct (split_loop_ok a b (g l (a + (b - a) / 2)) st l) as (i & j & l1 & -> & P1 & [Q1 Q2] & Hji & Bi & Bj); [lia..| |].
    { exists (a + (b - a) / 2). split; [lia|done]. }
    cbn [mbind option_bind]. destruct (parts_ok n a b i j st) as (G1 & G2 & G3 & G4 & G5); auto.
    destruct (IH (match st with [] => d - 1 | _ => d end) (parts a b i j ++ st) l1) as (l2 & -> & P2 & R2); auto.
    { lia. }
    { apply (stack_inv_step a b st _ l); auto. intros p q Hp Hpq Hq.
      destruct (decide (i <= p \/ q <= j)) as [Hd|Hd]; [by right; apply G5|left].
      apply (le_trans _ (g l (a + (b - a) / 2))); [apply Q1|apply Q2]; lia. }
    exists l2. split; [done|]. split; [|done]. rewrite P2. exact (pi_perm _ _ _ _ P1).
Qed.

Lemma ordered_sorted l : (∀ p q, (p < q < length l)%nat -> le (l !!! p) (l !!! q)) -> StronglySorted le l.
Proof.
  induction l as [|x l IH]; intros H; constructor.
  - apply IH. intros p q Hpq. apply (H (S p) (S q)). cbn. lia.
  - apply Forall_lookup. intros k y Hk. pose proof (lookup_lt_Some _ _ _ Hk).
    rewrite <- (list_lookup_total_correct _ _ _ Hk). apply (H 0%nat (S k)). cbn. lia.
Qed.

Lemma stack_inv_sorted l : stack_inv [] l -> StronglySorted le l.
Proof.
  intros [_ _ Ho]. apply ordered_sorted. intros p q Hpq.
  destruct (Ho (Z.of_nat p) (Z.of_nat q)) as [H|H]; [lia..| |by apply Exists_nil in H].
  unfold g in H. by rewrite !Nat2Z.id in H.
Qed.

Lemma sort_ok l : len l < 2 ^ 36 -> ∃ l', sphSort IsLess l = Some l' /\ l' ≡ₚ l /\ StronglySorted le l'.
Proof.
  intros Hn. unfold sphSort. destruct (Z.ltb_spec (len l) 2) as [H|H].
  - exists l. split; [done|]. split; [done|]. destruct l as [|x [|y l]]; cbn in H; [constructor|repeat constructor|lia].
  - edestruct (sort_loop_ok (len l) (2 * length l)) as (l' & -> & P & I); cycle 4.
    + exists l'. split; [done|]. split; [done|]. by apply stack_inv_sorted.
    + cbn [todo]. unfold size. cbn [fst snd]. lia.
    + lia.
    + split; [by repeat constructor; cbn; lia|done|].
      intros p q ? ? ?. right. apply Exists_cons_hd. cbn. lia.
    + cbn [fits length]. unfold size. cbn [fst snd]. lia.
Qed.

(** [C15] [sphSort] sorts: whatever the data, for a comparator that is a strict
    weak order and an array of up to [2^36] elements it ends, stays inside the
    array, never overflows its stack of 32 segments, and leaves a permutation
    of the elements in which no element is less than one before it. *)
Theorem sphSort_sorts l : len l < 2 ^ 36 ->
  ∃ l', sphSort IsLess l = Some l' /\ l' ≡ₚ l /\ StronglySorted le l'.
Proof. apply sort_ok. Qed.
End SortOk.

(** The comparator of plain numbers. *)
Lemma sphSort_sorts_witness : ∃ l', sphSort Z.ltb [5; 3; 9; 1; 3] = Some l' /\ l' ≡ₚ [5; 3; 9; 1; 3] /\ StronglySorted (le Z.ltb) l'.
Proof.
  apply (sphSort_sorts Z.ltb).
  - intros x y H. apply Z.ltb_lt in H. apply Z.ltb_ge. lia.
  - unfold le. intros x y z H1 H2. apply Z.ltb_ge in H1, H2. apply Z.ltb_ge. lia.
  - reflexivity.
Defined.
End SortOk.
