(* ===== verification/Update.v ===== *)
(** * Finding the rows of an attribute update

    [CSphIndex_VLN::Update_CollectRowPtrs] and [Update_PrepareGatheredRowPtrs]
    (src/src/sphinx.cpp): an update comes as a vector of document ids; a disk
    index sorts them and walks them against its docid lookup to find the rows.
    [DocIdIndexReader_c] reads the ids through the sorted indexes. *)

From stdpp Require Import gmap sorting.
From S2P Require Import Prelude Span FileIO BitCount BitVec SearchNode DocidLookup DocidLookupOk DeadMap KillList IndexKill Sort SortOk.
Import Span FileIO BitCount BitVec SearchNode DocidLookup DocidLookupOk DocidLookupWrite DeadMap KillList IndexKill Sort SortOk.

Module Update.

Record RowToUpdateData_t := RowToUpdate { m_tRow : Z; m_iIdx : Z }.

(** The part of [AttrUpdateInc_t] that the collection reads. *)
Record AttrUpdateInc_t := AttrUpdateInc { m_dDocids : list Z; m_dUpdated : BitVec_T }.

(** ** The reader of ids through their indexes *)

(** [i_last] is [m_pCur[-1]]. *)
Record DocIdIndexReader_c := DocIdIndexReader { i_last : option Z; i_cur : list Z; i_docids : list Z }.

Definition IndexReadDocID (r : DocIdIndexReader_c) : option (option Z * DocIdIndexReader_c) :=
  match i_cur r with
  | [] => Some (None, r)
  | i :: l => d ← Sort.at_ (i_docids r) i; Some (Some d, DocIdIndexReader (Some i) l (i_docids r))
  end.

Definition GetIndex (r : DocIdIndexReader_c) : option Z := i_last r.

#[export] Instance index_killer : KillerReader DocIdIndexReader_c := {
  k_ReadDocID := IndexReadDocID;
  k_HintDocID _ r := Some r
}.

(** ** Collecting *)

(** The id with an index; outside the vector there is none. *)
Definition docid_at (dDocids : list Z) (i : Z) : Z := default 0 (Sort.at_ dDocids i).

(** The indexes from [i] on that are not updated yet. *)
Fixpoint alive_from (n : nat) (i : Z) (dUpdated : BitVec_T) : option (list Z) :=
  match n with
  | O => Some []
  | S n' =>
      b ← BitGet DWORD i dUpdated;
      l ← alive_from n' (i + 1) dUpdated;
      Some (if (b : bool) then l else i :: l)
  end.

(** The functor of the intersection. *)
Definition collect_row (m : DeadRowMap_c) (tRowID _ : Z) (tSortedReader : DocIdIndexReader_c) (dRowsToUpdate : list RowToUpdateData_t)
    : option (list RowToUpdateData_t) :=
  b ← IsSet tRowID m;
  if (b : bool) then Some dRowsToUpdate
  else i ← GetIndex tSortedReader; Some (dRowsToUpdate ++ [RowToUpdate tRowID i]).

Definition Update_CollectRowPtrs (tUpd : AttrUpdateInc_t) (x : CSphIndex_VLN) : option (list RowToUpdateData_t) :=
  let dDocids := m_dDocids tUpd in
  dSorted ← alive_from (length dDocids) 0 (m_dUpdated tUpd);
  match dSorted with
  | [] => Some []
  | _ =>
      dSorted ← sphSort (λ a b, docid_at dDocids a <? docid_at dDocids b) dSorted;
      let tSortedReader := DocIdIndexReader None dSorted dDocids in
      tLookupReader ← LookupReaderIterator (m_tDocidLookup x) (m_uVersion x);
      Intersect (collect_row (m_tDeadRowMap x)) (kill_fuel x dSorted) tLookupReader tSortedReader []
  end.

(** ** Rows gathered before *)

Definition set_row (r : Z) (d : RowToUpdateData_t) : RowToUpdateData_t := RowToUpdate r (m_iIdx d).
Definition set_idx (i : Z) (d : RowToUpdateData_t) : RowToUpdateData_t := RowToUpdate (m_tRow d) i.

(** [dRows[iWriteIdx].m_tRow = tRowID] and the swap of the two indexes. *)
Definition place (w r : nat) (tRowID : Z) (dRows : list RowToUpdateData_t) : option (list RowToUpdateData_t) :=
  a ← dRows !! w;
  let dRows := <[w := set_row tRowID a]> dRows in
  a ← dRows !! w; b ← dRows !! r;
  let dRows := <[w := set_idx (m_iIdx b) a]> dRows in
  b ← dRows !! r;
  Some (<[r := set_idx (m_iIdx a) b]> dRows).

(** [upd] is [tDocIDPrepared] while there are documents to update. *)
Definition prepared (dDocids : list Z) (dRows : list RowToUpdateData_t) (r : nat) : option (option Z) :=
  match dRows !! r with
  | None => Some None
  | Some a => d ← Sort.at_ dDocids (m_iIdx a); Some (Some d)
  end.

Fixpoint gather_loop (fuel : nat) (dDocids : list Z) (it : LookupReaderIterator_c) (h : option DocidRowidPair_t) (upd : option Z)
    (dRows : list RowToUpdateData_t) (iReadIdx iWriteIdx : nat) : option (list RowToUpdateData_t * nat) :=
  match fuel with
  | O => None
  | S fuel' =>
      match h, upd with
      | Some (DocidRowidPair tDocID tRowID), Some tDocIDPrepared =>
          if tDocID <? tDocIDPrepared then
            it ← HintDocID tDocIDPrepared it;
            '(h, it) ← Read it;
            gather_loop fuel' dDocids it h upd dRows iReadIdx iWriteIdx
          else if tDocID =? tDocIDPrepared then
            dRows ← place iWriteIdx iReadIdx tRowID dRows;
            '(h, it) ← Read it;
            upd ← prepared dDocids dRows (S iReadIdx);
            gather_loop fuel' dDocids it h upd dRows (S iReadIdx) (S iWriteIdx)
          else
            upd ← prepared dDocids dRows (S iReadIdx);
            gather_loop fuel' dDocids it h upd dRows (S iReadIdx) iWriteIdx
      | _, _ => Some (dRows, iWriteIdx)
      end
  end.

(** The rearranged rows and the length of the slice that is returned. *)
Definition Update_PrepareGatheredRowPtrs (dRows : list RowToUpdateData_t) (dDocids : list Z) (x : CSphIndex_VLN)
    : option (list RowToUpdateData_t * nat) :=
  dRows ← sphSort (λ a b, docid_at dDocids (m_iIdx a) <? docid_at dDocids (m_iIdx b)) dRows;
  tLookupReader ← LookupReaderIterator (m_tDocidLookup x) (m_uVersion x);
  '(h, it) ← Read tLookupReader;
  upd ← prepared dDocids dRows 0;
  gather_loop (S (Z.to_nat (r_nDocs (m_tLookupReader x)) + length dRows)) dDocids it h upd dRows 0 0.

#[export] Instance row_inhabited : Inhabited RowToUpdateData_t := populate (RowToUpdate 0 0).

(** ** Sorted by id *)

(** The ids that are not negative: on them the order of the sort is the order
    of the lookup. *)
Definition plain_id (d : Z) : Prop := 0 <= d < 2 ^ 63.

Lemma plain_u64 d : plain_id d -> u64 d = d.
Proof. unfold plain_id, u64. intros. apply cast_id; [done|]. unfold in_type. cbn [is_signed uint64_t bits]. lia. Qed.

Lemma at_in {A} (l : list A) i : 0 <= i < Z.of_nat (length l) -> ∃ a, Sort.at_ l i = Some a /\ l !! Z.to_nat i = Some a.
Proof.
  intros Hi. unfold Sort.at_. rewrite (proj2 (Z.leb_le 0 i)) by lia.
  destruct (lookup_lt_is_Some_2 l (Z.to_nat i)) as [a Ha]; [lia|]. by exists a.
Qed.

Section Docids.
Context (dDocids : list Z) (Hids : Forall plain_id dDocids).

Lemma docid_in i : 0 <= i < Z.of_nat (length dDocids) ->
  Sort.at_ dDocids i = Some (docid_at dDocids i) /\ dDocids !! Z.to_nat i = Some (docid_at dDocids i).
Proof. intros Hi. destruct (at_in dDocids i Hi) as (d & E & L). unfold docid_at. by rewrite E. Qed.

Lemma docid_plain i : 0 <= i < Z.of_nat (length dDocids) -> plain_id (docid_at dDocids i).
Proof. intros Hi. destruct (docid_in i Hi) as [_ L]. by apply (Forall_lookup_1 _ _ _ _ Hids L). Qed.

(** Sorting by id leaves the elements in the order of the lookup. *)
Lemma sort_by_id {A} `{!Inhabited A} (idx : A -> Z) (l : list A) :
  Forall (λ a, 0 <= idx a < Z.of_nat (length dDocids)) l -> Z.of_nat (length l) < 2 ^ 31 ->
  ∃ l', sphSort (λ a b, docid_at dDocids (idx a) <? docid_at dDocids (idx b)) l = Some l' /\ l' ≡ₚ l /\
    ascending_ids (λ a, docid_at dDocids (idx a)) l' /\ Forall (λ a, 0 <= idx a < Z.of_nat (length dDocids)) l'.
Proof.
  intros Hin Hl. destruct (sort_ok (λ a b, docid_at dDocids (idx a) <? docid_at dDocids (idx b))) with (l := l) as (l' & E & P & S).
  - intros a b H. apply Z.ltb_lt in H. apply Z.ltb_ge. lia.
  - unfold le. intros a b c H1 H2. apply Z.ltb_ge in H1, H2. apply Z.ltb_ge. lia.
  - lia.
  - exists l'. rewrite <- P in Hin. repeat split; auto. clear E P.
    unfold ascending_ids. induction S as [|a l' S IH F]; constructor; apply Forall_cons in Hin as [H1 H2]; [by apply IH|].
    rewrite Forall_forall in F. rewrite Forall_forall in H2. apply Forall_forall. intros b Hb.
    specialize (F b Hb). specialize (H2 b Hb). unfold le in F. apply Z.ltb_ge in F.
    rewrite !plain_u64 by (by apply docid_plain). exact F.
Qed.

(** ** The reader of the sorted ids *)

Definition reads (r : DocIdIndexReader_c) (l : list Z) : Prop :=
  i_cur r = l /\ i_docids r = dDocids /\ Forall (λ i, 0 <= i < Z.of_nat (length dDocids)) l.

#[export] Instance index_killer_laws : KillerLaws (docid_at dDocids) reads (λ r e, i_last r = Some e).
Proof.
  split.
  - intros r l (E1 & E2 & F). simpl. unfold IndexReadDocID. rewrite E1. destruct l as [|i l]; [by exists r|].
    apply Forall_cons in F as [F1 F2]. rewrite E2. destruct (docid_in i F1) as [-> _]. cbn [mbind option_bind].
    eexists. split; [done|]. split; [done|]. intros e [= ->]. done.
  - intros d r l Hs. exists r, [], l. done.
Qed.

(** ** What is collected *)

Definition to_row (pe : DocidRowidPair_t * Z) : RowToUpdateData_t := RowToUpdate (m_tRowID pe.1) pe.2.
Definition alive_row (m : DeadRowMap_c) (pe : DocidRowidPair_t * Z) : Prop := dead m (m_tRowID pe.1) = false.

#[export] Instance alive_row_dec m pe : Decision (alive_row m pe).
Proof. unfold alive_row. apply _. Defined.

Lemma collect_fold m l acc : dm_ok m -> Forall (λ pe, 0 <= m_tRowID pe.1 < m_uRows m) l ->
  foldM (λ pe st, collect_row m (m_tRowID pe.1) (m_tDocID pe.1) (DocIdIndexReader (Some pe.2) [] []) st) l acc =
    Some (acc ++ map to_row (filter (alive_row m) l)).
Proof.
  intros Hm. revert acc. induction l as [|[p e] l IH]; intros acc Hl; cbn [foldM].
  { by rewrite app_nil_r. }
  apply Forall_cons in Hl as [H1 H2]. cbn [fst snd] in *. set (f := foldM _) in *. unfold collect_row. rewrite IsSet_ok by done.
  cbn [mbind option_bind]. destruct (dead m (m_tRowID p)) eqn:Ed.
  - cbn [mbind option_bind]. subst f. rewrite IH, filter_cons_False by (done || by unfold alive_row; cbn; rewrite Ed). done.
  - cbn [GetIndex i_last mbind option_bind]. subst f. rewrite IH, filter_cons_True by done. cbn [map]. by rewrite <- app_assoc.
Qed.
End Docids.

Lemma alive_from_ok v n : ∀ i, wf DWORD v -> 0 <= i -> i + Z.of_nat n <= m_uElements v ->
  alive_from n i v = Some (filter (λ k, bit DWORD (words v) k = false) (seqZ i (Z.of_nat n))).
Proof.
  induction n as [|n IH]; intros i Hv Hi Hn; cbn [alive_from]; [done|].
  rewrite (BitGet_ok DWORD ltac:(by left)) by (done || lia). cbn [mbind option_bind]. rewrite IH by (done || lia). cbn [mbind option_bind].
  rewrite (seqZ_cons i) by lia. replace (Z.succ i) with (i + 1) by lia. replace (Z.pred (Z.of_nat (S n))) with (Z.of_nat n) by lia.
  rewrite filter_cons. destruct (bit DWORD (words v) i) eqn:E; by case_decide.
Qed.

Lemma joined_elem {E} (kid : E -> Z) l1 l2 p e : (p, e) ∈ joined kid l1 l2 -> p ∈ l1 /\ e ∈ l2 /\ u64 (kid e) = uid p.
Proof.
  assert (∀ d e, first_with kid d l2 = Some e -> e ∈ l2 /\ u64 (kid e) = u64 d) as F.
  { intros d. induction l2 as [|a l2 IH]; [done|]. cbn [first_with]. intros e'. destruct (Z.eqb_spec (u64 (kid a)) (u64 d)) as [Hd|].
    - intros [= <-]. split; [by left|done].
    - intros H. destruct (IH e' H). split; [by right|done]. }
  induction l1 as [|q l1 IH]; cbn [joined]; [by intros ?%not_elem_of_nil|].
  destruct (first_with kid (m_tDocID q) l2) as [a|] eqn:Ea.
  - intros [[= -> ->]|H]%elem_of_cons; [destruct (F _ _ Ea); split; [by left|done]|]. destruct (IH H) as (? & ? & ?). split; [by right|done].
  - intros H. destruct (IH H) as (? & ? & ?). split; [by right|done].
Qed.

Lemma joined_sublist {E} (kid : E -> Z) l1 l2 : map fst (joined kid l1 l2) `sublist_of` l1.
Proof. induction l1 as [|p l1 IH]; cbn [joined]; [done|]. destruct (first_with _ _ _); cbn [map fst]; by constructor. Qed.
Lemma joined_rows_in {E} (kid : E -> Z) pairs l m : Forall (λ p, 0 <= m_tRowID p < m_uRows m) pairs ->
  Forall (λ pe, 0 <= m_tRowID pe.1 < m_uRows m) (joined kid pairs l).
Proof.
  rewrite !Forall_forall. intros Hr [p e] Hin. apply Hr. by apply joined_elem in Hin as (? & _).
Qed.

(** The whole collection. *)
Lemma collect_ok P hdr pairs x D upd :
  index_ok P hdr pairs x D -> ascending pairs -> wf DWORD (m_dUpdated upd) ->
  m_uElements (m_dUpdated upd) = Z.of_nat (length (m_dDocids upd)) -> Forall plain_id (m_dDocids upd) ->
  ∃ dSorted, dSorted ≡ₚ filter (λ k, bit DWORD (words (m_dUpdated upd)) k = false) (seqZ 0 (Z.of_nat (length (m_dDocids upd)))) /\
    Update_CollectRowPtrs upd x =
      Some (map to_row (filter (alive_row (m_tDeadRowMap x)) (joined (docid_at (m_dDocids upd)) pairs dSorted))).
Proof.
  intros Hx Hasc Hv Hn Hids. pose proof (wf_size _ _ Hv) as Hsz. unfold Update_CollectRowPtrs.
  rewrite alive_from_ok by (done || lia). cbn [mbind option_bind]. set (l := filter _ _).
  assert (Forall (λ i, 0 <= i < Z.of_nat (length (m_dDocids upd))) l) as Hl.
  { apply Forall_forall. intros i [_ Hi]%list_elem_of_filter. apply elem_of_seqZ in Hi. lia. }
  assert (Z.of_nat (length l) < 2 ^ 31) as Hlen.
  { pose proof (length_filter (λ k, bit DWORD (words (m_dUpdated upd)) k = false) (seqZ 0 (Z.of_nat (length (m_dDocids upd))))) as F.
    rewrite length_seqZ in F. fold l in F. lia. }
  destruct l as [|i l'] eqn:El.
  { exists []. split; [done|]. by rewrite joined_nil. }
  rewrite <- El in *. destruct (sort_by_id (m_dDocids upd) Hids (λ i, i) l Hl Hlen) as (s & E & Ps & As & Fs). rewrite E. cbn [mbind option_bind].
  destruct (start P hdr pairs x D Hx) as (it & -> & Sit). cbn [mbind option_bind].
  pose proof (ix_hdr P hdr pairs x D Hx) as Hh. pose proof (fuel_enough P hdr pairs x D s Hx) as Hf.
  pose proof (ix_map _ _ _ _ _ Hx) as (Hm & _). pose proof (ix_rows _ _ _ _ _ Hx) as Hrows.
  exists s. split; [done|]. destruct Hx.
  pose proof (lookup_target_laws P (m_tDocidLookup x) hdr pairs ix_per0 ix_pairs0 ix_file0 ix_some0 ix_size0 Hh Hasc).
  pose proof (index_killer_laws (m_dDocids upd)).
  erewrite (Intersect_ok (docid_at (m_dDocids upd)) _ _ _ (collect_row (m_tDeadRowMap x))); [|
    |exact Hf|exact Hasc|exact As|exact Sit|done].
  - rewrite collect_fold; [done|done|by apply joined_rows_in].
  - intros p e r2 st Hlast. cbv beta. unfold collect_row, GetIndex. cbn [fst snd i_last]. by rewrite Hlast.
Qed.

(** ** What is gathered *)

Lemma insert_drop_lt {A} (l : list A) i n x : (i < n)%nat -> drop n (<[i := x]> l) = drop n l.
Proof. intros. apply list_eq. intros k. rewrite !lookup_drop. apply list_lookup_insert_ne. lia. Qed.

Lemma place_ok w r row (rows : list RowToUpdateData_t) e : (w <= r)%nat -> rows !! r = Some e ->
  ∃ rows', place w r row rows = Some rows' /\ take (S w) rows' = take w rows ++ [RowToUpdate row (m_iIdx e)] /\
    drop (S r) rows' = drop (S r) rows /\ length rows' = length rows /\ map m_iIdx rows' ≡ₚ map m_iIdx rows.
Proof.
  intros Hw He. pose proof (lookup_lt_Some _ _ _ He) as Hr. destruct (lookup_lt_is_Some_2 rows w) as [a Ha]; [lia|].
  unfold place. rewrite Ha. cbn [mbind option_bind]. rewrite list_lookup_insert_eq by lia. cbn [mbind option_bind].
  assert (∃ b, <[w := set_row row a]> rows !! r = Some b /\ m_iIdx b = m_iIdx e) as (b & Eb & Ib).
  { destruct (decide (w = r)) as [->|]; [|by exists e; rewrite list_lookup_insert_ne by done].
    rewrite list_lookup_insert_eq by lia. eexists. split; [done|]. simplify_eq. done. }
  rewrite Eb. cbn [mbind option_bind]. rewrite list_insert_insert_eq. unfold set_row, set_idx. cbn [m_tRow m_iIdx].
  assert (∃ c, <[w := RowToUpdate row (m_iIdx b)]> rows !! r = Some c /\ (w = r -> m_tRow c = row)) as (c & Ec & Ic).
  { destruct (decide (w = r)) as [->|]; [rewrite list_lookup_insert_eq by lia; by eexists|].
    rewrite list_lookup_insert_ne by done. exists e. split; [done|lia]. }
  rewrite Ec. cbn [mbind option_bind]. eexists. split; [done|]. rewrite Ib. repeat split.
  - destruct (decide (w = r)) as [->|N].
    + rewrite list_insert_insert_eq, Ic by done. simplify_eq. erewrite take_S_r by (apply list_lookup_insert_eq; lia). f_equal. by rewrite take_insert_ge by lia.
    + rewrite take_insert_ge by lia. erewrite take_S_r by (apply list_lookup_insert_eq; lia). f_equal. by rewrite take_insert_ge by lia.
  - by rewrite !insert_drop_lt by lia.
  - by rewrite !length_insert.
  - rewrite !list_fmap_insert. cbn [m_iIdx].
    pose proof (exch_perm (Z.of_nat r) (Z.of_nat w) (map m_iIdx rows)) as X. unfold exch, g in X. rewrite !Nat2Z.id, length_map in X.
    assert (∀ k y, rows !! k = Some y -> map m_iIdx rows !!! k = m_iIdx y) as T.
    { intros k y Hk. apply list_lookup_total_correct. by rewrite (list_lookup_fmap m_iIdx), Hk. }
    rewrite (T _ _ Ha), (T _ _ He) in X. apply X; lia.
Qed.

Lemma drop_head {A} (l : list A) r e s : drop r l = e :: s -> l !! r = Some e /\ drop (S r) l = s.
Proof.
  intros H. assert (l !! r = Some e) as E by (rewrite <- (Nat.add_0_r r), <- lookup_drop, H; done).
  split; [done|]. rewrite (drop_S _ _ _ E) in H. by injection H.
Qed.

Lemma neg_u64 d : in_type int64_t d -> d < 0 -> 2 ^ 63 <= u64 d.
Proof.
  intros Hd Hn. unfold in_type in Hd. cbn in Hd. unfold u64, cast, wrap. cbn [is_signed uint64_t bits].
  rewrite <- (Z_mod_plus_full d 1), Z.mod_small by lia. lia.
Qed.

Section Gather.
Context (P : Z) (data : list Z) (hdr : Z) (pairs : list DocidRowidPair_t) (dDocids : list Z).
Context (HT : TargetLaws (R := LookupReaderIterator_c) (it_stands P data hdr pairs)) (Hids : Forall plain_id dDocids).

Abbreviation rid := (λ a, docid_at dDocids (m_iIdx a)).
Abbreviation idx_ok := (λ a, 0 <= m_iIdx a < Z.of_nat (length dDocids)).

Definition gathered (pe : DocidRowidPair_t * RowToUpdateData_t) : RowToUpdateData_t := RowToUpdate (m_tRowID pe.1) (m_iIdx pe.2).

Lemma prepared_ok rows r s : drop r rows = s -> Forall idx_ok s -> prepared dDocids rows r = Some (rid <$> head s).
Proof.
  intros <- F. unfold prepared. replace (rows !! r) with (head (drop r rows)).
  2:{ rewrite <- (Nat.add_0_r r) at 2. rewrite <- lookup_drop. by destruct (drop r rows). }
  destruct (drop r rows) as [|a s]; [done|]. apply Forall_cons in F as [F _]. cbn [head].
  destruct (docid_in dDocids (m_iIdx a) F) as [-> _]. done.
Qed.

Lemma gather_loop_ok fuel : ∀ l1 s it rows r w,
  (length l1 + length s < fuel)%nat -> ascending l1 -> ascending_ids rid s -> Forall pair_ok l1 -> Forall idx_ok s ->
  it_stands P data hdr pairs it (tail l1) -> drop r rows = s -> (w <= r)%nat ->
  ∃ rows', gather_loop fuel dDocids it (head l1) (rid <$> head s) rows r w
      = Some (rows', w + length (joined rid l1 s))%nat /\
    take (w + length (joined rid l1 s)) rows' = take w rows ++ map gathered (joined rid l1 s) /\
    map m_iIdx rows' ≡ₚ map m_iIdx rows.
Proof.
  induction fuel as [|fuel IH]; intros l1 s it rows r w Hf A1 A2 Fp Fi Hit Hd Hw; [lia|]. cbn [gather_loop].
  destruct l1 as [|[d row] l1].
  { exists rows. cbn. by rewrite Nat.add_0_r, app_nil_r. }
  destruct s as [|e s].
  { rewrite joined_nil. exists rows. cbn. by rewrite Nat.add_0_r, app_nil_r. }
  cbn [head tail fmap option_fmap option_map length] in *.
  inversion A1 as [|? ? A1' F1]; subst. inversion A2 as [|? ? A2' F2]; subst.
  pose proof Fp as Fp0. pose proof Fi as Fi0. apply Forall_cons in Fp as [Hp Fp]. apply Forall_cons in Fi as [Hi Fi].
  pose proof (docid_plain dDocids Hids _ Hi) as Hpl. pose proof (plain_u64 _ Hpl) as Eu.
  destruct (drop_head rows r e s Hd) as [Hre Hd']. cbn [m_tDocID] in *.
  assert (∀ x, x ∈ e :: s -> rid e <= u64 (rid x) /\ u64 (rid x) < 2 ^ 63) as Hge.
  { intros x Hx. rewrite Forall_forall in Fi0. pose proof (plain_u64 _ (docid_plain dDocids Hids _ (Fi0 x Hx))) as Ex.
    pose proof (docid_plain dDocids Hids _ (Fi0 x Hx)) as Px. unfold plain_id in Px. rewrite Ex. split; [|lia].
    apply elem_of_cons in Hx as [->|Hx]; [lia|]. rewrite Forall_forall in F2. specialize (F2 x Hx). cbn beta in F2. lia. }
  destruct (Z.ltb_spec d (rid e)) as [Hlt|Hle].
  - destruct (t_hint_ok (rid e) it l1 Hit) as (it' & sk & l1' & Eh & -> & Hsk & Hit'). simpl in Eh. rewrite Eh. cbn [mbind option_bind].
    destruct (t_read_ok it' l1' Hit') as (it'' & Er & Hit''). simpl in Er. rewrite Er. cbn [mbind option_bind].
    assert (joined rid (DocidRowidPair d row :: sk ++ l1') (e :: s) = joined rid l1' (e :: s)) as ->.
    { apply (joined_skip_target rid (DocidRowidPair d row :: sk)). apply Forall_cons. split.
      - apply Forall_forall. intros x Hx. destruct (Hge x Hx). cbn [m_tDocID]. intros Ex.
        destruct Hp as [Hp _]. cbn [m_tDocID] in Hp. pose proof (neg_u64 d Hp). destruct (decide (0 <= d)); [|lia].
        rewrite (plain_u64 d) in Ex by (unfold plain_id in *; lia). lia.
      - eapply Forall_impl; [exact Hsk|]. cbv beta. intros q Hq. apply Forall_forall. intros x Hx. destruct (Hge x Hx). rewrite Eu in Hq. lia. }
    rewrite length_app in Hf. apply Forall_app in Fp as [_ Fp].
    apply (IH l1' (e :: s)); auto; [cbn [length]; lia|by eapply sorted_suffix].
  - destruct (Z.eqb_spec d (rid e)) as [Hd0|Hne].
    + destruct (place_ok w r row rows e Hw Hre) as (rows' & -> & T1 & T2 & T3 & T4). cbn [mbind option_bind].
      destruct (t_read_ok it l1 Hit) as (it'' & Er & Hit''). simpl in Er. rewrite Er. cbn [mbind option_bind].
      rewrite (prepared_ok rows' (S r) s) by (by rewrite ?T2). cbn [mbind option_bind].
      cbn [joined first_with m_tDocID]. rewrite <- Hd0, Z.eqb_refl.
      assert (joined rid l1 (e :: s) = joined rid l1 s) as ->.
      { apply (joined_skip_killer rid [e]). eapply Forall_impl; [exact F1|]. cbv beta. intros q Hq. apply Forall_cons. split; [|constructor]. rewrite <- Hd0. cbn [m_tDocID] in Hq. lia. }
      destruct (IH l1 s it'' rows' (S r) (S w)) as (rows2 & E2 & S2 & P2); auto; [lia|by rewrite T2|lia|].
      exists rows2. cbn [length]. rewrite Nat.add_succ_r. split; [exact E2|]. split; [|by rewrite P2].
      rewrite <- Nat.add_succ_l, S2, T1, <- app_assoc. done.
    + rewrite (prepared_ok rows (S r) s) by done. cbn [mbind option_bind].
      assert (joined rid (DocidRowidPair d row :: l1) (e :: s) = joined rid (DocidRowidPair d row :: l1) s) as ->.
      { apply (joined_skip_killer rid [e]). assert (uid (DocidRowidPair d row) = d) as Ud.
        { cbn [m_tDocID]. apply plain_u64. destruct Hp as [Hp _]. unfold in_type in Hp. cbn in Hp. unfold plain_id in *. lia. }
        apply Forall_cons. split; [|eapply Forall_impl; [exact F1|]; cbv beta; intros q Hq]; (apply Forall_cons; split; [|constructor]); cbn [m_tDocID] in *; lia. }
      apply (IH (DocidRowidPair d row :: l1) s); auto; cbn [length]; lia.
Qed.
End Gather.
(** What [joined] finds, in terms of ids. *)
Lemma joined_finds {E} (kid : E -> Z) pairs l d r :
  DocidRowidPair d r ∈ pairs -> Exists (λ e, kid e = d) l -> ∃ e, (DocidRowidPair d r, e) ∈ joined kid pairs l.
Proof. intros Hp He. apply joined_in. split; [done|]. eapply Exists_impl; [exact He|]. by intros e <-. Qed.

Lemma joined_id {E} (kid : E -> Z) pairs l p e : Forall pair_ok pairs -> (∀ e, e ∈ l -> plain_id (kid e)) ->
  (p, e) ∈ joined kid pairs l -> p ∈ pairs /\ e ∈ l /\ kid e = m_tDocID p.
Proof.
  intros Hp Hk H. apply joined_elem in H as (Hin & He & Eu). split; [done|]. split; [done|]. specialize (Hk e He).
  rewrite Forall_forall in Hp. destruct (Hp p Hin) as [Hp1 _]. apply u64_inj in Eu; [done| |done].
  unfold in_type, plain_id in *. cbn. lia.
Qed.

Lemma demo_plain : Forall plain_id [7; 5; 4].
Proof. repeat constructor; lia. Qed.

(** The rows of an update: when no document id has its top bit set,
    [Update_CollectRowPtrs] finds exactly the rows of the update. Each collected
    row is alive and belongs to the document at the index it carries, which was
    not updated before; every alive row whose document is in the update and not
    updated yet is collected, once. *)
Theorem collect_rows_correct P hdr pairs x D upd :
  index_ok P hdr pairs x D -> ascending pairs -> NoDup (map m_tRowID pairs) -> wf DWORD (m_dUpdated upd) ->
  m_uElements (m_dUpdated upd) = Z.of_nat (length (m_dDocids upd)) -> Forall plain_id (m_dDocids upd) ->
  ∃ rows, Update_CollectRowPtrs upd x = Some rows /\ NoDup (map m_tRow rows) /\
    (∀ r i, RowToUpdate r i ∈ rows -> ∃ d, m_dDocids upd !! Z.to_nat i = Some d /\ content DWORD (m_dUpdated upd) !! Z.to_nat i = Some false /\
      DocidRowidPair d r ∈ pairs /\ r ∉ D) /\
    (∀ d r i, DocidRowidPair d r ∈ pairs -> r ∉ D -> m_dDocids upd !! i = Some d -> content DWORD (m_dUpdated upd) !! i = Some false ->
      ∃ j, m_dDocids upd !! Z.to_nat j = Some d /\ RowToUpdate r j ∈ rows).
Proof.
  intros Hx Hasc Hnd Hv Hn Hids. destruct (collect_ok P hdr pairs x D upd Hx Hasc Hv Hn Hids) as (s & Ps & E). eexists. split; [exact E|].
  pose proof (ix_map _ _ _ _ _ Hx) as (Hm & Hdead & _). pose proof (ix_rows _ _ _ _ _ Hx) as Hrows. rewrite Forall_forall in Hrows.
  pose proof (wf_size _ _ Hv) as Hsz.
  assert (∀ i, i ∈ s <-> bit DWORD (words (m_dUpdated upd)) i = false /\ 0 <= i < Z.of_nat (length (m_dDocids upd))) as Hs.
  { intros i. rewrite Ps, list_elem_of_filter, elem_of_seqZ. f_equiv. lia. }
  assert (∀ i, 0 <= i < Z.of_nat (length (m_dDocids upd)) -> content DWORD (m_dUpdated upd) !! Z.to_nat i = Some (bit DWORD (words (m_dUpdated upd)) i)) as Hc.
  { intros i Hi. apply content_at. lia. }
  assert (∀ r p, p ∈ pairs -> m_tRowID p = r -> dead (m_tDeadRowMap x) r = false <-> r ∉ D) as Hal.
  { intros r p Hp <-. rewrite Hdead by (apply Hrows; done). apply bool_decide_eq_false. }
  split; [|split].
  - rewrite map_map. unfold to_row. cbn [m_tRow]. eapply sublist_NoDup; [exact Hnd|].
    rewrite <- (map_map fst m_tRowID). apply fmap_sublist. etransitivity; [apply fmap_sublist, sublist_filter|]. apply joined_sublist.
  - intros r i Hin. apply list_elem_of_fmap in Hin as ([p e] & Epe & [Hd Hj]%list_elem_of_filter). unfold to_row in Epe. cbn in Epe. injection Epe as -> ->.
    apply joined_id in Hj as (Hp & He & Ed); [|by apply (ix_pairs _ _ _ _ _ Hx)|intros k [_ Hk]%Hs; by apply docid_plain].
    apply Hs in He as [Hb Hr]. exists (m_tDocID p). destruct (docid_in (m_dDocids upd) e Hr) as [_ ->]. rewrite Ed, Hc, Hb by done.
    repeat split; auto; [by destruct p|]. by apply (Hal _ p).
  - intros d r i Hp Hr Hd Hu. pose proof (lookup_lt_Some _ _ _ Hd) as Hl.
    assert (Z.of_nat i ∈ s) as Hi.
    { apply Hs. split; [|lia]. specialize (Hc (Z.of_nat i) ltac:(lia)). rewrite Nat2Z.id, Hu in Hc. by injection Hc. }
    destruct (joined_finds (docid_at (m_dDocids upd)) pairs s d r Hp) as [e He].
    { apply Exists_exists. exists (Z.of_nat i). split; [done|]. destruct (docid_in (m_dDocids upd) (Z.of_nat i) ltac:(lia)) as [_ Ed].
      rewrite Nat2Z.id, Hd in Ed. by injection Ed. }
    exists e. pose proof He as He'.
    apply joined_id in He' as (_ & Hes & Ed); [|by apply (ix_pairs _ _ _ _ _ Hx)|intros k [_ Hk]%Hs; by apply docid_plain].
    apply Hs in Hes as [_ Her]. destruct (docid_in (m_dDocids upd) e Her) as [_ ->]. split; [by rewrite Ed|].
    apply list_elem_of_fmap. exists (DocidRowidPair d r, e). split; [done|]. apply list_elem_of_filter. split; [|done].
    by apply (Hal r (DocidRowidPair d r)).
Qed.

(** Rows gathered for another index: when no document id has its top bit
    set, [Update_PrepareGatheredRowPtrs] puts in front, and returns, exactly the
    entries whose documents this index has, each with its row; the entries are
    rearranged but none is lost. *)
Theorem gather_rows_correct P hdr pairs x D dRows dDocids :
  index_ok P hdr pairs x D -> ascending pairs -> Forall plain_id dDocids ->
  Forall (λ a, 0 <= m_iIdx a < Z.of_nat (length dDocids)) dRows -> Z.of_nat (length dRows) < 2 ^ 31 ->
  ∃ dRows' n, Update_PrepareGatheredRowPtrs dRows dDocids x = Some (dRows', n) /\ map m_iIdx dRows' ≡ₚ map m_iIdx dRows /\
    (∀ r i, RowToUpdate r i ∈ take n dRows' -> ∃ d, dDocids !! Z.to_nat i = Some d /\ DocidRowidPair d r ∈ pairs /\ i ∈ map m_iIdx dRows) /\
    (∀ d r i, DocidRowidPair d r ∈ pairs -> i ∈ map m_iIdx dRows -> dDocids !! Z.to_nat i = Some d ->
      ∃ j, dDocids !! Z.to_nat j = Some d /\ RowToUpdate r j ∈ take n dRows').
Proof.
  intros Hx Hasc Hids Hin Hlen. unfold Update_PrepareGatheredRowPtrs.
  destruct (sort_by_id dDocids Hids m_iIdx dRows Hin Hlen) as (s & -> & Ps & As & Fs). cbn [mbind option_bind].
  destruct (start P hdr pairs x D Hx) as (it & -> & Sit). cbn [mbind option_bind].
  pose proof (ix_hdr P hdr pairs x D Hx) as Hh. pose proof (fuel_enough P hdr pairs x D (map m_iIdx s) Hx) as Hf.
  unfold kill_fuel in Hf. rewrite length_map in Hf. pose proof (proj1 (ix_pairs _ _ _ _ _ Hx)) as Hpo. destruct Hx.
  pose proof (lookup_target_laws P (m_tDocidLookup x) hdr pairs ix_per0 ix_pairs0 ix_file0 ix_some0 ix_size0 Hh Hasc) as HT.
  destruct (t_read_ok it pairs Sit) as (it' & Er & Sit'). simpl in Er. rewrite Er. cbn [mbind option_bind].
  rewrite (prepared_ok dDocids s 0 s) by done. cbn [mbind option_bind].
  set (kid := λ a, docid_at dDocids (m_iIdx a)) in *. set (J := joined kid pairs s).
  destruct (gather_loop_ok P (m_tDocidLookup x) hdr pairs dDocids HT Hids (S (Z.to_nat (r_nDocs (m_tLookupReader x)) + length s))
    pairs s it' s 0 0) as (rows' & E & T & Pp); auto.
  cbn [plus take app] in T, E. fold kid J in E, T. exists rows', (length J). split; [exact E|]. split; [by rewrite Pp, Ps|]. rewrite T. clear E T Pp.
  assert (∀ e, e ∈ s -> 0 <= m_iIdx e < Z.of_nat (length dDocids)) as Hr by (by apply Forall_forall).
  assert (∀ e, e ∈ s -> plain_id (kid e)) as Hk by (intros e He; apply docid_plain; [done|by apply Hr]).
  split.
  - intros r i Hi. apply list_elem_of_fmap in Hi as ([p e] & Epe & Hj). unfold gathered in Epe. cbn in Epe. injection Epe as -> ->.
    apply joined_id in Hj as (Hp & He & Ed); [|done|done]. exists (m_tDocID p).
    destruct (docid_in dDocids (m_iIdx e) (Hr e He)) as [_ ->]. split; [by rewrite <- Ed|]. split; [by destruct p|].
    rewrite <- Ps. by apply list_elem_of_fmap_2.
  - intros d r i Hp Hi Hd. rewrite <- Ps in Hi. apply list_elem_of_fmap in Hi as (e0 & -> & He0).
    destruct (joined_finds kid pairs s d r Hp) as [e He].
    { apply Exists_exists. exists e0. split; [done|]. destruct (docid_in dDocids (m_iIdx e0) (Hr e0 He0)) as [_ Ed].
      rewrite Hd in Ed. by injection Ed. }
    exists (m_iIdx e). pose proof He as He'. apply joined_id in He' as (_ & Hes & Ed); [|done|done].
    destruct (docid_in dDocids (m_iIdx e) (Hr e Hes)) as [_ ->]. split; [by f_equal|].
    apply list_elem_of_fmap. by exists (DocidRowidPair d r, e).
Qed.

(** An update of some documents. *)
Definition demo_update (ids : list Z) : AttrUpdateInc_t := AttrUpdateInc ids (BitVec Static [0; 0; 0; 0] (Z.of_nat (length ids)) true).
Example collect_demo : Update_CollectRowPtrs (demo_update [7; 5; 4]) (demo_index None) = Some [RowToUpdate 999 2; RowToUpdate 998 0].
Proof. vm_compute. reflexivity. Qed.
Example gather_demo : Update_PrepareGatheredRowPtrs [RowToUpdate 0 0; RowToUpdate 0 1; RowToUpdate 0 2] [7; 5; 4] (demo_index None)
  = Some ([RowToUpdate 999 2; RowToUpdate 998 0; RowToUpdate 0 1], 2%nat).
Proof. vm_compute. reflexivity. Qed.

Lemma demo_update_ok ids : (length ids <= 128)%nat -> wf DWORD (m_dUpdated (demo_update ids)).
Proof.
  intros Hl. split.
  - cbn. lia.
  - repeat constructor; cbn; lia.
  - rewrite (storage_ok DWORD ltac:(by left)) by (cbn; lia). change (SIZEBITS DWORD) with 32. cbn [demo_update m_dUpdated m_uElements].
    assert ((Z.of_nat (length ids) + 32 - 1) / 32 <= 4) by (apply Z.lt_succ_r, Z.div_lt_upper_bound; lia).
    apply (Nat.le_trans _ 4); [lia|done].
  - discriminate.
Qed.

Lemma collect_rows_correct_witness : ∃ rows, Update_CollectRowPtrs (demo_update [7; 5; 4]) (demo_index None) = Some rows /\ NoDup (map m_tRow rows).
Proof.
  destruct (collect_rows_correct 64 24 demo_pairs (demo_index None) ∅ (demo_update [7; 5; 4]) (demo_index_ok _) demo_ascending demo_rows_differ
    (demo_update_ok [7; 5; 4] ltac:(cbn; lia)) eq_refl demo_plain) as (rows & E & N & _).
  exists rows. exact (conj E N).
Defined.

Lemma gather_rows_correct_witness : ∃ dRows' n,
  Update_PrepareGatheredRowPtrs [RowToUpdate 0 0; RowToUpdate 0 1; RowToUpdate 0 2] [7; 5; 4] (demo_index None) = Some (dRows', n) /\
  map m_iIdx dRows' ≡ₚ [0; 1; 2].
Proof.
  destruct (gather_rows_correct 64 24 demo_pairs (demo_index None) ∅ [RowToUpdate 0 0; RowToUpdate 0 1; RowToUpdate 0 2] [7; 5; 4]
    (demo_index_ok _) demo_ascending demo_plain) as (rows & n & E & N & _).
  - repeat constructor; cbn; lia.
  - reflexivity.
  - exists rows, n. exact (conj E N).
Defined.

(** An update misses documents when an id has its top bit set: the sort is
    by the signed id, the lookup is in unsigned order. Of the documents 4 and
    [2^64 - 5], both alive, only the second is collected; and rows gathered for
    the document [2^64 - 5] alone are not found in an index that has it. *)
Theorem update_misses_large_ids :
  let x := demo_index None in
  IsAlive 4 x = Some true /\ IsAlive (-5) x = Some true /\
  Update_CollectRowPtrs (demo_update [4; -5]) x = Some [RowToUpdate 7 1] /\
  Update_PrepareGatheredRowPtrs [RowToUpdate 0 0] [-5] x = Some ([RowToUpdate 0 0], 0%nat).
Proof. vm_compute. done. Qed.
End Update.
