(* ===== verification/Reader.v ===== *)
(** * Buffered file input (src/src/fileio.cpp, [CSphReader])

    The reader of index files: a buffer that is filled by [pread] calls whose
    size follows a hint. The reader is modelled with its buffer, its positions,
    the hint and failing reads. *)

From S2P Require Import Prelude Zip FileIO DocidLookup.
Import Zip.

Module Reader.

Definition DEFAULT_READ_BUFFER : Z := 256 * 1024.
Definition DEFAULT_READ_UNHINTED : Z := 32768.

Record CSphReader := Rd {
  r_file : list Z;        (* the contents of the file *)
  r_io : list bool;       (* the outcomes of the next preads *)
  m_iPos : Z;
  m_iBuffPos : Z;
  m_dBuff : list Z;       (* the m_iBuffUsed valid bytes of m_pBuff *)
  m_bBuff : bool;         (* m_pBuff is allocated *)
  m_iBufSize : Z;
  m_iSizeHint : Z;
  m_iReadUnhinted : Z;
  m_bError : bool
}.

Definition m_iBuffUsed (r : CSphReader) : Z := Z.of_nat (length (m_dBuff r)).
Definition GetPos (r : CSphReader) : Z := m_iPos r + m_iBuffPos r.

(** The constructor with no buffer, or with one of [iSize] bytes; [SetFile]. *)
Definition Reader (bBuf : bool) (iSize : Z) (file : list Z) (io : list bool) : CSphReader :=
  Rd file io 0 0 [] bBuf iSize 0 DEFAULT_READ_UNHINTED false.

Definition SetBuffers (iReadBuffer iReadUnhinted : Z) (r : CSphReader) : CSphReader :=
  Rd (r_file r) (r_io r) (m_iPos r) (m_iBuffPos r) (m_dBuff r) (m_bBuff r)
    (if m_bBuff r then m_iBufSize r else iReadBuffer) (m_iSizeHint r) iReadUnhinted (m_bError r).

Definition set_pos (iPos iBuffPos : Z) (dBuff : list Z) (iSizeHint : Z) (r : CSphReader) : CSphReader :=
  Rd (r_file r) (r_io r) iPos iBuffPos dBuff (m_bBuff r) (m_iBufSize r) iSizeHint (m_iReadUnhinted r) (m_bError r).
Definition fail (r : CSphReader) : CSphReader :=
  Rd (r_file r) (r_io r) (m_iPos r) (m_iBuffPos r) (m_dBuff r) (m_bBuff r) (m_iBufSize r) (m_iSizeHint r) (m_iReadUnhinted r) true.
Definition advance (n : Z) (r : CSphReader) : CSphReader := set_pos (m_iPos r) (m_iBuffPos r + n) (m_dBuff r) (m_iSizeHint r) r.
Definition set_hint (h : Z) (r : CSphReader) : CSphReader := set_pos (m_iPos r) (m_iBuffPos r) (m_dBuff r) h r.

(** [SeekTo]. In the second branch [m_iPos] is [iPos] already when the hint
    that is left is computed from it. *)
Definition SeekTo (iPos iSizeHint : Z) (r : CSphReader) : CSphReader :=
  if (iPos >=? m_iPos r) && (iPos <? m_iPos r + m_iBuffUsed r) then
    let p := iPos - m_iPos r in
    set_pos (m_iPos r) p (m_dBuff r) (iSizeHint - (m_iBuffUsed r - p)) r
  else
    let r := set_pos iPos 0 [] (m_iSizeHint r) r in
    let iSizeHint :=
      if iSizeHint =? -1 then
        let iHintLeft := m_iPos r + m_iSizeHint r - iPos in
        if (iHintLeft >? 0) && (iHintLeft <? 2 ^ 31 - 1) then iHintLeft else 0
      else iSizeHint in
    set_hint iSizeHint r.

Definition SkipBytes (iCount : Z) (r : CSphReader) : CSphReader :=
  SeekTo (m_iPos r + m_iBuffPos r + iCount) (Z.max (m_iSizeHint r - m_iBuffPos r - iCount) 0) r.

(** [sphPread]: [None] is a failure; a success gives all bytes that the file has
    there, short reads before the end of the file are left out. *)
Definition pread (len pos : Z) (r : CSphReader) : option (list Z) * list bool :=
  let '(ok, io) := match r_io r with [] => (true, []) | b :: l => (b, l) end in
  (if (ok : bool) then Some (take (Z.to_nat len) (drop (Z.to_nat pos) (r_file r))) else None, io).

Definition UpdateCache (r : CSphReader) : CSphReader :=
  let iBufSize := if m_bBuff r then m_iBufSize r else if m_iBufSize r <=? 0 then DEFAULT_READ_BUFFER else m_iBufSize r in
  let iNewPos := m_iPos r + Z.min (m_iBuffPos r) (m_iBuffUsed r) in
  let iSizeHint :=
    if m_iSizeHint r <=? 0 then (if m_iReadUnhinted r >? 0 then m_iReadUnhinted r else DEFAULT_READ_UNHINTED) else m_iSizeHint r in
  let iReadLen := Z.min iSizeHint iBufSize in
  let '(got, io) := pread iReadLen iNewPos r in
  match got with
  | None => Rd (r_file r) io (m_iPos r) 0 [] true iBufSize iSizeHint (m_iReadUnhinted r) true
  | Some bs => Rd (r_file r) io iNewPos 0 bs true iBufSize (iSizeHint - Z.of_nat (length bs)) (m_iReadUnhinted r) (m_bError r)
  end.

Definition GetByte (r : CSphReader) : Z * CSphReader :=
  let go r := (m_dBuff r !!! Z.to_nat (m_iBuffPos r), advance 1 r) in
  if m_iBuffPos r >=? m_iBuffUsed r then
    let r := UpdateCache r in
    if m_iBuffPos r >=? m_iBuffUsed r then (0, fail r) else go r
  else go r.

(** The bytes of the buffer from the position on, at most [n]. *)
Definition chunk (n : Z) (r : CSphReader) : list Z := take (Z.to_nat n) (drop (Z.to_nat (m_iBuffPos r)) (m_dBuff r)).

Definition zeros (n : Z) : list Z := replicate (Z.to_nat n) 0.

(** The loop of [GetBytes] for reads larger than the buffer. [pData] is the
    caller's memory, [iOut] the offset [pOut - pData]; the second result tells
    whether the read has failed. *)
Fixpoint get_loop (fuel : nat) (pData : list Z) (iOut : nat) (iSize : Z) (r : CSphReader) : option (list Z * nat * Z * bool * CSphReader) :=
  match fuel with
  | O => None
  | S fuel' =>
      if iSize >? m_iBufSize r then
        let iLen := m_iBuffUsed r - m_iBuffPos r in
        let pData := FileIO.overlay pData iOut (chunk iLen r) in
        let r := advance iLen r in
        let iOut := (iOut + Z.to_nat iLen)%nat in
        let iSize := iSize - iLen in
        let r := set_hint (cast int32_t (Z.max (m_iReadUnhinted r) iSize)) r in
        if iSize >? 0 then
          let r := UpdateCache r in
          if m_iBuffUsed r =? 0 then Some (FileIO.overlay pData 0 (zeros iSize), iOut, iSize, true, r)
          else get_loop fuel' pData iOut iSize r
        else get_loop fuel' pData iOut iSize r
      else Some (pData, iOut, iSize, false, r)
  end.

(** The rest of [GetBytes], for what fits the buffer. *)
Definition get_tail (pData : list Z) (iOut : nat) (iSize : Z) (r : CSphReader) : list Z * CSphReader :=
  if iSize >? m_iBuffUsed r - m_iBuffPos r then
    let iLen := m_iBuffUsed r - m_iBuffPos r in
    let '(pData, iOut, iSize, r) :=
      if iLen >? 0 then (FileIO.overlay pData iOut (chunk iLen r), (iOut + Z.to_nat iLen)%nat, iSize - iLen, advance iLen r)
      else (pData, iOut, iSize, r) in
    let r := set_hint (cast int32_t (Z.max (m_iReadUnhinted r) iSize)) r in
    let r := UpdateCache r in
    if iSize >? m_iBuffUsed r - m_iBuffPos r then (FileIO.overlay pData 0 (zeros iSize), fail r)
    else (FileIO.overlay pData iOut (chunk iSize r), advance iSize r)
  else (FileIO.overlay pData iOut (chunk iSize r), advance iSize r).

Definition GetBytes (pData : list Z) (r : CSphReader) : option (list Z * CSphReader) :=
  '(pData, iOut, iSize, bFailed, r) ← get_loop (S (S (length pData))) pData 0 (Z.of_nat (length pData)) r;
  Some (if (bFailed : bool) then (pData, r) else get_tail pData iOut iSize r).

Definition GetDword (r : CSphReader) : option (Z * CSphReader) :=
  '(bs, r) ← GetBytes (zeros 4) r; Some (DocidLookup.le_value bs, r).
Definition GetOffset (r : CSphReader) : option (Z * CSphReader) :=
  '(bs, r) ← GetBytes (zeros 8) r; Some (cast SphOffset_t (DocidLookup.le_value bs), r).

(** The string's memory is [Reserve]d, which zeroes it. *)
Definition GetString (r : CSphReader) : option (list Z * CSphReader) :=
  '(uLen, r) ← GetDword r;
  if uLen =? 0 then Some ([], r) else GetBytes (zeros uLen) r.

(** [UnzipValueBE] over [GetByte]. *)
Definition step4 (T : ctype) (res : Z) (k : Z -> CSphReader -> Z * CSphReader) (r : CSphReader) : Z * CSphReader :=
  let '(b, r) := GetByte r in
  let b := cast BYTE b in
  let res := cast T (Z.lor (Z.shiftl res 7) (Z.land b 0x7f)) in
  if Z.land b 0x80 =? 0 then (res, r) else k res r.

Definition UnzipInt (r : CSphReader) : Z * CSphReader :=
  step4 DWORD 0 (λ res, step4 DWORD res (λ res, step4 DWORD res (λ res, step4 DWORD res (λ res r,
    let '(b, r) := GetByte r in (cast DWORD (Z.lor (Z.shiftl res 7) b), r))))) r.

Fixpoint unzip_loop (fuel : nat) (res : Z) (r : CSphReader) : option (Z * CSphReader) :=
  match fuel with
  | O => None
  | S fuel' =>
      let '(b, r) := GetByte r in
      let b := cast BYTE b in
      if Z.land b 0x80 =? 0 then Some (cast uint64_t (Z.lor (Z.shiftl res 7) b), r)
      else unzip_loop fuel' (cast uint64_t (Z.lor (Z.shiftl res 7) (Z.land b 0x7f))) r
  end.

(** Every byte with the top bit set is one of the file. *)
Definition UnzipOffset (r : CSphReader) : option (Z * CSphReader) := unzip_loop (S (length (r_file r))) 0 r.

Definition GetZString (r : CSphReader) : option (list Z * CSphReader) :=
  '(uLen, r) ← UnzipOffset r;
  if uLen =? 0 then Some ([], r) else GetBytes (zeros uLen) r.

(** [Tag]; the caller's 64 bytes are not initialized. *)
Definition Tag (sTag : list Z) (sBuf : list Z) (r : CSphReader) : option (bool * CSphReader) :=
  if m_bError r then Some (false, r)
  else
    '(bs, r) ← GetBytes (take (length sTag) sBuf) r;
    if bool_decide (bs = sTag) then Some (true, r) else Some (false, fail r).

Example read_demo :
  (x ← GetDword (Reader true 5 [1; 2; 0; 0; 9; 8; 7] []); let '(v, r) := x in Some (v, fst (GetByte r), GetPos r)) = Some (513, 9, 4).
Proof. reflexivity. Qed.
End Reader.
