(* ===== verification/ReaderOk.v ===== *)
(** * The buffered reader reads the file

    What [CSphReader] returns is what the file holds at its position, whatever
    the buffer, the hints and the earlier reads; a failure sets the error flag,
    except where a read is larger than the buffer. *)

From S2P Require Import Prelude Zip FileIO DocidLookup DocidLookupOk Reader.
Import Zip Reader.

Module ReaderOk.

(** ** A reader in order *)

Definition slice (f : list Z) (p n : Z) : list Z := take (Z.to_nat n) (drop (Z.to_nat p) f).
Abbreviation flen r := (Z.of_nat (length (r_file r))).

Record reader_ok (r : CSphReader) : Prop := {
  ro_pos : 0 <= m_iPos r;
  ro_buffpos : 0 <= m_iBuffPos r <= m_iBuffUsed r;
  ro_buff : m_dBuff r = slice (r_file r) (m_iPos r) (m_iBuffUsed r);
  ro_used : m_iBuffUsed r <= m_iBufSize r;
  ro_size : 0 <= m_iBufSize r < 2 ^ 31;
  ro_alloc : m_bBuff r = true -> 0 < m_iBufSize r;
  ro_hint : in_type int32_t (m_iReadUnhinted r)
}.

(** No pread fails. *)
Definition calm (r : CSphReader) : Prop := Forall (λ b, b = true) (r_io r).

Lemma slice_length f p n : 0 <= p -> 0 <= n -> p + n <= Z.of_nat (length f) -> Z.of_nat (length (slice f p n)) = n.
Proof. intros. unfold slice. rewrite length_take, length_drop. lia. Qed.

Lemma slice_app f p n m : 0 <= p -> 0 <= n -> 0 <= m -> slice f p n ++ slice f (p + n) m = slice f p (n + m).
Proof.
  intros. unfold slice. rewrite (Z2Nat.inj_add n m), (Z2Nat.inj_add p n), <- drop_drop by lia.
  symmetry. rewrite <- (take_drop (Z.to_nat n) (take (Z.to_nat n + Z.to_nat m) (drop (Z.to_nat p) f))) at 1.
  f_equal; [rewrite take_take; f_equal; lia|]. rewrite skipn_firstn_comm. f_equal. lia.
Qed.

Lemma slice_slice f p n q m : 0 <= p -> 0 <= q -> 0 <= m -> q + m <= n -> slice (slice f p n) q m = slice f (p + q) m.
Proof.
  intros. unfold slice. rewrite skipn_firstn_comm, take_take, drop_drop. f_equal; [lia|]. f_equal. lia.
Qed.

Lemma slice_past f p n : 0 <= p -> Z.of_nat (length f) <= p -> slice f p n = [].
Proof. intros. unfold slice. rewrite drop_ge by lia. by rewrite take_nil. Qed.

Lemma slice_self f p n : slice f p n = slice f p (Z.of_nat (length (slice f p n))).
Proof.
  unfold slice. rewrite length_take, Nat2Z.id. set (X := drop _ f). rewrite <- take_take. by rewrite (take_ge X (length X)).
Qed.

Lemma slice_used r : reader_ok r -> m_iBuffUsed r = 0 \/ m_iPos r + m_iBuffUsed r <= flen r.
Proof.
  intros [H1 H2 H3 _ _ _ _]. assert (length (m_dBuff r) = length (slice (r_file r) (m_iPos r) (m_iBuffUsed r))) as E by congruence.
  unfold slice in E. rewrite length_take, length_drop in E. unfold m_iBuffUsed in *. lia.
Qed.

Lemma pos_nonneg r : reader_ok r -> 0 <= GetPos r.
Proof. intros [H1 H2 _ _ _ _ _]. unfold GetPos. lia. Qed.

(** ** Filling the buffer *)

Record refilled (r r' : CSphReader) : Prop := {
  rf_ok : reader_ok r';
  rf_file : r_file r' = r_file r;
  rf_io : ∃ k, r_io r' = drop k (r_io r);
  rf_buffpos : m_iBuffPos r' = 0;
  rf_size : 0 < m_iBufSize r' /\ (0 < m_iBufSize r -> m_iBufSize r' = m_iBufSize r);
  rf_got : (m_bError r' = m_bError r /\ m_iPos r' = GetPos r /\ ∃ n, Z.min (m_iSizeHint r) (m_iBufSize r') <= n /\ 0 < n /\ m_dBuff r' = slice (r_file r) (GetPos r) n)
    \/ (m_bError r' = true /\ ¬ calm r /\ m_dBuff r' = [])
}.

Lemma UpdateCache_ok r : reader_ok r -> refilled r (UpdateCache r).
Proof.
  intros Hr. pose proof Hr as [H1 H2 H3 H4 H5 H6 H7]. unfold UpdateCache, pread.
  set (bs := if m_bBuff r then m_iBufSize r else if m_iBufSize r <=? 0 then DEFAULT_READ_BUFFER else m_iBufSize r).
  assert (0 < bs < 2 ^ 31 /\ (0 < m_iBufSize r -> bs = m_iBufSize r) /\ m_iBufSize r <= bs) as (B1 & B2 & B3).
  { unfold bs, DEFAULT_READ_BUFFER. destruct (m_bBuff r); [specialize (H6 eq_refl); lia|]. destruct (Z.leb_spec (m_iBufSize r) 0); lia. }
  set (h := if m_iSizeHint r <=? 0 then _ else _).
  assert (0 < h /\ m_iSizeHint r <= h) as (B4 & B5).
  { unfold h, DEFAULT_READ_UNHINTED. destruct (Z.leb_spec (m_iSizeHint r) 0); [|lia]. destruct (Z.gtb_spec (m_iReadUnhinted r) 0); lia. }
  replace (Z.min (m_iBuffPos r) (m_iBuffUsed r)) with (m_iBuffPos r) by lia. fold (GetPos r).
  assert (∃ ok io, match r_io r with [] => (true, []) | b :: l => (b, l) end = (ok, io) /\ (∃ k, io = drop k (r_io r)) /\ (ok = false -> ¬ calm r))
    as (ok & io & -> & Hio & Hok).
  { unfold calm. destruct (r_io r) as [|b l]; [by exists true, []; split; [done|]; split; [by exists 0%nat|]|].
    exists b, l. split; [done|]. split; [by exists 1%nat|]. intros -> F. by inversion F. }
  assert (0 <= GetPos r) as Hp by (unfold GetPos; lia).
  destruct ok.
  - fold (slice (r_file r) (GetPos r) (Z.min h bs)). set (l := slice _ _ _).
    assert (Z.of_nat (length l) <= Z.min h bs) as Hl by (unfold l, slice; rewrite length_take; lia).
    split; cbn; auto.
    + split; cbn; unfold m_iBuffUsed; cbn; auto; try lia.
      apply slice_self.
    + lia.
    + left. split; [done|]. split; [done|]. exists (Z.min h bs). split; [lia|]. split; [lia|done].
  - split; cbn; auto.
    + split; cbn; unfold m_iBuffUsed; cbn; auto; lia.
    + lia.
Qed.

(** ** Moving *)

(** The reader has moved by [n], or failed. *)
Record moved (n : Z) (r r' : CSphReader) : Prop := {
  mv_ok : reader_ok r';
  mv_file : r_file r' = r_file r;
  mv_size : 0 < m_iBufSize r -> m_iBufSize r' = m_iBufSize r;
  mv_io : ∃ k, r_io r' = drop k (r_io r);
  mv_good : m_bError r' = false -> m_bError r = false /\ GetPos r' = GetPos r + n /\ GetPos r + n <= Z.max (flen r) (GetPos r);
  mv_calm : calm r -> m_bError r = false -> GetPos r + n <= flen r -> m_bError r' = false
}.

Lemma calm_drop r r' k : r_io r' = drop k (r_io r) -> calm r -> calm r'.
Proof. unfold calm. intros ->. apply Forall_drop. Qed.

Lemma moved_trans n m r1 r2 r3 : 0 <= n -> 0 <= m -> moved n r1 r2 -> moved m r2 r3 -> moved (n + m) r1 r3.
Proof.
  intros Hn Hm [A1 A2 A3 [k1 A4] A5 A6] [B1 B2 B3 [k2 B4] B5 B6]. split; auto.
  - congruence.
  - intros H. rewrite B3 by (rewrite A3; lia). auto.
  - exists (k1 + k2)%nat. by rewrite B4, A4, drop_drop.
  - intros E. destruct (B5 E) as (E2 & P2 & L2). destruct (A5 E2) as (E1 & P1 & L1). rewrite A2 in L2. split; [done|]. lia.
  - intros C E1 L. assert (m_bError r2 = false) as E2 by (apply A6; auto; lia). destruct (A5 E2) as (_ & P1 & _).
    apply B6; [by eapply calm_drop|done|rewrite A2; lia].
Qed.

(** Inside the buffer. *)
Lemma advance_moved n r : reader_ok r -> 0 <= n <= m_iBuffUsed r - m_iBuffPos r -> moved n r (advance n r).
Proof.
  intros Hr Hn. pose proof (slice_used r Hr) as Hu. pose proof Hr as [H1 H2 H3 H4 H5 H6 H7]. split; cbn; auto.
  - split; cbn; auto. unfold m_iBuffUsed in *. cbn. lia.
  - by exists 0%nat.
  - intros E. unfold GetPos. cbn. split; [done|]. lia.
Qed.

Lemma chunk_slice n r : reader_ok r -> 0 <= n <= m_iBuffUsed r - m_iBuffPos r -> chunk n r = slice (r_file r) (GetPos r) n.
Proof.
  intros [H1 H2 H3 _ _ _ _] Hn. unfold chunk. rewrite H3. fold (slice (slice (r_file r) (m_iPos r) (m_iBuffUsed r)) (m_iBuffPos r) n).
  apply slice_slice; lia.
Qed.

Lemma refilled_moved r r' : reader_ok r -> refilled r r' -> moved 0 r r'.
Proof.
  intros Hr [A1 A2 A3 A4 A5 A6]. split; auto; [apply A5| |].
  - intros E. destruct A6 as [(E1 & P & _)|(E1 & _)]; [|congruence]. unfold GetPos in *. rewrite A4. split; [congruence|]. lia.
  - intros C E _. destruct A6 as [(E1 & _)|(_ & N & _)]; [congruence|done].
Qed.

Lemma fail_moved n r r' : moved 0 r r' -> (calm r -> m_bError r = false -> flen r < GetPos r + n) -> moved n r (fail r').
Proof.
  intros [[H1 H2 H3 H4 H5 H6 H7] A2 A3 A4 A5 A6] Hn. split; cbn; auto.
  - split; cbn; auto.
  - done.
  - intros C E L. specialize (Hn C E). lia.
Qed.

Lemma GetByte_ok r : reader_ok r ->
  moved 1 r (GetByte r).2 /\ (m_bError (GetByte r).2 = false -> r_file r !! Z.to_nat (GetPos r) = Some (GetByte r).1).
Proof.
  intros Hr.
  assert (∀ r0, reader_ok r0 -> m_iBuffPos r0 < m_iBuffUsed r0 ->
    r_file r0 !! Z.to_nat (GetPos r0) = Some (m_dBuff r0 !!! Z.to_nat (m_iBuffPos r0))) as G.
  { intros r0 [H1 H2 H3 _ _ _ _] Hlt. assert (Z.to_nat (m_iBuffPos r0) < length (m_dBuff r0))%nat as Hb by (unfold m_iBuffUsed in *; lia).
    rewrite <- (list_lookup_lookup_total_lt _ _ Hb). rewrite H3 at 1. unfold slice. rewrite lookup_take_lt by (unfold m_iBuffUsed in *; lia). rewrite lookup_drop.
    unfold GetPos. f_equal. lia. }
  unfold GetByte. destruct (Z.geb_spec (m_iBuffPos r) (m_iBuffUsed r)) as [C|C].
  - pose proof (UpdateCache_ok r Hr) as U. pose proof (refilled_moved r _ Hr U) as M0. set (r' := UpdateCache r) in *. clearbody r'.
    destruct (Z.geb_spec (m_iBuffPos r') (m_iBuffUsed r')) as [C'|C'].
    + cbn [fst snd]. split; [|done]. apply fail_moved; [done|]. intros Hc E. destruct U as [A1 A2 A3 A4 A5 A6].
      destruct A6 as [(_ & _ & n & N1 & N2 & N3)|(_ & N & _)]; [|done]. rewrite A4 in C'. unfold m_iBuffUsed in C'. rewrite N3 in C'.
      unfold slice in C'. rewrite length_take, length_drop in C'. pose proof (pos_nonneg r Hr). lia.
    + cbn [fst snd]. pose proof (advance_moved 1 r' (mv_ok _ _ _ M0) ltac:(lia)) as M1.
      pose proof (moved_trans 0 1 _ _ _ ltac:(lia) ltac:(lia) M0 M1) as M. split; [exact M|]. cbn [advance set_pos m_bError]. intros E.
      destruct (mv_good _ _ _ M0 E) as (_ & P & _). rewrite Z.add_0_r in P. rewrite <- P, <- (mv_file _ _ _ M0). apply G; [apply M0|lia].
  - cbn [fst snd]. split; [|intros _; by apply G]. apply advance_moved; [done|]. destruct Hr. lia.
Qed.

(** ** Many bytes *)

Lemma overlay_in pData (o : nat) bs : (o + length bs <= length pData)%nat ->
  length (FileIO.overlay pData o bs) = length pData /\ take (o + length bs) (FileIO.overlay pData o bs) = take o pData ++ bs.
Proof.
  intros H. unfold FileIO.overlay. split.
  - rewrite !length_app, length_take, length_drop. lia.
  - rewrite app_assoc. rewrite take_app_le by (rewrite length_app, length_take; lia). apply take_ge. rewrite length_app, length_take. lia.
Qed.

Lemma overlay_full pData (o : nat) bs : (o + length bs = length pData)%nat -> FileIO.overlay pData o bs = take o pData ++ bs.
Proof. intros H. unfold FileIO.overlay. rewrite drop_ge by lia. by rewrite app_nil_r. Qed.

Lemma hint_ok h r : reader_ok r -> reader_ok (set_hint h r).
Proof. intros [H1 H2 H3 H4 H5 H6 H7]. by split. Qed.

Lemma hint_moved h r : reader_ok r -> moved 0 r (set_hint h r).
Proof.
  intros Hr. split; cbn; auto; [by apply hint_ok|by exists 0%nat|]. intros E. split; [done|]. unfold GetPos. cbn. lia.
Qed.

Lemma moved_refl r : reader_ok r -> moved 0 r r.
Proof. intros Hr. split; auto; [by exists 0%nat|]. intros E. split; [done|]. lia. Qed.

Lemma zeros_length n : 0 <= n -> Z.of_nat (length (zeros n)) = n.
Proof. intros. unfold zeros. rewrite length_replicate. lia. Qed.

Lemma tail_ok pData o n r : reader_ok r -> 0 <= n -> n <= m_iBufSize r \/ n = 0 -> Z.of_nat o + n = Z.of_nat (length pData) ->
  ∃ bs r', get_tail pData o n r = (bs, r') /\ length bs = length pData /\ moved n r r' /\
    (m_bError r' = false -> bs = take o pData ++ slice (r_file r) (GetPos r) n).
Proof.
  intros Hr Hn Hsize Hl. pose proof Hr as [H1 H2 _ _ H5 _ H7]. pose proof (pos_nonneg r Hr) as Hp. unfold get_tail.
  assert (∀ pd o n r, reader_ok r -> 0 <= n <= m_iBuffUsed r - m_iBuffPos r -> Z.of_nat o + n = Z.of_nat (length pd) ->
    FileIO.overlay pd o (chunk n r) = take o pd ++ slice (r_file r) (GetPos r) n /\
    Z.of_nat (length (slice (r_file r) (GetPos r) n)) = n) as Done.
  { clear. intros pd o n r Hr Hn Hl. pose proof (slice_used r Hr). pose proof (pos_nonneg r Hr). rewrite chunk_slice by done.
    assert (Z.of_nat (length (slice (r_file r) (GetPos r) n)) = n) as L.
    { destruct (decide (n = 0)) as [->|]; [done|]. apply slice_length; [done|lia|]. unfold GetPos. destruct Hr. lia. }
    split; [|done]. apply overlay_full. lia. }
  rewrite Z.gtb_ltb. destruct (Z.ltb_spec (m_iBuffUsed r - m_iBuffPos r) n) as [C|C].
  2:{ destruct (Done pData o n r Hr ltac:(lia) Hl) as [E L]. rewrite E. eexists _, _. split; [done|]. split; [rewrite length_app, length_take; lia|].
      split; [by apply advance_moved; [|lia]|done]. }
  set (k := m_iBuffUsed r - m_iBuffPos r) in *. rewrite Z.gtb_ltb.
  assert (∃ pd1 o1 r1, (if 0 <? k then (FileIO.overlay pData o (chunk k r), (o + Z.to_nat k)%nat, n - k, advance k r) else (pData, o, n, r))
    = (pd1, o1, n - k, r1) /\ length pd1 = length pData /\ moved k r r1 /\ Z.of_nat o1 = Z.of_nat o + k /\ m_iReadUnhinted r1 = m_iReadUnhinted r /\
    m_iBufSize r1 = m_iBufSize r /\ take o1 pd1 = take o pData ++ slice (r_file r) (GetPos r) k) as (pd1 & o1 & r1 & -> & L1 & M1 & O1 & U1 & B1 & T1).
  { destruct (Z.ltb_spec 0 k) as [Hk|Hk].
    - pose proof (chunk_slice k r Hr ltac:(lia)) as Ec. assert (Z.of_nat (length (chunk k r)) = k) as Lc.
      { unfold chunk, k, m_iBuffUsed in *. rewrite length_take, length_drop. lia. }
      destruct (overlay_in pData o (chunk k r) ltac:(lia)) as [V1 V2]. eexists _, _, _. split; [done|]. split; [done|].
      split; [by apply advance_moved; [|lia]|]. split; [lia|]. split; [done|]. split; [done|]. rewrite <- Ec, <- V2. f_equal. lia.
    - assert (k = 0) as Ek by lia. exists pData, o, r. rewrite Ek, Z.sub_0_r, Z.add_0_r. split; [done|]. split; [done|].
      split; [by apply moved_refl|]. split; [done|]. split; [done|]. split; [done|]. unfold slice. cbn. by rewrite app_nil_r. }
  rewrite U1. set (h := cast int32_t _).
  assert (n - k <= h) as Hh.
  { unfold h. unfold in_type in H7. cbn in H7. rewrite cast_id; [lia|done|]. unfold in_type. cbn. lia. }
  pose proof (hint_moved h r1 (mv_ok _ _ _ M1)) as M2. pose proof (UpdateCache_ok _ (mv_ok _ _ _ M2)) as U.
  pose proof (refilled_moved _ _ (mv_ok _ _ _ M2) U) as M3. set (r3 := UpdateCache (set_hint h r1)) in *. clearbody r3.
  assert (moved k r r3) as M13.
  { replace k with (k + 0 + 0) by lia. eapply moved_trans; [lia|lia| |exact M3]. eapply moved_trans; [lia|lia|exact M1|exact M2]. }
  pose proof (mv_file _ _ _ M13) as F3. rewrite Z.gtb_ltb, (rf_buffpos _ _ U), Z.sub_0_r.
  destruct (Z.ltb_spec (m_iBuffUsed r3) (n - k)) as [C3|C3].
  - eexists _, _. split; [done|]. destruct (overlay_in pd1 0 (zeros (n - k))) as [V1 _].
    { pose proof (zeros_length (n - k)). lia. }
    split; [congruence|]. split; [|done]. replace n with (k + (n - k)) by lia.
    assert (moved (n - k) r3 (fail r3)) as M4.
    { apply fail_moved; [apply moved_refl, M3|]. intros Hc E.
      destruct (rf_got _ _ U) as [(E1 & P3 & m & N1 & N2 & N3)|(E1 & _)]; [|congruence].
      unfold m_iBuffUsed in C3. rewrite N3 in C3. unfold slice in C3. rewrite length_take, length_drop in C3.
      cbn [set_hint set_pos r_file] in C3. rewrite F3, <- (mv_file _ _ _ M1). unfold GetPos in *. rewrite (rf_buffpos _ _ U), P3.
      cbn [set_hint set_pos m_iSizeHint m_iPos m_iBuffPos] in *. pose proof (pos_nonneg _ (mv_ok _ _ _ M1)) as P1. unfold GetPos in P1.
      destruct (rf_size _ _ U) as [_ R2]. cbn [set_hint set_pos m_iBufSize] in R2. lia. }
    eapply moved_trans; [lia|lia|exact M13|exact M4].
  - destruct (Done pd1 o1 (n - k) r3 (mv_ok _ _ _ M3) ltac:(rewrite (rf_buffpos _ _ U); lia) ltac:(lia)) as [E L].
    rewrite E. eexists _, _. split; [done|]. assert (length (take o1 pd1) = o1) as Lt by (rewrite length_take; lia).
    split; [rewrite length_app; lia|]. pose proof (advance_moved (n - k) r3 (mv_ok _ _ _ M3) ltac:(rewrite (rf_buffpos _ _ U); lia)) as M4.
    pose proof (moved_trans k (n - k) _ _ _ ltac:(lia) ltac:(lia) M13 M4) as M. replace (k + (n - k)) with n in M by lia. split; [exact M|].
    cbn [advance set_pos m_bError]. intros E3. destruct (mv_good _ _ _ M13 E3) as (_ & P & _).
    rewrite T1, P, F3, <- app_assoc, slice_app by lia. do 2 f_equal. lia.
Qed.

(** What a read of [n] bytes gives, or the reader has failed. *)
Definition read_ok (n : Z) (r : CSphReader) (bs : list Z) (r' : CSphReader) : Prop :=
  Z.of_nat (length bs) = n /\ moved n r r' /\ (m_bError r' = false -> bs = slice (r_file r) (GetPos r) n).

(** A read that fits the buffer. *)
Lemma GetBytes_small pData r : reader_ok r -> Z.of_nat (length pData) <= m_iBufSize r ->
  ∃ bs r', GetBytes pData r = Some (bs, r') /\ read_ok (Z.of_nat (length pData)) r bs r'.
Proof.
  intros Hr Hs. unfold GetBytes. cbn [get_loop]. rewrite Z.gtb_ltb, (proj2 (Z.ltb_ge _ _)) by lia. cbn [mbind option_bind].
  destruct (tail_ok pData 0 (Z.of_nat (length pData)) r Hr ltac:(lia) ltac:(lia) ltac:(lia)) as (bs & r' & -> & L & M & E).
  exists bs, r'. split; [done|]. split; [lia|]. split; [done|]. exact E.
Qed.

(** Without a failure and inside the file the flag stays clear. *)
Lemma moved_calm n r r' : moved n r r' -> calm r -> m_bError r = false -> GetPos r + n <= flen r ->
  m_bError r' = false /\ GetPos r' = GetPos r + n /\ calm r'.
Proof.
  intros M C E L. pose proof (mv_calm _ _ _ M C E L) as E'. destruct (mv_io _ _ _ M) as [k K].
  split; [done|]. split; [apply (mv_good _ _ _ M E')|by eapply calm_drop].
Qed.

Lemma get_loop_calm fuel : ∀ pData o n r, reader_ok r -> calm r -> m_bError r = false -> 0 <= n ->
  Z.of_nat o + n = Z.of_nat (length pData) -> GetPos r + n <= flen r ->
  n + (if m_iBuffUsed r =? m_iBuffPos r then 1 else 0) < Z.of_nat fuel ->
  ∃ pd' o' n' r', get_loop fuel pData o n r = Some (pd', o', n', false, r') /\ length pd' = length pData /\
    0 <= n' <= n /\ (n' <= m_iBufSize r' \/ n' = 0) /\ Z.of_nat o' + n' = Z.of_nat (length pData) /\ moved (n - n') r r' /\
    take o' pd' = take o pData ++ slice (r_file r) (GetPos r) (n - n').
Proof.
  induction fuel as [|fuel IH]; intros pData o n r Hr Hc He Hn Hl Hf Hfuel; [destruct (_ =? _); lia|]. cbn [get_loop].
  rewrite Z.gtb_ltb. destruct (Z.ltb_spec (m_iBufSize r) n) as [C|C].
  2:{ exists pData, o, n, r. rewrite Z.sub_diag. unfold slice. cbn. rewrite app_nil_r. repeat split; auto; try lia; by apply moved_refl. }
  set (k := m_iBuffUsed r - m_iBuffPos r) in *. pose proof (ro_buffpos _ Hr) as Hbp. pose proof (ro_used _ Hr) as Hus.
  pose proof (chunk_slice k r Hr ltac:(lia)) as Ec. assert (Z.of_nat (length (chunk k r)) = k) as Lc.
  { unfold chunk, k, m_iBuffUsed in *. rewrite length_take, length_drop. lia. }
  assert (k <= n) as Hkn.
  { pose proof (slice_used r Hr). unfold k. lia. }
  destruct (overlay_in pData o (chunk k r) ltac:(lia)) as [V1 V2]. set (pd1 := FileIO.overlay pData o (chunk k r)) in *.
  pose proof (advance_moved k r Hr ltac:(lia)) as M1. set (h := cast int32_t _).
  pose proof (hint_moved h _ (mv_ok _ _ _ M1)) as M2. pose proof (moved_trans k 0 _ _ _ ltac:(lia) ltac:(lia) M1 M2) as M12.
  rewrite Z.add_0_r in M12. set (r2 := set_hint h (advance k r)) in *.
  destruct (moved_calm _ _ _ M12 Hc He ltac:(lia)) as (E2 & P2 & C2). pose proof (mv_file _ _ _ M12) as F2.
  rewrite Z.gtb_ltb. destruct (Z.ltb_spec 0 (n - k)) as [Hpos|Hpos].
  - pose proof (UpdateCache_ok r2 (mv_ok _ _ _ M12)) as U. pose proof (refilled_moved _ _ (mv_ok _ _ _ M12) U) as M3.
    set (r3 := UpdateCache r2) in *. clearbody r3. destruct (moved_calm _ _ _ M3 C2 E2 ltac:(rewrite F2; lia)) as (E3 & P3 & C3).
    pose proof (mv_file _ _ _ M3) as F3. rewrite F2 in F3.
    assert (0 < m_iBuffUsed r3) as H3.
    { destruct (rf_got _ _ U) as [(_ & _ & m & N1 & N2 & N3)|(X & _)]; [|congruence]. unfold m_iBuffUsed. rewrite N3.
      unfold slice. rewrite length_take, length_drop, F2, P2. pose proof (pos_nonneg r Hr). lia. }
    rewrite (proj2 (Z.eqb_neq _ _)) by lia. pose proof (rf_buffpos _ _ U) as B3.
    destruct (IH pd1 (o + Z.to_nat k)%nat (n - k) r3) as (pd' & o' & n' & r' & -> & L' & N' & S' & O' & M' & T'); auto; try lia.
    { apply M3. } { rewrite F3. lia. } { rewrite (proj2 (Z.eqb_neq _ _)) by lia. destruct (Z.eqb_spec (m_iBuffUsed r) (m_iBuffPos r)); lia. }
    pose proof (moved_trans k 0 _ _ _ ltac:(lia) ltac:(lia) M12 M3) as M13. rewrite Z.add_0_r in M13.
    pose proof (moved_trans k (n - k - n') _ _ _ ltac:(lia) ltac:(lia) M13 M') as M. replace (k + (n - k - n')) with (n - n') in M by lia.
    exists pd', o', n', r'. split; [done|]. split; [lia|]. split; [lia|]. split; [done|]. split; [lia|]. split; [exact M|].
    rewrite T'. replace (o + Z.to_nat k)%nat with (o + length (chunk k r))%nat by lia. rewrite V2, Ec, <- app_assoc. f_equal.
    rewrite F3, P3, P2, Z.add_0_r, slice_app by (pose proof (pos_nonneg r Hr); lia). f_equal. lia.
  - pose proof (ro_size _ Hr). lia.
Qed.

(** A read of any size, when nothing fails and the bytes are there. *)
Lemma GetBytes_calm pData r : reader_ok r -> calm r -> m_bError r = false -> GetPos r + Z.of_nat (length pData) <= flen r ->
  ∃ r', GetBytes pData r = Some (slice (r_file r) (GetPos r) (Z.of_nat (length pData)), r') /\ moved (Z.of_nat (length pData)) r r'.
Proof.
  intros Hr Hc He Hl. set (n := Z.of_nat (length pData)) in *. unfold GetBytes. fold n.
  destruct (get_loop_calm (S (S (length pData))) pData 0 n r) as (pd & o & n' & r1 & -> & L1 & N1 & S1 & O1 & M1 & T1); auto; try lia.
  { destruct (_ =? _); lia. }
  cbn [mbind option_bind]. destruct (moved_calm _ _ _ M1 Hc He ltac:(lia)) as (E1 & P1 & C1).
  destruct (tail_ok pd o n' r1 (mv_ok _ _ _ M1) ltac:(lia) S1 ltac:(lia)) as (bs & r2 & -> & L2 & M2 & T2).
  pose proof (mv_file _ _ _ M1) as F1. destruct (moved_calm _ _ _ M2 C1 E1 ltac:(rewrite F1; lia)) as (E2 & _ & _).
  exists r2. pose proof (moved_trans (n - n') n' _ _ _ ltac:(lia) ltac:(lia) M1 M2) as M. replace (n - n' + n') with n in M by lia.
  split; [|done]. rewrite (T2 E2), T1, P1, F1, take_0, app_nil_l. rewrite slice_app by (pose proof (pos_nonneg r Hr); lia).
  do 3 f_equal. lia.
Qed.

(** ** Readers and what they read *)

(** What every operation of a reader keeps. *)
Record keeps (r r' : CSphReader) : Prop := {
  kp_ok : reader_ok r';
  kp_file : r_file r' = r_file r;
  kp_size : 0 < m_iBufSize r -> m_iBufSize r' = m_iBufSize r;
  kp_io : ∃ k, r_io r' = drop k (r_io r);
  kp_error : m_bError r' = false -> m_bError r = false
}.

Lemma moved_keeps n r r' : moved n r r' -> keeps r r'.
Proof. intros [A1 A2 A3 A4 A5 A6]. split; auto. intros E. apply (A5 E). Qed.

Lemma keeps_trans r1 r2 r3 : keeps r1 r2 -> keeps r2 r3 -> keeps r1 r3.
Proof.
  intros [A1 A2 A3 [k1 A4] A5] [B1 B2 B3 [k2 B4] B5]. split; auto; [congruence| |].
  - intros H. rewrite B3; [by apply A3|]. rewrite A3; lia.
  - exists (k1 + k2)%nat. by rewrite B4, A4, drop_drop.
Qed.

Lemma keeps_calm r r' : keeps r r' -> calm r -> calm r'.
Proof. intros [_ _ _ [k K] _]. by eapply calm_drop. Qed.

(** A read as the file has it: the value and the position after it. *)
Definition spec (V : Type) := list Z -> Z -> option (V * Z).
Definition op (V : Type) := CSphReader -> option (V * CSphReader).

Definition spec_bind {V W} (f : spec V) (g : V -> spec W) : spec W := λ file p, '(v, p) ← f file p; g v file p.
Definition op_bind {V W} (m : op V) (k : V -> op W) : op W := λ r, '(v, r) ← m r; k v r.

(** With a buffer of at least [B] bytes: a result that leaves the flag clear is
    what the file has, and the flag stays clear if the file has it and no read
    fails. *)
Definition decodes {V} (B : Z) (f : spec V) (m : op V) : Prop :=
  ∀ r, reader_ok r -> Forall is_byte (r_file r) -> B <= m_iBufSize r -> 0 < m_iBufSize r ->
  ∃ v r', m r = Some (v, r') /\ keeps r r' /\ (m_bError r' = false -> f (r_file r) (GetPos r) = Some (v, GetPos r')) /\
    (calm r -> m_bError r = false -> is_Some (f (r_file r) (GetPos r)) -> m_bError r' = false).

(** With any buffer, when no read fails. *)
Definition reads {V} (f : spec V) (m : op V) : Prop :=
  ∀ r v p, reader_ok r -> Forall is_byte (r_file r) -> calm r -> m_bError r = false -> f (r_file r) (GetPos r) = Some (v, p) ->
  ∃ r', m r = Some (v, r') /\ keeps r r' /\ m_bError r' = false /\ GetPos r' = p.

Lemma decodes_bind {V W} B (f : spec V) (g : V -> spec W) m k :
  decodes B f m -> (∀ v, decodes B (g v) (k v)) -> decodes B (spec_bind f g) (op_bind m k).
Proof.
  intros Hm Hk r Hr Hb HB H0. destruct (Hm r Hr Hb HB H0) as (v & r1 & E1 & K1 & G1 & C1). pose proof K1 as [A1 A2 A3 A4 A5].
  destruct (Hk v r1 A1 ltac:(by rewrite A2) ltac:(rewrite A3; lia) ltac:(rewrite A3; lia)) as (w & r2 & E2 & K2 & G2 & C2).
  exists w, r2. unfold op_bind, spec_bind. rewrite E1. cbn [mbind option_bind]. split; [exact E2|]. split; [by eapply keeps_trans|]. split.
  - intros E. pose proof (kp_error _ _ K2 E) as Er1. rewrite (G1 Er1). cbn [mbind option_bind]. rewrite <- A2. by apply G2.
  - intros C E [x Hx]. destruct (f (r_file r) (GetPos r)) as [[v1 p1]|] eqn:Ef; [|done]. cbn [mbind option_bind] in Hx.
    assert (m_bError r1 = false) as Er1 by (apply C1; auto). pose proof (G1 Er1) as Eq. injection Eq as -> ->.
    apply C2; [by eapply keeps_calm|done|]. rewrite A2. by eexists.
Qed.

Lemma reads_bind {V W} (f : spec V) (g : V -> spec W) m k : reads f m -> (∀ v, reads (g v) (k v)) -> reads (spec_bind f g) (op_bind m k).
Proof.
  intros Hm Hk r w p Hr Hb C E H. unfold spec_bind in H. destruct (f (r_file r) (GetPos r)) as [[v p1]|] eqn:Ef; [|done]. cbn [mbind option_bind] in H.
  destruct (Hm r v p1 Hr Hb C E Ef) as (r1 & E1 & K1 & F1 & P1). pose proof (kp_file _ _ K1) as A2.
  destruct (Hk v r1 w p (kp_ok _ _ K1) ltac:(by rewrite A2) ltac:(by eapply keeps_calm) F1) as (r2 & E2 & K2 & F2 & P2); [by rewrite A2, P1|].
  exists r2. unfold op_bind. rewrite E1. split; [exact E2|]. split; [by eapply keeps_trans|done].
Qed.

Lemma decodes_ret {V} B (v : V) : decodes B (λ _ p, Some (v, p)) (λ r, Some (v, r)).
Proof.
  intros r Hr Hb HB H0. exists v, r. split; [done|]. split; [apply (moved_keeps 0), moved_refl, Hr|done].
Qed.

Lemma reads_ret {V} (v : V) : reads (λ _ p, Some (v, p)) (λ r, Some (v, r)).
Proof. intros r v' p Hr Hb C E [= <- <-]. exists r. split; [done|]. split; [apply (moved_keeps 0), moved_refl, Hr|done]. Qed.

Definition byte_spec : spec Z := λ file p, b ← file !! Z.to_nat p; Some (b, p + 1).
Definition bytes_spec (n : Z) : spec (list Z) :=
  λ file p, if (n =? 0) || (p + n <=? Z.of_nat (length file)) then Some (slice file p n, p + n) else None.

Lemma byte_always r : reader_ok r ->
  ∃ v r', GetByte r = (v, r') /\ keeps r r' /\ (m_bError r' = false -> byte_spec (r_file r) (GetPos r) = Some (v, GetPos r')) /\
    (calm r -> m_bError r = false -> is_Some (byte_spec (r_file r) (GetPos r)) -> m_bError r' = false).
Proof.
  intros Hr. destruct (GetByte_ok r Hr) as [M G]. destruct (GetByte r) as [b r']. cbn [fst snd] in *. exists b, r'.
  split; [done|]. split; [by eapply moved_keeps|]. unfold byte_spec. split.
  - intros E. rewrite (G E). cbn. by rewrite (proj1 (proj2 (mv_good _ _ _ M E))).
  - intros C E [x Hx]. destruct (r_file r !! Z.to_nat (GetPos r)) as [b'|] eqn:Eb; [|done]. apply lookup_lt_Some in Eb.
    apply (mv_calm _ _ _ M C E). pose proof (pos_nonneg r Hr). lia.
Qed.

Lemma byte_decodes : decodes 1 byte_spec (λ r, Some (GetByte r)).
Proof. intros r Hr _ _ _. destruct (byte_always r Hr) as (v & r' & -> & H). by exists v, r'. Qed.

Lemma byte_reads : reads byte_spec (λ r, Some (GetByte r)).
Proof.
  intros r v p Hr Hb C E H. destruct (GetByte_ok r Hr) as [M G]. unfold byte_spec in H.
  destruct (r_file r !! Z.to_nat (GetPos r)) as [b'|] eqn:Eb; [|done]. injection H as -> <-. pose proof (lookup_lt_Some _ _ _ Eb).
  pose proof (pos_nonneg r Hr). destruct (moved_calm _ _ _ M C E ltac:(lia)) as (E' & P' & _). specialize (G E'). injection G as ->.
  destruct (GetByte r) as [b r']. cbn [fst snd] in *. exists r'. split; [done|]. split; [by eapply moved_keeps|done].
Qed.

Lemma bytes_decodes pData : decodes (Z.of_nat (length pData)) (bytes_spec (Z.of_nat (length pData))) (GetBytes pData).
Proof.
  intros r Hr Hb HB _. destruct (GetBytes_small pData r Hr HB) as (bs & r' & E & L & M & G). exists bs, r'. split; [done|].
  split; [by eapply moved_keeps|]. unfold bytes_spec. split.
  - intros Er. destruct (mv_good _ _ _ M Er) as (_ & P & Hl). rewrite (G Er), P.
    destruct (Z.eqb_spec (Z.of_nat (length pData)) 0); [done|]. rewrite (proj2 (Z.leb_le _ _)) by lia. done.
  - intros C Er [x Hx]. destruct (Z.eqb_spec (Z.of_nat (length pData)) 0) as [H0|H0]; cbn [orb] in Hx.
    + assert (pData = []) as -> by (by destruct pData). unfold GetBytes in E. cbn [get_loop length Z.of_nat] in E.
      rewrite Z.gtb_ltb, (proj2 (Z.ltb_ge _ _)) in E by (cbn [length] in HB; lia). cbn [mbind option_bind] in E.
      unfold get_tail in E. pose proof (ro_buffpos _ Hr). rewrite Z.gtb_ltb, (proj2 (Z.ltb_ge _ _)) in E by lia. injection E as _ <-. done.
    + destruct (Z.leb_spec (GetPos r + Z.of_nat (length pData)) (flen r)); [|done]. by apply (mv_calm _ _ _ M).
Qed.

Lemma empty_reads r : reader_ok r -> m_bError r = false -> ∃ r', GetBytes [] r = Some ([], r') /\ keeps r r' /\ m_bError r' = false /\ GetPos r' = GetPos r.
Proof.
  intros Hr E. unfold GetBytes. cbn [get_loop length Z.of_nat]. pose proof (ro_size _ Hr). pose proof (ro_buffpos _ Hr).
  rewrite Z.gtb_ltb, (proj2 (Z.ltb_ge _ _)) by lia. cbn [mbind option_bind]. unfold get_tail. rewrite Z.gtb_ltb, (proj2 (Z.ltb_ge _ _)) by lia.
  exists (advance 0 r). split; [done|]. pose proof (advance_moved 0 r Hr ltac:(lia)) as M. split; [by eapply moved_keeps|].
  split; [done|]. unfold GetPos. cbn. lia.
Qed.

Lemma bytes_reads pData : reads (bytes_spec (Z.of_nat (length pData))) (GetBytes pData).
Proof.
  intros r v p Hr Hb C E H. unfold bytes_spec in H. destruct (Z.eqb_spec (Z.of_nat (length pData)) 0) as [H0|H0]; cbn [orb] in H.
  - assert (pData = []) as -> by (by destruct pData). injection H as <- <-. rewrite Z.add_0_r. by apply empty_reads.
  - destruct (Z.leb_spec (GetPos r + Z.of_nat (length pData)) (flen r)) as [Hl|]; [|done]. injection H as <- <-.
    destruct (GetBytes_calm pData r Hr C E Hl) as (r' & -> & M). destruct (moved_calm _ _ _ M C E Hl) as (E' & P' & _).
    exists r'. split; [done|]. split; [by eapply moved_keeps|done].
Qed.

(** ** Integers *)

(** A decoder of the bytes that follow. *)
Definition suffix_spec {V} (f : list Z -> option (V * list Z)) : spec V :=
  λ file p, '(v, s) ← f (drop (Z.to_nat p) file); Some (v, Z.of_nat (length file) - Z.of_nat (length s)).

Lemma decodes_ext {V} B (f f' : spec V) (m m' : op V) :
  (∀ file p, Forall is_byte file -> 0 <= p -> f file p = f' file p) -> (∀ r, m r = m' r) -> decodes B f m -> decodes B f' m'.
Proof.
  intros Hf Hm H r Hr Hb HB H0. destruct (H r Hr Hb HB H0) as (v & r' & E & K & G & C). exists v, r'.
  rewrite <- Hm, <- Hf by (done || by apply pos_nonneg). auto.
Qed.

Lemma reads_ext {V} (f f' : spec V) (m m' : op V) :
  (∀ file p, Forall is_byte file -> 0 <= p -> f file p = f' file p) -> (∀ r, m r = m' r) -> reads f m -> reads f' m'.
Proof.
  intros Hf Hm H r v p Hr Hb C E Hs. rewrite <- Hm. apply H; auto. rewrite Hf; auto. by apply pos_nonneg.
Qed.

(** One septet of the four-byte decoder. *)
Definition spec_step (res : Z) (k : Z -> spec Z) : spec Z :=
  spec_bind byte_spec (λ b,
    let b := cast BYTE b in
    let res := cast DWORD (Z.lor (Z.shiftl res 7) (Z.land b 0x7f)) in
    if Z.land b 0x80 =? 0 then λ _ p, Some (res, p) else k res).

Definition op_step (res : Z) (k : Z -> op Z) : op Z :=
  op_bind (λ r, Some (GetByte r)) (λ b,
    let b := cast BYTE b in
    let res := cast DWORD (Z.lor (Z.shiftl res 7) (Z.land b 0x7f)) in
    if Z.land b 0x80 =? 0 then λ r, Some (res, r) else k res).

Lemma step_decodes res k k' : (∀ res, decodes 1 (k res) (k' res)) -> decodes 1 (spec_step res k) (op_step res k').
Proof. intros H. apply decodes_bind; [apply byte_decodes|]. intros b. cbv zeta. destruct (_ =? _); [apply decodes_ret|apply H]. Qed.

Lemma step_reads res k k' : (∀ res, reads (k res) (k' res)) -> reads (spec_step res k) (op_step res k').
Proof. intros H. apply reads_bind; [apply byte_reads|]. intros b. cbv zeta. destruct (_ =? _); [apply reads_ret|apply H]. Qed.

Definition last_spec (res : Z) : spec Z := spec_bind byte_spec (λ b, λ _ p, Some (cast DWORD (Z.lor (Z.shiftl res 7) b), p)).
Definition last_op (res : Z) : op Z := op_bind (λ r, Some (GetByte r)) (λ b, λ r, Some (cast DWORD (Z.lor (Z.shiftl res 7) b), r)).

Definition zip4_spec : spec Z := spec_step 0 (λ res, spec_step res (λ res, spec_step res (λ res, spec_step res last_spec))).
Definition zip4_op : op Z := op_step 0 (λ res, op_step res (λ res, op_step res (λ res, op_step res last_op))).

Lemma step4_op T res k k' r : T = DWORD -> (∀ res r, k' res r = Some (k res r)) -> op_step res k' r = Some (step4 T res k r).
Proof.
  intros -> H. unfold op_step, step4, op_bind. cbn [mbind option_bind]. destruct (GetByte r) as [b r']. destruct (_ =? _); [done|apply H].
Qed.

Lemma zip4_op_eq r : zip4_op r = Some (UnzipInt r).
Proof.
  unfold zip4_op, UnzipInt. repeat (apply step4_op; [done|intros ? ?]). unfold last_op, op_bind. cbn [mbind option_bind]. by destruct (GetByte _).
Qed.

(** The specification in terms of the list. *)
Lemma byte_suffix file p b s : 0 <= p -> drop (Z.to_nat p) file = b :: s ->
  byte_spec file p = Some (b, p + 1) /\ drop (Z.to_nat (p + 1)) file = s /\ p + 1 <= Z.of_nat (length file).
Proof.
  intros Hp Hd. unfold byte_spec. assert (file !! Z.to_nat p = Some b) as E by (rewrite <- (Nat.add_0_r (Z.to_nat p)), <- lookup_drop, Hd; done).
  rewrite E. split; [done|]. pose proof (lookup_lt_Some _ _ _ E). split; [|lia].
  rewrite Z2Nat.inj_add, <- drop_drop, Hd by lia. done.
Qed.

Lemma byte_suffix_nil file p : 0 <= p -> drop (Z.to_nat p) file = [] -> byte_spec file p = None.
Proof.
  intros Hp Hd. unfold byte_spec. rewrite lookup_ge_None_2; [done|]. apply (f_equal length) in Hd. rewrite length_drop in Hd. cbn in Hd. lia.
Qed.

Lemma drop_pos (file s : list Z) p : 0 <= p -> p <= Z.of_nat (length file) -> drop (Z.to_nat p) file = s -> Z.of_nat (length file) - Z.of_nat (length s) = p.
Proof. intros Hp Hl <-. rewrite length_drop. lia. Qed.

Lemma step_suffix res k (f : Z -> list Z -> option (Z * list Z)) file p : Forall is_byte file -> 0 <= p ->
  (∀ res p, 0 <= p <= Z.of_nat (length file) -> k res file p = suffix_spec (f res) file p) ->
  spec_step res k file p = suffix_spec (λ s, '(b, s) ← get s;
    let res := cast DWORD (Z.lor (Z.shiftl res 7) (Z.land b 0x7f)) in
    if Z.land b 0x80 =? 0 then Some (res, s) else f res s) file p.
Proof.
  intros Hb Hp Hk. unfold spec_step, spec_bind, suffix_spec at 1. destruct (drop (Z.to_nat p) file) as [|b s] eqn:Ed.
  { by rewrite byte_suffix_nil. }
  destruct (byte_suffix file p b s Hp Ed) as (-> & Ed' & Hl). cbn [mbind option_bind get].
  assert (cast BYTE b = b) as ->.
  { apply (Forall_drop _ (Z.to_nat p)) in Hb. rewrite Ed in Hb. apply Forall_cons in Hb as [Hb _]. apply cast_id; [done|]. exact Hb. }
  destruct (_ =? _).
  - cbn [mbind option_bind]. do 2 f_equal. symmetry. by apply drop_pos; [lia|lia|].
  - rewrite Hk by lia. unfold suffix_spec. by rewrite Ed'.
Qed.

Lemma zip4_suffix file p : Forall is_byte file -> 0 <= p -> zip4_spec file p = suffix_spec (UnzipValueBE4 DWORD) file p.
Proof.
  intros Hb Hp. set (last := λ (res : Z) s, '(b, s) ← get s; Some (cast DWORD (Z.lor (Z.shiftl res 7) b), s)).
  set (st := λ (f : Z -> list Z -> option (Z * list Z)) (res : Z) (s : list Z), '(b, s) ← get s;
    let res := cast DWORD (Z.lor (Z.shiftl res 7) (Z.land b 0x7f)) in if Z.land b 0x80 =? 0 then Some (res, s) else f res s).
  transitivity (suffix_spec (st (st (st (st last))) 0) file p).
  - unfold zip4_spec. do 4 (apply step_suffix; [done|lia|]; intros ? ? ?).
    unfold last_spec, spec_bind, suffix_spec, last. destruct (drop (Z.to_nat p3) file) as [|b s] eqn:Ed; [by rewrite byte_suffix_nil by (done || lia)|].
    destruct (byte_suffix file p3 b s ltac:(lia) Ed) as (-> & Ed' & Hl). cbn [mbind option_bind get]. do 2 f_equal. symmetry. apply drop_pos; [lia|lia|done].
  - unfold suffix_spec. assert (Forall is_byte (drop (Z.to_nat p) file)) as Hd by (by apply Forall_drop).
    destruct (drop (Z.to_nat p) file) as [|b s]; [done|]. apply Forall_cons in Hd as [Hb0 _]. unfold UnzipValueBE4, st at 1. cbn [get mbind option_bind].
    assert (Z.lor (Z.shiftl 0 7) (Z.land b 0x7f) = Z.land b 0x7f) as -> by done.
    assert (cast DWORD (Z.land b 0x7f) = Z.land b 0x7f) as ->; [|done]. rewrite land_7f. apply cast_id; [done|].
    pose proof (Z.mod_pos_bound b 128). unfold in_type. cbn. lia.
Qed.

Lemma zip4_decodes : decodes 1 (suffix_spec (UnzipValueBE4 DWORD)) (λ r, Some (UnzipInt r)).
Proof.
  eapply decodes_ext; [apply zip4_suffix|apply zip4_op_eq|]. do 4 (apply step_decodes; intros ?).
  apply decodes_bind; [apply byte_decodes|]. intros b. apply decodes_ret.
Qed.

Lemma zip4_reads : reads (suffix_spec (UnzipValueBE4 DWORD)) (λ r, Some (UnzipInt r)).
Proof.
  eapply reads_ext; [apply zip4_suffix|apply zip4_op_eq|]. do 4 (apply step_reads; intros ?).
  apply reads_bind; [apply byte_reads|]. intros b. apply reads_ret.
Qed.

(** A byte with a bit set was read from the file. *)
Lemma GetByte_progress r : reader_ok r -> (GetByte r).1 = 0 \/ (GetPos (GetByte r).2 = GetPos r + 1 /\ GetPos r + 1 <= flen r).
Proof.
  intros Hr. unfold GetByte.
  assert (∀ r0, reader_ok r0 -> m_iBuffPos r0 < m_iBuffUsed r0 -> GetPos (advance 1 r0) = GetPos r0 + 1 /\ GetPos r0 + 1 <= flen r0) as G.
  { intros r0 H0 Hl. pose proof (slice_used r0 H0). destruct H0. unfold GetPos. cbn. lia. }
  destruct (Z.geb_spec (m_iBuffPos r) (m_iBuffUsed r)) as [C|C]; [|right; by apply G].
  pose proof (UpdateCache_ok r Hr) as U. destruct (Z.geb_spec (m_iBuffPos (UpdateCache r)) (m_iBuffUsed (UpdateCache r))) as [C'|C']; [by left|right].
  cbn [fst snd]. destruct U as [A1 A2 A3 A4 A5 A6]. destruct (G _ A1 ltac:(lia)) as [G1 G2]. rewrite A2 in G2.
  assert (GetPos (UpdateCache r) = GetPos r) as E; [|lia].
  destruct A6 as [(_ & P & _)|(_ & _ & N)]; [unfold GetPos at 1; rewrite A4, P; lia|]. unfold m_iBuffUsed in C'. rewrite N in C'. cbn in C'. lia.
Qed.

Lemma loop_suffix res file p b : Forall is_byte file -> 0 <= p -> file !! Z.to_nat p = Some b ->
  suffix_spec (unzip_be_loop uint64_t res) file p =
    (if Z.land b 0x80 =? 0 then Some (cast uint64_t (Z.lor (Z.shiftl res 7) b), p + 1)
     else suffix_spec (unzip_be_loop uint64_t (cast uint64_t (Z.lor (Z.shiftl res 7) (Z.land b 0x7f)))) file (p + 1)) /\ cast BYTE b = b.
Proof.
  intros Hb Hp E. pose proof (Forall_lookup_1 _ _ _ _ Hb E) as Hbb. pose proof (drop_S _ _ _ E) as Ed.
  destruct (byte_suffix file p b _ Hp Ed) as (_ & Ed' & Hl). split; [|by apply cast_id].
  unfold suffix_spec. rewrite Ed. cbn [unzip_be_loop]. destruct (_ =? _).
  - cbn [mbind option_bind]. do 2 f_equal. apply drop_pos; [lia|lia|done].
  - by rewrite Ed'.
Qed.

Lemma unzip_loop_ok fuel : ∀ res r, reader_ok r -> Forall is_byte (r_file r) -> Z.max 0 (flen r - GetPos r) < Z.of_nat fuel ->
  ∃ v r', unzip_loop fuel res r = Some (v, r') /\ keeps r r' /\
    (m_bError r' = false -> suffix_spec (unzip_be_loop uint64_t res) (r_file r) (GetPos r) = Some (v, GetPos r')) /\
    (calm r -> m_bError r = false -> is_Some (suffix_spec (unzip_be_loop uint64_t res) (r_file r) (GetPos r)) -> m_bError r' = false).
Proof.
  induction fuel as [|fuel IH]; intros res r Hr Hb Hf; [lia|]. cbn [unzip_loop].
  destruct (byte_always r Hr) as (b & r1 & E1 & K1 & G1 & C1). pose proof (GetByte_progress r Hr) as Pr. rewrite E1 in *. cbn [fst snd] in Pr.
  pose proof (pos_nonneg r Hr) as Hp. pose proof (kp_file _ _ K1) as F1.
  assert (m_bError r1 = false -> r_file r !! Z.to_nat (GetPos r) = Some b /\ GetPos r1 = GetPos r + 1) as Gb.
  { intros E. specialize (G1 E). unfold byte_spec in G1. destruct (r_file r !! _) as [x|]; [|done]. cbn in G1. injection G1 as -> ->. done. }
  assert (∀ f : list Z -> option (Z * list Z), is_Some (suffix_spec f (r_file r) (GetPos r)) -> f [] = None -> is_Some (byte_spec (r_file r) (GetPos r))) as Hs.
  { intros f [x Hx] Hn. unfold suffix_spec in Hx. destruct (drop (Z.to_nat (GetPos r)) (r_file r)) as [|b' s] eqn:Ed; [by rewrite Hn in Hx|].
    destruct (byte_suffix _ _ _ _ Hp Ed) as (-> & _). by eexists. }
  destruct (Z.eqb_spec (Z.land (cast BYTE b) 0x80) 0) as [Ez|Ez].
  - eexists _, r1. split; [done|]. split; [done|]. split.
    + intros E. destruct (Gb E) as [Eb P1]. destruct (loop_suffix res _ _ _ Hb Hp Eb) as [-> Ec]. rewrite Ec in *. by rewrite Ez, P1.
    + intros C E H. apply C1; auto. by eapply Hs.
  - destruct Pr as [->|[P1 L1]]; [done|].
    destruct (IH (cast uint64_t (Z.lor (Z.shiftl res 7) (Z.land (cast BYTE b) 0x7f))) r1) as (v & r2 & E2 & K2 & G2 & C2).
    { apply K1. } { by rewrite F1. } { rewrite F1. lia. }
    exists v, r2. split; [done|]. split; [by eapply keeps_trans|]. split.
    + intros E. destruct (Gb (kp_error _ _ K2 E)) as [Eb _]. destruct (loop_suffix res _ _ _ Hb Hp Eb) as [-> Ec]. rewrite Ec in *.
      rewrite (proj2 (Z.eqb_neq _ _) Ez). rewrite <- P1, <- F1. by apply G2.
    + intros C E H. assert (m_bError r1 = false) as Er1 by (apply C1; auto; by eapply Hs). destruct (Gb Er1) as [Eb _].
      destruct (loop_suffix res _ _ _ Hb Hp Eb) as [Eq Ec]. rewrite Eq in H. rewrite Ec in *. rewrite (proj2 (Z.eqb_neq _ _) Ez), <- P1, <- F1 in H.
      apply C2; auto. by eapply keeps_calm.
Qed.

Lemma zip8_decodes : decodes 1 (suffix_spec (UnzipValueBE8 uint64_t)) UnzipOffset.
Proof. intros r Hr Hb _ _. apply unzip_loop_ok; auto. pose proof (pos_nonneg r Hr). lia. Qed.

Lemma zip8_reads : reads (suffix_spec (UnzipValueBE8 uint64_t)) UnzipOffset.
Proof.
  intros r v p Hr Hb C E H. destruct (unzip_loop_ok (S (length (r_file r))) 0 r Hr Hb) as (v' & r' & Eu & K & G & C').
  { pose proof (pos_nonneg r Hr). lia. }
  assert (m_bError r' = false) as E' by (apply C'; auto; by eexists). specialize (G E').
  change (suffix_spec (UnzipValueBE8 uint64_t) (r_file r) (GetPos r) = Some (v', GetPos r')) in G. rewrite H in G. injection G as -> ->. by exists r'.
Qed.
End ReaderOk.

(** * Files: what is written is what is read

    The contract of [CSphReader] for its callers, who check the error flag
    after a series of reads, and the round trip through a file from
    [CSphWriter] to [CSphReader]. *)

From S2P Require Import Prelude Zip FileIO DocidLookup DocidLookupOk Reader.
Import Zip Reader ReaderOk.

Module FileRoundtrip.

(** ** The typed reads *)

Definition dword_spec : spec Z := spec_bind (bytes_spec 4) (λ bs, λ _ p, Some (DocidLookup.le_value bs, p)).
Definition offset_spec : spec Z := spec_bind (bytes_spec 8) (λ bs, λ _ p, Some (cast SphOffset_t (DocidLookup.le_value bs), p)).
Definition len_spec (n : Z) : spec (list Z) := if n =? 0 then λ _ p, Some ([], p) else bytes_spec (Z.of_nat (length (zeros n))).
Definition string_spec : spec (list Z) := spec_bind dword_spec len_spec.
Definition zstring_spec : spec (list Z) := spec_bind (suffix_spec (UnzipValueBE8 uint64_t)) len_spec.

Lemma dword_decodes : decodes 4 dword_spec GetDword.
Proof. apply (decodes_bind 4 _ _ (GetBytes (zeros 4))); [apply (bytes_decodes (zeros 4))|intros; apply decodes_ret]. Qed.
Lemma dword_reads : reads dword_spec GetDword.
Proof. apply (reads_bind _ _ (GetBytes (zeros 4))); [apply (bytes_reads (zeros 4))|intros; apply reads_ret]. Qed.
Lemma offset_decodes : decodes 8 offset_spec GetOffset.
Proof. apply (decodes_bind 8 _ _ (GetBytes (zeros 8))); [apply (bytes_decodes (zeros 8))|intros; apply decodes_ret]. Qed.
Lemma offset_reads : reads offset_spec GetOffset.
Proof. apply (reads_bind _ _ (GetBytes (zeros 8))); [apply (bytes_reads (zeros 8))|intros; apply reads_ret]. Qed.

Lemma len_reads n : reads (len_spec n) (if n =? 0 then λ r, Some ([], r) else GetBytes (zeros n)).
Proof. unfold len_spec. destruct (n =? 0); [apply reads_ret|apply bytes_reads]. Qed.
Lemma string_reads : reads string_spec GetString.
Proof.
  eapply (reads_ext _ _ (op_bind GetDword (λ n, if n =? 0 then λ r, Some ([], r) else GetBytes (zeros n)))); [done| |].
  - intros r. unfold op_bind, GetString. destruct (GetDword r) as [[n r']|]; [|done]. cbn. by destruct (n =? 0).
  - apply reads_bind; [apply dword_reads|apply len_reads].
Qed.
Lemma zstring_reads : reads zstring_spec GetZString.
Proof.
  eapply (reads_ext _ _ (op_bind UnzipOffset (λ n, if n =? 0 then λ r, Some ([], r) else GetBytes (zeros n)))); [done| |].
  - intros r. unfold op_bind, GetZString. destruct (UnzipOffset r) as [[n r']|]; [|done]. cbn. by destruct (n =? 0).
  - apply reads_bind; [apply zip8_reads|apply len_reads].
Qed.

(** A larger buffer does as well. *)
Lemma decodes_mono {V} B B' (f : spec V) m : B <= B' -> decodes B f m -> decodes B' f m.
Proof. intros H D r Hr Hb HB H0. apply D; auto. lia. Qed.

(** ** Seeking *)

Lemma reader_seek_ok p h r : reader_ok r -> 0 <= p ->
  keeps r (SeekTo p h r) /\ m_bError (SeekTo p h r) = m_bError r /\ GetPos (SeekTo p h r) = p.
Proof.
  intros Hr Hp. pose proof Hr as [H1 H2 H3 H4 H5 H6 H7]. unfold SeekTo. rewrite Z.geb_leb.
  destruct (Z.leb_spec (m_iPos r) p), (Z.ltb_spec p (m_iPos r + m_iBuffUsed r)); cbn [andb];
    (split; [split; cbn; auto; [split; cbn; auto; unfold m_iBuffUsed in *; cbn; lia|by exists 0%nat]|split; [done|unfold GetPos; cbn; lia]]).
Qed.

Definition seek_op (p h : Z) : op (list Z) := λ r, Some ([], SeekTo p h r).
Definition skip_op (n : Z) : op (list Z) := λ r, Some ([], SkipBytes n r).

Lemma seek_decodes p h : 0 <= p -> decodes 1 (λ _ _, Some ([], p)) (seek_op p h).
Proof.
  intros Hp r Hr Hb _ _. destruct (reader_seek_ok p h r Hr Hp) as (K & E & P). exists [], (SeekTo p h r). rewrite E, P. auto.
Qed.

Lemma skip_decodes n : 0 <= n -> decodes 1 (λ _ p, Some ([], p + n)) (skip_op n).
Proof.
  intros Hn r Hr Hb _ _. pose proof (pos_nonneg r Hr). unfold skip_op, SkipBytes.
  destruct (reader_seek_ok (m_iPos r + m_iBuffPos r + n) (Z.max (m_iSizeHint r - m_iBuffPos r - n) 0) r Hr) as (K & E & P); [unfold GetPos in *; lia|].
  eexists [], _. split; [done|]. rewrite E, P. unfold GetPos. auto.
Qed.

(** ** A series of reads *)

Inductive rop := RByte | RDword | ROffset | RZipInt | RZipOffset | RBytes (n : nat) | RSeek (iPos iSizeHint : Z) | RSkip (n : Z).

Definition one {V} (m : op V) (f : V -> list Z) : op (list Z) := op_bind m (λ v, λ r, Some (f v, r)).
Definition one_spec {V} (m : spec V) (f : V -> list Z) : spec (list Z) := spec_bind m (λ v, λ _ p, Some (f v, p)).

Definition run_op (o : rop) : op (list Z) :=
  match o with
  | RByte => one (λ r, Some (GetByte r)) (λ b, [b])
  | RDword => one GetDword (λ v, [v])
  | ROffset => one GetOffset (λ v, [v])
  | RZipInt => one (λ r, Some (UnzipInt r)) (λ v, [v])
  | RZipOffset => one UnzipOffset (λ v, [v])
  | RBytes n => GetBytes (zeros (Z.of_nat n))
  | RSeek p h => seek_op p h
  | RSkip n => skip_op n
  end.

(** The same reads on the file itself. *)
Definition spec_op (o : rop) : spec (list Z) :=
  match o with
  | RByte => one_spec byte_spec (λ b, [b])
  | RDword => one_spec dword_spec (λ v, [v])
  | ROffset => one_spec offset_spec (λ v, [v])
  | RZipInt => one_spec (suffix_spec (UnzipValueBE4 DWORD)) (λ v, [v])
  | RZipOffset => one_spec (suffix_spec (UnzipValueBE8 uint64_t)) (λ v, [v])
  | RBytes n => bytes_spec (Z.of_nat n)
  | RSeek p _ => λ _ _, Some ([], p)
  | RSkip n => λ _ p, Some ([], p + n)
  end.

Definition op_fits (B : Z) (o : rop) : Prop :=
  match o with RBytes n => Z.of_nat n <= B | RSeek p _ => 0 <= p | RSkip n => 0 <= n | _ => True end.

Fixpoint run (ops : list rop) : op (list (list Z)) :=
  match ops with
  | [] => λ r, Some ([], r)
  | o :: ops' => op_bind (run_op o) (λ v, op_bind (run ops') (λ vs, λ r, Some (v :: vs, r)))
  end.

Fixpoint spec_run (ops : list rop) : spec (list (list Z)) :=
  match ops with
  | [] => λ _ p, Some ([], p)
  | o :: ops' => spec_bind (spec_op o) (λ v, spec_bind (spec_run ops') (λ vs, λ _ p, Some (v :: vs, p)))
  end.

Lemma one_decodes {V} B f (m : op V) g : decodes B f m -> decodes B (one_spec f g) (one m g).
Proof. intros H. apply decodes_bind; [done|]. intros v. apply decodes_ret. Qed.

Lemma op_decodes B o : 8 <= B -> op_fits B o -> decodes B (spec_op o) (run_op o).
Proof.
  intros HB Ho. destruct o; cbn [spec_op run_op op_fits] in *; try apply one_decodes.
  - apply (decodes_mono 1); [lia|apply byte_decodes].
  - apply (decodes_mono 4); [lia|apply dword_decodes].
  - apply (decodes_mono 8); [lia|apply offset_decodes].
  - apply (decodes_mono 1); [lia|apply zip4_decodes].
  - apply (decodes_mono 1); [lia|apply zip8_decodes].
  - pose proof (zeros_length (Z.of_nat n) ltac:(lia)) as L. pose proof (bytes_decodes (zeros (Z.of_nat n))) as D. rewrite L in D.
    by apply (decodes_mono (Z.of_nat n)).
  - apply (decodes_mono 1); [lia|by apply seek_decodes].
  - apply (decodes_mono 1); [lia|by apply skip_decodes].
Qed.

Lemma run_decodes B ops : 8 <= B -> Forall (op_fits B) ops -> decodes B (spec_run ops) (run ops).
Proof.
  intros HB. induction 1 as [|o ops Ho _ IH]; cbn [spec_run run]; [apply decodes_ret|].
  apply decodes_bind; [by apply op_decodes|]. intros v. apply decodes_bind; [done|]. intros vs. apply decodes_ret.
Qed.

Lemma Reader_ok bBuf B file io : 0 <= B < 2 ^ 31 -> (bBuf = true -> 0 < B) -> reader_ok (Reader bBuf B file io).
Proof.
  intros HB Hb. split; cbn; auto; try lia.
  all: unfold m_iBuffUsed, DEFAULT_READ_UNHINTED; cbn; lia.
Qed.

(** [C14] What a reader promises its callers: after any series of reads, seeks
    and skips on a file, through a buffer of [B] bytes that no single read
    exceeds, whatever preads fail, if the error flag is clear then every read
    returned what the file holds at its position; and if no pread fails and
    the reads stay inside the file, the flag is clear. *)
Theorem reader_flag_sound ops file io B :
  8 <= B < 2 ^ 31 -> Forall is_byte file -> Forall (op_fits B) ops ->
  ∃ vs r, run ops (Reader true B file io) = Some (vs, r) /\
    (m_bError r = false -> spec_run ops file 0 = Some (vs, GetPos r)) /\
    (Forall (λ b, b = true) io -> is_Some (spec_run ops file 0) -> m_bError r = false).
Proof.
  intros HB Hf Ho. destruct (run_decodes B ops ltac:(lia) Ho (Reader true B file io)) as (vs & r & E & _ & G & C); [apply Reader_ok; [lia|intros; lia]|done|cbn; lia|cbn; lia|].
  exists vs, r. split; [done|]. split; [exact G|]. intros Hio. by apply C.
Qed.

Lemma reader_flag_sound_witness :
  ∃ vs r, run [RDword; RZipInt; RSeek 1 (-1); RByte; RBytes 3] (Reader true 8 [1; 2; 3; 4; 129; 5; 6] []) = Some (vs, r) /\
    (m_bError r = false -> spec_run [RDword; RZipInt; RSeek 1 (-1); RByte; RBytes 3] [1; 2; 3; 4; 129; 5; 6] 0 = Some (vs, GetPos r)) /\
    (Forall (λ b, b = true) [] -> is_Some (spec_run [RDword; RZipInt; RSeek 1 (-1); RByte; RBytes 3] [1; 2; 3; 4; 129; 5; 6] 0) -> m_bError r = false).
Proof.
  apply (reader_flag_sound [RDword; RZipInt; RSeek 1 (-1); RByte; RBytes 3] [1; 2; 3; 4; 129; 5; 6] [] 8); [lia| |].
  - repeat constructor; unfold is_byte; lia.
  - repeat constructor; cbn; lia.
Defined.

Example reader_run : fst <$> run [RDword; RZipInt; RSeek 1 (-1); RByte; RBytes 3] (Reader true 8 [1; 2; 3; 4; 129; 5; 6] [])
  = Some [[0x4030201]; [133]; []; [2]; [3; 4; 129]].
Proof. vm_compute. reflexivity. Qed.

(** Reads past the end that go unnoticed: a reader that has not allocated
    its buffer reads a number from an empty file without setting the error
    flag, and so does a read larger than the buffer when the file ends at a
    buffer boundary; it returns with the bytes it had read zeroed and the rest
    of the caller's memory as it was. *)
Theorem read_past_end_unflagged :
  (∃ r, GetDword (Reader false 0 [] []) = Some (0, r) /\ m_bError r = false) /\
  (∃ r, GetBytes [7; 7; 7; 7; 7; 7; 7; 7] (Reader true 4 [1; 2; 3; 4] []) = Some ([0; 0; 0; 0; 7; 7; 7; 7], r) /\ m_bError r = false).
Proof. split; eexists; (split; [vm_compute; reflexivity|reflexivity]). Qed.

(** A seek that asks to keep the rest of the current hint ([-1]) does not
    take off the bytes it passes: outside the buffer the hint stays as it is. *)
Theorem seek_keeps_hint p r :
  (p < m_iPos r \/ m_iPos r + m_iBuffUsed r <= p) -> 0 < m_iSizeHint r < 2 ^ 31 - 1 ->
  m_iSizeHint (SeekTo p (-1) r) = m_iSizeHint r.
Proof.
  intros Hp Hh. unfold SeekTo. rewrite Z.geb_leb.
  replace ((m_iPos r <=? p) && (p <? m_iPos r + m_iBuffUsed r)) with false by
    (destruct (Z.leb_spec (m_iPos r) p), (Z.ltb_spec p (m_iPos r + m_iBuffUsed r)); cbn; lia || done).
  cbn. replace (p + m_iSizeHint r - p) with (m_iSizeHint r) by lia.
  rewrite Z.gtb_ltb, (proj2 (Z.ltb_lt _ _)), (proj2 (Z.ltb_lt _ _)) by lia. done.
Qed.

Lemma seek_keeps_hint_witness : m_iSizeHint (SeekTo 1000 (-1) (SeekTo 0 600 (Reader true 8 [] []))) = 600.
Proof. apply (seek_keeps_hint 1000 (SeekTo 0 600 (Reader true 8 [] []))); [right; vm_compute; discriminate|vm_compute; split; reflexivity]. Defined.

(** ** The round trip *)

(** What is put into a file. *)
Inductive item :=
| IByte (b : Z) | IDword (v : Z) | IOffset (v : Z) | IZipInt (v : Z) | IZipOffset (v : Z)
| IBytes (bs : list Z) | IString (s : list Z) | IZString (s : list Z).

Definition write_item (i : item) : FileIO.CSphWriter -> FileIO.CSphWriter :=
  match i with
  | IByte b => FileIO.PutByte b
  | IDword v => FileIO.PutDword v
  | IOffset v => FileIO.PutOffset v
  | IZipInt v => FileIO.ZipInt v
  | IZipOffset v => FileIO.ZipOffset v
  | IBytes bs => FileIO.PutBytes bs
  | IString s => FileIO.PutString s
  | IZString s => FileIO.PutZString s
  end.

Definition read_item (i : item) : op (list Z) :=
  match i with
  | IByte _ => one (λ r, Some (GetByte r)) (λ b, [b])
  | IDword _ => one GetDword (λ v, [v])
  | IOffset _ => one GetOffset (λ v, [v])
  | IZipInt _ => one (λ r, Some (UnzipInt r)) (λ v, [v])
  | IZipOffset _ => one UnzipOffset (λ v, [v])
  | IBytes bs => GetBytes (zeros (Z.of_nat (length bs)))
  | IString _ => GetString
  | IZString _ => GetZString
  end.

Definition item_value (i : item) : list Z :=
  match i with IByte v | IDword v | IOffset v | IZipInt v | IZipOffset v => [v] | IBytes bs | IString bs | IZString bs => bs end.

Definition item_ok (i : item) : Prop :=
  match i with
  | IByte v => is_byte v
  | IDword v | IZipInt v => in_type DWORD v
  | IOffset v => in_type int64_t v
  | IZipOffset v => in_type uint64_t v
  | IBytes bs => Forall is_byte bs
  | IString bs | IZString bs => Forall is_byte bs /\ Z.of_nat (length bs) < 2 ^ 31
  end.

(** Its bytes in the file. *)
Definition enc (i : item) : list Z :=
  match i with
  | IByte v => [v]
  | IDword v => FileIO.le_bytes 4 v
  | IOffset v => FileIO.le_bytes 8 v
  | IZipInt v => zint v
  | IZipOffset v => zoff v
  | IBytes bs => bs
  | IString bs => FileIO.le_bytes 4 (Z.of_nat (length bs)) ++ bs
  | IZString bs => zoff (Z.of_nat (length bs)) ++ bs
  end.

Lemma enc_bytes i : item_ok i -> Forall is_byte (enc i).
Proof.
  destruct i; cbn [item_ok enc]; intros H.
  - by constructor.
  - apply DocidLookupOk.le_bytes_bytes.
  - apply DocidLookupOk.le_bytes_bytes.
  - apply zint_bytes.
  - apply zoff_bytes.
  - done.
  - apply Forall_app. split; [apply DocidLookupOk.le_bytes_bytes|apply H].
  - apply Forall_app. split; [apply zoff_bytes|apply H].
Qed.

(** *** Writing *)

Lemma put_wrote bs w f : FileIO.wrote w f -> FileIO.wrote (FileIO.PutBytes bs w) (f ++ bs).
Proof. intros H. apply (FileIO.wrote_put w); [intros; by apply FileIO.PutBytes_ok|exact (FileIO.PutBytes_error bs w (proj1 H))|done]. Qed.

Lemma item_wrote i w f : item_ok i -> FileIO.wrote w f -> FileIO.wrote (write_item i w) (f ++ enc i).
Proof.
  assert (∀ s, Z.of_nat (length s) < 2 ^ 31 -> cast int32_t (Z.of_nat (length (s : list Z))) = Z.of_nat (length s)) as Ci.
  { intros s Hs. apply cast_id; [done|]. unfold in_type. cbn. lia. }
  assert (∀ (s : list Z) w f, FileIO.wrote w f ->
    FileIO.wrote (if Z.of_nat (length s) =? 0 then w else FileIO.PutBytes (take (Z.to_nat (Z.of_nat (length s))) s) w) (f ++ s)) as Cs.
  { intros s w' f' H. destruct (Z.eqb_spec (Z.of_nat (length s)) 0); [destruct s; [by rewrite app_nil_r|done]|].
    rewrite Nat2Z.id, take_ge by lia. by apply put_wrote. }
  destruct i; cbn [item_ok enc write_item]; intros Hi H.
  - by apply (FileIO.PutByte_each [b]).
  - by apply put_wrote.
  - by apply put_wrote.
  - by apply FileIO.PutByte_each.
  - by apply FileIO.PutByte_each.
  - by apply put_wrote.
  - destruct Hi as [_ Hs]. unfold FileIO.PutString. rewrite Ci by done. rewrite app_assoc.
    rewrite cast_id by (done || unfold in_type; cbn; lia). apply Cs. by apply put_wrote.
  - destruct Hi as [_ Hs]. unfold FileIO.PutZString. rewrite Ci by done. rewrite app_assoc.
    rewrite cast_id by (done || unfold in_type; cbn; lia). apply Cs. by apply FileIO.PutByte_each.
Qed.

Lemma items_wrote items w f : Forall item_ok items -> FileIO.wrote w f ->
  FileIO.wrote (fold_left (λ w i, write_item i w) items w) (f ++ concat (map enc items)).
Proof.
  intros Hi. revert w f. induction Hi as [|i items Hi _ IH]; intros w f H; cbn [fold_left map concat]; [by rewrite app_nil_r|].
  rewrite app_assoc. apply IH. by apply item_wrote.
Qed.

(** *** Reading *)

Definition item_spec (i : item) : spec (list Z) :=
  match i with
  | IByte _ => one_spec byte_spec (λ b, [b])
  | IDword _ => one_spec dword_spec (λ v, [v])
  | IOffset _ => one_spec offset_spec (λ v, [v])
  | IZipInt _ => one_spec (suffix_spec (UnzipValueBE4 DWORD)) (λ v, [v])
  | IZipOffset _ => one_spec (suffix_spec (UnzipValueBE8 uint64_t)) (λ v, [v])
  | IBytes bs => bytes_spec (Z.of_nat (length bs))
  | IString _ => string_spec
  | IZString _ => zstring_spec
  end.

Lemma one_reads {V} f (m : op V) g : reads f m -> reads (one_spec f g) (one m g).
Proof. intros H. apply reads_bind; [done|]. intros v. apply reads_ret. Qed.

Lemma item_reads i : reads (item_spec i) (read_item i).
Proof.
  destruct i; cbn [item_spec read_item]; try apply one_reads.
  - apply byte_reads.
  - apply dword_reads.
  - apply offset_reads.
  - apply zip4_reads.
  - apply zip8_reads.
  - pose proof (bytes_reads (zeros (Z.of_nat (length bs)))) as R. by rewrite zeros_length in R by lia.
  - apply string_reads.
  - apply zstring_reads.
Qed.

Section At.
Context (file : list Z) (Hfile : Forall is_byte file).

Definition stands (p : Z) (s : list Z) : Prop := 0 <= p /\ p <= Z.of_nat (length file) /\ drop (Z.to_nat p) file = s.

Lemma stands_app p a b : stands p (a ++ b) -> stands (p + Z.of_nat (length a)) b /\ p + Z.of_nat (length (a ++ b)) = Z.of_nat (length file).
Proof.
  intros (Hp & Hl & E). assert (length (drop (Z.to_nat p) file) = length (a ++ b)) as L by (by rewrite E). rewrite length_drop in L.
  split; [|lia]. rewrite length_app in L. split; [lia|]. split; [lia|].
  rewrite Z2Nat.inj_add, Nat2Z.id, <- drop_drop, E, drop_app_length by lia. done.
Qed.

Lemma bytes_at p a b : stands p (a ++ b) -> bytes_spec (Z.of_nat (length a)) file p = Some (a, p + Z.of_nat (length a)).
Proof.
  intros H. destruct (stands_app _ _ _ H) as [_ L]. rewrite length_app in L. unfold bytes_spec.
  rewrite (proj2 (Z.leb_le _ _)), orb_true_r by lia. unfold slice. destruct H as (_ & _ & ->). by rewrite Nat2Z.id, take_app_length.
Qed.

Lemma suffix_at {V} f (v : V) p a b : stands p (a ++ b) -> f (a ++ b) = Some (v, b) -> suffix_spec f file p = Some (v, p + Z.of_nat (length a)).
Proof.
  intros H E. destruct (stands_app _ _ _ H) as [_ L]. rewrite length_app in L. unfold suffix_spec. destruct H as (_ & _ & ->). rewrite E. cbn. do 2 f_equal. lia.
Qed.

Lemma dword_at v p b : in_type DWORD v -> stands p (FileIO.le_bytes 4 v ++ b) -> dword_spec file p = Some (v, p + 4).
Proof.
  intros Hv H. unfold dword_spec, spec_bind. apply bytes_at in H. rewrite DocidLookupOk.le_bytes_length in H. change (Z.of_nat 4) with 4 in H. rewrite H.
  cbn [mbind option_bind]. rewrite DocidLookupOk.le_value_bytes. rewrite Z.mod_small; [done|]. exact Hv.
Qed.

Lemma offset_at v p b : in_type int64_t v -> stands p (FileIO.le_bytes 8 v ++ b) -> offset_spec file p = Some (v, p + 8).
Proof.
  intros Hv H. unfold offset_spec, spec_bind. apply bytes_at in H. rewrite DocidLookupOk.le_bytes_length in H. change (Z.of_nat 8) with 8 in H. rewrite H.
  cbn [mbind option_bind]. rewrite DocidLookupOk.le_value_bytes. do 2 f_equal. rewrite <- (cast_id int64_t v) at 2 by done.
  apply cast_eq. change (256 ^ Z.of_nat 8) with (2 ^ 64). apply Zmod_mod.
Qed.

Lemma len_at (a : list Z) p b : stands p (a ++ b) -> len_spec (Z.of_nat (length a)) file p = Some (a, p + Z.of_nat (length a)).
Proof.
  intros H. unfold len_spec. destruct (Z.eqb_spec (Z.of_nat (length a)) 0) as [E|E].
  - destruct a; [|done]. cbn. by rewrite Z.add_0_r.
  - rewrite zeros_length by lia. by apply bytes_at in H.
Qed.

Lemma item_at i p s : item_ok i -> stands p (enc i ++ s) -> item_spec i file p = Some (item_value i, p + Z.of_nat (length (enc i))).
Proof.
  intros Hi H. assert (Forall is_byte (enc i ++ s)) as Hb by (destruct H as (_ & _ & <-); by apply Forall_drop).
  apply Forall_app in Hb as [_ Hs]. destruct i; cbn [item_ok item_spec enc item_value] in *; unfold one_spec, spec_bind.
  - destruct H as (Hp & _ & H). destruct (byte_suffix file p b s Hp H) as (-> & _). done.
  - rewrite (dword_at v p s), DocidLookupOk.le_bytes_length by done. done.
  - rewrite (offset_at v p s), DocidLookupOk.le_bytes_length by done. done.
  - rewrite (suffix_at (UnzipValueBE4 DWORD) v p (zint v) s); [done|done|]. by apply unzip_be4_zip.
  - rewrite (suffix_at (UnzipValueBE8 uint64_t) v p (zoff v) s); [done|done|]. by apply unzip_be8_zip.
  - by apply bytes_at in H.
  - destruct Hi as [_ Hl]. rewrite <- app_assoc in H. unfold string_spec, spec_bind.
    rewrite (dword_at (Z.of_nat (length s0)) p (s0 ++ s)) by (done || unfold in_type; cbn; lia). cbn [mbind option_bind].
    apply stands_app in H as [H _]. rewrite DocidLookupOk.le_bytes_length in H. rewrite (len_at _ _ s) by done.
    rewrite length_app, DocidLookupOk.le_bytes_length. do 2 f_equal. lia.
  - destruct Hi as [_ Hl]. rewrite <- app_assoc in H. unfold zstring_spec, spec_bind.
    rewrite (suffix_at (UnzipValueBE8 uint64_t) (Z.of_nat (length s0)) p (zoff (Z.of_nat (length s0))) (s0 ++ s)); [|done|].
    2:{ apply unzip_be8_zip; [done|]. unfold in_type. cbn. lia. }
    cbn [mbind option_bind]. apply stands_app in H as [H _]. rewrite (len_at _ _ s) by done. rewrite length_app. do 2 f_equal. lia.
Qed.
End At.

Fixpoint read_items (items : list item) : op (list (list Z)) :=
  match items with
  | [] => λ r, Some ([], r)
  | i :: items' => op_bind (read_item i) (λ v, op_bind (read_items items') (λ vs, λ r, Some (v :: vs, r)))
  end.

Lemma items_read items : ∀ r, Forall item_ok items -> reader_ok r -> Forall is_byte (r_file r) -> calm r -> m_bError r = false ->
  stands (r_file r) (GetPos r) (concat (map enc items)) ->
  ∃ r', read_items items r = Some (map item_value items, r') /\ m_bError r' = false /\ GetPos r' = Z.of_nat (length (r_file r)).
Proof.
  induction items as [|i items IH]; intros r Hi Hr Hb C E H; cbn [read_items map concat] in *.
  - exists r. split; [done|]. split; [done|]. destruct H as (Hp & Hl & H).
    assert (length (drop (Z.to_nat (GetPos r)) (r_file r)) = 0%nat) as L by (rewrite H; done). rewrite length_drop in L. lia.
  - apply Forall_cons in Hi as [Hi Hr']. pose proof (item_at _ Hb i _ _ Hi H) as Hs.
    destruct (item_reads i r _ _ Hr Hb C E Hs) as (r1 & E1 & K1 & F1 & P1). pose proof (kp_file _ _ K1) as Ff.
    apply stands_app in H as [H _]. destruct (IH r1 Hr' (kp_ok _ _ K1)) as (r2 & E2 & F2 & P2); [by rewrite Ff|by eapply keeps_calm|done|by rewrite Ff, P1|].
    exists r2. unfold op_bind. rewrite E1. cbn [mbind option_bind]. rewrite E2. cbn [mbind option_bind]. rewrite P2, Ff. done.
Qed.

(** [C13] Files round trip: numbers, packed numbers, byte strings and strings
    written through [CSphWriter], with a buffer of any size and closed without
    an error, are read back by a [CSphReader] with the matching reads, with a
    buffer of any size or none yet; it ends at the end of the file with its
    error flag clear. *)
Theorem file_roundtrip items iBufferSize io bBuf B :
  0 < iBufferSize -> Forall item_ok items -> 0 <= B < 2 ^ 31 -> (bBuf = true -> 0 < B) ->
  let w := FileIO.CloseFile true (fold_left (λ w i, write_item i w) items (FileIO.OpenFile iBufferSize io)) in
  FileIO.m_bError w = false ->
  ∃ r, read_items items (Reader bBuf B (FileIO.w_disk w) []) = Some (map item_value items, r) /\ m_bError r = false /\
    GetPos r = Z.of_nat (length (FileIO.w_disk w)).
Proof.
  intros Hb Hi HB Hbuf w Hw. assert (FileIO.wrote (FileIO.OpenFile iBufferSize io) []) as H0.
  { split; [done|]. intros _. split; [split; simpl; lia|]. split; [done|]. by exists []. }
  pose proof (FileIO.CloseFile_truncate _ _ (items_wrote items _ [] Hi H0) Hw) as E. fold w in E. rewrite E. cbn [app].
  apply (items_read items (Reader bBuf B (concat (map enc items)) [])); [done|by apply Reader_ok| |constructor|done|].
  - cbn. clear - Hi. induction Hi; cbn; [constructor|]. apply Forall_app. split; [by apply enc_bytes|done].
  - unfold stands, GetPos. cbn [Reader m_iPos m_iBuffPos r_file]. split; [lia|]. split; [lia|done].
Qed.

Lemma file_roundtrip_witness :
  let items := [IDword 7; IZipInt 300; IString [104; 105]; IOffset (-1); IByte 9; IZipOffset 123456789012; IZString [1; 2]; IBytes [4; 5; 6]] in
  let w := FileIO.CloseFile true (fold_left (λ w i, write_item i w) items (FileIO.OpenFile 5 [])) in
  ∃ r, read_items items (Reader true 3 (FileIO.w_disk w) []) = Some (map item_value items, r) /\ m_bError r = false /\
    GetPos r = Z.of_nat (length (FileIO.w_disk w)).
Proof.
  cbv zeta. apply file_roundtrip; [lia| |lia|lia|vm_compute; reflexivity].
  repeat constructor; unfold is_byte; cbn; lia.
Defined.
End FileRoundtrip.
