(* ===== verification/MatchQueue.v ===== *)
(** * Match queues

    The sorters that keep the best matches of a search (src/src/sphinxsort.cpp):
    [CSphMatchQueue], a binary heap with the worst match at its root, and
    [CSphKbufferMatchQueue], a buffer of four times the size that is cut back
    by a partition. Both keep the matches in [m_dData] and work on [m_dIData],
    a permutation of their positions; the first [m_iUsed] of it are in use and
    the rest are the free ones. The comparator [IsLess] is [COMP::IsLess] with
    its state. *)

From stdpp Require Import sorting.
From S2P Require Import Prelude BitVec Sort.

Module MatchQueue.

Section Queue.
Context {A : Type} `{!Inhabited A} (IsLess : A -> A -> bool).

(** [CSphMatchQueueTraits], with [m_iTotal] of its base. *)
Record CSphMatchQueueTraits := Traits {
  m_iSize : Z;
  m_dData : list A;
  m_dIData : list Z;
  m_iUsed : Z;
  m_iTotal : Z
}.

(** The matches are constructed by default. *)
Definition new_traits (blank : A) (iSize : Z) : CSphMatchQueueTraits :=
  Traits iSize (replicate (Z.to_nat iSize) blank) (seqZ 0 iSize) 0 0.

Definition set_idata (l : list Z) (q : CSphMatchQueueTraits) : CSphMatchQueueTraits := Traits (m_iSize q) (m_dData q) l (m_iUsed q) (m_iTotal q).
Definition set_used (n : Z) (q : CSphMatchQueueTraits) : CSphMatchQueueTraits := Traits (m_iSize q) (m_dData q) (m_dIData q) n (m_iTotal q).
Definition set_total (n : Z) (q : CSphMatchQueueTraits) : CSphMatchQueueTraits := Traits (m_iSize q) (m_dData q) (m_dIData q) (m_iUsed q) n.
Definition set_match (i : Z) (a : A) (q : CSphMatchQueueTraits) : CSphMatchQueueTraits :=
  Traits (m_iSize q) (<[Z.to_nat i := a]> (m_dData q)) (m_dIData q) (m_iUsed q) (m_iTotal q).

Definition match_at (q : CSphMatchQueueTraits) (i : Z) : option A := Sort.at_ (m_dData q) i.

(** [InvCompareIndex_fn::IsLess]. *)
Definition icmp (dData : list A) (a b : Z) : option bool :=
  x ← Sort.at_ dData b; y ← Sort.at_ dData a; Some (IsLess x y).

(** [Add]: the next free position gets the match. *)
Definition Add (a : A) (q : CSphMatchQueueTraits) : option CSphMatchQueueTraits :=
  iLast ← Sort.at_ (m_dIData q) (m_iUsed q);
  _ ← match_at q iLast;
  Some (set_match iLast a (set_used (m_iUsed q + 1) q)).

Definition Last (q : CSphMatchQueueTraits) : option Z := Sort.at_ (m_dIData q) (m_iUsed q - 1).

(** ** The heap *)

Definition Root (q : CSphMatchQueueTraits) : option A := i ← Sort.at_ (m_dIData q) 0; match_at q i.

(** Shift up, so that worse ones float to the top. *)
Fixpoint sift_up (fuel : nat) (dData : list A) (iEntry : Z) (l : list Z) : option (list Z) :=
  match fuel with
  | O => None
  | S fuel' =>
      if iEntry =? 0 then Some l
      else
        let iParent := (iEntry - 1) / 2 in
        p ← Sort.at_ l iParent; e ← Sort.at_ l iEntry;
        b ← icmp dData p e;
        if negb b then Some l
        else l ← Sort.swap iEntry iParent l; sift_up fuel' dData iParent l
  end.

Fixpoint sift_down (fuel : nat) (dData : list A) (iUsed iEntry : Z) (l : list Z) : option (list Z) :=
  match fuel with
  | O => None
  | S fuel' =>
      let iChild := iEntry * 2 + 1 in
      if iChild >=? iUsed then Some l
      else
        bRight ← (if iChild + 1 <? iUsed
                  then c ← Sort.at_ l iChild; d ← Sort.at_ l (iChild + 1); icmp dData c d
                  else Some false);
        let iChild := if (bRight : bool) then iChild + 1 else iChild in
        e ← Sort.at_ l iEntry; c ← Sort.at_ l iChild;
        b ← icmp dData e c;
        if (b : bool) then l ← Sort.swap iChild iEntry l; sift_down fuel' dData iUsed iChild l
        else Some l
  end.

(** [PopAndProcess_T]: the match that was the root, and the queue without it.
    The process either leaves the match in its place ([None]) or swaps it with
    another one. *)
Definition PopAndProcess (swapped : option A) (q : CSphMatchQueueTraits) : option (A * CSphMatchQueueTraits) :=
  if m_iUsed q =? 0 then None
  else
    let n := m_iUsed q - 1 in
    l ← (if n =? 0 then Some (m_dIData q) else Sort.swap 0 n (m_dIData q));
    iJustRemoved ← Sort.at_ l n;
    a ← match_at q iJustRemoved;
    let q := match swapped with None => q | Some blank => set_match iJustRemoved blank q end in
    l ← sift_down (Z.to_nat (m_iUsed q)) (m_dData q) n 0 l;
    Some (a, set_used n (set_idata l q)).

Definition PushT (tEntry : A) (q : CSphMatchQueueTraits) : option CSphMatchQueueTraits :=
  let q := set_total (m_iTotal q + 1) q in
  full ← (if m_iUsed q =? m_iSize q then r ← Root q; Some (Some (IsLess tEntry r)) else Some None);
  match full with
  | Some true => Some q
  | _ =>
      q ← (match full with None => Some q | Some _ => '(_, q) ← PopAndProcess None q; Some q end);
      q ← Add tEntry q;
      l ← sift_up (Z.to_nat (m_iUsed q)) (m_dData q) (m_iUsed q - 1) (m_dIData q);
      Some (set_idata l q)
  end.

(** The loop of [Flatten]: the worst match goes to the last free place of the
    result, and what that place had ([blank]) to the queue. *)
Fixpoint flatten_loop (fuel : nat) (blank : A) (out : list A) (q : CSphMatchQueueTraits) : option (list A * CSphMatchQueueTraits) :=
  if m_iUsed q =? 0 then Some (out, q)
  else
    match fuel with
    | O => None
    | S fuel' =>
        '(a, q) ← PopAndProcess (Some blank) q;
        flatten_loop fuel' blank (a :: out) q
    end.

Definition Flatten (blank : A) (q : CSphMatchQueueTraits) : option (list A * CSphMatchQueueTraits) :=
  '(out, q) ← flatten_loop (Z.to_nat (m_iUsed q)) blank [] q;
  Some (out, set_total 0 q).

(** [MoveTo] for the [ISphMatchSorter] the matches go to. The matches that are
    moved swap places with what the free places of the other queue hold; the
    emptied queue is not used any more. *)
Fixpoint push_all (l : list Z) (dData : list A) (rhs : CSphMatchQueueTraits) : option CSphMatchQueueTraits :=
  match l with
  | [] => Some rhs
  | i :: l' => a ← Sort.at_ dData i; rhs ← PushT a rhs; push_all l' dData rhs
  end.

Definition MoveTo (q rhs : CSphMatchQueueTraits) : option CSphMatchQueueTraits :=
  if m_iUsed q =? 0 then Some rhs
  else if m_iUsed rhs =? 0 then Some q
  else
    let iTotal := m_iTotal rhs in
    rhs ← push_all (take (Z.to_nat (m_iUsed q)) (m_dIData q)) (m_dData q) rhs;
    Some (set_total (m_iTotal q + iTotal) rhs).

(** ** The K-buffer *)

Definition COEFF : Z := 4.

Record CSphKbufferMatchQueue := Kbuffer {
  k_queue : CSphMatchQueueTraits;
  m_pWorst : option Z;       (* the position of the match in m_dData *)
  m_bFinalized : bool
}.

Definition new_kbuffer (blank : A) (iSize : Z) : CSphKbufferMatchQueue :=
  let q := new_traits blank (iSize * COEFF) in
  Kbuffer (Traits (m_iSize q / COEFF) (m_dData q) (m_dIData q) 0 0) None false.

Definition in_queue (q : CSphMatchQueueTraits) (k : CSphKbufferMatchQueue) : CSphKbufferMatchQueue := Kbuffer q (m_pWorst k) (m_bFinalized k).

(** [SortMatches], from best to worst. *)
Definition SortMatches (q : CSphMatchQueueTraits) : option CSphMatchQueueTraits :=
  let n := Z.to_nat (m_iUsed q) in
  let d := m_dData q in
  if forallb (λ i, (0 <=? i) && (i <? Z.of_nat (length d))) (take n (m_dIData q)) then
    l ← Sort.sphSort (λ a b, IsLess (d !!! Z.to_nat b) (d !!! Z.to_nat a)) (take n (m_dIData q));
    Some (set_idata (l ++ drop n (m_dIData q)) q)
  else None.

(** [CSphMatchQueue::Finalize]: the processor computes the last expressions of
    every match, here a function of the match; in the result-set order the
    positions are sorted first. The copy the processor may get in row id order
    has the same matches. *)
Definition process_at (process : A -> A) (q : CSphMatchQueueTraits) (i : Z) : option CSphMatchQueueTraits :=
  a ← match_at q i; Some (set_match i (process a) q).

Fixpoint process_all (process : A -> A) (l : list Z) (q : CSphMatchQueueTraits) : option CSphMatchQueueTraits :=
  match l with [] => Some q | i :: l' => q ← process_at process q i; process_all process l' q end.

Definition Finalize (process : A -> A) (bCallProcessInResultSetOrder : bool) (q : CSphMatchQueueTraits) : option CSphMatchQueueTraits :=
  if m_iUsed q =? 0 then Some q
  else
    q ← (if bCallProcessInResultSetOrder then SortMatches q else Some q);
    process_all process (take (Z.to_nat (m_iUsed q)) (m_dIData q)) q.

(** The scans of [BinaryPartition] have no bounds. *)
Fixpoint kscan_up (fuel : nat) (dData : list A) (iPivot i : Z) (l : list Z) : option Z :=
  match fuel with
  | O => None
  | S fuel' => x ← Sort.at_ l i; b ← icmp dData x iPivot; if (b : bool) then kscan_up fuel' dData iPivot (i + 1) l else Some i
  end.

Fixpoint kscan_down (fuel : nat) (dData : list A) (iPivot j : Z) (l : list Z) : option Z :=
  match fuel with
  | O => None
  | S fuel' => x ← Sort.at_ l j; b ← icmp dData iPivot x; if (b : bool) then kscan_down fuel' dData iPivot (j - 1) l else Some j
  end.

(** [while ( i<=j )]. *)
Fixpoint kpartition (fuel : nat) (dData : list A) (iPivot i j : Z) (l : list Z) : option (Z * Z * list Z) :=
  match fuel with
  | O => None
  | S fuel' =>
      if i <=? j then
        i ← kscan_up (S (length l)) dData iPivot i l;
        j ← kscan_down (S (length l)) dData iPivot j l;
        if i <=? j then l ← Sort.swap i j l; kpartition fuel' dData iPivot (i + 1) (j - 1) l
        else kpartition fuel' dData iPivot i j l
      else Some (i, j, l)
  end.

Fixpoint binary_partition (fuel : nat) (dData : list A) (iMaxIndex iPivot a b : Z) (l : list Z) : option (list Z) :=
  match fuel with
  | O => None
  | S fuel' =>
      '(i, j, l) ← kpartition (S (S (length l))) dData iPivot a b l;
      if iMaxIndex =? j then Some l
      else
        let '(a, b) := if iMaxIndex <? j then (a, j) else (i, b) in
        iPivot ← Sort.at_ l ((a * (COEFF - 1) + b) / COEFF);
        binary_partition fuel' dData iMaxIndex iPivot a b l
  end.

Definition BinaryPartition (q : CSphMatchQueueTraits) : option CSphMatchQueueTraits :=
  iPivot ← Sort.at_ (m_dIData q) (m_iSize q / COEFF + 1);
  l ← binary_partition (S (Z.to_nat (m_iUsed q))) (m_dData q) (m_iSize q - 1) iPivot 0 (m_iUsed q - 1) (m_dIData q);
  Some (set_idata l q).

Definition CutTail (q : CSphMatchQueueTraits) : CSphMatchQueueTraits :=
  if m_iUsed q <=? m_iSize q then q else set_used (m_iSize q) q.

Definition RepartitionMatches (q : CSphMatchQueueTraits) : option CSphMatchQueueTraits :=
  q ← BinaryPartition q; Some (CutTail q).

Definition FinalizeMatches (k : CSphKbufferMatchQueue) : option CSphKbufferMatchQueue :=
  if m_bFinalized k then Some k
  else
    q ← (if m_iUsed (k_queue k) >? m_iSize (k_queue k) then RepartitionMatches (k_queue k) else Some (k_queue k));
    q ← SortMatches q;
    Some (Kbuffer q (m_pWorst k) true).

Definition KPushT (tEntry : A) (k : CSphKbufferMatchQueue) : option CSphKbufferMatchQueue :=
  let q := k_queue k in
  let q := set_total (m_iTotal q + 1) q in
  bReject ← match m_pWorst k with None => Some false | Some w => x ← match_at q w; Some (IsLess tEntry x) end;
  if (bReject : bool) then Some (in_queue q k)
  else
    q ← Add tEntry q;
    if m_iTotal q =? m_iSize q then
      q ← SortMatches q;
      w ← Last q;
      Some (Kbuffer q (Some w) true)
    else if m_iUsed q <? m_iSize q * COEFF then Some (Kbuffer q (m_pWorst k) false)
    else
      q ← RepartitionMatches q;
      q ← SortMatches q;
      w ← Last q;
      Some (Kbuffer q (Some w) true).

(** [Flatten] swaps every match with what its place of the result had. *)
Definition KFlatten (blank : A) (k : CSphKbufferMatchQueue) : option (list A * CSphKbufferMatchQueue) :=
  k ← FinalizeMatches k;
  let q := k_queue k in
  let l := take (Z.to_nat (m_iUsed q)) (m_dIData q) in
  out ← mapM (match_at q) l;
  let q := fold_left (λ q i, set_match i blank q) l q in
  Some (out, Kbuffer (set_total 0 (set_used 0 q)) None false).

Fixpoint pushes (push : A -> CSphMatchQueueTraits -> option CSphMatchQueueTraits) (l : list A) (q : CSphMatchQueueTraits) : option CSphMatchQueueTraits :=
  match l with [] => Some q | a :: l' => q ← push a q; pushes push l' q end.

Fixpoint kpushes (l : list A) (k : CSphKbufferMatchQueue) : option CSphKbufferMatchQueue :=
  match l with [] => Some k | a :: l' => k ← KPushT a k; kpushes l' k end.

(** [CSphKbufferMatchQueue::Finalize]. *)
Definition KFinalize (process : A -> A) (bFinalizeMatches : bool) (k : CSphKbufferMatchQueue) : option CSphKbufferMatchQueue :=
  if m_iUsed (k_queue k) =? 0 then Some k
  else
    k ← (if bFinalizeMatches then FinalizeMatches k else Some k);
    q ← process_all process (take (Z.to_nat (m_iUsed (k_queue k))) (m_dIData (k_queue k))) (k_queue k);
    Some (in_queue q k).

Fixpoint kpush_all (l : list Z) (dData : list A) (rhs : CSphKbufferMatchQueue) : option CSphKbufferMatchQueue :=
  match l with
  | [] => Some rhs
  | i :: l' => a ← Sort.at_ dData i; rhs ← KPushT a rhs; kpush_all l' dData rhs
  end.

Definition KMoveTo (k rhs : CSphKbufferMatchQueue) : option CSphKbufferMatchQueue :=
  if m_iUsed (k_queue k) =? 0 then Some rhs
  else if m_iUsed (k_queue rhs) =? 0 then Some k
  else
    k ← FinalizeMatches k;
    let q := k_queue k in
    let iTotal := m_iTotal (k_queue rhs) in
    rhs ← kpush_all (take (Z.to_nat (m_iUsed q)) (m_dIData q)) (m_dData q) rhs;
    Some (in_queue (set_total (m_iTotal q + iTotal) (k_queue rhs)) rhs).

(** How a queue was filled: matches pushed to it, and other queues moved into
    it when the search ran in several threads or over several chunks. *)
Inductive feed :=
  | Fresh
  | Pushed (f : feed) (l : list A)
  | Moved (f into : feed).

Fixpoint fed (f : feed) : list A :=
  match f with Fresh => [] | Pushed f l => fed f ++ l | Moved f into => fed into ++ fed f end.

Fixpoint run_feed (blank : A) (K : Z) (f : feed) : option CSphMatchQueueTraits :=
  match f with
  | Fresh => Some (new_traits blank K)
  | Pushed f l => q ← run_feed blank K f; pushes PushT l q
  | Moved f into => q ← run_feed blank K f; rhs ← run_feed blank K into; MoveTo q rhs
  end.

Fixpoint run_kfeed (blank : A) (K : Z) (f : feed) : option CSphKbufferMatchQueue :=
  match f with
  | Fresh => Some (new_kbuffer blank K)
  | Pushed f l => k ← run_kfeed blank K f; kpushes l k
  | Moved f into => k ← run_kfeed blank K f; rhs ← run_kfeed blank K into; KMoveTo k rhs
  end.
End Queue.

Arguments CSphMatchQueueTraits : clear implicits.
Arguments CSphKbufferMatchQueue : clear implicits.
Arguments feed : clear implicits.

Example heap_demo : (q ← pushes (PushT Z.ltb) [3; 9; 1; 7; 5; 8] (new_traits 0 3); Flatten Z.ltb 0 q) ≫= (λ x, Some x.1) = Some [9; 8; 7].
Proof. vm_compute. reflexivity. Qed.

Example kbuffer_demo : (k ← kpushes Z.ltb (map (λ i, (i * 37) mod 101) (seqZ 0 101)) (new_kbuffer 0 3); KFlatten Z.ltb 0 k) ≫= (λ x, Some x.1) = Some [100; 99; 98].
Proof. vm_compute. reflexivity. Qed.
End MatchQueue.
