(* ===== verification/MatchQueueOk.v ===== *)
(** * The heap of matches keeps the best ones

    [CSphMatchQueue] (see [MatchQueue]) after any pushes holds the best matches
    pushed, and [Flatten] returns them in order; the same holds of queues that
    were filled separately and merged with [MoveTo]. *)

From stdpp Require Import sorting sets.
From S2P Require Import Prelude BitVec Sort SortOk MatchQueue.
Import SortOk MatchQueue.

Module MatchQueueOk.

Ltac at_exch := rewrite !exch_at by lia; repeat (case Z.eqb_spec; intros; try lia).

Section Queue.
Context {A : Type} `{!Inhabited A} (IsLess : A -> A -> bool).
Hypothesis less_asym : ∀ x y, IsLess x y = true -> IsLess y x = false.
Hypothesis less_trans : ∀ x y z, le IsLess x y -> le IsLess y z -> le IsLess x z.

(** [x] is no better than [y]. *)
Abbreviation worse := (le IsLess).
Abbreviation len l := (Z.of_nat (length l)).

(** ** The comparator on positions *)

Definition mt (d : list A) (i : Z) : A := d !!! Z.to_nat i.
Definition cmp (d : list A) (a b : Z) : bool := IsLess (mt d b) (mt d a).
Abbreviation cap d := (Z.of_nat (length d)).
Definition rng (d : list A) (l : list Z) : Prop := Forall (λ i, 0 <= i < cap d) l.

Lemma cmp_asym d x y : cmp d x y = true -> cmp d y x = false.
Proof. apply less_asym. Qed.

Lemma cmp_trans d x y z : le (cmp d) x y -> le (cmp d) y z -> le (cmp d) x z.
Proof. unfold le, cmp. intros H1 H2. by apply (less_trans _ (mt d y)). Qed.

Lemma mt_at d i : 0 <= i < cap d -> Sort.at_ d i = Some (mt d i).
Proof. apply at_ok. Qed.

Lemma icmp_ok d a b : 0 <= a < cap d -> 0 <= b < cap d -> icmp IsLess d a b = Some (cmp d a b).
Proof. intros Ha Hb. unfold icmp. rewrite !mt_at by done. done. Qed.

Lemma rng_at d l p : rng d l -> 0 <= p < len l -> 0 <= g l p < cap d.
Proof.
  intros H Hp. apply (Forall_lookup_1 _ _ (Z.to_nat p) (g l p) H). apply list_lookup_lookup_total_lt. lia.
Qed.

Lemma rng_exch d i j l : rng d l -> 0 <= i < len l -> 0 <= j < len l -> rng d (exch i j l).
Proof. intros H Hi Hj. unfold rng. by rewrite exch_perm. Qed.

(** ** Sifting *)

Lemma sift_down_ok d fuel e : ∀ i l, e - i + 1 <= Z.of_nat fuel -> (0 < fuel)%nat -> 0 <= i -> e < len l -> rng d l ->
  heap_but (cmp d) 0 0 e i l -> grand (cmp d) 0 0 e i l ->
  ∃ l', sift_down IsLess fuel d (e + 1) i l = Some l' /\ perm_in 0 e l l' /\ heap_but (cmp d) 0 0 e (-1) l'.
Proof.
  induction fuel as [|fuel IH]; intros i l Hf H0 Hi He Hr Hh Hg; [lia|]. cbn [sift_down].
  replace (i * 2 + 1) with (2 * i + 1) by lia. rewrite Z.geb_leb. destruct (Z.leb_spec (e + 1) (2 * i + 1)) as [C|C].
  { exists l. split; [done|]. split; [apply perm_in_refl|]. intros k c Hk _ Hc Hce. apply Hh; auto. unfold child in *. lia. }
  assert (∃ b c, (if 2 * i + 1 + 1 <? e + 1 then c ← Sort.at_ l (2 * i + 1); d0 ← Sort.at_ l (2 * i + 1 + 1); icmp IsLess d c d0 else Some false) = Some b /\
    c = (if (b : bool) then 2 * i + 1 + 1 else 2 * i + 1) /\ child i c /\ c <= e /\
    ∀ c', child i c' -> c' <= e -> le (cmp d) (g l c') (g l c)) as (b & c & -> & Ec & Hc & Hce & Hmax).
  { destruct (Z.ltb_spec (2 * i + 1 + 1) (e + 1)) as [C1|C1].
    - rewrite !at_ok by lia. cbn [mbind option_bind]. rewrite icmp_ok by (apply rng_at; [done|lia]).
      destruct (cmp d _ _) eqn:E; eexists _, _; (split; [done|]); (split; [done|]); unfold child in *;
        (split; [lia|]); (split; [lia|]); intros c' [->| ->] Hc'; replace (2 * i + 1 + 1) with (2 * i + 2) in * by lia;
        first [apply (le_refl _ (cmp_asym d))|by apply (less_le _ (cmp_asym d))|exact E].
    - exists false, (2 * i + 1). split; [done|]. split; [done|]. unfold child. split; [lia|]. split; [lia|].
      intros c' [->| ->] Hc'; [apply (le_refl _ (cmp_asym d))|lia]. }
  cbn [mbind option_bind]. rewrite <- Ec. clear Ec. unfold child in Hc. rewrite !at_ok by lia. cbn [mbind option_bind].
  rewrite icmp_ok by (apply rng_at; [done|lia]). cbn [mbind option_bind]. destruct (cmp d (g l i) (g l c)) eqn:E.
  - rewrite swap_ok by lia. cbn [mbind option_bind].
    destruct (IH c (exch c i l)) as (l' & -> & P & Q); rewrite ?exch_length; try lia.
    + apply rng_exch; [done|lia|lia].
    + intros k c' Hk N Hc' Hce'. rewrite !Z.add_0_l. unfold child in Hc'. at_exch;
        first [by apply (less_le _ (cmp_asym d))|apply Hmax; unfold child; lia|apply (Hg k c); unfold child; lia|apply (Hh k c'); unfold child; lia].
    + intros k c' Hk Hc1 Hc2 Hce'. rewrite !Z.add_0_l. unfold child in *. replace k with i in * by lia. at_exch. apply (Hh c c'); unfold child; lia.
    + exists l'. split; [done|]. split; [|done]. eapply perm_in_trans; [|done]. apply exch_perm_in; lia.
  - exists l. split; [done|]. split; [apply perm_in_refl|]. intros k c' Hk _ Hc' Hce'.
    destruct (decide (k = i)) as [->|]; [|by apply Hh]. apply (cmp_trans d _ (g l c)); [by apply Hmax|exact E].
Qed.

(** A heap but for [i] and its parent. *)
Definition up_but (d : list A) (e i : Z) (l : list Z) : Prop :=
  ∀ k c, 0 <= k -> child k c -> c <= e -> c <> i -> le (cmp d) (g l c) (g l k).

Lemma sift_up_ok d fuel e : ∀ i l, i < Z.of_nat fuel -> 0 <= i <= e -> e < len l -> rng d l ->
  up_but d e i l -> grand (cmp d) 0 0 e i l ->
  ∃ l', sift_up IsLess fuel d i l = Some l' /\ perm_in 0 e l l' /\ heap_but (cmp d) 0 0 e (-1) l'.
Proof.
  induction fuel as [|fuel IH]; intros i l Hf Hi He Hr Hh Hg; [lia|]. cbn [sift_up].
  destruct (Z.eqb_spec i 0) as [->|Hi0].
  { exists l. split; [done|]. split; [apply perm_in_refl|]. intros k c Hk _ Hc Hce. rewrite !Z.add_0_l. apply Hh; auto. unfold child in Hc. lia. }
  pose proof (Z.div_mod (i - 1) 2 ltac:(lia)) as Dm. pose proof (Z.mod_pos_bound (i - 1) 2 ltac:(lia)) as Mb.
  set (p := (i - 1) / 2) in *. assert (child p i) as Hpi by (unfold child; lia).
  rewrite !at_ok by lia. cbn [mbind option_bind]. rewrite icmp_ok by (apply rng_at; [done|lia]). cbn [mbind option_bind].
  destruct (cmp d (g l p) (g l i)) eqn:E; cbn [negb].
  - rewrite swap_ok by lia. cbn [mbind option_bind].
    destruct (IH p (exch i p l)) as (l' & -> & P & Q); rewrite ?exch_length; try lia.
    + apply rng_exch; [done|lia|lia].
    + intros k c Hk Hc Hce N. unfold child in *. at_exch.
      * replace k with p in * by lia. by apply (less_le _ (cmp_asym d)).
      * apply (Hg p c); unfold child; lia.
      * replace k with p in * by lia. apply (cmp_trans d _ (g l p)); [apply (Hh p c); unfold child; lia|by apply (less_le _ (cmp_asym d))].
      * apply (Hh k c); unfold child; lia.
    + intros k c Hk Hc1 Hc2 Hce. rewrite !Z.add_0_l. unfold child in *. at_exch.
      * apply (Hh k p); unfold child; lia.
      * apply (cmp_trans d _ (g l p)); [apply (Hh p c); unfold child; lia|apply (Hh k p); unfold child; lia].
    + exists l'. split; [done|]. split; [|done]. eapply perm_in_trans; [|done]. apply exch_perm_in; lia.
  - exists l. split; [done|]. split; [apply perm_in_refl|]. intros k c Hk _ Hc Hce. rewrite !Z.add_0_l.
    destruct (decide (c = i)) as [->|]; [|by apply Hh]. unfold child in *. replace k with p in * by lia. exact E.
Qed.

(** ** The shape of a queue *)

Abbreviation queue := (CSphMatchQueueTraits A).

(** The positions in use, and their matches. *)
Definition live (q : queue) : list Z := take (Z.to_nat (m_iUsed q)) (m_dIData q).
Definition els (q : queue) : list A := map (mt (m_dData q)) (live q).
Definition el (q : queue) (k : Z) : A := mt (m_dData q) (g (m_dIData q) k).

Record wf (c : Z) (q : queue) : Prop := {
  wf_idata : m_dIData q ≡ₚ seqZ 0 c;
  wf_data : cap (m_dData q) = c;
  wf_used : 0 <= m_iUsed q <= c }.

Definition heap (q : queue) : Prop := ∀ k c, 0 <= k -> child k c -> c < m_iUsed q -> worse (el q k) (el q c).

Section Shape.
Context {c : Z} {q : queue} (W : wf c q).

Lemma wf_len : len (m_dIData q) = c.
Proof. pose proof (wf_used _ _ W). rewrite (wf_idata _ _ W), length_seqZ. lia. Qed.

Lemma wf_rng : rng (m_dData q) (m_dIData q).
Proof.
  unfold rng. rewrite (wf_idata _ _ W), (wf_data _ _ W). apply Forall_forall. intros x Hx. apply elem_of_seqZ in Hx. lia.
Qed.

Lemma wf_inj k k' : 0 <= k < c -> 0 <= k' < c -> g (m_dIData q) k = g (m_dIData q) k' -> k = k'.
Proof.
  intros Hk Hk' E. pose proof wf_len. assert (NoDup (m_dIData q)) as N by (rewrite (wf_idata _ _ W); apply NoDup_seqZ).
  unfold g in E. enough (Z.to_nat k = Z.to_nat k') by lia.
  apply (NoDup_lookup (m_dIData q) _ _ (m_dIData q !!! Z.to_nat k) N); [|rewrite E]; apply list_lookup_lookup_total_lt; lia.
Qed.

Lemma wf_pos k : 0 <= k < c -> 0 <= g (m_dIData q) k < cap (m_dData q).
Proof. intros. apply rng_at; [apply wf_rng|rewrite wf_len; lia]. Qed.

Lemma els_len : len (els q) = m_iUsed q.
Proof. pose proof (wf_used _ _ W). pose proof wf_len. unfold els, live. rewrite length_map, length_take. lia. Qed.

Lemma els_at e : e ∈ els q <-> ∃ k, 0 <= k < m_iUsed q /\ e = el q k.
Proof.
  pose proof (wf_used _ _ W) as U. pose proof wf_len as L. unfold els, live, el. rewrite list_elem_of_fmap. split.
  - intros (p & -> & Hp). apply list_elem_of_lookup in Hp as [k Hk]. apply lookup_take_Some in Hk as [Hk ?].
    exists (Z.of_nat k). split; [lia|]. unfold g. by rewrite Nat2Z.id, (list_lookup_total_correct _ _ _ Hk).
  - intros (k & Hk & ->). eexists. split; [reflexivity|]. apply list_elem_of_lookup. exists (Z.to_nat k).
    rewrite lookup_take_lt by lia. apply list_lookup_lookup_total_lt. lia.
Qed.
End Shape.

(** Rearranging the positions in use. *)
Lemma perm_in_take n (l l' : list Z) : perm_in 0 (Z.of_nat n - 1) l l' -> take n l' ≡ₚ take n l.
Proof.
  intros [L P O _]. assert (drop n l' = drop n l) as E.
  { apply list_eq_same_length with (n := length (drop n l)); [done|rewrite !length_drop; lia|].
    intros i x y Hi Hx Hy. rewrite lookup_drop in Hx, Hy. specialize (O (Z.of_nat (n + i)) ltac:(lia) ltac:(lia)). unfold g in O.
    rewrite Nat2Z.id in O. rewrite (list_lookup_total_correct _ _ _ Hx), (list_lookup_total_correct _ _ _ Hy) in O. done. }
  apply (Permutation_app_inv_r (drop n l)). rewrite take_drop, <- E, take_drop. done.
Qed.

Lemma set_idata_wf c q l : wf c q -> perm_in 0 (m_iUsed q - 1) (m_dIData q) l ->
  wf c (set_idata l q) /\ els (set_idata l q) ≡ₚ els q.
Proof.
  intros W P. split; [split; cbn; [rewrite (pi_perm _ _ _ _ P)|..]; apply W|].
  unfold els, live. cbn. apply Permutation_map, perm_in_take. by rewrite Z2Nat.id by apply (wf_used _ _ W).
Qed.

(** A match that is written to a position. *)
Lemma mt_set d i a p : 0 <= i < cap d -> 0 <= p -> mt (<[Z.to_nat i := a]> d) p = if p =? i then a else mt d p.
Proof.
  intros Hi Hp. unfold mt. destruct (Z.eqb_spec p i) as [->|N].
  - apply list_lookup_total_insert_eq. lia.
  - apply list_lookup_total_insert_ne. lia.
Qed.

Lemma el_set c q k k' a : wf c q -> 0 <= k < c -> 0 <= k' < c ->
  el (set_match (g (m_dIData q) k) a q) k' = if k' =? k then a else el q k'.
Proof.
  intros W Hk Hk'. unfold el. cbn. rewrite mt_set by (apply (wf_pos W); lia).
  destruct (Z.eqb_spec k' k) as [->|N]; [by rewrite Z.eqb_refl|].
  rewrite (proj2 (Z.eqb_neq _ _)); [done|]. intros E. by apply N, (wf_inj W).
Qed.

Lemma set_match_wf c q i a : wf c q -> wf c (set_match i a q).
Proof. intros W. split; cbn; rewrite ?length_insert; apply W. Qed.

Lemma els_snoc c q : wf c q -> m_iUsed q < c -> els (set_used (m_iUsed q + 1) q) = els q ++ [el q (m_iUsed q)].
Proof.
  intros W H. pose proof (wf_used _ _ W). pose proof (wf_len W). unfold els, live, el. cbn.
  replace (Z.to_nat (m_iUsed q + 1)) with (S (Z.to_nat (m_iUsed q))) by lia.
  rewrite (take_S_r _ _ (g (m_dIData q) (m_iUsed q))) by (apply list_lookup_lookup_total_lt; lia). by rewrite map_app.
Qed.

(** Positions that are not in use do not matter. *)
Lemma els_ext c q q' : wf c q -> wf c q' -> m_iUsed q' = m_iUsed q -> (∀ k, 0 <= k < m_iUsed q -> el q' k = el q k) -> els q' = els q.
Proof.
  intros W W' U E. assert (∀ r, wf c r -> els r = map (el r) (seqZ 0 (m_iUsed r))) as G.
  { intros r R. pose proof (els_len R) as L. pose proof (wf_used _ _ R) as Ur. pose proof (wf_len R) as Lr.
    apply list_eq_same_length with (n := length (els r)); [rewrite length_map, length_seqZ; lia|done|].
    intros i x y Hi Hx Hy. unfold els in Hx. rewrite list_lookup_fmap in Hx, Hy. apply fmap_Some in Hx as (p & Hp & ->), Hy as (k & Hk & ->).
    apply lookup_seqZ in Hk as [-> ?]. apply lookup_take_Some in Hp as [Hp ?]. unfold el, g. rewrite Z.add_0_l, Nat2Z.id.
    by rewrite (list_lookup_total_correct _ _ _ Hp). }
  rewrite !G by done. rewrite U. apply map_ext_in. intros k Hk. apply E. apply list_elem_of_In, elem_of_seqZ in Hk. lia.
Qed.

(** ** The operations *)

(** What no operation on positions changes. *)
Definition same_meta (q q' : queue) : Prop := m_iSize q' = m_iSize q /\ m_iTotal q' = m_iTotal q.

Lemma Add_ok c q a : wf c q -> m_iUsed q < c ->
  ∃ q', Add a q = Some q' /\ wf c q' /\ same_meta q q' /\ m_iUsed q' = m_iUsed q + 1 /\ m_dIData q' = m_dIData q /\
    els q' = els q ++ [a] /\ (∀ k, 0 <= k < m_iUsed q -> el q' k = el q k) /\ el q' (m_iUsed q) = a.
Proof.
  intros W H. pose proof (wf_used _ _ W) as U. pose proof (wf_len W) as L.
  assert (∀ k, 0 <= k < c -> el (set_match (g (m_dIData q) (m_iUsed q)) a q) k = if k =? m_iUsed q then a else el q k) as E.
  { intros k Hk. apply (el_set c); auto; lia. }
  assert (wf c (set_match (g (m_dIData q) (m_iUsed q)) a q)) as W1 by by apply set_match_wf.
  eexists. unfold Add, match_at. rewrite (at_ok (m_dIData q)) by lia. cbn [mbind option_bind].
  rewrite mt_at by (apply (wf_pos W); lia). split; [reflexivity|]. split; [|split; [done|]]; [|split; [done|split; [done|]]].
  - split; cbn; rewrite ?length_insert; [apply W..|lia].
  - split; [|split].
    + change (els (set_used (m_iUsed q + 1) (set_match (g (m_dIData q) (m_iUsed q)) a q)) = els q ++ [a]).
      etransitivity; [by apply (els_snoc c _ W1)|]. f_equal.
      * apply (els_ext c); auto. intros k Hk. rewrite E, (proj2 (Z.eqb_neq _ _)) by lia. done.
      * f_equal. etransitivity; [apply E; cbn; lia|]. by rewrite Z.eqb_refl.
    + intros k Hk. etransitivity; [apply E; lia|]. by rewrite (proj2 (Z.eqb_neq _ _)) by lia.
    + etransitivity; [apply E; lia|]. by rewrite Z.eqb_refl.
Qed.

(** The root is the worst. *)
Lemma heap_min c q : wf c q -> heap q -> ∀ e, e ∈ els q -> worse (el q 0) e.
Proof.
  intros W Hh e He. apply (els_at W) in He as (k & Hk & ->).
  apply (heap_root (cmp (m_dData q)) (cmp_asym _) (cmp_trans _) 0 (m_iUsed q - 1) (m_dIData q)); [|lia].
  intros k' c' Hk' _ Hc Hce. rewrite !Z.add_0_l. apply Hh; auto. lia.
Qed.

Lemma push_up c q a : wf c q -> m_iUsed q < c -> heap q ->
  ∃ q' l, Add a q = Some q' /\ sift_up IsLess (Z.to_nat (m_iUsed q')) (m_dData q') (m_iUsed q' - 1) (m_dIData q') = Some l /\
    wf c (set_idata l q') /\ heap (set_idata l q') /\ els (set_idata l q') ≡ₚ els q ++ [a] /\ m_iUsed q' = m_iUsed q + 1 /\ same_meta q q'.
Proof.
  intros W H Hh. destruct (Add_ok c q a W H) as (q' & EA & W' & M & U' & I' & E' & K' & _). pose proof (wf_used _ _ W) as U.
  destruct (sift_up_ok (m_dData q') (Z.to_nat (m_iUsed q')) (m_iUsed q' - 1) (m_iUsed q' - 1) (m_dIData q')) as (l & Es & P & Q); try lia.
  { rewrite (wf_len W'). lia. }
  { apply (wf_rng W'). }
  { intros k c' Hk Hc Hce N. change (worse (el q' k) (el q' c')). unfold child in Hc. rewrite !K' by lia. apply Hh; [lia|done|lia]. }
  { intros k c' Hk Hc1 Hc2 Hce. unfold child in Hc2. lia. }
  exists q', l. split; [done|]. split; [done|]. destruct (set_idata_wf c q' l W' P) as [W2 E2].
  split; [done|]. split; [|split; [by rewrite E2, E'|done]].
  intros k c' Hk Hc Hce. apply (Q k c'); auto; [lia|]. cbn in Hce. lia.
Qed.

(** The root changes places with the last match. *)
Lemma root_to_end c q : wf c q -> 0 < m_iUsed q -> let n := m_iUsed q - 1 in let l := exch 0 n (m_dIData q) in
  (if n =? 0 then Some (m_dIData q) else Sort.swap 0 n (m_dIData q)) = Some l /\ wf c (set_idata l q) /\ els (set_idata l q) ≡ₚ els q /\
  (∀ k, 0 <= k < c -> el (set_idata l q) k = el q (if k =? 0 then n else if k =? n then 0 else k)).
Proof.
  intros W H n l. pose proof (wf_used _ _ W) as U. pose proof (wf_len W) as L. split.
  { destruct (Z.eqb_spec n 0) as [E|N]; [|apply swap_ok; lia]. f_equal. unfold l, exch. rewrite E.
    rewrite list_insert_insert_eq, list_insert_id; [done|]. apply list_lookup_lookup_total_lt. lia. }
  destruct (set_idata_wf c q l W) as [W1 E1]; [apply exch_perm_in; lia|]. split; [done|]. split; [done|].
  intros k Hk. unfold el. cbn. unfold l. rewrite exch_at by lia. by destruct (k =? 0), (k =? n).
Qed.

Lemma pop_down c q sw : wf c q -> 0 < m_iUsed q -> heap q ->
  ∃ q', PopAndProcess IsLess sw q = Some (el q 0, q') /\ wf c q' /\ heap q' /\ m_iUsed q' = m_iUsed q - 1 /\ same_meta q q' /\
    els q ≡ₚ el q 0 :: els q'.
Proof.
  intros W H Hh. pose proof (wf_used _ _ W) as U. pose proof (wf_len W) as L. unfold PopAndProcess.
  rewrite (proj2 (Z.eqb_neq _ _)) by lia. set (n := m_iUsed q - 1).
  destruct (root_to_end c q W H) as (E0 & W1 & E1 & G1). fold n in E0, W1, E1, G1. rewrite E0. clear E0.
  cbn [mbind option_bind]. set (l1 := exch 0 n (m_dIData q)) in *. set (q1 := set_idata l1 q) in *.
  pose proof (wf_len W1) as L1. cbn [q1 set_idata m_dIData] in L1. rewrite (at_ok l1) by lia. cbn [mbind option_bind]. unfold match_at.
  rewrite mt_at by (apply (wf_pos W1); lia). cbn [mbind option_bind].
  assert (mt (m_dData q) (g l1 n) = el q 0) as ->.
  { change (el q1 n = el q 0). rewrite G1 by lia. rewrite Z.eqb_refl. destruct (Z.eqb_spec n 0) as [->|]; done. }
  set (q2 := match sw with None => q1 | Some b => set_match (g l1 n) b q1 end).
  set (q0 := match sw with None => q | Some b => set_match (g l1 n) b q end).
  assert (wf c q2 /\ (∀ k, 0 <= k < n -> el q2 k = el q1 k) /\ m_dData q2 = m_dData q0 /\ m_dIData q2 = l1 /\ m_iUsed q0 = m_iUsed q /\ same_meta q q0) as (W2 & G2 & D2 & I2 & U0 & M0).
  { subst q2 q0. destruct sw as [b|]; [|split; [done|split; [done|by repeat split]]]. split; [by apply set_match_wf|]. split; [|by repeat split].
    intros k Hk. change l1 with (m_dIData q1). rewrite (el_set c) by (done || lia). by rewrite (proj2 (Z.eqb_neq _ _)) by lia. }
  assert (∀ k, 0 <= k < n -> el q2 k = mt (m_dData q0) (g l1 k)) as G3 by (intros; unfold el; by rewrite D2, I2).
  destruct (sift_down_ok (m_dData q0) (Z.to_nat (m_iUsed q)) (n - 1) 0 l1) as (l2 & Es & P2 & H2); try lia.
  { rewrite <- D2, <- I2. apply (wf_rng W2). }
  { intros k c' Hk N Hc Hce. rewrite !Z.add_0_l. unfold child in Hc. unfold le, cmp. rewrite <- !G3, !G2, !G1 by lia.
    rewrite !(proj2 (Z.eqb_neq _ 0)), !(proj2 (Z.eqb_neq _ n)) by lia. apply Hh; unfold child; lia. }
  { intros k c' Hk Hc. unfold child in Hc. lia. }
  rewrite U0. replace (n - 1 + 1) with n in Es by lia. rewrite Es. cbn [mbind option_bind]. eexists. split; [reflexivity|].
  assert (wf c (set_used n q2)) as W3 by (split; cbn; [apply W2..|lia]).
  assert (perm_in 0 (m_iUsed (set_used n q2) - 1) (m_dIData (set_used n q2)) l2) as P3 by (cbn; by rewrite I2).
  destruct (set_idata_wf c _ l2 W3 P3) as [W4 E4].
  assert (set_used n (set_idata l2 q0) = set_idata l2 (set_used n q2) ) as Eq.
  { subst q2 q0. by destruct sw. }
  rewrite Eq. split; [done|]. split; [|split; [done|]].
  { intros k c' Hk Hc Hce. cbn in Hce. unfold el. cbn. rewrite D2. apply (H2 k c'); auto; lia. }
  split; [by subst q2; destruct sw|]. rewrite E4, <- E1. assert (wf c (set_used n q1)) as W5 by (split; cbn; [apply W1..|lia]).
  pose proof (els_snoc c (set_used n q1) W5) as Sn. cbn in Sn. replace (n + 1) with (m_iUsed q) in Sn by lia.
  change (set_used (m_iUsed q) (set_used n q1)) with q1 in Sn. rewrite Sn by lia.
  rewrite Permutation_app_comm. cbn. f_equiv.
  - change (el q1 n = el q 0). rewrite G1 by lia. rewrite Z.eqb_refl. destruct (Z.eqb_spec n 0) as [->|]; done.
  - rewrite (els_ext c (set_used n q1) (set_used n q2)); auto.
Qed.

(** ** What a queue holds *)

(** The matches of the queue are the best of [xs]; the others were not kept. *)
Definition holds_rej (q : queue) (xs rej : list A) : Prop :=
  els q ++ rej ≡ₚ xs /\ (∀ r e, r ∈ rej -> e ∈ els q -> worse r e) /\ (rej <> [] -> m_iUsed q = m_iSize q) /\ m_iTotal q = len xs.

Definition good (K : Z) (q : queue) : Prop := wf K q /\ heap q /\ m_iSize q = K.
Definition holds (K : Z) (q : queue) (xs : list A) : Prop := good K q /\ ∃ rej, holds_rej q xs rej.

Lemma new_holds K blank : 0 < K -> holds K (new_traits blank K) [].
Proof.
  intros HK. split; [split; [|split]|].
  - split; cbn; [done|rewrite length_replicate; lia|lia].
  - intros k c Hk Hc Hu. unfold child in Hc. cbn in Hu. lia.
  - done.
  - exists []. split; [done|]. split; [set_solver|]. by split.
Qed.

Lemma PushT_full K q xs rej a : 0 < K -> good K q -> holds_rej q xs rej -> m_iUsed q = K ->
  ∃ q', PushT IsLess a q = Some q' /\ good K q' /\ ∃ rej', holds_rej q' (xs ++ [a]) rej'.
Proof.
  intros HK (W & Hh & Sz) (P & R & Rn & T) U. pose proof (heap_min K q W Hh) as Hm. pose proof (wf_pos W 0 ltac:(lia)) as Hp. unfold PushT.
  cbn [set_total m_iUsed m_iSize]. rewrite U, Sz, Z.eqb_refl. unfold Root, match_at. cbn [set_total m_dIData m_dData].
  rewrite (at_ok (m_dIData q)) by (rewrite (wf_len W); lia). cbn [mbind option_bind]. rewrite mt_at by done. cbn [mbind option_bind].
  change (mt (m_dData q) (g (m_dIData q) 0)) with (el q 0). destruct (IsLess a (el q 0)) eqn:E.
  - eexists. split; [reflexivity|]. split; [by repeat split; try apply W|]. exists (a :: rej). split; [|split; [|split]].
    + change (els q ++ a :: rej ≡ₚ xs ++ [a]). rewrite <- P. by rewrite <- app_assoc, (Permutation_app_comm rej).
    + intros r e Hr He. apply elem_of_cons in Hr as [->|Hr]; [|by apply R]. apply (less_trans _ (el q 0)); [by apply less_asym|by apply Hm].
    + intros _. cbn. lia.
    + cbn. rewrite length_app. cbn. lia.
  - set (q0 := set_total (m_iTotal q + 1) q).
    destruct (pop_down K q0 None) as (q1 & -> & W1 & H1 & U1 & [S1 T1] & E1); [by split; apply W|cbn; lia|done|].
    cbn [mbind option_bind]. destruct (push_up K q1 a W1) as (q2 & l & -> & Es & W2 & H2 & E2 & U2 & [S2 T2]); [cbn in U1; lia|done|].
    cbn [mbind option_bind]. rewrite Es. eexists. split; [reflexivity|]. cbn in U1, S1, T1.
    split; [split; [done|split; [done|cbn; lia]]|]. exists (el q 0 :: rej). change (els q0) with (els q) in E1. change (el q0 0) with (el q 0) in E1.
    assert (∀ e, e ∈ els q1 -> e ∈ els q) as In1 by (intros e He; rewrite E1; by right).
    split; [|split; [|split]].
    + rewrite E2, <- P, E1. solve_Permutation.
    + intros r e Hr He. rewrite E2 in He. apply elem_of_app in He as [He|He].
      * apply elem_of_cons in Hr as [->|Hr]; auto.
      * apply list_elem_of_singleton in He as ->. apply elem_of_cons in Hr as [->|Hr]; [exact E|].
        apply (less_trans _ (el q 0)); [|exact E]. apply R; [done|]. rewrite E1. by left.
    + intros _. cbn. lia.
    + cbn. rewrite length_app. cbn. lia.
Qed.

Lemma PushT_ok K q xs a : 0 < K -> holds K q xs -> ∃ q', PushT IsLess a q = Some q' /\ holds K q' (xs ++ [a]).
Proof.
  intros HK [G [rej H]]. destruct (decide (m_iUsed q = K)) as [U|U].
  { destruct (PushT_full K q xs rej a HK G H U) as (q' & ? & ?). by exists q'. }
  destruct G as (W & Hh & Sz). destruct H as (P & R & Rn & T). pose proof (wf_used _ _ W).
  assert (rej = []) as -> by (destruct rej; [done|]; specialize (Rn ltac:(done)); lia). unfold PushT. cbn [set_total m_iUsed m_iSize].
  rewrite Sz, (proj2 (Z.eqb_neq _ _)) by done. cbn [mbind option_bind].
  destruct (push_up K (set_total (m_iTotal q + 1) q) a) as (q2 & l & -> & Es & W2 & H2 & E2 & U2 & [S2 T2]); [by split; apply W|cbn; lia|done|].
  cbn [mbind option_bind]. rewrite Es. eexists. split; [reflexivity|]. cbn in S2, T2.
  split; [split; [done|split; [done|cbn; lia]]|]. exists []. split; [|split; [set_solver|split; [done|]]].
  - rewrite app_nil_r, E2. change (els q ++ [a] ≡ₚ xs ++ [a]). by rewrite <- P, app_nil_r.
  - cbn. rewrite length_app. cbn. lia.
Qed.

Lemma pushes_ok K ys : 0 < K -> ∀ q xs, holds K q xs -> ∃ q', pushes (PushT IsLess) ys q = Some q' /\ holds K q' (xs ++ ys).
Proof.
  intros HK. induction ys as [|y ys IH]; intros q xs H; cbn [pushes].
  - exists q. by rewrite app_nil_r.
  - destruct (PushT_ok K q xs y HK H) as (q1 & -> & H1). destruct (IH q1 _ H1) as (q2 & E2 & H2). exists q2.
    split; [done|]. by rewrite <- app_assoc in H2.
Qed.

(** ** Merging *)

Lemma push_all_pushes d l : rng d l -> ∀ rhs, push_all IsLess l d rhs = pushes (PushT IsLess) (map (mt d) l) rhs.
Proof.
  induction 1 as [|i l Hi _ IH]; intros rhs; [done|]. cbn [push_all pushes map]. rewrite mt_at by done. cbn [mbind option_bind].
  destruct (PushT IsLess (mt d i) rhs) as [r|]; [apply IH|done].
Qed.

#[export] Instance worse_dec x y : Decision (worse x y).
Proof. unfold le. apply _. Defined.

(** When as many matches as are kept are no worse than [r], so are the kept
    ones. *)
Lemma better_count (r : A) (es ks rej : list A) : ks ++ rej ≡ₚ es -> (length ks <= length (filter (worse r) es))%nat ->
  (∀ x e, x ∈ rej -> e ∈ ks -> worse x e) -> ∀ e, e ∈ ks -> worse r e.
Proof.
  intros P N R e He. destruct (decide (worse r e)) as [|Hn]; [done|]. exfalso.
  assert (length (filter (worse r) ks) < length ks)%nat as L by (apply length_filter_lt with e; done).
  rewrite <- P, filter_app, length_app in N. destruct (filter (worse r) rej) as [|x t] eqn:E; [cbn in N; lia|].
  assert (x ∈ filter (worse r) rej) as Hx by (rewrite E; by left). apply list_elem_of_filter in Hx as [Hx1 Hx2].
  apply Hn, (less_trans _ x); [done|by apply R].
Qed.

Lemma MoveTo_ok K q rhs xs ys : 0 < K -> holds K q xs -> holds K rhs ys ->
  ∃ q', MoveTo IsLess q rhs = Some q' /\ holds K q' (ys ++ xs).
Proof.
  intros HK H1 H2. assert (∀ r zs, holds K r zs -> m_iUsed r = 0 -> zs = []) as Em.
  { intros r zs [(W & _ & Sz) (rej & P & _ & Rn & _)] U. destruct rej; [|specialize (Rn ltac:(done)); lia].
    rewrite app_nil_r in P. pose proof (els_len W). apply nil_length_inv. rewrite <- P. lia. }
  unfold MoveTo. destruct (Z.eqb_spec (m_iUsed q) 0) as [U1|U1].
  { exists rhs. rewrite (Em q xs H1 U1), app_nil_r. done. }
  destruct (Z.eqb_spec (m_iUsed rhs) 0) as [U2|U2].
  { exists q. by rewrite (Em rhs ys H2 U2). }
  destruct H1 as [(W & Hh & Sz) (rej & P & R & Rn & T)].
  rewrite push_all_pushes by (apply Forall_take, (wf_rng W)). fold (live q). fold (els q).
  destruct (pushes_ok K (els q) HK rhs ys H2) as (q' & -> & (W' & Hh' & Sz') & rej' & P' & R' & Rn' & T'). cbn [mbind option_bind].
  destruct H2 as [_ (_ & _ & _ & _ & T2)]. eexists. split; [reflexivity|]. split; [by repeat split; try apply W'|].
  exists (rej' ++ rej). pose proof (els_len W) as L. pose proof (els_len W') as L'.
  assert (length (els q') + length rej' = length ys + length (els q))%nat as Ln.
  { rewrite <- !length_app. by rewrite P'. }
  assert (rej <> [] -> m_iUsed q' = K) as F.
  { intros N. specialize (Rn N). pose proof (wf_used _ _ W'). destruct rej'; [cbn in Ln; lia|]. rewrite Rn' by done. done. }
  split; [|split; [|split]].
  - change (els q' ++ rej' ++ rej ≡ₚ ys ++ xs). by rewrite <- P, !app_assoc, P'.
  - intros r e Hr He. change (e ∈ els q') in He. apply elem_of_app in Hr as [Hr|Hr]; [by apply R'|].
    assert (rej <> []) as N by (intros ->; by apply elem_of_nil in Hr).
    apply (better_count r (ys ++ els q) (els q') rej'); auto. rewrite filter_app, length_app.
    rewrite (list_filter_all (worse r) (els q)); [specialize (Rn N); specialize (F N); lia|auto].
  - cbn. intros N. rewrite Sz'. destruct rej as [|x rej]; [rewrite app_nil_r in N; rewrite <- Sz'; auto|auto].
  - cbn. rewrite length_app. lia.
Qed.

(** ** The result *)

(** [out] is the [K] best of [xs], from best to worst. *)
Definition top_k (K : Z) (xs out : list A) : Prop :=
  StronglySorted (λ x y, worse y x) out /\ len out = Z.min K (len xs) /\
  ∃ rej, out ++ rej ≡ₚ xs /\ ∀ r e, r ∈ rej -> e ∈ out -> worse r e.

Lemma flatten_ok K blank fuel : ∀ out q, good K q -> (Z.to_nat (m_iUsed q) <= fuel)%nat -> StronglySorted (λ x y, worse y x) out ->
  (∀ o e, o ∈ out -> e ∈ els q -> worse o e) ->
  ∃ out' q', flatten_loop IsLess fuel blank out q = Some (out', q') /\ good K q' /\ m_iUsed q' = 0 /\
    StronglySorted (λ x y, worse y x) out' /\ out' ≡ₚ els q ++ out.
Proof.
  induction fuel as [|fuel IH]; intros out q (W & Hh & Sz) Hf So Ho; cbn [flatten_loop]; pose proof (wf_used _ _ W) as U;
    destruct (Z.eqb_spec (m_iUsed q) 0) as [U0|U0]; try lia.
  1-2: exists out, q; (split; [done|]); (split; [done|]); (split; [done|]); (split; [done|]); pose proof (els_len W);
    rewrite (nil_length_inv (els q)) by lia; done.
  destruct (pop_down K q (Some blank) W) as (q1 & -> & W1 & H1 & U1 & [S1 _] & E1); [lia|done|]. cbn [mbind option_bind].
  pose proof (heap_min K q W Hh) as Hm.
  destruct (IH (el q 0 :: out) q1) as (out' & q' & -> & G & U' & So' & P'); [by repeat split; try apply W1; rewrite ?S1|lia| | |].
  - constructor; [done|]. apply Forall_forall. intros o Hx. apply Ho; [done|]. rewrite E1. by left.
  - intros o e Hx He. assert (e ∈ els q) by (rewrite E1; by right). apply elem_of_cons in Hx as [->|Hx]; auto.
  - exists out', q'. split; [done|]. split; [done|]. split; [done|]. split; [done|]. rewrite P', E1. by rewrite <- Permutation_middle.
Qed.

Lemma Flatten_ok K blank q xs : 0 < K -> holds K q xs ->
  ∃ out q', Flatten IsLess blank q = Some (out, q') /\ top_k K xs out /\ holds K q' [].
Proof.
  intros HK [G (rej & P & R & Rn & T)]. unfold Flatten.
  destruct (flatten_ok K blank (Z.to_nat (m_iUsed q)) [] q G) as (out & q' & -> & G' & U' & So & Po); [lia|constructor|set_solver|].
  rewrite app_nil_r in Po. cbn [mbind option_bind]. eexists _, _. split; [reflexivity|].
  destruct G as (W & _ & Sz), G' as (W' & H' & Sz'). pose proof (els_len W) as L. pose proof (wf_used _ _ W). split.
  - split; [done|]. split.
    + rewrite <- P, Po, length_app. destruct rej as [|x rej]; [cbn; lia|]. rewrite <- Sz, <- Rn by done. cbn. lia.
    + exists rej. split; [by rewrite Po|]. intros r e Hr He. apply R; [done|]. by rewrite <- Po.
  - split; [by repeat split; try apply W'|]. exists []. split; [|split; [set_solver|by split]].
    rewrite app_nil_r. rewrite (nil_length_inv (els (set_total 0 q'))); [done|]. pose proof (els_len W').
    change (els (set_total 0 q')) with (els q'). lia.
Qed.

Lemma feed_holds K blank f : 0 < K -> ∃ q, run_feed IsLess blank K f = Some q /\ holds K q (fed f).
Proof.
  intros HK. induction f as [|f (q & E & H) l|f (q & E & H) into (rhs & E' & H')]; cbn [run_feed fed]; rewrite ?E, ?E'; cbn [mbind option_bind].
  - eexists. split; [done|]. by apply new_holds.
  - by apply pushes_ok.
  - by apply MoveTo_ok.
Qed.
End Queue.

(** [C25] The heap sorter returns the best matches: whatever order matches are
    pushed to queues of size K, and however such queues are then moved into
    each other ([MoveTo]) and pushed to again, no operation fails, the total
    counts every match, and [Flatten] returns the K best of them all (or all,
    if there are fewer) in order from best to worst, and leaves an empty queue.
    The comparator is a strict weak order. *)
Theorem match_queue_top_k {A} `{!Inhabited A} (IsLess : A -> A -> bool) (K : Z) (blank : A) (f : feed A) :
  (∀ x y, IsLess x y = true -> IsLess y x = false) ->
  (∀ x y z, le IsLess x y -> le IsLess y z -> le IsLess x z) ->
  0 < K ->
  ∃ q out q', run_feed IsLess blank K f = Some q /\ m_iTotal q = Z.of_nat (length (fed f)) /\
    Flatten IsLess blank q = Some (out, q') /\ top_k IsLess K (fed f) out /\ m_iUsed q' = 0 /\ m_iTotal q' = 0.
Proof.
  intros Asym Tr HK. destruct (feed_holds IsLess Asym Tr K blank f HK) as (q & E & H).
  destruct (Flatten_ok IsLess Asym Tr K blank q (fed f) HK H) as (out & q' & Ef & Top & H'). exists q, out, q'.
  destruct H as [_ (_ & _ & _ & _ & T)], H' as [(W' & _) (rej & P & _ & _ & T')]. do 4 (split; [done|]).
  split; [|done]. apply Permutation_nil_r in P. apply app_eq_nil in P as [P _]. pose proof (els_len W') as L. by rewrite P in L.
Qed.

Lemma match_queue_top_k_witness : ∃ q out q',
  run_feed Z.ltb 0 3 (Pushed (Moved (Pushed Fresh [3; 9; 1; 7]) (Pushed Fresh [5; 8])) [6; 2]) = Some q /\ m_iTotal q = 8 /\
  Flatten Z.ltb 0 q = Some (out, q') /\ top_k Z.ltb 3 [5; 8; 3; 9; 1; 7; 6; 2] out /\ m_iUsed q' = 0 /\ m_iTotal q' = 0.
Proof.
  apply (match_queue_top_k Z.ltb 3 0 (Pushed (Moved (Pushed Fresh [3; 9; 1; 7]) (Pushed Fresh [5; 8])) [6; 2])); unfold le; intros; lia.
Defined.

(** After [Finalize] in the result-set order (as for a query with a user
    function) the positions are sorted from the best match, which is not the
    order of the heap: [Flatten] then returns the matches in another order than
    from best to worst, and a match better than a kept one is not taken. *)
Theorem finalize_breaks_heap : ∃ q q' q'' : CSphMatchQueueTraits Z,
  pushes (PushT Z.ltb) [3; 9; 1] (new_traits 0 3) = Some q /\ Finalize Z.ltb id true q = Some q' /\ PushT Z.ltb 8 q' = Some q'' /\
  (Flatten Z.ltb 0 q ≫= λ x, Some x.1) = Some [9; 3; 1] /\
  (Flatten Z.ltb 0 q' ≫= λ x, Some x.1) = Some [3; 1; 9] /\
  (Flatten Z.ltb 0 q'' ≫= λ x, Some x.1) = Some [3; 1; 9].
Proof.
  eexists _, _, _. split; [vm_compute; reflexivity|]. split; [vm_compute; reflexivity|]. split; [vm_compute; reflexivity|].
  split; [|split]; vm_compute; reflexivity.
Qed.
End MatchQueueOk.

(** * The K-buffer keeps the best matches

    [CSphKbufferMatchQueue] (see [MatchQueue]): the partition puts the best
    matches first although its scans have no bounds, and the buffer returns
    the same result as the heap; a match it still points to after [Finalize]
    may be one that was cut off. *)

From stdpp Require Import sorting sets.
From S2P Require Import Prelude BitVec Sort SortOk MatchQueue.
Import SortOk MatchQueue MatchQueueOk.

Module KbufferOk.

Ltac klia := cbn; unfold COEFF in *; lia.

Section Queue.
Context {A : Type} `{!Inhabited A} (IsLess : A -> A -> bool).
Hypothesis less_asym : ∀ x y, IsLess x y = true -> IsLess y x = false.
Hypothesis less_trans : ∀ x y z, le IsLess x y -> le IsLess y z -> le IsLess x z.

Abbreviation worse := (le IsLess).
Abbreviation len l := (Z.of_nat (length l)).
Abbreviation queue := (CSphMatchQueueTraits A).
Abbreviation cmp := (cmp IsLess).
Abbreviation asym d := (cmp_asym IsLess less_asym d).
Abbreviation trans d := (cmp_trans IsLess less_trans d).

(** ** The partition *)

Lemma kscan_up_ok d x l b i' fuel : rng d l -> 0 <= x < len d -> b < len l -> i' <= b -> ∀ i, 0 <= i <= i' -> i' - i < Z.of_nat fuel ->
  (∀ k, i <= k < i' -> cmp d (g l k) x = true) -> cmp d (g l i') x = false ->
  kscan_up IsLess fuel d x i l = Some i'.
Proof.
  intros R Hx Hb Hi'. induction fuel as [|fuel IH]; intros i Hi Hf Hs He; [lia|]. cbn [kscan_up].
  rewrite at_ok by lia. cbn [mbind option_bind]. rewrite icmp_ok by (done || (apply rng_at; [done|lia])). cbn [mbind option_bind].
  destruct (decide (i = i')) as [->|N]; [by rewrite He|]. rewrite Hs by lia. apply IH; auto; try lia. intros k Hk. apply Hs. lia.
Qed.

Lemma kscan_down_ok d x l j' fuel : rng d l -> 0 <= x < len d -> 0 <= j' -> ∀ j, j' <= j < len l -> j - j' < Z.of_nat fuel ->
  (∀ k, j' < k <= j -> cmp d x (g l k) = true) -> cmp d x (g l j') = false ->
  kscan_down IsLess fuel d x j l = Some j'.
Proof.
  intros R Hx Hj'. induction fuel as [|fuel IH]; intros j Hj Hf Hs He; [lia|]. cbn [kscan_down].
  rewrite at_ok by lia. cbn [mbind option_bind]. rewrite icmp_ok by (done || (apply rng_at; [done|lia])). cbn [mbind option_bind].
  destruct (decide (j = j')) as [->|N]; [by rewrite He|]. rewrite Hs by lia. apply IH; auto; try lia. intros k Hk. apply Hs. lia.
Qed.

(** The scans stop inside the segment: at the pivot, or at what the last
    exchange has put on the other side. *)
Lemma scans_stop d a b x i j l : rng d l -> 0 <= x < len d -> 0 <= a -> a <= i -> i <= j -> j <= b -> b < len l ->
  parted (cmp d) a b x i j l -> moves a b x i j l ->
  ∃ i' j', kscan_up IsLess (S (length l)) d x i l = Some i' /\ kscan_down IsLess (S (length l)) d x j l = Some j' /\
    i <= i' <= b /\ a <= j' <= j /\ i' <= j + 1 /\ i - 1 <= j' /\ i' <= j' + 1 /\ parted (cmp d) a b x i' j' l /\
    le (cmp d) x (g l i') /\ le (cmp d) (g l j') x /\ ((∃ m, i <= m <= j /\ g l m = x) -> i' <= j').
Proof.
  intros R Hx Ha Hi Hij Hj Hb [PL PR] Mv.
  destruct (scan_up_ok (cmp d) (asym d) (Z.to_nat (b - i + 1)) b x l i) as (i1 & _ & Ri & Fi & Si & Mi); try lia.
  destruct (scan_down_ok (cmp d) (asym d) (Z.to_nat (j - a + 1)) a x l j) as (j1 & _ & Rj & Fj & Sj & Mj); try lia.
  assert (i1 <= j + 1 /\ i1 <= b) as [I1 I2].
  { destruct Mv as [[H1 H2]|(m & Hm & Ex)].
    - assert (i1 <= j + 1) by (apply Mi; [lia|]; apply PR; lia). lia.
    - assert (i1 <= m) by (apply Mi; [lia|]; rewrite Ex; apply (le_refl _ (asym d))). lia. }
  assert (i - 1 <= j1 /\ a <= j1) as [J1 J2].
  { destruct Mv as [[H1 H2]|(m & Hm & Ex)].
    - assert (i - 1 <= j1); [|lia]. destruct (decide (i - 1 <= j1)) as [|Hn]; [done|]. exfalso.
      specialize (Mj (i - 1) ltac:(lia) ltac:(apply PL; lia)). lia.
    - assert (m <= j1) by (apply Mj; [lia|]; rewrite Ex; apply (le_refl _ (asym d))). lia. }
  exists i1, j1. split; [|split].
  - apply (kscan_up_ok d x l b); auto; try lia; [|by apply Si; lia]. intros k Hk.
    destruct (cmp d (g l k) x) eqn:E; [done|]. specialize (Mi k ltac:(lia) E). lia.
  - apply kscan_down_ok; auto; try lia; [|by apply Sj; lia]. intros k Hk.
    destruct (cmp d x (g l k)) eqn:E; [done|]. specialize (Mj k ltac:(lia) E). lia.
  - split; [lia|]. split; [lia|]. split; [done|]. split; [done|]. split; [|split; [|split; [by apply Si; lia|split; [by apply Sj; lia|]]]].
    + destruct (decide (i1 <= j1 + 1)) as [|Hn]; [done|]. exfalso. destruct (le_total _ (asym d) x (g l (j1 + 1))) as [H|H].
      * specialize (Mi (j1 + 1) ltac:(lia) H). lia.
      * specialize (Mj (j1 + 1) ltac:(lia) H). lia.
    + split; intros k Hk; [destruct (decide (k < i)); [apply PL|apply Fi]; lia|destruct (decide (j < k)); [apply PR|apply Fj]; lia].
    + intros (m & Hm & Ex). assert (i1 <= m) by (apply Mi; [lia|]; rewrite Ex; apply (le_refl _ (asym d))).
      assert (m <= j1) by (apply Mj; [lia|]; rewrite Ex; apply (le_refl _ (asym d))). lia.
Qed.

Lemma kpartition_ok d a b x fuel : ∀ i j l, (Z.to_nat (j - i + 1) < fuel)%nat -> 0 <= a -> a <= i <= b + 1 -> a - 1 <= j <= b ->
  b < len l -> rng d l -> 0 <= x < len d -> i <= j + 2 -> parted (cmp d) a b x i j l -> moves a b x i j l ->
  ∃ i' j' l', kpartition IsLess fuel d x i j l = Some (i', j', l') /\ perm_in a b l l' /\ parted (cmp d) a b x i' j' l' /\
    j' < i' <= j' + 2 /\ a < i' <= b + 1 /\ a - 1 <= j' < b.
Proof.
  induction fuel as [|fuel IH]; intros i j l Hf Ha Hi Hj Hb R Hx Hg Hp Mv; [lia|]. cbn [kpartition].
  destruct (Z.leb_spec i j) as [Hij|Hij].
  2:{ exists i, j, l. split; [done|]. split; [apply perm_in_refl|]. split; [done|]. destruct Mv as [?|(m & ? & _)]; lia. }
  destruct (scans_stop d a b x i j l) as (i1 & j1 & -> & -> & Ri & Rj & I1 & J1 & C & [QL QR] & Si & Sj & Hm); try done; try lia.
  cbn [mbind option_bind]. destruct (Z.leb_spec i1 j1) as [H1|H1].
  - rewrite swap_ok by lia. cbn [mbind option_bind].
    destruct (IH (i1 + 1) (j1 - 1) (exch i1 j1 l)) as (i2 & j2 & l2 & -> & P & Q); rewrite ?exch_length; try done; try lia.
    + apply rng_exch; [done|lia|lia].
    + split; intros k Hk; at_exch; subst; first [done|apply QL; lia|apply QR; lia|by replace j1 with i1 by lia].
    + left. lia.
    + exists i2, j2, l2. split; [done|]. split; [|done]. eapply perm_in_trans; [|done]. apply exch_perm_in; lia.
  - destruct Mv as [Mv|Mv]; [|specialize (Hm Mv); lia].
    destruct (IH i1 j1 l) as (i2 & j2 & l2 & -> & P & Q); try done; try lia; [left; lia|]. eauto 10.
Qed.

(** Every position up to [m] comes before the ones after it. *)
Definition cut_at (d : list A) (e m : Z) (l : list Z) : Prop := ∀ p q, 0 <= p <= m -> m < q <= e -> le (cmp d) (g l p) (g l q).

Lemma cut_at_perm d e m a b l l' : cut_at d e m l -> perm_in a b l l' -> 0 <= a -> b <= m \/ m < a -> b <= e -> cut_at d e m l'.
Proof.
  intros C P Ha Hab He p q Hp Hq.
  assert (∀ k, 0 <= k -> ∃ k', g l' k = g l k' /\ (k' = k \/ (a <= k <= b /\ a <= k' <= b))) as G.
  { intros k Hk. destruct (decide (a <= k <= b)) as [I|I].
    - destruct (pi_in _ _ _ _ P k I) as (k' & ? & ->). exists k'. split; [done|lia].
    - exists k. split; [|by left]. apply (pi_out _ _ _ _ P); lia. }
  destruct (G p ltac:(lia)) as (p' & -> & Hp'), (G q ltac:(lia)) as (q' & -> & Hq'). apply C; lia.
Qed.

(** One side of the partition is kept apart from what is outside it. *)
Lemma cut_parted d e a b x i j l l' m : cut_at d e (a - 1) l -> cut_at d e b l -> perm_in a b l l' -> parted (cmp d) a b x i j l' ->
  0 <= a -> b <= e -> j <= m < i -> a - 1 <= m <= b -> cut_at d e m l'.
Proof.
  intros C1 C2 P [PL PR] Ha He Hm Hm' p q Hp Hq.
  assert (cut_at d e (a - 1) l') as D1 by (apply (cut_at_perm d e _ a b l); auto; lia).
  assert (cut_at d e b l') as D2 by (apply (cut_at_perm d e _ a b l); auto; lia).
  destruct (decide (p < a)) as [|Hpa]; [apply D1; lia|]. destruct (decide (b < q)) as [|Hqb]; [apply D2; lia|].
  apply (trans d _ x); [apply PL|apply PR]; lia.
Qed.

Lemma binary_partition_ok d e m fuel : ∀ x a b l, b - a < Z.of_nat fuel -> 0 <= a -> a - 1 <= m < b -> b <= e -> e < len l -> rng d l ->
  (∃ k, a <= k <= b /\ g l k = x) -> cut_at d e (a - 1) l -> cut_at d e b l ->
  ∃ l', binary_partition IsLess fuel d m x a b l = Some l' /\ perm_in 0 e l l' /\ cut_at d e m l'.
Proof.
  induction fuel as [|fuel IH]; intros x a b l Hf Ha Hm Hb He R Hx C1 C2; [lia|]. cbn [binary_partition].
  destruct (kpartition_ok d a b x (S (S (length l))) a b l) as (i & j & l1 & -> & P & Q & Hij & Hi & Hj); try done; try lia.
  { destruct Hx as (k & Hk & <-). apply rng_at; [done|lia]. } { split; intros; lia. } { by right. }
  cbn [mbind option_bind]. assert (perm_in 0 e l l1) as P0 by (eapply perm_in_mono; [..|exact P]; lia).
  pose proof (pi_len _ _ _ _ P) as L1. assert (rng d l1) as R1 by (unfold rng; by rewrite (pi_perm _ _ _ _ P)).
  assert (∀ m, j <= m < i -> a - 1 <= m <= b -> cut_at d e m l1) as Cm by (intros; apply (cut_parted d e a b x i j l); auto).
  destruct (Z.eqb_spec m j) as [->|Nj]; [exists l1; split; [done|]; split; [done|]; apply Cm; lia|].
  assert (∃ a' b', (if m <? j then (a, j) else (i, b)) = (a', b') /\ a <= a' /\ b' <= b /\ b' - a' < b - a /\ a' - 1 <= m < b' /\
    cut_at d e (a' - 1) l1 /\ cut_at d e b' l1) as (a' & b' & -> & A1 & B1 & D1 & M1 & Ca & Cb).
  { destruct (Z.ltb_spec m j); eexists _, _; (split; [reflexivity|]); repeat split; try lia.
    1: eapply cut_at_perm; [exact C1|exact P|lia..]. 1-2: apply Cm; lia. eapply cut_at_perm; [exact C2|exact P|lia..]. }
  pose proof (Z.div_mod (a' * (COEFF - 1) + b') COEFF ltac:(done)) as Dm. pose proof (Z.mod_pos_bound (a' * (COEFF - 1) + b') COEFF ltac:(done)) as Mb.
  change COEFF with 4 in *. set (pv := (a' * (4 - 1) + b') / 4) in *. rewrite at_ok by lia. cbn [mbind option_bind].
  destruct (IH (g l1 pv) a' b' l1) as (l2 & -> & P2 & C); try done; try lia; [exists pv; split; [lia|done]|].
  exists l2. split; [done|]. split; [by eapply perm_in_trans|done].
Qed.

Lemma RepartitionMatches_ok c K q : 0 < K -> wf c q -> m_iSize q = K -> K < m_iUsed q ->
  ∃ q' dropped, RepartitionMatches IsLess q = Some q' /\ wf c q' /\ same_meta q q' /\ m_iUsed q' = K /\
    els q' ++ dropped ≡ₚ els q /\ (∀ r e, r ∈ dropped -> e ∈ els q' -> worse r e) /\ m_dData q' = m_dData q.
Proof.
  intros HK W Sz U. pose proof (wf_used _ _ W) as Uc. pose proof (wf_len W) as L. unfold RepartitionMatches, BinaryPartition. rewrite Sz.
  pose proof (Z.div_mod K COEFF ltac:(done)) as Dm. pose proof (Z.mod_pos_bound K COEFF ltac:(done)) as Mb. change COEFF with 4 in *.
  rewrite at_ok by lia. cbn [mbind option_bind].
  destruct (binary_partition_ok (m_dData q) (m_iUsed q - 1) (K - 1) (S (Z.to_nat (m_iUsed q))) (g (m_dIData q) (K / 4 + 1)) 0 (m_iUsed q - 1) (m_dIData q))
    as (l & -> & P & C); try lia; [apply (wf_rng W)|exists (K / 4 + 1); split; [lia|done]|intros p k ? ?; lia..|].
  cbn [mbind option_bind]. destruct (set_idata_wf c q l W P) as [W1 E1]. unfold CutTail. cbn [set_idata m_iUsed m_iSize].
  rewrite (proj2 (Z.leb_gt _ _)), Sz by lia. set (q1 := set_idata l q) in *. assert (wf c (set_used K q1)) as W2 by (split; cbn; [apply W1..|lia]).
  exists (set_used K q1), (drop (Z.to_nat K) (els q1)). do 4 (split; [done|]).
  assert (els (set_used K q1) = take (Z.to_nat K) (els q1)) as Et.
  { unfold els, live. cbn. rewrite firstn_map, firstn_firstn. f_equal. f_equal. lia. }
  rewrite Et, take_drop. split; [done|]. split; [|done]. intros r e0 Hr He. rewrite <- Et in He.
  apply (els_at W2) in He as (k & Hk & ->). apply list_elem_of_lookup in Hr as [i Hi]. rewrite lookup_drop in Hi.
  unfold els, live in Hi. rewrite list_lookup_fmap in Hi. apply fmap_Some in Hi as (p & Hp & ->). apply lookup_take_Some in Hp as [Hp ?].
  cbn in Hp. apply (list_lookup_total_correct) in Hp. specialize (C k (Z.of_nat (Z.to_nat K + i))). unfold g in C at 2. rewrite Nat2Z.id, Hp in C.
  apply C; cbn in *; lia.
Qed.

(** ** Sorting *)

Abbreviation best_first := (StronglySorted (λ x y, worse y x)).

Lemma take_app_eq {B} n (l l1 : list B) : length l1 = length (take n l) -> take n (l1 ++ drop n l) = l1.
Proof.
  intros E. rewrite length_take in E. destruct (decide (n <= length l)%nat).
  - rewrite take_app_le by lia. apply take_ge. lia.
  - rewrite drop_ge, app_nil_r by lia. apply take_ge. lia.
Qed.

Lemma SortMatches_ok c q : wf c q -> c < 2 ^ 36 ->
  ∃ q', SortMatches IsLess q = Some q' /\ wf c q' /\ same_meta q q' /\ m_iUsed q' = m_iUsed q /\ m_dData q' = m_dData q /\
    live q' ≡ₚ live q /\ els q' ≡ₚ els q /\ best_first (els q').
Proof.
  intros W Hc. pose proof (wf_used _ _ W) as U. pose proof (wf_len W) as L. unfold SortMatches. fold (live q).
  assert (rng (m_dData q) (live q)) as R by (apply Forall_take, (wf_rng W)).
  rewrite (proj2 (forallb_forall _ _)). 2:{ intros x Hx. unfold rng in R. rewrite Forall_forall in R. apply list_elem_of_In in Hx. specialize (R x Hx). lia. }
  destruct (sort_ok (cmp (m_dData q)) (asym _) (trans _) (live q)) as (l & E & P & S).
  { unfold live. rewrite length_take. lia. }
  match goal with |- context [Sort.sphSort ?f _] => change f with (cmp (m_dData q)) end.
  rewrite E. cbn [mbind option_bind]. set (l' := l ++ drop _ _).
  assert (live (set_idata l' q) = l) as El by (unfold live, l'; cbn; apply take_app_eq; fold (live q); by rewrite P).
  exists (set_idata l' q). split; [done|]. split; [|do 3 (split; [done|])].
  { split; cbn; [|apply W..]. subst l'. rewrite P. unfold live. rewrite take_drop. apply W. }
  split; [by rewrite El|]. unfold els. rewrite El. cbn [set_idata m_dData]. split; [by apply Permutation_map|].
  clear -S. induction S as [|x l _ IH F]; cbn; constructor; [done|]. apply Forall_map. eapply Forall_impl; [exact F|]. done.
Qed.

(** ** What a buffer holds *)

(** The matches of the queue that are no worse than [r]. *)
Definition better (q : queue) (r : A) : nat := length (filter (worse r) (els q)).

(** The matches that were kept, the ones that were not, and the worst match
    that is still compared with. *)
Definition kept (K : Z) (q : queue) (w : option Z) (rej : list A) : Prop :=
  match w with
  | None => rej = [] /\ m_iUsed q = m_iTotal q /\ m_iTotal q < K
  | Some w => w ∈ live q /\ K <= m_iUsed q /\ K <= m_iTotal q /\ (∀ e, e ∈ els q -> worse (mt (m_dData q) w) e) /\ (∀ r, r ∈ rej -> (Z.to_nat K <= better q r)%nat)
  end.

Definition kholds (K : Z) (k : CSphKbufferMatchQueue A) (xs : list A) : Prop :=
  let q := k_queue k in
  wf (K * COEFF) q /\ m_iSize q = K /\ m_iUsed q < K * COEFF /\ m_iTotal q = len xs /\
  (∃ rej, els q ++ rej ≡ₚ xs /\ kept K q (m_pWorst k) rej) /\
  (m_bFinalized k = true -> m_iUsed q <= K /\ best_first (els q)).

Lemma new_kholds K blank : 0 < K -> kholds K (new_kbuffer blank K) [].
Proof.
  intros HK. unfold kholds, new_kbuffer. change COEFF with 4. cbn [k_queue m_pWorst m_bFinalized new_traits m_iSize m_dData m_dIData m_iUsed m_iTotal].
  split; [split; cbn; [done|rewrite length_replicate; lia|lia]|]. rewrite Z.div_mul by lia. repeat split; try lia; try done.
  exists []. by repeat split.
Qed.

Lemma best_first_last (l : list A) x e : best_first l -> l !! Nat.pred (length l) = Some x -> e ∈ l -> worse x e.
Proof.
  intros S Hx He. rewrite <- last_lookup in Hx. apply last_Some in Hx as [p ->]. apply elem_of_app in He as [He|He].
  - apply (StronglySorted_app_1_elem_of (λ x y, worse y x) p [x]); auto. by left.
  - apply list_elem_of_singleton in He as ->. apply (le_refl _ less_asym).
Qed.

Lemma better_all q r : (∀ e, e ∈ els q -> worse r e) -> better q r = length (els q).
Proof. intros H. unfold better. by rewrite list_filter_all. Qed.

(** The sorted buffer takes its last match for the worst. *)
Lemma worst_ok c K q xs rej : wf c q -> 0 < K -> m_iUsed q = K -> K <= m_iTotal q -> best_first (els q) -> els q ++ rej ≡ₚ xs ->
  (∀ r e, r ∈ rej -> e ∈ els q -> worse r e) -> ∃ w, Last q = Some w /\ kept K q (Some w) rej.
Proof.
  intros W HK U T S P R. pose proof (wf_len W) as L. pose proof (wf_used _ _ W). unfold Last. rewrite at_ok by lia. eexists. split; [reflexivity|].
  assert (live q !! Nat.pred (length (els q)) = Some (g (m_dIData q) (m_iUsed q - 1))) as E.
  { pose proof (els_len W) as Le. unfold live. rewrite lookup_take_lt by lia. unfold g. replace (Nat.pred (length (els q))) with (Z.to_nat (m_iUsed q - 1)) by lia.
    apply list_lookup_lookup_total_lt. lia. }
  set (w := g _ _) in *. assert (els q !! Nat.pred (length (els q)) = Some (mt (m_dData q) w)) as Ew.
  { etransitivity; [apply (list_lookup_fmap (mt (m_dData q)) (live q))|]. by rewrite E. }
  split; [by eapply list_elem_of_lookup_2|]. split; [lia|]. split; [done|]. split.
  - intros e He. by apply (best_first_last (els q)).
  - intros r Hr. rewrite (better_all q r) by auto. pose proof (els_len W). lia.
Qed.

(** Cutting the buffer and sorting what is left. *)
Lemma cut_sorted K q xs w rej : 0 < K -> K * COEFF < 2 ^ 36 -> wf (K * COEFF) q -> m_iSize q = K -> K < m_iUsed q ->
  els q ++ rej ≡ₚ xs -> kept K q (Some w) rej ->
  ∃ q1 q2 rej', RepartitionMatches IsLess q = Some q1 /\ SortMatches IsLess q1 = Some q2 /\ wf (K * COEFF) q2 /\ same_meta q q2 /\ m_iUsed q2 = K /\
    best_first (els q2) /\ els q2 ++ rej' ≡ₚ xs /\ (∀ r e, r ∈ rej' -> e ∈ els q2 -> worse r e).
Proof.
  intros HK Hc W Sz U P (Hw & _ & HT & Hew & Hrw).
  destruct (RepartitionMatches_ok (K * COEFF) K q) as (q1 & dr & -> & W1 & [S1 T1] & U1 & E1 & D1 & M1); auto.
  destruct (SortMatches_ok (K * COEFF) q1 W1 Hc) as (q2 & E2 & W2 & [S2 T2] & U2 & _ & _ & P2 & B2).
  exists q1, q2, (dr ++ rej). split; [done|]. split; [done|]. split; [done|]. split; [split; congruence|]. split; [congruence|]. split; [done|].
  split; [by rewrite app_assoc, P2, E1|]. intros r e Hr He. rewrite P2 in He. apply elem_of_app in Hr as [Hr|Hr]; [by apply D1|].
  apply (better_count IsLess less_trans r (els q) (els q1) dr); auto. specialize (Hrw r Hr). unfold better in Hrw. pose proof (els_len W1). lia.
Qed.

Lemma set_total_wf c n (q : queue) : wf c q -> wf c (set_total n q).
Proof. intros W. split; apply W. Qed.

(** The match that is compared with is not overwritten by the next one. *)
Lemma add_kept c K q q' w rej a : wf c q -> m_iUsed q < c -> Add a q = Some q' -> kept K q (Some w) rej -> worse (mt (m_dData q) w) a ->
  kept K q' (Some w) rej.
Proof.
  intros W H EA (Hw & Hu & HT & Hew & Hrw) Ha. destruct (Add_ok c q a W H) as (q1 & E1 & W1 & [S1 T1] & U1 & I1 & Es & El & Ela).
  rewrite EA in E1. injection E1 as <-. pose proof (wf_used _ _ W) as U. pose proof (wf_len W) as L.
  assert (∃ k, 0 <= k < m_iUsed q /\ w = g (m_dIData q) k) as (k & Hk & ->).
  { apply list_elem_of_lookup in Hw as [k Hk]. apply lookup_take_Some in Hk as [Hk ?]. exists (Z.of_nat k). split; [lia|].
    unfold g. by rewrite Nat2Z.id, (list_lookup_total_correct _ _ _ Hk). }
  assert (mt (m_dData q') (g (m_dIData q) k) = mt (m_dData q) (g (m_dIData q) k)) as Em.
  { specialize (El k Hk). unfold el in El. by rewrite I1 in El. }
  split; [|split; [lia|split; [lia|]]].
  - unfold live. rewrite I1, U1. apply list_elem_of_lookup. exists (Z.to_nat k). rewrite lookup_take_lt by lia. apply list_lookup_lookup_total_lt. lia.
  - rewrite Em. split.
    + intros e He. rewrite Es in He. apply elem_of_app in He as [He|He]; [auto|]. by apply list_elem_of_singleton in He as ->.
    + intros r Hr. specialize (Hrw r Hr). unfold better in *. rewrite Es, filter_app, length_app. lia.
Qed.

Lemma KPushT_ok K k xs a : 0 < K -> K * COEFF < 2 ^ 36 -> kholds K k xs -> ∃ k', KPushT IsLess a k = Some k' /\ kholds K k' (xs ++ [a]).
Proof.
  intros HK Hc (W & Sz & U & T & (rej & P & Kp) & F). set (q0 := set_total (m_iTotal (k_queue k) + 1) (k_queue k)).
  assert (wf (K * COEFF) q0) as W0 by by apply set_total_wf. pose proof (wf_used _ _ W) as U0.
  assert (len (xs ++ [a]) = len xs + 1) as La by (rewrite length_app; cbn; lia). change COEFF with 4 in *.
  unfold KPushT. fold q0. destruct (m_pWorst k) as [w|] eqn:Ew.
  - pose proof Kp as (Hw & Hu & HT & Hew & Hrw).
    assert (kept K q0 (Some w) rej) as Kp0 by (repeat split; auto; cbn; lia).
    assert (0 <= w < len (m_dData q0)) as Rw.
    { assert (rng (m_dData q0) (live q0)) as R by (apply Forall_take, (wf_rng W0)). unfold rng in R. rewrite Forall_forall in R. by apply R. }
    unfold match_at. rewrite mt_at by done. cbn [mbind option_bind]. destruct (IsLess a (mt (m_dData q0) w)) eqn:E.
    + eexists. split; [reflexivity|]. split; [done|]. split; [done|]. split; [done|]. split; [klia|]. split; [|done].
      exists (a :: rej). split; [change (els q0) with (els (k_queue k)); rewrite <- P; solve_Permutation|]. cbn [m_pWorst in_queue k_queue]. rewrite Ew.
      split; [done|]. split; [done|]. split; [klia|]. split; [done|]. intros r Hr. apply elem_of_cons in Hr as [->|Hr]; [|by apply Hrw].
      rewrite better_all; [pose proof (els_len W0); cbn in *; lia|]. intros e He. apply (less_trans _ (mt (m_dData q0) w)); [by apply less_asym|by apply Hew].
    + destruct (Add_ok (K * 4) q0 a W0) as (q1 & EA & W1 & [S1 T1] & U1 & I1 & Es & _); [klia|].
      pose proof (add_kept (K * 4) K q0 q1 w rej a W0 ltac:(klia) EA Kp0 E) as Kp1. rewrite EA. cbn [mbind option_bind]. cbn in S1, T1, U1.
      rewrite S1, T1, (proj2 (Z.eqb_neq _ _)) by lia. rewrite Sz. change COEFF with 4.
      assert (els q1 ++ rej ≡ₚ xs ++ [a]) as P1 by (rewrite Es; change (els q0) with (els (k_queue k)); rewrite <- P; solve_Permutation).
      destruct (Z.ltb_spec (m_iUsed q1) (K * 4)) as [Hl|Hl].
      * eexists. split; [reflexivity|]. do 2 (split; [done || klia|]). split; [done|]. split; [klia|]. split; [|done]. by exists rej.
      * destruct (cut_sorted K q1 (xs ++ [a]) w rej) as (q2 & q3 & rej' & -> & E3 & W3 & [S3 T3] & U3 & B3 & P3 & R3); auto; try lia.
        cbn [mbind option_bind]. rewrite E3. cbn [mbind option_bind].
        destruct (worst_ok (K * 4) K q3 (xs ++ [a]) rej') as (w' & -> & Kp3); auto; [lia|]. cbn [mbind option_bind].
        eexists. split; [reflexivity|]. split; [done|]. split; [klia|]. split; [klia|]. split; [klia|]. split; [by exists rej'|]. cbn. intros _. split; [lia|done].
  - destruct Kp as (-> & Hu & HT). cbn [mbind option_bind].
    destruct (Add_ok (K * 4) q0 a W0) as (q1 & EA & W1 & [S1 T1] & U1 & I1 & Es & _); [klia|]. rewrite EA. cbn [mbind option_bind]. cbn in S1, T1, U1.
    assert (els q1 ++ [] ≡ₚ xs ++ [a]) as P1 by (rewrite Es; change (els q0) with (els (k_queue k)); rewrite <- P; solve_Permutation).
    rewrite S1, T1, Sz. change COEFF with 4. destruct (Z.eqb_spec (m_iTotal (k_queue k) + 1) K) as [HT1|HT1].
    + destruct (SortMatches_ok (K * 4) q1 W1 Hc) as (q2 & -> & W2 & [S2 T2] & U2 & _ & _ & P2 & B2). cbn [mbind option_bind].
      destruct (worst_ok (K * 4) K q2 (xs ++ [a]) []) as (w & -> & Kp2); auto; [lia|lia|by rewrite P2|set_solver|]. cbn [mbind option_bind].
      eexists. split; [reflexivity|]. split; [done|]. split; [klia|]. split; [klia|]. split; [klia|].
      split; [exists []; split; [by rewrite P2|done]|]. cbn. intros _. split; [lia|done].
    + rewrite (proj2 (Z.ltb_lt _ _)) by lia. eexists. split; [reflexivity|]. split; [done|]. split; [klia|]. split; [klia|]. split; [klia|].
      split; [|done]. exists []. split; [done|]. cbn. repeat split; lia.
Qed.

Lemma kpushes_ok K ys : 0 < K -> K * COEFF < 2 ^ 36 -> ∀ k xs, kholds K k xs -> ∃ k', kpushes IsLess ys k = Some k' /\ kholds K k' (xs ++ ys).
Proof.
  intros HK Hc. induction ys as [|y ys IH]; intros k xs H; cbn [kpushes].
  - exists k. by rewrite app_nil_r.
  - destruct (KPushT_ok K k xs y HK Hc H) as (k1 & -> & H1). destruct (IH k1 _ H1) as (k2 & E2 & H2). exists k2.
    split; [done|]. by rewrite <- app_assoc in H2.
Qed.

(** ** The result *)

(** The buffer after [FinalizeMatches]. *)
Lemma FinalizeMatches_ok K k xs : 0 < K -> K * COEFF < 2 ^ 36 -> kholds K k xs ->
  ∃ k', FinalizeMatches IsLess k = Some k' /\ wf (K * COEFF) (k_queue k') /\ same_meta (k_queue k) (k_queue k') /\ top_k IsLess K xs (els (k_queue k')).
Proof.
  intros HK Hc (W & Sz & U & T & (rej & P & Kp) & F). unfold FinalizeMatches. pose proof (els_len W) as L.
  assert (len xs = len (els (k_queue k)) + len rej) as Lx by (rewrite <- P, length_app; lia).
  assert (m_iUsed (k_queue k) <= K -> len (els (k_queue k)) = Z.min K (len xs) /\ ∀ r e, r ∈ rej -> e ∈ els (k_queue k) -> worse r e) as G.
  { intros Hu. destruct (m_pWorst k) as [w|].
    - destruct Kp as (_ & Hu' & HT & Hew & Hrw). split; [lia|]. intros r e Hr He. specialize (Hrw r Hr).
      apply (better_count IsLess less_trans r (els (k_queue k)) (els (k_queue k)) []); [by rewrite app_nil_r|unfold better in Hrw; lia|set_solver|done].
    - destruct Kp as (-> & ? & ?). split; [cbn in Lx; lia|set_solver]. }
  destruct (m_bFinalized k) eqn:Ef.
  { destruct (F eq_refl) as [Hu Hb]. destruct (G Hu) as [G1 G2]. exists k. repeat split; eauto; apply W. }
  rewrite Sz. destruct (Z.gtb_spec (m_iUsed (k_queue k)) K) as [Hu|Hu].
  - destruct (m_pWorst k) as [w|]; [|destruct Kp; lia].
    destruct (cut_sorted K (k_queue k) xs w rej) as (q1 & q2 & rej' & -> & E2 & W2 & M2 & U2 & B2 & P2 & R2); auto.
    cbn [mbind option_bind]. rewrite E2. eexists. split; [reflexivity|]. split; [done|]. split; [done|]. split; [done|]. split; [|by exists rej'].
    pose proof (els_len W2). cbn [k_queue]. destruct Kp as (_ & _ & HT & _). lia.
  - destruct (G ltac:(lia)) as [G1 G2]. cbn [mbind option_bind].
    destruct (SortMatches_ok (K * COEFF) (k_queue k) W Hc) as (q2 & -> & W2 & M2 & U2 & _ & _ & P2 & B2). cbn [mbind option_bind].
    eexists. split; [reflexivity|]. split; [done|]. split; [done|]. cbn [k_queue]. split; [done|]. rewrite P2. split; [done|].
    exists rej. split; [by rewrite P2|]. intros r e Hr He. rewrite P2 in He. auto.
Qed.

Lemma mapM_match_at (q : queue) l : rng (m_dData q) l -> mapM (match_at q) l = Some (map (mt (m_dData q)) l).
Proof. induction 1 as [|i l Hi _ IH]; [done|]. cbn [mapM map]. assert (match_at q i = Some (mt (m_dData q) i)) as -> by by apply mt_at. cbn. by rewrite IH. Qed.

Lemma fold_set_match blank l : ∀ q : queue, let q' := fold_left (λ q i, set_match i blank q) l q in
  m_iSize q' = m_iSize q /\ m_dIData q' = m_dIData q /\ length (m_dData q') = length (m_dData q).
Proof.
  induction l as [|i l IH]; intros q; [done|]. cbn. destruct (IH (set_match i blank q)) as (E1 & E2 & E3). cbn in E1, E2, E3.
  by rewrite E1, E2, E3, length_insert.
Qed.

Lemma KFlatten_ok K blank k xs : 0 < K -> K * COEFF < 2 ^ 36 -> kholds K k xs ->
  ∃ out k', KFlatten IsLess blank k = Some (out, k') /\ top_k IsLess K xs out /\ kholds K k' [].
Proof.
  intros HK Hc H. destruct (FinalizeMatches_ok K k xs HK Hc H) as (k1 & E1 & W1 & [S1 _] & T1). unfold KFlatten. rewrite E1. cbn [mbind option_bind].
  rewrite mapM_match_at by (apply Forall_take, (wf_rng W1)). cbn [mbind option_bind]. eexists _, _. split; [reflexivity|]. split; [done|].
  destruct (fold_set_match blank (live (k_queue k1)) (k_queue k1)) as (F1 & F2 & F3). pose proof (wf_used _ _ W1). destruct H as (_ & Sz & _).
  split; [|cbn; fold (live (k_queue k1)); rewrite F1, S1; split; [done|]; split; [unfold COEFF; lia|]; split; [done|]; split; [|done]].
  - split; cbn; fold (live (k_queue k1)); rewrite ?F2, ?F3; [apply W1..|lia].
  - exists []. by repeat split.
Qed.

(** ** Merging *)

Lemma kpush_all_kpushes d l : rng d l -> ∀ rhs, kpush_all IsLess l d rhs = kpushes IsLess (map (mt d) l) rhs.
Proof.
  induction 1 as [|i l Hi _ IH]; intros rhs; [done|]. cbn [kpush_all kpushes map]. rewrite mt_at by done. cbn [mbind option_bind].
  destruct (KPushT IsLess (mt d i) rhs) as [r|]; [apply IH|done].
Qed.

(** A match with [K] better ones among those pushed has [K] better ones left. *)
Lemma better_left K q es rej r : els q ++ rej ≡ₚ es -> (∀ x, x ∈ rej -> (Z.to_nat K <= better q x)%nat) ->
  (Z.to_nat K <= length (filter (worse r) es))%nat -> (Z.to_nat K <= better q r)%nat.
Proof.
  intros P R H. rewrite <- P, filter_app, length_app in H. destruct (filter (worse r) rej) as [|x t] eqn:E; [unfold better; cbn in H; lia|].
  assert (x ∈ filter (worse r) rej) as Hx by (rewrite E; by left). apply list_elem_of_filter in Hx as [Hx1 Hx2].
  etransitivity; [by apply (R x)|]. unfold better. apply submseteq_length, sublist_submseteq.
  generalize (els q) as l. induction l as [|y l IH]; [done|]. rewrite !filter_cons. do 2 case_decide; auto using sublist_skip, sublist_cons.
  exfalso. eauto.
Qed.

Lemma KMoveTo_ok K k rhs xs ys : 0 < K -> K * COEFF < 2 ^ 36 -> kholds K k xs -> kholds K rhs ys ->
  ∃ k', KMoveTo IsLess k rhs = Some k' /\ kholds K k' (ys ++ xs).
Proof.
  intros HK Hc H1 H2. assert (∀ r zs, kholds K r zs -> m_iUsed (k_queue r) = 0 -> zs = []) as Em.
  { intros r zs (W & _ & _ & T & (rej & P & Kp) & _) U. destruct (m_pWorst r); destruct Kp as (? & ? & ?); [lia|]. apply nil_length_inv. lia. }
  unfold KMoveTo. destruct (Z.eqb_spec (m_iUsed (k_queue k)) 0) as [U1|U1].
  { exists rhs. rewrite (Em k xs H1 U1), app_nil_r. done. }
  destruct (Z.eqb_spec (m_iUsed (k_queue rhs)) 0) as [U2|U2].
  { exists k. by rewrite (Em rhs ys H2 U2). }
  destruct (FinalizeMatches_ok K k xs HK Hc H1) as (k1 & -> & W1 & [_ T1] & (_ & L1 & rej1 & P1 & R1)). cbn [mbind option_bind].
  rewrite kpush_all_kpushes by (apply Forall_take, (wf_rng W1)). fold (live (k_queue k1)). fold (els (k_queue k1)).
  destruct (kpushes_ok K (els (k_queue k1)) HK Hc rhs ys H2) as (k2 & -> & (W2 & Sz2 & V2 & T2 & (rej2 & P2 & Kp2) & F2)). cbn [mbind option_bind].
  destruct H1 as (_ & _ & _ & T & _), H2 as (_ & _ & _ & T' & _). eexists. split; [reflexivity|].
  assert (len xs = len (els (k_queue k1)) + len rej1) as Lx by (rewrite <- P1, length_app; lia). rewrite length_app in T2.
  split; [by apply set_total_wf|]. split; [done|]. split; [done|]. split; [cbn; rewrite length_app; lia|]. split; [|done].
  exists (rej2 ++ rej1). split; [change (els (k_queue k2) ++ rej2 ++ rej1 ≡ₚ ys ++ xs); by rewrite <- P1, !app_assoc, P2|].
  cbn [k_queue in_queue m_pWorst]. destruct (m_pWorst k2) as [w|].
  - destruct Kp2 as (Hw & Hu & HT & Hew & Hrw). split; [done|]. split; [done|]. split; [cbn; lia|]. split; [done|].
    intros r Hr. change (Z.to_nat K <= better (k_queue k2) r)%nat. apply elem_of_app in Hr as [Hr|Hr]; [auto|].
    apply (better_left K _ _ rej2 r P2 Hrw). rewrite filter_app, length_app.
    assert (0 < length rej1)%nat by (destruct rej1; [set_solver|cbn; lia]). rewrite (list_filter_all (worse r) (els (k_queue k1))) by auto. lia.
  - destruct Kp2 as (-> & Hu & HT). assert (rej1 = []) as -> by (apply nil_length_inv; lia). cbn in Lx. split; [done|]. cbn. lia.
Qed.

Lemma kfeed_holds K blank f : 0 < K -> K * COEFF < 2 ^ 36 -> ∃ k, run_kfeed IsLess blank K f = Some k /\ kholds K k (fed f).
Proof.
  intros HK Hc. induction f as [|f (k & E & H) l|f (k & E & H) into (rhs & E' & H')]; cbn [run_kfeed fed]; rewrite ?E, ?E'; cbn [mbind option_bind].
  - eexists. split; [done|]. by apply new_kholds.
  - by apply kpushes_ok.
  - by apply KMoveTo_ok.
Qed.
End Queue.

(** [C26] The K-buffer sorter returns the best matches too: however buffers of
    size K are filled and moved into each other, no operation fails (the scans
    of the partition, which have no bounds, stay inside the buffer, and the
    partition ends), the total counts every match, and [Flatten] returns the K
    best matches in order from best to worst and leaves a buffer that is empty
    again. *)
Theorem kbuffer_top_k {A} `{!Inhabited A} (IsLess : A -> A -> bool) (K : Z) (blank : A) (f : feed A) :
  (∀ x y, IsLess x y = true -> IsLess y x = false) ->
  (∀ x y z, le IsLess x y -> le IsLess y z -> le IsLess x z) ->
  0 < K -> K * COEFF < 2 ^ 31 ->
  ∃ k out k', run_kfeed IsLess blank K f = Some k /\ m_iTotal (k_queue k) = Z.of_nat (length (fed f)) /\
    KFlatten IsLess blank k = Some (out, k') /\ top_k IsLess K (fed f) out /\ m_iUsed (k_queue k') = 0 /\ m_pWorst k' = None.
Proof.
  intros Asym Tr HK Hc. assert (K * COEFF < 2 ^ 36) as Hc' by lia.
  destruct (kfeed_holds IsLess Asym Tr K blank f HK Hc') as (k & E & H).
  destruct (KFlatten_ok IsLess Asym Tr K blank k (fed f) HK Hc' H) as (out & k' & Ef & Top & H'). exists k, out, k'.
  destruct H as (_ & _ & _ & T & _), H' as (_ & _ & _ & T' & (rej & _ & Kp) & _). do 4 (split; [done|]).
  cbn in T'. destruct (m_pWorst k') as [w|]; [destruct Kp as (_ & _ & ? & _); lia|]. destruct Kp as (_ & ? & _). split; [lia|done].
Qed.

Lemma kbuffer_top_k_witness : ∃ k out k',
  run_kfeed Z.ltb 0 2 (Pushed (Moved (Pushed Fresh [3; 9; 1; 7]) (Pushed Fresh [5; 8])) [6; 2]) = Some k /\ m_iTotal (k_queue k) = 8 /\
  KFlatten Z.ltb 0 k = Some (out, k') /\ top_k Z.ltb 2 [5; 8; 3; 9; 1; 7; 6; 2] out /\ m_iUsed (k_queue k') = 0 /\ m_pWorst k' = None.
Proof.
  apply (kbuffer_top_k Z.ltb 2 0 (Pushed (Moved (Pushed Fresh [3; 9; 1; 7]) (Pushed Fresh [5; 8])) [6; 2])); unfold le, COEFF; intros; lia.
Defined.

(** [Finalize] cuts the K-buffer but keeps [m_pWorst], which then points
    to a place that is free: the third match pushed later is written there,
    and from then on matches are compared with it and not with the worst one.
    Here 15 is not taken although 8 is kept. *)
Theorem finalize_keeps_stale_worst : ∃ k k' k'' : CSphKbufferMatchQueue Z,
  kpushes Z.ltb [1; 2; 5; 6; 7] (new_kbuffer 0 2) = Some k /\ KFinalize Z.ltb id true k = Some k' /\
  m_pWorst k' = Some 0 /\ live (k_queue k') = [4; 3] /\
  kpushes Z.ltb [8; 8; 20; 15] k' = Some k'' /\ (KFlatten Z.ltb 0 k'' ≫= λ x, Some x.1) = Some [20; 8].
Proof.
  eexists _, _, _. split; [vm_compute; reflexivity|]. split; [vm_compute; reflexivity|]. split; [vm_compute; reflexivity|].
  split; [vm_compute; reflexivity|]. split; vm_compute; reflexivity.
Qed.
End KbufferOk.
