(* ===== verification/Phrase.v ===== *)
(** * Phrase and proximity matching (src/src/searchnode.cpp)

    [FSMphrase_c] and [FSMproximity_c] read the hits of a document in order of
    their positions and tell when the words of a phrase stand at their places,
    or all words stand close to each other. [ExtNWay_T] runs such a machine over
    the documents of its AND node; it is modelled in [NWay]. *)

From S2P Require Import Prelude Hits Sort.
Import Hitman.

Module Phrase.

(** A hit of the stream (src/src/sphinxint.h). *)
Record ExtHit_t := ExtHit {
  h_tRowID : Z;
  m_uHitpos : Z;
  m_uQuerypos : Z;
  m_uNodepos : Z;
  m_uSpanlen : Z;
  m_uMatchlen : Z;
  m_uWeight : Z;
  m_uQposMask : Z
}.

Definition posf (h : ExtHit_t) : Z := GetPosWithField (m_uHitpos h).

Definition INT_MAX : Z := 2 ^ 31 - 1.
Definition UINT_MAX : Z := 2 ^ 32 - 1.

(** [GetQposMask]. *)
Definition GetQposMask (dAtomPos : list Z) : Z :=
  fold_left (λ uQposMask iQpos, if iQpos <? 0x1f then Z.lor uQposMask (Z.shiftl 1 iQpos) else uQposMask) dAtomPos 0.

(** ** Phrases *)

Record State_t := State {
  m_iTagQword : Z;
  m_uExpHitposWithField : Z
}.

Record FSMphrase_c := FSMphrase {
  m_dQposDelta : list Z;
  m_dAtomPos : list Z;
  m_dStates : list State_t;
  p_uQposMask : Z
}.

Definition set_states (l : list State_t) (f : FSMphrase_c) : FSMphrase_c := FSMphrase (m_dQposDelta f) (m_dAtomPos f) l (p_uQposMask f).

Definition ResetFSM (f : FSMphrase_c) : FSMphrase_c := set_states [] f.

(** The constructor, on the positions of the words in the query. *)
Fixpoint fill_deltas (first : Z) (dAtomPos : list Z) (dQposDelta : list Z) : list Z :=
  match dAtomPos with
  | a :: ((b :: _) as rest) => fill_deltas first rest (<[Z.to_nat (a - first) := b - a]> dQposDelta)
  | _ => dQposDelta
  end.

Definition new_phrase (dAtomPos : list Z) (bSetQposMask : bool) : FSMphrase_c :=
  let first := hd 0 dAtomPos in
  let span := List.last dAtomPos 0 - first in
  FSMphrase (fill_deltas first dAtomPos (replicate (Z.to_nat (span + 1)) (- INT_MAX))) dAtomPos []
    (if bSetQposMask then GetQposMask dAtomPos else 0).

(** [RemoveFast]: the last element takes the place of the removed one. *)
Definition RemoveFast {A} (i : nat) (l : list A) : list A :=
  match last l with
  | None => l
  | Some x => take (pred (length l)) (<[i := x]> l)
  end.

(** The loop [for ( int i=m_dStates.GetLength()-1; i>=0; i-- )]; [true] when a
    state has matched. *)
Fixpoint update_states (n : nat) (f : FSMphrase_c) (uHitposWithField uQuerypos : Z) (l : list State_t) : option (bool * list State_t) :=
  match n with
  | O => Some (false, l)
  | S i =>
      s ← l !! i;
      if m_uExpHitposWithField s <? uHitposWithField then update_states i f uHitposWithField uQuerypos (RemoveFast i l)
      else
        s ← (if m_uExpHitposWithField s =? uHitposWithField then
               a ← Sort.at_ (m_dAtomPos f) (m_iTagQword s + 1);
               if a =? uQuerypos then
                 d ← Sort.at_ (m_dQposDelta f) (uQuerypos - hd 0 (m_dAtomPos f));
                 Some (State (m_iTagQword s + 1) (cast DWORD (uHitposWithField + d)))
               else Some s
             else Some s);
        if m_iTagQword s =? Z.of_nat (length (m_dAtomPos f)) - 1 then Some (true, <[i := s]> l)
        else update_states i f uHitposWithField uQuerypos (<[i := s]> l)
  end.

(** The hit a matched phrase is folded into; [m_uNodepos] is not written. *)
Definition phrase_hit (f : FSMphrase_c) (pHit : ExtHit_t) : ExtHit_t :=
  let first := hd 0 (m_dAtomPos f) in
  let uSpanlen := cast DWORD (List.last (m_dAtomPos f) 0 - first) in
  ExtHit (h_tRowID pHit) (cast DWORD (posf pHit - uSpanlen)) (cast WORD first) 0 (cast WORD (uSpanlen + 1)) (cast WORD (uSpanlen + 1))
    (Z.of_nat (length (m_dAtomPos f))) (p_uQposMask f).

(** [HitFSM]: whether the phrase is complete, the machine and the hits emitted. *)
Definition phrase_HitFSM (pHit : ExtHit_t) (dHits : list ExtHit_t) (f : FSMphrase_c) : option (bool * FSMphrase_c * list ExtHit_t) :=
  l ← (if m_uQuerypos pHit =? hd 0 (m_dAtomPos f) then
         d ← Sort.at_ (m_dQposDelta f) 0;
         Some (m_dStates f ++ [State 0 (cast DWORD (posf pHit + d))])
       else Some (m_dStates f));
  '(b, l) ← update_states (length l) f (posf pHit) (m_uQuerypos pHit) l;
  if (b : bool) then Some (true, ResetFSM f, dHits ++ [phrase_hit f pHit])
  else Some (false, set_states l f, dHits).

(** ** Proximity *)

Record FSMproximity_c := FSMproximity {
  m_iMaxDistance : Z;
  m_uWordsExpected : Z;
  m_uMinQpos : Z;
  m_uQLen : Z;
  m_uExpPos : Z;
  m_dProx : list Z;
  m_uWords : Z;
  m_iMinQindex : Z;
  x_uQposMask : Z
}.

(** [ResetFSM]. *)
Definition prox_Reset (f : FSMproximity_c) : FSMproximity_c :=
  FSMproximity (m_iMaxDistance f) (m_uWordsExpected f) (m_uMinQpos f) (m_uQLen f) 0 (map (λ _, UINT_MAX) (m_dProx f)) 0 (-1) (x_uQposMask f).

(** The constructor; [m_dProx] has no values before the first reset. *)
Definition new_proximity (iOpArg : Z) (dAtomPos : list Z) (bSetQposMask : bool) : FSMproximity_c :=
  let uMinQpos := hd 0 dAtomPos in
  let uQLen := cast DWORD (List.last dAtomPos 0 - uMinQpos) in
  FSMproximity iOpArg (Z.of_nat (length dAtomPos)) uMinQpos uQLen 0 (replicate (Z.to_nat (uQLen + 1)) 0) 0 65535
    (if bSetQposMask then GetQposMask dAtomPos else 0).

(** The loop over [m_dProx] that drops the words that are too far and finds the
    one that is first; [i] is the index of the head of [l]. *)
Record scan := Scan { s_uWords : Z; s_iMinQindex : Z; s_uHitpos : Z }.

Fixpoint prox_scan (i iMinPos : Z) (l : list Z) (s : scan) : list Z * scan :=
  match l with
  | [] => ([], s)
  | x :: l' =>
      let '(x, s) :=
        if x =? UINT_MAX then (x, s)
        else if cast int32_t x <=? iMinPos then (UINT_MAX, Scan (cast DWORD (s_uWords s - 1)) (s_iMinQindex s) (s_uHitpos s))
        else if x <? s_uHitpos s then (x, Scan (s_uWords s) i x)
        else (x, s) in
      let '(l', s) := prox_scan (i + 1) iMinPos l' s in
      (x :: l', s)
  end.

(** [m_dDeltas], before it is sorted, and [uMax]. *)
Definition prox_deltas (dProx : list Z) : list Z :=
  imap (λ i x, if x =? UINT_MAX then INT_MAX else cast int32_t (x - Z.of_nat i)) dProx.

Definition prox_max (dProx : list Z) : Z := fold_left (λ uMax x, if x =? UINT_MAX then uMax else Z.max uMax x) dProx 0.

(** The weight: the words that keep their distance in the query. *)
Fixpoint prox_weight (l : list Z) (uCurWeight uWeight iLast : Z) : Z :=
  match l with
  | d :: l' =>
      if d =? INT_MAX then uWeight + (if uCurWeight =? 0 then 0 else 1 + uCurWeight)
      else if d =? iLast then prox_weight l' (uCurWeight + 1) uWeight d
      else prox_weight l' 0 (uWeight + (if uCurWeight =? 0 then 0 else 1 + uCurWeight)) d
  | [] => uWeight + (if uCurWeight =? 0 then 0 else 1 + uCurWeight)
  end.

Definition prox_hit (f : FSMproximity_c) (pHit : ExtHit_t) (iFirst : Z) : option ExtHit_t :=
  dDeltas ← Sort.sphSort Z.ltb (prox_deltas (m_dProx f));
  let uWeight := prox_weight dDeltas 0 0 (- INT_MAX) in
  let len := cast WORD (prox_max (m_dProx f) - iFirst + 1) in
  Some (ExtHit (h_tRowID pHit) iFirst (cast WORD (m_uMinQpos f)) 0 len len (if uWeight =? 0 then 1 else uWeight) (x_uQposMask f)).

(** The words in the window after a hit. *)
Definition prox_update (pHit : ExtHit_t) (f : FSMproximity_c) : option FSMproximity_c :=
  let iQindex := m_uQuerypos pHit - m_uMinQpos f in
  x ← Sort.at_ (m_dProx f) iQindex;
  let uWords := if x =? UINT_MAX then cast DWORD (m_uWords f + 1) else m_uWords f in
  let dProx := <[Z.to_nat iQindex := posf pHit]> (m_dProx f) in
  if (posf pHit >=? m_uExpPos f) || (iQindex =? m_iMinQindex f) then
    let iMinPos := cast int32_t (posf pHit - m_uQLen f - m_iMaxDistance f) in
    let '(dProx, s) := prox_scan 0 iMinPos dProx (Scan uWords iQindex (posf pHit)) in
    iMin ← Sort.at_ dProx (s_iMinQindex s);
    Some (FSMproximity (m_iMaxDistance f) (m_uWordsExpected f) (m_uMinQpos f) (m_uQLen f) (cast DWORD (iMin + m_uQLen f + m_iMaxDistance f))
      dProx (s_uWords s) (s_iMinQindex s) (x_uQposMask f))
  else
    Some (FSMproximity (m_iMaxDistance f) (m_uWordsExpected f) (m_uMinQpos f) (m_uQLen f) (m_uExpPos f) dProx uWords (m_iMinQindex f) (x_uQposMask f)).

(** [HitFSM]. *)
Definition prox_HitFSM (pHit : ExtHit_t) (dHits : list ExtHit_t) (f : FSMproximity_c) : option (bool * FSMproximity_c * list ExtHit_t) :=
  f ← prox_update pHit f;
  if negb (m_uWords f =? m_uWordsExpected f) then Some (false, f, dHits)
  else
    iFirst ← Sort.at_ (m_dProx f) (m_iMinQindex f);
    tTarget ← prox_hit f pHit iFirst;
    Some (true,
      FSMproximity (m_iMaxDistance f) (m_uWordsExpected f) (m_uMinQpos f) (m_uQLen f) 0 (<[Z.to_nat (m_iMinQindex f) := UINT_MAX]> (m_dProx f))
        (cast DWORD (m_uWords f - 1)) (-1) (x_uQposMask f),
      dHits ++ [tTarget]).

(** ** Machines *)

(** What [ExtNWay_T] needs of its machine. *)
Class FSM (M : Type) := {
  fsm_reset : M -> M;
  fsm_hit : ExtHit_t -> list ExtHit_t -> M -> option (bool * M * list ExtHit_t)
}.

#[export] Instance phrase_fsm : FSM FSMphrase_c := { fsm_reset := ResetFSM; fsm_hit := phrase_HitFSM }.
#[export] Instance proximity_fsm : FSM FSMproximity_c := { fsm_reset := prox_Reset; fsm_hit := prox_HitFSM }.

(** The hits of one document: how many of them completed a match, and what was
    emitted. *)
Fixpoint run_hits {M} `{FSM M} (hits : list ExtHit_t) (dHits : list ExtHit_t) (f : M) : option (bool * M * list ExtHit_t) :=
  match hits with
  | [] => Some (false, f, dHits)
  | h :: hits' =>
      '(b, f, dHits) ← fsm_hit h dHits f;
      '(b', f, dHits) ← run_hits hits' dHits f;
      Some ((b : bool) || b', f, dHits)
  end.

Definition hit (row pos q : Z) : ExtHit_t := ExtHit row pos q 0 1 1 1 0.

Example phrase_demo : (run_hits [hit 5 3 0; hit 5 4 1; hit 5 5 0; hit 5 6 1; hit 5 8 3] [] (new_phrase [0; 1; 3] false) ≫= λ x, Some (x.1.1, map m_uHitpos x.2)) =
  Some (true, [5]).
Proof. vm_compute. reflexivity. Qed.

Example prox_demo : (run_hits [hit 5 3 0; hit 5 14 1; hit 5 15 0] [] (prox_Reset (new_proximity 3 [0; 1] false)) ≫= λ x, Some (x.1.1, map m_uHitpos x.2)) =
  Some (true, [14]).
Proof. vm_compute. reflexivity. Qed.
End Phrase.
