(* ===== verification/PhraseOk.v ===== *)
(** * Phrases are found where they are

    [FSMphrase_c] over the hits of a document, in order of their positions,
    reports a phrase exactly when its words stand at their places; the
    reference keeps all hits seen since the last report and looks every word
    up among them. *)

From stdpp Require Import sorting.
From S2P Require Import Prelude Hits Sort Phrase.
Import Hitman Phrase.

Module PhraseOk.

Abbreviation len l := (Z.of_nat (length l)).

(** ** The reference *)

Definition has (seen : list ExtHit_t) (q p : Z) : bool := existsb (λ x, (m_uQuerypos x =? q) && (posf x =? p)) seen.

(** [h] completes the phrase [atoms] with hits seen before. *)
Definition phrase_ends (atoms : list Z) (seen : list ExtHit_t) (h : ExtHit_t) : bool :=
  (m_uQuerypos h =? List.last atoms 0) &&
  forallb (λ a, has seen a (posf h - (List.last atoms 0 - a))) (removelast atoms).

Fixpoint phrase_ref (f : FSMphrase_c) (seen hits : list ExtHit_t) : list ExtHit_t :=
  match hits with
  | [] => []
  | h :: hits' =>
      if phrase_ends (m_dAtomPos f) seen h then phrase_hit f h :: phrase_ref f [] hits'
      else phrase_ref f (seen ++ [h]) hits'
  end.

Lemma has_spec seen q p : has seen q p = true <-> ∃ x, x ∈ seen /\ m_uQuerypos x = q /\ posf x = p.
Proof.
  unfold has. rewrite existsb_exists. split; intros (x & Hx & E); exists x; rewrite <- list_elem_of_In in *; (split; [done|]); lia.
Qed.

Lemma has_app seen h q p : has (seen ++ [h]) q p = has seen q p || ((m_uQuerypos h =? q) && (posf h =? p)).
Proof. unfold has. rewrite existsb_app. cbn. by rewrite orb_false_r. Qed.

(** ** One pass over the states *)

Lemma RemoveFast_perm {A} (i : nat) (l : list A) x : l !! i = Some x ->
  take i (RemoveFast i l) = take i l /\ x :: drop i (RemoveFast i l) ≡ₚ drop i l /\ S (length (RemoveFast i l)) = length l.
Proof.
  intros Hx. unfold RemoveFast. pose proof (lookup_lt_Some _ _ _ Hx) as Hi.
  destruct (last l) as [y|] eqn:El; [|apply last_None in El; subst; done]. apply last_Some in El as [l0 ->].
  rewrite length_app in *. cbn [length] in *. replace (pred (length l0 + 1)) with (length l0) by lia.
  rewrite length_take, length_insert, length_app. cbn [length]. split; [|split; [|lia]].
  - rewrite take_take. replace (i `min` length l0)%nat with i by lia. by rewrite take_insert_ge by lia.
  - destruct (decide (i = length l0)) as [->|N].
    + rewrite list_lookup_middle in Hx by done. injection Hx as <-. rewrite !drop_ge by (rewrite length_take, length_insert, length_app; cbn; lia).
      rewrite drop_app_length. done.
    + rewrite lookup_app_l in Hx by lia. rewrite insert_app_l by lia. rewrite take_app_length' by (by rewrite length_insert).
      rewrite drop_app_le by lia. rewrite (drop_S l0 x i) by done.
      rewrite (drop_S (<[i := y]> l0) y i) by (apply list_lookup_insert_eq; lia). rewrite drop_insert_lt by lia.
      rewrite <- app_comm_cons. apply Permutation_skip. by rewrite Permutation_app_comm.
Qed.

Section Pass.
Context (f : FSMphrase_c) (pos q : Z).
Abbreviation atoms := (m_dAtomPos f).

(** The state after a hit it expects. *)
Definition advance (s : State_t) : State_t :=
  if (m_uExpHitposWithField s =? pos) && (default (q - 1) (Sort.at_ atoms (m_iTagQword s + 1)) =? q) then
    State (m_iTagQword s + 1) (cast DWORD (pos + default 0 (Sort.at_ (m_dQposDelta f) (q - hd 0 atoms))))
  else s.

Definition completes (s : State_t) : bool :=
  (m_uExpHitposWithField s =? pos) && (m_iTagQword (advance s) =? len atoms - 1).

Definition keep (s : State_t) : option State_t := if m_uExpHitposWithField s <? pos then None else Some (advance s).

(** The states are inside the phrase, and the word has a delta. *)
Hypothesis q_delta : q ∈ atoms -> is_Some (Sort.at_ (m_dQposDelta f) (q - hd 0 atoms)).

Definition state_in (s : State_t) : Prop := 0 <= m_iTagQword s < len atoms - 1.

Lemma update_step i s l : l !! i = Some s -> state_in s -> (m_uExpHitposWithField s <? pos) = false ->
  update_states (S i) f pos q l = if completes s then Some (true, <[i := advance s]> l) else update_states i f pos q (<[i := advance s]> l).
Proof.
  intros Hs Hin He. cbn [update_states]. rewrite Hs. cbn [mbind option_bind]. rewrite He. unfold completes, advance, state_in in *.
  destruct (Z.eqb_spec (m_uExpHitposWithField s) pos) as [E|E]; cbn [andb].
  - assert (is_Some (Sort.at_ atoms (m_iTagQword s + 1))) as [a Ea].
    { unfold Sort.at_. rewrite (proj2 (Z.leb_le _ _)) by lia. apply lookup_lt_is_Some. lia. }
    rewrite Ea. cbn [mbind option_bind]. change (default (q - 1) (Some a)) with a. destruct (Z.eqb_spec a q) as [->|N].
    + assert (is_Some (Sort.at_ (m_dQposDelta f) (q - hd 0 atoms))) as [d Ed].
      { apply q_delta. unfold Sort.at_ in Ea. case_match; [|done]. by eapply list_elem_of_lookup_2. }
      rewrite Ed. cbn [mbind option_bind default]. done.
    + cbn [mbind option_bind]. done.
  - cbn [mbind option_bind]. rewrite (proj2 (Z.eqb_neq (m_iTagQword s) _)) by lia. done.
Qed.

Lemma update_states_ok n : ∀ l, (n <= length l)%nat -> Forall state_in (take n l) ->
  if existsb completes (take n l) then ∃ l', update_states n f pos q l = Some (true, l')
  else ∃ l', update_states n f pos q l = Some (false, l') /\ l' ≡ₚ omap keep (take n l) ++ drop n l.
Proof.
  induction n as [|i IH]; intros l Hn Hf; [by exists l|].
  destruct (lookup_lt_is_Some_2 l i ltac:(lia)) as [s Hs]. rewrite (take_S_r l i s Hs) in Hf |- *.
  apply Forall_app in Hf as [Hf Hst]. apply Forall_cons in Hst as [Hst _]. rewrite existsb_app, omap_app. cbn [existsb omap list_omap]. rewrite orb_false_r.
  pose proof (drop_S l s i Hs) as Hd. destruct (m_uExpHitposWithField s <? pos) eqn:He.
  - assert (completes s = false) as -> by (unfold completes; lia). rewrite orb_false_r.
    cbn [update_states]. rewrite Hs. cbn [mbind option_bind]. rewrite He. destruct (RemoveFast_perm i l s Hs) as (T & P & L).
    specialize (IH (RemoveFast i l)). rewrite T in IH. unfold keep at 2. rewrite He, app_nil_r.
    destruct (existsb completes (take i l)); [apply IH; [lia|done]|]. destruct IH as (l' & E & P'); [lia|done|]. exists l'. split; [done|].
    rewrite P'. f_equiv. rewrite Hd in P. by apply Permutation_cons_inv in P.
  - rewrite (update_step i s l Hs Hst He). destruct (completes s) eqn:Ec; [rewrite orb_true_r; eauto|]. rewrite orb_false_r.
    specialize (IH (<[i := advance s]> l)). rewrite take_insert_ge in IH by lia. unfold keep at 2. rewrite He.
    destruct (existsb completes (take i l)); [apply IH; [rewrite length_insert; lia|done]|].
    destruct IH as (l' & E & P'); [rewrite length_insert; lia|done|]. exists l'. split; [done|]. rewrite P', <- app_assoc. f_equiv. cbn.
    rewrite (drop_S _ (advance s) i) by (apply list_lookup_insert_eq; lia). by rewrite drop_insert_lt by lia.
Qed.
End Pass.

(** ** The deltas *)

Lemma fill_cons first a b l L : fill_deltas first (a :: b :: l) L = fill_deltas first (b :: l) (<[Z.to_nat (a - first) := b - a]> L).
Proof. done. Qed.

Lemma fill_length first l : ∀ L, length (fill_deltas first l L) = length L.
Proof.
  induction l as [|a [|b l] IH]; intros L; [done|done|]. rewrite fill_cons, IH. apply length_insert.
Qed.

Lemma fill_below first l : ∀ L i, StronglySorted Z.lt l -> first <= hd first l -> Z.of_nat i < hd first l - first -> fill_deltas first l L !! i = L !! i.
Proof.
  induction l as [|a [|b l] IH]; intros L i S H0 Hi; [done|done|]. rewrite fill_cons. cbn [hd] in *. apply StronglySorted_cons in S as [F S].
  apply Forall_cons in F as [Hab _]. rewrite IH by (done || cbn; lia). apply list_lookup_insert_ne. lia.
Qed.

Lemma fill_at first l : ∀ L k a b, StronglySorted Z.lt l -> first <= hd first l -> (∀ x, x ∈ l -> x - first < len L) ->
  l !! k = Some a -> l !! S k = Some b -> fill_deltas first l L !! Z.to_nat (a - first) = Some (b - a).
Proof.
  induction l as [|x [|y l] IH]; intros L k a b S H0 HL Ha Hb; [done|by destruct k|]. rewrite fill_cons. cbn [hd] in *.
  apply StronglySorted_cons in S as [F S]. apply Forall_cons in F as [Hxy _]. destruct k as [|k].
  - injection Ha as ->. injection Hb as ->. rewrite fill_below by (done || cbn; lia). apply list_lookup_insert_eq.
    specialize (HL a ltac:(by left)). lia.
  - cbn in Ha, Hb. apply (IH _ k); auto; [cbn; lia|]. intros z Hz. rewrite length_insert. apply HL. by right.
Qed.

Lemma last_total (l : list Z) : l <> [] -> List.last l 0 = l !!! pred (length l).
Proof. induction l as [|x [|y l] IH]; intros H; [done|done|]. change (List.last (y :: l) 0 = (y :: l) !!! pred (length (y :: l))). by apply IH. Qed.

Lemma posf_range h : in_type DWORD (m_uHitpos h) -> 0 <= posf h <= 0xFF7FFFFF.
Proof.
  intros H. destruct (dword_pack _ H) as (fl & e & x & Hf & Hx & E). unfold posf. rewrite E, pack_pos_field, pack_eq by done. cbn. lia.
Qed.

Lemma cast_pos p d : 0 <= p <= 0xFF7FFFFF -> 0 <= d < 2 ^ 16 -> cast DWORD (p + d) = p + d.
Proof. intros. apply cast_id; [done|]. unfold in_type. cbn. lia. Qed.

(** ** The machine and the hits seen *)

Section Phrase.
Context (atoms : list Z) (mask : bool).
Hypothesis atoms_sorted : StronglySorted Z.lt atoms.
Hypothesis atoms_two : (2 <= length atoms)%nat.
Hypothesis atoms_word : Forall (λ a, 0 <= a < 2 ^ 16) atoms.

Abbreviation n := (Z.of_nat (length atoms)).
Definition at_k (k : Z) : Z := atoms !!! Z.to_nat k.
Definition dk (k : Z) : Z := at_k k - at_k 0.
Abbreviation f0 := (new_phrase atoms mask).

Lemma atk_lookup k : 0 <= k < n -> Sort.at_ atoms k = Some (at_k k).
Proof. intros H. unfold Sort.at_. rewrite (proj2 (Z.leb_le _ _)) by lia. apply list_lookup_lookup_total_lt. lia. Qed.

Lemma atk_lt j k : 0 <= j < k -> k < n -> at_k j < at_k k.
Proof.
  intros Hj Hk. unfold at_k. pose proof (list_lookup_lookup_total_lt atoms (Z.to_nat j) ltac:(lia)) as Ej.
  rewrite <- (take_drop_middle _ _ _ Ej) in atoms_sorted. apply StronglySorted_app_1_r, StronglySorted_cons in atoms_sorted as [F _].
  rewrite Forall_forall in F. apply F. apply list_elem_of_lookup. exists (Z.to_nat k - S (Z.to_nat j))%nat. rewrite lookup_drop.
  replace (S (Z.to_nat j) + (Z.to_nat k - S (Z.to_nat j)))%nat with (Z.to_nat k) by lia. apply list_lookup_lookup_total_lt. lia.
Qed.

Lemma atk_inj j k : 0 <= j < n -> 0 <= k < n -> at_k j = at_k k -> j = k.
Proof.
  intros Hj Hk E. destruct (Z.lt_trichotomy j k) as [H|[H|H]]; [|done|].
  - pose proof (atk_lt j k). lia.
  - pose proof (atk_lt k j). lia.
Qed.

Lemma atk_in a : a ∈ atoms <-> ∃ k, 0 <= k < n /\ a = at_k k.
Proof.
  split.
  - intros H. apply list_elem_of_lookup in H as [k Hk]. pose proof (lookup_lt_Some _ _ _ Hk). exists (Z.of_nat k). split; [lia|].
    unfold at_k. by rewrite Nat2Z.id, (list_lookup_total_correct _ _ _ Hk).
  - intros (k & Hk & ->). apply (list_elem_of_lookup_2 _ (Z.to_nat k)). apply list_lookup_lookup_total_lt. lia.
Qed.

Lemma atk_range k : 0 <= k < n -> 0 <= at_k k < 2 ^ 16.
Proof. intros H. rewrite Forall_forall in atoms_word. apply atoms_word, atk_in. eauto. Qed.

Lemma hd_atk : hd 0 atoms = at_k 0.
Proof. unfold at_k. destruct atoms; [cbn in atoms_two; lia|done]. Qed.

Lemma last_atk : List.last atoms 0 = at_k (n - 1).
Proof.
  unfold at_k. replace (Z.to_nat (n - 1)) with (pred (length atoms)) by lia. apply last_total. destruct atoms; [cbn in atoms_two; lia|done].
Qed.

Lemma dk_lt j k : 0 <= j < k -> k < n -> dk j < dk k.
Proof. intros. unfold dk. pose proof (atk_lt j k). lia. Qed.

Lemma dk_0 : dk 0 = 0.
Proof. unfold dk. lia. Qed.

Lemma dk_range k : 0 <= k < n -> 0 <= dk k < 2 ^ 16.
Proof.
  intros H. pose proof (atk_range k H). pose proof (atk_range 0 ltac:(lia)). unfold dk.
  destruct (decide (k = 0)) as [->|]; [lia|]. pose proof (atk_lt 0 k). lia.
Qed.

Lemma delta_len : len (m_dQposDelta f0) = dk (n - 1) + 1.
Proof. cbn. rewrite fill_length, length_replicate, hd_atk, last_atk. pose proof (dk_range (n - 1)). unfold dk in *. lia. Qed.

Lemma delta_at k : 0 <= k < n - 1 -> Sort.at_ (m_dQposDelta f0) (at_k k - hd 0 atoms) = Some (dk (k + 1) - dk k).
Proof.
  intros Hk. pose proof (dk_range k ltac:(lia)). rewrite hd_atk. unfold Sort.at_. rewrite (proj2 (Z.leb_le _ _)) by (unfold dk in *; lia).
  cbn. rewrite hd_atk. replace (dk (k + 1) - dk k) with (at_k (k + 1) - at_k k) by (unfold dk; lia).
  assert (hd (at_k 0) atoms = at_k 0) as Eh by (rewrite <- hd_atk; by destruct atoms).
  apply (fill_at _ _ _ (Z.to_nat k)); [done|by rewrite Eh| | |].
  - intros x Hx. apply atk_in in Hx as (j & Hj & ->). rewrite length_replicate, last_atk. pose proof (dk_range (n - 1)).
    destruct (decide (j = n - 1)) as [->|Nj]; [|pose proof (atk_lt j (n - 1))]; unfold dk in *; lia.
  - apply list_lookup_lookup_total_lt. lia.
  - unfold at_k. replace (Z.to_nat (k + 1)) with (S (Z.to_nat k)) by lia. apply list_lookup_lookup_total_lt. lia.
Qed.

Lemma delta_some a : a ∈ atoms -> is_Some (Sort.at_ (m_dQposDelta f0) (a - hd 0 atoms)).
Proof.
  intros (k & Hk & ->)%atk_in. pose proof (dk_range k Hk). pose proof delta_len. unfold Sort.at_.
  rewrite hd_atk, (proj2 (Z.leb_le _ _)) by (unfold dk in *; lia). apply lookup_lt_is_Some.
  destruct (decide (k = n - 1)) as [->|Nk]; [|pose proof (atk_lt k (n - 1))]; unfold dk in *; lia.
Qed.

(** The words up to [k] of a phrase that starts at [base] were seen. *)
Definition part (seen : list ExtHit_t) (k base : Z) : Prop := ∀ j, 0 <= j <= k -> has seen (at_k j) (base + dk j) = true.

Record inv (p : Z) (seen : list ExtHit_t) (states : list State_t) : Prop := {
  inv_pos : ∀ x, x ∈ seen -> posf x <= p;
  inv_sound : ∀ s, s ∈ states -> 0 <= m_iTagQword s < n - 1 /\
    ∃ base, m_uExpHitposWithField s = base + dk (m_iTagQword s + 1) /\ part seen (m_iTagQword s) base;
  inv_complete : ∀ k base, 0 <= k < n - 1 -> part seen k base -> p <= base + dk (k + 1) -> has seen (at_k (k + 1)) (base + dk (k + 1)) = false ->
    ∃ s, s ∈ states /\ m_iTagQword s = k /\ m_uExpHitposWithField s = base + dk (k + 1);
  inv_none : ∀ base, ~ part seen (n - 1) base }.

Lemma inv_new p : inv p [] [].
Proof.
  split.
  - intros x Hx. by apply elem_of_nil in Hx.
  - intros s Hs. by apply elem_of_nil in Hs.
  - intros k base Hk H. specialize (H 0 ltac:(lia)). done.
  - intros base H. specialize (H 0 ltac:(lia)). done.
Qed.

Lemma phrase_ends_spec seen h : phrase_ends atoms seen h = true <-> m_uQuerypos h = at_k (n - 1) /\ part seen (n - 2) (posf h - dk (n - 1)).
Proof.
  unfold phrase_ends. rewrite last_atk, andb_true_iff, Z.eqb_eq, forallb_forall. f_equiv. unfold part. split.
  - intros H j Hj. rewrite <- (H (at_k j)); [f_equal; unfold dk; lia|]. rewrite removelast_firstn_len. apply list_elem_of_In.
    apply (list_elem_of_lookup_2 _ (Z.to_nat j)). rewrite lookup_take_lt by lia. apply list_lookup_lookup_total_lt. lia.
  - intros H a Ha. rewrite removelast_firstn_len in Ha. apply list_elem_of_In, list_elem_of_lookup in Ha as [j Hj].
    apply lookup_take_Some in Hj as [Hj Hlt]. assert (a = at_k (Z.of_nat j)) as -> by (unfold at_k; by rewrite Nat2Z.id, (list_lookup_total_correct _ _ _ Hj)).
    rewrite <- (H (Z.of_nat j)) by lia. f_equal. unfold dk. lia.
Qed.

Lemma part_mono seen seen' k k' base : (∀ q p, has seen q p = true -> has seen' q p = true) -> k' <= k -> part seen k base -> part seen' k' base.
Proof. intros H Hk HP j Hj. apply H, HP. lia. Qed.

Lemma part_app seen h k base : part seen k base -> part (seen ++ [h]) k base.
Proof. apply part_mono; [|lia]. intros q p H. by rewrite has_app, H. Qed.

(** A part that needs the last hit ends with it. *)
Lemma part_last p seen states h k base : inv p seen states -> p <= posf h -> 0 <= k < n -> part (seen ++ [h]) k base ->
  part seen k base \/ (m_uQuerypos h = at_k k /\ posf h = base + dk k /\ part seen (k - 1) base).
Proof.
  intros I Hp Hk H. destruct (has seen (at_k k) (base + dk k)) eqn:E.
  - left. intros j Hj. specialize (H j Hj). rewrite has_app in H. apply orb_true_iff in H as [H|H]; [done|].
    destruct (decide (j = k)) as [->|N]; [done|].
    apply has_spec in E as (x & Hx & _ & Ep). pose proof (inv_pos _ _ _ I x Hx). pose proof (dk_lt j k). lia.
  - right. pose proof (H k ltac:(lia)) as Hh. rewrite has_app, E in Hh. cbn in Hh. split; [lia|]. split; [lia|].
    intros j Hj. specialize (H j ltac:(lia)). rewrite has_app in H. apply orb_true_iff in H as [H|H]; [done|]. pose proof (dk_lt j k). lia.
Qed.

(** The states with the one a first word starts. *)
Definition started (h : ExtHit_t) (states : list State_t) : list State_t :=
  if m_uQuerypos h =? at_k 0 then states ++ [State 0 (posf h + dk 1)] else states.

Section Step.
Context (p : Z) (seen : list ExtHit_t) (states : list State_t) (h : ExtHit_t).
Hypothesis I : inv p seen states.
Hypothesis Hp : p <= posf h.
Hypothesis Hw : in_type DWORD (m_uHitpos h).

Lemma started_in : Forall (state_in f0) (started h states).
Proof.
  apply Forall_forall. intros s Hs. unfold started in Hs. unfold state_in. change (m_dAtomPos f0) with atoms.
  case_match; [|by apply (inv_sound _ _ _ I)]. apply elem_of_app in Hs as [Hs|Hs]; [by apply (inv_sound _ _ _ I)|].
  apply list_elem_of_singleton in Hs as ->. cbn. lia.
Qed.

Lemma advance_hit k base s : 0 <= k < n - 1 -> m_iTagQword s = k -> m_uExpHitposWithField s = base + dk (k + 1) ->
  m_uQuerypos h = at_k (k + 1) -> posf h = base + dk (k + 1) ->
  m_iTagQword (advance f0 (posf h) (m_uQuerypos h) s) = k + 1 /\
  (k + 1 < n - 1 -> m_uExpHitposWithField (advance f0 (posf h) (m_uQuerypos h) s) = base + dk (k + 1 + 1)).
Proof.
  intros Hk Ht He Hq Hb. unfold advance. change (m_dAtomPos f0) with atoms. rewrite He, Ht, Hb, Z.eqb_refl, atk_lookup by lia.
  cbn [from_option id andb]. rewrite (proj2 (Z.eqb_eq _ _)) by lia. cbn [m_iTagQword m_uExpHitposWithField]. split; [done|]. intros Hk1.
  rewrite Hq, delta_at by lia. cbn [from_option id]. pose proof (posf_range h Hw) as R. rewrite Hb in R.
  pose proof (dk_lt (k + 1) (k + 1 + 1)). pose proof (dk_range (k + 1)). pose proof (dk_range (k + 1 + 1)). rewrite cast_pos by lia. lia.
Qed.

(** Another state stays as it is. *)
Lemma advance_other s : 0 <= m_iTagQword s < n - 1 -> m_uExpHitposWithField s <> posf h \/ m_uQuerypos h <> at_k (m_iTagQword s + 1) ->
  advance f0 (posf h) (m_uQuerypos h) s = s.
Proof.
  intros Ht H. unfold advance. change (m_dAtomPos f0) with atoms. rewrite atk_lookup by lia. cbn [from_option id].
  destruct (Z.eqb_spec (m_uExpHitposWithField s) (posf h)), (Z.eqb_spec (at_k (m_iTagQword s + 1)) (m_uQuerypos h)); cbn; try done. lia.
Qed.

Lemma started_sound s : s ∈ started h states -> 0 <= m_iTagQword s < n - 1 /\
  ∃ base, m_uExpHitposWithField s = base + dk (m_iTagQword s + 1) /\ part (seen ++ [h]) (m_iTagQword s) base /\
    (m_uExpHitposWithField s = posf h -> part seen (m_iTagQword s) base).
Proof.
  assert (s ∈ states -> 0 <= m_iTagQword s < n - 1 /\
    ∃ base, m_uExpHitposWithField s = base + dk (m_iTagQword s + 1) /\ part (seen ++ [h]) (m_iTagQword s) base /\
    (m_uExpHitposWithField s = posf h -> part seen (m_iTagQword s) base)) as G.
  { intros Hs. destruct (inv_sound _ _ _ I s Hs) as [Ht (base & E & P)]. split; [done|]. exists base. split; [done|]. split; [by apply part_app|done]. }
  unfold started. destruct (Z.eqb_spec (m_uQuerypos h) (at_k 0)) as [E|_]; [|done]. intros Hs. apply elem_of_app in Hs as [Hs|Hs]; [by apply G|].
  apply list_elem_of_singleton in Hs as ->. cbn [m_iTagQword m_uExpHitposWithField]. split; [lia|]. exists (posf h). split; [done|]. split.
  - intros j Hj. replace j with 0 by lia. rewrite has_app, dk_0, Z.add_0_r, E, !Z.eqb_refl. apply orb_true_r.
  - pose proof (dk_lt 0 1). rewrite dk_0 in *. lia.
Qed.

(** A state completes the phrase exactly if the hit does. *)
Lemma completes_ends : existsb (completes f0 (posf h) (m_uQuerypos h)) (started h states) = phrase_ends atoms seen h.
Proof.
  apply eq_true_iff_eq. rewrite existsb_exists, phrase_ends_spec. split.
  - intros (s & Hs%list_elem_of_In & C). unfold completes in C. change (m_dAtomPos f0) with atoms in C. apply andb_true_iff in C as [C1 C2].
    destruct (started_sound s Hs) as [Ht (base & E & _ & P)]. specialize (P ltac:(lia)).
    destruct (decide (m_uQuerypos h = at_k (m_iTagQword s + 1))) as [Eq|N]; [|rewrite advance_other in C2 by auto; lia].
    destruct (advance_hit (m_iTagQword s) base s) as [A1 _]; try done; [lia|]. rewrite A1 in C2.
    replace (n - 1) with (m_iTagQword s + 1) by lia. split; [done|]. replace (n - 2) with (m_iTagQword s) by lia.
    by replace (posf h - dk (m_iTagQword s + 1)) with base by lia.
  - intros [Hq P]. set (base := posf h - dk (n - 1)) in *. destruct (inv_complete _ _ _ I (n - 2) base) as (s & Hs & Ht & He); auto; try lia.
    + replace (n - 2 + 1) with (n - 1) by lia. lia.
    + replace (n - 2 + 1) with (n - 1) by lia. destruct (has seen _ _) eqn:Eh; [|done]. destruct (inv_none _ _ _ I base). intros j Hj.
      destruct (decide (j = n - 1)) as [->|Nj]; [done|]. apply P. lia.
    + exists s. split; [apply list_elem_of_In; unfold started; case_match; [apply elem_of_app; by left|done]|].
      destruct (advance_hit (n - 2) base s) as [A1 _]; try done; try lia; [replace (n - 2 + 1) with (n - 1) by lia; first [done|lia]..|].
      replace (n - 2 + 1) with (n - 1) in * by lia. unfold completes. rewrite A1. change (m_dAtomPos f0) with atoms. lia.
Qed.

Lemma inv_step l' : phrase_ends atoms seen h = false -> l' ≡ₚ omap (keep f0 (posf h) (m_uQuerypos h)) (started h states) ->
  inv (posf h) (seen ++ [h]) l'.
Proof.
  intros Hn Hl. assert (∀ s', s' ∈ l' <-> ∃ s, s ∈ started h states /\ posf h <= m_uExpHitposWithField s /\ s' = advance f0 (posf h) (m_uQuerypos h) s) as El.
  { intros s'. rewrite Hl, list_elem_of_omap. unfold keep. split; intros (s & Hs & E); exists s; (split; [done|]).
    - destruct (Z.ltb_spec (m_uExpHitposWithField s) (posf h)); [done|]. by injection E as <-.
    - destruct E as [? ->]. by rewrite (proj2 (Z.ltb_ge _ _)) by lia. }
  assert (∀ s, s ∈ started h states -> completes f0 (posf h) (m_uQuerypos h) s = false) as Nc.
  { intros s Hs. rewrite <- completes_ends in Hn. destruct (completes _ _ _ s) eqn:E; [|done]. rewrite <- Hn. symmetry.
    apply existsb_exists. exists s. split; [by apply list_elem_of_In|done]. }
  split.
  - intros x Hx. apply elem_of_app in Hx as [Hx|Hx]; [pose proof (inv_pos _ _ _ I x Hx); lia|]. apply list_elem_of_singleton in Hx as ->. lia.
  - intros s' Hs'. apply El in Hs' as (s & Hs & He & ->). specialize (Nc s Hs). destruct (started_sound s Hs) as [Ht (base & E & P & P0)].
    destruct (decide (m_uExpHitposWithField s = posf h /\ m_uQuerypos h = at_k (m_iTagQword s + 1))) as [[E1 E2]|N].
    + destruct (advance_hit (m_iTagQword s) base s) as [A1 A2]; try done; [lia|]. unfold completes in Nc. change (m_dAtomPos f0) with atoms in Nc.
      rewrite A1 in *. split; [lia|]. exists base. split; [apply A2; lia|]. intros j Hj. destruct (decide (j = m_iTagQword s + 1)) as [->|]; [|apply P; lia].
      rewrite has_app, E2, Z.eqb_refl, (proj2 (Z.eqb_eq _ _)) by lia. apply orb_true_r.
    + rewrite advance_other by (done || lia). eauto.
  - intros k base Hk P Hle Hno. rewrite has_app in Hno. apply orb_false_iff in Hno as [Hno1 Hno2].
    assert (∀ s, s ∈ started h states -> m_iTagQword s = k -> m_uExpHitposWithField s = base + dk (k + 1) ->
      ∃ s', s' ∈ l' /\ m_iTagQword s' = k /\ m_uExpHitposWithField s' = base + dk (k + 1)) as Stay.
    { intros s Hs Ht He. exists s. split; [|done]. apply El. exists s. split; [done|]. split; [lia|]. rewrite advance_other; [done|lia|]. rewrite Ht, He. lia. }
    assert (∀ s, s ∈ states -> s ∈ started h states) as Sub.
    { intros s Hs. unfold started. case_match; [apply elem_of_app; by left|done]. }
    destruct (part_last p seen states h k base I Hp ltac:(lia) P) as [P'|(Eq & Ep & P')].
    + destruct (inv_complete _ _ _ I k base) as (s & Hs & Ht & He); auto; [lia|]. by apply (Stay s); auto.
    + destruct (decide (k = 0)) as [->|Nk].
      * apply (Stay (State 0 (posf h + dk 1))); [|done|cbn; rewrite Ep, dk_0; f_equal; lia]. unfold started. rewrite Eq, Z.eqb_refl. apply elem_of_app. right. by left.
      * destruct (has seen (at_k k) (base + dk k)) eqn:Eh.
        -- destruct (inv_complete _ _ _ I k base) as (s & Hs & Ht & He); auto; [| lia|by apply (Stay s); auto].
           intros j Hj. destruct (decide (j = k)) as [->|]; [done|]. apply P'. lia.
        -- destruct (inv_complete _ _ _ I (k - 1) base) as (s & Hs & Ht & He); auto; try lia; [replace (k - 1 + 1) with k by lia; first [done|lia]..|].
           destruct (advance_hit (k - 1) base s) as [A1 A2]; try done; try lia; [replace (k - 1 + 1) with k by lia; first [done|lia]..|].
           replace (k - 1 + 1) with k in * by lia. eexists. split; [apply El; exists s; split; [by apply Sub|split; [|reflexivity]]|]; [lia|].
           split; [done|]. apply A2. lia.
  - intros base P. destruct (part_last p seen states h (n - 1) base I Hp ltac:(lia) P) as [P'|(Eq & Ep & P')]; [by apply (inv_none _ _ _ I base)|].
    assert (phrase_ends atoms seen h = true); [|congruence]. apply phrase_ends_spec. split; [done|]. replace (n - 2) with (n - 1 - 1) by lia.
    by replace (posf h - dk (n - 1)) with base by lia.
Qed.
End Step.

Lemma phrase_step p seen states h dHits : inv p seen states -> p <= posf h -> in_type DWORD (m_uHitpos h) ->
  ∃ states', phrase_HitFSM h dHits (set_states states f0) =
    Some (phrase_ends atoms seen h, set_states states' f0, if phrase_ends atoms seen h then dHits ++ [phrase_hit f0 h] else dHits) /\
    inv (posf h) (if phrase_ends atoms seen h then [] else seen ++ [h]) states'.
Proof.
  intros I Hp Hw. unfold phrase_HitFSM. change (m_dAtomPos (set_states states f0)) with atoms. change (m_dStates (set_states states f0)) with states.
  assert ((if m_uQuerypos h =? hd 0 atoms then d ← Sort.at_ (m_dQposDelta (set_states states f0)) 0; Some (states ++ [State 0 (cast DWORD (posf h + d))])
    else Some states) = Some (started h states)) as ->.
  { rewrite hd_atk. unfold started. destruct (Z.eqb_spec (m_uQuerypos h) (at_k 0)); [|done]. pose proof (delta_at 0 ltac:(lia)) as D. rewrite hd_atk, Z.sub_diag in D. change (0 + 1) with 1 in D.
    change (m_dQposDelta (set_states states f0)) with (m_dQposDelta f0). rewrite D, dk_0. cbn [mbind option_bind].
    pose proof (dk_range 1). pose proof (posf_range h Hw). rewrite cast_pos by lia. do 4 f_equal. lia. }
  cbn [mbind option_bind].
  pose proof (update_states_ok (set_states states f0) (posf h) (m_uQuerypos h) (delta_some _) (length (started h states)) (started h states) ltac:(lia)) as U.
  change (completes (set_states states f0)) with (completes f0) in U. change (keep (set_states states f0)) with (keep f0) in U.
  rewrite firstn_all, drop_all, app_nil_r in U. specialize (U (started_in p seen states h I)). rewrite (completes_ends p seen states h I Hp Hw) in U.
  destruct (phrase_ends atoms seen h) eqn:E.
  - destruct U as (l' & ->). exists []. split; [done|]. apply inv_new.
  - destruct U as (l' & -> & P). exists l'. split; [done|]. by apply (inv_step p seen states h).
Qed.

Lemma phrase_run hits : ∀ p seen states dHits, inv p seen states -> StronglySorted Z.le (p :: map posf hits) -> Forall (λ h, in_type DWORD (m_uHitpos h)) hits ->
  ∃ f', run_hits hits dHits (set_states states f0) = Some (negb (match phrase_ref f0 seen hits with [] => true | _ => false end), f', dHits ++ phrase_ref f0 seen hits).
Proof.
  induction hits as [|h hits IH]; intros p seen states dHits I So Fw; cbn [run_hits phrase_ref].
  { eexists. by rewrite app_nil_r. }
  apply Forall_cons in Fw as [Hw Fw]. cbn [map] in So. apply StronglySorted_cons in So as [Fp So]. apply Forall_cons in Fp as [Hp _].
  destruct (phrase_step p seen states h dHits I Hp Hw) as (states' & E & I'). cbn [fsm_hit phrase_fsm]. rewrite E. cbn [mbind option_bind].
  change (m_dAtomPos f0) with atoms. destruct (phrase_ends atoms seen h).
  - destruct (IH _ _ states' (dHits ++ [phrase_hit f0 h]) I' So Fw) as (f' & ->). cbn [mbind option_bind]. exists f'. by rewrite <- app_assoc.
  - destruct (IH _ _ states' dHits I' So Fw) as (f' & ->). cbn [mbind option_bind]. by exists f'.
Qed.

(** Some phrase is found exactly if one is there. *)
Lemma ref_found hits : ∀ p seen, (∀ base, ~ part seen (n - 1) base) -> (∀ x, x ∈ seen -> posf x <= p) -> StronglySorted Z.le (p :: map posf hits) ->
  (phrase_ref f0 seen hits <> [] <-> ∃ base, part (seen ++ hits) (n - 1) base).
Proof.
  induction hits as [|h hits IH]; intros p seen Hn Hs So; cbn [phrase_ref].
  { rewrite app_nil_r. split; [done|]. intros [base H]. by destruct (Hn base). }
  cbn [map] in So. apply StronglySorted_cons in So as [Fp So]. apply Forall_cons in Fp as [Hp _]. change (m_dAtomPos f0) with atoms.
  destruct (phrase_ends atoms seen h) eqn:E.
  - split; [|done]. intros _. apply phrase_ends_spec in E as [Eq P]. exists (posf h - dk (n - 1)). intros j Hj.
    apply has_spec. destruct (decide (j = n - 1)) as [->|Nj].
    + exists h. split; [apply elem_of_app; right; by left|]. split; [done|lia].
    + specialize (P j ltac:(lia)). apply has_spec in P as (x & Hx & ?). exists x. split; [apply elem_of_app; by left|done].
  - rewrite (IH (posf h) (seen ++ [h])); auto.
    + by rewrite <- app_assoc.
    + intros base P.
      assert (phrase_ends atoms seen h = true \/ part seen (n - 1) base) as [|P']; [|congruence|by destruct (Hn base)].
      destruct (has seen (at_k (n - 1)) (base + dk (n - 1))) eqn:Eh.
      * right. intros j Hj. specialize (P j Hj). rewrite has_app in P. apply orb_true_iff in P as [P|P]; [done|].
        destruct (decide (j = n - 1)) as [->|Nj]; [done|]. apply has_spec in Eh as (x & Hx & _ & Ex). specialize (Hs x Hx). pose proof (dk_lt j (n - 1)). lia.
      * left. pose proof (P (n - 1) ltac:(lia)) as Pl. rewrite has_app, Eh in Pl. cbn in Pl. apply phrase_ends_spec. split; [lia|]. intros j Hj.
        specialize (P j ltac:(lia)). rewrite has_app in P. pose proof (dk_lt j (n - 1)). replace (posf h - dk (n - 1)) with base by lia.
        apply orb_true_iff in P as [P|P]; [done|lia].
    + intros x Hx. apply elem_of_app in Hx as [Hx|Hx]; [specialize (Hs x Hx); lia|]. apply list_elem_of_singleton in Hx as ->. lia.
Qed.
End Phrase.

(** The words of a phrase stand at their places in the hits. *)
Definition phrase_in (atoms : list Z) (hits : list ExtHit_t) : Prop :=
  ∃ base, ∀ a, a ∈ atoms -> ∃ h, h ∈ hits /\ m_uQuerypos h = a /\ posf h = base + (a - hd 0 atoms).

(** Hits in order of their positions start above -1. *)
Lemma sorted_from hits : Forall (λ h, in_type DWORD (m_uHitpos h)) hits -> StronglySorted Z.le (map posf hits) -> StronglySorted Z.le (-1 :: map posf hits).
Proof.
  intros Hd So. apply StronglySorted_cons. split; [|done]. apply Forall_map. eapply Forall_impl; [exact Hd|]. intros h Hh. pose proof (posf_range h Hh). lia.
Qed.

(** The reference reports a phrase exactly if one is there. *)
Lemma ref_in atoms mask hits : StronglySorted Z.lt atoms -> (2 <= length atoms)%nat -> Forall (λ a, 0 <= a < 2 ^ 16) atoms ->
  Forall (λ h, in_type DWORD (m_uHitpos h)) hits -> StronglySorted Z.le (map posf hits) ->
  (phrase_ref (new_phrase atoms mask) [] hits <> [] <-> phrase_in atoms hits).
Proof.
  intros Hs H2 Hw Hd So. pose proof (sorted_from hits Hd So) as So'.
  pose proof (ref_found atoms mask Hs H2 Hw hits (-1) [] (inv_none _ _ _ _ (inv_new atoms H2 (-1))) (inv_pos _ _ _ _ (inv_new atoms H2 (-1))) So') as R. cbn [app] in R.
  assert (phrase_in atoms hits <-> ∃ base, part atoms hits (Z.of_nat (length atoms) - 1) base) as ->; [|done].
  unfold phrase_in. f_equiv. intros base. split.
  - intros H j Hj. apply has_spec. destruct (H (at_k atoms j)) as (h & ? & ? & ?); [apply (atk_in atoms H2); exists j; split; [lia|done]|].
    rewrite (hd_atk atoms Hs H2 Hw) in *. eauto.
  - intros H a Ha. apply (atk_in atoms H2) in Ha as (j & Hj & ->). specialize (H j ltac:(lia)). apply has_spec in H as (h & ? & ? & ?). rewrite (hd_atk atoms Hs H2 Hw). eauto.
Qed.

(** The phrase machine is exact: over the hits of a document in the order of
    their positions it emits the hits of the reference, which reports a phrase
    whenever its last word comes and all others were seen at their places since
    the last report; and it reports one exactly if the words of the phrase
    stand somewhere at their places. The words are two or more, at increasing
    positions of the query. *)
Theorem phrase_correct atoms mask hits : StronglySorted Z.lt atoms -> (2 <= length atoms)%nat -> Forall (λ a, 0 <= a < 2 ^ 16) atoms ->
  Forall (λ h, in_type DWORD (m_uHitpos h)) hits -> StronglySorted Z.le (map posf hits) ->
  ∃ b f', run_hits hits [] (new_phrase atoms mask) = Some (b, f', phrase_ref (new_phrase atoms mask) [] hits) /\ (b = true <-> phrase_in atoms hits).
Proof.
  intros Hs H2 Hw Hd So. pose proof (sorted_from hits Hd So) as So'.
  destruct (phrase_run atoms mask Hs H2 Hw hits (-1) [] [] [] (inv_new atoms H2 (-1)) So' Hd) as (f' & E). eexists _, f'. split; [exact E|].
  rewrite <- (ref_in atoms mask hits) by done. destruct (phrase_ref _ _ _); cbn; split; done.
Qed.

Lemma phrase_correct_witness : let hits := [hit 5 3 0; hit 5 4 1; hit 5 5 0; hit 5 6 1; hit 5 8 3] in
  ∃ b f', run_hits hits [] (new_phrase [0; 1; 3] true) = Some (b, f', phrase_ref (new_phrase [0; 1; 3] true) [] hits) /\ (b = true <-> phrase_in [0; 1; 3] hits).
Proof.
  intros hits. apply (phrase_correct [0; 1; 3] true hits).
  - repeat constructor; lia.
  - cbn; lia.
  - repeat constructor; lia.
  - repeat constructor; vm_compute; congruence.
  - vm_compute. repeat constructor; intros H; discriminate H.
Defined.
End PhraseOk.

(** * Words close to each other are found

    [FSMproximity_c] over the hits of a document, in order of their positions,
    reports the document exactly when some window holds every word of the
    query; it does so although it looks for words that are too far behind only
    when the first of them has to leave the window. *)

From stdpp Require Import sorting.
From S2P Require Import Prelude Hits Sort SortOk Phrase.
Import Hitman Phrase.

Module ProximityOk.

Abbreviation len l := (Z.of_nat (length l)).
Abbreviation there x := (x <> UINT_MAX).

Definition cnt (l : list Z) : nat := length (filter (λ x, there x) l).

#[local] Arguments cnt : simpl never.

Lemma cnt_cons x l : cnt (x :: l) = ((if decide (there x) then 1 else 0) + cnt l)%nat.
Proof. unfold cnt. rewrite filter_cons. by case_decide. Qed.

Lemma cnt_insert i x y l : l !! i = Some x ->
  (cnt (<[i := y]> l) + (if decide (there x) then 1 else 0) = cnt l + (if decide (there y) then 1 else 0))%nat.
Proof.
  revert i. induction l as [|z l IH]; intros i Hi; [done|]. destruct i as [|i].
  - injection Hi as ->. change (<[0%nat := y]> (x :: l)) with (y :: l). rewrite !cnt_cons. lia.
  - specialize (IH i Hi). change (<[S i := y]> (z :: l)) with (z :: <[i := y]> l). rewrite !cnt_cons. lia.
Qed.

Lemma cnt_none {A} (l : list A) : cnt (map (λ _, UINT_MAX) l) = O.
Proof. induction l as [|x l IH]; [done|]. cbn [map]. by rewrite cnt_cons, IH, decide_False by auto. Qed.

Lemma elem_insert {A} (i : nat) (x y : A) (l : list A) : y ∈ <[i := x]> l -> y = x \/ y ∈ l.
Proof.
  intros H. apply list_elem_of_lookup in H as [j Hj]. apply list_lookup_insert_Some in Hj as [(_ & <- & _)|[_ Hj]]; [by left|].
  right. by eapply list_elem_of_lookup_2.
Qed.

Lemma cnt_le l : (cnt l <= length l)%nat.
Proof. apply length_filter. Qed.

Lemma lt_NoDup (l : list Z) : StronglySorted Z.lt l -> NoDup l.
Proof.
  induction 1 as [|a l _ IH F]; [apply NoDup_nil_2|]. apply NoDup_cons. split; [|done]. rewrite Forall_forall in F. intros H. specialize (F a H). lia.
Qed.

(** ** The scan *)

(** What is left of an entry when the window starts after [m]. *)
Definition cut (m x : Z) : Z := if (x =? UINT_MAX) || (x <=? m) then UINT_MAX else x.

Lemma cut_there m x : there (cut m x) <-> there x /\ m < x.
Proof. unfold cut. destruct (Z.eqb_spec x UINT_MAX), (Z.leb_spec x m); cbn; split; intros; try lia; done. Qed.

Lemma cut_eq m x : there (cut m x) -> cut m x = x.
Proof. unfold cut. by case_match. Qed.

(** The scan keeps the entries of the window and ends on the first of them. *)
Lemma prox_scan_ok m : ∀ l i s, -2 ^ 31 <= m -> (∀ x, x ∈ l -> there x -> 0 <= x < 2 ^ 31) -> Z.of_nat (cnt l) <= s_uWords s < 2 ^ 32 ->
  ∃ s', prox_scan i m l s = (map (cut m) l, s') /\ s_uWords s' = s_uWords s - Z.of_nat (cnt l) + Z.of_nat (cnt (map (cut m) l)) /\
    s_uHitpos s' <= s_uHitpos s /\ (∀ x, x ∈ map (cut m) l -> there x -> s_uHitpos s' <= x) /\
    ((s_iMinQindex s' = s_iMinQindex s /\ s_uHitpos s' = s_uHitpos s) \/
     ∃ k, s_iMinQindex s' = i + Z.of_nat k /\ map (cut m) l !! k = Some (s_uHitpos s') /\ there (s_uHitpos s')).
Proof.
  induction l as [|x l IH]; intros i s Hm Hr Hw.
  { exists s. split; [done|]. split; [cbn; lia|]. split; [lia|]. split; [intros x Hx; by apply elem_of_nil in Hx|by left]. }
  cbn [prox_scan map]. rewrite !cnt_cons in *.
  assert (∃ s1, (if x =? UINT_MAX then (x, s) else if cast int32_t x <=? m then (UINT_MAX, Scan (cast DWORD (s_uWords s - 1)) (s_iMinQindex s) (s_uHitpos s))
     else if x <? s_uHitpos s then (x, Scan (s_uWords s) i x) else (x, s)) = (cut m x, s1) /\
    s_uWords s1 = s_uWords s - (if decide (there x) then 1 else 0) + (if decide (there (cut m x)) then 1 else 0) /\
    s_uHitpos s1 <= s_uHitpos s /\ (there (cut m x) -> s_uHitpos s1 <= cut m x) /\
    ((s_iMinQindex s1 = s_iMinQindex s /\ s_uHitpos s1 = s_uHitpos s) \/ (s_iMinQindex s1 = i /\ s_uHitpos s1 = cut m x /\ there (cut m x))))
    as (s1 & -> & W1 & L1 & B1 & M1).
  { unfold cut. destruct (Z.eqb_spec x UINT_MAX) as [->|N]; cbn [orb].
    - exists s. rewrite !decide_False by auto. repeat split; auto; first [lia|intros []; done].
    - pose proof (Hr x ltac:(by left) N) as R. rewrite cast_id by (done || (unfold in_type; cbn; lia)). rewrite (decide_True _ _ N) in Hw. rewrite (decide_True _ _ N).
      destruct (Z.leb_spec x m).
      + eexists. split; [reflexivity|]. cbn [s_uWords s_uHitpos s_iMinQindex]. rewrite decide_False by auto.
        rewrite cast_id by (done || (unfold in_type; cbn; lia)). repeat split; auto; lia.
      + rewrite (decide_True _ _ N). destruct (Z.ltb_spec x (s_uHitpos s)); eexists; (split; [reflexivity|]); cbn; repeat split; auto; lia. }
  pose proof (proj1 (cut_there m x)) as Ct.
  destruct (IH (i + 1) s1) as (s2 & -> & W2 & L2 & B2 & M2); [done|intros; apply Hr; [by right|done]|repeat case_decide; first [lia|tauto]|].
  exists s2. split; [done|]. split; [repeat case_decide; lia|]. split; [lia|]. split.
  - intros y Hy Hty. apply elem_of_cons in Hy as [->|Hy]; [specialize (B1 Hty); lia|auto].
  - destruct M2 as [[E1 E2]|(k & E1 & E2 & E3)].
    + destruct M1 as [[? ?]|(F1 & F2 & F3)]; [left; lia|right]. exists 0%nat. cbn. rewrite E1, E2, F2. split; [lia|]. done.
    + right. exists (S k). split; [lia|done].
Qed.

(** ** The window *)

Section Window.
Context (atoms : list Z) (D : Z) (mask : bool).
Hypothesis atoms_sorted : StronglySorted Z.lt atoms.
Hypothesis atoms_one : atoms <> [].
Hypothesis atoms_word : Forall (λ a, 0 <= a < 2 ^ 16) atoms.
Hypothesis D_pos : 0 < D < 2 ^ 30.

Abbreviation a0 := (hd 0 atoms).
Abbreviation qlen := (List.last atoms 0 - hd 0 atoms).
Abbreviation W := (qlen + D).
Definition ix (a : Z) : nat := Z.to_nat (a - a0).

Lemma atoms_between a : a ∈ atoms -> a0 <= a <= List.last atoms 0.
Proof.
  clear atoms_word. revert a. induction atoms as [|x l IH]; [done|]. apply StronglySorted_cons in atoms_sorted as [F S]. rewrite Forall_forall in F. cbn [hd].
  intros a H. destruct l as [|y l]; [apply list_elem_of_singleton in H as ->; cbn; lia|]. specialize (IH S ltac:(done)).
  change (List.last (x :: y :: l) 0) with (List.last (y :: l) 0). pose proof (F y ltac:(by left)). apply elem_of_cons in H as [->|H].
  - pose proof (IH y ltac:(by left)). cbn [hd] in *. lia.
  - specialize (IH a H). cbn [hd] in *. lia.
Qed.

Lemma last_in : List.last atoms 0 ∈ atoms.
Proof.
  clear -atoms_one. induction atoms as [|x [|y l] IH]; [done|by left|]. right. apply IH. done.
Qed.

Lemma qlen_range : 0 <= qlen < 2 ^ 16.
Proof.
  pose proof (atoms_between _ last_in). rewrite Forall_forall in atoms_word. pose proof (atoms_word _ last_in).
  assert (a0 ∈ atoms) as Ha by (destruct atoms; [done|by left]). pose proof (atoms_word _ Ha). lia.
Qed.

(** What the machine keeps after hits up to the position [p]. *)
Record pinv (p : Z) (f : FSMproximity_c) : Prop := {
  x_D : m_iMaxDistance f = D;
  x_exp : m_uWordsExpected f = len atoms;
  x_min : m_uMinQpos f = a0;
  x_qlen : m_uQLen f = qlen;
  x_len : len (m_dProx f) = qlen + 1;
  x_ent : ∀ i x, m_dProx f !! i = Some x -> there x -> 0 <= x <= p /\ a0 + Z.of_nat i ∈ atoms;
  x_words : m_uWords f = Z.of_nat (cnt (m_dProx f));
  x_first : m_uExpPos f = 0 \/ ∃ m, 0 <= m_iMinQindex f /\ m_dProx f !! Z.to_nat (m_iMinQindex f) = Some m /\ there m /\
    m_uExpPos f = m + W /\ ∀ x, x ∈ m_dProx f -> there x -> m <= x }.

(** The window moved to the hit [h]. *)
Definition moved (h : ExtHit_t) (l : list Z) : list Z := map (cut (posf h - W)) (<[ix (m_uQuerypos h) := posf h]> l).

Lemma new_pinv : pinv (-1) (prox_Reset (new_proximity D atoms mask)).
Proof.
  pose proof qlen_range. assert (cast DWORD qlen = qlen) as C by (apply cast_id; [done|]; unfold in_type; cbn; lia).
  unfold new_proximity. rewrite C. split; cbn; auto.
  - rewrite length_map, length_replicate. lia.
  - intros i x Hx Ht. rewrite list_lookup_fmap in Hx. apply fmap_Some in Hx as (y & _ & ->). done.
  - exact (f_equal Z.of_nat (eq_sym (cnt_none _))).
Qed.

Lemma insert_pinv p f h x : pinv p f -> m_uQuerypos h ∈ atoms -> m_dProx f !! ix (m_uQuerypos h) = Some x -> 0 <= posf h < 2 ^ 31 ->
  (if x =? UINT_MAX then cast DWORD (m_uWords f + 1) else m_uWords f) = Z.of_nat (cnt (<[ix (m_uQuerypos h) := posf h]> (m_dProx f))).
Proof.
  intros I Hq Hx Hp. pose proof (cnt_insert _ x (posf h) _ Hx) as C. assert (there (posf h)) as Ht by (unfold UINT_MAX; lia). rewrite (decide_True _ _ Ht) in C.
  pose proof qlen_range. pose proof (x_len _ _ I). pose proof (cnt_le (m_dProx f)). rewrite (x_words _ _ I). destruct (Z.eqb_spec x UINT_MAX) as [->|N].
  - rewrite decide_False in C by auto. rewrite cast_id by (done || (unfold in_type; cbn; lia)). lia.
  - rewrite decide_True in C by done. lia.
Qed.

Lemma prox_update_ok p f h : pinv p f -> m_uQuerypos h ∈ atoms -> p <= posf h -> 0 <= posf h < 2 ^ 31 - 2 ^ 17 ->
  ∃ f', prox_update h f = Some f' /\ pinv (posf h) f' /\ m_uExpPos f' <> 0 /\ m_dProx f' = moved h (m_dProx f).
Proof.
  intros I Hq Hpp Hp. pose proof (atoms_between _ Hq) as Hb. pose proof qlen_range as Hl. pose proof (x_len _ _ I) as L.
  set (q := m_uQuerypos h) in *. set (P := posf h) in *. assert (ix q < length (m_dProx f))%nat as Hi by (unfold ix; lia).
  destruct (lookup_lt_is_Some_2 _ _ Hi) as [x Hx]. unfold prox_update. rewrite (x_min _ _ I), (x_D _ _ I), (x_qlen _ _ I). fold q P.
  assert (Sort.at_ (m_dProx f) (q - a0) = Some x) as -> by (unfold Sort.at_; by rewrite (proj2 (Z.leb_le _ _)) by lia). cbn [mbind option_bind]. fold (ix q).
  rewrite (insert_pinv p f h x I Hq Hx) by (fold P; lia). fold q P. set (l := <[ix q := P]> (m_dProx f)).
  assert (∀ i y, l !! i = Some y -> there y -> 0 <= y <= P /\ a0 + Z.of_nat i ∈ atoms) as Ent.
  { intros i y Hy Ht. unfold l in Hy. apply list_lookup_insert_Some in Hy as [(<- & <- & _)|[_ Hy]].
    - split; [lia|]. unfold ix. replace (a0 + Z.of_nat (Z.to_nat (q - a0))) with q by lia. done.
    - destruct (x_ent _ _ I i y Hy Ht). split; [lia|done]. }
  assert (length l = length (m_dProx f)) as Ll by apply length_insert.
  destruct ((P >=? m_uExpPos f) || (q - a0 =? m_iMinQindex f)) eqn:E.
  - rewrite (cast_id int32_t (P - qlen - D)) by (done || (unfold in_type; cbn; lia)). replace (P - qlen - D) with (P - W) by lia.
    destruct (prox_scan_ok (P - W) l 0 (Scan (Z.of_nat (cnt l)) (q - a0) P)) as (s & -> & Ws & Ls & Bs & Ms).
    { lia. } { intros y Hy Ht. apply list_elem_of_lookup in Hy as [i Hy]. destruct (Ent i y Hy Ht). lia. } { cbn. pose proof (cnt_le l). lia. }
    cbn [s_uWords s_iMinQindex s_uHitpos] in *. set (l' := map (cut (P - W)) l) in *.
    assert (0 <= s_iMinQindex s /\ l' !! Z.to_nat (s_iMinQindex s) = Some (s_uHitpos s) /\ there (s_uHitpos s)) as (S0 & S1 & S2).
    { destruct Ms as [[-> ->]|(k & -> & Hk & Ht)].
      - split; [lia|]. fold (ix q). unfold l', l. rewrite list_lookup_fmap, list_lookup_insert_eq by done. cbn [fmap option_fmap option_map].
        assert (there (cut (P - W) P)) as C by (apply cut_there; unfold UINT_MAX; lia). rewrite (cut_eq _ _ C). split; [done|]. unfold UINT_MAX. lia.
      - rewrite Z.add_0_l, Nat2Z.id. split; [lia|done]. }
    unfold Sort.at_. rewrite (proj2 (Z.leb_le _ _) S0), S1. cbn [mbind option_bind]. eexists. split; [reflexivity|].
    assert (0 <= s_uHitpos s <= P) as Rm.
    { unfold l' in S1. rewrite list_lookup_fmap in S1. apply fmap_Some in S1 as (y & Hy & Ey). rewrite Ey in S2. pose proof (cut_eq _ _ S2) as Ec. apply cut_there in S2 as [Ty _].
      destruct (Ent _ y Hy Ty). lia. }
    rewrite cast_id by (done || (unfold in_type; cbn; lia)).
    split; [|split; [cbn; lia|done]]. split; cbn; try (by apply I); auto.
    + unfold l'. rewrite length_map. lia.
    + intros i y Hy Ht. unfold l' in Hy. rewrite list_lookup_fmap in Hy. apply fmap_Some in Hy as (z & Hz & ->). pose proof (cut_eq _ _ Ht) as Ez.
      apply cut_there in Ht as [Tz _]. rewrite Ez. by apply Ent.
    + lia.
    + right. exists (s_uHitpos s). split; [done|]. split; [done|]. split; [done|]. split; [lia|auto].
  - apply orb_false_iff in E as [E1 E2]. destruct (x_first _ _ I) as [F|(m & M0 & Hm & Tm & Fm & Mm)]; [lia|]. rewrite Fm in E1.
    eexists. split; [reflexivity|].
    assert (moved h (m_dProx f) = l) as Em.
    { unfold moved. fold q P l. rewrite <- (map_id l) at 2. apply map_ext_in. intros y Hy. apply list_elem_of_In in Hy. destruct (decide (there y)) as [Ty|Ty].
      - apply cut_eq, cut_there. split; [done|]. unfold l in Hy. apply elem_insert in Hy as [->|Hy]; [lia|]. specialize (Mm y Hy Ty). lia.
      - unfold cut. assert (y = UINT_MAX) as -> by lia. done. }
    split; [|split; [cbn; pose proof (x_ent _ _ I _ m Hm Tm); lia|by rewrite Em]]. split; cbn; try (by apply I); auto.
    + unfold l. rewrite length_insert. apply I.
    + right. exists m. split; [done|]. split; [|split; [done|split; [done|]]].
      * unfold l. rewrite list_lookup_insert_ne; [done|]. unfold ix. lia.
      * intros y Hy Ty. unfold l in Hy. apply elem_insert in Hy as [->|Hy]; [|auto]. pose proof (x_ent _ _ I _ m Hm Tm). lia.
Qed.

(** The words in the window, counted over the query. *)
Lemma cnt_atoms p f : pinv p f -> cnt (m_dProx f) = length (filter (λ a, there (m_dProx f !!! ix a)) atoms).
Proof.
  intros I. pose proof (x_len _ _ I) as L. pose proof qlen_range as Hl. set (l := m_dProx f) in *.
  assert (l = map (λ a, l !!! ix a) (seqZ a0 (qlen + 1))) as E.
  { apply list_eq_same_length with (n := length l); [rewrite length_map, length_seqZ; lia|done|]. intros i x y Hi Hx Hy.
    rewrite list_lookup_fmap in Hy. apply fmap_Some in Hy as (a & Ha & ->). apply lookup_seqZ in Ha as [-> _]. unfold ix.
    replace (Z.to_nat (a0 + Z.of_nat i - a0)) with i by lia. by rewrite (list_lookup_total_correct _ _ _ Hx). }
  transitivity (length (filter (λ a, there (l !!! ix a)) (seqZ a0 (qlen + 1)))).
  { unfold cnt. rewrite E at 1. generalize (seqZ a0 (qlen + 1)). intros s. induction s as [|a s IH]; [done|]. cbn [map]. rewrite !filter_cons.
    case_decide; cbn [length]; by rewrite IH. }
  apply Permutation_length, NoDup_Permutation.
  - apply NoDup_filter, NoDup_seqZ.
  - by apply NoDup_filter, lt_NoDup.
  - intros a. rewrite !list_elem_of_filter, elem_of_seqZ. split.
    + intros [Ht Ha]. split; [done|]. pose proof (list_lookup_lookup_total_lt l (ix a) ltac:(unfold ix; lia)) as Hx.
      destruct (x_ent _ _ I _ _ Hx Ht) as [_ Hin]. unfold ix in Hin. by replace (a0 + Z.of_nat (Z.to_nat (a - a0))) with a in Hin by lia.
    + intros [Ht Ha]. split; [done|]. pose proof (atoms_between _ Ha). lia.
Qed.

Lemma all_words_in p f : pinv p f -> (m_uWords f = m_uWordsExpected f <-> ∀ a, a ∈ atoms -> there (m_dProx f !!! ix a)).
Proof.
  intros I. rewrite (x_words _ _ I), (x_exp _ _ I), (cnt_atoms p f I). split.
  - intros E a Ha. destruct (decide (there (m_dProx f !!! ix a))) as [|N]; [done|].
    pose proof (length_filter_lt (λ a, there (m_dProx f !!! ix a)) atoms a Ha N). lia.
  - intros H. f_equal. f_equal. clear -H. induction atoms as [|a s IH]; [done|]. rewrite filter_cons_True by (apply H; by left).
    f_equal. apply IH. intros b Hb. apply H. by right.
Qed.

(** ** Emitting a hit *)

Lemma prox_hit_ok p f h m : pinv p f -> is_Some (prox_hit f h m).
Proof.
  intros I. pose proof (x_len _ _ I). pose proof qlen_range. unfold prox_hit.
  destruct (SortOk.sort_ok Z.ltb ltac:(intros; lia) ltac:(unfold SortOk.le; intros; lia) (prox_deltas (m_dProx f))) as (l & -> & _ & _).
  { unfold prox_deltas. rewrite length_imap. lia. }
  cbn [mbind option_bind]. eauto.
Qed.

(** After a hit the window is that of its position; a match drops its first word. *)
Lemma prox_hit_step p f h dHits : pinv p f -> m_uQuerypos h ∈ atoms -> p <= posf h -> 0 <= posf h < 2 ^ 31 - 2 ^ 17 ->
  ∃ b f' dHits', prox_HitFSM h dHits f = Some (b, f', dHits') /\ pinv (posf h) f' /\
    (b = true <-> ∀ a, a ∈ atoms -> there (moved h (m_dProx f) !!! ix a)) /\
    (b = false -> m_dProx f' = moved h (m_dProx f)).
Proof.
  intros I Hq Hpp Hp. destruct (prox_update_ok p f h I Hq Hpp Hp) as (f1 & E1 & I1 & N1 & P1). unfold prox_HitFSM. rewrite E1. cbn [mbind option_bind].
  pose proof (all_words_in _ _ I1) as Aw. rewrite P1 in Aw. destruct (Z.eqb_spec (m_uWords f1) (m_uWordsExpected f1)) as [Ew|Ew]; cbn [negb].
  2:{ eexists _, _, _. split; [reflexivity|]. split; [done|]. split; [|done]. split; [done|]. tauto. }
  destruct (x_first _ _ I1) as [F|(m & M0 & Hm & Tm & _)]; [done|].
  assert (Sort.at_ (m_dProx f1) (m_iMinQindex f1) = Some m) as -> by (unfold Sort.at_; by rewrite (proj2 (Z.leb_le _ _) M0)). cbn [mbind option_bind].
  destruct (prox_hit_ok _ f1 h m I1) as [t ->]. cbn [mbind option_bind]. eexists _, _, _. split; [reflexivity|]. split; [|split; [tauto|done]].
  pose proof (cnt_insert _ m UINT_MAX _ Hm) as C. rewrite (decide_True _ _ Tm), decide_False in C by auto.
  pose proof (cnt_le (m_dProx f1)). pose proof (x_len _ _ I1). pose proof qlen_range. pose proof (x_words _ _ I1) as Xw.
  rewrite (cast_id DWORD (m_uWords f1 - 1)) by (done || (unfold in_type; cbn; lia)). split; cbn; try (by apply I1); auto.
  - rewrite length_insert. apply I1.
  - intros i x Hx Ht. apply list_lookup_insert_Some in Hx as [(_ & <- & _)|[_ Hx]]; [done|]. by apply (x_ent _ _ I1).
  - lia.
Qed.

(** ** The hits seen *)

(** The window holds the last positions of the words seen in it. *)
Definition synced (p : Z) (seen : list ExtHit_t) (l : list Z) : Prop :=
  ∀ a, a ∈ atoms -> (there (l !!! ix a) -> ∃ g, g ∈ seen /\ m_uQuerypos g = a /\ posf g = l !!! ix a /\ p - W < posf g) /\
    (∀ g, g ∈ seen -> m_uQuerypos g = a -> p - W < posf g -> there (l !!! ix a) /\ posf g <= l !!! ix a).

Lemma moved_at h l a : len l = qlen + 1 -> a ∈ atoms -> m_uQuerypos h ∈ atoms ->
  moved h l !!! ix a = cut (posf h - W) (if decide (a = m_uQuerypos h) then posf h else l !!! ix a).
Proof.
  intros L Ha Hq. pose proof (atoms_between _ Ha). pose proof (atoms_between _ Hq). unfold moved.
  etransitivity; [apply (list_lookup_total_fmap (cut (posf h - W)) (<[ix (m_uQuerypos h) := posf h]> l) (ix a)); rewrite length_insert; unfold ix; lia|].
  f_equal. case_decide as E.
  - subst a. apply list_lookup_total_insert_eq. unfold ix. lia.
  - apply list_lookup_total_insert_ne. unfold ix. lia.
Qed.

Lemma synced_step p seen h l : len l = qlen + 1 -> m_uQuerypos h ∈ atoms -> p <= posf h -> 0 <= posf h < 2 ^ 31 -> synced p seen l ->
  (∀ g, g ∈ seen -> posf g <= p) -> synced (posf h) (seen ++ [h]) (moved h l).
Proof.
  intros L Hq Hpp Hp S Hs a Ha. pose proof qlen_range as Hl. destruct (S a Ha) as [S1 S2]. rewrite moved_at by done.
  assert (there (posf h)) as Th by (unfold UINT_MAX; lia). split.
  - intros Ht. pose proof (cut_eq _ _ Ht) as E. apply cut_there in Ht as [Tx Wx]. rewrite E. case_decide as Ea.
    + exists h. split; [apply elem_of_app; right; by left|]. split; [done|]. split; [done|lia].
    + destruct (S1 Tx) as (g & Hg & Eq & Ep & _). exists g. split; [apply elem_of_app; by left|]. split; [done|]. split; [done|]. lia.
  - intros g Hg Eq Wg. assert (∀ x, there x -> posf g <= x -> there (cut (posf h - W) x) /\ posf g <= cut (posf h - W) x) as Keep.
    { intros x Tx Hx. assert (there (cut (posf h - W) x)) as T by (apply cut_there; split; [done|lia]). split; [done|]. by rewrite (cut_eq _ _ T). }
    apply elem_of_app in Hg as [Hg|Hg].
    + specialize (Hs g Hg). case_decide; [apply Keep; [done|lia]|]. destruct (S2 g Hg Eq) as [T1 T2]; [lia|]. by apply Keep.
    + apply list_elem_of_singleton in Hg as ->. rewrite decide_True by done. apply Keep; [done|lia].
Qed.

(** Every word has a hit in the window that ends at [p]. *)
Definition window (hits : list ExtHit_t) (p : Z) : Prop := ∀ a, a ∈ atoms -> ∃ g, g ∈ hits /\ m_uQuerypos g = a /\ p - W < posf g <= p.

Definition good_hit (h : ExtHit_t) : Prop := m_uQuerypos h ∈ atoms /\ 0 <= posf h < 2 ^ 31 - 2 ^ 17.

Lemma prox_total hits : ∀ p f dHits, pinv p f -> StronglySorted Z.le (p :: map posf hits) -> Forall good_hit hits -> is_Some (run_hits hits dHits f).
Proof.
  induction hits as [|h hits IH]; intros p f dHits I So Fg; cbn [run_hits]; [eauto|].
  cbn [map] in So. apply StronglySorted_cons in So as [Fp So]. apply Forall_cons in Fp as [Hp _]. apply Forall_cons in Fg as [[Hq Hr] Fg].
  destruct (prox_hit_step p f h dHits I Hq Hp Hr) as (b & f' & d' & E & I' & _). cbn [fsm_hit proximity_fsm]. rewrite E. cbn [mbind option_bind].
  destruct (IH _ f' d' I' So Fg) as [[[b' f''] d''] ->]. cbn. eauto.
Qed.

Lemma prox_run hits : ∀ p seen f dHits, pinv p f -> synced p seen (m_dProx f) -> (∀ g, g ∈ seen -> posf g <= p) ->
  StronglySorted Z.le (p :: map posf hits) -> Forall good_hit hits ->
  ∃ b f' d', run_hits hits dHits f = Some (b, f', d') /\
    (b = true <-> ∃ l1 h l2, hits = l1 ++ h :: l2 /\ window (seen ++ l1 ++ [h]) (posf h)).
Proof.
  induction hits as [|h hits IH]; intros p seen f dHits I Sy Hs So Fg; cbn [run_hits].
  { eexists _, _, _. split; [reflexivity|]. split; [done|]. intros (l1 & h & l2 & E & _). by destruct l1. }
  cbn [map] in So. apply StronglySorted_cons in So as [Fp So]. apply Forall_cons in Fp as [Hp _]. apply Forall_cons in Fg as [[Hq Hr] Fg].
  destruct (prox_hit_step p f h dHits I Hq Hp Hr) as (b & f' & d' & E & I' & Hb & Hf). cbn [fsm_hit proximity_fsm]. rewrite E. cbn [mbind option_bind].
  pose proof (synced_step p seen h (m_dProx f) (x_len _ _ I) Hq Hp ltac:(lia) Sy Hs) as Sy'.
  assert (∀ g, g ∈ seen ++ [h] -> posf g <= posf h) as Hs'.
  { intros g Hg. apply elem_of_app in Hg as [Hg|Hg]; [specialize (Hs g Hg); lia|]. apply list_elem_of_singleton in Hg as ->. lia. }
  assert (b = true <-> window (seen ++ [h]) (posf h)) as Hw.
  { rewrite Hb. unfold window. split; intros H a Ha; specialize (H a Ha); destruct (Sy' a Ha) as [S1 S2].
    - destruct (S1 H) as (g & Hg & ? & _ & ?). exists g. split; [done|]. split; [done|]. specialize (Hs' g Hg). lia.
    - destruct H as (g & Hg & Eq & Wg). apply (S2 g); [done|done|lia]. }
  destruct b.
  - destruct (prox_total hits _ f' d' I' So Fg) as [[[b' f''] d''] ->]. cbn. eexists _, _, _. split; [reflexivity|]. split; [|done]. intros _.
    exists [], h, hits. split; [done|]. exact (proj1 Hw eq_refl).
  - destruct (IH _ (seen ++ [h]) f' d' I') as (b' & f'' & d'' & -> & Hb'); auto; [by rewrite Hf|].
    cbn. eexists _, _, _. split; [reflexivity|]. rewrite Hb'. split.
    + intros (l1 & g & l2 & -> & Wg). exists (h :: l1), g, l2. split; [done|]. by rewrite <- app_assoc in Wg.
    + intros (l1 & g & l2 & Eg & Wg). destruct l1 as [|h' l1]; [|injection Eg as <- ->; exists l1, g, l2; split; [done|]; by rewrite <- app_assoc].
      injection Eg as <- <-. discriminate (proj2 Hw Wg).
Qed.

Lemma sorted_split p hits : StronglySorted Z.le (map posf hits) ->
  ∃ l1 l2, hits = l1 ++ l2 /\ (∀ g, g ∈ l1 -> posf g <= p) /\ (∀ g, g ∈ l2 -> p < posf g).
Proof.
  induction hits as [|h hits IH]; intros So; cbn [map] in So.
  { exists [], []. split; [done|]. split; intros g Hg; by apply elem_of_nil in Hg. }
  apply StronglySorted_cons in So as [F So]. destruct (decide (posf h <= p)) as [H|H].
  - destruct (IH So) as (l1 & l2 & -> & H1 & H2). exists (h :: l1), l2. split; [done|]. split; [|done].
    intros g Hg. apply elem_of_cons in Hg as [->|Hg]; auto.
  - exists [], (h :: hits). split; [done|]. split; [intros g Hg; by apply elem_of_nil in Hg|]. intros g Hg. apply elem_of_cons in Hg as [->|Hg]; [lia|].
    rewrite Forall_forall in F. specialize (F (posf g)). rewrite list_elem_of_fmap in F. specialize (F ltac:(eauto)). lia.
Qed.

Lemma window_split hits : StronglySorted Z.le (map posf hits) ->
  ((∃ l1 h l2, hits = l1 ++ h :: l2 /\ window (l1 ++ [h]) (posf h)) <-> ∃ p, window hits p).
Proof.
  intros So. split.
  - intros (l1 & h & l2 & -> & H). exists (posf h). intros a Ha. destruct (H a Ha) as (g & Hg & ?). exists g. split; [|done].
    apply elem_of_app in Hg as [Hg|Hg]; apply elem_of_app; [by left|right]. apply list_elem_of_singleton in Hg as ->. by left.
  - intros [p H]. destruct (sorted_split p hits So) as (l1 & l2 & E & H1 & H2). subst hits.
    assert (∀ a, a ∈ atoms -> ∃ g, g ∈ l1 /\ m_uQuerypos g = a /\ p - W < posf g) as G.
    { intros a Ha. destruct (H a Ha) as (g & Hg & Eq & Wg). exists g. split; [|split; [done|lia]]. apply elem_of_app in Hg as [Hg|Hg]; [done|].
      specialize (H2 g Hg). lia. }
    destruct (decide (l1 = [])) as [->|N].
    { destruct (G a0) as (g & Hg & _); [destruct atoms; [done|by left]|]. by apply elem_of_nil in Hg. }
    destruct (exists_last N) as (l0 & h & ->). exists l0, h, l2. split; [by rewrite <- app_assoc|]. intros a Ha. destruct (G a Ha) as (g & Hg & Eq & Wg).
    exists g. split; [done|]. split; [done|]. specialize (H1 h ltac:(apply elem_of_app; right; by left)). split; [lia|].
    apply elem_of_app in Hg as [Hg|Hg]; [|apply list_elem_of_singleton in Hg as ->; lia].
    rewrite !map_app in So. apply StronglySorted_app_1_l in So.
    apply (StronglySorted_app_1_elem_of Z.le (map posf l0) (map posf [h]) _ _ So); [apply list_elem_of_fmap; eauto|by left].
Qed.
End Window.

(** [C17] The proximity machine is exact: over the hits of a document in the
    order of their positions it never fails, and it reports the document
    exactly if some window of positions, as long as the query and the distance
    together, holds a hit of every word. The machine drops words only when it
    has to; positions are in fields below the 128th. *)
Theorem proximity_correct atoms D mask hits : StronglySorted Z.lt atoms -> atoms <> [] -> Forall (λ a, 0 <= a < 2 ^ 16) atoms -> 0 < D < 2 ^ 30 ->
  Forall (good_hit atoms) hits -> StronglySorted Z.le (map posf hits) ->
  ∃ b f' out, run_hits hits [] (prox_Reset (new_proximity D atoms mask)) = Some (b, f', out) /\
    (b = true <-> ∃ p, ∀ a, a ∈ atoms -> ∃ h, h ∈ hits /\ m_uQuerypos h = a /\ p - (List.last atoms 0 - hd 0 atoms + D) < posf h <= p).
Proof.
  intros Hs H1 Hw HD Hg So. assert (StronglySorted Z.le (-1 :: map posf hits)) as So'.
  { apply StronglySorted_cons. split; [|done]. apply Forall_map. eapply Forall_impl; [exact Hg|]. intros h [_ Hh]. lia. }
  pose proof (new_pinv atoms D mask Hs H1 Hw) as I.
  destruct (prox_run atoms D Hs H1 Hw HD hits (-1) [] _ [] I) as (b & f' & d & E & Hb); auto.
  - intros a Ha. split; [|intros g Hx; by apply elem_of_nil in Hx]. intros Ht. exfalso. apply Ht. cbn.
    pose proof (qlen_range atoms Hs H1 Hw). pose proof (atoms_between atoms Hs H1 a Ha). pose proof (x_len _ _ _ _ I) as L. cbn in L. rewrite length_map in L.
    etransitivity; [apply (list_lookup_total_fmap (λ _ : Z, UINT_MAX)); unfold ix; lia|done].
  - intros g Hx. by apply elem_of_nil in Hx.
  - exists b, f', d. split; [done|]. rewrite Hb. cbn [app]. by apply window_split.
Qed.

Lemma proximity_correct_witness : let hits := [hit 5 3 0; hit 5 14 1; hit 5 15 0] in
  ∃ b f' out, run_hits hits [] (prox_Reset (new_proximity 3 [0; 1] true)) = Some (b, f', out) /\
    (b = true <-> ∃ p, ∀ a, a ∈ [0; 1] -> ∃ h, h ∈ hits /\ m_uQuerypos h = a /\ p - (1 - 0 + 3) < posf h <= p).
Proof.
  intros hits. apply (proximity_correct [0; 1] 3 true hits).
  - repeat constructor; lia.
  - intros H; discriminate H.
  - repeat constructor; lia.
  - lia.
  - repeat constructor; vm_compute; congruence.
  - vm_compute. repeat constructor; intros H; discriminate H.
Defined.

(** From the 128th field on positions are negative numbers in the
    comparison with the start of the window: a word in the field 127 is not
    dropped when the next word comes in the field 128, and a distance of 5 is
    matched by two words in different fields. *)
Theorem proximity_joins_fields : let hits := [hit 5 (Create 127 5 false) 0; hit 5 (Create 128 100 false) 1] in
  StronglySorted Z.le (map posf hits) /\
  (run_hits hits [] (prox_Reset (new_proximity 5 [0; 1] false)) ≫= λ x, Some x.1.1) = Some true /\
  ~ ∃ p, ∀ a, a ∈ [0; 1] -> ∃ h, h ∈ hits /\ m_uQuerypos h = a /\ p - 6 < posf h <= p.
Proof.
  split; [vm_compute; repeat constructor; intros H; discriminate H|]. split; [vm_compute; reflexivity|].
  intros [p H]. destruct (H 0 ltac:(by left)) as (h0 & H0 & E0 & W0). destruct (H 1 ltac:(by right; left)) as (h1 & H1 & E1 & W1).
  rewrite !elem_of_cons, elem_of_nil in H0, H1. destruct H0 as [->|[->|[]]]; [|discriminate E0]. destruct H1 as [->|[->|[]]]; [discriminate E1|].
  assert (posf (hit 5 (Create 127 5 false) 0) = 2130706437) as X by (vm_compute; reflexivity).
  assert (posf (hit 5 (Create 128 100 false) 1) = 2147483748) as Y by (vm_compute; reflexivity). lia.
Qed.
End ProximityOk.
