(* ===== verification/HitNode.v ===== *)
(** * Hits of the streamers (src/src/searchnode.cpp)

    A streamer hands out documents in chunks and, when it is asked, the hits of
    documents it has handed out ([GetHits]). This file has the hits of keywords
    ([ExtTerm_T::CollectHits]) and of AND nodes ([ExtAnd_c::CollectHits]), and
    [ExtNWay_T], the node that runs a phrase or proximity machine over the hits
    of its AND node. *)

From S2P Require Import Prelude Hits SearchNode ExtTerm Sort Phrase.
Import Hitman FieldMask SearchNode ExtTerm Phrase.

Module HitNode.

(** [GetHits]; the end of the hits has no element here. *)
Class HitNode (S : Type) := { GetHits : docptr -> S -> option (list ExtHit_t * S) }.

(** ** Keywords *)

(** A bound on the hits of a document; it is not in the source. *)
Class HitBound (Q : Type) := { hitwork : Q -> nat }.

Section Term.
Context {Q : Type} {I : ISphQword Q} {B : HitBound Q}.
Abbreviation term := (ExtTerm_T Q).

(** [GetNextHit] until it returns [EMPTY_HIT]. *)
Fixpoint read_hits (fuel : nat) (q : Q) : option (list Z * Q) :=
  match fuel with
  | O => None
  | S fuel' =>
      let '(uHit, q) := GetNextHit q in
      if uHit =? EMPTY_HIT then Some ([], q)
      else '(l, q) ← read_hits fuel' q; Some (uHit :: l, q)
  end.

(** The hit of a keyword; two of its fields are not written. *)
Definition term_hit (t : term) (row uHit : Z) : ExtHit_t :=
  ExtHit row uHit (cast WORD (m_iAtomPos t)) 0 1 1 1 0.

Definition term_hits (t : term) (row : Z) (l : list Z) : list ExtHit_t :=
  map (term_hit t row) (filter (λ u, Test_ (m_dQueriedFields t) (GetField u) = true) l).

Fixpoint skip_stored (row : Z) (l : list StoredHit_t) : list StoredHit_t :=
  match l with
  | [] => []
  | s :: l' => if sh_tRowID s <? row then skip_stored row l' else l
  end.

(** The loop over the matched documents: the stored hits that are left, the
    reader and the hits. *)
Fixpoint collect_term (t : term) (pMatched : list ExtDoc_t) (l : list StoredHit_t) (q : Q) : option (list StoredHit_t * Q * list ExtHit_t) :=
  match pMatched with
  | [] => Some (l, q, [])
  | d :: pMatched' =>
      match skip_stored (m_tRowID d) l with
      | [] => collect_term t pMatched' [] q
      | s :: l' =>
          if negb (sh_tRowID s =? m_tRowID d) then collect_term t pMatched' (s :: l') q
          else
            '(hs, q) ← read_hits (hitwork q) (SeekHitlist (m_tHitlistOffset s) q);
            '(l, q, rest) ← collect_term t pMatched' l' q;
            Some (l, q, term_hits t (sh_tRowID s) hs ++ rest)
      end
  end.

Definition set_stored (l : list StoredHit_t) (nHits : Z) (q : Q) (t : term) : term :=
  MkTerm q (ROWID_LIMITS t) (STATS t) (m_dQueriedFields t) (m_bHasWideFields t) (m_fIDF t) (m_bCollectHits t) (m_tBoundaries t) (m_iAtomPos t) l
    (m_iFetchedDocs t) (if STATS t then m_iFetchedHits t + nHits else m_iFetchedHits t) (m_iSkips t).

Definition term_GetHits (pMatched : docptr) (t : term) : option (list ExtHit_t * term) :=
  match pMatched with
  | None => Some ([], t)
  | Some l =>
      '(stored, q, hs) ← collect_term t l (m_dStoredHits t) (m_pQword t);
      Some (hs, set_stored stored (Z.of_nat (length hs)) q t)
  end.

#[export] Instance ExtTerm_hits : HitNode term := { GetHits := term_GetHits }.
End Term.

(** ** AND nodes *)

(** [ExtAnd_c] with the fields its hits depend on. *)
Record ExtAndHits_c (L R : Type) := ExtAndHits {
  ah_node : ExtAnd_c L R;
  m_uNodePosL : Z;
  m_uNodePosR : Z;
  m_bQPosReverse : bool
}.
Arguments ExtAndHits {L R}. Arguments ah_node {L R}. Arguments m_uNodePosL {L R}. Arguments m_uNodePosR {L R}. Arguments m_bQPosReverse {L R}.

Definition IsHitLess (a b : ExtHit_t) : bool :=
  (m_uHitpos a <? m_uHitpos b) || ((m_uHitpos a =? m_uHitpos b) && (m_uQuerypos a <=? m_uQuerypos b)).

(** [CmpAndHitReverse_fn]. *)
Definition CmpAndHitReverse (a b : ExtHit_t) : bool :=
  (h_tRowID a <? h_tRowID b) || ((h_tRowID a =? h_tRowID b) && (m_uHitpos a <? m_uHitpos b)) ||
  ((h_tRowID a =? h_tRowID b) && (m_uHitpos a =? m_uHitpos b) && (m_uQuerypos b <? m_uQuerypos a)).

Definition set_nodepos (uNodePos : Z) (h : ExtHit_t) : ExtHit_t :=
  if uNodePos =? 0 then h
  else ExtHit (h_tRowID h) (m_uHitpos h) (m_uQuerypos h) uNodePos (m_uSpanlen h) (m_uMatchlen h) (m_uWeight h) (m_uQposMask h).

(** The hits of the matched row at the head of a list. *)
Fixpoint rest_of (row : Z) (l : list ExtHit_t) : list ExtHit_t :=
  match l with
  | [] => []
  | h :: l' => if h_tRowID h =? row then h :: rest_of row l' else []
  end.

Fixpoint collect_and (fuel : nat) (uNodePosL uNodePosR tMatchedRowID : Z) (pCurL pCurR : list ExtHit_t) : option (list ExtHit_t) :=
  match fuel with
  | O => None
  | S fuel' =>
      match pCurL, pCurR with
      | a :: pL', b :: pR' =>
          if h_tRowID a <? h_tRowID b then
            l ← collect_and fuel' uNodePosL uNodePosR tMatchedRowID pL' pCurR;
            Some (if h_tRowID a =? tMatchedRowID then set_nodepos uNodePosL a :: l else l)
          else if h_tRowID a >? h_tRowID b then
            l ← collect_and fuel' uNodePosL uNodePosR tMatchedRowID pCurL pR';
            Some (if h_tRowID b =? tMatchedRowID then set_nodepos uNodePosR b :: l else l)
          else if IsHitLess a b then
            l ← collect_and fuel' uNodePosL uNodePosR (h_tRowID a) pL' pCurR;
            Some (set_nodepos uNodePosL a :: l)
          else
            l ← collect_and fuel' uNodePosL uNodePosR (h_tRowID a) pCurL pR';
            Some (set_nodepos uNodePosR b :: l)
      | _, _ =>
          Some (map (set_nodepos uNodePosL) (rest_of tMatchedRowID pCurL) ++ map (set_nodepos uNodePosR) (rest_of tMatchedRowID pCurR))
      end
  end.

Section And.
Context {L R : Type} {NL : ExtNode_i L} {NR : ExtNode_i R} {HL : HitNode L} {HR : HitNode R}.

Definition with_base (t : ExtTwofer_c L R) (n : ExtAndHits_c L R) : ExtAndHits_c L R :=
  ExtAndHits (ExtAnd t) (m_uNodePosL n) (m_uNodePosR n) (m_bQPosReverse n).

#[export] Instance ExtAndHits_node : ExtNode_i (ExtAndHits_c L R) := {
  GetDocsChunk n w := '(p, t, w) ← GetDocsChunk (ah_node n) w; Some (p, ExtAndHits t (m_uNodePosL n) (m_uNodePosR n) (m_bQPosReverse n), w);
  HintRowID k n := ExtAndHits (HintRowID k (ah_node n)) (m_uNodePosL n) (m_uNodePosR n) (m_bQPosReverse n);
  work n := work (ah_node n)
}.

Definition and_GetHits (pDocs : docptr) (n : ExtAndHits_c L R) : option (list ExtHit_t * ExtAndHits_c L R) :=
  match pDocs with
  | None => Some ([], n)
  | Some _ =>
      let t := and_base (ah_node n) in
      '(pCurL, l) ← GetHits pDocs (m_pLeft t);
      '(pCurR, r) ← GetHits pDocs (m_pRight t);
      hs ← collect_and (S (length pCurL + length pCurR)) (m_uNodePosL n) (m_uNodePosR n) INVALID_ROWID pCurL pCurR;
      hs ← (if m_bQPosReverse n then Sort.sphSort CmpAndHitReverse hs else Some hs);
      Some (hs, with_base (ExtTwofer l r (m_pDocL t) (m_pDocR t)) n)
  end.

#[export] Instance ExtAnd_hits : HitNode (ExtAndHits_c L R) := { GetHits := and_GetHits }.
End And.

(** ** N-way nodes *)

Record ExtNWay_T (C M : Type) := ExtNWay {
  m_pNode : C;
  m_pDocs : docptr;
  m_pHits : list ExtHit_t;
  m_dMyHits : list ExtHit_t;
  n_fsm : M
}.
Arguments ExtNWay {C M}. Arguments m_pNode {C M}. Arguments m_pDocs {C M}. Arguments m_pHits {C M}. Arguments m_dMyHits {C M}. Arguments n_fsm {C M}.

Section NWay.
Context {C M : Type} {NC : ExtNode_i C} {HC : HitNode C} {F : FSM M}.
Abbreviation nway := (ExtNWay_T C M).

Definition new_nway (c : C) (f : M) : nway := ExtNWay c None [] [] f.

(** [WarmupDocs ( pDoc, pHit, pNode )]. *)
Definition WarmupHits (p : docptr) (hs : list ExtHit_t) (s : C) (w : World) : option (bool * docptr * list ExtHit_t * C * World) :=
  if HasDocs p then Some (true, p, hs, s, w)
  else
    '(p, s, w) ← GetDocsChunk s w;
    if HasDocs p then '(hs, s) ← GetHits p s; Some (true, p, hs, s, w)
    else Some (false, p, hs, s, w).

(** The document emitted at a hit that completes a match. A shift by 32 or more
    is not defined in the source and gives 0 here. *)
Definition nway_doc (pDoc : ExtDoc_t) (pHit : ExtHit_t) : ExtDoc_t :=
  ExtDoc (h_tRowID pHit) (cast DWORD (Z.shiftl 1 (GetField (m_uHitpos pHit)))) (m_fTFIDF pDoc).

Definition is_new (row : Z) (out : list ExtDoc_t) : bool :=
  match last out with None => true | Some d => negb (row =? m_tRowID d) end.

(** All hits of the document. *)
Fixpoint run_doc (pDoc : ExtDoc_t) (pHit : list ExtHit_t) (f : M) (dMyHits : list ExtHit_t) (out : list ExtDoc_t) :
    option (list ExtHit_t * M * list ExtHit_t * list ExtDoc_t) :=
  match pHit with
  | [] => Some ([], f, dMyHits, out)
  | h :: pHit' =>
      if h_tRowID h =? m_tRowID pDoc then
        '(b, f, dMyHits) ← fsm_hit h dMyHits f;
        run_doc pDoc pHit' f dMyHits (if (b : bool) && is_new (h_tRowID h) out then out ++ [nway_doc pDoc h] else out)
      else Some (pHit, f, dMyHits, out)
  end.

Fixpoint nway_loop (fuel : nat) (n : nway) (out : list ExtDoc_t) (w : World) : option (list ExtDoc_t * nway * World) :=
  match fuel with
  | O => None
  | S fuel' =>
      if negb (has_room out) then Some (out, n, w) else
      match docs (m_pDocs n) with
      | [] => None
      | d :: pDoc =>
          '(pHit, f, dMyHits, out) ← run_doc d (m_pHits n) (fsm_reset (n_fsm n)) (m_dMyHits n) out;
          '(ok, pDoc, pHit, c, w) ← WarmupHits (Some pDoc) pHit (m_pNode n) w;
          let n := ExtNWay c pDoc pHit dMyHits f in
          if (ok : bool) then nway_loop fuel' n out w else Some (out, n, w)
      end
  end.

Definition nway_work (n : nway) : nat := work (m_pNode n) + length (docs (m_pDocs n)).

(** [GetDocsChunk]. *)
Definition nway_chunk (n : nway) (w : World) : option (docptr * nway * World) :=
  '(ok, pDoc, pHit, c, w) ← WarmupHits (m_pDocs n) (m_pHits n) (m_pNode n) w;
  let n := ExtNWay c pDoc pHit (m_dMyHits n) (n_fsm n) in
  if negb ok then Some (None, n, w)
  else
    '(out, n, w) ← nway_loop (S (nway_work n)) n [] w;
    Some (ReturnDocsChunk out, n, w).

#[export] Instance ExtNWay_node : ExtNode_i nway := {
  GetDocsChunk := nway_chunk;
  HintRowID k n := ExtNWay (HintRowID k (m_pNode n)) (m_pDocs n) (m_pHits n) (m_dMyHits n) (n_fsm n);
  work := nway_work
}.

(** [CopyMatchingHits]: the hits copied and the ones kept for later. *)
Fixpoint skip_hits (row : Z) (l : list ExtHit_t) : list ExtHit_t :=
  match l with
  | [] => []
  | h :: l' => if h_tRowID h <? row then skip_hits row l' else l
  end.

Fixpoint drop_row (row : Z) (l : list ExtHit_t) : list ExtHit_t :=
  match l with
  | [] => []
  | h :: l' => if h_tRowID h =? row then drop_row row l' else l
  end.

Fixpoint CopyMatchingHits (pDocs : list ExtDoc_t) (dMyHits : list ExtHit_t) : list ExtHit_t * list ExtHit_t :=
  match pDocs with
  | [] => ([], dMyHits)
  | d :: pDocs' =>
      let l := skip_hits (m_tRowID d) dMyHits in
      let '(hs, l') := CopyMatchingHits pDocs' (drop_row (m_tRowID d) l) in
      (rest_of (m_tRowID d) l ++ hs, l')
  end.

#[export] Instance ExtNWay_hits : HitNode nway := {
  GetHits p n :=
    let '(hs, l) := CopyMatchingHits (docs p) (m_dMyHits n) in
    Some (hs, ExtNWay (m_pNode n) (m_pDocs n) (m_pHits n) l (n_fsm n))
}.
End NWay.
End HitNode.
