(* ===== verification/HitNodeOk.v ===== *)
(** * What the streamers promise about hits

    [HitNodeOk] states it: a node that was asked for the hits of documents it
    has handed out returns exactly their hits, in order, and goes on with its
    documents as before. Keywords and AND nodes meet it. *)

From stdpp Require Import sorting sets.
From S2P Require Import Prelude Hits SearchNode SearchNodeOk ExtTerm Sort SortOk Phrase HitNode.
Import Hitman FieldMask SearchNode SearchNodeOk ExtTerm Phrase HitNode.

Module HitNodeOk.

Definition rows (l : list ExtDoc_t) : list Z := map m_tRowID l.

(** The rows that are left after the hits of [D] were taken. *)
Definition after (D : list ExtDoc_t) (P : list Z) : list Z := filter (λ r, Forall (λ d, d < r) (rows D)) P.

(** ** The contract *)

(** [hinv h P s]: [h] gives the hits of a row, and [P] are the rows that were
    handed out and whose hits were not taken yet. *)
Class HitNodeOk (S : Type) {N : ExtNode_i S} {K : ExtNodeOk S} {H : HitNode S} := {
  hinv : (Z -> list ExtHit_t) -> list Z -> S -> Prop;
  hinv_asc h P s : hinv h P s -> StronglySorted Z.lt P;
  hinv_row h P s r : hinv h P s -> r ∈ P -> Forall (λ x, h_tRowID x = r) (h r);
  chunk_hits h P s w p s' w' : hinv h P s -> GetDocsChunk s w = Some (p, s', w') -> hinv h (P ++ rows (docs p)) s';
  hint_hits h P k s : hinv h P s -> hinv h P (HintRowID k s);
  gethits_ok h P s b D : hinv h P s -> asc b D -> (∀ r, r ∈ rows D -> r ∈ P) -> (length D <= MAX_BLOCK_DOCS - 1)%nat ->
    ∃ s', GetHits (Some D) s = Some (concat (map h (rows D)), s') /\ hinv h (after D P) s';
  gethits_same b D s hs s' : inv b s -> GetHits (Some D) s = Some (hs, s') -> rem s' = rem s /\ inv b s' /\ work s' = work s
}.

Lemma asc_sorted b D : asc b D -> StronglySorted Z.lt (b :: rows D) /\ INVALID_ROWID ∉ rows D.
Proof.
  revert b. induction D as [|d D IH]; intros b; cbn [asc rows map]; [intros _; split; [repeat constructor|apply not_elem_of_nil]|].
  intros [Hd H]. destruct (IH _ H) as [S Hn]. split; [|apply not_elem_of_cons; split; [lia|done]]. constructor; [done|].
  constructor; [lia|]. apply StronglySorted_inv in S as [_ F]. eapply Forall_impl; [exact F|]. cbn. lia.
Qed.

Lemma asc_rows_sorted b D : asc b D -> StronglySorted Z.lt (rows D).
Proof. intros [S _]%asc_sorted. by apply StronglySorted_inv in S as [? _]. Qed.

Lemma sorted_snoc (P : list Z) x : StronglySorted Z.lt P -> (∀ y, y ∈ P -> y < x) -> StronglySorted Z.lt (P ++ [x]).
Proof. intros S H. apply StronglySorted_app_2; [|done|repeat constructor]. intros a b Ha Hb. apply list_elem_of_singleton in Hb as ->. auto. Qed.

Lemma sorted_filter (Q : Z -> Prop) `{!∀ x, Decision (Q x)} P : StronglySorted Z.lt P -> StronglySorted Z.lt (filter Q P).
Proof.
  induction 1 as [|x P S IH F]; [constructor|]. rewrite filter_cons. case_decide; [|done]. constructor; [done|].
  rewrite Forall_forall in *. intros y Hy. apply F. by apply list_elem_of_filter in Hy as [_ ?].
Qed.

(** ** Readers of hits *)

Section Same.
Context {Q : Type} {I : ISphQword Q} {K : QwordOk Q}.

(** The reader goes on with the same documents. *)
Record same_reader (q q' : Q) : Prop := {
  sr_rem : qrem q' = qrem q;
  sr_inv : ∀ b, qinv b q -> qinv b q';
  sr_work : qwork q' = qwork q;
  sr_docs : q_iDocs q' = q_iDocs q }.

#[export] Instance same_reader_preorder : PreOrder same_reader.
Proof.
  split; [by split|]. intros q1 q2 q3 [A1 A2 A3 A4] [B1 B2 B3 B4]. split; [congruence|auto|congruence|congruence].
Qed.
End Same.

(** [qhits q off]: the hits at an offset. *)
Class QwordHits (Q : Type) {I : ISphQword Q} {K : QwordOk Q} {B : HitBound Q} := {
  qhits : Q -> Z -> list Z;
  qhits_read q off : ∃ q', read_hits (hitwork q) (SeekHitlist off q) = Some (qhits q off, q');
  seek_same off q : same_reader q (SeekHitlist off q);
  get_same q : same_reader q (GetNextHit q).2;
  qhits_next q : qhits (GetNextDoc q) = qhits q;
  qhits_mask q : qhits (CollectHitMask q) = qhits q;
  qhits_set n q : qhits (q_set_iDocs n q) = qhits q;
  qhits_hint k q : qhits (q_HintRowID k q) = qhits q;
  qhint_rem b k q p : qinv b q -> p ∈ qrem (q_HintRowID k q) -> p ∈ qrem q;
  qhits_seek off q : qhits (SeekHitlist off q) = qhits q;
  qhits_get q : qhits (GetNextHit q).2 = qhits q
}.

Section Term.
Context {Q : Type} {I : ISphQword Q} {K : QwordOk Q} {B : HitBound Q} {QH : QwordHits Q}.
Abbreviation term := (ExtTerm_T Q).

Lemma read_hits_same fuel : ∀ q l q', read_hits fuel q = Some (l, q') -> same_reader q q' /\ qhits q' = qhits q.
Proof.
  induction fuel as [|fuel IH]; intros q l q' E; [done|]. cbn [read_hits] in E. pose proof (get_same q) as G. pose proof (qhits_get q) as Gh.
  destruct (GetNextHit q) as [u q1]. cbn [snd] in G, Gh. destruct (u =? EMPTY_HIT); [by injection E as <- <-|].
  destruct (read_hits fuel q1) as [[l2 q2]|] eqn:E2; [|done]. injection E as <- <-. apply IH in E2 as [S2 H2]. split; [by etransitivity|congruence].
Qed.

Lemma seek_read q off : ∃ q', read_hits (hitwork q) (SeekHitlist off q) = Some (qhits q off, q') /\ same_reader q q' /\ qhits q' = qhits q.
Proof.
  destruct (qhits_read q off) as [q' E]. exists q'. split; [done|]. destruct (read_hits_same _ _ _ _ E) as [S1 S2].
  split; [|by rewrite S2, qhits_seek]. etransitivity; [apply (seek_same off)|done].
Qed.

(** ** The hits of a keyword *)

Definition shows (h : Z -> list ExtHit_t) (t : term) (q : Q) (row off : Z) : Prop := h row = term_hits t row (qhits q off).

Record term_hinv_at (b : Z) (h : Z -> list ExtHit_t) (P : list Z) (t : term) : Prop := {
  th_collect : m_bCollectHits t = true;
  th_rows : map sh_tRowID (m_dStoredHits t) = P;
  th_asc : StronglySorted Z.lt P;
  th_le : Forall (λ r, r <= b) P;
  th_bounds : bounds_ok t;
  th_inv : q_iDocs (m_pQword t) <> 0 -> qinv b (m_pQword t);
  th_stored : ∀ s, s ∈ m_dStoredHits t -> shows h t (m_pQword t) (sh_tRowID s) (m_tHitlistOffset s);
  th_rem : q_iDocs (m_pQword t) <> 0 -> ∀ p, p ∈ qrem (m_pQword t) -> shows h t (m_pQword t) (p_row p) (p_hitpos p) }.

Definition term_hinv (h : Z -> list ExtHit_t) (P : list Z) (t : term) : Prop := ∃ b, term_hinv_at b h P t.

(** The reader is stopped. *)
Lemma term_hinv_stop b h P t q : term_hinv_at b h P t -> q_iDocs q = 0 -> qhits q = qhits (m_pQword t) -> term_hinv_at b h P (set_qword q t).
Proof.
  intros [T1 T2 T3 T4 T5 T6 T7 T8] Hq Hh. split; cbn; auto; try done. intros s Hs. unfold shows. rewrite Hh. by apply T7.
Qed.

(** The reader moves over a posting. *)
Lemma term_hinv_next b h P t q p l : term_hinv_at b h P t -> q_iDocs (m_pQword t) <> 0 -> qrem (m_pQword t) = p :: l ->
  qhits q = qhits (m_pQword t) -> qrem q = l -> qinv (p_row p) q -> b < p_row p -> term_hinv_at (p_row p) h P (set_qword q t).
Proof.
  intros [T1 T2 T3 T4 T5 T6 T7 T8] Hd Er Hh Hl Hi Hb. split; cbn; auto.
  - eapply Forall_impl; [exact T4|]. cbn. lia.
  - intros s Hs. unfold shows. rewrite Hh. by apply T7.
  - intros _ p' Hp'. unfold shows. rewrite Hh. apply T8; [done|]. rewrite Er. right. by rewrite <- Hl.
Qed.

Lemma term_hinv_store b h P t p : term_hinv_at (p_row p) h P t -> Forall (λ r, r <= b) P -> b < p_row p -> shows h t (m_pQword t) (p_row p) (p_hitpos p) ->
  term_hinv_at (p_row p) h (P ++ [p_row p]) (add_stored [StoredHit (p_hitpos p) (p_row p)] t).
Proof.
  intros [T1 T2 T3 T4 T5 T6 T7 T8] Hf Hb Hs. rewrite Forall_forall in Hf. split; cbn; auto.
  - by rewrite map_app, T2.
  - apply sorted_snoc; [done|]. intros y Hy. specialize (Hf y Hy). lia.
  - apply Forall_app. split; [done|]. by repeat constructor.
  - intros s Hin. apply elem_of_app in Hin as [Hin|Hin]; [by apply T7|]. apply list_elem_of_singleton in Hin as ->. exact Hs.
Qed.

Lemma term_loop_hits h fuel : ∀ b P t out out' t', term_hinv_at b h P t -> q_iDocs (m_pQword t) <> 0 -> term_loop fuel t out = Some (out', t') ->
  ∃ new, out' = out ++ new /\ term_hinv h (P ++ rows new) t'.
Proof.
  induction fuel as [|fuel IH]; intros b P t out out' t' T Hd E; [done|]. cbn [term_loop] in E.
  assert (∀ q, q_iDocs q = 0 -> qhits q = qhits (m_pQword t) -> Some (out, set_qword q t) = Some (out', t') -> ∃ new, out' = out ++ new /\ term_hinv h (P ++ rows new) t') as Stop.
  { intros q Hq Hh E'. injection E' as <- <-. exists []. rewrite !app_nil_r. split; [done|]. exists b. by apply term_hinv_stop. }
  destruct (has_room out); cbn [negb] in E.
  2:{ injection E as <- <-. exists []. rewrite !app_nil_r. split; [done|]. by exists b. }
  pose proof (th_inv _ _ _ _ T Hd) as Hq.
  destruct (qrem (m_pQword t)) as [|p l] eqn:Er.
  { rewrite (next_none _ _ Hq Er) in E.
    assert (ROWID_LIMITS t && (INVALID_ROWID <? m_tMinRowID (m_tBoundaries t)) = false) as Eb.
    { destruct (ROWID_LIMITS t) eqn:El; [|done]. apply Z.ltb_ge. by apply (th_bounds _ _ _ _ T). }
    rewrite Eb, Z.eqb_refl in E. destruct (_ && _); (eapply Stop; [..|exact E]); rewrite ?set_iDocs, ?qhits_set, ?qhits_next; done. }
  pose proof (qinv_asc _ _ Hq) as Ha. rewrite Er in Ha. destruct Ha as [[Ha1 Ha2] _].
  destruct (next_some _ _ _ _ Hq Er) as (N1 & N2 & N3 & N4 & N5 & N6 & N7). rewrite N1 in E.
  assert (term_hinv_at (p_row p) h P (set_qword (GetNextDoc (m_pQword t)) t)) as Tn.
  { apply (term_hinv_next b h P t _ p l); auto. apply qhits_next. }
  destruct (ROWID_LIMITS t && (p_row p <? _)).
  { apply (IH (p_row p) P) in E; [done|done|]. cbn. by rewrite next_iDocs. }
  destruct (ROWID_LIMITS t && _). { eapply Stop; [..|exact E]; rewrite ?set_iDocs, ?qhits_set, ?qhits_next; done. }
  rewrite (proj2 (Z.eqb_neq (p_row p) INVALID_ROWID)) in E by lia.
  destruct (mask_ok _ _ _ _ Hq Er) as (M1 & M2 & M3 & M4 & M5 & M6 & M7).
  set (q' := if m_bHasWideFields t then CollectHitMask (GetNextDoc (m_pQword t)) else GetNextDoc (m_pQword t)) in *.
  assert (q_iHitlistPos q' = p_hitpos p /\ qrem q' = l /\ qinv (p_row p) q' /\ qhits q' = qhits (m_pQword t) /\ q_iDocs q' = q_iDocs (m_pQword t)) as (Q1 & Q2 & Q3 & Q4 & Q5).
  { unfold q'. destruct (m_bHasWideFields t); rewrite ?qhits_mask, ?qhits_next, ?mask_iDocs, ?next_iDocs; done. }
  assert (term_hinv_at (p_row p) h P (set_qword q' t)) as T1 by (apply (term_hinv_next b h P t _ p l); auto).
  destruct (negb _). { apply (IH (p_row p) P) in E; [done|done|]. cbn. by rewrite Q5. }
  change (m_bCollectHits (set_qword q' t)) with (m_bCollectHits t) in E. rewrite (th_collect _ _ _ _ T), Q1 in E.
  apply (IH (p_row p) (P ++ [p_row p])) in E; [|apply (term_hinv_store b); auto; [apply T|]|cbn; by rewrite Q5].
  - destruct E as (new & -> & T'). eexists (_ :: new). rewrite <- app_assoc. split; [reflexivity|]. by rewrite <- app_assoc in T'.
  - unfold shows. cbn. rewrite Q4. apply (th_rem _ _ _ _ T Hd). rewrite Er. by left.
Qed.

Lemma term_chunk_hits h P t w p t' w' : term_hinv h P t -> term_chunk t w = Some (p, t', w') -> term_hinv h (P ++ rows (docs p)) t'.
Proof.
  intros T E. unfold term_chunk in E. destruct (Z.eqb_spec (q_iDocs (m_pQword t)) 0) as [E0|N0].
  { injection E as <- <- <-. by rewrite app_nil_r. }
  destruct (TimeExceeded w) as [late w1]. destruct late; [injection E as <- <- <-; by rewrite app_nil_r|].
  destruct (Interrupted w1) as [killed w2]. destruct killed; [injection E as <- <- <-; by rewrite app_nil_r|].
  destruct (term_loop _ t []) as [[out t1]|] eqn:El; [|done]. cbn [mbind option_bind] in E. injection E as <- <- <-.
  destruct T as [b T]. destruct (term_loop_hits h _ b P t [] out t1 T N0 El) as (new & -> & [b' T']). cbn [app] in *.
  exists b'. replace (docs (ReturnDocsChunk new)) with new by by destruct new. destruct T'. split; done.
Qed.

(** The stored hits from a row that is among them. *)
Lemma skip_stored_at row l : StronglySorted Z.lt (map sh_tRowID l) -> row ∈ map sh_tRowID l ->
  ∃ pre s l', l = pre ++ s :: l' /\ sh_tRowID s = row /\ Forall (λ x, sh_tRowID x < row) pre /\ Forall (λ x, row < sh_tRowID x) l' /\
    skip_stored row l = s :: l'.
Proof.
  induction l as [|s l IH]; intros Hs Hin; [by apply elem_of_nil in Hin|]. cbn [map skip_stored] in *.
  inversion Hs as [|? ? Hs' Hf]; subst. rewrite Forall_map in Hf. destruct (Z.ltb_spec (sh_tRowID s) row).
  - apply elem_of_cons in Hin as [->|Hin]; [lia|]. destruct (IH Hs' Hin) as (pre & s1 & l' & -> & E1 & F1 & F2 & E2).
    exists (s :: pre), s1, l'. repeat split; auto.
  - apply elem_of_cons in Hin as [->|Hin].
    + exists [], s, l. repeat split; auto.
    + apply list_elem_of_fmap in Hin as (x & -> & Hx). rewrite Forall_forall in Hf. specialize (Hf x Hx). cbn in Hf. lia.
Qed.

Lemma collect_term_ok h t : ∀ D l q, StronglySorted Z.lt (rows D) -> StronglySorted Z.lt (map sh_tRowID l) ->
  (∀ r, r ∈ rows D -> r ∈ map sh_tRowID l) -> (∀ s, s ∈ l -> shows h t q (sh_tRowID s) (m_tHitlistOffset s)) ->
  ∃ q', collect_term t D l q = Some (filter (λ s, Forall (λ d, d < sh_tRowID s) (rows D)) l, q', concat (map h (rows D))) /\
    same_reader q q' /\ qhits q' = qhits q.
Proof.
  induction D as [|d D IH]; intros l q Hd Hl Hin Hsh.
  { exists q. split; [|done]. cbn. f_equal. f_equal. f_equal. symmetry. apply list_filter_all. by intros; constructor. }
  cbn [rows map collect_term] in *. fold (rows D) in *. inversion Hd as [|? ? Hd' Hf]; subst.
  destruct (skip_stored_at (m_tRowID d) l) as (pre & s & l' & -> & Es & F1 & F2 & ->); [done|apply Hin; by left|].
  rewrite Es, Z.eqb_refl. cbn [negb].
  destruct (seek_read q (m_tHitlistOffset s)) as (q1 & -> & R1 & Q1). cbn [mbind option_bind].
  destruct (IH l' q1) as (q2 & -> & R2 & Q2); [done|..].
  - rewrite map_app in Hl. apply StronglySorted_app_1_r in Hl. by apply StronglySorted_inv in Hl as [? _].
  - intros r Hr. pose proof (Hin r ltac:(by right)) as Hm. rewrite Forall_forall in Hf. specialize (Hf r Hr). cbn in Hf.
    rewrite map_app in Hm. apply elem_of_app in Hm as [Hm|Hm].
    + apply list_elem_of_fmap in Hm as (x & -> & Hx). rewrite Forall_forall in F1. specialize (F1 x Hx). cbn in F1. lia.
    + cbn in Hm. apply elem_of_cons in Hm as [Hm|Hm]; [lia|done].
  - intros x Hx. unfold shows. rewrite Q1. apply Hsh. apply elem_of_app. right. by right.
  - exists q2. cbn [mbind option_bind]. split; [|split; [by etransitivity|congruence]].
    assert (h (m_tRowID d) = term_hits t (m_tRowID d) (qhits q (m_tHitlistOffset s))) as ->.
    { rewrite <- Es. apply Hsh. apply elem_of_app. right. by left. }
    do 3 f_equal. rewrite filter_app, filter_cons, decide_False.
    2:{ intros H. inversion H as [|? ? Hlt]; subst. lia. }
    rewrite (list_filter_none _ pre). 
    2:{ intros x Hx H. inversion H as [|? ? Hlt]; subst. rewrite Forall_forall in F1. specialize (F1 x Hx). cbn in F1. lia. }
    cbn [app]. apply list_filter_ext. intros x Hx. rewrite Forall_cons. rewrite Forall_forall in F2. specialize (F2 x Hx). cbn in F2. tauto.
Qed.

Lemma collect_term_same t : ∀ D l q l' q' hs, collect_term t D l q = Some (l', q', hs) -> same_reader q q'.
Proof.
  induction D as [|d D IH]; intros l q l' q' hs E; cbn [collect_term] in E; [by injection E as <- <- <-|].
  destruct (skip_stored (m_tRowID d) l) as [|s l1]; [by eapply IH|]. destruct (negb _); [by eapply IH|].
  destruct (seek_read q (m_tHitlistOffset s)) as (q1 & E1 & R1 & _). rewrite E1 in E. cbn [mbind option_bind] in E.
  destruct (collect_term t D l1 q1) as [[[l2 q2] hs2]|] eqn:E2; [|done]. injection E as <- <- <-. apply IH in E2. by etransitivity.
Qed.

Lemma term_hits_row (t : term) r l : Forall (λ x, h_tRowID x = r) (term_hits t r l).
Proof. unfold term_hits. apply Forall_map, Forall_true. done. Qed.

Lemma map_stored_filter (Z1 : Z -> Prop) `{!∀ x, Decision (Z1 x)} l : map sh_tRowID (filter (λ s, Z1 (sh_tRowID s)) l) = filter Z1 (map sh_tRowID l).
Proof. induction l as [|s l IH]; [done|]. cbn [map]. rewrite !filter_cons. case_decide; cbn [map]; by rewrite IH. Qed.

Lemma term_gethits h P t D : term_hinv h P t -> StronglySorted Z.lt (rows D) -> (∀ r, r ∈ rows D -> r ∈ P) ->
  ∃ t', GetHits (Some D) t = Some (concat (map h (rows D)), t') /\ term_hinv h (after D P) t'.
Proof.
  intros [b [T1 T2 T3 T4 T5 T6 T7 T8]] Hd Hin. cbn [GetHits ExtTerm_hits term_GetHits]. subst P.
  destruct (collect_term_ok h t D (m_dStoredHits t) (m_pQword t)) as (q' & -> & [R1 R2 R3 R4] & Hh); [done..|].
  cbn [mbind option_bind]. eexists. split; [reflexivity|]. exists b.
  split; cbn; auto.
  - unfold after. rewrite <- map_stored_filter. f_equal.
  - by apply sorted_filter.
  - apply Forall_forall. intros r [_ Hr]%list_elem_of_filter. rewrite Forall_forall in T4. by apply T4.
  - rewrite R4. auto.
  - intros s [_ Hs]%list_elem_of_filter. unfold shows. rewrite Hh. by apply T7.
  - intros Hq p Hp. unfold shows. rewrite Hh. apply T8; [congruence|]. by rewrite <- R1.
Qed.

Lemma term_gethits_same b t D hs t' : inv b t -> GetHits (Some D) t = Some (hs, t') -> rem t' = rem t /\ inv b t' /\ work t' = work t.
Proof.
  intros [Hb Hi] E. cbn [GetHits ExtTerm_hits term_GetHits] in E.
  destruct (collect_term t D (m_dStoredHits t) (m_pQword t)) as [[[l q] hs0]|] eqn:Ec; [|done]. injection E as <- <-.
  destruct (collect_term_same _ _ _ _ _ _ _ Ec) as [R1 R2 R3 R4].
  cbn. unfold term_rem, term_inv. cbn. rewrite R1, R3, R4. repeat split; auto.
Qed.

Lemma term_hint_hits h P k t : term_hinv h P t -> term_hinv h P (HintRowID k t).
Proof.
  intros [b [T1 T2 T3 T4 T5 T6 T7 T8]]. exists b. split; cbn; auto.
  - rewrite qhint_iDocs. intros N. by apply qhint_ok, T6.
  - intros s Hs. unfold shows. rewrite qhits_hint. by apply T7.
  - rewrite qhint_iDocs. intros N p Hp. unfold shows. rewrite qhits_hint. apply T8; [done|]. apply (qhint_rem b k); auto.
Qed.

#[export] Program Instance ExtTerm_hits_ok : HitNodeOk term := { hinv := term_hinv }.
Next Obligation. intros h P t [b T]. apply T. Qed.
Next Obligation.
  intros h P t r [b [T1 T2 T3 T4 T5 T6 T7 T8]] Hr. rewrite <- T2 in Hr. apply list_elem_of_fmap in Hr as (s & -> & Hs).
  rewrite (T7 s Hs). apply term_hits_row.
Qed.
Next Obligation. intros h P t w p t' w' T E. exact (term_chunk_hits h P t w p t' w' T E). Qed.
Next Obligation. intros h P k t T. by apply term_hint_hits. Qed.
Next Obligation. intros h P t b D Ht Ha%asc_rows_sorted Hi _. by apply term_gethits. Qed.
Next Obligation. intros. by eapply term_gethits_same. Qed.
End Term.
End HitNodeOk.

(** * The hits of AND nodes

    The merge of the hits of the two children is, row by row, the ordered merge
    of the hits of the row, and nothing where one child has none. *)

From stdpp Require Import sorting sets.
From S2P Require Import Prelude Hits SearchNode SearchNodeOk ExtTerm Sort SortOk Phrase HitNode.
Import Hitman FieldMask SearchNode SearchNodeOk ExtTerm Phrase HitNode HitNodeOk.

Module HitAndOk.

Abbreviation len l := (Z.of_nat (length l)).

(** ** The merge *)

Section Merge.
Variables (uNodePosL uNodePosR : Z).

(** The hits of one row that both children have. *)
Fixpoint merge_row (xl : list ExtHit_t) : list ExtHit_t -> list ExtHit_t :=
  fix aux xr :=
    match xl, xr with
    | [], _ => map (set_nodepos uNodePosR) xr
    | _, [] => map (set_nodepos uNodePosL) xl
    | a :: xl', b :: xr' =>
        if IsHitLess a b then set_nodepos uNodePosL a :: merge_row xl' xr
        else set_nodepos uNodePosR b :: aux xr'
    end.

Definition and_row (xl xr : list ExtHit_t) : list ExtHit_t :=
  match xl, xr with [], _ | _, [] => [] | _, _ => merge_row xl xr end.

Lemma merge_row_nil_r xl : merge_row xl [] = map (set_nodepos uNodePosL) xl.
Proof. by destruct xl. Qed.

Lemma merge_row_nil_l xr : merge_row [] xr = map (set_nodepos uNodePosR) xr.
Proof. by destruct xr. Qed.

Lemma merge_row_cons a xl b xr : merge_row (a :: xl) (b :: xr) =
  if IsHitLess a b then set_nodepos uNodePosL a :: merge_row xl (b :: xr) else set_nodepos uNodePosR b :: merge_row (a :: xl) xr.
Proof. reflexivity. Qed.

Lemma merge_row_perm xl : ∀ xr, merge_row xl xr ≡ₚ map (set_nodepos uNodePosL) xl ++ map (set_nodepos uNodePosR) xr.
Proof.
  induction xl as [|a xl IH]; [by intros []|]. induction xr as [|b xr IHr].
  - cbn [map]. by rewrite app_nil_r.
  - rewrite merge_row_cons. destruct (IsHitLess a b).
    + rewrite IH. done.
    + rewrite IHr. cbn [map]. by rewrite Permutation_middle.
Qed.

Lemma rest_of_all row l1 l2 : Forall (λ x, h_tRowID x = row) l1 -> Forall (λ x, h_tRowID x <> row) l2 -> rest_of row (l1 ++ l2) = l1.
Proof.
  intros F1 F2. induction F1 as [|x l1 E _ IH]; cbn.
  - destruct F2 as [|y l2 N _]; [done|]. cbn. by rewrite (proj2 (Z.eqb_neq _ _)).
  - by rewrite E, Z.eqb_refl, IH.
Qed.

Lemma rest_of_none row l : Forall (λ x, h_tRowID x <> row) l -> rest_of row l = [].
Proof. apply (rest_of_all row []). constructor. Qed.

(** What the loop still emits for the row it stands at; [tm] is the matched row. *)
Definition row_part (tm r : Z) (xl xr : list ExtHit_t) : list ExtHit_t := if decide (tm = r) then merge_row xl xr else and_row xl xr.

Section Rows.
Variables (hl hr : Z -> list ExtHit_t).
Abbreviation all h D := (concat (map h D)).

Definition own (h : Z -> list ExtHit_t) (r : Z) : Prop := Forall (λ x, h_tRowID x = r) (h r).

Lemma all_rows h D : Forall (own h) D -> Forall (λ x, h_tRowID x ∈ D) (all h D).
Proof.
  intros F. apply Forall_forall. intros x Hx. apply list_elem_of_In, in_concat in Hx as (l & Hl & Hx).
  apply in_map_iff in Hl as (r & <- & Hr). apply list_elem_of_In in Hx, Hr. rewrite Forall_forall in F.
  specialize (F r Hr). unfold own in F. rewrite Forall_forall in F. by rewrite (F x Hx).
Qed.

Lemma all_nil_and (h g : Z -> list ExtHit_t) D (f : list ExtHit_t -> list ExtHit_t -> list ExtHit_t) : all h D = [] -> (∀ r, h r = [] -> f (h r) (g r) = []) -> concat (map (λ r, f (h r) (g r)) D) = [].
Proof.
  intros E Hf. induction D as [|r D IH]; [done|]. cbn in *. apply app_eq_nil in E as [E1 E2]. by rewrite Hf, IH.
Qed.

Lemma row_part_left tm r a xl : row_part tm r (a :: xl) [] = (if r =? tm then [set_nodepos uNodePosL a] else []) ++ row_part tm r xl [].
Proof.
  unfold row_part. rewrite !merge_row_nil_r. destruct (Z.eqb_spec r tm); case_decide; try lia; [done|]. by destruct xl.
Qed.

Lemma row_part_right tm r b xr : row_part tm r [] (b :: xr) = (if r =? tm then [set_nodepos uNodePosR b] else []) ++ row_part tm r [] xr.
Proof. unfold row_part. rewrite !merge_row_nil_l. destruct (Z.eqb_spec r tm); case_decide; try lia; done. Qed.

(** The end of the merge: what is left on one side belongs to the matched row
    or is dropped. *)
Lemma rest_part h D tm r x u : Forall (own h) D -> StronglySorted Z.lt (r :: D) -> tm ∉ D -> Forall (λ y, h_tRowID y = r) x ->
  map (set_nodepos u) (rest_of tm (x ++ all h D)) = if decide (tm = r) then map (set_nodepos u) x else [].
Proof.
  intros F S Hn Hx. pose proof (all_rows h D F) as Fa. case_decide as E.
  - subst tm. rewrite rest_of_all; [done|done|]. eapply Forall_impl; [exact Fa|]. cbn. intros y Hy Ey. by rewrite Ey in Hy.
  - rewrite rest_of_none; [done|]. apply Forall_app. split; (eapply Forall_impl; [eassumption|]); cbn; [congruence|]. intros y Hy Ey. by rewrite Ey in Hy.
Qed.

Abbreviation ands D := (concat (map (λ r, and_row (hl r) (hr r)) D)).

Lemma ands_l D : all hl D = [] -> ands D = [].
Proof. intros E. apply (all_nil_and hl hr D and_row E). by intros r ->. Qed.

Lemma ands_r D : all hr D = [] -> ands D = [].
Proof. intros E. apply (all_nil_and hr hl D (λ x y, and_row y x) E). intros r ->. by destruct (hl r). Qed.

Lemma next_row h D r y l : Forall (own h) D -> StronglySorted Z.lt (r :: D) -> all h D = y :: l -> r < h_tRowID y.
Proof.
  intros F [_ Fr]%StronglySorted_inv E. pose proof (all_rows h D F) as Fa. rewrite E in Fa. inversion Fa as [|? ? Hy]; subst.
  rewrite Forall_forall in Fr. by apply Fr.
Qed.

Lemma collect_and_end n tm pl pr : pl = [] \/ pr = [] -> collect_and (S n) uNodePosL uNodePosR tm pl pr =
  Some (map (set_nodepos uNodePosL) (rest_of tm pl) ++ map (set_nodepos uNodePosR) (rest_of tm pr)).
Proof. intros [->| ->]; [done|]. by destruct pl. Qed.

Lemma row_part_one tm r xl xr : xl = [] \/ xr = [] -> row_part tm r xl xr = if decide (tm = r) then map (set_nodepos uNodePosL) xl ++ map (set_nodepos uNodePosR) xr else [].
Proof. intros [->| ->]; unfold row_part; case_decide; rewrite ?merge_row_nil_l, ?merge_row_nil_r, ?app_nil_r; try done. by destruct xl. Qed.

(** One turn of the loop, [again] standing for the turns after it. *)
Lemma collect_and_turn n D r xl xr tm : StronglySorted Z.lt (r :: D) -> Forall (own hl) D -> Forall (own hr) D ->
  Forall (λ x, h_tRowID x = r) xl -> Forall (λ x, h_tRowID x = r) xr -> tm ∉ D -> ~ (xl = [] /\ xr = []) ->
  (∀ xl' xr' tm', Forall (λ x, h_tRowID x = r) xl' -> Forall (λ x, h_tRowID x = r) xr' -> tm' ∉ D -> (length xl' + length xr' < length xl + length xr)%nat ->
    collect_and n uNodePosL uNodePosR tm' (xl' ++ all hl D) (xr' ++ all hr D) = Some (row_part tm' r xl' xr' ++ ands D)) ->
  collect_and (S n) uNodePosL uNodePosR tm (xl ++ all hl D) (xr ++ all hr D) = Some (row_part tm r xl xr ++ ands D).
Proof.
  intros S Fl Fr Hl Hr Htm Hne again. destruct (decide (xl ++ all hl D = [] \/ xr ++ all hr D = [])) as [E|N].
  { rewrite collect_and_end by done. rewrite !(rest_part _ D tm r) by done. rewrite row_part_one by (destruct E as [[]%app_eq_nil|[]%app_eq_nil]; auto).
    assert (ands D = []) as -> by (destruct E as [[_ ?]%app_eq_nil|[_ ?]%app_eq_nil]; [by apply ands_l|by apply ands_r]).
    rewrite app_nil_r. by case_decide. }
  assert (r ∉ D) as HrD. { apply StronglySorted_inv in S as [_ F]. rewrite Forall_forall in F. intros Hin. specialize (F r Hin). lia. }
  destruct xl as [|a xl], xr as [|b xr]; [by destruct Hne| | |]; cbn [app] in *.
  - inversion Hr as [|? ? Eb Hr']; subst. destruct (all hl D) as [|a l] eqn:El; [tauto|]. rewrite <- El in again.
    pose proof (next_row _ _ _ _ _ Fl S El). cbn [collect_and]. rewrite (proj2 (Z.ltb_ge _ _)), (proj2 (Z.gtb_lt _ _)) by lia.
    pose proof (again [] xr tm) as A. cbn [app length] in A. rewrite <- El, A by (done || cbn; lia). cbn [mbind option_bind]. rewrite row_part_right. by destruct (_ =? tm).
  - inversion Hl as [|? ? Ea Hl']; subst. destruct (all hr D) as [|b l] eqn:Er; [tauto|]. rewrite <- Er in again.
    pose proof (next_row _ _ _ _ _ Fr S Er). cbn [collect_and]. rewrite (proj2 (Z.ltb_lt _ _)) by lia.
    pose proof (again xl [] tm) as A. cbn [app length] in A. rewrite <- Er, A by (done || cbn; lia). cbn [mbind option_bind]. rewrite row_part_left. by destruct (_ =? tm).
  - inversion Hl as [|? ? Ea Hl']; inversion Hr as [|? ? Eb Hr']; subst. cbn [collect_and]. rewrite Eb, Z.gtb_ltb, Z.ltb_irrefl.
    assert (row_part tm (h_tRowID a) (a :: xl) (b :: xr) = merge_row (a :: xl) (b :: xr)) as -> by (unfold row_part; by case_decide).
    rewrite merge_row_cons. destruct (IsHitLess a b).
    + pose proof (again xl (b :: xr) (h_tRowID a)) as A. cbn [app length] in A. rewrite A by (done || cbn; lia). unfold row_part. by rewrite decide_True.
    + pose proof (again (a :: xl) xr (h_tRowID a)) as A. cbn [app length] in A. rewrite A by (done || cbn; lia). unfold row_part. by rewrite decide_True.
Qed.

Lemma collect_and_ok n : ∀ D r xl xr tm, StronglySorted Z.lt (r :: D) -> Forall (own hl) D -> Forall (own hr) D ->
  Forall (λ x, h_tRowID x = r) xl -> Forall (λ x, h_tRowID x = r) xr -> tm ∉ D -> (length (xl ++ all hl D) + length (xr ++ all hr D) < n)%nat ->
  collect_and n uNodePosL uNodePosR tm (xl ++ all hl D) (xr ++ all hr D) = Some (row_part tm r xl xr ++ ands D).
Proof.
  induction n as [|n IH]; [lia|]. induction D as [|r' D IHD]; intros r xl xr tm S Fl Fr Hl Hr Htm Hn.
  - destruct (decide (xl = [] /\ xr = [])) as [[-> ->]|N].
    { cbn. unfold row_part. by case_decide. }
    apply collect_and_turn; auto. intros xl' xr' tm' Hl' Hr' Ht' Hlt. apply IH; auto. rewrite !length_app in *. lia.
  - destruct (decide (xl = [] /\ xr = [])) as [[-> ->]|N].
    + cbn [app map concat]. inversion Fl; inversion Fr; subst. apply not_elem_of_cons in Htm as [Ht1 Ht2].
      rewrite (IHD r' (hl r') (hr r') tm); auto; [|by apply StronglySorted_inv in S as [? _]].
      assert (row_part tm r [] [] = []) as -> by (unfold row_part; by case_decide). unfold row_part. by rewrite decide_False.
    + apply collect_and_turn; auto. intros xl' xr' tm' Hl' Hr' Ht' Hlt. apply IH; auto. rewrite !length_app in *. lia.
Qed.
End Rows.
End Merge.

(** ** The order of the reverse query positions *)

Definition hle := SortOk.le CmpAndHitReverse.

Lemma hle_spec a b : hle a b <-> h_tRowID a < h_tRowID b \/ (h_tRowID a = h_tRowID b /\ (m_uHitpos a < m_uHitpos b \/ (m_uHitpos a = m_uHitpos b /\ m_uQuerypos b <= m_uQuerypos a))).
Proof.
  unfold hle, SortOk.le, CmpAndHitReverse. rewrite !orb_false_iff, !andb_false_iff, !Z.ltb_ge, !Z.eqb_neq. lia.
Qed.

Lemma hless_asym a b : CmpAndHitReverse a b = true -> CmpAndHitReverse b a = false.
Proof.
  unfold CmpAndHitReverse. rewrite !orb_true_iff, !andb_true_iff, !orb_false_iff, !andb_false_iff, !Z.ltb_lt, !Z.ltb_ge, !Z.eqb_eq, !Z.eqb_neq. lia.
Qed.

Lemma hle_trans a b c : hle a b -> hle b c -> hle a c.
Proof. rewrite !hle_spec. lia. Qed.

#[export] Instance ExtHit_inhabited : Inhabited ExtHit_t := populate (ExtHit 0 0 0 0 0 0 0 0).

Definition hkey (x : ExtHit_t) : Z * Z := (m_uHitpos x, m_uQuerypos x).

(** The hits [l] a node with the reverse order has for the merged hits [m]. *)
Record reversed (m l : list ExtHit_t) : Prop := {
  rv_perm : l ≡ₚ m;
  rv_sorted : StronglySorted hle l;
  rv_keys : NoDup (map hkey m);
  rv_len : len m < 2 ^ 31 }.

Lemma concat_len (f : Z -> list ExtHit_t) D : (∀ r, len (f r) < 2 ^ 31) -> len (concat (map f D)) <= len D * 2 ^ 31.
Proof.
  intros Hf. induction D as [|r D IH]; cbn [map concat]; [done|]. specialize (Hf r). rewrite length_app. cbn [length]. lia.
Qed.

Lemma concat_perm (f g : Z -> list ExtHit_t) D : (∀ r, f r ≡ₚ g r) -> concat (map f D) ≡ₚ concat (map g D).
Proof. intros H. induction D as [|r D IH]; [done|]. cbn [map concat]. by rewrite H, IH. Qed.

Lemma concat_sorted h D : StronglySorted Z.lt D -> Forall (own h) D -> (∀ r, StronglySorted hle (h r)) -> StronglySorted hle (concat (map h D)).
Proof.
  intros S F Hh. induction D as [|r D IH]; [constructor|]. cbn [map concat]. apply StronglySorted_inv in S as [S Sr].
  inversion F as [|? ? F1 F2]; subst. apply StronglySorted_app_2; auto. intros x y Hx Hy.
  pose proof (all_rows h D F2) as Fa. unfold own in F1. rewrite Forall_forall in F1. rewrite Forall_forall in Fa. rewrite Forall_forall in Sr.
  apply hle_spec. left. rewrite (F1 x Hx). by apply Sr, Fa.
Qed.

(** In a list with distinct keys the order is antisymmetric. *)
Lemma hle_same h D x y : Forall (own h) D -> (∀ r, NoDup (map hkey (h r))) -> x ∈ concat (map h D) -> y ∈ concat (map h D) -> hle x y -> hle y x -> x = y.
Proof.
  intros F Hn Hx Hy H1 H2. apply hle_spec in H1, H2. assert (h_tRowID x = h_tRowID y /\ hkey x = hkey y) as [Er Ek] by (unfold hkey; split; [lia|f_equal; lia]).
  assert (∀ z, z ∈ concat (map h D) -> z ∈ h (h_tRowID z)) as Hin.
  { intros z Hz. apply list_elem_of_In, in_concat in Hz as (l & Hl & Hz). apply in_map_iff in Hl as (r & <- & Hr).
    apply list_elem_of_In in Hz, Hr. rewrite Forall_forall in F. specialize (F r Hr). unfold own in F. rewrite Forall_forall in F. by rewrite (F z Hz). }
  apply Hin in Hx, Hy. rewrite <- Er in Hy. clear - Hx Hy Ek Hn. specialize (Hn (h_tRowID x)). revert Hx Hy.
  induction (h (h_tRowID x)) as [|z l IH]; [by intros ?%elem_of_nil|]. cbn in Hn. apply NoDup_cons in Hn as [Hz Hn].
  intros [->|Hx]%elem_of_cons [->|Hy]%elem_of_cons; auto; exfalso; apply Hz.
  - rewrite Ek. by apply list_elem_of_fmap_2.
  - rewrite <- Ek. by apply list_elem_of_fmap_2.
Qed.

Lemma reverse_sort h m D : StronglySorted Z.lt D -> Forall (own h) D -> (∀ r, reversed (m r) (h r)) -> (length D <= MAX_BLOCK_DOCS - 1)%nat ->
  Sort.sphSort CmpAndHitReverse (concat (map m D)) = Some (concat (map h D)).
Proof.
  intros S F Hr Hd. destruct (SortOk.sort_ok CmpAndHitReverse hless_asym hle_trans (concat (map m D))) as (l & -> & P & Sl).
  { pose proof (concat_len m D (λ r, rv_len _ _ (Hr r))). unfold MAX_BLOCK_DOCS in *. lia. }
  assert (concat (map h D) ≡ₚ concat (map m D)) as P2 by (apply concat_perm; intros; apply Hr).
  f_equal. eapply (StronglySorted_unique_strong hle); [|exact Sl|apply concat_sorted; auto; apply Hr|by rewrite P, P2].
  intros x y Hx Hy. apply (hle_same h D); auto.
  - intros r. rewrite (rv_perm _ _ (Hr r)). apply Hr.
  - by rewrite P2, <- P.
Qed.

(** ** Two children *)

Section Warm.
Context {S : Type} {N : ExtNode_i S} {K : ExtNodeOk S} {H : HitNode S} {HK : HitNodeOk S}.

Lemma warm_hits h A p q s w ok p' s' w' : hinv h (A ++ rows (docs p)) s -> WarmupDocsHint p q s w = Some (ok, p', s', w') ->
  ok = HasDocs p' /\ hinv h (A ++ rows (docs p')) s'.
Proof.
  intros Hs E. unfold WarmupDocsHint in E. destruct (HasDocs p) eqn:Ed; [by injection E as <- <- <- <-|].
  apply HasDocs_false in Ed. rewrite Ed, app_nil_r in Hs.
  destruct (GetDocsChunk _ w) as [[[p1 s1] w1]|] eqn:Ec; [|done]. injection E as <- <- <- <-. split; [done|].
  eapply chunk_hits; [|exact Ec]. destruct (HasDocs q); [by apply hint_hits|done].
Qed.
End Warm.

Section And.
Context {L R : Type} {NL : ExtNode_i L} {NR : ExtNode_i R} {KL : ExtNodeOk L} {KR : ExtNodeOk R}.
Context {HL : HitNode L} {HR : HitNode R} {HKL : HitNodeOk L} {HKR : HitNodeOk R}.

(** The rows of [P] were handed out by both children. *)
Record pair_hits (hl hr : Z -> list ExtHit_t) (P : list Z) (t : ExtTwofer_c L R) : Prop := {
  ph_l : ∃ A, hinv hl (A ++ rows (docs (m_pDocL t))) (m_pLeft t) /\ ∀ r, r ∈ P -> r ∈ A;
  ph_r : ∃ A, hinv hr (A ++ rows (docs (m_pDocR t))) (m_pRight t) /\ ∀ r, r ∈ P -> r ∈ A;
  ph_asc : StronglySorted Z.lt P }.

(** The cursor moves over a document, which the parent may hand out. *)
Lemma pass_doc {S} {N : ExtNode_i S} {K : ExtNodeOk S} {H : HitNode S} {HK : HitNodeOk S} h P (s : S) p a l :
  docs p = a :: l -> (∃ A, hinv h (A ++ rows (docs p)) s /\ ∀ r, r ∈ P -> r ∈ A) ->
  (∃ A, hinv h (A ++ rows (docs (Some l))) s /\ ∀ r, r ∈ P ++ [m_tRowID a] -> r ∈ A) /\ ∀ r, r ∈ P -> r < m_tRowID a.
Proof.
  intros E (A & Hs & HA). rewrite E in Hs. cbn [rows map] in Hs. split.
  - exists (A ++ [m_tRowID a]). rewrite <- app_assoc. split; [exact Hs|]. intros r [Hr|Hr]%elem_of_app; apply elem_of_app; auto.
  - intros r Hr. apply hinv_asc in Hs. eapply StronglySorted_app_1_elem_of; [exact Hs|by apply HA|by left].
Qed.

Lemma pair_weaken {S} {N : ExtNode_i S} {K : ExtNodeOk S} {H : HitNode S} {HK : HitNodeOk S} h P Q l (s : S) :
  (∃ A, hinv h (A ++ l) s /\ ∀ r, r ∈ P ++ Q -> r ∈ A) -> ∃ A, hinv h (A ++ l) s /\ ∀ r, r ∈ P -> r ∈ A.
Proof. intros (A & ? & HA). exists A. split; [done|]. intros r Hr. apply HA, elem_of_app. by left. Qed.

Lemma and_loop_hits hl hr fuel : ∀ P t out w out' t' w', pair_hits hl hr P t -> and_loop fuel t out w = Some (out', t', w') ->
  ∃ new, out' = out ++ new /\ pair_hits hl hr (P ++ rows new) t'.
Proof.
  induction fuel as [|fuel IH]; intros P [l r pL pR] out w out' t' w' [(A & HA & PA) (B & HB & PB) Hp] E; [done|].
  cbn [and_loop m_pLeft m_pRight m_pDocL m_pDocR] in *.
  assert (∀ l r pL pR, (∃ A, hinv hl (A ++ rows (docs pL)) l /\ ∀ r, r ∈ P -> r ∈ A) -> (∃ A, hinv hr (A ++ rows (docs pR)) r /\ ∀ r, r ∈ P -> r ∈ A) ->
    ∃ new, out = out ++ new /\ pair_hits hl hr (P ++ rows new) (ExtTwofer l r pL pR)) as Stop.
  { intros l1 r1 pL1 pR1 X1 X2. exists []. rewrite !app_nil_r. split; [done|]. by split. }
  destruct (has_room out); cbn [negb] in E; [|injection E as <- <- <-; apply Stop; eauto].
  destruct (WarmupDocsHint pL pR l w) as [[[[ok1 pL1] l1] w1]|] eqn:E1; [|done]. destruct (warm_hits hl A _ _ _ _ _ _ _ _ HA E1) as [-> HA1].
  cbn [mbind option_bind m_pLeft m_pRight m_pDocL m_pDocR] in E.
  destruct (HasDocs pL1); cbn [negb] in E; [|injection E as <- <- <-; apply Stop; eauto].
  destruct (WarmupDocsHint pR pL1 r w1) as [[[[ok2 pR1] r1] w2]|] eqn:E2; [|done]. destruct (warm_hits hr B _ _ _ _ _ _ _ _ HB E2) as [-> HB1].
  cbn [mbind option_bind] in E. destruct (HasDocs pR1); cbn [negb] in E; [|injection E as <- <- <-; apply Stop; eauto].
  destruct (docs pL1) as [|a dl] eqn:DL; [done|]. destruct (docs pR1) as [|b dr] eqn:DR; [done|].
  destruct (pass_doc hl P l1 pL1 a dl DL) as [XL La]; [rewrite DL; eauto|]. destruct (pass_doc hr P r1 pR1 b dr DR) as [XR _]; [rewrite DR; eauto|].
  destruct (Z.eqb_spec (m_tRowID a) (m_tRowID b)) as [Eq|_]; [|destruct (m_tRowID a <? m_tRowID b)].
  - apply (IH (P ++ [m_tRowID a])) in E.
    + destruct E as (new & -> & Hn). exists (both a b :: new). rewrite <- !app_assoc in *. done.
    + split; [exact XL|by rewrite Eq|by apply sorted_snoc].
  - apply (IH P) in E; [done|]. split; [by eapply pair_weaken|cbn [m_pDocR m_pRight]; rewrite DR; eauto|done].
  - apply (IH P) in E; [done|]. split; [cbn [m_pDocL m_pLeft]; rewrite DL; eauto|by eapply pair_weaken|done].
Qed.

#[export] Program Instance ExtAndHits_ok : ExtNodeOk (ExtAndHits_c L R) := {
  rem n := rem (ah_node n);
  inv b n := inv b (ah_node n)
}.
Next Obligation. intros b n. apply inv_asc. Qed.
Next Obligation. intros b b' n. apply inv_weaken. Qed.
Next Obligation.
  intros b n w Hi Hw. destruct (chunk_ok b (ah_node n) w Hi Hw) as (p & t & w' & E & [C1 C2 C3 C4 C5 C6 C7 C8]).
  exists p, (ExtAndHits t (m_uNodePosL n) (m_uNodePosR n) (m_bQPosReverse n)), w'. cbn [GetDocsChunk ExtAndHits_node]. rewrite E. split; [done|]. by split.
Qed.
Next Obligation. intros b k n Hi. exact (hint_ok b k (ah_node n) Hi). Qed.

(** The hits of a row from those of the children. *)
Definition row_ok (n : ExtAndHits_c L R) (xl xr l : list ExtHit_t) : Prop :=
  let m := and_row (m_uNodePosL n) (m_uNodePosR n) xl xr in if m_bQPosReverse n then reversed m l else l = m.

Definition and_hinv (h : Z -> list ExtHit_t) (P : list Z) (n : ExtAndHits_c L R) : Prop :=
  ∃ hl hr, pair_hits hl hr P (and_base (ah_node n)) /\ ∀ r, row_ok n (hl r) (hr r) (h r).

Lemma row_ok_perm n xl xr l : row_ok n xl xr l -> l ≡ₚ and_row (m_uNodePosL n) (m_uNodePosR n) xl xr.
Proof. unfold row_ok. cbv zeta. destruct (m_bQPosReverse n); [by intros []|by intros ->]. Qed.

Lemma set_nodepos_row u x : h_tRowID (set_nodepos u x) = h_tRowID x.
Proof. unfold set_nodepos. by destruct (u =? 0). Qed.

Lemma and_row_own uL uR r xl xr : Forall (λ x, h_tRowID x = r) xl -> Forall (λ x, h_tRowID x = r) xr -> Forall (λ x, h_tRowID x = r) (and_row uL uR xl xr).
Proof.
  intros Fl Fr. assert (Forall (λ x, h_tRowID x = r) (merge_row uL uR xl xr)) as F.
  { rewrite merge_row_perm, Forall_app, !Forall_map. split; (eapply Forall_impl; [eassumption|]); cbv beta; intros x Hx; by rewrite set_nodepos_row. }
  unfold and_row. destruct xl, xr; auto using Forall_nil_2.
Qed.

Lemma and_hinv_row h P n r : and_hinv h P n -> r ∈ P -> Forall (λ x, h_tRowID x = r) (h r).
Proof.
  intros (hl & hr & [(A & HA & PA) (B & HB & PB) _] & Hrow) Hr. rewrite (row_ok_perm _ _ _ _ (Hrow r)).
  apply and_row_own; [apply (hinv_row _ _ _ r HA)|apply (hinv_row _ _ _ r HB)]; apply elem_of_app; left; auto.
Qed.

(** A child's rows after hits were taken. *)
Lemma after_app D P l : (∀ r d, r ∈ l -> d ∈ rows D -> d < r) -> after D (P ++ l) = after D P ++ l.
Proof.
  intros Hl. unfold after. rewrite filter_app. f_equal. apply list_filter_all. intros r Hr. apply Forall_forall. intros d Hd. by apply Hl.
Qed.

Lemma child_gethits {S} {N : ExtNode_i S} {K : ExtNodeOk S} {H : HitNode S} {HK : HitNodeOk S} h P (s : S) l b D :
  (∃ A, hinv h (A ++ l) s /\ ∀ r, r ∈ P -> r ∈ A) -> asc b D -> (∀ r, r ∈ rows D -> r ∈ P) -> (length D <= MAX_BLOCK_DOCS - 1)%nat ->
  Forall (own h) (rows D) /\ ∃ s', GetHits (Some D) s = Some (concat (map h (rows D)), s') /\ ∃ A, hinv h (A ++ l) s' /\ ∀ r, r ∈ after D P -> r ∈ A.
Proof.
  intros (A & HA & PA) Hd Hin Hl. split.
  { apply Forall_forall. intros r Hr. eapply hinv_row; [exact HA|]. apply elem_of_app. left. auto. }
  destruct (gethits_ok h (A ++ l) s b D HA Hd) as (s' & E & HA'); [intros r Hr; apply elem_of_app; left; auto|done|].
  exists s'. split; [done|]. exists (after D A). rewrite after_app in HA'.
  - split; [done|]. unfold after. intros r [Hr1 Hr2]%list_elem_of_filter. apply list_elem_of_filter. auto.
  - intros r d Hr Hd'. apply hinv_asc in HA. eapply StronglySorted_app_1_elem_of; [exact HA| |done]. auto.
Qed.

Lemma and_gethits h P n b D : and_hinv h P n -> asc b D -> (∀ r, r ∈ rows D -> r ∈ P) -> (length D <= MAX_BLOCK_DOCS - 1)%nat ->
  ∃ n', and_GetHits (Some D) n = Some (concat (map h (rows D)), n') /\ and_hinv h (after D P) n'.
Proof.
  intros Hn Hd Hin Hl. pose proof (λ r, and_hinv_row h P n r Hn) as Hown. destruct Hn as (hl & hr & [Xl Xr Hp] & Hrow).
  destruct (child_gethits hl P _ _ b D Xl Hd Hin Hl) as (Ol & l' & El & Al). destruct (child_gethits hr P _ _ b D Xr Hd Hin Hl) as (Or & r' & Er & Ar).
  unfold and_GetHits. rewrite El. cbn [mbind option_bind]. rewrite Er. cbn [mbind option_bind].
  assert (collect_and (S (length (concat (map hl (rows D))) + length (concat (map hr (rows D))))) (m_uNodePosL n) (m_uNodePosR n) INVALID_ROWID
    (concat (map hl (rows D))) (concat (map hr (rows D))) = Some (concat (map (λ r, and_row (m_uNodePosL n) (m_uNodePosR n) (hl r) (hr r)) (rows D)))) as ->.
  { destruct (asc_sorted _ _ Hd) as [S Hn]. pose proof (collect_and_ok (m_uNodePosL n) (m_uNodePosR n) hl hr _ (rows D) b [] [] INVALID_ROWID S Ol Or (Forall_nil_2 _) (Forall_nil_2 _) Hn (Nat.lt_succ_diag_r _)) as E.
    cbn [app] in E. rewrite E. unfold row_part. by case_decide. }
  cbn [mbind option_bind]. exists (with_base (ExtTwofer l' r' (m_pDocL (and_base (ah_node n))) (m_pDocR (and_base (ah_node n)))) n). split.
  - unfold row_ok in Hrow. cbv zeta in Hrow. destruct (m_bQPosReverse n).
    + rewrite (reverse_sort h); [done|by eapply asc_rows_sorted| |done|unfold rows; by rewrite length_map]. apply Forall_forall. intros r Hr. apply Hown. auto.
    + cbn [mbind option_bind]. do 3 f_equal. apply map_ext. intros r. by rewrite Hrow.
  - exists hl, hr. split; [|exact Hrow]. split; cbn; auto. by apply sorted_filter.
Qed.

(** Taking hits leaves a child's documents as they are. *)
Lemma child_same {S} {N : ExtNode_i S} {K : ExtNodeOk S} {H : HitNode S} {HK : HitNodeOk S} b D p (s : S) hs s' :
  child_ok b p s -> GetHits (Some D) s = Some (hs, s') -> str p s' = str p s /\ child_ok b p s' /\ work s' = work s.
Proof. intros [H1 H2] E. destruct (gethits_same _ _ _ _ _ H2 E) as (E1 & E2 & E3). unfold str, child_ok. by rewrite E1. Qed.

Lemma and_gethits_same b D (n : ExtAndHits_c L R) hs n' : inv b n -> and_GetHits (Some D) n = Some (hs, n') -> rem n' = rem n /\ inv b n' /\ work n' = work n.
Proof.
  intros [[Hl Hr] Hb] E. unfold and_GetHits in E. destruct (GetHits (Some D) (m_pLeft _)) as [[pL l]|] eqn:El; [|done]. cbn [mbind option_bind] in E.
  destruct (GetHits (Some D) (m_pRight _)) as [[pR r]|] eqn:Er; [|done]. cbn [mbind option_bind] in E.
  destruct (collect_and _ _ _ _ _ _) as [hs1|]; [|done]. cbn [mbind option_bind] in E.
  destruct (if m_bQPosReverse n then _ else _) as [hs2|]; [|done]. injection E as <- <-.
  destruct (child_same _ _ _ _ _ _ Hl El) as (L1 & L2 & L3). destruct (child_same _ _ _ _ _ _ Hr Er) as (R1 & R2 & R3).
  cbn [rem ExtAndHits_ok ExtAnd_ok inv work ExtAndHits_node ExtAnd_node with_base ah_node and_base]. unfold and_rem, strL, strR, and_ok, both_ok.
  cbn [m_pLeft m_pRight m_pDocL m_pDocR]. rewrite L1, R1, twofer_work_eq, L3, R3. split; [done|]. split; [|done]. split; [done|].
  destruct Hb as [Hb|Hb]; [left; by apply (child_same _ _ _ _ _ _ Hb El)|right; by apply (child_same _ _ _ _ _ _ Hb Er)].
Qed.

Lemma and_chunk_hits h P n w p n' w' : and_hinv h P n -> GetDocsChunk n w = Some (p, n', w') -> and_hinv h (P ++ rows (docs p)) n'.
Proof.
  intros (hl & hr & Hp & Hrow) E. cbn [GetDocsChunk ExtAndHits_node ExtAnd_node] in E. unfold and_chunk in E.
  destruct (and_loop _ _ [] w) as [[[out t] w1]|] eqn:El; [|done]. cbn in E. injection E as <- <- <-.
  destruct (and_loop_hits hl hr _ P _ _ _ _ _ _ Hp El) as (new & -> & Hn). exists hl, hr. split; [|exact Hrow].
  cbn [app ah_node and_base]. by replace (docs (ReturnDocsChunk new)) with new by by destruct new.
Qed.

Lemma and_hint_hits h P k n : and_hinv h P n -> and_hinv h P (HintRowID k n).
Proof.
  intros (hl & hr & [(A & HA & PA) (B & HB & PB) Hp] & Hrow). exists hl, hr. split; [|exact Hrow]. split; [exists A|exists B|done]; (split; [|done]); by apply hint_hits.
Qed.

#[export] Program Instance ExtAnd_hits_ok : HitNodeOk (ExtAndHits_c L R) := { hinv := and_hinv }.
Next Obligation. intros h P n (hl & hr & [] & _). done. Qed.
Next Obligation. intros. by eapply and_hinv_row. Qed.
Next Obligation. intros. by eapply and_chunk_hits. Qed.
Next Obligation. intros. by apply and_hint_hits. Qed.
Next Obligation. intros. by eapply and_gethits. Qed.
Next Obligation. intros b D n hs n' Hi E. exact (and_gethits_same b D n hs n' Hi E). Qed.
End And.
End HitAndOk.

(** * N-way nodes

    [ExtNWay_T] hands out the documents of its AND node for which its machine
    reports a match in the hits of the document, whatever the chunk
    boundaries are. [MachineOk] is what it relies on of the machine; the phrase
    machine meets it. *)

From stdpp Require Import sorting sets.
From S2P Require Import Prelude Hits SearchNode SearchNodeOk ExtTerm Sort SortOk Phrase PhraseOk HitNode.
Import Hitman SearchNode SearchNodeOk ExtTerm Phrase HitNode HitNodeOk HitAndOk.

Module NWayOk.

(** ** Machines *)

(** The hits of one document: the first that completes a match. *)
Fixpoint run_reports {M} `{FSM M} (hits dHits : list ExtHit_t) (f : M) : option (option ExtHit_t * M * list ExtHit_t) :=
  match hits with
  | [] => Some (None, f, dHits)
  | h :: hits' =>
      '(b, f, dHits) ← fsm_hit h dHits f;
      '(r, f, dHits) ← run_reports hits' dHits f;
      Some (if (b : bool) then Some h else r, f, dHits)
  end.

(** A machine that is reset and gets hits that suit it reports [mfirst], and
    goes on as the same machine. *)
Class MachineOk (M : Type) {F : FSM M} := {
  minv : M -> Prop;
  mgood : M -> list ExtHit_t -> Prop;
  mfirst : M -> list ExtHit_t -> option ExtHit_t;
  run_ok f hits dHits : minv f -> mgood f hits -> ∃ f' dHits', run_reports hits dHits (fsm_reset f) = Some (mfirst f hits, f', dHits') /\
    minv f' /\ mgood f' = mgood f /\ mfirst f' = mfirst f;
  mfirst_in f hits x : mfirst f hits = Some x -> x ∈ hits
}.

Section NWay.
Context {C M : Type} {NC : ExtNode_i C} {KC : ExtNodeOk C} {HC : HitNode C} {HKC : HitNodeOk C} {F : FSM M} {MK : MachineOk M}.
Abbreviation nway := (ExtNWay_T C M).
Abbreviation all h D := (concat (map h (rows D))).

(** The hits of the rows. *)
Variable h : Z -> list ExtHit_t.

Definition nway_emit (f : M) (d : ExtDoc_t) : option ExtDoc_t := nway_doc d <$> mfirst f (h (m_tRowID d)).

Definition nway_rem (n : nway) : list ExtDoc_t := omap (nway_emit (n_fsm n)) (str (m_pDocs n) (m_pNode n)).

Record nway_ok (b : Z) (n : nway) : Prop := {
  nw_child : child_ok b (m_pDocs n) (m_pNode n);
  nw_hits : ∃ P, hinv h P (m_pNode n);
  nw_here : m_pHits n = all h (docs (m_pDocs n));
  nw_own : ∀ r, own h r;
  nw_fsm : minv (n_fsm n);
  nw_good : ∀ r, mgood (n_fsm n) (h r) }.

Lemma emit_row f d x : (∀ r, own h r) -> nway_emit f d = Some x -> m_tRowID x = m_tRowID d.
Proof.
  intros Ho E. unfold nway_emit in E. destruct (mfirst f _) as [y|] eqn:Ef; [|done]. injection E as <-. apply mfirst_in in Ef.
  specialize (Ho (m_tRowID d)). unfold own in Ho. rewrite Forall_forall in Ho. by apply Ho.
Qed.

(** *** The hits of one document *)

Lemma is_new_snoc row out d : is_new row (out ++ [d]) = negb (row =? m_tRowID d).
Proof. unfold is_new. by rewrite last_snoc. Qed.

Lemma run_doc_ok d rest : Forall (λ x, h_tRowID x <> m_tRowID d) rest -> ∀ hits f my out r f' my', Forall (λ x, h_tRowID x = m_tRowID d) hits ->
  run_reports hits my f = Some (r, f', my') ->
  run_doc d (hits ++ rest) f my out = Some (rest, f', my', if is_new (m_tRowID d) out then out ++ from_option (λ x, [nway_doc d x]) [] r else out).
Proof.
  intros Fr. induction hits as [|x hits IH]; intros f my out r f' my' Fh E.
  { cbn in E. injection E as <- <- <-. cbn [app from_option]. rewrite app_nil_r.
    assert (run_doc d rest f my out = Some (rest, f, my, out)) as -> by (destruct Fr as [|y l Hy _]; [done|]; cbn; by rewrite (proj2 (Z.eqb_neq _ _))).
    by destruct (is_new _ out). }
  cbn [app run_doc run_reports] in *. inversion Fh as [|? ? Ex Fh']; subst. rewrite Ex, Z.eqb_refl.
  destruct (fsm_hit x my f) as [[[b1 f1] my1]|]; [|done]. cbn [mbind option_bind] in *.
  destruct (run_reports hits my1 f1) as [[[r2 f2] my2]|] eqn:E2; [|done]. injection E as <- <- <-.
  rewrite (IH _ _ _ _ _ _ Fh' E2). destruct b1; cbn [andb].
  - destruct (is_new (m_tRowID d) out) eqn:En; [|by rewrite En]. rewrite is_new_snoc. cbn [nway_doc m_tRowID]. by rewrite Ex, Z.eqb_refl.
  - done.
Qed.

(** *** The child and its hits *)

Lemma WarmupHits_ok b p hs s w : child_ok b p s -> w_kill w = None -> (∃ P, hinv h P s) -> hs = all h (docs p) ->
  ∃ p' s' w', WarmupHits p hs s w = Some (HasDocs p', p', all h (docs p'), s', w') /\ warm_post b p s w p' s' w' /\ ∃ P, hinv h P s'.
Proof.
  intros Hc Hw [P HP] ->. unfold WarmupHits. destruct (HasDocs p) eqn:Ep.
  { exists p, s, w. rewrite Ep. split; [done|]. split; [by apply warm_here|eauto]. }
  pose proof (proj1 (HasDocs_false p) Ep) as Ed. pose proof Hc as [_ Hi]. rewrite Ed in Hi. cbn in Hi.
  destruct (chunk_ok b s w Hi Hw) as (p1 & s1 & w1 & E & Cp). rewrite E. cbn [mbind option_bind].
  pose proof (chunk_hits _ _ _ _ _ _ _ HP E) as HP1. pose proof (warm_chunk b p s w p1 s1 w1 Hc Ep Cp) as W.
  destruct (HasDocs p1) eqn:E1.
  - destruct p1 as [D|]; [|done]. destruct (wp_ok _ _ _ _ _ _ _ W) as [Ha Hi1]. cbn [docs default] in *.
    destruct (gethits_ok h _ s1 b D HP1 Ha) as (s2 & E2 & HP2); [intros r Hr; apply elem_of_app; by right|apply Cp|].
    rewrite E2. cbn [mbind option_bind]. exists (Some D), s2, w1. cbn [docs default HasDocs] in *. rewrite E1. split; [done|].
    destruct (gethits_same _ _ _ _ _ Hi1 E2) as (G1 & G2 & G3). split; [|eauto].
    destruct W as [W1 W2 W3 W4 W5 W6]. unfold str, child_ok in *. split; unfold str, child_ok; cbn [docs default] in *; rewrite ?G1, ?G3; auto. by destruct D.
  - exists p1, s1, w1. rewrite E1. apply HasDocs_false in E1. rewrite Ed, E1. cbn [rows map]. split; [done|]. split; [done|eauto].
Qed.

(** *** The loop *)

Lemma nway_turn b p s f my d l hs : let n := ExtNWay s p hs my f in nway_ok b n -> docs p = d :: l ->
  ∃ f' my', (∀ out, is_new (m_tRowID d) out = true -> run_doc d hs (fsm_reset f) my out = Some (all h l, f', my', out ++ option_list (nway_emit f d))) /\
    nway_ok (m_tRowID d) (ExtNWay s (Some l) (all h l) my' f') /\ b < m_tRowID d /\
    nway_rem n = option_list (nway_emit f d) ++ nway_rem (ExtNWay s (Some l) (all h l) my' f').
Proof.
  intros n [N1 N2 N3 N4 N5 N6] Ed. cbn [m_pNode m_pDocs m_pHits n_fsm n] in *. rewrite Ed in *. cbn [rows map concat] in *.
  destruct (child_tail _ _ _ _ _ N1 Ed) as (Hb & Hc & Es). subst hs.
  destruct (run_ok f (h (m_tRowID d)) my N5 (N6 _)) as (f' & my' & E & M1 & M2 & M3). exists f', my'. split; [|split; [|split; [lia|]]].
  - intros out Hn. rewrite (run_doc_ok d (all h l)) with (r := mfirst f (h (m_tRowID d))) (f' := f') (my' := my'); [|..|apply N4|done].
    + rewrite Hn. unfold nway_emit. by destruct (mfirst _ _).
    + destruct Hc as [Ha _]. cbn in Ha. destruct (asc_sorted _ _ Ha) as [Sd _]. apply StronglySorted_inv in Sd as [_ Fd].
      eapply Forall_impl; [apply (all_rows h (rows l)); by apply Forall_true|]. cbv beta. intros x Hx. rewrite Forall_forall in Fd. specialize (Fd _ Hx). lia.
  - split; cbn; auto. by intros r; rewrite M2.
  - unfold nway_rem, n. cbn [m_pNode m_pDocs n_fsm]. rewrite Es. cbn [omap list_omap].
    assert (nway_emit f' = nway_emit f) as -> by (unfold nway_emit; by rewrite M3). by destruct (nway_emit f d).
Qed.

Lemma nway_weaken b b' n : nway_ok b n -> b' <= b -> nway_ok b' n.
Proof. intros [] ?. split; auto. by eapply child_weaken. Qed.

(** The refill at the end of a turn. *)
Lemma nway_refill b n w : nway_ok b n -> w_kill w = None ->
  ∃ p s w', WarmupHits (m_pDocs n) (m_pHits n) (m_pNode n) w = Some (HasDocs p, p, all h (docs p), s, w') /\
    let n' := ExtNWay s p (all h (docs p)) (m_dMyHits n) (n_fsm n) in
    nway_ok b n' /\ nway_rem n' = nway_rem n /\ (nway_work n' <= nway_work n)%nat /\ w_kill w' = None /\ later w w' /\
    (docs p = [] -> nway_ok INVALID_ROWID n' \/ expired w').
Proof.
  intros [N1 N2 N3 N4 N5 N6] Hw. destruct (WarmupHits_ok b _ _ _ w N1 Hw N2 N3) as (p & s & w' & E & [W1 W2 W3 W4 W5 W6] & HP).
  exists p, s, w'. split; [done|]. split; [by split|]. unfold nway_rem, nway_work. cbn [m_pNode m_pDocs n_fsm]. rewrite W2. split; [done|]. split; [lia|]. split; [done|]. split; [done|].
  intros E0. destruct (W5 E0); [left|by right]. by split.
Qed.

Lemma nway_loop_ok b fuel : ∀ n out w, w_kill w = None -> nway_ok (last_row b out) n -> docs (m_pDocs n) <> [] ->
  (length out <= MAX_BLOCK_DOCS - 1)%nat -> (nway_work n < fuel)%nat -> loop_post nway_rem nway_ok nway_work b n out w (nway_loop fuel n out w).
Proof.
  induction fuel as [|fuel IH]; intros [s p hs my f] out w Hw Hn Hd Hl Hf; [lia|]. cbn [nway_loop m_pDocs m_pHits m_pNode m_dMyHits n_fsm] in *.
  pose proof (has_room_spec out) as Hr. destruct (has_room out); cbn [negb]; [|apply loop_stop; auto; lia].
  destruct (docs p) as [|d l] eqn:Ed; [done|]. destruct (nway_turn _ _ _ _ _ _ _ _ Hn Ed) as (f' & my' & E & N1 & N2 & N3).
  rewrite E. 2:{ unfold is_new. destruct (last out) as [x|] eqn:El; [|done]. apply last_Some in El as [l0 ->]. rewrite last_row_snoc in N2. apply negb_true_iff, Z.eqb_neq. lia. }
  cbn [mbind option_bind]. destruct (nway_refill _ _ w N1 Hw) as (p2 & s2 & w2 & E2 & R1 & R2 & R3 & R4 & R5 & R6).
  cbn [m_pDocs m_pHits m_pNode m_dMyHits n_fsm] in *. rewrite E2. cbn [mbind option_bind].
  set (n2 := ExtNWay s2 p2 _ my' f') in *.
  assert (nway_work (ExtNWay s p hs my f) = S (nway_work (ExtNWay s (Some l) (all h l) my' f'))) as Ew by (unfold nway_work; cbn [m_pDocs m_pNode]; rewrite Ed; cbn; lia).
  assert (length (option_list (nway_emit f d)) <= 1)%nat as E1 by (destruct (nway_emit f d); cbn; lia).
  apply (loop_emits _ _ _ b _ n2 (option_list (nway_emit f d)) out w w2); [congruence|lia|done|].
  assert (last_row b (out ++ option_list (nway_emit f d)) <= m_tRowID d) as Eb.
  { destruct (nway_emit f d) as [x|] eqn:Ex; [|cbn; rewrite app_nil_r; lia]. rewrite last_row_app; cbn.
    rewrite (emit_row f d x); [lia|apply Hn|done]. }
  destruct (HasDocs p2) eqn:Eh.
  - apply HasDocs_docs in Eh. apply IH; auto; [by apply (nway_weaken _ _ _ R1)|rewrite length_app; lia|lia].
  - apply HasDocs_false in Eh. apply loop_stop; auto; [by apply (nway_weaken _ _ _ R1)|rewrite length_app; lia].
Qed.

(** *** The node *)

Lemma omap_asc (e : ExtDoc_t -> option ExtDoc_t) : (∀ d x, e d = Some x -> m_tRowID x = m_tRowID d) -> ∀ l b, asc b l -> asc b (omap e l).
Proof.
  intros He. induction l as [|d l IH]; intros b; [done|]. intros [Hd Hl]. cbn [omap list_omap]. destruct (e d) as [x|] eqn:Ex.
  - cbn [asc]. rewrite (He _ _ Ex). split; [done|]. by apply IH.
  - apply asc_weaken with (m_tRowID d); [by apply IH|lia].
Qed.

Lemma omap_ge (e : ExtDoc_t -> option ExtDoc_t) k l : (∀ d x, e d = Some x -> m_tRowID x = m_tRowID d) -> ge_docs k (omap e l) = omap e (ge_docs k l).
Proof.
  intros He. unfold ge_docs. induction l as [|d l IH]; [done|]. cbn [omap list_omap]. rewrite filter_cons. destruct (e d) as [x|] eqn:Ex.
  - rewrite filter_cons, (He _ _ Ex). case_decide; cbn [omap list_omap]; rewrite ?Ex; by rewrite <- IH.
  - case_decide; cbn [omap list_omap]; rewrite ?Ex; apply IH.
Qed.

Lemma nway_chunk_ok b n w : nway_ok b n -> w_kill w = None -> ∃ p n' w', nway_chunk n w = Some (p, n', w') /\ chunk_post nway_rem nway_ok b n w p n' w'.
Proof.
  intros Hn Hw. unfold nway_chunk. destruct (nway_refill b n w Hn Hw) as (p & s & w1 & -> & R1 & R2 & R3 & R4 & R5 & R6). cbn [mbind option_bind].
  set (n1 := ExtNWay s p _ _ _) in *. destruct (HasDocs p) eqn:Eh; cbn [negb].
  - apply HasDocs_docs in Eh. destruct (nway_loop_ok b (S (nway_work n1)) n1 [] w1) as (new & n2 & w2 & -> & H); auto; [cbn; lia|].
    cbn [mbind option_bind app]. exists (ReturnDocsChunk new), n2, w2. split; [done|].
    destruct (chunk_of_end (N := ExtNWay_node) id nway_rem nway_ok nway_work b n1 w1 new n2 w2 (λ _, eq_refl) H) as [C1 C2 C3 C4 C5 C6 C7 C8].
    unfold id in *. split; auto; [congruence|]. change (work n) with (nway_work n). change (work n1) with (nway_work n1) in C5. change (work n2) with (nway_work n2) in *. lia.
  - apply HasDocs_false in Eh. exists None, n1, w1. split; [done|]. split; cbn; auto; [lia|]. change (nway_work n1 + 0 <= nway_work n)%nat. lia.
Qed.

Definition nway_contract : ExtNodeOk nway.
Proof.
  refine {| rem := nway_rem; inv := nway_ok |}.
  - intros b n [N1 N2 N3 N4 N5 N6]. apply omap_asc; [intros d x; by apply emit_row|by apply child_asc].
  - apply nway_weaken.
  - apply nway_chunk_ok.
  - intros b k n [N1 [P HP] N3 N4 N5 N6]. destruct (child_hint b k _ _ N1) as [Hc Hg]. split; [|split].
    + split; auto. exists P. by apply hint_hits.
    + unfold nway_rem. cbn [m_pDocs m_pNode n_fsm HintRowID ExtNWay_node]. rewrite !omap_ge, Hg by (intros d x; by apply emit_row). done.
    + destruct N1 as [_ Hi]. destruct (hint_ok _ k _ Hi) as (_ & _ & Hw). change (nway_work (HintRowID k n) <= nway_work n)%nat. unfold nway_work. cbn [m_pNode m_pDocs HintRowID ExtNWay_node]. lia.
Defined.
End NWay.

(** ** The phrase machine *)

(** The hit at which the first phrase ends. *)
Fixpoint first_phrase (atoms : list Z) (seen hits : list ExtHit_t) : option ExtHit_t :=
  match hits with
  | [] => None
  | h :: hits' => if PhraseOk.phrase_ends atoms seen h then Some h else first_phrase atoms (seen ++ [h]) hits'
  end.

Record atoms_ok (atoms : list Z) : Prop := {
  ao_sorted : StronglySorted Z.lt atoms;
  ao_two : (2 <= length atoms)%nat;
  ao_width : Forall (λ a, 0 <= a < 2 ^ 16) atoms }.

Definition phrase_minv (f : FSMphrase_c) : Prop := ∃ atoms mask states, f = set_states states (new_phrase atoms mask) /\ atoms_ok atoms.

Record in_order (hits : list ExtHit_t) : Prop := {
  io_width : Forall (λ h, in_type DWORD (m_uHitpos h)) hits;
  io_sorted : StronglySorted Z.le (map posf hits) }.

Lemma first_in atoms hits x : ∀ seen, first_phrase atoms seen hits = Some x -> x ∈ hits.
Proof.
  induction hits as [|h hits IH]; intros seen E; [done|]. cbn in E. destruct (PhraseOk.phrase_ends _ _ _); [injection E as <-; by left|right; by eapply IH].
Qed.

Lemma first_ref atoms mask hits : ∀ seen, is_Some (first_phrase atoms seen hits) <-> PhraseOk.phrase_ref (new_phrase atoms mask) seen hits <> [].
Proof.
  induction hits as [|h hits IH]; intros seen; cbn [first_phrase PhraseOk.phrase_ref]; [split; [by intros []|done]|].
  change (m_dAtomPos (new_phrase atoms mask)) with atoms. destruct (PhraseOk.phrase_ends _ _ _); [|apply IH]. split; [done|by eexists].
Qed.

(** A phrase is reported exactly if it is there. *)
Lemma first_phrase_in atoms hits : atoms_ok atoms -> in_order hits -> (is_Some (first_phrase atoms [] hits) <-> PhraseOk.phrase_in atoms hits).
Proof. intros [] []. rewrite (first_ref atoms false). by apply PhraseOk.ref_in. Qed.

Lemma phrase_reports atoms mask (Ha : atoms_ok atoms) hits : ∀ p seen states my, PhraseOk.inv atoms p seen states -> StronglySorted Z.le (p :: map posf hits) ->
  Forall (λ h, in_type DWORD (m_uHitpos h)) hits ->
  ∃ states' my', run_reports hits my (set_states states (new_phrase atoms mask)) = Some (first_phrase atoms seen hits, set_states states' (new_phrase atoms mask), my').
Proof.
  destruct Ha as [A1 A2 A3]. induction hits as [|h hits IH]; intros p seen states my I So Fw; cbn [run_reports first_phrase]; [by eexists _, _|].
  apply Forall_cons in Fw as [Hw Fw]. cbn [map] in So. apply StronglySorted_cons in So as [Fp So]. apply Forall_cons in Fp as [Hp _].
  destruct (PhraseOk.phrase_step atoms mask A1 A2 A3 p seen states h my I Hp Hw) as (st & E & I'). cbn [fsm_hit phrase_fsm]. rewrite E. cbn [mbind option_bind].
  set (my1 := if PhraseOk.phrase_ends atoms seen h then _ else _). destruct (IH _ _ st my1 I' So Fw) as (st' & my' & E'). rewrite E'. cbn [mbind option_bind].
  exists st', my'. by destruct (PhraseOk.phrase_ends atoms seen h).
Qed.

#[export] Program Instance phrase_machine : MachineOk FSMphrase_c := {
  minv := phrase_minv;
  mgood _ := in_order;
  mfirst f := first_phrase (m_dAtomPos f) []
}.
Next Obligation.
  intros f hits my (atoms & mask & states & -> & Ha) [Hd So].
  destruct (phrase_reports atoms mask Ha hits (-1) [] [] my (PhraseOk.inv_new atoms (ao_two _ Ha) (-1)) (PhraseOk.sorted_from hits Hd So) Hd) as (st & my' & E).
  eexists _, my'. split; [exact E|]. split; [by exists atoms, mask, st|done].
Qed.
Next Obligation. intros f hits x. apply first_in. Qed.
End NWayOk.

(** * The hits of the disk reader

    [DiskIndexQword_c] meets the contract of a reader of hits: after a seek it
    gives the hits of the document and stops, and reading hits does not move it
    in the list of documents. *)

From S2P Require Import Prelude Zip Hits SearchNode SearchNodeOk ExtTerm Doclist DoclistOk HitBuilderOk HitNode.
Import Zip Hitman SearchNode ExtTerm Doclist DoclistOk HitNode HitNodeOk.

Module DiskHits.

#[export] Instance disk_bound : HitBound DiskIndexQword_c := { hitwork q := (3 + length (f_hitlist (qs q)))%nat }.

(** ** Reading stops *)

Lemma unzip_be4_short T s v r : UnzipValueBE4 T s = Some (v, r) -> (length r < length s)%nat.
Proof.
  unfold UnzipValueBE4, get. intros E. destruct s as [|? s]; [done|]. cbn [mbind option_bind length] in *.
  do 4 (case_match; [simplify_eq; lia|]; destruct s as [|? s]; [done|]; cbn [mbind option_bind length] in *). simplify_eq. lia.
Qed.

Lemma UnzipInt_short rd v rd' : UnzipInt rd = (v, rd') -> v <> 0 -> (length rd' < length rd)%nat.
Proof.
  unfold UnzipInt. intros E Hv. destruct (UnzipValueBE4 DWORD (rd ++ [0])) as [[x r]|] eqn:Eu; [|by simplify_eq]. injection E as -> <-.
  destruct rd as [|b rd]; [vm_compute in Eu; by simplify_eq|]. apply unzip_be4_short in Eu. unfold drop_eof. rewrite length_take. rewrite length_app in Eu. cbn [length] in *. lia.
Qed.

(** The hits from a state of the hit reader, with the reader at their end. *)
Lemma read_hits_state fuel : ∀ q rd p i, qh q = HitState rd 0 p i -> (length rd < fuel)%nat ->
  ∃ q', read_hits fuel q = Some (HitBuilderRead.read_hits fuel (qh q), q').
Proof.
  induction fuel as [|fuel IH]; intros q rd p i E Hf; [lia|]. cbn [read_hits HitBuilderRead.read_hits GetNextHit DiskIndexQword_qword]. rewrite E. unfold get_next_hit at 1 2.
  cbn [m_uHitState m_rdHitlist m_iHitPos m_uInlinedHit Z.eqb]. destruct (UnzipInt rd) as [d rd'] eqn:Eu.
  destruct (Z.eqb_spec d 0) as [->|N]; [by eexists|]. destruct (_ =? EMPTY_HIT); [by eexists|].
  pose proof (UnzipInt_short _ _ _ Eu N). destruct (IH (set_h q (HitState rd' 0 (cast DWORD (p + d)) i)) rd' (cast DWORD (p + d)) i eq_refl) as (q' & ->); [lia|].
  by eexists.
Qed.

Lemma read_indep fuel : ∀ rd p i i', HitBuilderRead.read_hits fuel (HitState rd 0 p i) = HitBuilderRead.read_hits fuel (HitState rd 0 p i').
Proof.
  induction fuel as [|fuel IH]; intros rd p i i'; [done|]. cbn [HitBuilderRead.read_hits]. unfold get_next_hit. cbn [m_uHitState m_rdHitlist m_iHitPos m_uInlinedHit Z.eqb].
  destruct (UnzipInt rd) as [d rd']. destruct (_ =? EMPTY_HIT); [done|]. f_equal. apply IH.
Qed.

(** ** The contract *)

Lemma disk_read q off : ∃ q', read_hits (hitwork q) (SeekHitlist off q) = Some (HitBuilderRead.hits_at (qs q) off, q').
Proof.
  unfold HitBuilderRead.hits_at. cbn [hitwork disk_bound SeekHitlist DiskIndexQword_qword]. unfold seek_hitlist. destruct (negb _) eqn:Es.
  - cbn [Nat.add read_hits HitBuilderRead.read_hits GetNextHit DiskIndexQword_qword set_h qh]. unfold get_next_hit. cbn. destruct (_ =? EMPTY_HIT); by eexists.
  - edestruct (read_hits_state (3 + length (f_hitlist (qs q))) (set_h q (HitState (SeekTo (f_hitlist (qs q)) off) 0 EMPTY_HIT (m_uInlinedHit (qh q))))) as (q' & ->); [done| |].
    + unfold SeekTo. rewrite length_drop. lia.
    + exists q'. cbn [qh set_h]. by rewrite (read_indep _ _ _ _ (m_uInlinedHit hit0)).
Qed.

(** A hint only skips postings. *)
Lemma postings_app c hp es1 es2 : postings c hp (es1 ++ es2) = postings c hp es1 ++ postings c (hp_after c hp es1) es2.
Proof. revert hp. induction es1 as [|e es1 IH]; intros hp; [done|]. cbn [app postings hp_after]. by rewrite IH. Qed.

Lemma hint_suffix b k q p : disk_inv b q -> p ∈ disk_rem (q_HintRowID k q) -> p ∈ disk_rem q.
Proof.
  intros (before & all & after & done & rest & H) Hp.
  destruct (hint_rowid_ok _ _ _ _ k _ _ _ (proj1 H) (proj1 (proj2 H)) (proj1 (proj2 (proj2 H))) (proj1 (proj2 (proj2 (proj2 H))))) as [(mid & rest' & -> & S' & Hm) C' L].
  rewrite (disk_rem_eq _ _ _ _ _ _ _ H), postings_app. apply elem_of_app. right. destruct H as (F & K & S & C & A).
  assert (qinv_at before all after b (q_HintRowID k q) (done ++ mid) rest') as I.
  { repeat (split; [done|]). rewrite hp_after_app. by apply pasc_suffix. }
  by rewrite (disk_rem_eq _ _ _ _ _ _ _ I), hp_after_app in Hp.
Qed.

#[export] Program Instance disk_hits : QwordHits DiskIndexQword_c := { qhits q := HitBuilderRead.hits_at (qs q) }.
Next Obligation. apply disk_read. Qed.
Next Obligation. done. Qed.
Next Obligation. intros q. cbn. by destruct (get_next_hit (qh q)). Qed.
Next Obligation. done. Qed.
Next Obligation. intros q. cbn. by destruct (collect_hit_mask _ _ _). Qed.
Next Obligation. done. Qed.
Next Obligation. done. Qed.
Next Obligation. intros b k q p. apply hint_suffix. Qed.
Next Obligation. done. Qed.
Next Obligation. intros q. cbn. by destruct (get_next_hit (qh q)). Qed.
End DiskHits.
