(* ===== verification/PhraseNode.v ===== *)
(** * The node of a phrase (src/src/searchnode.cpp, [ExtNWay_T] and its construction)

    [ExtNWay_T::ExtNWay_T] sorts its keywords by the number of their documents
    and makes a chain of AND nodes of them ([ExtNWay_c::ConstructNode]); the
    phrase machine runs over the hits of the chain. *)

From S2P Require Import Prelude Hits SearchNode ExtTerm Sort Phrase HitNode.
Import Hitman SearchNode ExtTerm Phrase HitNode.

Module PhraseNode.

Section Chain.
Context {Q : Type} {I : ISphQword Q} {B : HitBound Q}.
Abbreviation term := (ExtTerm_T Q).

(** The class of a chain with [k] AND nodes. *)
Fixpoint chain (k : nat) : Type :=
  match k with O => term | S k' => ExtAndHits_c (chain k') term end.

(** Its virtual methods. *)
#[export] Instance chain_node : ∀ k, ExtNode_i (chain k) :=
  fix go k := match k with O => ExtTerm_node | S k' => @ExtAndHits_node _ _ (go k') ExtTerm_node end.

#[export] Instance chain_hits : ∀ k, HitNode (chain k) :=
  fix go k := match k with O => ExtTerm_hits | S k' => @ExtAnd_hits _ _ (go k') ExtTerm_hits end.

(** [SetCollectHits]. *)
Definition term_SetCollectHits (t : term) : term :=
  MkTerm (m_pQword t) (ROWID_LIMITS t) (STATS t) (m_dQueriedFields t) (m_bHasWideFields t) (m_fIDF t) true (m_tBoundaries t) (m_iAtomPos t)
    (m_dStoredHits t) (m_iFetchedDocs t) (m_iFetchedHits t) (m_iSkips t).

Fixpoint SetCollectHits (k : nat) : chain k -> chain k :=
  match k with
  | O => term_SetCollectHits
  | S k' => λ n,
      let t := and_base (ah_node n) in
      ExtAndHits (ExtAnd (ExtTwofer (SetCollectHits k' (m_pLeft t)) (term_SetCollectHits (m_pRight t)) (m_pDocL t) (m_pDocR t)))
        (m_uNodePosL n) (m_uNodePosR n) (m_bQPosReverse n)
  end.

Definition SetQPosReverse (k : nat) : chain k -> chain k :=
  match k with
  | O => id
  | S k' => λ n, ExtAndHits (ah_node n) (m_uNodePosL n) (m_uNodePosR n) true
  end.

(** [new ExtAnd_c ( pCur, pNode )] and [SetNodePos]: the node and its
    [GetDocsCount], from those of the children. The constructor swaps its
    children where only the second is empty: [None], the chain is in the order
    of the counts. *)
Definition new_and {k : nat} (pCur : chain k) (iDocs : Z) (pNode : term) (uPosLeft uPosRight : Z) : option (chain (S k) * Z) :=
  let iDocsR := q_iDocs (m_pQword pNode) in
  let m_bEmpty := (iDocs =? 0) || (iDocsR =? 0) in
  if negb (iDocs =? 0) && (iDocsR =? 0) then None
  else Some (ExtAndHits (ExtAnd (twofer_init pCur pNode)) uPosLeft uPosRight false, if m_bEmpty then 0 else INT_MAX).

(** The loop of [ConstructNode]. *)
Fixpoint construct_loop (dNodes : list term) (dPositions : list Z) {k : nat} (pCur : chain k) (iDocs uLPos : Z) : option {k & chain k} :=
  match dPositions with
  | [] => Some (existT k pCur)
  | uRPos :: dPositions' =>
      pNode ← dNodes !! Z.to_nat uRPos;
      '(pCurEx, iDocs) ← new_and pCur iDocs pNode uLPos (cast WORD (uRPos + 1));
      construct_loop dNodes dPositions' pCurEx iDocs 0
  end.

Definition ConstructNode (dNodes : list term) (dPositions : list Z) : option {k & chain k} :=
  match dPositions with
  | [] => None
  | uLPos :: dPositions' =>
      match (dNodes !! Z.to_nat uLPos : option term) with
      | None => None
      | Some pCur =>
          '(existT k pCur) ← construct_loop (k := 0) dNodes dPositions' pCur (q_iDocs (m_pQword pCur)) (cast WORD (uLPos + 1));
          Some (existT k (SetCollectHits k (SetQPosReverse k pCur)))
      end
  end.

(** [ExtNodeTFExt_fn]; the positions are in range. *)
Definition docs_count (dNodes : list term) (u : Z) : Z := from_option (λ t, q_iDocs (m_pQword t)) 0 (dNodes !! Z.to_nat u).

Definition tf_less (dNodes : list term) (uA uB : Z) : bool := docs_count dNodes uA <? docs_count dNodes uB.

(** [ExtNWay_T<FSMphrase_c>::ExtNWay_T]. *)
Definition new_phrase_node (dNodes : list term) (bSetQposMask : bool) : option {k & ExtNWay_T (chain k) FSMphrase_c} :=
  dPositions ← Sort.sphSort (tf_less dNodes) (map (λ i, cast WORD (Z.of_nat i)) (seq 0 (length dNodes)));
  '(existT k pNode) ← ConstructNode dNodes dPositions;
  Some (existT (P := λ k, ExtNWay_T (chain k) FSMphrase_c) k (new_nway pNode (new_phrase (map m_iAtomPos dNodes) bSetQposMask))).
End Chain.
Arguments chain : clear implicits.
End PhraseNode.
