(* ===== verification/PhraseNodeOk.v ===== *)
(** * A phrase query finds the rows with the phrase

    The node of a phrase put together: keywords, AND nodes, the reverse order
    of the hits and the phrase machine. The stream of the node has exactly the
    rows that have all keywords and, somewhere, their hits at the distances of
    the query. *)

From stdpp Require Import sorting sets.
From S2P Require Import Prelude Hits SearchNode SearchNodeOk ExtTerm Ranker Search Sort SortOk Phrase PhraseOk HitNode HitNodeOk PhraseNode.
Import Hitman FieldMask SearchNode SearchNodeOk ExtTerm Ranker Search Phrase HitNode HitNodeOk HitAndOk NWayOk PhraseNode.

Module PhraseNodeOk.

Section Chain.
Context {Q : Type} {I : ISphQword Q} {K : QwordOk Q} {B : HitBound Q} {QH : QwordHits Q}.
Abbreviation term := (ExtTerm_T Q).

#[export] Instance chain_ok : ∀ k, ExtNodeOk (chain Q k) :=
  fix go k := match k with O => ExtTerm_ok | S k' => @ExtAndHits_ok _ _ _ _ (go k') ExtTerm_ok end.

#[export] Instance chain_hits_ok : ∀ k, HitNodeOk (chain Q k) :=
  fix go k := match k with O => ExtTerm_hits_ok | S k' => @ExtAnd_hits_ok _ _ _ _ _ _ _ _ (go k') ExtTerm_hits_ok end.

(** ** The hits of a keyword *)

Definition posting_at (t : term) (x : Z) : option posting := head (filter (λ p, p_row p = x) (qrem (m_pQword t))).

(** The hits of a row in the queried fields, as positions. *)
Definition hits_at (t : term) (x : Z) : list Z :=
  match posting_at t x with
  | Some p => filter (λ u, Test_ (m_dQueriedFields t) (GetField u) = true) (qhits (m_pQword t) (p_hitpos p))
  | None => []
  end.

Definition ht (t : term) (x : Z) : list ExtHit_t := map (term_hit t x) (hits_at t x).

(** A keyword before the first document. *)
Record leaf_ok (t : term) : Prop := {
  lf_inv : term_inv (-1) t;
  lf_new : m_dStoredHits t = [] }.

Lemma posting_here t b p : pasc b (qrem (m_pQword t)) -> p ∈ qrem (m_pQword t) -> posting_at t (p_row p) = Some p.
Proof.
  unfold posting_at. revert b. induction (qrem (m_pQword t)) as [|q l IH]; intros b Ha Hp; [by apply elem_of_nil in Hp|].
  destruct Ha as [Hq Ha]. rewrite filter_cons. apply elem_of_cons in Hp as [->|Hp]; [by rewrite decide_True|].
  rewrite decide_False; [by eapply IH|]. clear IH. intros E. revert Ha Hp. assert (p_row p <= p_row q) as Hle by lia. revert Hle. clear E. generalize (p_row q).
  induction l as [|y l IH]; intros c Hle Ha Hp; [by apply elem_of_nil in Hp|]. destruct Ha as [Hy Ha]. apply elem_of_cons in Hp as [->|Hp]; [lia|].
  apply (IH (p_row y)); [lia|done|done].
Qed.

Lemma leaf_hits t : leaf_ok t -> term_hinv (ht t) [] (term_SetCollectHits t).
Proof.
  intros [[Hb Hi] Hn]. exists (-1). split; cbn; auto.
  - by rewrite Hn.
  - constructor.
  - rewrite Hn. by intros s ?%elem_of_nil.
  - intros N p Hp. unfold shows, ht, hits_at. rewrite (posting_here t (-1) p); [done|by apply qinv_asc, Hi|done].
Qed.

Lemma ht_own t r : own (ht t) r.
Proof. unfold own, ht. by apply Forall_map, Forall_true. Qed.

(** ** Chains *)

(** The chain [c] over the keywords [l] has the rows they share, and the hits
    [h] of those: all hits of all keywords, if each has one. *)
Record good {k : nat} (c : chain Q k) (l : list term) (h : Z -> list ExtHit_t) : Prop := {
  g_inv : inv (-1) c;
  g_hinv : hinv h [] c;
  g_own : ∀ r, own h r;
  g_rem : ∀ x, is_Some (find_row x (rem c)) <-> ∀ t, t ∈ l -> is_Some (find_row x (term_rem t));
  g_none : ∀ r, (∃ t, t ∈ l /\ ht t r = []) -> h r = [];
  g_keys : ∀ r, (∀ t, t ∈ l -> ht t r <> []) -> h r <> [] /\ map hkey (h r) ≡ₚ concat (map (λ t, map hkey (ht t r)) l) }.

Lemma good_leaf t : leaf_ok t -> good (k := 0) (term_SetCollectHits t) [t] (ht t).
Proof.
  intros Ht. split.
  - apply Ht.
  - by apply leaf_hits.
  - apply ht_own.
  - intros x. split; [intros H t' ->%list_elem_of_singleton; exact H|]. intros H. apply (H t). by left.
  - intros r (t' & ->%list_elem_of_singleton & E). done.
  - intros r H. split; [apply H; by left|]. cbn. by rewrite app_nil_r.
Qed.

Lemma hkey_nodepos u x : hkey (set_nodepos u x) = hkey x.
Proof. unfold set_nodepos. by destruct (u =? 0). Qed.

Lemma and_row_keys uL uR xl xr : xl <> [] -> xr <> [] -> and_row uL uR xl xr <> [] /\ map hkey (and_row uL uR xl xr) ≡ₚ map hkey xl ++ map hkey xr.
Proof.
  intros Hl Hr. assert (and_row uL uR xl xr = merge_row uL uR xl xr) as -> by (unfold and_row; by destruct xl, xr).
  assert (map hkey (merge_row uL uR xl xr) ≡ₚ map hkey xl ++ map hkey xr) as E.
  { rewrite merge_row_perm, map_app, !map_map. by rewrite (map_ext _ _ (hkey_nodepos uL)), (map_ext _ _ (hkey_nodepos uR)). }
  split; [|done]. intros E0. rewrite E0 in E. cbn in E. apply Permutation_nil in E. destruct xl; [done|]. discriminate E.
Qed.

Lemma good_and {k} (c : chain Q k) l h t uL uR : good c l h -> leaf_ok t ->
  good (k := S k) (ExtAndHits (ExtAnd (twofer_init c (term_SetCollectHits t))) uL uR false) (l ++ [t]) (λ r, and_row uL uR (h r) (ht t r)).
Proof.
  intros [G1 G2 G3 G4 G5 G6] Ht. split.
  - assert (child_ok (-1) None c) as C1 by done. assert (child_ok (-1) None (term_SetCollectHits t)) as C2 by (split; [done|apply Ht]).
    split; [by split|by left].
  - exists h, (ht t). split; [|done]. split; [| |constructor].
    + exists []. split; [done|]. by intros r ?%elem_of_nil.
    + exists []. split; [by apply leaf_hits|]. by intros r ?%elem_of_nil.
  - intros r. apply and_row_own; [apply G3|apply ht_own].
  - intros x. change (rem _) with (sem_and (rem c) (term_rem t)). rewrite find_row_and. specialize (G4 x). unfold and_doc. split.
    + intros H t' Hin. apply elem_of_app in Hin as [Hin| ->%list_elem_of_singleton].
      * apply G4; [|done]. destruct (find_row x (rem c)); [done|by destruct H].
      * destruct (find_row x (rem c)), (find_row x (term_rem t)); cbn in H; try done; by destruct H.
    + intros H. destruct (proj2 G4) as [a Ea]; [intros t' Ht'; apply H, elem_of_app; by left|]. destruct (H t) as [b Eb]; [apply elem_of_app; right; by left|].
      rewrite Ea, Eb. by eexists.
  - intros r (t' & [Hin| ->%list_elem_of_singleton]%elem_of_app & E).
    + rewrite G5 by eauto. done.
    + rewrite E. by destruct (h r).
  - intros r H. destruct (G6 r) as [N1 P1]; [intros t' Ht'; apply H, elem_of_app; by left|]. assert (ht t r <> []) as N2 by (apply H, elem_of_app; right; by left).
    destruct (and_row_keys uL uR _ _ N1 N2) as [N3 P3]. split; [done|]. rewrite P3, P1, map_app, concat_app. cbn. by rewrite app_nil_r.
Qed.

(** *** The reverse order *)

#[export] Instance hle_dec a b : Decision (hle a b).
Proof. unfold hle, SortOk.le. apply _. Defined.

#[export] Instance hle_total : Total hle.
Proof. intros a b. rewrite !hle_spec. lia. Qed.

#[export] Instance hle_transitive : Transitive hle.
Proof. intros a b c. apply hle_trans. Qed.

Definition rev_hits (h : Z -> list ExtHit_t) (r : Z) : list ExtHit_t := merge_sort hle (h r).

Lemma rev_hits_perm h r : rev_hits h r ≡ₚ h r.
Proof. apply merge_sort_Permutation. Qed.

Lemma good_reverse {k} (c : chain Q (S k)) l h : m_bQPosReverse c = false -> good c l h -> (∀ r, NoDup (map hkey (h r))) -> (∀ r, len (h r) < 2 ^ 31) ->
  good (SetQPosReverse (S k) c) l (rev_hits h).
Proof.
  destruct c as [n uL uR rv]. cbn [m_bQPosReverse]. intros -> [G1 G2 G3 G4 G5 G6] Hn Hl. split; try done.
  - destruct G2 as (hl & hr & G2 & Hrow). exists hl, hr. split; [done|]. intros r. specialize (Hrow r). unfold row_ok in *. cbn in Hrow |- *.
    rewrite <- Hrow. split; auto; [apply rev_hits_perm|]. apply StronglySorted_merge_sort; apply _.
  - intros r. unfold own. rewrite rev_hits_perm. apply G3.
  - intros r H. unfold rev_hits. rewrite G5 by done. done.
  - intros r H. destruct (G6 r H) as [N P]. split; [|by rewrite rev_hits_perm]. intros E. apply N, Permutation_nil. by rewrite <- rev_hits_perm, E.
Qed.

(** *** Construction *)

(** A chain that ends in an AND node without the reverse order. *)
Definition plain (k : nat) : chain Q k -> Prop := match k with O => λ _, False | S _ => λ c, m_bQPosReverse c = false end.

Lemma construct_loop_good dNodes ps : ∀ k (c : chain Q k) iDocs uLPos l h, good (SetCollectHits k c) l h -> (plain k c \/ ps <> []) -> (∀ t, t ∈ dNodes -> leaf_ok t) ->
  (∀ p, p ∈ ps -> ∃ t, dNodes !! Z.to_nat p = Some t /\ (iDocs <> 0 -> q_iDocs (m_pQword t) <> 0)) ->
  ∃ k' (c' : chain Q k') h', construct_loop dNodes ps c iDocs uLPos = Some (existT k' c') /\ plain k' c' /\
    good (SetCollectHits k' c') (l ++ omap (λ p, dNodes !! Z.to_nat p) ps) h'.
Proof.
  induction ps as [|p ps IH]; intros k c iDocs uLPos l h Hg Hk Hd Hp.
  { exists k, c, h. cbn. rewrite app_nil_r. destruct Hk; done. }
  destruct (Hp p) as (t & Et & Hc); [by left|]. cbn [construct_loop omap list_omap]. rewrite Et. cbn [mbind option_bind]. unfold new_and.
  assert (negb (iDocs =? 0) && (q_iDocs (m_pQword t) =? 0) = false) as -> by lia. cbn [mbind option_bind].
  destruct (IH (S k) (ExtAndHits (ExtAnd (twofer_init c t)) uLPos (cast WORD (p + 1)) false)
    (if (iDocs =? 0) || (q_iDocs (m_pQword t) =? 0) then 0 else INT_MAX) 0 (l ++ [t]) _ (good_and (SetCollectHits k c) l h t uLPos (cast WORD (p + 1)) Hg (Hd t (list_elem_of_lookup_2 _ _ _ Et))))
    as (k' & c' & h' & E & P' & G'); [by left|done| |].
  - intros p' Hp'. destruct (Hp p') as (t' & Et' & Hc'); [by right|]. exists t'. split; [done|]. destruct (Z.eqb_spec iDocs 0); cbn; [done|]. auto.
  - exists k', c', h'. split; [exact E|]. split; [done|]. by rewrite <- app_assoc in G'.
Qed.

Lemma good_perm {k} (c : chain Q k) l l' h : l ≡ₚ l' -> good c l h -> good c l' h.
Proof.
  intros P [G1 G2 G3 G4 G5 G6]. split; auto.
  - intros x. rewrite G4. by setoid_rewrite P.
  - intros r (t & Ht & E). apply G5. exists t. by rewrite P.
  - intros r H. destruct (G6 r) as [N E]; [intros t; rewrite P; apply H|]. split; [done|]. by rewrite E, P.
Qed.

(** ** The keywords of a phrase *)

(** The hits of a row: the last hit of a field is marked, so that positions are
    in the order of the hits. *)
Record row_hits_ok (dNodes : list term) (x : Z) : Prop := {
  rh_width : ∀ t u, t ∈ dNodes -> u ∈ hits_at t x -> in_type DWORD u;
  rh_nodup : ∀ t, t ∈ dNodes -> NoDup (hits_at t x);
  rh_order : ∀ t t' u v, t ∈ dNodes -> t' ∈ dNodes -> u ∈ hits_at t x -> v ∈ hits_at t' x -> u <= v -> GetPosWithField u <= GetPosWithField v;
  rh_few : len (concat (map (λ t, hits_at t x) dNodes)) < 2 ^ 31 }.

Record phrase_ok (dNodes : list term) : Prop := {
  po_leaf : ∀ t, t ∈ dNodes -> leaf_ok t;
  po_docs : ∀ t, t ∈ dNodes -> 0 <= q_iDocs (m_pQword t);
  po_atoms : atoms_ok (map m_iAtomPos dNodes);
  po_hits : ∀ x, row_hits_ok dNodes x }.

Lemma ht_keys t x : 0 <= m_iAtomPos t < 2 ^ 16 -> map hkey (ht t x) = map (λ u, (u, m_iAtomPos t)) (hits_at t x).
Proof.
  intros Ha. unfold ht. rewrite map_map. apply map_ext. intros u. unfold hkey. cbn. f_equal. by apply wrap_small.
Qed.

Section Nodes.
Variable dNodes : list term.
Hypothesis Hok : phrase_ok dNodes.
Abbreviation atoms := (map m_iAtomPos dNodes).

Lemma atom_width t : t ∈ dNodes -> 0 <= m_iAtomPos t < 2 ^ 16.
Proof. intros Ht. pose proof (ao_width _ (po_atoms _ Hok)) as F. rewrite Forall_map in F. rewrite Forall_forall in F. by apply F. Qed.

Lemma atom_inj t t' : t ∈ dNodes -> t' ∈ dNodes -> m_iAtomPos t = m_iAtomPos t' -> t = t'.
Proof.
  pose proof (ao_sorted _ (po_atoms _ Hok)) as S. revert S. clear Hok. induction dNodes as [|a l IH]; [by intros _ ?%elem_of_nil|].
  cbn. intros [S F]%StronglySorted_inv. rewrite Forall_map in F. rewrite Forall_forall in F.
  intros [->|Ht]%elem_of_cons [->|Ht']%elem_of_cons E; auto; [specialize (F _ Ht')|specialize (F _ Ht)]; cbn in F; lia.
Qed.

(** *** The hits of a row *)

Context {k : nat} (c : chain Q k) (h : Z -> list ExtHit_t).
Hypothesis Hg : good c dNodes h.

Lemma keys_in x hp qp : (∀ t, t ∈ dNodes -> ht t x <> []) -> ((hp, qp) ∈ map hkey (h x) <-> ∃ t, t ∈ dNodes /\ hp ∈ hits_at t x /\ qp = m_iAtomPos t).
Proof.
  intros Hne. destruct (g_keys _ _ _ Hg x Hne) as [_ ->]. rewrite list_elem_of_In, in_concat. split.
  - intros (ks & Hk & Hin). apply in_map_iff in Hk as (t & <- & Ht). apply list_elem_of_In in Ht. rewrite ht_keys in Hin by by apply atom_width.
    apply in_map_iff in Hin as (u & [= <- <-] & Hu). apply list_elem_of_In in Hu. eauto.
  - intros (t & Ht & Hu & ->). exists (map hkey (ht t x)). rewrite ht_keys by by apply atom_width. split.
    + apply in_map_iff. exists t. split; [apply ht_keys; by apply atom_width|by apply list_elem_of_In].
    + apply in_map_iff. exists hp. split; [done|by apply list_elem_of_In].
Qed.

Lemma ht_nil t x : ht t x = [] <-> hits_at t x = [].
Proof. unfold ht. by destruct (hits_at t x). Qed.

(** The hits of the chain hold the phrase exactly if the keywords' do. *)
Lemma phrase_in_nodes x : PhraseOk.phrase_in atoms (h x) <->
  ∃ base, ∀ t, t ∈ dNodes -> ∃ u, u ∈ hits_at t x /\ GetPosWithField u = base + (m_iAtomPos t - hd 0 atoms).
Proof.
  unfold PhraseOk.phrase_in. f_equiv. intros base. split.
  - intros H. assert (h x <> []) as N.
    { pose proof (ao_two _ (po_atoms _ Hok)) as H2. rewrite length_map in H2. destruct dNodes as [|t l] eqn:E; [cbn in H2; lia|].
      destruct (H (m_iAtomPos t)) as (y & Hy & _); [by left|]. intros E0. rewrite E0 in Hy. by apply elem_of_nil in Hy. }
    assert (∀ t, t ∈ dNodes -> ht t x <> []) as Hne by (intros t Ht E; apply N, (g_none _ _ _ Hg); eauto).
    intros t Ht. destruct (H (m_iAtomPos t)) as (y & Hy & Eq & Ep); [by apply list_elem_of_fmap_2|].
    destruct (proj1 (keys_in x (m_uHitpos y) (m_uQuerypos y) Hne)) as (t' & Ht' & Hu & Ea); [by apply (list_elem_of_fmap_2 hkey)|].
    assert (t' = t) as -> by (apply atom_inj; [done|done|congruence]). eauto.
  - intros H a Ha. apply list_elem_of_fmap in Ha as (t & -> & Ht).
    assert (∀ t, t ∈ dNodes -> ht t x <> []) as Hne. { intros t' Ht' E%ht_nil. destruct (H t' Ht') as (u & Hu & _). rewrite E in Hu. by apply elem_of_nil in Hu. }
    destruct (H t Ht) as (u & Hu & Eu). assert ((u, m_iAtomPos t) ∈ map hkey (h x)) as Hk by (apply (keys_in x); eauto).
    apply list_elem_of_fmap in Hk as (y & [= -> Ey] & Hy). exists y. done.
Qed.

Lemma some_or_all x : (∃ t, t ∈ dNodes /\ ht t x = []) \/ ∀ t, t ∈ dNodes -> ht t x <> [].
Proof.
  destruct (decide (Forall (λ t, hits_at t x <> []) dNodes)) as [F|N].
  - right. rewrite Forall_forall in F. intros t Ht. rewrite ht_nil. by apply F.
  - left. apply not_Forall_Exists in N; [|apply _]. apply Exists_exists in N as (t & Ht & N). exists t. split; [done|]. apply ht_nil. by destruct (decide (hits_at t x = [])).
Qed.

Lemma nodup_tagged (f : term -> list Z) l : StronglySorted Z.lt (map m_iAtomPos l) -> (∀ t, t ∈ l -> NoDup (f t)) ->
  NoDup (concat (map (λ t, map (λ u, (u, m_iAtomPos t)) (f t)) l)).
Proof.
  induction l as [|t l IH]; intros S Hf; [constructor|]. cbn in *. apply StronglySorted_inv in S as [S F]. apply NoDup_app. split; [|split].
  - apply NoDup_fmap_2; [intros u v; congruence|]. apply Hf. by left.
  - intros [u a] (u' & [= -> ->] & _)%list_elem_of_fmap Hin. apply list_elem_of_In, in_concat in Hin as (ks & Hk & Hin).
    apply in_map_iff in Hk as (t' & <- & Ht'). apply in_map_iff in Hin as (v & [= -> Ea] & _). rewrite Forall_map in F. rewrite Forall_forall in F.
    apply list_elem_of_In in Ht'. specialize (F _ Ht'). cbn in F. lia.
  - apply IH; [done|]. intros t' Ht'. apply Hf. by right.
Qed.

Lemma concat_keys x : concat (map (λ t, map hkey (ht t x)) dNodes) = concat (map (λ t, map (λ u, (u, m_iAtomPos t)) (hits_at t x)) dNodes).
Proof. f_equal. apply map_ext_in. intros t Ht. apply ht_keys, atom_width. by apply list_elem_of_In. Qed.

Lemma keys_nodup x : NoDup (map hkey (h x)).
Proof.
  destruct (some_or_all x) as [E|N]; [rewrite (g_none _ _ _ Hg) by done; constructor|]. destruct (g_keys _ _ _ Hg x N) as [_ ->]. rewrite concat_keys.
  apply nodup_tagged; [apply Hok|]. intros t. by apply (rh_nodup _ _ (po_hits _ Hok x)).
Qed.

Lemma concat_length {A C D} (f : A -> list C) (g : A -> list D) l : (∀ x, length (f x) = length (g x)) -> length (concat (map f l)) = length (concat (map g l)).
Proof. intros H. induction l as [|x l IH]; [done|]. cbn. by rewrite !length_app, H, IH. Qed.

Lemma keys_few x : len (h x) < 2 ^ 31.
Proof.
  destruct (some_or_all x) as [E|N]; [rewrite (g_none _ _ _ Hg) by done; done|]. destruct (g_keys _ _ _ Hg x N) as [_ P]. apply Permutation_length in P.
  rewrite length_map in P. rewrite P, (concat_length _ (λ t, hits_at t x)); [apply (rh_few _ _ (po_hits _ Hok x))|]. intros t. unfold ht. by rewrite !length_map.
Qed.

Lemma rev_in_order x : in_order (rev_hits h x).
Proof.
  destruct (some_or_all x) as [E|N].
  { unfold rev_hits. rewrite (g_none _ _ _ Hg) by done. split; constructor. }
  assert (∀ y, y ∈ rev_hits h x -> h_tRowID y = x /\ ∃ t, t ∈ dNodes /\ m_uHitpos y ∈ hits_at t x) as Hy.
  { intros y Hy. rewrite rev_hits_perm in Hy. split; [pose proof (g_own _ _ _ Hg x) as F; unfold own in F; rewrite Forall_forall in F; by apply F|].
    destruct (proj1 (keys_in x (m_uHitpos y) (m_uQuerypos y) N)) as (t & Ht & Hu & _); [by apply (list_elem_of_fmap_2 hkey)|]. eauto. }
  assert (StronglySorted hle (rev_hits h x)) as S by (apply StronglySorted_merge_sort; apply _). split.
  - apply Forall_forall. intros y Hin. destruct (Hy y Hin) as (_ & t & Ht & Hu). by apply (rh_width _ _ (po_hits _ Hok x) t).
  - revert S Hy. generalize (rev_hits h x). induction l as [|y l IH]; intros S Hy; [constructor|]. cbn. apply StronglySorted_inv in S as [S F].
    constructor; [apply IH; [done|]; intros z Hz; apply Hy; by right|]. rewrite Forall_map. rewrite Forall_forall in F |- *. intros z Hz. specialize (F z Hz).
    destruct (Hy y) as (Ry & t & Ht & Hu); [by left|]. destruct (Hy z) as (Rz & t' & Ht' & Hv); [by right|].
    apply (rh_order _ _ (po_hits _ Hok x) t t'); auto. apply hle_spec in F. lia.
Qed.
End Nodes.

(** ** The node of a phrase *)

Lemma ConstructNode_good dNodes p ps : phrase_ok dNodes -> ps <> [] -> omap (λ p, dNodes !! Z.to_nat p) (p :: ps) ≡ₚ dNodes ->
  (∀ p', p' ∈ p :: ps -> is_Some (dNodes !! Z.to_nat p')) -> (∀ p', p' ∈ ps -> docs_count dNodes p <= docs_count dNodes p') ->
  ∃ k (c : chain Q k) h, ConstructNode dNodes (p :: ps) = Some (existT k c) /\ good c dNodes h /\ ∀ x, in_order (h x).
Proof.
  intros Hok Hne P Hin Hle. destruct (Hin p) as [t Et]; [by left|]. assert (t ∈ dNodes) as Ht by by eapply list_elem_of_lookup_2.
  unfold ConstructNode. rewrite Et. cbn [mbind option_bind].
  destruct (construct_loop_good dNodes ps 0 t (q_iDocs (m_pQword t)) (cast WORD (p + 1)) [t] (ht t)) as (k & c & h & E & Pl & G).
  - by apply good_leaf, Hok.
  - by right.
  - apply Hok.
  - intros p' Hp'. destruct (Hin p') as [t' Et']; [by right|]. exists t'. split; [done|]. specialize (Hle p' Hp'). unfold docs_count in Hle. rewrite Et, Et' in Hle. cbn in Hle.
    pose proof (po_docs _ Hok t Ht). lia.
  - rewrite E. cbn [mbind option_bind]. destruct k as [|k]; [done|]. cbn [omap list_omap] in P. rewrite Et in P. apply (good_perm _ _ dNodes) in G; [|exact P].
    exists (S k), (SetCollectHits (S k) (SetQPosReverse (S k) c)), (rev_hits h). split; [done|]. split.
    + apply (good_reverse (SetCollectHits (S k) c)); [exact Pl|done|intros r; by eapply keys_nodup|intros r; by eapply keys_few].
    + intros x. by eapply rev_in_order.
Qed.

Lemma tf_asym dNodes x y : tf_less dNodes x y = true -> tf_less dNodes y x = false.
Proof. unfold tf_less. lia. Qed.

Lemma tf_trans dNodes x y z : SortOk.le (tf_less dNodes) x y -> SortOk.le (tf_less dNodes) y z -> SortOk.le (tf_less dNodes) x z.
Proof. unfold SortOk.le, tf_less. lia. Qed.

Lemma omap_seq {A} (f : nat -> Z) (l : list A) : (∀ i, (i < length l)%nat -> f i = Z.of_nat i) -> omap (λ p, l !! Z.to_nat p) (map f (seq 0 (length l))) = l.
Proof.
  induction l as [|x l IH] using rev_ind; intros Hf; [done|]. rewrite length_app, seq_app, map_app, omap_app. cbn [length seq map omap list_omap plus].
  rewrite Hf by (rewrite length_app; cbn; lia). rewrite Nat2Z.id, lookup_app_r, Nat.sub_diag by lia. cbn [lookup list_lookup]. f_equal.
  transitivity (omap (λ p, l !! Z.to_nat p) (map f (seq 0 (length l)))).
  - assert (∀ js, (∀ i, i ∈ js -> (i < length l)%nat) -> omap (λ p, (l ++ [x]) !! Z.to_nat p) (map f js) = omap (λ p, l !! Z.to_nat p) (map f js)) as H.
    { induction js as [|i js IHi]; intros Hi; [done|]. cbn [map omap list_omap]. assert (i < length l)%nat by (apply Hi; by left).
      rewrite Hf, Nat2Z.id, lookup_app_l by (rewrite ?length_app; cbn; lia). rewrite IHi; [done|]. intros j Hj. apply Hi. by right. }
    apply H. intros i Hi%elem_of_seq. lia.
  - apply IH. intros i Hi. apply Hf. rewrite length_app. lia.
Qed.

Lemma sorted_few a b (l : list Z) : StronglySorted Z.lt l -> Forall (λ x, a <= x < b) l -> len l <= Z.max 0 (b - a).
Proof.
  revert a. induction l as [|x l IH]; intros a S F; [cbn; lia|]. apply StronglySorted_inv in S as [S Fx]. apply Forall_cons in F as [Hx F].
  specialize (IH (x + 1) S). cbn [length]. assert (len l <= Z.max 0 (b - (x + 1))); [|lia]. apply IH. rewrite Forall_forall in Fx, F |- *.
  intros y Hy. specialize (Fx y Hy). specialize (F y Hy). cbn in *. lia.
Qed.

Lemma new_phrase_node_ok dNodes mask : phrase_ok dNodes ->
  ∃ k (n : ExtNWay_T (chain Q k) FSMphrase_c) c h, new_phrase_node dNodes mask = Some (existT k n) /\ n = new_nway c (new_phrase (map m_iAtomPos dNodes) mask) /\
    good c dNodes h /\ ∀ x, in_order (h x).
Proof.
  intros Hok. pose proof (sorted_few 0 (2 ^ 16) _ (ao_sorted _ (po_atoms _ Hok)) (ao_width _ (po_atoms _ Hok))) as Hl. rewrite length_map in Hl. unfold new_phrase_node. set (ps := map _ (seq 0 (length dNodes))).
  assert (∀ i, (i < length dNodes)%nat -> cast WORD (Z.of_nat i) = Z.of_nat i) as Hc by (intros i Hi; apply wrap_small; cbn; lia).
  assert (len ps = len dNodes) as Lp by (unfold ps; by rewrite length_map, length_seq).
  destruct (SortOk.sort_ok (tf_less dNodes) (tf_asym dNodes) (tf_trans dNodes) ps) as (l & -> & P & S); [lia|]. cbn [mbind option_bind].
  pose proof (ao_two _ (po_atoms _ Hok)) as H2. rewrite length_map in H2. pose proof (Permutation_length P) as PL.
  destruct l as [|p [|p2 l]]; [cbn in PL; lia|cbn in PL; lia|].
  assert (omap (λ p, dNodes !! Z.to_nat p) ps = dNodes) as Eo by (by apply omap_seq).
  destruct (ConstructNode_good dNodes p (p2 :: l) Hok) as (k & c & h & -> & G & O).
  - done.
  - by rewrite P, Eo.
  - intros p' Hp'. rewrite P in Hp'. unfold ps in Hp'. apply list_elem_of_fmap in Hp' as (i & -> & Hi%elem_of_seq). rewrite Hc, Nat2Z.id by lia. apply lookup_lt_is_Some. lia.
  - intros p' Hp'. apply StronglySorted_inv in S as [_ F]. rewrite Forall_forall in F. specialize (F p' Hp'). unfold SortOk.le, tf_less in F. lia.
  - cbn [mbind option_bind]. by eexists k, _, c, h.
Qed.

Lemma find_row_omap (e : ExtDoc_t -> option ExtDoc_t) x : (∀ d y, e d = Some y -> m_tRowID y = m_tRowID d) -> ∀ l b, asc b l -> find_row x (omap e l) = find_row x l ≫= e.
Proof.
  intros He. induction l as [|d l IH]; intros b; [done|]. intros [Hd Hl]. cbn [omap list_omap find_row]. destruct (Z.eqb_spec (m_tRowID d) x) as [E|N]; cbn [mbind option_bind].
  - destruct (e d) as [y|] eqn:Ey.
    + cbn [find_row]. by rewrite (He _ _ Ey), E, Z.eqb_refl.
    + apply (find_row_low (m_tRowID d)); [by apply omap_asc|lia].
  - destruct (e d) as [y|] eqn:Ey; [|by eapply IH]. cbn [find_row]. rewrite (He _ _ Ey), (proj2 (Z.eqb_neq _ _)) by done. by eapply IH.
Qed.

(** [x] has all words, and somewhere their hits at the distances of the query. *)
Definition phrase_at (dNodes : list term) (x : Z) : Prop :=
  (∀ t, t ∈ dNodes -> is_Some (find_row x (term_rem t))) /\
  ∃ base, ∀ t, t ∈ dNodes -> ∃ u, u ∈ hits_at t x /\ GetPosWithField u = base + (m_iAtomPos t - hd 0 (map m_iAtomPos dNodes)).

Section Search.
Context {T : Type} {P : ISphMatchSorter T}.
Variables (cfg : config) (mcfg : match_cfg) (bWeightSum : bool).

(** [C16] A phrase query without a deadline puts into the result set exactly the
    rows that have all its words in the queried fields and, somewhere, hits of
    them at the distances they have in the query, less what the filters reject and
    the kill-list names: one match for each, in ascending order, with the rank of
    the document the phrase node makes, up to the cutoff. The keywords, sorted by
    the number of their documents, the chain of AND nodes over them with the hits
    in the reverse order of the query, and the phrase machine over those hits work
    together, whatever the block boundaries. The hits of a row are distinct and in
    the order of their positions, and the words are at increasing positions of the
    query. *)
Theorem phrase_search dNodes mask sorter iCutoff w : phrase_ok dNodes -> w_kill w = None -> w_timer w = None -> iCutoff <> 0 ->
  ∃ k (n : ExtNWay_T (chain Q k) FSMphrase_c) found l1 l2 w', new_phrase_node dNodes mask = Some (existT k n) /\
    (∀ x, is_Some (found x) <-> phrase_at dNodes x) /\ result cfg bWeightSum mcfg found (l1 ++ l2) /\ cut Push (HAS_CUTOFF mcfg) iCutoff sorter l1 l2 False /\
    MatchExtended cfg mcfg (weigh_of cfg bWeightSum) (ExtRanker (Some n) None) sorter iCutoff w = Some (push_all Push l1 sorter, w').
Proof.
  intros Hok Hk Hw Hc. destruct (new_phrase_node_ok dNodes mask Hok) as (k & n & c & h & E & -> & G & O). set (n := new_nway c _) in *.
  assert (nway_ok h (-1) n) as Hn.
  { split; cbn; auto; [split; [done|apply G]|exists []; apply G|apply G|]. exists (map m_iAtomPos dNodes), mask, []. split; [done|apply Hok]. }
  destruct (match_node (K := nway_contract h) cfg mcfg bWeightSum n (λ x, find_row x (nway_rem h n)) sorter iCutoff w Hn (λ x, eq_refl) Hk Hc) as (l1 & l2 & w' & R & C & L & Em).
  exists k, n, (λ x, find_row x (nway_rem h n)), l1, l2, w'. split; [done|]. split; [|split; [exact R|split; [|exact Em]]].
  2: { eapply cut_weaken, C. unfold expired. destruct L as [_ L]. by rewrite (L Hw). }
  intros x. unfold phrase_at, nway_rem. cbn [n m_pDocs m_pNode n_fsm new_nway str docs default app].
  rewrite (find_row_omap _ x (λ d y, emit_row h _ d y (g_own _ _ _ G)) _ (-1)) by (apply inv_asc, G). rewrite <- (g_rem _ _ _ G), <- (phrase_in_nodes dNodes Hok c h G x).
  rewrite <- (first_phrase_in _ _ (po_atoms _ Hok) (O x)). destruct (find_row x (rem c)) as [d|] eqn:Ed; cbn [mbind option_bind].
  - unfold nway_emit. rewrite (find_row_Some _ _ _ Ed). cbn [mfirst phrase_machine m_dAtomPos new_phrase]. rewrite fmap_is_Some. split; [done|tauto].
  - split; [by intros []|by intros [[] _]].
Qed.
End Search.
End Chain.
End PhraseNodeOk.

(** * A phrase of two words

    The theorem on phrase queries applied to two keywords of a small index, as
    bytes of doclist and hitlist files. *)

From stdpp Require Import sorting sets.
From S2P Require Import Prelude Zip Hits Span SearchNode SearchNodeOk ExtTerm Ranker Search Doclist DoclistOk SearchExample Phrase HitNode HitNodeOk PhraseNode.
Import Zip Hitman FieldMask Span SearchNode SearchNodeOk ExtTerm Ranker Search Doclist DoclistOk SearchExample Phrase HitNode HitNodeOk HitAndOk NWayOk DiskHits PhraseNode PhraseNodeOk.

Module PhraseExample.

(** The first word is in row 7 at the positions 3 and 10 and in row 9 at 5, the
    second in row 7 at 4, in row 8 at 1 and in row 9 at 8. *)
Definition word1 : list entry := [Entry 7 2 1 10 1; Entry 9 1 1 5 3].
Definition word2 : list entry := [Entry 7 1 1 4 1; Entry 8 1 1 1 2; Entry 9 1 1 8 2].
Definition hits1 : list Z := [0; 3; 7; 0; 5; 0].
Definition hits2 : list Z := [0; 4; 0; 1; 0; 8; 0].

Definition phrase_setup (es : list entry) (hs : list Z) : setup := Setup false true (file_of es) hs None.
Definition phrase_reader (es : list entry) (hs : list Z) : DiskIndexQword_c :=
  DiskIndexQword (phrase_setup es hs) (DocState (file_of es) INVALID_ROWID UnsetAll 0 0 0 false (-1)) (HitState [] 0 0 0) (Z.of_nat (length es)).
Definition phrase_term (es : list entry) (hs : list Z) (pos : Z) : ExtTerm_T DiskIndexQword_c :=
  MkTerm (phrase_reader es hs) false false SetAll false half false (RowIdBoundaries 0 INVALID_ROWID) pos [] 0 0 0.

Definition phrase_words : list (ExtTerm_T DiskIndexQword_c) := [phrase_term word1 hits1 1; phrase_term word2 hits2 2].

Lemma phrase_reader_inv es hs : entries_ok (phrase_setup es hs) (-1) 0 es -> Forall is_byte (file_of es) -> disk_inv (-1) (phrase_reader es hs).
Proof.
  intros He HB. exists [], es, [], [], es. split; [split; [by rewrite app_nil_r|done]|]. split; [by intros l [=]|].
  split; [split; try done; by rewrite app_nil_r|]. split; [by left|]. by apply postings_rows.
Qed.

Lemma phrase_leaf es hs pos : entries_ok (phrase_setup es hs) (-1) 0 es -> Forall is_byte (file_of es) -> leaf_ok (phrase_term es hs pos).
Proof. intros He HB. split; [|done]. split; [done|]. intros _. by apply phrase_reader_inv. Qed.

Definition row_hits (l : list (Z * list Z)) (x : Z) : list Z := default [] (snd <$> head (filter (λ r, r.1 = x) l)).

Lemma hits_word1 x : hits_at (phrase_term word1 hits1 1) x = row_hits [(7, [3; 10]); (9, [5])] x.
Proof.
  unfold hits_at, posting_at. set (l := qrem _). vm_compute in l. unfold row_hits. subst l. rewrite !filter_cons. cbn [p_row fst].
  repeat case_decide; subst; vm_compute; reflexivity.
Qed.

Lemma hits_word2 x : hits_at (phrase_term word2 hits2 2) x = row_hits [(7, [4]); (8, [1]); (9, [8])] x.
Proof.
  unfold hits_at, posting_at. set (l := qrem _). vm_compute in l. unfold row_hits. subst l. rewrite !filter_cons. cbn [p_row fst].
  repeat case_decide; subst; vm_compute; reflexivity.
Qed.

(** The hits of any row of the example are small numbers. *)
Lemma words_hits t u x : t ∈ phrase_words -> u ∈ hits_at t x -> 0 <= u < 20.
Proof.
  intros Ht. unfold phrase_words in Ht. rewrite !elem_of_cons, elem_of_nil in Ht. destruct Ht as [->|[->|[]]]; rewrite ?hits_word1, ?hits_word2; unfold row_hits;
    rewrite !filter_cons; cbn [fst]; repeat case_decide; cbn; rewrite ?elem_of_cons, ?elem_of_nil; lia.
Qed.

Lemma phrase_words_ok : phrase_ok phrase_words.
Proof.
  split.
  - intros t Ht. unfold phrase_words in Ht. rewrite !elem_of_cons, elem_of_nil in Ht. destruct Ht as [->|[->|[]]]; apply phrase_leaf; apply (bool_decide_unpack _); vm_compute; exact I.
  - intros t Ht. unfold phrase_words in Ht. rewrite !elem_of_cons, elem_of_nil in Ht. destruct Ht as [->|[->|[]]]; cbn; lia.
  - split; cbn; [repeat constructor; lia|lia|repeat constructor; lia].
  - intros x. split.
    + intros t u Ht Hu. pose proof (words_hits t u x Ht Hu). unfold in_type. cbn. lia.
    + intros t Ht. unfold phrase_words in Ht. rewrite !elem_of_cons, elem_of_nil in Ht. destruct Ht as [->|[->|[]]]; rewrite ?hits_word1, ?hits_word2; unfold row_hits;
        rewrite !filter_cons; cbn [fst]; repeat case_decide; cbn; repeat constructor; rewrite ?elem_of_cons, ?elem_of_nil; lia.
    + intros t t' u v Ht Ht' Hu Hv Le. pose proof (words_hits t u x Ht Hu). pose proof (words_hits t' v x Ht' Hv).
      assert (∀ n, 0 <= n < 20 -> GetPosWithField n = n) as G.
      { intros n Hn. pose proof (byte_check (λ n, (20 <=? n) || (GetPosWithField n =? n)) n eq_refl ltac:(unfold is_byte; lia)) as E. cbv beta in E. lia. }
      by rewrite !G by lia.
    + cbn [phrase_words map concat]. rewrite hits_word1, hits_word2. unfold row_hits. rewrite !filter_cons. cbn [fst]. repeat case_decide; cbn; lia.
Qed.

Lemma phrase_search_witness : ∃ k (n : ExtNWay_T (chain DiskIndexQword_c k) FSMphrase_c) found l1 l2 w', new_phrase_node phrase_words false = Some (existT k n) /\
  (∀ x, is_Some (found x) <-> phrase_at phrase_words x) /\ result demo_cfg false demo_mcfg found (l1 ++ l2) /\ cut Push true 10 [] l1 l2 False /\
  MatchExtended demo_cfg demo_mcfg (weigh_of demo_cfg false) (ExtRanker (Some n) None) [] 10 (mkWorld None None) = Some (push_all Push l1 [], w').
Proof. refine (phrase_search demo_cfg demo_mcfg false phrase_words false [] 10 (mkWorld None None) phrase_words_ok eq_refl eq_refl _). lia. Defined.

(** Row 7 is found, row 9 has the words too far apart. *)
Example phrase_rows :
  ('(existT k n) ← new_phrase_node phrase_words false; (map mt_tRowID ∘ fst) <$> MatchExtended demo_cfg demo_mcfg (weigh_of demo_cfg true) (ExtRanker (Some n) None) [] 10 (mkWorld None None)) =
  Some [7].
Proof. vm_compute. reflexivity. Qed.
End PhraseExample.
