(* ===== verification/Utf8.v ===== *)
(** * UTF-8 (src/src/sphinxint.h)

    The decoder and the encoder of code points and the functions built on the
    decoder. A C string is the list of its bytes without the terminator. *)

From S2P Require Import Prelude.

Module Utf8.

Definition SPH_MAX_UTF8_BYTES : Z := 4.

(** [while ( v & 0x80 ) { iBytes++; v <<= 1; }] on a [BYTE]. *)
Fixpoint lead_ones (fuel : nat) (v iBytes : Z) : Z * Z :=
  match fuel with
  | O => (v, iBytes)
  | S fuel' => if Z.land v 0x80 =? 0 then (v, iBytes) else lead_ones fuel' (cast BYTE (Z.shiftl v 1)) (iBytes + 1)
  end.

(** The loop over the [n] continuation bytes. *)
Fixpoint utf8_cont (n : nat) (iCode : Z) (pBuf : list Z) : Z * list Z :=
  match n with
  | O => (iCode, pBuf)
  | S n' =>
      match pBuf with
      | [] => (0, [])
      | b :: pBuf' =>
          if b =? 0 then (0, pBuf)
          else if negb (Z.land b 0xC0 =? 0x80) then (-1, pBuf)
          else utf8_cont n' (Z.shiftl iCode 6 + Z.land b 0x3F) pBuf'
      end
  end.

(** The code, 0 at the end of the string and -1 on failure, and the rest. *)
Definition sphUTF8Decode (pBuf : list Z) : Z * list Z :=
  match pBuf with
  | [] => (0, [])
  | v :: pBuf' =>
      if v =? 0 then (0, pBuf')
      else if v <? 128 then (v, pBuf')
      else
        let '(v, iBytes) := lead_ones 8 v 0 in
        if (iBytes <? 2) || (SPH_MAX_UTF8_BYTES <? iBytes) then (-1, pBuf')
        else utf8_cont (Z.to_nat (iBytes - 1)) (Z.shiftr v iBytes) pBuf'
  end.

Definition sphUTF8Encode (iCode : Z) : list Z :=
  if iCode <? 0x80 then [Z.land iCode 0x7F]
  else if iCode <? 0x800 then
    [Z.lor (Z.land (Z.shiftr iCode 6) 0x1F) 0xC0; Z.lor (Z.land iCode 0x3F) 0x80]
  else if iCode <? 0x10000 then
    [Z.lor (Z.land (Z.shiftr iCode 12) 0x0F) 0xE0; Z.lor (Z.land (Z.shiftr iCode 6) 0x3F) 0x80; Z.lor (Z.land iCode 0x3F) 0x80]
  else
    [Z.lor (Z.land (Z.shiftr iCode 18) 0x0F) 0xF0; Z.lor (Z.land (Z.shiftr iCode 12) 0x3F) 0x80;
     Z.lor (Z.land (Z.shiftr iCode 6) 0x3F) 0x80; Z.lor (Z.land iCode 0x3F) 0x80].

(** [while ( ( iCode = sphUTF8Decode(pBuf) )!=0 ) if ( iCode>0 ) iRes++;] *)
Fixpoint len_loop (fuel : nat) (pBuf : list Z) (iRes : Z) : option Z :=
  match fuel with
  | O => None
  | S fuel' =>
      let '(iCode, pBuf) := sphUTF8Decode pBuf in
      if iCode =? 0 then Some iRes else len_loop fuel' pBuf (if 0 <? iCode then iRes + 1 else iRes)
  end.

Definition sphUTF8Len (pStr : list Z) : option Z := len_loop (S (length pStr)) pStr 0.

(** With a limit on the bytes that are looked at. *)
Fixpoint len_max_loop (fuel : nat) (pStr pBuf : list Z) (iMax iRes : Z) : option Z :=
  match fuel with
  | O => None
  | S fuel' =>
      if (Z.of_nat (length pStr - length pBuf) <? iMax) && (iRes <? iMax) then
        let '(iCode, pBuf) := sphUTF8Decode pBuf in
        if iCode =? 0 then Some iRes else len_max_loop fuel' pStr pBuf iMax (if 0 <? iCode then iRes + 1 else iRes)
      else Some iRes
  end.

Definition sphUTF8LenMax (pStr : list Z) (iMax : Z) : option Z :=
  match pStr with [] => Some 0 | _ => len_max_loop (S (length pStr)) pStr pStr iMax 0 end.

(** A byte above 127 is a negative [char]. *)
Definition sphIsUTF8 (pStr : list Z) : bool := existsb (λ b, 128 <=? b) pStr.

(** The codes that are written to [pDst], [iMaxLen] at most. *)
Fixpoint wide_loop (fuel : nat) (p : list Z) (iLen iMaxLen : Z) : option (list Z) :=
  match fuel with
  | O => None
  | S fuel' =>
      let '(iCode, p) := sphUTF8Decode p in
      if negb (iCode =? 0) && (iLen <? iMaxLen) then l ← wide_loop fuel' p (iLen + 1) iMaxLen; Some (iCode :: l)
      else Some []
  end.

Definition sphUTF8ToWideChar (pSrc : list Z) (iMaxLen : Z) : option (list Z) := wide_loop (S (length pSrc)) pSrc 0 iMaxLen.

(** ** The code round trip *)

Definition code_ok (c : Z) : Prop := 0 < c < 2 ^ 21.

Example demo_codes : map (λ c, (sphUTF8Decode (sphUTF8Encode c)).1) [1; 0x7F; 0x80; 0x7FF; 0x800; 0xFFFF; 0x10000; 0x10FFFF; 2 ^ 21 - 1; 2 ^ 21] = [1; 0x7F; 0x80; 0x7FF; 0x800; 0xFFFF; 0x10000; 0x10FFFF; 2 ^ 21 - 1; -1].
Proof. vm_compute. reflexivity. Qed.

(** A six-bit group in a continuation byte. *)
Lemma cont_byte y : 0 <= y < 64 -> (Z.lor y 0x80 =? 0) = false /\ (Z.land (Z.lor y 0x80) 0xC0 =? 0x80) = true /\ Z.land (Z.lor y 0x80) 0x3F = y.
Proof.
  intros Hy. pose proof (byte_check (λ y, (64 <=? y) || (negb (Z.lor y 0x80 =? 0) && (Z.land (Z.lor y 0x80) 0xC0 =? 0x80) && (Z.land (Z.lor y 0x80) 0x3F =? y))) y eq_refl
    ltac:(unfold is_byte; lia)) as E. cbv beta in E. apply orb_prop in E as [E|E]; [lia|]. apply andb_prop in E as [E1 E2]. apply andb_prop in E1 as [E0 E1].
  split; [by apply negb_true_iff in E0|]. split; [done|]. by apply Z.eqb_eq.
Qed.

Lemma land_3f c : Z.land c 0x3F = c mod 64.
Proof. apply (land_ones_mod c 6). lia. Qed.

Lemma land_1f c : Z.land c 0x1F = c mod 32.
Proof. apply (land_ones_mod c 5). lia. Qed.

Lemma land_0f c : Z.land c 0x0F = c mod 16.
Proof. apply (land_ones_mod c 4). lia. Qed.

Lemma utf8_cont_next n iCode c rest : utf8_cont (S n) iCode (Z.lor (Z.land c 0x3F) 0x80 :: rest) = utf8_cont n (iCode * 64 + c mod 64) rest.
Proof.
  rewrite land_3f. cbn [utf8_cont]. pose proof (Z.mod_pos_bound c 64 ltac:(lia)) as Hc. destruct (cont_byte (c mod 64) Hc) as (-> & -> & ->). cbn [negb].
  by rewrite Z.shiftl_mul_pow2 by lia.
Qed.

(** The lead byte of a code of [n] bytes. *)
Lemma lead_byte n mark top x : In (n, mark, top) [(2, 0xC0, 32); (3, 0xE0, 16); (4, 0xF0, 8)] -> 0 <= x < top ->
  (128 <=? Z.lor x mark) = true /\ ∃ v, lead_ones 8 (Z.lor x mark) 0 = (v, n) /\ Z.shiftr v n = x.
Proof.
  intros Hn Hx.
  assert (forallb (λ x, (top <=? x) || ((128 <=? Z.lor x mark) && (let '(v, k) := lead_ones 8 (Z.lor x mark) 0 in (k =? n) && (Z.shiftr v n =? x)))) (seqZ 0 256) = true) as F.
  { repeat (destruct Hn as [[= <- <- <-]|Hn]; [vm_compute; reflexivity|]). destruct Hn. }
  pose proof (byte_check _ x F) as E. cbv beta in E. assert (is_byte x) as Hb.
  { unfold is_byte. cbn in Hn. destruct Hn as [[= <- <- <-]|[[= <- <- <-]|[[= <- <- <-]|[]]]]; lia. }
  specialize (E Hb). apply orb_prop in E as [E|E]; [lia|]. apply andb_prop in E as [E1 E2]. split; [done|].
  destruct (lead_ones 8 (Z.lor x mark) 0) as [v k]. exists v. apply andb_prop in E2 as [E2 E3]. apply Z.eqb_eq in E2, E3. by subst.
Qed.

Lemma decode_lead n mark top x rest : In (n, mark, top) [(2, 0xC0, 32); (3, 0xE0, 16); (4, 0xF0, 8)] -> 0 <= x < top ->
  sphUTF8Decode (Z.lor x mark :: rest) = utf8_cont (Z.to_nat (n - 1)) x rest.
Proof.
  intros Hn Hx. destruct (lead_byte n mark top x Hn Hx) as (Hb & v & El & Es). unfold sphUTF8Decode.
  rewrite (proj2 (Z.eqb_neq _ 0)), (proj2 (Z.ltb_ge _ 128)) by lia. rewrite El, Es. unfold SPH_MAX_UTF8_BYTES.
  destruct Hn as [[= <- <- <-]|[[= <- <- <-]|[[= <- <- <-]|[]]]]; done.
Qed.

Lemma decode_encode c rest : code_ok c -> sphUTF8Decode (sphUTF8Encode c ++ rest) = (c, rest).
Proof.
  intros Hc. unfold code_ok in Hc. unfold sphUTF8Encode. repeat match goal with |- context [?a <? ?b] => destruct (Z.ltb_spec a b) end.
  - cbn [app sphUTF8Decode]. rewrite land_7f, (Z.mod_small c 128) by lia. rewrite (proj2 (Z.eqb_neq c 0)), (proj2 (Z.ltb_lt c 128)) by lia. done.
  - cbn [app]. rewrite land_1f, Z.shiftr_div_pow2 by lia. rewrite Z.mod_small by (split; [apply Z.div_pos|apply Z.div_lt_upper_bound]; lia).
    rewrite (decode_lead 2 0xC0 32); [|by left|split; [apply Z.div_pos|apply Z.div_lt_upper_bound]; lia]. change (Z.to_nat (2 - 1)) with 1%nat.
    rewrite utf8_cont_next. cbn [utf8_cont]. f_equal. change (2 ^ 6) with 64. Z.to_euclidean_division_equations. lia.
  - cbn [app]. rewrite land_0f, !Z.shiftr_div_pow2 by lia. rewrite (Z.mod_small (c / 2 ^ 12)) by (split; [apply Z.div_pos|apply Z.div_lt_upper_bound]; lia).
    rewrite (decode_lead 3 0xE0 16); [|by right; left|split; [apply Z.div_pos|apply Z.div_lt_upper_bound]; lia]. change (Z.to_nat (3 - 1)) with 2%nat.
    rewrite !utf8_cont_next. cbn [utf8_cont]. f_equal. change (2 ^ 6) with 64. change (2 ^ 12) with 4096. change (2 ^ 18) with 262144. Z.to_euclidean_division_equations. lia.
  - cbn [app]. rewrite land_0f, !Z.shiftr_div_pow2 by lia. rewrite (Z.mod_small (c / 2 ^ 18)) by (split; [apply Z.div_pos|apply Z.div_lt_upper_bound]; lia).
    rewrite (decode_lead 4 0xF0 8); [|by right; right; left|split; [apply Z.div_pos|apply Z.div_lt_upper_bound]; lia]. change (Z.to_nat (4 - 1)) with 3%nat.
    rewrite !utf8_cont_next. cbn [utf8_cont]. f_equal. change (2 ^ 6) with 64. change (2 ^ 12) with 4096. change (2 ^ 18) with 262144. Z.to_euclidean_division_equations. lia.
Qed.

(** ** What the decoder reads *)

Lemma utf8_cont_rest n : ∀ iCode pBuf c rest, utf8_cont n iCode pBuf = (c, rest) -> (length rest <= length pBuf)%nat.
Proof.
  induction n as [|n IH]; intros iCode pBuf c rest E; cbn [utf8_cont] in E; [by simplify_eq|]. destruct pBuf as [|b pBuf]; [by simplify_eq|].
  destruct (b =? 0); [by simplify_eq|]. destruct (negb _); [by simplify_eq|]. apply IH in E. cbn. lia.
Qed.

(** A byte at least is read. *)
Lemma decode_rest pBuf c rest : sphUTF8Decode pBuf = (c, rest) -> c <> 0 -> (length rest < length pBuf)%nat.
Proof.
  intros E Hc. unfold sphUTF8Decode in E. destruct pBuf as [|v pBuf]; [by simplify_eq|]. destruct (v =? 0); [by simplify_eq|].
  destruct (v <? 128); [simplify_eq; cbn; lia|]. destruct (lead_ones 8 v 0) as [v' n]. destruct (_ || _); [simplify_eq; cbn; lia|].
  apply utf8_cont_rest in E. cbn. lia.
Qed.

(** Codes of [n] bytes have at most [7 - n + 6 * (n - 1)] bits. *)
Lemma utf8_cont_range n : ∀ iCode pBuf c rest k, utf8_cont n iCode pBuf = (c, rest) -> 0 <= k -> 0 <= iCode < 2 ^ k -> -1 <= c < 2 ^ (k + 6 * Z.of_nat n).
Proof.
  assert (∀ k, 0 <= k -> 0 < 2 ^ k) as Hp by (intros; lia).
  induction n as [|n IH]; intros iCode pBuf c rest k E Hk Hi; cbn [utf8_cont] in E.
  { simplify_eq. replace (k + 6 * Z.of_nat 0) with k by lia. lia. }
  pose proof (Hp (k + 6 * Z.of_nat (S n)) ltac:(lia)). destruct pBuf as [|b pBuf]; [simplify_eq; lia|]. destruct (b =? 0); [simplify_eq; lia|]. destruct (negb _); [simplify_eq; lia|].
  replace (k + 6 * Z.of_nat (S n)) with (k + 6 + 6 * Z.of_nat n) by lia. apply (IH _ _ _ _ (k + 6)) in E; [done|lia|].
  rewrite land_3f, Z.shiftl_mul_pow2, Z.pow_add_r by lia. pose proof (Z.mod_pos_bound b 64). change (2 ^ 6) with 64. lia.
Qed.

Lemma lead_range v v' n : is_byte v -> lead_ones 8 v 0 = (v', n) -> 2 <= n <= 4 -> 0 <= Z.shiftr v' n < 2 ^ (8 - 1 - n).
Proof.
  intros Hv E Hn. pose proof (byte_check (λ v, let '(v', n) := lead_ones 8 v 0 in negb ((2 <=? n) && (n <=? 4)) || ((0 <=? Z.shiftr v' n) && (Z.shiftr v' n <? 2 ^ (8 - 1 - n)))) v eq_refl Hv) as B.
  cbv beta in B. rewrite E in B. assert ((2 <=? n) && (n <=? 4) = true) as E0 by lia. rewrite E0 in B. cbn [negb orb] in B. lia.
Qed.

Lemma decode_range pBuf c rest : Forall is_byte pBuf -> sphUTF8Decode pBuf = (c, rest) -> -1 <= c < 2 ^ 21.
Proof.
  intros HB E. unfold sphUTF8Decode in E. destruct HB as [|v pBuf Hv HB]; [simplify_eq; lia|]. destruct (v =? 0); [simplify_eq; lia|].
  unfold is_byte in Hv. destruct (v <? 128); [simplify_eq; lia|]. destruct (lead_ones 8 v 0) as [v' n] eqn:El. unfold SPH_MAX_UTF8_BYTES in E.
  destruct (_ || _) eqn:En; [simplify_eq; lia|]. assert (2 <= n <= 4) as Hn by lia. pose proof (lead_range v v' n Hv El Hn) as Hr.
  apply (utf8_cont_range _ _ _ _ _ (8 - 1 - n)) in E; [|lia|done]. rewrite Z2Nat.id in E by lia.
  assert (2 ^ (8 - 1 - n + 6 * (n - 1)) <= 2 ^ 21) by (apply Z.pow_le_mono_r; lia). lia.
Qed.

Lemma utf8_cont_bytes n : ∀ iCode pBuf c rest, utf8_cont n iCode pBuf = (c, rest) -> Forall is_byte pBuf -> Forall is_byte rest.
Proof.
  induction n as [|n IH]; intros iCode pBuf c rest E HB; cbn [utf8_cont] in E; [by simplify_eq|]. destruct HB as [|b pBuf Hb HB]; [simplify_eq; constructor|].
  destruct (b =? 0); [simplify_eq; by constructor|]. destruct (negb _); [simplify_eq; by constructor|]. by eapply IH.
Qed.

Lemma decode_bytes pBuf c rest : sphUTF8Decode pBuf = (c, rest) -> Forall is_byte pBuf -> Forall is_byte rest.
Proof.
  intros E HB. unfold sphUTF8Decode in E. destruct HB as [|v pBuf Hv HB]; [simplify_eq; constructor|]. destruct (v =? 0); [by simplify_eq|]. destruct (v <? 128); [by simplify_eq|].
  destruct (lead_ones 8 v 0) as [v' n]. destruct (_ || _); [by simplify_eq|]. by eapply utf8_cont_bytes.
Qed.

(** ** The functions over strings *)

Lemma wide_loop_ok fuel : ∀ p iLen iMaxLen, Forall is_byte p -> (length p < fuel)%nat -> 0 <= iLen ->
  ∃ l, wide_loop fuel p iLen iMaxLen = Some l /\ Forall (λ c, c = -1 \/ code_ok c) l /\ (length l <= length p)%nat /\ Z.of_nat (length l) <= Z.max 0 (iMaxLen - iLen).
Proof.
  induction fuel as [|fuel IH]; intros p iLen iMaxLen HB Hf Hi; [lia|]. cbn [wide_loop]. destruct (sphUTF8Decode p) as [c rest] eqn:E.
  destruct (negb (c =? 0) && (iLen <? iMaxLen)) eqn:Ec; [|exists []; cbn; split; [done|]; split; [constructor|lia]].
  apply andb_prop in Ec as [E1 E2]. pose proof (decode_rest _ _ _ E ltac:(lia)) as Hr. pose proof (decode_range _ _ _ HB E) as Hc.
  destruct (IH rest (iLen + 1) iMaxLen) as (l & -> & F & L1 & L2); [by eapply decode_bytes|lia|lia|]. cbn [mbind option_bind].
  exists (c :: l). split; [done|]. split; [|cbn; lia]. constructor; [unfold code_ok; lia|done].
Qed.

Lemma len_loop_ok fuel : ∀ p iRes, (length p < fuel)%nat -> ∃ n, len_loop fuel p iRes = Some n /\ iRes <= n <= iRes + Z.of_nat (length p).
Proof.
  induction fuel as [|fuel IH]; intros p iRes Hf; [lia|]. cbn [len_loop]. destruct (sphUTF8Decode p) as [c rest] eqn:E.
  destruct (Z.eqb_spec c 0); [exists iRes; split; [done|lia]|]. pose proof (decode_rest _ _ _ E ltac:(done)) as Hr.
  destruct (IH rest (if 0 <? c then iRes + 1 else iRes)) as (n' & -> & Hn); [lia|]. exists n'. split; [done|]. destruct (0 <? c); lia.
Qed.

Lemma len_max_loop_ok fuel : ∀ s p iMax iRes, (length p < fuel)%nat -> 0 <= iRes -> ∃ n, len_max_loop fuel s p iMax iRes = Some n /\ iRes <= n <= Z.max iRes iMax.
Proof.
  induction fuel as [|fuel IH]; intros s p iMax iRes Hf Hi; [lia|]. cbn [len_max_loop]. destruct (_ && _) eqn:Ec; [|exists iRes; split; [done|lia]].
  destruct (sphUTF8Decode p) as [c rest] eqn:E. destruct (Z.eqb_spec c 0); [exists iRes; split; [done|lia]|]. pose proof (decode_rest _ _ _ E ltac:(done)) as Hr.
  destruct (IH s rest iMax (if 0 <? c then iRes + 1 else iRes)) as (n' & -> & Hn); [lia|destruct (0 <? c); lia|]. exists n'. split; [done|]. destruct (0 <? c); lia.
Qed.

(** The UTF-8 functions end on any bytes, valid or not, and stay inside the
    string and the limits: [sphUTF8ToWideChar] gives at most [iMaxLen] codes
    and no more than there are bytes, every one of them -1 or a positive code
    of 21 bits; both [sphUTF8Len] give a number of codes within their bounds. *)
Theorem utf8_bounds s iMaxLen : Forall is_byte s ->
  (∃ l, sphUTF8ToWideChar s iMaxLen = Some l /\ Forall (λ c, c = -1 \/ code_ok c) l /\ (length l <= length s)%nat /\ Z.of_nat (length l) <= Z.max 0 iMaxLen) /\
  (∃ n, sphUTF8Len s = Some n /\ 0 <= n <= Z.of_nat (length s)) /\
  (∃ n, sphUTF8LenMax s iMaxLen = Some n /\ 0 <= n <= Z.max 0 iMaxLen).
Proof.
  intros HB. split; [|split].
  - destruct (wide_loop_ok (S (length s)) s 0 iMaxLen HB) as (l & E & F & L1 & L2); [lia|lia|]. exists l. rewrite Z.sub_0_r in L2. done.
  - destruct (len_loop_ok (S (length s)) s 0) as (n & E & Hn); [lia|]. exists n. split; [done|lia].
  - unfold sphUTF8LenMax. destruct s as [|b s]; [exists 0; split; [done|lia]|]. destruct (len_max_loop_ok (S (length (b :: s))) (b :: s) (b :: s) iMaxLen 0) as (n & E & Hn); [lia|lia|].
    exists n. split; [done|lia].
Qed.

Lemma utf8_bounds_witness : let s := [0xD0; 0xB0; 0xC3; 0x41; 0xFF; 0xE2; 0x82; 0xAC; 0xF0] in
  (∃ l, sphUTF8ToWideChar s 3 = Some l /\ Forall (λ c, c = -1 \/ code_ok c) l /\ (length l <= length s)%nat /\ Z.of_nat (length l) <= Z.max 0 3) /\
  (∃ n, sphUTF8Len s = Some n /\ 0 <= n <= Z.of_nat (length s)) /\
  (∃ n, sphUTF8LenMax s 3 = Some n /\ 0 <= n <= Z.max 0 3).
Proof. intros s. apply (utf8_bounds s 3). apply (bool_decide_unpack _). vm_compute. exact I. Defined.

(** *** Encoded strings *)

Definition encode_all (cs : list Z) : list Z := concat (map sphUTF8Encode cs).

Lemma encode_ne c : sphUTF8Encode c <> [].
Proof. unfold sphUTF8Encode. by repeat case_match. Qed.

Lemma encode_all_len cs : (length cs <= length (encode_all cs))%nat.
Proof.
  unfold encode_all. induction cs as [|c cs IH]; [done|]. cbn [map concat length]. rewrite length_app. pose proof (encode_ne c). destruct (sphUTF8Encode c); [done|cbn; lia].
Qed.

Lemma wide_loop_encode fuel : ∀ cs iLen iMaxLen, Forall code_ok cs -> (length cs < fuel)%nat ->
  wide_loop fuel (encode_all cs) iLen iMaxLen = Some (take (Z.to_nat (iMaxLen - iLen)) cs).
Proof.
  induction fuel as [|fuel IH]; intros cs iLen iMaxLen F Hf; [lia|]. cbn [wide_loop]. destruct F as [|c cs Hc F]; [by rewrite take_nil|].
  change (encode_all (c :: cs)) with (sphUTF8Encode c ++ encode_all cs). rewrite decode_encode by done. unfold code_ok in Hc. rewrite (proj2 (Z.eqb_neq c 0)) by lia. cbn [negb andb].
  destruct (Z.ltb_spec iLen iMaxLen) as [H|H].
  - cbn [length] in Hf. rewrite (IH cs (iLen + 1) iMaxLen F) by lia. cbn [mbind option_bind]. replace (Z.to_nat (iMaxLen - iLen)) with (S (Z.to_nat (iMaxLen - (iLen + 1)))) by lia. done.
  - by replace (Z.to_nat (iMaxLen - iLen)) with 0%nat by lia.
Qed.

Lemma len_loop_encode fuel : ∀ cs iRes, Forall code_ok cs -> (length cs < fuel)%nat -> len_loop fuel (encode_all cs) iRes = Some (iRes + Z.of_nat (length cs)).
Proof.
  induction fuel as [|fuel IH]; intros cs iRes F Hf; [lia|]. cbn [len_loop]. destruct F as [|c cs Hc F]; [cbn; f_equal; lia|].
  change (encode_all (c :: cs)) with (sphUTF8Encode c ++ encode_all cs). rewrite decode_encode by done. unfold code_ok in Hc. rewrite (proj2 (Z.eqb_neq c 0)), (proj2 (Z.ltb_lt 0 c)) by lia.
  cbn [length] in *. rewrite (IH cs (iRes + 1) F) by lia. f_equal. lia.
Qed.

(** Text survives UTF-8: code points of up to 21 bits that [sphUTF8Encode]
    writes one after the other are given back by [sphUTF8ToWideChar], up to its
    limit, and counted by [sphUTF8Len]. *)
Theorem utf8_roundtrip cs iMaxLen : Forall code_ok cs ->
  sphUTF8ToWideChar (encode_all cs) iMaxLen = Some (take (Z.to_nat iMaxLen) cs) /\ sphUTF8Len (encode_all cs) = Some (Z.of_nat (length cs)).
Proof.
  intros F. pose proof (encode_all_len cs). split.
  - unfold sphUTF8ToWideChar. rewrite wide_loop_encode by (done || lia). by rewrite Z.sub_0_r.
  - unfold sphUTF8Len. by rewrite len_loop_encode by (done || lia).
Qed.

Lemma utf8_roundtrip_witness : let cs := [0x41; 0x7F; 0x80; 0x430; 0x7FF; 0x800; 0x20AC; 0xFFFF; 0x10000; 0x10FFFF] in
  sphUTF8ToWideChar (encode_all cs) 8 = Some (take (Z.to_nat 8) cs) /\ sphUTF8Len (encode_all cs) = Some (Z.of_nat (length cs)).
Proof. intros cs. apply (utf8_roundtrip cs 8). apply (bool_decide_unpack _). unfold code_ok. vm_compute. exact I. Defined.
End Utf8.
