(* ===== verification/Wildcard.v ===== *)
(** * Wildcard patterns (src/src/sphinxutils.cpp)

    [sphWildcardMatch] matches a word against a pattern with [*] (any text),
    [?] (one character), [%] (none or one) and a backslash before a character
    that stands for itself. Short patterns go to a recursive matcher, those
    with many stars to one that fills a table row by row. *)

From S2P Require Import Prelude Utf8.
Import Utf8.

Module Wildcard.

Definition c_star : Z := 42.
Definition c_quest : Z := 63.
Definition c_perc : Z := 37.
Definition c_esc : Z := 92.

Definition SPH_MAX_WORD_LEN : Z := 42.
Definition MAX_KEYWORD_BYTES : Z := SPH_MAX_WORD_LEN * 3 + 4.

Definition sphIsWild (c : Z) : bool := (c =? c_star) || (c =? c_quest) || (c =? c_perc).

(** [*p]: strings are lists of characters without the terminator. *)
Abbreviation cur p := (hd 0 p).

(** ** The recursive matcher *)

(** [for ( p++; *p=='*' || *p=='?'; p++ ) ...]: [inl] is a return. *)
Fixpoint skip_stars (p s : list Z) : bool + (list Z * list Z) :=
  match p with
  | [] => inr (s, p)
  | c :: p' =>
      if c =? c_star then skip_stars p' s
      else if c =? c_quest then
        match tail s with
        | [] => inl (match p' with [] => true | _ => false end)
        | s' => skip_stars p' s'
        end
      else inr (s, p)
  end.

(** The end of the string: stars, then nothing or a percent sign. *)
Fixpoint trailing (p : list Z) : bool :=
  match p with
  | [] => true
  | c :: p' =>
      if c =? c_star then trailing p'
      else (c =? c_perc) && (match p' with [] => true | _ => false end)
  end.

(** [case '%']: [p] is what follows the percent sign, [f] matches on. *)
Definition case_percent (f : list Z -> list Z -> option bool) (s p : list Z) : option bool :=
  let both := b ← f s p; if (b : bool) then Some true else f (tail s) p in
  if cur p =? c_star then f s p
  else if negb (sphIsWild (cur p)) then
    if negb (cur s =? cur p) then
      if negb (cur (tail s) =? cur p) then Some false else f (tail s) p
    else if negb (cur (tail s) =? cur p) then f s p
    else both
  else both.

(** [while (true)]: the occurrences of the next character, [f] on what follows them. *)
Fixpoint scan (f : list Z -> option bool) (q : Z) (s : list Z) : option bool :=
  match s with
  | [] => Some false
  | c :: s' =>
      if c =? q then b ← f s'; if (b : bool) then Some true else scan f q s'
      else scan f q s'
  end.

Fixpoint sphWildcardMatchRec (fuel : nat) (s p : list Z) : option bool :=
  match fuel with
  | O => None
  | S fuel' =>
      match s with
      | [] => Some (trailing p)
      | c :: s' =>
          if cur p =? c_esc then
            let p := tail p in
            if negb (c =? cur p) then Some false else sphWildcardMatchRec fuel' s' (tail p)
          else if cur p =? c_quest then sphWildcardMatchRec fuel' s' (tail p)
          else if cur p =? c_perc then
            case_percent (sphWildcardMatchRec fuel') s (tail p)
          else if cur p =? c_star then
            match skip_stars (tail p) s with
            | inl b => Some b
            | inr (s, []) => Some true
            | inr (s, q :: p') =>
                scan (λ s', sphWildcardMatchRec fuel' s' p') q s
            end
          else if negb (c =? cur p) then Some false
          else sphWildcardMatchRec fuel' s' (tail p)
      end
  end.

(** ** The table *)

(** The row of a pattern character; [prev] starts at the entry before the
    current one, [left] is the entry before it in this row. [None]: the string
    does not fit the buffer. *)
Fixpoint dp_row (bEsc : bool) (p : Z) (iBufLenMax j : Z) (prev : list bool) (left : bool) (s : list Z) : option (list bool) :=
  match s with
  | [] => Some []
  | c :: s' =>
      if iBufLenMax <=? j then None
      else
        let here :=
          if negb bEsc && (p =? c_star) then hd false prev || left || hd false (tail prev)
          else if negb bEsc && (p =? c_perc) then hd false prev || hd false (tail prev)
          else if (p =? c) || (negb bEsc && (p =? c_quest)) then hd false prev
          else false in
        l ← dp_row bEsc p iBufLenMax (j + 1) (tail prev) here s'; Some (here :: l)
  end.

(** The loop over the pattern. The two rows of the buffer alternate, escapes
    not counted: the row written last is the previous one of the next
    character. *)
Fixpoint dp_loop (s p : list Z) (bEsc : bool) (iBufLenMax : Z) (prev : list bool) : option (list bool) :=
  match p with
  | [] => Some prev
  | c :: p' =>
      if c =? c_esc then dp_loop s p' true iBufLenMax prev
      else
        let first := if negb bEsc && ((c =? c_star) || (c =? c_perc)) then hd false prev else false in
        l ← dp_row bEsc c iBufLenMax 1 prev first s;
        dp_loop s p' false iBufLenMax (first :: l)
  end.

Definition sphWildcardMatchDPImpl (s p : list Z) (iBufLenMax : Z) : bool :=
  match dp_loop s p false iBufLenMax (replicate (Z.to_nat iBufLenMax) true) with
  | None => false
  | Some row => nth (if forallb (λ c, c =? c_esc) p then O else length s) row false
  end.

(** ** The choice *)

Inductive WildcardBufMode_e := Legacy | Extended.

Definition count_stars (p : list Z) : Z := Z.of_nat (length (filter (λ c, c = c_star) p)).

Definition many_stars (p : list Z) : bool :=
  (10 <? count_stars p) || ((5 <? count_stars p) && (17 <? Z.of_nat (length p))).

Definition sphWildcardMatchSpec (s p : list Z) (eMode : WildcardBufMode_e) : option bool :=
  if many_stars p then
    Some (sphWildcardMatchDPImpl s p (match eMode with Extended => Z.of_nat (length s) + 1 | Legacy => MAX_KEYWORD_BYTES + 1 end))
  else sphWildcardMatchRec (S (length s + length p)) s p.

(** [DecodeWildcardUtf8]: [Some None] is the null pointer. *)
Definition DecodeWildcardUtf8 (sText : list Z) (eMode : WildcardBufMode_e) : option (option (list Z)) :=
  if negb (sphIsUTF8 sText) then Some None
  else
    let iBytes := Z.of_nat (length sText) in
    let iMaxLen := match eMode with Legacy => SPH_MAX_WORD_LEN | Extended => if iBytes <=? SPH_MAX_WORD_LEN then SPH_MAX_WORD_LEN else iBytes end in
    l ← sphUTF8ToWideChar sText iMaxLen;
    Some (match l with [] => None | _ => Some l end).

(** A byte of a text as a [char]. *)
Definition chars (s : list Z) : list Z := map (cast (CType 8 true)) s.

(** [pPattern] is the decoded pattern, or null. *)
Definition sphWildcardMatch (sString sPattern : list Z) (pPattern : option (list Z)) (eMode : WildcardBufMode_e) : option bool :=
  match sString, sPattern with
  | [], _ | _, [] => Some false
  | _, _ =>
      pString ← DecodeWildcardUtf8 sString eMode;
      sphWildcardMatchSpec (default (chars sString) pString) (default (chars sPattern) pPattern) eMode
  end.

(** "abac" against "a*?c", "ab" against "b***********". *)
Example wild_demo : map (λ x, sphWildcardMatch x.1 x.2 None Legacy) [([97; 98; 97; 99], [97; 42; 63; 99]); ([97; 98], 98 :: replicate 11 42); ([97], [42; 63; 42]); ([97; 98], [42; 37; 98])] =
  [Some true; Some true; Some false; Some false].
Proof. vm_compute. reflexivity. Qed.
End Wildcard.
