(* ===== verification/WildcardOk.v ===== *)
(** * What the wildcard matchers accept

    The reference gives a pattern its meaning by tokens. The table matches the
    pattern against all ends of the string, which is right for patterns that
    start with a star; the recursive matcher accepts nothing but matches, and
    all of them for the patterns it does not stumble over. *)

From S2P Require Import Prelude Utf8 Wildcard.
Import Utf8 Wildcard.

Module WildcardOk.

(** ** The reference *)

Inductive token := Lit (c : Z) | AnyChar | Opt | Star.

(** A backslash at the end stands for a character no string has. *)
Fixpoint parse (p : list Z) : list token :=
  match p with
  | [] => []
  | c :: p' =>
      if c =? c_esc then match p' with [] => [Lit 0] | d :: p'' => Lit d :: parse p'' end
      else if c =? c_star then Star :: parse p'
      else if c =? c_quest then AnyChar :: parse p'
      else if c =? c_perc then Opt :: parse p'
      else Lit c :: parse p'
  end.

Fixpoint ref (ts : list token) (s : list Z) : bool :=
  match ts with
  | [] => match s with [] => true | _ => false end
  | Lit c :: ts' => match s with x :: s' => (x =? c) && ref ts' s' | [] => false end
  | AnyChar :: ts' => match s with _ :: s' => ref ts' s' | [] => false end
  | Opt :: ts' => ref ts' s || match s with _ :: s' => ref ts' s' | [] => false end
  | Star :: ts' =>
      (fix ends (s : list Z) : bool := ref ts' s || match s with [] => false | _ :: s' => ends s' end) s
  end.

Lemma ref_star ts s : ref (Star :: ts) s = ref ts s || match s with [] => false | _ :: s' => ref (Star :: ts) s' end.
Proof. by destruct s. Qed.

Lemma ref_star_true ts s : ref (Star :: ts) s = true <-> ∃ s1 s2, s = s1 ++ s2 /\ ref ts s2 = true.
Proof.
  induction s as [|x s IH].
  - rewrite ref_star, orb_false_r. split; [by exists [], []|]. by intros (s1 & s2 & [-> ->]%eq_sym%app_eq_nil & E).
  - rewrite ref_star, orb_true_iff, IH. split.
    + intros [E|(s1 & s2 & -> & E)]; [by exists [], (x :: s)|by exists (x :: s1), s2].
    + intros ([|y s1] & s2 & E & R); cbn in E; [left; by rewrite E|]. right. injection E as -> ->. by exists s1, s2.
Qed.

(** Patterns one after the other match strings one after the other. *)
Lemma ref_app ts1 ts2 : ∀ s, ref (ts1 ++ ts2) s = true <-> ∃ s1 s2, s = s1 ++ s2 /\ ref ts1 s1 = true /\ ref ts2 s2 = true.
Proof.
  induction ts1 as [|t ts1 IH]; intros s.
  - cbn [app]. split; [by exists [], s|]. intros (s1 & s2 & -> & E & R). by destruct s1.
  - cbn [app]. destruct t as [c| | |].
    + cbn [ref]. destruct s as [|x s]; [split; [done|]; by intros (s1 & s2 & [-> ->]%eq_sym%app_eq_nil & E & _)|]. rewrite andb_true_iff, IH. split.
      * intros (E & s1 & s2 & -> & R1 & R2). exists (x :: s1), s2. cbn. by rewrite E.
      * intros ([|y s1] & s2 & E & R1 & R2); [done|]. cbn in E. injection E as -> ->. apply andb_prop in R1 as [E1 R1]. split; [done|]. by exists s1, s2.
    + cbn [ref]. destruct s as [|x s]; [split; [done|]; by intros (s1 & s2 & [-> ->]%eq_sym%app_eq_nil & E & _)|]. rewrite IH. split.
      * intros (s1 & s2 & -> & R1 & R2). by exists (x :: s1), s2.
      * intros ([|y s1] & s2 & E & R1 & R2); [done|]. cbn in E. injection E as -> ->. by exists s1, s2.
    + cbn [ref]. rewrite orb_true_iff, IH. split.
      * intros [(s1 & s2 & -> & R1 & R2)|R]; [exists s1, s2; by rewrite R1|]. destruct s as [|x s]; [done|]. apply IH in R as (s1 & s2 & -> & R1 & R2).
        exists (x :: s1), s2. by rewrite R1, orb_true_r.
      * intros (s1 & s2 & -> & R1 & R2). apply orb_prop in R1 as [R1|R1]; [left; eauto|]. destruct s1 as [|x s1]; [done|]. right. cbn. apply IH. eauto.
    + rewrite ref_star_true. split.
      * intros (a & b & -> & (s1 & s2 & -> & R1 & R2)%IH). exists (a ++ s1), s2. rewrite app_assoc. split; [done|]. split; [|done]. apply ref_star_true. eauto.
      * intros (s1 & s2 & -> & (a & b & -> & R1)%ref_star_true & R2). exists a, (b ++ s2). rewrite app_assoc. split; [done|]. apply IH. eauto.
Qed.

(** ** The table *)

Lemma exists_last_dec (l : list Z) : l = [] \/ ∃ l' x, l = l' ++ [x].
Proof. destruct l as [|x l]; [by left|]. right. destruct (exists_last (l := x :: l)) as (l' & y & ->); [done|eauto]. Qed.

(** Some end of [u] matches. *)
Abbreviation R ts u := (ref (Star :: ts) u).

Lemma R_snoc ts t v : R (ts ++ [t]) v = true <-> ∃ v1 v2, v = v1 ++ v2 /\ R ts v1 = true /\ ref [t] v2 = true.
Proof. apply (ref_app (Star :: ts) [t]). Qed.

Lemma ref_one t v : ref [t] v = true <->
  match t with Lit c => v = [c] | AnyChar => ∃ x, v = [x] | Opt => v = [] \/ ∃ x, v = [x] | Star => True end.
Proof.
  destruct t as [c| | |].
  - destruct v as [|x [|y v]]; cbn; rewrite ?andb_true_r, ?andb_false_r; split; try done; [intros ->%Z.eqb_eq; done|intros [= ->]; lia].
  - destruct v as [|x [|y v]]; cbn; split; try done; [by intros []|eauto|by intros []].
  - destruct v as [|x [|y v]]; cbn; split; try done; [auto|eauto|]. intros [|[]]; done.
  - rewrite ref_star_true. split; [done|]. intros _. exists v, []. by rewrite app_nil_r.
Qed.

(** The entry of a character from its neighbours, as the table computes it. *)
Definition entry (t : token) (x : Z) (diag left up : bool) : bool :=
  match t with Lit c => (c =? x) && diag | AnyChar => diag | Opt => diag || up | Star => diag || left || up end.

Lemma R_step ts t u x : R (ts ++ [t]) (u ++ [x]) = entry t x (R ts u) (R (ts ++ [t]) u) (R ts (u ++ [x])).
Proof.
  apply Bool.eq_iff_eq_true. rewrite R_snoc. destruct t as [c| | |]; cbn [entry]; rewrite ?orb_true_iff, ?andb_true_iff.
  - split.
    + intros (v1 & v2 & E & H & ->%ref_one). apply app_inj_tail in E as [-> ->]. by rewrite Z.eqb_refl.
    + intros [->%Z.eqb_eq H]. exists u, [x]. split; [done|]. split; [done|]. by apply ref_one.
  - split.
    + intros (v1 & v2 & E & H & [y ->]%ref_one). by apply app_inj_tail in E as [-> ->].
    + intros H. exists u, [x]. split; [done|]. split; [done|]. apply ref_one. eauto.
  - split.
    + intros (v1 & v2 & E & H & [->|[y ->]]%ref_one); [right; by rewrite app_nil_r in E; subst|]. apply app_inj_tail in E as [-> ->]. by left.
    + intros [H|H]; [exists u, [x]|exists (u ++ [x]), []; rewrite app_nil_r]; (split; [done|]; split; [done|]; apply ref_one; eauto).
  - rewrite R_snoc. split.
    + intros (v1 & v2 & E & H & _). destruct (exists_last_dec v2) as [->|(v & y & ->)].
      * rewrite app_nil_r in E. subst. by right.
      * rewrite app_assoc in E. apply app_inj_tail in E as [-> ->]. left. right. exists v1, v. split; [done|]. split; [done|]. by apply ref_one.
    + intros [[H|(v1 & v2 & -> & H & _)]|H].
      * exists u, [x]. split; [done|]. split; [done|]. by apply ref_one.
      * exists v1, (v2 ++ [x]). rewrite app_assoc. split; [done|]. split; [done|]. by apply ref_one.
      * exists (u ++ [x]), []. rewrite app_nil_r. split; [done|]. split; [done|]. by apply ref_one.
Qed.

Lemma R_nil ts t : R (ts ++ [t]) [] = match t with Star | Opt => R ts [] | _ => false end.
Proof.
  apply Bool.eq_iff_eq_true. rewrite R_snoc. destruct t as [c| | |].
  - split; [|done]. intros (v1 & v2 & [-> ->]%eq_sym%app_eq_nil & _ & E%ref_one). done.
  - split; [|done]. intros (v1 & v2 & [-> ->]%eq_sym%app_eq_nil & _ & [x E]%ref_one). done.
  - split; [by intros (v1 & v2 & [-> ->]%eq_sym%app_eq_nil & H & _)|]. intros H. exists [], []. split; [done|]. split; [done|]. apply ref_one. auto.
  - split; [by intros (v1 & v2 & [-> ->]%eq_sym%app_eq_nil & H & _)|]. intros H. exists [], []. split; [done|]. split; [done|]. by apply ref_one.
Qed.

Definition tok (bEsc : bool) (c : Z) : token :=
  if bEsc then Lit c else if c =? c_star then Star else if c =? c_quest then AnyChar else if c =? c_perc then Opt else Lit c.

Lemma dp_row_ok ts bEsc c max : ∀ s2 s1 prev left, (∀ i, (i <= length s2)%nat -> nth i prev false = R ts (s1 ++ take i s2)) -> left = R (ts ++ [tok bEsc c]) s1 ->
  Z.of_nat (length s1 + length s2) < max ->
  ∃ l, dp_row bEsc c max (Z.of_nat (length s1) + 1) prev left s2 = Some l /\ ∀ i, (i < length s2)%nat -> nth i l false = R (ts ++ [tok bEsc c]) (s1 ++ take (S i) s2).
Proof.
  induction s2 as [|x s2 IH]; intros s1 prev left Hp Hl Hm; cbn [dp_row]; [exists []; split; [done|]; cbn; lia|]. cbn [length] in Hm. rewrite (proj2 (Z.leb_gt _ _)) by lia.
  set (here := if negb bEsc && (c =? c_star) then _ else _).
  assert (here = R (ts ++ [tok bEsc c]) (s1 ++ [x])) as Eh.
  { rewrite R_step. pose proof (Hp 0%nat ltac:(lia)) as P0. pose proof (Hp 1%nat ltac:(cbn; lia)) as P1. rewrite app_nil_r in P0. cbn [take] in P1.
    replace (nth 0 prev false) with (hd false prev) in P0 by by destruct prev. replace (nth 1 prev false) with (hd false (tail prev)) in P1 by by destruct prev as [|? []].
    unfold here. rewrite P0, P1, Hl. unfold tok. destruct bEsc; cbn [negb andb entry]; [rewrite orb_false_r; by destruct (c =? x)|].
    destruct (Z.eqb_spec c c_star); [done|]. destruct (Z.eqb_spec c c_quest) as [->|]; [cbn; by rewrite orb_true_r|].
    destruct (Z.eqb_spec c c_perc); cbn [entry]; [done|]. rewrite orb_false_r. by destruct (c =? x). }
  destruct (IH (s1 ++ [x]) (tail prev) here) as (l & E & Hl').
  - intros i Hi. rewrite <- app_assoc. change ([x] ++ take i s2) with (take (S i) (x :: s2)). rewrite <- (Hp (S i)) by (cbn; lia). by destruct prev; [destruct i|].
  - done.
  - rewrite length_app. cbn. lia.
  - rewrite length_app in E. cbn [length] in E. replace (Z.of_nat (length s1) + 1 + 1) with (Z.of_nat (length s1 + 1) + 1) by lia. rewrite E. cbn [mbind option_bind].
    exists (here :: l). split; [done|]. intros [|i] Hi; cbn [nth]; [rewrite Eh; by destruct s2|]. cbn [length] in Hi. rewrite Hl' by lia. by rewrite <- app_assoc.
Qed.

(** Every backslash stands before a character other than a backslash. *)
Fixpoint esc_ok (p : list Z) : bool :=
  match p with
  | [] => true
  | c :: p' => if c =? c_esc then match p' with [] => false | d :: p'' => negb (d =? c_esc) && esc_ok p'' end else esc_ok p'
  end.

Definition row_ok (ts : list token) (s : list Z) (row : list bool) : Prop := ∀ i, (i <= length s)%nat -> nth i row false = R ts (take i s).

Lemma dp_char ts s bEsc c max row : row_ok ts s row -> Z.of_nat (length s) < max ->
  ∃ l, let first := if negb bEsc && ((c =? c_star) || (c =? c_perc)) then hd false row else false in
    dp_row bEsc c max 1 row first s = Some l /\ row_ok (ts ++ [tok bEsc c]) s (first :: l).
Proof.
  intros Hr Hm. set (first := if negb bEsc && _ then _ else _).
  assert (first = R (ts ++ [tok bEsc c]) []) as Ef.
  { rewrite R_nil. pose proof (Hr 0%nat ltac:(lia)) as P0. replace (nth 0 row false) with (hd false row) in P0 by by destruct row. change (take 0 s) with (@nil Z) in P0.
    unfold first, tok. destruct bEsc; cbn [negb andb]; [done|]. rewrite <- P0. destruct (Z.eqb_spec c c_star); [done|]. destruct (Z.eqb_spec c c_quest) as [->|]; [done|]. by destruct (c =? c_perc). }
  destruct (dp_row_ok ts bEsc c max s [] row first) as (l & E & Hl); [done|done|cbn; lia|]. exists l. split; [done|]. intros [|i] Hi; [exact Ef|]. cbn [nth]. rewrite Hl by lia. done.
Qed.

Lemma dp_loop_ok s max : Z.of_nat (length s) < max -> ∀ n p row ts, (length p <= n)%nat -> esc_ok p = true -> row_ok ts s row ->
  ∃ row', dp_loop s p false max row = Some row' /\ row_ok (ts ++ parse p) s row'.
Proof.
  intros Hm. induction n as [|n IH]; intros p row ts Hn He Hr; (destruct p as [|c p]; [exists row; by rewrite app_nil_r|]); [cbn in Hn; lia|].
  cbn [dp_loop parse esc_ok length] in *. destruct (Z.eqb_spec c c_esc) as [->|Nc].
  - destruct p as [|d p]; [done|]. apply andb_prop in He as [Hd He]. cbn [dp_loop]. rewrite (proj1 (negb_true_iff _) Hd).
    destruct (dp_char ts s true d max row Hr Hm) as (l & E & Hr'). cbn [negb andb] in *. rewrite E. cbn [mbind option_bind].
    destruct (IH p (false :: l) (ts ++ [Lit d])) as (row' & -> & H); [cbn in Hn; lia|done|done|]. exists row'. by rewrite <- app_assoc in H.
  - destruct (dp_char ts s false c max row Hr Hm) as (l & E & Hr'). cbv zeta in E. rewrite E. cbn [mbind option_bind]. cbv zeta in Hr'.
    destruct (IH p _ (ts ++ [tok false c]) ltac:(lia) He Hr') as (row' & -> & H). exists row'. split; [done|]. rewrite <- app_assoc in H. unfold tok in H. by repeat case_match.
Qed.

(** The table matches the pattern with a star in front of it. *)
Lemma dp_exact s p max : esc_ok p = true -> Z.of_nat (length s) < max -> sphWildcardMatchDPImpl s p max = ref (Star :: parse p) s.
Proof.
  intros He Hm. unfold sphWildcardMatchDPImpl.
  destruct (dp_loop_ok s max Hm (length p) p (replicate (Z.to_nat max) true) [] ltac:(lia) He) as (row & -> & H).
  { intros i Hi. rewrite nth_lookup, lookup_replicate_2 by lia. symmetry. apply ref_star_true. exists (take i s), []. by rewrite app_nil_r. }
  cbn [app] in H. destruct (forallb _ p) eqn:Ef.
  - destruct p as [|c p]; [|cbn in Ef, He; apply andb_prop in Ef as [E1 E2]; rewrite E1 in He; destruct p as [|d p]; [done|]; cbn in E2; apply andb_prop in E2 as [E2 _]; rewrite E2 in He; done].
    rewrite (H 0%nat) by lia. cbn [parse take]. transitivity true; [done|]. symmetry. apply ref_star_true. exists s, []. by rewrite app_nil_r.
  - rewrite (H (length s)) by lia. by rewrite firstn_all.
Qed.


(** ** The recursive matcher *)

(** Nothing but stars and percent signs, which match the empty string. *)
Definition nullable (p : list Z) : bool := forallb (λ c, (c =? c_star) || (c =? c_perc)) p.

(** After a star: stars, then question marks, then no percent sign. *)
Fixpoint run_ok (seen : bool) (p : list Z) : bool :=
  match p with
  | [] => true
  | c :: p' => if c =? c_star then negb seen && run_ok seen p' else if c =? c_quest then run_ok true p' else negb (c =? c_perc)
  end.

Fixpoint regular (p : list Z) : bool :=
  match p with
  | [] => true
  | c :: p' =>
      (if c =? c_star then run_ok false p' else if c =? c_perc then match p' with [] => true | _ => negb (nullable p') end else true) && regular p'
  end.

Abbreviation plain_pat p := (Forall (λ c : Z, c ≠ c_esc /\ c ≠ 0) p).
Abbreviation text s := (Forall (λ c : Z, c ≠ 0) s).

Lemma parse_cons c p : c ≠ c_esc -> parse (c :: p) = tok false c :: parse p.
Proof. intros H. cbn [parse]. rewrite (proj2 (Z.eqb_neq _ _) H). unfold tok. by repeat case_match. Qed.

Lemma ref_lit c ts x s : ref (Lit c :: ts) (x :: s) = (x =? c) && ref ts s.
Proof. done. Qed.
Lemma ref_opt ts s : ref (Opt :: ts) s = ref ts s || match s with _ :: s' => ref ts s' | [] => false end.
Proof. done. Qed.

Lemma ref_star_star ts s : ref (Star :: Star :: ts) s = ref (Star :: ts) s.
Proof.
  apply Bool.eq_iff_eq_true. rewrite !ref_star_true. split.
  - intros (a & b & -> & (c & d & -> & E)%ref_star_true). exists (a ++ c), d. by rewrite app_assoc.
  - intros (a & b & -> & E). exists a, b. split; [done|]. apply ref_star_true. by exists [], b.
Qed.

Lemma ref_star_any ts : ∀ s x, ref (Star :: AnyChar :: ts) (x :: s) = ref (Star :: ts) s.
Proof.
  induction s as [|y s IH]; intros x; rewrite ref_star; [rewrite ref_star; cbn [ref]; by rewrite !orb_false_r|].
  rewrite IH. cbn [ref]. done.
Qed.

Lemma ref_all_star s : ref [Star] s = true.
Proof. apply ref_star_true. exists s, []. by rewrite app_nil_r. Qed.

Lemma parse_nullable p : plain_pat p -> ref (parse p) [] = nullable p.
Proof.
  induction 1 as [|c p [Hc _] _ IH]; [done|]. rewrite parse_cons by done. cbn [nullable forallb]. unfold tok.
  destruct (Z.eqb_spec c c_star); [rewrite ref_star, orb_false_r; exact IH|]. destruct (Z.eqb_spec c c_quest) as [->|]; [done|].
  destruct (Z.eqb_spec c c_perc); [cbn [ref]; rewrite orb_false_r; exact IH|]. done.
Qed.

(** [b] is an answer that is never wrong when true, and exact on the patterns [good]. *)
Definition agrees (good : bool) (b r : bool) : Prop := (b = true -> r = true) /\ (good = true -> b = r).

Lemma agrees_refl g b : agrees g b b.
Proof. by split. Qed.
Lemma agrees_weaken (g g' b r : bool) : (g' = true -> g = true) -> agrees g b r -> agrees g' b r.
Proof. intros H [A B]. split; [done|]. intros E. by apply B, H. Qed.

Lemma trailing_ok p : plain_pat p -> agrees (regular p) (trailing p) (ref (parse p) []).
Proof.
  intros Hp. rewrite parse_nullable by done. induction Hp as [|c p [Hc _] Hp IH]; [by split|]. cbn [trailing regular nullable forallb].
  destruct (Z.eqb_spec c c_star) as [->|Ns]; cbn [orb andb].
  - eapply agrees_weaken; [|exact IH]. intros [_ E]%andb_prop. done.
  - destruct (Z.eqb_spec c c_perc) as [->|Np]; cbn [andb orb]; [|by split].
    destruct p as [|d p]; [by split|]. split; [done|]. intros [E%negb_true_iff _]%andb_prop. symmetry. exact E.
Qed.

(** What the loop over a run of stars and question marks leaves. *)
Definition run_post (g : bool) (p s : list Z) (r : bool + (list Z * list Z)) : Prop :=
  match r with
  | inl b => agrees g b (ref (Star :: parse p) s)
  | inr (s1, p1) =>
      ref (Star :: parse p) s = ref (Star :: parse p1) s1 /\ text s1 /\ plain_pat p1 /\ (length s1 <= length s)%nat /\ (length p1 <= length p)%nat /\
      cur p1 ≠ c_star /\ cur p1 ≠ c_quest /\ (g = true -> regular p1 = true /\ cur p1 ≠ c_perc)
  end.

Lemma skip_stars_ok : ∀ p s seen, plain_pat p -> text s -> s ≠ [] -> run_post (run_ok seen p && regular p) p s (skip_stars p s).
Proof.
  induction p as [|c p IH]; intros s seen Hp Hs Hn; [cbn; split_and!; done|].
  inversion Hp as [|? ? [Hc H0] Hp']; subst. cbn [skip_stars run_ok regular]. destruct (Z.eqb_spec c c_star) as [->|Ns]; [|destruct (Z.eqb_spec c c_quest) as [->|Nq]].
  - specialize (IH s false Hp' Hs Hn). unfold run_post in *. rewrite parse_cons by done. cbn [tok]. change (tok false c_star) with Star.
    destruct (skip_stars p s) as [b|[s1 p1]]; rewrite ref_star_star.
    + eapply agrees_weaken; [|exact IH]. intros [_ E]%andb_prop. exact E.
    + destruct IH as (E & H1 & H2 & H3 & H4 & H5 & H6 & H7). split_and!; try done; cbn; try lia. intros [_ G]%andb_prop; by apply H7.
  - destruct s as [|x s]; [done|]. cbn [tail]. unfold run_post. rewrite parse_cons by done. change (tok false c_quest) with AnyChar. rewrite ref_star_any. inversion Hs; subst.
    destruct s as [|y s]; [|specialize (IH (y :: s) true Hp' ltac:(done) ltac:(done)); destruct (skip_stars p (y :: s)) as [b|[s1 p1]]; cbn [run_post] in IH].
    + rewrite ref_star, orb_false_r, parse_nullable by done. destruct p as [|d p]; [by split|]. split; [done|]. intros [E _]%andb_prop. cbn [run_ok nullable forallb] in *.
      destruct (d =? c_star); [done|]. destruct (Z.eqb_spec d c_quest) as [->|]; [done|]. cbn [orb]. by destruct (d =? c_perc).
    + eapply agrees_weaken; [|exact IH]. intros E. by rewrite andb_true_l in E.
    + destruct IH as (E & I1 & I2 & I3 & I4 & I5 & I6 & I7). split_and!; try done; cbn in *; try lia.
  - split_and!; try done; try lia. cbn [hd]. intros [E1 E2]%andb_prop. split; [cbn [regular]; by rewrite (proj2 (Z.eqb_neq _ _) Ns)|]. by destruct (Z.eqb_spec c c_perc).
Qed.

Lemma scan_ok (f : list Z -> option bool) q (g : bool) ts t s : (t = Lit q \/ (t = Opt /\ g = false)) -> 
  (∀ s', (length s' < length s)%nat -> text s' -> ∃ b, f s' = Some b /\ agrees g b (ref ts s')) -> text s ->
  ∃ b, scan f q s = Some b /\ agrees g b (ref (Star :: t :: ts) s).
Proof.
  intros Ht. induction s as [|c s IH]; intros Hf Hs.
  - exists false. split; [done|]. split; [done|]. intros ->. destruct Ht as [->|[_ ?]]; done.
  - inversion Hs; subst. destruct IH as (b & E & A & B); [intros s' L; apply Hf; cbn; lia|done|]. cbn [scan]. rewrite E. rewrite ref_star.
    destruct (Z.eqb_spec c q) as [->|N].
    + destruct (Hf s) as (b1 & -> & A1 & B1); [cbn; lia|done|]. cbn [mbind option_bind]. exists (b1 || b). split; [by destruct b1|]. split.
      * intros [H|H]%orb_prop; [|by rewrite A, orb_true_r]. destruct Ht as [->|[-> _]]; rewrite ?ref_lit, ?ref_opt, ?Z.eqb_refl, (A1 H); cbn [andb]; by rewrite ?orb_true_r.
      * intros Hg. destruct Ht as [->|[_ ?]]; [|congruence]. rewrite ref_lit, Z.eqb_refl. cbn [andb]. by rewrite <- (B1 Hg), <- (B Hg).
    + exists b. split; [done|]. split; [intros H; by rewrite A, orb_true_r|]. intros Hg. destruct Ht as [->|[_ ?]]; [|congruence]. rewrite ref_lit, (proj2 (Z.eqb_neq _ _) N). by apply B.
Qed.


Lemma regular_tail c p : regular (c :: p) = true -> regular p = true.
Proof. cbn [regular]. by intros [_ E]%andb_prop. Qed.

Lemma agrees_or (g b1 b2 r1 r2 : bool) : agrees g b1 r1 -> agrees g b2 r2 -> agrees g (b1 || b2) (r1 || r2).
Proof. intros [A1 B1] [A2 B2]. split; [intros [H|H]%orb_prop; [by rewrite A1|by rewrite A2, orb_true_r]|]. intros Hg. by rewrite B1, B2. Qed.

(** The percent sign: the look ahead decides nothing the two options would not. *)
Lemma perc_ahead q p c s : plain_pat (q :: p) -> sphIsWild q = false ->
  ref (parse (q :: p)) (c :: s) = (c =? q) && ref (parse p) s.
Proof.
  intros Hp Hw. inversion Hp as [|? ? [H _] _]; subst. rewrite parse_cons by done. unfold sphIsWild in Hw. apply orb_false_elim in Hw as [[H1 H2]%orb_false_elim H3].
  unfold tok. rewrite H1, H2, H3. done.
Qed.

Lemma perc_nil q p : plain_pat (q :: p) -> sphIsWild q = false -> ref (parse (q :: p)) [] = false.
Proof. intros Hp Hw. rewrite parse_nullable by done. cbn. unfold sphIsWild in Hw. by apply orb_false_elim in Hw as [[-> _]%orb_false_elim ->]. Qed.

(** The second character of the string and a character of the pattern. *)
Lemma perc_second q p s : plain_pat (q :: p) -> sphIsWild q = false -> (cur s =? q) = false -> ref (parse (q :: p)) s = false.
Proof. intros Hp Hw Hs. destruct s as [|x s]; [by apply perc_nil|]. cbn [hd] in Hs. by rewrite perc_ahead, Hs by done. Qed.

Lemma perc_ok (f : list Z -> list Z -> option bool) g c s p : plain_pat p -> text (c :: s) ->
  (∃ b, f (c :: s) p = Some b /\ agrees g b (ref (parse p) (c :: s))) -> (∃ b, f s p = Some b /\ agrees g b (ref (parse p) s)) ->
  ∃ b, case_percent f (c :: s) p = Some b /\ agrees g b (ref (Opt :: parse p) (c :: s)).
Proof.
  intros Hp Hs F1 F2. destruct F1 as (b1 & E1 & A1), F2 as (b2 & E2 & A2). rewrite ref_opt. unfold case_percent. cbn [tail hd]. rewrite E1, E2. cbn [mbind option_bind].
  assert (∃ b, (if b1 then Some true else Some b2) = Some b /\ agrees g b (ref (parse p) (c :: s) || ref (parse p) s)) as Both
    by (exists (b1 || b2); split; [by destruct b1|by apply agrees_or]).
  inversion Hs as [|? ? Hc0 Hs']; subst. destruct p as [|d p]; cbn [hd].
  { change (sphIsWild 0) with false. change (0 =? c_star) with false. cbn [negb]. rewrite (proj2 (Z.eqb_neq c 0)) by done. cbn [negb].
    destruct s as [|x s]; [by exists b2|]. cbn [hd]. inversion Hs'; subst. rewrite (proj2 (Z.eqb_neq x 0)) by done. exists false. split; [done|]. apply agrees_refl. }
  destruct (Z.eqb_spec d c_star) as [->|Nd]; [|destruct (sphIsWild d) eqn:Ew; cbn [negb]; [exact Both|]].
  - exists b1. split; [done|]. rewrite (parse_cons c_star p) in * by done. change (tok false c_star) with Star in *. rewrite (ref_star (parse p) (c :: s)) in *.
    rewrite <- orb_assoc, orb_diag. exact A1.
  - destruct (c =? d) eqn:Ec, (cur s =? d) eqn:Es; cbn [negb]; [exact Both| | |]; rewrite ?(perc_second d p s), ?(perc_second d p (c :: s)), ?orb_false_r by done; [by exists b1|by exists b2|].
    exists false. split; [done|]. apply agrees_refl.
Qed.

Lemma rec_ok : ∀ fuel s p, (length s + length p < fuel)%nat -> plain_pat p -> text s ->
  ∃ b, sphWildcardMatchRec fuel s p = Some b /\ agrees (regular p) b (ref (parse p) s).
Proof.
  induction fuel as [|fuel IH]; intros s p Hf Hp Hs; [lia|]. destruct s as [|c s]; [exists (trailing p); split; [done|by apply trailing_ok]|].
  inversion Hs as [|? ? Hc0 Hs']; subst. cbn [sphWildcardMatchRec].
  destruct p as [|q p].
  { cbn [hd]. rewrite (proj2 (Z.eqb_neq c 0)) by done. exists false. split; [done|]. apply agrees_refl. }
  inversion Hp as [|? ? [Hq Hq0] Hp']; subst. cbn [hd tail]. cbn [length] in Hf. rewrite (proj2 (Z.eqb_neq q c_esc)) by done.
  assert (∀ s', (length s' <= S (length s))%nat -> text s' -> ∃ b, sphWildcardMatchRec fuel s' p = Some b /\ agrees (regular (q :: p)) b (ref (parse p) s')) as IHp.
  { intros s' L T. destruct (IH s' p) as (b & E & A); [lia|done|done|]. exists b. split; [done|]. eapply agrees_weaken; [|exact A]. apply regular_tail. }
  rewrite parse_cons by done. unfold tok. destruct (Z.eqb_spec q c_quest) as [->|Nq]; [by apply (IHp s); [lia|]|].
  destruct (Z.eqb_spec q c_perc) as [->|Np]; [|destruct (Z.eqb_spec q c_star) as [->|Ns]].
  - by apply perc_ok; [done|done|apply IHp; [cbn; lia|done]|apply IHp; [lia|done]].
  - pose proof (skip_stars_ok p (c :: s) false Hp' Hs ltac:(done)) as R. cbn [run_post] in R. change (run_ok false p && regular p) with (regular (c_star :: p)) in R.
    destruct (skip_stars p (c :: s)) as [b|[s1 p1]]; [by exists b|]. destruct R as (-> & T1 & P1 & L1 & L2 & N1 & N2 & G).
    destruct p1 as [|d p1]; [exists true; split; [done|]; cbn [parse]; rewrite ref_all_star; apply agrees_refl|]. inversion P1 as [|? ? [Hd _] P1']; subst. cbn [hd] in *. rewrite parse_cons by done.
    apply scan_ok; [|intros s' L T|done].
    + unfold tok. rewrite (proj2 (Z.eqb_neq d c_star)), (proj2 (Z.eqb_neq d c_quest)) by done. destruct (Z.eqb_spec d c_perc) as [->|]; [|by left]. right. split; [done|].
      destruct (regular (c_star :: p)) eqn:Eg; [|done]. by destruct (G eq_refl).
    + destruct (IH s' p1) as (b & E & A); [cbn [length] in *; lia|done|done|]. exists b. split; [done|]. eapply agrees_weaken; [|exact A]. intros [Hr _]%G. by apply regular_tail in Hr.
  - rewrite ref_lit. destruct (Z.eqb_spec c q) as [->|Nc]; cbn [negb andb]; [apply IHp; [lia|done]|]. exists false. split; [done|]. apply agrees_refl.
Qed.


(** ** Words and patterns in UTF-8 *)

Lemma encode_ascii c : code_ok c -> sphIsUTF8 (sphUTF8Encode c) = false -> sphUTF8Encode c = [c] /\ c < 128.
Proof.
  unfold code_ok, sphUTF8Encode. intros Hc. destruct (Z.ltb_spec c 0x80); [intros _; split; [|lia]; by rewrite land_7f, Z.mod_small by lia|].
  assert (∀ x, 128 <= Z.lor x 0x80 \/ x < 0) as L.
  { intros x. destruct (Z.ltb_spec x 0); [by right|]. left. assert (0 <= Z.lor x 0x80) as P by (apply Z.lor_nonneg; lia).
    assert (Z.testbit (Z.lor x 0x80) 7 = true) as T by (rewrite Z.lor_spec; change (Z.testbit 0x80 7) with true; by rewrite orb_true_r).
    destruct (Z.ltb_spec (Z.lor x 0x80) 128) as [B|B]; [|lia]. destruct (Z.eq_dec (Z.lor x 0x80) 0) as [E|N]; [by rewrite E in T|].
    rewrite Z.bits_above_log2 in T; [done|lia|]. apply Z.log2_lt_pow2; lia. }
  intros E. exfalso. assert (∀ x, 0 <= x -> (128 <=? Z.lor x 0x80) = true) as L' by (intros x Hx; destruct (L x); lia).
  pose proof (L' (Z.land c 0x3F) ltac:(apply Z.land_nonneg; lia)) as P.
  destruct (c <? 0x800), (c <? 0x10000); unfold sphIsUTF8 in E; cbn [existsb] in E; by rewrite P, ?orb_true_r in E.
Qed.

Lemma decode_codes cs eMode : Forall code_ok cs -> cs ≠ [] -> eMode = Extended \/ (length cs <= 42)%nat ->
  ∃ o, DecodeWildcardUtf8 (encode_all cs) eMode = Some o /\ default (chars (encode_all cs)) o = cs.
Proof.
  intros F Hn Hm. unfold DecodeWildcardUtf8. destruct (sphIsUTF8 (encode_all cs)) eqn:E; cbn [negb].
  - set (m := match eMode with Legacy => _ | Extended => _ end). unfold sphUTF8ToWideChar. pose proof (encode_all_len cs) as L. rewrite wide_loop_encode by (done || lia). cbn [mbind option_bind].
    rewrite take_ge. { exists (Some cs). split; [by destruct cs|done]. }
    unfold m, SPH_MAX_WORD_LEN. destruct eMode; [destruct Hm as [?|Hm]; [done|lia]|]. destruct (Z.leb_spec (Z.of_nat (length (encode_all cs))) 42); lia.
  - exists None. split; [done|]. cbn [default]. clear Hn Hm. induction F as [|c cs Hc F IH]; [done|]. change (encode_all (c :: cs)) with (sphUTF8Encode c ++ encode_all cs) in *.
    unfold sphIsUTF8 in E. rewrite existsb_app in E. apply orb_false_elim in E as [E1 E2]. destruct (encode_ascii c Hc E1) as [-> L]. unfold chars in *. cbn [app map]. rewrite (IH E2). f_equal.
    unfold code_ok in Hc. apply cast_id; cbn; lia.
Qed.


Lemma codes_text cs : Forall code_ok cs -> text cs.
Proof. intros F. eapply Forall_impl; [exact F|]. unfold code_ok. lia. Qed.

(** Without backslashes the table answers for the pattern behind a star. *)
Lemma plain_esc_ok p : plain_pat p -> esc_ok p = true.
Proof. induction 1 as [|c p [H _] _ IH]; [done|]. cbn [esc_ok]. by rewrite (proj2 (Z.eqb_neq _ _) H). Qed.

Lemma spec_ok s p eMode : plain_pat p -> text s -> eMode = Extended \/ Z.of_nat (length s) <= MAX_KEYWORD_BYTES ->
  ∃ b, sphWildcardMatchSpec s p eMode = Some b /\
    (many_stars p = true -> b = ref (Star :: parse p) s) /\ (many_stars p = false -> agrees (regular p) b (ref (parse p) s)).
Proof.
  intros Hp Hs Hm. unfold sphWildcardMatchSpec. destruct (many_stars p) eqn:E.
  - eexists. split; [done|]. split; [|done]. intros _. apply dp_exact; [by apply plain_esc_ok|]. destruct Hm as [->|Hm]; [lia|destruct eMode; lia].
  - destruct (rec_ok (S (length s + length p)) s p) as (b & -> & A); [lia|done|done|]. by exists b.
Qed.

Lemma encode_all_nil cs : encode_all cs = [] -> cs = [].
Proof. intros E. pose proof (encode_all_len cs) as L. rewrite E in L. by destruct cs; [|cbn in L; lia]. Qed.

(** [C28] Wildcards on UTF-8 text: a word and a pattern without backslashes, both
    not empty and of at most 42 characters unless the buffers are extended, are
    decoded and matched, always with an answer. An answer "yes" of the recursive
    matcher is right, and the answer is exact for regular patterns (in a run
    after a star the stars come first and no percent sign follows, no percent
    sign before an end that can be empty). With more than ten stars, or more
    than five in a long pattern, the answer is exact for the pattern with a star
    put in front of it. *)
Theorem wildcard_match_correct eMode cs ps : Forall code_ok cs -> Forall code_ok ps -> cs ≠ [] -> ps ≠ [] ->
  eMode = Extended \/ (length cs <= 42 /\ length ps <= 42)%nat -> ~ In c_esc ps ->
  ∃ pat b, DecodeWildcardUtf8 (encode_all ps) eMode = Some pat /\ sphWildcardMatch (encode_all cs) (encode_all ps) pat eMode = Some b /\
    (if many_stars ps then b = ref (Star :: parse ps) cs
     else (b = true -> ref (parse ps) cs = true) /\ (regular ps = true -> b = ref (parse ps) cs)).
Proof.
  intros Fc Fp Nc Np Hm He. destruct (decode_codes ps eMode Fp Np) as (pat & Ep & Dp); [tauto|]. destruct (decode_codes cs eMode Fc Nc) as (str & Es & Ds); [tauto|].
  assert (plain_pat ps) as Hp. { apply Forall_forall. intros c Hc. split; [intros ->; by apply He, list_elem_of_In|]. rewrite Forall_forall in Fp. specialize (Fp c Hc). unfold code_ok in Fp. lia. }
  destruct (spec_ok cs ps eMode Hp (codes_text cs Fc)) as (b & Eb & B1 & B2); [unfold MAX_KEYWORD_BYTES, SPH_MAX_WORD_LEN; destruct Hm as [->|]; [by left|right; lia]|].
  exists pat, b. split; [done|]. split; [|destruct (many_stars ps); [by apply B1|by apply B2]].
  unfold sphWildcardMatch. destruct (encode_all cs) eqn:E1; [by apply encode_all_nil in E1|]. destruct (encode_all ps) eqn:E2; [by apply encode_all_nil in E2|].
  rewrite Es. cbn [mbind option_bind]. by rewrite Ds, Dp.
Qed.

(** A Cyrillic word, a pattern with a star and a percent sign. *)
Lemma wildcard_match_witness : let cs := [0x43C; 0x430; 0x43C; 0x430] in let ps := [0x43C; 42; 63; 0x43C; 37] in
  ∃ pat b, DecodeWildcardUtf8 (encode_all ps) Legacy = Some pat /\ sphWildcardMatch (encode_all cs) (encode_all ps) pat Legacy = Some b /\
    (if many_stars ps then b = ref (Star :: parse ps) cs
     else (b = true -> ref (parse ps) cs = true) /\ (regular ps = true -> b = ref (parse ps) cs)).
Proof.
  intros cs ps. apply (wildcard_match_correct Legacy cs ps).
  1-2: repeat constructor; unfold code_ok; lia.
  1-2: done.
  - right. cbn. lia.
  - cbn. unfold c_esc. lia.
Defined.

(** ** What goes wrong *)

Lemma nullable_stars n : nullable (replicate n c_star) = true.
Proof. by induction n. Qed.

Lemma ref_stars n : ∀ s, ref (replicate (S n) Star) s = true.
Proof. induction n as [|n IH]; intros s; [apply ref_all_star|]. change (replicate (S (S n)) Star) with (Star :: replicate (S n) Star). rewrite ref_star. by rewrite IH. Qed.

Lemma parse_stars n : parse (replicate n c_star) = replicate n Star.
Proof. induction n as [|n IH]; [done|]. cbn [replicate parse]. change (c_star =? c_esc) with false. rewrite IH. by cbn. Qed.

(** The matcher for many stars forgets that a pattern starts at the start of
    the word: a character with eleven stars behind it accepts every word that
    has the character anywhere, though it means the words that start with it.
    The recursive matcher, on the other hand, misses words: a question mark
    between stars, a percent sign after a star or before a star at the end; and
    a backslash after a star is taken for itself. *)
Theorem wildcard_unanchored x s : 0 < x < 128 -> sphIsWild x = false -> x ≠ c_esc -> text s -> Z.of_nat (length s) <= MAX_KEYWORD_BYTES ->
  sphWildcardMatchSpec s (x :: replicate 11 c_star) Legacy = Some (existsb (λ c, c =? x) s) /\
  ref (parse (x :: replicate 11 c_star)) s = match s with [] => false | c :: _ => c =? x end /\
  Forall (λ '(s, p), sphWildcardMatchSpec s p Legacy = Some false /\ ref (parse p) s = true)
    [([97], [42; 63; 42]); ([97; 98], [42; 37; 98]); ([97], [97; 37; 42]); ([97], [97; 37; 37]); ([97; 42], [42; 92; 42])] /\
  sphWildcardMatchSpec [97; 92; 122] [42; 92; 42] Legacy = Some true /\ ref (parse [42; 92; 42]) [97; 92; 122] = false.
Proof.
  intros Hx Hw He Hs Hl. assert (plain_pat (x :: replicate 11 c_star)) as Hp by (constructor; [lia|apply (bool_decide_unpack _); vm_compute; exact I]).
  assert (parse (x :: replicate 11 c_star) = Lit x :: replicate 11 Star) as Ep.
  { rewrite parse_cons, parse_stars by done. unfold sphIsWild in Hw. apply orb_false_elim in Hw as [[H1 H2]%orb_false_elim H3]. unfold tok. by rewrite H1, H2, H3. }
  split; [|split; [|split; [repeat constructor|done]]].
  - destruct (spec_ok s (x :: replicate 11 c_star) Legacy) as (b & -> & B & _); [done|done|by right|]. f_equal. rewrite B, Ep; [|unfold many_stars, count_stars; cbn [filter replicate length]; rewrite filter_cons_False; [done|]; unfold sphIsWild in Hw; lia].
    clear. induction s as [|c s IH]; [done|]. rewrite ref_star, ref_lit, ref_stars, andb_true_r. cbn [existsb]. by rewrite IH.
  - rewrite Ep. destruct s as [|c s]; [done|]. rewrite ref_lit, ref_stars. apply andb_true_r.
Qed.

Lemma wildcard_unanchored_witness : sphWildcardMatchSpec [97; 98] (98 :: replicate 11 c_star) Legacy = Some (existsb (λ c, c =? 98) [97; 98]) /\
  ref (parse (98 :: replicate 11 c_star)) [97; 98] = false.
Proof.
  destruct (wildcard_unanchored 98 [97; 98]) as (E & F & _); [lia|done|done|apply (bool_decide_unpack _); vm_compute; exact I|vm_compute; done|]. split; [exact E|exact F].
Defined.
End WildcardOk.
