(* ===== verification/RowAttr.v ===== *)
(** * Attributes in a row (src/src/schema/locator_impl.h)

    A row is a vector of 32-bit items; a locator says at which bit an attribute
    starts and how many bits it has. *)

From S2P Require Import Prelude BitCount BitVec Hits.
Import BitCount BitVec.

Module RowAttr.

Definition SphAttr_t := int64_t.
Definition CSphRowitem := DWORD.
Definition ROWITEM_BITS : Z := 32.
Definition ROWITEM_SHIFT : Z := 5.

Record CSphAttrLocator := AttrLocator {
  m_iBitOffset : Z;
  m_iBitCount : Z;
  m_iBlobAttrId : Z;
  m_iBlobRowOffset : Z;
  m_nBlobAttrs : Z;
  m_bDynamic : bool
}.

(** A locator as it is constructed. *)
Definition new_locator : CSphAttrLocator := AttrLocator (-1) (-1) (-1) 1 0 true.

Definition IsBlobAttr (tLoc : CSphAttrLocator) : bool := 0 <=? m_iBlobAttrId tLoc.

(** [pRow[iItem]]; [None] is an access outside the row. *)
Definition item (pRow : list Z) (iItem : Z) : option Z := pRow !! Z.to_nat iItem.

Definition set_item (pRow : list Z) (iItem v : Z) : option (list Z) :=
  _ ← item pRow iItem; Some (<[Z.to_nat iItem := v]> pRow).

(** [( 1UL << m_iBitCount )-1] *)
Definition count_mask (tLoc : CSphAttrLocator) : Z := Z.shiftl 1 (m_iBitCount tLoc) - 1.

Definition sphGetRowAttr (pRow : list Z) (tLoc : CSphAttrLocator) : option Z :=
  let iItem := Z.shiftr (m_iBitOffset tLoc) ROWITEM_SHIFT in
  if m_iBitCount tLoc =? ROWITEM_BITS then item pRow iItem
  else if m_iBitCount tLoc =? 2 * ROWITEM_BITS then
    lo ← item pRow iItem; hi ← item pRow (iItem + 1);
    Some (cast SphAttr_t (lo + Z.shiftl hi ROWITEM_BITS))
  else
    let iShift := Z.land (m_iBitOffset tLoc) (Z.shiftl 1 ROWITEM_SHIFT - 1) in
    v ← item pRow iItem; Some (Z.land (Z.shiftr v iShift) (count_mask tLoc)).

Definition sphSetRowAttr (pRow : list Z) (tLoc : CSphAttrLocator) (uValue : Z) : option (list Z) :=
  let iItem := Z.shiftr (m_iBitOffset tLoc) ROWITEM_SHIFT in
  if m_iBitCount tLoc =? 2 * ROWITEM_BITS then
    pRow ← set_item pRow iItem (cast CSphRowitem uValue);
    set_item pRow (iItem + 1) (cast CSphRowitem (Z.shiftr uValue ROWITEM_BITS))
  else if m_iBitCount tLoc =? ROWITEM_BITS then set_item pRow iItem (cast CSphRowitem uValue)
  else
    let iShift := Z.land (m_iBitOffset tLoc) (Z.shiftl 1 ROWITEM_SHIFT - 1) in
    let uMask := cast CSphRowitem (Z.shiftl (count_mask tLoc) iShift) in
    v ← item pRow iItem;
    set_item pRow iItem (Z.lor (Z.land v (cast CSphRowitem (Z.lnot uMask))) (cast CSphRowitem (Z.land uMask (Z.shiftl uValue iShift)))).

(** ** Reading and writing by bits *)

Abbreviation rbit row i := (bit DWORD row i).

(** A place inside a row of [stride] items: a bit field of one item, or two
    whole items. *)
Record loc_ok (stride : Z) (l : CSphAttrLocator) : Prop := {
  loc_start : 0 <= m_iBitOffset l;
  loc_end : m_iBitOffset l + m_iBitCount l <= 32 * stride;
  loc_count : 0 < m_iBitCount l;
  loc_item : m_iBitOffset l mod 32 + m_iBitCount l <= 32 \/ (m_iBitCount l = 64 /\ m_iBitOffset l mod 32 = 0)
}.

Record row_ok (stride : Z) (row : list Z) : Prop := {
  row_length : Z.of_nat (length row) = stride;
  row_items : Forall (in_type DWORD) row
}.

(** The values an attribute can have. *)
Definition in_attr (l : CSphAttrLocator) (v : Z) : Prop :=
  if m_iBitCount l =? 64 then in_type int64_t v else 0 <= v < 2 ^ m_iBitCount l.

Lemma shift5 x : Z.shiftr x 5 = x / 32.
Proof. by rewrite Z.shiftr_div_pow2. Qed.
Lemma land31 x : Z.land x (Z.shiftl 1 5 - 1) = x mod 32.
Proof. apply (land_ones_mod x 5). lia. Qed.

Lemma item_ok stride row i : row_ok stride row -> 0 <= i < stride -> ∃ w, item row i = Some w /\ in_type DWORD w /\ ∀ k, 0 <= k < 32 -> Z.testbit w k = rbit row (i * 32 + k).
Proof.
  intros [L F] Hi. destruct (lookup_lt_is_Some_2 row (Z.to_nat i)) as [w E]; [lia|]. exists w. split; [done|]. rewrite Forall_forall in F.
  split; [apply F; by apply list_elem_of_lookup_2 in E|]. intros k Hk. unfold bit. change (SIZEBITS DWORD) with 32.
  rewrite Z.div_add_l, (Z.div_small k), Z.add_0_r by lia. rewrite E, Z.add_comm, Z.mod_add, Z.mod_small by lia. done.
Qed.

Lemma item_of l stride : loc_ok stride l -> 0 <= m_iBitOffset l / 32 < stride /\ m_iBitOffset l = m_iBitOffset l / 32 * 32 + m_iBitOffset l mod 32 /\ 0 <= m_iBitOffset l mod 32 < 32 /\
  (m_iBitCount l = 64 -> m_iBitOffset l mod 32 = 0 /\ m_iBitOffset l / 32 + 1 < stride) /\ (m_iBitCount l <> 64 -> m_iBitOffset l mod 32 + m_iBitCount l <= 32).
Proof. intros [H1 H2 H3 H4]. pose proof (Z.div_mod (m_iBitOffset l) 32 ltac:(lia)). pose proof (Z.mod_pos_bound (m_iBitOffset l) 32 ltac:(lia)). lia. Qed.

Lemma word_bits w : 0 <= w < 2 ^ 32 -> ∀ k, 32 <= k -> Z.testbit w k = false.
Proof. intros Hw k Hk. by apply (Hits.Hitman.testbit_high w 32). Qed.

(** The value is the number of the bits. *)
Lemma get_spec stride row l : row_ok stride row -> loc_ok stride l ->
  ∃ v, sphGetRowAttr row l = Some v /\ in_attr l v /\ ∀ k, 0 <= k < m_iBitCount l -> Z.testbit v k = rbit row (m_iBitOffset l + k).
Proof.
  intros Hr Hl. pose proof (item_of l stride Hl) as (Hi & Eo & Hm & H64 & Hs). pose proof (loc_count _ _ Hl) as Hc. unfold sphGetRowAttr, in_attr.
  unfold ROWITEM_SHIFT, ROWITEM_BITS. rewrite shift5, land31. change (2 * 32) with 64. destruct (item_ok stride row (m_iBitOffset l / 32) Hr Hi) as (w & Ew & Tw & Bw).
  unfold in_type in Tw. cbn [is_signed DWORD bits] in Tw.
  destruct (Z.eqb_spec (m_iBitCount l) 32) as [E|E].
  - rewrite E. exists w. split; [done|]. split; [done|]. intros k Hk. rewrite Bw by done. f_equal. lia.
  - destruct (Z.eqb_spec (m_iBitCount l) 64) as [E2|E2].
    + destruct (H64 E2) as [M0 Hn]. destruct (item_ok stride row (m_iBitOffset l / 32 + 1) Hr ltac:(lia)) as (h & Eh & Th & Bh). unfold in_type in Th. cbn [is_signed DWORD bits] in Th.
      rewrite Ew, Eh. cbn [mbind option_bind]. eexists. split; [done|]. split; [by apply cast_in_type|]. rewrite E2. intros k Hk.
      assert (Z.testbit (cast SphAttr_t (w + Z.shiftl h 32)) k = Z.testbit (w + Z.shiftl h 32) k) as ->.
      { rewrite <- (Z.mod_pow2_bits_low (cast _ _) 64), <- (Z.mod_pow2_bits_low (w + _) 64) by lia. f_equal. apply (cast_cong SphAttr_t). }
      rewrite Z.add_comm, Z.shiftl_mul_pow2, <- lor_shiftl_add, Z.lor_spec, Z.shiftl_spec by lia. destruct (Z.ltb_spec k 32).
      * rewrite (Z.testbit_neg_r h) by lia. rewrite Bw by lia. cbn [orb]. f_equal. lia.
      * rewrite (word_bits w), orb_false_r by lia. rewrite Bh by lia. f_equal. lia.
    + rewrite Ew. cbn [mbind option_bind]. eexists. split; [done|]. unfold count_mask. rewrite Z.shiftl_1_l, land_ones_mod by lia.
      split; [apply Z.mod_pos_bound; lia|]. intros k Hk. specialize (Hs E2). rewrite Z.mod_pow2_bits_low, Z.shiftr_spec by lia. rewrite Bw by lia. f_equal. lia.
Qed.

Lemma in_attr_inj l v w : 0 < m_iBitCount l -> in_attr l v -> in_attr l w -> (∀ k, 0 <= k < m_iBitCount l -> Z.testbit v k = Z.testbit w k) -> v = w.
Proof.
  unfold in_attr. intros Hc Hv Hw B. assert (v mod 2 ^ m_iBitCount l = w mod 2 ^ m_iBitCount l) as E.
  { apply Z.bits_inj'. intros k Hk. destruct (decide (k < m_iBitCount l)); [rewrite !Z.mod_pow2_bits_low by lia; apply B; lia|by rewrite !Z.mod_pow2_bits_high by lia]. }
  destruct (Z.eqb_spec (m_iBitCount l) 64) as [E2|]; [|by rewrite !Z.mod_small in E by lia]. rewrite <- (cast_id int64_t v), <- (cast_id int64_t w) by done.
  apply cast_eq. change (bits int64_t) with 64. by rewrite <- E2.
Qed.

Lemma set_item_ok stride row i v : row_ok stride row -> 0 <= i < stride -> in_type DWORD v ->
  ∃ row', set_item row i v = Some row' /\ row_ok stride row' /\ ∀ j, 0 <= j -> rbit row' j = if (i * 32 <=? j) && (j <? i * 32 + 32) then Z.testbit v (j - i * 32) else rbit row j.
Proof.
  intros Hr Hi Hv. destruct (item_ok stride row i Hr Hi) as (w & Ew & _ & _). unfold set_item. rewrite Ew. cbn [mbind option_bind]. eexists. split; [done|].
  destruct Hr as [L F]. split; [split; [by rewrite length_insert|by apply Forall_insert]|]. intros j Hj. unfold bit. change (SIZEBITS DWORD) with 32.
  pose proof (Z.div_mod j 32 ltac:(lia)). pose proof (Z.mod_pos_bound j 32 ltac:(lia)).
  destruct (Z.leb_spec (i * 32) j), (Z.ltb_spec j (i * 32 + 32)); cbn [andb].
  - assert (j / 32 = i) as -> by lia. rewrite list_lookup_insert_eq by lia. f_equal. lia.
  - rewrite list_lookup_insert_ne by lia. done.
  - rewrite list_lookup_insert_ne by lia. done.
  - lia.
Qed.

Lemma mask_bits_dword c s k : 0 <= s -> 0 <= c -> 0 <= k < 32 -> Z.testbit (cast CSphRowitem (Z.shiftl (Z.shiftl 1 c - 1) s)) k = (s <=? k) && (k <? s + c).
Proof.
  intros Hs Hc Hk. unfold cast, wrap. cbn [CSphRowitem DWORD is_signed bits]. rewrite Z.mod_pow2_bits_low, Z.shiftl_spec by lia.
  rewrite Z.shiftl_1_l. replace (2 ^ c - 1) with (Z.ones c) by (rewrite Z.ones_equiv; lia).
  destruct (Z.leb_spec s k); cbn [andb]; [|by rewrite Z.testbit_neg_r by lia].
  destruct (Z.ltb_spec k (s + c)); [by rewrite Z.ones_spec_low by lia|by rewrite Z.ones_spec_high by lia].
Qed.

Lemma cast_dword_bit x k : 0 <= k < 32 -> Z.testbit (cast CSphRowitem x) k = Z.testbit x k.
Proof. apply (cast_bit DWORD (or_introl eq_refl)). Qed.

Lemma dword_of_bits y : 0 <= y -> (∀ k, 32 <= k -> Z.testbit y k = false) -> in_type DWORD y.
Proof.
  intros Hy B. unfold in_type. cbn [is_signed DWORD bits]. split; [done|]. apply Z.lt_nge. intros C.
  assert (32 <= Z.log2 y) as L by (apply Z.log2_le_pow2; lia). specialize (B _ L). rewrite Z.bit_log2 in B by lia. done.
Qed.

Lemma dword_lor a b : in_type DWORD a -> in_type DWORD b -> in_type DWORD (Z.lor a b).
Proof.
  unfold in_type at 1 2. cbn [is_signed DWORD bits]. intros Ha Hb. apply dword_of_bits; [apply Z.lor_nonneg; lia|]. intros k Hk. by rewrite Z.lor_spec, !word_bits by lia.
Qed.

Lemma dword_land a b : in_type DWORD a -> in_type DWORD b -> in_type DWORD (Z.land a b).
Proof.
  unfold in_type at 1 2. cbn [is_signed DWORD bits]. intros Ha Hb. apply dword_of_bits; [apply Z.land_nonneg; lia|]. intros k Hk. by rewrite Z.land_spec, !word_bits by lia.
Qed.

(** Writing changes the bits of the place and no others. *)
Lemma set_spec stride row l v : row_ok stride row -> loc_ok stride l ->
  ∃ row', sphSetRowAttr row l v = Some row' /\ row_ok stride row' /\
    ∀ j, 0 <= j -> rbit row' j = if (m_iBitOffset l <=? j) && (j <? m_iBitOffset l + m_iBitCount l) then Z.testbit v (j - m_iBitOffset l) else rbit row j.
Proof.
  intros Hr Hl. pose proof (item_of l stride Hl) as (Hi & Eo & Hm & H64 & Hs). pose proof (loc_count _ _ Hl) as Hc. unfold sphSetRowAttr.
  unfold ROWITEM_SHIFT, ROWITEM_BITS. rewrite shift5, land31. change (2 * 32) with 64. set (q := m_iBitOffset l / 32) in *. set (r := m_iBitOffset l mod 32) in *.
  assert (∀ x, in_type DWORD (cast CSphRowitem x)) as T by (intros; by apply cast_in_type).
  destruct (Z.eqb_spec (m_iBitCount l) 64) as [E2|E2]; [|destruct (Z.eqb_spec (m_iBitCount l) 32) as [E|E]].
  - destruct (H64 E2) as [M0 Hn]. destruct (set_item_ok stride row q (cast CSphRowitem v) Hr Hi (T v)) as (r1 & -> & R1 & B1). cbn [mbind option_bind].
    destruct (set_item_ok stride r1 (q + 1) (cast CSphRowitem (Z.shiftr v 32)) R1 ltac:(lia) (T _)) as (r2 & -> & R2 & B2). exists r2. split; [done|]. split; [done|].
    intros j Hj. rewrite B2, B1 by done. rewrite E2.
    destruct (Z.leb_spec ((q + 1) * 32) j), (Z.ltb_spec j ((q + 1) * 32 + 32)), (Z.leb_spec (q * 32) j), (Z.ltb_spec j (q * 32 + 32)), (Z.leb_spec (m_iBitOffset l) j), (Z.ltb_spec j (m_iBitOffset l + 64)); cbn [andb]; try lia; try done.
    + rewrite cast_dword_bit, Z.shiftr_spec by lia. f_equal. lia.
    + rewrite cast_dword_bit by lia. f_equal. lia.
  - destruct (set_item_ok stride row q (cast CSphRowitem v) Hr Hi (T v)) as (r1 & -> & R1 & B1). exists r1. split; [done|]. split; [done|].
    intros j Hj. rewrite B1 by done. rewrite E. specialize (Hs E2).
    destruct (Z.leb_spec (q * 32) j), (Z.ltb_spec j (q * 32 + 32)), (Z.leb_spec (m_iBitOffset l) j), (Z.ltb_spec j (m_iBitOffset l + 32)); cbn [andb]; try lia; try done.
    rewrite cast_dword_bit by lia. f_equal. lia.
  - destruct (item_ok stride row q Hr Hi) as (w & -> & Tw & Bw). cbn [mbind option_bind]. unfold count_mask. set (M := cast CSphRowitem (Z.shiftl (Z.shiftl 1 (m_iBitCount l) - 1) r)).
    set (x := Z.lor _ _). assert (in_type DWORD x) as Tx by (apply dword_lor; [apply dword_land|]; done || apply T).
    destruct (set_item_ok stride row q x Hr Hi Tx) as (r1 & -> & R1 & B1). exists r1. split; [done|]. split; [done|].
    specialize (Hs E2). intros j Hj. rewrite B1 by done. destruct (Z.leb_spec (q * 32) j), (Z.ltb_spec j (q * 32 + 32)); cbn [andb].
    2-4: destruct (Z.leb_spec (m_iBitOffset l) j), (Z.ltb_spec j (m_iBitOffset l + m_iBitCount l)); cbn [andb]; lia || done.
    unfold x. rewrite Z.lor_spec, Z.land_spec, !cast_dword_bit, Z.land_spec, Z.lnot_spec by lia. unfold M. rewrite mask_bits_dword by lia. rewrite Bw by lia. rewrite Z.shiftl_spec by lia.
    replace (q * 32 + (j - q * 32)) with j by lia. replace (j - q * 32 - r) with (j - m_iBitOffset l) by lia.
    replace ((r <=? j - q * 32) && (j - q * 32 <? r + m_iBitCount l)) with ((m_iBitOffset l <=? j) && (j <? m_iBitOffset l + m_iBitCount l)) by lia.
    destruct ((m_iBitOffset l <=? j) && _); cbn [negb andb]; [by rewrite andb_false_r|by rewrite andb_true_r, orb_false_r].
Qed.

(** Places that have no bit in common. *)
Definition disjoint (l1 l2 : CSphAttrLocator) : Prop :=
  m_iBitOffset l1 + m_iBitCount l1 <= m_iBitOffset l2 \/ m_iBitOffset l2 + m_iBitCount l2 <= m_iBitOffset l1.

(** A value as the attribute keeps it. *)
Definition trim (l : CSphAttrLocator) (v : Z) : Z := if m_iBitCount l =? 64 then cast int64_t v else v mod 2 ^ m_iBitCount l.

Lemma trim_in l v : 0 < m_iBitCount l -> in_attr l (trim l v).
Proof. unfold in_attr, trim. intros H. destruct (_ =? _); [by apply cast_in_type|]. apply Z.mod_pos_bound. lia. Qed.

Lemma trim_bits l v k : 0 <= k < m_iBitCount l -> Z.testbit (trim l v) k = Z.testbit v k.
Proof.
  unfold trim. intros H. destruct (Z.eqb_spec (m_iBitCount l) 64) as [E|]; [|by rewrite Z.mod_pow2_bits_low by lia].
  rewrite <- (Z.mod_pow2_bits_low (cast _ _) 64), <- (Z.mod_pow2_bits_low v 64) by lia. f_equal. apply (cast_cong int64_t).
Qed.

Lemma trim_id l v : 0 < m_iBitCount l -> in_attr l v -> trim l v = v.
Proof. intros Hc Hv. apply (in_attr_inj l); [done|by apply trim_in|done|]. intros. by apply trim_bits. Qed.

Lemma get_total stride row l : row_ok stride row -> loc_ok stride l -> ∃ v, sphGetRowAttr row l = Some v /\ in_attr l v.
Proof. intros Hr Hl. destruct (get_spec stride row l Hr Hl) as (v & E & I & _). eauto. Qed.

(** A written value is read back, and the other attributes keep theirs. *)
Lemma set_get stride row l v : row_ok stride row -> loc_ok stride l ->
  ∃ row', sphSetRowAttr row l v = Some row' /\ row_ok stride row' /\ sphGetRowAttr row' l = Some (trim l v) /\
    ∀ l2, loc_ok stride l2 -> disjoint l l2 -> sphGetRowAttr row' l2 = sphGetRowAttr row l2.
Proof.
  intros Hr Hl. destruct (set_spec stride row l v Hr Hl) as (row' & E & Hr' & B). exists row'. split; [done|]. split; [done|]. split.
  - destruct (get_spec stride row' l Hr' Hl) as (x & Ex & Ix & Bx). rewrite Ex. f_equal. pose proof (loc_count _ _ Hl) as Hc. pose proof (loc_start _ _ Hl).
    apply (in_attr_inj l); [done|done|by apply trim_in|]. intros k Hk. rewrite Bx, B, trim_bits by lia.
    rewrite (proj2 (Z.leb_le _ _)), (proj2 (Z.ltb_lt _ _)) by lia. cbn [andb]. f_equal. lia.
  - intros l2 Hl2 D. destruct (get_spec stride row' l2 Hr' Hl2) as (x & Ex & Ix & Bx), (get_spec stride row l2 Hr Hl2) as (y & Ey & Iy & By). rewrite Ex, Ey. f_equal.
    pose proof (loc_count _ _ Hl2). pose proof (loc_start _ _ Hl2). apply (in_attr_inj l2); [done|done|done|]. intros k Hk. rewrite Bx, By, B by lia. unfold disjoint in D.
    destruct (Z.leb_spec (m_iBitOffset l) (m_iBitOffset l2 + k)), (Z.ltb_spec (m_iBitOffset l2 + k) (m_iBitOffset l + m_iBitCount l)); cbn [andb]; lia || done.
Qed.
End RowAttr.
