(* ===== verification/Schema.v ===== *)
(** * The schema of a table (src/src/schema/schema.cpp, src/src/schema/helper.cpp)

    A schema gives every attribute a place in the row, static or dynamic, and
    finds attributes by name, from 32 attributes on with a hash whose chains run
    through the attributes. The hash of a name is a parameter. *)

From Stdlib Require Import String.
From stdpp Require Import strings.
From S2P Require Import Prelude RowAttr.
Import RowAttr.

Module Schema.

Inductive ESphAttr :=
  | SPH_ATTR_NONE | SPH_ATTR_INTEGER | SPH_ATTR_TIMESTAMP | SPH_ATTR_BOOL | SPH_ATTR_FLOAT | SPH_ATTR_BIGINT | SPH_ATTR_STRING
  | SPH_ATTR_POLY2D | SPH_ATTR_STRINGPTR | SPH_ATTR_TOKENCOUNT | SPH_ATTR_JSON | SPH_ATTR_DOUBLE | SPH_ATTR_UINT64
  | SPH_ATTR_FLOAT_VECTOR | SPH_ATTR_FLOAT_VECTOR_ARRAY | SPH_ATTR_UINT32SET | SPH_ATTR_INT64SET | SPH_ATTR_MAPARG
  | SPH_ATTR_FACTORS | SPH_ATTR_JSON_FIELD | SPH_ATTR_FACTORS_JSON | SPH_ATTR_UINT32SET_PTR | SPH_ATTR_INT64SET_PTR
  | SPH_ATTR_JSON_PTR | SPH_ATTR_JSON_FIELD_PTR | SPH_ATTR_STORED_FIELD | SPH_ATTR_FLOAT_VECTOR_PTR | SPH_ATTR_TDIGEST_PTR
  | SPH_ATTR_FLOAT_VECTOR_ARRAY_PTR.

#[export] Instance ESphAttr_eq_dec : EqDecision ESphAttr.
Proof. solve_decision. Defined.

(** [sphIsBlobAttr ( ESphAttr )] *)
Definition is_blob_type (eAttr : ESphAttr) : bool :=
  match eAttr with
  | SPH_ATTR_STRING | SPH_ATTR_JSON | SPH_ATTR_UINT32SET | SPH_ATTR_INT64SET | SPH_ATTR_FLOAT_VECTOR | SPH_ATTR_FLOAT_VECTOR_ARRAY => true
  | _ => false
  end.

Definition sphIsDataPtrAttr (eAttr : ESphAttr) : bool :=
  match eAttr with
  | SPH_ATTR_STRINGPTR | SPH_ATTR_TDIGEST_PTR | SPH_ATTR_FACTORS | SPH_ATTR_FACTORS_JSON | SPH_ATTR_UINT32SET_PTR | SPH_ATTR_INT64SET_PTR
  | SPH_ATTR_FLOAT_VECTOR_PTR | SPH_ATTR_FLOAT_VECTOR_ARRAY_PTR | SPH_ATTR_JSON_PTR | SPH_ATTR_JSON_FIELD_PTR => true
  | _ => false
  end.

Definition IsMvaAttr (eAttr : ESphAttr) : bool :=
  match eAttr with
  | SPH_ATTR_UINT32SET | SPH_ATTR_INT64SET | SPH_ATTR_FLOAT_VECTOR | SPH_ATTR_FLOAT_VECTOR_ARRAY
  | SPH_ATTR_UINT32SET_PTR | SPH_ATTR_INT64SET_PTR | SPH_ATTR_FLOAT_VECTOR_PTR | SPH_ATTR_FLOAT_VECTOR_ARRAY_PTR => true
  | _ => false
  end.

Definition WORD_NONE : Z := 0xffff.

(** The members of [CSphColumnInfo] the schema works with; [m_bColumnar] is the
    flag [ATTR_COLUMNAR]. *)
Record CSphColumnInfo := ColumnInfo {
  m_sName : string;
  m_eAttrType : ESphAttr;
  m_bColumnar : bool;
  m_tLocator : CSphAttrLocator;
  m_uNext : Z
}.

Definition sphIsBlobAttr (tAttr : CSphColumnInfo) : bool := negb (m_bColumnar tAttr) && is_blob_type (m_eAttrType tAttr).

Definition set_locator (c : CSphColumnInfo) (l : CSphAttrLocator) : CSphColumnInfo :=
  ColumnInfo (m_sName c) (m_eAttrType c) (m_bColumnar c) l (m_uNext c).
Definition set_next (c : CSphColumnInfo) (u : Z) : CSphColumnInfo :=
  ColumnInfo (m_sName c) (m_eAttrType c) (m_bColumnar c) (m_tLocator c) u.

Record DataPtrAttr_t := DataPtrAttr { m_iRowitem : Z; m_eType : ESphAttr }.

(** [sphGetDocidName()] *)
Definition docid_name : string := "id".

(** ** [CSphSchemaHelper::InsertAttr] *)

(** [iBits] before the kind of storage is looked at. *)
Definition attr_bits (tCol : CSphColumnInfo) : Z :=
  let iBits := if 0 <? m_iBitCount (m_tLocator tCol) then m_iBitCount (m_tLocator tCol) else ROWITEM_BITS in
  let iBits := match m_eAttrType tCol with SPH_ATTR_BOOL => 1 | _ => iBits end in
  let iBits := match m_eAttrType tCol with SPH_ATTR_BIGINT | SPH_ATTR_UINT64 | SPH_ATTR_JSON_FIELD | SPH_ATTR_DOUBLE => 64 | _ => iBits end in
  if sphIsDataPtrAttr (m_eAttrType tCol) then 64 else iBits.

(** The first item with room for [iBits] more bits, or the end. *)
Fixpoint find_room (dUsed : list Z) (iBits : Z) : nat :=
  match dUsed with
  | [] => O
  | u :: dUsed' => if u + iBits <=? ROWITEM_BITS then O else S (find_room dUsed' iBits)
  end.

(** The two loops that number the blob attributes. *)
Fixpoint number_blobs (iBlobAttrId : Z) (dAttrs : list CSphColumnInfo) : Z * list CSphColumnInfo :=
  match dAttrs with
  | [] => (iBlobAttrId, [])
  | c :: dAttrs' =>
      if sphIsBlobAttr c then
        let l := m_tLocator c in
        let c := set_locator c (AttrLocator (m_iBitOffset l) (m_iBitCount l) iBlobAttrId (m_iBlobRowOffset l) (m_nBlobAttrs l) (m_bDynamic l)) in
        let '(n, r) := number_blobs (iBlobAttrId + 1) dAttrs' in (n, c :: r)
      else let '(n, r) := number_blobs iBlobAttrId dAttrs' in (n, c :: r)
  end.

Definition count_blobs (n iOffset : Z) (c : CSphColumnInfo) : CSphColumnInfo :=
  if sphIsBlobAttr c then
    let l := m_tLocator c in
    set_locator c (AttrLocator (m_iBitOffset l) (m_iBitCount l) (m_iBlobAttrId l) iOffset n (m_bDynamic l))
  else c.

Definition update_blobs (dAttrs : list CSphColumnInfo) : list CSphColumnInfo :=
  let bColumnarID := match dAttrs with c :: _ => String.eqb (m_sName c) docid_name && m_bColumnar c | [] => false end in
  let '(n, dAttrs) := number_blobs 0 dAttrs in
  map (count_blobs n (if bColumnarID then 0 else 1)) dAttrs.

Definition insert_at {A} (iPos : nat) (x : A) (l : list A) : list A := firstn iPos l ++ x :: skipn iPos l.

(** The column with its locator set to a place. *)
Definition placed (tCol : CSphColumnInfo) (bDyn : bool) (off cnt : Z) : CSphColumnInfo :=
  let l := m_tLocator tCol in set_locator tCol (AttrLocator off cnt (m_iBlobAttrId l) (m_iBlobRowOffset l) (m_nBlobAttrs l) bDyn).

(** The columns, the used bits of the row and the pointer attributes. *)
Definition helper_InsertAttr (dAttrs : list CSphColumnInfo) (dUsed : list Z) (dPtrs : list DataPtrAttr_t) (iPos : nat) (tCol : CSphColumnInfo) (bDyn : bool) :
    list CSphColumnInfo * list Z * list DataPtrAttr_t :=
  if decide (m_eAttrType tCol = SPH_ATTR_NONE) then (dAttrs, dUsed, dPtrs)
  else
    let iBits := attr_bits tCol in
    let dPtrs := if sphIsDataPtrAttr (m_eAttrType tCol) then dPtrs ++ [DataPtrAttr (Z.of_nat (length dUsed)) (m_eAttrType tCol)] else dPtrs in
    if m_bColumnar tCol then (insert_at iPos (placed tCol bDyn 0 iBits) dAttrs, dUsed, dPtrs)
    else if sphIsBlobAttr tCol then (update_blobs (insert_at iPos (placed tCol bDyn 0 0) dAttrs), dUsed, dPtrs)
    else if ROWITEM_BITS <=? iBits then
      let iItems := (iBits + ROWITEM_BITS - 1) / ROWITEM_BITS in
      (insert_at iPos (placed tCol bDyn (Z.of_nat (length dUsed) * ROWITEM_BITS) iBits) dAttrs, dUsed ++ replicate (Z.to_nat iItems) ROWITEM_BITS, dPtrs)
    else
      let iItem := find_room dUsed iBits in
      let dUsed := if (iItem =? length dUsed)%nat then dUsed ++ [0] else dUsed in
      let u := nth iItem dUsed 0 in
      (insert_at iPos (placed tCol bDyn (Z.of_nat iItem * ROWITEM_BITS + u) iBits) dAttrs, <[iItem := u + iBits]> dUsed, dPtrs).

(** ** [CSphSchema] *)

Record CSphSchema := MkSchema {
  m_dAttrs : list CSphColumnInfo;
  m_dStaticUsed : list Z;
  m_dDynamicUsed : list Z;
  m_dDataPtrAttrs : list DataPtrAttr_t;
  m_iFirstFieldLenAttr : Z;
  m_iLastFieldLenAttr : Z;
  m_dBuckets : list Z
}.

Definition HASH_THRESH : nat := 32.
Definition BUCKET_COUNT : Z := 256.

Definition no_buckets : list Z := replicate 256 WORD_NONE.
Definition new_schema : CSphSchema := MkSchema [] [] [] [] (-1) (-1) no_buckets.

Definition GetStaticSize (s : CSphSchema) : Z := Z.of_nat (length (m_dStaticUsed s)).
Definition GetDynamicSize (s : CSphSchema) : Z := Z.of_nat (length (m_dDynamicUsed s)).
Definition GetRowSize (s : CSphSchema) : Z := GetStaticSize s + GetDynamicSize s.

Section Hash.
Variable sphCRC32 : string -> Z.

Definition bucket_of (sName : string) : nat := Z.to_nat (sphCRC32 sName mod BUCKET_COUNT).

(** The loop over the attributes that [RebuildHash] puts into the buckets, from
    the position [i] on; the attributes get their links. *)
Fixpoint rebuild_loop (i : Z) (dAttrs : list CSphColumnInfo) (b : list Z) : list CSphColumnInfo * list Z :=
  match dAttrs with
  | [] => ([], b)
  | c :: dAttrs' =>
      let k := bucket_of (m_sName c) in
      let c := set_next c (nth k b 0) in
      let '(r, b) := rebuild_loop (i + 1) dAttrs' (<[k := cast WORD i]> b) in (c :: r, b)
  end.

Definition RebuildHash (dAttrs : list CSphColumnInfo) (b : list Z) : list CSphColumnInfo * list Z :=
  if (length dAttrs <? HASH_THRESH)%nat then (dAttrs, b) else rebuild_loop 0 dAttrs no_buckets.

Definition shift_pos (iStartIndex iAddVal uPos : Z) : Z :=
  if negb (uPos =? WORD_NONE) && (iStartIndex <? uPos) then cast WORD (uPos + iAddVal) else uPos.

Definition UpdateHash (iStartIndex iAddVal : Z) (dAttrs : list CSphColumnInfo) (b : list Z) : list CSphColumnInfo * list Z :=
  if (length dAttrs <? HASH_THRESH)%nat then (dAttrs, b)
  else (map (λ c, set_next c (shift_pos iStartIndex iAddVal (m_uNext c))) dAttrs, map (shift_pos iStartIndex iAddVal) b).

Definition InsertAttr (iPos : nat) (tCol : CSphColumnInfo) (bDyn : bool) (s : CSphSchema) : CSphSchema :=
  let '(dAttrs, b) := if (iPos =? length (m_dAttrs s))%nat then (m_dAttrs s, m_dBuckets s) else UpdateHash (Z.of_nat iPos - 1) 1 (m_dAttrs s) (m_dBuckets s) in
  let '(dAttrs, used, ptrs) := helper_InsertAttr dAttrs (if bDyn then m_dDynamicUsed s else m_dStaticUsed s) (m_dDataPtrAttrs s) iPos tCol bDyn in
  let '(first, last) :=
    match m_eAttrType tCol with
    | SPH_ATTR_TOKENCOUNT =>
        (if m_iFirstFieldLenAttr s =? -1 then Z.of_nat iPos else Z.min (m_iFirstFieldLenAttr s) (Z.of_nat iPos), Z.max (m_iLastFieldLenAttr s) (Z.of_nat iPos))
    | _ => (m_iFirstFieldLenAttr s, m_iLastFieldLenAttr s)
    end in
  let '(dAttrs, b) :=
    if (length dAttrs =? HASH_THRESH)%nat then RebuildHash dAttrs b
    else if (HASH_THRESH <? length dAttrs)%nat then
      match dAttrs !! iPos with
      | Some c =>
          let k := bucket_of (m_sName c) in
          (<[iPos := set_next c (nth k b 0)]> dAttrs, <[k := cast WORD (Z.of_nat iPos)]> b)
      | None => (dAttrs, b)
      end
    else (dAttrs, b) in
  MkSchema dAttrs (if bDyn then m_dStaticUsed s else used) (if bDyn then used else m_dDynamicUsed s) ptrs first last b.

Definition AddAttr (tCol : CSphColumnInfo) (bDyn : bool) (s : CSphSchema) : CSphSchema := InsertAttr (length (m_dAttrs s)) tCol bDyn s.

(** *** [GetAttrIndex] *)

Fixpoint linear (i : Z) (sName : string) (dAttrs : list CSphColumnInfo) : Z :=
  match dAttrs with
  | [] => -1
  | c :: dAttrs' => if String.eqb (m_sName c) sName then i else linear (i + 1) sName dAttrs'
  end.

(** The walk along a chain; [None] is a link that leads nowhere, or a circle. *)
Fixpoint chain (fuel : nat) (sName : string) (dAttrs : list CSphColumnInfo) (uPos : Z) : option Z :=
  match fuel with
  | O => None
  | S fuel' =>
      if uPos =? WORD_NONE then Some (-1)
      else
        c ← dAttrs !! Z.to_nat uPos;
        if String.eqb (m_sName c) sName then Some (cast (CType 16 true) uPos) else chain fuel' sName dAttrs (m_uNext c)
  end.

Definition GetAttrIndex (sName : string) (s : CSphSchema) : option Z :=
  if (HASH_THRESH <=? length (m_dAttrs s))%nat then chain (S (length (m_dAttrs s))) sName (m_dAttrs s) (nth (bucket_of sName) (m_dBuckets s) 0)
  else Some (linear 0 sName (m_dAttrs s)).

(** *** [RemoveAttr] *)

Definition RemoveAttr (szAttr : string) (bDyn : bool) (s : CSphSchema) : option CSphSchema :=
  iIndex ← GetAttrIndex szAttr s;
  if iIndex <? 0 then Some s
  else
    let s0 := MkSchema [] (if bDyn then m_dStaticUsed s else []) [] [] (-1) (-1) (m_dBuckets s) in
    Some (fold_left (λ s c, AddAttr c bDyn s) (firstn (Z.to_nat iIndex) (m_dAttrs s) ++ skipn (S (Z.to_nat iIndex)) (m_dAttrs s)) s0).

Definition RebuildLocators (s : CSphSchema) : CSphSchema :=
  fold_left (λ s c, AddAttr c (m_bDynamic (m_tLocator c)) s) (m_dAttrs s) (MkSchema [] [] [] [] (-1) (-1) (m_dBuckets s)).
End Hash.
End Schema.
