(* ===== verification/SchemaOk.v ===== *)
(** * Attributes of a schema do not overlap

    Whatever attributes are added, inserted and removed, each stored one has a
    place inside its part of the row and shares no bit with another. *)

From Stdlib Require Import String.
From stdpp Require Import strings.
From S2P Require Import Prelude RowAttr Schema.
Import RowAttr Schema.

Module SchemaOk.

(** ** The layout of one part of the row *)

Definition below (used : list Z) (l : CSphAttrLocator) : Prop :=
  ∀ i, m_iBitOffset l <= i < m_iBitOffset l + m_iBitCount l -> ∃ u, used !! Z.to_nat (i / 32) = Some u /\ i mod 32 < u.

Definition above (used : list Z) (l : CSphAttrLocator) : Prop :=
  ∀ i u, m_iBitOffset l <= i < m_iBitOffset l + m_iBitCount l -> used !! Z.to_nat (i / 32) = Some u -> u <= i mod 32.

Record layout (used : list Z) (ls : list CSphAttrLocator) : Prop := {
  lay_used : Forall (λ u, 0 <= u <= 32) used;
  lay_in : Forall (λ l, loc_ok (Z.of_nat (length used)) l /\ below used l) ls;
  lay_disjoint : ForallOrdPairs disjoint ls
}.

Lemma disjoint_sym a b : disjoint a b -> disjoint b a.
Proof. unfold disjoint. lia. Qed.

Lemma FOP_perm l l' : l ≡ₚ l' -> ForallOrdPairs disjoint l -> ForallOrdPairs disjoint l'.
Proof.
  induction 1 as [|x l l' P IH|x y l|l l' l'' P1 IH1 P2 IH2]; intros H; [done| | |auto].
  - inversion H as [|? ? H1 H2]; subst. constructor; [|auto]. by rewrite <- P.
  - inversion H as [|? ? H1 H2]; subst. inversion H2 as [|? ? H3 H4]; subst. inversion H1 as [|? ? H5 H6]; subst.
    constructor; [constructor; [by apply disjoint_sym|done]|]. by constructor.
Qed.

Lemma layout_perm used ls ls' : ls ≡ₚ ls' -> layout used ls -> layout used ls'.
Proof. intros P [H1 H2 H3]. split; [done|by rewrite <- P|by eapply FOP_perm]. Qed.

#[export] Instance layout_proper used : Proper ((≡ₚ) ==> iff) (layout used).
Proof. intros l l' P. split; apply layout_perm; [done|by symmetry]. Qed.

Lemma apart used l l' : 0 < m_iBitCount l -> 0 < m_iBitCount l' -> above used l -> below used l' -> disjoint l l'.
Proof.
  intros H1 H2 A B. unfold disjoint. destruct (Z.le_gt_cases (m_iBitOffset l + m_iBitCount l) (m_iBitOffset l')); [by left|].
  destruct (Z.le_gt_cases (m_iBitOffset l' + m_iBitCount l') (m_iBitOffset l)); [by right|]. exfalso.
  destruct (B (Z.max (m_iBitOffset l) (m_iBitOffset l'))) as (u & E & Hu); [lia|]. apply A in E; lia.
Qed.

(** More bits are used, and a new attribute has some that were free. *)
Lemma layout_add used used' ls l : layout used ls -> Forall (λ u, 0 <= u <= 32) used' -> (length used <= length used')%nat ->
  (∀ i u, used !! i = Some u -> ∃ u', used' !! i = Some u' /\ u <= u') -> loc_ok (Z.of_nat (length used')) l -> below used' l -> above used l ->
  layout used' (l :: ls).
Proof.
  intros [H1 H2 H3] HU HL HM Hl Bl Al. split; [done| |].
  - constructor; [done|]. eapply Forall_impl; [exact H2|]. intros x [[L1 L2 L3 L4] B]. split; [split; lia|].
    intros i Hi. destruct (B i Hi) as (u & E & Hu). destruct (HM _ _ E) as (u' & E' & ?). exists u'. split; [done|lia].
  - constructor; [|done]. rewrite Forall_forall in H2 |- *. intros x Hx. destruct (H2 x Hx) as [Lx Bx]. by eapply (apart used); [apply (loc_count _ _ Hl)|apply (loc_count _ _ Lx)| |].
Qed.

(** ** Inserting *)

Definition stored (c : CSphColumnInfo) : bool := negb (m_bColumnar c) && negb (is_blob_type (m_eAttrType c)).

Abbreviation in_part dyn c := (stored c = true /\ m_bDynamic (m_tLocator c) = dyn).
Definition part (dyn : bool) (dAttrs : list CSphColumnInfo) : list CSphAttrLocator := map m_tLocator (filter (λ c, in_part dyn c) dAttrs).

(** A column whose number of bits, if it is given, is one that fits. *)
Definition col_ok (c : CSphColumnInfo) : Prop := m_eAttrType c <> SPH_ATTR_NONE /\ (m_iBitCount (m_tLocator c) <= 32 \/ m_iBitCount (m_tLocator c) = 64).

Lemma insert_at_perm {A} p (x : A) l : insert_at p x l ≡ₚ x :: l.
Proof. unfold insert_at. rewrite <- Permutation_middle. by rewrite take_drop. Qed.

Lemma part_perm dyn l l' : l ≡ₚ l' -> part dyn l ≡ₚ part dyn l'.
Proof. intros P. unfold part. by rewrite P. Qed.

Lemma part_cons dyn c l : part dyn (c :: l) = if decide (in_part dyn c) then m_tLocator c :: part dyn l else part dyn l.
Proof. unfold part. rewrite filter_cons. by case_decide. Qed.

Lemma part_insert dyn p c l : part dyn (insert_at p c l) ≡ₚ if decide (in_part dyn c) then m_tLocator c :: part dyn l else part dyn l.
Proof. rewrite (part_perm dyn _ _ (insert_at_perm p c l)). by rewrite part_cons. Qed.

(** Columns with the same places and kinds. *)
Definition same_place (c c' : CSphColumnInfo) : Prop :=
  m_eAttrType c' = m_eAttrType c /\ m_bColumnar c' = m_bColumnar c /\ m_bDynamic (m_tLocator c') = m_bDynamic (m_tLocator c) /\
  m_iBitCount (m_tLocator c') = m_iBitCount (m_tLocator c) /\ (stored c = true -> m_tLocator c' = m_tLocator c).

Lemma same_place_part dyn l l' : Forall2 same_place l l' -> part dyn l' = part dyn l.
Proof.
  induction 1 as [|c c' l l' (E1 & E2 & E3 & E4 & E5) _ IH]; [done|]. rewrite !part_cons, IH.
  assert (stored c' = stored c) as Es by (unfold stored; by rewrite E1, E2). rewrite Es, E3. case_decide as D; [|done]. by rewrite E5 by tauto.
Qed.

Lemma same_place_ok l l' : Forall2 same_place l l' -> Forall col_ok l -> Forall col_ok l'.
Proof. induction 1 as [|c c' l l' (E1 & _ & _ & E4 & _) _ IH]; [done|]. intros H. inversion H; subst. constructor; [|auto]. unfold col_ok. by rewrite E1, E4. Qed.

Lemma same_place_refl c : same_place c c.
Proof. unfold same_place. tauto. Qed.
Lemma same_place_trans a b c : same_place a b -> same_place b c -> same_place a c.
Proof.
  intros (A1 & A2 & A3 & A4 & A5) (B1 & B2 & B3 & B4 & B5). split_and!; try congruence. intros H. rewrite B5; [by apply A5|]. unfold stored in *. by rewrite A1, A2.
Qed.

Lemma same_next c u : same_place c (set_next c u).
Proof. unfold same_place. cbn. tauto. Qed.

Lemma blob_not_stored c : sphIsBlobAttr c = true -> stored c = false.
Proof. unfold sphIsBlobAttr, stored. destruct (m_bColumnar c), (is_blob_type (m_eAttrType c)); done. Qed.

Lemma number_blobs_same l : ∀ n, Forall2 same_place l (number_blobs n l).2.
Proof.
  induction l as [|c l IH]; intros n; cbn [number_blobs]; [constructor|]. destruct (sphIsBlobAttr c) eqn:E.
  - destruct (number_blobs (n + 1) l) as [m r] eqn:Er. specialize (IH (n + 1)). rewrite Er in IH. constructor; [|done].
    unfold same_place, set_locator. apply blob_not_stored in E. rewrite E. by cbn.
  - destruct (number_blobs n l) as [m r] eqn:Er. specialize (IH n). rewrite Er in IH. constructor; [apply same_place_refl|done].
Qed.

Lemma count_blobs_same n o l : Forall2 same_place l (map (count_blobs n o) l).
Proof.
  induction l as [|c l IH]; constructor; [|done]. unfold count_blobs. destruct (sphIsBlobAttr c) eqn:E; [|apply same_place_refl].
  unfold same_place, set_locator. apply blob_not_stored in E. rewrite E. by cbn.
Qed.

Lemma Forall2_same_trans l1 l2 l3 : Forall2 same_place l1 l2 -> Forall2 same_place l2 l3 -> Forall2 same_place l1 l3.
Proof. intros H. revert l3. induction H; intros l3 H2; inversion H2; subst; constructor; [by eapply same_place_trans|auto]. Qed.

Lemma update_blobs_same l : Forall2 same_place l (update_blobs l).
Proof.
  unfold update_blobs. destruct (number_blobs 0 l) as [n r] eqn:E. pose proof (number_blobs_same l 0) as H. rewrite E in H. cbn in H.
  eapply Forall2_same_trans; [exact H|apply count_blobs_same].
Qed.

Lemma find_room_ok used bits : let i := find_room used bits in (i <= length used)%nat /\ ∀ u, used !! i = Some u -> u + bits <= 32.
Proof.
  induction used as [|u used IH]; cbn [find_room]; [done|]. unfold ROWITEM_BITS in *. destruct (Z.leb_spec (u + bits) 32); [split; [cbn; lia|]; by intros ? [= <-]|].
  destruct IH as [L H1]. split; [cbn; lia|]. exact H1.
Qed.

Lemma attr_bits_ok c : col_ok c -> 0 < attr_bits c <= 32 \/ attr_bits c = 64.
Proof. intros [_ H]. unfold attr_bits, ROWITEM_BITS. destruct (Z.ltb_spec 0 (m_iBitCount (m_tLocator c))), (sphIsDataPtrAttr _); [lia| |lia|]; destruct (m_eAttrType c); lia. Qed.

(** New items for an attribute of whole items. *)
Lemma layout_items used ls l n : layout used ls -> m_iBitOffset l = Z.of_nat (length used) * 32 -> m_iBitCount l = 32 * Z.of_nat n -> (n = 1 \/ n = 2)%nat ->
  layout (used ++ replicate n 32) (l :: ls).
Proof.
  intros L Eo Ec Hn. eapply layout_add; [exact L| | | | | |].
  - apply Forall_app. split; [apply L|]. apply Forall_replicate. lia.
  - rewrite length_app. lia.
  - intros i u E. exists u. split; [by apply lookup_app_l_Some|lia].
  - split; [lia|rewrite length_app, length_replicate; lia|lia|]. rewrite Eo, Z.mod_mul by lia. lia.
  - intros i Hi. exists 32. assert (Z.of_nat (length used) <= i / 32 < Z.of_nat (length used) + Z.of_nat n) by (split; [apply Z.div_le_lower_bound; lia|apply Z.div_lt_upper_bound; lia]).
    rewrite lookup_app_r by lia. rewrite lookup_replicate_2 by lia. split; [done|]. apply Z.mod_pos_bound. lia.
  - intros i u Hi E. apply lookup_lt_Some in E. assert (Z.of_nat (length used) <= i / 32) by (apply Z.div_le_lower_bound; lia). lia.
Qed.

(** A bit field in an item that has room. *)
Lemma layout_bits used ls l i u : layout used ls -> used !! i = Some u -> u + m_iBitCount l <= 32 -> 0 < m_iBitCount l -> m_iBitOffset l = Z.of_nat i * 32 + u ->
  layout (<[i := u + m_iBitCount l]> used) (l :: ls).
Proof.
  intros L E Hu Hc Eo. pose proof (lay_used _ _ L) as F. rewrite Forall_forall in F. pose proof (F u ltac:(by apply list_elem_of_lookup_2 in E)) as Ru. pose proof (lookup_lt_Some _ _ _ E) as Li.
  assert (∀ j, m_iBitOffset l <= j < m_iBitOffset l + m_iBitCount l -> j / 32 = Z.of_nat i /\ u <= j mod 32 < u + m_iBitCount l) as J.
  { intros j Hj. pose proof (Z.div_mod j 32 ltac:(lia)). pose proof (Z.mod_pos_bound j 32 ltac:(lia)). lia. }
  eapply layout_add; [exact L| | | | | |].
  - apply Forall_insert; [apply L|lia].
  - by rewrite length_insert.
  - intros k v Ek. destruct (decide (k = i)) as [->|N]; [|exists v; rewrite list_lookup_insert_ne by done; split; [done|lia]].
    exists (u + m_iBitCount l). rewrite list_lookup_insert_eq by done. split; [done|]. rewrite E in Ek. injection Ek as <-. lia.
  - split; [lia|rewrite length_insert; lia|lia|]. left. rewrite Eo, (Z.add_comm (Z.of_nat i * 32)), Z.mod_add, Z.mod_small by lia. lia.
  - intros j Hj. destruct (J j Hj) as [-> ?]. rewrite Nat2Z.id. exists (u + m_iBitCount l). rewrite list_lookup_insert_eq by done. split; [done|lia].
  - intros j v Hj Ev. destruct (J j Hj) as [Ej ?]. rewrite Ej, Nat2Z.id, E in Ev. injection Ev as <-. lia.
Qed.

Lemma layout_zero used ls : layout used ls -> layout (used ++ [0]) ls.
Proof.
  intros [H1 H2 H3]. split; [apply Forall_app; split; [done|constructor; [lia|constructor]]| |done]. eapply Forall_impl; [exact H2|].
  intros x [[L1 L2 L3 L4] B]. split; [split; rewrite ?length_app; cbn; lia|]. intros i Hi. destruct (B i Hi) as (u & E & Hu). exists u. split; [by apply lookup_app_l_Some|done].
Qed.

(** The schema keeps both parts of the row in order. *)
Record schema_ok (s : CSphSchema) : Prop := {
  sch_static : layout (m_dStaticUsed s) (part false (m_dAttrs s));
  sch_dynamic : layout (m_dDynamicUsed s) (part true (m_dAttrs s));
  sch_cols : Forall col_ok (m_dAttrs s)
}.

Lemma part_skip dyn p c l : stored c = false -> part dyn (insert_at p c l) ≡ₚ part dyn l.
Proof. intros E. rewrite part_insert, decide_False; [done|]. rewrite E. by intros [? _]. Qed.

Lemma helper_insert_ok dAttrs used ptrs p c dyn : Forall col_ok dAttrs -> col_ok c -> layout used (part dyn dAttrs) ->
  let '(dAttrs', used', _) := helper_InsertAttr dAttrs used ptrs p c dyn in
  layout used' (part dyn dAttrs') /\ part (negb dyn) dAttrs' ≡ₚ part (negb dyn) dAttrs /\ Forall col_ok dAttrs'.
Proof.
  intros Hd Hc L. unfold helper_InsertAttr. rewrite decide_False by apply Hc. pose proof (attr_bits_ok c Hc) as Hb.
  assert (∀ off cnt, (cnt <= 32 \/ cnt = 64) -> Forall col_ok (insert_at p (placed c dyn off cnt) dAttrs)) as Hcols.
  { intros off cnt Hcnt. rewrite insert_at_perm. constructor; [split; [apply Hc|exact Hcnt]|done]. }
  assert (∀ off cnt, stored (placed c dyn off cnt) = stored c) as Hst by done.
  assert (∀ off cnt, stored c = true -> part dyn (insert_at p (placed c dyn off cnt) dAttrs) ≡ₚ m_tLocator (placed c dyn off cnt) :: part dyn dAttrs /\
    part (negb dyn) (insert_at p (placed c dyn off cnt) dAttrs) ≡ₚ part (negb dyn) dAttrs) as Hpart.
  { intros off cnt E. rewrite !part_insert. rewrite decide_True by done. rewrite decide_False; [done|]. intros [_ D]. by destruct dyn. }
  destruct (m_bColumnar c) eqn:Ec; [|destruct (sphIsBlobAttr c) eqn:Eb].
  - assert (stored c = false) as E by (unfold stored; by rewrite Ec). rewrite !part_skip by done. split; [done|]. split; [done|]. apply Hcols. lia.
  - pose proof (update_blobs_same (insert_at p (placed c dyn 0 0) dAttrs)) as S. apply blob_not_stored in Eb. rewrite !(same_place_part _ _ _ S), !part_skip by done. split; [done|]. split; [done|]. eapply same_place_ok; [exact S|]. apply Hcols. lia.
  - assert (stored c = true) as Es by (unfold stored, sphIsBlobAttr in *; rewrite Ec in *; cbn in *; by rewrite Eb). unfold ROWITEM_BITS. destruct (Z.leb_spec 32 (attr_bits c)) as [H32|H32].
    + destruct (Hpart (Z.of_nat (length used) * 32) (attr_bits c) Es) as [P1 P2]. split; [|split; [done|apply Hcols; lia]]. rewrite P1.
      assert (attr_bits c = 32 \/ attr_bits c = 64) as [E|E] by lia; rewrite E; [apply (layout_items used _ _ 1)|apply (layout_items used _ _ 2)]; auto.
    + destruct (find_room_ok used (attr_bits c)) as [Hi Hr]. set (i := find_room used (attr_bits c)) in *. set (used0 := if (i =? length used)%nat then _ else _).
      assert (layout used0 (part dyn dAttrs)) as L0 by (unfold used0; destruct (i =? length used)%nat; [by apply layout_zero|done]).
      assert (∃ u, used0 !! i = Some u /\ u + attr_bits c <= 32) as (u & Eu & Hu).
      { unfold used0. destruct (Nat.eqb_spec i (length used)) as [E|N]; [exists 0; rewrite E, lookup_app_r, Nat.sub_diag by lia; split; [done|lia]|].
        destruct (lookup_lt_is_Some_2 used i) as [u Eu]; [lia|]. exists u. split; [done|]. by apply Hr. }
      rewrite (nth_lookup_Some _ _ _ _ Eu). destruct (Hpart (Z.of_nat i * 32 + u) (attr_bits c) Es) as [P1 P2]. split; [|split; [done|apply Hcols; lia]].
      rewrite P1. apply (layout_bits used0 _ (m_tLocator (placed c dyn (Z.of_nat i * 32 + u) (attr_bits c))) i u); try done. cbn. lia.
Qed.

Section Ops.
Variable crc : string -> Z.

Lemma rebuild_same l : ∀ i b, Forall2 same_place l (rebuild_loop crc i l b).1.
Proof.
  induction l as [|c l IH]; intros i b; cbn [rebuild_loop]; [constructor|]. specialize (IH (i + 1) (<[bucket_of crc (m_sName c) := cast WORD i]> b)).
  destruct (rebuild_loop _ _ _ _) as [r b']. constructor; [apply same_next|done].
Qed.

Lemma Forall2_refl_same l : Forall2 same_place l l.
Proof. induction l; constructor; [apply same_place_refl|done]. Qed.

Lemma RebuildHash_same l b : Forall2 same_place l (RebuildHash crc l b).1.
Proof. unfold RebuildHash. destruct (_ <? _)%nat; [apply Forall2_refl_same|apply rebuild_same]. Qed.

Lemma UpdateHash_same p k l b : Forall2 same_place l (UpdateHash p k l b).1.
Proof. unfold UpdateHash. destruct (_ <? _)%nat; [apply Forall2_refl_same|]. cbn [fst]. induction l; constructor; [apply same_next|done]. Qed.

Lemma insert_same l i c c' : l !! i = Some c -> same_place c c' -> Forall2 same_place l (<[i := c']> l).
Proof. intros E S. revert i E. induction l as [|x l IH]; intros [|i] E; try done; cbn; constructor; [by injection E as ->|apply Forall2_refl_same|apply same_place_refl|by apply IH]. Qed.

Lemma InsertAttr_ok p c dyn s : schema_ok s -> col_ok c -> schema_ok (InsertAttr crc p c dyn s).
Proof.
  intros [H1 H2 H3] Hc. unfold InsertAttr. set (start := if (p =? _)%nat then _ else _).
  assert (Forall2 same_place (m_dAttrs s) start.1) as S0 by (unfold start; destruct (_ =? _)%nat; [apply Forall2_refl_same|apply UpdateHash_same]).
  destruct start as [attrs0 b0]. cbn [fst] in S0. pose proof (helper_insert_ok attrs0 (if dyn then m_dDynamicUsed s else m_dStaticUsed s) (m_dDataPtrAttrs s) p c dyn) as HI.
  destruct (helper_InsertAttr _ _ _ _ _ _) as [[attrs1 used1] ptrs1]. destruct HI as (L1 & P1 & C1).
  { by eapply same_place_ok. } { done. } { rewrite (same_place_part _ _ _ S0). by destruct dyn. }
  destruct (match m_eAttrType c with SPH_ATTR_TOKENCOUNT => _ | _ => _ end) as [first last]. set (fin := if (length attrs1 =? HASH_THRESH)%nat then _ else _).
  assert (Forall2 same_place attrs1 fin.1) as S1.
  { unfold fin. destruct (_ =? _)%nat; [apply RebuildHash_same|]. destruct (_ <? _)%nat; [|apply Forall2_refl_same]. destruct (attrs1 !! p) as [x|] eqn:Ex; [|apply Forall2_refl_same].
    cbn [fst]. eapply insert_same; [exact Ex|apply same_next]. }
  destruct fin as [attrs2 b2]. cbn [fst] in S1. assert (layout (if dyn then m_dStaticUsed s else m_dDynamicUsed s) (part (negb dyn) attrs1)) as L2.
  { rewrite P1, (same_place_part _ _ _ S0). by destruct dyn. }
  split; cbn [m_dStaticUsed m_dDynamicUsed m_dAttrs]; [..|by eapply same_place_ok]; rewrite (same_place_part _ _ _ S1); destruct dyn; done.
Qed.

Lemma fold_add_ok (f : CSphColumnInfo -> bool) l : ∀ s, schema_ok s -> Forall col_ok l -> schema_ok (fold_left (λ s c, AddAttr crc c (f c) s) l s).
Proof. induction l as [|c l IH]; intros s Hs Hl; [done|]. inversion Hl; subst. cbn [fold_left]. apply IH; [|done]. by apply InsertAttr_ok. Qed.

Lemma layout_nil used : Forall (λ u, 0 <= u <= 32) used -> layout used [].
Proof. intros H. split; [done|constructor|constructor]. Qed.

Lemma new_schema_ok : schema_ok new_schema.
Proof. split; cbn; [apply layout_nil; constructor..|constructor]. Qed.

Lemma RemoveAttr_ok n dyn s s' : schema_ok s -> RemoveAttr crc n dyn s = Some s' -> schema_ok s'.
Proof.
  intros [H1 H2 H3]. unfold RemoveAttr. destruct (GetAttrIndex crc n s) as [i|]; [|done]. cbn [mbind option_bind]. destruct (i <? 0); intros [= <-]; [done|].
  apply fold_add_ok; [split; cbn; [destruct dyn; apply layout_nil; [apply H1|constructor]|apply layout_nil; constructor|constructor]|].
  apply Forall_app. split; [by apply Forall_take|by apply Forall_drop].
Qed.

Lemma RebuildLocators_ok s : schema_ok s -> schema_ok (RebuildLocators crc s).
Proof. intros [H1 H2 H3]. apply (fold_add_ok (λ c, m_bDynamic (m_tLocator c))); [split; cbn; [apply layout_nil; constructor..|constructor]|done]. Qed.

(** What the operations of a schema lead to. *)
Inductive reachable : CSphSchema -> Prop :=
  | reach_new : reachable new_schema
  | reach_insert p c dyn s : reachable s -> col_ok c -> (p <= length (m_dAttrs s))%nat -> reachable (InsertAttr crc p c dyn s)
  | reach_remove n dyn s s' : reachable s -> RemoveAttr crc n dyn s = Some s' -> reachable s'
  | reach_rebuild s : reachable s -> reachable (RebuildLocators crc s).

Lemma reachable_ok s : reachable s -> schema_ok s.
Proof.
  induction 1 as [|p c dyn s _ IH Hc _|n dyn s s' _ IH E|s _ IH]; [apply new_schema_ok|by apply InsertAttr_ok|by eapply RemoveAttr_ok|by apply RebuildLocators_ok].
Qed.
End Ops.

Definition part_size (dyn : bool) (s : CSphSchema) : Z := if dyn then GetDynamicSize s else GetStaticSize s.

Lemma reach_layout crc s dyn : reachable crc s -> ∃ used, Z.of_nat (length used) = part_size dyn s /\ layout used (part dyn (m_dAttrs s)).
Proof. intros [H1 H2 _]%reachable_ok. destruct dyn; eauto. Qed.

Lemma FOP_lookup l i j a b : ForallOrdPairs disjoint l -> l !! i = Some a -> l !! j = Some b -> i <> j -> disjoint a b.
Proof.
  intros H. revert i j. induction H as [|x l Hx _ IH]; intros i j Ei Ej N; [done|]. rewrite Forall_forall in Hx. destruct i as [|i], j as [|j]; cbn in Ei, Ej; [done| | |].
  - injection Ei as ->. apply Hx. by apply list_elem_of_lookup_2 in Ej.
  - injection Ej as ->. apply disjoint_sym, Hx. by apply list_elem_of_lookup_2 in Ei.
  - apply (IH i j); [done|done|lia].
Qed.

(** Two columns of the same part, and their places in the list of the part. *)
Lemma part_pair dyn l i j ci cj : l !! i = Some ci -> l !! j = Some cj -> i <> j -> in_part dyn ci -> in_part dyn cj ->
  ForallOrdPairs disjoint (part dyn l) -> disjoint (m_tLocator ci) (m_tLocator cj).
Proof.
  revert i j. induction l as [|c l IH]; intros i j Ei Ej N Pi Pj H; [done|]. rewrite part_cons in H.
  assert (∀ k x, l !! k = Some x -> in_part dyn x -> m_tLocator x ∈ part dyn l) as In.
  { intros k x E P. unfold part. apply list_elem_of_fmap. exists x. split; [done|]. apply list_elem_of_filter. split; [done|]. by apply list_elem_of_lookup_2 in E. }
  destruct i as [|i], j as [|j]; cbn in Ei, Ej; [done| | |].
  - injection Ei as ->. rewrite decide_True in H by done. inversion H as [|? ? H1 _]; subst. rewrite Forall_forall in H1. apply H1. by eapply In.
  - injection Ej as ->. rewrite decide_True in H by done. inversion H as [|? ? H1 _]; subst. rewrite Forall_forall in H1. apply disjoint_sym, H1. by eapply In.
  - apply (IH i j); try done; [lia|]. case_decide; [|done]. by inversion H.
Qed.

(** [C24] Attributes of a schema are independent: however the schema came about by
    inserting and removing attributes, a stored attribute lies inside its part
    of the row; writing it never leaves the row, reading it gives the written
    value cut to its width, and every other attribute of that part keeps its
    value. *)
Theorem schema_attrs_independent crc s dyn row i ci v : reachable crc s -> row_ok (part_size dyn s) row ->
  m_dAttrs s !! i = Some ci -> in_part dyn ci ->
  ∃ row', sphSetRowAttr row (m_tLocator ci) v = Some row' /\ row_ok (part_size dyn s) row' /\
    sphGetRowAttr row' (m_tLocator ci) = Some (trim (m_tLocator ci) v) /\
    ∀ j cj, j <> i -> m_dAttrs s !! j = Some cj -> in_part dyn cj -> ∃ x, sphGetRowAttr row (m_tLocator cj) = Some x /\ sphGetRowAttr row' (m_tLocator cj) = Some x.
Proof.
  intros Hs Hr Ei Pi. destruct (reach_layout crc s dyn Hs) as (used & Eu & [_ F D]). rewrite <- Eu in Hr |- *. rewrite Forall_forall in F.
  assert (∀ j cj, m_dAttrs s !! j = Some cj -> in_part dyn cj -> loc_ok (Z.of_nat (length used)) (m_tLocator cj)) as Loc.
  { intros j cj Ej Pj. apply F. unfold part. apply list_elem_of_fmap. exists cj. split; [done|]. apply list_elem_of_filter. split; [done|]. by apply list_elem_of_lookup_2 in Ej. }
  destruct (set_get _ row (m_tLocator ci) v Hr (Loc i ci Ei Pi)) as (row' & E & Hr' & G & O). exists row'. split; [done|]. split; [done|]. split; [done|].
  intros j cj N Ej Pj. destruct (get_total _ row (m_tLocator cj) Hr (Loc j cj Ej Pj)) as (x & Ex & _). exists x. split; [done|]. rewrite O; [done|by eapply Loc|].
  apply (part_pair dyn (m_dAttrs s) i j); [done|done|congruence|done|done|done].
Qed.

(** An id, a flag, a 12-bit field, a string and a number, put in several orders. *)
Definition demo_col (n : string) (t : ESphAttr) (bits : Z) : CSphColumnInfo := ColumnInfo n t false (AttrLocator (-1) bits (-1) 1 0 true) 0.
Definition demo_schema : CSphSchema :=
  let crc n := Z.of_nat (String.length n) in
  fold_left (λ s '(p, c), InsertAttr crc p c false s)
    [(0%nat, demo_col "flag" SPH_ATTR_BOOL (-1)); (1%nat, demo_col "small" SPH_ATTR_INTEGER 12); (0%nat, demo_col "id" SPH_ATTR_BIGINT (-1));
     (2%nat, demo_col "title" SPH_ATTR_STRING (-1)); (4%nat, demo_col "price" SPH_ATTR_FLOAT (-1))] new_schema.

Example demo_places : map (λ c, (m_iBitOffset (m_tLocator c), m_iBitCount (m_tLocator c))) (m_dAttrs demo_schema) = [(32, 64); (0, 1); (0, 0); (1, 12); (96, 32)].
Proof. vm_compute. reflexivity. Qed.

Lemma demo_reachable : reachable (λ n, Z.of_nat (String.length n)) demo_schema.
Proof.
  unfold demo_schema. cbn [fold_left].
  repeat (apply reach_insert; [|split; [done|cbn; lia]|apply Nat.leb_le; vm_compute; reflexivity]). apply reach_new.
Qed.

Lemma schema_attrs_witness : ∃ ci, m_dAttrs demo_schema !! 3%nat = Some ci /\ ∃ row', sphSetRowAttr [1; 2; 3; 4] (m_tLocator ci) 5000 = Some row' /\ sphGetRowAttr row' (m_tLocator ci) = Some 904.
Proof.
  destruct (schema_attrs_independent _ demo_schema false [1; 2; 3; 4] 3 (nth 3 (m_dAttrs demo_schema) (demo_col "x" SPH_ATTR_NONE 0)) 5000 demo_reachable) as (row' & E & _ & G & _).
  - split; [reflexivity|apply (bool_decide_unpack _); vm_compute; exact I].
  - reflexivity.
  - by split.
  - eexists. split; [reflexivity|]. exists row'. split; [exact E|]. exact G.
Defined.
End SchemaOk.
