(* ===== verification/MinMax.v ===== *)
(** * Ranges of attribute values (src/src/attrindex_builder.cpp, src/src/sphinx.cpp)

    For every block of 128 rows, and for the whole index, the smallest and the
    largest value of every number attribute are kept in two rows.
    [AttrIndexBuilder_c] collects them when an index is built, [Update_MinMax]
    widens them when attributes are updated. *)

From S2P Require Import Prelude RowAttr Schema.
Import RowAttr Schema.

Module MinMax.

Definition DOCINFO_INDEX_FREQ : Z := 128.

(** ** Floats

    A [float] is its pattern of 32 bits, so that [sphDW2F] and [sphF2DW] change
    nothing; numbers are ordered as sign and magnitude, and nothing compares
    with a NaN. *)

Definition FLT_MAX : Z := 0x7F7FFFFF.
Definition FLT_MIN : Z := 0x00800000.

Definition is_nan (f : Z) : bool := 0x7F800000 <? f mod 2 ^ 31.
Definition flt_key (f : Z) : Z := if f <? 2 ^ 31 then f else 2 ^ 31 - f.
Definition flt_lt (a b : Z) : bool := negb (is_nan a) && negb (is_nan b) && (flt_key a <? flt_key b).
Definition flt_le (a b : Z) : bool := negb (is_nan a) && negb (is_nan b) && (flt_key a <=? flt_key b).

Definition LLONG_MAX : Z := 2 ^ 63 - 1.
Definition LLONG_MIN : Z := - 2 ^ 63.

(** [Min] and [Max] of std/generics.h, over the [<] of the type. *)
Definition Min (lt : Z -> Z -> bool) (a b : Z) : Z := if lt a b then a else b.
Definition Max (lt : Z -> Z -> bool) (a b : Z) : Z := if lt a b then b else a.

(** ** [AttrIndexBuilder_c]

    The vectors of the builder have an entry for each attribute; the entries of
    an attribute are kept together here: the local range and that of the index. *)
Record acc := Acc { a_loc : CSphAttrLocator; a_min : Z; a_max : Z; a_imin : Z; a_imax : Z }.

(** [m_dMinMaxRows] is cut into its rows of [m_uStride] items. *)
Record AttrIndexBuilder_c := Builder {
  m_dInt : list acc;
  m_dFloat : list acc;
  m_uStride : Z;
  m_nLocalCollected : Z;
  m_dMinMaxRows : list (list Z)
}.

Inductive kind := KInt | KFloat.

Definition lt_of (k : kind) : Z -> Z -> bool := match k with KInt => Z.ltb | KFloat => flt_lt end.

(** The values [ResetLocal] fills the ranges with. *)
Definition top_of (k : kind) : Z := match k with KInt => LLONG_MAX | KFloat => FLT_MAX end.
Definition bot_of (k : kind) : Z := match k with KInt => LLONG_MIN | KFloat => FLT_MIN end.

Definition reset_acc (k : kind) (a : acc) : acc := Acc (a_loc a) (top_of k) (bot_of k) (a_imin a) (a_imax a).

Definition ResetLocal (t : AttrIndexBuilder_c) : AttrIndexBuilder_c :=
  Builder (map (reset_acc KInt) (m_dInt t)) (map (reset_acc KFloat) (m_dFloat t)) (m_uStride t) 0 (m_dMinMaxRows t).

Definition kind_of (e : ESphAttr) : option kind :=
  match e with
  | SPH_ATTR_INTEGER | SPH_ATTR_TIMESTAMP | SPH_ATTR_BOOL | SPH_ATTR_BIGINT | SPH_ATTR_TOKENCOUNT => Some KInt
  | SPH_ATTR_FLOAT => Some KFloat
  | _ => None
  end.

Definition has_kind (k : kind) (c : CSphColumnInfo) : bool :=
  negb (m_bColumnar c) && match kind_of (m_eAttrType c), k with Some KInt, KInt | Some KFloat, KFloat => true | _, _ => false end.

Definition init_accs (k : kind) (dAttrs : list CSphColumnInfo) : list acc :=
  map (λ c, Acc (m_tLocator c) (top_of k) (bot_of k) (top_of k) (bot_of k)) (List.filter (has_kind k) dAttrs).

Definition Init (tSchema : CSphSchema) : AttrIndexBuilder_c :=
  Builder (init_accs KInt (m_dAttrs tSchema)) (init_accs KFloat (m_dAttrs tSchema)) (GetRowSize tSchema) 0 [].

(** The value of an attribute, for a float its bits. *)
Definition attr_value (k : kind) (pRow : list Z) (l : CSphAttrLocator) : option Z :=
  v ← sphGetRowAttr pRow l; Some (match k with KInt => v | KFloat => cast DWORD v end).

Definition set_attrs (pRow : list Z) (d : list (CSphAttrLocator * Z)) : option (list Z) :=
  fold_left (λ r '(l, v), r ← r; sphSetRowAttr r l v) d (Some pRow).

Definition zero_row (n : Z) : list Z := replicate (Z.to_nat n) 0.

(** The two rows that [FlushComputed] and [FinishCollect] add. *)
Definition add_ranges (lo hi : acc -> Z) (t : AttrIndexBuilder_c) : option (list (list Z)) :=
  let d := m_dInt t ++ m_dFloat t in
  pMin ← set_attrs (zero_row (m_uStride t)) (map (λ a, (a_loc a, lo a)) d);
  pMax ← set_attrs (zero_row (m_uStride t)) (map (λ a, (a_loc a, hi a)) d);
  Some (m_dMinMaxRows t ++ [pMin; pMax]).

Definition widen_index (k : kind) (a : acc) : acc :=
  Acc (a_loc a) (a_min a) (a_max a) (Min (lt_of k) (a_imin a) (a_min a)) (Max (lt_of k) (a_imax a) (a_max a)).

Definition FlushComputed (t : AttrIndexBuilder_c) : option AttrIndexBuilder_c :=
  rows ← add_ranges a_min a_max t;
  Some (ResetLocal (Builder (map (widen_index KInt) (m_dInt t)) (map (widen_index KFloat) (m_dFloat t)) (m_uStride t) (m_nLocalCollected t) rows)).

Definition collect_acc (k : kind) (pRow : list Z) (a : acc) : option acc :=
  v ← attr_value k pRow (a_loc a);
  Some (Acc (a_loc a) (Min (lt_of k) (a_min a) v) (Max (lt_of k) (a_max a) v) (a_imin a) (a_imax a)).

Definition Collect (t : AttrIndexBuilder_c) (pRow : list Z) : option AttrIndexBuilder_c :=
  t ← (if DOCINFO_INDEX_FREQ <=? m_nLocalCollected t then FlushComputed t else Some t);
  dInt ← mapM (collect_acc KInt pRow) (m_dInt t);
  dFloat ← mapM (collect_acc KFloat pRow) (m_dFloat t);
  Some (Builder dInt dFloat (m_uStride t) (m_nLocalCollected t + 1) (m_dMinMaxRows t)).

Definition FinishCollect (t : AttrIndexBuilder_c) : option AttrIndexBuilder_c :=
  t ← (if m_nLocalCollected t =? 0 then Some t else FlushComputed t);
  rows ← add_ranges a_imin a_imax t;
  Some (Builder (m_dInt t) (m_dFloat t) (m_uStride t) (m_nLocalCollected t) rows).

Definition GetCollected (t : AttrIndexBuilder_c) : list (list Z) := m_dMinMaxRows t.

(** The ranges of an index: every row is collected. *)
Definition build (tSchema : CSphSchema) (dRows : list (list Z)) : option (list (list Z)) :=
  t ← fold_left (λ t r, t ← t; Collect t r) dRows (Some (Init tSchema));
  t ← FinishCollect t;
  Some (GetCollected t).
End MinMax.
