(* ===== verification/MinMaxOk.v ===== *)
(** * The ranges hold the values

    The ranges that are built hold the values of all rows of their block, and an
    update keeps it so. *)

From S2P Require Import Prelude RowAttr Schema SchemaOk MinMax.
Import RowAttr Schema SchemaOk MinMax.

Module MinMaxOk.

(** ** Order *)

Definition key (k : kind) (v : Z) : Z := match k with KInt => v | KFloat => flt_key v end.
Definition num (k : kind) (v : Z) : Prop := match k with KInt => in_type int64_t v | KFloat => in_type DWORD v /\ is_nan v = false end.

(** [lo <= v] and [v <= hi], as the type compares. *)
Definition within (k : kind) (lo v hi : Z) : Prop :=
  match k with KInt => lo <= v <= hi | KFloat => flt_le lo v = true /\ flt_le v hi = true end.

Lemma lt_key k a b : num k a -> num k b -> lt_of k a b = (key k a <? key k b).
Proof. destruct k; [done|]. cbn. intros [_ Ha] [_ Hb]. unfold flt_lt. by rewrite Ha, Hb. Qed.

Lemma within_key k lo v hi : num k lo -> num k v -> num k hi -> within k lo v hi <-> key k lo <= key k v <= key k hi.
Proof.
  destruct k; [done|]. cbn. intros [_ Ha] [_ Hb] [_ Hc]. unfold flt_le. rewrite Ha, Hb, Hc. cbn [negb andb]. lia.
Qed.

Lemma key_min k a b : num k a -> num k b -> key k (Min (lt_of k) a b) = Z.min (key k a) (key k b).
Proof. intros Ha Hb. unfold Min. rewrite lt_key by done. destruct (Z.ltb_spec (key k a) (key k b)); lia. Qed.
Lemma key_max k a b : num k a -> num k b -> key k (Max (lt_of k) a b) = Z.max (key k a) (key k b).
Proof. intros Ha Hb. unfold Max. rewrite lt_key by done. destruct (Z.ltb_spec (key k a) (key k b)); lia. Qed.

Lemma min_case k a b (P : Z -> Prop) : P a -> P b -> P (Min (lt_of k) a b).
Proof. unfold Min. by destruct (lt_of k a b). Qed.
Lemma max_case k a b (P : Z -> Prop) : P a -> P b -> P (Max (lt_of k) a b).
Proof. unfold Max. by destruct (lt_of k a b). Qed.

Lemma top_num k : num k (top_of k).
Proof. destruct k; cbn; [|split; [|done]]; unfold LLONG_MAX, FLT_MAX; in_range. Qed.
Lemma bot_num k : num k (bot_of k).
Proof. destruct k; cbn; [|split; [|done]]; unfold LLONG_MIN, FLT_MIN; in_range. Qed.

(** ** Ranges of one attribute *)

(** Attributes of floats are 32 bits wide. *)
Definition fits (k : kind) (l : CSphAttrLocator) : Prop := 0 < m_iBitCount l /\ match k with KInt => m_iBitCount l <= 32 \/ m_iBitCount l = 64 | KFloat => m_iBitCount l = 32 end.

Record range_inv (k : kind) (l : CSphAttrLocator) (vs : list Z) (lo hi : Z) : Prop := {
  ri_num : num k lo /\ num k hi;
  ri_all : Forall (λ v, key k lo <= key k v <= key k hi) vs;
  ri_nil : vs = [] -> lo = top_of k /\ hi = bot_of k;
  ri_in : vs <> [] -> in_attr l lo /\ in_attr l hi
}.

Lemma range_start k l : range_inv k l [] (top_of k) (bot_of k).
Proof. split; [split; [apply top_num|apply bot_num]|constructor|done|done]. Qed.

(** The ends of a range that is joined with one that has values. *)
Lemma ends_in k l vs lo hi x y : fits k l -> range_inv k l vs lo hi -> num k x -> num k y -> in_attr l x -> in_attr l y ->
  in_attr l (Min (lt_of k) lo x) /\ in_attr l (Max (lt_of k) hi y).
Proof.
  intros [_ Hf] R Nx Ny Ix Iy. destruct (decide (vs = [])) as [E|E].
  - destruct (ri_nil _ _ _ _ _ R E) as [-> ->]. destruct k.
    + unfold Min, Max. cbn [lt_of top_of bot_of]. cbn in Nx, Ny. unfold LLONG_MAX, LLONG_MIN. unfold in_type in Nx, Ny. cbn in Nx, Ny.
      rewrite (proj2 (Z.ltb_ge (2 ^ 63 - 1) x)) by lia. split; [done|]. destruct (Z.ltb_spec (- 2 ^ 63) y); [done|]. by replace (- 2 ^ 63) with y by lia.
    + split; [apply min_case|apply max_case]; try done; unfold in_attr; rewrite Hf; cbn; unfold FLT_MAX, FLT_MIN; lia.
  - destruct (ri_in _ _ _ _ _ R E). split; [by apply min_case|by apply max_case].
Qed.

Lemma range_join k l vs ws lo hi lo' hi' : fits k l -> range_inv k l vs lo hi -> ws <> [] -> range_inv k l ws lo' hi' ->
  range_inv k l (vs ++ ws) (Min (lt_of k) lo lo') (Max (lt_of k) hi hi').
Proof.
  intros Hf R Hw R'. destruct (ri_num _ _ _ _ _ R) as [N1 N2], (ri_num _ _ _ _ _ R') as [N1' N2']. destruct (ri_in _ _ _ _ _ R' Hw) as [I1 I2]. split.
  - split; [by apply min_case|by apply max_case].
  - apply Forall_app. split; (eapply Forall_impl; [apply R || apply R'|]); cbn; intros v Hv; rewrite key_min, key_max by done; lia.
  - intros E. by apply app_eq_nil in E as [_ ?].
  - intros _. by eapply ends_in.
Qed.

Lemma range_one k l v : num k v -> in_attr l v -> range_inv k l [v] v v.
Proof. intros N I. split; [done|constructor; [lia|constructor]|done|done]. Qed.

Lemma range_add k l vs lo hi v : fits k l -> range_inv k l vs lo hi -> num k v -> in_attr l v -> range_inv k l (vs ++ [v]) (Min (lt_of k) lo v) (Max (lt_of k) hi v).
Proof. intros Hf R N I. apply range_join; [done|done|done|by apply range_one]. Qed.

(** ** The rows *)

(** The attributes of a schema that have ranges: their places are apart. *)
Record attrs_ok (stride : Z) (dAttrs : list CSphColumnInfo) : Prop := {
  at_loc : ∀ k c, c ∈ dAttrs -> has_kind k c = true -> loc_ok stride (m_tLocator c) /\ fits k (m_tLocator c);
  at_apart : ForallOrdPairs disjoint (map m_tLocator (List.filter (has_kind KInt) dAttrs ++ List.filter (has_kind KFloat) dAttrs))
}.

Definition row_fine (stride : Z) (dAttrs : list CSphColumnInfo) (r : list Z) : Prop :=
  row_ok stride r /\ ∀ c, c ∈ dAttrs -> has_kind KFloat c = true -> ∃ v, attr_value KFloat r (m_tLocator c) = Some v /\ is_nan v = false.

Lemma value_of stride dAttrs r k c : attrs_ok stride dAttrs -> row_fine stride dAttrs r -> c ∈ dAttrs -> has_kind k c = true ->
  ∃ v, attr_value k r (m_tLocator c) = Some v /\ num k v /\ in_attr (m_tLocator c) v.
Proof.
  intros Ha [Hr Hn] Hc Hk. destruct (at_loc _ _ Ha k c Hc Hk) as [Hl [Hp Hf]]. destruct (get_total stride r (m_tLocator c) Hr Hl) as (v & E & I). unfold attr_value. destruct k.
  - exists v. rewrite E. split; [done|]. split; [|done]. unfold in_attr in I. cbn. destruct (Z.eqb_spec (m_iBitCount (m_tLocator c)) 64); [done|].
    assert (2 ^ m_iBitCount (m_tLocator c) <= 2 ^ 32) by (apply Z.pow_le_mono_r; lia). unfold in_type. cbn [is_signed int64_t bits]. change (2 ^ (64 - 1)) with 9223372036854775808. change (2 ^ 32) with 4294967296 in *. lia.
  - destruct (Hn c Hc Hk) as (x & Ex & Nx). unfold attr_value in Ex. rewrite E in Ex |- *. cbn [mbind option_bind] in *. injection Ex as <-. eexists. split; [done|].
    assert (in_type DWORD v) as T by (unfold in_attr in I; rewrite Hf in I; exact I). assert (cast DWORD v = v) as Ec by (by apply cast_id).
    rewrite Ec in Nx |- *. by split.
Qed.

(** Setting attributes that are apart. *)
Lemma set_attrs_cons r l v d : set_attrs r ((l, v) :: d) = match sphSetRowAttr r l v with Some r' => set_attrs r' d | None => None end.
Proof.
  unfold set_attrs. cbn [fold_left mbind option_bind]. destruct (sphSetRowAttr r l v); [done|]. induction d as [|[l' v'] d IH]; [done|]. exact IH.
Qed.

Lemma set_attrs_ok stride d : ∀ r, row_ok stride r -> Forall (loc_ok stride) (map fst d) -> ForallOrdPairs disjoint (map fst d) ->
  ∃ r', set_attrs r d = Some r' /\ row_ok stride r' /\ (∀ l v, (l, v) ∈ d -> sphGetRowAttr r' l = Some (trim l v)) /\
    ∀ l, loc_ok stride l -> Forall (λ l', disjoint l' l) (map fst d) -> sphGetRowAttr r' l = sphGetRowAttr r l.
Proof.
  induction d as [|[l v] d IH]; intros r Hr Hl Hd; cbn [map fst] in *; [exists r; split; [done|]; split; [done|]; split; [intros ? ? H; by apply not_elem_of_nil in H|done]|].
  inversion Hl as [|? ? Hl1 Hl2]; subst. inversion Hd as [|? ? Hd1 Hd2]; subst. rewrite set_attrs_cons.
  destruct (set_get stride r l v Hr Hl1) as (r1 & -> & Hr1 & G & O). destruct (IH r1 Hr1 Hl2 Hd2) as (r' & -> & Hr' & A & B). exists r'. split; [done|]. split; [done|]. split.
  - intros l2 v2 [E|H]%elem_of_cons; [|by apply A]. injection E as -> ->. rewrite B; [done|done|]. eapply Forall_impl; [exact Hd1|]. intros x. apply disjoint_sym.
  - intros l2 Hl2' F. inversion F as [|? ? F1 F2]; subst. rewrite B by done. by apply O.
Qed.

Lemma zero_row_ok n : 0 <= n -> row_ok n (zero_row n).
Proof. intros Hn. unfold zero_row. split; [rewrite length_replicate; lia|]. apply Forall_replicate. in_range. Qed.

(** ** The builder *)

Definition ranges_ok (stride : Z) (dAttrs : list CSphColumnInfo) (pMin pMax : list Z) (rows : list (list Z)) : Prop :=
  row_ok stride pMin /\ row_ok stride pMax /\ ∀ k c r, c ∈ dAttrs -> has_kind k c = true -> r ∈ rows ->
    ∃ lo v hi, attr_value k pMin (m_tLocator c) = Some lo /\ attr_value k r (m_tLocator c) = Some v /\ attr_value k pMax (m_tLocator c) = Some hi /\ within k lo v hi.

Section Builder.
Context (stride : Z) (dAttrs : list CSphColumnInfo) (Hs : 0 <= stride) (Ha : attrs_ok stride dAttrs).

Abbreviation fine r := (row_fine stride dAttrs r).

Definition value (k : kind) (c : CSphColumnInfo) (r : list Z) : Z := default 0 (attr_value k r (m_tLocator c)).

(** The ranges [lo] and [hi] of the accumulators are those of [rows]. *)
Definition accs_ok (k : kind) (lo hi : acc -> Z) (rows : list (list Z)) (d : list acc) : Prop :=
  Forall2 (λ c a, a_loc a = m_tLocator c /\ range_inv k (m_tLocator c) (map (value k c) rows) (lo a) (hi a)) (List.filter (has_kind k) dAttrs) d.

Lemma in_kind k c : c ∈ List.filter (has_kind k) dAttrs -> c ∈ dAttrs /\ has_kind k c = true.
Proof. rewrite list_elem_of_In, List.filter_In, <- list_elem_of_In. tauto. Qed.

Lemma kinded_ok k c : c ∈ List.filter (has_kind k) dAttrs -> loc_ok stride (m_tLocator c) /\ fits k (m_tLocator c).
Proof. intros [H1 H2]%in_kind. by apply (at_loc _ _ Ha). Qed.

Lemma accs_locs k lo hi rows d : accs_ok k lo hi rows d -> map a_loc d = map m_tLocator (List.filter (has_kind k) dAttrs).
Proof. unfold accs_ok. induction 1 as [|c a l d [E _] _ IH]; [done|]. cbn. by rewrite E, IH. Qed.

Lemma all_locs lo hi rows di df : accs_ok KInt lo hi rows di -> accs_ok KFloat lo hi rows df -> ∀ f : acc -> Z,
  Forall (loc_ok stride) (map fst (map (λ a, (a_loc a, f a)) (di ++ df))) /\ ForallOrdPairs disjoint (map fst (map (λ a, (a_loc a, f a)) (di ++ df))).
Proof.
  intros Hi Hf f. rewrite map_map. cbn [fst]. change (map (λ x, a_loc x) (di ++ df)) with (map a_loc (di ++ df)). rewrite map_app, (accs_locs _ _ _ _ _ Hi), (accs_locs _ _ _ _ _ Hf), <- map_app.
  split; [|apply (at_apart _ _ Ha)]. apply Forall_forall. intros l (c & -> & Hc)%list_elem_of_fmap. apply elem_of_app in Hc as [Hc|Hc]; by destruct (kinded_ok _ _ Hc).
Qed.

Lemma get_value k l row x : fits k l -> num k x -> in_attr l x -> sphGetRowAttr row l = Some (trim l x) -> attr_value k row l = Some x.
Proof.
  intros [Hc _] Hn Hi E. unfold attr_value. rewrite E, trim_id by done. cbn [mbind option_bind]. destruct k; [done|]. destruct Hn as [T _]. by rewrite cast_id.
Qed.

Lemma accs_lookup k lo hi rows d c : accs_ok k lo hi rows d -> c ∈ dAttrs -> has_kind k c = true ->
  ∃ a, a ∈ d /\ a_loc a = m_tLocator c /\ range_inv k (m_tLocator c) (map (value k c) rows) (lo a) (hi a).
Proof.
  intros H Hc Hk. assert (c ∈ List.filter (has_kind k) dAttrs) as Hin by (rewrite list_elem_of_In, List.filter_In, <- list_elem_of_In; done).
  apply list_elem_of_lookup_1 in Hin as [i Ei]. destruct (Forall2_lookup_l _ _ _ _ _ H Ei) as (a & Ea & E & R). exists a. split; [by eapply list_elem_of_lookup_2|done].
Qed.

(** The two rows hold the ranges of [rows]. *)
Lemma add_ranges_ok lo hi rows t : accs_ok KInt lo hi rows (m_dInt t) -> accs_ok KFloat lo hi rows (m_dFloat t) -> m_uStride t = stride -> Forall (λ r, fine r) rows ->
  ∃ pMin pMax, add_ranges lo hi t = Some (m_dMinMaxRows t ++ [pMin; pMax]) /\ ranges_ok stride dAttrs pMin pMax rows.
Proof.
  intros Hi Hf Es Hr. unfold add_ranges. rewrite Es. destruct (all_locs _ _ _ _ _ Hi Hf lo) as [L1 D1]. destruct (all_locs _ _ _ _ _ Hi Hf hi) as [L2 D2].
  destruct (set_attrs_ok stride _ (zero_row stride) (zero_row_ok stride Hs) L1 D1) as (pMin & -> & R1 & G1 & _).
  destruct (set_attrs_ok stride _ (zero_row stride) (zero_row_ok stride Hs) L2 D2) as (pMax & -> & R2 & G2 & _). cbn [mbind option_bind]. exists pMin, pMax. split; [done|].
  split; [done|]. split; [done|]. intros k c r Hc Hk Hin. rewrite Forall_forall in Hr. specialize (Hr r Hin). destruct (value_of stride dAttrs r k c Ha Hr Hc Hk) as (v & Ev & Nv & _).
  destruct (at_loc _ _ Ha k c Hc Hk) as [_ Hfit].
  assert (∃ a, a ∈ m_dInt t ++ m_dFloat t /\ a_loc a = m_tLocator c /\ range_inv k (m_tLocator c) (map (value k c) rows) (lo a) (hi a)) as (a & Hina & El & R).
  { destruct k; [destruct (accs_lookup _ _ _ _ _ _ Hi Hc Hk) as (a & ? & ?)|destruct (accs_lookup _ _ _ _ _ _ Hf Hc Hk) as (a & ? & ?)]; exists a; (split; [apply elem_of_app; tauto|done]). }
  assert (map (value k c) rows <> []) as Hne by (destruct rows; [by apply not_elem_of_nil in Hin|done]). destruct (ri_in _ _ _ _ _ R Hne) as [I1 I2], (ri_num _ _ _ _ _ R) as [N1 N2].
  exists (lo a), v, (hi a). rewrite <- El in *. split; [eapply get_value; [done|done|done|]; apply G1, list_elem_of_fmap; by exists a|]. split; [done|].
  split; [eapply get_value; [done|done|done|]; apply G2, list_elem_of_fmap; by exists a|]. apply within_key; [done|done|done|].
  pose proof (ri_all _ _ _ _ _ R) as F. rewrite Forall_forall in F. apply F. apply list_elem_of_fmap. exists r. split; [|done]. unfold value. rewrite <- El. by rewrite Ev.
Qed.

(** *** The state after some rows

    [blocks] are the blocks that were flushed, [rows] those since then. *)
Definition blocks_ok (out : list (list Z)) (blocks : list (list (list Z))) : Prop :=
  length out = (2 * length blocks)%nat /\
  ∀ b blk, blocks !! b = Some blk -> ∃ pMin pMax, out !! (2 * b)%nat = Some pMin /\ out !! (2 * b + 1)%nat = Some pMax /\ ranges_ok stride dAttrs pMin pMax blk.

Record builder_ok (blocks : list (list (list Z))) (rows : list (list Z)) (t : AttrIndexBuilder_c) : Prop := {
  bo_stride : m_uStride t = stride;
  bo_count : m_nLocalCollected t = Z.of_nat (length rows);
  bo_room : (length rows <= 128)%nat;
  bo_full : Forall (λ b, length b = 128%nat) blocks;
  bo_fine : Forall (λ r, fine r) (concat blocks ++ rows);
  bo_blocks : blocks_ok (m_dMinMaxRows t) blocks;
  bo_local : accs_ok KInt a_min a_max rows (m_dInt t) /\ accs_ok KFloat a_min a_max rows (m_dFloat t);
  bo_index : accs_ok KInt a_imin a_imax (concat blocks) (m_dInt t) /\ accs_ok KFloat a_imin a_imax (concat blocks) (m_dFloat t)
}.

Lemma blocks_snoc out blocks pMin pMax blk : blocks_ok out blocks -> ranges_ok stride dAttrs pMin pMax blk -> blocks_ok (out ++ [pMin; pMax]) (blocks ++ [blk]).
Proof.
  intros [L H] R. split; [rewrite !length_app; cbn; lia|]. intros b x E. destruct (decide (b < length blocks)%nat) as [Lt|Ge].
  - rewrite lookup_app_l in E by done. destruct (H b x E) as (p1 & p2 & E1 & E2 & R'). exists p1, p2. by rewrite !lookup_app_l by lia.
  - pose proof (lookup_lt_Some _ _ _ E) as Lb. rewrite length_app in Lb. cbn in Lb. replace b with (length blocks) in * by lia. rewrite lookup_app_r, Nat.sub_diag in E by lia. injection E as <-.
    exists pMin, pMax. rewrite !lookup_app_r by lia. rewrite L. by replace (2 * length blocks - 2 * length blocks)%nat with 0%nat by lia; replace (2 * length blocks + 1 - 2 * length blocks)%nat with 1%nat by lia.
Qed.

(** Flushing makes the current rows a block. *)
Lemma accs_flush k blocks rows d : rows <> [] -> accs_ok k a_min a_max rows d -> accs_ok k a_imin a_imax (concat blocks) d ->
  accs_ok k a_min a_max [] (map (reset_acc k) (map (widen_index k) d)) /\ accs_ok k a_imin a_imax (concat (blocks ++ [rows])) (map (reset_acc k) (map (widen_index k) d)).
Proof.
  intros Hr H1 H2. rewrite concat_app. cbn [concat]. rewrite app_nil_r. unfold accs_ok in *. assert (∀ c, c ∈ List.filter (has_kind k) dAttrs -> fits k (m_tLocator c)) as Hfit by (intros c Hc; by destruct (kinded_ok _ _ Hc)).
  revert d H1 H2 Hfit. induction (List.filter (has_kind k) dAttrs) as [|c l IH]; intros d H1 H2 Hfit; inversion H1 as [|? a ? d' [E R] H1']; subst; [split; constructor|]. inversion H2 as [|? ? ? ? [_ R2] H2']; subst.
  destruct (IH d' H1' H2') as [A B]; [intros x Hx; apply Hfit; by right|]. cbn [map reset_acc widen_index a_loc a_imin a_imax a_min a_max]. split; constructor; try done.
  - split; [done|]. apply range_start.
  - split; [done|]. rewrite map_app. apply range_join; [apply Hfit; by left|done|by destruct rows|done].
Qed.

Lemma flush_ok blocks rows t : builder_ok blocks rows t -> rows <> [] -> (length rows = 128)%nat ->
  ∃ t', FlushComputed t = Some t' /\ builder_ok (blocks ++ [rows]) [] t'.
Proof.
  intros [B1 B2 B3 B4 B5 B6 [L1 L2] [I1 I2]] Hr Hn. unfold FlushComputed.
  destruct (add_ranges_ok a_min a_max rows t L1 L2 B1) as (pMin & pMax & -> & R); [by apply Forall_app in B5 as [_ ?]|]. cbn [mbind option_bind]. eexists. split; [done|].
  destruct (accs_flush KInt blocks rows _ Hr L1 I1), (accs_flush KFloat blocks rows _ Hr L2 I2).
  split; cbn [m_uStride m_nLocalCollected m_dMinMaxRows m_dInt m_dFloat ResetLocal]; try done; [cbn; lia|apply Forall_app; split; [done|by constructor]| |by apply blocks_snoc].
  rewrite concat_app, app_nil_r. cbn [concat]. by rewrite app_nil_r.
Qed.

Lemma collect_accs k row rows d : fine row -> accs_ok k a_min a_max rows d ->
  ∃ d', Forall2 (λ a a', collect_acc k row a = Some a') d d' /\ accs_ok k a_min a_max (rows ++ [row]) d' /\ (∀ all, accs_ok k a_imin a_imax all d -> accs_ok k a_imin a_imax all d').
Proof.
  intros Hf. unfold accs_ok. assert (∀ c, c ∈ List.filter (has_kind k) dAttrs -> c ∈ dAttrs /\ has_kind k c = true) as Hin by (intros c; apply in_kind). revert Hin.
  induction (List.filter (has_kind k) dAttrs) as [|c l IH] in d |- *; intros Hin H; inversion H as [|? a ? d' [E R] H']; subst; [exists []; split; [constructor|]; split; [constructor|done]|].
  destruct (IH d') as (d1 & E1 & A & B); [intros x Hx; apply Hin; by right|done|]. destruct (Hin c) as [Hc Hk]; [by left|].
  destruct (value_of stride dAttrs row k c Ha Hf Hc Hk) as (v & Ev & Nv & Iv). 
  eexists (_ :: d1). split; [constructor; [unfold collect_acc; rewrite E, Ev; reflexivity|exact E1]|]. split.
  - constructor; [|done]. cbn [a_loc a_min a_max]. split; [done|]. rewrite map_app. cbn [map]. assert (value k c row = v) as -> by (unfold value; by rewrite Ev). apply range_add; try done. by apply (at_loc _ _ Ha).
  - intros all HA. inversion HA as [|? ? ? ? [_ R2] HA']; subst. constructor; [by split|by apply B].
Qed.

Lemma collect_row_ok blocks rows t row : builder_ok blocks rows t -> fine row ->
  ∃ t' blocks' rows', Collect t row = Some t' /\ builder_ok blocks' rows' t' /\ concat blocks' ++ rows' = (concat blocks ++ rows) ++ [row].
Proof.
  intros B Hf. unfold Collect.
  assert (∃ t1 blocks1 rows1, (if DOCINFO_INDEX_FREQ <=? m_nLocalCollected t then FlushComputed t else Some t) = Some t1 /\ builder_ok blocks1 rows1 t1 /\
    concat blocks1 ++ rows1 = concat blocks ++ rows /\ (length rows1 < 128)%nat) as (t1 & blocks1 & rows1 & -> & B1 & Ec & Hl).
  { unfold DOCINFO_INDEX_FREQ. rewrite (bo_count _ _ _ B). pose proof (bo_room _ _ _ B). destruct (Z.leb_spec 128 (Z.of_nat (length rows))); [|exists t, blocks, rows; split; [done|]; split; [done|]; split; [done|lia]].
    destruct (flush_ok blocks rows t B) as (t1 & E & B1); [by destruct rows|lia|]. exists t1, (blocks ++ [rows]), []. split; [done|]. split; [done|]. split; [|cbn; lia].
    rewrite concat_app, app_nil_r. cbn [concat]. by rewrite app_nil_r. }
  cbn [mbind option_bind]. destruct B1 as [C1 C2 C3 C4 C5 C6 [L1 L2] [I1 I2]]. destruct (collect_accs KInt row rows1 _ Hf L1) as (di & Ei & Ai & Bi), (collect_accs KFloat row rows1 _ Hf L2) as (df & Ef & Af & Bf).
  apply mapM_Some in Ei, Ef. rewrite Ei, Ef. cbn [mbind option_bind]. eexists _, blocks1, (rows1 ++ [row]). split; [done|]. split; [|rewrite app_assoc; by rewrite Ec].
  split; cbn [m_uStride m_nLocalCollected m_dMinMaxRows m_dInt m_dFloat]; try done; [rewrite length_app; cbn; lia|rewrite length_app; cbn; lia| |by auto].
  rewrite app_assoc. apply Forall_app. split; [done|by constructor].
Qed.

Lemma collect_all rows : ∀ t blocks cur, builder_ok blocks cur t -> Forall (λ r, fine r) rows ->
  ∃ t' blocks' cur', fold_left (λ t r, t ← t; Collect t r) rows (Some t) = Some t' /\ builder_ok blocks' cur' t' /\ concat blocks' ++ cur' = (concat blocks ++ cur) ++ rows.
Proof.
  induction rows as [|r rows IH]; intros t blocks cur B F; cbn [fold_left]; [exists t, blocks, cur; rewrite app_nil_r; done|]. inversion F as [|? ? F1 F2]; subst.
  destruct (collect_row_ok blocks cur t r B F1) as (t1 & b1 & c1 & E & B1 & Ec). cbn [mbind option_bind]. rewrite E. destruct (IH t1 b1 c1 B1 F2) as (t' & b' & c' & E' & B' & Ec').
  exists t', b', c'. split; [done|]. split; [done|]. by rewrite Ec', Ec, <- app_assoc.
Qed.

(** ** The index of the ranges *)

Definition num_blocks (rows : list (list Z)) : nat := ((length rows + 127) / 128)%nat.
Definition block_of (rows : list (list Z)) (b : nat) : list (list Z) := take 128 (drop (128 * b) rows).

(** Two rows for every block, and two for all rows. *)
Record index_ok (out : list (list Z)) (rows : list (list Z)) : Prop := {
  ix_length : length out = (2 * (num_blocks rows + 1))%nat;
  ix_block : ∀ b, (b < num_blocks rows)%nat -> ∃ pMin pMax, out !! (2 * b)%nat = Some pMin /\ out !! (2 * b + 1)%nat = Some pMax /\ ranges_ok stride dAttrs pMin pMax (block_of rows b);
  ix_total : ∃ pMin pMax, out !! (2 * num_blocks rows)%nat = Some pMin /\ out !! (2 * num_blocks rows + 1)%nat = Some pMax /\ ranges_ok stride dAttrs pMin pMax rows
}.

Lemma concat_full (blocks : list (list (list Z))) : Forall (λ b, length b = 128%nat) blocks -> length (concat blocks) = (128 * length blocks)%nat.
Proof. induction 1 as [|b l E _ IH]; [done|]. cbn [concat length]. rewrite length_app, E, IH. lia. Qed.

Lemma block_full blocks rest b blk : Forall (λ b, length b = 128%nat) blocks -> blocks !! b = Some blk -> block_of (concat blocks ++ rest) b = blk.
Proof.
  intros F. revert b. induction F as [|x l E F IH]; intros [|b] Eb; try done; unfold block_of in *; cbn [concat] in *; rewrite <- app_assoc.
  - injection Eb as ->. by rewrite Nat.mul_0_r, drop_0, take_app_length' by done.
  - rewrite drop_app_ge by lia. rewrite E. replace (128 * S b - 128)%nat with (128 * b)%nat by lia. by apply IH.
Qed.

Lemma block_last blocks cur : Forall (λ b, length b = 128%nat) blocks -> (length cur <= 128)%nat -> block_of (concat blocks ++ cur) (length blocks) = cur.
Proof. intros F L. unfold block_of. rewrite drop_app_ge by (rewrite concat_full by done; lia). rewrite concat_full, Nat.sub_diag, drop_0 by done. by apply take_ge. Qed.

Lemma num_blocks_parts blocks cur : Forall (λ b, length b = 128%nat) blocks -> (length cur <= 128)%nat ->
  num_blocks (concat blocks ++ cur) = (length blocks + match cur with [] => 0 | _ => 1 end)%nat.
Proof.
  intros F L. unfold num_blocks. rewrite length_app, concat_full by done. replace (128 * length blocks + length cur + 127)%nat with (length cur + 127 + length blocks * 128)%nat by lia.
  rewrite Nat.div_add by lia. rewrite Nat.add_comm. f_equal. destruct cur as [|r cur]; [done|]. cbn [length] in *. symmetry. apply (Nat.div_unique _ _ 1 (length cur)); lia.
Qed.

(** The blocks with the last one, which need not be full. *)
Lemma finish_blocks blocks cur t : builder_ok blocks cur t -> ∃ t' all,
  (if m_nLocalCollected t =? 0 then Some t else FlushComputed t) = Some t' /\ all = blocks ++ (match cur with [] => [] | _ => [cur] end) /\ m_uStride t' = stride /\
  blocks_ok (m_dMinMaxRows t') all /\ accs_ok KInt a_imin a_imax (concat all) (m_dInt t') /\ accs_ok KFloat a_imin a_imax (concat all) (m_dFloat t').
Proof.
  intros [B1 B2 B3 B4 B5 B6 [L1 L2] [I1 I2]]. rewrite B2. destruct cur as [|r cur]; [exists t, blocks; rewrite app_nil_r; done|].
  rewrite (proj2 (Z.eqb_neq _ 0)) by (cbn; lia). unfold FlushComputed.
  destruct (add_ranges_ok a_min a_max (r :: cur) t L1 L2 B1) as (pMin & pMax & -> & R); [by apply Forall_app in B5 as [_ ?]|]. cbn [mbind option_bind]. eexists _, (blocks ++ [r :: cur]). split; [done|]. split; [done|].
  destruct (accs_flush KInt blocks (r :: cur) _ ltac:(done) L1 I1), (accs_flush KFloat blocks (r :: cur) _ ltac:(done) L2 I2). cbn [ResetLocal m_uStride m_dMinMaxRows m_dInt m_dFloat].
  split; [done|]. split; [by apply blocks_snoc|done].
Qed.

Lemma finish_ok blocks cur t : builder_ok blocks cur t -> ∃ t', FinishCollect t = Some t' /\ index_ok (GetCollected t') (concat blocks ++ cur).
Proof.
  intros B. destruct (finish_blocks blocks cur t B) as (t1 & all & E & Ea & Es & [Hl Hb] & Ai & Af). unfold FinishCollect. rewrite E. cbn [mbind option_bind].
  pose proof (bo_full _ _ _ B) as F. pose proof (bo_room _ _ _ B) as Lc. pose proof (bo_fine _ _ _ B) as Ff.
  assert (concat all = concat blocks ++ cur) as Ec by (rewrite Ea, concat_app; destruct cur; cbn; by rewrite ?app_nil_r).
  destruct (add_ranges_ok a_imin a_imax (concat all) t1 Ai Af Es) as (pMin & pMax & -> & R); [by rewrite Ec|]. cbn [mbind option_bind]. eexists. split; [done|].
  assert (num_blocks (concat blocks ++ cur) = length all) as En by (rewrite num_blocks_parts by done; rewrite Ea, length_app; destruct cur; done).
  unfold GetCollected. cbn [m_dMinMaxRows]. split; rewrite En.
  - rewrite length_app, Hl. cbn. lia.
  - intros b Lb. destruct (lookup_lt_is_Some_2 all b Lb) as [blk Eb]. destruct (Hb b blk Eb) as (p1 & p2 & E1 & E2 & R'). exists p1, p2. rewrite !lookup_app_l by lia. split; [done|]. split; [done|].
    replace (block_of (concat blocks ++ cur) b) with blk; [done|]. symmetry. destruct (decide (b < length blocks)%nat) as [Lt|Ge].
    + apply block_full; [done|]. rewrite Ea, lookup_app_l in Eb by done. done.
    + assert (cur <> [] /\ b = length blocks) as [Hc ->] by (rewrite Ea, length_app in Lb; destruct cur; cbn in Lb; split; done || lia). rewrite block_last by done.
      rewrite Ea, lookup_app_r, Nat.sub_diag in Eb by lia. destruct cur; [done|]. by injection Eb as <-.
  - exists pMin, pMax. rewrite !lookup_app_r by lia. rewrite Hl. replace (2 * length all - 2 * length all)%nat with 0%nat by lia. replace (2 * length all + 1 - 2 * length all)%nat with 1%nat by lia.
    split; [done|]. split; [done|]. by rewrite <- Ec.
Qed.
End Builder.

(** A schema whose attributes are all in the static row. *)
Record table_schema (crc : String.string -> Z) (s : CSphSchema) : Prop := {
  ts_reach : reachable crc s;
  ts_static : m_dDynamicUsed s = [] /\ Forall (λ c, m_bDynamic (m_tLocator c) = false) (m_dAttrs s);
  ts_float : Forall (λ c, m_eAttrType c = SPH_ATTR_FLOAT -> m_iBitCount (m_tLocator c) = 32) (m_dAttrs s)
}.

Lemma kind_stored k c : has_kind k c = true -> stored c = true.
Proof. unfold has_kind, stored. destruct (m_bColumnar c), (m_eAttrType c), k; done. Qed.

Lemma kinds_apart (l : list CSphColumnInfo) : ∃ rest, l ≡ₚ (List.filter (has_kind KInt) l ++ List.filter (has_kind KFloat) l) ++ rest.
Proof.
  induction l as [|c l [rest IH]]; [by exists []|]. cbn [List.filter]. destruct (has_kind KInt c) eqn:E1, (has_kind KFloat c) eqn:E2.
  - unfold has_kind in E1, E2. destruct (m_bColumnar c), (kind_of (m_eAttrType c)) as [[]|]; done.
  - exists rest. cbn [app]. by rewrite IH at 1.
  - exists rest. rewrite IH at 1. rewrite <- !app_assoc. cbn [app]. by rewrite <- Permutation_middle.
  - exists (c :: rest). rewrite IH at 1. by rewrite <- Permutation_middle.
Qed.

Lemma FOP_app_l (a b : list CSphAttrLocator) : ForallOrdPairs disjoint (a ++ b) -> ForallOrdPairs disjoint a.
Proof. induction a as [|x a IH]; intros H; [constructor|]. inversion H as [|? ? H1 H2]; subst. constructor; [by apply Forall_app in H1 as [? _]|by apply IH]. Qed.

Lemma table_attrs crc s : table_schema crc s -> attrs_ok (GetRowSize s) (m_dAttrs s).
Proof.
  intros [Hr [Hd Hst] Hf]. pose proof (reachable_ok crc s Hr) as [[_ F D] _ Hc]. assert (GetRowSize s = Z.of_nat (length (m_dStaticUsed s))) as Es by (unfold GetRowSize, GetStaticSize, GetDynamicSize; rewrite Hd; cbn; lia).
  rewrite Forall_forall in F. rewrite Forall_forall in Hf. rewrite Forall_forall in Hst. rewrite Forall_forall in Hc. split.
  - intros k c Hin Hk. rewrite Es. assert (loc_ok (Z.of_nat (length (m_dStaticUsed s))) (m_tLocator c)) as L.
    { apply F. unfold part. apply list_elem_of_fmap. exists c. split; [done|]. apply list_elem_of_filter. split; [|done]. split; [by eapply kind_stored|by apply Hst]. }
    split; [done|]. split; [apply (loc_count _ _ L)|]. destruct k; [by apply (Hc c Hin)|]. apply Hf; [done|]. unfold has_kind in Hk. destruct (m_bColumnar c), (m_eAttrType c); done.
  - destruct (kinds_apart (List.filter (λ c, stored c) (m_dAttrs s))) as [rest P].
    assert (∀ k, List.filter (has_kind k) (List.filter (λ c, stored c) (m_dAttrs s)) = List.filter (has_kind k) (m_dAttrs s)) as Ek.
    { intros k. clear. induction (m_dAttrs s) as [|c l IH]; [done|]. cbn [List.filter]. destruct (stored c) eqn:E1; cbn [List.filter]; [by rewrite IH|]. destruct (has_kind k c) eqn:E2; [apply kind_stored in E2; congruence|done]. }
    rewrite !Ek in P. assert (part false (m_dAttrs s) = map m_tLocator (List.filter (λ c, stored c) (m_dAttrs s))) as Ep.
    { unfold part. clear -Hst. induction (m_dAttrs s) as [|c l IH]; [done|]. rewrite filter_cons. cbn [List.filter]. rewrite (Hst c) by (by left). specialize (IH (λ x Hx, Hst x (list_elem_of_further _ _ _ Hx))).
      destruct (stored c); [rewrite decide_True by done; cbn; by rewrite IH|rewrite decide_False by (by intros [? _]); done]. }
    rewrite Ep in D. eapply FOP_perm in D; [|apply Permutation_map, P]. rewrite map_app in D. by eapply FOP_app_l.
Qed.
End MinMaxOk.
