(* ===== verification/AttrUpdate.v ===== *)
(** * Writing updated attributes (src/src/sphinx.cpp)

    [Update_Plain] writes the values of an update into the rows, and
    [Update_MinMax] widens the ranges of their blocks. Histograms and the updates
    of blobs and JSON fields are left out. *)

From Stdlib Require Import SpecFloat String.
From S2P Require Import Prelude BitCount BitVec SearchNode Update RowAttr Schema MinMax.
Import BitCount BitVec SearchNode RowAttr Schema MinMax.

Module AttrUpdate.

(** ** Conversions *)

(** The bits of a float. *)
Definition float_bits (f : float32) : Z :=
  match f with
  | S754_zero s => if s then 2 ^ 31 else 0
  | S754_infinity s => (if s then 2 ^ 31 else 0) + 0x7F800000
  | S754_nan => 0x7FC00000
  | S754_finite s m e =>
      (if s then 2 ^ 31 else 0) + (if Z.pos m <? 2 ^ 23 then Z.pos m else (e + 150) * 2 ^ 23 + (Z.pos m - 2 ^ 23))
  end.

(** [sphF2DW ( float ( (int64_t)uValue ) )] *)
Definition int_to_float (uValue : Z) : Z := float_bits (float_of uValue).

(** [(int64_t) sphDW2F ( uValue )] truncates (out of range values are undefined
    in C++; they map to 0 here). *)
Definition float_to_int (d : Z) : Z :=
  let e := Z.land (Z.shiftr d 23) 0xFF in
  let m := Z.land d 0x7FFFFF in
  if e =? 255 then 0
  else
    let mant := if e =? 0 then m else m + 2 ^ 23 in
    let ex := (if e =? 0 then 1 else e) - 150 in
    let a := if 0 <=? ex then mant * 2 ^ ex else mant / 2 ^ (- ex) in
    let x := if d <? 2 ^ 31 then a else - a in
    if decide (in_type int64_t x) then x else 0.

Inductive TypeConversion_e := CONVERSION_NONE | CONVERSION_BIGINT2FLOAT | CONVERSION_FLOAT2BIGINT.

(** ** The update *)

Record TypedAttribute_t := TypedAttribute { ta_sName : string; ta_eType : ESphAttr }.

Record CSphAttrUpdate := MkUpdate {
  m_dAttributes : list TypedAttribute_t;
  m_dPool : list Z;
  m_dRowOffset : list Z
}.

(** Which documents are updated, and how many. *)
Record AttrUpdateInc_t := UpdateInc { m_dUpdated : BitVec_T; m_uAffected : Z }.

Definition GetRowOffset (u : CSphAttrUpdate) (i : Z) : option Z :=
  match m_dRowOffset u with [] => Some 0 | _ => m_dRowOffset u !! Z.to_nat i end.

Definition MarkUpdated (iUpd : Z) (t : AttrUpdateInc_t) : option AttrUpdateInc_t :=
  b ← BitGet DWORD iUpd (m_dUpdated t);
  if (b : bool) then Some t
  else d ← BitSet DWORD iUpd (m_dUpdated t); Some (UpdateInc d (cast DWORD (m_uAffected t + 1))).

Record UpdatedAttribute_t := UpdatedAttribute {
  ua_tLocator : CSphAttrLocator;
  ua_eAttrType : ESphAttr;
  ua_eConversion : TypeConversion_e;
  ua_bExisting : bool
}.

(** [m_dPool[iPos]] *)
Definition pool_at (u : CSphAttrUpdate) (iPos : Z) : option Z := m_dPool u !! Z.to_nat iPos.

Definition IncUpdatePoolPos (u : CSphAttrUpdate) (eType : ESphAttr) (iPos : Z) : option Z :=
  match eType with
  | SPH_ATTR_UINT32SET | SPH_ATTR_INT64SET | SPH_ATTR_FLOAT_VECTOR | SPH_ATTR_FLOAT_VECTOR_ARRAY => n ← pool_at u iPos; Some (iPos + n + 1)
  | SPH_ATTR_STRING | SPH_ATTR_BIGINT => Some (iPos + 2)
  | _ => Some (iPos + 1)
  end.

(** The value of a column in the pool, as the attribute takes it. *)
Definition new_value (u : CSphAttrUpdate) (eAttr : ESphAttr) (a : UpdatedAttribute_t) (iPos : Z) : option Z :=
  lo ← pool_at u iPos;
  uValue ← match eAttr with
           | SPH_ATTR_BIGINT => hi ← pool_at u (iPos + 1); Some (cast int64_t (lo + Z.shiftl hi 32))
           | _ => Some lo
           end;
  Some (match ua_eConversion a with
        | CONVERSION_BIGINT2FLOAT => int_to_float uValue
        | CONVERSION_FLOAT2BIGINT => float_to_int (cast DWORD uValue)
        | CONVERSION_NONE => uValue
        end).

(** "already updated?" *)
Definition not_plain (eAttr : ESphAttr) (a : UpdatedAttribute_t) : bool :=
  is_blob_type eAttr || (match ua_eAttrType a with SPH_ATTR_JSON => true | _ => false end) || negb (ua_bExisting a).

(** The columns of a row; the flag says whether something was written. *)
Fixpoint plain_cols (u : CSphAttrUpdate) (iPos : Z) (cols : list (ESphAttr * UpdatedAttribute_t)) (pDocinfo : list Z) : option (bool * list Z) :=
  match cols with
  | [] => Some (false, pDocinfo)
  | (eAttr, a) :: cols' =>
      if not_plain eAttr a then
        iPos ← IncUpdatePoolPos u eAttr iPos; plain_cols u iPos cols' pDocinfo
      else
        v ← new_value u eAttr a iPos;
        pDocinfo ← sphSetRowAttr pDocinfo (ua_tLocator a) v;
        iPos ← IncUpdatePoolPos u eAttr iPos;
        '(_, pDocinfo) ← plain_cols u iPos cols' pDocinfo;
        Some (true, pDocinfo)
  end.

Definition columns (u : CSphAttrUpdate) (dUpdatedAttrs : list UpdatedAttribute_t) : list (ESphAttr * UpdatedAttribute_t) :=
  zip (map ta_eType (m_dAttributes u)) dUpdatedAttrs.

Fixpoint Update_Plain (u : CSphAttrUpdate) (dUpdatedAttrs : list UpdatedAttribute_t) (dRows : list Update.RowToUpdateData_t) (pAttrPool : list (list Z)) (t : AttrUpdateInc_t) :
    option (list (list Z) * AttrUpdateInc_t) :=
  match dRows with
  | [] => Some (pAttrPool, t)
  | tRow :: dRows' =>
      iPos ← GetRowOffset u (Update.m_iIdx tRow);
      pDocinfo ← pAttrPool !! Z.to_nat (Update.m_tRow tRow);
      '(w, pDocinfo) ← plain_cols u iPos (columns u dUpdatedAttrs) pDocinfo;
      t ← (if (w : bool) then MarkUpdated (Update.m_iIdx tRow) t else Some t);
      Update_Plain u dUpdatedAttrs dRows' (<[Z.to_nat (Update.m_tRow tRow) := pDocinfo]> pAttrPool) t
  end.

(** ** [Update_MinMax] *)

Definition attr_kind (a : UpdatedAttribute_t) : kind := match ua_eAttrType a with SPH_ATTR_FLOAT => KFloat | _ => KInt end.

(** The ranges [pBlock] and [pBlock+iRowStride] at the row [i] of the index. *)
Definition widen_at (i : nat) (k : kind) (l : CSphAttrLocator) (v : Z) (x : list (list Z)) : option (list (list Z)) :=
  pMin ← x !! i; pMax ← x !! S i;
  lo ← attr_value k pMin l; hi ← attr_value k pMax l;
  pMin ← (if lt_of k v lo then sphSetRowAttr pMin l v else Some pMin);
  pMax ← (if lt_of k hi v then sphSetRowAttr pMax l v else Some pMax);
  Some (<[i := pMin]> (<[S i := pMax]> x)).

Fixpoint minmax_attrs (iBlock iDocinfoIndex : nat) (pDocinfo : list Z) (d : list UpdatedAttribute_t) (x : list (list Z)) : option (list (list Z)) :=
  match d with
  | [] => Some x
  | a :: d' =>
      if negb (ua_bExisting a) || IsBlobAttr (ua_tLocator a) then minmax_attrs iBlock iDocinfoIndex pDocinfo d' x
      else
        v ← attr_value (attr_kind a) pDocinfo (ua_tLocator a);
        x ← widen_at (2 * iDocinfoIndex) (attr_kind a) (ua_tLocator a) v x;
        x ← widen_at (2 * iBlock) (attr_kind a) (ua_tLocator a) v x;
        minmax_attrs iBlock iDocinfoIndex pDocinfo d' x
  end.

(** The index of the ranges is cut into its rows. *)
Fixpoint Update_MinMax (dUpdatedAttrs : list UpdatedAttribute_t) (dRows : list Update.RowToUpdateData_t) (iDocinfoIndex : nat) (pAttrPool : list (list Z)) (x : list (list Z)) :
    option (list (list Z)) :=
  match dRows with
  | [] => Some x
  | tRow :: dRows' =>
      let iBlock := Z.to_nat (Update.m_tRow tRow / DOCINFO_INDEX_FREQ) in
      pDocinfo ← pAttrPool !! Z.to_nat (Update.m_tRow tRow);
      x ← minmax_attrs iBlock iDocinfoIndex pDocinfo dUpdatedAttrs x;
      Update_MinMax dUpdatedAttrs dRows' iDocinfoIndex pAttrPool x
  end.

Example demo_conversions : map int_to_float [0; 1; -1; 3; 2 ^ 40; 16777217] = [0; 0x3F800000; 0xBF800000; 0x40400000; 0x53800000; 0x4B800000] /\
  map float_to_int [0; 0x3F800000; 0xBFC00000; 0x53800000; 0x7F800000] = [0; 1; -1; 2 ^ 40; 0].
Proof. vm_compute. split; reflexivity. Qed.
End AttrUpdate.
