(* ===== verification/AttrUpdateOk.v ===== *)
(** * Updates keep the ranges *)

From Stdlib Require Import String.
From stdpp Require Import strings.
From S2P Require Import Prelude BitCount BitVec SearchNode Update RowAttr Schema SchemaOk MinMax MinMaxOk AttrUpdate.
Import RowAttr Schema SchemaOk MinMax MinMaxOk AttrUpdate.

Module AttrUpdateOk.

Section Update.
Context (stride : Z) (dAttrs : list CSphColumnInfo) (Ha : attrs_ok stride dAttrs).

Abbreviation fine r := (row_fine stride dAttrs r).
Abbreviation kinded k c := (c ∈ dAttrs /\ has_kind k c = true).

(** ** One pair of rows *)

Definition covers (k : kind) (c : CSphColumnInfo) (pMin pMax : list Z) (v : Z) : Prop :=
  ∃ lo hi, attr_value k pMin (m_tLocator c) = Some lo /\ attr_value k pMax (m_tLocator c) = Some hi /\ within k lo v hi.

(** Two attributes with ranges are the same one or apart. *)
Lemma same_or_apart k c k' c' : kinded k c -> kinded k' c' -> (m_tLocator c' = m_tLocator c /\ k' = k) \/ disjoint (m_tLocator c) (m_tLocator c').
Proof.
  intros [H1 H2] [H1' H2']. assert (∀ k c, kinded k c -> c ∈ List.filter (has_kind KInt) dAttrs ++ List.filter (has_kind KFloat) dAttrs) as In.
  { intros k0 c0 [A B]. apply elem_of_app. destruct k0; [left|right]; by rewrite list_elem_of_In, List.filter_In, <- list_elem_of_In. }
  destruct (list_elem_of_lookup_1 _ _ (In k c (conj H1 H2))) as [i Ei], (list_elem_of_lookup_1 _ _ (In k' c' (conj H1' H2'))) as [j Ej]. destruct (decide (i = j)) as [->|N].
  - rewrite Ei in Ej. injection Ej as ->. left. split; [done|]. unfold has_kind in H2, H2'. destruct (m_bColumnar c'), (kind_of (m_eAttrType c')) as [[]|], k, k'; done.
  - right. eapply FOP_lookup; [apply (at_apart _ _ Ha)| | |exact N]; rewrite list_lookup_fmap, ?Ei, ?Ej; done.
Qed.

Lemma attr_value_eq k l r r' : sphGetRowAttr r' l = sphGetRowAttr r l -> attr_value k r' l = attr_value k r l.
Proof. unfold attr_value. by intros ->. Qed.

(** Setting one attribute of a row with ranges. *)
Lemma set_value row k c v : row_ok stride row -> kinded k c -> num k v -> in_attr (m_tLocator c) v ->
  ∃ row', sphSetRowAttr row (m_tLocator c) v = Some row' /\ row_ok stride row' /\ attr_value k row' (m_tLocator c) = Some v /\
    ∀ k' c', kinded k' c' -> disjoint (m_tLocator c) (m_tLocator c') -> attr_value k' row' (m_tLocator c') = attr_value k' row (m_tLocator c').
Proof.
  intros Hr [Hc Hk] Hn Hi. destruct (at_loc _ _ Ha k c Hc Hk) as [L F]. destruct (set_get stride row (m_tLocator c) v Hr L) as (row' & E & Hr' & G & O). exists row'. split; [done|]. split; [done|].
  split; [by eapply get_value|]. intros k' c' [Hc' Hk'] D. apply attr_value_eq, O; [|done]. by apply (at_loc _ _ Ha k' c').
Qed.

Lemma value_num row k c v : row_ok stride row -> kinded k c -> attr_value k row (m_tLocator c) = Some v -> (k = KFloat -> is_nan v = false) -> num k v /\ in_attr (m_tLocator c) v.
Proof.
  intros Hr [Hc Hk] E Hn. destruct (at_loc _ _ Ha k c Hc Hk) as [L [Hp Hf]]. destruct (get_total stride row (m_tLocator c) Hr L) as (x & Ex & Ix). unfold attr_value in E. rewrite Ex in E. cbn [mbind option_bind] in E.
  destruct k; injection E as <-.
  - split; [|done]. unfold in_attr in Ix. cbn. destruct (Z.eqb_spec (m_iBitCount (m_tLocator c)) 64); [done|].
    assert (2 ^ m_iBitCount (m_tLocator c) <= 2 ^ 32) by (apply Z.pow_le_mono_r; lia). unfold in_type. cbn [is_signed int64_t bits]. change (2 ^ (64 - 1)) with 9223372036854775808. change (2 ^ 32) with 4294967296 in *. lia.
  - assert (in_type DWORD x) as T by (unfold in_attr in Ix; rewrite Hf in Ix; exact Ix). assert (cast DWORD x = x) as Ec by (by apply cast_id).
    rewrite Ec in *. split; [split; [done|by apply Hn]|done].
Qed.

(** Widening a pair by a value. *)
Lemma widen_pair k c pMin pMax v : row_ok stride pMin -> row_ok stride pMax -> kinded k c -> num k v -> in_attr (m_tLocator c) v -> (∃ v0, num k v0 /\ covers k c pMin pMax v0) ->
  ∃ lo hi pMin' pMax', attr_value k pMin (m_tLocator c) = Some lo /\ attr_value k pMax (m_tLocator c) = Some hi /\
    (if lt_of k v lo then sphSetRowAttr pMin (m_tLocator c) v else Some pMin) = Some pMin' /\ (if lt_of k hi v then sphSetRowAttr pMax (m_tLocator c) v else Some pMax) = Some pMax' /\
    row_ok stride pMin' /\ row_ok stride pMax' /\ covers k c pMin' pMax' v /\
    ∀ k' c' v', kinded k' c' -> num k' v' -> covers k' c' pMin pMax v' -> covers k' c' pMin' pMax' v'.
Proof.
  intros R1 R2 Hk Nv Iv (v0 & N0 & lo & hi & El & Eh & W).
  assert (num k lo /\ in_attr (m_tLocator c) lo) as [Nl Il].
  { apply (value_num pMin); [done|done|done|]. intros ->. cbn in W. unfold flt_le in W. destruct W as [W1 _]. by destruct (is_nan lo). }
  assert (num k hi /\ in_attr (m_tLocator c) hi) as [Nh Ih].
  { apply (value_num pMax); [done|done|done|]. intros ->. cbn in W. unfold flt_le in W. destruct W as [_ W2]. destruct (is_nan hi); [by rewrite andb_false_r in W2|done]. }
  apply within_key in W; [|done..].
  destruct (set_value pMin k c v R1 Hk Nv Iv) as (p1 & E1 & P1 & G1 & O1), (set_value pMax k c v R2 Hk Nv Iv) as (p2 & E2 & P2 & G2 & O2).
  exists lo, hi, (if key k v <? key k lo then p1 else pMin), (if key k hi <? key k v then p2 else pMax). rewrite !lt_key by done. split; [done|]. split; [done|].
  split; [by destruct (_ <? _)|]. split; [by destruct (_ <? _)|]. split; [by destruct (_ <? _)|]. split; [by destruct (_ <? _)|].
  set (lo' := if key k v <? key k lo then v else lo). set (hi' := if key k hi <? key k v then v else hi).
  assert (attr_value k (if key k v <? key k lo then p1 else pMin) (m_tLocator c) = Some lo') as El' by (unfold lo'; by destruct (key k v <? key k lo)).
  assert (attr_value k (if key k hi <? key k v then p2 else pMax) (m_tLocator c) = Some hi') as Eh' by (unfold hi'; by destruct (key k hi <? key k v)).
  assert (num k lo' /\ num k hi') as [Nl' Nh'] by (unfold lo', hi'; split; [by destruct (key k v <? key k lo)|by destruct (key k hi <? key k v)]).
  assert (key k lo' <= key k lo /\ key k lo' <= key k v /\ key k hi <= key k hi' /\ key k v <= key k hi') as Hkey.
  { unfold lo', hi'. destruct (Z.ltb_spec (key k v) (key k lo)), (Z.ltb_spec (key k hi) (key k v)); lia. }
  split; [exists lo', hi'; split; [done|]; split; [done|]; apply within_key; [done..|lia]|]. intros k' c' v' Hk' N' (l0 & h0 & E0 & F0 & W').
  destruct (same_or_apart k c k' c' Hk Hk') as [[El2 ->]|D].
  - unfold covers. rewrite El2 in *. rewrite El in E0. rewrite Eh in F0. injection E0 as <-. injection F0 as <-. apply within_key in W'; [|done..]. exists lo', hi'. split; [done|]. split; [done|]. apply within_key; [done..|lia].
  - exists l0, h0. split; [destruct (key k v <? key k lo); [by rewrite (O1 k' c')|done]|]. split; [destruct (key k hi <? key k v); [by rewrite (O2 k' c')|done]|done].
Qed.

(** ** The index of the ranges *)

(** The value lies in the ranges of the block [b]. *)
Definition xcov (x : list (list Z)) (b : nat) (k : kind) (c : CSphColumnInfo) (v : Z) : Prop :=
  ∃ pMin pMax, x !! (2 * b)%nat = Some pMin /\ x !! (2 * b + 1)%nat = Some pMax /\ row_ok stride pMin /\ row_ok stride pMax /\ covers k c pMin pMax v.

(** Nothing that was inside a range leaves it. *)
Definition wider (x x' : list (list Z)) : Prop := length x' = length x /\ (Forall (row_ok stride) x -> Forall (row_ok stride) x') /\ ∀ b k c v, kinded k c -> num k v -> xcov x b k c v -> xcov x' b k c v.

Lemma wider_refl x : wider x x.
Proof. by split. Qed.
Lemma wider_trans x y z : wider x y -> wider y z -> wider x z.
Proof. intros (L1 & R1 & W1) (L2 & R2 & W2). split; [congruence|]. split; auto. Qed.

(** The block has a value of the attribute. *)
Definition seen (x : list (list Z)) (b : nat) : Prop := ∀ k c, kinded k c -> ∃ v, num k v /\ xcov x b k c v.

Lemma wider_seen x x' b : wider x x' -> seen x b -> seen x' b.
Proof. intros (_ & _ & W) S k c H. destruct (S k c H) as (v & N & X). exists v. split; [done|]. by apply W. Qed.

Lemma widen_at_ok x b k c v : seen x b -> kinded k c -> num k v -> in_attr (m_tLocator c) v ->
  ∃ x', widen_at (2 * b) k (m_tLocator c) v x = Some x' /\ wider x x' /\ xcov x' b k c v.
Proof.
  intros Hseen Hk Nv Iv. destruct (Hseen k c Hk) as (v0 & N0 & pMin & pMax & E1 & E2 & R1 & R2 & C0).
  destruct (widen_pair k c pMin pMax v R1 R2 Hk Nv Iv) as (lo & hi & p1 & p2 & El & Eh & F1 & F2 & P1 & P2 & Cv & Keep); [eauto|]. unfold widen_at.
  replace (S (2 * b)) with (2 * b + 1)%nat by lia. rewrite E1, E2. cbn [mbind option_bind]. rewrite El, Eh. cbn [mbind option_bind]. rewrite F1, F2. cbn [mbind option_bind]. eexists. split; [done|].
  pose proof (lookup_lt_Some _ _ _ E1). pose proof (lookup_lt_Some _ _ _ E2). set (x' := <[(2 * b)%nat := p1]> _).
  assert (x' !! (2 * b)%nat = Some p1 /\ x' !! (2 * b + 1)%nat = Some p2) as [G1 G2].
  { unfold x'. split; [by rewrite list_lookup_insert_eq by (rewrite length_insert; done)|]. rewrite list_lookup_insert_ne by lia. by rewrite list_lookup_insert_eq. }
  split; [split; [unfold x'; by rewrite !length_insert|]; split; [intros F; unfold x'; by repeat apply Forall_insert|]|by exists p1, p2]. intros b' k' c' v' Hk' N' (q1 & q2 & Q1 & Q2 & O1 & O2 & C'). destruct (decide (b' = b)) as [->|Nb].
  - rewrite E1 in Q1. rewrite E2 in Q2. injection Q1 as <-. injection Q2 as <-. exists p1, p2. split_and!; try done. by apply Keep.
  - exists q1, q2. unfold x'. rewrite !list_lookup_insert_ne by lia. done.
Qed.

(** ** [Update_MinMax] *)

(** The attributes of an update: blobs, which [Update_Plain] passes over, and
    columns of the table that have ranges. *)
Definition attr_ok (eAttr : ESphAttr) (a : UpdatedAttribute_t) : Prop :=
  ua_bExisting a = true -> (IsBlobAttr (ua_tLocator a) = true /\ not_plain eAttr a = true) \/
    (IsBlobAttr (ua_tLocator a) = false /\ ∃ c, kinded (attr_kind a) c /\ m_tLocator c = ua_tLocator a).

(** An attribute the update sets. *)
Definition plain_attr (a : UpdatedAttribute_t) : Prop := ua_bExisting a = true /\ IsBlobAttr (ua_tLocator a) = false.

Definition counted (x : list (list Z)) (b : nat) (row : list Z) (a : UpdatedAttribute_t) : Prop :=
  plain_attr a -> ∀ c v, kinded (attr_kind a) c -> m_tLocator c = ua_tLocator a -> attr_value (attr_kind a) row (m_tLocator c) = Some v -> xcov x b (attr_kind a) c v.

Lemma wider_counted x x' b row a : wider x x' -> fine row -> counted x b row a -> counted x' b row a.
Proof.
  intros (_ & _ & W) Hf C P c v Hk El Ev. apply W; [done| |by apply C]. destruct Hk as [Hc Hk]. destruct (value_of stride dAttrs row _ c Ha Hf Hc Hk) as (v' & Ev' & N & _). rewrite Ev in Ev'. by injection Ev' as ->.
Qed.

Lemma minmax_attrs_ok b tot row d : fine row -> Forall (λ '(e, a), attr_ok e a) d -> ∀ x, seen x b -> seen x tot ->
  ∃ x', minmax_attrs b tot row (map snd d) x = Some x' /\ wider x x' /\ Forall (λ '(_, a), counted x' b row a /\ counted x' tot row a) d.
Proof.
  intros Hf. induction 1 as [|[e a] d Hok Hd IH]; intros x S1 S2; cbn [map snd minmax_attrs]; [exists x; split; [done|]; split; [apply wider_refl|constructor]|].
  assert (∀ y, ¬ plain_attr a -> counted y b row a /\ counted y tot row a) as Hno by (intros y N; split; intros P; by apply N in P).
  destruct (ua_bExisting a) eqn:Ee; cbn [negb orb]; [|destruct (IH x S1 S2) as (x' & -> & W & C); exists x'; split; [done|]; split; [done|]; constructor; [apply Hno; unfold plain_attr; rewrite Ee; by intros [? _]|done]].
  destruct (Hok Ee) as [[Eb _]|[Eb (c & Hk & El)]]; rewrite Eb.
  - destruct (IH x S1 S2) as (x' & -> & W & C); exists x'; split; [done|]; split; [done|]; constructor; [|done]. apply Hno. unfold plain_attr. rewrite Eb. by intros [_ ?].
  - rewrite <- El. pose proof Hk as [Hc Hk']. destruct (value_of stride dAttrs row _ c Ha Hf Hc Hk') as (v & Ev & Nv & Iv). rewrite Ev. cbn [mbind option_bind].
    destruct (widen_at_ok x tot _ c v S2 Hk Nv Iv) as (x1 & -> & W1 & C1). cbn [mbind option_bind].
    destruct (widen_at_ok x1 b _ c v (wider_seen _ _ _ W1 S1) Hk Nv Iv) as (x2 & -> & W2 & C2). cbn [mbind option_bind].
    destruct (IH x2) as (x' & -> & W & C); [by eapply wider_seen, wider_seen|by eapply wider_seen, wider_seen|]. exists x'. split; [done|]. split; [by eapply wider_trans, wider_trans|].
    constructor; [|done]. assert (∀ b', xcov x2 b' (attr_kind a) c v -> counted x' b' row a) as Hc'.
    { intros b' X _ c' v' Hk2 El2 Ev2. assert (v' = v) as -> by (rewrite El2, <- El in Ev2; congruence).
      assert (xcov x2 b' (attr_kind a) c' v) as X' by (destruct X as (q1 & q2 & ? & ? & ? & ? & (l & h & ? & ? & ?)); exists q1, q2; split_and!; try done; exists l, h; by rewrite El2, <- El). by apply W. }
    split; apply Hc'; [done|]. apply W2; [done|done|done].
Qed.

Definition row_index (r : Update.RowToUpdateData_t) : nat := Z.to_nat (Update.m_tRow r).
Definition row_block (r : Update.RowToUpdateData_t) : nat := Z.to_nat (Update.m_tRow r / 128).

Lemma Update_MinMax_ok pool tot d dRows : Forall (λ r, fine r) pool -> Forall (λ '(e, a), attr_ok e a) d ->
  Forall (λ r, (row_index r < length pool)%nat) dRows -> ∀ x, Forall (λ r, seen x (row_block r)) dRows -> seen x tot ->
  ∃ x', Update_MinMax (map snd d) dRows tot pool x = Some x' /\ wider x x' /\
    Forall (λ r, ∀ row, pool !! row_index r = Some row -> Forall (λ '(_, a), counted x' (row_block r) row a /\ counted x' tot row a) d) dRows.
Proof.
  intros Hp Hd Hr. rewrite Forall_forall in Hp. induction Hr as [|r dRows Hl Hr IH]; intros x Hs Ht; cbn [Update_MinMax]; [exists x; split; [done|]; split; [apply wider_refl|constructor]|].
  inversion Hs as [|? ? Hs1 Hs2]; subst. destruct (lookup_lt_is_Some_2 pool (row_index r) Hl) as [row Er]. fold (row_index r). rewrite Er. cbn [mbind option_bind].
  assert (fine row) as Hf by (apply Hp; by eapply list_elem_of_lookup_2). fold (row_block r).
  destruct (minmax_attrs_ok (row_block r) tot row d Hf Hd x Hs1 Ht) as (x1 & E1 & W1 & C1). unfold DOCINFO_INDEX_FREQ. fold (row_block r). rewrite E1. cbn [mbind option_bind].
  destruct (IH x1) as (x' & -> & W & C); [eapply Forall_impl; [exact Hs2|]; cbn; intros r'; by apply wider_seen|by eapply wider_seen|]. exists x'. split; [done|]. split; [by eapply wider_trans|].
  constructor; [|done]. intros row' Er'. rewrite Er in Er'. injection Er' as <-. eapply Forall_impl; [exact C1|]. intros [e a] [H1 H2]. split; by eapply wider_counted.
Qed.

(** ** [Update_Plain] *)

(** The pool has a value for every column. *)
Fixpoint pool_fits (u : CSphAttrUpdate) (iPos : Z) (cols : list (ESphAttr * UpdatedAttribute_t)) : bool :=
  match cols with
  | [] => true
  | (e, a) :: cols' =>
      (not_plain e a || match new_value u e a iPos with Some _ => true | None => false end) &&
      match IncUpdatePoolPos u e iPos with Some p => pool_fits u p cols' | None => false end
  end.

(** The columns that are written. *)
Definition written (cols : list (ESphAttr * UpdatedAttribute_t)) (c : CSphColumnInfo) : Prop :=
  ∃ e a, (e, a) ∈ cols /\ not_plain e a = false /\ ua_tLocator a = m_tLocator c.

Lemma plain_existing e a : not_plain e a = false -> ua_bExisting a = true.
Proof. unfold not_plain. destruct (ua_bExisting a); [done|]. by rewrite orb_true_r. Qed.

Lemma plain_column e a : attr_ok e a -> not_plain e a = false -> IsBlobAttr (ua_tLocator a) = false /\ ∃ c, kinded (attr_kind a) c /\ m_tLocator c = ua_tLocator a.
Proof. intros Hok Hp. destruct (Hok (plain_existing e a Hp)) as [[_ E]|H]; [congruence|done]. Qed.

Lemma plain_cols_ok u cols : Forall (λ '(e, a), attr_ok e a) cols -> ∀ iPos row, row_ok stride row -> pool_fits u iPos cols = true ->
  ∃ w row', plain_cols u iPos cols row = Some (w, row') /\ row_ok stride row' /\
    ∀ k c, kinded k c -> written cols c \/ attr_value k row' (m_tLocator c) = attr_value k row (m_tLocator c).
Proof.
  induction 1 as [|[e a] cols Hok _ IH]; intros iPos row Hr Hp; cbn [plain_cols pool_fits] in *; [exists false, row; auto|].
  assert (∀ c, written cols c -> written ((e, a) :: cols) c) as Hmore by (intros c (e' & a' & H1 & H2); exists e', a'; split; [by right|done]).
  apply andb_prop in Hp as [H1 H2]. destruct (IncUpdatePoolPos u e iPos) as [p|]; [|done]. destruct (not_plain e a) eqn:En; cbn [orb] in H1.
  - destruct (IH p row Hr H2) as (w & row' & E & R & K). exists w, row'. split; [done|]. split; [done|]. intros k c Hk. destruct (K k c Hk); auto.
  - destruct (new_value u e a iPos) as [v|]; [|done]. cbn [mbind option_bind]. destruct (plain_column e a Hok En) as [_ (c0 & Hk0 & El)]. rewrite <- El.
    pose proof Hk0 as [Hc0 Hk0']. destruct (at_loc _ _ Ha _ c0 Hc0 Hk0') as [L _]. destruct (set_get stride row (m_tLocator c0) v Hr L) as (r1 & -> & R1 & _ & O). cbn [mbind option_bind].
    destruct (IH p r1 R1 H2) as (w & row' & -> & R & K). cbn [mbind option_bind]. exists true, row'. split; [done|]. split; [done|]. intros k c Hk. destruct (K k c Hk) as [?|E]; [auto|].
    destruct (same_or_apart _ c0 k c Hk0 Hk) as [[E2 _]|D]; [left; exists e, a; split; [by left|]; split; [done|congruence]|]. right. rewrite E. apply attr_value_eq, O; [|done]. destruct Hk. by apply (at_loc _ _ Ha k c).
Qed.

Section Plain.
Context (u : CSphAttrUpdate) (d : list UpdatedAttribute_t) (Hd : Forall (λ '(e, a), attr_ok e a) (columns u d)) (Hlen : length (m_dAttributes u) = length d).

(** A row of the table, a document of the update, and values for it. *)
Definition row_to_update (n : nat) (t : AttrUpdateInc_t) (r : Update.RowToUpdateData_t) : Prop :=
  0 <= Update.m_tRow r /\ (row_index r < n)%nat /\ 0 <= Update.m_iIdx r < BitVec.m_uElements (m_dUpdated t) /\
  ∃ iPos, GetRowOffset u (Update.m_iIdx r) = Some iPos /\ pool_fits u iPos (columns u d) = true.

Definition touched (dRows : list Update.RowToUpdateData_t) (j : nat) : Prop := ∃ r, r ∈ dRows /\ row_index r = j.

Lemma MarkUpdated_ok i t : BitVec.wf DWORD (m_dUpdated t) -> 0 <= i < BitVec.m_uElements (m_dUpdated t) ->
  ∃ t', MarkUpdated i t = Some t' /\ BitVec.wf DWORD (m_dUpdated t') /\ BitVec.m_uElements (m_dUpdated t') = BitVec.m_uElements (m_dUpdated t).
Proof.
  intros Hw Hi. unfold MarkUpdated. rewrite (BitVec.BitGet_ok DWORD (or_introl eq_refl)) by done. cbn [mbind option_bind]. destruct (BitVec.bit _ _ _); [by exists t|].
  destruct (BitVec.BitSet_ok DWORD (or_introl eq_refl) i (m_dUpdated t) Hw Hi) as (v' & -> & S). cbn [mbind option_bind]. eexists. split; [done|]. cbn [m_dUpdated]. split; apply S.
Qed.

Lemma Update_Plain_ok dRows : ∀ pool t, Forall (row_ok stride) pool -> BitVec.wf DWORD (m_dUpdated t) -> Forall (row_to_update (length pool) t) dRows ->
  ∃ pool' t', Update_Plain u d dRows pool t = Some (pool', t') /\ length pool' = length pool /\ Forall (row_ok stride) pool' /\
    ∀ j row row', pool !! j = Some row -> pool' !! j = Some row' ->
      ∀ k c, kinded k c -> (touched dRows j /\ written (columns u d) c) \/ attr_value k row' (m_tLocator c) = attr_value k row (m_tLocator c).
Proof.
  induction dRows as [|r dRows IH]; intros pool t Hp Hw Hr; cbn [Update_Plain].
  { exists pool, t. split; [done|]. split; [done|]. split; [done|]. intros j row row' E1 E2 k c _. right. congruence. }
  inversion Hr as [|? ? (H0 & Hl & Hi & iPos & Eo & Hf) Hr']; subst. rewrite Eo. cbn [mbind option_bind]. destruct (lookup_lt_is_Some_2 pool (row_index r) Hl) as [row Er]. fold (row_index r). rewrite Er. cbn [mbind option_bind].
  assert (row_ok stride row) as Hrow by (rewrite Forall_forall in Hp; apply Hp; by eapply list_elem_of_lookup_2).
  destruct (plain_cols_ok u (columns u d) Hd iPos row Hrow Hf) as (w & row' & -> & R' & K). cbn [mbind option_bind].
  assert (∃ t1, (if w then MarkUpdated (Update.m_iIdx r) t else Some t) = Some t1 /\ BitVec.wf DWORD (m_dUpdated t1) /\ BitVec.m_uElements (m_dUpdated t1) = BitVec.m_uElements (m_dUpdated t)) as (t1 & -> & W1 & E1)
    by (destruct w; [by apply MarkUpdated_ok|by exists t]). cbn [mbind option_bind].
  destruct (IH (<[row_index r := row']> pool) t1) as (pool' & t' & -> & L' & F' & K').
  { by apply Forall_insert. } { done. } { rewrite length_insert. eapply Forall_impl; [exact Hr'|]. intros r'. unfold row_to_update. by rewrite E1. }
  exists pool', t'. rewrite length_insert in L'. split; [done|]. split; [done|]. split; [done|]. intros j ra rb Ea Eb k c Hk.
  destruct (decide (j = row_index r)) as [->|N].
  - rewrite Er in Ea. injection Ea as <-. destruct (K' (row_index r) row' rb ltac:(by rewrite list_lookup_insert_eq) Eb k c Hk) as [[(x & Hx & Ex) Hwr]|E]; [left; split; [exists x; split; [by right|done]|done]|].
    destruct (K k c Hk) as [Hwr|E2]; [left; split; [exists r; split; [by left|done]|done]|]. right. congruence.
  - destruct (K' j ra rb ltac:(by rewrite list_lookup_insert_ne by done) Eb k c Hk) as [[(x & Hx & Ex) Hwr]|E]; [left; split; [exists x; split; [by right|done]|done]|by right].
Qed.
End Plain.

(** ** Ranges after an update *)

Lemma block_member (rows : list (list Z)) b row : row ∈ block_of rows b <-> ∃ j, rows !! j = Some row /\ (j / 128 = b)%nat.
Proof.
  unfold block_of. rewrite list_elem_of_lookup. split.
  - intros [i E]. rewrite lookup_take_Some, lookup_drop in E. destruct E as [E Hi]. exists (128 * b + i)%nat. split; [done|]. rewrite Nat.mul_comm, Nat.div_add_l, Nat.div_small by lia. lia.
  - intros (j & E & Hb). pose proof (Nat.div_mod j 128 ltac:(lia)) as Dm. exists (j mod 128)%nat. apply lookup_take_Some. rewrite lookup_drop. split; [|apply Nat.mod_upper_bound; lia].
    replace (128 * b + j mod 128)%nat with j by lia. done.
Qed.

Lemma block_range (rows : list (list Z)) j : (j < length rows)%nat -> (j / 128 < num_blocks rows)%nat.
Proof.
  intros H. unfold num_blocks. apply Nat.div_le_lower_bound; [lia|]. pose proof (Nat.div_mod j 128 ltac:(lia)). pose proof (Nat.mod_upper_bound j 128 ltac:(lia)). lia.
Qed.

Lemma block_first (rows : list (list Z)) b : (b < num_blocks rows)%nat -> ∃ row, row ∈ block_of rows b.
Proof.
  intros H. unfold num_blocks in H. destruct (lookup_lt_is_Some_2 rows (128 * b)) as [row E].
  - pose proof (Nat.div_mod (length rows + 127) 128 ltac:(lia)). pose proof (Nat.mod_upper_bound (length rows + 127) 128 ltac:(lia)). nia.
  - exists row. apply block_member. exists (128 * b)%nat. split; [done|]. rewrite Nat.mul_comm. by rewrite Nat.div_mul by lia.
Qed.

Abbreviation index_ok := (MinMaxOk.index_ok stride dAttrs).

(** An index is one whose ranges hold every value. *)
Lemma index_cov x rows : index_ok x rows -> ∀ j row k c, rows !! j = Some row -> kinded k c ->
  ∃ v, attr_value k row (m_tLocator c) = Some v /\ xcov x (j / 128) k c v /\ xcov x (num_blocks rows) k c v.
Proof.
  intros [_ HB HT] j row k c Ej [Hc Hk]. destruct (HB (j / 128)%nat) as (p1 & p2 & E1 & E2 & R1 & R2 & R); [apply block_range; by eapply lookup_lt_Some|].
  destruct (R k c row Hc Hk) as (lo & v & hi & L & Ev & H & W); [apply block_member; by exists j|]. destruct HT as (q1 & q2 & F1 & F2 & Q1 & Q2 & Q).
  destruct (Q k c row Hc Hk) as (lo' & v' & hi' & L' & Ev' & H' & W'); [by eapply list_elem_of_lookup_2|]. rewrite Ev in Ev'. injection Ev' as <-.
  exists v. split; [done|]. split; [exists p1, p2|exists q1, q2]; split_and!; try done; [exists lo, hi|exists lo', hi']; done.
Qed.

Lemma index_seen x rows j row : Forall (λ r, fine r) rows -> index_ok x rows -> rows !! j = Some row -> seen x (j / 128) /\ seen x (num_blocks rows).
Proof.
  intros F I E. rewrite Forall_forall in F. pose proof (F row ltac:(by eapply list_elem_of_lookup_2)) as Hf.
  assert (∀ k c, kinded k c -> ∃ v, num k v /\ xcov x (j / 128) k c v /\ xcov x (num_blocks rows) k c v) as H.
  { intros k c Hk. destruct (index_cov x rows I j row k c E Hk) as (v & Ev & C1 & C2). pose proof Hk as [Hc Hk']. destruct (value_of stride dAttrs row k c Ha Hf Hc Hk') as (v' & Ev' & N & _). rewrite Ev in Ev'. injection Ev' as <-. eauto. }
  split; intros k c Hk; destruct (H k c Hk) as (v & N & C1 & C2); eauto.
Qed.

Lemma index_rows x rows : index_ok x rows -> Forall (row_ok stride) x.
Proof.
  intros [L HB HT]. apply Forall_lookup. intros i p E. pose proof (lookup_lt_Some _ _ _ E) as Li. pose proof (Nat.div_mod i 2 ltac:(lia)). pose proof (Nat.mod_upper_bound i 2 ltac:(lia)).
  assert (∃ p1 p2, x !! (2 * (i / 2))%nat = Some p1 /\ x !! (2 * (i / 2) + 1)%nat = Some p2 /\ row_ok stride p1 /\ row_ok stride p2) as (p1 & p2 & E1 & E2 & R1 & R2).
  { destruct (decide (i / 2 < num_blocks rows)%nat) as [Lt|Ge].
    - destruct (HB _ Lt) as (p1 & p2 & E1 & E2 & R1 & R2 & _). by exists p1, p2.
    - replace (i / 2)%nat with (num_blocks rows) by lia. destruct HT as (p1 & p2 & E1 & E2 & R1 & R2 & _). by exists p1, p2. }
  assert (i = 2 * (i / 2) \/ i = 2 * (i / 2) + 1)%nat as [Ei|Ei] by lia; rewrite Ei in E; congruence.
Qed.

(** The converse, for ranges that keep the shape of an index. *)
Lemma cov_index x x' rows rows' : index_ok x rows -> length rows' = length rows -> length x' = length x ->
  (∀ i p, x' !! i = Some p -> row_ok stride p) ->
  (∀ j row k c, rows' !! j = Some row -> kinded k c -> ∃ v, attr_value k row (m_tLocator c) = Some v /\ xcov x' (j / 128) k c v /\ xcov x' (num_blocks rows) k c v) -> index_ok x' rows'.
Proof.
  intros [L _ _] El Ex Hr H. assert (num_blocks rows' = num_blocks rows) as En by (unfold num_blocks; by rewrite El).
  assert (∀ b, (b <= num_blocks rows)%nat -> ∃ p1 p2, x' !! (2 * b)%nat = Some p1 /\ x' !! (2 * b + 1)%nat = Some p2 /\ row_ok stride p1 /\ row_ok stride p2) as P.
  { intros b Hb. destruct (lookup_lt_is_Some_2 x' (2 * b)) as [p1 E1]; [lia|]. destruct (lookup_lt_is_Some_2 x' (2 * b + 1)) as [p2 E2]; [lia|]. exists p1, p2. split_and!; [done|done|by eapply Hr|by eapply Hr]. }
  assert (∀ b p1 p2 k c row v, x' !! (2 * b)%nat = Some p1 -> x' !! (2 * b + 1)%nat = Some p2 -> attr_value k row (m_tLocator c) = Some v -> xcov x' b k c v ->
    ∃ lo v hi, attr_value k p1 (m_tLocator c) = Some lo /\ attr_value k row (m_tLocator c) = Some v /\ attr_value k p2 (m_tLocator c) = Some hi /\ within k lo v hi) as Q.
  { intros b p1 p2 k c row v E1 E2 Ev (q1 & q2 & F1 & F2 & _ & _ & lo & hi & G1 & G2 & W). rewrite E1 in F1. rewrite E2 in F2. injection F1 as <-. injection F2 as <-. by exists lo, v, hi. }
  split; rewrite ?En; [congruence| |].
  - intros b Hb. destruct (P b) as (p1 & p2 & E1 & E2 & R1 & R2); [lia|]. exists p1, p2. split; [done|]. split; [done|]. split; [done|]. split; [done|]. intros k c row Hc Hk Hin.
    apply block_member in Hin as (j & Ej & Eb). destruct (H j row k c Ej (conj Hc Hk)) as (v & Ev & C & _). rewrite Eb in C. by eapply Q.
  - destruct (P (num_blocks rows)) as (p1 & p2 & E1 & E2 & R1 & R2); [lia|]. exists p1, p2. split; [done|]. split; [done|]. split; [done|]. split; [done|]. intros k c row Hc Hk Hin.
    apply list_elem_of_lookup_1 in Hin as [j Ej]. destruct (H j row k c Ej (conj Hc Hk)) as (v & Ev & _ & C). by eapply Q.
Qed.

Section Whole.
Context (u : CSphAttrUpdate) (d : list UpdatedAttribute_t) (Hd : Forall (λ '(e, a), attr_ok e a) (columns u d)) (Hlen : length (m_dAttributes u) = length d).

Lemma columns_snd : map snd (columns u d) = d.
Proof. unfold columns. apply snd_zip. by rewrite length_map, Hlen. Qed.

(** An update of the rows and of the ranges, one after the other. *)
Lemma update_ok rows x dRows t : Forall (λ r, fine r) rows -> index_ok x rows -> BitVec.wf DWORD (m_dUpdated t) -> Forall (row_to_update u d (length rows) t) dRows ->
  ∃ rows' t', Update_Plain u d dRows rows t = Some (rows', t') /\ length rows' = length rows /\
    (Forall (λ r, fine r) rows' -> ∃ x', Update_MinMax d dRows (num_blocks rows) rows' x = Some x' /\ index_ok x' rows').
Proof.
  intros Hf Hi Hw Hr. destruct (Update_Plain_ok u d Hd dRows rows t) as (rows' & t' & E & El & _ & K); [eapply Forall_impl; [exact Hf|]; by intros r [? _]|done|done|].
  exists rows', t'. split; [done|]. split; [done|]. intros Hf'.
  assert (Forall (λ r, (row_index r < length rows')%nat) dRows) as Hin by (eapply Forall_impl; [exact Hr|]; cbn; intros r (_ & ? & _); lia).
  assert (∀ r, r ∈ dRows -> seen x (row_block r) /\ seen x (num_blocks rows)) as Hseen.
  { intros r Hr'. rewrite Forall_forall in Hr. destruct (Hr r Hr') as (H0 & Hl & _). destruct (lookup_lt_is_Some_2 rows (row_index r) Hl) as [row Er].
    replace (row_block r) with (row_index r / 128)%nat; [by eapply index_seen|]. unfold row_block, row_index. by rewrite Z2Nat.inj_div by lia. }
  destruct dRows as [|r0 dRows0] eqn:Ed; [exists x; split; [done|]|rewrite <- Ed in *].
  { cbn in E. injection E as <- _. done. }
  destruct (Update_MinMax_ok rows' (num_blocks rows) (columns u d) dRows Hf' Hd Hin x) as (x' & Ex & (Lx & Rx & W) & C).
  { apply Forall_forall. intros r Hr'. by apply Hseen. } { apply (Hseen r0). rewrite Ed. by left. }
  rewrite columns_snd in Ex. exists x'. split; [done|]. apply (cov_index x x' rows rows' Hi El Lx).
  { intros i p Ep. pose proof (Rx (index_rows _ _ Hi)) as F. rewrite Forall_lookup in F. by eapply F. }
  intros j row' k c Ej Hk. destruct (lookup_lt_is_Some_2 rows j) as [row Er]; [rewrite <- El; by eapply lookup_lt_Some|]. rewrite Forall_forall in Hf'. rewrite Forall_forall in C. pose proof Hk as [Hc Hk'].
  destruct (value_of stride dAttrs row' k c Ha ltac:(apply Hf'; by eapply list_elem_of_lookup_2) Hc Hk') as (v & Ev & Nv & _). exists v. split; [done|].
  destruct (K j row row' Er Ej k c Hk) as [[(r & Hr' & Ei) (e & a & Hin' & En & Eloc)]|Eq].
  - specialize (C r Hr' row' ltac:(by rewrite Ei)). rewrite Forall_forall in C. destruct (C (e, a) Hin') as [C1 C2]. rewrite Forall_forall in Hd. pose proof (plain_column e a (Hd (e, a) Hin') En) as [Eb (c0 & Hk0 & El0)].
    destruct (same_or_apart _ c0 k c Hk0 Hk) as [[Es Ek]|D]; [|exfalso; unfold disjoint in D; rewrite El0, Eloc in D; destruct (at_loc _ _ Ha k c Hc Hk') as [[_ _ Hp _] _]; lia].
    subst k. assert (row_block r = j / 128)%nat as Eb2.
    { rewrite Forall_forall in Hr. destruct (Hr r Hr') as (H0 & _). unfold row_block. rewrite <- Ei. unfold row_index. by rewrite Z2Nat.inj_div by lia. }
    rewrite Eb2 in C1. split; [apply C1|apply C2]; try done; (split; [by eapply plain_existing|done]).
  - rewrite Eq in Ev. destruct (index_cov x rows Hi j row k c Er Hk) as (v' & Ev' & C1 & C2). rewrite Ev in Ev'. injection Ev' as <-. split; by apply W.
Qed.
End Whole.
End Update.

Lemma init_accs_ok k (dAttrs : list CSphColumnInfo) lo hi : (∀ l, lo (Acc l (top_of k) (bot_of k) (top_of k) (bot_of k)) = top_of k) -> (∀ l, hi (Acc l (top_of k) (bot_of k) (top_of k) (bot_of k)) = bot_of k) ->
  accs_ok dAttrs k lo hi [] (init_accs k dAttrs).
Proof.
  intros H1 H2. unfold accs_ok, init_accs. induction (List.filter (has_kind k) dAttrs) as [|c l IH]; constructor; [|done]. split; [done|]. rewrite H1, H2. apply range_start.
Qed.

Lemma build_ranges_ok crc s rows : table_schema crc s -> Forall (row_fine (GetRowSize s) (m_dAttrs s)) rows ->
  ∃ x, build s rows = Some x /\ index_ok (GetRowSize s) (m_dAttrs s) x rows.
Proof.
  intros Ht Hf. pose proof (table_attrs crc s Ht) as Ha. assert (0 <= GetRowSize s) as Hs by (unfold GetRowSize, GetStaticSize, GetDynamicSize; lia). unfold build.
  destruct (collect_all (GetRowSize s) (m_dAttrs s) Hs Ha rows (Init s) [] []) as (t & blocks & cur & -> & B & Ec).
  - split; try done; try (split; by apply init_accs_ok); cbn; lia.
  - done.
  - cbn [mbind option_bind]. destruct (finish_ok (GetRowSize s) (m_dAttrs s) Hs Ha blocks cur t B) as (t' & -> & I). cbn [mbind option_bind]. eexists. split; [done|]. by rewrite Ec in I.
Qed.

(** [C23] The ranges of attribute values are kept right: when an index is built,
    every row's value of every number attribute lies in the range of its block of
    128 rows and in that of the whole index (floats that are no NaN by the order
    of floats); and when attributes are updated, writing the rows and then
    widening the ranges leaves them so, none of it ever leaving its row. *)
Theorem ranges_maintained crc s rows : table_schema crc s -> Forall (row_fine (GetRowSize s) (m_dAttrs s)) rows ->
  (∃ x, build s rows = Some x /\ index_ok (GetRowSize s) (m_dAttrs s) x rows) /\
  ∀ u d t dRows x, Forall (λ '(e, a), attr_ok (m_dAttrs s) e a) (columns u d) -> length (m_dAttributes u) = length d ->
    index_ok (GetRowSize s) (m_dAttrs s) x rows -> BitVec.wf DWORD (m_dUpdated t) -> Forall (row_to_update u d (length rows) t) dRows ->
    ∃ rows' t', Update_Plain u d dRows rows t = Some (rows', t') /\ length rows' = length rows /\
      (Forall (row_fine (GetRowSize s) (m_dAttrs s)) rows' ->
       ∃ x', Update_MinMax d dRows (num_blocks rows) rows' x = Some x' /\ index_ok (GetRowSize s) (m_dAttrs s) x' rows').
Proof.
  intros Ht Hf. split; [by eapply build_ranges_ok|]. intros u d t dRows x Hd Hl Hi Hw Hr. exact (update_ok _ _ (table_attrs crc s Ht) u d Hd Hl rows x dRows t Hf Hi Hw Hr).
Qed.

(** Three rows with an id, a flag, a small number and a price. *)
Definition demo_rows : list (list Z) := [[3; 7; 0; 0x40400000]; [9; 2; 1; 0xBF800000]; [0x15; 5; 0; 0x3F800000]].

Lemma demo_table : table_schema (λ n, Z.of_nat (String.length n)) demo_schema.
Proof. split; [apply demo_reachable|split; [done|]|]; apply (bool_decide_unpack _); vm_compute; exact I. Qed.

Lemma demo_fine : Forall (row_fine (GetRowSize demo_schema) (m_dAttrs demo_schema)) demo_rows.
Proof.
  assert (∀ r, r ∈ demo_rows -> row_fine (GetRowSize demo_schema) (m_dAttrs demo_schema) r) as H; [|by apply Forall_forall].
  intros r Hr. assert (row_ok (GetRowSize demo_schema) r) as Ho.
  { revert r Hr. apply Forall_forall. repeat constructor; apply (bool_decide_unpack _); vm_compute; exact I. }
  split; [done|]. intros c Hc Hk.
  assert (forallb (λ r, forallb (λ c, negb (has_kind KFloat c) || match attr_value KFloat r (m_tLocator c) with Some v => negb (is_nan v) | None => false end) (m_dAttrs demo_schema)) demo_rows = true) as F by reflexivity.
  rewrite forallb_forall in F. specialize (F r (proj1 (list_elem_of_In _ _) Hr)). rewrite forallb_forall in F. specialize (F c (proj1 (list_elem_of_In _ _) Hc)). rewrite Hk in F. cbn [negb orb] in F.
  destruct (attr_value KFloat r (m_tLocator c)) as [v|]; [|done]. exists v. split; [done|]. by destruct (is_nan v).
Qed.

(** The price of the second row is set to 8. *)
Definition demo_price : CSphAttrLocator := m_tLocator (nth 4 (m_dAttrs demo_schema) (demo_col "x" SPH_ATTR_NONE 0)).
Definition demo_update : CSphAttrUpdate := MkUpdate [TypedAttribute "price" SPH_ATTR_FLOAT] [0x41000000] [].
Definition demo_attr : UpdatedAttribute_t := UpdatedAttribute demo_price SPH_ATTR_FLOAT CONVERSION_NONE true.

Definition demo_todo : list Update.RowToUpdateData_t := [Update.RowToUpdate 1 0].
Definition demo_inc : AttrUpdateInc_t := UpdateInc BitVec.demo_bits 0.
Definition demo_index : list (list Z) := [[3; 5; 0; 0xBF800000]; [21; 2; 1; 0x40400000]; [3; 5; 0; 0xBF800000]; [21; 2; 1; 0x40400000]].

Example demo_ranges : build demo_schema demo_rows = Some demo_index.
Proof. vm_compute. reflexivity. Qed.

(** The price of the second row was the smallest one, and becomes the largest. *)
Lemma ranges_maintained_witness : ∃ rows' t' x', Update_Plain demo_update [demo_attr] demo_todo demo_rows demo_inc = Some (rows', t') /\
  Update_MinMax [demo_attr] demo_todo 1 rows' demo_index = Some x' /\ index_ok (GetRowSize demo_schema) (m_dAttrs demo_schema) x' rows'.
Proof.
  destruct (ranges_maintained _ demo_schema demo_rows demo_table demo_fine) as [(x & E & I) Hu]. rewrite demo_ranges in E. injection E as <-.
  destruct (Hu demo_update [demo_attr] demo_inc demo_todo demo_index) as (rows' & t' & E & _ & Hx).
  - constructor; [|constructor]. intros _. right. split; [done|]. exists (nth 4 (m_dAttrs demo_schema) (demo_col "x" SPH_ATTR_NONE 0)). split; [|done]. split; [|done]. apply list_elem_of_In, nth_In. apply Nat.ltb_lt. reflexivity.
  - done.
  - exact I.
  - apply BitVec.demo_bits_ok.
  - constructor; [|constructor]. split; [done|]. split; [apply Nat.ltb_lt; reflexivity|]. split; [done|]. by exists 0.
  - destruct Hx as (x' & Ex & Ix); [|by exists rows', t', x']. vm_compute in E. injection E as <- <-.
    constructor; [exact (Forall_inv demo_fine)|]. constructor; [|exact (Forall_inv_tail (Forall_inv_tail demo_fine))].
    split; [split; [reflexivity|apply (bool_decide_unpack _); vm_compute; exact I0 || exact Logic.I]|]. intros c Hc Hk. repeat (apply elem_of_cons in Hc as [->|Hc]; [try discriminate Hk|]); [|by apply not_elem_of_nil in Hc]. by eexists.
Defined.
End AttrUpdateOk.
