(* ===== verification/Blob.v ===== *)
(** * Blob attributes (src/src/attribute.cpp)

    The blob attributes of a document (strings, multi-value sets, JSON) make up a
    row in a pool of bytes: a byte of flags, the cumulative lengths of the
    attributes with 1, 2 or 4 bytes each, and their data. *)

From S2P Require Import Prelude FileIO DocidLookup RowAttr Schema Sort Zip.
Import FileIO DocidLookup RowAttr Schema Sort Zip.

Module Blob.

Definition BLOB_ROW_LEN_BYTE : Z := 0.
Definition BLOB_ROW_LEN_WORD : Z := 1.
Definition BLOB_ROW_LEN_DWORD : Z := 2.

Definition CalcBlobRowFlags (uTotalLen : Z) : Z :=
  if uTotalLen <? 0xFF then BLOB_ROW_LEN_BYTE
  else if uTotalLen <? 0xFFFF then BLOB_ROW_LEN_WORD
  else BLOB_ROW_LEN_DWORD.

(** The width of a length; the source asserts that the flags are known. *)
Definition RowFlagsToLen (uFlags : Z) : nat :=
  if uFlags =? BLOB_ROW_LEN_BYTE then 1
  else if uFlags =? BLOB_ROW_LEN_WORD then 2
  else if uFlags =? BLOB_ROW_LEN_DWORD then 4
  else 0.

(** ** Building rows *)

(** [uTotalLen += i->GetData().GetLength()] *)
Definition add_len (u : Z) (d : list Z) : Z := cast DWORD (u + Z.of_nat (length d)).

(** The cumulative lengths, cut to the type that is written. *)
Fixpoint put_lengths (n : nat) (u : Z) (dAttrs : list (list Z)) : list Z :=
  match dAttrs with
  | [] => []
  | d :: dAttrs' => let u := add_len u d in le_bytes n u ++ put_lengths n u dAttrs'
  end.

(** The bytes of a row with the given attributes. *)
Definition row_bytes (dAttrs : list (list Z)) : list Z :=
  let uFlags := CalcBlobRowFlags (fold_left add_len dAttrs 0) in
  uFlags :: put_lengths (RowFlagsToLen uFlags) 0 dAttrs ++ concat dAttrs.

(** [BlobRowBuilder_Mem_c::Flush]: the pool, and the offset and the length of
    the row. *)
Definition Flush_mem (dAttrs : list (list Z)) (dPool : list Z) : list Z * (Z * Z) :=
  let tRowOffset := Z.of_nat (length dPool) in
  let dPool := dPool ++ row_bytes dAttrs in
  (dPool, (tRowOffset, Z.of_nat (length dPool) - tRowOffset)).

(** [BlobRowBuilder_File_c]: the file starts with the place of its size. *)
Definition Setup (iBufferSize : Z) (io : list bool) : CSphWriter := PutOffset 0 (OpenFile iBufferSize io).

(** [m_tWriter.PutWord] and the other writes of a length. *)
Fixpoint file_lengths (n : nat) (u : Z) (dAttrs : list (list Z)) (w : CSphWriter) : CSphWriter :=
  match dAttrs with
  | [] => w
  | d :: dAttrs' => let u := add_len u d in
      file_lengths n u dAttrs' (if (n =? 1)%nat then PutByte (cast BYTE u) w else PutBytes (le_bytes n u) w)
  end.

Definition Flush_file (dAttrs : list (list Z)) (w : CSphWriter) : CSphWriter * (Z * Z) :=
  let tRowOffset := m_iPos w in
  let uFlags := CalcBlobRowFlags (fold_left add_len dAttrs 0) in
  let w := PutByte uFlags w in
  let w := file_lengths (RowFlagsToLen uFlags) 0 dAttrs w in
  let w := fold_left (λ w d, PutBytes d w) dAttrs w in
  (w, (tRowOffset, m_iPos w - tRowOffset)).

Definition SeekAndPutOffset (tOffset tValue : Z) (w : CSphWriter) : CSphWriter :=
  let tTotalSize := m_iPos w in
  SeekTo tTotalSize false (PutOffset tValue (SeekTo tOffset false (Flush w))).

(** [Done]: the size goes to the start, and room for updates is left at the end.
    The flag says whether the file was written. *)
Definition Done (tSpaceForUpdates : Z) (w : CSphWriter) : bool * CSphWriter :=
  let tTotalSize := m_iPos w in
  let w := SeekAndPutOffset 0 tTotalSize w in
  let w := SeekTo (tTotalSize + tSpaceForUpdates) true w in
  let w := CloseFile false w in
  (negb (m_bError w), w).

(** ** Reading rows *)

(** [ByteBlob_t]: a pointer into the pool, [None] for the null pointer, and a
    length. *)
Record ByteBlob_t := ByteBlob { b_first : option Z; b_second : Z }.

(** The [i]-th number of width [n] from [pRow] on. *)
Definition row_len (n : nat) (dPool : list Z) (pRow i : Z) : option Z := load n dPool (pRow + i * Z.of_nat n).

(** The length of an attribute: [(int)uLen1-uLen0]. *)
Definition GetBlobAttrLen_T (n : nat) (iBlobAttrId : Z) (dPool : list Z) (pRow : Z) : option Z :=
  uLen1 ← row_len n dPool pRow iBlobAttrId;
  uLen0 ← (if 0 <? iBlobAttrId then row_len n dPool pRow (iBlobAttrId - 1) else Some 0);
  Some (cast int32_t (uLen1 - uLen0)).

Definition GetBlobAttr_T (n : nat) (iBlobAttrId nBlobAttrs : Z) (dPool : list Z) (pRow : Z) : option ByteBlob_t :=
  uLen0 ← (if 0 <? iBlobAttrId then row_len n dPool pRow (iBlobAttrId - 1) else Some 0);
  iLengthBytes ← GetBlobAttrLen_T n iBlobAttrId dPool pRow;
  Some (ByteBlob (if iLengthBytes =? 0 then None else Some (pRow + nBlobAttrs * Z.of_nat n + uLen0)) iLengthBytes).

(** The width of the lengths by the first byte; the source asserts that it is
    known. *)
Definition row_width (dPool : list Z) (pRow : Z) : option nat :=
  uFlags ← load 1 dPool pRow;
  if decide (RowFlagsToLen uFlags = 0)%nat then None else Some (RowFlagsToLen uFlags).

Definition GetBlobAttr (dPool : list Z) (pRow iBlobAttrId nBlobAttrs : Z) : option ByteBlob_t :=
  n ← row_width dPool pRow; GetBlobAttr_T n iBlobAttrId nBlobAttrs dPool (pRow + 1).

Definition GetBlobAttrLen (dPool : list Z) (pRow iBlobAttrId : Z) : option Z :=
  n ← row_width dPool pRow; GetBlobAttrLen_T n iBlobAttrId dPool (pRow + 1).

Definition sphGetBlobTotalLen (dPool : list Z) (pRow nBlobAttrs : Z) : option Z :=
  n ← row_width dPool pRow;
  u ← row_len n dPool (pRow + 1) (nBlobAttrs - 1);
  Some (cast DWORD (u + nBlobAttrs * Z.of_nat n + 1)).

(** The bytes a blob points to. *)
Definition bytes_at (dPool : list Z) (p n : Z) : option (list Z) :=
  if (0 <=? p) && (0 <=? n) && (p + n <=? Z.of_nat (length dPool)) then Some (take (Z.to_nat n) (drop (Z.to_nat p) dPool)) else None.

Definition blob_bytes (dPool : list Z) (b : ByteBlob_t) : option (list Z) :=
  match b_first b with None => Some [] | Some p => bytes_at dPool p (b_second b) end.

(** The 64-bit number [iBlobRowOffset] of the row. *)
Definition GetBlobRowOffset (pDocinfo : list Z) (iBlobRowOffset : Z) : option Z :=
  lo ← item pDocinfo (2 * iBlobRowOffset); hi ← item pDocinfo (2 * iBlobRowOffset + 1);
  Some (cast int64_t (lo + Z.shiftl hi 32)).

Definition sphGetBlobAttr (pDocinfo : list Z) (tLocator : CSphAttrLocator) (dPool : list Z) : option ByteBlob_t :=
  iOffset ← GetBlobRowOffset pDocinfo (m_iBlobRowOffset tLocator);
  GetBlobAttr dPool iOffset (m_iBlobAttrId tLocator) (m_nBlobAttrs tLocator).

Definition sphCopyBlobRow (dDstPool dSrcPool : list Z) (iOffset nBlobs : Z) : option (list Z * Z) :=
  iBlobLen ← sphGetBlobTotalLen dSrcPool iOffset nBlobs;
  row ← bytes_at dSrcPool iOffset iBlobLen;
  Some (dDstPool ++ row, Z.of_nat (length dDstPool)).

(** ** Adding and removing an attribute *)

(** The length and the data of the attribute [i] of an old row. *)
Definition old_attr (dPool : list Z) (pOldRow nBlobs i : Z) : option (Z * list Z) :=
  uLen ← GetBlobAttrLen dPool pOldRow i;
  b ← GetBlobAttr dPool pOldRow i nBlobs;
  d ← blob_bytes dPool b;
  Some (cast DWORD uLen, d).

(** The cumulative lengths of the lengths. *)
Fixpoint cumulative (n : nat) (u : Z) (dAttrLengths : list Z) : list Z :=
  match dAttrLengths with
  | [] => []
  | i :: dAttrLengths' => let u := cast DWORD (u + i) in le_bytes n u ++ cumulative n u dAttrLengths'
  end.

Definition sum_lengths (l : list Z) : Z := fold_left (λ u i, cast DWORD (u + i)) l 0.

(** What is written over the start of the resized row. *)
Definition written_row (l : list (Z * list Z)) : list Z :=
  let uNewFlags := CalcBlobRowFlags (sum_lengths (map fst l)) in
  uNewFlags :: cumulative (RowFlagsToLen uNewFlags) 0 (map fst l) ++ concat (map snd l).

(** The vector after [Resize ( iSize )] with the bytes [l] copied to its start:
    the rest is what the vector held. A copy past the end is out of range. *)
Definition fill_row (iSize : Z) (l rest : list Z) : option (list Z) :=
  if Z.of_nat (length l) <=? iSize then Some (l ++ take (Z.to_nat iSize - length l) (drop (length l) rest ++ replicate (Z.to_nat iSize) 0)) else None.

Definition AddAttrToBlobRowNoData (dPool : list Z) (pOldRow iNumBlobs : Z) (rest : list Z) : option (list Z) :=
  uOldBlobLen ← sphGetBlobTotalLen dPool pOldRow iNumBlobs;
  uFlags ← load 1 dPool pOldRow;
  let uLenSize := Z.of_nat (RowFlagsToLen uFlags) in
  let uAttrLengthSize := uLenSize * iNumBlobs + 1 in
  a ← bytes_at dPool pOldRow uAttrLengthSize;
  b ← bytes_at dPool (pOldRow + uAttrLengthSize - uLenSize) uLenSize;
  c ← bytes_at dPool (pOldRow + uAttrLengthSize) (uOldBlobLen - uAttrLengthSize);
  fill_row (uOldBlobLen + uLenSize) (a ++ b ++ c) rest.

Definition AddAttrToBlobRowWithData (dPool : list Z) (pOldRow iNumBlobs : Z) (pData rest : list Z) : option (list Z) :=
  l ← mapM (old_attr dPool pOldRow iNumBlobs) (seqZ 0 iNumBlobs);
  let l := l ++ [(Z.of_nat (length pData), pData)] in
  let uTotalLength := sum_lengths (map fst l) in
  fill_row (1 + (iNumBlobs + 1) * Z.of_nat (RowFlagsToLen (CalcBlobRowFlags uTotalLength)) + uTotalLength) (written_row l) rest.

Definition AddAttrToBlobRowFirst (pData : list Z) : list Z :=
  let uFlags := CalcBlobRowFlags (Z.of_nat (length pData)) in
  uFlags :: le_bytes (RowFlagsToLen uFlags) (Z.of_nat (length pData)) ++ pData.

(** [pData] is [None] for the null pointer. *)
Definition sphAddAttrToBlobRow (pDocinfo dPool : list Z) (iNumBlobs : Z) (tOldBlobRowLoc : CSphAttrLocator) (pData : option (list Z)) (rest : list Z) : option (list Z) :=
  if iNumBlobs =? 0 then Some (AddAttrToBlobRowFirst (default [] pData))
  else
    pOldRow ← sphGetRowAttr pDocinfo tOldBlobRowLoc;
    match pData with
    | Some d => AddAttrToBlobRowWithData dPool pOldRow iNumBlobs d rest
    | None => AddAttrToBlobRowNoData dPool pOldRow iNumBlobs rest
    end.

Definition sphRemoveAttrFromBlobRow (pDocinfo dPool : list Z) (nBlobs iBlobAttrId : Z) (tBlobRowLoc : CSphAttrLocator) (rest : list Z) : option (list Z) :=
  if nBlobs <=? 1 then Some []
  else
    pOldRow ← sphGetRowAttr pDocinfo tBlobRowLoc;
    uFlags ← load 1 dPool pOldRow;
    l ← mapM (old_attr dPool pOldRow nBlobs) (List.filter (λ i, negb (i =? iBlobAttrId)) (seqZ 0 nBlobs));
    fill_row (1 + (nBlobs - 1) * Z.of_nat (RowFlagsToLen uFlags) + sum_lengths (map fst l)) (written_row l) rest.

(** ** Attributes behind pointers *)

(** A blob with its length in front, as the [_PTR] types have it. *)
Definition sphPackPtrAttr (dBlob : list Z) : option (list Z) :=
  match dBlob with [] => None | _ => Some (ZipValueBE int32_t (Z.of_nat (length dBlob)) ++ dBlob) end.

(** [None] is the null pointer. *)
Definition sphUnpackPtrAttr (pData : option (list Z)) : option (list Z) :=
  match pData with
  | None => Some []
  | Some p => '(n, p) ← UnzipIntBE p; bytes_at p 0 (cast int32_t n)
  end.

(** ** Packing multi-value sets *)

Inductive BlobAttrInput_e := RAW_BYTES | MVA_INT64 | MVA_DWORD.

#[export] Instance BlobAttrInput_eq_dec : EqDecision BlobAttrInput_e.
Proof. solve_decision. Defined.

(** The numbers of a set in memory: unsigned with 4 bytes or signed with 8. *)
Definition mva_values (T : ctype) (d : list Z) : list Z :=
  let n := Z.to_nat (bits T / 8) in
  map (λ i, cast T (le_value (take n (drop (i * n) d)))) (seq 0 (length d / n)).

(** [sphUniq], after the first element [x] *)
Fixpoint sphUniq (x : Z) (l : list Z) : list Z :=
  match l with
  | [] => []
  | y :: l' => if x =? y then sphUniq x l' else y :: sphUniq y l'
  end.

(** [CSphVector::Uniq]; [None] when the sort does not end. *)
Definition Uniq (l : list Z) : option (list Z) :=
  match l with
  | [] => Some []
  | _ => l ← sphSort Z.ltb l; Some (match l with [] => [] | x :: l' => x :: sphUniq x l' end)
  end.

Definition store_values (T : ctype) (l : list Z) : list Z := concat (map (le_bytes (Z.to_nat (bits T / 8))) l).

(** [AttributePacker_MVA_T::SetData] for a type [T] that is not [float]: the data
    of the packer, or [None] inside for an error. *)
Definition MVA_SetData (T : ctype) (bNeedSorting : bool) (pData : list Z) (eInput : BlobAttrInput_e) : option (option (list Z)) :=
  match pData with
  | [] => Some (Some [])
  | _ =>
      match eInput with
      | RAW_BYTES => Some None
      | _ =>
          let IN := if decide (eInput = MVA_INT64) then int64_t else DWORD in
          if negb (Z.of_nat (length pData) mod (bits IN / 8) =? 0) then Some None
          else
            let l := map (cast T) (mva_values IN pData) in
            if bNeedSorting then l ← Uniq l; Some (Some (store_values T l)) else Some (Some (store_values T l))
      end
  end.
End Blob.
