(* ===== verification/BlobOk.v ===== *)
(** * Blob rows: the attributes that were put in come back *)

From stdpp Require Import sorting.
From S2P Require Import Prelude BitCount FileIO DocidLookup DocidLookupOk RowAttr Schema Sort SortOk Zip Blob.
Import FileIO DocidLookup DocidLookupOk RowAttr Schema Sort Zip Blob.

Module BlobOk.

(** ** Numbers in a row *)

Abbreviation len l := (Z.of_nat (length l)).

Lemma stored_length n (l : list Z) : length (concat (map (le_bytes n) l)) = (length l * n)%nat.
Proof. induction l as [|v l IH]; cbn [map concat length]; [done|]. rewrite length_app, le_bytes_length, IH. lia. Qed.

Lemma load_nth n pre (l : list Z) post i v : l !! i = Some v ->
  load n (pre ++ concat (map (le_bytes n) l) ++ post) (len pre + Z.of_nat i * Z.of_nat n) = Some (v mod 256 ^ Z.of_nat n).
Proof.
  intros E. apply list_elem_of_split_length in E as (l1 & l2 & -> & ->). rewrite map_app, concat_app. cbn [map concat].
  rewrite <- !app_assoc. replace (len pre + len l1 * Z.of_nat n) with (len (pre ++ concat (map (le_bytes n) l1))) by (rewrite length_app, stored_length; lia).
  rewrite (app_assoc pre). apply load_at.
Qed.

(** The cumulative lengths as numbers. *)
Fixpoint sums (u : Z) (d : list (list Z)) : list Z := match d with [] => [] | x :: d' => (u + len x) :: sums (u + len x) d' end.

Definition total (d : list (list Z)) : Z := len (concat d).

Lemma sums_length d : ∀ u, length (sums u d) = length d.
Proof. induction d; intros u; cbn; auto. Qed.

Lemma total_cons x d : total (x :: d) = len x + total d.
Proof. unfold total. cbn [concat]. rewrite length_app. lia. Qed.

Lemma total_app a b : total (a ++ b) = total a + total b.
Proof. unfold total. rewrite concat_app, length_app. lia. Qed.

Lemma sums_nth d : ∀ u i, (i < length d)%nat -> sums u d !! i = Some (u + total (take (S i) d)).
Proof.
  induction d as [|x d IH]; intros u [|i] Hi; cbn [length] in Hi; try lia.
  - cbn [sums take]. rewrite total_cons, take_0. change (total []) with 0. cbn. f_equal. lia.
  - cbn [sums]. change ((u + len x :: sums (u + len x) d) !! S i) with (sums (u + len x) d !! i). rewrite IH by lia. f_equal. cbn [take]. rewrite total_cons. lia.
Qed.

Lemma total_nonneg d : 0 <= total d.
Proof. unfold total. lia. Qed.

Lemma total_take d i : total (take i d) <= total d.
Proof. rewrite <- (take_drop i d) at 2. rewrite total_app. pose proof (total_nonneg (drop i d)). lia. Qed.

Lemma total_take_S d i x : d !! i = Some x -> total (take (S i) d) = total (take i d) + len x.
Proof. intros E. rewrite (take_S_r _ _ x) by done. rewrite total_app. unfold total at 2. cbn. rewrite app_nil_r. lia. Qed.

(** ** A row in a pool *)

(** At [p] the pool holds a row with the attributes [d]. *)
Definition row_at (pool : list Z) (p : Z) (d : list (list Z)) : Prop :=
  ∃ pre post uFlags, pool = pre ++ (uFlags :: concat (map (le_bytes (RowFlagsToLen uFlags)) (sums 0 d)) ++ concat d) ++ post /\ p = len pre /\
    0 <= uFlags <= 2 /\ total d < 256 ^ Z.of_nat (RowFlagsToLen uFlags) /\ total d < 2 ^ 31 /\ len d < 2 ^ 28 /\ uFlags = CalcBlobRowFlags (total d).

Lemma flags_width f : 0 <= f <= 2 -> RowFlagsToLen f ≠ 0%nat.
Proof. intros H. assert (f = 0 \/ f = 1 \/ f = 2) as [->|[->| ->]] by lia; done. Qed.

Lemma flags_fit u : 0 <= u < 2 ^ 32 -> 0 <= CalcBlobRowFlags u <= 2 /\ u < 256 ^ Z.of_nat (RowFlagsToLen (CalcBlobRowFlags u)).
Proof.
  intros H. unfold CalcBlobRowFlags, BLOB_ROW_LEN_BYTE, BLOB_ROW_LEN_WORD, BLOB_ROW_LEN_DWORD. pose proof (eq_refl : 256 ^ Z.of_nat (RowFlagsToLen 0) = 2 ^ 8).
  pose proof (eq_refl : 256 ^ Z.of_nat (RowFlagsToLen 1) = 2 ^ 16). pose proof (eq_refl : 256 ^ Z.of_nat (RowFlagsToLen 2) = 2 ^ 32).
  destruct (Z.ltb_spec u 0xFF); [lia|]. destruct (Z.ltb_spec u 0xFFFF); lia.
Qed.

Section Row.
Variables (pool : list Z) (p : Z) (d : list (list Z)).
Hypothesis H : row_at pool p d.
Abbreviation n_ := (len d).

Lemma row_width_ok : ∃ n, row_width pool p = Some n /\ (0 < n)%nat /\ (∀ i, (i < length d)%nat -> row_len n pool (p + 1) (Z.of_nat i) = Some (total (take (S i) d))) /\
  ∀ q m, 0 <= q -> 0 <= m -> q + m <= total d -> bytes_at pool (p + 1 + n_ * Z.of_nat n + q) m = Some (take (Z.to_nat m) (drop (Z.to_nat q) (concat d))).
Proof.
  destruct H as (pre & post & f & E & Ep & Hf & Ht & Ht2 & _). exists (RowFlagsToLen f). pose proof (flags_width f Hf) as W. subst pool p.
  set (n := RowFlagsToLen f) in *. split; [|split; [lia|split]].
  - unfold row_width. assert (load 1 (pre ++ (f :: concat (map (le_bytes n) (sums 0 d)) ++ concat d) ++ post) (len pre) = Some f) as ->.
    { replace (pre ++ (f :: concat (map (le_bytes n) (sums 0 d)) ++ concat d) ++ post) with (pre ++ concat (map (le_bytes 1) [f]) ++ (concat (map (le_bytes n) (sums 0 d)) ++ concat d) ++ post).
      - pose proof (load_nth 1 pre [f] ((concat (map (le_bytes n) (sums 0 d)) ++ concat d) ++ post) 0 f eq_refl) as L. replace (len pre) with (len pre + Z.of_nat 0 * Z.of_nat 1) at 1 by lia. rewrite L. f_equal. apply Z.mod_small. change (256 ^ Z.of_nat 1) with 256. lia.
      - cbn [map concat]. unfold le_bytes at 1. rewrite app_nil_r. rewrite (Z.mod_small f) by lia. reflexivity. }
    cbn [mbind option_bind]. by rewrite decide_False.
  - intros i Hi. unfold row_len. pose proof (sums_nth d 0 i Hi) as Es. pose proof (load_nth n (pre ++ [f]) (sums 0 d) (concat d ++ post) i _ Es) as L.
    rewrite length_app in L. cbn [length] in L. replace (len pre + 1) with (Z.of_nat (length pre + 1)) by lia.
    replace (pre ++ (f :: concat (map (le_bytes n) (sums 0 d)) ++ concat d) ++ post) with ((pre ++ [f]) ++ concat (map (le_bytes n) (sums 0 d)) ++ concat d ++ post) by (rewrite <- !app_assoc; cbn [app]; by rewrite <- !app_assoc).
    rewrite L. f_equal. apply Z.mod_small. pose proof (total_take d (S i)). pose proof (total_nonneg (take (S i) d)). lia.
  - intros q m Hq Hm Hqm. unfold bytes_at.
    replace (pre ++ (f :: concat (map (le_bytes n) (sums 0 d)) ++ concat d) ++ post) with ((pre ++ f :: concat (map (le_bytes n) (sums 0 d))) ++ concat d ++ post) by (rewrite <- !app_assoc; cbn [app]; by rewrite <- !app_assoc).
    set (h := pre ++ f :: _). assert (len h = len pre + 1 + n_ * Z.of_nat n) as <- by (unfold h; rewrite length_app; cbn [length]; rewrite stored_length, sums_length; lia).
    rewrite !length_app. unfold total in Hqm. rewrite (proj2 (Z.leb_le 0 _)), (proj2 (Z.leb_le 0 m)), (proj2 (Z.leb_le _ _)) by lia. cbn [andb].
    f_equal. replace (Z.to_nat (len h + q)) with (length h + Z.to_nat q)%nat by lia. rewrite <- drop_drop, drop_app_length.
    rewrite drop_app_le by lia. rewrite take_app_le; [done|]. rewrite length_drop. lia.
Qed.

Lemma attr_ok i x : d !! i = Some x -> GetBlobAttrLen pool p (Z.of_nat i) = Some (len x) /\
  ∃ b, GetBlobAttr pool p (Z.of_nat i) n_ = Some b /\ b_second b = len x /\ blob_bytes pool b = Some x /\ (b_first b = None <-> x = []).
Proof.
  intros E. destruct row_width_ok as (n & W & Wp & R & B). pose proof (lookup_lt_Some _ _ _ E) as Hi. pose proof (total_take_S d i x E) as T.
  assert (total (take (S i) d) <= total d) as Hl by apply total_take. destruct H as (_ & _ & _ & _ & _ & _ & _ & Hb & _). pose proof (total_nonneg (take i d)) as Hn.
  assert (((if 0 <? Z.of_nat i then row_len n pool (p + 1) (Z.of_nat i - 1) else Some 0)) = Some (total (take i d))) as R0.
  { destruct (Z.ltb_spec 0 (Z.of_nat i)) as [L|L]; [|by replace i with 0%nat by lia]. replace (Z.of_nat i - 1) with (Z.of_nat (i - 1)) by lia. rewrite R by lia. do 3 f_equal. lia. }
  assert (GetBlobAttrLen_T n (Z.of_nat i) pool (p + 1) = Some (len x)) as G.
  { unfold GetBlobAttrLen_T. rewrite R, R0 by done. cbn [mbind option_bind]. rewrite T. f_equal. replace (_ + len x - _) with (len x) by lia. apply cast_id; [done|]. unfold in_type. cbn. lia. }
  split; [unfold GetBlobAttrLen; by rewrite W|]. unfold GetBlobAttr. rewrite W. cbn [mbind option_bind]. unfold GetBlobAttr_T. rewrite R0, G. cbn [mbind option_bind].
  eexists. split; [done|]. cbn [b_second b_first]. split; [done|]. unfold blob_bytes. cbn [b_first b_second].
  destruct x as [|y x']; [done|]. destruct (Z.eqb_spec (len (y :: x')) 0) as [?|_]; [done|]. split; [|done]. rewrite B by lia. f_equal.
  assert (concat d = concat (take i d) ++ (y :: x') ++ concat (drop (S i) d)) as -> by (rewrite <- (take_drop_middle d i _ E) at 1; rewrite concat_app; done).
  unfold total. rewrite !Nat2Z.id, drop_app_length, take_app_le by lia. by apply firstn_all.
Qed.

Lemma old_attr_ok i x : d !! i = Some x -> old_attr pool p n_ (Z.of_nat i) = Some (len x, x).
Proof.
  intros E. destruct (attr_ok i x E) as (G & b & Gb & _ & Bb & _). unfold old_attr. rewrite G, Gb. cbn [mbind option_bind]. rewrite Bb. cbn [mbind option_bind].
  rewrite cast_id; [done|done|]. destruct H as (_ & _ & _ & _ & _ & _ & _ & Hb & _). pose proof (total_take_S d i x E). pose proof (total_take d (S i)). pose proof (total_nonneg (take i d)).
  unfold in_type. cbn. lia.
Qed.

(** The whole row. *)
Lemma whole_row : d ≠ [] -> let uFlags := CalcBlobRowFlags (total d) in load 1 pool p = Some uFlags /\
  let row := uFlags :: concat (map (le_bytes (RowFlagsToLen uFlags)) (sums 0 d)) ++ concat d in
  sphGetBlobTotalLen pool p n_ = Some (len row) /\ ∀ q m, 0 <= q -> 0 <= m -> q + m <= len row -> bytes_at pool (p + q) m = Some (take (Z.to_nat m) (drop (Z.to_nat q) row)).
Proof.
  intros Hd. destruct row_width_ok as (n & W & Wp & R & _). destruct H as (pre & post & f & E & Ep & Hf & Ht & Hb & Hn & Ef). cbv zeta. rewrite <- Ef.
  unfold row_width in W. destruct (load 1 pool p) as [f'|] eqn:L; [|done]. cbn [mbind option_bind] in W.
  assert (f' = f) as ->.
  { pose proof (load_nth 1 pre [f] ((concat (map (le_bytes (RowFlagsToLen f)) (sums 0 d)) ++ concat d) ++ post) 0 f eq_refl) as L2. cbn [map concat] in L2. unfold le_bytes in L2 at 1.
    rewrite app_nil_r, (Z.mod_small f 256), (Z.mod_small f) in L2 by (change (256 ^ Z.of_nat 1) with 256; lia).
    subst pool p. replace (len pre + Z.of_nat 0 * Z.of_nat 1) with (len pre) in L2 by lia. cbn [app] in L2, L. rewrite L in L2. by injection L2. }
  split; [done|]. case_decide as D; [done|]. injection W as <-. set (n := RowFlagsToLen f) in *. set (row := f :: concat (map (le_bytes n) (sums 0 d)) ++ concat d).
  assert (len row = 1 + n_ * Z.of_nat n + total d) as Lr by (unfold row; cbn [length]; rewrite length_app, stored_length, sums_length; unfold total; lia).
  assert (Z.of_nat n <= 4) as N4 by (unfold n, RowFlagsToLen; repeat case_match; lia). split.
  - unfold sphGetBlobTotalLen, row_width. rewrite L. cbn [mbind option_bind]. fold n. rewrite decide_False by done. cbn [mbind option_bind].
    replace (n_ - 1) with (Z.of_nat (length d - 1)) by (destruct d; [done|cbn; lia]). rewrite R by (destruct d; [done|cbn; lia]). cbn [mbind option_bind]. f_equal.
    rewrite take_ge by lia. rewrite Lr, cast_id; [lia|done|]. pose proof (total_nonneg d). unfold in_type. cbn. nia.
  - intros q m Hq Hm Hqm. unfold bytes_at. subst pool p. fold row. rewrite !length_app.
    rewrite (proj2 (Z.leb_le 0 (_ + q))), (proj2 (Z.leb_le 0 m)), (proj2 (Z.leb_le _ _)) by lia. cbn [andb]. f_equal.
    replace (Z.to_nat (len pre + q)) with (length pre + Z.to_nat q)%nat by lia. rewrite <- drop_drop, drop_app_length, drop_app_le by lia. rewrite take_app_le; [done|]. rewrite length_drop. lia.
Qed.
End Row.

(** ** Written rows *)

Lemma put_lengths_sums n d : ∀ u, 0 <= u -> u + total d < 2 ^ 32 -> put_lengths n u d = concat (map (le_bytes n) (sums u d)) /\ fold_left add_len d u = u + total d.
Proof.
  induction d as [|x d IH]; intros u Hu Ht; [split; [done|]; cbn; unfold total; cbn; lia|]. rewrite total_cons in *. pose proof (total_nonneg d).
  assert (add_len u x = u + len x) as E by (unfold add_len; apply cast_id; [done|]; unfold in_type; cbn; lia).
  cbn [put_lengths sums map concat fold_left]. rewrite E. destruct (IH (u + len x)) as [-> ->]; [lia|lia|]. split; [done|lia].
Qed.

Lemma row_bytes_sums d : total d < 2 ^ 31 -> row_bytes d = CalcBlobRowFlags (total d) :: concat (map (le_bytes (RowFlagsToLen (CalcBlobRowFlags (total d)))) (sums 0 d)) ++ concat d.
Proof.
  intros Ht. destruct (put_lengths_sums (RowFlagsToLen (CalcBlobRowFlags (total d))) d 0) as [E1 E2]; [lia|lia|]. unfold row_bytes. by rewrite E2, Z.add_0_l, E1.
Qed.

Lemma row_bytes_at pre post d : total d < 2 ^ 31 -> len d < 2 ^ 28 -> row_at (pre ++ row_bytes d ++ post) (len pre) d.
Proof.
  intros Ht Hn. exists pre, post, (CalcBlobRowFlags (total d)). rewrite row_bytes_sums by done. pose proof (total_nonneg d). destruct (flags_fit (total d)) as [F1 F2]; [lia|]. done.
Qed.

Definition with_lengths (d : list (list Z)) : list (Z * list Z) := map (λ x, (len x, x)) d.

Lemma written_lengths d : sum_lengths (map fst (with_lengths d)) = fold_left add_len d 0 /\ written_row (with_lengths d) = row_bytes d.
Proof.
  assert (∀ u, fold_left (λ u i, cast DWORD (u + i)) (map fst (with_lengths d)) u = fold_left add_len d u) as S1 by (clear; induction d as [|x d IH]; intros u; [done|]; apply IH).
  assert (∀ n u, cumulative n u (map fst (with_lengths d)) = put_lengths n u d) as S2 by (clear; intros n; induction d as [|x d IH]; intros u; [done|]; cbn; f_equal; apply IH).
  assert (map snd (with_lengths d) = d) as S3 by (unfold with_lengths; rewrite map_map; apply map_id). unfold sum_lengths. split; [apply S1|]. unfold written_row, sum_lengths, row_bytes. by rewrite S1, S2, S3.
Qed.

Lemma fill_blob_ok iSize l rest : len l <= iSize -> ∃ tail, fill_row iSize l rest = Some (l ++ tail) /\ len (l ++ tail) = iSize.
Proof.
  intros Hl. unfold fill_row. rewrite (proj2 (Z.leb_le _ _)) by done. eexists. split; [done|]. rewrite length_app, length_take, length_app, length_replicate. lia.
Qed.

Lemma nth_seq {A} (l : list A) x m : ∀ k, (k + m <= length l)%nat -> map (λ j, nth j l x) (seq k m) = take m (drop k l).
Proof.
  induction m as [|m IH]; intros k Hk; [done|]. cbn [seq map]. rewrite IH by lia. destruct (lookup_lt_is_Some_2 l k) as [y E]; [lia|].
  rewrite (drop_S l y k E). cbn [take]. f_equal. by apply nth_lookup_Some.
Qed.

Lemma others {A} (l : list A) x i : (i < length l)%nat -> map (λ j, nth j l x) (List.filter (λ j, negb (j =? i)%nat) (seq 0 (length l))) = delete i l.
Proof.
  intros Hi. replace (length l) with (i + S (length l - S i))%nat by lia. rewrite seq_app. cbn [seq Nat.add]. rewrite List.filter_app. cbn [List.filter]. rewrite Nat.eqb_refl. cbn [negb].
  assert (∀ k m, (k + m <= i \/ i < k)%nat -> List.filter (λ j, negb (j =? i)%nat) (seq k m) = seq k m) as F.
  { intros k m Hk. apply List.forallb_filter_id, forallb_forall. intros j Hj%in_seq. apply negb_true_iff, Nat.eqb_neq. lia. }
  rewrite !F by lia. rewrite map_app, !nth_seq by lia. rewrite drop_0, delete_take_drop. f_equal. rewrite take_ge; [done|]. rewrite length_drop. lia.
Qed.

Lemma old_attrs pool p d idx : row_at pool p d -> Forall (λ j, (j < length d)%nat) idx ->
  mapM (old_attr pool p (len d)) (map Z.of_nat idx) = Some (with_lengths (map (λ j, nth j d []) idx)).
Proof.
  intros H F. induction F as [|j idx Hj _ IH]; [done|]. cbn [map mapM]. destruct (lookup_lt_is_Some_2 d j Hj) as [x E].
  rewrite (old_attr_ok pool p d H j x E). cbn [mbind option_bind]. rewrite IH. cbn [mbind option_bind]. rewrite (nth_lookup_Some _ _ _ _ E). done.
Qed.

(** ** The file of the rows *)

Lemma byte_evolves b w : evolves w (PutByte b w).
Proof. intros Hs. split; [|apply PutByte_error]. unfold PutByte. case_match; cbn; rewrite ?Flush_size; done. Qed.

(** [w'] has the bytes of [w] with [bs] at the end. *)
Definition appends (w w' : CSphWriter) (bs : list Z) : Prop :=
  evolves w w' /\ ∀ f, holds w f (length f) -> holds w' (f ++ bs) (length (f ++ bs)).

Lemma appends_nil w : appends w w [].
Proof. split; [done|]. intros f Hf. by rewrite app_nil_r. Qed.

Lemma appends_trans w1 w2 w3 a b : appends w1 w2 a -> appends w2 w3 b -> appends w1 w3 (a ++ b).
Proof. intros [E1 H1] [E2 H2]. split; [by etransitivity|]. intros f Hf. rewrite app_assoc. by apply H2, H1. Qed.

Lemma bytes_append bs w : appends w (PutBytes bs w) bs.
Proof. split; [apply put_evolves|]. intros f. apply DocidLookupWrite.put_end_holds. Qed.

Lemma byte_append b w : appends w (PutByte b w) [b].
Proof. split; [apply byte_evolves|]. intros f Hf. rewrite <- overlay_end at 1. rewrite length_app. by apply PutByte_ok. Qed.

Lemma file_lengths_append n d : ∀ u w, appends w (file_lengths n u d w) (put_lengths n u d).
Proof.
  induction d as [|x d IH]; intros u w; [apply appends_nil|]. cbn [file_lengths put_lengths]. eapply appends_trans; [|apply IH].
  destruct (Nat.eqb_spec n 1) as [->|]; [|apply bytes_append]. apply byte_append.
Qed.

Lemma data_append d : ∀ w, appends w (fold_left (λ w x, PutBytes x w) d w) (concat d).
Proof. induction d as [|x d IH]; intros w; [apply appends_nil|]. cbn [fold_left concat]. eapply appends_trans; [apply bytes_append|apply IH]. Qed.

Lemma flush_append d w : appends w (fst (Flush_file d w)) (row_bytes d).
Proof.
  unfold Flush_file, row_bytes. cbn [fst]. eapply (appends_trans _ _ _ [_]); [apply byte_append|]. eapply appends_trans; [apply file_lengths_append|apply data_append].
Qed.

(** A file of rows. *)
Fixpoint flush_rows (rows : list (list (list Z))) (w : CSphWriter) : CSphWriter * list (Z * Z) :=
  match rows with
  | [] => (w, [])
  | d :: rows' => let '(w, o) := Flush_file d w in let '(w, os) := flush_rows rows' w in (w, o :: os)
  end.

Definition row_fits (d : list (list Z)) : Prop := total d < 2 ^ 31 /\ len d < 2 ^ 28.

Lemma flush_rows_ok rows : ∀ w f, holds w f (length f) -> Forall row_fits rows -> let '(w', os) := flush_rows rows w in
  appends w w' (concat (map row_bytes rows)) /\
  (m_bError w' = false -> ∀ g, Forall2 (λ d '(off, n), n = len (row_bytes d) /\ row_at (f ++ concat (map row_bytes rows) ++ g) off d /\ len f <= off) rows os).
Proof.
  induction rows as [|d rows IH]; intros w f Hw Hr; [split; [apply appends_nil|constructor]|]. inversion Hr as [|? ? [Hd1 Hd2] Hr']; subst. cbn [flush_rows map concat].
  pose proof (flush_append d w) as A. destruct (Flush_file d w) as [w1 [off n]] eqn:E. cbn [fst] in A. pose proof (proj2 A f Hw) as H1. specialize (IH w1 _ H1 Hr').
  destruct (flush_rows rows w1) as [w2 os]. destruct IH as [A2 G]. split; [by eapply appends_trans|]. intros He g. specialize (G He g).
  pose proof (proj2 (proj1 A2 (proj1 H1)) He) as He1. pose proof (proj2 (proj1 A (proj1 Hw)) He1) as He0.
  assert (off = m_iPos w /\ n = m_iPos w1 - m_iPos w) as [-> ->] by (unfold Flush_file in E; injection E as <- <- <-; done).
  pose proof (DocidLookupWrite.holds_pos _ _ _ H1 He1) as P1. pose proof (DocidLookupWrite.holds_pos _ _ _ Hw He0) as P0.
  constructor.
  - rewrite P1, P0, length_app. split; [lia|]. split; [|lia]. rewrite <- app_assoc. by apply row_bytes_at.
  - rewrite <- !app_assoc in G. eapply Forall2_impl; [exact G|]. intros d' [o n']. rewrite length_app, <- !app_assoc. intros (? & ? & ?). split; [done|]. split; [done|lia].
Qed.

Lemma patch_evolves o v w : evolves w (SeekAndPutOffset o v w).
Proof.
  unfold SeekAndPutOffset, PutOffset. generalize (le_bytes 8 v), (m_iPos w). intros bs p. etransitivity; [exact (flush_evolves w)|]. etransitivity; [exact (seek_evolves o false _)|].
  etransitivity; [exact (put_evolves bs _)|]. exact (seek_evolves p false _).
Qed.

Lemma patch_ok v w m t : length m = 8%nat -> holds w (m ++ t) (length (m ++ t)) -> m_bError w = false -> holds (SeekAndPutOffset 0 v w) (le_bytes 8 v ++ t) (length (le_bytes 8 v ++ t)).
Proof.
  intros Lm Hw He. unfold SeekAndPutOffset. rewrite (DocidLookupWrite.holds_pos _ _ _ Hw He). pose proof (Flush_from _ _ _ Hw) as H1.
  pose proof (SeekTo_from 0 _ _ _ _ H1 ltac:(lia)) as H2. rewrite length_app in H2. specialize (H2 ltac:(lia)). rewrite bool_decide_false in H2 by lia.
  pose proof (DocidLookupWrite.offset_mid v _ [] m t _ Lm H2) as H3. cbn [app] in H3. assert (length (m ++ t) = length (le_bytes 8 v ++ t)) as -> by (rewrite !length_app, le_bytes_length; lia).
  refine (proj1 (SeekTo_from _ _ _ _ _ H3 (Nat.le_refl _) _)). right. rewrite length_app. lia.
Qed.

Lemma close_ok w f p : holds w f p -> m_bError (CloseFile false w) = false -> m_bError w = false /\ w_disk (CloseFile false w) = f.
Proof.
  intros Hw He. split; [|by apply (CloseFile_ok w f p)]. unfold CloseFile in He. cbn [m_bError] in He. by apply Flush_error in He.
Qed.

Lemma close_error w : m_bError (CloseFile false w) = false -> m_bError w = false.
Proof. unfold CloseFile. cbn [m_bError]. apply Flush_error. Qed.

Lemma Done_ok space w t : 0 <= space -> holds w (le_bytes 8 0 ++ t) (length (le_bytes 8 0 ++ t)) -> fst (Done space w) = true ->
  m_bError w = false /\ w_disk (snd (Done space w)) = le_bytes 8 (len (le_bytes 8 0 ++ t)) ++ t ++ replicate (Z.to_nat space) 0.
Proof.
  intros Hsp Hw. unfold Done. cbn [fst snd]. intros Ok%negb_true_iff. pose proof (close_error _ Ok) as E2.
  pose proof (proj2 (transitivity (patch_evolves 0 (m_iPos w) w) (seek_evolves (m_iPos w + space) true _) (proj1 Hw)) E2) as E0. split; [done|].
  pose proof (DocidLookupWrite.holds_pos _ _ _ Hw E0) as P0. pose proof (patch_ok (m_iPos w) w _ t (le_bytes_length 8 0) Hw E0) as H1.
  assert (length (le_bytes 8 (m_iPos w) ++ t) = length (le_bytes 8 0 ++ t)) as El by (rewrite !length_app, !le_bytes_length; lia).
  pose proof (SeekTo_grow (length (le_bytes 8 0 ++ t) + Z.to_nat space) _ _ H1) as H2. rewrite El in H2. specialize (H2 ltac:(lia)).
  assert (Z.of_nat (length (le_bytes 8 0 ++ t) + Z.to_nat space) = m_iPos w + space) as Ep by lia. rewrite Ep in H2.
  rewrite (proj2 (close_ok _ _ _ H2 Ok)), <- app_assoc, P0. replace (length (le_bytes 8 0 ++ t) + Z.to_nat space - length (le_bytes 8 0 ++ t))%nat with (Z.to_nat space) by lia. reflexivity.
Qed.

Lemma row_at_behind m m' t off d : length m' = length m -> len m <= off -> row_at (m ++ t) off d -> row_at (m' ++ t) off d.
Proof.
  intros Lm Ho (pre & post & f & E & -> & R). assert (∃ pre2, pre = m ++ pre2) as [pre2 ->].
  { exists (drop (length m) pre). rewrite <- (take_drop (length m) pre) at 1. f_equal. assert (take (length m) (m ++ t) = take (length m) (pre ++ (f :: concat (map (le_bytes (RowFlagsToLen f)) (sums 0 d)) ++ concat d) ++ post)) as T by (by rewrite E).
    rewrite take_app_length, take_app_le in T by lia. done. }
  rewrite <- app_assoc in E. apply app_inv_head in E. exists (m' ++ pre2), post, f. split; [rewrite <- app_assoc; by f_equal|]. split; [rewrite !length_app; lia|done].
Qed.

(** [C29] The blob file keeps the blobs: rows flushed through the builder of the
    blob file, whatever the buffer of the writer, and closed without an error
    are found at the offsets that [Flush] returned. Every attribute of every row
    comes back with its length and its bytes, the length of the whole row is
    that of the row, and the file starts with its size before the space for
    updates. *)
Theorem blob_file_roundtrip rows iBufferSize io space : 0 < iBufferSize -> 0 <= space -> Forall row_fits rows ->
  let '(w, offsets) := flush_rows rows (Setup iBufferSize io) in let '(ok, w') := Done space w in ok = true ->
  len (w_disk w') < 2 ^ 63 ->
  load_offset (w_disk w') 0 = Some (len (w_disk w') - space) /\
  Forall2 (λ d '(off, n), (d ≠ [] -> sphGetBlobTotalLen (w_disk w') off (len d) = Some n) /\
    ∀ i x, d !! i = Some x -> GetBlobAttrLen (w_disk w') off (Z.of_nat i) = Some (len x) /\
      ∃ b, GetBlobAttr (w_disk w') off (Z.of_nat i) (len d) = Some b /\ b_second b = len x /\ blob_bytes (w_disk w') b = Some x) rows offsets.
Proof.
  intros Hb Hsp Hr. assert (holds (Setup iBufferSize io) (le_bytes 8 0) (length (le_bytes 8 0))) as H0.
  { apply (DocidLookupWrite.put_end_holds _ _ []). split; [done|]. intros _. split; [split; cbn; lia|done]. }
  pose proof (flush_rows_ok rows _ _ H0 Hr) as F. destruct (flush_rows rows (Setup iBufferSize io)) as [w os]. destruct F as [[_ A] G].
  pose proof (Done_ok space w _ Hsp (A _ H0)) as D. destruct (Done space w) as [ok w']. cbn [fst snd] in D. intros Ok Hsize. destruct (D Ok) as [He Ed]. set (body := concat (map row_bytes rows)) in *.
  rewrite Ed in *. set (size := len (le_bytes 8 0 ++ body)) in *. split.
  - pose proof (load_offset_at [] size (body ++ replicate (Z.to_nat space) 0)) as L. cbn [app length] in L. change (Z.of_nat 0) with 0 in L. rewrite L.
    + f_equal. unfold size. rewrite !length_app, length_replicate, !le_bytes_length. lia.
    + unfold in_type. cbn. unfold size in *. rewrite !length_app, !le_bytes_length in *. lia.
  - specialize (G He (replicate (Z.to_nat space) 0)). eapply Forall2_impl; [exact G|]. intros d [off n] (-> & R & Ho). rewrite le_bytes_length in Ho.
    apply (row_at_behind _ (le_bytes 8 size)) in R; [|by rewrite !le_bytes_length|by rewrite le_bytes_length]. split.
    + intros Hd. destruct (whole_row _ _ _ R Hd) as (_ & T & _). rewrite T, row_bytes_sums; [done|]. by destruct R as (_ & _ & _ & _ & _ & _ & _ & ? & _).
    + intros i x E. destruct (attr_ok _ _ _ R i x E) as (L & b & G1 & G2 & G3 & _). eauto 10.
Qed.

(** ** Rows of altered tables *)

(** Every attribute of the row at [p] reads as given. *)
Definition holds_blobs (pool : list Z) (p : Z) (d : list (list Z)) : Prop :=
  ∀ i x, d !! i = Some x -> ∃ b, GetBlobAttr pool p (Z.of_nat i) (len d) = Some b /\ b_second b = len x /\ blob_bytes pool b = Some x.

Lemma row_reads pool p d : row_at pool p d -> holds_blobs pool p d.
Proof. intros R i x E. destruct (attr_ok _ _ _ R i x E) as (_ & b & G1 & G2 & G3 & _). eauto. Qed.

Lemma row_alone tail d : row_fits d -> row_at (row_bytes d ++ tail) 0 d.
Proof. intros [H1 H2]. apply (row_bytes_at []); done. Qed.

Lemma sums_app d e : ∀ u, sums u (d ++ e) = sums u d ++ sums (u + total d) e.
Proof.
  induction d as [|x d IH]; intros u; cbn [sums app]; [unfold total; cbn; by rewrite Z.add_0_r|]. rewrite IH, total_cons. by rewrite Z.add_assoc.
Qed.

Lemma written_ok d size rest : row_fits d -> 1 + len d * Z.of_nat (RowFlagsToLen (CalcBlobRowFlags (total d))) + total d <= size ->
  sum_lengths (map fst (with_lengths d)) = total d /\ ∃ row, fill_row size (written_row (with_lengths d)) rest = Some row /\ row_at row 0 d.
Proof.
  intros Hd Hs. destruct (written_lengths d) as [-> ->]. destruct Hd as [Ht Hn]. destruct (put_lengths_sums 0 d 0) as [_ ->]; [lia|lia|]. split; [done|].
  destruct (fill_blob_ok size (row_bytes d) rest) as (tail & -> & _).
  { rewrite row_bytes_sums by done. cbn [length]. rewrite length_app, stored_length, sums_length. unfold total in *. lia. }
  eexists. split; [done|]. by apply row_alone.
Qed.

Lemma with_lengths_app a b : with_lengths (a ++ b) = with_lengths a ++ with_lengths b.
Proof. apply map_app. Qed.

Lemma total_drop_nil d : total (d ++ [[]]) = total d.
Proof. rewrite total_app. unfold total at 2. cbn. lia. Qed.

Lemma add_no_data pool p d rest : d ≠ [] -> row_at pool p d -> row_fits (d ++ [[]]) -> ∃ row, AddAttrToBlobRowNoData pool p (len d) rest = Some row /\ row_at row 0 (d ++ [[]]).
Proof.
  intros Hd R Hf. destruct (whole_row _ _ _ R Hd) as (L & T & B). set (n := RowFlagsToLen (CalcBlobRowFlags (total d))) in *. set (row := CalcBlobRowFlags (total d) :: _) in *.
  unfold AddAttrToBlobRowNoData. rewrite T, L. cbn [mbind option_bind]. fold n.
  assert (∃ e x, d = e ++ [x]) as (e & x & Ex) by (destruct d as [|? ? _] using rev_ind; [done|eauto]).
  assert (sums 0 d = sums 0 e ++ [total d]) as Es by (rewrite Ex, sums_app; cbn [sums]; rewrite total_app; unfold total at 3; cbn; by rewrite app_nil_r).
  set (a := CalcBlobRowFlags (total d) :: concat (map (le_bytes n) (sums 0 e))). set (b := le_bytes n (total d)).
  assert (row = (a ++ b) ++ concat d) as Er by (unfold row, a, b; rewrite Es, map_app, concat_app; cbn [map concat]; rewrite app_nil_r; cbn [app]; by rewrite <- !app_assoc).
  assert (len d = len e + 1) as Ld by (rewrite Ex, length_app; cbn; lia). assert (length b = n) as Lb by apply le_bytes_length.
  assert (length a = (1 + length e * n)%nat) as La by (unfold a; cbn [length]; rewrite stored_length, sums_length; lia).
  assert (len row = len a + len b + total d) as Lr by (rewrite Er, !length_app; unfold total; lia). pose proof (total_nonneg d).
  replace (bytes_at pool p (Z.of_nat n * len d + 1)) with (Some (a ++ b)).
  2: { replace p with (p + 0) at 1 by lia. rewrite B by lia. change (Z.to_nat 0) with 0%nat. rewrite drop_0, Er, take_app_le, firstn_all2; [done|rewrite length_app; lia|rewrite length_app; lia]. }
  replace (bytes_at pool (p + (Z.of_nat n * len d + 1) - Z.of_nat n) (Z.of_nat n)) with (Some b).
  2: { replace (p + (Z.of_nat n * len d + 1) - Z.of_nat n) with (p + len a) by lia. rewrite B by lia. rewrite Er, <- app_assoc, !Nat2Z.id, drop_app_length, take_app_le, firstn_all2; [done|lia|lia]. }
  replace (bytes_at pool (p + (Z.of_nat n * len d + 1)) (len row - (Z.of_nat n * len d + 1))) with (Some (concat d)).
  2: { replace (p + (Z.of_nat n * len d + 1)) with (p + len (a ++ b)) by (rewrite length_app; lia). rewrite B by (rewrite ?length_app; lia).
       rewrite Er, Nat2Z.id, drop_app_length, firstn_all2; [done|]. rewrite <- Er. unfold total in Lr. lia. }
  cbn [mbind option_bind]. destruct (fill_blob_ok (len row + Z.of_nat n) ((a ++ b) ++ b ++ concat d) rest) as (tail & -> & _); [rewrite !length_app; unfold total in Lr; lia|].
  eexists. split; [done|]. replace ((a ++ b) ++ b ++ concat d) with (row_bytes (d ++ [[]])); [by apply row_alone|].
  destruct Hf as [Ht _]. rewrite row_bytes_sums by done. rewrite total_drop_nil. fold n. rewrite sums_app, map_app, !concat_app. cbn [sums map concat]. rewrite Z.add_0_l, !app_nil_r, Z.add_0_r.
  unfold a, b. rewrite Es, map_app, concat_app. cbn [map concat]. rewrite app_nil_r. cbn [app]. by rewrite <- !app_assoc.
Qed.

Lemma seqZ_seq n : seqZ 0 (Z.of_nat n) = map Z.of_nat (seq 0 n).
Proof. unfold seqZ. rewrite Nat2Z.id. apply map_ext. intros i. lia. Qed.

Lemma add_data pool p d x rest : row_at pool p d -> row_fits (d ++ [x]) -> ∃ row, AddAttrToBlobRowWithData pool p (len d) x rest = Some row /\ row_at row 0 (d ++ [x]).
Proof.
  intros R Hf. unfold AddAttrToBlobRowWithData. rewrite seqZ_seq, (old_attrs _ _ _ _ R) by (apply Forall_forall; intros j Hj%elem_of_seq; lia). cbn [mbind option_bind].
  rewrite nth_seq by lia. rewrite drop_0, firstn_all. change [(len x, x)] with (with_lengths [x]). rewrite <- with_lengths_app.
  destruct (written_lengths (d ++ [x])) as [Es _]. destruct Hf as [Ht Hn]. destruct (put_lengths_sums 0 (d ++ [x]) 0) as [_ Et]; [lia|lia|]. rewrite Es, Et, Z.add_0_l.
  destruct (written_ok (d ++ [x]) (1 + (len d + 1) * Z.of_nat (RowFlagsToLen (CalcBlobRowFlags (total (d ++ [x])))) + total (d ++ [x])) rest) as [_ G]; [done|rewrite length_app; cbn [length]; lia|]. exact G.
Qed.

Lemma width_mono u v : 0 <= u <= v -> (RowFlagsToLen (CalcBlobRowFlags u) <= RowFlagsToLen (CalcBlobRowFlags v))%nat.
Proof. intros H. unfold CalcBlobRowFlags. repeat case_match; rewrite ?Z.ltb_lt, ?Z.ltb_ge in *; cbn; lia. Qed.

Lemma total_delete d i x : d !! i = Some x -> total (delete i d) = total d - len x.
Proof.
  intros E. rewrite <- (take_drop_middle d i x E) at 2. rewrite delete_take_drop, !total_app, total_cons. lia.
Qed.

Lemma filter_map {A B} (f : A -> B) (P : B -> bool) l : List.filter P (map f l) = map f (List.filter (λ x, P (f x)) l).
Proof. induction l as [|x l IH]; cbn; [done|]. case_match; cbn; by rewrite IH. Qed.

Lemma remove_attr pool p d i rest : row_at pool p d -> (i < length d)%nat -> (1 < length d)%nat ->
  ∃ row l, load 1 pool p = Some (CalcBlobRowFlags (total d)) /\
    mapM (old_attr pool p (len d)) (List.filter (λ j, negb (j =? Z.of_nat i)) (seqZ 0 (len d))) = Some l /\
    fill_row (1 + (len d - 1) * Z.of_nat (RowFlagsToLen (CalcBlobRowFlags (total d))) + sum_lengths (map fst l)) (written_row l) rest = Some row /\ row_at row 0 (delete i d).
Proof.
  intros R Hi H1. destruct (lookup_lt_is_Some_2 d i Hi) as [x E]. pose proof (total_delete d i x E) as T. pose proof (total_nonneg (delete i d)).
  assert (d ≠ []) as Hd by (by destruct d). destruct (whole_row _ _ _ R Hd) as (L & _). pose proof R as R0.
  destruct R as (_ & _ & _ & _ & _ & _ & _ & Hb & Hn & _). assert (length (delete i d) = length d - 1)%nat as Ld by (apply length_delete; by eexists).
  rewrite seqZ_seq, filter_map. assert ((List.filter (λ x0, negb (Z.of_nat x0 =? Z.of_nat i)) (seq 0 (length d))) = List.filter (λ j, negb (j =? i)%nat) (seq 0 (length d))) as ->.
  { apply List.filter_ext. intros j. f_equal. destruct (Nat.eqb_spec j i); [subst; apply Z.eqb_refl|apply Z.eqb_neq; lia]. }
  rewrite (old_attrs _ _ _ _ R0). 2: { apply Forall_forall. intros j Hj%list_elem_of_In. apply filter_In in Hj as [Hj%in_seq _]. lia. }
  rewrite others by done. destruct (written_ok (delete i d) (1 + (len d - 1) * Z.of_nat (RowFlagsToLen (CalcBlobRowFlags (total d))) + total (delete i d)) rest) as (Es & row & G & Gr).
  - split; lia.
  - assert (0 <= total (delete i d) <= total d) as HH by (rewrite T in *; lia). pose proof (width_mono (total (delete i d)) (total d) HH) as W. replace (len (delete i d)) with (len d - 1) by lia. apply Nat2Z.inj_le in W.
    pose proof (Z.mul_le_mono_nonneg_l _ _ (len d - 1) ltac:(lia) W). lia.
  - exists row, (with_lengths (delete i d)). split; [done|]. split; [done|]. by rewrite Es.
Qed.

(** ALTER TABLE keeps the blobs: the row that [sphAddAttrToBlobRow] makes of
    a row has its attributes and the new one after them, whether or not there is
    data for it and even when the lengths get wider, and the row that
    [sphRemoveAttrFromBlobRow] makes has all attributes but the removed one, with
    no access outside the old row and the new one, whatever the reused vector
    held. *)
Theorem blob_alter_correct pDocinfo pool tLoc p d rest : sphGetRowAttr pDocinfo tLoc = Some p -> row_at pool p d ->
  (∀ pData, row_fits (d ++ [default [] pData]) ->
    ∃ row, sphAddAttrToBlobRow pDocinfo pool (len d) tLoc pData rest = Some row /\ row_at row 0 (d ++ [default [] pData]) /\ holds_blobs row 0 (d ++ [default [] pData])) /\
  (∀ i, (i < length d)%nat ->
    ∃ row, sphRemoveAttrFromBlobRow pDocinfo pool (len d) (Z.of_nat i) tLoc rest = Some row /\
      if (length d =? 1)%nat then row = [] else row_at row 0 (delete i d) /\ holds_blobs row 0 (delete i d)).
Proof.
  intros E R. split.
  - intros pData Hf. assert (∃ row, sphAddAttrToBlobRow pDocinfo pool (len d) tLoc pData rest = Some row /\ row_at row 0 (d ++ [default [] pData])) as (row & G & Gr).
    { unfold sphAddAttrToBlobRow. destruct (Z.eqb_spec (len d) 0) as [E0|E0].
      - destruct d; [|done]. eexists. split; [done|]. set (x := default [] pData) in *. replace (AddAttrToBlobRowFirst x) with (row_bytes [x] ++ []); [by apply row_alone|].
        destruct Hf as [Ht _]. rewrite app_nil_r, row_bytes_sums by done. unfold AddAttrToBlobRowFirst. cbn [sums map concat]. rewrite !app_nil_r. unfold total. cbn [concat]. by rewrite app_nil_r, Z.add_0_l.
      - rewrite E. cbn [mbind option_bind]. destruct pData as [x|]; cbn [default]; [by apply add_data|]. apply add_no_data; [by destruct d|done|done]. }
    exists row. split; [done|]. split; [done|]. by apply row_reads.
  - intros i Hi. unfold sphRemoveAttrFromBlobRow. destruct (Nat.eqb_spec (length d) 1) as [E1|E1].
    + rewrite (proj2 (Z.leb_le _ _)) by lia. eauto.
    + rewrite (proj2 (Z.leb_gt _ _)) by lia. rewrite E. cbn [mbind option_bind]. destruct (remove_attr pool p d i rest R Hi ltac:(lia)) as (row & l & L & M & G & Gr). rewrite L. cbn [mbind option_bind].
      rewrite M. cbn [mbind option_bind]. exists row. split; [done|]. split; [done|]. by apply row_reads.
Qed.

(** ** Examples *)

Definition demo_rows : list (list (list Z)) := [[[1; 2]; []; [3]]; [replicate 300 7; [9]]].

Lemma blob_file_roundtrip_witness : let '(w, offsets) := flush_rows demo_rows (Setup 5 []) in let '(ok, w') := Done 4 w in
  ok = true /\ load_offset (w_disk w') 0 = Some 321 /\ len (w_disk w') = 325.
Proof.
  pose proof (blob_file_roundtrip demo_rows 5 [] 4 ltac:(lia) ltac:(lia) ltac:(repeat constructor; apply Z.ltb_lt; vm_compute; reflexivity)) as H.
  assert (fst (Done 4 (fst (flush_rows demo_rows (Setup 5 [])))) = true /\ len (w_disk (snd (Done 4 (fst (flush_rows demo_rows (Setup 5 [])))))) = 325) as [E1 E2] by (vm_compute; split; reflexivity).
  destruct (flush_rows demo_rows (Setup 5 [])) as [w os]. cbn [fst] in E1, E2. destruct (Done 4 w) as [ok w']. cbn [fst snd] in E1, E2. rewrite E2 in H. destruct (H E1 ltac:(lia)) as [G _]. done.
Defined.

Lemma blob_alter_witness : ∃ row, sphAddAttrToBlobRow [0; 1; 0] (5 :: row_bytes [[1; 2]; [3]]) 2 (AttrLocator 32 64 (-1) 1 0 false) (Some (replicate 300 7)) [] = Some row /\
  holds_blobs row 0 [[1; 2]; [3]; replicate 300 7].
Proof.
  destruct (blob_alter_correct [0; 1; 0] (5 :: row_bytes [[1; 2]; [3]]) (AttrLocator 32 64 (-1) 1 0 false) 1 [[1; 2]; [3]] []) as [A _].
  - reflexivity.
  - pose proof (row_bytes_at [5] [] [[1; 2]; [3]]) as R. rewrite app_nil_r in R. apply R; reflexivity.
  - destruct (A (Some (replicate 300 7))) as (row & G & _ & R); [split; apply Z.ltb_lt; vm_compute; reflexivity|]. exists row. split; [exact G|exact R].
Defined.

(** ** Sets and pointers *)

Lemma pack_ptr_roundtrip d : Forall is_byte d -> len d < 2 ^ 31 -> sphUnpackPtrAttr (sphPackPtrAttr d) = Some d.
Proof.
  intros Hd Hl. destruct d as [|x d]; [done|]. unfold sphUnpackPtrAttr, sphPackPtrAttr. set (l := x :: d) in *.
  assert (UnzipIntBE (ZipValueBE int32_t (len l) ++ l) = Some (len l, l)) as ->.
  { change (ZipValueBE int32_t (len l)) with (ZipValueBE DWORD (len l)). apply unzip_be4_zip; try done. unfold in_type. cbn [is_signed DWORD bits]. lia. }
  cbn [mbind option_bind]. rewrite cast_id; [|done|unfold in_type; cbn [is_signed int32_t bits]; lia]. unfold bytes_at. rewrite (proj2 (Z.leb_le 0 (len l))), (proj2 (Z.leb_le (0 + _) _)) by lia. change (0 <=? 0) with true. cbn [andb].
  f_equal. rewrite Nat2Z.id. change (Z.to_nat 0) with 0%nat. by rewrite drop_0, firstn_all.
Qed.

Lemma store_length T l : length (store_values T l) = (length l * Z.to_nat (bits T / 8))%nat.
Proof. apply stored_length. Qed.

Definition mva_type (T : ctype) : Prop := T = DWORD \/ T = int64_t.

Lemma values_stored T l : mva_type T -> Forall (in_type T) l -> mva_values T (store_values T l) = l.
Proof.
  intros HT F. unfold mva_values. rewrite store_length. set (n := Z.to_nat (bits T / 8)). assert (n = 4 \/ n = 8)%nat as Hn by (unfold n; destruct HT; subst; auto). rewrite Nat.div_mul by lia.
  apply list_eq. intros i. rewrite list_lookup_fmap. destruct (decide (i < length l)%nat) as [Hi|Hi].
  2: { rewrite lookup_ge_None_2 by (rewrite length_seq; lia). by rewrite lookup_ge_None_2 by lia. }
  rewrite lookup_seq_lt by done. destruct (lookup_lt_is_Some_2 l i Hi) as [v E]. rewrite E. cbn. f_equal. rewrite Forall_forall in F.
  assert (in_type T v) as Hv by (apply F; by apply list_elem_of_lookup_2 in E).
  pose proof (load_nth n [] l [] i v E) as L. rewrite app_nil_r in L. cbn [app length] in L. unfold load in L. rewrite stored_length in L. fold (store_values T l) in L. unfold store_values in L |- *. fold n in L |- *.
  rewrite (proj2 (Z.leb_le _ _)), (proj2 (Z.leb_le _ _)) in L by nia. cbn [andb] in L. injection L as L. replace (Z.to_nat (Z.of_nat 0 + Z.of_nat i * Z.of_nat n)) with (i * n)%nat in L by nia. rewrite L.
  rewrite <- (cast_id T v) at 2; [|destruct HT; by subst|done]. apply cast_eq. destruct HT; subst T; subst n; change (256 ^ _) with (2 ^ bits DWORD) || change (256 ^ _) with (2 ^ bits int64_t); apply Z.mod_mod; done.
Qed.

Lemma uniq_sorted l : ∀ x, StronglySorted Z.le (x :: l) -> StronglySorted Z.lt (x :: sphUniq x l) /\ ∀ y, y ∈ x :: sphUniq x l <-> y ∈ x :: l.
Proof.
  induction l as [|y l IH]; intros x S; cbn [sphUniq]; [split; [repeat constructor|done]|]. inversion S as [|? ? S1 F1]; subst. inversion F1 as [|? ? Hxy F2]; subst.
  destruct (Z.eqb_spec x y) as [<-|N].
  - destruct (IH x) as [G1 G2]; [by inversion S1; subst; constructor|]. split; [done|]. intros z. rewrite G2, !elem_of_cons. tauto.
  - destruct (IH y S1) as [G1 G2]. split.
    + constructor; [done|]. apply Forall_forall. intros z Hz%G2. apply elem_of_cons in Hz as [->|Hz]; [lia|]. inversion S1 as [|? ? _ F3]; subst. rewrite Forall_forall in F3. specialize (F3 z Hz). lia.
    + intros z. rewrite elem_of_cons, G2, !elem_of_cons. tauto.
Qed.

Lemma sorted_impl {A} (R1 R2 : A -> A -> Prop) l : (∀ x y, R1 x y -> R2 x y) -> StronglySorted R1 l -> StronglySorted R2 l.
Proof. intros HR S. induction S; constructor; [done|]. eapply Forall_impl; [done|auto]. Qed.

Lemma Uniq_ok l : len l < 2 ^ 36 -> ∃ l', Uniq l = Some l' /\ StronglySorted Z.lt l' /\ ∀ y, y ∈ l' <-> y ∈ l.
Proof.
  intros Hl. unfold Uniq. destruct l as [|x l]; [by exists []; repeat constructor|]. set (a := x :: l) in *.
  destruct (SortOk.sort_ok Z.ltb) with (l := a) as (l' & -> & P & S).
  - intros u v H. apply Z.ltb_lt in H. apply Z.ltb_ge. lia.
  - unfold SortOk.le. intros u v w H1 H2. apply Z.ltb_ge in H1, H2. apply Z.ltb_ge. lia.
  - done.
  - cbn [mbind option_bind]. destruct l' as [|y l']; [by apply Permutation_nil_l in P|]. eexists. split; [done|].
    assert (StronglySorted Z.le (y :: l')) as S'. { eapply sorted_impl; [|exact S]. intros u v H. apply Z.ltb_ge in H. lia. }
    destruct (uniq_sorted l' y S') as [G1 G2]. split; [done|]. intros z. rewrite G2. by rewrite P.
Qed.

(** The set that an update packs is sorted and has no value twice, which is what
    the filters rely on. *)
Lemma mva_pack_sorted T d eInput : mva_type T -> len d < 2 ^ 36 -> match MVA_SetData T true d eInput with
  | Some (Some r) => StronglySorted Z.lt (mva_values T r) /\ ∀ y, y ∈ mva_values T r <-> y ∈ map (cast T) (mva_values (if decide (eInput = MVA_INT64) then int64_t else DWORD) d)
  | Some None => d ≠ [] /\ (eInput = RAW_BYTES \/ len d mod (if decide (eInput = MVA_INT64) then 8 else 4) ≠ 0)
  | None => False
  end.
Proof.
  assert (∀ T', mva_values T' [] = []) as E0 by (intros T'; unfold mva_values; cbn [length]; by rewrite Nat.Div0.div_0_l).
  intros HT Hl. unfold MVA_SetData. destruct d as [|x d]; [rewrite !E0; split; [constructor|done]|]. set (a := x :: d) in *. set (IN := if decide (eInput = MVA_INT64) then int64_t else DWORD).
  assert (∀ l, Forall (in_type T) (map (cast T) l)) as FT by (intros l; apply Forall_map, Forall_forall; intros v _; apply cast_in_type; destruct HT; by subst).
  assert (bits IN / 8 = (if decide (eInput = MVA_INT64) then 8 else 4)) as Eb by (unfold IN; by case_decide).
  assert (len (map (cast T) (mva_values IN a)) < 2 ^ 36) as Hn.
  { unfold mva_values. rewrite !length_map, length_seq. pose proof (Nat.Div0.div_le_upper_bound (length a) (Z.to_nat (bits IN / 8)) (length a)) as D. assert (1 <= Z.to_nat (bits IN / 8))%nat by (rewrite Eb; case_decide; lia). specialize (D ltac:(nia)). lia. }
  destruct eInput; [auto| |]; (destruct (Z.eqb_spec (len a mod (bits IN / 8)) 0) as [E|E]; cbn [negb]; [|split; [done|right; by rewrite Eb in E]]);
    destruct (Uniq_ok _ Hn) as (l' & El & S & G); (assert (Forall (in_type T) l') as Fl by (apply Forall_forall; intros v Hv%G; specialize (FT (mva_values IN a)); rewrite Forall_forall in FT; by apply FT));
    fold IN; rewrite El; cbn [mbind option_bind]; rewrite values_stored by done; auto.
Qed.

(** The vector of [sphRemoveAttrFromBlobRow] is resized for lengths as wide as
    those of the old row: bytes the vector held before stay at the end of the new
    row when its lengths are narrower. *)
Example remove_leaves_tail : let old := row_bytes [replicate 300 7; [1]; [2; 3]] in
  ∃ row, sphRemoveAttrFromBlobRow [0; 0] old 3 0 (AttrLocator 0 64 (-1) 1 0 false) (replicate 10 77) = Some row /\
  row = row_bytes [[1]; [2; 3]] ++ [77; 77] /\ sphGetBlobTotalLen row 0 2 = Some (len row - 2).
Proof. eexists. split; [vm_compute; reflexivity|]. vm_compute. split; reflexivity. Qed.
End BlobOk.
