(* ===== verification/Filter.v ===== *)
(** * Filters (src/src/sphinxfilter.cpp, src/src/sphinxfilter.h)

    A filter says of a match whether it passes ([Eval]), and of the ranges of a
    block whether some row of the block might ([EvalBlock]). Filters on integer,
    float and multi-value attributes and on the weight are modelled, and their
    combinations; those on strings, expressions and columnar attributes are not. *)

From stdpp Require Import strings.
From S2P Require Import Prelude RowAttr Schema MinMax Blob Span BinSearch.
Import RowAttr Schema MinMax Blob BinSearch.

Module Filter.

(** ** Matches *)

(** [m_pHeap] is what the pointers in the dynamic part point to. *)
Record CSphMatch := Match_ {
  m_pStatic : list Z;
  m_pDynamic : list Z;
  m_iWeight : Z;
  m_pHeap : Z -> option (list Z)
}.

Definition row_of (tMatch : CSphMatch) (tLoc : CSphAttrLocator) : list Z := if m_bDynamic tLoc then m_pDynamic tMatch else m_pStatic tMatch.

Definition GetAttr (tMatch : CSphMatch) (tLoc : CSphAttrLocator) : option Z := sphGetRowAttr (row_of tMatch tLoc) tLoc.
Definition GetAttrFloat (tMatch : CSphMatch) (tLoc : CSphAttrLocator) : option Z := cast DWORD <$> GetAttr tMatch tLoc.

(** The bytes [FetchAttrData] points to; none for a null pointer. *)
Definition FetchAttrData (tMatch : CSphMatch) (tLoc : CSphAttrLocator) (pPool : list Z) : option (list Z) :=
  if IsBlobAttr tLoc then b ← sphGetBlobAttr (row_of tMatch tLoc) tLoc pPool; blob_bytes pPool b
  else p ← GetAttr tMatch tLoc; if p =? 0 then Some [] else d ← m_pHeap tMatch p; sphUnpackPtrAttr (Some d).

(** ** Values and ranges *)

Definition le_of (k : kind) : Z -> Z -> bool := match k with KInt => Z.leb | KFloat => flt_le end.

(** [tMin < tValue] or [tMin <= tValue]. *)
Definition below (k : kind) (bEqual : bool) (a b : Z) : bool := if bEqual then le_of k a b else lt_of k a b.

Section Bounds.
Variables (k : kind) (HAS_EQUAL_MIN HAS_EQUAL_MAX OPEN_LEFT OPEN_RIGHT : bool).

Definition EvalRange (tValue tMin tMax : Z) : bool :=
  if OPEN_LEFT then below k HAS_EQUAL_MAX tValue tMax
  else if OPEN_RIGHT then below k HAS_EQUAL_MIN tMin tValue
  else below k HAS_EQUAL_MIN tMin tValue && below k HAS_EQUAL_MAX tValue tMax.

Definition EvalBlockRangeAny (tMin1 tMax1 tMin2 tMax2 : Z) : bool :=
  if OPEN_LEFT then below k HAS_EQUAL_MAX tMin1 tMax2
  else if OPEN_RIGHT then below k HAS_EQUAL_MIN tMin2 tMax1
  else below k HAS_EQUAL_MIN tMin1 tMax2 && below k HAS_EQUAL_MAX tMin2 tMax1.

Definition EvalBlockRangeAll (tMin1 tMax1 tMin2 tMax2 : Z) : bool := below k HAS_EQUAL_MIN tMin2 tMin1 && below k HAS_EQUAL_MAX tMax1 tMax2.
End Bounds.

(** The loop of [IFilter_Values::EvalValues] over the pointers [pA] and [pB]. *)
Fixpoint values_loop (fuel : nat) (d : list Z) (uValue : Z) (pA pB : nat) : option bool :=
  match fuel with
  | O => None
  | S fuel' =>
      if (1 <? pB - pA)%nat then
        let pM := (pA + (pB - pA) / 2)%nat in
        v ← d !! pM;
        if uValue =? v then Some true
        else if uValue <? v then values_loop fuel' d uValue pA pM
        else values_loop fuel' d uValue pM pB
      else Some false
  end.

Definition EvalValues (m_tValues : list Z) (uValue : Z) : option bool :=
  match m_tValues with
  | [] => Some true
  | a :: _ =>
      let b := List.last m_tValues 0 in
      if (uValue =? a) || (uValue =? b) then Some true
      else if (uValue <? a) || (b <? uValue) then Some false
      else values_loop (S (length m_tValues)) m_tValues uValue 0 (length m_tValues - 1)
  end.

(** The functor of the search compares with the block. *)
Definition block_cmp (uBlockMin uBlockMax i : Z) : Z := if i <? uBlockMin then -1 else if uBlockMax <? i then 1 else 0.

Definition EvalBlockValues (m_tValues : list Z) (uBlockMin uBlockMax : Z) : bool :=
  match BinarySearch (map (block_cmp uBlockMin uBlockMax) m_tValues) 0 0 (Z.of_nat (length m_tValues) - 1) with Some _ => true | None => false end.

(** ** Multi-value sets *)

(** The search of a value in [L..R]: whether it is there, and else the last [L]. *)
Fixpoint mva_search (fuel : nat) (d : list Z) (v : Z) (L R : Z) : option (bool * Z) :=
  match fuel with
  | O => None
  | S fuel' =>
      if L <=? R then
        let pVal := L + (R - L) / 2 in
        x ← d !! Z.to_nat pVal;
        if x <? v then mva_search fuel' d v (pVal + 1) R
        else if v <? x then mva_search fuel' d v L (pVal - 1)
        else Some (true, pVal)
      else Some (false, L)
  end.

(** [L] is kept from one filter value to the next. *)
Fixpoint any_loop (dMvas : list Z) (L : Z) (dFilters : list Z) : option bool :=
  match dFilters with
  | [] => Some false
  | v :: dFilters' =>
      '(found, L) ← mva_search (S (length dMvas)) dMvas v L (Z.of_nat (length dMvas) - 1);
      if (found : bool) then Some true else any_loop dMvas L dFilters'
  end.

Definition MvaEval_Any (dMvas dFilters : list Z) : option bool :=
  match dMvas, dFilters with [], _ | _, [] => Some false | _, _ => any_loop dMvas 0 dFilters end.

Definition found_in (d : list Z) (v : Z) : bool := match BinarySearch d v 0 (Z.of_nat (length d) - 1) with Some _ => true | None => false end.

Definition MvaEval_All (dMvas dFilters : list Z) : bool :=
  match dMvas, dFilters with [], _ | _, [] => false | _, _ => forallb (found_in dFilters) dMvas end.

Definition MvaEval_RangeAny (HAS_EQUAL_MIN HAS_EQUAL_MAX : bool) (pMva : list Z) (m_iMinValue m_iMaxValue : Z) : option bool :=
  let pEnd := Z.of_nat (length pMva) in
  '(found, L) ← mva_search (S (length pMva)) pMva m_iMinValue 0 (pEnd - 1);
  if (found : bool) then Some (HAS_EQUAL_MIN || (L + 1 <? pEnd))
  else if L =? pEnd then Some false
  else x ← pMva !! Z.to_nat L; Some (below KInt HAS_EQUAL_MAX x m_iMaxValue).

(** [None] is the null pointer; the first and the last value are read without a
    look at the number of values. *)
Definition MvaEval_RangeAll (T : ctype) (HAS_EQUAL_MIN HAS_EQUAL_MAX : bool) (pMva : option (list Z)) (m_iMinValue m_iMaxValue : Z) : option bool :=
  match pMva with
  | None => Some false
  | Some d =>
      x ← d !! 0%nat; y ← last d;
      Some (EvalBlockRangeAll KInt HAS_EQUAL_MIN HAS_EQUAL_MAX x y (cast T m_iMinValue) (cast T m_iMaxValue))
  end.

(** The pointer of an attribute without data is null. *)
Definition mva_ptr (d : list Z) : option (list Z) := match d with [] => None | _ => Some d end.

(** ** Filters *)

Inductive ISphFilter :=
  | Filter_Values (m_tLocator : CSphAttrLocator) (m_tValues : list Z)
  | Filter_SingleValue (m_tLocator : CSphAttrLocator) (m_RefValue : Z)
  | Filter_SingleValueStatic32 (m_tLocator : CSphAttrLocator) (m_RefValue m_iIndex : Z)
  | Filter_Range (HAS_EQUAL_MIN HAS_EQUAL_MAX OPEN_LEFT OPEN_RIGHT : bool) (m_tLocator : CSphAttrLocator) (m_iMinValue m_iMaxValue : Z)
  | Filter_FloatRange (HAS_EQUAL_MIN HAS_EQUAL_MAX : bool) (m_tLocator : CSphAttrLocator) (m_fMinValue m_fMaxValue : Z)
  | Filter_WeightValues (m_tValues : list Z)
  | Filter_WeightRange (HAS_EQUAL_MIN HAS_EQUAL_MAX : bool) (m_iMinValue m_iMaxValue : Z)
  | Filter_MVAValues_Any (T : ctype) (m_tLocator : CSphAttrLocator) (m_tValues : list Z) (m_pBlobPool : list Z)
  | Filter_MVAValues_All (T : ctype) (m_tLocator : CSphAttrLocator) (m_tValues : list Z) (m_pBlobPool : list Z)
  | Filter_MVARange_Any (T : ctype) (HAS_EQUAL_MIN HAS_EQUAL_MAX : bool) (m_tLocator : CSphAttrLocator) (m_iMinValue m_iMaxValue : Z) (m_pBlobPool : list Z)
  | Filter_MVARange_All (T : ctype) (HAS_EQUAL_MIN HAS_EQUAL_MAX : bool) (m_tLocator : CSphAttrLocator) (m_iMinValue m_iMaxValue : Z) (m_pBlobPool : list Z)
  | Filter_And2 (m_pArg1 m_pArg2 : ISphFilter)
  | Filter_And3 (m_pArg1 m_pArg2 m_pArg3 : ISphFilter)
  | Filter_And (m_dFilters : list ISphFilter)
  | Filter_Or (m_pLeft m_pRight : ISphFilter)
  | Filter_Not (m_pFilter : ISphFilter)
  | Filter_ProxyHeavy (m_pFilter : ISphFilter) (m_iDesiredStack : Z).

(** [a && b], [a || b] *)
Definition and_then (a : option bool) (b : option bool) : option bool := a ← a; if (a : bool) then b else Some false.
Definition or_else (a : option bool) (b : option bool) : option bool := a ← a; if (a : bool) then Some true else b.

(** [None] is an access out of range. *)
Fixpoint Eval (f : ISphFilter) (tMatch : CSphMatch) : option bool :=
  match f with
  | Filter_Values l d => v ← GetAttr tMatch l; EvalValues d v
  | Filter_SingleValue l r => v ← GetAttr tMatch l; Some (v =? r)
  | Filter_SingleValueStatic32 l r i => v ← item (m_pStatic tMatch) i; Some (v =? r)
  | Filter_Range eqmin eqmax ol or l lo hi => v ← GetAttr tMatch l; Some (EvalRange KInt eqmin eqmax ol or v lo hi)
  | Filter_FloatRange eqmin eqmax l lo hi => v ← GetAttrFloat tMatch l; Some (EvalRange KFloat eqmin eqmax false false v lo hi)
  | Filter_WeightValues d => EvalValues d (m_iWeight tMatch)
  | Filter_WeightRange eqmin eqmax lo hi => Some (EvalRange KInt eqmin eqmax false false (m_iWeight tMatch) lo hi)
  | Filter_MVAValues_Any T l d p => b ← FetchAttrData tMatch l p; MvaEval_Any (mva_values T b) d
  | Filter_MVAValues_All T l d p => b ← FetchAttrData tMatch l p; Some (MvaEval_All (mva_values T b) d)
  | Filter_MVARange_Any T eqmin eqmax l lo hi p => b ← FetchAttrData tMatch l p; MvaEval_RangeAny eqmin eqmax (mva_values T b) lo hi
  | Filter_MVARange_All T eqmin eqmax l lo hi p => b ← FetchAttrData tMatch l p; MvaEval_RangeAll T eqmin eqmax (mva_values T <$> mva_ptr b) lo hi
  | Filter_And2 a b => and_then (Eval a tMatch) (Eval b tMatch)
  | Filter_And3 a b c => and_then (Eval a tMatch) (and_then (Eval b tMatch) (Eval c tMatch))
  | Filter_And l => (fix go (l : list ISphFilter) : option bool := match l with [] => Some true | f :: l' => and_then (Eval f tMatch) (go l') end) l
  | Filter_Or a b => or_else (Eval a tMatch) (Eval b tMatch)
  | Filter_Not f => negb <$> Eval f tMatch
  | Filter_ProxyHeavy f _ => Eval f tMatch
  end.

(** The two rows of the ranges. *)
Fixpoint EvalBlock (f : ISphFilter) (pMin pMax : list Z) : option bool :=
  match f with
  | Filter_Values l d =>
      if m_bDynamic l then Some true else lo ← sphGetRowAttr pMin l; hi ← sphGetRowAttr pMax l; Some (EvalBlockValues d lo hi)
  | Filter_SingleValue l r | Filter_SingleValueStatic32 l r _ =>
      if m_bDynamic l then Some true else lo ← sphGetRowAttr pMin l; hi ← sphGetRowAttr pMax l; Some ((lo <=? r) && (r <=? hi))
  | Filter_Range eqmin eqmax ol or l a b =>
      if m_bDynamic l then Some true else lo ← sphGetRowAttr pMin l; hi ← sphGetRowAttr pMax l; Some (EvalBlockRangeAny KInt eqmin eqmax ol or lo hi a b)
  | Filter_FloatRange eqmin eqmax l a b =>
      if m_bDynamic l then Some true
      else lo ← attr_value KFloat pMin l; hi ← attr_value KFloat pMax l; Some (EvalBlockRangeAny KFloat eqmin eqmax false false lo hi a b)
  | Filter_And2 a b => and_then (EvalBlock a pMin pMax) (EvalBlock b pMin pMax)
  | Filter_And3 a b c => and_then (EvalBlock a pMin pMax) (and_then (EvalBlock b pMin pMax) (EvalBlock c pMin pMax))
  | Filter_And l => (fix go (l : list ISphFilter) : option bool := match l with [] => Some true | f :: l' => and_then (EvalBlock f pMin pMax) (go l') end) l
  | Filter_Or a b => or_else (EvalBlock a pMin pMax) (EvalBlock b pMin pMax)
  | Filter_ProxyHeavy f _ => EvalBlock f pMin pMax
  | _ => Some true
  end.
End Filter.
