(* ===== verification/FilterOk.v ===== *)
(** * Filters: searches and blocks

    The searches in values and sets find what is there, and a block is only
    rejected when none of its rows passes. *)

From stdpp Require Import sorting strings.
From S2P Require Import Prelude RowAttr Schema SchemaOk MinMax MinMaxOk Blob BlobOk Span BinSearch Filter.
Import RowAttr Schema SchemaOk MinMax MinMaxOk Blob BinSearch Filter.

Module FilterOk.

Abbreviation len l := (Z.of_nat (length l)).
Abbreviation ordered d := (StronglySorted Z.le d).

(** ** Sorted lists *)

Lemma ordered_at d : ordered d -> ∀ i j x y, (i <= j)%nat -> d !! i = Some x -> d !! j = Some y -> x <= y.
Proof.
  intros S. induction S as [|a d _ IH F]; intros [|i] [|j] x y Hij Ex Ey; try done; try lia.
  - cbn in Ex, Ey. congruence || (injection Ex as ->; injection Ey as ->; lia).
  - cbn in Ex, Ey. injection Ex as ->. rewrite Forall_forall in F. apply F. by apply list_elem_of_lookup_2 in Ey.
  - apply (IH i j); [lia|done|done].
Qed.

Lemma values_sorted d : ordered d -> Span.sorted d.
Proof.
  intros S i j Hij Hj. unfold Span.len, Span.at_ in *. destruct (lookup_lt_is_Some_2 d (Z.to_nat i)) as [x Ex]; [lia|]. destruct (lookup_lt_is_Some_2 d (Z.to_nat j)) as [y Ey]; [lia|].
  rewrite (nth_lookup_Some _ _ _ _ Ex), (nth_lookup_Some _ _ _ _ Ey). apply (ordered_at d S (Z.to_nat i) (Z.to_nat j)); [lia|done|done].
Qed.

Lemma search_elem d v : ordered d -> match BinarySearch d v 0 (len d - 1) with Some _ => v ∈ d | None => v ∉ d end.
Proof.
  intros S. destruct d as [|a d']; [apply not_elem_of_nil|]. set (d := a :: d') in *.
  destruct (binary_search_correct d v 0 (len d - 1) (values_sorted d S)) as [B _]; [cbn; lia|unfold Span.len; lia|].
  destruct (BinarySearch d v 0 (len d - 1)) as [i|].
  - destruct B as [Hi <-]. unfold Span.at_. apply list_elem_of_In, nth_In. lia.
  - intros (i & Ei)%list_elem_of_lookup. apply (B (Z.of_nat i)); [apply lookup_lt_Some in Ei; lia|]. unfold Span.at_. rewrite Nat2Z.id. by apply nth_lookup_Some.
Qed.

Lemma found_in_ok d v : ordered d -> found_in d v = bool_decide (v ∈ d).
Proof. intros S. pose proof (search_elem d v S) as B. unfold found_in. destruct (BinarySearch d v 0 (len d - 1)); [by rewrite bool_decide_true|by rewrite bool_decide_false]. Qed.

Lemma block_cmp_sorted lo hi d : lo <= hi -> ordered d -> ordered (map (block_cmp lo hi) d).
Proof.
  intros H S. induction S as [|a d _ IH F]; cbn [map]; [constructor|]. constructor; [done|]. apply Forall_map. eapply Forall_impl; [exact F|]. intros x Hx. cbn. unfold block_cmp.
  repeat case_match; rewrite ?Z.ltb_lt, ?Z.ltb_ge in *; lia.
Qed.

Lemma block_values_ok d lo hi : lo <= hi -> ordered d -> EvalBlockValues d lo hi = true <-> Exists (λ x, lo <= x <= hi) d.
Proof.
  intros H S. unfold EvalBlockValues. pose proof (search_elem (map (block_cmp lo hi) d) 0 (block_cmp_sorted lo hi d H S)) as B. rewrite length_map in B.
  assert (0 ∈ map (block_cmp lo hi) d <-> Exists (λ x, lo <= x <= hi) d) as E.
  { rewrite list_elem_of_fmap, Exists_exists. split; intros (x & H1 & H2); exists x; unfold block_cmp in *; (repeat case_match; rewrite ?Z.ltb_lt, ?Z.ltb_ge in *; split; try done; lia). }
  rewrite <- E. destruct (BinarySearch _ 0 0 (len d - 1)); split; done.
Qed.

Lemma values_loop_ok d v : ordered d -> ∀ fuel pA pB a b, (pB - pA < fuel)%nat -> (pA < pB)%nat -> d !! pA = Some a -> d !! pB = Some b -> a < v < b ->
  values_loop fuel d v pA pB = Some (bool_decide (v ∈ d)).
Proof.
  intros S fuel. induction fuel as [|fuel IH]; intros pA pB a b Hf Hl Ea Eb Hv; [lia|]. cbn [values_loop]. destruct (Nat.ltb_spec 1 (pB - pA)) as [H1|H1].
  - set (m := (pA + (pB - pA) / 2)%nat). assert (pA < m < pB)%nat as Hm by (subst m; pose proof (Nat.div_mod_eq (pB - pA) 2); pose proof (Nat.mod_upper_bound (pB - pA) 2 ltac:(lia)); lia).
    destruct (lookup_lt_is_Some_2 d m) as [x Ex]; [apply lookup_lt_Some in Eb; lia|]. rewrite Ex. cbn [mbind option_bind].
    destruct (Z.eqb_spec v x) as [->|N]; [rewrite bool_decide_true; [done|by apply list_elem_of_lookup_2 in Ex]|].
    destruct (Z.ltb_spec v x); [apply (IH pA m a x)|apply (IH m pB x b)]; try done; lia.
  - rewrite bool_decide_false; [done|]. intros (i & Ei)%list_elem_of_lookup. destruct (decide (i <= pA)%nat).
    + pose proof (ordered_at d S i pA v a ltac:(lia) Ei Ea). lia.
    + pose proof (ordered_at d S pB i b v ltac:(lia) Eb Ei). lia.
Qed.

Lemma EvalValues_ok d v : d ≠ [] -> ordered d -> EvalValues d v = Some (bool_decide (v ∈ d)).
Proof.
  intros Hd S. unfold EvalValues. destruct d as [|a d']; [done|]. set (d := a :: d') in *. assert (d !! 0%nat = Some a) as Ea by done.
  assert (d !! (length d - 1)%nat = Some (List.last d 0)) as Eb by (destruct (exists_last Hd) as (e & x & ->); rewrite last_last, length_app; cbn [length]; rewrite lookup_app_r by lia; by replace (length e + 1 - 1 - length e)%nat with 0%nat by lia).
  set (b := List.last d 0) in *. destruct (Z.eqb_spec v a) as [->|N1]; cbn [orb]; [rewrite bool_decide_true; [done|by apply list_elem_of_lookup_2 in Ea]|].
  destruct (Z.eqb_spec v b) as [->|N2]; [rewrite bool_decide_true; [done|by apply list_elem_of_lookup_2 in Eb]|].
  destruct (Z.ltb_spec v a) as [L1|L1]; cbn [orb].
  { rewrite bool_decide_false; [done|]. intros (i & Ei)%list_elem_of_lookup. pose proof (ordered_at d S 0 i a v ltac:(lia) Ea Ei). lia. }
  destruct (Z.ltb_spec b v) as [L2|L2].
  { rewrite bool_decide_false; [done|]. intros (i & Ei)%list_elem_of_lookup. pose proof (ordered_at d S i (length d - 1) v b ltac:(apply lookup_lt_Some in Ei; lia) Ei Eb). lia. }
  apply (values_loop_ok d v S _ _ _ a b); try done; try lia. assert (length d ≠ 1)%nat; [|cbn in *; lia].
  intros E1. replace (length d - 1)%nat with 0%nat in Eb by lia. rewrite Ea in Eb. injection Eb. lia.
Qed.

(** ** Searches in sets *)

Lemma mva_search_ok d v : ordered d -> ∀ fuel L R, 0 <= L -> -1 <= R -> L <= R + 1 -> R < len d -> R - L + 1 < Z.of_nat fuel ->
  (∀ i x, d !! i = Some x -> Z.of_nat i < L -> x < v) -> (∀ i x, d !! i = Some x -> R < Z.of_nat i -> v < x) ->
  ∃ p, 0 <= p /\ ((mva_search fuel d v L R = Some (true, p) /\ d !! Z.to_nat p = Some v) \/
    (mva_search fuel d v L R = Some (false, p) /\ L <= p <= len d /\ (∀ i x, d !! i = Some x -> Z.of_nat i < p -> x < v) /\ (∀ i x, d !! i = Some x -> p <= Z.of_nat i -> v < x))).
Proof.
  intros S fuel. induction fuel as [|fuel IH]; intros L R H1 H2 H3 H4 Hf HL HR; [lia|]. cbn [mva_search]. destruct (Z.leb_spec L R) as [H5|H5].
  - set (m := L + (R - L) / 2). assert (L <= m <= R) as Hm by (subst m; pose proof (Z.div_mod (R - L) 2 ltac:(lia)); pose proof (Z.mod_pos_bound (R - L) 2 ltac:(lia)); lia).
    destruct (lookup_lt_is_Some_2 d (Z.to_nat m)) as [x Ex]; [lia|]. rewrite Ex. cbn [mbind option_bind]. destruct (Z.ltb_spec x v) as [Hx|Hx].
    + destruct (IH (m + 1) R) as (p & Hp & G); [lia|lia|lia|lia|lia| |done|].
      { intros i y Ey Hi. pose proof (ordered_at d S i (Z.to_nat m) y x ltac:(lia) Ey Ex). lia. }
      exists p. split; [done|]. destruct G as [G|(G & ? & ? & ?)]; [by left|right]. split; [done|]. split; [lia|done].
    + destruct (Z.ltb_spec v x) as [Hx'|Hx'].
      * apply IH; [lia|lia|lia|lia|lia|done|]. intros i y Ey Hi. pose proof (ordered_at d S (Z.to_nat m) i x y ltac:(lia) Ex Ey). lia.
      * exists m. split; [lia|]. left. split; [done|]. by replace v with x by lia.
  - exists L. split; [lia|]. right. split; [done|]. split; [lia|]. split; [done|]. intros i x Ex Hi. apply (HR i x Ex). lia.
Qed.

Lemma any_loop_ok d fs : ordered d -> d ≠ [] -> ordered fs -> ∀ L, 0 <= L <= len d -> (∀ v i x, v ∈ fs -> d !! i = Some x -> Z.of_nat i < L -> x < v) ->
  any_loop d L fs = Some (bool_decide (Exists (λ v, v ∈ d) fs)).
Proof.
  intros S Hd Sf. induction Sf as [|v fs _ IH F]; intros L HL Hb; cbn [any_loop]; [rewrite bool_decide_false; [done|by intros ?%Exists_nil]|]. assert (0 < len d) by (destruct d; [done|cbn; lia]).
  destruct (mva_search_ok d v S (Datatypes.S (length d)) L (len d - 1)) as (p & Hp & [[G Ep]|(G & Hl & B & A)]); [lia|lia|lia|lia|lia| | |rewrite G; cbn [mbind option_bind]|rewrite G; cbn [mbind option_bind]].
  - intros i x Ex Hi. apply (Hb v i x); [by left|done|done].
  - intros i x Ex%lookup_lt_Some Hi. lia.
  - rewrite bool_decide_true; [done|]. left. by apply list_elem_of_lookup_2 in Ep.
  - rewrite IH.
    + f_equal. apply bool_decide_ext. rewrite Exists_cons. split; [by right|]. intros [(i & Ei)%list_elem_of_lookup|?]; [|done]. exfalso. destruct (Z.ltb_spec (Z.of_nat i) p) as [H1|H1]; [specialize (B i v Ei H1); lia|specialize (A i v Ei H1); lia].
    + lia.
    + intros w i x Hw Ex Hi. specialize (B i x Ex Hi). rewrite Forall_forall in F. specialize (F w Hw). lia.
Qed.

Lemma MvaEval_Any_ok d fs : ordered d -> ordered fs -> MvaEval_Any d fs = Some (bool_decide (Exists (λ v, v ∈ d) fs)).
Proof.
  intros S Sf. unfold MvaEval_Any. destruct d as [|a d]; [rewrite bool_decide_false; [done|]; intros (? & ? & ?)%Exists_exists; by eapply not_elem_of_nil|].
  destruct fs as [|v fs]; [rewrite bool_decide_false; [done|by intros ?%Exists_nil]|]. apply any_loop_ok; try done; intros; lia.
Qed.

Lemma MvaEval_All_ok d fs : ordered fs -> MvaEval_All d fs = bool_decide (d ≠ [] /\ Forall (λ x, x ∈ fs) d).
Proof.
  intros Sf. unfold MvaEval_All. destruct d as [|a d]; [by rewrite bool_decide_false by (by intros [? ?])|]. set (l := a :: d).
  destruct fs as [|v fs]; [rewrite bool_decide_false; [done|]; intros [_ F]; inversion F as [|? ? H _]; by apply not_elem_of_nil in H|].
  apply eq_true_iff_eq. rewrite bool_decide_eq_true, forallb_forall, Forall_forall. split.
  - intros H. split; [done|]. intros x Hx%list_elem_of_In. specialize (H x Hx). rewrite found_in_ok in H by done. by apply bool_decide_eq_true in H.
  - intros [_ H] x Hx. rewrite found_in_ok by done. apply bool_decide_eq_true, H. by apply list_elem_of_In.
Qed.

(** Whether a value is in a range. *)
Definition in_bounds (eqmin eqmax : bool) (lo hi x : Z) : Prop := (if eqmin then lo <= x else lo < x) /\ (if eqmax then x <= hi else x < hi).

Lemma below_int b x y : below KInt b x y = true <-> if b then x <= y else x < y.
Proof. destruct b; cbn; [apply Z.leb_le|apply Z.ltb_lt]. Qed.

(** The range test of ANY() is right when the lower bound is not a value of the
    set, or is itself in the range. *)
Lemma range_any_ok eqmin eqmax d lo hi : StronglySorted Z.lt d -> (lo ∉ d \/ in_bounds eqmin eqmax lo hi lo) ->
  ∃ b, MvaEval_RangeAny eqmin eqmax d lo hi = Some b /\ (b = true <-> Exists (in_bounds eqmin eqmax lo hi) d).
Proof.
  intros S Hlo. assert (ordered d) as So by (eapply BlobOk.sorted_impl; [|exact S]; cbn; lia). unfold MvaEval_RangeAny.
  destruct (mva_search_ok d lo So (Datatypes.S (length d)) 0 (len d - 1)) as (p & Hp & [[G Ep]|(G & Hl & B & A)]); [lia|lia|lia|lia|lia|intros; lia|intros i x Ex%lookup_lt_Some Hi; lia|rewrite G; cbn [mbind option_bind]|rewrite G; cbn [mbind option_bind]].
  - assert (lo ∈ d) as Hin by (by apply list_elem_of_lookup_2 in Ep). destruct Hlo as [?|Hb]; [done|]. assert (eqmin = true) as -> by (destruct Hb as [H _]; destruct eqmin; [done|lia]). cbn [orb].
    eexists. split; [done|]. split; [|done]. intros _. apply Exists_exists. by exists lo.
  - destruct (Z.eqb_spec p (len d)) as [->|N].
    + eexists. split; [done|]. split; [done|]. intros (x & (i & Ei)%list_elem_of_lookup & [H _])%Exists_exists. exfalso. specialize (B i x Ei). apply lookup_lt_Some in Ei. specialize (B ltac:(lia)). destruct eqmin; lia.
    + destruct (lookup_lt_is_Some_2 d (Z.to_nat p)) as [x Ex]; [lia|]. rewrite Ex. cbn [mbind option_bind]. eexists. split; [done|]. rewrite below_int. specialize (A _ _ Ex ltac:(lia)). split.
      * intros H. apply Exists_exists. exists x. split; [by apply list_elem_of_lookup_2 in Ex|]. split; [destruct eqmin; lia|done].
      * intros (y & (i & Ei)%list_elem_of_lookup & [H1 H2])%Exists_exists. destruct (Z.ltb_spec (Z.of_nat i) p) as [Hi|Hi]; [specialize (B i y Ei Hi); destruct eqmin; lia|].
        pose proof (ordered_at d So (Z.to_nat p) i x y ltac:(lia) Ex Ei). destruct eqmax; lia.
Qed.

(** The range test of ALL() is right when the bounds have the type of the values. *)
Lemma range_all_ok T eqmin eqmax d lo hi : 0 < bits T -> ordered d -> in_type T lo -> in_type T hi ->
  ∃ b, MvaEval_RangeAll T eqmin eqmax (mva_ptr d) lo hi = Some b /\ (b = true <-> d ≠ [] /\ Forall (in_bounds eqmin eqmax lo hi) d).
Proof.
  intros HT S Hlo Hhi. destruct d as [|a d']; [exists false; split; [done|]; split; [done|by intros [? _]]|]. cbn [mva_ptr MvaEval_RangeAll]. set (d := a :: d') in *.
  destruct (last_is_Some d) as [_ L]. destruct (L ltac:(done)) as [z Ez]. assert (d !! 0%nat = Some a) as Ea by done. rewrite Ea, Ez. cbn [mbind option_bind]. rewrite !cast_id by done. eexists. split; [done|].
  unfold EvalBlockRangeAll. rewrite andb_true_iff, !below_int. rewrite last_lookup in Ez. rewrite Forall_forall. split.
  - intros [H1 H2]. split; [done|]. intros x (i & Ei)%list_elem_of_lookup. pose proof (ordered_at d S 0 i a x ltac:(lia) Ea Ei). pose proof (ordered_at d S i (pred (length d)) x z ltac:(apply lookup_lt_Some in Ei; lia) Ei Ez).
    split; [destruct eqmin; lia|destruct eqmax; lia].
  - intros [_ H]. split; [apply (H a); by apply list_elem_of_lookup_2 in Ea|apply (H z); by apply list_elem_of_lookup_2 in Ez].
Qed.

(** ** Blocks *)

Definition is_leaf (f : ISphFilter) : bool :=
  match f with Filter_And2 _ _ | Filter_And3 _ _ _ | Filter_And _ | Filter_Or _ _ | Filter_Not _ | Filter_ProxyHeavy _ _ => false | _ => true end.

(** Induction over the parts of a filter. *)
Lemma filter_parts_ind (P : ISphFilter -> Prop) :
  (∀ f, is_leaf f = true -> P f) -> (∀ a b, P a -> P b -> P (Filter_And2 a b)) -> (∀ a b c, P a -> P b -> P c -> P (Filter_And3 a b c)) ->
  (∀ l, Forall P l -> P (Filter_And l)) -> (∀ a b, P a -> P b -> P (Filter_Or a b)) -> (∀ f, P f -> P (Filter_Not f)) -> (∀ f n, P f -> P (Filter_ProxyHeavy f n)) -> ∀ f, P f.
Proof.
  intros HL H2 H3 HA HO HN HP. fix IH 1. intros f. destruct f as [| | | | | | | | | | |a b|a b c|l|a b|f|f n]; try (apply HL; reflexivity).
  - apply H2; apply IH.
  - apply H3; apply IH.
  - apply HA. induction l as [|f l IHl]; constructor; [apply IH|exact IHl].
  - apply HO; apply IH.
  - apply HN, IH.
  - apply HP, IH.
Qed.

Lemma and_not_true a b : and_then a b = Some true <-> a = Some true /\ b = Some true.
Proof. unfold and_then. destruct a as [[|]|]; cbn; [tauto|split; [done|by intros [? _]]|split; [done|by intros [? _]]]. Qed.

Lemma and_list {A} (e : A -> option bool) l : (fix go (l : list A) : option bool := match l with [] => Some true | f :: l' => and_then (e f) (go l') end) l = Some true <-> Forall (λ f, e f = Some true) l.
Proof. induction l as [|f l IH]; [split; [constructor|done]|]. rewrite and_not_true, IH, Forall_cons. done. Qed.

Section Block.
Context (stride : Z) (dAttrs : list CSphColumnInfo).

Definition attr_of (k : kind) (l : CSphAttrLocator) : Prop := ∃ c, c ∈ dAttrs /\ has_kind k c = true /\ m_tLocator c = l.

(** The test of a block looks at the wrong bound when just one of the bounds
    belongs to the range. *)
Definition same_ends (eqmin eqmax ol or : bool) : Prop := ol = true \/ or = true \/ eqmin = eqmax.

(** What the filters of a query have: places of attributes of the right type
    for the part of the row with ranges, values in order. *)
Fixpoint filter_ok (f : ISphFilter) : Prop :=
  match f with
  | Filter_Values l d => m_bDynamic l = false -> attr_of KInt l /\ d ≠ [] /\ ordered d
  | Filter_SingleValue l _ => m_bDynamic l = false -> attr_of KInt l
  | Filter_SingleValueStatic32 l _ i => m_bDynamic l = false /\ attr_of KInt l /\ m_iBitCount l = 32 /\ i = m_iBitOffset l / 32
  | Filter_Range eqmin eqmax ol or l _ _ => m_bDynamic l = false -> attr_of KInt l /\ same_ends eqmin eqmax ol or
  | Filter_FloatRange eqmin eqmax l _ _ => m_bDynamic l = false -> attr_of KFloat l /\ same_ends eqmin eqmax false false
  | Filter_And2 a b | Filter_Or a b => filter_ok a /\ filter_ok b
  | Filter_And3 a b c => filter_ok a /\ filter_ok b /\ filter_ok c
  | Filter_And l => (fix go (l : list ISphFilter) : Prop := match l with [] => True | f :: l' => filter_ok f /\ go l' end) l
  | Filter_ProxyHeavy f _ => filter_ok f
  | _ => True
  end.

Lemma ok_list l : filter_ok (Filter_And l) <-> Forall filter_ok l.
Proof. cbn [filter_ok]. induction l as [|f l IH]; [split; [constructor|done]|]. rewrite Forall_cons, <- IH. done. Qed.

(** [lo <= v] and [v] below [b], so [lo] below [b]. *)
Lemma below_left k e lo v b : le_of k lo v = true -> below k e v b = true -> below k e lo b = true.
Proof. destruct k, e; cbn; unfold flt_le, flt_lt; repeat case_match; rewrite ?andb_true_iff, ?negb_true_iff, ?Z.leb_le, ?Z.ltb_lt; intuition (congruence || lia). Qed.
Lemma below_right k e a v hi : below k e a v = true -> le_of k v hi = true -> below k e a hi = true.
Proof. destruct k, e; cbn; unfold flt_le, flt_lt; repeat case_match; rewrite ?andb_true_iff, ?negb_true_iff, ?Z.leb_le, ?Z.ltb_lt; intuition (congruence || lia). Qed.

Lemma within_le k lo v hi : within k lo v hi -> le_of k lo v = true /\ le_of k v hi = true.
Proof. destruct k; cbn; [rewrite !Z.leb_le; lia|done]. Qed.

Lemma range_block k eqmin eqmax ol or lo v hi a b : same_ends eqmin eqmax ol or -> within k lo v hi ->
  EvalRange k eqmin eqmax ol or v a b = true -> EvalBlockRangeAny k eqmin eqmax ol or lo hi a b = true.
Proof.
  intros Hs [W1 W2]%within_le. unfold EvalRange, EvalBlockRangeAny. destruct ol; [by apply below_left|]. destruct or; [by intros; eapply below_right|].
  destruct Hs as [?|[?|<-]]; [done|done|]. rewrite !andb_true_iff. intros [H1 H2]. split; [by eapply below_left|by eapply below_right].
Qed.

Context (pMin pMax : list Z) (rows : list (list Z)).
Hypothesis H : ranges_ok stride dAttrs pMin pMax rows.

Lemma attr_ranges k l tMatch : attr_of k l -> m_bDynamic l = false -> m_pStatic tMatch ∈ rows ->
  ∃ lo v hi, attr_value k pMin l = Some lo /\ attr_value k (m_pStatic tMatch) l = Some v /\ attr_value k pMax l = Some hi /\ within k lo v hi /\ row_of tMatch l = m_pStatic tMatch.
Proof.
  intros (c & Hc & Hk & <-) Hd Hr. destruct H as (_ & _ & G). destruct (G k c _ Hc Hk Hr) as (lo & v & hi & E1 & E2 & E3 & W). exists lo, v, hi. unfold row_of. rewrite Hd. auto.
Qed.

Lemma int_value r l v : attr_value KInt r l = Some v -> sphGetRowAttr r l = Some v.
Proof. unfold attr_value. by destruct (sphGetRowAttr r l). Qed.

Lemma leaf_safe f tMatch : is_leaf f = true -> filter_ok f -> m_pStatic tMatch ∈ rows -> Eval f tMatch = Some true -> EvalBlock f pMin pMax = Some true.
Proof.
  intros Hl Hf Hr. destruct f as [l d|l r|l r i|eqmin eqmax ol or l a b|eqmin eqmax l a b| | | | | | |? ?|? ? ?|?|? ?|?|? ?]; try done; cbn [Eval EvalBlock].
  - destruct (m_bDynamic l) eqn:D; [done|]. destruct (Hf D) as (Ha & Hd & S). destruct (attr_ranges _ _ _ Ha D Hr) as (lo & v & hi & E1%int_value & E2%int_value & E3%int_value & W & Er). cbn in W.
    unfold GetAttr. rewrite Er, E1, E2, E3. cbn [mbind option_bind]. rewrite EvalValues_ok by done. intros [= Hv%bool_decide_eq_true]. f_equal. apply block_values_ok; [lia|done|]. apply Exists_exists. by exists v.
  - destruct (m_bDynamic l) eqn:D; [done|]. destruct (attr_ranges _ _ _ (Hf D) D Hr) as (lo & v & hi & E1%int_value & E2%int_value & E3%int_value & W & Er). cbn in W.
    unfold GetAttr. rewrite Er, E1, E2, E3. cbn [mbind option_bind]. intros [= ->%Z.eqb_eq]. f_equal. rewrite andb_true_iff, !Z.leb_le. lia.
  - destruct Hf as (D & Ha & Hc & ->). rewrite D. destruct (attr_ranges _ _ _ Ha D Hr) as (lo & v & hi & E1%int_value & E2%int_value & E3%int_value & W & Er). cbn in W.
    rewrite E1, E3. unfold sphGetRowAttr in E2. rewrite Hc in E2. unfold ROWITEM_SHIFT in E2. rewrite shift5 in E2. change (32 =? ROWITEM_BITS) with true in E2. cbn match in E2. rewrite E2. cbn [mbind option_bind].
    intros [= ->%Z.eqb_eq]. f_equal. rewrite andb_true_iff, !Z.leb_le. lia.
  - destruct (m_bDynamic l) eqn:D; [done|]. destruct (Hf D) as (Ha & Hs). destruct (attr_ranges _ _ _ Ha D Hr) as (lo & v & hi & E1%int_value & E2%int_value & E3%int_value & W & Er).
    unfold GetAttr. rewrite Er, E1, E2, E3. cbn [mbind option_bind]. intros [= Hv]. f_equal. by apply (range_block KInt _ _ _ _ lo v hi).
  - destruct (m_bDynamic l) eqn:D; [done|]. destruct (Hf D) as (Ha & Hs). destruct (attr_ranges _ _ _ Ha D Hr) as (lo & v & hi & E1 & E2 & E3 & W & Er).
    unfold GetAttrFloat, GetAttr. rewrite Er, E1, E3. unfold attr_value in E2. destruct (sphGetRowAttr (m_pStatic tMatch) l); [|done]. cbn [mbind option_bind fmap option_fmap option_map] in *. injection E2 as <-.
    intros [= Hv]. f_equal. eapply (range_block KFloat _ _ false false); [exact Hs|exact W|exact Hv].
Qed.

Lemma and_some a b : is_Some a -> is_Some b -> is_Some (and_then a b).
Proof. intros [[|] ->] [y ->]; by eexists. Qed.

Lemma block_defined f tMatch : filter_ok f -> m_pStatic tMatch ∈ rows -> is_Some (EvalBlock f pMin pMax).
Proof.
  intros Hf Hr. induction f as [f Hl|a b IHa IHb|a b c IHa IHb IHc|l IH|a b IHa IHb|f IH|f n IH] using filter_parts_ind; cbn [EvalBlock].
  - destruct f as [l d|l r|l r i|eqmin eqmax ol or l a b|eqmin eqmax l a b| | | | | | |? ?|? ? ?|?|? ?|?|? ?]; try done; cbn [EvalBlock]; try (by eexists).
    all: try (destruct (m_bDynamic l) eqn:D; [done|]; specialize (Hf D)).
    all: try (destruct Hf as (D & Hf & _ & _); rewrite D).
    all: first [assert (attr_of KInt l) as Ha by (exact Hf || exact (proj1 Hf)) | assert (attr_of KFloat l) as Ha by (exact (proj1 Hf))]; destruct (attr_ranges _ _ _ Ha D Hr) as (lo & v & hi & E1 & _ & E3 & _ & _);
      try (apply int_value in E1, E3); rewrite E1, E3; by eexists.
  - destruct Hf. by apply and_some; auto.
  - destruct Hf as (? & ? & ?). by repeat apply and_some; auto.
  - apply ok_list in Hf. induction IH as [|f l H1 _ IHl]; [by eexists|]. apply Forall_cons in Hf as [? ?]. by apply and_some; auto.
  - destruct Hf as [H1 H2]. destruct (IHa H1) as [[|] ->], (IHb H2) as [? ->]; by eexists.
  - by eexists.
  - auto.
Qed.

Lemma block_safe f : ∀ tMatch, filter_ok f -> m_pStatic tMatch ∈ rows -> Eval f tMatch = Some true -> EvalBlock f pMin pMax = Some true.
Proof.
  induction f as [f Hl|a b IHa IHb|a b c IHa IHb IHc|l IH|a b IHa IHb|f IH|f n IH] using filter_parts_ind; intros tMatch Hf Hr.
  - by apply leaf_safe.
  - cbn [Eval EvalBlock]. rewrite !and_not_true. destruct Hf. intros [? ?]. split; eauto.
  - cbn [Eval EvalBlock]. rewrite !and_not_true. destruct Hf as (? & ? & ?). intros (? & ? & ?). repeat split; eauto.
  - cbn [Eval EvalBlock]. rewrite !and_list. apply ok_list in Hf. rewrite !Forall_forall in *. eauto.
  - cbn [Eval EvalBlock]. destruct Hf as [Ha Hb]. unfold or_else. destruct (Eval a tMatch) as [[|]|] eqn:E; cbn [mbind option_bind]; [|intros Eb|done].
    + intros _. by rewrite (IHa tMatch).
    + rewrite (IHb tMatch Hb Hr Eb). destruct (block_defined a tMatch Ha Hr) as [[|] ->]; done.
  - done.
  - cbn [Eval EvalBlock]. by apply IH.
Qed.
End Block.

(** [C30] The block test is safe: when the two rows of ranges hold the values of
    the rows of a block, the test of a filter on that block is defined, and if it
    says no, no match on a row of the block passes the filter, whatever its
    dynamic attributes and its weight. The filter may be any combination of
    filters whose ranges have both ends closed, both open, or one side unbounded. *)
Theorem filter_block_safe stride dAttrs pMin pMax rows f : ranges_ok stride dAttrs pMin pMax rows -> rows ≠ [] -> filter_ok dAttrs f ->
  ∃ b, EvalBlock f pMin pMax = Some b /\ (b = false -> ∀ tMatch, m_pStatic tMatch ∈ rows -> Eval f tMatch ≠ Some true).
Proof.
  intros H Hr Hf. destruct rows as [|r rows']; [done|]. set (rows := r :: rows') in *.
  destruct (block_defined stride dAttrs pMin pMax rows H f (Match_ r [] 0 (λ _, None)) Hf) as [b E]; [by left|].
  exists b. split; [done|]. intros -> tMatch Hm Ht. rewrite (block_safe stride dAttrs pMin pMax rows H f tMatch Hf Hm Ht) in E. done.
Qed.

Definition demo_loc : CSphAttrLocator := AttrLocator 0 32 (-1) 1 0 false.
Definition demo_attrs : list CSphColumnInfo := [ColumnInfo "x" SPH_ATTR_INTEGER false demo_loc WORD_NONE].

Lemma demo_ranges_ok lo hi (rows : list Z) : Forall (in_type DWORD) [lo; hi] -> Forall (λ v, lo <= v <= hi) rows -> ranges_ok 1 demo_attrs [lo] [hi] (map (λ v, [v]) rows).
Proof.
  intros T F. inversion T as [|? ? T1 T']; subst. inversion T' as [|? ? T2 _]; subst. split; [split; [done|by constructor]|]. split; [split; [done|by constructor]|].
  intros k c r Hc Hk Hr. apply list_elem_of_singleton in Hc as ->. destruct k; [|done]. apply list_elem_of_fmap in Hr as (v & -> & Hv). rewrite Forall_forall in F. exists lo, v, hi. split; [done|]. split; [done|]. split; [done|]. by apply F.
Qed.

Lemma filter_block_safe_witness : ∃ b, EvalBlock (Filter_Or (Filter_Range true true false false demo_loc 6 9) (Filter_Values demo_loc [1; 20])) [3] [5] = Some b /\ b = false.
Proof.
  destruct (filter_block_safe 1 demo_attrs [3] [5] (map (λ v, [v]) [3; 5; 4]) (Filter_Or (Filter_Range true true false false demo_loc 6 9) (Filter_Values demo_loc [1; 20]))) as (b & E & _).
  - apply demo_ranges_ok; repeat constructor; lia || in_range.
  - done.
  - assert (attr_of demo_attrs KInt demo_loc) as A by (eexists; split; [by left|done]). split; intros _; (split; [exact A|]); [right; right; reflexivity|]. split; [done|]. repeat constructor; lia.
  - exists b. split; [exact E|]. by injection E.
Defined.
End FilterOk.
