(* ===== verification/FilterCreate.v ===== *)
(** * Making filters from the settings of a query (src/src/sphinxfilter.cpp)

    The filter on a plain attribute or on the weight, and the combination of the
    filters of a query: the conjunction of all of them, or a tree. *)

From stdpp Require Import strings sorting.
From S2P Require Import Prelude BitCount RowAttr Schema MinMax AttrUpdate Sort Blob Filter.
Import RowAttr Schema MinMax AttrUpdate Sort Filter.

Module FilterCreate.

(** ** Settings *)

Inductive ESphFilter :=
  | SPH_FILTER_VALUES | SPH_FILTER_RANGE | SPH_FILTER_FLOATRANGE | SPH_FILTER_STRING | SPH_FILTER_NULL
  | SPH_FILTER_USERVAR | SPH_FILTER_STRING_LIST | SPH_FILTER_EXPRESSION.

#[export] Instance ESphFilter_eq_dec : EqDecision ESphFilter.
Proof. solve_decision. Defined.

Inductive ESphMvaFunc := SPH_MVAFUNC_NONE | SPH_MVAFUNC_ANY | SPH_MVAFUNC_ALL.

#[export] Instance ESphMvaFunc_eq_dec : EqDecision ESphMvaFunc.
Proof. solve_decision. Defined.

(** The bounds are a number or, in the low half of the same memory, a float. *)
Record CommonFilterSettings_t := CommonFilterSettings {
  m_eType : ESphFilter;
  m_iMinValue : Z;
  m_iMaxValue : Z;
  m_bHasEqualMin : bool;
  m_bHasEqualMax : bool;
  m_bOpenLeft : bool;
  m_bOpenRight : bool;
  m_bExclude : bool
}.

Definition m_fMinValue (s : CommonFilterSettings_t) : Z := cast DWORD (m_iMinValue s).
Definition m_fMaxValue (s : CommonFilterSettings_t) : Z := cast DWORD (m_iMaxValue s).

(** A store to the float of the union. *)
Definition store_float (u f : Z) : Z := cast int64_t (Z.lor (Z.shiftl (Z.shiftr u 32) 32) f).

Record CSphFilterSettings := FilterSettings {
  s_common : CommonFilterSettings_t;
  m_sAttrName : string;
  m_eMvaFunc : ESphMvaFunc;
  m_dValues : list Z;
  m_dExtValues : list Z
}.

Definition GetValues (s : CSphFilterSettings) : list Z := match m_dExtValues s with [] => m_dValues s | d => d end.

Definition set_type (e : ESphFilter) (s : CommonFilterSettings_t) : CommonFilterSettings_t :=
  CommonFilterSettings e (m_iMinValue s) (m_iMaxValue s) (m_bHasEqualMin s) (m_bHasEqualMax s) (m_bOpenLeft s) (m_bOpenRight s) (m_bExclude s).
Definition set_floats (lo hi : Z) (s : CommonFilterSettings_t) : CommonFilterSettings_t :=
  CommonFilterSettings (m_eType s) (store_float (m_iMinValue s) lo) (store_float (m_iMaxValue s) hi) (m_bHasEqualMin s) (m_bHasEqualMax s) (m_bOpenLeft s) (m_bOpenRight s) (m_bExclude s).

(** [FixupFilterSettings] by the type of the attribute; [(float)] of a number is
    [int_to_float]. *)
Definition FixupFilterSettings (tSettings : CSphFilterSettings) (eAttrType : ESphAttr) : CommonFilterSettings_t :=
  let s := s_common tSettings in
  match eAttrType with
  | SPH_ATTR_INTEGER =>
      match m_eType s with
      | SPH_FILTER_RANGE =>
          let t := if negb (m_bOpenLeft s) && (m_iMinValue s <? 0)
                   then CommonFilterSettings (m_eType s) LLONG_MIN (m_iMaxValue s) false (m_bHasEqualMax s) true (m_bOpenRight s) (m_bExclude s) else s in
          if negb (m_bOpenRight s) && (m_iMaxValue t <? 0)
          then CommonFilterSettings (m_eType t) (m_iMinValue t) 0 (m_bHasEqualMin t) true (m_bOpenLeft t) (m_bOpenRight t) (m_bExclude t) else t
      | _ => s
      end
  | SPH_ATTR_FLOAT =>
      match m_eType s, GetValues tSettings with
      | SPH_FILTER_VALUES, [v] => set_floats (int_to_float v) (int_to_float v) (set_type SPH_FILTER_FLOATRANGE s)
      | SPH_FILTER_RANGE, _ => set_floats (int_to_float (m_iMinValue s)) (int_to_float (m_iMaxValue s)) (set_type SPH_FILTER_FLOATRANGE s)
      | _, _ => s
      end
  | _ => s
  end.

(** ** Creation *)

(** An error of [ReportError], or a kind of filter that is not modelled. *)
Inductive created := Created (f : ISphFilter) | Failed | NotModelled.

Definition is_int64 (e : ESphAttr) : bool := match e with SPH_ATTR_INT64SET | SPH_ATTR_INT64SET_PTR => true | _ => false end.

(** The filters on an attribute: [CreateFilter] with its range macros. The
    members are set afterwards. *)
Definition new_filter (tSettings : CSphFilterSettings) (eFilterType : ESphFilter) (eAttrType : ESphAttr) (tLoc : CSphAttrLocator) : created :=
  let s := s_common tSettings in
  let l := new_locator in
  if IsMvaAttr eAttrType then
    let T := if is_int64 eAttrType then int64_t else DWORD in
    let bAll := bool_decide (m_eMvaFunc tSettings = SPH_MVAFUNC_ALL) in
    match eFilterType with
    | SPH_FILTER_VALUES => Created (if bAll then Filter_MVAValues_All T l [] [] else Filter_MVAValues_Any T l [] [])
    | SPH_FILTER_RANGE =>
        Created (if bAll then Filter_MVARange_All T (m_bHasEqualMin s) (m_bHasEqualMax s) l 0 0 [] else Filter_MVARange_Any T (m_bHasEqualMin s) (m_bHasEqualMax s) l 0 0 [])
    | _ => Failed
    end
  else
    match eAttrType with
    | SPH_ATTR_FLOAT =>
        match eFilterType with
        | SPH_FILTER_FLOATRANGE | SPH_FILTER_RANGE => Created (Filter_FloatRange (m_bHasEqualMin s) (m_bHasEqualMax s) l 0 0)
        | _ => Failed
        end
    | SPH_ATTR_STRING | SPH_ATTR_STRINGPTR => NotModelled
    | _ =>
        match eFilterType with
        | SPH_FILTER_VALUES =>
            if (length (GetValues tSettings) =? 1)%nat && match eAttrType with SPH_ATTR_INTEGER | SPH_ATTR_BIGINT | SPH_ATTR_TOKENCOUNT => true | _ => false end
            then
              if match eAttrType with SPH_ATTR_INTEGER | SPH_ATTR_TOKENCOUNT => true | _ => false end
                 && negb (m_bDynamic tLoc) && (m_iBitCount tLoc =? 32) && (m_iBitOffset tLoc mod 32 =? 0)
              then Created (Filter_SingleValueStatic32 l 0 0) else Created (Filter_SingleValue l 0)
            else Created (Filter_Values l [])
        | SPH_FILTER_RANGE =>
            if m_bOpenLeft s then Created (Filter_Range true (m_bHasEqualMax s) true false l 0 0)
            else if m_bOpenRight s then Created (Filter_Range (m_bHasEqualMin s) true false true l 0 0)
            else Created (Filter_Range (m_bHasEqualMin s) (m_bHasEqualMax s) false false l 0 0)
        | _ => Failed
        end
    end.

Definition CreateSpecialFilter (tSettings : CSphFilterSettings) : created :=
  let s := s_common tSettings in
  match m_eType s with
  | SPH_FILTER_VALUES => Created (Filter_WeightValues [])
  | SPH_FILTER_RANGE => Created (Filter_WeightRange (m_bHasEqualMin s) (m_bHasEqualMax s) 0 0)
  | _ => Failed
  end.

(** *** The setters *)

Definition SetLocator (l : CSphAttrLocator) (f : ISphFilter) : ISphFilter :=
  match f with
  | Filter_Values _ d => Filter_Values l d
  | Filter_SingleValue _ r => Filter_SingleValue l r
  | Filter_SingleValueStatic32 _ r _ => Filter_SingleValueStatic32 l r (m_iBitOffset l / 32)
  | Filter_Range a b c d _ lo hi => Filter_Range a b c d l lo hi
  | Filter_FloatRange a b _ lo hi => Filter_FloatRange a b l lo hi
  | Filter_MVAValues_Any T _ d p => Filter_MVAValues_Any T l d p
  | Filter_MVAValues_All T _ d p => Filter_MVAValues_All T l d p
  | Filter_MVARange_Any T a b _ lo hi p => Filter_MVARange_Any T a b l lo hi p
  | Filter_MVARange_All T a b _ lo hi p => Filter_MVARange_All T a b l lo hi p
  | _ => f
  end.

Definition SetRange (lo hi : Z) (f : ISphFilter) : ISphFilter :=
  match f with
  | Filter_Range a b c d l _ _ => Filter_Range a b c d l lo hi
  | Filter_WeightRange a b _ _ => Filter_WeightRange a b lo hi
  | Filter_MVARange_Any T a b l _ _ p => Filter_MVARange_Any T a b l lo hi p
  | Filter_MVARange_All T a b l _ _ p => Filter_MVARange_All T a b l lo hi p
  | _ => f
  end.

Definition SetRangeFloat (lo hi : Z) (f : ISphFilter) : ISphFilter :=
  match f with Filter_FloatRange a b l _ _ => Filter_FloatRange a b l lo hi | _ => f end.

Definition SetValues (d : list Z) (f : ISphFilter) : ISphFilter :=
  match f with
  | Filter_Values l _ => Filter_Values l d
  | Filter_SingleValue l _ => Filter_SingleValue l (hd 0 d)
  | Filter_SingleValueStatic32 l _ i => Filter_SingleValueStatic32 l (hd 0 d) i
  | Filter_WeightValues _ => Filter_WeightValues d
  | Filter_MVAValues_Any T l _ p => Filter_MVAValues_Any T l d p
  | Filter_MVAValues_All T l _ p => Filter_MVAValues_All T l d p
  | _ => f
  end.

Definition SetBlobStorage (p : list Z) (f : ISphFilter) : ISphFilter :=
  match f with
  | Filter_MVAValues_Any T l d _ => Filter_MVAValues_Any T l d p
  | Filter_MVAValues_All T l d _ => Filter_MVAValues_All T l d p
  | Filter_MVARange_Any T a b l lo hi _ => Filter_MVARange_Any T a b l lo hi p
  | Filter_MVARange_All T a b l lo hi _ => Filter_MVARange_All T a b l lo hi p
  | _ => f
  end.

Definition SetFilterSettings (tSettings : CSphFilterSettings) (tFixed : CommonFilterSettings_t) (pBlobPool : list Z) (f : ISphFilter) : ISphFilter :=
  let f := SetBlobStorage pBlobPool f in
  let f := SetRange (m_iMinValue (s_common tSettings)) (m_iMaxValue (s_common tSettings)) f in
  let f := match m_eType tFixed with SPH_FILTER_FLOATRANGE => SetRangeFloat (m_fMinValue tFixed) (m_fMaxValue tFixed) f | _ => f end in
  match GetValues tSettings with [] => f | d => SetValues d f end.

(** The filters that are modelled do not exclude by themselves. *)
Definition TryToCreateExcludeFilter (tSettings : CSphFilterSettings) (f : ISphFilter) : ISphFilter :=
  if m_bExclude (s_common tSettings) then Filter_Not f else f.

(** Filters for numbers on a string attribute and for strings on another one are
    refused. *)
Definition filter_allowed (e : ESphFilter) (eAttrType : ESphAttr) : bool :=
  match e with
  | SPH_FILTER_VALUES | SPH_FILTER_RANGE | SPH_FILTER_FLOATRANGE => match eAttrType with SPH_ATTR_STRING | SPH_ATTR_STRINGPTR => false | _ => true end
  | SPH_FILTER_STRING | SPH_FILTER_STRING_LIST =>
      match eAttrType with SPH_ATTR_STRING | SPH_ATTR_STRINGPTR | SPH_ATTR_JSON | SPH_ATTR_JSON_FIELD | SPH_ATTR_JSON_FIELD_PTR => true | _ => false end
  | _ => true
  end.

(** [CreateFilter] for the attribute [tAttr] of the schema, which is neither
    columnar nor computed nor JSON. *)
Definition CreateFilter (tSettings : CSphFilterSettings) (tAttr : CSphColumnInfo) (pBlobPool : list Z) : created :=
  if negb (filter_allowed (m_eType (s_common tSettings)) (m_eAttrType tAttr)) then Failed
  else
    let tFixed := FixupFilterSettings tSettings (m_eAttrType tAttr) in
    match new_filter tSettings (m_eType tFixed) (m_eAttrType tAttr) (m_tLocator tAttr) with
    | Created f => Created (TryToCreateExcludeFilter tSettings (SetFilterSettings tSettings tFixed pBlobPool (SetLocator (m_tLocator tAttr) f)))
    | r => r
    end.

(** [CreateFilter] for [@weight]. *)
Definition CreateWeightFilter (tSettings : CSphFilterSettings) : created :=
  match CreateSpecialFilter tSettings with
  | Created f => Created (TryToCreateExcludeFilter tSettings (SetFilterSettings tSettings (s_common tSettings) [] f))
  | r => r
  end.

(** [sphCreateFilter], for the weight and the attributes of a schema that are stored in
    the rows: filters on columnar attributes, JSON and expressions are not modelled. *)
Definition sphCreateFilter (hash : string -> Z) (tSchema : CSphSchema) (pBlobPool : list Z) (tSettings : CSphFilterSettings) : option ISphFilter :=
  let made r := match r with Created f => Some f | _ => None end in
  if decide (m_sAttrName tSettings ∈ ["@groupby"; "@count"; "@distinct"]%string) then None
  else if decide (m_sAttrName tSettings = "@weight"%string) then made (CreateWeightFilter tSettings)
  else
    iAttr ← GetAttrIndex hash (m_sAttrName tSettings) tSchema;
    if iAttr <? 0 then None
    else
      tAttr ← m_dAttrs tSchema !! Z.to_nat iAttr;
      if m_bColumnar tAttr then None else made (CreateFilter tSettings tAttr pBlobPool).

(** [IsWeightColumn], without columns that are aliases of the weight. *)
Definition IsWeightColumn (sAttr : string) : bool := bool_decide (sAttr = "@weight"%string).

(** ** Combination *)

(** [ISphFilter::Join] and its overrides. *)
Definition Join (a b : ISphFilter) : ISphFilter :=
  match a with
  | Filter_And2 x y => Filter_And2 x (Filter_And2 y b)
  | Filter_And3 x y z => Filter_And3 x y (Filter_And2 z b)
  | Filter_And l => Filter_And (l ++ [b])
  | _ => Filter_And [a; b]
  end.

Definition sphJoinFilters (a b : option ISphFilter) : option ISphFilter :=
  match a, b with
  | None, b => b
  | a, None => a
  | Some a, Some b => Some (Join a b)
  end.

Record FilterInfo_t := FilterInfo { fi_pFilter : ISphFilter; m_iSelectivity : Z; m_iOrder : Z }.

Definition info_less (a b : FilterInfo_t) : bool :=
  if m_iSelectivity a =? m_iSelectivity b then m_iOrder a <? m_iOrder b else m_iSelectivity a <? m_iSelectivity b.

(** [None] outside: the sort does not end. *)
Definition ReorderAndCombine (dFilters : list FilterInfo_t) : option (option ISphFilter) :=
  match dFilters with
  | [i] => Some (Some (fi_pFilter i))
  | _ =>
      dFilters ← sphSort info_less dFilters;
      Some (fold_left (λ p i, sphJoinFilters p (Some (fi_pFilter i))) dFilters None)
  end.

Record FilterTreeItem_t := FilterTreeItem { m_iLeft : Z; m_iRight : Z; m_iFilterItem : Z; m_bOr : bool }.

Section Tree.
Context (hash : string -> Z) (tSchema : CSphSchema) (pBlobPool : list Z).
Abbreviation sphCreateFilter := (sphCreateFilter hash tSchema pBlobPool).

(** [CreateFilterNode]; [None] outside is a node or a filter out of range, or a
    tree with a circle, inside an error. *)
Fixpoint CreateFilterNode (fuel : nat) (dTree : list FilterTreeItem_t) (dFilters : list CSphFilterSettings) (iNode : Z) : option (option ISphFilter * bool) :=
  match fuel with
  | O => None
  | S fuel' =>
      pCur ← dTree !! Z.to_nat iNode;
      if negb (m_iFilterItem pCur =? -1) then
        pSettings ← dFilters !! Z.to_nat (m_iFilterItem pCur);
        if decide (m_sAttrName pSettings = ""%string) then Some (None, false)
        else Some (sphCreateFilter pSettings, IsWeightColumn (m_sAttrName pSettings))
      else
        '(pLeft, bW1) ← CreateFilterNode fuel' dTree dFilters (m_iLeft pCur);
        '(pRight, bW2) ← CreateFilterNode fuel' dTree dFilters (m_iRight pCur);
        Some (match pLeft, pRight with
              | Some a, Some b => Some (if m_bOr pCur then Filter_Or a b else Filter_And2 a b)
              | _, _ => None
              end, bW1 || bW2)
  end.

(** The filter and the weight filter of the query; the flag says whether they
    were created. *)
Definition CreateFilterTree (dTree : list FilterTreeItem_t) (dFilters : list CSphFilterSettings) : option (bool * option ISphFilter * option ISphFilter) :=
  '(f, bWeight) ← CreateFilterNode (length dTree) dTree dFilters (Z.of_nat (length dTree) - 1);
  Some (match f with
        | None => (false, None, None)
        | Some f => if (bWeight : bool) then (true, None, Some f) else (true, Some f, None)
        end).

Variable EstimateFilterSelectivity : CSphFilterSettings -> Z.

(** The loop over the filters; [None] inside when one is not created. *)
Fixpoint create_all (bScan bSingle : bool) (i : Z) (l : list CSphFilterSettings) : option (list FilterInfo_t * list FilterInfo_t) :=
  match l with
  | [] => Some ([], [])
  | s :: l' =>
      if decide (m_sAttrName s = ""%string) then create_all bScan bSingle (i + 1) l'
      else if bool_decide (m_sAttrName s = "@rowid"%string) && bool_decide (m_eType (s_common s) = SPH_FILTER_RANGE) then create_all bScan bSingle (i + 1) l'
      else if bScan && IsWeightColumn (m_sAttrName s) then create_all bScan bSingle (i + 1) l'
      else
        f ← sphCreateFilter s;
        let info := FilterInfo f (if bSingle then LLONG_MAX else EstimateFilterSelectivity s) i in
        '(a, b) ← create_all bScan bSingle (i + 1) l';
        Some (if IsWeightColumn (m_sAttrName s) then (a, info :: b) else (info :: a, b))
  end.

Definition TREE_SIZE_THRESH : nat := 50.

(** [CreateFiltersFromSettings]; [iStack] is what [EvalStackForExpr] says a tree
    of more than 50 items needs, -1 if the stack is large enough. Filters by
    user variables are left out. *)
Definition CreateFiltersFromSettings (bScan : bool) (iStack : Z) (dTree : list FilterTreeItem_t) (dFilters : list CSphFilterSettings) :
    option (bool * option ISphFilter * option ISphFilter) :=
  let iStackNeeded := if (TREE_SIZE_THRESH <? length dTree)%nat then iStack else -1 in
  match dFilters with
  | [] => Some (true, None, None)
  | _ =>
      (* the filters so far and those of all settings, which replace them *)
      let all pFilter pWeightFilter :=
        match create_all bScan (length dFilters =? 1)%nat 0 dFilters with
        | None => Some (false, pFilter, pWeightFilter)
        | Some (a, b) => f ← ReorderAndCombine a; w ← ReorderAndCombine b; Some (true, f, w)
        end in
      match dTree with
      | [] => all None None
      | _ =>
          '(bResult, pFilter, pWeightFilter) ← CreateFilterTree dTree dFilters;
          if iStackNeeded <? 0 then Some (bResult, pFilter, pWeightFilter)
          else
            match pWeightFilter with
            | Some w => all pFilter (Some (Filter_ProxyHeavy w iStackNeeded))
            | None => all ((λ f, Filter_ProxyHeavy f iStackNeeded) <$> pFilter) None
            end
      end
  end.
End Tree.
End FilterCreate.
