(* ===== verification/FilterCreateOk.v ===== *)
(** * The filters of a query mean what its settings say *)

From stdpp Require Import sorting strings.
From S2P Require Import Prelude BitCount Hits RowAttr Schema SchemaOk MinMax MinMaxOk AttrUpdate Sort SortOk Blob BlobOk BinSearch Filter FilterOk FilterCreate.
Import RowAttr Schema MinMax AttrUpdate Sort Blob Filter FilterOk FilterCreate.

Module FilterCreateOk.

(** ** One filter *)

(** The range of the settings, with its unbounded sides. *)
Definition range_selects (s : CommonFilterSettings_t) (v : Z) : bool :=
  (m_bOpenLeft s || below KInt (m_bHasEqualMin s) (m_iMinValue s) v) && (m_bOpenRight s || below KInt (m_bHasEqualMax s) v (m_iMaxValue s)).

Definition int_type (e : ESphAttr) : bool :=
  match e with SPH_ATTR_INTEGER | SPH_ATTR_TIMESTAMP | SPH_ATTR_BOOL | SPH_ATTR_BIGINT | SPH_ATTR_TOKENCOUNT => true | _ => false end.

(** Whether a number is selected, by a set of values or a range. *)
Definition int_selects (s : CSphFilterSettings) (v : Z) : bool :=
  match m_eType (s_common s) with SPH_FILTER_RANGE => range_selects (s_common s) v | _ => bool_decide (v ∈ GetValues s) end.

Definition int_settings (s : CSphFilterSettings) : Prop :=
  (m_eType (s_common s) = SPH_FILTER_VALUES /\ GetValues s ≠ [] /\ ordered (GetValues s)) \/
  (m_eType (s_common s) = SPH_FILTER_RANGE /\ ¬ (m_bOpenLeft (s_common s) = true /\ m_bOpenRight (s_common s) = true)).

(** The bounds of a filter on floats: a range of floats or of numbers, or one
    number. The unbounded sides have the largest floats as their bounds. *)
Definition float_bounds (s : CSphFilterSettings) : option (Z * Z) :=
  match m_eType (s_common s), GetValues s with
  | SPH_FILTER_FLOATRANGE, _ => Some (m_fMinValue (s_common s), m_fMaxValue (s_common s))
  | SPH_FILTER_RANGE, _ => Some (cast DWORD (int_to_float (m_iMinValue (s_common s))), cast DWORD (int_to_float (m_iMaxValue (s_common s))))
  | SPH_FILTER_VALUES, [v] => Some (cast DWORD (int_to_float v), cast DWORD (int_to_float v))
  | _, _ => None
  end.

Lemma store_float_low u f : cast DWORD (store_float u f) = cast DWORD f.
Proof.
  unfold store_float. apply (cast_eq DWORD). change (bits DWORD) with 32. assert (∀ x, cast int64_t x mod 2 ^ 32 = x mod 2 ^ 32) as C.
  { intros x. pose proof (cast_cong int64_t x) as E. change (bits int64_t) with 64 in E.
    assert ((2 ^ 32 | 2 ^ 64)) as Dv by (by exists (2 ^ 32)). rewrite <- (Z.mod_mod_divide (cast int64_t x) (2 ^ 64) (2 ^ 32) Dv), E. by apply Z.mod_mod_divide. }
  rewrite C. apply Z.bits_inj'. intros k Hk. destruct (decide (k < 32)).
  - rewrite !Z.mod_pow2_bits_low, Z.lor_spec, Z.shiftl_spec_low by lia. done.
  - by rewrite !Z.mod_pow2_bits_high by lia.
Qed.

(** The sets a filter sees. *)
Definition set_type_of (e : ESphAttr) : ctype := if is_int64 e then int64_t else DWORD.

(** Whether a set is selected. *)
Definition set_selects (s : CSphFilterSettings) (d : list Z) : Prop :=
  let inside x := match m_eType (s_common s) with
                  | SPH_FILTER_RANGE => in_bounds (m_bHasEqualMin (s_common s)) (m_bHasEqualMax (s_common s)) (m_iMinValue (s_common s)) (m_iMaxValue (s_common s)) x
                  | _ => x ∈ GetValues s
                  end in
  if decide (m_eMvaFunc s = SPH_MVAFUNC_ALL) then d ≠ [] /\ Forall inside d else Exists inside d.

(** For ANY() the lower bound of a range must not be a value of the set unless it
    is in the range itself, for ALL() the bounds must have the type of the
    values. *)
Definition set_settings (s : CSphFilterSettings) (T : ctype) (d : list Z) : Prop :=
  let c := s_common s in
  (m_eType c = SPH_FILTER_VALUES /\ GetValues s ≠ [] /\ ordered (GetValues s)) \/
  (m_eType c = SPH_FILTER_RANGE /\
   if decide (m_eMvaFunc s = SPH_MVAFUNC_ALL) then in_type T (m_iMinValue c) /\ in_type T (m_iMaxValue c)
   else m_iMinValue c ∉ d \/ in_bounds (m_bHasEqualMin c) (m_bHasEqualMax c) (m_iMinValue c) (m_iMaxValue c) (m_iMinValue c)).

Lemma exclude_ok s f m b : Eval f m = Some b -> Eval (TryToCreateExcludeFilter s f) m = Some (xorb (m_bExclude (s_common s)) b).
Proof. intros E. unfold TryToCreateExcludeFilter. destruct (m_bExclude (s_common s)); cbn [Eval]; rewrite E; [by destruct b|done]. Qed.

Lemma values_set s pool fixed f : GetValues s ≠ [] -> m_eType fixed ≠ SPH_FILTER_FLOATRANGE ->
  SetFilterSettings s fixed pool f = SetValues (GetValues s) (SetRange (m_iMinValue (s_common s)) (m_iMaxValue (s_common s)) (SetBlobStorage pool f)).
Proof. intros Hv Ht. unfold SetFilterSettings. destruct (GetValues s); [done|]. by destruct (m_eType fixed). Qed.

Lemma static32_value m l v : m_bDynamic l = false -> m_iBitCount l = 32 -> GetAttr m l = Some v -> item (m_pStatic m) (m_iBitOffset l / 32) = Some v.
Proof. intros D C. unfold GetAttr, row_of, sphGetRowAttr, ROWITEM_SHIFT. rewrite D, C, shift5. done. Qed.

Lemma range_eval s v : ¬ (m_bOpenLeft s = true /\ m_bOpenRight s = true) ->
  (if m_bOpenLeft s then EvalRange KInt true (m_bHasEqualMax s) true false v (m_iMinValue s) (m_iMaxValue s)
   else if m_bOpenRight s then EvalRange KInt (m_bHasEqualMin s) true false true v (m_iMinValue s) (m_iMaxValue s)
   else EvalRange KInt (m_bHasEqualMin s) (m_bHasEqualMax s) false false v (m_iMinValue s) (m_iMaxValue s)) = range_selects s v.
Proof. intros H. unfold range_selects, EvalRange. destruct (m_bOpenLeft s), (m_bOpenRight s); cbn [orb andb]; try done; [by destruct H|by rewrite andb_true_r]. Qed.

Lemma fixup_type s e : e ≠ SPH_ATTR_FLOAT -> m_eType (FixupFilterSettings s e) = m_eType (s_common s).
Proof. intros N. unfold FixupFilterSettings. destruct e; try done. destruct (m_eType (s_common s)) eqn:E; try done. repeat case_match; cbn; done. Qed.

Lemma int_filter s c pool : int_type (m_eAttrType c) = true -> int_settings s ->
  ∃ f, CreateFilter s c pool = Created f /\ ∀ m v, GetAttr m (m_tLocator c) = Some v -> Eval f m = Some (xorb (m_bExclude (s_common s)) (int_selects s v)).
Proof.
  intros Hi Hs. assert (m_eAttrType c ≠ SPH_ATTR_FLOAT) as Nf by (by destruct (m_eAttrType c)). assert (filter_allowed (m_eType (s_common s)) (m_eAttrType c) = true) as Ha.
  { destruct Hs as [[-> _]|[-> _]]; by destruct (m_eAttrType c). }
  unfold CreateFilter. rewrite Ha. cbn [negb]. rewrite fixup_type by done. pose proof (fixup_type s _ Nf) as Et. set (fixed := FixupFilterSettings s (m_eAttrType c)) in *.
  assert (IsMvaAttr (m_eAttrType c) = false) as Nm by (by destruct (m_eAttrType c)). unfold new_filter. rewrite Nm.
  destruct Hs as [(T & Hv & So)|(T & Ho)]; rewrite T in *.
  - assert (∃ f, match m_eAttrType c with
             | SPH_ATTR_FLOAT => Failed
             | SPH_ATTR_STRING | SPH_ATTR_STRINGPTR => NotModelled
             | _ => if (length (GetValues s) =? 1)%nat && match m_eAttrType c with SPH_ATTR_INTEGER | SPH_ATTR_BIGINT | SPH_ATTR_TOKENCOUNT => true | _ => false end
                    then if match m_eAttrType c with SPH_ATTR_INTEGER | SPH_ATTR_TOKENCOUNT => true | _ => false end && negb (m_bDynamic (m_tLocator c)) && (m_iBitCount (m_tLocator c) =? 32) && (m_iBitOffset (m_tLocator c) mod 32 =? 0)
                         then Created (Filter_SingleValueStatic32 new_locator 0 0) else Created (Filter_SingleValue new_locator 0)
                    else Created (Filter_Values new_locator [])
             end = Created f /\ ∀ m v, GetAttr m (m_tLocator c) = Some v -> Eval (SetFilterSettings s fixed pool (SetLocator (m_tLocator c) f)) m = Some (bool_decide (v ∈ GetValues s))) as (f & Ef & G).
    { assert (∀ f, f = Filter_Values new_locator [] \/ (∃ x, GetValues s = [x]) /\ (f = Filter_SingleValue new_locator 0 \/ f = Filter_SingleValueStatic32 new_locator 0 0 /\ m_bDynamic (m_tLocator c) = false /\ m_iBitCount (m_tLocator c) = 32) ->
        ∀ m v, GetAttr m (m_tLocator c) = Some v -> Eval (SetFilterSettings s fixed pool (SetLocator (m_tLocator c) f)) m = Some (bool_decide (v ∈ GetValues s))) as K.
      { intros f Hf m v E. rewrite values_set by (done || by rewrite Et). destruct Hf as [->|[[x Ex] [->|(-> & D & C)]]].
        - cbn. rewrite E. cbn. by apply EvalValues_ok.
        - cbn. rewrite E, Ex. cbn. f_equal. apply eq_true_iff_eq. rewrite Z.eqb_eq, bool_decide_eq_true, list_elem_of_singleton. done.
        - cbn. rewrite (static32_value m _ v D C E), Ex. cbn. f_equal. apply eq_true_iff_eq. rewrite Z.eqb_eq, bool_decide_eq_true, list_elem_of_singleton. done. }
      destruct (m_eAttrType c); try done; rewrite ?andb_true_r, ?andb_false_r; cbn [andb];
        try (destruct (Nat.eqb_spec (length (GetValues s)) 1) as [L1|L1]); try (eexists; split; [reflexivity|]; apply K; by left);
        (assert (∃ x, GetValues s = [x]) as Hx by (destruct (GetValues s) as [|x [|? ?]]; [done|by exists x|done]));
        try (destruct (m_bDynamic (m_tLocator c)) eqn:D, (Z.eqb_spec (m_iBitCount (m_tLocator c)) 32) as [C|C], (m_iBitOffset (m_tLocator c) mod 32 =? 0); cbn [negb andb]);
        (eexists; split; [reflexivity|]; apply K; right; split; [done|]); (by left) || (right; done). }
    rewrite Ef. eexists. split; [done|]. intros m v E. unfold int_selects. rewrite T. by apply exclude_ok, G.
  - assert (∀ a b, SetFilterSettings s fixed pool (SetLocator (m_tLocator c) (Filter_Range a b (m_bOpenLeft (s_common s)) (negb (m_bOpenLeft (s_common s)) && m_bOpenRight (s_common s)) new_locator 0 0)) =
       Filter_Range a b (m_bOpenLeft (s_common s)) (negb (m_bOpenLeft (s_common s)) && m_bOpenRight (s_common s)) (m_tLocator c) (m_iMinValue (s_common s)) (m_iMaxValue (s_common s))) as St.
    { intros a b. unfold SetFilterSettings. rewrite Et. cbn. by destruct (GetValues s). }
    pose proof (range_eval (s_common s)) as R. unfold int_selects. rewrite T.
    destruct (m_bOpenLeft (s_common s)) eqn:OL, (m_bOpenRight (s_common s)) eqn:OR; cbn [negb andb] in St; [destruct Ho; done| | |];
      (destruct (m_eAttrType c); try done; eexists; (split; [reflexivity|]); intros m v E; apply exclude_ok; rewrite St; cbn [Eval]; rewrite E; cbn [mbind option_bind]; f_equal; by apply R).
Qed.

Lemma float_filter s c pool lo hi : m_eAttrType c = SPH_ATTR_FLOAT -> float_bounds s = Some (lo, hi) ->
  ∃ f, CreateFilter s c pool = Created f /\ ∀ m v, GetAttrFloat m (m_tLocator c) = Some v ->
    Eval f m = Some (xorb (m_bExclude (s_common s)) (below KFloat (m_bHasEqualMin (s_common s)) lo v && below KFloat (m_bHasEqualMax (s_common s)) v hi)).
Proof.
  intros Ht Hb. assert (m_eType (FixupFilterSettings s SPH_ATTR_FLOAT) = SPH_FILTER_FLOATRANGE /\ m_fMinValue (FixupFilterSettings s SPH_ATTR_FLOAT) = lo /\ m_fMaxValue (FixupFilterSettings s SPH_ATTR_FLOAT) = hi) as (E1 & E2 & E3).
  { unfold float_bounds in Hb. unfold FixupFilterSettings, m_fMinValue, m_fMaxValue in *. destruct (m_eType (s_common s)) eqn:T; try done.
    - destruct (GetValues s) as [|v [|? ?]]; try done. injection Hb as <- <-. cbn [set_floats set_type m_eType m_iMinValue m_iMaxValue]. rewrite !store_float_low. done.
    - injection Hb as <- <-. cbn [set_floats set_type m_eType m_iMinValue m_iMaxValue]. rewrite !store_float_low. done.
    - injection Hb as <- <-. done. }
  unfold CreateFilter. rewrite Ht. assert (filter_allowed (m_eType (s_common s)) SPH_ATTR_FLOAT = true) as -> by (unfold float_bounds in Hb; by destruct (m_eType (s_common s))). cbn [negb].
  rewrite E1. cbn [new_filter IsMvaAttr]. eexists. split; [done|]. intros m v E. apply exclude_ok. unfold SetFilterSettings. rewrite E1, E2, E3.
  assert (∀ f, match GetValues s with [] => f | d => SetValues d f end = f \/ ∃ d, match GetValues s with [] => f | d => SetValues d f end = SetValues d f) as K by (intros f; destruct (GetValues s); eauto).
  destruct (K (SetRangeFloat lo hi (SetRange (m_iMinValue (s_common s)) (m_iMaxValue (s_common s)) (SetBlobStorage pool (SetLocator (m_tLocator c) (Filter_FloatRange (m_bHasEqualMin (s_common s)) (m_bHasEqualMax (s_common s)) new_locator 0 0)))))) as [->|[d ->]];
    cbn [SetLocator SetBlobStorage SetRange SetRangeFloat SetValues Eval]; rewrite E; done.
Qed.

Definition set_attr (e : ESphAttr) : bool := match e with SPH_ATTR_UINT32SET | SPH_ATTR_INT64SET | SPH_ATTR_UINT32SET_PTR | SPH_ATTR_INT64SET_PTR => true | _ => false end.

Lemma set_settings_type s T d : set_settings s T d -> m_eType (s_common s) = SPH_FILTER_VALUES \/ m_eType (s_common s) = SPH_FILTER_RANGE.
Proof. intros [(E & _)|(E & _)]; auto. Qed.

Lemma mva_length T b : mva_values T b = [] \/ mva_ptr b = Some b.
Proof. destruct b as [|x b]; [left; unfold mva_values; cbn [length]; by rewrite Nat.Div0.div_0_l|by right]. Qed.

Lemma set_filter s c pool : set_attr (m_eAttrType c) = true -> m_eType (s_common s) = SPH_FILTER_VALUES \/ m_eType (s_common s) = SPH_FILTER_RANGE ->
  ∃ f, CreateFilter s c pool = Created f /\ ∀ m b, FetchAttrData m (m_tLocator c) pool = Some b -> let d := mva_values (set_type_of (m_eAttrType c)) b in
    StronglySorted Z.lt d -> (b ≠ [] -> d ≠ []) -> set_settings s (set_type_of (m_eAttrType c)) d ->
    ∃ r, Eval f m = Some (xorb (m_bExclude (s_common s)) r) /\ (r = true <-> set_selects s d).
Proof.
  intros Ha Ht. assert (m_eAttrType c ≠ SPH_ATTR_FLOAT) as Nf by (by destruct (m_eAttrType c)).
  assert (filter_allowed (m_eType (s_common s)) (m_eAttrType c) = true) as Hall by (destruct Ht as [-> | ->]; by destruct (m_eAttrType c)).
  unfold CreateFilter. rewrite Hall. cbn [negb]. pose proof (fixup_type s _ Nf) as Et. rewrite Et. set (fixed := FixupFilterSettings s (m_eAttrType c)) in *.
  assert (IsMvaAttr (m_eAttrType c) = true) as Hm by (by destruct (m_eAttrType c)). unfold new_filter. rewrite Hm. fold (set_type_of (m_eAttrType c)). set (T := set_type_of (m_eAttrType c)).
  set (all := bool_decide (m_eMvaFunc s = SPH_MVAFUNC_ALL)). assert (0 < bits T) as HT by (unfold T, set_type_of; by destruct (is_int64 (m_eAttrType c))).
  destruct Ht as [E|E]; rewrite E in *; eexists; (split; [reflexivity|]); intros m b Hb S Hne Hs; set (d := mva_values T b) in *; (assert (ordered d) as So by (eapply BlobOk.sorted_impl; [|exact S]; cbn; lia)).
  - destruct Hs as [(_ & Hv & Sv)|(E' & _)]; [|by rewrite E in E']. rewrite values_set by (done || by rewrite Et). unfold set_selects. rewrite E. unfold all. case_decide as D.
    + rewrite bool_decide_true by done. eexists. split; [apply exclude_ok; cbn; rewrite Hb; cbn; by rewrite MvaEval_All_ok|]. fold T. fold d. by rewrite bool_decide_eq_true.
    + rewrite bool_decide_false by done. eexists. split; [apply exclude_ok; cbn; rewrite Hb; cbn; by rewrite MvaEval_Any_ok|]. fold T. fold d. rewrite bool_decide_eq_true, !Exists_exists. split; intros (x & ? & ?); by exists x.
  - destruct Hs as [(E' & _)|(_ & Hs)]; [by rewrite E in E'|]. unfold set_selects. rewrite E. cbn in Hs.
    assert (∀ f, SetFilterSettings s fixed pool (SetLocator (m_tLocator c) f) = match GetValues s with [] => SetRange (m_iMinValue (s_common s)) (m_iMaxValue (s_common s)) (SetBlobStorage pool (SetLocator (m_tLocator c) f)) | dv => SetValues dv (SetRange (m_iMinValue (s_common s)) (m_iMaxValue (s_common s)) (SetBlobStorage pool (SetLocator (m_tLocator c) f))) end) as K by (intros f; unfold SetFilterSettings; by rewrite Et).
    rewrite K. unfold all. case_decide as D.
    + rewrite bool_decide_true by done. destruct Hs as [H1 H2]. destruct (range_all_ok T (m_bHasEqualMin (s_common s)) (m_bHasEqualMax (s_common s)) d _ _ HT So H1 H2) as (r & R1 & R2). exists r. split; [|done].
      apply exclude_ok. assert (mva_values T <$> mva_ptr b = mva_ptr d) as Em. { destruct b as [|x b]; [by destruct (mva_length T []) as [H|H]; [unfold d; rewrite H|done]|]. cbn [mva_ptr fmap option_fmap option_map]. fold d. destruct d; [by destruct Hne|done]. }
      destruct (GetValues s); cbn; rewrite Hb; cbn; rewrite Em; exact R1.
    + rewrite bool_decide_false by done. destruct (range_any_ok (m_bHasEqualMin (s_common s)) (m_bHasEqualMax (s_common s)) d (m_iMinValue (s_common s)) (m_iMaxValue (s_common s)) S Hs) as (r & R1 & R2). exists r. split; [|done].
      apply exclude_ok. destruct (GetValues s); cbn; rewrite Hb; cbn; exact R1.
Qed.

(** A filter on an attribute selects what its settings say. On an integer
    attribute of any width: the values of the set, or those inside the range with
    its closed, open or missing ends. On a float attribute: the values between
    the bounds, with the bounds of integer settings converted. On a multi-value
    attribute: the sets with any value, or all values, in the given set or range.
    An excluding filter selects the rest. The creation never fails for such
    settings, and the test never leaves the row. *)
Theorem created_filter_correct s c pool :
  (int_type (m_eAttrType c) = true -> int_settings s ->
    ∃ f, CreateFilter s c pool = Created f /\ ∀ m v, GetAttr m (m_tLocator c) = Some v -> Eval f m = Some (xorb (m_bExclude (s_common s)) (int_selects s v))) /\
  (∀ lo hi, m_eAttrType c = SPH_ATTR_FLOAT -> float_bounds s = Some (lo, hi) ->
    ∃ f, CreateFilter s c pool = Created f /\ ∀ m v, GetAttrFloat m (m_tLocator c) = Some v ->
      Eval f m = Some (xorb (m_bExclude (s_common s)) (below KFloat (m_bHasEqualMin (s_common s)) lo v && below KFloat (m_bHasEqualMax (s_common s)) v hi))) /\
  (set_attr (m_eAttrType c) = true -> m_eType (s_common s) = SPH_FILTER_VALUES \/ m_eType (s_common s) = SPH_FILTER_RANGE ->
    ∃ f, CreateFilter s c pool = Created f /\ ∀ m b, FetchAttrData m (m_tLocator c) pool = Some b -> let d := mva_values (set_type_of (m_eAttrType c)) b in
      StronglySorted Z.lt d -> (b ≠ [] -> d ≠ []) -> set_settings s (set_type_of (m_eAttrType c)) d ->
      ∃ r, Eval f m = Some (xorb (m_bExclude (s_common s)) r) /\ (r = true <-> set_selects s d)).
Proof. split; [apply int_filter|]. split; [intros; by apply float_filter|apply set_filter]. Qed.

Definition demo_range : CSphFilterSettings := FilterSettings (CommonFilterSettings SPH_FILTER_RANGE 2 5 true false false false false) "x" SPH_MVAFUNC_NONE [] [].

Lemma created_filter_witness : ∃ f, CreateFilter demo_range (ColumnInfo "x" SPH_ATTR_INTEGER false demo_loc WORD_NONE) [] = Created f /\ Eval f (Match_ [4] [] 1 (λ _, None)) = Some true.
Proof.
  destruct (created_filter_correct demo_range (ColumnInfo "x" SPH_ATTR_INTEGER false demo_loc WORD_NONE) []) as [A _].
  destruct A as (f & E & G); [reflexivity|right; split; [reflexivity|by intros [? _]]|]. exists f. split; [exact E|]. exact (G (Match_ [4] [] 1 (λ _, None)) 4 eq_refl).
Defined.

(** ** All filters of a query *)

Lemma and_assoc a b c : and_then (and_then a b) c = and_then a (and_then b c).
Proof. by destruct a as [[|]|], b as [[|]|]. Qed.
Lemma and_true a : and_then a (Some true) = a.
Proof. by destruct a as [[|]|]. Qed.

Lemma join_eval a b m : Eval (Join a b) m = and_then (Eval a m) (Eval b m).
Proof.
  destruct a as [| | | | | | | | | | |x y|x y z|l|x y|f|f n]; cbn [Join Eval]; rewrite ?and_assoc, ?and_true; try done.
  induction l as [|f l IH]; cbn [app]; [by rewrite and_true|]. by rewrite IH, and_assoc.
Qed.

(** What an optional filter says. *)
Definition holds_opt (m : CSphMatch) (o : option ISphFilter) : option bool := match o with None => Some true | Some f => Eval f m end.

Lemma fold_join m l : ∀ o, holds_opt m (fold_left (λ p i, sphJoinFilters p (Some (fi_pFilter i))) l o) = fold_left (λ b i, and_then b (Eval (fi_pFilter i) m)) l (holds_opt m o).
Proof.
  induction l as [|i l IH]; intros o; [done|]. cbn [fold_left]. rewrite IH. f_equal. destruct o as [a|]; cbn; [apply join_eval|]. by destruct (Eval (fi_pFilter i) m) as [[|]|].
Qed.

Lemma fold_defined m (l : list FilterInfo_t) ps : map (λ i, Eval (fi_pFilter i) m) l = map Some ps -> ∀ b, fold_left (λ b i, and_then b (Eval (fi_pFilter i) m)) l (Some b) = Some (b && forallb id ps).
Proof.
  revert ps. induction l as [|i l IH]; intros [|p ps] E b; try done; [by rewrite andb_true_r|]. injection E as E1 E2. cbn [fold_left]. rewrite E1.
  replace (and_then (Some b) (Some p)) with (Some (b && p)) by (by destruct b). rewrite (IH ps E2). cbn [forallb]. by rewrite andb_assoc.
Qed.

#[export] Instance FilterInfo_inhabited : Inhabited FilterInfo_t := populate (FilterInfo (Filter_And []) 0 0).

Lemma combine_ok m l ps : len l < 2 ^ 36 -> map (λ i, Eval (fi_pFilter i) m) l = map Some ps -> ∃ f, ReorderAndCombine l = Some f /\ holds_opt m f = Some (forallb id ps).
Proof.
  intros Hl E. assert (∃ f, (x ← sphSort info_less l; Some (fold_left (λ p i, sphJoinFilters p (Some (fi_pFilter i))) x None)) = Some f /\ holds_opt m f = Some (forallb id ps)) as K.
  { destruct (SortOk.sort_ok info_less) with (l := l) as (l' & -> & P & _); [| |done|].
    - intros x y. unfold info_less. rewrite (Z.eqb_sym (m_iSelectivity y)). case_match; rewrite !Z.ltb_lt, ?Z.ltb_ge; lia.
    - unfold SortOk.le, info_less. intros x y z. repeat case_match; rewrite ?Z.eqb_eq, ?Z.eqb_neq, ?Z.ltb_ge in *; lia.
    - cbn [mbind option_bind]. eexists. split; [done|]. rewrite fold_join. cbn [holds_opt].
      assert (∃ ps', map (λ i, Eval (fi_pFilter i) m) l' = map Some ps' /\ ps' ≡ₚ ps) as (ps' & E' & P').
      { pose proof (Permutation_map (λ i, Eval (fi_pFilter i) m) P) as Q. rewrite E in Q. symmetry in Q. destruct (Permutation_map_inv _ _ (Permutation_sym Q)) as (ps' & -> & Q'). exists ps'. split; [done|]. by symmetry. }
      rewrite (fold_defined m l' ps' E'). cbn [andb]. f_equal. apply eq_true_iff_eq. rewrite !forallb_forall. split; intros F x Hx; apply F; apply list_elem_of_In; apply list_elem_of_In in Hx; by rewrite P' in * || by rewrite <- P' in *. }
  unfold ReorderAndCombine. destruct l as [|i [|j l]]; [exact K| |exact K]. exists (Some (fi_pFilter i)). split; [done|]. destruct ps as [|p [|? ?]]; try done. injection E as E. cbn. rewrite E. by destruct p.
Qed.

Section Query.
Context (hash : string -> Z) (tSchema : CSphSchema) (pBlobPool : list Z) (EstimateFilterSelectivity : CSphFilterSettings -> Z).
Abbreviation sphCreateFilter := (sphCreateFilter hash tSchema pBlobPool).
Variables (m : CSphMatch) (pass : CSphFilterSettings -> bool).

(** *** What one filter means for the match *)

(** The attribute of a filter. *)
Definition attr_of (s : CSphFilterSettings) (c : CSphColumnInfo) : Prop :=
  m_sAttrName s ∉ ["@groupby"; "@count"; "@distinct"]%string /\ m_sAttrName s ≠ "@weight"%string /\ m_bColumnar c = false /\
  ∃ i, GetAttrIndex hash (m_sAttrName s) tSchema = Some i /\ 0 <= i /\ m_dAttrs tSchema !! Z.to_nat i = Some c.

(** [means s b]: the match passes the filter [s] if and only if [b]: its weight, its
    number, its float, or the set of its numbers is among the values or inside the
    range of the settings, or is not if the filter excludes. *)
Inductive means (s : CSphFilterSettings) : bool -> Prop :=
  | means_weight : m_sAttrName s = "@weight"%string -> (m_eType (s_common s) = SPH_FILTER_VALUES /\ GetValues s ≠ [] /\ ordered (GetValues s)) ->
      means s (xorb (m_bExclude (s_common s)) (bool_decide (m_iWeight m ∈ GetValues s)))
  | means_weight_range : m_sAttrName s = "@weight"%string -> m_eType (s_common s) = SPH_FILTER_RANGE ->
      means s (xorb (m_bExclude (s_common s)) (below KInt (m_bHasEqualMin (s_common s)) (m_iMinValue (s_common s)) (m_iWeight m) && below KInt (m_bHasEqualMax (s_common s)) (m_iWeight m) (m_iMaxValue (s_common s))))
  | means_int c v : attr_of s c -> int_type (m_eAttrType c) = true -> int_settings s -> GetAttr m (m_tLocator c) = Some v ->
      means s (xorb (m_bExclude (s_common s)) (int_selects s v))
  | means_float c lo hi v : attr_of s c -> m_eAttrType c = SPH_ATTR_FLOAT -> float_bounds s = Some (lo, hi) -> GetAttrFloat m (m_tLocator c) = Some v ->
      means s (xorb (m_bExclude (s_common s)) (below KFloat (m_bHasEqualMin (s_common s)) lo v && below KFloat (m_bHasEqualMax (s_common s)) v hi))
  | means_set c b d r : attr_of s c -> set_attr (m_eAttrType c) = true -> FetchAttrData m (m_tLocator c) pBlobPool = Some b -> d = mva_values (set_type_of (m_eAttrType c)) b ->
      StronglySorted Z.lt d -> (b ≠ [] -> d ≠ []) -> set_settings s (set_type_of (m_eAttrType c)) d -> (r = true <-> set_selects s d) ->
      means s (xorb (m_bExclude (s_common s)) r).

(** A filter is created, and says [pass] of the match. *)
Definition creates (s : CSphFilterSettings) : Prop := ∃ f, sphCreateFilter s = Some f /\ Eval f m = Some (pass s).

Lemma attr_create s c : attr_of s c -> sphCreateFilter s = match CreateFilter s c pBlobPool with Created f => Some f | _ => None end.
Proof.
  intros (N1 & N2 & Nc & i & Ei & Hi & Ec). unfold FilterCreate.sphCreateFilter. rewrite decide_False, decide_False by done. rewrite Ei. cbn [mbind option_bind]. rewrite (proj2 (Z.ltb_ge _ _)) by done. rewrite Ec. cbn [mbind option_bind]. by rewrite Nc.
Qed.

Lemma weight_create s : m_sAttrName s = "@weight"%string -> sphCreateFilter s = match CreateWeightFilter s with Created f => Some f | _ => None end.
Proof. intros E. unfold FilterCreate.sphCreateFilter. rewrite E. rewrite decide_False by (rewrite list_elem_of_In; cbn; intuition discriminate). by rewrite decide_True. Qed.

Lemma means_creates s : means s (pass s) -> creates s.
Proof.
  unfold creates. generalize (pass s). intros b [Ew (Et & Nv & So)|Ew Et|c v Ha Hi Hs Ev|c lo hi v Ha Ht Hb Ev|c bl d r Ha Ht Hb -> Sd Nd Hs Hr].
  - rewrite (weight_create s Ew). unfold CreateWeightFilter, CreateSpecialFilter. rewrite Et. eexists. split; [done|]. apply exclude_ok. rewrite values_set by (done || by rewrite Et). cbn. by apply EvalValues_ok.
  - rewrite (weight_create s Ew). unfold CreateWeightFilter, CreateSpecialFilter. rewrite Et. eexists. split; [done|]. apply exclude_ok. unfold SetFilterSettings. rewrite Et. by destruct (GetValues s).
  - rewrite (attr_create s c Ha). destruct (int_filter s c pBlobPool Hi Hs) as (f & -> & G). exists f. split; [done|]. by apply G.
  - rewrite (attr_create s c Ha). destruct (float_filter s c pBlobPool lo hi Ht Hb) as (f & -> & G). exists f. split; [done|]. by apply G.
  - rewrite (attr_create s c Ha). destruct (set_filter s c pBlobPool Ht (set_settings_type _ _ _ Hs)) as (f & -> & G). exists f. split; [done|]. destruct (G m bl Hb Sd Nd Hs) as (r' & -> & Hr'). assert (r' = r) as -> by (apply eq_true_iff_eq; by rewrite Hr'). done.
Qed.

(** The filters that take part. *)
Definition considered (bScan : bool) (s : CSphFilterSettings) : bool :=
  negb (bool_decide (m_sAttrName s = ""%string)) && negb (bool_decide (m_sAttrName s = "@rowid"%string) && bool_decide (m_eType (s_common s) = SPH_FILTER_RANGE)) && negb (bScan && IsWeightColumn (m_sAttrName s)).

Definition on_weight (s : CSphFilterSettings) : bool := IsWeightColumn (m_sAttrName s).

Abbreviation pick b l := (map pass (List.filter (λ s, Bool.eqb (on_weight s) b) l)).

Lemma create_all_ok bScan bSingle l : ∀ i, (∀ s, s ∈ l -> considered bScan s = true -> means s (pass s)) ->
  ∃ a b, create_all hash tSchema pBlobPool EstimateFilterSelectivity bScan bSingle i l = Some (a, b) /\ (length a + length b <= length l)%nat /\
    map (λ i, Eval (fi_pFilter i) m) a = map Some (pick false (List.filter (considered bScan) l)) /\ map (λ i, Eval (fi_pFilter i) m) b = map Some (pick true (List.filter (considered bScan) l)).
Proof.
  induction l as [|s l IH]; intros i Hc; [by exists [], []|]. destruct (IH (i + 1)) as (a & b & E & L & Ea & Eb); [intros s' Hs'; apply Hc; by right|]. specialize (Hc s ltac:(by left)).
  cbn [create_all List.filter]. destruct (considered bScan s) eqn:C.
  - destruct (means_creates s (Hc eq_refl)) as (f & Cf & Ef). unfold considered in C. rewrite !andb_true_iff, !negb_true_iff, bool_decide_eq_false in C. destruct C as [[N1 N2] N3].
    rewrite decide_False, N2, N3 by done. rewrite Cf. cbn [mbind option_bind]. rewrite E. cbn [mbind option_bind List.filter]. fold (on_weight s).
    destruct (on_weight s); cbn [Bool.eqb]; (eexists _, _; split; [reflexivity|]; split; [cbn [length]; lia|]); cbn [map fi_pFilter]; rewrite Ef; (split; congruence).
  - exists a, b. unfold considered in C. split; [|split; [cbn [length]; lia|done]]. case_decide as N1; [done|]. rewrite bool_decide_false in C by done. cbn [negb andb] in C.
    destruct (bool_decide (m_sAttrName s = "@rowid"%string) && bool_decide (m_eType (s_common s) = SPH_FILTER_RANGE)); [done|]. cbn [negb andb] in C. apply negb_false_iff in C. by rewrite C.
Qed.

(** The meaning of a node of the tree. *)
Inductive node_means (dTree : list FilterTreeItem_t) (dFilters : list CSphFilterSettings) : Z -> bool -> Prop :=
  | nm_leaf i n s : dTree !! Z.to_nat i = Some n -> m_iFilterItem n ≠ -1 -> dFilters !! Z.to_nat (m_iFilterItem n) = Some s -> node_means dTree dFilters i (pass s)
  | nm_node i n a b : dTree !! Z.to_nat i = Some n -> m_iFilterItem n = -1 -> node_means dTree dFilters (m_iLeft n) a -> node_means dTree dFilters (m_iRight n) b ->
      node_means dTree dFilters i (if m_bOr n then a || b else a && b).

(** The children of a node come before it, as the parser puts them. *)
Definition tree_ok (dTree : list FilterTreeItem_t) (dFilters : list CSphFilterSettings) : Prop :=
  ∀ i n, dTree !! i = Some n ->
    if m_iFilterItem n =? -1 then 0 <= m_iLeft n < Z.of_nat i /\ 0 <= m_iRight n < Z.of_nat i
    else ∃ s, dFilters !! Z.to_nat (m_iFilterItem n) = Some s /\ m_sAttrName s ≠ ""%string /\ means s (pass s).

Lemma node_ok dTree dFilters : tree_ok dTree dFilters -> ∀ i fuel, (i < length dTree)%nat -> (i < fuel)%nat ->
  ∃ f w b, CreateFilterNode hash tSchema pBlobPool fuel dTree dFilters (Z.of_nat i) = Some (Some f, w) /\ node_means dTree dFilters (Z.of_nat i) b /\ Eval f m = Some b.
Proof.
  intros Ht i. induction i as [i IH] using lt_wf_ind. intros [|fuel] Hi Hf; [lia|]. cbn [CreateFilterNode]. rewrite Nat2Z.id. destruct (lookup_lt_is_Some_2 dTree i Hi) as [n En]. rewrite En. cbn [mbind option_bind].
  pose proof (Ht i n En) as Hn. destruct (Z.eqb_spec (m_iFilterItem n) (-1)) as [E|E]; cbn [negb].
  - destruct Hn as [Hl Hr]. destruct (IH (Z.to_nat (m_iLeft n)) ltac:(lia) fuel ltac:(lia) ltac:(lia)) as (f1 & w1 & b1 & C1 & M1 & E1). destruct (IH (Z.to_nat (m_iRight n)) ltac:(lia) fuel ltac:(lia) ltac:(lia)) as (f2 & w2 & b2 & C2 & M2 & E2).
    rewrite !Z2Nat.id in * by lia. rewrite C1. cbn [mbind option_bind]. rewrite C2. cbn [mbind option_bind]. eexists _, _, _. split; [done|]. split; [eapply nm_node; [by rewrite Nat2Z.id|done|done|done]|].
    destruct (m_bOr n); cbn [Eval]; rewrite E1, E2; [by destruct b1|by destruct b1].
  - destruct Hn as (s & Es & Ns & (f & Cf & Ef)%means_creates). rewrite Es. cbn [mbind option_bind]. rewrite decide_False by done. rewrite Cf. eexists _, _, _. split; [done|]. split; [eapply nm_leaf; [by rewrite Nat2Z.id|done|done]|done].
Qed.

End Query.

(** ** A tree that needs a larger stack *)

Definition demo_col : CSphColumnInfo := ColumnInfo "x" SPH_ATTR_INTEGER false demo_loc WORD_NONE.
Definition demo_hash (_ : string) : Z := 0.
Definition query_schema : CSphSchema := AddAttr demo_hash demo_col false new_schema.
Definition demo_is (v : Z) : CSphFilterSettings := FilterSettings (CommonFilterSettings SPH_FILTER_VALUES LLONG_MIN LLONG_MAX true true false false false) "x" SPH_MVAFUNC_NONE [v] [].
Definition demo_match (v : Z) : CSphMatch := Match_ [v] [] 1 (λ _, None).


(** x=0 OR x=1 OR ... OR x=25: 26 filters and 25 nodes. *)
Definition demo_filters : list CSphFilterSettings := map demo_is (seqZ 0 26).
Definition demo_tree : list FilterTreeItem_t :=
  map (λ i, FilterTreeItem (-1) (-1) i false) (seqZ 0 26) ++ FilterTreeItem 0 1 (-1) true :: map (λ k, FilterTreeItem (25 + k) (k + 1) (-1) true) (seqZ 1 24).

(** A tree of more than 50 items that needs a larger stack is thrown away:
    [CreateFiltersFromSettings] goes on after it has created the tree, and the
    conjunction of all filters takes its place. A query for any of 26 values,
    written with OR, then finds none of them. *)
Theorem large_tree_replaced :
  (∀ hash tSchema pBlobPool estimate bScan iStack dTree l f w r, 0 <= iStack -> (TREE_SIZE_THRESH < length dTree)%nat -> CreateFilterTree hash tSchema pBlobPool dTree l = Some r ->
    CreateFiltersFromSettings hash tSchema pBlobPool estimate bScan (-1) [] l = Some (true, f, w) -> CreateFiltersFromSettings hash tSchema pBlobPool estimate bScan iStack dTree l = Some (true, f, w)) /\
  ∃ f g, CreateFiltersFromSettings demo_hash query_schema [] (λ _, 0) false (-1) demo_tree demo_filters = Some (true, Some f, None) /\ Eval f (demo_match 3) = Some true /\
    CreateFiltersFromSettings demo_hash query_schema [] (λ _, 0) false 65536 demo_tree demo_filters = Some (true, Some g, None) /\ ∀ v, v ∈ seqZ 0 26 -> Eval g (demo_match v) = Some false.
Proof.
  split.
  - intros hash tSchema pBlobPool estimate bScan iStack dTree l f w [[ok f0] w0] Hs Ht Ht' Ha. unfold CreateFiltersFromSettings in *. destruct l as [|s l]; [done|]. cbn [length Nat.ltb Nat.leb] in Ha.
    rewrite (proj2 (Nat.ltb_lt _ _)) by done. destruct dTree as [|n dTree']; [cbn in Ht; lia|]. rewrite Ht'. cbn [mbind option_bind]. rewrite (proj2 (Z.ltb_ge _ _)) by done.
    destruct (create_all _ _ _ _ _ _ _ _) as [[a b]|]; [|done]. by destruct w0.
  - eexists _, _. split; [vm_compute; reflexivity|]. split; [vm_compute; reflexivity|]. split; [vm_compute; reflexivity|].
    intros v Hv. rewrite list_elem_of_In in Hv. vm_compute in Hv. repeat destruct Hv as [<-|Hv]; try (vm_compute; reflexivity). done.
Qed.

Lemma large_tree_witness : ∃ g, CreateFiltersFromSettings demo_hash query_schema [] (λ _, 0) false 65536 demo_tree demo_filters = Some (true, g, None).
Proof.
  destruct large_tree_replaced as [A _]. specialize (A demo_hash query_schema [] (λ _, 0) false 65536 demo_tree demo_filters).
  assert (match CreateFiltersFromSettings demo_hash query_schema [] (λ _, 0) false (-1) [] demo_filters with Some (true, _, None) => true | _ => false end = true) as E by (vm_compute; reflexivity).
  assert (match CreateFilterTree demo_hash query_schema [] demo_tree demo_filters with Some _ => true | None => false end = true) as Er by (vm_compute; reflexivity).
  destruct (CreateFiltersFromSettings demo_hash query_schema [] (λ _, 0) false (-1) [] demo_filters) as [[[[] f] [w|]]|]; try discriminate E.
  destruct (CreateFilterTree demo_hash query_schema [] demo_tree demo_filters) as [r|]; try discriminate Er.
  assert (0 <= 65536) as H1 by done.
  assert (TREE_SIZE_THRESH < length demo_tree)%nat as H2 by (apply Nat.ltb_lt; vm_compute; reflexivity).
  exists f. exact (A f None r H1 H2 eq_refl eq_refl).
Defined.
End FilterCreateOk.
