(* ===== verification/FilterMerge.v ===== *)
(** * Merging the filters of a query (src/src/sphinxfilter.cpp)

    The filters of an SQL query without OR are merged before the search: those on
    the same attribute are replaced by one where that is possible, and a query
    that cannot match gets one filter that rejects everything. *)

From stdpp Require Import strings.
From S2P Require Import Prelude RowAttr MinMax AttrUpdate Blob Filter FilterCreate.
Import RowAttr MinMax AttrUpdate Blob Filter FilterCreate.

Module FilterMerge.

(** ** Intervals *)

(** What is used of [boost::icl]: an interval knows its bounds and which of them
    belong to it; [make] stands for [closed], [right_open], [left_open] and
    [open]. *)
Class Icl (k : kind) := {
  interval : Type;
  make : bool -> bool -> Z -> Z -> interval;
  lower : interval -> Z;
  upper : interval -> Z;
  closed_left : interval -> bool;
  closed_right : interval -> bool;
  meet : interval -> interval -> interval;
  is_empty : interval -> bool
}.

Definition contains {k} {I : Icl k} (i : interval) (x : Z) : bool := below k (closed_left i) (lower i) x && below k (closed_right i) x (upper i).

(** The documented behaviour, on numbers: an interval has the bounds it was made
    with, the intersection contains what both contain and, unless it is empty,
    ends at their bounds. *)
Class IclLaws (I : Icl KInt) := {
  make_bounds : ∀ a b lo hi, lower (make a b lo hi) = lo /\ upper (make a b lo hi) = hi /\ closed_left (make a b lo hi) = a /\ closed_right (make a b lo hi) = b;
  meet_contains : ∀ i j x, contains (meet i j) x = contains i x && contains j x;
  meet_lower : ∀ i j, is_empty (meet i j) = false -> lower (meet i j) = lower i \/ lower (meet i j) = lower j;
  meet_upper : ∀ i j, is_empty (meet i j) = false -> upper (meet i j) = upper i \/ upper (meet i j) = upper j;
  empty_contains : ∀ i, is_empty i = true <-> ∀ x, contains i x = false
}.

(** ** Merging two filters *)

Definition minus_FLT_MAX : Z := 0xFF7FFFFF.

Definition ValuesAreSame (dLeft dRight : list Z) : bool := bool_decide (dLeft = dRight).

Definition with_common (s : CSphFilterSettings) (c : CommonFilterSettings_t) : CSphFilterSettings :=
  FilterSettings c (m_sAttrName s) (m_eMvaFunc s) (m_dValues s) (m_dExtValues s).
Definition with_values (s : CSphFilterSettings) (d : list Z) : CSphFilterSettings :=
  FilterSettings (s_common s) (m_sAttrName s) (m_eMvaFunc s) d (m_dExtValues s).

Section Merge.
Context {II : Icl KInt} {IF : Icl KFloat}.

Definition interval_of (k : kind) : Icl k := match k with KInt => II | KFloat => IF end.

Definition ConstructInterval (k : kind) (tFilter : CSphFilterSettings) : @interval k (interval_of k) :=
  let s := s_common tFilter in
  let '(lo, hi, all_lo, all_hi) :=
    match k with
    | KInt => (m_iMinValue s, m_iMaxValue s, LLONG_MIN, LLONG_MAX)
    | KFloat =>
        let '(fMin, fMax) := if decide (m_eType s = SPH_FILTER_RANGE) then (int_to_float (m_iMinValue s), int_to_float (m_iMaxValue s)) else (m_fMinValue s, m_fMaxValue s) in
        (fMin, fMax, minus_FLT_MAX, FLT_MAX)
    end in
  @make k (interval_of k) (m_bOpenLeft s || m_bHasEqualMin s) (m_bOpenRight s || m_bHasEqualMax s) (if m_bOpenLeft s then all_lo else lo) (if m_bOpenRight s then all_hi else hi).

Definition DeconstructInterval (k : kind) (tFilter : CSphFilterSettings) (i : @interval k (interval_of k)) : CSphFilterSettings :=
  let s := s_common tFilter in
  let lo := @lower k (interval_of k) i in let hi := @upper k (interval_of k) i in
  let a := @closed_left k (interval_of k) i in let b := @closed_right k (interval_of k) i in
  with_common tFilter
    match k with
    | KInt => CommonFilterSettings (m_eType s) lo hi a b (bool_decide (lo = LLONG_MIN) && a) (bool_decide (hi = LLONG_MAX) && b) (m_bExclude s)
    | KFloat => CommonFilterSettings (m_eType s) (store_float (m_iMinValue s) lo) (store_float (m_iMaxValue s) hi) a b (bool_decide (lo = minus_FLT_MAX) && a) (bool_decide (hi = FLT_MAX) && b) (m_bExclude s)
    end.

(** [None]: the ranges have nothing in common. *)
Definition CalcRangeMerge (k : kind) (tLeft tRight : CSphFilterSettings) : option CSphFilterSettings :=
  let tResult := @meet k (interval_of k) (ConstructInterval k tLeft) (ConstructInterval k tRight) in
  if @is_empty k (interval_of k) tResult then None
  else
    let t := DeconstructInterval k tLeft tResult in
    Some match k with
         | KFloat => if decide (m_eType (s_common tLeft) = m_eType (s_common tRight)) then t else with_common t (set_type SPH_FILTER_FLOATRANGE (s_common t))
         | KInt => t
         end.

Definition CheckRangeMerge (tLeft tRight : CSphFilterSettings) : option CSphFilterSettings :=
  match m_eType (s_common tLeft), m_eType (s_common tRight) with
  | SPH_FILTER_FLOATRANGE, _ | _, SPH_FILTER_FLOATRANGE => CalcRangeMerge KFloat tLeft tRight
  | _, _ => CalcRangeMerge KInt tLeft tRight
  end.

Definition AllInRange (dValues : list Z) (tFilter : CSphFilterSettings) : option bool :=
  let s := s_common tFilter in MvaEval_RangeAll int64_t (m_bHasEqualMin s) (m_bHasEqualMax s) (mva_ptr dValues) (m_iMinValue s) (m_iMaxValue s).

Definition AllOutsideRange (dValues : list Z) (tFilter : CSphFilterSettings) : option bool :=
  let s := s_common tFilter in negb <$> MvaEval_RangeAny (m_bHasEqualMin s) (m_bHasEqualMax s) dValues (m_iMinValue s) (m_iMaxValue s).

Definition IsRangeFilter (tFilter : CSphFilterSettings) : bool := match m_eType (s_common tFilter) with SPH_FILTER_RANGE | SPH_FILTER_FLOATRANGE => true | _ => false end.

(** What becomes of two filters: they stay; the index is rejected; the left one,
    changed, or the right one takes their place. *)
Inductive merged := Kept | Rejected | Left_ (tLeft : CSphFilterSettings) | Right_.

(** A set of values and a range, neither of them excluding. *)
Definition merge_values_range (dValues : list Z) (tRange : CSphFilterSettings) (tIn : merged) : option merged :=
  out ← AllOutsideRange dValues tRange;
  if (out : bool) then Some Rejected
  else inside ← AllInRange dValues tRange; Some (if (inside : bool) then tIn else Kept).

(** [None] when a search leaves the values or a sort does not end. *)
Definition MergeFilters (tLeft tRight : CSphFilterSettings) : option merged :=
  let bExcludeL := m_bExclude (s_common tLeft) in let bExcludeR := m_bExclude (s_common tRight) in
  match m_eType (s_common tLeft), m_eType (s_common tRight) with
  | SPH_FILTER_VALUES, SPH_FILTER_VALUES =>
      if negb (eqb bExcludeL bExcludeR) then Some (if ValuesAreSame (m_dValues tLeft) (m_dValues tRight) then Rejected else Kept)
      else if bExcludeL then d ← Uniq (m_dValues tLeft ++ m_dValues tRight); Some (Left_ (with_values tLeft d))
      else Some Kept
  | SPH_FILTER_VALUES, SPH_FILTER_RANGE =>
      if negb bExcludeL && negb bExcludeR then merge_values_range (m_dValues tLeft) tRight (Left_ tLeft) else Some Kept
  | (SPH_FILTER_RANGE | SPH_FILTER_FLOATRANGE), (SPH_FILTER_RANGE | SPH_FILTER_FLOATRANGE) =>
      if negb bExcludeL && negb bExcludeR then Some (match CheckRangeMerge tLeft tRight with None => Rejected | Some t => Left_ t end) else Some Kept
  | SPH_FILTER_RANGE, SPH_FILTER_VALUES =>
      if negb bExcludeL && negb bExcludeR then merge_values_range (m_dValues tRight) tLeft Right_ else Some Kept
  | _, _ => Some Kept
  end.

(** ** Merging the filters of a query *)

Definition RemoveFast {A} (d : list A) (i : nat) : list A :=
  match last d with None => d | Some x => take (length d - 1) (<[i:=x]> d) end.

(** The loop over the filters on the attribute [sName]; [i] is [iFilter]. After a
    merge it goes on with the second filter. *)
Fixpoint merge_loop (fuel : nat) (sName : string) (dFilters : list CSphFilterSettings) (iLeft : option nat) (i : nat) (bRejectIndex : bool) : option (list CSphFilterSettings * bool) :=
  match fuel with
  | O => None
  | S fuel' =>
      match dFilters !! i with
      | None => Some (dFilters, bRejectIndex)
      | Some tFilter =>
          if decide (m_sAttrName tFilter ≠ sName) then merge_loop fuel' sName dFilters iLeft (i + 1) bRejectIndex
          else
            match iLeft with
            | None => merge_loop fuel' sName dFilters (Some i) (i + 1) bRejectIndex
            | Some iL =>
                tLeft ← dFilters !! iL;
                r ← MergeFilters tLeft tFilter;
                match r with
                | Kept => merge_loop fuel' sName dFilters iLeft (i + 1) false
                | Rejected => merge_loop fuel' sName (RemoveFast dFilters i) None 1 true
                | Left_ t => merge_loop fuel' sName (RemoveFast (<[iL:=t]> dFilters) i) None 1 false
                | Right_ => merge_loop fuel' sName (RemoveFast dFilters iL) None 1 false
                end
            end
      end
  end.

Definition loop_fuel (d : list CSphFilterSettings) : nat := S (length d) * S (length d) + 1.

Definition mergeable (s : CSphFilterSettings) : bool :=
  match m_eType (s_common s) with SPH_FILTER_VALUES | SPH_FILTER_RANGE | SPH_FILTER_FLOATRANGE => true | _ => false end.

(** The names of the filters with their counts, in the order of the hash. *)
Fixpoint count_name (sName : string) (h : list (string * Z)) : list (string * Z) :=
  match h with
  | [] => [(sName, 1)]
  | (s, n) :: h' => if decide (s = sName) then (s, n + 1) :: h' else (s, n) :: count_name sName h'
  end.

Definition attr_names (dFilters : list CSphFilterSettings) : list (string * Z) := fold_left (λ h t, count_name (m_sAttrName t) h) dFilters [].

Fixpoint merge_names (h : list (string * Z)) (dFilters : list CSphFilterSettings) (bRejectIndex : bool) : option (list CSphFilterSettings * bool) :=
  match h with
  | [] => Some (dFilters, bRejectIndex)
  | (sName, n) :: h' =>
      if (n <? 2) || negb (forallb (λ t, bool_decide (m_sAttrName t ≠ sName) || mergeable t) dFilters) then merge_names h' dFilters bRejectIndex
      else '(dFilters, bRejectIndex) ← merge_loop (loop_fuel dFilters) sName dFilters None 0 bRejectIndex; merge_names h' dFilters bRejectIndex
  end.

(** The filter that no document passes. *)
Definition tFake : CSphFilterSettings :=
  FilterSettings (CommonFilterSettings SPH_FILTER_VALUES LLONG_MIN LLONG_MAX true true false false false) "id" SPH_MVAFUNC_NONE [-1] [].

Definition OptimizeFilters (dFilters : list CSphFilterSettings) : option (list CSphFilterSettings) :=
  '(dFilters, bRejectIndex) ← merge_names (attr_names dFilters) dFilters false;
  Some (if (bRejectIndex : bool) then [tFake] else dFilters).
End Merge.

(** ** Intervals by their bounds *)

Record bounded := Bounded { b_lower : Z; b_upper : Z; b_left : bool; b_right : bool }.

(** The larger lower bound and the smaller upper bound; of equal ones the open. *)
Definition bounded_meet (lt : Z -> Z -> bool) (i j : bounded) : bounded :=
  let '(lo, a) := if lt (b_lower i) (b_lower j) then (b_lower j, b_left j) else if lt (b_lower j) (b_lower i) then (b_lower i, b_left i) else (b_lower i, b_left i && b_left j) in
  let '(hi, b) := if lt (b_upper i) (b_upper j) then (b_upper i, b_right i) else if lt (b_upper j) (b_upper i) then (b_upper j, b_right j) else (b_upper i, b_right i && b_right j) in
  Bounded lo hi a b.

Definition int_empty (i : bounded) : bool :=
  if b_left i && b_right i then b_upper i <? b_lower i else if b_left i || b_right i then b_upper i <=? b_lower i else b_upper i <=? b_lower i + 1.
Definition float_empty (i : bounded) : bool := if b_left i && b_right i then flt_lt (b_upper i) (b_lower i) else flt_le (b_upper i) (b_lower i).

Definition bounded_int : Icl KInt := {| interval := bounded; make := λ a b lo hi, Bounded lo hi a b; lower := b_lower; upper := b_upper; closed_left := b_left; closed_right := b_right; meet := bounded_meet Z.ltb; is_empty := int_empty |}.
Definition bounded_float : Icl KFloat := {| interval := bounded; make := λ a b lo hi, Bounded lo hi a b; lower := b_lower; upper := b_upper; closed_left := b_left; closed_right := b_right; meet := bounded_meet flt_lt; is_empty := float_empty |}.
End FilterMerge.
