(* ===== verification/FilterMergeOk.v ===== *)
(** * Merged filters select the same documents *)

From stdpp Require Import sorting strings.
From S2P Require Import Prelude Hits RowAttr Schema MinMax AttrUpdate Blob BlobOk BinSearch Filter FilterOk FilterCreate FilterCreateOk FilterMerge.
Import RowAttr Schema MinMax AttrUpdate Blob Filter FilterOk FilterCreate FilterCreateOk FilterMerge.

Module FilterMergeOk.

(** What a filter on a number says of it. *)
Definition accepts (s : CSphFilterSettings) (v : Z) : bool := xorb (m_bExclude (s_common s)) (int_selects s v).

(** Settings of the SQL parser: a sorted set of values, or a range of 64-bit
    numbers whose unbounded side has the smallest or the largest number as its
    bound. *)
Definition sql_settings (s : CSphFilterSettings) : Prop :=
  let c := s_common s in
  (m_eType c = SPH_FILTER_VALUES /\ m_dExtValues s = [] /\ m_dValues s ≠ [] /\ ordered (m_dValues s)) \/
  (m_eType c = SPH_FILTER_RANGE /\ m_dExtValues s = [] /\ in_type int64_t (m_iMinValue c) /\ in_type int64_t (m_iMaxValue c) /\
   (m_bOpenLeft c = true -> m_iMinValue c = LLONG_MIN /\ m_bHasEqualMin c = true) /\ (m_bOpenRight c = true -> m_iMaxValue c = LLONG_MAX /\ m_bHasEqualMax c = true)).

Lemma int64_bounds v : in_type int64_t v <-> LLONG_MIN <= v <= LLONG_MAX.
Proof. unfold in_type, LLONG_MIN, LLONG_MAX. cbn. lia. Qed.

Lemma range_in_bounds s v : in_type int64_t v -> sql_settings s -> m_eType (s_common s) = SPH_FILTER_RANGE ->
  int_selects s v = true <-> in_bounds (m_bHasEqualMin (s_common s)) (m_bHasEqualMax (s_common s)) (m_iMinValue (s_common s)) (m_iMaxValue (s_common s)) v.
Proof.
  intros Hv%int64_bounds [(E & _)|(E & _ & _ & _ & L & R)] T; [congruence|]. unfold int_selects, range_selects, in_bounds. rewrite T, andb_true_iff, !orb_true_iff, !below_int.
  destruct (m_bOpenLeft (s_common s)), (m_bOpenRight (s_common s)); try (destruct (L eq_refl) as [-> ->]); try (destruct (R eq_refl) as [-> ->]); intuition (lia || congruence).
Qed.

Lemma range_any_sound eqmin eqmax d lo hi : ordered d ->
  ∃ b, MvaEval_RangeAny eqmin eqmax d lo hi = Some b /\ (b = false -> ∀ x, x ∈ d -> ¬ in_bounds eqmin eqmax lo hi x).
Proof.
  intros So. unfold MvaEval_RangeAny.
  destruct (mva_search_ok d lo So (S (length d)) 0 (len d - 1)) as (p & Hp & [[G Ep]|(G & Hl & B & A)]);
    [lia..|intros i x Ex%lookup_lt_Some Hi; lia|rewrite G; cbn [mbind option_bind]|rewrite G; cbn [mbind option_bind]].
  - eexists. split; [done|]. intros [-> Hq%Z.ltb_ge]%orb_false_iff x (i & Ei)%list_elem_of_lookup [H _]. pose proof (lookup_lt_Some _ _ _ Ei).
    pose proof (ordered_at d So i (Z.to_nat p) x lo ltac:(lia) Ei Ep). lia.
  - destruct (Z.eqb_spec p (len d)) as [E|E].
    + eexists. split; [done|]. intros _ x (i & Ei)%list_elem_of_lookup [H _]. specialize (B i x Ei ltac:(apply lookup_lt_Some in Ei; lia)). destruct eqmin; lia.
    + destruct (lookup_lt_is_Some_2 d (Z.to_nat p) ltac:(lia)) as [y Ey]. rewrite Ey. cbn [mbind option_bind]. eexists. split; [done|]. intros Hb x (i & Ei)%list_elem_of_lookup [H1 H2].
      apply not_true_iff_false in Hb. rewrite below_int in Hb. assert (y <= x) by (destruct (decide (Z.of_nat i < p)); [specialize (B i x Ei ltac:(lia)); destruct eqmin; lia|exact (ordered_at d So (Z.to_nat p) i y x ltac:(lia) Ey Ei)]).
      destruct eqmax; lia.
Qed.

Lemma outside_ok d s : ordered d -> sql_settings s -> m_eType (s_common s) = SPH_FILTER_RANGE ->
  ∃ b, AllOutsideRange d s = Some b /\ (b = true -> ∀ x, in_type int64_t x -> x ∈ d -> int_selects s x = false).
Proof.
  intros So Hs T. unfold AllOutsideRange. destruct (range_any_sound (m_bHasEqualMin (s_common s)) (m_bHasEqualMax (s_common s)) d (m_iMinValue (s_common s)) (m_iMaxValue (s_common s)) So) as (b & -> & H).
  eexists. split; [done|]. intros Hb%negb_true_iff x Hx Hin. apply not_true_iff_false. rewrite range_in_bounds by done. by apply H.
Qed.

Lemma inside_ok d s : ordered d -> sql_settings s -> m_eType (s_common s) = SPH_FILTER_RANGE ->
  ∃ b, AllInRange d s = Some b /\ (b = true -> ∀ x, in_type int64_t x -> x ∈ d -> int_selects s x = true).
Proof.
  intros So Hs T. pose proof Hs as [(E & _)|(_ & _ & Hlo & Hhi & _)]; [congruence|]. unfold AllInRange.
  destruct (range_all_ok int64_t (m_bHasEqualMin (s_common s)) (m_bHasEqualMax (s_common s)) d (m_iMinValue (s_common s)) (m_iMaxValue (s_common s)) eq_refl So Hlo Hhi) as (b & -> & H).
  eexists. split; [done|]. intros [_ F]%H x Hx Hin. rewrite range_in_bounds by done. rewrite Forall_forall in F. by apply F.
Qed.

(** What a merge promises. *)
Definition outcome_ok (l r : CSphFilterSettings) (o : merged) : Prop :=
  match o with
  | Kept => True
  | Rejected => ∀ v, in_type int64_t v -> accepts l v && accepts r v = false
  | Left_ t => sql_settings t /\ m_sAttrName t = m_sAttrName l /\ len (m_dValues t) <= len (m_dValues l) + len (m_dValues r) /\ ∀ v, in_type int64_t v -> accepts t v = accepts l v && accepts r v
  | Right_ => ∀ v, in_type int64_t v -> accepts r v = accepts l v && accepts r v
  end.

Section Laws.
Context {II : Icl KInt} {IF : Icl KFloat} {laws : IclLaws II}.

Lemma construct_contains s v : sql_settings s -> m_eType (s_common s) = SPH_FILTER_RANGE -> in_type int64_t v ->
  contains (I:=II) (ConstructInterval KInt s) v = int_selects s v /\ in_type int64_t (lower (Icl:=II) (ConstructInterval KInt s)) /\ in_type int64_t (upper (Icl:=II) (ConstructInterval KInt s)).
Proof.
  intros Hs T Hv. pose proof Hs as [(E & _)|(_ & _ & Hlo & Hhi & L & R)]; [congruence|].
  assert (contains (I:=II) (ConstructInterval KInt s) v = true <-> int_selects s v = true) as ->%eq_true_iff_eq.
  - rewrite range_in_bounds by done. unfold contains, ConstructInterval. cbn [interval_of]. destruct (make_bounds (m_bOpenLeft (s_common s) || m_bHasEqualMin (s_common s)) (m_bOpenRight (s_common s) || m_bHasEqualMax (s_common s))
      (if m_bOpenLeft (s_common s) then LLONG_MIN else m_iMinValue (s_common s)) (if m_bOpenRight (s_common s) then LLONG_MAX else m_iMaxValue (s_common s))) as (-> & -> & -> & ->).
    rewrite andb_true_iff, !below_int. unfold in_bounds. destruct (m_bOpenLeft (s_common s)), (m_bOpenRight (s_common s)); try (destruct (L eq_refl) as [-> ->]); try (destruct (R eq_refl) as [-> ->]); done.
  - split; [done|]. unfold ConstructInterval. cbn [interval_of]. match goal with |- context [make ?a ?b ?c ?d] => destruct (make_bounds a b c d) as (-> & -> & _) end.
    split; case_match; try done; by apply int64_bounds.
Qed.

Lemma range_merge_ok l r : sql_settings l -> sql_settings r -> m_eType (s_common l) = SPH_FILTER_RANGE -> m_eType (s_common r) = SPH_FILTER_RANGE ->
  m_bExclude (s_common l) = false -> m_bExclude (s_common r) = false -> outcome_ok l r (match CheckRangeMerge l r with None => Rejected | Some t => Left_ t end).
Proof.
  intros Hl Hr Tl Tr El Er. unfold CheckRangeMerge. rewrite Tl, Tr. unfold CalcRangeMerge.
  assert (∀ v, in_type int64_t v -> contains (meet (Icl:=II) (ConstructInterval KInt l) (ConstructInterval KInt r)) v = accepts l v && accepts r v) as M.
  { intros v Hv. rewrite meet_contains. destruct (construct_contains l v Hl Tl Hv) as [-> _]. destruct (construct_contains r v Hr Tr Hv) as [-> _]. unfold accepts. by rewrite El, Er. }
  destruct (construct_contains l 0 Hl Tl ltac:(done)) as (_ & L1 & L2). destruct (construct_contains r 0 Hr Tr ltac:(done)) as (_ & R1 & R2).
  change (@interval_of II IF KInt) with II in *. destruct (is_empty (meet (Icl:=II) (ConstructInterval KInt l) (ConstructInterval KInt r))) eqn:Em.
  - cbn [outcome_ok]. intros v Hv. rewrite <- M by done. by apply empty_contains.
  - cbn [outcome_ok]. set (i := meet (Icl:=II) (ConstructInterval KInt l) (ConstructInterval KInt r)) in *. assert (in_type int64_t (lower i)) as Hlo by (destruct (meet_lower _ _ Em) as [H|H]; unfold i; by rewrite H).
    assert (in_type int64_t (upper i)) as Hhi by (destruct (meet_upper _ _ Em) as [H|H]; unfold i; by rewrite H).
    assert (sql_settings (DeconstructInterval KInt l i)) as Hs.
    { right. cbn. pose proof Hl as [(E & _)|(_ & X & _)]; [congruence|]. rewrite !andb_true_iff, !bool_decide_eq_true. done. }
    split; [done|]. split; [done|]. split; [cbn; lia|]. intros v Hv. rewrite <- M by done. unfold accepts. cbn [DeconstructInterval with_common s_common m_bExclude]. rewrite El. cbn [xorb].
    apply eq_true_iff_eq. rewrite range_in_bounds by done. unfold contains. rewrite andb_true_iff, !below_int. done.
Qed.

Lemma values_range_ok d s o l r : ordered d -> sql_settings s -> m_eType (s_common s) = SPH_FILTER_RANGE ->
  (∀ v, in_type int64_t v -> accepts l v && accepts r v = bool_decide (v ∈ d) && int_selects s v) -> ((∀ v, in_type int64_t v -> v ∈ d -> int_selects s v = true) -> outcome_ok l r o) ->
  ∃ o', merge_values_range d s o = Some o' /\ outcome_ok l r o'.
Proof.
  intros So Hs T Hb Ho. unfold merge_values_range. destruct (outside_ok d s So Hs T) as ([|] & -> & H1); cbn [mbind option_bind].
  - eexists. split; [done|]. intros v Hv. rewrite Hb by done. case_bool_decide; [|done]. by rewrite H1.
  - destruct (inside_ok d s So Hs T) as ([|] & -> & H2); cbn [mbind option_bind]; eexists; (split; [done|]); [|done]. apply Ho. by apply H2.
Qed.

Lemma values_accepts s v : m_eType (s_common s) = SPH_FILTER_VALUES -> m_dExtValues s = [] -> accepts s v = xorb (m_bExclude (s_common s)) (bool_decide (v ∈ m_dValues s)).
Proof. intros T E. unfold accepts, int_selects, GetValues. by rewrite T, E. Qed.

Lemma merge_ok l r : sql_settings l -> sql_settings r -> len (m_dValues l) + len (m_dValues r) < 2 ^ 36 -> ∃ o, MergeFilters l r = Some o /\ outcome_ok l r o.
Proof.
  intros Hl Hr Hn. unfold MergeFilters. pose proof Hl as [(Tl & Xl & Nl & Ol)|(Tl & Xl & _)]; pose proof Hr as [(Tr & Xr & Nr & Or)|(Tr & Xr & _)]; rewrite Tl, Tr.
  - destruct (m_bExclude (s_common l)) eqn:El, (m_bExclude (s_common r)) eqn:Er; cbn [eqb negb]; [| | |by exists Kept].
    + destruct (BlobOk.Uniq_ok (m_dValues l ++ m_dValues r)) as (d & -> & Sd & G); [rewrite length_app; lia|]. cbn [mbind option_bind]. eexists. split; [done|].
      assert (len d <= len (m_dValues l) + len (m_dValues r)) as Ld.
      { assert (length d <= length (m_dValues l ++ m_dValues r))%nat as H; [|rewrite length_app in H; lia]. apply submseteq_length, NoDup_submseteq; [|intros x; apply G].
        clear -Sd. induction Sd as [|a d Sd IH F]; constructor; [|done]. intros Hin. rewrite Forall_forall in F. specialize (F _ Hin). lia. }
      split; [|split; [done|split; [done|]]].
      * left. split; [done|]. split; [done|]. split; [|eapply BlobOk.sorted_impl; [|exact Sd]; cbn; lia]. destruct (m_dValues l) as [|x]; [done|]. intros E. assert (x ∈ d) as H by (apply G; left). cbn in E. rewrite E in H. by apply not_elem_of_nil in H.
      * intros v _. rewrite !values_accepts by done. cbn [with_values s_common m_dValues]. rewrite El, Er. rewrite !xorb_true_l, <- negb_orb. f_equal. apply eq_true_iff_eq. rewrite orb_true_iff, !bool_decide_eq_true, G. apply elem_of_app.
    + unfold ValuesAreSame. case_bool_decide as E; [|by exists Kept]. eexists. split; [done|]. intros v _. rewrite !values_accepts by done. rewrite El, Er, E. cbn [xorb]. by destruct (bool_decide _).
    + unfold ValuesAreSame. case_bool_decide as E; [|by exists Kept]. eexists. split; [done|]. intros v _. rewrite !values_accepts by done. rewrite El, Er, E. cbn [xorb]. by destruct (bool_decide _).
  - destruct (m_bExclude (s_common l)) eqn:El, (m_bExclude (s_common r)) eqn:Er; cbn [negb andb]; try (by exists Kept).
    assert (∀ v, accepts l v && accepts r v = bool_decide (v ∈ m_dValues l) && int_selects r v) as A by (intros v; rewrite values_accepts by done; unfold accepts; by rewrite El, Er).
    apply (values_range_ok _ _ _ l r Ol Hr Tr); [by intros|]. intros H. split; [done|]. split; [done|]. split; [lia|]. intros v Hv. rewrite A, values_accepts, El by done. cbn [xorb]. case_bool_decide as D; [|done]. by rewrite H.
  - destruct (m_bExclude (s_common l)) eqn:El, (m_bExclude (s_common r)) eqn:Er; cbn [negb andb]; try (by exists Kept).
    assert (∀ v, accepts l v && accepts r v = bool_decide (v ∈ m_dValues r) && int_selects l v) as A by (intros v; rewrite andb_comm, values_accepts by done; unfold accepts; by rewrite El, Er).
    apply (values_range_ok _ _ _ l r Or Hl Tl); [by intros|]. intros H v Hv. rewrite A, values_accepts, Er by done. cbn [xorb]. case_bool_decide as D; [|done]. by rewrite H.
  - destruct (m_bExclude (s_common l)) eqn:El, (m_bExclude (s_common r)) eqn:Er; cbn [negb andb]; try (by exists Kept). eexists. split; [done|]. by apply range_merge_ok.
Qed.

(** ** All filters of a query *)

(** A row has a number for each attribute. *)
Definition passes (l : list CSphFilterSettings) (row : string -> Z) : Prop := ∀ s, s ∈ l -> accepts s (row (m_sAttrName s)) = true.
Definition row_ok (row : string -> Z) : Prop := ∀ sName, in_type int64_t (row sName).

Definition total (l : list CSphFilterSettings) : Z := Z.of_nat (sum_list_with (λ s, length (m_dValues s)) l).

Lemma total_perm l l' : l ≡ₚ l' -> total l = total l'.
Proof. unfold total. induction 1; cbn; lia. Qed.
Lemma total_insert l i s t : l !! i = Some s -> total (<[i:=t]> l) = total l - len (m_dValues s) + len (m_dValues t).
Proof.
  intros E. pose proof (lookup_lt_Some _ _ _ E). rewrite insert_take_drop by done. rewrite <- (take_drop_middle l i s E) at 3. unfold total. rewrite !sum_list_with_app. cbn. lia.
Qed.
Lemma total_two l i j s t : i ≠ j -> l !! i = Some s -> l !! j = Some t -> len (m_dValues s) + len (m_dValues t) <= total l.
Proof.
  intros N Ei Ej. pose proof (total_insert l i s (with_values s []) Ei) as T. rewrite <- (list_lookup_insert_ne l i j (with_values s []) N) in Ej. pose proof (total_insert _ _ _ (with_values s []) Ej). cbn in *. unfold total in *. lia.
Qed.

Lemma remove_perm {A} (d : list A) i x : d !! i = Some x -> d ≡ₚ x :: RemoveFast d i.
Proof.
  destruct d as [|z d _] using rev_ind; [done|]. intros E. unfold RemoveFast. rewrite last_snoc, length_app. cbn [length]. replace (length d + 1 - 1)%nat with (length d) by lia.
  destruct (decide (i < length d)%nat) as [H|H].
  - rewrite insert_app_l, take_app_length' by (rewrite ?length_insert; lia). rewrite lookup_app_l in E by done. rewrite insert_take_drop by done. rewrite <- (take_drop_middle d i x E) at 1. solve_Permutation.
  - assert (i = length d) as -> by (apply lookup_lt_Some in E; rewrite length_app in E; cbn in E; lia). rewrite list_lookup_middle in E by done. injection E as <-.
    rewrite insert_app_r_alt, Nat.sub_diag by lia. rewrite take_app_length. solve_Permutation.
Qed.

Lemma remove_keeps {A} (d : list A) i j y : d !! j = Some y -> j ≠ i -> (i < length d)%nat -> y ∈ RemoveFast d i.
Proof.
  intros E N L. unfold RemoveFast. pose proof (lookup_lt_Some _ _ _ E). destruct (last d) as [z|] eqn:Ez; [|apply last_None in Ez; by subst]. rewrite last_lookup in Ez.
  destruct (decide (j = length d - 1)%nat) as [->|Nj].
  - replace (length d - 1)%nat with (pred (length d)) in * by lia. assert (z = y) as -> by congruence. apply list_elem_of_lookup. exists i. rewrite lookup_take_lt by lia. by apply list_lookup_insert_eq.
  - apply list_elem_of_lookup. exists j. rewrite lookup_take_lt by lia. by rewrite list_lookup_insert_ne.
Qed.

Lemma remove_in {A} (d : list A) i x y : d !! i = Some x -> y ∈ RemoveFast d i -> y ∈ d.
Proof. intros E H. rewrite (remove_perm d i x E). by right. Qed.

(** One filter replaces the filters [iL] and [i]. *)
Lemma replace_both d iL i l r t row : d !! iL = Some l -> d !! i = Some r -> iL ≠ i -> m_sAttrName l = m_sAttrName r -> m_sAttrName t = m_sAttrName l ->
  accepts t (row (m_sAttrName l)) = accepts l (row (m_sAttrName l)) && accepts r (row (m_sAttrName l)) -> passes (RemoveFast (<[iL:=t]> d) i) row <-> passes d row.
Proof.
  intros El Er N Hn Ht Ha. pose proof (lookup_lt_Some _ _ _ El). pose proof (lookup_lt_Some _ _ _ Er). assert (<[iL:=t]> d !! i = Some r) as Er' by by rewrite list_lookup_insert_ne. split; intros P s Hs.
  - assert (accepts t (row (m_sAttrName t)) = true) as Pt by (apply P, (remove_keeps _ _ iL); [by apply list_lookup_insert_eq|done|by rewrite length_insert]). rewrite Ht, Ha, andb_true_iff in Pt.
    apply list_elem_of_lookup in Hs as [k Ek]. destruct (decide (k = iL)) as [->|Nk]; [assert (s = l) as -> by congruence; apply Pt|].
    destruct (decide (k = i)) as [->|Ni]; [assert (s = r) as -> by congruence; rewrite <- Hn; apply Pt|]. apply P, (remove_keeps _ _ k); [by rewrite list_lookup_insert_ne|done|by rewrite length_insert].
  - pose proof (remove_in _ _ _ _ Er' Hs) as Hin. apply list_elem_of_lookup in Hin as [k Ek]. destruct (decide (k = iL)) as [->|Nk].
    + rewrite list_lookup_insert_eq in Ek by done. injection Ek as <-. rewrite Ht, Ha, andb_true_iff. split; [|rewrite Hn]; apply P; by eapply list_elem_of_lookup_2.
    + rewrite list_lookup_insert_ne in Ek by done. apply P. by eapply list_elem_of_lookup_2.
Qed.

(** What the loops keep, for the filters [L] of the query. *)
Definition merged_from (L d : list CSphFilterSettings) (rej : bool) : Prop :=
  Forall sql_settings d /\ total d < 2 ^ 36 /\ (∀ row, row_ok row -> passes L row -> passes d row) /\ (rej = true -> ∀ row, row_ok row -> ¬ passes L row) /\
  ((∃ row, row_ok row /\ passes L row) -> ∀ row, row_ok row -> passes d row -> passes L row).

Lemma merged_flag L d rej : merged_from L d rej -> merged_from L d false.
Proof. intros (A & B & C & _ & D). done. Qed.

Lemma merge_step L d rej iL i l r : merged_from L d rej -> d !! iL = Some l -> d !! i = Some r -> iL ≠ i -> m_sAttrName l = m_sAttrName r ->
  ∃ o, MergeFilters l r = Some o /\
    match o with
    | Kept => True
    | Rejected => merged_from L (RemoveFast d i) true
    | Left_ t => merged_from L (RemoveFast (<[iL:=t]> d) i) false
    | Right_ => merged_from L (RemoveFast d iL) false
    end.
Proof.
  intros (S & T & C1 & C2 & C3) El Er N Hn. pose proof (total_two d iL i l r N El Er) as T2. rewrite Forall_forall in S.
  assert (∀ d' k s, d !! k = Some s -> d' = RemoveFast d k -> Forall sql_settings d' /\ total d' < 2 ^ 36) as K.
  { intros d' k s Ek ->. split; [apply Forall_forall; intros x Hx; by apply S, (remove_in d k s)|]. pose proof (total_perm _ _ (remove_perm d k s Ek)) as H. unfold total in *. cbn in H. lia. }
  destruct (merge_ok l r) as (o & -> & Ho); [by eapply S, list_elem_of_lookup_2..|lia|]. eexists. split; [done|]. destruct o as [| |t|]; [done|..]; cbn [outcome_ok] in Ho.
  - assert (∀ row, row_ok row -> ¬ passes d row) as Hno.
    { intros row Hr P. pose proof (P l ltac:(by eapply list_elem_of_lookup_2)). pose proof (P r ltac:(by eapply list_elem_of_lookup_2)) as Pr. specialize (Ho _ (Hr (m_sAttrName l))). rewrite <- Hn in Pr. rewrite H, Pr in Ho. done. }
    destruct (K _ i r Er eq_refl) as [K1 K2]. split; [done|]. split; [done|]. split; [intros row Hr HL; by destruct (Hno row Hr (C1 row Hr HL))|]. split; [intros _ row Hr HL; by apply (Hno row Hr (C1 row Hr HL))|].
    intros (row & Hr & HL). by destruct (Hno row Hr (C1 row Hr HL)).
  - destruct Ho as (St & Nt & Lt & At). assert (<[iL:=t]> d !! i = Some r) as Er' by by rewrite list_lookup_insert_ne. pose proof (total_insert d iL l t El) as TI.
    assert (∀ row, row_ok row -> passes (RemoveFast (<[iL:=t]> d) i) row <-> passes d row) as Q by (intros row Hr; apply (replace_both d iL i l r t); auto).
    split; [|split; [|split; [|split; [done|]]]].
    + apply Forall_forall. intros x Hx%(remove_in _ _ _ _ Er'). apply list_elem_of_lookup in Hx as [k Ek]. destruct (decide (k = iL)) as [->|Nk].
      * rewrite list_lookup_insert_eq in Ek by (by eapply lookup_lt_Some). by injection Ek as <-.
      * rewrite list_lookup_insert_ne in Ek by done. by eapply S, list_elem_of_lookup_2.
    + pose proof (total_perm _ _ (remove_perm _ _ _ Er')) as H. rewrite TI in H. unfold total in *. cbn in H. lia.
    + intros row Hr HL. apply Q; auto.
    + intros Hx row Hr P. apply C3; [done..|]. by apply Q.
  - destruct (K _ iL l El eq_refl) as [K1 K2]. split; [done|]. split; [done|]. split; [intros row Hr HL s Hs%(remove_in _ _ _ _ El); by apply (C1 row)|]. split; [done|].
    intros Hx row Hr P. apply C3; [done..|]. intros s Hs. apply list_elem_of_lookup in Hs as [k Ek]. destruct (decide (k = iL)) as [->|Nk]; [|apply P, (remove_keeps _ _ k); [done..|by eapply lookup_lt_Some]].
    assert (s = l) as -> by congruence. assert (accepts r (row (m_sAttrName r)) = true) as Pr by (apply P, (remove_keeps _ _ i); [done..|by eapply lookup_lt_Some]).
    rewrite <- Hn, (Ho _ (Hr _)), andb_true_iff in Pr. apply Pr.
Qed.

Lemma remove_length {A} (d : list A) i x : d !! i = Some x -> length d = S (length (RemoveFast d i)).
Proof. intros E. by rewrite (remove_perm d i x E) at 1. Qed.

Lemma loop_ok L sName : ∀ fuel d iL i rej, merged_from L d rej -> (length d * (length d + 1) + (length d - i) < fuel)%nat ->
  (∀ j, iL = Some j -> (j < i)%nat /\ ∃ l, d !! j = Some l /\ m_sAttrName l = sName) -> ∃ d' rej', merge_loop fuel sName d iL i rej = Some (d', rej') /\ merged_from L d' rej'.
Proof.
  induction fuel as [|fuel IH]; intros d iL i rej M Hf HL; [lia|]. cbn [merge_loop]. destruct (d !! i) as [r|] eqn:Ei; [|eauto]. pose proof (lookup_lt_Some _ _ _ Ei) as Hi.
  assert (∀ j, iL = Some j -> (j < i + 1)%nat /\ ∃ l, d !! j = Some l /\ m_sAttrName l = sName) as HL' by (intros j ->; destruct (HL j eq_refl); split; [lia|done]).
  case_decide as Hn; [apply IH; [done|lia|done]|]. destruct iL as [j|].
  - destruct (HL j eq_refl) as (Hj & l & El & Nl). rewrite El. cbn [mbind option_bind]. destruct (merge_step L d rej j i l r M El Ei ltac:(lia) ltac:(congruence)) as (o & -> & Ho). cbn [mbind option_bind].
    destruct o as [| |t|].
    + apply IH; [by eapply merged_flag|lia|done].
    + pose proof (remove_length d i r Ei). apply IH; [done|nia|done].
    + assert (<[j:=t]> d !! i = Some r) as E by (rewrite list_lookup_insert_ne; [done|lia]). pose proof (remove_length _ i r E) as H. rewrite length_insert in H. apply IH; [done|nia|done].
    + pose proof (remove_length d j l El). apply IH; [done|nia|done].
  - apply IH; [done|lia|]. intros j [= <-]. split; [lia|eauto].
Qed.

Lemma names_ok L : ∀ h d rej, merged_from L d rej -> ∃ d' rej', merge_names h d rej = Some (d', rej') /\ merged_from L d' rej'.
Proof.
  induction h as [|[sName n] h IH]; intros d rej M; cbn [merge_names]; [eauto|]. case_match; [by apply IH|].
  destruct (loop_ok L sName (loop_fuel d) d None 0 rej M) as (d' & rej' & -> & M'); [unfold loop_fuel; lia|done|]. by apply IH.
Qed.

(** [C32] The merge of the filters of a query, by values and by ranges of numbers on
    attributes with one value, over any intervals that behave as documented:
    [OptimizeFilters] ends; every document that passes the filters of the query
    passes the merged ones; and if the query can match at all, the merged filters
    let no other document pass. *)
Theorem optimize_correct dFilters : Forall sql_settings dFilters -> total dFilters < 2 ^ 36 ->
  ∃ dMerged, OptimizeFilters dFilters = Some dMerged /\ (∀ row, row_ok row -> passes dFilters row -> passes dMerged row) /\
    ((∃ row, row_ok row /\ passes dFilters row) -> ∀ row, row_ok row -> passes dMerged row -> passes dFilters row).
Proof.
  intros S T. destruct (names_ok dFilters (attr_names dFilters) dFilters false) as (d & rej & E & _ & _ & C1 & C2 & C3); [by repeat split|]. unfold OptimizeFilters. rewrite E. cbn [mbind option_bind]. eexists. split; [done|].
  destruct rej; [|done]. split; [intros row Hr P; by destruct (C2 eq_refl row Hr P)|]. intros (row & Hr & P). by destruct (C2 eq_refl row Hr P).
Qed.
(** The settings of [sName > v] or [sName >= v], and of [sName < v] or
    [sName <= v]. *)
Definition greater (sName : string) (v : Z) (bEqual : bool) : CSphFilterSettings :=
  FilterSettings (CommonFilterSettings SPH_FILTER_RANGE v LLONG_MAX bEqual true false true false) sName SPH_MVAFUNC_NONE [] [].
Definition lesser (sName : string) (v : Z) (bEqual : bool) : CSphFilterSettings :=
  FilterSettings (CommonFilterSettings SPH_FILTER_RANGE LLONG_MIN v true bEqual true false false) sName SPH_MVAFUNC_NONE [] [].

(** The merge of [x >= lo] and [x < hi] is the range of both, whatever the
    intervals. *)
Lemma half_open_merge sName lo hi : LLONG_MIN + 1 < lo < hi -> hi < LLONG_MAX ->
  OptimizeFilters [greater sName lo true; lesser sName hi false] =
    Some [FilterSettings (CommonFilterSettings SPH_FILTER_RANGE lo hi true false false false false) sName SPH_MVAFUNC_NONE [] []].
Proof.
  intros Hlo Hhi. assert (MergeFilters (greater sName lo true) (lesser sName hi false) =
    Some (Left_ (FilterSettings (CommonFilterSettings SPH_FILTER_RANGE lo hi true false false false false) sName SPH_MVAFUNC_NONE [] []))) as E.
  { unfold MergeFilters, CheckRangeMerge, CalcRangeMerge, ConstructInterval, DeconstructInterval. cbn [greater lesser s_common m_eType m_bExclude negb andb interval_of m_bOpenLeft m_bOpenRight m_bHasEqualMin m_bHasEqualMax m_iMinValue m_iMaxValue orb].
    set (i := make _ _ lo LLONG_MAX). set (j := make _ _ LLONG_MIN hi). destruct (make_bounds true true lo LLONG_MAX) as (A1 & A2 & A3 & A4). destruct (make_bounds true false LLONG_MIN hi) as (B1 & B2 & B3 & B4). fold i in A1, A2, A3, A4. fold j in B1, B2, B3, B4.
    assert (∀ x, contains (meet i j) x = true <-> (lo <= x <= LLONG_MAX) /\ LLONG_MIN <= x < hi) as C.
    { intros x. rewrite meet_contains, andb_true_iff. unfold contains. rewrite A1, A2, A3, A4, B1, B2, B3, B4, !andb_true_iff, !below_int. done. }
    destruct (is_empty (meet i j)) eqn:Em; [pose proof (proj1 (empty_contains _) Em lo) as N; specialize (C lo); rewrite N in C; assert (false = true) as D by (apply C; unfold LLONG_MIN, LLONG_MAX in *; lia); discriminate D|].
    pose proof (meet_lower i j Em) as L. pose proof (meet_upper i j Em) as U. rewrite A1, B1 in L. rewrite A2, B2 in U. unfold contains in C.
    pose proof (C lo) as C1. pose proof (C (lo - 1)) as C2. pose proof (C hi) as C3. pose proof (C (hi - 1)) as C4. rewrite andb_true_iff, !below_int in C1, C2, C3, C4. unfold LLONG_MIN, LLONG_MAX in *.
    assert (lower (meet i j) = lo /\ closed_left (meet i j) = true) as [L1 L2].
    { destruct L as [L|L]; rewrite L in *; destruct (closed_left (meet i j)), (closed_right (meet i j)); try (split; [done|done]); exfalso; destruct U as [U|U]; rewrite U in *; lia. }
    assert (upper (meet i j) = hi /\ closed_right (meet i j) = false) as [U1 U2].
    { rewrite L1, L2 in *. destruct U as [U|U]; rewrite U in *; destruct (closed_right (meet i j)); try (split; [done|done]); exfalso; lia. }
    rewrite L1, L2, U1, U2, !bool_decide_eq_false_2 by (unfold LLONG_MIN, LLONG_MAX; lia). done. }
  unfold OptimizeFilters. cbn [attr_names fold_left count_name greater lesser m_sAttrName]. rewrite decide_True by done. cbn [merge_names]. fold (greater sName lo true) (lesser sName hi false).
  assert (forallb (λ t, bool_decide (m_sAttrName t ≠ sName) || mergeable t) [greater sName lo true; lesser sName hi false] = true) as -> by (cbn; by rewrite !orb_true_r). cbn [Z.add Z.ltb negb orb Pos.add Z.compare Pos.compare Pos.compare_cont].
  unfold loop_fuel. cbn [length Nat.mul Nat.add merge_loop lookup list_lookup]. rewrite decide_False by (cbn; tauto). cbn [merge_loop lookup list_lookup Nat.add mbind option_bind]. rewrite decide_False by (cbn; tauto). rewrite E. cbn [mbind option_bind]. cbn. done.
Qed.

(** [C33] A range with just one of its ends, as the merge of [x >= lo] and
    [x < hi] gives for every [lo] and [hi], rejects blocks that have rows it
    accepts: it accepts the rows with numbers from [lo] to before [hi], but a block
    whose largest number is [lo] is skipped. *)
Theorem half_open_range_skips sName c pBlobPool lo hi : int_type (m_eAttrType c) = true -> m_bDynamic (m_tLocator c) = false -> LLONG_MIN + 1 < lo < hi -> hi < LLONG_MAX ->
  ∃ s f, OptimizeFilters [greater sName lo true; lesser sName hi false] = Some [s] /\ CreateFilter s c pBlobPool = Created f /\
    (∀ m v, GetAttr m (m_tLocator c) = Some v -> Eval f m = Some (bool_decide (lo <= v < hi))) /\
    ∀ pMin pMax v, sphGetRowAttr pMin (m_tLocator c) = Some v -> sphGetRowAttr pMax (m_tLocator c) = Some lo -> EvalBlock f pMin pMax = Some false.
Proof.
  intros Hc Hd Hlo Hhi. eexists _, (Filter_Range true false false false (m_tLocator c) lo hi). split; [by apply half_open_merge|]. split; [|split].
  - unfold CreateFilter, SetFilterSettings, new_filter. rewrite !fixup_type by (by destruct (m_eAttrType c)). by destruct (m_eAttrType c).
  - intros m v E. cbn [Eval]. rewrite E. cbn [mbind option_bind]. f_equal. apply eq_true_iff_eq. unfold EvalRange. rewrite bool_decide_eq_true, andb_true_iff, !below_int. done.
  - intros pMin pMax v E1 E2. cbn [EvalBlock]. rewrite Hd, E1, E2. cbn [mbind option_bind]. f_equal. unfold EvalBlockRangeAny. apply andb_false_iff. right. apply not_true_iff_false. rewrite below_int. lia.
Qed.
End Laws.

(** ** Concrete intervals *)

#[local] Existing Instance bounded_int.
#[local] Existing Instance bounded_float.

#[export] Instance bounded_laws : IclLaws bounded_int.
Proof.
  split.
  - done.
  - intros [lo hi a b] [lo' hi' a' b'] x. unfold contains. apply eq_true_iff_eq. cbn. unfold bounded_meet. cbn. rewrite !andb_true_iff.
    repeat match goal with |- context [?u <? ?v] => destruct (Z.ltb_spec u v) end; cbn; rewrite !below_int; destruct a, a', b, b'; cbn; intuition lia.
  - intros [lo hi a b] [lo' hi' a' b'] _. cbn. unfold bounded_meet. cbn. repeat case_match; simplify_eq/=; auto.
  - intros [lo hi a b] [lo' hi' a' b'] _. cbn. unfold bounded_meet. cbn. repeat case_match; simplify_eq/=; auto.
  - intros [lo hi a b]. assert (int_empty (Bounded lo hi a b) = true <-> ∀ x, ¬ in_bounds a b lo hi x) as H.
    { unfold int_empty, in_bounds. cbn. destruct a, b; cbn; rewrite ?Z.ltb_lt, ?Z.leb_le; (split; [intros; lia|intros H; pose proof (H lo); pose proof (H hi); pose proof (H (lo + 1)); lia]). }
    cbn [is_empty bounded_int]. rewrite H. unfold contains. cbn. split; intros G x; specialize (G x); [apply not_true_iff_false|apply not_true_iff_false in G]; rewrite andb_true_iff, !below_int in *; done.
Qed.

Definition demo_values (sName : string) (d : list Z) (bExclude : bool) : CSphFilterSettings :=
  FilterSettings (CommonFilterSettings SPH_FILTER_VALUES LLONG_MIN LLONG_MAX true true false false bExclude) sName SPH_MVAFUNC_NONE d [].
Lemma optimize_witness : ∃ d, OptimizeFilters [greater "x" 1 false; demo_values "y" [1; 3] true; lesser "x" 9 true; demo_values "y" [2] true] = Some d /\ passes d (λ _, 5).
Proof.
  destruct (optimize_correct [greater "x" 1 false; demo_values "y" [1; 3] true; lesser "x" 9 true; demo_values "y" [2] true]) as (d & E & A & _).
  - repeat (apply Forall_cons; split); [..|apply Forall_nil_2; done]; first [right; repeat split; done|left; split; [reflexivity|]; split; [reflexivity|]; split; [done|repeat constructor; lia]].
  - reflexivity.
  - exists d. split; [exact E|]. apply A; [by intros ?|]. intros s Hs. rewrite list_elem_of_In in Hs. repeat destruct Hs as [<-|Hs]; try reflexivity. destruct Hs.
Defined.

Lemma half_open_range_skips_witness : ∃ f, CreateFilter (FilterSettings (CommonFilterSettings SPH_FILTER_RANGE 5 10 true false false false false) "x" SPH_MVAFUNC_NONE [] []) demo_col [] = Created f /\
  Eval f (demo_match 5) = Some true /\ EvalBlock f [1] [5] = Some false.
Proof.
  assert (LLONG_MIN + 1 < 5 < 10) as H1 by (unfold LLONG_MIN; lia). assert (10 < LLONG_MAX) as H2 by (unfold LLONG_MAX; lia).
  destruct (half_open_range_skips "x" demo_col [] 5 10 eq_refl eq_refl H1 H2) as (s & f & E & C & A & B).
  assert (OptimizeFilters [greater "x" 5 true; lesser "x" 10 false] = Some [FilterSettings (CommonFilterSettings SPH_FILTER_RANGE 5 10 true false false false false) "x" SPH_MVAFUNC_NONE [] []]) as E' by (vm_compute; reflexivity).
  rewrite E' in E. injection E as <-. exists f. split; [exact C|]. split; [by rewrite (A (demo_match 5) 5 eq_refl)|]. exact (B [1] [5] 1 eq_refl eq_refl).
Defined.

(** A rejection is forgotten when other filters are compared after it:
    [x=1 AND x!=1] with [y>1 AND y<5] finds documents with [x=1]. *)
Example rejection_forgotten : ∃ d, OptimizeFilters [demo_values "x" [1] false; demo_values "x" [1] true; greater "y" 1 false; lesser "y" 5 false] = Some d /\
  passes d (λ sName, if decide (sName = "x"%string) then 1 else 3).
Proof. eexists. split; [vm_compute; reflexivity|]. intros s Hs. rewrite list_elem_of_In in Hs. repeat destruct Hs as [<-|Hs]; try reflexivity. destruct Hs. Qed.

(** Two ranges on a multi-value attribute are merged as if it had one value: a set
    with 1 and 10 has values below 2 and values above 9, but the query is
    rejected. *)
Example sets_merged : OptimizeFilters [lesser "m" 2 true; greater "m" 9 true] = Some [tFake] /\ set_selects (lesser "m" 2 true) [1; 10] /\ set_selects (greater "m" 9 true) [1; 10].
Proof. split; [vm_compute; reflexivity|]. split; unfold set_selects; rewrite decide_False by done; apply Exists_exists; [exists 1|exists 10]; split; (done || (apply list_elem_of_In; cbn; auto)). Qed.
End FilterMergeOk.
