(* ===== verification/FullScan.v ===== *)
(** * Scans over the rows of an index (src/src/sphinx.cpp)

    A query without a full-text part goes over the rows: an iterator hands out
    blocks of row ids, the filters look at each row, and what passes is pushed
    into the sorter. With the ranges of the attributes at hand, whole blocks of
    128 rows are skipped. The calculation of attributes and random weights are
    off, as in the matching loop of the ranker. *)

From stdpp Require Import strings.
From S2P Require Import Prelude SearchNode Ranker DeadMap RowAttr MinMax Filter.
Import SearchNode Ranker DeadMap MinMax.

Module FullScan.

(** ** Sources of row ids *)

(** What the scan asks of an iterator. [GetNextRowIdBlock] gives the block, or
    nothing at the end; the outer [None] is an access out of range or a loop that
    runs out of fuel. [work] bounds the number of blocks; it is the only member
    that is not in the source. *)
Class RowSource (S : Type) := {
  GetNextRowIdBlock : S -> option (option (list Z) * S);
  GetNumProcessed : S -> Z;
  WasCutoffHit : S -> bool;
  work : S -> nat
}.

Record RowIdBoundaries_t := RowIdBoundaries { m_tMinRowID : Z; m_tMaxRowID : Z }.

Definition ReturnIteratorResult (dRowIDs : list Z) : option (list Z) := match dRowIDs with [] => None | _ => Some dRowIDs end.

(** *** All rows *)

Record RowIterator_T (HAVE_DEAD : bool) := RowIterator { ri_tRowID : Z; ri_tBoundaries : RowIdBoundaries_t; ri_tDeadRowMap : DeadRowMap_c }.
Arguments RowIterator {HAVE_DEAD}.
Arguments ri_tRowID {HAVE_DEAD}.
Arguments ri_tBoundaries {HAVE_DEAD}.
Arguments ri_tDeadRowMap {HAVE_DEAD}.

Definition MAX_COLLECTED : nat := 128.

(** The loop of [RowIterator_T<true>]; [n] is the room that is left. *)
Fixpoint collect_alive (fuel n : nat) (m : DeadRowMap_c) (tRowID tMax : Z) : option (list Z * Z) :=
  match fuel with
  | O => None
  | S fuel' =>
      match n with
      | O => Some ([], tRowID)
      | S n' =>
          if tRowID <=? tMax then
            bDead ← IsSet tRowID m;
            if (bDead : bool) then collect_alive fuel' n m (cast DWORD (tRowID + 1)) tMax
            else '(l, r) ← collect_alive fuel' n' m (cast DWORD (tRowID + 1)) tMax; Some (tRowID :: l, r)
          else Some ([], tRowID)
      end
  end.

Definition rows_left {b} (it : RowIterator_T b) : nat := Z.to_nat (m_tMaxRowID (ri_tBoundaries it) - ri_tRowID it + 1).

Definition next_dead {b} (it : RowIterator_T b) : option (option (list Z) * RowIterator_T b) :=
  '(l, r) ← collect_alive (S (rows_left it)) MAX_COLLECTED (ri_tDeadRowMap it) (ri_tRowID it) (m_tMaxRowID (ri_tBoundaries it));
  Some (ReturnIteratorResult l, RowIterator r (ri_tBoundaries it) (ri_tDeadRowMap it)).

Definition next_all {b} (it : RowIterator_T b) : option (option (list Z) * RowIterator_T b) :=
  let iDelta := Z.min (Z.of_nat MAX_COLLECTED) (m_tMaxRowID (ri_tBoundaries it) - ri_tRowID it + 1) in
  Some (ReturnIteratorResult (seqZ (ri_tRowID it) iDelta), RowIterator (cast DWORD (ri_tRowID it + iDelta)) (ri_tBoundaries it) (ri_tDeadRowMap it)).

#[export] Instance row_iterator_source HAVE_DEAD : RowSource (RowIterator_T HAVE_DEAD) := {|
  GetNextRowIdBlock := if HAVE_DEAD then next_dead else next_all;
  GetNumProcessed it := cast DWORD (ri_tRowID it - m_tMinRowID (ri_tBoundaries it));
  WasCutoffHit _ := false;
  work := rows_left
|}.

(** *** The alive rows of another iterator *)

Record RowIteratorAlive_c (S : Type) := RowIteratorAlive { ra_pIterator : S; ra_tDeadRowMap : DeadRowMap_c }.
Arguments RowIteratorAlive {S}.
Arguments ra_pIterator {S}.
Arguments ra_tDeadRowMap {S}.

Fixpoint alive_rows (m : DeadRowMap_c) (l : list Z) : option (list Z) :=
  match l with
  | [] => Some []
  | i :: l' => bDead ← IsSet i m; l' ← alive_rows m l'; Some (if (bDead : bool) then l' else i :: l')
  end.

#[export] Instance alive_source S `{RowSource S} : RowSource (RowIteratorAlive_c S) := {|
  GetNextRowIdBlock it :=
    '(r, s) ← GetNextRowIdBlock (ra_pIterator it);
    match r with
    | None => Some (None, RowIteratorAlive s (ra_tDeadRowMap it))
    | Some l => l ← alive_rows (ra_tDeadRowMap it) l; Some (Some l, RowIteratorAlive s (ra_tDeadRowMap it))
    end;
  GetNumProcessed it := cast DWORD (GetNumProcessed (ra_pIterator it));
  WasCutoffHit it := WasCutoffHit (ra_pIterator it);
  work it := work (ra_pIterator it)
|}.

(** ** The scan *)

Inductive warning := query_time_exceeded | query_was_killed.
Record CSphQueryResultMeta := QueryResultMeta { m_sWarning : option warning; m_iFetchedDocs : Z }.

(** The filters of the query, the match the scan fills, the rows, and whether
    there is a time limit. *)
Record scan_ctx := ScanCtx {
  m_pFilter : option Filter.ISphFilter;
  m_pWeightFilter : option Filter.ISphFilter;
  sc_tMatch : Filter.CSphMatch;
  sc_rows : list (list Z);
  bHasTimer : bool
}.

(** [fnToStatic] and the match for a row. *)
Definition match_at (ctx : scan_ctx) (i : Z) : option Filter.CSphMatch :=
  row ← sc_rows ctx !! Z.to_nat i;
  let m := sc_tMatch ctx in Some (Filter.Match_ row (Filter.m_pDynamic m) (Filter.m_iWeight m) (Filter.m_pHeap m)).

Definition eval_opt (f : option Filter.ISphFilter) (m : Filter.CSphMatch) : option bool := match f with None => Some true | Some f => Filter.Eval f m end.

Section Scan.
Context {T : Type} {P : ISphMatchSorter T}.
Variable ctx : scan_ctx.

(** The loop over the rows of a block; the flag is set when the cutoff is hit. *)
Fixpoint scan_rows (HAS_CUTOFF : bool) (l : list Z) (sorter : T) (iCutoff : Z) : option (T * Z * bool) :=
  match l with
  | [] => Some (sorter, iCutoff, false)
  | i :: l' =>
      tMatch ← match_at ctx i;
      b ← eval_opt (m_pFilter ctx) tMatch;
      if negb b then scan_rows HAS_CUTOFF l' sorter iCutoff
      else
        b ← eval_opt (m_pWeightFilter ctx) tMatch;
        if negb b then scan_rows HAS_CUTOFF l' sorter iCutoff
        else
          let '(bNewMatch, sorter) := Push (Match_ i (Filter.m_iWeight tMatch)) sorter in
          if HAS_CUTOFF && bNewMatch then
            let iCutoff := iCutoff - 1 in
            if iCutoff =? 0 then Some (sorter, iCutoff, true) else scan_rows HAS_CUTOFF l' sorter iCutoff
          else scan_rows HAS_CUTOFF l' sorter iCutoff
  end.

Section Source.
Context {S : Type} {R : RowSource S}.

(** The result of a scan, with the states it leaves. *)
Record scanned := Scanned { sd_result : bool; sd_source : S; sd_sorter : T; sd_warning : option warning; sd_world : World }.

Fixpoint scan_loop (HAS_CUTOFF : bool) (fuel : nat) (s : S) (sorter : T) (iCutoff : Z) (w : World) (sWarning : option warning) : option scanned :=
  match fuel with
  | O => None
  | Datatypes.S fuel' =>
      '(r, s) ← GetNextRowIdBlock s;
      match r with
      | None => Some (Scanned (WasCutoffHit s) s sorter sWarning w)
      | Some dRowIDs =>
          '(sorter, iCutoff, bHit) ← scan_rows HAS_CUTOFF dRowIDs sorter iCutoff;
          if (bHit : bool) then Some (Scanned true s sorter sWarning w)
          else
            let '(bTime, w) := if bHasTimer ctx then TimeExceeded w else (false, w) in
            if (bTime : bool) then Some (Scanned true s sorter (Some query_time_exceeded) w)
            else
              let '(bKilled, w) := Interrupted w in
              if (bKilled : bool) then Some (Scanned true s sorter (Some query_was_killed) w)
              else scan_loop HAS_CUTOFF fuel' s sorter iCutoff w sWarning
      end
  end.

(** [RunFullscan]: the result, the sorter, the world and the meta data. *)
Definition RunFullscan (s : S) (sorter : T) (iCutoff : Z) (w : World) (tMeta : CSphQueryResultMeta) : option (bool * T * World * CSphQueryResultMeta) :=
  d ← scan_loop (negb (iCutoff =? -1)) (Datatypes.S (work s)) s sorter iCutoff w (m_sWarning tMeta);
  Some (sd_result d, sd_sorter d, sd_world d, QueryResultMeta (sd_warning d) (cast DWORD (GetNumProcessed (sd_source d)))).
End Source.
Arguments scanned : clear implicits.

(** ** Scans of an index *)

(** What a scan reads of [CSphIndex_VLN] beside the rows: the rows of the ranges
    and the map of deleted rows. *)
Record scan_index := ScanIndex { m_pDocinfoIndex : list (list Z); m_iDocinfoIndex : Z; si_tDeadRowMap : DeadRowMap_c }.

Definition RunFullscanOnAttrs (ix : scan_index) (tBoundaries : RowIdBoundaries_t) (sorter : T) (iCutoff : Z) (w : World) (tMeta : CSphQueryResultMeta) : option (bool * T * World * CSphQueryResultMeta) :=
  let tIt b : RowIterator_T b := RowIterator (m_tMinRowID tBoundaries) tBoundaries (si_tDeadRowMap ix) in
  if m_bHaveDead (si_tDeadRowMap ix) then RunFullscan (tIt true) sorter iCutoff w tMeta else RunFullscan (tIt false) sorter iCutoff w tMeta.

Definition RunFullscanOnIterator {S} `{RowSource S} (ix : scan_index) (pIterator : S) (sorter : T) (iCutoff : Z) (w : World) (tMeta : CSphQueryResultMeta) : option (bool * T * World * CSphQueryResultMeta) :=
  if m_bHaveDead (si_tDeadRowMap ix) then RunFullscan (RowIteratorAlive pIterator (si_tDeadRowMap ix)) sorter iCutoff w tMeta
  else RunFullscan pIterator sorter iCutoff w tMeta.

(** The rows of a block, inside the limits if there are any. *)
Definition block_boundaries (pBoundaries : option RowIdBoundaries_t) (iStart iEnd iDocinfo iIndexEntry : Z) : RowIdBoundaries_t :=
  let tMin := cast DWORD (iIndexEntry * DOCINFO_INDEX_FREQ) in
  let tMax := cast DWORD (cast DWORD (Z.min ((iIndexEntry + 1) * DOCINFO_INDEX_FREQ) iDocinfo) - 1) in
  match pBoundaries with
  | Some b => if (iIndexEntry =? iStart) || (iIndexEntry =? iEnd - 1) then RowIdBoundaries (Z.max tMin (m_tMinRowID b)) (Z.min tMax (m_tMaxRowID b)) else RowIdBoundaries tMin tMax
  | None => RowIdBoundaries tMin tMax
  end.

(** The loop of [ScanByBlocks]; [n] blocks are left. *)
Fixpoint scan_blocks (ix : scan_index) (pBoundaries : option RowIdBoundaries_t) (iStart iEnd : Z) (n : nat) (iIndexEntry : Z) (sorter : T) (iCutoff : Z) (w : World) (tMeta : CSphQueryResultMeta) :
    option (bool * T * World * CSphQueryResultMeta) :=
  match n with
  | O => Some (false, sorter, w, tMeta)
  | S n' =>
      b ← match m_pFilter ctx with
          | None => Some true
          | Some f =>
              pMin ← m_pDocinfoIndex ix !! Z.to_nat (2 * iIndexEntry);
              pMax ← m_pDocinfoIndex ix !! Z.to_nat (2 * iIndexEntry + 1);
              Filter.EvalBlock f pMin pMax
          end;
      if negb b then scan_blocks ix pBoundaries iStart iEnd n' (iIndexEntry + 1) sorter iCutoff w tMeta
      else
        '(bHit, sorter, w, tMeta) ← RunFullscanOnAttrs ix (block_boundaries pBoundaries iStart iEnd (Z.of_nat (length (sc_rows ctx))) iIndexEntry) sorter iCutoff w tMeta;
        if (bHit : bool) then Some (true, sorter, w, tMeta)
        else scan_blocks ix pBoundaries iStart iEnd n' (iIndexEntry + 1) sorter iCutoff w tMeta
  end.

Definition ScanByBlocks (ix : scan_index) (pBoundaries : option RowIdBoundaries_t) (sorter : T) (iCutoff : Z) (w : World) (tMeta : CSphQueryResultMeta) : option (bool * T * World * CSphQueryResultMeta) :=
  let iStart := match pBoundaries with Some b => m_tMinRowID b / DOCINFO_INDEX_FREQ | None => 0 end in
  let iEnd := match pBoundaries with Some b => m_tMaxRowID b / DOCINFO_INDEX_FREQ + 1 | None => m_iDocinfoIndex ix end in
  scan_blocks ix pBoundaries iStart iEnd (Z.to_nat (iEnd - iStart)) iStart sorter iCutoff w tMeta.
End Scan.
End FullScan.
