(* ===== verification/FullScanOk.v ===== *)
(** * A scan pushes the rows that pass, and no others *)

From stdpp Require Import strings.
From S2P Require Import Prelude Hits BitVec SearchNode Ranker DeadMap RowAttr Schema SchemaOk MinMax MinMaxOk Filter FilterOk FullScan.
Import SearchNode Ranker BitVec DeadMap RowAttr Schema MinMax MinMaxOk FullScan.

Module FullScanOk.

(** What a source of row ids promises: [src_rest] are the rows to come; a block
    is their first part. *)
Class RowSourceOk (S : Type) `{RowSource S} := {
  src_inv : S -> Prop;
  src_rest : S -> list Z;
  src_next : ∀ s, src_inv s -> ∃ r s', GetNextRowIdBlock s = Some (r, s') /\ src_inv s' /\
    match r with Some b => src_rest s = b ++ src_rest s' /\ (work s' < work s)%nat | None => src_rest s = [] /\ src_rest s' = [] end
}.

(** ** All rows *)

Definition alive (m : DeadRowMap_c) (i : Z) : bool := negb (dead m i).

Record iterator_ok {b} (it : RowIterator_T b) : Prop := {
  io_map : dm_ok (ri_tDeadRowMap it);
  io_min : 0 <= ri_tRowID it;
  io_max : m_tMaxRowID (ri_tBoundaries it) < m_uRows (ri_tDeadRowMap it);
  io_start : ri_tRowID it <= m_tMaxRowID (ri_tBoundaries it) + 1
}.

Definition iterator_rest {b} (it : RowIterator_T b) : list Z := seqZ (ri_tRowID it) (m_tMaxRowID (ri_tBoundaries it) - ri_tRowID it + 1).

Lemma seqZ_step a n : 0 < n -> seqZ a n = a :: seqZ (a + 1) (n - 1).
Proof. intros H. rewrite seqZ_cons by done. f_equal; f_equal; lia. Qed.

Lemma next_id m r : dm_ok m -> 0 <= r < m_uRows m -> cast DWORD (r + 1) = r + 1.
Proof. intros Hm Hr. pose proof (dm_rows m Hm). apply cast_id; [done|]. unfold in_type. cbn. lia. Qed.

Lemma collect_alive_ok m tMax : dm_ok m -> tMax < m_uRows m -> ∀ fuel n r, 0 <= r <= tMax + 1 -> (Z.to_nat (tMax - r + 1) < fuel)%nat ->
  ∃ l r', collect_alive fuel n m r tMax = Some (l, r') /\ r <= r' <= tMax + 1 /\ List.filter (alive m) (seqZ r (tMax - r + 1)) = l ++ List.filter (alive m) (seqZ r' (tMax - r' + 1)) /\ (l ≠ [] -> r < r') /\ (l = [] -> n ≠ 0%nat -> r' = tMax + 1).
Proof.
  intros Hm Ht. induction fuel as [|fuel IH]; intros n r Hr Hf; [lia|]. cbn [collect_alive]. destruct n as [|n]; [exists [], r; repeat split; (lia || done)|].
  destruct (Z.leb_spec r tMax) as [Hle|Hgt]; [|exists [], r; repeat split; (lia || done)]. rewrite IsSet_ok by (done || lia). cbn [mbind option_bind]. rewrite (next_id m r Hm) by lia.
  rewrite (seqZ_step r) by lia. cbn [List.filter]. replace (tMax - r + 1 - 1) with (tMax - (r + 1) + 1) by lia. unfold alive at 1. destruct (dead m r) eqn:D; cbn [negb].
  - destruct (IH (S n) (r + 1) ltac:(lia) ltac:(lia)) as (l & r' & -> & A & B & C & E). exists l, r'. split; [done|]. split; [lia|]. split; [done|]. split; [lia|done].
  - destruct (IH n (r + 1) ltac:(lia) ltac:(lia)) as (l & r' & -> & A & B & C & E). cbn [mbind option_bind]. exists (r :: l), r'. split; [done|]. split; [lia|]. split; [by rewrite B|]. split; [lia|done].
Qed.

#[export, refine] Instance row_iterator_dead_ok : RowSourceOk (RowIterator_T true) := {| src_inv := iterator_ok; src_rest it := List.filter (alive (ri_tDeadRowMap it)) (iterator_rest it) |}.
Proof.
  intros it [H1 H2 H3 H4]. cbn [GetNextRowIdBlock row_iterator_source]. unfold next_dead, rows_left.
  destruct (collect_alive_ok (ri_tDeadRowMap it) _ H1 H3 (S (Z.to_nat (m_tMaxRowID (ri_tBoundaries it) - ri_tRowID it + 1))) MAX_COLLECTED (ri_tRowID it) ltac:(lia) ltac:(lia)) as (l & r' & -> & A & B & C & E).
  cbn [mbind option_bind]. eexists _, _. split; [done|]. split; [split; cbn; (done || lia)|]. unfold iterator_rest. cbn [ri_tRowID ri_tBoundaries ri_tDeadRowMap]. destruct l as [|x l]; cbn [ReturnIteratorResult].
  - rewrite B, (E eq_refl ltac:(done)). rewrite (seqZ_nil (m_tMaxRowID (ri_tBoundaries it) + 1)) by lia. done.
  - split; [done|]. cbn [work row_iterator_source]. unfold rows_left. cbn. specialize (C ltac:(done)). lia.
Defined.

#[export, refine] Instance row_iterator_all_ok : RowSourceOk (RowIterator_T false) := {| src_inv := iterator_ok; src_rest := iterator_rest |}.
Proof.
  intros it [H1 H2 H3 H4]. cbn [GetNextRowIdBlock row_iterator_source]. unfold next_all. pose proof (dm_rows _ H1). assert (Z.of_nat MAX_COLLECTED = 128) as E128 by done. set (d := Z.min _ _). assert (0 <= d <= m_tMaxRowID (ri_tBoundaries it) - ri_tRowID it + 1) by (unfold d; lia).
  assert (cast DWORD (ri_tRowID it + d) = ri_tRowID it + d) as -> by (apply cast_id; [done|unfold in_type; cbn; lia]).
  eexists _, _. split; [done|]. split; [split; cbn; (done || lia)|]. unfold iterator_rest. cbn [ri_tRowID ri_tBoundaries ri_tDeadRowMap].
  destruct (decide (d = 0)) as [E|N]; [rewrite E; cbn [ReturnIteratorResult seqZ]; rewrite Z.add_0_r; split; apply seqZ_nil; unfold d in *; lia|]. rewrite (seqZ_step (ri_tRowID it) d) by lia. cbn [ReturnIteratorResult]. rewrite <- seqZ_step by lia. split.
  - rewrite <- seqZ_app by lia. f_equal. lia.
  - cbn [work row_iterator_source]. unfold rows_left. cbn. lia.
Defined.

Lemma alive_rows_ok m l : dm_ok m -> Forall (λ i, 0 <= i < m_uRows m) l -> alive_rows m l = Some (List.filter (alive m) l).
Proof.
  intros Hm. induction 1 as [|i l Hi _ IH]; [done|]. cbn [alive_rows List.filter]. rewrite IsSet_ok by done. cbn [mbind option_bind]. rewrite IH. unfold alive. by destruct (dead m i).
Qed.

#[export, refine] Instance alive_source_ok S `{HS : RowSource S} `{!RowSourceOk S} : RowSourceOk (RowIteratorAlive_c S) := {|
  src_inv it := dm_ok (ra_tDeadRowMap it) /\ src_inv (ra_pIterator it) /\ Forall (λ i, 0 <= i < m_uRows (ra_tDeadRowMap it)) (src_rest (ra_pIterator it));
  src_rest it := List.filter (alive (ra_tDeadRowMap it)) (src_rest (ra_pIterator it))
|}.
Proof.
  intros [s m] (Hm & Hi & F). cbn [ra_pIterator ra_tDeadRowMap] in *. cbn [GetNextRowIdBlock alive_source ra_pIterator ra_tDeadRowMap]. destruct (src_next s Hi) as (r & s' & -> & Hi' & Hr). cbn [mbind option_bind]. destruct r as [b|].
  - destruct Hr as [Hr Hw]. rewrite Hr in F. apply Forall_app in F as [F1 F2]. rewrite alive_rows_ok by done. cbn [mbind option_bind]. eexists _, _. split; [done|]. split; [done|]. cbn [ra_pIterator ra_tDeadRowMap]. by rewrite Hr, List.filter_app.
  - eexists _, _. split; [done|]. cbn [ra_pIterator ra_tDeadRowMap]. destruct Hr as [Hr Hr']. rewrite Hr, Hr'. split; [|done]. split; [done|]. split; [done|]. constructor.
Defined.

(** ** The scan *)

(** No time limit runs out and nobody kills the query. *)
Definition calm (w : World) : Prop := w_timer w = None /\ w_kill w = None.

Section Scan.
Context {T : Type} {P : ISphMatchSorter T}.
Variable ctx : scan_ctx.

(** Whether a row passes the filters. *)
Definition passing (i : Z) : option bool :=
  m ← match_at ctx i; b ← eval_opt (m_pFilter ctx) m; if (b : bool) then eval_opt (m_pWeightFilter ctx) m else Some false.
Definition keep (i : Z) : bool := default false (passing i).

Definition pushes (l : list Z) (sorter : T) : T := fold_left (λ t i, (Push (Match_ i (Filter.m_iWeight (sc_tMatch ctx))) t).2) l sorter.

(** The sorter got a first part of the rows [l], all of them if [all]. *)
Definition pushed (l : list Z) (sorter sorter' : T) (all : Prop) : Prop := ∃ l1 l2, l = l1 ++ l2 /\ sorter' = pushes l1 sorter /\ (all -> l2 = []).

Lemma pushed_nil sorter all : pushed [] sorter sorter all.
Proof. by exists [], []. Qed.
Lemma pushed_app l l' s s1 s2 (all : Prop) : pushed l s s1 True -> pushed l' s1 s2 all -> pushed (l ++ l') s s2 all.
Proof. intros (a & b & -> & -> & E) (c & d & -> & -> & F). rewrite (E I), app_nil_r. exists (a ++ c), d. split; [by rewrite <- app_assoc|]. split; [|done]. unfold pushes. by rewrite fold_left_app. Qed.
Lemma pushed_more l l' s s' (all : Prop) : pushed l s s' True -> ¬ all -> pushed (l ++ l') s s' all.
Proof. intros (a & b & -> & -> & E) N. rewrite (E I), app_nil_r. by exists a, l'. Qed.
Lemma pushed_part l l' s s' (b all : Prop) : pushed l s s' b -> ¬ all -> pushed (l ++ l') s s' all.
Proof. intros (x & y & -> & -> & _) N. exists x, (y ++ l'). by rewrite <- app_assoc. Qed.

Lemma scan_rows_ok HAS_CUTOFF l : Forall (λ i, is_Some (passing i)) l -> ∀ sorter c,
  ∃ sorter' c' hit, scan_rows ctx HAS_CUTOFF l sorter c = Some (sorter', c', hit) /\ pushed (List.filter keep l) sorter sorter' (hit = false) /\ (HAS_CUTOFF = false -> hit = false).
Proof.
  induction 1 as [|i l [b Hb] _ IH]; intros sorter c; [exists sorter, c, false; split; [done|split; [apply pushed_nil|done]]|]. cbn [scan_rows List.filter]. unfold keep at 1. rewrite Hb. cbn [default from_option id].
  unfold passing in Hb. destruct (match_at ctx i) as [m|] eqn:Em; [|done]. cbn [mbind option_bind] in *. destruct (eval_opt (m_pFilter ctx) m) as [[|]|]; [| |done]; cbn [mbind option_bind negb] in *; [|injection Hb as <-; apply IH].
  rewrite Hb. cbn [mbind option_bind]. destruct b; cbn [negb]; [|apply IH].
  assert (Filter.m_iWeight m = Filter.m_iWeight (sc_tMatch ctx)) as Ew by (unfold match_at in Em; destruct (sc_rows ctx !! Z.to_nat i); [|done]; by injection Em as <-). rewrite Ew.
  destruct (Push _ sorter) as [bNew sorter1] eqn:Ep. assert (∀ l' s' all, pushed l' sorter1 s' all -> pushed (i :: l') sorter s' all) as Step.
  { intros l' s' all (a & d & -> & -> & E). exists (i :: a), d. split; [done|]. split; [|done]. cbn. by rewrite Ep. }
  destruct (HAS_CUTOFF && bNew) eqn:Eh.
  - destruct (c - 1 =? 0); [|destruct (IH sorter1 (c - 1)) as (s' & c' & hit & -> & A & B); eexists _, _, _; split; [done|]; split; [by apply Step|done]].
    eexists _, _, _. split; [done|]. split; [|by intros ->]. apply Step. exists [], (List.filter keep l). done.
  - destruct (IH sorter1 c) as (s' & c' & hit & -> & A & B). eexists _, _, _. split; [done|]. split; [by apply Step|done].
Qed.

(** A cutoff that is larger than the number of rows does nothing. *)
Lemma scan_rows_uncut l : ∀ sorter c c0, Z.of_nat (length l) < c ->
  match scan_rows ctx false l sorter c0 with
  | None => scan_rows ctx true l sorter c = None
  | Some (sorter', _, hit) => hit = false /\ ∃ c', c - Z.of_nat (length l) <= c' /\ scan_rows ctx true l sorter c = Some (sorter', c', false)
  end.
Proof.
  induction l as [|i l IH]; intros sorter c c0 Hc; cbn [scan_rows]; [split; [done|]; exists c; split; [cbn; lia|done]|]. rewrite length_cons in *.
  assert (∀ sorter c', c - 1 <= c' -> match scan_rows ctx false l sorter c0 with
    | None => scan_rows ctx true l sorter c' = None
    | Some (sorter', _, hit) => hit = false /\ ∃ c2, c - Z.of_nat (S (length l)) <= c2 /\ scan_rows ctx true l sorter c' = Some (sorter', c2, false) end) as K.
  { intros s c' H. specialize (IH s c' c0 ltac:(lia)). destruct (scan_rows ctx false l s c0) as [[[s' c1] h]|]; [|done]. destruct IH as (-> & c2 & ? & ->). split; [done|]. exists c2. split; [lia|done]. }
  destruct (match_at ctx i); [|done]. cbn [mbind option_bind]. destruct (eval_opt (m_pFilter ctx) _) as [[|]|]; [|apply K; lia|done]. cbn [mbind option_bind negb].
  destruct (eval_opt (m_pWeightFilter ctx) _) as [[|]|]; [|apply K; lia|done]. cbn [mbind option_bind negb]. destruct (Push _ sorter) as [[|] sorter1]; cbn [andb]; [|apply K; lia].
  destruct (Z.eqb_spec (c - 1) 0); [lia|]. apply K. lia.
Qed.

Section Source.
Context {S : Type} `{HS : RowSource S} `{!RowSourceOk S}.

Lemma scan_loop_uncut : ∀ fuel s sorter c c0 w sW, src_inv s -> Z.of_nat (length (src_rest s)) < c -> scan_loop ctx true fuel s sorter c w sW = scan_loop ctx false fuel s sorter c0 w sW.
Proof.
  induction fuel as [|fuel IH]; intros s sorter c c0 w sW Hi Hc; [done|]. cbn [scan_loop]. destruct (src_next s Hi) as (r & s' & -> & Hi' & Hr). cbn [mbind option_bind]. destruct r as [b|]; [|done].
  destruct Hr as [Hr _]. rewrite Hr, length_app in Hc. pose proof (scan_rows_uncut b sorter c c0 ltac:(lia)) as E. destruct (scan_rows ctx false b sorter c0) as [[[s1 c1] h]|]; [|by rewrite E].
  destruct E as (-> & c' & Hc' & ->). cbn [mbind option_bind]. destruct (if bHasTimer ctx then TimeExceeded w else (false, w)) as [[|] w1]; [done|]. destruct (Interrupted w1) as [[|] w2]; [done|]. apply IH; [done|lia].
Qed.

Lemma run_uncut s sorter c w tMeta : src_inv s -> Z.of_nat (length (src_rest s)) < c -> RunFullscan ctx s sorter c w tMeta = RunFullscan ctx s sorter (-1) w tMeta.
Proof. intros Hi Hc. unfold RunFullscan. rewrite (proj2 (Z.eqb_neq c (-1))) by lia. cbn [negb Z.eqb Pos.eqb]. by rewrite (scan_loop_uncut _ s sorter c (-1) w _ Hi Hc). Qed.

Lemma scan_loop_ok HAS_CUTOFF : ∀ fuel s sorter c w sW, src_inv s -> (work s < fuel)%nat -> Forall (λ i, is_Some (passing i)) (src_rest s) ->
  ∃ d, scan_loop ctx HAS_CUTOFF fuel s sorter c w sW = Some d /\
    pushed (List.filter keep (src_rest s)) sorter (sd_sorter d) (sd_result d = false \/ (HAS_CUTOFF = false /\ calm w)) /\
    (HAS_CUTOFF = false -> calm w -> sd_world d = w /\ sd_warning d = sW /\ sd_result d = WasCutoffHit (sd_source d)).
Proof.
  induction fuel as [|fuel IH]; intros s sorter c w sW Hi Hf F; [lia|]. cbn [scan_loop]. destruct (src_next s Hi) as (r & s' & -> & Hi' & Hr). cbn [mbind option_bind]. destruct r as [b|].
  2: { eexists. split; [done|]. destruct Hr as [-> _]. cbn. split; [apply pushed_nil|done]. }
  destruct Hr as [Hr Hw]. rewrite Hr in F |- *. apply Forall_app in F as [F1 F2]. rewrite List.filter_app.
  destruct (scan_rows_ok HAS_CUTOFF b F1 sorter c) as (sorter1 & c1 & hit & -> & A & B). cbn [mbind option_bind]. destruct hit.
  { eexists. split; [done|]. cbn. split; [|intros E; discriminate (B E)]. eapply pushed_part; [exact A|]. intros [?|[E _]]; [done|discriminate (B E)]. }
  assert (pushed (List.filter keep b) sorter sorter1 True) as A' by (destruct A as (x & y & ? & ? & E); by exists x, y; auto).
  assert (∀ w' sW' , ¬ calm w -> ∃ d, Some (Scanned true s' sorter1 sW' w') = Some d /\ pushed (List.filter keep b ++ List.filter keep (src_rest s')) sorter (sd_sorter d) (sd_result d = false \/ (HAS_CUTOFF = false /\ calm w)) /\
    (HAS_CUTOFF = false -> calm w -> sd_world d = w /\ sd_warning d = sW /\ sd_result d = WasCutoffHit (sd_source d))) as Stop.
  { intros w' sW' N. eexists. split; [done|]. cbn. split; [|done]. apply pushed_more; [done|]. intros [?|[_ ?]]; done. }
  destruct (if bHasTimer ctx then TimeExceeded w else (false, w)) as [bTime w1] eqn:Et. assert (calm w -> bTime = false /\ w1 = w) as C1.
  { intros [E1 E2]. destruct (bHasTimer ctx); [|by injection Et as <- <-]. unfold TimeExceeded in Et. rewrite E1 in Et. cbn in Et. injection Et as <- <-. destruct w; cbn in *; by subst. }
  destruct bTime; [apply Stop; intros C; by destruct (C1 C)|]. destruct (Interrupted w1) as [bKilled w2] eqn:Ek. assert (calm w -> bKilled = false /\ w2 = w) as C2.
  { intros C. destruct (C1 C) as [_ ->]. destruct C as [E1 E2]. unfold Interrupted in Ek. rewrite E2 in Ek. cbn in Ek. injection Ek as <- <-. destruct w; cbn in *; by subst. }
  destruct bKilled; [apply Stop; intros C; by destruct (C2 C)|]. destruct (IH s' sorter1 c1 w2 sW Hi' ltac:(lia) F2) as (d & -> & D & E). exists d. split; [done|]. split.
  - eapply pushed_app; [done|]. destruct D as (x & y & ? & ? & G). exists x, y. split; [done|]. split; [done|]. intros [?|[? C]]; apply G; [by left|right; destruct (C2 C) as [_ ->]; done].
  - intros Hc C. destruct (C2 C) as [_ Ew]. rewrite Ew in E. by apply E.
Qed.

Lemma run_ok s sorter c w tMeta : src_inv s -> Forall (λ i, is_Some (passing i)) (src_rest s) -> ∃ b sorter' w' tMeta', RunFullscan ctx s sorter c w tMeta = Some (b, sorter', w', tMeta') /\
  pushed (List.filter keep (src_rest s)) sorter sorter' (b = false \/ (c = -1 /\ calm w)) /\ (c = -1 -> calm w -> w' = w /\ m_sWarning tMeta' = m_sWarning tMeta /\ ((∀ s, WasCutoffHit s = false) -> b = false)).
Proof.
  intros Hi F. unfold RunFullscan. destruct (scan_loop_ok (negb (c =? -1)) (Datatypes.S (work s)) s sorter c w (m_sWarning tMeta) Hi ltac:(lia) F) as (d & -> & A & B). cbn [mbind option_bind]. eexists _, _, _, _. split; [done|]. split.
  - destruct A as (x & y & ? & ? & G). exists x, y. split; [done|]. split; [done|]. intros [?|[-> C]]; apply G; [by left|by right].
  - intros -> C. destruct (B eq_refl C) as (? & ? & E). split; [done|]. split; [done|]. intros Hn. by rewrite E.
Qed.
End Source.

(** ** Scans of an index *)

Variables (ix : scan_index).
Abbreviation docs := (Z.of_nat (length (sc_rows ctx))).

(** The rows from [lo] to [hi] that are alive and pass. *)
Definition found (lo hi : Z) : list Z := List.filter (λ i, alive (si_tDeadRowMap ix) i && keep i) (seqZ lo (hi - lo + 1)).

Hypothesis map_ok : dm_ok (si_tDeadRowMap ix).
Hypothesis map_rows : m_uRows (si_tDeadRowMap ix) = docs.
Hypothesis defined : ∀ i, 0 <= i < docs -> is_Some (passing i).

Lemma filter_both {A} (f g : A -> bool) l : List.filter g (List.filter f l) = List.filter (λ x, f x && g x) l.
Proof. induction l as [|x l IH]; [done|]. cbn. destruct (f x) eqn:E; cbn; [destruct (g x)|]; by rewrite IH. Qed.

Lemma in_seqZ i lo n : i ∈ seqZ lo n <-> lo <= i < lo + n.
Proof. apply elem_of_seqZ. Qed.

Lemma attrs_ok lo hi sorter c w tMeta : 0 <= lo <= hi + 1 -> hi < docs -> ∃ b sorter' w' tMeta', RunFullscanOnAttrs ctx ix (RowIdBoundaries lo hi) sorter c w tMeta = Some (b, sorter', w', tMeta') /\
  pushed (found lo hi) sorter sorter' (b = false \/ (c = -1 /\ calm w)) /\ (c = -1 -> calm w -> w' = w /\ m_sWarning tMeta' = m_sWarning tMeta /\ b = false).
Proof.
  intros Hlo Hhi. unfold RunFullscanOnAttrs. cbn [m_tMinRowID]. set (it := λ b : bool, RowIterator (HAVE_DEAD := b) lo (RowIdBoundaries lo hi) (si_tDeadRowMap ix)). assert (∀ b, iterator_ok (it b)) as Hi by (intros b; split; cbn; (done || lia)).
  assert (∀ b, Forall (λ i, is_Some (passing i)) (iterator_rest (it b))) as F by (intros b; apply Forall_forall; intros i Hin%in_seqZ; cbn in Hin; apply defined; lia).
  unfold found. destruct (m_bHaveDead (si_tDeadRowMap ix)) eqn:Ed.
  - match goal with |- context [RunFullscan ctx ?x] => change x with (it true) end. destruct (run_ok (it true) sorter c w tMeta) as (b & s' & w' & m' & -> & A & B); [apply Hi|..].
    { cbn [src_rest row_iterator_dead_ok]. apply Forall_forall. intros i Hin. rewrite list_elem_of_In, List.filter_In, <- list_elem_of_In in Hin. specialize (F true). rewrite Forall_forall in F. apply F, Hin. }
    eexists _, _, _, _. split; [done|]. cbn [src_rest row_iterator_dead_ok] in A. rewrite filter_both in A. split; [exact A|]. intros Hc C. destruct (B Hc C) as (? & ? & E). split; [done|]. split; [done|]. by apply E.
  - match goal with |- context [RunFullscan ctx ?x] => change x with (it false) end. destruct (run_ok (it false) sorter c w tMeta) as (b & s' & w' & m' & -> & A & B); [apply Hi|apply F|]. eexists _, _, _, _. split; [done|]. cbn [src_rest row_iterator_all_ok] in A.
    assert (List.filter (λ i, alive (si_tDeadRowMap ix) i && keep i) (seqZ lo (hi - lo + 1)) = List.filter (keep) (iterator_rest (it false))) as ->.
    { apply List.filter_ext_in. intros i Hin%list_elem_of_In%in_seqZ. cbn in Hin. unfold alive. by rewrite (dm_have _ map_ok Ed) by lia. }
    split; [exact A|]. intros Hc C. destruct (B Hc C) as (? & ? & E). split; [done|]. split; [done|]. by apply E.
Qed.

Lemma attrs_uncut lo hi sorter c w tMeta : 0 <= lo <= hi + 1 -> hi < docs -> hi - lo < 128 -> 128 < c ->
  RunFullscanOnAttrs ctx ix (RowIdBoundaries lo hi) sorter c w tMeta = RunFullscanOnAttrs ctx ix (RowIdBoundaries lo hi) sorter (-1) w tMeta.
Proof.
  intros Hlo Hhi H128 Hc. unfold RunFullscanOnAttrs. cbn [m_tMinRowID]. assert (length (seqZ lo (hi - lo + 1)) <= 128)%nat as L by (rewrite length_seqZ; lia).
  destruct (m_bHaveDead (si_tDeadRowMap ix)); (apply run_uncut; [split; cbn; (done || lia)|]); cbn [src_rest row_iterator_dead_ok row_iterator_all_ok]; unfold iterator_rest; cbn [ri_tRowID ri_tBoundaries m_tMaxRowID].
  - pose proof (List.filter_length_le (alive (si_tDeadRowMap ix)) (seqZ lo (hi - lo + 1))). cbn. lia.
  - lia.
Qed.

Section Blocks.
Context (stride : Z) (dAttrs : list CSphColumnInfo).
Hypothesis ranges : index_ok stride dAttrs (m_pDocinfoIndex ix) (sc_rows ctx).
Hypothesis blocks : m_iDocinfoIndex ix = Z.of_nat (num_blocks (sc_rows ctx)).
Hypothesis filters : ∀ f, m_pFilter ctx = Some f -> FilterOk.filter_ok dAttrs f.

Lemma block_row e i : 0 <= e -> 128 * e <= i <= 128 * e + 127 -> i < docs -> ∃ row, sc_rows ctx !! Z.to_nat i = Some row /\ row ∈ block_of (sc_rows ctx) (Z.to_nat e).
Proof.
  intros He Hi Hd. destruct (lookup_lt_is_Some_2 (sc_rows ctx) (Z.to_nat i) ltac:(lia)) as [row E]. exists row. split; [done|]. unfold block_of. apply list_elem_of_lookup. exists (Z.to_nat (i - 128 * e)).
  rewrite lookup_take_lt, lookup_drop by lia. rewrite <- E. f_equal. lia.
Qed.

(** The block test: it is defined, and a block it rejects has no row that passes. *)
Lemma block_test e : 0 <= e -> 128 * e < docs -> ∃ b,
  match m_pFilter ctx with None => Some true | Some f => pMin ← m_pDocinfoIndex ix !! Z.to_nat (2 * e); pMax ← m_pDocinfoIndex ix !! Z.to_nat (2 * e + 1); Filter.EvalBlock f pMin pMax end = Some b /\
  (b = false -> ∀ i, 128 * e <= i <= 128 * e + 127 -> i < docs -> keep i = false).
Proof.
  intros He Hd. destruct (m_pFilter ctx) as [f|] eqn:Ef; [|by exists true].
  assert (Z.to_nat e < num_blocks (sc_rows ctx))%nat as Hb.
  { unfold num_blocks. assert (length (sc_rows ctx) + 127 = 127 + length (sc_rows ctx))%nat as -> by lia. apply Nat.div_le_lower_bound; lia. }
  destruct (ix_block _ _ _ _ ranges _ Hb) as (pMin & pMax & E1 & E2 & R). replace (Z.to_nat (2 * e)) with (2 * Z.to_nat e)%nat by lia. replace (Z.to_nat (2 * e + 1)) with (2 * Z.to_nat e + 1)%nat by lia. rewrite E1, E2. cbn [mbind option_bind].
  destruct (block_row e (128 * e) He ltac:(lia) Hd) as (row0 & _ & Hr0).
  destruct (FilterOk.block_defined stride dAttrs pMin pMax _ R f (Filter.Match_ row0 [] 0 (λ _, None)) (filters f eq_refl) Hr0) as [b Eb]. exists b. split; [done|]. intros -> i Hi Hi2. unfold keep.
  destruct (block_row e i He Hi Hi2) as (row & Er & Hr). unfold passing, match_at. rewrite Er. cbn [mbind option_bind]. rewrite Ef. cbn [eval_opt].
  set (m := Filter.Match_ _ _ _ _). destruct (Filter.Eval f m) as [[|]|] eqn:Ev; [|done|done]. pose proof (FilterOk.block_safe stride dAttrs pMin pMax _ R f m (filters f eq_refl) Hr Ev) as Hs. congruence.
Qed.

Variables (pBoundaries : option RowIdBoundaries_t) (lo hi : Z).
Hypothesis limits : match pBoundaries with Some b => lo = m_tMinRowID b /\ hi = m_tMaxRowID b /\ 0 <= lo <= hi /\ hi < docs | None => lo = 0 /\ hi = docs - 1 end.

Lemma boundaries_ok e : lo / 128 <= e <= hi / 128 -> 0 <= lo -> hi < docs ->
  block_boundaries pBoundaries (lo / 128) (hi / 128 + 1) docs e = RowIdBoundaries (Z.max lo (128 * e)) (Z.min hi (128 * e + 127)).
Proof.
  intros He Hlo Hhi. pose proof (dm_rows _ map_ok) as Hd. rewrite map_rows in Hd. pose proof (Z.div_mod lo 128 ltac:(lia)). pose proof (Z.mod_pos_bound lo 128 ltac:(lia)). pose proof (Z.div_mod hi 128 ltac:(lia)). pose proof (Z.mod_pos_bound hi 128 ltac:(lia)).
  assert (0 <= e) by (pose proof (Z.div_pos lo 128); lia). unfold block_boundaries, DOCINFO_INDEX_FREQ.
  assert (cast DWORD (e * 128) = 128 * e) as -> by (rewrite cast_id; [lia|done|unfold in_type; cbn; lia]).
  assert (cast DWORD (Z.min ((e + 1) * 128) docs) = Z.min ((e + 1) * 128) docs) as -> by (apply cast_id; [done|unfold in_type; cbn; lia]).
  assert (cast DWORD (Z.min ((e + 1) * 128) docs - 1) = Z.min ((e + 1) * 128) docs - 1) as -> by (apply cast_id; [done|unfold in_type; cbn; lia]).
  destruct pBoundaries as [b|].
  - destruct limits as (E1 & E2 & _). rewrite <- E1, <- E2. destruct (Z.eqb_spec e (lo / 128)); cbn [orb]; [f_equal; lia|]. destruct (Z.eqb_spec e (hi / 128 + 1 - 1)); f_equal; lia.
  - destruct limits as [-> ->]. f_equal; lia.
Qed.

Lemma found_split a b c : a <= b + 1 -> b <= c -> found a c = found a b ++ found (b + 1) c.
Proof. intros H1 H2. unfold found. rewrite <- List.filter_app. f_equal. replace (seqZ (b + 1)) with (seqZ (a + (b - a + 1))) by (f_equal; lia). rewrite <- seqZ_app by lia. f_equal. lia. Qed.

Lemma found_none a b : (∀ i, a <= i <= b -> keep i = false) -> found a b = [].
Proof.
  intros H. unfold found. destruct (List.filter _ _) as [|x l] eqn:E; [done|]. assert (In x (x :: l)) as Hin by (by left). rewrite <- E, List.filter_In, andb_true_iff in Hin. destruct Hin as (Hin%list_elem_of_In%in_seqZ & _ & K). by rewrite H in K by lia.
Qed.

Lemma scan_blocks_ok : 0 <= lo <= hi + 1 -> hi < docs -> ∀ n e sorter c w tMeta, lo / 128 <= e -> Z.of_nat n = hi / 128 + 1 - e -> ∃ b sorter' w' tMeta',
  scan_blocks ctx ix pBoundaries (lo / 128) (hi / 128 + 1) n e sorter c w tMeta = Some (b, sorter', w', tMeta') /\ pushed (found (Z.max lo (128 * e)) hi) sorter sorter' (b = false \/ (c = -1 /\ calm w)) /\
  (c = -1 -> calm w -> w' = w /\ m_sWarning tMeta' = m_sWarning tMeta /\ b = false).
Proof.
  intros [Hlo Hle] Hhi. pose proof (Z.div_mod lo 128 ltac:(lia)) as Dl. pose proof (Z.mod_pos_bound lo 128 ltac:(lia)). pose proof (Z.div_mod hi 128 ltac:(lia)) as Dh. pose proof (Z.mod_pos_bound hi 128 ltac:(lia)). pose proof (Z.div_pos lo 128 Hlo ltac:(lia)).
  induction n as [|n IH]; intros e sorter c w tMeta He Hn; cbn [scan_blocks].
  - eexists _, _, _, _. split; [done|]. split; [|done]. unfold found. rewrite seqZ_nil by lia. apply pushed_nil.
  - destruct (block_test e ltac:(lia) ltac:(lia)) as (t & -> & Ht). cbn [mbind option_bind].
    assert (found (Z.max lo (128 * e)) hi = found (Z.max lo (128 * e)) (Z.min hi (128 * e + 127)) ++ found (Z.max lo (128 * (e + 1))) hi) as Sp.
    { destruct (decide (hi <= 128 * e + 127)); [|rewrite (found_split _ (Z.min hi (128 * e + 127))) by lia; f_equal; f_equal; lia].
      rewrite (found_none (Z.max lo (128 * (e + 1))) hi) by (intros; lia). rewrite app_nil_r. f_equal. lia. }
    rewrite Sp. destruct t; cbn [negb].
    + rewrite boundaries_ok by lia. destruct (attrs_ok (Z.max lo (128 * e)) (Z.min hi (128 * e + 127)) sorter c w tMeta ltac:(lia) ltac:(lia)) as (b & s1 & w1 & m1 & -> & A & B). cbn [mbind option_bind]. destruct b.
      * eexists _, _, _, _. split; [done|]. assert (¬ (c = -1 /\ calm w)) as N by (intros [? ?]; destruct B as (_ & _ & ?); done). split; [|intros; by destruct N]. eapply pushed_part; [exact A|]. intros [?|?]; done.
      * destruct (IH (e + 1) s1 c w1 m1 ltac:(lia) ltac:(lia)) as (b2 & s2 & w2 & m2 & -> & A2 & B2). eexists _, _, _, _. split; [done|]. split.
        -- eapply pushed_app; [destruct A as (x & y & ? & ? & G); exists x, y; repeat split; [done|done|]; intros _; apply G; by left|]. destruct A2 as (x & y & ? & ? & G). exists x, y. split; [done|]. split; [done|].
           intros [?|[Hc C]]; apply G; [by left|right]. destruct (B Hc C) as [-> _]. done.
        -- intros Hc C. destruct (B Hc C) as (-> & Em & _). destruct (B2 Hc C) as (? & Em2 & ?). split; [done|]. split; [congruence|done].
    + rewrite (found_none (Z.max lo (128 * e)) (Z.min hi (128 * e + 127))) by (intros i Hi; apply Ht; [done|lia|lia]). apply IH; lia.
Qed.

Lemma scan_blocks_uncut c : 0 <= lo <= hi + 1 -> hi < docs -> 128 < c -> ∀ n e sorter w tMeta, lo / 128 <= e -> Z.of_nat n = hi / 128 + 1 - e ->
  scan_blocks ctx ix pBoundaries (lo / 128) (hi / 128 + 1) n e sorter c w tMeta = scan_blocks ctx ix pBoundaries (lo / 128) (hi / 128 + 1) n e sorter (-1) w tMeta.
Proof.
  intros [Hlo Hle] Hhi Hc. pose proof (Z.div_mod lo 128 ltac:(lia)). pose proof (Z.mod_pos_bound lo 128 ltac:(lia)). pose proof (Z.div_mod hi 128 ltac:(lia)). pose proof (Z.mod_pos_bound hi 128 ltac:(lia)). pose proof (Z.div_pos lo 128 Hlo ltac:(lia)).
  induction n as [|n IH]; intros e sorter w tMeta He Hn; cbn [scan_blocks]; [done|]. destruct (match m_pFilter ctx with None => _ | Some f => _ end) as [[|]|]; [|cbn [mbind option_bind negb]; apply IH; lia|done]. cbn [mbind option_bind negb].
  rewrite boundaries_ok, attrs_uncut by lia. destruct (RunFullscanOnAttrs _ _ _ _ _ _ _) as [[[[[|] s1] w1] m1]|]; [done| |done]. cbn [mbind option_bind]. apply IH; lia.
Qed.
End Blocks.
End Scan.

(** The limits of a scan by blocks. *)
Lemma scan_limits {T} `{ISphMatchSorter T} ctx ix pBoundaries lo hi sorter iCutoff w tMeta : let docs := Z.of_nat (length (sc_rows ctx)) in
  match pBoundaries with Some b => (m_tMinRowID b, m_tMaxRowID b) | None => (0, docs - 1) end = (lo, hi) -> m_iDocinfoIndex ix = Z.of_nat (num_blocks (sc_rows ctx)) -> (pBoundaries ≠ None -> 0 <= lo <= hi /\ hi < docs) ->
  match pBoundaries with Some b => lo = m_tMinRowID b /\ hi = m_tMaxRowID b /\ 0 <= lo <= hi /\ hi < docs | None => lo = 0 /\ hi = docs - 1 end /\ 0 <= lo <= hi + 1 /\ hi < docs /\ lo / 128 <= hi / 128 + 1 /\
  ScanByBlocks ctx ix pBoundaries sorter iCutoff w tMeta = scan_blocks ctx ix pBoundaries (lo / 128) (hi / 128 + 1) (Z.to_nat (hi / 128 + 1 - lo / 128)) (lo / 128) sorter iCutoff w tMeta.
Proof.
  cbv zeta. intros El H4 H7.
  assert (match pBoundaries with Some b => lo = m_tMinRowID b /\ hi = m_tMaxRowID b /\ 0 <= lo <= hi /\ hi < Z.of_nat (length (sc_rows ctx)) | None => lo = 0 /\ hi = Z.of_nat (length (sc_rows ctx)) - 1 end) as Hl.
  { destruct pBoundaries; injection El as <- <-; [|done]. destruct (H7 ltac:(done)). done. }
  split; [done|]. assert (0 <= lo <= hi + 1 /\ hi < Z.of_nat (length (sc_rows ctx))) as [L1 L2] by (destruct pBoundaries; lia). split; [done|]. split; [done|]. split.
  - destruct pBoundaries; [apply Z.le_trans with (hi / 128); [apply Z.div_le_mono; lia|lia]|destruct Hl as [-> ->]; rewrite <- Z.div_add by lia; apply Z.div_le_mono; lia].
  - unfold ScanByBlocks. assert (match pBoundaries with Some b => m_tMinRowID b / DOCINFO_INDEX_FREQ | None => 0 end = lo / 128) as -> by (destruct pBoundaries; [by destruct Hl as [-> _]|by destruct Hl as [-> _]]).
    assert (match pBoundaries with Some b => m_tMaxRowID b / DOCINFO_INDEX_FREQ + 1 | None => m_iDocinfoIndex ix end = hi / 128 + 1) as ->; [|done].
    destruct pBoundaries; [by destruct Hl as (_ & -> & _)|]. destruct Hl as [-> ->]. rewrite H4. unfold num_blocks. rewrite Nat2Z.inj_div, <- Z.div_add by lia. f_equal. lia.
Qed.

(** [C34] A scan by blocks, with the map of deleted rows and the ranges of the
    attributes in order: it ends, never leaves the rows, and pushes rows from the
    first to the last of the limits, exactly those that are alive and pass the
    filter and the weight filter, whatever blocks their ranges let it skip: all of
    them when it answers false, and a first part of them when the cutoff, the time
    limit or a kill ends it. With none of these it goes through to the end. The
    ranges of the filter have both ends closed, both open, or one side unbounded. *)
Theorem block_scan_correct {T} `{ISphMatchSorter T} ctx ix stride dAttrs pBoundaries sorter iCutoff w tMeta :
  let docs := Z.of_nat (length (sc_rows ctx)) in
  let '(lo, hi) := match pBoundaries with Some b => (m_tMinRowID b, m_tMaxRowID b) | None => (0, docs - 1) end in
  dm_ok (si_tDeadRowMap ix) -> m_uRows (si_tDeadRowMap ix) = docs -> index_ok stride dAttrs (m_pDocinfoIndex ix) (sc_rows ctx) -> m_iDocinfoIndex ix = Z.of_nat (num_blocks (sc_rows ctx)) ->
  (∀ f, m_pFilter ctx = Some f -> FilterOk.filter_ok dAttrs f) -> (∀ i, 0 <= i < docs -> is_Some (passing ctx i)) -> (pBoundaries ≠ None -> 0 <= lo <= hi /\ hi < docs) ->
  ∃ b sorter' w' tMeta', ScanByBlocks ctx ix pBoundaries sorter iCutoff w tMeta = Some (b, sorter', w', tMeta') /\
    pushed ctx (found ctx ix lo hi) sorter sorter' (b = false \/ (iCutoff = -1 /\ calm w)) /\
    (iCutoff = -1 -> calm w -> w' = w /\ m_sWarning tMeta' = m_sWarning tMeta /\ b = false).
Proof.
  cbv zeta. destruct (match pBoundaries with Some b => _ | None => _ end) as [lo hi] eqn:El. intros H1 H2 H3 H4 H5 H6 H7. destruct (scan_limits ctx ix pBoundaries lo hi sorter iCutoff w tMeta El H4 H7) as (Hl & L1 & L2 & Ho & ->).
  destruct (scan_blocks_ok ctx ix H1 H2 H6 stride dAttrs H3 H5 pBoundaries lo hi Hl L1 L2 (Z.to_nat (hi / 128 + 1 - lo / 128)) (lo / 128) sorter iCutoff w tMeta ltac:(lia) ltac:(lia)) as (b & s' & w' & m' & -> & A & B).
  eexists _, _, _, _. split; [done|]. pose proof (Z.mul_div_le lo 128 ltac:(lia)). by replace (Z.max lo (128 * (lo / 128))) with lo in A by lia.
Qed.

(** The cutoff starts anew in every block: [ScanByBlocks] hands it by value
    to the scan of each block, so that one above 128 does nothing, and the scan
    goes over all rows as if there were none. *)
Theorem block_cutoff_unused {T} `{ISphMatchSorter T} ctx ix pBoundaries sorter iCutoff w tMeta :
  let docs := Z.of_nat (length (sc_rows ctx)) in
  dm_ok (si_tDeadRowMap ix) -> m_uRows (si_tDeadRowMap ix) = docs -> m_iDocinfoIndex ix = Z.of_nat (num_blocks (sc_rows ctx)) ->
  match pBoundaries with Some b => 0 <= m_tMinRowID b <= m_tMaxRowID b /\ m_tMaxRowID b < docs | None => True end -> 128 < iCutoff ->
  ScanByBlocks ctx ix pBoundaries sorter iCutoff w tMeta = ScanByBlocks ctx ix pBoundaries sorter (-1) w tMeta.
Proof.
  cbv zeta. intros H1 H2 H4 H7 Hc. destruct (match pBoundaries with Some b => (m_tMinRowID b, m_tMaxRowID b) | None => (0, Z.of_nat (length (sc_rows ctx)) - 1) end) as [lo hi] eqn:El.
  assert (pBoundaries ≠ None -> 0 <= lo <= hi /\ hi < Z.of_nat (length (sc_rows ctx))) as H8 by (destruct pBoundaries; [by injection El as <- <-|done]).
  destruct (scan_limits ctx ix pBoundaries lo hi sorter iCutoff w tMeta El H4 H8) as (Hl & L1 & L2 & Ho & ->). destruct (scan_limits ctx ix pBoundaries lo hi sorter (-1) w tMeta El H4 H8) as (_ & _ & _ & _ & ->).
  apply scan_blocks_uncut; (done || lia).
Qed.

(** ** An example: 300 rows with one number each *)

#[local] Instance demo_sorter : ISphMatchSorter (list CSphMatch) := {| Push m l := (true, l ++ [m]) |}.

Definition demo_rows : list (list Z) := map (λ v, [v]) (seqZ 0 300).
Definition demo_ctx (f : option Filter.ISphFilter) : scan_ctx := ScanCtx f None (Filter.Match_ [] [] 1 (λ _, None)) demo_rows false.
Definition demo_index : scan_index := ScanIndex [[0]; [127]; [128]; [255]; [256]; [299]; [0]; [299]] 3 (Reset 300).
Definition demo_filter : Filter.ISphFilter := Filter.Filter_Range true true false false FilterOk.demo_loc 120 130.

Lemma demo_map_ok : dm_ok (si_tDeadRowMap demo_index).
Proof. apply Reset_ok. lia. Qed.

Lemma demo_block lo n hi : hi = lo + n - 1 -> in_type DWORD lo -> in_type DWORD hi -> ranges_ok 1 FilterOk.demo_attrs [lo] [hi] (map (λ v, [v]) (seqZ lo n)).
Proof. intros -> H1 H2. apply FilterOk.demo_ranges_ok; [constructor; [done|constructor; [done|constructor]]|]. apply Forall_forall. intros v Hv%elem_of_seqZ. lia. Qed.

Lemma demo_scan_index_ok : index_ok 1 FilterOk.demo_attrs (m_pDocinfoIndex demo_index) demo_rows.
Proof.
  split; [reflexivity| |].
  - intros b Hb. change (num_blocks demo_rows) with 3%nat in Hb. destruct b as [|[|[|b]]]; [| | |lia]; eexists _, _; (split; [reflexivity|]); (split; [reflexivity|]).
    + change (block_of demo_rows 0) with (map (λ v, [v]) (seqZ 0 128)). by apply demo_block; [|in_range..].
    + change (block_of demo_rows 1) with (map (λ v, [v]) (seqZ 128 128)). by apply demo_block; [|in_range..].
    + change (block_of demo_rows 2) with (map (λ v, [v]) (seqZ 256 44)). by apply demo_block; [|in_range..].
  - eexists _, _. split; [reflexivity|]. split; [reflexivity|]. by apply demo_block; [|in_range..].
Qed.

Lemma demo_defined i : 0 <= i < 300 -> is_Some (passing (demo_ctx (Some demo_filter)) i).
Proof.
  intros Hi. assert (forallb (λ i, match passing (demo_ctx (Some demo_filter)) i with Some _ => true | None => false end) (seqZ 0 300) = true) as H by (vm_compute; reflexivity).
  rewrite forallb_forall in H. specialize (H i). rewrite <- list_elem_of_In in H. specialize (H (proj2 (elem_of_seqZ _ _ _) Hi)). destruct (passing (demo_ctx (Some demo_filter)) i); [by eexists|done].
Qed.

Lemma block_scan_witness : ∃ b l w' m', ScanByBlocks (demo_ctx (Some demo_filter)) demo_index None [] (-1) (mkWorld None None) (QueryResultMeta None 0) = Some (b, l, w', m') /\ map mt_tRowID l = seqZ 120 11.
Proof.
  destruct (block_scan_correct (demo_ctx (Some demo_filter)) demo_index 1 FilterOk.demo_attrs None [] (-1) (mkWorld None None) (QueryResultMeta None 0)) as (b & l & w' & m' & E & (l1 & l2 & El & -> & All) & _).
  - apply demo_map_ok.
  - reflexivity.
  - apply demo_scan_index_ok.
  - reflexivity.
  - intros f [= <-]. cbn. intros _. split; [eexists; split; [by left|done]|]. by right; right.
  - apply demo_defined.
  - done.
  - rewrite (All ltac:(right; done)), app_nil_r in El. exists b, (pushes (demo_ctx (Some demo_filter)) l1 []), w', m'. split; [exact E|]. rewrite <- El. vm_compute. reflexivity.
Defined.

(** All 300 rows are found with a cutoff of 200. *)
Lemma block_cutoff_witness : ∃ b l w' m', ScanByBlocks (demo_ctx None) demo_index None [] 200 (mkWorld None None) (QueryResultMeta None 0) = Some (b, l, w', m') /\ length l = 300%nat.
Proof.
  rewrite (block_cutoff_unused (demo_ctx None) demo_index None [] 200 (mkWorld None None) (QueryResultMeta None 0) demo_map_ok eq_refl eq_refl I eq_refl). eexists _, _, _, _. split; vm_compute; reflexivity.
Defined.
End FullScanOk.
