(* ===== verification/RowIter.v ===== *)
(** * Iterators over row ids (src/src/secondaryindex.cpp)

    A filter that an index answers gives its rows in blocks, in ascending order.
    [RowidIterator_Intersect_T] yields the rows that all its iterators have, and
    [RowidIterator_Wrapper_T] those of one iterator inside the limits of the scan. *)

From S2P Require Import Prelude SearchNode FullScan.
Import FullScan.

Module RowIter.

(** The interface of the iterators, [RowidIterator_i], and that of the iterators
    of the columnar and the secondary index library, [common::BlockIterator_i].
    The answer of [HintRowID] is whether rows may be left. *)
Class RowidIterator_i (S : Type) := {
  iterator_source :: RowSource S;
  HintRowID : Z -> S -> option (bool * S)
}.

Definition INT_MAX : Z := 2 ^ 31 - 1.

(** ** Rows inside limits *)

Definition in_limits (tBoundaries : RowIdBoundaries_t) (i : Z) : bool := (m_tMinRowID tBoundaries <=? i) && (i <=? m_tMaxRowID tBoundaries).

(** [None] for an empty block, whose first row is read. *)
Definition DoRowIdFiltering (dRowIdBlock : list Z) (tBoundaries : RowIdBoundaries_t) : option (list Z) :=
  tMinSpanRowID ← dRowIdBlock !! 0%nat;
  tMaxSpanRowID ← last dRowIdBlock;
  if (tMaxSpanRowID <? m_tMinRowID tBoundaries) || (m_tMaxRowID tBoundaries <? tMinSpanRowID) then Some []
  else Some (List.filter (in_limits tBoundaries) dRowIdBlock).

(** The filtering of a block; only the first and the last one need it. *)
Definition filter_block (dSpan : list Z) (tBoundaries : RowIdBoundaries_t) : option (list Z) :=
  tMinSpanRowID ← dSpan !! 0%nat;
  tMaxSpanRowID ← last dSpan;
  if (tMinSpanRowID <? m_tMinRowID tBoundaries) || (m_tMaxRowID tBoundaries <? tMaxSpanRowID) then DoRowIdFiltering dSpan tBoundaries else Some dSpan.

Section Iterators.
Context {S : Type} {It : RowidIterator_i S}.

(** The loop for a block with rows inside the limits. *)
Fixpoint next_filtered (fuel : nat) (tBoundaries : RowIdBoundaries_t) (s : S) : option (option (list Z) * S) :=
  match fuel with
  | O => None
  | Datatypes.S fuel' =>
      '(r, s) ← GetNextRowIdBlock s;
      match r with
      | None => Some (None, s)
      | Some dSpan =>
          dRowIdBlock ← filter_block dSpan tBoundaries;
          match dRowIdBlock with [] => next_filtered fuel' tBoundaries s | _ => Some (Some dRowIdBlock, s) end
      end
  end.

(** ** [IteratorState_T]

    [is_pRows] are the rows from [m_pRowID] up to [m_pRowIDMax], nothing for null
    pointers; [is_tLimits] are the boundaries of a state over
    [common::BlockIterator_i] with [ROWID_LIMITS], the only one that filters. A state
    over [RowidIterator_i] has none: its [WarmupDocs] leaves the filtering to the
    iterators below it. *)
Record IteratorState_T := IteratorState {
  is_pIterator : S;
  is_pRows : option (list Z);
  is_tLimits : option RowIdBoundaries_t;
  m_bStopped : bool
}.

Definition new_state (pIterator : S) (pBoundaries : option RowIdBoundaries_t) : IteratorState_T := IteratorState pIterator None pBoundaries false.

Definition Stop (st : IteratorState_T) : IteratorState_T := IteratorState (is_pIterator st) None (is_tLimits st) true.
Definition set_rows (l : list Z) (st : IteratorState_T) : IteratorState_T := IteratorState (is_pIterator st) (Some l) (is_tLimits st) (m_bStopped st).

Definition WarmupDocs (st : IteratorState_T) : option (bool * IteratorState_T) :=
  '(r, s) ← match is_tLimits st with
            | None => GetNextRowIdBlock (is_pIterator st)
            | Some b => next_filtered (Datatypes.S (work (is_pIterator st))) b (is_pIterator st)
            end;
  Some match r with
       | None => (false, Stop (IteratorState s (is_pRows st) (is_tLimits st) (m_bStopped st)))
       | Some l => (true, IteratorState s (Some l) (is_tLimits st) (m_bStopped st))
       end.

(** [WarmupDocs ( tRowID )] *)
Definition WarmupDocsAt (tRowID : Z) (st : IteratorState_T) : option (bool * IteratorState_T) :=
  '(ok, s) ← HintRowID tRowID (is_pIterator st);
  let st := IteratorState s (is_pRows st) (is_tLimits st) (m_bStopped st) in
  if (ok : bool) then WarmupDocs st else Some (false, Stop st).

(** The blocks that end before [tRowID] are left behind. *)
Fixpoint rewind_blocks (fuel : nat) (tRowID : Z) (st : IteratorState_T) : option (bool * IteratorState_T) :=
  match fuel with
  | O => None
  | Datatypes.S fuel' =>
      l ← is_pRows st; tLast ← last l;
      if tLast <? tRowID then
        '(ok, st) ← WarmupDocsAt tRowID st;
        if (ok : bool) then rewind_blocks fuel' tRowID st else Some (false, st)
      else Some (true, st)
  end.

Fixpoint skip_below (tRowID : Z) (l : list Z) : list Z := match l with [] => [] | x :: l' => if x <? tRowID then skip_below tRowID l' else l end.

Fixpoint rewind_rows (fuel : nat) (tRowID : Z) (st : IteratorState_T) : option (bool * IteratorState_T) :=
  match fuel with
  | O => None
  | Datatypes.S fuel' =>
      l ← is_pRows st;
      match skip_below tRowID l with
      | [] => '(ok, st) ← WarmupDocs st; if (ok : bool) then rewind_rows fuel' tRowID st else Some (false, st)
      | l => Some (true, set_rows l st)
      end
  end.

(** A bound on the rows of a state. *)
Definition state_work (st : IteratorState_T) : nat := length (default [] (is_pRows st)) + work (is_pIterator st).

Definition RewindTo (tRowID : Z) (st : IteratorState_T) : option (bool * IteratorState_T) :=
  '(ok, st) ← rewind_blocks (Datatypes.S (state_work st)) tRowID st;
  if (ok : bool) then rewind_rows (Datatypes.S (state_work st)) tRowID st else Some (false, st).

(** ** [RowidIterator_Intersect_T] *)

(** The first iterator and the others. *)
Record RowidIterator_Intersect_T := Intersect { in_tFirst : IteratorState_T; in_dOthers : list IteratorState_T; in_iRowsLeft : Z }.

(** Only the first iterator is warmed up. The intersection is over [RowidIterator_i],
    so that its states do not filter by limits. *)
Definition new_intersect (pFirst : S) (dOthers : list S) : option RowidIterator_Intersect_T :=
  '(_, st) ← WarmupDocs (new_state pFirst None);
  Some (Intersect st (map (λ s, new_state s None) dOthers) INT_MAX).

Definition SetCutoff (iCutoff : Z) (t : RowidIterator_Intersect_T) : RowidIterator_Intersect_T := Intersect (in_tFirst t) (in_dOthers t) iCutoff.

(** [*m_pRowID] *)
Definition row_at (st : IteratorState_T) : option Z := l ← is_pRows st; l !! 0%nat.

(** The loop of [AdvanceIterators] at iterator [i] of the others. *)
Fixpoint advance_loop (fuel : nat) (tFirst : IteratorState_T) (dOthers : list IteratorState_T) (i : nat) (tMaxRowID : Z) : option (bool * IteratorState_T * list IteratorState_T) :=
  match fuel with
  | O => None
  | Datatypes.S fuel' =>
      match dOthers !! i with
      | None => Some (true, tFirst, dOthers)
      | Some tState =>
          '(ok, tState) ← match is_pRows tState with None => WarmupDocsAt tMaxRowID tState | Some _ => Some (true, tState) end;
          if negb ok then Some (false, tFirst, <[i:=tState]> dOthers)
          else
            tRow ← row_at tState;
            if tRow =? tMaxRowID then advance_loop fuel' tFirst (<[i:=tState]> dOthers) (i + 1) tMaxRowID
            else
              '(ok, tState) ← RewindTo tMaxRowID tState;
              let dOthers := <[i:=tState]> dOthers in
              if negb ok then Some (false, tFirst, dOthers)
              else
                tRow ← row_at tState;
                if tMaxRowID <? tRow then
                  '(ok, tFirst) ← RewindTo tRow tFirst;
                  if negb ok then Some (false, tFirst, dOthers)
                  else tMaxRowID ← row_at tFirst; advance_loop fuel' tFirst dOthers 0 tMaxRowID
                else advance_loop fuel' tFirst dOthers (i + 1) tMaxRowID
      end
  end.

Definition AdvanceIterators (tFirst : IteratorState_T) (dOthers : list IteratorState_T) : option (bool * IteratorState_T * list IteratorState_T) :=
  tMaxRowID ← row_at tFirst;
  advance_loop (Datatypes.S (state_work tFirst) * Datatypes.S (length dOthers)) tFirst dOthers 0 tMaxRowID.

(** The loop of [GetNextRowIdBlock]; [n] is the room that is left. *)
Fixpoint intersect_loop (n : nat) (tFirst : IteratorState_T) (dOthers : list IteratorState_T) : option (list Z * IteratorState_T * list IteratorState_T) :=
  match n, is_pRows tFirst with
  | O, _ | _, None => Some ([], tFirst, dOthers)
  | Datatypes.S n', Some _ =>
      '(ok, tFirst, dOthers) ← AdvanceIterators tFirst dOthers;
      if negb ok then Some ([], Stop tFirst, dOthers)
      else
        l ← is_pRows tFirst;
        match l with
        | [] => None
        | [x] =>
            '(ok, tFirst) ← WarmupDocs (set_rows [] tFirst);
            if (ok : bool) then '(out, tFirst, dOthers) ← intersect_loop n' tFirst dOthers; Some (x :: out, tFirst, dOthers)
            else Some ([x], tFirst, dOthers)
        | x :: l' => '(out, tFirst, dOthers) ← intersect_loop n' (set_rows l' tFirst) dOthers; Some (x :: out, tFirst, dOthers)
        end
  end.

Definition SI_MAX_COLLECTED : Z := 1024.

Definition intersect_next (t : RowidIterator_Intersect_T) : option (option (list Z) * RowidIterator_Intersect_T) :=
  '(out, tFirst, dOthers) ← intersect_loop (Z.to_nat (Z.min (SI_MAX_COLLECTED - 1) (in_iRowsLeft t))) (in_tFirst t) (in_dOthers t);
  let iRowsLeft := if in_iRowsLeft t =? INT_MAX then INT_MAX else in_iRowsLeft t - Z.of_nat (length out) in
  Some (ReturnIteratorResult out, Intersect tFirst dOthers iRowsLeft).

Definition intersect_hint (tRowID : Z) (t : RowidIterator_Intersect_T) : option (bool * RowidIterator_Intersect_T) :=
  if m_bStopped (in_tFirst t) then Some (false, t)
  else '(ok, st) ← RewindTo tRowID (in_tFirst t); Some (ok, Intersect st (in_dOthers t) (in_iRowsLeft t)).

#[export] Instance intersect_iterator : RowidIterator_i RowidIterator_Intersect_T := {|
  iterator_source := {|
    GetNextRowIdBlock := intersect_next;
    GetNumProcessed t := foldr (λ st n, GetNumProcessed (is_pIterator st) + n) 0 (in_tFirst t :: in_dOthers t);
    WasCutoffHit t := in_iRowsLeft t =? 0;
    work t := state_work (in_tFirst t)
  |};
  HintRowID := intersect_hint
|}.

(** ** [RowidIterator_Wrapper_T] *)

Record RowidIterator_Wrapper_T := Wrapper { wr_pIterator : S; wr_tBoundaries : option RowIdBoundaries_t }.

(** With limits, an empty block is returned as it is. *)
Fixpoint wrapper_filtered (fuel : nat) (tBoundaries : RowIdBoundaries_t) (s : S) : option (option (list Z) * S) :=
  match fuel with
  | O => None
  | Datatypes.S fuel' =>
      '(r, s) ← GetNextRowIdBlock s;
      match r with
      | None => Some (None, s)
      | Some [] => Some (Some [], s)
      | Some dSpan =>
          dRowIdBlock ← filter_block dSpan tBoundaries;
          match dRowIdBlock with [] => wrapper_filtered fuel' tBoundaries s | _ => Some (Some dRowIdBlock, s) end
      end
  end.

Definition wrapper_next (t : RowidIterator_Wrapper_T) : option (option (list Z) * RowidIterator_Wrapper_T) :=
  '(r, s) ← match wr_tBoundaries t with
            | None => GetNextRowIdBlock (wr_pIterator t)
            | Some b => wrapper_filtered (Datatypes.S (work (wr_pIterator t))) b (wr_pIterator t)
            end;
  Some (r, Wrapper s (wr_tBoundaries t)).

#[export] Instance wrapper_iterator : RowidIterator_i RowidIterator_Wrapper_T := {|
  iterator_source := {|
    GetNextRowIdBlock := wrapper_next;
    GetNumProcessed t := GetNumProcessed (wr_pIterator t);
    WasCutoffHit _ := false;
    work t := work (wr_pIterator t)
  |};
  HintRowID r t := '(ok, s) ← HintRowID r (wr_pIterator t); Some (ok, Wrapper s (wr_tBoundaries t))
|}.
End Iterators.
Arguments IteratorState_T : clear implicits.
Arguments RowidIterator_Intersect_T : clear implicits.
Arguments RowidIterator_Wrapper_T : clear implicits.
End RowIter.
