(* ===== verification/RowIterOk.v ===== *)
(** * The intersection of row iterators *)

From stdpp Require Import sorting.
From S2P Require Import Prelude Hits BitVec SearchNode Ranker DeadMap FullScan FullScanOk RowIter.
Import Ranker DeadMap FullScan FullScanOk RowIter.

Module RowIterOk.

Abbreviation ascending := (StronglySorted Z.lt).

(** What an iterator promises: its rows ascend, no block is empty, [work] bounds
    the rows, and a hint drops only rows before the hinted one; when it answers no,
    no row is left from there on. *)
Class RowidIteratorOk (S : Type) `{It : RowidIterator_i S} := {
  it_source :: RowSourceOk S;
  it_sorted : ∀ s : S, src_inv s -> ascending (src_rest s);
  it_work : ∀ s : S, src_inv s -> (length (src_rest s) <= work s)%nat;
  it_block : ∀ (s : S) b (s' : S), src_inv s -> GetNextRowIdBlock s = Some (Some b, s') -> b ≠ [] /\ (length b + work s' <= work s)%nat;
  it_end : ∀ s s' : S, src_inv s -> GetNextRowIdBlock s = Some (None, s') -> (work s' <= work s)%nat;
  it_hint : ∀ r (s : S), src_inv s -> ∃ ok s' d, HintRowID r s = Some (ok, s') /\ src_inv s' /\ (work s' <= work s)%nat /\
    src_rest s = d ++ src_rest s' /\ Forall (λ x, x < r) d /\ (ok = false -> Forall (λ x, x < r) (src_rest s))
}.

(** ** Lists in ascending order *)

Lemma ascending_app l l' : ascending (l ++ l') <-> ascending l /\ ascending l' /\ ∀ x y, x ∈ l -> y ∈ l' -> x < y.
Proof.
  induction l as [|a l IH]; cbn [app]; [split; [intros H; split; [constructor|split; [done|intros x y Hx; by apply not_elem_of_nil in Hx]]|tauto]|]. split.
  - intros H. inversion H as [|? ? H1 H2]; subst. apply IH in H1 as (A & B & C). rewrite Forall_app, !Forall_forall in H2. destruct H2 as [H2 H3]. split; [constructor; [done|by apply Forall_forall]|]. split; [done|].
    intros x y [->|Hx]%elem_of_cons Hy; [by apply H3|by apply C].
  - intros (A & B & C). inversion A as [|? ? A1 A2]; subst. constructor; [apply IH; split; [done|]; split; [done|]; intros x y Hx Hy; apply C; [by right|done]|].
    rewrite Forall_app. split; [done|]. apply Forall_forall. intros y Hy. apply C; [by left|done].
Qed.

Lemma asc_filter f l : ascending l -> ascending (List.filter f l).
Proof.
  induction 1 as [|a l H IH F]; cbn; [constructor|]. destruct (f a); [|done]. constructor; [done|]. rewrite Forall_forall in *. intros x Hx. rewrite list_elem_of_In, List.filter_In, <- list_elem_of_In in Hx. apply F, Hx.
Qed.

Lemma elem_filter f (l : list Z) x : x ∈ List.filter f l <-> x ∈ l /\ f x = true.
Proof. by rewrite !list_elem_of_In, List.filter_In. Qed.

Lemma asc_head x l y : ascending (x :: l) -> y ∈ x :: l -> x <= y.
Proof. intros H [->|Hy]%elem_of_cons; [lia|]. inversion H as [|? ? _ F]; subst. rewrite Forall_forall in F. specialize (F y Hy). lia. Qed.

Lemma asc_last l z y : ascending l -> last l = Some z -> y ∈ l -> y <= z.
Proof.
  intros H E Hy. apply last_Some in E as [l' ->]. apply ascending_app in H as (_ & _ & H). apply elem_of_app in Hy as [Hy|Hy%list_elem_of_singleton]; [|lia]. specialize (H y z Hy ltac:(by left)). lia.
Qed.

Lemma filter_none {A} (f : A -> bool) l : (∀ x, x ∈ l -> f x = false) -> List.filter f l = [].
Proof. induction l as [|a l IH]; intros H; [done|]. cbn. rewrite H by left. apply IH. intros x Hx. apply H. by right. Qed.

Lemma filter_all {A} (f : A -> bool) l : (∀ x, x ∈ l -> f x = true) -> List.filter f l = l.
Proof. induction l as [|a l IH]; intros H; [done|]. cbn. rewrite H by left. f_equal. apply IH. intros x Hx. apply H. by right. Qed.

Lemma skip_filter r l : ascending l -> skip_below r l = List.filter (Z.leb r) l.
Proof.
  induction 1 as [|a l H IH F]; [done|]. cbn. destruct (Z.ltb_spec a r); destruct (Z.leb_spec r a); try lia; [done|]. f_equal. symmetry. apply filter_all. intros x Hx. rewrite Forall_forall in F. specialize (F x Hx). apply Z.leb_le. lia.
Qed.

Lemma asc_nodup l : ascending l -> NoDup l.
Proof. induction 1 as [|a l H IH F]; constructor; [|done]. intros Hin. rewrite Forall_forall in F. specialize (F a Hin). lia. Qed.

Lemma asc_unique l l' : ascending l -> ascending l' -> (∀ x, x ∈ l <-> x ∈ l') -> l = l'.
Proof.
  intros H H' E. assert (AntiSymm (=) Z.lt) by (intros x y; lia). apply (StronglySorted_unique Z.lt); [done..|]. apply NoDup_Permutation; [by apply asc_nodup..|done].
Qed.

(** ** Limits *)

Lemma filter_block_ok b l : l ≠ [] -> ascending l -> filter_block l b = Some (List.filter (in_limits b) l).
Proof.
  intros Hl Hs. unfold filter_block. destruct l as [|x l']; [done|]. set (l := x :: l') in *. destruct (last l) as [z|] eqn:Ez; [|by apply last_None in Ez]. change (l !! 0%nat) with (Some x). cbn [mbind option_bind].
  assert (∀ y, y ∈ l -> x <= y <= z) as B by (intros y Hy; split; [by eapply asc_head|by eapply asc_last]). unfold in_limits.
  destruct (Z.ltb_spec x (m_tMinRowID b)), (Z.ltb_spec (m_tMaxRowID b) z); cbn [orb].
  4: { f_equal. symmetry. apply filter_all. intros y Hy. specialize (B y Hy). apply andb_true_iff. rewrite !Z.leb_le. lia. }
  all: unfold DoRowIdFiltering; change (l !! 0%nat) with (Some x); cbn [mbind option_bind]; rewrite Ez; cbn [mbind option_bind];
    destruct (Z.ltb_spec z (m_tMinRowID b)), (Z.ltb_spec (m_tMaxRowID b) x); cbn [orb]; try done;
    f_equal; symmetry; apply filter_none; intros y Hy; specialize (B y Hy); apply andb_false_iff; rewrite !Z.leb_gt; lia.
Qed.

(** ** Intersections *)

Definition inter (F : list Z) (Os : list (list Z)) : list Z := List.filter (λ x, bool_decide (Forall (λ O, x ∈ O) Os)) F.

Lemma forall_insert (x : Z) (Os : list (list Z)) i (O O' : list Z) : Os !! i = Some O -> (x ∈ O' <-> x ∈ O) -> Forall (λ O, x ∈ O) (<[i:=O']> Os) <-> Forall (λ O, x ∈ O) Os.
Proof.
  intros E H. pose proof (lookup_lt_Some _ _ _ E). rewrite !Forall_lookup. split; intros G j P Hj.
  - destruct (decide (i = j)) as [<-|N]; [|apply (G j); by rewrite list_lookup_insert_ne]. assert (P = O) as -> by congruence. apply H, (G i). by apply list_lookup_insert_eq.
  - destruct (decide (i = j)) as [<-|N]; [|apply (G j); by rewrite list_lookup_insert_ne in Hj]. rewrite list_lookup_insert_eq in Hj by done. injection Hj as <-. by apply H, (G i).
Qed.

(** From [m] on two lists have the same rows. *)
Definition same_from (m : Z) (l l' : list Z) : Prop := List.filter (Z.leb m) l = List.filter (Z.leb m) l'.

Lemma same_elem m l l' x : same_from m l l' -> m <= x -> x ∈ l <-> x ∈ l'.
Proof. intros H Hx%Z.leb_le. assert (x ∈ List.filter (Z.leb m) l <-> x ∈ List.filter (Z.leb m) l') as G by (by rewrite H). rewrite !elem_filter in G. tauto. Qed.

Lemma filter_twice (f : Z -> bool) l : List.filter f (List.filter f l) = List.filter f l.
Proof. apply filter_all. by intros x [_ ?]%elem_filter. Qed.

Lemma inter_same m F Os i O O' : Os !! i = Some O -> (∀ x, x ∈ F -> m <= x) -> same_from m O' O -> inter F (<[i:=O']> Os) = inter F Os.
Proof.
  intros E HF Hs. unfold inter. apply List.filter_ext_in. intros x Hx%list_elem_of_In. apply bool_decide_ext. apply (forall_insert _ _ _ O); [done|]. apply (same_elem m); [done|by apply HF].
Qed.

Lemma inter_drop r F Os i O : Os !! i = Some O -> (∀ x, x ∈ O -> r <= x) -> inter (List.filter (Z.leb r) F) Os = inter F Os.
Proof.
  intros E HO. unfold inter. rewrite filter_both. apply List.filter_ext_in. intros x _. case_bool_decide as D; [|by rewrite andb_false_r]. rewrite andb_true_r. apply Z.leb_le, HO. rewrite Forall_lookup in D. by apply (D i).
Qed.

Lemma inter_empty m F Os i O : Os !! i = Some O -> (∀ x, x ∈ F -> m <= x) -> List.filter (Z.leb m) O = [] -> inter F Os = [].
Proof.
  intros E HF HO. apply filter_none. intros x Hx. apply bool_decide_false. rewrite Forall_lookup. intros G. specialize (G i O E). assert (x ∈ List.filter (Z.leb m) O) as H by (apply elem_filter; split; [done|by apply Z.leb_le, HF]).
  rewrite HO in H. by apply not_elem_of_nil in H.
Qed.

Section Iterators.
Context {S : Type} `{It : RowidIterator_i S} `{!RowidIteratorOk S}.

Lemma block_sorted (s : S) b (s' : S) : src_inv s -> GetNextRowIdBlock s = Some (Some b, s') -> src_inv s' /\ src_rest s = b ++ src_rest s' /\ ascending b /\ b ≠ [] /\ (length b + work s' <= work s)%nat.
Proof.
  intros Hi E. destruct (src_next s Hi) as (r & s1 & E1 & Hi' & Hr). rewrite E in E1. injection E1 as <- <-. destruct Hr as [Hr _]. pose proof (it_sorted s Hi) as Hs. rewrite Hr in Hs. apply ascending_app in Hs as (Hs & _).
  destruct (it_block s b s' Hi E). done.
Qed.

Lemma next_filtered_ok b : ∀ fuel (s : S), src_inv s -> (work s < fuel)%nat -> ∃ r s', next_filtered fuel b s = Some (r, s') /\ src_inv s' /\
  match r with
  | None => List.filter (in_limits b) (src_rest s) = [] /\ src_rest s' = [] /\ (work s' <= work s)%nat
  | Some l => l ≠ [] /\ List.filter (in_limits b) (src_rest s) = l ++ List.filter (in_limits b) (src_rest s') /\ (length l + work s' <= work s)%nat
  end.
Proof.
  induction fuel as [|fuel IH]; intros s Hi Hf; [lia|]. cbn [next_filtered]. destruct (src_next s Hi) as (r & s1 & E & Hi' & Hr). rewrite E. cbn [mbind option_bind]. destruct r as [l|].
  - destruct (block_sorted s l s1 Hi E) as (_ & Er & Hs & Hl & Hw). rewrite filter_block_ok by done. cbn [mbind option_bind]. rewrite Er, List.filter_app.
    assert (length (List.filter (in_limits b) l) <= length l)%nat as Hle by apply List.filter_length_le. destruct (List.filter (in_limits b) l) as [|x l'] eqn:El.
    + assert (length l ≠ 0)%nat by (by destruct l). destruct (IH s1 Hi' ltac:(lia)) as (r & s' & -> & Hi2 & HH). eexists _, _. split; [done|]. split; [done|]. cbn [app]. destruct r as [l2|]; destruct HH as (? & ? & ?); repeat split; (done || lia).
    + eexists _, _. split; [done|]. split; [done|]. split; [done|]. split; [done|lia].
  - eexists _, _. split; [done|]. split; [done|]. destruct Hr as [-> ->]. split; [done|]. split; [done|]. by apply it_end.
Qed.

(** ** States *)

Definition lim (st : IteratorState_T S) : Z -> bool := match is_tLimits st with None => λ _, true | Some b => in_limits b end.
Definition to_come (st : IteratorState_T S) : list Z := List.filter (lim st) (src_rest (is_pIterator st)).

(** The rows of a state. *)
Definition st_rest (st : IteratorState_T S) : list Z := if m_bStopped st then [] else default [] (is_pRows st) ++ to_come st.

Record st_ok (st : IteratorState_T S) : Prop := {
  so_inv : src_inv (is_pIterator st);
  so_stopped : m_bStopped st = true -> is_pRows st = None;
  so_rows : is_pRows st ≠ Some [];
  so_sorted : ascending (default [] (is_pRows st) ++ to_come st)
}.

Lemma st_sorted st : st_ok st -> ascending (st_rest st).
Proof. intros [_ _ _ H]. unfold st_rest. destruct (m_bStopped st); [constructor|done]. Qed.

Lemma st_length st : st_ok st -> (length (st_rest st) <= state_work st)%nat.
Proof.
  intros [H _ _ _]. unfold st_rest, state_work. destruct (m_bStopped st); [cbn; lia|]. rewrite length_app. pose proof (List.filter_length_le (lim st) (src_rest (is_pIterator st))). pose proof (it_work _ H). unfold to_come. lia.
Qed.

(** A state that lost its rows is warmed up. *)
Lemma warm_ok st : src_inv (is_pIterator st) -> m_bStopped st = false -> ∃ ok st', WarmupDocs st = Some (ok, st') /\ st_ok st' /\ st_rest st' = to_come st /\ is_tLimits st' = is_tLimits st /\
  (state_work st' <= work (is_pIterator st))%nat /\ (if (ok : bool) then m_bStopped st' = false /\ is_Some (is_pRows st') else m_bStopped st' = true).
Proof.
  intros Hi Hs. unfold WarmupDocs. set (it := is_pIterator st) in *.
  assert (∃ r s', match is_tLimits st with None => GetNextRowIdBlock it | Some b => next_filtered (Datatypes.S (work it)) b it end = Some (r, s') /\ src_inv s' /\
    match r with None => to_come st = [] /\ src_rest s' = [] /\ (work s' <= work it)%nat | Some l => l ≠ [] /\ to_come st = l ++ List.filter (lim st) (src_rest s') /\ (length l + work s' <= work it)%nat end) as (r & s' & -> & Hi' & Hr).
  { unfold to_come, lim. destruct (is_tLimits st) as [b|]; [by apply next_filtered_ok; [|lia]|]. destruct (src_next it Hi) as (r & s1 & E & Hi' & Hr). exists r, s1. split; [done|]. split; [done|]. rewrite !filter_all by done. destruct r as [l|].
    - destruct (block_sorted _ _ _ Hi E) as (_ & Er & _ & Hl & Hw). done.
    - destruct Hr as [? ?]. split; [done|]. split; [done|]. by apply it_end. }
  cbn [mbind option_bind]. assert (ascending (to_come st)) as Ha by (apply asc_filter, it_sorted, Hi). destruct r as [l|]; eexists _, _; (split; [done|]).
  - destruct Hr as (Hl & Er & Hw). split; [split; cbn; [done|by rewrite Hs|by intros [=]|unfold to_come, lim; cbn; fold (lim st); by rewrite <- Er]|]. split; [rewrite Er; unfold st_rest; cbn; by rewrite Hs|].
    split; [done|]. split; [unfold state_work; cbn; lia|]. by cbn.
  - destruct Hr as (E1 & E2 & Hw). split; [split; cbn; [done|done|done|unfold to_come; cbn; rewrite E2; constructor]|]. split; [by rewrite E1|]. split; [done|]. split; [unfold state_work; cbn; lia|done].
Qed.

(** The hinted variant keeps the rows from the hint on. *)
Lemma warm_at_ok r st : src_inv (is_pIterator st) -> m_bStopped st = false -> ∃ ok st', WarmupDocsAt r st = Some (ok, st') /\ st_ok st' /\ List.filter (Z.leb r) (st_rest st') = List.filter (Z.leb r) (to_come st) /\ is_tLimits st' = is_tLimits st /\
  (state_work st' <= work (is_pIterator st))%nat /\ (if (ok : bool) then m_bStopped st' = false /\ is_Some (is_pRows st') else m_bStopped st' = true).
Proof.
  intros Hi Hs. unfold WarmupDocsAt. destruct (it_hint r _ Hi) as (ok & s' & d & -> & Hi' & Hw & Er & Hd & Hn). cbn [mbind option_bind].
  assert (∀ l, Forall (λ x, x < r) l -> List.filter (Z.leb r) (List.filter (lim st) l) = []) as K.
  { intros l Hl. apply filter_none. intros x [Hx _]%elem_filter. rewrite Forall_forall in Hl. specialize (Hl x Hx). apply Z.leb_gt. lia. }
  destruct ok.
  - destruct (warm_ok (IteratorState s' (is_pRows st) (is_tLimits st) (m_bStopped st)) Hi' Hs) as (ok & st' & -> & A & B & C & D & E). cbn in D. exists ok, st'. split; [done|]. split; [done|]. split; [|split; [done|split; [lia|done]]].
    rewrite B. change (to_come (IteratorState s' (is_pRows st) (is_tLimits st) (m_bStopped st))) with (List.filter (lim st) (src_rest s')). unfold to_come. rewrite Er, !List.filter_app, (K d) by done. done.
  - eexists _, _. split; [done|]. split; [split; cbn; [done|done|done|apply asc_filter, it_sorted, Hi']|]. split; [cbn; symmetry; apply K; auto|]. split; [done|]. split; [unfold state_work; cbn; lia|done].
Qed.

(** A state with rows in front. *)
Definition ready (st : IteratorState_T S) : Prop := st_ok st /\ m_bStopped st = false /\ is_Some (is_pRows st).

Lemma ready_rows st : ready st -> ∃ x l, is_pRows st = Some (x :: l) /\ row_at st = Some x /\ st_rest st = x :: l ++ to_come st.
Proof.
  intros (H & Hs & [[|x l] E]); [by destruct (so_rows _ H)|]. exists x, l. split; [done|]. unfold row_at, st_rest. by rewrite E, Hs.
Qed.

Definition rewound (r : Z) (st st' : IteratorState_T S) (ok : bool) : Prop :=
  st_ok st' /\ is_tLimits st' = is_tLimits st /\ (state_work st' <= state_work st)%nat /\ (if ok then m_bStopped st' = false /\ is_Some (is_pRows st') else m_bStopped st' = true).

Lemma rewind_blocks_ok r : ∀ fuel st, ready st -> (work (is_pIterator st) < fuel)%nat -> ∃ ok st', rewind_blocks fuel r st = Some (ok, st') /\ rewound r st st' ok /\
  List.filter (Z.leb r) (st_rest st') = List.filter (Z.leb r) (st_rest st).
Proof.
  induction fuel as [|fuel IH]; intros st Hr Hf; [lia|]. cbn [rewind_blocks]. destruct (ready_rows st Hr) as (x & l & E & _ & Er). destruct Hr as (H & Hs & Hy). rewrite E. cbn [mbind option_bind].
  destruct (last (x :: l)) as [z|] eqn:Ez; [|by apply last_None in Ez]. cbn [mbind option_bind]. destruct (Z.ltb_spec z r) as [Hz|Hz]; [|exists true, st; done].
  assert (List.filter (Z.leb r) (st_rest st) = List.filter (Z.leb r) (to_come st)) as ->.
  { rewrite Er, app_comm_cons, List.filter_app, filter_none; [done|]. intros y Hin. apply Z.leb_gt. pose proof (so_sorted _ H) as A. rewrite E in A. apply ascending_app in A as (A & _). pose proof (asc_last _ _ _ A Ez Hin). lia. }
  destruct (warm_at_ok r st (so_inv _ H) Hs) as (ok & st1 & -> & A & B & C & D & F). cbn [mbind option_bind]. assert (state_work st = Datatypes.S (length l) + work (is_pIterator st))%nat as Ew by (unfold state_work; by rewrite E).
  destruct ok; [|exists false, st1; split; [done|]; split; [split; [exact A|split; [exact C|split; [lia|exact F]]]|done]]. destruct F as [F1 F2]. destruct (IH st1) as (ok & st2 & -> & (R1 & R2 & R3 & R4) & R5); [done| |].
  { destruct F2 as [[|y l1] Ey]; [by destruct (so_rows _ A)|]. unfold state_work in D. rewrite Ey in D. cbn [default from_option id length] in D. lia. }
  exists ok, st2. split; [done|]. split; [|congruence]. split; [done|]. split; [congruence|]. split; [lia|done].
Qed.

Lemma rewind_rows_ok r : ∀ fuel st, ready st -> (work (is_pIterator st) < fuel)%nat -> ∃ ok st', rewind_rows fuel r st = Some (ok, st') /\ rewound r st st' ok /\ st_rest st' = List.filter (Z.leb r) (st_rest st).
Proof.
  induction fuel as [|fuel IH]; intros st Hr Hf; [lia|]. cbn [rewind_rows]. destruct (ready_rows st Hr) as (x & l & E & _ & Er). destruct Hr as (H & Hs & Hy). rewrite E. cbn [mbind option_bind].
  pose proof (so_sorted _ H) as A. rewrite E in A. cbn [default from_option id] in A. pose proof A as (A1 & A2 & A3)%ascending_app. rewrite skip_filter by done. rewrite Er, app_comm_cons, List.filter_app.
  assert (state_work st = Datatypes.S (length l) + work (is_pIterator st))%nat as Ew by (unfold state_work; by rewrite E).
  destruct (List.filter (Z.leb r) (x :: l)) as [|y l1] eqn:El.
  - destruct (warm_ok st (so_inv _ H) Hs) as (ok & st1 & -> & B & C & D & F & G). cbn [mbind option_bind]. destruct ok.
    + destruct G as [G1 G2]. destruct (IH st1) as (ok & st2 & -> & (R1 & R2 & R3 & R4) & R5); [done| |].
      { destruct G2 as [[|z l2] Ey]; [by destruct (so_rows _ B)|]. unfold state_work in F. rewrite Ey in F. cbn [default from_option id length] in F. lia. }
      exists ok, st2. split; [done|]. split; [|by rewrite R5, C]. split; [done|]. split; [congruence|]. split; [lia|done].
    + exists false, st1. split; [done|]. split; [split; [exact B|split; [exact D|split; [lia|exact G]]]|]. unfold st_rest in C |- *. rewrite G in *. rewrite <- C. done.
  - assert (List.filter (Z.leb r) (to_come st) = to_come st) as ->.
    { apply filter_all. intros z Hz. assert (y ∈ List.filter (Z.leb r) (x :: l)) as [Hy1 Hy2]%elem_filter by (rewrite El; by left). specialize (A3 y z Hy1 Hz). apply Z.leb_le. apply Z.leb_le in Hy2. lia. }
    assert (length (y :: l1) <= length (x :: l))%nat as Hle by (rewrite <- El; apply List.filter_length_le). exists true, (set_rows (y :: l1) st). split; [done|]. split.
    + split; [split; cbn; [apply H|by rewrite Hs|done|]|].
      * change (to_come (set_rows (y :: l1) st)) with (to_come st). rewrite app_comm_cons. apply ascending_app. rewrite <- El. split; [by apply asc_filter|]. split; [done|]. intros u v [Hu _]%elem_filter Hv. by apply A3.
      * split; [done|]. split; [unfold state_work at 1; cbn [set_rows is_pRows is_pIterator default from_option id length] in *; lia|]. by cbn.
    + unfold st_rest. cbn. by rewrite Hs.
Qed.

Lemma rewind_ok r st : ready st -> ∃ ok st', RewindTo r st = Some (ok, st') /\ rewound r st st' ok /\ st_rest st' = List.filter (Z.leb r) (st_rest st).
Proof.
  intros Hr. unfold RewindTo. destruct (rewind_blocks_ok r (Datatypes.S (state_work st)) st Hr) as (ok & st1 & -> & (A & B & C & D) & F); [unfold state_work; lia|]. cbn [mbind option_bind]. destruct ok.
  - destruct (rewind_rows_ok r (Datatypes.S (state_work st1)) st1) as (ok & st2 & -> & (A2 & B2 & C2 & D2) & F2); [done|unfold state_work; lia|]. exists ok, st2. split; [done|]. split; [|by rewrite F2]. split; [done|]. split; [congruence|]. split; [lia|done].
  - exists false, st1. split; [done|]. split; [done|]. rewrite <- F. unfold st_rest. by rewrite D.
Qed.

(** ** Advancing the iterators *)

Definition other (st : IteratorState_T S) : Prop := st_ok st /\ m_bStopped st = false.
Abbreviation rests := (map st_rest).

Lemma ready_bounds st m : ready st -> row_at st = Some m -> ∀ x, x ∈ st_rest st -> m <= x.
Proof. intros Hr Hm x Hx. destruct (ready_rows st Hr) as (y & l & _ & Ey & Er). assert (y = m) as -> by congruence. rewrite Er in Hx. eapply asc_head; [|exact Hx]. rewrite <- Er. apply st_sorted, Hr. Qed.

(** An iterator that was never read is warmed up. *)
Lemma fetch_ok m st : other st -> ∃ ok st', match is_pRows st with None => WarmupDocsAt m st | Some _ => Some (true, st) end = Some (ok, st') /\ same_from m (st_rest st') (st_rest st) /\ (if (ok : bool) then ready st' else st_rest st' = []).
Proof.
  intros [H Hs]. destruct (is_pRows st) as [l|] eqn:E; [exists true, st; split; [done|]; split; [done|]; split; [done|]; split; [done|]; by rewrite E; eexists|].
  destruct (warm_at_ok m st (so_inv _ H) Hs) as (ok & st' & -> & A & B & C & D & F). exists ok, st'. split; [done|]. split; [unfold same_from; rewrite B; unfold st_rest; by rewrite Hs, E|]. destruct ok; [done|]. unfold st_rest. by rewrite F.
Qed.

Definition advanced (first : IteratorState_T S) (others : list (IteratorState_T S)) (ok : bool) (first' : IteratorState_T S) (others' : list (IteratorState_T S)) : Prop :=
  st_ok first' /\ (state_work first' <= state_work first)%nat /\
  if ok then ready first' /\ Forall other others' /\ inter (st_rest first') (rests others') = inter (st_rest first) (rests others) /\ (∃ m, row_at first' = Some m /\ ∀ j st, others' !! j = Some st -> row_at st = Some m /\ ready st)
  else inter (st_rest first) (rests others) = [].

Lemma iterators_advance_ok : ∀ fuel first others i m, ready first -> row_at first = Some m -> Forall other others -> (∀ j st, (j < i)%nat -> others !! j = Some st -> row_at st = Some m /\ ready st) -> (i <= length others)%nat ->
  (length (st_rest first) * Datatypes.S (length others) + (length others - i) < fuel)%nat -> ∃ ok first' others', advance_loop fuel first others i m = Some (ok, first', others') /\ advanced first others ok first' others'.
Proof.
  induction fuel as [|fuel IH]; intros first others i m Hf Hm Ho Hj Hi Hfu; [lia|]. cbn [advance_loop]. pose proof (ready_bounds first m Hf Hm) as HF. destruct (others !! i) as [st|] eqn:Ei.
  2: { exists true, first, others. split; [done|]. split; [apply Hf|]. split; [done|]. split; [done|]. split; [done|]. split; [done|]. exists m. split; [done|]. intros j st E. apply (Hj j); [|done]. apply lookup_lt_Some in E. apply lookup_ge_None in Ei. lia. }
  pose proof (lookup_lt_Some _ _ _ Ei) as Hil. assert (rests others !! i = Some (st_rest st)) as Eo by (by rewrite list_lookup_fmap, Ei). assert (other st) as Hst by (rewrite Forall_lookup in Ho; by apply (Ho i)).
  assert (∀ st', same_from m (st_rest st') (st_rest st) -> inter (st_rest first) (rests (<[i:=st']> others)) = inter (st_rest first) (rests others)) as Keep.
  { intros st' Hs. change (rests (<[i:=st']> others)) with (st_rest <$> <[i:=st']> others). rewrite list_fmap_insert. by apply (inter_same m _ _ _ (st_rest st)). }
  assert (∀ st', same_from m (st_rest st') (st_rest st) -> st_rest st' = [] -> inter (st_rest first) (rests others) = []) as None_.
  { intros st' Hs E. apply (inter_empty m _ _ i (st_rest st)); [done|done|]. rewrite <- Hs, E. done. }
  assert (∀ st', ready st' -> Forall other (<[i:=st']> others)) as Oth by (intros st' (A & B & _); by apply Forall_insert).
  assert (∀ st', ready st' -> row_at st' = Some m -> same_from m (st_rest st') (st_rest st) -> ∃ ok first' others', advance_loop fuel first (<[i:=st']> others) (i + 1) m = Some (ok, first', others') /\ advanced first others ok first' others') as Next.
  { intros st' Hr Hm' Hs. destruct (IH first (<[i:=st']> others) (i + 1)%nat m Hf Hm (Oth _ Hr)) as (ok & f' & o' & -> & A & B & C).
    - intros j st2 Hlt E. destruct (decide (i = j)) as [<-|N]; [rewrite list_lookup_insert_eq in E by done; injection E as <-; done|]. rewrite list_lookup_insert_ne in E by done. apply (Hj j); [lia|done].
    - rewrite length_insert. lia.
    - rewrite length_insert. lia.
    - exists ok, f', o'. split; [done|]. split; [done|]. split; [done|]. by rewrite (Keep _ Hs) in C. }
  destruct (fetch_ok m st Hst) as (ok & st1 & -> & S1 & R1). cbn [mbind option_bind]. destruct ok; cbn [negb]; [|eexists _, _, _; split; [done|]; split; [apply Hf|]; split; [done|]; by apply (None_ st1)].
  destruct (ready_rows st1 R1) as (x & l & _ & Ex & _). rewrite Ex. cbn [mbind option_bind]. destruct (Z.eqb_spec x m) as [->|Nx]; [by apply Next|].
  destruct (rewind_ok m st1 R1) as (ok & st2 & -> & (A2 & B2 & C2 & D2) & F2). cbn [mbind option_bind]. assert (same_from m (st_rest st2) (st_rest st)) as S2 by (unfold same_from; rewrite F2, filter_twice; exact S1).
  destruct ok; cbn [negb]; [|eexists _, _, _; split; [done|]; split; [apply Hf|]; split; [done|]; apply (None_ st2); [done|]; unfold st_rest; by rewrite D2].
  assert (ready st2) as R2 by done. destruct (ready_rows st2 R2) as (y & l2 & _ & Ey & Er). rewrite Ey. cbn [mbind option_bind]. destruct (Z.ltb_spec m y) as [Hlt|Hge].
  - destruct (rewind_ok y first Hf) as (ok & f1 & -> & (A3 & B3 & C3 & D3) & F3). cbn [mbind option_bind]. pose proof (ready_bounds st2 y R2 Ey) as HO. set (os := <[i:=st2]> others) in *.
    assert (rests os !! i = Some (st_rest st2)) as Eo2 by (change (rests os) with (st_rest <$> os); rewrite list_lookup_fmap; unfold os; by rewrite list_lookup_insert_eq).
    assert (inter (st_rest f1) (rests os) = inter (st_rest first) (rests others)) as Hin by (rewrite F3, (inter_drop y _ _ i (st_rest st2)) by done; by apply Keep).
    destruct ok; cbn [negb]; [|eexists _, _, _; split; [done|]; split; [done|]; split; [done|]; rewrite <- Hin; unfold st_rest at 1; by rewrite D3].
    assert (ready f1) as Rf by done. destruct (ready_rows f1 Rf) as (m1 & l3 & _ & Em1 & Er1). rewrite Em1. cbn [mbind option_bind]. destruct (IH f1 os 0%nat m1 Rf Em1 (Oth _ R2)) as (ok & f' & o' & -> & P1 & P2 & P3); [intros; lia|lia| |].
    + assert (length (st_rest f1) < length (st_rest first))%nat; [|unfold os; rewrite length_insert; nia]. rewrite F3. destruct (ready_rows first Hf) as (m0 & l0 & _ & Em0 & ->). assert (m0 = m) as -> by congruence.
      cbn [List.filter]. destruct (Z.leb_spec y m); [lia|]. pose proof (List.filter_length_le (Z.leb y) (l0 ++ to_come first)). cbn. lia.
    + exists ok, f', o'. split; [done|]. split; [done|]. split; [lia|]. by rewrite Hin in P3.
  - assert (y = m) as ->; [|by apply Next]. assert (y ∈ st_rest st2) as Hy by (rewrite Er; by left). rewrite F2 in Hy. apply elem_filter in Hy as [_ Hy%Z.leb_le]. lia.
Qed.

Lemma advance_ok first others : ready first -> Forall other others -> ∃ ok first' others', AdvanceIterators first others = Some (ok, first', others') /\ advanced first others ok first' others'.
Proof.
  intros Hf Ho. unfold AdvanceIterators. destruct (ready_rows first Hf) as (m & l & _ & Em & _). rewrite Em. cbn [mbind option_bind]. apply iterators_advance_ok; [done..|intros; lia|lia|]. pose proof (st_length first ltac:(apply Hf)). nia.
Qed.

(** ** The blocks of the intersection *)

Definition pair_ok (first : IteratorState_T S) (others : list (IteratorState_T S)) : Prop := st_ok first /\ (m_bStopped first = true \/ (ready first /\ Forall other others)).

Lemma inter_cons x l Os : Forall (λ O : list Z, x ∈ O) Os -> inter (x :: l) Os = x :: inter l Os.
Proof. intros H. unfold inter. cbn. by rewrite bool_decide_true. Qed.

Lemma state_tail_ok st x y l : ready st -> is_pRows st = Some (x :: y :: l) -> ready (set_rows (y :: l) st) /\ st_rest (set_rows (y :: l) st) = y :: l ++ to_come st.
Proof.
  intros (H & Hs & _) E. split; [|unfold st_rest; cbn; by rewrite Hs]. split; [|split; [done|by eexists]]. split; cbn; [apply H|by rewrite Hs|done|].
  pose proof (so_sorted _ H) as A. rewrite E in A. cbn in A. by inversion A.
Qed.

Lemma intersect_rows_ok : ∀ n first others, pair_ok first others -> ∃ out first' others', intersect_loop n first others = Some (out, first', others') /\ pair_ok first' others' /\
  inter (st_rest first) (rests others) = out ++ inter (st_rest first') (rests others') /\ (length out <= n)%nat /\ ((length out < n)%nat -> inter (st_rest first') (rests others') = []) /\
  (length out + state_work first' <= state_work first)%nat.
Proof.
  induction n as [|n IH]; intros first others [Ho Hp]; cbn [intersect_loop]; [exists [], first, others; split; [done|]; split; [done|]; split; [done|]; split; [cbn; lia|]; split; [cbn; lia|cbn; lia]|].
  destruct Hp as [Hs|[Hr Hos]].
  { rewrite (so_stopped _ Ho Hs). exists [], first, others. assert (st_rest first = []) as E by (unfold st_rest; by rewrite Hs). rewrite E. split; [done|]. split; [split; [done|by left]|]. split; [done|]. split; [cbn; lia|]. split; [done|cbn; lia]. }
  destruct (ready_rows first Hr) as (x0 & l0 & E0 & _). rewrite E0. destruct (advance_ok first others Hr Hos) as (ok & f1 & o1 & -> & A & B & C). cbn [mbind option_bind]. destruct ok; cbn [negb].
  2: { exists [], (Stop f1), o1. rewrite C. split; [done|]. split; [split; [|by left]; split; cbn; [apply A|done|done|apply asc_filter, it_sorted, A]|]. split; [done|]. split; [cbn; lia|]. split; [done|]. unfold state_work in *. cbn [Stop is_pRows is_pIterator default from_option length]. lia. }
  destruct C as (R1 & O1 & E1 & m & Em & Hall). destruct (ready_rows f1 R1) as (x & l & Er & Ex & Erest). assert (x = m) as -> by congruence. rewrite Er. cbn [mbind option_bind]. rewrite <- E1, Erest.
  assert (Forall (λ O : list Z, m ∈ O) (rests o1)) as Hin.
  { apply Forall_forall. intros O (st & -> & Hst)%list_elem_of_fmap. apply list_elem_of_lookup in Hst as [j Ej]. destruct (Hall j st Ej) as [Hm Hst]. destruct (ready_rows st Hst) as (y & ly & _ & Ey & ->). assert (y = m) as -> by congruence. by left. }
  rewrite inter_cons by done. assert (state_work f1 = Datatypes.S (length l) + work (is_pIterator f1))%nat as Ew by (unfold state_work; by rewrite Er). destruct l as [|y l].
  - destruct (warm_ok (set_rows [] f1) ltac:(apply R1) ltac:(apply R1)) as (ok & f2 & -> & A2 & B2 & C2 & D2 & F2). cbn [mbind option_bind]. change (to_come (set_rows [] f1)) with (to_come f1) in B2. cbn [app]. rewrite <- B2. cbn [set_rows is_pIterator length] in *. destruct ok.
    + destruct F2 as [F3 F4]. destruct (IH f2 o1) as (out & f' & o' & -> & P1 & P2 & P3 & P4 & P5); [by split; [|right]|]. cbn [mbind option_bind]. exists (m :: out), f', o'. split; [done|]. split; [done|]. split; [by rewrite P2|]. split; [cbn; lia|]. split; [intros H; apply P4; cbn in H; lia|cbn; lia].
    + exists [m], f2, o1. assert (st_rest f2 = []) as -> by (unfold st_rest; by rewrite F2). split; [done|]. split; [split; [done|by left]|]. split; [done|]. split; [cbn; lia|]. split; [done|cbn; lia].
  - destruct (state_tail_ok f1 m y l R1 Er) as [R2 E2]. destruct (IH (set_rows (y :: l) f1) o1) as (out & f' & o' & -> & P1 & P2 & P3 & P4 & P5); [split; [apply R2|by right]|]. cbn [mbind option_bind]. exists (m :: out), f', o'. split; [done|]. split; [done|].
    cbn [app]. rewrite <- E2, P2. split; [done|]. split; [cbn; lia|]. split; [intros H; apply P4; cbn in H; lia|]. unfold state_work at 2 in P5. cbn [set_rows is_pRows is_pIterator default from_option id length] in *. lia.
Qed.

(** The rows of the intersection, up to a cutoff. *)
Definition common (t : RowidIterator_Intersect_T S) : list Z := inter (st_rest (in_tFirst t)) (rests (in_dOthers t)).
Definition cut (t : RowidIterator_Intersect_T S) : list Z := if in_iRowsLeft t =? INT_MAX then common t else take (Z.to_nat (in_iRowsLeft t)) (common t).

Definition intersect_ok (t : RowidIterator_Intersect_T S) : Prop := pair_ok (in_tFirst t) (in_dOthers t) /\ 0 <= in_iRowsLeft t <= INT_MAX.

Lemma intersect_next_ok t : intersect_ok t -> ∃ r t', intersect_next t = Some (r, t') /\ intersect_ok t' /\ (in_iRowsLeft t = INT_MAX -> in_iRowsLeft t' = INT_MAX) /\
  match r with Some b => b ≠ [] /\ common t = b ++ common t' /\ cut t = b ++ cut t' /\ (length b + work t' <= work t)%nat | None => cut t = [] /\ cut t' = [] /\ (work t' <= work t)%nat end.
Proof.
  intros [Hp Hc]. unfold intersect_next. set (n := Z.to_nat _). destruct (intersect_rows_ok n _ _ Hp) as (out & f' & o' & -> & P1 & P2 & P3 & P4 & P5). cbn [mbind option_bind]. eexists _, _. split; [done|]. cbn [in_iRowsLeft in_tFirst in_dOthers].
  assert (Z.of_nat (length out) <= in_iRowsLeft t) as Hle by (unfold n, SI_MAX_COLLECTED in P3; lia).
  split; [split; [done|cbn; destruct (in_iRowsLeft t =? INT_MAX); [done|lia]]|]. split; [intros ->; done|].
  set (t' := Intersect f' o' _). assert (common t = out ++ common t') as Ec by done. assert (cut t = out ++ cut t') as Ek.
  { unfold cut. rewrite Ec. cbn [in_iRowsLeft t']. destruct (Z.eqb_spec (in_iRowsLeft t) INT_MAX) as [E|N]; [by rewrite Z.eqb_refl|]. rewrite take_app_ge by lia. f_equal. destruct (Z.eqb_spec (in_iRowsLeft t - Z.of_nat (length out)) INT_MAX) as [E2|N2]; [lia|]. f_equal. lia. }
  destruct out as [|x out]; cbn [ReturnIteratorResult]; [|split; [done|split; [done|split; [done|exact P5]]]]. cbn [app] in Ek. assert (cut t' = []) as E'; [|rewrite Ek; split; [done|split; [done|exact P5]]].
  unfold cut. destruct (Nat.eq_dec n 0%nat) as [E0|N0].
  - unfold n, SI_MAX_COLLECTED, INT_MAX in E0. cbn [in_iRowsLeft t' length]. destruct (Z.eqb_spec (in_iRowsLeft t) INT_MAX) as [E|N]; [unfold INT_MAX in E; lia|]. replace (in_iRowsLeft t - Z.of_nat 0) with 0 by lia. done.
  - assert (common t' = []) as -> by (apply P4; cbn; lia). case_match; [done|]. by rewrite take_nil.
Qed.

(** The intersection with any cutoff, as a source for a scan. *)
#[refine] Instance intersect_source_ok : RowSourceOk (RowidIterator_Intersect_T S) := {| src_inv := intersect_ok; src_rest := cut |}.
Proof.
  intros t H. destruct (intersect_next_ok t H) as (r & t' & E & Ht & _ & Hr). exists r, t'. split; [exact E|]. split; [done|]. destruct r as [b|]; [|by destruct Hr as (? & ? & _)]. destruct Hr as (Hb & _ & Hk & Hw). split; [done|]. destruct b; [done|]. cbn in Hw |- *. lia.
Defined.

Definition unlimited (t : RowidIterator_Intersect_T S) : Prop := intersect_ok t /\ in_iRowsLeft t = INT_MAX.

Lemma cut_all t : in_iRowsLeft t = INT_MAX -> cut t = common t.
Proof. intros E. unfold cut. by rewrite E, Z.eqb_refl. Qed.

#[refine] Instance unlimited_source : RowSourceOk (RowidIterator_Intersect_T S) := {| src_inv := unlimited; src_rest := common |}.
Proof.
  intros t [H Hu]. destruct (intersect_next_ok t H) as (r & t' & E & Ht & Hk & Hr). specialize (Hk Hu). exists r, t'. split; [exact E|]. split; [done|]. rewrite !cut_all in Hr by done. destruct r as [b|]; [|by destruct Hr as (? & ? & _)].
  destruct Hr as (Hb & Hc & _ & Hw). split; [done|]. destruct b; [done|]. cbn in Hw |- *. lia.
Defined.

(** The intersection is an iterator itself. *)
#[export, refine] Instance intersect_iterator_ok : RowidIteratorOk (RowidIterator_Intersect_T S) := {| it_source := unlimited_source |}.
Proof.
  - intros t [[[H _] _] _]. apply asc_filter, st_sorted, H.
  - intros t [[[H _] _] _]. cbn [src_rest unlimited_source work intersect_iterator iterator_source]. pose proof (st_length _ H). unfold common, inter. pose proof (List.filter_length_le (λ x, bool_decide (Forall (λ O : list Z, x ∈ O) (rests (in_dOthers t)))) (st_rest (in_tFirst t))). lia.
  - intros t b t' [H Hu] E. destruct (intersect_next_ok t H) as (r & t1 & E1 & _ & _ & Hr). change (GetNextRowIdBlock t) with (intersect_next t) in E. rewrite E in E1. injection E1 as <- <-. by destruct Hr as (? & _ & _ & ?).
  - intros t t' [H Hu] E. destruct (intersect_next_ok t H) as (r & t1 & E1 & _ & _ & Hr). change (GetNextRowIdBlock t) with (intersect_next t) in E. rewrite E in E1. injection E1 as <- <-. by destruct Hr as (_ & _ & ?).
  - intros r t [[[H Hp] Hc] Hu]. cbn [HintRowID intersect_iterator]. unfold intersect_hint. destruct Hp as [Hs|[Hr Ho]].
    + rewrite Hs. assert (common t = []) as E by (unfold common, st_rest; by rewrite Hs). exists false, t, []. split; [done|]. split; [split; [split; [split; [exact H|left; exact Hs]|exact Hc]|exact Hu]|]. split; [lia|]. split; [done|]. split; [constructor|]. intros _. cbn [src_rest unlimited_source]. rewrite E. constructor.
    + destruct Hr as (H1 & Hs & H3). rewrite Hs. destruct (rewind_ok r (in_tFirst t)) as (ok & st' & -> & (A & B & C & D) & F); [done|]. cbn [mbind option_bind]. set (t' := Intersect st' (in_dOthers t) (in_iRowsLeft t)).
      assert (common t' = List.filter (Z.leb r) (common t)) as Ec by (unfold common, inter; cbn; rewrite F, !filter_both; apply List.filter_ext_in; intros; by rewrite andb_comm).
      exists ok, t', (List.filter (λ x, x <? r) (common t)). split; [done|]. split; [split; [|exact Hu]; split; [split; [exact A|destruct ok; [right; split; [by split|exact Ho]|left; exact D]]|exact Hc]|]. split; [exact C|]. cbn [src_rest unlimited_source].
      assert (ascending (common t)) as Ha by (apply asc_filter, st_sorted, H). split; [|split].
      * rewrite Ec. clear -Ha. induction Ha as [|a l Ha IH Hl]; [done|]. cbn. destruct (Z.ltb_spec a r), (Z.leb_spec r a); try lia; cbn; [by f_equal|]. rewrite filter_none; [cbn; f_equal; symmetry; apply filter_all|]; rewrite Forall_forall in Hl; intros x Hx; specialize (Hl x Hx); [apply Z.leb_le|apply Z.ltb_ge]; lia.
      * apply Forall_forall. intros x [_ Hx%Z.ltb_lt]%elem_filter. done.
      * intros ->. apply Forall_forall. intros x Hx. destruct (Z.ltb_spec x r) as [?|Hge]; [done|]. assert (x ∈ common t') as Hin by (rewrite Ec; apply elem_filter; split; [done|by apply Z.leb_le]). unfold common, st_rest in Hin. cbn in Hin. rewrite D in Hin. by apply not_elem_of_nil in Hin.
Defined.

(** ** The wrapper *)

Lemma wrapper_same b : ∀ fuel (s : S), src_inv s -> wrapper_filtered fuel b s = next_filtered fuel b s.
Proof.
  induction fuel as [|fuel IH]; intros s Hi; [done|]. cbn [wrapper_filtered next_filtered]. destruct (src_next s Hi) as (r & s' & E & Hi' & _). rewrite E. cbn [mbind option_bind]. destruct r as [[|x l]|]; [by destruct (it_block _ _ _ Hi E)| |done].
  destruct (filter_block (x :: l) b) as [[|y l']|]; [|done|done]. by apply IH.
Qed.

Definition wr_lim (t : RowidIterator_Wrapper_T S) : Z -> bool := match wr_tBoundaries t with None => λ _, true | Some b => in_limits b end.
Definition wr_rest (t : RowidIterator_Wrapper_T S) : list Z := List.filter (wr_lim t) (src_rest (wr_pIterator t)).

Lemma wrapper_next_ok t : src_inv (wr_pIterator t) -> ∃ r t', wrapper_next t = Some (r, t') /\ src_inv (wr_pIterator t') /\
  match r with None => wr_rest t = [] /\ wr_rest t' = [] /\ (work t' <= work t)%nat | Some l => l ≠ [] /\ wr_rest t = l ++ wr_rest t' /\ (length l + work t' <= work t)%nat end.
Proof.
  intros Hi. destruct t as [s [b|]]; unfold wrapper_next, wr_rest, wr_lim; cbn [wr_pIterator wr_tBoundaries] in *.
  - rewrite wrapper_same by done. destruct (next_filtered_ok b (Datatypes.S (work s)) s Hi ltac:(lia)) as (r & s' & -> & Hi' & Hr). cbn [mbind option_bind]. eexists _, _. split; [done|]. cbn [wr_pIterator wr_tBoundaries]. split; [done|]. destruct r; [done|]. destruct Hr as (E1 & E2 & Hw). rewrite E2. done.
  - destruct (src_next s Hi) as (r & s' & E & Hi' & Hr). rewrite E. cbn [mbind option_bind]. eexists _, _. split; [done|]. cbn [wr_pIterator wr_tBoundaries]. split; [done|]. rewrite !filter_all by done.
    destruct r as [l|]; [destruct (block_sorted s l s' Hi E) as (_ & ? & _ & ? & ?); done|]. destruct Hr. split; [done|]. split; [done|]. by apply (it_end s s').
Qed.

#[refine] Instance wrapper_source_ok : RowSourceOk (RowidIterator_Wrapper_T S) := {| src_inv t := src_inv (wr_pIterator t); src_rest := wr_rest |}.
Proof.
  intros t Hi. destruct (wrapper_next_ok t Hi) as (r & t' & E & Hi' & Hr). exists r, t'. split; [exact E|]. split; [done|]. destruct r as [l|]; [|by destruct Hr as (? & ? & _)]. destruct Hr as (Hl & Hr & Hw). split; [done|]. destruct l; [done|]. cbn [length] in Hw. lia.
Defined.

#[export, refine] Instance wrapper_iterator_ok : RowidIteratorOk (RowidIterator_Wrapper_T S) := {| it_source := wrapper_source_ok |}.
Proof.
  - intros t Hi. apply asc_filter, it_sorted, Hi.
  - intros t Hi. cbn [src_rest wrapper_source_ok work wrapper_iterator iterator_source]. pose proof (it_work (wr_pIterator t) Hi). pose proof (List.filter_length_le (wr_lim t) (src_rest (wr_pIterator t))). unfold wr_rest. lia.
  - intros t b t' Hi E. destruct (wrapper_next_ok t Hi) as (r & t1 & E1 & _ & Hr). change (GetNextRowIdBlock t) with (wrapper_next t) in E. rewrite E in E1. injection E1 as <- <-. by destruct Hr as (? & _ & ?).
  - intros t t' Hi E. destruct (wrapper_next_ok t Hi) as (r & t1 & E1 & _ & Hr). change (GetNextRowIdBlock t) with (wrapper_next t) in E. rewrite E in E1. injection E1 as <- <-. by destruct Hr as (_ & _ & ?).
  - intros r t Hi. cbn [HintRowID wrapper_iterator]. destruct (it_hint r (wr_pIterator t) Hi) as (ok & s' & d & -> & Hi' & Hw & Er & Hd & Hn). cbn [mbind option_bind]. exists ok, (Wrapper s' (wr_tBoundaries t)), (List.filter (wr_lim t) d).
    split; [done|]. split; [exact Hi'|]. split; [exact Hw|]. cbn [src_rest wrapper_source_ok]. split; [unfold wr_rest; rewrite Er; apply List.filter_app|]. assert (∀ l, Forall (λ x, x < r) l -> Forall (λ x, x < r) (List.filter (wr_lim t) l)) as K.
    { intros l Hl. rewrite Forall_forall in *. intros x [Hx _]%elem_filter. by apply Hl. }
    split; [by apply K|]. intros E. apply K, Hn, E.
Defined.

(** A new intersection. *)
Lemma new_intersect_ok pFirst dOthers : src_inv pFirst -> Forall src_inv dOthers -> ∃ t, new_intersect pFirst dOthers = Some t /\ unlimited t /\
  ∀ x, x ∈ common t <-> Forall (λ s, x ∈ src_rest s) (pFirst :: dOthers).
Proof.
  intros H1 H2. unfold new_intersect. destruct (warm_ok (new_state pFirst None) H1 eq_refl) as (ok & st & -> & A & B & C & D & E). cbn [mbind option_bind]. eexists. split; [done|].
  assert (∀ s, src_inv s -> other (new_state s None)) as Hn by (intros s Hs; split; [|done]; split; cbn; [done|done|done|apply asc_filter, it_sorted, Hs]). split.
  - split; [|done]. split; [|cbn; unfold INT_MAX; lia]. split; [done|]. cbn. destruct ok; [right; split; [by split|]|by left]. apply Forall_map. eapply Forall_impl; [exact H2|]. done.
  - intros x. assert (∀ s : S, to_come (new_state s None) = src_rest s) as Et by (intros s; apply filter_all; done). unfold common, inter. cbn [in_tFirst in_dOthers]. rewrite elem_filter, bool_decide_eq_true, B, Et, Forall_cons, map_map, Forall_map.
    assert (Forall ((λ O : list Z, x ∈ O) ∘ (λ s : S, st_rest (new_state s None))) dOthers <-> Forall (λ s, x ∈ src_rest s) dOthers) as ->; [|done]. apply Forall_iff. intros s. change (x ∈ to_come (new_state s None) <-> x ∈ src_rest s). by rewrite Et.
Qed.
End Iterators.

(** ** Scans of an iterator *)

Definition alive_keep (ctx : scan_ctx) (ix : scan_index) (i : Z) : bool := alive (si_tDeadRowMap ix) i && keep ctx i.

Lemma on_iterator_ok {S} `{HS : RowSource S} `{!RowSourceOk S} {T} `{ISphMatchSorter T} ctx ix (s : S) sorter iCutoff w tMeta :
  let docs := Z.of_nat (length (sc_rows ctx)) in
  dm_ok (si_tDeadRowMap ix) -> m_uRows (si_tDeadRowMap ix) = docs -> (∀ i, 0 <= i < docs -> is_Some (passing ctx i)) -> src_inv s -> Forall (λ i, 0 <= i < docs) (src_rest s) ->
  ∃ b sorter' w' tMeta', RunFullscanOnIterator ctx ix s sorter iCutoff w tMeta = Some (b, sorter', w', tMeta') /\
    pushed ctx (List.filter (alive_keep ctx ix) (src_rest s)) sorter sorter' (b = false \/ (iCutoff = -1 /\ calm w)).
Proof.
  cbv zeta. intros Hm Hd Hp Hi F. unfold RunFullscanOnIterator. assert (Forall (λ i, is_Some (passing ctx i)) (src_rest s)) as Fp by (eapply Forall_impl; [exact F|done]). destruct (m_bHaveDead (si_tDeadRowMap ix)) eqn:Ed.
  - destruct (run_ok ctx (RowIteratorAlive s (si_tDeadRowMap ix)) sorter iCutoff w tMeta) as (b & s' & w' & m' & -> & A & _).
    + split; [done|]. split; [done|]. cbn [ra_pIterator ra_tDeadRowMap]. by rewrite Hd.
    + apply Forall_forall. intros i [Hin _]%elem_filter. rewrite Forall_forall in Fp. by apply Fp.
    + cbn [src_rest alive_source_ok ra_pIterator ra_tDeadRowMap] in A. rewrite filter_both in A. eexists _, _, _, _. split; [done|]. exact A.
  - destruct (run_ok ctx s sorter iCutoff w tMeta Hi Fp) as (b & s' & w' & m' & -> & A & _). eexists _, _, _, _. split; [done|].
    assert (List.filter (alive_keep ctx ix) (src_rest s) = List.filter (keep ctx) (src_rest s)) as ->; [|exact A].
    apply List.filter_ext_in. intros i Hin%list_elem_of_In. rewrite Forall_forall in F. specialize (F i Hin). unfold alive_keep, alive. by rewrite (dm_have _ Hm Ed) by lia.
Qed.

(** [C35] A scan of the intersection of iterators, over any iterators that keep
    their promise: a new intersection has, in ascending order, exactly the rows
    that all its iterators have (limits are a matter of those iterators, as of
    [RowidIterator_Wrapper_T]); and a scan of it ends and pushes the alive ones that pass the filters, in order: all of them
    when it answers false or nothing can stop it, else a first part; with a cutoff
    on the intersection, those among its first [c] rows. *)
Theorem intersect_scan_correct {S} `{It : RowidIterator_i S} `{!RowidIteratorOk S} {T} `{ISphMatchSorter T} ctx ix (pFirst : S) dOthers sorter iCutoff w tMeta :
  let docs := Z.of_nat (length (sc_rows ctx)) in
  src_inv pFirst -> Forall src_inv dOthers -> Forall (λ i, 0 <= i < docs) (src_rest pFirst) -> dm_ok (si_tDeadRowMap ix) -> m_uRows (si_tDeadRowMap ix) = docs -> (∀ i, 0 <= i < docs -> is_Some (passing ctx i)) ->
  ∃ t l, new_intersect pFirst dOthers = Some t /\ ascending l /\ (∀ x, x ∈ l <-> Forall (λ s, x ∈ src_rest s) (pFirst :: dOthers)) /\
    ∀ c, 0 <= c <= INT_MAX -> ∃ b sorter' w' tMeta', RunFullscanOnIterator ctx ix (SetCutoff c t) sorter iCutoff w tMeta = Some (b, sorter', w', tMeta') /\
      pushed ctx (List.filter (alive_keep ctx ix) (if c =? INT_MAX then l else take (Z.to_nat c) l)) sorter sorter' (b = false \/ (iCutoff = -1 /\ calm w)).
Proof.
  cbv zeta. intros H1 H2 H3 H4 H5 H6. destruct (new_intersect_ok pFirst dOthers H1 H2) as (t & -> & [[Hp Hc] Hu] & G). exists t, (common t). split; [done|]. split; [apply asc_filter, st_sorted, Hp|]. split; [done|].
  intros c Hc'. assert (intersect_ok (SetCutoff c t)) as Hi by (split; [exact Hp|exact Hc']).
  assert (Forall (λ i, 0 <= i < Z.of_nat (length (sc_rows ctx))) (cut (SetCutoff c t))) as F.
  { apply Forall_forall. intros x Hx. assert (x ∈ common t) as Hin. { unfold cut in Hx. change (common (SetCutoff c t)) with (common t) in Hx. case_match; [done|]. apply list_elem_of_lookup in Hx as [k Hk]. apply lookup_take_Some in Hk as [Hk _]. by eapply list_elem_of_lookup_2. }
    apply G in Hin. apply Forall_cons in Hin as [Hin _]. rewrite Forall_forall in H3. by apply H3. }
  exact (on_iterator_ok (RowSourceOk0 := intersect_source_ok) ctx ix (SetCutoff c t) sorter iCutoff w tMeta H4 H5 H6 Hi F).
Qed.

(** ** An example: iterators over lists of blocks *)

Record block_list := BlockList { bl : list (list Z) }.

(** A hint skips the blocks that end before the row. *)
Fixpoint skip_blocks (r : Z) (l : list (list Z)) : list (list Z) :=
  match l with b :: l' => if forallb (λ x, x <? r) b then skip_blocks r l' else l | [] => [] end.

#[local] Instance block_list_iterator : RowidIterator_i block_list := {|
  iterator_source := {|
    GetNextRowIdBlock s := Some match bl s with b :: l => (Some b, BlockList l) | [] => (None, s) end;
    GetNumProcessed _ := 0;
    WasCutoffHit _ := false;
    work s := length (concat (bl s))
  |};
  HintRowID r s := let l := skip_blocks r (bl s) in Some (match l with [] => false | _ => true end, BlockList l)
|}.

Definition blocks_ok (s : block_list) : Prop := Forall (λ b, b ≠ []) (bl s) /\ ascending (concat (bl s)).

Lemma skip_blocks_ok r l : ∃ d, l = d ++ skip_blocks r l /\ Forall (λ x, x < r) (concat d).
Proof.
  induction l as [|b l IH]; [by exists []; split; [|constructor]|]. cbn. destruct (forallb _ b) eqn:E; [|exists []; split; [done|constructor]]. destruct IH as (d & Ed & F). exists (b :: d). split; [cbn; by f_equal|]. cbn. apply Forall_app. split; [|done].
  apply Forall_forall. intros x Hx. rewrite forallb_forall in E. by apply Z.ltb_lt, E, list_elem_of_In.
Qed.

#[local, refine] Instance block_list_source : RowSourceOk block_list := {| src_inv := blocks_ok; src_rest s := concat (bl s) |}.
Proof.
  intros [[|b l]] [H1 H2]; eexists _, _; (split; [reflexivity|]); [by repeat split|]. cbn in *. inversion H1; subst. split; [split; [done|]; by apply ascending_app in H2 as (_ & ? & _)|]. split; [done|]. rewrite length_app. destruct b; [done|]. cbn. lia.
Defined.

#[local, refine] Instance block_list_ok : RowidIteratorOk block_list := {| it_source := block_list_source |}.
Proof.
  - intros s [_ H]. exact H.
  - intros s _. done.
  - intros [[|b l]] b' s' [H _] [= <- <-]. inversion H; subst. split; [done|]. cbn. rewrite length_app. lia.
  - intros [[|b l]] s' _ [= <-]. done.
  - intros r s [H1 H2]. destruct (skip_blocks_ok r (bl s)) as (d & Ed & F). eexists _, _, (concat d). split; [reflexivity|]. cbn [src_inv src_rest block_list_source bl work block_list_iterator iterator_source] in *. unfold blocks_ok. cbn [bl]. rewrite Ed in H1, H2. rewrite concat_app in H2. apply Forall_app in H1 as [_ H1]. apply ascending_app in H2 as (_ & H2 & _).
    split; [done|]. split; [rewrite Ed at 2; rewrite concat_app, length_app; lia|]. split; [rewrite Ed at 1; by rewrite concat_app|]. split; [done|]. destruct (skip_blocks r (bl s)); [|done]. intros _. rewrite Ed. by rewrite app_nil_r.
Defined.

#[local] Existing Instance demo_sorter.

Definition demo_first : block_list := BlockList [[3; 9; 40]; [120; 130; 250]].
Definition demo_second : block_list := BlockList [[1; 3]; [8; 40; 41]; [60]; [100; 130; 131]; [250; 260]].

Lemma intersect_scan_witness : ∃ t b l w m, new_intersect demo_first [demo_second] = Some t /\
  RunFullscanOnIterator (demo_ctx None) demo_index (SetCutoff 3 t) [] (-1) (SearchNode.mkWorld None None) (QueryResultMeta None 0) = Some (b, l, w, m) /\ map mt_tRowID l = [3; 40; 130].
Proof.
  destruct (intersect_scan_correct (demo_ctx None) demo_index demo_first [demo_second] [] (-1) (SearchNode.mkWorld None None) (QueryResultMeta None 0)) as (t & l & E & Hs & Hl & G).
  - split; [repeat constructor; discriminate|]. cbn. repeat constructor; lia.
  - constructor; [|constructor]. split; [repeat constructor; discriminate|]. cbn. repeat constructor; lia.
  - cbn [demo_first src_rest it_source block_list_ok block_list_source bl concat app]. change (Z.of_nat (length (sc_rows (demo_ctx None)))) with 300. repeat constructor; lia.
  - apply demo_map_ok.
  - reflexivity.
  - intros i Hi. unfold passing, match_at. cbn [sc_rows demo_ctx]. change (Z.of_nat (length (sc_rows (demo_ctx None)))) with 300 in Hi. unfold demo_rows. rewrite list_lookup_fmap, lookup_seqZ_lt by lia. by eexists.
  - destruct (G 3 ltac:(unfold INT_MAX; lia)) as (b & s' & w' & m' & Er & (l1 & l2 & El & -> & All)). exists t, b, (pushes (demo_ctx None) l1 []), w', m'. split; [exact E|]. split; [exact Er|]. rewrite (All ltac:(right; done)), app_nil_r in El. rewrite <- El.
    assert (l = [3; 40; 130; 250]) as ->; [|vm_compute; reflexivity]. apply asc_unique; [exact Hs|repeat constructor; lia|]. intros x. rewrite Hl, Forall_cons, Forall_singleton.
    cbn [demo_first demo_second src_rest it_source block_list_ok block_list_source bl concat app]. rewrite !list_elem_of_In. cbn [In]. lia.
Defined.
End RowIterOk.
