(* ===== verification/Queue.v ===== *)
(** * The priority queue (src/src/std/queue_impl.h)

    [CSphQueue] is a binary heap of a fixed size with the least entry at its root.
    Its entries are pointers here: positions in a table [dData] of the values that
    [COMP::IsLess] compares. *)

From stdpp Require Import sorting.
From S2P Require Import Prelude BitVec Sort SortOk MatchQueue MatchQueueOk.
Import SortOk MatchQueue MatchQueueOk.

Module Queue.

(** [q_pData] are the first [m_iUsed] entries. *)
Record CSphQueue := Queue_ { q_pData : list Z; q_iSize : Z }.

Definition new_queue (iSize : Z) : CSphQueue := Queue_ [] iSize.
Definition Clear (q : CSphQueue) : CSphQueue := Queue_ [] (q_iSize q).
Definition GetLength (q : CSphQueue) : Z := Z.of_nat (length (q_pData q)).
Definition Root (q : CSphQueue) : option Z := q_pData q !! 0%nat.
Definition Last (q : CSphQueue) : option Z := last (q_pData q).

Section Queue.
Context {A : Type} `{!Inhabited A} (IsLess : A -> A -> bool).

(** The last entry becomes the root and is shifted down. *)
Definition Pop (dData : list A) (q : CSphQueue) : option CSphQueue :=
  match q_pData q with
  | [] => None
  | [_] => Some (Queue_ [] (q_iSize q))
  | _ :: l =>
      e ← last l;
      l ← sift_down IsLess (length l) dData (Z.of_nat (length l)) 0 (e :: removelast l);
      Some (Queue_ l (q_iSize q))
  end.

Definition Push (dData : list A) (tEntry : Z) (q : CSphQueue) : option (bool * CSphQueue) :=
  bReject ← (if GetLength q =? q_iSize q then r ← Root q; b ← icmp IsLess dData r tEntry; Some (Some b) else Some None);
  match bReject with
  | Some true => Some (false, q)
  | _ =>
      q ← (match bReject with None => Some q | Some _ => Pop dData q end);
      let l := q_pData q ++ [tEntry] in
      l ← sift_up IsLess (length l) dData (GetLength q) l;
      Some (true, Queue_ l (q_iSize q))
  end.
End Queue.

(** ** The least entry is at the root *)

Section Ok.
Context {A : Type} `{!Inhabited A} (IsLess : A -> A -> bool).
Hypothesis less_asym : ∀ x y, IsLess x y = true -> IsLess y x = false.
Hypothesis less_trans : ∀ x y z, le IsLess x y -> le IsLess y z -> le IsLess x z.

Definition heap_ok (d : list A) (q : CSphQueue) : Prop := rng d (q_pData q) /\ heap_but (cmp IsLess d) 0 0 (GetLength q - 1) (-1) (q_pData q).

Lemma root_least d q r e : heap_ok d q -> Root q = Some r -> e ∈ q_pData q -> IsLess (mt d e) (mt d r) = false.
Proof.
  intros [Hr Hh] Er He. apply list_elem_of_lookup in He as [k Ek]. pose proof (lookup_lt_Some _ _ _ Ek). pose proof (heap_root (cmp IsLess d) (cmp_asym IsLess less_asym d) (cmp_trans IsLess less_trans d) 0 (GetLength q - 1) (q_pData q) Hh (Z.of_nat k)) as G.
  unfold GetLength in G. specialize (G ltac:(lia)). rewrite !Z.add_0_l in G. unfold le, cmp, g in G. rewrite Nat2Z.id in G. rewrite (list_lookup_total_correct _ _ _ Ek) in G. change (Z.to_nat 0) with 0%nat in G. rewrite (list_lookup_total_correct _ _ _ Er) in G. exact G.
Qed.

(** The order of the table matters only at the entries of the queue. *)
Lemma heap_table d d' q : heap_ok d q -> length d = length d' -> (∀ i, i ∈ q_pData q -> mt d i = mt d' i) -> heap_ok d' q.
Proof.
  intros [Hr Hh] El Hm. split; [unfold rng in *; by rewrite <- El|]. intros k c Hk N Hc Hce. specialize (Hh k c Hk N Hc Hce). unfold GetLength in Hce. unfold le, cmp in *. assert (∀ j, 0 <= j < Z.of_nat (length (q_pData q)) -> g (q_pData q) j ∈ q_pData q) as G by (intros j Hj; apply (list_elem_of_lookup_2 _ (Z.to_nat j)), list_lookup_lookup_total_lt; lia).
  unfold child in Hc. rewrite <- !Hm by (apply G; lia). done.
Qed.

Lemma push_ok d e q : heap_ok d q -> 0 <= e < Z.of_nat (length d) -> GetLength q < q_iSize q -> ∃ q', Push IsLess d e q = Some (true, q') /\ heap_ok d q' /\ q_pData q' ≡ₚ e :: q_pData q /\ q_iSize q' = q_iSize q.
Proof.
  intros [Hr Hh] He Hs. unfold Push. rewrite (proj2 (Z.eqb_neq _ _)) by lia. cbn [mbind option_bind]. set (l := q_pData q ++ [e]). assert (length l = S (length (q_pData q))) as El by (unfold l; rewrite length_app; cbn; lia).
  assert (rng d l) as Hl by (apply Forall_app; split; [done|by constructor]).
  assert (∀ k, 0 <= k < GetLength q -> g l k = g (q_pData q) k) as Hg by (intros k Hk; unfold g, l; apply lookup_total_app_l; unfold GetLength in Hk; lia).
  destruct (sift_up_ok IsLess less_asym less_trans d (length l) (GetLength q) (GetLength q) l) as (l' & -> & P & H); [unfold GetLength; lia|unfold GetLength; lia|unfold GetLength; lia|done| | |].
  - intros k c Hk Hc Hce N. unfold child in Hc. unfold le. rewrite !Hg by lia. specialize (Hh k c Hk ltac:(lia) Hc ltac:(lia)). by rewrite !Z.add_0_l in Hh.
  - intros k c Hk Hc1 Hc2 Hce. unfold child in *. lia.
  - cbn [mbind option_bind]. eexists. split; [done|]. assert (l ≡ₚ l') as Pl by (symmetry; apply (pi_perm _ _ _ _ P)). split; [|split; [|done]]; cbn [q_pData].
    + split; cbn [q_pData]; [unfold rng; by rewrite <- Pl|]. unfold GetLength at 1. cbn [q_pData]. rewrite (pi_len _ _ _ _ P), El. replace (Z.of_nat (S (length (q_pData q))) - 1) with (GetLength q) by (unfold GetLength; lia). done.
    + rewrite <- Pl. unfold l. symmetry. apply Permutation_cons_append.
Qed.

Lemma pop_ok d q r : heap_ok d q -> Root q = Some r -> ∃ q', Pop IsLess d q = Some q' /\ heap_ok d q' /\ q_pData q ≡ₚ r :: q_pData q' /\ q_iSize q' = q_iSize q.
Proof.
  intros [Hr Hh] Er. unfold Pop, Root in *. destruct (q_pData q) as [|r' [|y l0]] eqn:Eq; [done| |]; injection Er as ->.
  - eexists. split; [done|]. split; [|done]. split; [constructor|]. intros k c Hk _ Hc Hce. unfold child in Hc. unfold GetLength in Hce. cbn in Hce. lia.
  - set (l := y :: l0) in *. destruct (last l) as [e|] eqn:El; [|by apply last_None in El]. apply last_Some in El as [li Eli]. rewrite Eli. cbn [mbind option_bind].
    assert (removelast (li ++ [e]) = li) as -> by apply removelast_last. rewrite length_app. cbn [length]. set (n := Z.of_nat (length li)).
    replace (Z.of_nat (length li + 1)) with (n + 1) by lia. assert (rng d (e :: li)) as Hl. { unfold rng in *. rewrite Eli in Hr. inversion Hr as [|? ? _ Hr']; subst. apply Forall_app in Hr' as [? He]. inversion He; subst. by constructor. }
    assert (∀ k, 1 <= k <= n -> g (e :: li) k = g (r :: l) k) as Hg.
    { intros k Hk. unfold g. replace (Z.to_nat k) with (S (Z.to_nat (k - 1))) by lia. rewrite Eli. cbn. symmetry. apply lookup_total_app_l. lia. }
    destruct (sift_down_ok IsLess less_asym less_trans d (length li + 1) n 0 (e :: li)) as (l' & -> & P & H); [lia|lia|lia|cbn; lia|done| | |].
    + intros k c Hk N Hc Hce. rewrite !Z.add_0_l. unfold child in Hc. unfold le. rewrite !Hg by lia. assert (GetLength q - 1 = n + 1) as Eg by (unfold GetLength; rewrite Eq, Eli; cbn; rewrite length_app; cbn; lia). rewrite Eg in Hh.
      specialize (Hh k c Hk ltac:(lia) Hc ltac:(lia)). by rewrite !Z.add_0_l in Hh.
    + intros k c Hk Hc1 Hc2 Hce. unfold child in *. lia.
    + cbn [mbind option_bind]. eexists. split; [done|]. assert (e :: li ≡ₚ l') as Pl by (symmetry; apply (pi_perm _ _ _ _ P)). split; [|split; [|done]]; cbn [q_pData].
      * split; cbn [q_pData]; [unfold rng; by rewrite <- Pl|]. unfold GetLength. cbn [q_pData]. rewrite (pi_len _ _ _ _ P). cbn [length]. replace (Z.of_nat (S (length li)) - 1) with n by lia. done.
      * rewrite <- Pl. constructor. symmetry. apply Permutation_cons_append.
Qed.
End Ok.
End Queue.
