(* ===== verification/RowUnion.v ===== *)
(** * The union of row iterators (src/src/secondaryindex.cpp)

    [RowidIterator_Union_T] merges its iterators with a queue ordered by the rows
    in front of them, and leaves out a row that was just returned. *)

From stdpp Require Import sorting.
From S2P Require Import Prelude SearchNode FullScan RowIter MatchQueue Queue.
Import FullScan RowIter Queue.

Module RowUnion.

Section Union.
Context {S : Type} {It : RowidIterator_i S}.

(** The queue holds the positions of the iterators. *)
Record RowidIterator_Union_T := Union { un_dIterators : list (IteratorState_T S); un_tMerge : CSphQueue; un_iRowsLeft : Z; m_tLastRowID : Z }.

(** What [IteratorState_T::IsLess] reads of the iterators. *)
Definition heads (d : list (IteratorState_T S)) : list Z := map (λ st, default 0 (row_at st)) d.

(** The states for which [f] answers yes are queued; [i] is the position of the
    next one. *)
Fixpoint queue_all (f : IteratorState_T S -> option (bool * IteratorState_T S)) (d : list (IteratorState_T S)) (n i : nat) (q : CSphQueue) : option (list (IteratorState_T S) * CSphQueue) :=
  match n with
  | O => Some (d, q)
  | Datatypes.S n' =>
      st ← d !! i;
      '(ok, st) ← f st;
      let d := <[i:=st]> d in
      if (ok : bool) then '(_, q) ← Push Z.ltb (heads d) (Z.of_nat i) q; queue_all f d n' (i + 1) q else queue_all f d n' (i + 1) q
  end.

Definition new_union (dIterators : list S) (pBoundaries : option RowIdBoundaries_t) : option RowidIterator_Union_T :=
  '(d, q) ← queue_all WarmupDocs (map (λ s, new_state s pBoundaries) dIterators) (length dIterators) 0 (new_queue (Z.of_nat (length dIterators)));
  Some (Union d q INT_MAX SearchNode.INVALID_ROWID).

(** [m_pRowID++] and, at the end of the block, the next block. *)
Definition advance_state (st : IteratorState_T S) : option (bool * IteratorState_T S) :=
  l ← is_pRows st;
  match l with
  | [] => None
  | _ :: (_ :: _) as l' => Some (true, set_rows (tl l) st)
  | _ :: [] => WarmupDocs (set_rows [] st)
  end.

(** The state, popped before, is queued again if it has rows. *)
Definition AdvanceQueue (i : Z) (d : list (IteratorState_T S)) (q : CSphQueue) : option (list (IteratorState_T S) * CSphQueue) :=
  st ← d !! Z.to_nat i;
  '(ok, st) ← advance_state st;
  let d := <[Z.to_nat i:=st]> d in
  if (ok : bool) then '(_, q) ← Push Z.ltb (heads d) i q; Some (d, q) else Some (d, q).

(** A row is collected unless it is the last one again. *)
Definition collect (tCur tLast : Z) (out : list Z) : list Z := if tCur =? tLast then out else tCur :: out.

(** The loop while there are several iterators; [n] is the room that is left. *)
Fixpoint merge_loop (fuel : nat) (n : nat) (d : list (IteratorState_T S)) (q : CSphQueue) (tLast : Z) : option (list Z * list (IteratorState_T S) * CSphQueue * Z) :=
  match fuel with
  | O => None
  | Datatypes.S fuel' =>
      if (0 <? n)%nat && (1 <? GetLength q) then
        i ← Root q;
        q ← Pop Z.ltb (heads d) q;
        st ← d !! Z.to_nat i;
        tCur ← row_at st;
        '(d, q) ← AdvanceQueue i d q;
        '(out, d, q, tLast') ← merge_loop fuel' (if tCur =? tLast then n else (n - 1)%nat) d q tCur;
        Some (collect tCur tLast out, d, q, tLast')
      else Some ([], d, q, tLast)
  end.

(** The inner loop over the rows of the only iterator: what is collected, the rows
    that are left, the room and the last row. *)
Fixpoint take_rows (n : nat) (l : list Z) (tLast : Z) : list Z * list Z * nat * Z :=
  match l with
  | x :: l' =>
      if (0 <? n)%nat then
        let '(out, rest, n', tLast') := take_rows (if x =? tLast then n else (n - 1)%nat) l' x in (collect x tLast out, rest, n', tLast')
      else ([], l, n, tLast)
  | [] => ([], [], n, tLast)
  end.

(** The loop over the blocks of the only iterator. *)
Fixpoint single_loop (fuel : nat) (n : nat) (st : IteratorState_T S) (tLast : Z) : option (list Z * IteratorState_T S * Z) :=
  match fuel with
  | O => None
  | Datatypes.S fuel' =>
      l ← is_pRows st;
      let '(out, rest, n, tLast) := take_rows n l tLast in
      match rest with
      | [] =>
          '(ok, st) ← WarmupDocs (set_rows [] st);
          if (ok : bool) then '(out', st, tLast) ← single_loop fuel' n st tLast; Some (out ++ out', st, tLast) else Some (out, st, tLast)
      | _ => Some (out, set_rows rest st, tLast)
      end
  end.

Definition total_work (d : list (IteratorState_T S)) : nat := sum_list_with state_work d.

(** The part for one iterator; [n] is the room that is left. *)
Definition last_rows (n : nat) (d : list (IteratorState_T S)) (q : CSphQueue) (tLast : Z) : option (list Z * list (IteratorState_T S) * CSphQueue * Z) :=
  if GetLength q =? 1 then
    i ← Root q;
    st ← d !! Z.to_nat i;
    '(out, st, tLast) ← single_loop (Datatypes.S (state_work st)) n st tLast;
    let d := <[Z.to_nat i:=st]> d in
    q ← (match is_pRows st with None => Pop Z.ltb (heads d) q | Some _ => Some q end);
    Some (out, d, q, tLast)
  else Some ([], d, q, tLast).

Definition union_next (t : RowidIterator_Union_T) : option (option (list Z) * RowidIterator_Union_T) :=
  let n := Z.to_nat (Z.min (SI_MAX_COLLECTED - 1) (un_iRowsLeft t)) in
  '(out, d, q, tLast) ← merge_loop (Datatypes.S (total_work (un_dIterators t))) n (un_dIterators t) (un_tMerge t) (m_tLastRowID t);
  '(out', d, q, tLast) ← last_rows (n - length out) d q tLast;
  let out := out ++ out' in
  let iRowsLeft := if un_iRowsLeft t =? INT_MAX then INT_MAX else un_iRowsLeft t - Z.of_nat (length out) in
  Some (ReturnIteratorResult out, Union d q iRowsLeft tLast).

(** [i.m_pRowID && i.RewindTo ( tRowID )] *)
Definition rewind_state (tRowID : Z) (st : IteratorState_T S) : option (bool * IteratorState_T S) :=
  match is_pRows st with None => Some (false, st) | Some _ => RewindTo tRowID st end.

Definition union_hint (tRowID : Z) (t : RowidIterator_Union_T) : option (bool * RowidIterator_Union_T) :=
  match Last (un_tMerge t) with
  | None => Some (false, t)
  | Some i =>
      st ← un_dIterators t !! Z.to_nat i;
      tRow ← row_at st;
      if tRowID <=? tRow then Some (true, t)
      else
        '(d, q) ← queue_all (rewind_state tRowID) (un_dIterators t) (length (un_dIterators t)) 0 (Clear (un_tMerge t));
        Some (0 <? GetLength q, Union d q (un_iRowsLeft t) (m_tLastRowID t))
  end.

Definition union_cutoff (iCutoff : Z) (t : RowidIterator_Union_T) : RowidIterator_Union_T := Union (un_dIterators t) (un_tMerge t) iCutoff (m_tLastRowID t).

#[export] Instance union_iterator : RowidIterator_i RowidIterator_Union_T := {|
  iterator_source := {|
    GetNextRowIdBlock := union_next;
    GetNumProcessed t := foldr (λ st n, GetNumProcessed (is_pIterator st) + n) 0 (un_dIterators t);
    WasCutoffHit t := un_iRowsLeft t =? 0;
    work t := total_work (un_dIterators t)
  |};
  HintRowID := union_hint
|}.
End Union.
Arguments RowidIterator_Union_T : clear implicits.
End RowUnion.
