(* ===== verification/RowUnionOk.v ===== *)
(** * The union of row iterators has the rows of all of them, once each *)

From stdpp Require Import sorting.
From S2P Require Import Prelude Hits BitVec Sort SortOk MatchQueue MatchQueueOk SearchNode Ranker DeadMap FullScan FullScanOk RowIter RowIterOk Queue RowUnion.
Import DeadMap Ranker MatchQueueOk FullScan FullScanOk RowIter RowIterOk Queue RowUnion.

Module RowUnionOk.

Lemma lt_asym x y : (x <? y) = true -> (y <? x) = false.
Proof. rewrite Z.ltb_lt, Z.ltb_ge. lia. Qed.
Lemma lt_trans x y z : SortOk.le Z.ltb x y -> SortOk.le Z.ltb y z -> SortOk.le Z.ltb x z.
Proof. unfold SortOk.le. rewrite !Z.ltb_ge. lia. Qed.

(** The numbers of a list in ascending order, once each. *)
Definition sorted_set (l : list Z) : list Z := merge_sort Z.le (remove_dups l).

Lemma sorted_set_elem l x : x ∈ sorted_set l <-> x ∈ l.
Proof. unfold sorted_set. rewrite merge_sort_Permutation. apply elem_of_remove_dups. Qed.

Lemma sorted_set_asc l : ascending (sorted_set l).
Proof.
  assert (NoDup (sorted_set l)) as N by (unfold sorted_set; rewrite merge_sort_Permutation; apply NoDup_remove_dups). assert (StronglySorted Z.le (sorted_set l)) as S by (apply StronglySorted_merge_sort; [intros x y z; lia|typeclasses eauto]).
  induction S as [|a l' S IH F]; [constructor|]. inversion N as [|? ? N1 N2]; subst. constructor; [by apply IH|]. rewrite Forall_forall in *. intros x Hx. specialize (F x Hx). destruct (decide (a = x)) as [->|]; [done|lia].
Qed.

Section Union.
Context {S : Type} `{It : RowidIterator_i S} `{!RowidIteratorOk S}.
Abbreviation state := (IteratorState_T S).

(** ** The rows of the iterators *)

Definition row_in (d : list state) (x : Z) : Prop := ∃ st, st ∈ d /\ x ∈ st_rest st.

(** The rows to come after the row [tLast]. *)
Definition union_rows (d : list state) (tLast : Z) : list Z := sorted_set (List.filter (λ x, negb (x =? tLast)) (concat (map st_rest d))).

Lemma elem_concat (d : list state) x : x ∈ concat (map st_rest d) <-> row_in d x.
Proof.
  unfold row_in. induction d as [|st d IH]; cbn; [split; [intros H; by apply not_elem_of_nil in H|intros (st & H & _); by apply not_elem_of_nil in H]|]. rewrite elem_of_app, IH. split.
  - intros [H|(s & H1 & H2)]; [exists st; split; [by left|done]|exists s; split; [by right|done]].
  - intros (s & [->|H1]%elem_of_cons & H2); [by left|right; by exists s].
Qed.

Lemma union_elem (d : list state) tLast x : x ∈ union_rows d tLast <-> x ≠ tLast /\ row_in d x.
Proof. unfold union_rows. rewrite sorted_set_elem, elem_filter, elem_concat, negb_true_iff, Z.eqb_neq. tauto. Qed.

Lemma union_is (d : list state) tLast l : ascending l -> (∀ x, x ∈ l <-> x ≠ tLast /\ row_in d x) -> union_rows d tLast = l.
Proof. intros H E. apply asc_unique; [apply sorted_set_asc|done|]. intros x. by rewrite union_elem, E. Qed.

Lemma row_in_insert (d : list state) i st st' x : d !! i = Some st -> row_in (<[i:=st']> d) x <-> x ∈ st_rest st' \/ ∃ j s, j ≠ i /\ d !! j = Some s /\ x ∈ st_rest s.
Proof.
  intros E. pose proof (lookup_lt_Some _ _ _ E). unfold row_in. split.
  - intros (s & [j Ej]%list_elem_of_lookup & Hx). destruct (decide (i = j)) as [<-|N]; [rewrite list_lookup_insert_eq in Ej by done; injection Ej as <-; by left|]. rewrite list_lookup_insert_ne in Ej by done. right. by exists j, s.
  - intros [Hx|(j & s & N & Ej & Hx)]; [exists st'; split; [|done]; eapply list_elem_of_lookup_2; by apply list_lookup_insert_eq|]. exists s. split; [|done]. eapply list_elem_of_lookup_2. by rewrite list_lookup_insert_ne.
Qed.

Lemma row_in_split (d : list state) i st x : d !! i = Some st -> row_in d x <-> x ∈ st_rest st \/ ∃ j s, j ≠ i /\ d !! j = Some s /\ x ∈ st_rest s.
Proof. intros E. rewrite <- (row_in_insert d i st st x E). by rewrite list_insert_id. Qed.

(** ** The queue *)

Definition ready_at (d : list state) (i : Z) : Prop := 0 <= i /\ ∃ st, d !! Z.to_nat i = Some st /\ ready st.

(** The queue holds the positions with rows for which [P]. *)
Record queued (d : list state) (q : CSphQueue) (P : Z -> Prop) : Prop := {
  qu_heap : heap_ok Z.ltb (heads d) q;
  qu_nodup : NoDup (q_pData q);
  qu_size : q_iSize q = Z.of_nat (length d);
  qu_elem : ∀ i, i ∈ q_pData q <-> P i /\ ready_at d i
}.

Lemma heads_length (d : list state) : length (heads d) = length d.
Proof. apply length_map. Qed.

Lemma head_at (d : list state) i st x : 0 <= i -> d !! Z.to_nat i = Some st -> row_at st = Some x -> mt (heads d) i = x.
Proof. intros Hi E Hx. unfold mt. apply list_lookup_total_correct. unfold heads. change (map ?f d) with (f <$> d). rewrite list_lookup_fmap, E. cbn. by rewrite Hx. Qed.

Lemma queued_iff (d : list state) q P Q : (∀ i, ready_at d i -> P i <-> Q i) -> queued d q P -> queued d q Q.
Proof. intros H [A B C D]. split; [done..|]. intros i. rewrite D. split; intros [H1 H2]; (split; [by apply H|done]). Qed.

(** A state outside the queue may change. *)
Lemma queued_set (d : list state) q P j st : queued d q P -> ¬ P (Z.of_nat j) -> queued (<[j:=st]> d) q P.
Proof.
  intros [A B C D] Hj. split; [|done|by rewrite length_insert|].
  - apply (heap_table _ (heads d)); [done|by rewrite !heads_length, length_insert|]. intros i Hi. apply D in Hi as (Hp & Hi & st' & E & _). assert (Z.to_nat i ≠ j) as N by (intros <-; rewrite Z2Nat.id in Hj by done; done).
    unfold mt, heads. change (map ?f ?l) with (f <$> l). rewrite !list_lookup_total_alt, !list_lookup_fmap. by rewrite list_lookup_insert_ne.
  - intros i. rewrite D. assert (P i -> ready_at d i <-> ready_at (<[j:=st]> d) i) as K.
    { intros Hp. unfold ready_at. destruct (decide (0 <= i)); [|tauto]. rewrite list_lookup_insert_ne; [done|]. intros ->. rewrite Z2Nat.id in Hj by done. done. }
    split; intros [H1 H2]; (split; [done|by apply K]).
Qed.

Lemma queued_push (d : list state) q P j st : queued d q P -> d !! j = Some st -> ready st -> ¬ P (Z.of_nat j) -> ∃ q', Push Z.ltb (heads d) (Z.of_nat j) q = Some (true, q') /\ queued d q' (λ i, P i \/ i = Z.of_nat j).
Proof.
  intros [A B C D] E Hr Hj. pose proof (lookup_lt_Some _ _ _ E) as Hl. assert (Z.of_nat j ∉ q_pData q) as Nj by (intros [? _]%D; done). assert (Forall (λ i, 0 <= i < Z.of_nat (length d)) (Z.of_nat j :: q_pData q)) as F.
  { constructor; [lia|]. apply Forall_forall. intros i Hi. apply D in Hi as (_ & H0 & s & Es & _). apply lookup_lt_Some in Es. lia. }
  assert (length (Z.of_nat j :: q_pData q) <= length (seqZ 0 (Z.of_nat (length d))))%nat as Hlen.
  { apply submseteq_length, NoDup_submseteq; [by constructor|]. intros i Hi. apply elem_of_seqZ. rewrite Forall_forall in F. specialize (F i Hi). lia. }
  rewrite length_seqZ in Hlen. cbn in Hlen. destruct (push_ok Z.ltb lt_asym lt_trans (heads d) (Z.of_nat j) q A) as (q' & -> & H1 & H2 & H3); [rewrite heads_length; lia|unfold GetLength; lia|].
  eexists. split; [done|]. split; [done|rewrite H2; by constructor|by rewrite H3|]. intros i. rewrite H2, elem_of_cons, D. split.
  - intros [->|[? ?]]; [split; [by right|]; split; [lia|]; rewrite Nat2Z.id; by exists st|split; [by left|done]].
  - intros [[?| ->] ?]; [by right|by left].
Qed.

Lemma queued_skip (d : list state) q P j : queued d q P -> ¬ ready_at d (Z.of_nat j) -> queued d q (λ i, P i \/ i = Z.of_nat j).
Proof. intros H N. eapply queued_iff; [|exact H]. intros i Hi. split; [by left|]. intros [?| ->]; [done|by destruct N]. Qed.

Lemma queued_pop (d : list state) q P r : queued d q P -> Root q = Some r -> ∃ q', Pop Z.ltb (heads d) q = Some q' /\ queued d q' (λ i, P i /\ i ≠ r).
Proof.
  intros [A B C D] Er. destruct (pop_ok Z.ltb lt_asym lt_trans (heads d) q r A Er) as (q' & -> & H1 & H2 & H3). eexists. split; [done|]. rewrite H2 in B. apply NoDup_cons in B as [B1 B2]. split; [done|done|congruence|].
  intros i. assert (i ∈ q_pData q <-> i = r \/ i ∈ q_pData q') as Ei by (rewrite H2; apply elem_of_cons). rewrite D in Ei. split.
  - intros Hi. assert (i ≠ r) by (intros ->; done). tauto.
  - intros [[H4 H5] H6]. tauto.
Qed.

Lemma queued_root (d : list state) q P r : queued d q P -> Root q = Some r -> P r /\ 0 <= r /\ ∃ st x, d !! Z.to_nat r = Some st /\ ready st /\ row_at st = Some x /\
  ∀ i s, P (Z.of_nat i) -> d !! i = Some s -> ready s -> ∀ y, y ∈ st_rest s -> x <= y.
Proof.
  intros [A B C D] Er. assert (r ∈ q_pData q) as Hin by (eapply list_elem_of_lookup_2; exact Er). apply D in Hin as (Hp & H0 & st & E & Hr). split; [done|]. split; [done|]. destruct (ready_rows st Hr) as (x & l & _ & Ex & _). exists st, x. split; [done|]. split; [done|]. split; [done|].
  intros i s Hi Es Hs y Hy. destruct (ready_rows s Hs) as (z & lz & _ & Ez & _). pose proof (ready_bounds s z Hs Ez y Hy). assert (Z.of_nat i ∈ q_pData q) as Hq by (apply D; split; [done|]; split; [lia|]; rewrite Nat2Z.id; by exists s).
  pose proof (root_least Z.ltb lt_asym lt_trans (heads d) q r _ A Er Hq) as G. rewrite (head_at d r st x), (head_at d (Z.of_nat i) s z) in G by (done || lia || by rewrite Nat2Z.id). apply Z.ltb_ge in G. lia.
Qed.

(** ** The loops *)

Definition bounded (d : list state) (tLast : Z) : Prop := ∀ x, row_in d x -> x ≠ SearchNode.INVALID_ROWID /\ (tLast = SearchNode.INVALID_ROWID \/ tLast <= x).

Record un_inv (d : list state) (q : CSphQueue) (tLast : Z) : Prop := {
  ui_queue : queued d q (λ _, True);
  ui_states : ∀ i st, d !! i = Some st -> ready st \/ (st_ok st /\ m_bStopped st = true);
  ui_bound : bounded d tLast
}.

Lemma stopped_rest (st : state) : m_bStopped st = true -> st_rest st = [].
Proof. unfold st_rest. by intros ->. Qed.

(** The least row is taken from one of its iterators. *)
Lemma consume (d : list state) i st st' c r tLast : d !! i = Some st -> st_rest st = c :: r -> st_rest st' = r -> ascending (c :: r) -> (∀ x, row_in d x -> c <= x) -> bounded d tLast ->
  union_rows d tLast = collect c tLast (union_rows (<[i:=st']> d) c) /\ bounded (<[i:=st']> d) c.
Proof.
  intros E Er Er' Ha Hmin Hb. assert (∀ x, row_in d x <-> x = c \/ row_in (<[i:=st']> d) x) as K.
  { intros x. rewrite (row_in_split d i st x E), (row_in_insert d i st st' x E), Er, Er', elem_of_cons. tauto. }
  assert (row_in d c) as Hc by (apply K; by left). destruct (Hb c Hc) as [Nc Bc]. split.
  - unfold collect. destruct (Z.eqb_spec c tLast) as [<-|N].
    + apply union_is; [apply sorted_set_asc|]. intros x. rewrite union_elem, K. tauto.
    + apply union_is.
      * constructor; [apply sorted_set_asc|]. apply Forall_forall. intros x [Nx Hx]%union_elem. assert (c <= x) by (apply Hmin, K; by right). lia.
      * intros x. rewrite elem_of_cons, union_elem, K. split; [|destruct (decide (x = c)); tauto]. intros [->|[Nx Hx]]; [split; [done|by left]|]. split; [|by right]. assert (row_in d x) as Hx' by (apply K; by right). destruct (Hb x Hx') as [Ni _]. specialize (Hmin x Hx'). intros ->. destruct Bc as [?|?]; [done|lia].
  - intros x Hx. assert (row_in d x) as Hx' by (apply K; by right). destruct (Hb x Hx') as [Ni _]. split; [done|]. right. by apply Hmin.
Qed.

Lemma advance_state_ok (st : state) c : ready st -> row_at st = Some c -> ∃ ok st' r, advance_state st = Some (ok, st') /\ st_rest st = c :: r /\ st_rest st' = r /\ (Datatypes.S (state_work st') <= state_work st)%nat /\
  (if (ok : bool) then ready st' else st_ok st' /\ m_bStopped st' = true).
Proof.
  intros Hr Hc. destruct (ready_rows st Hr) as (x & l & E & Ex & Er). assert (x = c) as -> by congruence. unfold advance_state. rewrite E. cbn [mbind option_bind]. assert (state_work st = Datatypes.S (length l) + work (is_pIterator st))%nat as Ew by (unfold state_work; by rewrite E). destruct l as [|y l].
  - destruct (warm_ok (set_rows [] st)) as (ok & st' & -> & A & B & _ & D & F); [apply Hr|apply Hr|]. exists ok, st', (to_come st). split; [done|]. split; [exact Er|]. split; [exact B|]. cbn [set_rows is_pIterator length] in *. split; [lia|]. destruct ok; [|done]. split; [done|]. by destruct F.
  - destruct (state_tail_ok st c y l Hr E) as [R1 R2]. eexists _, _, _. split; [done|]. split; [exact Er|]. split; [exact R2|]. split; [|exact R1]. unfold state_work at 1. cbn [tl set_rows is_pRows is_pIterator default from_option id length] in *. lia.
Qed.

Lemma total_set (d : list state) i st st' : d !! i = Some st -> (total_work (<[i:=st']> d) + state_work st = total_work d + state_work st')%nat.
Proof.
  intros E. pose proof (lookup_lt_Some _ _ _ E). rewrite insert_take_drop by done. unfold total_work. rewrite sum_list_with_app. cbn. rewrite <- (take_drop_middle d i st E) at 3. rewrite sum_list_with_app. cbn. lia.
Qed.

Lemma AdvanceQueue_ok (d : list state) q r st c : queued d q (λ i, i ≠ r) -> 0 <= r -> d !! Z.to_nat r = Some st -> ready st -> row_at st = Some c ->
  ∃ st' rest q', AdvanceQueue r d q = Some (<[Z.to_nat r:=st']> d, q') /\ st_rest st = c :: rest /\ st_rest st' = rest /\ queued (<[Z.to_nat r:=st']> d) q' (λ _, True) /\ (Datatypes.S (state_work st') <= state_work st)%nat /\ (ready st' \/ (st_ok st' /\ m_bStopped st' = true)).
Proof.
  intros Hq Hr0 E Hr Hc. destruct (Z_of_nat_complete r Hr0) as [j ->]. rewrite Nat2Z.id in *. unfold AdvanceQueue. rewrite Nat2Z.id, E. cbn [mbind option_bind]. destruct (advance_state_ok st c Hr Hc) as (ok & st' & rest & -> & E1 & E2 & Hw & Hok). cbn [mbind option_bind].
  assert (queued (<[j:=st']> d) q (λ i, i ≠ Z.of_nat j)) as Hq' by (apply queued_set; [done|by intros ?]). assert (<[j:=st']> d !! j = Some st') as Ej by (apply list_lookup_insert_eq; by eapply lookup_lt_Some). destruct ok.
  - destruct (queued_push _ _ _ _ _ Hq' Ej Hok) as (q' & -> & Hq2); [by intros ?|]. cbn [mbind option_bind]. exists st', rest, q'. split; [done|]. split; [done|]. split; [done|]. split; [|split; [done|by left]]. eapply queued_iff; [|exact Hq2]. intros i _. cbn. split; [done|]. intros _. destruct (decide (i = Z.of_nat j)); [by right|by left].
  - exists st', rest, q. split; [done|]. split; [done|]. split; [done|]. split; [|split; [done|by right]]. eapply queued_iff; [|apply (queued_skip _ _ _ j Hq')].
    + intros i _. cbn. split; [done|]. intros _. destruct (decide (i = Z.of_nat j)); [by right|by left].
    + intros (_ & s & Es & (_ & Hs & _)). rewrite Nat2Z.id, Ej in Es. injection Es as <-. destruct Hok. congruence.
Qed.

Lemma merge_loop_ok : ∀ fuel n (d : list state) q tLast, un_inv d q tLast -> (total_work d < fuel)%nat -> ∃ out d' q' tLast', merge_loop fuel n d q tLast = Some (out, d', q', tLast') /\ un_inv d' q' tLast' /\
  union_rows d tLast = out ++ union_rows d' tLast' /\ (length out <= n)%nat /\ ((length out < n)%nat -> GetLength q' <= 1) /\ (length out + total_work d' <= total_work d)%nat /\ length d' = length d.
Proof.
  induction fuel as [|fuel IH]; intros n d q tLast [Hq Hst Hb] Hf; [lia|]. cbn [merge_loop]. destruct ((0 <? n)%nat && (1 <? GetLength q)) eqn:Ec.
  2: { exists [], d, q, tLast. split; [done|]. split; [done|]. split; [done|]. split; [cbn; lia|]. split; [|split; [cbn; lia|done]]. intros Hn. apply andb_false_iff in Ec as [Ec%Nat.ltb_ge|Ec%Z.ltb_ge]; [cbn in Hn; lia|done]. }
  apply andb_true_iff in Ec as [Hn%Nat.ltb_lt Hl%Z.ltb_lt]. destruct (Root q) as [r|] eqn:Er; [|unfold Root in Er; apply lookup_ge_None in Er; unfold GetLength in Hl; lia]. cbn [mbind option_bind].
  destruct (queued_root d q _ r Hq Er) as (_ & Hr0 & st & c & Est & Hr & Hc & Hmin). destruct (queued_pop d q _ r Hq Er) as (q1 & -> & Hq1). cbn [mbind option_bind]. rewrite Est. cbn [mbind option_bind]. rewrite Hc. cbn [mbind option_bind].
  destruct (AdvanceQueue_ok d q1 r st c) as (st' & rest & q2 & -> & E1 & E2 & Hq2 & Hw & Hst'); [eapply queued_iff; [|exact Hq1]; intros; cbn; tauto|done..|]. cbn [mbind option_bind].
  assert (∀ x, row_in d x -> c <= x) as Hle.
  { intros x (s & [i Ei]%list_elem_of_lookup & Hx). destruct (Hst i s Ei) as [Hs|[_ Hs]]; [by apply (Hmin i s)|]. rewrite stopped_rest in Hx by done. by apply not_elem_of_nil in Hx. }
  destruct (consume d (Z.to_nat r) st st' c rest tLast Est E1 E2) as [U B]; [rewrite <- E1; apply st_sorted, Hr|done|done|]. set (d1 := <[Z.to_nat r:=st']> d) in *. pose proof (total_set d _ st st' Est) as Tw. fold d1 in Tw.
  assert (un_inv d1 q2 c) as I1.
  { split; [done| |done]. intros i s Ei. destruct (decide (Z.to_nat r = i)) as [<-|N]; [unfold d1 in Ei; rewrite list_lookup_insert_eq in Ei by (by eapply lookup_lt_Some); by injection Ei as <-|]. unfold d1 in Ei. rewrite list_lookup_insert_ne in Ei by done. by apply (Hst i). }
  set (n1 := if c =? tLast then n else (n - 1)%nat). destruct (IH n1 d1 q2 c I1 ltac:(lia)) as (out & d' & q' & tL' & -> & I2 & U2 & L2 & G2 & W2 & Ld). cbn [mbind option_bind]. exists (collect c tLast out), d', q', tL'. split; [done|]. split; [done|].
  rewrite U, U2. unfold d1 in Ld. rewrite length_insert in Ld. unfold collect, n1 in *. destruct (c =? tLast); [split; [done|]; split; [done|]; split; [done|]; split; [lia|done]|]. cbn [app length]. split; [done|]. split; [lia|]. split; [intros; apply G2; lia|]. split; [lia|done].
Qed.

(** ** The only iterator *)

Definition fresh (R : list Z) (tLast : Z) : list Z := List.filter (λ x, negb (x =? tLast)) R.
Definition above (R : list Z) (tLast : Z) : Prop := ∀ x, x ∈ R -> x ≠ SearchNode.INVALID_ROWID /\ (tLast = SearchNode.INVALID_ROWID \/ tLast <= x).

Lemma fresh_step c R tLast : ascending (c :: R) -> above (c :: R) tLast -> fresh (c :: R) tLast = collect c tLast (fresh R c) /\ above R c.
Proof.
  intros H B. inversion H as [|? ? Ha Hl]; subst. rewrite Forall_forall in Hl. destruct (B c) as [Nc Bc]; [by left|]. split.
  - unfold fresh, collect. cbn. destruct (Z.eqb_spec c tLast) as [->|N]; [done|]. cbn. f_equal. apply List.filter_ext_in. intros x Hx%list_elem_of_In. specialize (Hl x Hx). destruct (B x) as [Nx _]; [by right|]. destruct (Z.eqb_spec x tLast), (Z.eqb_spec x c); try done; [|lia]. destruct Bc; [congruence|lia].
  - intros x Hx. specialize (Hl x Hx). destruct (B x) as [Nx _]; [by right|]. split; [done|right; lia].
Qed.

Lemma take_rows_ok r : ∀ l n tLast, ascending (l ++ r) -> above (l ++ r) tLast -> ∃ out rest n' tLast', take_rows n l tLast = (out, rest, n', tLast') /\ fresh (l ++ r) tLast = out ++ fresh (rest ++ r) tLast' /\ ascending (rest ++ r) /\ above (rest ++ r) tLast' /\
  (length out + n' = n)%nat /\ (rest = [] \/ n' = 0%nat) /\ (length out + length rest <= length l)%nat.
Proof.
  induction l as [|x l IH]; intros n tLast Ha Hb; cbn [take_rows]; [exists [], [], n, tLast; do 5 (split; [done|]); split; [by left|done]|]. destruct (Nat.ltb_spec 0 n) as [Hn|Hn]; [|exists [], (x :: l), n, tLast; do 5 (split; [done|]); split; [right; lia|done]]. cbn [app] in *.
  destruct (fresh_step x (l ++ r) tLast Ha Hb) as [Hf Hb']. inversion Ha as [|? ? Ha' _]; subst. set (n1 := if x =? tLast then n else (n - 1)%nat). destruct (IH n1 x Ha' Hb') as (out & rest & n' & tL & -> & A & B & C & D & E & F). exists (collect x tLast out), rest, n', tL. split; [done|]. rewrite Hf, A. unfold collect, n1 in *.
  destruct (x =? tLast); (split; [done|]; split; [done|]; split; [done|]; cbn [length]; split; [lia|]; split; [done|lia]).
Qed.

Lemma single_loop_ok : ∀ fuel n (st : state) tLast, ready st -> above (st_rest st) tLast -> (state_work st < fuel)%nat -> ∃ out st' tLast', single_loop fuel n st tLast = Some (out, st', tLast') /\ (ready st' \/ (st_ok st' /\ m_bStopped st' = true)) /\
  fresh (st_rest st) tLast = out ++ fresh (st_rest st') tLast' /\ above (st_rest st') tLast' /\ (length out <= n)%nat /\ ((length out < n)%nat -> st_rest st' = []) /\ (length out + state_work st' <= state_work st)%nat.
Proof.
  induction fuel as [|fuel IH]; intros n st tLast Hr Hb Hf; [lia|]. destruct (ready_rows st Hr) as (x & l & E & _ & Er). assert (st_rest st = (x :: l) ++ to_come st) as Er' by exact Er. assert (state_work st = length (x :: l) + work (is_pIterator st))%nat as Ew by (unfold state_work; by rewrite E). cbn [single_loop]. rewrite E. cbn [mbind option_bind].
  pose proof (st_sorted st (proj1 Hr)) as Ha. rewrite Er' in Ha, Hb |- *. destruct (take_rows_ok (to_come st) (x :: l) n tLast Ha Hb) as (out & rest & n' & tL & -> & A & B & C & D & F & G). destruct rest as [|y rest].
  - destruct (warm_ok (set_rows [] st)) as (ok & st' & -> & W1 & W2 & _ & W4 & W5); [apply Hr|apply Hr|]. cbn [mbind option_bind set_rows is_pIterator] in *. change (to_come (set_rows [] st)) with (to_come st) in W2. cbn [app] in *. rewrite <- W2 in B, C. destruct ok.
    + destruct (IH n' st' tL) as (out2 & st2 & tL2 & -> & I1 & I2 & I3 & I4 & I5 & I6); [split; [done|]; by destruct W5|done|cbn in Ew; lia|]. cbn [mbind option_bind]. exists (out ++ out2), st2, tL2. split; [done|]. split; [done|]. rewrite A, <- W2, I2, app_assoc, length_app. split; [done|]. split; [done|]. split; [lia|]. split; [intros; apply I5; lia|]. cbn in *. lia.
    + exists out, st', tL. split; [done|]. split; [by right|]. split; [by rewrite A, W2|]. split; [done|]. split; [lia|]. split; [|cbn in *; lia]. intros _. by apply stopped_rest.
  - assert (ready (set_rows (y :: rest) st)) as Hr'. { destruct Hr as (H1 & H2 & H3). split; [|split; [done|by eexists]]. split; [apply H1|cbn; by rewrite H2|done|exact B]. }
    assert (st_rest (set_rows (y :: rest) st) = (y :: rest) ++ to_come st) as Es by (unfold st_rest; cbn; by rewrite (proj1 (proj2 Hr))). eexists _, _, _. split; [done|]. split; [by left|]. rewrite Es. split; [done|]. split; [done|]. split; [lia|]. destruct F as [F|F]; [done|]. split; [intros; lia|].
    rewrite Ew. unfold state_work. cbn [set_rows is_pRows is_pIterator default from_option id]. lia.
Qed.

Lemma only_rows (d : list state) st tLast : ready st -> (∀ x, row_in d x <-> x ∈ st_rest st) -> union_rows d tLast = fresh (st_rest st) tLast.
Proof. intros Hr K. apply union_is; [apply asc_filter, st_sorted, Hr|]. intros x. rewrite K. unfold fresh. rewrite elem_filter, negb_true_iff, Z.eqb_neq. tauto. Qed.

Lemma one_queued (d : list state) q r st : queued d q (λ _, True) -> (∀ i st, d !! i = Some st -> ready st \/ (st_ok st /\ m_bStopped st = true)) -> q_pData q = [r] -> d !! Z.to_nat r = Some st -> ∀ j s, j ≠ Z.to_nat r -> d !! j = Some s -> st_rest s = [].
Proof.
  intros [_ _ _ D] Hst Eq E j s N Ej. destruct (Hst j s Ej) as [Hr|[_ Hs]]; [|by apply stopped_rest]. exfalso. assert (Z.of_nat j ∈ q_pData q) as Hin by (apply D; split; [done|]; split; [lia|]; rewrite Nat2Z.id; by exists s). rewrite Eq, list_elem_of_singleton in Hin. lia.
Qed.

Lemma one_heap (d : list Z) r sz : 0 <= r < Z.of_nat (length d) -> heap_ok Z.ltb d (Queue_ [r] sz).
Proof. intros H. split; [by apply Forall_singleton|]. intros k c Hk _ Hc Hle. unfold GetLength in Hle. cbn in Hle. unfold SortOk.child in Hc. lia. Qed.

Lemma no_rows (d : list state) tLast : (∀ j s, d !! j = Some s -> st_rest s = []) -> union_rows d tLast = [].
Proof. intros H. apply union_is; [constructor|]. intros x. split; [by intros ?%not_elem_of_nil|]. intros (_ & s & [j Ej]%list_elem_of_lookup & Hx). rewrite (H j s Ej) in Hx. by apply not_elem_of_nil in Hx. Qed.

Lemma last_rows_ok n (d : list state) q tLast : un_inv d q tLast -> ∃ out d' q' tLast', last_rows n d q tLast = Some (out, d', q', tLast') /\ un_inv d' q' tLast' /\ union_rows d tLast = out ++ union_rows d' tLast' /\ (length out <= n)%nat /\
  (GetLength q <= 1 -> (length out < n)%nat -> union_rows d' tLast' = []) /\ (length out + total_work d' <= total_work d)%nat.
Proof.
  intros [Hq Hst Hb]. unfold last_rows. destruct (Z.eqb_spec (GetLength q) 1) as [E1|N1].
  2: { exists [], d, q, tLast. split; [done|]. split; [done|]. split; [done|]. split; [cbn; lia|]. split; [|cbn; lia]. intros Hle _. apply no_rows. intros j s Ej. destruct (Hst j s Ej) as [Hr|[_ Hs]]; [|by apply stopped_rest]. exfalso. assert (Z.of_nat j ∈ q_pData q) as Hin by (apply Hq; split; [done|]; split; [lia|]; rewrite Nat2Z.id; by exists s).
    unfold GetLength in *. destruct (q_pData q); [by apply not_elem_of_nil in Hin|]. cbn in *. lia. }
  assert (∃ r, q_pData q = [r]) as [r Eq] by (unfold GetLength in E1; destruct (q_pData q) as [|r [|]]; cbn in E1; try lia; by exists r). assert (Root q = Some r) as Er by (unfold Root; by rewrite Eq). rewrite Er. cbn [mbind option_bind].
  destruct (queued_root d q _ r Hq Er) as (_ & Hr0 & st & c & Est & Hr & _ & _). rewrite Est. cbn [mbind option_bind]. pose proof (one_queued d q r st Hq Hst Eq Est) as Oth.
  assert (∀ s x, row_in (<[Z.to_nat r:=s]> d) x <-> x ∈ st_rest s) as K. { intros s x. rewrite (row_in_insert d _ st s x Est). split; [|by left]. intros [?|(j & s' & N & Ej & Hx)]; [done|]. rewrite (Oth j s' N Ej) in Hx. by apply not_elem_of_nil in Hx. }
  assert (∀ x, row_in d x <-> x ∈ st_rest st) as K0 by (intros x; rewrite <- K; by rewrite list_insert_id).
  destruct (single_loop_ok (Datatypes.S (state_work st)) n st tLast Hr) as (out & st' & tL & -> & S1 & S2 & S3 & S4 & S5 & S6); [intros x Hx; apply Hb; by apply K0|lia|]. cbn [mbind option_bind]. set (d' := <[Z.to_nat r:=st']> d) in *. pose proof (lookup_lt_Some _ _ _ Est) as Hlt.
  assert (d' !! Z.to_nat r = Some st') as Est' by (by apply list_lookup_insert_eq). assert (queued d' (Queue_ [] (q_iSize q)) (λ i, i ≠ r)) as Q0.
  { destruct (queued_pop d q _ r Hq Er) as (q1 & E & Hq1). unfold Pop in E. rewrite Eq in E. injection E as <-. apply queued_set; [|intros N; apply N; lia]. eapply queued_iff; [|exact Hq1]. intros; cbn; tauto. }
  assert (∀ i s, d' !! i = Some s -> ready s \/ (st_ok s /\ m_bStopped s = true)) as Hst'. { intros i s Ei. destruct (decide (Z.to_nat r = i)) as [<-|N]; [rewrite Est' in Ei; by injection Ei as <-|]. unfold d' in Ei. rewrite list_lookup_insert_ne in Ei by done. by apply (Hst i). }
  assert (bounded d' tL) as Hb' by (intros x Hx%K; by apply S3). assert (union_rows d tLast = out ++ union_rows d' tL) as U.
  { rewrite (only_rows d st) by done. rewrite S2. f_equal. symmetry. apply union_is; [|intros x; unfold d', fresh; rewrite K; rewrite elem_filter, negb_true_iff, Z.eqb_neq; tauto]. apply asc_filter, st_sorted. destruct S1 as [[? _]|[? _]]; done. }
  assert (total_work d' + length out <= total_work d)%nat as W by (pose proof (total_set d _ st st' Est) as T; fold d' in T; lia).
  assert ((length out < n)%nat -> union_rows d' tL = []) as F. { intros Hn. apply no_rows. intros j s Ej. destruct (decide (Z.to_nat r = j)) as [<-|N]; [rewrite Est' in Ej; injection Ej as <-; auto|]. unfold d' in Ej. rewrite list_lookup_insert_ne in Ej by done. by apply (Oth j). }
  destruct S1 as [S1|S1].
  - destruct (ready_rows st' S1) as (y & l & E & _ & _). rewrite E. cbn [mbind option_bind]. exists out, d', q, tL. split; [done|]. split; [|split; [done|split; [lia|split; [auto|lia]]]]. split; [|done|done]. destruct Q0 as [A B C D]. split.
    + destruct q as [qd qs]. cbn in Eq. subst qd. apply one_heap. rewrite heads_length. unfold d'. rewrite length_insert. lia.
    + apply Hq.
    + unfold d'. rewrite length_insert. apply Hq.
    + intros i. rewrite Eq, list_elem_of_singleton. specialize (D i). cbn in D. split; [intros ->; split; [done|]; split; [done|]; by exists st'|]. intros [_ H]. destruct (decide (i = r)); [done|]. exfalso. apply (not_elem_of_nil i). apply D. done.
  - assert (is_pRows st' = None) as -> by (destruct S1 as [[_ Sn _ _] E]; by apply Sn). unfold Pop. rewrite Eq. cbn [mbind option_bind]. exists out, d', (Queue_ [] (q_iSize q)), tL. split; [done|]. split; [|split; [done|split; [lia|split; [auto|lia]]]]. split; [|done|done].
    eapply queued_iff; [|apply (queued_skip d' _ _ (Z.to_nat r) Q0)].
    + intros i _. cbn. split; [done|]. intros _. destruct (decide (i = r)); [right; lia|by left].
    + intros (_ & s & Es & (_ & Hs & _)). rewrite Nat2Z.id, Est' in Es. injection Es as <-. destruct S1. congruence.
Qed.

(** ** Blocks *)

(** The rows of the union, up to a cutoff. *)
Definition merged (t : RowidIterator_Union_T S) : list Z := union_rows (un_dIterators t) (m_tLastRowID t).
Definition un_cut (t : RowidIterator_Union_T S) : list Z := if un_iRowsLeft t =? INT_MAX then merged t else take (Z.to_nat (un_iRowsLeft t)) (merged t).

Definition union_ok (t : RowidIterator_Union_T S) : Prop := un_inv (un_dIterators t) (un_tMerge t) (m_tLastRowID t) /\ 0 <= un_iRowsLeft t <= INT_MAX.

Lemma union_next_ok t : union_ok t -> ∃ r t', union_next t = Some (r, t') /\ union_ok t' /\ (un_iRowsLeft t = INT_MAX -> un_iRowsLeft t' = INT_MAX) /\
  match r with Some b => b ≠ [] /\ merged t = b ++ merged t' /\ un_cut t = b ++ un_cut t' /\ (length b + work t' <= work t)%nat | None => un_cut t = [] /\ un_cut t' = [] /\ (work t' <= work t)%nat end.
Proof.
  intros [Hp Hc]. unfold union_next. set (n := Z.to_nat _). destruct (merge_loop_ok (Datatypes.S (total_work (un_dIterators t))) n _ _ _ Hp) as (o1 & d1 & q1 & t1 & -> & I1 & U1 & L1 & F1 & W1 & _); [lia|]. cbn [mbind option_bind].
  destruct (last_rows_ok (n - length o1) d1 q1 t1 I1) as (o2 & d2 & q2 & t2 & -> & I2 & U2 & L2 & F2 & W2). cbn [mbind option_bind]. set (out := o1 ++ o2). assert (length out = length o1 + length o2)%nat as Lo by apply length_app. eexists _, _. split; [done|]. cbn [un_iRowsLeft un_dIterators].
  assert (Z.of_nat (length out) <= un_iRowsLeft t) as Hle by (unfold n, SI_MAX_COLLECTED in *; lia).
  split; [split; [done|cbn; destruct (un_iRowsLeft t =? INT_MAX); [done|lia]]|]. split; [intros ->; done|].
  set (t' := Union d2 q2 _ _). assert (merged t = out ++ merged t') as Ec by (unfold merged, out; rewrite U1, U2; by rewrite app_assoc). assert (un_cut t = out ++ un_cut t') as Ek.
  { unfold un_cut. rewrite Ec. cbn [un_iRowsLeft t']. destruct (Z.eqb_spec (un_iRowsLeft t) INT_MAX) as [E|N]; [by rewrite Z.eqb_refl|]. rewrite take_app_ge by lia. f_equal. destruct (Z.eqb_spec (un_iRowsLeft t - Z.of_nat (length out)) INT_MAX) as [E2|N2]; [lia|]. f_equal. lia. }
  assert (length out + work t' <= work t)%nat as Hw by (change (length out + total_work d2 <= total_work (un_dIterators t))%nat; lia).
  assert ((length out < n)%nat -> merged t' = []) as Fin by (intros Hn; apply F2; [apply F1|]; lia). clearbody out.
  destruct out as [|x out]; cbn [ReturnIteratorResult]; [|split; [done|split; [done|split; [done|exact Hw]]]]. cbn [app] in Ek. assert (un_cut t' = []) as E'; [|rewrite Ek; split; [done|split; [done|exact Hw]]].
  unfold un_cut. destruct (Nat.eq_dec n 0%nat) as [E0|N0].
  - unfold n, SI_MAX_COLLECTED, INT_MAX in E0. cbn [un_iRowsLeft t' length]. destruct (Z.eqb_spec (un_iRowsLeft t) INT_MAX) as [E|N]; [unfold INT_MAX in E; lia|]. replace (un_iRowsLeft t - Z.of_nat 0) with 0 by lia. done.
  - assert (merged t' = []) as -> by (apply Fin; cbn; lia). case_match; [done|]. by rewrite take_nil.
Qed.

(** ** All the states are queued *)

Definition settled (st : state) : Prop := ready st \/ (st_ok st /\ m_bStopped st = true).

Lemma queue_all_ok f (R : state -> state -> Prop) : ∀ n i (d : list state) q, (i + n = length d)%nat -> queued d q (λ j, j < Z.of_nat i) ->
  Forall (λ st, ∃ ok st', f st = Some (ok, st') /\ R st st' /\ if (ok : bool) then ready st' else st_ok st' /\ m_bStopped st' = true) (drop i d) ->
  ∃ d' q', queue_all f d n i q = Some (d', q') /\ take i d' = take i d /\ queued d' q' (λ j, j < Z.of_nat (length d)) /\ Forall2 (λ st st', R st st' /\ settled st') (drop i d) (drop i d').
Proof.
  induction n as [|n IH]; intros i d q Hn Hq F; cbn [queue_all].
  - exists d, q. split; [done|]. split; [done|]. rewrite drop_ge by lia. split; [|constructor]. by replace (length d) with i by lia.
  - destruct (lookup_lt_is_Some_2 d i) as [st E]; [lia|]. rewrite E. cbn [mbind option_bind]. rewrite (drop_S d st i E) in F |- *. apply Forall_cons in F as [(ok & st' & Ef & Hr & Hok) F]. rewrite Ef. cbn [mbind option_bind]. set (d1 := <[i:=st']> d). assert (length d1 = length d) as L1 by apply length_insert.
    assert (queued d1 q (λ j, j < Z.of_nat i)) as Hq1 by (apply queued_set; [done|lia]). assert (d1 !! i = Some st') as E1 by (apply list_lookup_insert_eq; lia). assert (drop (Datatypes.S i) d1 = drop (Datatypes.S i) d) as D1 by (apply drop_insert_lt; lia). assert (take i d1 = take i d) as T1 by (apply take_insert_ge; lia).
    assert (∃ q', (if ok then '(_, q) ← Push Z.ltb (heads d1) (Z.of_nat i) q; queue_all f d1 n (i + 1) q else queue_all f d1 n (i + 1) q) = queue_all f d1 n (i + 1) q' /\ queued d1 q' (λ j, j < Z.of_nat (i + 1))) as (q' & -> & Hq').
    { destruct ok.
      - destruct (queued_push d1 q _ i st' Hq1 E1 Hok) as (q' & -> & H); [lia|]. exists q'. split; [done|]. eapply queued_iff; [|exact H]. intros j _. cbn. lia.
      - exists q. split; [done|]. eapply queued_iff; [|apply (queued_skip d1 q _ i Hq1)]; [intros j _; cbn; lia|]. intros (_ & s & Es & (_ & Hs & _)). rewrite Nat2Z.id, E1 in Es. injection Es as <-. destruct Hok. congruence. }
    replace (i + 1)%nat with (Datatypes.S i) in * by lia. destruct (IH (Datatypes.S i) d1 q') as (d' & q2 & -> & T2 & Q2 & F2); [lia|done|by rewrite D1|]. exists d', q2. split; [done|]. rewrite L1 in Q2. rewrite D1 in F2.
    rewrite (take_S_r d1 i st' E1) in T2. assert (i < length d')%nat as Hl. { assert (length (take (Datatypes.S i) d') = Datatypes.S i) as X by (rewrite T2, length_app, length_take; cbn; lia). rewrite length_take in X. lia. }
    destruct (lookup_lt_is_Some_2 d' i Hl) as [s Es]. rewrite (take_S_r d' i s Es) in T2. apply app_inj_tail in T2 as [T2 ->]. split; [by rewrite T2|]. split; [done|]. rewrite (drop_S d' st' i Es). constructor; [|done]. split; [done|]. destruct ok; [by left|by right].
Qed.

(** Every state changes its rows alike. *)
Lemma settled_all f (R : state -> state -> Prop) (d : list state) q : q_pData q = [] -> q_iSize q = Z.of_nat (length d) -> Forall (λ st, ∃ ok st', f st = Some (ok, st') /\ R st st' /\ if (ok : bool) then ready st' else st_ok st' /\ m_bStopped st' = true) d ->
  ∃ d' q', queue_all f d (length d) 0 q = Some (d', q') /\ queued d' q' (λ _, True) /\ Forall2 (λ st st', R st st' /\ settled st') d d'.
Proof.
  intros E1 E2 F. destruct (queue_all_ok f R (length d) 0 d q) as (d' & q' & -> & _ & Hq & F2); [done| |done|].
  - split; [|rewrite E1; constructor|done|].
    + split; [unfold rng; rewrite E1; constructor|]. intros k c Hk _ Hc Hle. unfold GetLength in Hle. rewrite E1 in Hle. cbn in Hle. unfold SortOk.child in Hc. lia.
    + intros i. rewrite E1. split; [by intros ?%not_elem_of_nil|]. intros [? [? _]]. lia.
  - eexists _, _. split; [done|]. split; [|exact F2]. eapply queued_iff; [|exact Hq]. intros i (Hi & st & E & _). apply lookup_lt_Some in E. apply Forall2_length in F2. cbn in F2 |- *. rewrite !drop_0 in F2. split; [done|]. intros _. lia.
Qed.

Lemma row_in_rel (g : state -> list Z) (P : state -> state -> Prop) (d d' : list state) x : (∀ st st', P st st' -> st_rest st' = g st) -> Forall2 P d d' -> row_in d' x <-> ∃ st, st ∈ d /\ x ∈ g st.
Proof.
  intros H F. unfold row_in. split.
  - intros (s & [i Ei]%list_elem_of_lookup & Hx). destruct (Forall2_lookup_r _ _ _ _ _ F Ei) as (st & E & Hp). exists st. rewrite <- (H _ _ Hp). split; [by eapply list_elem_of_lookup_2|done].
  - intros (st & [i Ei]%list_elem_of_lookup & Hx). destruct (Forall2_lookup_l _ _ _ _ _ F Ei) as (s & E & Hp). exists s. rewrite (H _ _ Hp). split; [by eapply list_elem_of_lookup_2|done].
Qed.

Lemma total_rel (P : state -> state -> Prop) (d d' : list state) : (∀ st st', P st st' -> (state_work st' <= state_work st)%nat) -> Forall2 P d d' -> (total_work d' <= total_work d)%nat.
Proof. intros H. induction 1 as [|st st' d d' Hp _ IH]; [done|]. unfold total_work in *. cbn. specialize (H _ _ Hp). lia. Qed.

Lemma settled_lookup (P : state -> state -> Prop) (d d' : list state) : Forall2 (λ st st', P st st' /\ settled st') d d' -> ∀ i st, d' !! i = Some st -> settled st.
Proof. intros F i st E. destruct (Forall2_lookup_r _ _ _ _ _ F E) as (s & _ & _ & H). exact H. Qed.

Lemma empty_queue (d : list state) q tLast : queued d q (λ _, True) -> (∀ i st, d !! i = Some st -> settled st) -> q_pData q = [] -> union_rows d tLast = [].
Proof.
  intros [_ _ _ D] H E. apply no_rows. intros j s Ej. destruct (H j s Ej) as [Hr|[_ Hs]]; [|by apply stopped_rest]. exfalso. apply (not_elem_of_nil (Z.of_nat j)). rewrite <- E. apply D. split; [done|]. split; [lia|]. rewrite Nat2Z.id. by exists s.
Qed.

Definition rewound_to (r : Z) (st st' : state) : Prop := st_rest st' = List.filter (Z.leb r) (st_rest st) /\ (state_work st' <= state_work st)%nat.

Lemma rewind_state_ok r (st : state) : settled st -> ∃ ok st', rewind_state r st = Some (ok, st') /\ rewound_to r st st' /\ if (ok : bool) then ready st' else st_ok st' /\ m_bStopped st' = true.
Proof.
  unfold rewind_state, rewound_to. intros [Hr|[H1 H2]].
  - destruct (ready_rows st Hr) as (x & l & E & _). rewrite E. destruct (rewind_ok r st Hr) as (ok & st' & -> & (A & B & C & D) & F). exists ok, st'. split; [done|]. split; [done|]. by destruct ok.
  - assert (is_pRows st = None) as -> by (by apply (so_stopped _ H1)). exists false, st. split; [done|]. rewrite stopped_rest by done. done.
Qed.

Lemma asc_split r l : ascending l -> l = List.filter (λ x, x <? r) l ++ List.filter (Z.leb r) l.
Proof.
  induction 1 as [|a l Ha IH Hl]; [done|]. cbn. destruct (Z.ltb_spec a r), (Z.leb_spec r a); try lia; cbn; [by f_equal|]. rewrite filter_none; [cbn; f_equal; symmetry; apply filter_all|]; rewrite Forall_forall in Hl; intros x Hx; specialize (Hl x Hx); [apply Z.leb_le|apply Z.ltb_ge]; lia.
Qed.

(** The rows from the hint on stay; a refusal means that there are none. *)
Lemma union_hint_ok r t : union_ok t -> ∃ ok t', union_hint r t = Some (ok, t') /\ union_ok t' /\ un_iRowsLeft t' = un_iRowsLeft t /\ (work t' <= work t)%nat /\
  (merged t' = merged t \/ merged t' = List.filter (Z.leb r) (merged t)) /\ (ok = false -> merged t' = []).
Proof.
  intros [[Hq Hst Hb] Hc]. unfold union_hint. destruct (Last (un_tMerge t)) as [i|] eqn:El.
  2: { exists false, t. split; [done|]. split; [done|]. split; [done|]. split; [lia|]. split; [by left|]. intros _. unfold merged. eapply empty_queue; [done|exact Hst|]. by apply last_None. }
  assert (i ∈ q_pData (un_tMerge t)) as Hi. { unfold Last in El. rewrite last_lookup in El. by eapply list_elem_of_lookup_2. }
  apply Hq in Hi as (_ & Hi & st & Est & Hr). rewrite Est. cbn [mbind option_bind]. destruct (ready_rows st Hr) as (x & l & _ & -> & _). cbn [mbind option_bind]. destruct (r <=? x); [exists true, t; split; [done|]; split; [done|]; split; [done|]; split; [lia|]; split; [by left|done]|].
  destruct (settled_all (rewind_state r) (rewound_to r) (un_dIterators t) (Clear (un_tMerge t))) as (d' & q' & -> & Hq' & F); [done|apply Hq| |].
  { apply Forall_forall. intros s [k Ek]%list_elem_of_lookup. apply rewind_state_ok. by apply (Hst k). }
  cbn [mbind option_bind]. eexists _, _. split; [done|]. pose proof (settled_lookup _ _ _ F) as Hs'.
  assert (∀ y, row_in d' y <-> row_in (un_dIterators t) y /\ r <= y) as K.
  { intros y. rewrite (row_in_rel (λ s, List.filter (Z.leb r) (st_rest s)) _ (un_dIterators t) d' y (λ s s' H, proj1 (proj1 H)) F). unfold row_in. setoid_rewrite elem_filter. setoid_rewrite Z.leb_le. split; [intros (s & ? & ? & ?)|intros [(s & ? & ?) ?]]; eauto. }
  split; [split; [|exact Hc]; split; [done|exact Hs'|]; intros y [Hy _]%K; by apply Hb|]. split; [done|]. split; [exact (total_rel _ _ _ (λ s s' H, proj2 (proj1 H)) F)|]. split.
  - right. apply union_is; [apply asc_filter, sorted_set_asc|]. intros y. cbn [un_dIterators m_tLastRowID]. rewrite elem_filter, Z.leb_le. unfold merged. rewrite union_elem, K. tauto.
  - intros El0%Z.ltb_ge. unfold merged. cbn. eapply empty_queue; [done|exact Hs'|]. unfold GetLength in El0. apply length_zero_iff_nil. lia.
Qed.

(** The union with any cutoff, as a source for a scan. *)
#[refine] Instance union_source_ok : RowSourceOk (RowidIterator_Union_T S) := {| src_inv := union_ok; src_rest := un_cut |}.
Proof.
  intros t H. destruct (union_next_ok t H) as (r & t' & E & Ht & _ & Hr). exists r, t'. split; [exact E|]. split; [done|]. destruct r as [b|]; [|by destruct Hr as (? & ? & _)]. destruct Hr as (Hb & _ & Hk & Hw). split; [done|]. destruct b; [done|]. cbn in Hw |- *. lia.
Defined.

Definition un_unlimited (t : RowidIterator_Union_T S) : Prop := union_ok t /\ un_iRowsLeft t = INT_MAX.

Lemma un_cut_all t : un_iRowsLeft t = INT_MAX -> un_cut t = merged t.
Proof. intros E. unfold un_cut. by rewrite E, Z.eqb_refl. Qed.

#[refine] Instance unlimited_union : RowSourceOk (RowidIterator_Union_T S) := {| src_inv := un_unlimited; src_rest := merged |}.
Proof.
  intros t [H Hu]. destruct (union_next_ok t H) as (r & t' & E & Ht & Hk & Hr). specialize (Hk Hu). exists r, t'. split; [exact E|]. split; [done|]. rewrite !un_cut_all in Hr by done. destruct r as [b|]; [|by destruct Hr as (? & ? & _)].
  destruct Hr as (Hb & Hc & _ & Hw). split; [done|]. destruct b; [done|]. cbn in Hw |- *. lia.
Defined.

Lemma merged_length t : union_ok t -> (length (merged t) <= work t)%nat.
Proof.
  intros [[_ Hst _] _]. unfold merged. transitivity (length (concat (map st_rest (un_dIterators t)))).
  - apply submseteq_length, NoDup_submseteq; [apply asc_nodup, sorted_set_asc|]. intros x [_ Hx]%union_elem. by apply elem_concat.
  - change (length (concat (map st_rest (un_dIterators t))) <= total_work (un_dIterators t))%nat. revert Hst. generalize (un_dIterators t). intros d Hd. assert (Forall st_ok d) as F by (apply Forall_forall; intros s [k Ek]%list_elem_of_lookup; destruct (Hd k s Ek) as [[? _]|[? _]]; done).
    clear Hd. induction F as [|s d Hs F IH]; [done|]. unfold total_work in *. cbn. rewrite length_app. pose proof (st_length s Hs). lia.
Qed.

(** The union is an iterator itself. *)
#[export, refine] Instance union_iterator_ok : RowidIteratorOk (RowidIterator_Union_T S) := {| it_source := unlimited_union |}.
Proof.
  - intros t _. apply sorted_set_asc.
  - intros t [H _]. by apply merged_length.
  - intros t b t' [H Hu] E. destruct (union_next_ok t H) as (r & t1 & E1 & _ & _ & Hr). change (GetNextRowIdBlock t) with (union_next t) in E. rewrite E in E1. injection E1 as <- <-. by destruct Hr as (? & _ & _ & ?).
  - intros t t' [H Hu] E. destruct (union_next_ok t H) as (r & t1 & E1 & _ & _ & Hr). change (GetNextRowIdBlock t) with (union_next t) in E. rewrite E in E1. injection E1 as <- <-. by destruct Hr as (_ & _ & ?).
  - intros r t [H Hu]. cbn [HintRowID union_iterator]. destruct (union_hint_ok r t H) as (ok & t' & -> & H' & El & Hw & Hm & Hn). cbn [src_rest unlimited_union src_inv]. pose proof (asc_split r (merged t) (sorted_set_asc _)) as Sp. destruct Hm as [Hm|Hm].
    + exists ok, t', []. split; [done|]. split; [split; congruence|]. split; [done|]. split; [by rewrite Hm|]. split; [constructor|]. intros Eo. rewrite <- Hm, (Hn Eo). constructor.
    + exists ok, t', (List.filter (λ x, x <? r) (merged t)). split; [done|]. split; [split; congruence|]. split; [done|]. split; [by rewrite Hm|]. assert (Forall (λ x, x < r) (List.filter (λ x, x <? r) (merged t))) as Fl by (apply Forall_forall; intros x [_ Hx%Z.ltb_lt]%elem_filter; done).
      split; [done|]. intros Eo. specialize (Hn Eo). rewrite Hm in Hn. rewrite Hn, app_nil_r in Sp. rewrite Sp. done.
Defined.

(** A new union. *)
Lemma new_union_ok dIterators pBoundaries : Forall src_inv dIterators -> (∀ s x, s ∈ dIterators -> x ∈ src_rest s -> x ≠ SearchNode.INVALID_ROWID) -> ∃ t, new_union dIterators pBoundaries = Some t /\ un_unlimited t /\
  ∀ x, x ∈ merged t <-> (∃ s, s ∈ dIterators /\ x ∈ src_rest s) /\ match pBoundaries with Some b => in_limits b x = true | None => True end.
Proof.
  intros H Hx. unfold new_union. set (d := map _ dIterators). assert (length d = length dIterators) as <- by apply length_map.
  destruct (settled_all WarmupDocs (λ st st', st_rest st' = to_come st) d (new_queue (Z.of_nat (length d)))) as (d' & q' & -> & Hq & F); [done|done| |].
  { apply Forall_map. eapply Forall_impl; [exact H|]. intros s Hs. destruct (warm_ok (new_state s pBoundaries) Hs eq_refl) as (ok & st' & E & A & B & _ & _ & C). exists ok, st'. split; [done|]. split; [done|]. by destruct ok; [split|]. }
  cbn [mbind option_bind]. eexists. split; [done|]. pose proof (settled_lookup _ _ _ F) as Hs'.
  assert (∀ x, row_in d' x <-> (∃ s, s ∈ dIterators /\ x ∈ src_rest s) /\ match pBoundaries with Some b => in_limits b x = true | None => True end) as K.
  { intros x. rewrite (row_in_rel to_come _ d d' x (λ s s' H, proj1 H) F). unfold d. setoid_rewrite list_elem_of_fmap. split.
    - intros (st & (s & -> & Hs) & Hin). apply elem_filter in Hin as [Hin Hl]. split; [by exists s|]. unfold lim in Hl. cbn in Hl. by destruct pBoundaries.
    - intros [(s & Hs & Hin) Hl]. exists (new_state s pBoundaries). split; [by exists s|]. apply elem_filter. split; [done|]. unfold lim. cbn. by destruct pBoundaries. }
  assert (∀ x, row_in d' x -> x ≠ SearchNode.INVALID_ROWID) as N by (intros x [(s & Hs & Hin) _]%K; by eapply Hx). split.
  - split; [|done]. split; [|cbn; unfold INT_MAX; lia]. split; [done|exact Hs'|]. intros x Hr. split; [by apply N|by left].
  - intros x. unfold merged. cbn [un_dIterators m_tLastRowID]. rewrite union_elem, K. split; [by intros [_ ?]|]. intros Hk. split; [|done]. apply N. by apply K.
Qed.
End Union.

(** [C36] A scan of the union of iterators, over any iterators that keep their
    promise: a new union has, in ascending order and once each, exactly the rows
    that some of its iterators have and that are inside the limits; and a scan of
    it ends and pushes the alive ones that pass the filters, in order: all of them
    when it answers false or nothing can stop it, else a first part; with a cutoff
    on the union, those among its first [c] rows. *)
Theorem union_scan_correct {S} `{It : RowidIterator_i S} `{!RowidIteratorOk S} {T} `{ISphMatchSorter T} ctx ix (dIterators : list S) pBoundaries sorter iCutoff w tMeta :
  let docs := Z.of_nat (length (sc_rows ctx)) in
  Forall src_inv dIterators -> Forall (λ s, Forall (λ i, 0 <= i < docs) (src_rest s)) dIterators -> docs <= SearchNode.INVALID_ROWID -> dm_ok (si_tDeadRowMap ix) -> m_uRows (si_tDeadRowMap ix) = docs -> (∀ i, 0 <= i < docs -> is_Some (passing ctx i)) ->
  ∃ t l, new_union dIterators pBoundaries = Some t /\ ascending l /\ (∀ x, x ∈ l <-> (∃ s, s ∈ dIterators /\ x ∈ src_rest s) /\ match pBoundaries with Some b => in_limits b x = true | None => True end) /\
    ∀ c, 0 <= c <= INT_MAX -> ∃ b sorter' w' tMeta', RunFullscanOnIterator ctx ix (union_cutoff c t) sorter iCutoff w tMeta = Some (b, sorter', w', tMeta') /\
      pushed ctx (List.filter (alive_keep ctx ix) (if c =? INT_MAX then l else take (Z.to_nat c) l)) sorter sorter' (b = false \/ (iCutoff = -1 /\ calm w)).
Proof.
  cbv zeta. intros H1 H2 H3 H4 H5 H6. assert (∀ s x, s ∈ dIterators -> x ∈ src_rest s -> 0 <= x < Z.of_nat (length (sc_rows ctx))) as Hin.
  { intros s x Hs Hx. rewrite Forall_forall in H2. specialize (H2 s Hs). rewrite Forall_forall in H2. by apply H2. }
  destruct (new_union_ok dIterators pBoundaries H1) as (t & -> & [[Hp Hc] Hu] & G); [intros s x Hs Hx; specialize (Hin s x Hs Hx); lia|]. exists t, (merged t). split; [done|]. split; [apply sorted_set_asc|]. split; [done|].
  intros c Hc'. assert (union_ok (union_cutoff c t)) as Hi by (split; [exact Hp|exact Hc']).
  assert (Forall (λ i, 0 <= i < Z.of_nat (length (sc_rows ctx))) (un_cut (union_cutoff c t))) as F.
  { apply Forall_forall. intros x Hx. assert (x ∈ merged t) as Hm. { unfold un_cut in Hx. change (merged (union_cutoff c t)) with (merged t) in Hx. case_match; [done|]. apply list_elem_of_lookup in Hx as [k Hk]. apply lookup_take_Some in Hk as [Hk _]. by eapply list_elem_of_lookup_2. }
    apply G in Hm as [(s & Hs & Hx') _]. by eapply Hin. }
  exact (on_iterator_ok (RowSourceOk0 := union_source_ok) ctx ix (union_cutoff c t) sorter iCutoff w tMeta H4 H5 H6 Hi F).
Qed.

#[local] Existing Instance demo_sorter.
#[local] Existing Instance block_list_iterator.
#[local] Existing Instance block_list_ok.

Lemma union_scan_witness : ∃ t b l w m, new_union [demo_first; demo_second; BlockList []] (Some (RowIdBoundaries 8 260)) = Some t /\
  RunFullscanOnIterator (demo_ctx None) demo_index (union_cutoff 5 t) [] (-1) (SearchNode.mkWorld None None) (QueryResultMeta None 0) = Some (b, l, w, m) /\ map mt_tRowID l = [8; 9; 40; 41; 60].
Proof.
  destruct (union_scan_correct (demo_ctx None) demo_index [demo_first; demo_second; BlockList []] (Some (RowIdBoundaries 8 260)) [] (-1) (SearchNode.mkWorld None None) (QueryResultMeta None 0)) as (t & l & E & Hs & Hl & G).
  - repeat (constructor; [split; [repeat constructor; discriminate|cbn; repeat constructor; lia]|]). constructor.
  - change (Z.of_nat (length (sc_rows (demo_ctx None)))) with 300. repeat (constructor; [cbn [demo_first demo_second src_rest it_source block_list_ok block_list_source bl concat app]; repeat constructor; lia|]). constructor.
  - vm_compute. discriminate.
  - apply demo_map_ok.
  - reflexivity.
  - intros i Hi. unfold passing, match_at. cbn [sc_rows demo_ctx]. change (Z.of_nat (length (sc_rows (demo_ctx None)))) with 300 in Hi. unfold demo_rows. rewrite list_lookup_fmap, lookup_seqZ_lt by lia. by eexists.
  - destruct (G 5 ltac:(unfold INT_MAX; lia)) as (b & s' & w' & m' & Er & (l1 & l2 & El & -> & All)). exists t, b, (pushes (demo_ctx None) l1 []), w', m'. split; [exact E|]. split; [exact Er|]. rewrite (All ltac:(right; done)), app_nil_r in El. rewrite <- El.
    assert (l = [8; 9; 40; 41; 60; 100; 120; 130; 131; 250; 260]) as ->; [|vm_compute; reflexivity]. apply asc_unique; [exact Hs|repeat constructor; lia|]. intros x. rewrite Hl. unfold in_limits. cbn [m_tMinRowID m_tMaxRowID]. rewrite andb_true_iff, !Z.leb_le. split.
    + intros [(s & Hin & Hx) Hb]. rewrite !elem_of_cons in Hin. rewrite list_elem_of_In in Hx |- *. destruct Hin as [->|[->|[->|?%not_elem_of_nil]]]; [..|done]; cbn [demo_first demo_second src_rest it_source block_list_ok block_list_source bl concat app In] in *; lia.
    + rewrite list_elem_of_In. cbn [In]. intros Hx. split; [|lia]. destruct (decide (x = 9 \/ x = 40 \/ x = 120 \/ x = 130 \/ x = 250)) as [D|D]; [exists demo_first; split; [by left|]|exists demo_second; split; [right; by left|]]; rewrite list_elem_of_In; cbn [demo_first demo_second src_rest it_source block_list_ok block_list_source bl concat app In]; lia.
Defined.
End RowUnionOk.
