(* ===== verification/RtSegment.v ===== *)
(** * Segments of the real-time index (src/src/sphinxrt.cpp, sphinxrt.h)

    A RAM chunk consists of segments. A segment keeps its dictionary, its
    documents per word and the hits per document in three vectors of bytes, in
    variable-length numbers: deltas of word ids, keywords without their common
    prefix, deltas of rows and of hits. Every [m_iWordsCheckpoint-1] words the
    dictionary starts anew at a checkpoint. *)

From S2P Require Import Prelude Zip Hits BinSearch SearchNode DocidLookup.
Import Zip Hitman.

Module RtSegment.

Abbreviation INVALID_ROWID := SearchNode.INVALID_ROWID.

Inductive DictFormat_e := CRC | KEYWORDS | KEYWORDS_V2.
Inductive ESphHitless := SPH_HITLESS_NONE | SPH_HITLESS_SOME | SPH_HITLESS_ALL.

#[export] Instance hitless_eq_dec : EqDecision ESphHitless.
Proof. solve_decision. Defined.
#[export] Instance format_eq_dec : EqDecision DictFormat_e.
Proof. solve_decision. Defined.

Record RtDoc_t := RtDoc { rd_tRowID : Z; rd_uDocFields : Z; rd_uHits : Z; rd_uHit : Z }.

(** The union of [RtWord_t]. *)
Inductive wordkey := WordID (m_uWordID : Z) | Word (m_sWord : list Z).

#[export] Instance wordkey_eq_dec : EqDecision wordkey.
Proof. solve_decision. Defined.

Record RtWord_t := RtWord { rw_key : wordkey; rw_uDocs : Z; rw_uHits : Z; rw_uDoc : Z; rw_bHasHitlist : bool }.

(** For a keyword dictionary [cp_uWordID] is the offset of the keyword in
    [m_dKeywordCheckpoints], which [FixupSegmentCheckpoints] turns into a pointer. *)
Record RtWordCheckpoint_t := RtWordCheckpoint { cp_uWordID : Z; cp_iOffset : Z }.

(** The dictionary of a segment. *)
Record RtSegment_t := RtSegment {
  m_dWords : list Z;
  m_dWordCheckpoints : list RtWordCheckpoint_t;
  m_dKeywordCheckpoints : list Z;
  m_dDocs : list Z;
  m_dHits : list Z
}.

(** ** Numbers *)

Definition ZipDword (uValue : Z) : list Z := ZipValueLE DWORD uValue.
Definition ZipQword (uValue : Z) : list Z := ZipValueLE uint64_t uValue.
Definition UnzipDword (pIn : list Z) : option (Z * list Z) := UnzipValueLE4 DWORD pIn.
Definition UnzipQword (pIn : list Z) : option (Z * list Z) := UnzipValueLE8 uint64_t pIn.

(** [WriterPos], and the offsets that the words and documents keep. *)
Definition pos (l : list Z) : Z := cast DWORD (Z.of_nat (length l)).

Fixpoint SkipZipped (pIn : list Z) : option (list Z) :=
  match pIn with
  | [] => None
  | b :: l => if Z.land b 0x80 =? 0 then Some l else SkipZipped l
  end.

(** ** Documents *)

Record RtDocWriter_c := RtDocWriter { dw_dDocs : list Z; dw_tLastRowID : Z }.

Definition put_doc (tDoc : RtDoc_t) (w : RtDocWriter_c) : RtDocWriter_c :=
  RtDocWriter
    (dw_dDocs w ++ ZipDword (rd_tRowID tDoc - dw_tLastRowID w) ++ ZipDword (rd_uDocFields tDoc) ++ ZipDword (rd_uHits tDoc) ++
     (if rd_uHits tDoc =? 1 then ZipDword (Z.land (rd_uHit tDoc) 0xffffff) ++ ZipDword (Z.shiftr (rd_uHit tDoc) 24) else ZipDword (rd_uHit tDoc)))
    (rd_tRowID tDoc).

Definition doc_restart (w : RtDocWriter_c) : RtDocWriter_c := RtDocWriter (dw_dDocs w) INVALID_ROWID.

(** [dr_pDocs] is nothing for a null pointer. *)
Record RtDocReader_c := RtDocReader { dr_pDocs : option (list Z); dr_iLeft : Z; dr_tDoc : RtDoc_t }.

(** Where [begin()+uOff] points to. *)
Definition point (l : list Z) (uOff : Z) : option (list Z) := match l with [] => None | _ => Some (drop (Z.to_nat uOff) l) end.

Definition new_doc_reader (dDocs : list Z) (tWord : RtWord_t) : RtDocReader_c :=
  RtDocReader (point dDocs (rw_uDoc tWord)) (cast int32_t (rw_uDocs tWord)) (RtDoc INVALID_ROWID 0 0 0).

Definition UnzipDoc (r : RtDocReader_c) : option (bool * RtDocReader_c) :=
  match dr_pDocs r with
  | None => Some (false, r)
  | Some pIn =>
      if dr_iLeft r =? 0 then Some (false, r)
      else
        '(d, pIn) ← UnzipDword pIn;
        '(uDocFields, pIn) ← UnzipDword pIn;
        '(uHits, pIn) ← UnzipDword pIn;
        '(uHit, pIn) ← (if uHits =? 1 then
                          '(a, pIn) ← UnzipDword pIn; '(b, pIn) ← UnzipDword pIn; Some (cast DWORD (a + cast DWORD (Z.shiftl b 24)), pIn)
                        else UnzipDword pIn);
        Some (true, RtDocReader (Some pIn) (dr_iLeft r - 1) (RtDoc (cast DWORD (rd_tRowID (dr_tDoc r) + d)) uDocFields uHits uHit))
  end.

(** ** Hits *)

Record RtHitWriter_c := RtHitWriter { hw_dHits : list Z; hw_uLastHit : Z }.

Definition put_hit (uValue : Z) (w : RtHitWriter_c) : RtHitWriter_c := RtHitWriter (hw_dHits w ++ ZipDword (uValue - hw_uLastHit w)) uValue.
Definition hit_restart (w : RtHitWriter_c) : RtHitWriter_c := RtHitWriter (hw_dHits w) 0.

Record RtHitReader_c := RtHitReader { hr_pCur : option (list Z); hr_uLeft : Z; hr_uValue : Z }.

Definition new_hit_reader (dHits : list Z) (tDoc : RtDoc_t) : RtHitReader_c := RtHitReader (point dHits (rd_uHit tDoc)) (rd_uHits tDoc) EMPTY_HIT.

Definition UnzipHit (r : RtHitReader_c) : option (Z * RtHitReader_c) :=
  match hr_pCur r with
  | None => Some (EMPTY_HIT, r)
  | Some pCur =>
      if hr_uLeft r =? 0 then Some (EMPTY_HIT, r)
      else
        '(d, pCur) ← UnzipDword pCur;
        let uValue := cast DWORD (hr_uValue r + d) in
        Some (uValue, RtHitReader (Some pCur) (hr_uLeft r - 1) uValue)
  end.

Fixpoint skip_hits (n : nat) (pEnd : list Z) : option (list Z) :=
  match n with O => Some pEnd | S n' => p ← SkipZipped pEnd; skip_hits n' p end.

(** The bytes of the hits of a document. *)
Definition GetHitsBlob (dHits : list Z) (tDoc : RtDoc_t) : option (list Z) :=
  let pHits := drop (Z.to_nat (rd_uHit tDoc)) dHits in
  pEnd ← skip_hits (Z.to_nat (rd_uHits tDoc)) pHits;
  Some (take (length pHits - length pEnd) pHits).

(** ** Keywords: [CSphKeywordDeltaWriter_T] of sphinxint.h *)

Definition SPH_MAX_KEYWORD_LEN : Z := 3 * 42 + 4.
Definition SPH_V2_MAX_TOKEN_BYTES : Z := 32 * 1024.

Definition GetKeywordBufSize (eFormat : DictFormat_e) : Z :=
  match eFormat with KEYWORDS_V2 => SPH_V2_MAX_TOKEN_BYTES + 4 | _ => 3 * 42 + 4 * 4 end.

(** How many bytes of the last keyword can be used again. *)
Fixpoint match_len (sLast sWord : list Z) : Z :=
  match sLast, sWord with
  | a :: l, b :: l' => if a =? b then 1 + match_len l l' else 0
  | _, _ => 0
  end.

(** [PutDelta] for both formats: the bytes written; [None] for a keyword that the
    buffer of the last one does not hold. *)
Definition PutDelta (bV2 : bool) (sLast sWord : list Z) : option (list Z) :=
  let iLen := Z.of_nat (length sWord) in
  let iMatch := match_len sLast sWord in
  let iDelta := iLen - iMatch in
  if iLen <? GetKeywordBufSize (if bV2 then KEYWORDS_V2 else KEYWORDS) then
    Some ((if (iDelta <=? 8) && (iMatch <=? 15) then [cast BYTE (0x80 + Z.shiftl (iDelta - 1) 4 + iMatch)]
           else if negb bV2 then [cast BYTE iDelta; cast BYTE iMatch]
           else if (iDelta <=? 0x7e) && (iMatch <=? 0xff) then [iDelta; iMatch]
           else 0x7f :: ZipValueBE int32_t iDelta ++ ZipValueBE int32_t iMatch)
          ++ drop (Z.to_nat iMatch) sWord)
  else None.

(** ** Words *)

(** [ww_sLastKeyword] are the first [m_iLastLen] bytes of the last keyword. *)
Record RtWordWriter_c := RtWordWriter {
  ww_dWords : list Z;
  ww_dCheckpoints : list RtWordCheckpoint_t;
  ww_dKeywordCheckpoints : list Z;
  ww_sLastKeyword : list Z;
  ww_uLastWordID : Z;
  ww_uLastDoc : Z;
  ww_iWords : Z
}.

Definition new_word_writer : RtWordWriter_c := RtWordWriter [] [] [] [] 0 0 0.

Definition HITLESS_DOC_FLAG : Z := 0x80000000.
Definition HITLESS_DOC_MASK : Z := 0x7FFFFFFF.

Section Words.
Variables (m_eDictFormat : DictFormat_e) (m_iWordsCheckpoint : Z) (m_eHitlessMode : ESphHitless).

(** A checkpoint before the word; [None] for a key of the other kind. *)
Definition put_checkpoint (tWord : RtWord_t) (w : RtWordWriter_c) : option RtWordWriter_c :=
  '(uWordID, dKeywords, sLast) ← match m_eDictFormat, rw_key tWord with
    | CRC, WordID u => Some (u, ww_dKeywordCheckpoints w, ww_sLastKeyword w)
    | KEYWORDS, Word s | KEYWORDS_V2, Word s => Some (Z.of_nat (length (ww_dKeywordCheckpoints w)), ww_dKeywordCheckpoints w ++ s ++ [0], [])
    | _, _ => None
    end;
  Some (RtWordWriter (ww_dWords w) (ww_dCheckpoints w ++ [RtWordCheckpoint uWordID (Z.of_nat (length (ww_dWords w)))]) dKeywords sLast 0 0 1).

(** [operator<<] *)
Definition put_word (tWord : RtWord_t) (w : RtWordWriter_c) : option RtWordWriter_c :=
  let iWords := ww_iWords w + 1 in
  w ← (if iWords =? m_iWordsCheckpoint then put_checkpoint tWord w
       else Some (RtWordWriter (ww_dWords w) (ww_dCheckpoints w) (ww_dKeywordCheckpoints w) (ww_sLastKeyword w) (ww_uLastWordID w) (ww_uLastDoc w) iWords));
  '(dKey, sLast, uLast) ← match m_eDictFormat, rw_key tWord with
    | CRC, WordID u => Some (ZipQword (u - ww_uLastWordID w), ww_sLastKeyword w, u)
    | KEYWORDS, Word s => d ← PutDelta false (ww_sLastKeyword w) s; Some (d, s, 0)
    | KEYWORDS_V2, Word s => d ← PutDelta true (ww_sLastKeyword w) s; Some (d, s, 0)
    | _, _ => None
    end;
  let uDocs := if negb (rw_bHasHitlist tWord) && bool_decide (m_eHitlessMode = SPH_HITLESS_SOME) then Z.lor (rw_uDocs tWord) HITLESS_DOC_FLAG else rw_uDocs tWord in
  Some (RtWordWriter
    (ww_dWords w ++ dKey ++ ZipDword uDocs ++ ZipDword (rw_uHits tWord) ++ ZipDword (rw_uDoc tWord - ww_uLastDoc w))
    (ww_dCheckpoints w) (ww_dKeywordCheckpoints w) sLast uLast (rw_uDoc tWord) (ww_iWords w)).

(** [wr_pCur] are the bytes from [m_pCur] on and [wr_iTail] is the number of bytes
    behind [m_pMax]; [wr_dBuf] is the buffer of the keyword. *)
Record RtWordReader_c := RtWordReader {
  wr_pCur : list Z;
  wr_iTail : nat;
  wr_dBuf : list Z;
  wr_tWord : RtWord_t;
  wr_iWords : Z;
  wr_iCheckpoint : Z
}.

(** The buffer, without the byte for the length of the older format. *)
Definition new_buf : list Z := replicate (Z.to_nat match m_eDictFormat with KEYWORDS_V2 => GetKeywordBufSize KEYWORDS_V2 | _ => SPH_MAX_KEYWORD_LEN end) 0.

Definition new_word_reader (dWords : list Z) : RtWordReader_c :=
  RtWordReader dWords 0 new_buf (RtWord (WordID 0) 0 0 0 true) 0 0.

(** The lengths of a packed keyword: what is new, and what is kept. *)
Definition unpack_lengths (pIn : list Z) : option (Z * Z * list Z) :=
  '(uPacked, pIn) ← get pIn;
  if negb (Z.land uPacked 0x80 =? 0) then Some (Z.land (Z.shiftr uPacked 4) 7 + 1, Z.land uPacked 15, pIn)
  else if bool_decide (m_eDictFormat = KEYWORDS_V2) && (uPacked =? 0x7f) then
    '(iDelta, pIn) ← UnzipIntBE pIn; '(iMatch, pIn) ← UnzipIntBE pIn; Some (cast int32_t iDelta, cast int32_t iMatch, pIn)
  else '(iMatch, pIn) ← get pIn; Some (Z.land uPacked 127, iMatch, pIn).

(** The new bytes are copied behind the kept ones; [None] outside the buffer. *)
Definition unpack_keyword (dBuf pIn : list Z) : option (list Z * list Z * list Z) :=
  '(iDelta, iMatch, pIn) ← unpack_lengths pIn;
  let iLen := iMatch + iDelta in
  if (iLen <? Z.of_nat (length dBuf)) && (iDelta <=? Z.of_nat (length pIn)) then
    let dBuf := take (Z.to_nat iMatch) dBuf ++ take (Z.to_nat iDelta) pIn ++ 0 :: drop (Z.to_nat iLen + 1) dBuf in
    Some (take (Z.to_nat iLen) dBuf, dBuf, drop (Z.to_nat iDelta) pIn)
  else None.

Definition UnzipWord (r : RtWordReader_c) : option (option RtWord_t * RtWordReader_c) :=
  if (length (wr_pCur r) <=? wr_iTail r)%nat then Some (None, r)
  else
    let bCheckpoint := wr_iWords r + 1 =? m_iWordsCheckpoint in
    let uDoc := if bCheckpoint then 0 else rw_uDoc (wr_tWord r) in
    '(key, dBuf, pIn) ← match m_eDictFormat with
      | CRC =>
          let uWordID := if bCheckpoint then 0 else match rw_key (wr_tWord r) with WordID u => u | _ => 0 end in
          '(d, pIn) ← UnzipQword (wr_pCur r);
          Some (WordID (cast uint64_t (uWordID + d)), wr_dBuf r, pIn)
      | _ => '(s, dBuf, pIn) ← unpack_keyword (wr_dBuf r) (wr_pCur r); Some (Word s, dBuf, pIn)
      end;
    '(uDocs, pIn) ← UnzipDword pIn;
    '(uHits, pIn) ← UnzipDword pIn;
    '(d, pIn) ← UnzipDword pIn;
    let bHasHitlist := match m_eHitlessMode with SPH_HITLESS_NONE => true | SPH_HITLESS_SOME => Z.land uDocs HITLESS_DOC_FLAG =? 0 | SPH_HITLESS_ALL => false end in
    let uDocs := match m_eHitlessMode with SPH_HITLESS_NONE => uDocs | _ => Z.land uDocs HITLESS_DOC_MASK end in
    let tWord := RtWord key uDocs uHits (cast DWORD (uDoc + d)) bHasHitlist in
    Some (Some tWord, RtWordReader pIn (wr_iTail r) dBuf tWord (if bCheckpoint then 1 else wr_iWords r + 1) (if bCheckpoint then wr_iCheckpoint r + 1 else wr_iCheckpoint r)).

(** ** A segment from the hits of a transaction *)

Record CSphWordHit := WordHit { wh_tRowID : Z; wh_uWordID : Z; wh_uWordPos : Z }.

Definition WORDID_MAX : Z := 2 ^ 64 - 1.

(** [GetPackedKeywordLegacy], [GetPackedKeywordV2]: a keyword and what is behind it. *)
Definition GetPackedKeyword (dPacked : list Z) (uOff : Z) : option (list Z * list Z) :=
  let pPacked := drop (Z.to_nat uOff) dPacked in
  '(iLen, pPacked) ← match m_eDictFormat with KEYWORDS_V2 => UnzipIntLE pPacked | _ => get pPacked end;
  if iLen <=? Z.of_nat (length pPacked) then Some (take (Z.to_nat iLen) pPacked, drop (Z.to_nat iLen) pPacked) else None.

(** The state of the loop: the document and the word that are collected, the three
    writers, [uEmbeddedHit] and [uPrevHit]. *)
Record creating := Creating {
  cr_tDoc : RtDoc_t;
  cr_uWordID : Z;
  cr_uDocs : Z;
  cr_uHits : Z;
  cr_uDoc : Z;
  cr_bHasHitlist : bool;
  cr_tOutDoc : RtDocWriter_c;
  cr_tOutWord : RtWordWriter_c;
  cr_tOutHit : RtHitWriter_c;
  cr_uEmbeddedHit : Z;
  cr_uPrevHit : Z
}.

Definition new_creating : creating :=
  Creating (RtDoc INVALID_ROWID 0 0 0) 0 0 0 0 true (RtDocWriter [] INVALID_ROWID) new_word_writer (RtHitWriter [] 0) EMPTY_HIT EMPTY_HIT.

Section Create.
Variables (dPacked : list Z) (dHitlessWords : list Z).

(** A new document: the one before is written. *)
Definition flush_doc (tRowID : Z) (st : creating) : creating :=
  let tDoc := cr_tDoc st in
  let tOutHit := hit_restart (cr_tOutHit st) in
  if rd_tRowID tDoc =? INVALID_ROWID then
    Creating (RtDoc tRowID (rd_uDocFields tDoc) (rd_uHits tDoc) (rd_uHit tDoc)) (cr_uWordID st) (cr_uDocs st) (cr_uHits st) (cr_uDoc st) (cr_bHasHitlist st)
      (cr_tOutDoc st) (cr_tOutWord st) tOutHit EMPTY_HIT EMPTY_HIT
  else
    let tDoc := if negb (cr_uEmbeddedHit st =? 0) then RtDoc (rd_tRowID tDoc) (rd_uDocFields tDoc) (rd_uHits tDoc) (cr_uEmbeddedHit st) else tDoc in
    Creating (RtDoc tRowID 0 0 (pos (hw_dHits (cr_tOutHit st)))) (cr_uWordID st) (cast DWORD (cr_uDocs st + 1)) (cast DWORD (cr_uHits st + rd_uHits tDoc)) (cr_uDoc st) (cr_bHasHitlist st)
      (put_doc tDoc (cr_tOutDoc st)) (cr_tOutWord st) tOutHit EMPTY_HIT EMPTY_HIT.

(** Whether a new word has hits. *)
Definition has_hitlist (tHit : CSphWordHit) : option bool :=
  match m_eHitlessMode with
  | SPH_HITLESS_NONE => Some true
  | SPH_HITLESS_ALL => Some (wh_uWordID tHit =? 0)
  | SPH_HITLESS_SOME =>
      if (wh_uWordID tHit =? 0) || (wh_uWordPos tHit =? EMPTY_HIT) then Some (wh_uWordID tHit =? 0)
      else
        tWordID ← (if bool_decide (m_eDictFormat = CRC) || bool_decide (dHitlessWords = []) then Some (wh_uWordID tHit)
                   else '(_, p) ← GetPackedKeyword dPacked (wh_uWordID tHit); if (8 <=? length p)%nat then Some (DocidLookup.DocidLookup.le_value (take 8 p)) else None);
        Some (match BinSearch.BinarySearch dHitlessWords tWordID 0 (Z.of_nat (length dHitlessWords) - 1) with None => true | Some _ => false end)
  end.

(** A new word: the one before is written. *)
Definition flush_word (tHit : CSphWordHit) (st : creating) : option creating :=
  let tOutDoc := doc_restart (cr_tOutDoc st) in
  tOutWord ← (if cr_uWordID st =? 0 then Some (cr_tOutWord st)
              else
                key ← match m_eDictFormat with CRC => Some (WordID (cr_uWordID st)) | _ => '(s, _) ← GetPackedKeyword dPacked (cr_uWordID st); Some (Word s) end;
                put_word (RtWord key (cr_uDocs st) (cr_uHits st) (cr_uDoc st) (cr_bHasHitlist st)) (cr_tOutWord st));
  bHasHitlist ← has_hitlist tHit;
  Some (Creating (cr_tDoc st) (wh_uWordID tHit) 0 0 (pos (dw_dDocs tOutDoc)) bHasHitlist tOutDoc tOutWord (cr_tOutHit st) (cr_uEmbeddedHit st) EMPTY_HIT).

Definition add_hit (uWordPos : Z) (st : creating) : creating :=
  let tDoc := cr_tDoc st in
  let '(uHits, tOutHit, uEmbeddedHit) :=
    if negb (cr_bHasHitlist st) then (1, cr_tOutHit st, if rd_uHits tDoc =? 0 then uWordPos else cr_uEmbeddedHit st)
    else if rd_uHits tDoc =? 0 then (1, cr_tOutHit st, uWordPos)
    else
      let tOutHit := if negb (cr_uEmbeddedHit st =? 0) then put_hit (cr_uEmbeddedHit st) (cr_tOutHit st) else cr_tOutHit st in
      (cast DWORD (rd_uHits tDoc + 1), put_hit uWordPos tOutHit, 0) in
  let iField := GetField uWordPos in
  let uDocFields := if iField <? 32 then Z.lor (rd_uDocFields tDoc) (Z.shiftl 1 iField) else rd_uDocFields tDoc in
  Creating (RtDoc (rd_tRowID tDoc) uDocFields uHits (rd_uHit tDoc)) (cr_uWordID st) (cr_uDocs st) (cr_uHits st) (cr_uDoc st) (cr_bHasHitlist st)
    (cr_tOutDoc st) (cr_tOutWord st) tOutHit uEmbeddedHit uWordPos.

Definition create_step (tHit : CSphWordHit) (st : creating) : option creating :=
  let bNewWord := negb (wh_uWordID tHit =? cr_uWordID st) in
  let st := if bNewWord || negb (wh_tRowID tHit =? rd_tRowID (cr_tDoc st)) then flush_doc (wh_tRowID tHit) st else st in
  st ← (if bNewWord then flush_word tHit st else Some st);
  if cr_uPrevHit st =? wh_uWordPos tHit then Some st else Some (add_hit (wh_uWordPos tHit) st).

Fixpoint create_loop (dAccum : list CSphWordHit) (st : creating) : option creating :=
  match dAccum with [] => Some st | tHit :: l => st ← create_step tHit st; create_loop l st end.

(** The closing hit is added at the end. *)
Definition CreateSegmentHits (dAccum : list CSphWordHit) : option RtSegment_t :=
  st ← create_loop (dAccum ++ [WordHit INVALID_ROWID WORDID_MAX EMPTY_HIT]) new_creating;
  let w := cr_tOutWord st in
  Some (RtSegment (ww_dWords w) (ww_dCheckpoints w) (ww_dKeywordCheckpoints w) (dw_dDocs (cr_tOutDoc st)) (hw_dHits (cr_tOutHit st))).
End Create.

(** ** The documents of a word in another segment *)

(** [CopyWord]: the vectors of the new segment, and the counts of its word. *)
Fixpoint copy_docs (n : nat) (dSrcHits : list Z) (dRowMap : list Z) (r : RtDocReader_c) (tOutDoc : RtDocWriter_c) (dHits : list Z) (uDocs uHits : Z) :
    option (RtDocWriter_c * list Z * Z * Z) :=
  match n with
  | O => None
  | S n' =>
      '(ok, r) ← UnzipDoc r;
      if negb ok then Some (tOutDoc, dHits, uDocs, uHits)
      else
        let tSrc := dr_tDoc r in
        tNewRowID ← dRowMap !! Z.to_nat (rd_tRowID tSrc);
        if tNewRowID =? INVALID_ROWID then copy_docs n' dSrcHits dRowMap r tOutDoc dHits uDocs uHits
        else
          '(uHit, dHits) ← (if rd_uHits tSrc =? 1 then Some (rd_uHit tSrc, dHits) else b ← GetHitsBlob dSrcHits tSrc; Some (pos dHits, dHits ++ b));
          copy_docs n' dSrcHits dRowMap r (put_doc (RtDoc tNewRowID (rd_uDocFields tSrc) (rd_uHits tSrc) uHit) tOutDoc) dHits (cast DWORD (uDocs + 1)) (cast DWORD (uHits + rd_uHits tSrc))
  end.

Definition CopyWord (tSrc : RtSegment_t) (tWord : RtWord_t) (dRowMap : list Z) (tOutDoc : RtDocWriter_c) (dHits : list Z) (uDocs uHits : Z) : option (RtDocWriter_c * list Z * Z * Z) :=
  copy_docs (S (length (m_dDocs tSrc))) (m_dHits tSrc) dRowMap (new_doc_reader (m_dDocs tSrc) tWord) tOutDoc dHits uDocs uHits.

(** [memcmp], then the lengths: the sign of [sphDictCmpStrictly]. *)
Fixpoint sphDictCmpStrictly (a b : list Z) : comparison :=
  match a, b with
  | [], [] => Eq
  | [], _ => Lt
  | _, [] => Gt
  | x :: a', y :: b' => match x ?= y with Eq => sphDictCmpStrictly a' b' | c => c end
  end.

Definition cmp_keys (a b : wordkey) : option comparison :=
  match a, b with WordID u, WordID v => Some (u ?= v) | Word s, Word t => Some (sphDictCmpStrictly s t) | _, _ => None end.

(** The loop calls it with a word on one side at least. *)
Definition CompareWords (pWord1 pWord2 : option RtWord_t) : option comparison :=
  match pWord1, pWord2 with
  | None, None => Some Eq
  | None, Some _ => Some Gt
  | Some _, None => Some Lt
  | Some w1, Some w2 => cmp_keys (rw_key w1) (rw_key w2)
  end.

Section Merge.
Variables (tSeg1 tSeg2 : RtSegment_t) (dRowMap1 dRowMap2 : list Z).

Fixpoint merge_loop (fuel : nat) (p1 p2 : option RtWord_t) (tIn1 tIn2 : RtWordReader_c) (tOutDoc : RtDocWriter_c) (tOut : RtWordWriter_c) (dHits : list Z) : option (RtDocWriter_c * RtWordWriter_c * list Z) :=
  match fuel with
  | O => None
  | S fuel' =>
      match p1, p2 with
      | None, None => Some (tOutDoc, tOut, dHits)
      | _, _ =>
          iCmp ← CompareWords p1 p2;
          tWord ← match iCmp with Gt => p2 | _ => p1 end;
          let uDoc := pos (dw_dDocs tOutDoc) in
          '(tOutDoc, dHits, uDocs, uHits) ← match iCmp with Gt => Some (tOutDoc, dHits, 0, 0) | _ => w ← p1; CopyWord tSeg1 w dRowMap1 tOutDoc dHits 0 0 end;
          '(tOutDoc, dHits, uDocs, uHits) ← match iCmp with Lt => Some (tOutDoc, dHits, uDocs, uHits) | _ => w ← p2; CopyWord tSeg2 w dRowMap2 tOutDoc dHits uDocs uHits end;
          tOut ← (if uDocs =? 0 then Some tOut else put_word (RtWord (rw_key tWord) uDocs uHits uDoc (rw_bHasHitlist tWord)) tOut);
          '(p1, tIn1) ← match iCmp with Gt => Some (p1, tIn1) | _ => UnzipWord tIn1 end;
          '(p2, tIn2) ← match iCmp with Lt => Some (p2, tIn2) | _ => UnzipWord tIn2 end;
          merge_loop fuel' p1 p2 tIn1 tIn2 (doc_restart tOutDoc) tOut dHits
      end
  end.

(** Every word takes a byte at least. *)
Definition MergeKeywords : option RtSegment_t :=
  '(p1, tIn1) ← UnzipWord (new_word_reader (m_dWords tSeg1));
  '(p2, tIn2) ← UnzipWord (new_word_reader (m_dWords tSeg2));
  '(tOutDoc, tOut, dHits) ← merge_loop (3 + length (m_dWords tSeg1) + length (m_dWords tSeg2)) p1 p2 tIn1 tIn2 (RtDocWriter [] INVALID_ROWID) new_word_writer [];
  Some (RtSegment (ww_dWords tOut) (ww_dCheckpoints tOut) (ww_dKeywordCheckpoints tOut) (dw_dDocs tOutDoc) dHits).
End Merge.
End Words.
End RtSegment.
