(* ===== verification/RtSegmentOk.v ===== *)
(** * Segments of the real-time index: what is written is read back

    [represents] says which words, documents and hits a segment holds; [dump]
    reads a segment with its readers, and gives what it represents. *)

From stdpp Require Import sorting.
From S2P Require Import Prelude Zip Hits BinSearch SearchNode RtSegment.
Import Zip Hitman RtSegment.

Module RtSegmentOk.

Abbreviation INVALID_ROWID := SearchNode.INVALID_ROWID.
Abbreviation dword := (in_type DWORD).

(** ** Numbers *)

Lemma dword_range v : dword v <-> 0 <= v < 2 ^ 32.
Proof. done. Qed.

Lemma dword_cast v : dword (cast DWORD v).
Proof. apply dword_range. change (cast DWORD v) with (wrap 32 v). apply wrap_range. lia. Qed.

Lemma cast_dword v : dword v -> cast DWORD v = v.
Proof. intros H. by apply cast_id. Qed.

Lemma zip_cast v : ZipDword v = ZipDword (cast DWORD v).
Proof. unfold ZipDword, ZipValueLE. f_equal. change (cast DWORD v) with (wrap 32 v). change (bits DWORD) with 32. unfold wrap. by rewrite Zmod_mod. Qed.

Lemma unzip_dword v rest : UnzipDword (ZipDword v ++ rest) = Some (cast DWORD v, rest).
Proof.
  rewrite zip_cast. unfold UnzipDword, ZipDword. apply UnzipValueLE4_refines; [done|]. apply unzip_le_reference_zip; [done|apply dword_cast].
Qed.

Lemma unzip_dword_id v rest : dword v -> UnzipDword (ZipDword v ++ rest) = Some (v, rest).
Proof. intros H. by rewrite unzip_dword, cast_dword. Qed.

Lemma unzip_qword v rest : UnzipQword (ZipQword v ++ rest) = Some (cast uint64_t v, rest).
Proof.
  assert (ZipQword v = ZipQword (cast uint64_t v)) as -> by (unfold ZipQword, ZipValueLE; f_equal; change (cast uint64_t v) with (wrap 64 v); change (bits uint64_t) with 64; unfold wrap; by rewrite Zmod_mod).
  unfold UnzipQword, ZipQword. apply UnzipValueLE8_refines; [done|]. apply unzip_le_reference_zip; [done|]. change (0 <= wrap 64 v < 2 ^ 64). apply wrap_range. lia.
Qed.

(** The difference to the last number gives the number back. *)
Lemma delta_back last v : dword v -> cast DWORD (last + cast DWORD (v - last)) = v.
Proof.
  intros H. change (wrap 32 (last + wrap 32 (v - last)) = v). unfold wrap. rewrite Zplus_mod_idemp_r. replace (last + (v - last)) with v by lia. by apply Z.mod_small.
Qed.

Lemma zip_nonempty v : ZipDword v ≠ [].
Proof. unfold ZipDword, ZipValueLE. change (Z.to_nat (bits DWORD)) with 32%nat. cbn [zip_le_loop]. case_match; done. Qed.

Lemma skip_loop fuel : ∀ u rest, (u < 2 ^ Z.of_nat (7 * fuel)) -> 0 <= u -> (0 < fuel)%nat -> SkipZipped (zip_le_loop fuel u ++ rest) = Some rest.
Proof.
  induction fuel as [|fuel IH]; intros u rest Hu H0 Hf; [lia|]. cbn [zip_le_loop]. assert (Z.land u 0x7f = u mod 128) as Em by (rewrite Z.land_comm; apply group_low). pose proof (group_range u) as Hg. destruct (Z.eqb_spec (Z.shiftr u 7) 0) as [E|N]; cbn [app SkipZipped].
  - rewrite Em. by rewrite last_hi.
  - rewrite Em, group_cont by done. rewrite cont_hi by done. rewrite Z.shiftr_div_pow2 in * by lia. apply IH; [|apply Z.div_pos; lia|].
    + apply Z.div_lt_upper_bound; [lia|]. rewrite <- Z.pow_add_r by lia. replace (7 + Z.of_nat (7 * fuel)) with (Z.of_nat (7 * S fuel)) by lia. done.
    + destruct fuel; [|lia]. exfalso. apply N. apply Z.div_small. change (Z.of_nat (7 * 1)) with 7 in Hu. lia.
Qed.

Lemma skip_zip v rest : SkipZipped (ZipDword v ++ rest) = Some rest.
Proof.
  unfold ZipDword, ZipValueLE. apply skip_loop; [|apply wrap_range; cbn; lia|cbn; lia]. change (bits DWORD) with 32. pose proof (wrap_range 32 v ltac:(lia)). change (Z.of_nat (7 * Z.to_nat 32)) with 224. assert (2 ^ 32 < 2 ^ 224) by (apply Z.pow_lt_mono_r; lia). lia.
Qed.

(** ** Hits *)

Fixpoint enc_hits (last : Z) (hs : list Z) : list Z := match hs with [] => [] | h :: hs' => ZipDword (h - last) ++ enc_hits h hs' end.

Lemma rt_enc_hits_app last hs h : hs ≠ [] -> enc_hits last (hs ++ [h]) = enc_hits last hs ++ ZipDword (h - List.last hs 0).
Proof.
  revert last. induction hs as [|a hs IH]; intros l H; [done|]. cbn [app enc_hits]. destruct hs as [|b hs]; [cbn; by rewrite !app_nil_r|]. rewrite IH by done. rewrite app_assoc. f_equal.
Qed.

(** Reading the hits of a document with [UnzipHit]. *)
Fixpoint read_hits (n : nat) (r : RtHitReader_c) : option (list Z) :=
  match n with O => Some [] | S n' => '(h, r) ← UnzipHit r; l ← read_hits n' r; Some (h :: l) end.

Lemma read_enc_hits hs : ∀ last rest, Forall dword hs -> read_hits (length hs) (RtHitReader (Some (enc_hits last hs ++ rest)) (Z.of_nat (length hs)) last) = Some hs.
Proof.
  induction hs as [|h hs IH]; intros l rest H; [done|]. apply Forall_cons in H as [Hh H]. cbn [read_hits length enc_hits]. unfold UnzipHit at 1. cbn [hr_pCur hr_uLeft hr_uValue]. destruct (Z.eqb_spec (Z.of_nat (S (length hs))) 0); [lia|]. rewrite <- app_assoc, unzip_dword. cbn [mbind option_bind]. rewrite delta_back by done.
  replace (Z.of_nat (S (length hs)) - 1) with (Z.of_nat (length hs)) by lia. by rewrite IH.
Qed.

Lemma skip_enc_hits hs : ∀ last rest, skip_hits (length hs) (enc_hits last hs ++ rest) = Some rest.
Proof. induction hs as [|h hs IH]; intros l rest; [done|]. cbn [length enc_hits skip_hits]. rewrite <- app_assoc, skip_zip. cbn [mbind option_bind]. apply IH. Qed.

(** ** Documents *)

Definition doc_wf (d : RtDoc_t) : Prop := dword (rd_tRowID d) /\ dword (rd_uDocFields d) /\ dword (rd_uHits d) /\ dword (rd_uHit d).

Definition enc_doc (last : Z) (d : RtDoc_t) : list Z := dw_dDocs (put_doc d (RtDocWriter [] last)).

Fixpoint enc_docs (last : Z) (ds : list RtDoc_t) : list Z := match ds with [] => [] | d :: ds' => enc_doc last d ++ enc_docs (rd_tRowID d) ds' end.

Lemma put_doc_enc d w : put_doc d w = RtDocWriter (dw_dDocs w ++ enc_doc (dw_tLastRowID w) d) (rd_tRowID d).
Proof. done. Qed.

Fixpoint last_row (last : Z) (ds : list RtDoc_t) : Z := match ds with [] => last | d :: ds' => last_row (rd_tRowID d) ds' end.

Lemma rt_last_row_snoc ds d : ∀ l, last_row l (ds ++ [d]) = rd_tRowID d.
Proof. induction ds as [|a ds IH]; intros l; [done|]. apply IH. Qed.

Lemma enc_docs_snoc ds d : ∀ l, enc_docs l (ds ++ [d]) = enc_docs l ds ++ enc_doc (last_row l ds) d.
Proof. induction ds as [|a ds IH]; intros l; cbn [app enc_docs]; [by rewrite app_nil_r|]. by rewrite IH, app_assoc. Qed.

Lemma enc_doc_nonempty l d : enc_doc l d ≠ [].
Proof. unfold enc_doc, put_doc. cbn. intros E. apply app_eq_nil in E as [E _]. by apply zip_nonempty in E. Qed.

Lemma single_hit v : dword v -> cast DWORD (cast DWORD (Z.land v 0xffffff) + cast DWORD (Z.shiftl (cast DWORD (Z.shiftr v 24)) 24)) = v.
Proof.
  intros Hv. pose proof (proj1 (dword_range v) Hv) as H. change 0xffffff with (Z.ones 24). rewrite Z.land_ones, Z.shiftr_div_pow2 by lia. change (2 ^ 24) with 16777216. change (2 ^ 32) with 4294967296 in H.
  assert (0 <= v mod 16777216 < 16777216 /\ 0 <= v / 16777216 < 256 /\ v = 16777216 * (v / 16777216) + v mod 16777216) as (H1 & H2 & H3) by (Z.to_euclidean_division_equations; lia).
  assert (∀ x, 0 <= x < 4294967296 -> cast DWORD x = x) as C by (intros x Hx; apply cast_dword, dword_range; exact Hx). rewrite (C (v mod _)), (C (v / _)) by lia. rewrite Z.shiftl_mul_pow2 by lia. change (2 ^ 24) with 16777216. rewrite (C (_ * _)) by lia. rewrite C by lia. lia.
Qed.

Lemma unzip_doc d rest r : doc_wf d -> dr_pDocs r = Some (enc_doc (rd_tRowID (dr_tDoc r)) d ++ rest) -> dr_iLeft r ≠ 0 -> UnzipDoc r = Some (true, RtDocReader (Some rest) (dr_iLeft r - 1) d).
Proof.
  intros (H1 & H2 & H3 & H4) E Hl. unfold UnzipDoc. rewrite E. destruct (Z.eqb_spec (dr_iLeft r) 0); [done|]. unfold enc_doc, put_doc. cbn [dw_dDocs dw_tLastRowID app]. rewrite <- !app_assoc, unzip_dword. cbn [mbind option_bind]. rewrite unzip_dword_id by done. cbn [mbind option_bind]. rewrite unzip_dword_id by done. cbn [mbind option_bind]. destruct (rd_uHits d =? 1) eqn:E1.
  - rewrite <- app_assoc, unzip_dword. cbn [mbind option_bind]. rewrite unzip_dword. cbn [mbind option_bind]. rewrite single_hit, delta_back by done. by destruct d.
  - rewrite unzip_dword_id by done. cbn [mbind option_bind]. rewrite delta_back by done. by destruct d.
Qed.

(** Reading the documents of a word with [UnzipDoc]. *)
Fixpoint read_docs (n : nat) (r : RtDocReader_c) : option (list RtDoc_t) :=
  match n with
  | O => Some []
  | S n' => '(ok, r) ← UnzipDoc r; if (ok : bool) then l ← read_docs n' r; Some (dr_tDoc r :: l) else Some []
  end.

Lemma read_enc_docs ds : ∀ d0 rest, Forall doc_wf ds -> read_docs (length ds) (RtDocReader (Some (enc_docs (rd_tRowID d0) ds ++ rest)) (Z.of_nat (length ds)) d0) = Some ds.
Proof.
  induction ds as [|d ds IH]; intros d0 rest H; [done|]. apply Forall_cons in H as [Hd H]. cbn [read_docs length enc_docs]. rewrite (unzip_doc d (enc_docs (rd_tRowID d) ds ++ rest)) by (done || (cbn; by rewrite <- app_assoc) || (cbn; lia)).
  cbn [mbind option_bind dr_iLeft dr_tDoc]. replace (Z.of_nat (S (length ds)) - 1) with (Z.of_nat (length ds)) by lia. by rewrite IH.
Qed.

(** ** Keywords *)

Lemma match_range a : ∀ b, 0 <= match_len a b <= Z.of_nat (length a) /\ match_len a b <= Z.of_nat (length b).
Proof. induction a as [|x a IH]; intros [|y b]; cbn [match_len length]; try lia. destruct (x =? y); [|lia]. specialize (IH b). lia. Qed.

Lemma match_take a : ∀ b, take (Z.to_nat (match_len a b)) a = take (Z.to_nat (match_len a b)) b.
Proof.
  induction a as [|x a IH]; intros [|y b]; cbn [match_len]; try done. destruct (Z.eqb_spec x y) as [->|_]; cbn [Z.to_nat take]; [|done]. pose proof (match_range a b). replace (Z.to_nat (1 + match_len a b)) with (S (Z.to_nat (match_len a b))) by lia. cbn. by rewrite IH.
Qed.

(** A keyword that is greater than the last one has a new byte. *)
Lemma match_less a : ∀ b, sphDictCmpStrictly a b = Lt -> match_len a b < Z.of_nat (length b).
Proof.
  induction a as [|x a IH]; intros [|y b]; cbn [match_len sphDictCmpStrictly length]; try (done || lia). destruct (Z.eqb_spec x y) as [->|]; [|lia]. rewrite Z.compare_refl. intros H. specialize (IH b H). lia.
Qed.

Lemma dict_cmp_eq a : ∀ b, sphDictCmpStrictly a b = Eq <-> a = b.
Proof.
  induction a as [|x a IH]; intros [|y b]; cbn [sphDictCmpStrictly]; try done. destruct (Z.compare_spec x y) as [->|L|L]; [|split; [done|intros [= -> ->]; lia]..]. rewrite IH. split; [by intros ->|by intros [= ->]].
Qed.

Lemma dict_cmp_anti a : ∀ b, sphDictCmpStrictly b a = CompOpp (sphDictCmpStrictly a b).
Proof. induction a as [|x a IH]; intros [|y b]; cbn [sphDictCmpStrictly]; try done. rewrite (Z.compare_antisym x y). destruct (x ?= y); cbn; [apply IH|done|done]. Qed.

Lemma dict_cmp_trans a : ∀ b c, sphDictCmpStrictly a b = Lt -> sphDictCmpStrictly b c = Lt -> sphDictCmpStrictly a c = Lt.
Proof.
  induction a as [|x a IH]; intros [|y b] [|z c]; cbn [sphDictCmpStrictly]; try done. destruct (Z.compare_spec x y) as [->|L|L]; [|intros _; destruct (Z.compare_spec y z) as [->|L2|L2]; intros H; try done|done].
  - destruct (y ?= z); [apply IH|done|done].
  - by rewrite (proj2 (Z.compare_lt_iff x z) L).
  - rewrite (proj2 (Z.compare_lt_iff x z)) by lia. done.
Qed.

(** The keywords of a format: in the older one 127 bytes at most, as the length of
    the new part takes seven bits. *)
Definition max_keyword (f : DictFormat_e) : Z := match f with KEYWORDS_V2 => SPH_V2_MAX_TOKEN_BYTES | _ => 127 end.
Definition keyword_wf (f : DictFormat_e) (s : list Z) : Prop := Forall is_byte s /\ 0 < Z.of_nat (length s) <= max_keyword f.

(** The bytes of the buffer that stand for the last keyword. *)
Definition buf_holds (f : DictFormat_e) (dBuf sLast : list Z) : Prop :=
  length dBuf = length (new_buf f) /\ take (length sLast) dBuf = sLast.

Lemma new_buf_length f : Z.of_nat (length (new_buf f)) = match f with KEYWORDS_V2 => 32772 | _ => 130 end.
Proof. unfold new_buf. rewrite length_replicate. by destruct f. Qed.

(** The lengths that [PutDelta] writes. *)
Definition put_lengths (bV2 : bool) (iDelta iMatch : Z) : list Z :=
  if (iDelta <=? 8) && (iMatch <=? 15) then [cast BYTE (0x80 + Z.shiftl (iDelta - 1) 4 + iMatch)]
  else if negb bV2 then [cast BYTE iDelta; cast BYTE iMatch]
  else if (iDelta <=? 0x7e) && (iMatch <=? 0xff) then [iDelta; iMatch]
  else 0x7f :: ZipValueBE int32_t iDelta ++ ZipValueBE int32_t iMatch.

Lemma cast_byte v : 0 <= v < 256 -> cast BYTE v = v.
Proof. intros H. apply cast_id; [done|]. exact H. Qed.

Lemma small_lengths iDelta iMatch : 0 < iDelta <= 8 -> 0 <= iMatch <= 15 ->
  let b := cast BYTE (0x80 + Z.shiftl (iDelta - 1) 4 + iMatch) in
  (Z.land b 0x80 =? 0) = false /\ Z.land (Z.shiftr b 4) 7 + 1 = iDelta /\ Z.land b 15 = iMatch.
Proof.
  intros H1 H2. cbv zeta. rewrite Z.shiftl_mul_pow2 by lia. rewrite cast_byte by (change (2 ^ 4) with 16; lia). change (2 ^ 4) with 16.
  assert (∀ d m, d ∈ seqZ 1 8 -> m ∈ seqZ 0 16 -> ((Z.land (128 + (d - 1) * 16 + m) 128 =? 0) = false /\ Z.land (Z.shiftr (128 + (d - 1) * 16 + m) 4) 7 + 1 = d /\ Z.land (128 + (d - 1) * 16 + m) 15 = m)) as K.
  { assert (forallb (λ d, forallb (λ m, negb (Z.land (128 + (d - 1) * 16 + m) 128 =? 0) && (Z.land (Z.shiftr (128 + (d - 1) * 16 + m) 4) 7 + 1 =? d) && (Z.land (128 + (d - 1) * 16 + m) 15 =? m)) (seqZ 0 16)) (seqZ 1 8) = true) as F by (vm_compute; reflexivity).
    intros d m Hd Hm. rewrite forallb_forall in F. specialize (F d ltac:(by apply list_elem_of_In)). rewrite forallb_forall in F. specialize (F m ltac:(by apply list_elem_of_In)). rewrite !andb_true_iff, negb_true_iff, !Z.eqb_eq in F. tauto. }
  apply K; apply elem_of_seqZ; lia.
Qed.

Lemma be4_app T s v r t : UnzipValueBE4 T s = Some (v, r) -> UnzipValueBE4 T (s ++ t) = Some (v, r ++ t).
Proof.
  unfold UnzipValueBE4. do 4 (destruct s as [|? s]; [done|]; cbn [app get mbind option_bind]; case_match; [by intros [= <- <-]|]). destruct s as [|? s]; [done|]. cbn [app get mbind option_bind]. by intros [= <- <-].
Qed.

Lemma unpack_put f iDelta iMatch rest : f ≠ CRC -> 0 < iDelta -> 0 <= iMatch -> iDelta + iMatch <= max_keyword f ->
  unpack_lengths f (put_lengths (bool_decide (f = KEYWORDS_V2)) iDelta iMatch ++ rest) = Some (iDelta, iMatch, rest).
Proof.
  intros Nf H1 H2 H3. unfold put_lengths. destruct ((iDelta <=? 8) && (iMatch <=? 15)) eqn:E1.
  - apply andb_true_iff in E1 as [E1%Z.leb_le E2%Z.leb_le]. destruct (small_lengths iDelta iMatch) as (A & B & C); [lia|lia|]. unfold unpack_lengths. cbn [app get mbind option_bind]. by rewrite A, B, C.
  - assert (∀ d m, 0 < d < 127 -> 0 <= m < 256 -> unpack_lengths f (d :: m :: rest) = Some (d, m, rest)) as K.
    { intros d m Hd Hm. unfold unpack_lengths. cbn [get mbind option_bind]. rewrite (byte_hi d) by (unfold is_byte; lia). destruct (Z.ltb_spec d 128); [|lia]. cbn [negb]. destruct (Z.eqb_spec d 127); [lia|]. rewrite andb_false_r. change 127 with (Z.ones 7). rewrite Z.land_ones, Z.mod_small by lia. done. }
    destruct f; [done| |]; cbn [bool_decide decide_rel].
    + rewrite bool_decide_eq_false_2 by done. cbn [negb app max_keyword] in *. rewrite !cast_byte by lia. destruct (decide (iDelta = 127)) as [->|]; [|apply K; lia]. assert (iMatch = 0) as -> by lia. done.
    + rewrite bool_decide_eq_true_2 by done. cbn [negb]. unfold max_keyword, SPH_V2_MAX_TOKEN_BYTES in H3. destruct ((iDelta <=? 126) && (iMatch <=? 255)) eqn:E2; [apply andb_true_iff in E2 as [?%Z.leb_le ?%Z.leb_le]; cbn [app]; apply K; lia|].
      unfold unpack_lengths. cbn [app get mbind option_bind]. change (Z.land 127 128 =? 0) with true. cbn [negb]. rewrite bool_decide_eq_true_2 by done. cbn [andb]. change (127 =? 127) with true. cbv iota.
      assert (∀ v r, 0 <= v <= 32768 -> UnzipIntBE (ZipValueBE int32_t v ++ r) = Some (v, r)) as Z.
      { intros v r Hv. apply (be4_app _ _ v [] r). change (ZipValueBE int32_t v) with (ZipValueBE DWORD v). rewrite <- (app_nil_r (ZipValueBE DWORD v)). apply unzip_be4_zip; [done|apply dword_range; lia|constructor]. }
      rewrite <- app_assoc, Z by lia. cbn [mbind option_bind]. rewrite Z by lia. cbn [mbind option_bind]. rewrite !cast_id; [done|done| |done|]; unfold in_type; cbn; lia.
Qed.

Lemma PutDelta_eq bV2 sLast s : PutDelta bV2 sLast s =
  if Z.of_nat (length s) <? GetKeywordBufSize (if bV2 then KEYWORDS_V2 else KEYWORDS) then Some (put_lengths bV2 (Z.of_nat (length s) - match_len sLast s) (match_len sLast s) ++ drop (Z.to_nat (match_len sLast s)) s) else None.
Proof. done. Qed.

Lemma keyword_step f dBuf sLast s : f ≠ CRC -> keyword_wf f s -> buf_holds f dBuf sLast -> sLast = [] \/ sphDictCmpStrictly sLast s = Lt ->
  ∃ d, PutDelta (bool_decide (f = KEYWORDS_V2)) sLast s = Some d /\ d ≠ [] /\ ∀ rest, ∃ dBuf', unpack_keyword f dBuf (d ++ rest) = Some (s, dBuf', rest) /\ buf_holds f dBuf' s.
Proof.
  intros Nf [Hb Hl] [B1 B2] Hn. pose proof (new_buf_length f) as Lb. rewrite <- B1 in Lb. pose proof (match_range sLast s) as [M1 M2]. set (m := match_len sLast s) in *.
  assert (m < Z.of_nat (length s)) as M3 by (destruct Hn as [Hn|Hn]; [rewrite Hn in M1; cbn [length] in M1; lia|by apply match_less in Hn]).
  assert (Z.of_nat (length s) < Z.of_nat (length dBuf)) as Hs by (unfold max_keyword, SPH_V2_MAX_TOKEN_BYTES in Hl; destruct f; lia). rewrite PutDelta_eq. fold m.
  assert ((Z.of_nat (length s) <? GetKeywordBufSize (if bool_decide (f = KEYWORDS_V2) then KEYWORDS_V2 else KEYWORDS)) = true) as -> by (apply Z.ltb_lt; unfold max_keyword, SPH_V2_MAX_TOKEN_BYTES in Hl; destruct f; [done|rewrite bool_decide_eq_false_2 by done|rewrite bool_decide_eq_true_2 by done]; unfold GetKeywordBufSize, SPH_V2_MAX_TOKEN_BYTES; lia).
  eexists. split; [done|]. split; [intros [_ E]%app_eq_nil; apply (f_equal length) in E; rewrite length_drop in E; cbn in E; lia|]. intros rest. unfold unpack_keyword. rewrite <- app_assoc, unpack_put by (done || lia). cbn [mbind option_bind].
  replace (m + (Z.of_nat (length s) - m)) with (Z.of_nat (length s)) by lia. assert (length (drop (Z.to_nat m) s) = Z.to_nat (Z.of_nat (length s) - m)) as Ld by (rewrite length_drop; lia). rewrite length_app, Ld. destruct (Z.ltb_spec (Z.of_nat (length s)) (Z.of_nat (length dBuf))); [|lia]. destruct (Z.leb_spec (Z.of_nat (length s) - m) (Z.of_nat (Z.to_nat (Z.of_nat (length s) - m) + length rest))); [|lia]. cbn [andb].
  rewrite <- Ld, take_app_length, drop_app_length. assert (take (Z.to_nat m) dBuf = take (Z.to_nat m) s) as Et. { transitivity (take (Z.to_nat m) sLast); [|apply match_take]. rewrite <- B2, take_take. f_equal. lia. }
  rewrite Et, app_assoc, take_drop, Nat2Z.id, take_app_length. eexists. split; [done|]. split; [|by rewrite take_app_length]. rewrite <- B1, length_app. cbn [length]. rewrite length_drop. lia.
Qed.

(** ** Words *)

Lemma buf_empty f dBuf sLast : buf_holds f dBuf sLast -> buf_holds f dBuf [].
Proof. by intros [H _]. Qed.

Section Words.
Context (f : DictFormat_e) (cp : Z) (mode : ESphHitless).

Definition key_wf (k : wordkey) : Prop := match f, k with CRC, WordID u => in_type uint64_t u | KEYWORDS, Word s | KEYWORDS_V2, Word s => keyword_wf f s | _, _ => False end.

Definition word_wf (t : RtWord_t) : Prop :=
  key_wf (rw_key t) /\ dword (rw_uDocs t) /\ dword (rw_uHits t) /\ dword (rw_uDoc t) /\
  match mode with SPH_HITLESS_NONE => rw_bHasHitlist t = true | SPH_HITLESS_SOME => rw_uDocs t < 2 ^ 31 | SPH_HITLESS_ALL => rw_bHasHitlist t = false /\ rw_uDocs t < 2 ^ 31 end.

(** The word may follow what was written last. *)
Definition follows (w : RtWordWriter_c) (k : wordkey) : Prop := match k with WordID _ => True | Word s => ww_sLastKeyword w = [] \/ sphDictCmpStrictly (ww_sLastKeyword w) s = Lt end.

(** The writer with a checkpoint before the word, if it needs one. *)
Definition before_word (t : RtWord_t) (w : RtWordWriter_c) : option RtWordWriter_c :=
  if ww_iWords w + 1 =? cp then put_checkpoint f t w
  else Some (RtWordWriter (ww_dWords w) (ww_dCheckpoints w) (ww_dKeywordCheckpoints w) (ww_sLastKeyword w) (ww_uLastWordID w) (ww_uLastDoc w) (ww_iWords w + 1)).

(** A reader that has no key yet reads from 0. *)
Definition reader_id (r : RtWordReader_c) : Z := match rw_key (wr_tWord r) with WordID u => u | _ => 0 end.

Definition at_checkpoint (r : RtWordReader_c) : bool := wr_iWords r + 1 =? cp.

(** The reader will read the next word as the writer [w] writes it. *)
Definition ready (w : RtWordWriter_c) (r : RtWordReader_c) : Prop :=
  (if at_checkpoint r then 1 else wr_iWords r + 1) = ww_iWords w /\
  (if at_checkpoint r then 0 else rw_uDoc (wr_tWord r)) = ww_uLastDoc w /\
  match f with CRC => (if at_checkpoint r then 0 else reader_id r) = ww_uLastWordID w | _ => buf_holds f (wr_dBuf r) (ww_sLastKeyword w) end.

Definition synced (w : RtWordWriter_c) (r : RtWordReader_c) : Prop :=
  wr_iWords r = ww_iWords w /\ rw_uDoc (wr_tWord r) = ww_uLastDoc w /\ match f with CRC => reader_id r = ww_uLastWordID w | _ => buf_holds f (wr_dBuf r) (ww_sLastKeyword w) end.

Lemma synced_ready t w w1 r : synced w r -> before_word t w = Some w1 -> ready w1 r.
Proof.
  intros (S1 & S2 & S3) E. unfold before_word in E. unfold ready, at_checkpoint. rewrite S1. destruct (ww_iWords w + 1 =? cp) eqn:Ec.
  - unfold put_checkpoint in E. destruct f, (rw_key t); try done; injection E as <-; cbn; (split; [done|split; [done|]]); (done || by eapply buf_empty).
  - injection E as <-. cbn. by rewrite S2.
Qed.

Lemma before_ok t w : key_wf (rw_key t) -> ∃ w1, before_word t w = Some w1 /\ ww_dWords w1 = ww_dWords w /\ (ww_sLastKeyword w1 = ww_sLastKeyword w \/ ww_sLastKeyword w1 = []).
Proof.
  intros K. unfold before_word. destruct (ww_iWords w + 1 =? cp); [|eexists; split; [done|]; split; [done|by left]]. unfold put_checkpoint, key_wf in *. destruct f, (rw_key t); try done; eexists; (split; [done|]); (split; [done|]); (by left) || by right.
Qed.

Lemma flag_bits v : 0 <= v < 2 ^ 31 -> Z.land v HITLESS_DOC_FLAG = 0 /\ Z.land v HITLESS_DOC_MASK = v /\ dword (Z.lor v HITLESS_DOC_FLAG) /\ Z.land (Z.lor v HITLESS_DOC_FLAG) HITLESS_DOC_FLAG ≠ 0 /\ Z.land (Z.lor v HITLESS_DOC_FLAG) HITLESS_DOC_MASK = v.
Proof.
  intros H. unfold HITLESS_DOC_FLAG, HITLESS_DOC_MASK. change 0x80000000 with (Z.shiftl 1 31). change 0x7FFFFFFF with (Z.ones 31). assert (Z.land v (Z.shiftl 1 31) = 0) as E.
  { apply Z.bits_inj'. intros i Hi. rewrite Z.land_spec, Z.shiftl_spec, Z.bits_0 by lia. destruct (Z.ltb_spec i 31); [by rewrite (Z.testbit_neg_r 1), andb_false_r by lia|]. by rewrite (testbit_high v 31 i) by lia. }
  assert (Z.land v (Z.ones 31) = v) as E2 by (rewrite Z.land_ones by lia; apply Z.mod_small; lia). split; [done|]. split; [done|]. rewrite !Z.land_lor_distr_l, E, E2. split; [|split].
  - rewrite Z.lor_comm, lor_shiftl_add by lia. apply dword_range. lia.
  - rewrite Z.lor_0_l, Z.land_diag. done.
  - change (Z.land (Z.shiftl 1 31) (Z.ones 31)) with 0. by rewrite Z.lor_0_r.
Qed.

Definition flagged (t : RtWord_t) : Z := if negb (rw_bHasHitlist t) && bool_decide (mode = SPH_HITLESS_SOME) then Z.lor (rw_uDocs t) HITLESS_DOC_FLAG else rw_uDocs t.

Lemma flagged_ok t : word_wf t -> dword (flagged t) /\
  match mode with SPH_HITLESS_NONE => true | SPH_HITLESS_SOME => Z.land (flagged t) HITLESS_DOC_FLAG =? 0 | SPH_HITLESS_ALL => false end = rw_bHasHitlist t /\
  match mode with SPH_HITLESS_NONE => flagged t | _ => Z.land (flagged t) HITLESS_DOC_MASK end = rw_uDocs t.
Proof.
  intros (_ & H & _ & _ & M). unfold flagged. destruct mode.
  - rewrite M. done.
  - destruct (flag_bits (rw_uDocs t)) as (A & B & C & D & F); [pose proof (proj1 (dword_range _) H); lia|]. rewrite bool_decide_eq_true_2 by done. destruct (rw_bHasHitlist t); cbn [negb andb]; [by rewrite A, B|]. split; [done|]. split; [by apply Z.eqb_neq|done].
  - destruct M as [M1 M2]. destruct (flag_bits (rw_uDocs t)) as (A & B & _); [pose proof (proj1 (dword_range _) H); lia|]. rewrite bool_decide_eq_false_2 by done. rewrite andb_false_r. done.
Qed.

(** One word: what is appended, and how it is read. *)
Lemma word_step t w w1 : word_wf t -> before_word t w = Some w1 -> follows w1 (rw_key t) -> (f ≠ CRC -> ∃ dBuf, buf_holds f dBuf (ww_sLastKeyword w1)) ->
  ∃ w' d, put_word f cp mode t w = Some w' /\ ww_dWords w' = ww_dWords w1 ++ d /\ d ≠ [] /\ ww_dCheckpoints w' = ww_dCheckpoints w1 /\ ww_dKeywordCheckpoints w' = ww_dKeywordCheckpoints w1 /\
    (match rw_key t with Word s => ww_sLastKeyword w' = s | _ => ww_sLastKeyword w' = ww_sLastKeyword w1 end) /\
    ∀ r rest, ready w1 r -> wr_pCur r = d ++ rest -> (wr_iTail r <= length rest)%nat -> ∃ r', UnzipWord f cp mode r = Some (Some t, r') /\ wr_pCur r' = rest /\ wr_iTail r' = wr_iTail r /\ synced w' r'.
Proof.
  intros Wf E Hn Hbuf. destruct (flagged_ok t Wf) as (F1 & F2 & F3). destruct Wf as (K & H1 & H2 & H3 & _). unfold put_word. change (if ww_iWords w + 1 =? cp then put_checkpoint f t w else _) with (before_word t w). rewrite E. cbn [mbind option_bind]. fold (flagged t).
  assert (∃ dKey sLast uLast, match f, rw_key t with CRC, WordID u => Some (ZipQword (u - ww_uLastWordID w1), ww_sLastKeyword w1, u) | KEYWORDS, Word s => d ← PutDelta false (ww_sLastKeyword w1) s; Some (d, s, 0) | KEYWORDS_V2, Word s => d ← PutDelta true (ww_sLastKeyword w1) s; Some (d, s, 0) | _, _ => None end = Some (dKey, sLast, uLast) /\
    (match rw_key t with Word s => sLast = s | _ => sLast = ww_sLastKeyword w1 end) /\
    ∀ r rest, ready w1 r -> ∃ dBuf, match f with CRC => '(d, pIn) ← UnzipQword (dKey ++ rest); Some (WordID (cast uint64_t ((if at_checkpoint r then 0 else reader_id r) + d)), wr_dBuf r, pIn) | _ => '(s, dBuf, pIn) ← unpack_keyword f (wr_dBuf r) (dKey ++ rest); Some (Word s, dBuf, pIn) end = Some (rw_key t, dBuf, rest) /\
      match f with CRC => match rw_key t with WordID u => u | _ => 0 end = uLast | _ => buf_holds f dBuf sLast end) as (dKey & sLast & uLast & -> & Hs & Hk).
  { unfold key_wf, follows, ready in *. destruct (decide (f = CRC)) as [Ef|Nf].
    - destruct f; try done. destruct (rw_key t) as [u|]; [|done]. eexists _, _, _. split; [done|]. split; [done|]. intros r rest (_ & _ & Hu). rewrite Hu, unzip_qword. cbn [mbind option_bind]. assert (cast uint64_t (ww_uLastWordID w1 + cast uint64_t (u - ww_uLastWordID w1)) = u) as ->; [|by eexists]. change (wrap 64 (ww_uLastWordID w1 + wrap 64 (u - ww_uLastWordID w1)) = u). unfold wrap. rewrite Zplus_mod_idemp_r. replace (ww_uLastWordID w1 + (u - ww_uLastWordID w1)) with u by lia. by apply Z.mod_small.
    - destruct (rw_key t) as [|s]; [by destruct f|]. destruct (Hbuf Nf) as [b0 Hb0]. assert (keyword_wf f s) as Ks by (destruct f; done). destruct (keyword_step f b0 (ww_sLastKeyword w1) s Nf Ks Hb0 Hn) as (d & Ed & _ & _).
      exists d, s, 0. split; [destruct f; [done|..]; rewrite ?bool_decide_eq_false_2, ?bool_decide_eq_true_2 in Ed by done; by rewrite Ed|]. split; [done|]. intros r rest (_ & _ & Hb). assert (buf_holds f (wr_dBuf r) (ww_sLastKeyword w1)) as Hb' by (destruct f; done).
      destruct (keyword_step f _ _ s Nf Ks Hb' Hn) as (d' & Ed' & _ & G). rewrite Ed in Ed'. injection Ed' as <-. destruct (G rest) as (dBuf' & Eu & Hbd). exists dBuf'. rewrite Eu. cbn [mbind option_bind]. by destruct f. }
  cbn [mbind option_bind]. eexists _, _. split; [done|]. cbn [ww_dWords ww_dCheckpoints ww_dKeywordCheckpoints ww_sLastKeyword]. split; [done|]. split; [intros [_ [Ez _]%app_eq_nil]%app_eq_nil; by apply zip_nonempty in Ez|]. split; [done|]. split; [done|]. split; [done|].
  intros r rest Hr Ep Ht. destruct (Hk r (ZipDword (flagged t) ++ ZipDword (rw_uHits t) ++ ZipDword (rw_uDoc t - ww_uLastDoc w1) ++ rest) Hr) as (dBuf & Ek & Hd). destruct Hr as (R1 & R2 & _). unfold UnzipWord. rewrite Ep, !length_app. pose proof (zip_nonempty (flagged t)) as Nz. destruct (ZipDword (flagged t)) as [|z0 zl] eqn:Ez; [done|]. rewrite <- Ez in *.
  assert (length (ZipDword (flagged t)) ≠ 0%nat) by (by rewrite Ez). destruct (Nat.leb_spec (length dKey + (length (ZipDword (flagged t)) + (length (ZipDword (rw_uHits t)) + length (ZipDword (rw_uDoc t - ww_uLastDoc w1)))) + length rest) (wr_iTail r)); [lia|].
  rewrite <- !app_assoc. unfold at_checkpoint, reader_id in *. rewrite Ek. cbn [mbind option_bind]. rewrite unzip_dword_id by done. cbn [mbind option_bind]. rewrite unzip_dword_id by done. cbn [mbind option_bind]. rewrite unzip_dword. cbn [mbind option_bind]. rewrite R2, delta_back, F2, F3 by done. eexists. split; [by destruct t|]. cbn. split; [done|]. split; [done|]. split; [done|]. split; [done|]. exact Hd.
Qed.

(** ** Series of words *)

Fixpoint put_words (ws : list RtWord_t) (w : RtWordWriter_c) : option RtWordWriter_c :=
  match ws with [] => Some w | t :: ws' => w ← put_word f cp mode t w; put_words ws' w end.

Lemma put_words_snoc ws t : ∀ w, put_words (ws ++ [t]) w = (w ← put_words ws w; put_word f cp mode t w).
Proof. induction ws as [|a ws IH]; intros w; cbn [app put_words mbind option_bind]; [by destruct (put_word f cp mode t w)|]. destruct (put_word f cp mode a w); cbn [mbind option_bind]; [apply IH|done]. Qed.

Definition key_lt (a b : wordkey) : Prop := cmp_keys a b = Some Lt.

(** The words come in the order of their keys. *)
Definition sorted_keys (ks : list wordkey) : Prop := StronglySorted key_lt ks.

(** The last keyword of the writer is the key [prev] or was reset. *)
Record wlast (w : RtWordWriter_c) (prev : option wordkey) : Prop := {
  wl_key : f ≠ CRC -> ww_sLastKeyword w = [] \/ prev = Some (Word (ww_sLastKeyword w));
  wl_buf : f ≠ CRC -> ∃ dBuf, buf_holds f dBuf (ww_sLastKeyword w)
}.

Definition next_key (prev : option wordkey) (k : wordkey) : Prop := match prev with None => True | Some k0 => key_lt k0 k end.

Lemma keyword_buf s : f ≠ CRC -> keyword_wf f s -> ∃ dBuf, buf_holds f dBuf s.
Proof.
  intros Nf [_ H]. pose proof (new_buf_length f) as L. exists (s ++ drop (length s) (new_buf f)). split; [|apply take_app_length]. rewrite length_app, length_drop. unfold max_keyword, SPH_V2_MAX_TOKEN_BYTES in H. destruct f; lia.
Qed.

Lemma put_one t w prev : word_wf t -> wlast w prev -> next_key prev (rw_key t) -> ∃ w1 w' d, before_word t w = Some w1 /\ put_word f cp mode t w = Some w' /\ ww_dWords w' = ww_dWords w ++ d /\ d ≠ [] /\ wlast w' (Some (rw_key t)) /\ ww_dCheckpoints w' = ww_dCheckpoints w1 /\ ww_dKeywordCheckpoints w' = ww_dKeywordCheckpoints w1 /\
  ∀ r rest, ready w1 r -> wr_pCur r = d ++ rest -> (wr_iTail r <= length rest)%nat -> ∃ r', UnzipWord f cp mode r = Some (Some t, r') /\ wr_pCur r' = rest /\ wr_iTail r' = wr_iTail r /\ synced w' r'.
Proof.
  intros Wf [L1 L2] Hn. destruct (before_ok t w (proj1 Wf)) as (w1 & E & Ew & Hl). assert (∃ dBuf, f ≠ CRC -> buf_holds f dBuf (ww_sLastKeyword w1)) as [b0 Hb].
  { destruct (decide (f = CRC)); [by exists []|]. destruct (L2 n) as [b0 Hb]. exists b0. intros _. destruct Hl as [->| ->]; [done|]. by eapply buf_empty. }
  destruct (word_step t w w1 Wf E) as (w' & d & H1 & H2 & H3 & H4 & H5 & H6 & H7).
  - unfold follows. destruct (rw_key t) as [|s] eqn:Ek; [done|]. assert (f ≠ CRC) as Nf by (pose proof (proj1 Wf) as K; unfold key_wf in K; rewrite Ek in K; intros Ef; by rewrite Ef in K). destruct Hl as [->| ->]; [|by left]. destruct (L1 Nf) as [->|Lp]; [by left|]. right. rewrite Lp in Hn. cbn in Hn. unfold key_lt in Hn. cbn in Hn. congruence.
  - intros Nf. exists b0. by apply Hb.
  - exists w1, w', d. split; [done|]. split; [done|]. rewrite <- Ew. split; [done|]. split; [done|]. split; [|done]. pose proof (proj1 Wf) as K. unfold key_wf in K. destruct (rw_key t) as [u|s] eqn:Ek.
    + assert (f = CRC) as Ef by (by destruct f). by split.
    + split; [intros _; right; by rewrite H6|]. intros Nf. rewrite H6. apply keyword_buf; [done|]. by destruct f.
Qed.

(** What [UnzipWord] reads one after the other. *)
Inductive reads : list RtWord_t -> RtWordReader_c -> RtWordReader_c -> Prop :=
| reads_nil r : reads [] r r
| reads_cons t ws r r1 r2 : UnzipWord f cp mode r = Some (Some t, r1) -> reads ws r1 r2 -> reads (t :: ws) r r2.

Lemma put_all ws : ∀ w prev, Forall word_wf ws -> wlast w prev -> sorted_keys (map rw_key ws) -> match ws with t :: _ => next_key prev (rw_key t) | [] => True end ->
  ∃ w' d, put_words ws w = Some w' /\ ww_dWords w' = ww_dWords w ++ d /\ (length ws <= length d)%nat /\ wlast w' (match last ws with Some t => Some (rw_key t) | None => prev end) /\
    ∀ r rest, synced w r -> wr_pCur r = d ++ rest -> (wr_iTail r <= length rest)%nat -> ∃ r', reads ws r r' /\ wr_pCur r' = rest /\ wr_iTail r' = wr_iTail r /\ synced w' r'.
Proof.
  induction ws as [|t ws IH]; intros w prev Wf Wl Hs Hn; cbn [put_words].
  - exists w, []. split; [done|]. split; [by rewrite app_nil_r|]. split; [done|]. split; [done|]. intros r rest Hr Ep Ht. exists r. split; [constructor|]. done.
  - apply Forall_cons in Wf as [Wt Wf]. destruct (put_one t w prev Wt Wl Hn) as (w1 & w2 & d & E1 & -> & E3 & Nd & Wl2 & _ & _ & Hrd). cbn [mbind option_bind]. cbn [map] in Hs. apply StronglySorted_inv in Hs as [Hs Hf].
    destruct (IH w2 (Some (rw_key t)) Wf Wl2 Hs) as (w' & d' & -> & E5 & Hl & Wl' & Hrd'). { destruct ws as [|t' ws]; [done|]. cbn [map] in Hf. by apply Forall_cons in Hf as [Hf _]. }
    exists w', (d ++ d'). split; [done|]. split; [by rewrite E5, E3, app_assoc|]. split; [rewrite length_app; destruct d; [done|]; cbn; lia|]. split; [destruct ws as [|t' ws]; [done|]; rewrite last_cons_cons; destruct (last (t' :: ws)) eqn:El; [done|by apply last_None in El]|].
    intros r rest Hr Ep Ht. destruct (Hrd r (d' ++ rest)) as (r1 & R1 & R2 & R3 & R4); [by eapply synced_ready|by rewrite Ep, app_assoc|rewrite length_app; lia|]. destruct (Hrd' r1 rest R4 R2) as (r2 & Q1 & Q2 & Q3 & Q4); [by rewrite R3|]. exists r2. split; [by econstructor|]. split; [done|]. split; [by rewrite Q3|done].
Qed.

Lemma new_wlast prev : wlast new_word_writer prev.
Proof. split; [by left|]. intros _. exists (new_buf f). by split. Qed.

Lemma new_synced dWords : synced new_word_writer (new_word_reader f dWords).
Proof. split; [done|]. split; [done|]. unfold new_word_reader. cbn [wr_dBuf]. destruct f eqn:E; [done|..]; by split. Qed.

(** One more word. *)
Lemma put_snoc ws t w : put_words ws new_word_writer = Some w -> Forall word_wf (ws ++ [t]) -> sorted_keys (map rw_key (ws ++ [t])) -> ∃ w', put_word f cp mode t w = Some w' /\ put_words (ws ++ [t]) new_word_writer = Some w'.
Proof.
  intros E Wf Hs. destruct (put_all (ws ++ [t]) new_word_writer None Wf (new_wlast None) Hs) as (w' & d & Ew & _); [by destruct ws|]. exists w'. split; [|done]. rewrite put_words_snoc, E in Ew. exact Ew.
Qed.

(** ** What a segment holds *)

Record gdoc := GDoc { g_row : Z; g_fields : Z; g_hits : list Z }.
Record gword := GWord { g_key : wordkey; g_hashits : bool; g_docs : list gdoc }.

Definition hits_at (dHits : list Z) (d : RtDoc_t) (hs : list Z) : Prop :=
  match hs with
  | [h] => rd_uHit d = h
  | _ => ∃ pre post, dHits = pre ++ enc_hits 0 hs ++ post /\ rd_uHit d = Z.of_nat (length pre)
  end.

Record doc_at (dHits : list Z) (d : RtDoc_t) (g : gdoc) : Prop := {
  da_wf : doc_wf d;
  da_row : rd_tRowID d = g_row g;
  da_fields : rd_uDocFields d = g_fields g;
  da_count : rd_uHits d = Z.of_nat (length (g_hits g));
  da_dwords : Forall dword (g_hits g);
  da_some : g_hits g ≠ [];
  da_hits : hits_at dHits d (g_hits g)
}.

Definition hit_count (g : gword) : Z := foldr (λ d n, Z.of_nat (length (g_hits d)) + n) 0 (g_docs g).

Record word_at (dDocs dHits : list Z) (t : RtWord_t) (g : gword) : Prop := {
  wa_key : rw_key t = g_key g;
  wa_has : rw_bHasHitlist t = g_hashits g;
  wa_hits : rw_uHits t = cast DWORD (hit_count g);
  wa_some : g_docs g ≠ [];
  wa_docs : ∃ ds pre post, dDocs = pre ++ enc_docs INVALID_ROWID ds ++ post /\ rw_uDoc t = Z.of_nat (length pre) /\ rw_uDocs t = Z.of_nat (length ds) /\ Z.of_nat (length ds) < 2 ^ 31 /\ Forall2 (doc_at dHits) ds (g_docs g)
}.

Record represents (seg : RtSegment_t) (gs : list gword) : Prop := {
  re_words : ∃ ws w, put_words ws new_word_writer = Some w /\ m_dWords seg = ww_dWords w /\ m_dWordCheckpoints seg = ww_dCheckpoints w /\ m_dKeywordCheckpoints seg = ww_dKeywordCheckpoints w /\
    Forall word_wf ws /\ Forall2 (word_at (m_dDocs seg) (m_dHits seg)) ws gs;
  re_sorted : sorted_keys (map g_key gs)
}.

(** ** Reading a whole segment *)

Definition dump_doc (dHits : list Z) (d : RtDoc_t) : option gdoc :=
  hs ← (if rd_uHits d =? 1 then Some [rd_uHit d] else read_hits (Z.to_nat (rd_uHits d)) (new_hit_reader dHits d));
  Some (GDoc (rd_tRowID d) (rd_uDocFields d) hs).

Definition dump_word (seg : RtSegment_t) (t : RtWord_t) : option gword :=
  ds ← read_docs (Z.to_nat (rw_uDocs t)) (new_doc_reader (m_dDocs seg) t);
  gs ← mapM (dump_doc (m_dHits seg)) ds;
  Some (GWord (rw_key t) (rw_bHasHitlist t) gs).

Fixpoint read_words (fuel : nat) (r : RtWordReader_c) : option (list RtWord_t) :=
  match fuel with
  | O => None
  | S fuel' => '(p, r) ← UnzipWord f cp mode r; match p with None => Some [] | Some t => l ← read_words fuel' r; Some (t :: l) end
  end.

Definition dump (seg : RtSegment_t) : option (list gword) :=
  ws ← read_words (S (length (m_dWords seg))) (new_word_reader f (m_dWords seg));
  mapM (dump_word seg) ws.

Lemma reads_words ws : ∀ fuel r r', reads ws r r' -> (length (wr_pCur r') <= wr_iTail r')%nat -> (length ws < fuel)%nat -> read_words fuel r = Some ws.
Proof.
  induction ws as [|t ws IH]; intros [|fuel] r r' H Ht Hf; cbn in Hf; try lia; inversion H as [|? ? ? r1 ? Hu Hr]; subst; cbn [read_words].
  - unfold UnzipWord. apply Nat.leb_le in Ht. by rewrite Ht.
  - rewrite Hu. cbn [mbind option_bind]. rewrite (IH fuel r1 r') by (done || lia). done.
Qed.

Lemma point_app pre l post : l ≠ [] -> point (pre ++ l ++ post) (Z.of_nat (length pre)) = Some (l ++ post).
Proof. intros N. unfold point. rewrite Nat2Z.id, drop_app_length. destruct pre, l; done. Qed.

Lemma dump_doc_ok dHits d g : doc_at dHits d g -> dump_doc dHits d = Some g.
Proof.
  intros [H1 H2 H3 H4 H5 H6 H7]. unfold dump_doc. rewrite H2, H3. destruct g as [row fields hs]. cbn [g_row g_fields g_hits] in *. destruct hs as [|h [|h' hs]]; [done|rewrite H4; cbn; cbn in H7; by rewrite H7|]. destruct H7 as (pre & post & Eh & Ep). rewrite H4. destruct (Z.eqb_spec (Z.of_nat (length (h :: h' :: hs))) 1) as [E|_]; [cbn in E; lia|].
  unfold new_hit_reader. rewrite Ep, Eh, point_app. 2: { cbn [enc_hits]. intros [Ez _]%app_eq_nil. by apply zip_nonempty in Ez. } rewrite H4, Nat2Z.id, read_enc_hits by done. done.
Qed.

Lemma dump_word_ok seg t g : word_at (m_dDocs seg) (m_dHits seg) t g -> dump_word seg t = Some g.
Proof.
  intros [H1 H2 H3 H4 (ds & pre & post & Ed & Ep & En & Hn & F)]. unfold dump_word, new_doc_reader. rewrite Ep, Ed, point_app, En, Nat2Z.id. 2: { intros E. destruct ds as [|d ds]; [apply Forall2_nil_inv_l in F; done|]. cbn in E. apply app_eq_nil in E as [E _]. by apply enc_doc_nonempty in E. }
  rewrite cast_id by (done || unfold in_type; cbn; lia). change INVALID_ROWID with (rd_tRowID (RtDoc INVALID_ROWID 0 0 0)) at 1. rewrite read_enc_docs by (eapply Forall2_Forall_l; [exact F|]; apply Forall_true; by intros ? ? []). cbn [mbind option_bind].
  assert (mapM (dump_doc (m_dHits seg)) ds = Some (g_docs g)) as ->; [|cbn; rewrite H1, H2; by destruct g]. apply mapM_Some. eapply Forall2_impl; [exact F|]. intros. by apply dump_doc_ok.
Qed.

Lemma words_sorted seg gs ws : Forall2 (word_at (m_dDocs seg) (m_dHits seg)) ws gs -> map rw_key ws = map g_key gs.
Proof. induction 1 as [|t g ws gs H _ IH]; [done|]. cbn. rewrite IH. f_equal. apply H. Qed.

(** Reading a segment gives what it represents. *)
Lemma dump_ok seg gs : represents seg gs -> dump seg = Some gs.
Proof.
  intros [(ws & w & Ew & E1 & _ & _ & Wf & F) Hs]. unfold dump. rewrite <- (words_sorted seg gs ws F) in Hs. destruct (put_all ws new_word_writer None Wf (new_wlast None) Hs) as (w' & d & Ew' & Ed & Hl & _ & Hr); [by destruct ws|]. rewrite Ew in Ew'. injection Ew' as <-. cbn in Ed. rewrite E1, Ed.
  destruct (Hr (new_word_reader f d) [] (new_synced d)) as (r' & R1 & R2 & R3 & _); [by rewrite app_nil_r|done|]. rewrite (reads_words ws _ _ _ R1) by (rewrite ?R2; cbn; lia). cbn [mbind option_bind]. apply mapM_Some. eapply Forall2_impl; [exact F|]. intros. by apply dump_word_ok.
Qed.
End Words.
End RtSegmentOk.

(** * A segment from the hits of a transaction holds them *)

From stdpp Require Import sorting.
From S2P Require Import Prelude Zip Hits BinSearch SearchNode RtSegment.
Import Zip Hitman RtSegment RtSegmentOk.

Module RtCreateOk.

Abbreviation INVALID_ROWID := SearchNode.INVALID_ROWID.

(** ** Hits by word and row *)

Abbreviation rawdoc := (Z * list Z)%type.
Abbreviation rawword := (Z * list rawdoc)%type.

(** A document is put in front of the words: neighbours of one word are joined. *)
Definition attach (u : Z) (D : list rawdoc) (row : Z) (ps : list Z) (G : list rawword) : list rawword :=
  match G with
  | (u', (row', ps') :: ds) :: ws =>
      if u =? u' then if row =? row' then (u, D ++ (row, ps ++ ps') :: ds) :: ws else (u, D ++ (row, ps) :: (row', ps') :: ds) :: ws
      else (u, D ++ [(row, ps)]) :: G
  | _ => [(u, D ++ [(row, ps)])]
  end.

(** The hits grouped by word, and by row inside of it. *)
Definition group (hits : list CSphWordHit) : list rawword := foldr (λ h G, attach (wh_uWordID h) [] (wh_tRowID h) [wh_uWordPos h] G) [] hits.

(** A hit that stands twice counts once. *)
Fixpoint squeeze (prev : Z) (ps : list Z) : list Z := match ps with [] => [] | p :: ps' => if prev =? p then squeeze prev ps' else p :: squeeze p ps' end.

Definition add_field (m p : Z) : Z := if GetField p <? 32 then Z.lor m (Z.shiftl 1 (GetField p)) else m.
Definition fields_of (hs : list Z) : Z := fold_left add_field hs 0.

Definition doc_of (has : bool) (d : rawdoc) : gdoc :=
  let hs := squeeze EMPTY_HIT (snd d) in GDoc (fst d) (fields_of hs) (if has then hs else take 1 hs).

Definition word_of (key : Z -> wordkey) (has : Z -> bool) (w : rawword) : gword :=
  GWord (key (fst w)) (has (fst w)) (map (doc_of (has (fst w))) (snd w)).

Lemma squeeze_app prev ps : ∀ p, squeeze prev (ps ++ [p]) = squeeze prev ps ++ (if List.last (prev :: squeeze prev ps) 0 =? p then [] else [p]).
Proof.
  revert prev. induction ps as [|q ps IH]; intros prev p; cbn [app squeeze]; [cbn [List.last]; by destruct (prev =? p)|]. destruct (prev =? q); [apply IH|]. rewrite IH. cbn [app]. f_equal.
Qed.

Lemma fields_snoc hs p : fields_of (hs ++ [p]) = add_field (fields_of hs) p.
Proof. unfold fields_of. by rewrite fold_left_app. Qed.

(** A document in front joins what the next hit started. *)
Lemma attach_attach u D row ps u' row' p G : attach u D row ps (attach u' [] row' [p] G) =
  if u =? u' then if row =? row' then attach u D row (ps ++ [p]) G else attach u (D ++ [(row, ps)]) row' [p] G
  else (u, D ++ [(row, ps)]) :: attach u' [] row' [p] G.
Proof.
  destruct G as [|[v [|[r q] ds]] ws].
  - cbn [attach app]. destruct (Z.eqb_spec u u'); [|done]. destruct (Z.eqb_spec row row'); [done|]. by rewrite <- app_assoc.
  - cbn [attach app]. destruct (Z.eqb_spec u u'); [|done]. destruct (Z.eqb_spec row row'); [done|]. by rewrite <- app_assoc.
  - unfold attach at 2 3 4 5. destruct (Z.eqb_spec u u') as [->|Nu].
    + destruct (Z.eqb_spec row row') as [->|Nr]; destruct (u' =? v), (row' =? r) eqn:Er; cbn [attach app]; rewrite ?Z.eqb_refl, ?Er; rewrite <- ?app_assoc; try done; destruct (Z.eqb_spec row row'); done.
    + destruct (u' =? v) eqn:Ev, (row' =? r) eqn:Er; cbn [attach app]; destruct (Z.eqb_spec u u'); done.
Qed.

(** ** Sizes *)

Lemma zip_loop_length k : ∀ fuel u, 0 <= u < 2 ^ (7 * Z.of_nat (S k)) -> (length (zip_le_loop fuel u) <= S k)%nat.
Proof.
  induction k as [|k IH]; intros [|fuel] u H; cbn [zip_le_loop length]; try lia.
  - destruct (Z.eqb_spec (Z.shiftr u 7) 0) as [_|N]; [done|]. exfalso. apply N. rewrite Z.shiftr_div_pow2 by lia. apply Z.div_small. done.
  - destruct (Z.shiftr u 7 =? 0); cbn [length]; [lia|]. apply le_n_S, IH. rewrite Z.shiftr_div_pow2 by lia. split; [apply Z.div_pos; lia|]. apply Z.div_lt_upper_bound; [lia|]. rewrite <- Z.pow_add_r by lia. replace (7 + 7 * Z.of_nat (S k)) with (7 * Z.of_nat (S (S k))) by lia. lia.
Qed.

Lemma zip_length v : (length (ZipDword v) <= 5)%nat.
Proof. unfold ZipDword, ZipValueLE. apply zip_loop_length. change (bits DWORD) with 32. pose proof (wrap_range 32 v ltac:(lia)). change (7 * Z.of_nat 5) with 35. assert (2 ^ 32 < 2 ^ 35) by (apply Z.pow_lt_mono_r; lia). lia. Qed.

Lemma enc_doc_length l d : (length (enc_doc l d) <= 25)%nat.
Proof.
  unfold enc_doc, put_doc. cbn [dw_dDocs app]. rewrite !length_app. pose proof (zip_length (rd_tRowID d - dw_tLastRowID (RtDocWriter [] l))). pose proof (zip_length (rd_uDocFields d)). pose proof (zip_length (rd_uHits d)). case_match; rewrite ?length_app.
  - pose proof (zip_length (Z.land (rd_uHit d) 0xffffff)). pose proof (zip_length (Z.shiftr (rd_uHit d) 24)). lia.
  - pose proof (zip_length (rd_uHit d)). lia.
Qed.

Lemma enc_hits_length hs : ∀ l, (length (enc_hits l hs) <= 5 * length hs)%nat.
Proof. induction hs as [|h hs IH]; intros l; [done|]. cbn [enc_hits length]. rewrite length_app. pose proof (zip_length (h - l)). specialize (IH h). lia. Qed.

(** ** The vectors grow at their ends *)

Lemma hits_at_app dHits x d hs : hits_at dHits d hs -> hits_at (dHits ++ x) d hs.
Proof. unfold hits_at. destruct hs as [|h [|h' hs]]; [|done|]; intros (pre & post & -> & E); exists pre, (post ++ x); (split; [by rewrite <- !app_assoc|done]). Qed.

Lemma doc_at_app dHits x d g : doc_at dHits d g -> doc_at (dHits ++ x) d g.
Proof. intros [A B C D E F G]. split; try done. by apply hits_at_app. Qed.

Lemma docs_at_app dHits x ds gs : Forall2 (doc_at dHits) ds gs -> Forall2 (doc_at (dHits ++ x)) ds gs.
Proof. intros H. eapply Forall2_impl; [exact H|]. intros. by apply doc_at_app. Qed.

Lemma word_at_app dDocs dHits x y t g : word_at dDocs dHits t g -> word_at (dDocs ++ x) (dHits ++ y) t g.
Proof. intros [A B C D (ds & pre & post & -> & E & F & G & H)]. split; try done. exists ds, pre, (post ++ x). split; [by rewrite <- !app_assoc|]. repeat (split; [done|]). by apply docs_at_app. Qed.

Lemma words_at_app dDocs dHits x y ws gs : Forall2 (word_at dDocs dHits) ws gs -> Forall2 (word_at (dDocs ++ x) (dHits ++ y)) ws gs.
Proof. intros H. eapply Forall2_impl; [exact H|]. intros. by apply word_at_app. Qed.

(** ** The document that is collected *)

Definition hit_ok (p : Z) : Prop := dword p /\ p ≠ 0.

Lemma add_field_dword m p : dword m -> dword p -> dword (add_field m p).
Proof.
  intros Hm Hp. unfold add_field. destruct (Z.ltb_spec (GetField p) 32) as [Hl|]; [|done]. pose proof (proj1 (dword_range _) Hm). pose proof (proj1 (dword_range _) Hp). assert (0 <= GetField p) by (unfold GetField, FIELD_OFF; rewrite Z.shiftr_nonneg; lia). apply dword_range. split; [rewrite Z.lor_nonneg, Z.shiftl_nonneg; lia|].
  assert (Z.lor m (Z.shiftl 1 (GetField p)) = Z.lor m (Z.shiftl 1 (GetField p)) mod 2 ^ 32) as ->; [|apply Z.mod_pos_bound; lia]. symmetry. rewrite <- Z.land_ones by lia. apply Z.bits_inj'. intros i Hi. rewrite Z.land_spec, Z.lor_spec. destruct (Z.ltb_spec i 32); [rewrite Z.ones_spec_low by lia; by rewrite andb_true_r|].
  rewrite (testbit_high m 32 i), Z.shiftl_spec by lia. rewrite (testbit_high 1 1 (i - GetField p)) by lia. done.
Qed.

Lemma fields_dword hs : Forall dword hs -> dword (fields_of hs).
Proof. induction hs as [|p hs IH] using rev_ind; intros H; [apply dword_range; cbn; lia|]. apply Forall_app in H as [H Hp]. rewrite fields_snoc. apply add_field_dword; [by apply IH|]. by inversion Hp. Qed.

Lemma squeeze_sub prev ps : Forall hit_ok ps -> Forall hit_ok (squeeze prev ps).
Proof. intros H. revert prev. induction H as [|p ps Hp H IH]; intros prev; [constructor|]. cbn. destruct (prev =? p); [apply IH|constructor; [done|apply IH]]. Qed.

Lemma squeeze_length prev ps : (length (squeeze prev ps) <= length ps)%nat.
Proof. revert prev. induction ps as [|p ps IH]; intros prev; [done|]. cbn. specialize (IH prev) as H1. specialize (IH p) as H2. destruct (prev =? p); cbn; lia. Qed.

Lemma squeeze_some ps : ps ≠ [] -> Forall hit_ok ps -> squeeze EMPTY_HIT ps ≠ [].
Proof. intros N H. destruct ps as [|p ps]; [done|]. apply Forall_cons in H as [[_ Hp] _]. cbn [squeeze]. destruct (Z.eqb_spec EMPTY_HIT p); [subst; by destruct Hp|done]. Qed.

Record open_doc (st : creating) (has : bool) (row : Z) (hs : list Z) : Prop := {
  od_row : rd_tRowID (cr_tDoc st) = row;
  od_fields : rd_uDocFields (cr_tDoc st) = fields_of hs;
  od_prev : cr_uPrevHit st = List.last hs 0;
  od_some : hs ≠ [];
  od_hits : Forall hit_ok hs;
  od_vec : ∃ hpre, rd_uHit (cr_tDoc st) = Z.of_nat (length hpre) /\
    if has && (2 <=? length hs)%nat then
      rd_uHits (cr_tDoc st) = Z.of_nat (length hs) /\ cr_uEmbeddedHit st = 0 /\ hw_dHits (cr_tOutHit st) = hpre ++ enc_hits 0 hs /\ hw_uLastHit (cr_tOutHit st) = List.last hs 0
    else rd_uHits (cr_tDoc st) = 1 /\ cr_uEmbeddedHit st = hd 0 hs /\ hw_dHits (cr_tOutHit st) = hpre /\ hw_uLastHit (cr_tOutHit st) = 0
}.

(** What [add_hit] leaves alone. *)
Lemma add_hit_frame p st : cr_uWordID (add_hit p st) = cr_uWordID st /\ cr_uDocs (add_hit p st) = cr_uDocs st /\ cr_uHits (add_hit p st) = cr_uHits st /\ cr_uDoc (add_hit p st) = cr_uDoc st /\ cr_bHasHitlist (add_hit p st) = cr_bHasHitlist st /\ cr_tOutDoc (add_hit p st) = cr_tOutDoc st /\ cr_tOutWord (add_hit p st) = cr_tOutWord st /\ rd_tRowID (cr_tDoc (add_hit p st)) = rd_tRowID (cr_tDoc st).
Proof. unfold add_hit. repeat case_match; done. Qed.

Lemma last_snoc (l : list Z) p : List.last (l ++ [p]) 0 = p.
Proof. apply List.last_last. Qed.

(** The next hit of the document. *)
Lemma add_next st has row hs p : cr_bHasHitlist st = has -> open_doc st has row hs -> hit_ok p -> Z.of_nat (length hs) + 1 < 2 ^ 32 ->
  open_doc (add_hit p st) has row (hs ++ [p]) /\ ∃ x, hw_dHits (cr_tOutHit (add_hit p st)) = hw_dHits (cr_tOutHit st) ++ x /\ (length x <= 10)%nat.
Proof.
  intros Hh [O1 O2 O3 O4 O5 (hpre & O6 & O7)] [Hp Np] Hn. assert (length (hs ++ [p]) = S (length hs)) as Ls by (rewrite length_app; cbn; lia). assert (0 < length hs)%nat as L0 by (destruct hs; [done|cbn; lia]).
  assert (∀ A : Prop, A -> Forall hit_ok (hs ++ [p]) /\ A) as K by (intros; split; [apply Forall_app; split; [done|by apply Forall_singleton]|done]). unfold add_hit. rewrite Hh. destruct has; cbn [negb andb] in *.
  - destruct (Nat.leb_spec 2 (length hs)) as [L2|L2].
    + destruct O7 as (V1 & V2 & V3 & V4). rewrite V1, V2. destruct (Z.eqb_spec (Z.of_nat (length hs)) 0); [lia|]. change (0 =? 0) with true. cbn [negb cr_tDoc]. split.
      * split; cbn [cr_tDoc rd_tRowID rd_uDocFields cr_uPrevHit]; [done|rewrite fields_snoc; unfold add_field; by rewrite <- O2|by rewrite last_snoc|by destruct hs|by apply (K True)|]. exists hpre. cbn [rd_uHit rd_uHits cr_tOutHit cr_uEmbeddedHit put_hit hw_dHits hw_uLastHit]. split; [done|]. rewrite Ls. destruct (Nat.leb_spec 2 (S (length hs))); [|lia]. cbn [andb].
        rewrite cast_dword by (apply dword_range; lia). split; [lia|]. split; [done|]. split; [|by rewrite last_snoc]. rewrite V3, V4, rt_enc_hits_app, app_assoc by done. done.
      * cbn. eexists. split; [done|]. pose proof (zip_length (p - hw_uLastHit (cr_tOutHit st))). lia.
    + destruct O7 as (V1 & V2 & V3 & V4). destruct hs as [|h [|]]; [done| |cbn in L2; lia]. cbn [hd] in V2. apply Forall_cons in O5 as [[Hh1 Hh2] _]. rewrite V1, V2. change (1 =? 0) with false. destruct (Z.eqb_spec h 0); [done|]. cbn [negb]. split.
      * split; cbn [cr_tDoc rd_tRowID rd_uDocFields cr_uPrevHit]; [done|rewrite fields_snoc; unfold add_field; by rewrite <- O2|done|done|by apply (K True)|]. exists hpre. cbn [rd_uHit rd_uHits cr_tOutHit cr_uEmbeddedHit put_hit hw_dHits hw_uLastHit app length Nat.leb andb]. split; [done|]. split; [done|]. split; [done|]. split; [|done]. cbn [enc_hits]. rewrite V3, V4, app_nil_r, <- app_assoc. done.
      * cbn. eexists. rewrite <- app_assoc. split; [done|]. rewrite length_app. pose proof (zip_length (h - hw_uLastHit (cr_tOutHit st))). pose proof (zip_length (p - h)). lia.
  - destruct O7 as (V1 & V2 & V3 & V4). rewrite V1, V2. change (1 =? 0) with false. split.
    + split; cbn [cr_tDoc rd_tRowID rd_uDocFields cr_uPrevHit]; [done|rewrite fields_snoc; unfold add_field; by rewrite <- O2|by rewrite last_snoc|by destruct hs|by apply (K True)|]. exists hpre. cbn. split; [done|]. split; [done|]. split; [by destruct hs|done].
    + exists []. cbn. rewrite app_nil_r. split; [done|lia].
Qed.

(** Between two documents. *)
Record fresh_doc (st : creating) (row : Z) : Prop := {
  fd_doc : cr_tDoc st = RtDoc row 0 0 (Z.of_nat (length (hw_dHits (cr_tOutHit st))));
  fd_embedded : cr_uEmbeddedHit st = 0;
  fd_prev : cr_uPrevHit st = 0;
  fd_last : hw_uLastHit (cr_tOutHit st) = 0
}.

Lemma add_first st has row p : cr_bHasHitlist st = has -> fresh_doc st row -> hit_ok p -> open_doc (add_hit p st) has row [p] /\ hw_dHits (cr_tOutHit (add_hit p st)) = hw_dHits (cr_tOutHit st).
Proof.
  intros Hh [D1 D2 D3 D4] [Hp Np]. unfold add_hit. rewrite Hh, D1. cbn [rd_uHits rd_tRowID rd_uDocFields rd_uHit]. change (0 =? 0) with true. destruct has; cbn [negb]; (split; [|done]); (split; cbn [cr_tDoc rd_tRowID rd_uDocFields cr_uPrevHit]; [done|done|done|done|by apply Forall_singleton|]); exists (hw_dHits (cr_tOutHit st)); done.
Qed.

(** The document as it is written. *)
Definition closed (st : creating) : RtDoc_t :=
  let tDoc := cr_tDoc st in if negb (cr_uEmbeddedHit st =? 0) then RtDoc (rd_tRowID tDoc) (rd_uDocFields tDoc) (rd_uHits tDoc) (cr_uEmbeddedHit st) else tDoc.

Lemma closed_ok st has row hs : open_doc st has row hs -> dword row -> Z.of_nat (length hs) < 2 ^ 32 -> Z.of_nat (length (hw_dHits (cr_tOutHit st))) < 2 ^ 32 ->
  doc_at (hw_dHits (cr_tOutHit st)) (closed st) (GDoc row (fields_of hs) (if has then hs else take 1 hs)).
Proof.
  intros [O1 O2 O3 O4 O5 (hpre & O6 & O7)] Hrow Hn Hsz. assert (Forall dword hs) as Hd by (eapply Forall_impl; [exact O5|]; by intros ? [? _]). pose proof (fields_dword hs Hd) as Hf. unfold closed. destruct (has && (2 <=? length hs)%nat) eqn:E.
  - apply andb_true_iff in E as [-> L2%Nat.leb_le]. destruct O7 as (V1 & V2 & V3 & V4). rewrite V2. cbn [Z.eqb negb]. rewrite V3 in Hsz. rewrite length_app in Hsz. split; cbn [g_row g_fields g_hits]; try done.
    + rewrite <- O1 in Hrow. rewrite <- O2 in Hf. split; [done|]. split; [done|]. rewrite V1, O6. split; apply dword_range; lia.
    + destruct hs as [|h [|h' hs]]; [done|cbn in L2; lia|]. exists hpre, []. by rewrite app_nil_r.
  - assert (∃ h hs', hs = h :: hs' /\ (if has then hs else take 1 hs) = [h]) as (h & hs' & -> & ->). { destruct hs as [|h hs']; [done|]. exists h, hs'. split; [done|]. destruct has; [|done]. cbn in E. destruct hs'; [done|]. cbn in E. done. }
    destruct O7 as (V1 & V2 & V3 & V4). rewrite V2. cbn [hd]. apply Forall_cons in O5 as [[Hh Nh] _]. destruct (Z.eqb_spec h 0); [done|]. cbn [negb]. split; cbn [g_row g_fields g_hits rd_tRowID rd_uDocFields rd_uHits rd_uHit length hits_at]; try done.
    + split; [cbn; by rewrite O1|]. split; [cbn; by rewrite O2|]. cbn. rewrite V1. split; [apply dword_range; lia|done].
    + by apply Forall_singleton.
Qed.

(** ** The loop *)

Section Create.
Context (f : DictFormat_e) (cp : Z) (mode : ESphHitless) (dPacked dHitlessWords : list Z).
Context (key : Z -> wordkey) (has : Z -> bool).

Definition packed_key (u : Z) : option wordkey := match f with CRC => Some (WordID u) | _ => '(s, _) ← GetPackedKeyword f dPacked u; Some (Word s) end.

(** A hit of the transaction. *)
Record accum_hit (h : CSphWordHit) : Prop := {
  ah_row : 0 <= wh_tRowID h < INVALID_ROWID;
  ah_word : 0 < wh_uWordID h < WORDID_MAX;
  ah_pos : hit_ok (wh_uWordPos h);
  ah_key : packed_key (wh_uWordID h) = Some (key (wh_uWordID h));
  ah_wf : key_wf f (key (wh_uWordID h));
  ah_has : has_hitlist f mode dPacked dHitlessWords h = Some (has (wh_uWordID h))
}.

(** What was written, with the documents of the word that is not written yet. *)
Definition words_written (st : creating) (G : list rawword) : Prop :=
  ∃ ws, put_words f cp mode ws new_word_writer = Some (cr_tOutWord st) /\ Forall (word_wf f mode) ws /\ Forall2 (word_at (dw_dDocs (cr_tOutDoc st)) (hw_dHits (cr_tOutHit st))) ws (map (word_of key has) G).

Record written (st : creating) (G : list rawword) (u : Z) (D : list rawdoc) (n : nat) : Prop := {
  wn_words : words_written st G;
  wn_id : cr_uWordID st = u;
  wn_has : cr_bHasHitlist st = has u;
  wn_docs : ∃ ds pre, dw_dDocs (cr_tOutDoc st) = pre ++ enc_docs INVALID_ROWID ds /\ cr_uDoc st = Z.of_nat (length pre) /\ dw_tLastRowID (cr_tOutDoc st) = last_row INVALID_ROWID ds /\ cr_uDocs st = Z.of_nat (length ds) /\
    cr_uHits st = cast DWORD (hit_count (word_of key has (u, D))) /\ Forall2 (doc_at (hw_dHits (cr_tOutHit st))) ds (map (doc_of (has u)) D) /\ (length ds <= n)%nat;
  wn_size : (length (dw_dDocs (cr_tOutDoc st)) <= 25 * n)%nat
}.

Lemma written_hits st st' G u D n x : written st G u D n -> cr_tOutWord st' = cr_tOutWord st -> cr_tOutDoc st' = cr_tOutDoc st -> cr_uWordID st' = cr_uWordID st -> cr_bHasHitlist st' = cr_bHasHitlist st -> cr_uDoc st' = cr_uDoc st -> cr_uDocs st' = cr_uDocs st -> cr_uHits st' = cr_uHits st ->
  hw_dHits (cr_tOutHit st') = hw_dHits (cr_tOutHit st) ++ x -> written st' G u D n.
Proof.
  intros [(ws & A1 & A2 & A3) B C (ds & pre & D1 & D2 & D3 & D4 & D5 & D6 & D7) E] E1 E2 E3 E4 E5 E6 E7 E8. split; unfold words_written; rewrite ?E1, ?E2, ?E3, ?E4, ?E5, ?E6, ?E7, ?E8; try done.
  - exists ws. split; [done|]. split; [done|]. rewrite <- (app_nil_r (dw_dDocs (cr_tOutDoc st))). by apply words_at_app.
  - exists ds, pre. repeat (split; [done|]). split; [by apply docs_at_app|done].
Qed.

Lemma hit_count_snoc k b D d : hit_count (GWord k b (D ++ [d])) = hit_count (GWord k b D) + Z.of_nat (length (g_hits d)).
Proof. unfold hit_count. cbn [g_docs]. induction D as [|a D IH]; cbn; lia. Qed.

Lemma cast_add a b : cast DWORD (cast DWORD a + b) = cast DWORD (a + b).
Proof. change (wrap 32 (wrap 32 a + b) = wrap 32 (a + b)). unfold wrap. by rewrite Zplus_mod_idemp_l. Qed.

Lemma pos_length l : Z.of_nat (length l) < 2 ^ 32 -> pos l = Z.of_nat (length l).
Proof. intros H. apply cast_dword, dword_range. lia. Qed.

(** The collected document is written. *)
Lemma flush_doc_ok st G u D row ps n row' : written st G u D n -> open_doc st (has u) row (squeeze EMPTY_HIT ps) -> 0 <= row < INVALID_ROWID -> Z.of_nat (length ps) < 2 ^ 32 -> Z.of_nat (length (hw_dHits (cr_tOutHit st))) < 2 ^ 32 -> Z.of_nat n + 1 < 2 ^ 31 ->
  let st' := flush_doc row' st in written st' G u (D ++ [(row, ps)]) (S n) /\ fresh_doc st' row' /\ hw_dHits (cr_tOutHit st') = hw_dHits (cr_tOutHit st).
Proof.
  intros [(ws & A1 & A2 & A3) B C (ds & pre & D1 & D2 & D3 & D4 & D5 & D6 & D7) E] O Hrow Hps Hsz Hn. cbv zeta. pose proof (squeeze_length EMPTY_HIT ps). assert (doc_at (hw_dHits (cr_tOutHit st)) (closed st) (doc_of (has u) (row, ps))) as Hd. { apply (closed_ok st (has u) row (squeeze EMPTY_HIT ps)); [done|apply dword_range; change SearchNode.INVALID_ROWID with 4294967295 in Hrow; lia|lia|done]. }
  pose proof (od_row _ _ _ _ O) as Or. unfold flush_doc. destruct (Z.eqb_spec (rd_tRowID (cr_tDoc st)) INVALID_ROWID); [lia|]. fold (closed st). split; [|split; [|done]]; [split; cbn [cr_tOutWord cr_tOutDoc cr_tOutHit cr_uWordID cr_bHasHitlist cr_uDoc cr_uDocs cr_uHits hw_dHits hit_restart]|].
  - exists ws. cbn [cr_tOutWord cr_tOutDoc cr_tOutHit hw_dHits hit_restart]. split; [done|]. split; [done|]. rewrite put_doc_enc. cbn [dw_dDocs]. rewrite <- (app_nil_r (hw_dHits (cr_tOutHit st))). by apply words_at_app.
  - done.
  - done.
  - exists (ds ++ [closed st]), pre. rewrite put_doc_enc. cbn [dw_dDocs dw_tLastRowID]. rewrite D1, D3, enc_docs_snoc, <- app_assoc. split; [done|]. split; [done|]. split; [by rewrite rt_last_row_snoc|]. rewrite length_app. cbn [length]. split; [rewrite D4, cast_dword by (apply dword_range; lia); lia|]. split; [|split; [|lia]].
    + rewrite D5, cast_add. unfold word_of. cbn [fst snd]. rewrite map_app. cbn [map]. rewrite hit_count_snoc. f_equal. f_equal. destruct Hd as [_ _ _ Hc _ _ _]. exact Hc.
    + rewrite map_app. apply Forall2_app; [done|]. by constructor.
  - rewrite put_doc_enc. cbn [dw_dDocs]. rewrite length_app. pose proof (enc_doc_length (dw_tLastRowID (cr_tOutDoc st)) (closed st)). lia.
  - split; cbn [cr_tDoc cr_tOutHit hit_restart hw_dHits]; [by rewrite pos_length|done..].
Qed.

Lemma has_mode h : accum_hit h -> match mode with SPH_HITLESS_NONE => has (wh_uWordID h) = true | SPH_HITLESS_SOME => True | SPH_HITLESS_ALL => has (wh_uWordID h) = false end.
Proof. intros [_ Hw _ _ _ Hh]. unfold has_hitlist in Hh. destruct mode; [by injection Hh|done|]. injection Hh as <-. apply Z.eqb_neq. lia. Qed.

(** The collected word is written. *)
Lemma flush_word_ok st G h0 D n tHit b row : written st G (wh_uWordID h0) D n -> fresh_doc st row -> accum_hit h0 -> D ≠ [] -> Z.of_nat n < 2 ^ 27 -> sorted_keys (map key (map fst G ++ [wh_uWordID h0])) -> has_hitlist f mode dPacked dHitlessWords tHit = Some b ->
  ∃ st', flush_word f cp mode dPacked dHitlessWords tHit st = Some st' /\ words_written st' (G ++ [(wh_uWordID h0, D)]) /\ (b = has (wh_uWordID tHit) -> written st' (G ++ [(wh_uWordID h0, D)]) (wh_uWordID tHit) [] n) /\ fresh_doc st' row /\ hw_dHits (cr_tOutHit st') = hw_dHits (cr_tOutHit st).
Proof.
  intros [(ws & A1 & A2 & A3) B C (ds & pre & D1 & D2 & D3 & D4 & D5 & D6 & D7) E] Fr Hh0 ND Hn Hs Hb. set (u := wh_uWordID h0) in *. unfold flush_word. rewrite B. pose proof (ah_word _ Hh0) as Hu. fold u in Hu. destruct (Z.eqb_spec u 0); [lia|].
  pose proof (ah_key _ Hh0) as Hk. fold u in Hk. unfold packed_key in Hk. rewrite Hk. cbn [mbind option_bind]. rewrite D4, D5, D2, C. set (t := RtWord _ _ _ _ _). assert (Z.of_nat (length pre) < 2 ^ 32) as Hp by (rewrite D1, length_app in E; lia).
  assert (word_wf f mode t) as Wt. { pose proof (has_mode _ Hh0) as Hm. fold u in Hm. split; [apply (ah_wf _ Hh0)|]. cbn [rw_uDocs rw_uHits rw_uDoc rw_bHasHitlist t]. split; [apply dword_range; lia|]. split; [apply dword_cast|]. split; [apply dword_range; lia|]. destruct mode; [done|lia|split; [done|lia]]. }
  assert (word_at (dw_dDocs (cr_tOutDoc st)) (hw_dHits (cr_tOutHit st)) t (word_of key has (u, D))) as Wa. { split; cbn [rw_key rw_bHasHitlist rw_uHits rw_uDoc rw_uDocs t]; [done|done|done|by destruct D|]. exists ds, pre, []. rewrite app_nil_r. split; [done|]. split; [done|]. split; [done|]. split; [lia|done]. }
  assert (map rw_key (ws ++ [t]) = map key (map fst G ++ [u])) as Ek. { rewrite !map_app. cbn. f_equal. assert (map rw_key ws = map g_key (map (word_of key has) G)) as -> by (exact (words_sorted (RtSegment [] [] [] (dw_dDocs (cr_tOutDoc st)) (hw_dHits (cr_tOutHit st))) _ ws A3)). by rewrite !map_map. }
  destruct (put_snoc f cp mode ws t _ A1) as (w' & Ew & Ew'); [apply Forall_app; split; [done|by apply Forall_singleton]|by rewrite Ek|]. rewrite Ew. cbn [mbind option_bind]. rewrite Hb. cbn [mbind option_bind].
  match goal with |- ∃ st', Some ?x = Some st' /\ _ => assert (words_written x (G ++ [(u, D)])) as Hww end.
  { exists (ws ++ [t]). cbn. split; [done|]. split; [apply Forall_app; split; [done|by apply Forall_singleton]|]. rewrite map_app. apply Forall2_app; [done|]. by constructor. }
  eexists. split; [done|]. split; [done|]. destruct Fr as [F1 F2 F3 F4]. split; [intros Eb; split; cbn [cr_tOutWord cr_tOutDoc cr_tOutHit cr_uWordID cr_bHasHitlist cr_uDoc cr_uDocs cr_uHits doc_restart dw_dDocs dw_tLastRowID]|split; [split; done|done]].
  - done.
  - done.
  - done.
  - exists [], (dw_dDocs (cr_tOutDoc st)). cbn [enc_docs]. rewrite app_nil_r. split; [done|]. split; [apply pos_length; lia|]. split; [done|]. split; [done|]. split; [done|]. split; [constructor|cbn; lia].
  - done.
Qed.

Definition closing : CSphWordHit := WordHit INVALID_ROWID WORDID_MAX EMPTY_HIT.

Lemma attach_cons u D row ps G : ∃ ds ws, attach u D row ps G = (u, ds) :: ws /\ ds ≠ [].
Proof. unfold attach. destruct G as [|[v [|[r q] ds]] ws]; [eexists _, _; split; [done|by destruct D]..|]. repeat case_match; eexists _, _; (split; [done|by destruct D]). Qed.

Lemma written_add p st G u D n : written st G u D n -> (∃ x, hw_dHits (cr_tOutHit (add_hit p st)) = hw_dHits (cr_tOutHit st) ++ x) -> written (add_hit p st) G u D n.
Proof. intros H [x E]. destruct (add_hit_frame p st) as (A & B & C & D' & E' & F & G' & _). by eapply written_hits. Qed.

(** A step at a new document of the same word. *)
Lemma open_next st G u D n row p : written st G u D n -> fresh_doc st row -> hit_ok p -> written (add_hit p st) G u D n /\ open_doc (add_hit p st) (has u) row (squeeze EMPTY_HIT [p]) /\ hw_dHits (cr_tOutHit (add_hit p st)) = hw_dHits (cr_tOutHit st).
Proof.
  intros Hw Hf Hp. destruct (add_first st (has u) row p (wn_has _ _ _ _ _ Hw) Hf Hp) as [Ho Eh]. split; [apply written_add; [done|]; exists []; by rewrite app_nil_r|]. split; [|done]. cbn [squeeze]. destruct (Z.eqb_spec EMPTY_HIT p) as [E|_]; [by destruct Hp, (proj2 (conj I E))|done].
Qed.

Lemma sorted_prefix (G : list rawword) u ds ws : sorted_keys (map key (map fst (G ++ (u, ds) :: ws))) -> sorted_keys (map key (map fst G ++ [u])).
Proof. intros H. rewrite map_app in H. cbn [map fst] in H. change (u :: map fst ws) with ([u] ++ map fst ws) in H. rewrite app_assoc, map_app in H. by apply StronglySorted_app_1_l in H. Qed.

Lemma create_loop_ok l : ∀ st G h0 D ps n k, written st G (wh_uWordID h0) D n -> open_doc st (has (wh_uWordID h0)) (wh_tRowID h0) (squeeze EMPTY_HIT ps) -> accum_hit h0 -> Forall accum_hit l -> Forall hit_ok ps ->
  (n < k)%nat -> (length ps <= k)%nat -> (length (hw_dHits (cr_tOutHit st)) <= 10 * k)%nat -> Z.of_nat (k + length l) < 2 ^ 27 -> sorted_keys (map key (map fst (G ++ attach (wh_uWordID h0) D (wh_tRowID h0) ps (group l)))) ->
  ∃ st', create_loop f cp mode dPacked dHitlessWords (l ++ [closing]) st = Some st' /\ words_written st' (G ++ attach (wh_uWordID h0) D (wh_tRowID h0) ps (group l)).
Proof.
  induction l as [|h l IH]; intros st G h0 D ps n k Hw Ho Hh0 Hl Hps Hn Hk Hsz Hb Hs; cbn [app create_loop].
  - assert (∃ b, has_hitlist f mode dPacked dHitlessWords closing = Some b) as [b Hc] by (unfold has_hitlist; destruct mode; cbn; eauto). pose proof (ah_word _ Hh0) as Hu. unfold create_step. cbn [closing wh_uWordID wh_tRowID wh_uWordPos]. rewrite (wn_id _ _ _ _ _ Hw). destruct (Z.eqb_spec WORDID_MAX (wh_uWordID h0)); [lia|]. cbn [negb orb]. cbn [length] in Hb.
    destruct (flush_doc_ok st G _ D _ ps n INVALID_ROWID Hw Ho (ah_row _ Hh0)) as (W1 & F1 & E1); [lia..|]. cbn [group foldr attach] in Hs |- *. destruct (flush_word_ok _ G h0 _ (S n) closing b INVALID_ROWID W1 F1 Hh0) as (st2 & -> & Ww & _ & F2 & E2); [by destruct D|lia|by eapply sorted_prefix|done|].
    cbn [mbind option_bind]. rewrite (fd_prev _ _ F2). cbn [Z.eqb EMPTY_HIT mbind option_bind]. by exists st2.
  - apply Forall_cons in Hl as [Hh Hl]. cbn [length] in Hb. change (group (h :: l)) with (attach (wh_uWordID h) [] (wh_tRowID h) [wh_uWordPos h] (group l)) in *. rewrite attach_attach in *. unfold create_step. rewrite (wn_id _ _ _ _ _ Hw), (od_row _ _ _ _ Ho). pose proof (ah_pos _ Hh) as Hp. rewrite (Z.eqb_sym (wh_uWordID h)), (Z.eqb_sym (wh_tRowID h)). destruct (Z.eqb_spec (wh_uWordID h0) (wh_uWordID h)) as [Eu|Nu]; cbn [negb orb].
    + destruct (Z.eqb_spec (wh_tRowID h0) (wh_tRowID h)) as [Er|Nr]; cbn [negb].
      * cbn [mbind option_bind]. rewrite (od_prev _ _ _ _ Ho). pose proof (squeeze_app EMPTY_HIT ps (wh_uWordPos h)) as Sq. pose proof (od_some _ _ _ _ Ho) as Ns. assert (List.last (EMPTY_HIT :: squeeze EMPTY_HIT ps) 0 = List.last (squeeze EMPTY_HIT ps) 0) as El by (by destruct (squeeze EMPTY_HIT ps)). rewrite El in Sq. assert (Forall hit_ok (ps ++ [wh_uWordPos h])) as Hps' by (apply Forall_app; split; [done|by apply Forall_singleton]). assert (length (ps ++ [wh_uWordPos h]) <= S k)%nat as Lp by (rewrite length_app; cbn; lia).
        destruct (List.last (squeeze EMPTY_HIT ps) 0 =? wh_uWordPos h).
        -- cbn [mbind option_bind]. rewrite app_nil_r in Sq. rewrite <- Sq in Ho. apply (IH st G h0 D (ps ++ [wh_uWordPos h]) n (S k)); (done || lia).
        -- cbn [mbind option_bind]. pose proof (squeeze_length EMPTY_HIT ps). destruct (add_next st _ _ _ (wh_uWordPos h) (wn_has _ _ _ _ _ Hw) Ho Hp) as (Ho' & x & Ex & Lx); [lia|]. rewrite <- Sq in Ho'. apply (IH _ G h0 D (ps ++ [wh_uWordPos h]) n (S k)); try (done || lia); [apply written_add; [done|by exists x]|]. rewrite Ex, length_app. lia.
      * cbn [mbind option_bind]. destruct (flush_doc_ok st G _ D _ ps n (wh_tRowID h) Hw Ho (ah_row _ Hh0)) as (W1 & F1 & E1); [lia..|]. rewrite (fd_prev _ _ F1). destruct (Z.eqb_spec 0 (wh_uWordPos h)) as [E0|_]; [by destruct Hp|]. cbn [mbind option_bind]. destruct (open_next _ G _ _ _ _ _ W1 F1 Hp) as (W2 & O2 & E2). rewrite Eu in *.
        apply (IH _ G h _ [wh_uWordPos h] (S n) (S k)); try (done || lia); [by apply Forall_singleton|cbn; lia|]. rewrite E2, E1. lia.
    + destruct (flush_doc_ok st G _ D _ ps n (wh_tRowID h) Hw Ho (ah_row _ Hh0)) as (W1 & F1 & E1); [lia..|]. destruct (flush_word_ok _ G h0 _ (S n) h (has (wh_uWordID h)) _ W1 F1 Hh0) as (st2 & -> & _ & W2 & F2 & E2); [by destruct D|lia|by eapply sorted_prefix|apply (ah_has _ Hh)|].
      specialize (W2 eq_refl). cbn [mbind option_bind]. rewrite (fd_prev _ _ F2). destruct (Z.eqb_spec 0 (wh_uWordPos h)) as [E0|_]; [by destruct Hp|]. cbn [mbind option_bind]. destruct (open_next _ _ _ _ _ _ _ W2 F2 Hp) as (W3 & O3 & E3).
      change (G ++ (wh_uWordID h0, D ++ [(wh_tRowID h0, ps)]) :: ?x) with (G ++ [(wh_uWordID h0, D ++ [(wh_tRowID h0, ps)])] ++ x) in Hs |- *. rewrite app_assoc in Hs |- *. apply (IH _ (G ++ [(wh_uWordID h0, D ++ [(wh_tRowID h0, ps)])]) h [] [wh_uWordPos h] (S n) (S k)); try (done || lia); [by apply Forall_singleton|cbn; lia|]. rewrite E3, E2, E1. lia.
Qed.

Lemma create_represents dAccum : Forall accum_hit dAccum -> Z.of_nat (length dAccum) < 2 ^ 27 -> sorted_keys (map key (map fst (group dAccum))) ->
  ∃ seg, CreateSegmentHits f cp mode dPacked dHitlessWords dAccum = Some seg /\ represents f cp mode seg (map (word_of key has) (group dAccum)).
Proof.
  intros Ha Hn Hs. unfold CreateSegmentHits. fold closing. assert (∃ st, create_loop f cp mode dPacked dHitlessWords (dAccum ++ [closing]) new_creating = Some st /\ words_written st (group dAccum)) as (st & -> & ws & A & B & C).
  { destruct dAccum as [|h l].
    - cbn [app create_loop]. assert (∃ b, has_hitlist f mode dPacked dHitlessWords closing = Some b) as [b Hc] by (unfold has_hitlist; destruct mode; cbn; eauto). unfold create_step. cbn [closing new_creating wh_uWordID wh_tRowID wh_uWordPos cr_uWordID]. change (negb (WORDID_MAX =? 0)) with true. cbn [orb]. unfold flush_word. cbn [flush_doc cr_uWordID rd_tRowID cr_tDoc]. change (INVALID_ROWID =? INVALID_ROWID) with true. cbv iota. cbn [cr_uWordID Z.eqb mbind option_bind]. fold closing. rewrite Hc. cbn. eexists. split; [done|]. exists []. split; [done|]. split; constructor.
    - apply Forall_cons in Ha as [Hh Hl]. cbn [length] in Hn. pose proof (ah_word _ Hh) as Hu. pose proof (ah_pos _ Hh) as Hp. pose proof (ah_row _ Hh) as Hr. change (group (h :: l)) with ([] ++ attach (wh_uWordID h) [] (wh_tRowID h) [wh_uWordPos h] (group l)) in *. cbn [app create_loop]. unfold create_step. cbn [new_creating cr_uWordID]. destruct (Z.eqb_spec (wh_uWordID h) 0); [lia|]. cbn [negb orb].
      set (st0 := flush_doc (wh_tRowID h) new_creating). assert (st0 = Creating (RtDoc (wh_tRowID h) 0 0 0) 0 0 0 0 true (RtDocWriter [] INVALID_ROWID) new_word_writer (RtHitWriter [] 0) EMPTY_HIT EMPTY_HIT) as -> by reflexivity. unfold flush_word. cbn [cr_uWordID Z.eqb mbind option_bind]. rewrite (ah_has _ Hh). cbn [mbind option_bind cr_uPrevHit cr_tOutDoc doc_restart dw_dDocs cr_tDoc cr_tOutWord cr_tOutHit cr_uEmbeddedHit].
      destruct (Z.eqb_spec EMPTY_HIT (wh_uWordPos h)) as [E|_]; [by destruct Hp|]. cbn [mbind option_bind]. match goal with |- context[add_hit _ ?x] => set (st1 := x) end.
      assert (written st1 [] (wh_uWordID h) [] 0) as W. { split; cbn; [by exists []|done|done| |lia]. exists [], []. do 5 (split; [done|]). split; [constructor|cbn; lia]. }
      assert (fresh_doc st1 (wh_tRowID h)) as F by (by split). destruct (open_next st1 [] _ [] _ _ _ W F Hp) as (W2 & O2 & E2). apply (create_loop_ok l _ [] h [] [wh_uWordPos h] 0 1); try (done || lia); [by apply Forall_singleton|]. rewrite E2. cbn. lia. }
  cbn [mbind option_bind]. eexists. split; [done|]. split; [|rewrite map_map; cbn; by rewrite map_map in Hs]. exists ws, (cr_tOutWord st). repeat (split; [done|]). done.
Qed.
End Create.

(** [C6] A segment that [CreateSegmentHits] makes of the sorted hits of a transaction
    reads back: reading its words, documents and hits gives the hits of every word
    and row, a repeated hit once, the mask of the fields of every document, and
    only the first hit of a document for a word without a hitlist; in every format
    of the dictionary, with every distance of the checkpoints. *)
Theorem segment_roundtrip f cp mode dPacked dHitlessWords key has dAccum : Forall (accum_hit f mode dPacked dHitlessWords key has) dAccum -> Z.of_nat (length dAccum) < 2 ^ 27 -> sorted_keys (map key (map fst (group dAccum))) ->
  ∃ seg, CreateSegmentHits f cp mode dPacked dHitlessWords dAccum = Some seg /\ dump f cp mode seg = Some (map (word_of key has) (group dAccum)).
Proof.
  intros Ha Hn Hs. destruct (create_represents f cp mode dPacked dHitlessWords key has dAccum Ha Hn Hs) as (seg & E & R). exists seg. split; [done|]. by apply dump_ok.
Qed.

(** Packed keywords: "a" at 1 and "ab" at 11, each with its length and its id. *)
Definition example_packed : list Z := [0; 1; 97; 0; 0; 0; 0; 0; 0; 0; 0; 2; 97; 98; 0; 0; 0; 0; 0; 0; 0; 0].
Definition example_key (u : Z) : wordkey := Word (if u =? 1 then [97] else [97; 98]).
Definition example_hits : list CSphWordHit := [WordHit 0 1 1; WordHit 0 1 16777217; WordHit 3 1 2; WordHit 0 11 2; WordHit 0 11 2; WordHit 3 11 3].

Lemma segment_roundtrip_witness : ∃ seg, CreateSegmentHits KEYWORDS 2 SPH_HITLESS_NONE example_packed [] example_hits = Some seg /\
  dump KEYWORDS 2 SPH_HITLESS_NONE seg = Some [GWord (Word [97]) true [GDoc 0 3 [1; 16777217]; GDoc 3 1 [2]]; GWord (Word [97; 98]) true [GDoc 0 1 [2]; GDoc 3 1 [3]]].
Proof.
  apply (segment_roundtrip KEYWORDS 2 SPH_HITLESS_NONE example_packed [] example_key (λ _, true) example_hits).
  - repeat constructor; try done; cbn; unfold WORDID_MAX, is_byte; lia.
  - cbn. lia.
  - repeat constructor.
Defined.
End RtCreateOk.

(** * Merging two segments keeps the documents that are alive *)

From stdpp Require Import sorting.
From S2P Require Import Prelude Zip Hits BinSearch SearchNode RtSegment.
Import Zip Hitman RtSegment RtSegmentOk RtCreateOk.

Module RtMergeOk.

(** ** The documents of a word after the merge *)

(** The documents with their new rows, without the dead ones. *)
Definition remap (dRowMap : list Z) (ds : list gdoc) : list gdoc :=
  omap (λ g, r ← dRowMap !! Z.to_nat (g_row g); if r =? INVALID_ROWID then None else Some (GDoc r (g_fields g) (g_hits g))) ds.

(** The rows of the documents are rows of the map. *)
Definition map_wf (dRowMap : list Z) (ds : list gdoc) : Prop := Forall (λ g, ∃ r, dRowMap !! Z.to_nat (g_row g) = Some r /\ 0 <= r <= INVALID_ROWID) ds.

Definition all_hits (ds : list gdoc) : nat := sum_list_with (λ d, length (g_hits d)) ds.
Definition total_hits (gs : list gword) : nat := sum_list_with (λ g, all_hits (g_docs g)) gs.

Lemma all_hits_count k b ds : hit_count (GWord k b ds) = Z.of_nat (all_hits ds).
Proof. unfold hit_count, all_hits. cbn [g_docs]. induction ds as [|d ds IH]; cbn; [done|]. rewrite IH. lia. Qed.

Lemma all_hits_app ds ds' : all_hits (ds ++ ds') = (all_hits ds + all_hits ds')%nat.
Proof. apply sum_list_with_app. Qed.

Lemma remap_hits m ds : (all_hits (remap m ds) <= all_hits ds)%nat.
Proof. unfold all_hits, remap. induction ds as [|d ds IH]; [done|]. cbn. destruct (m !! Z.to_nat (g_row d)) as [r|]; cbn; [|lia]. destruct (r =? INVALID_ROWID); cbn; lia. Qed.

Lemma docs_le_hits dHits ds gs : Forall2 (doc_at dHits) ds gs -> (length ds <= all_hits gs)%nat.
Proof. induction 1 as [|d g ds gs [_ _ _ _ _ N _] _ IH]; [done|]. unfold all_hits in *. cbn. destruct (g_hits g); [done|]. cbn. lia. Qed.

(** ** Copying documents *)

Lemma blob_ok pre hs post d : rd_uHit d = Z.of_nat (length pre) -> rd_uHits d = Z.of_nat (length hs) -> GetHitsBlob (pre ++ enc_hits 0 hs ++ post) d = Some (enc_hits 0 hs).
Proof.
  intros E1 E2. unfold GetHitsBlob. rewrite E1, E2, !Nat2Z.id, drop_app_length, skip_enc_hits. cbn [mbind option_bind]. rewrite length_app. replace (length (enc_hits 0 hs) + length post - length post)%nat with (length (enc_hits 0 hs)) by lia. by rewrite take_app_length.
Qed.

Lemma remap_cons m d ds : remap m (d :: ds) = match (r ← m !! Z.to_nat (g_row d); if r =? INVALID_ROWID then None else Some (GDoc r (g_fields d) (g_hits d))) with Some g => g :: remap m ds | None => remap m ds end.
Proof. done. Qed.

(** A document in its new place. *)
Lemma copy_one dSrcHits d g r' dHits : doc_at dSrcHits d g -> 0 <= r' < INVALID_ROWID -> Z.of_nat (length dHits) < 2 ^ 32 -> ∃ uHit x, (if rd_uHits d =? 1 then Some (rd_uHit d, dHits) else b ← GetHitsBlob dSrcHits d; Some (pos dHits, dHits ++ b)) = Some (uHit, dHits ++ x) /\
  doc_at (dHits ++ x) (RtDoc r' (rd_uDocFields d) (rd_uHits d) uHit) (GDoc r' (g_fields g) (g_hits g)) /\ (length x <= 5 * length (g_hits g))%nat.
Proof.
  intros [(W1 & W2 & W3 & W4) H2 H3 H4 H5 H6 H7] Hr Hs. change SearchNode.INVALID_ROWID with 4294967295 in Hr. rewrite H4. destruct (g_hits g) as [|h [|h' hs]] eqn:Eg; [done| |].
  - cbn [length]. change (Z.of_nat 1 =? 1) with true. exists (rd_uHit d), []. rewrite app_nil_r. split; [done|]. split; [|cbn; lia]. split; cbn [g_row g_fields g_hits rd_tRowID rd_uDocFields rd_uHits rd_uHit]; try done. split; [apply dword_range; cbn; lia|]. split; [done|]. split; [apply dword_range; cbn; lia|done].
  - destruct (Z.eqb_spec (Z.of_nat (length (h :: h' :: hs))) 1) as [E|_]; [cbn in E; lia|]. destruct H7 as (pre & post & -> & Ep). rewrite (blob_ok pre (h :: h' :: hs) post d Ep H4). cbn [mbind option_bind]. eexists _, _. split; [done|]. split; [|apply enc_hits_length]. rewrite pos_length by done.
    split; cbn [g_row g_fields g_hits rd_tRowID rd_uDocFields rd_uHits rd_uHit]; try done.
    + split; [apply dword_range; cbn; lia|]. split; [done|]. split; [by rewrite <- H4|]. apply dword_range. cbn [rd_uHit]. lia.
    + exists dHits, []. by rewrite app_nil_r.
Qed.

Lemma copy_docs_ok dSrcHits dRowMap : ∀ ds gs n r w dHits uDocs H rest, Forall2 (doc_at dSrcHits) ds gs -> map_wf dRowMap gs -> (length ds < n)%nat ->
  dr_pDocs r = Some (enc_docs (rd_tRowID (dr_tDoc r)) ds ++ rest) -> dr_iLeft r = Z.of_nat (length ds) -> Z.of_nat (length dHits + 5 * all_hits gs) < 2 ^ 32 -> 0 <= uDocs -> uDocs + Z.of_nat (length ds) < 2 ^ 32 ->
  ∃ ods x, copy_docs n dSrcHits dRowMap r w dHits uDocs (cast DWORD H) = Some (RtDocWriter (dw_dDocs w ++ enc_docs (dw_tLastRowID w) ods) (last_row (dw_tLastRowID w) ods), dHits ++ x, uDocs + Z.of_nat (length ods), cast DWORD (H + Z.of_nat (all_hits (remap dRowMap gs)))) /\
    Forall2 (doc_at (dHits ++ x)) ods (remap dRowMap gs) /\ (length x <= 5 * all_hits gs)%nat /\ (length ods <= length ds)%nat.
Proof.
  induction ds as [|d ds IH]; intros gs [|n] r w dHits uDocs H rest F Hm Hn Ep El Hs H0 Hu; try (cbn in Hn; lia); cbn [copy_docs].
  - apply Forall2_nil_inv_l in F as ->. exists [], []. unfold UnzipDoc. rewrite Ep, El. cbn [length Z.of_nat Z.eqb mbind option_bind negb enc_docs last_row]. rewrite !app_nil_r, !Z.add_0_r. destruct w. split; [done|]. split; [constructor|]. cbn. lia.
  - apply Forall2_cons_inv_l in F as (g & gs' & Hd & F & ->). apply Forall_cons in Hm as [(r' & Er & Hr) Hm]. rewrite (unzip_doc d (enc_docs (rd_tRowID d) ds ++ rest)) by (apply Hd || (rewrite Ep; cbn [enc_docs]; by rewrite <- app_assoc) || (rewrite El; cbn; lia)). cbn [mbind option_bind negb dr_tDoc]. pose proof Er as Er2. rewrite <- (da_row _ _ _ Hd) in Er2. rewrite Er2. cbn [mbind option_bind]. rewrite remap_cons, Er. cbn [mbind option_bind]. unfold all_hits in Hs. cbn [sum_list_with] in Hs. fold (all_hits gs') in Hs. cbn [length] in *.
    assert (∀ hh, dr_pDocs (RtDocReader (Some (enc_docs (rd_tRowID d) ds ++ rest)) hh d) = Some (enc_docs (rd_tRowID d) ds ++ rest)) as Ep' by done. replace (dr_iLeft r - 1) with (Z.of_nat (length ds)) by lia. assert (all_hits (g :: gs') = (length (g_hits g) + all_hits gs')%nat) as Ea by done. destruct (Z.eqb_spec r' INVALID_ROWID) as [->|Nr].
    + destruct (IH gs' n (RtDocReader (Some (enc_docs (rd_tRowID d) ds ++ rest)) (Z.of_nat (length ds)) d) w dHits uDocs H rest F Hm) as (ods & x & -> & A & B & C); [lia|done|done|lia|lia|lia|]. exists ods, x. split; [done|]. split; [done|]. lia.
    + destruct (copy_one dSrcHits d g r' dHits Hd) as (uHit & x & -> & Hd' & Lx); [lia|lia|]. cbn [mbind option_bind]. rewrite cast_dword by (apply dword_range; lia). rewrite cast_add. rewrite put_doc_enc.
      destruct (IH gs' n (RtDocReader (Some (enc_docs (rd_tRowID d) ds ++ rest)) (Z.of_nat (length ds)) d) (RtDocWriter (dw_dDocs w ++ enc_doc (dw_tLastRowID w) (RtDoc r' (rd_uDocFields d) (rd_uHits d) uHit)) r') (dHits ++ x) (uDocs + 1) (H + rd_uHits d) rest F Hm) as (ods & y & E & A & B & C); [lia|done|done|rewrite length_app; lia|lia|lia|].
      cbn [rd_tRowID] in E |- *. rewrite E. exists (RtDoc r' (rd_uDocFields d) (rd_uHits d) uHit :: ods), (x ++ y). cbn [dw_dDocs dw_tLastRowID enc_docs last_row rd_tRowID length]. rewrite <- !app_assoc. split.
      * do 2 f_equal; [f_equal; lia|]. f_equal. unfold all_hits. cbn [sum_list_with g_hits]. rewrite (da_count _ _ _ Hd). lia.
      * split; [constructor; [rewrite app_assoc; by apply doc_at_app|by rewrite app_assoc]|]. rewrite length_app. lia.
Qed.

(** [CopyWord] of a word of a segment. *)
Lemma CopyWord_ok seg t g dRowMap w dHits uDocs H : word_at (m_dDocs seg) (m_dHits seg) t g -> map_wf dRowMap (g_docs g) -> Z.of_nat (length dHits + 5 * all_hits (g_docs g)) < 2 ^ 32 -> 0 <= uDocs -> uDocs + Z.of_nat (all_hits (g_docs g)) < 2 ^ 32 ->
  ∃ ods x, CopyWord seg t dRowMap w dHits uDocs (cast DWORD H) = Some (RtDocWriter (dw_dDocs w ++ enc_docs (dw_tLastRowID w) ods) (last_row (dw_tLastRowID w) ods), dHits ++ x, uDocs + Z.of_nat (length ods), cast DWORD (H + Z.of_nat (all_hits (remap dRowMap (g_docs g))))) /\
    Forall2 (doc_at (dHits ++ x)) ods (remap dRowMap (g_docs g)) /\ (length x <= 5 * all_hits (g_docs g))%nat /\ (length ods <= all_hits (g_docs g))%nat.
Proof.
  intros [_ _ _ N (ds & pre & post & Ed & Ep & En & Hn & F)] Hm Hs H0 Hu. unfold CopyWord. pose proof (docs_le_hits _ _ _ F) as Hle. assert (length ds <= length (m_dDocs seg))%nat as Hld.
  { rewrite Ed, !length_app. assert (length ds <= length (enc_docs INVALID_ROWID ds))%nat; [|lia]. clear. generalize INVALID_ROWID. induction ds as [|d ds IH]; intros l; [done|]. cbn [enc_docs length]. rewrite length_app. specialize (IH (rd_tRowID d)). pose proof (enc_doc_nonempty l d). destruct (enc_doc l d); [done|]. cbn [length]. lia. }
  destruct (copy_docs_ok (m_dHits seg) dRowMap ds (g_docs g) (S (length (m_dDocs seg))) (new_doc_reader (m_dDocs seg) t) w dHits uDocs H post F Hm) as (ods & x & -> & A & B & C); [lia| | |exact Hs|exact H0|lia|exists ods, x; split; [done|]; split; [done|]; split; [done|lia]].
  - unfold new_doc_reader. cbn [dr_pDocs dr_tDoc rd_tRowID]. rewrite Ep, Ed. apply point_app. destruct ds as [|d ds]; [by apply Forall2_nil_inv_l in F|]. cbn. intros [E _]%app_eq_nil. by apply enc_doc_nonempty in E.
  - unfold new_doc_reader. cbn [dr_iLeft]. rewrite En. apply cast_id; [done|]. unfold in_type. cbn. lia.
Qed.

(** ** Words by their keys *)

Definition docs_for (k : wordkey) (gs : list gword) : list gdoc := concat (map g_docs (List.filter (λ g, bool_decide (g_key g = k)) gs)).

Lemma docs_for_app k gs gs' : docs_for k (gs ++ gs') = docs_for k gs ++ docs_for k gs'.
Proof. unfold docs_for. by rewrite List.filter_app, map_app, concat_app. Qed.

Lemma docs_for_cons k g gs : docs_for k (g :: gs) = (if bool_decide (g_key g = k) then g_docs g else []) ++ docs_for k gs.
Proof. unfold docs_for. cbn. by case_bool_decide. Qed.

Lemma remap_app m ds ds' : remap m (ds ++ ds') = remap m ds ++ remap m ds'.
Proof. apply omap_app. Qed.

Lemma key_lt_irrefl k : ¬ key_lt k k.
Proof. unfold key_lt. destruct k; cbn; intros [= H]; [rewrite Z.compare_refl in H; done|]. by rewrite (proj2 (dict_cmp_eq _ _) eq_refl) in H. Qed.

Lemma key_lt_trans a b c : key_lt a b -> key_lt b c -> key_lt a c.
Proof.
  unfold key_lt. destruct a, b, c; cbn; try done; intros [= H1] [= H2]; f_equal; [|by eapply dict_cmp_trans]. pose proof (proj1 (Z.compare_lt_iff _ _) H1). pose proof (proj1 (Z.compare_lt_iff _ _) H2). apply (proj2 (Z.compare_lt_iff _ _)). lia.
Qed.

Lemma docs_for_none k gs : Forall (key_lt k) (map g_key gs) -> docs_for k gs = [].
Proof. induction gs as [|g gs IH]; [done|]. cbn [map]. intros [Hg H]%Forall_cons. rewrite docs_for_cons, IH by done. rewrite bool_decide_eq_false_2; [done|]. intros <-. by apply key_lt_irrefl in Hg. Qed.

(** What becomes of the documents of a word. *)
Definition join (k : wordkey) (b : bool) (ds : list gdoc) : list gword := match ds with [] => [] | _ => [GWord k b ds] end.

Lemma docs_for_join k k' b ds : docs_for k (join k' b ds) = if bool_decide (k' = k) then ds else [].
Proof. destruct ds as [|d ds]; cbn [join]; [by case_bool_decide|]. rewrite docs_for_cons. cbn. case_bool_decide; by rewrite ?app_nil_r. Qed.

Section Merge.
Context (f : DictFormat_e) (cp : Z) (mode : ESphHitless).

Lemma cmp_wf a b : key_wf f a -> key_wf f b -> ∃ c, cmp_keys a b = Some c /\ match c with Eq => a = b | Lt => key_lt a b | Gt => key_lt b a end.
Proof.
  unfold key_wf, key_lt. destruct a as [u|s], b as [v|t]; cbn; intros Ha Hb; try (by destruct f); (eexists; split; [done|]).
  - destruct (Z.compare_spec u v) as [->|L|L]; [done|done|]. f_equal. by apply Z.compare_lt_iff.
  - destruct (sphDictCmpStrictly s t) eqn:E; [by apply dict_cmp_eq in E as ->|done|]. rewrite dict_cmp_anti, E. done.
Qed.

(** The words that a reader has still to give, with the one it gave last. *)
Definition pending (seg : RtSegment_t) (p : option RtWord_t) (r : RtWordReader_c) (gs : list gword) : Prop :=
  ∃ ws, Forall2 (word_at (m_dDocs seg) (m_dHits seg)) ws gs /\ Forall (word_wf f mode) ws /\ sorted_keys (map g_key gs) /\
    match ws with [] => p = None | t :: ws' => p = Some t /\ ∃ r', reads f cp mode ws' r r' /\ (length (wr_pCur r') <= wr_iTail r')%nat end.

Lemma pending_start seg gs : represents f cp mode seg gs -> ∃ p r, UnzipWord f cp mode (new_word_reader f (m_dWords seg)) = Some (p, r) /\ pending seg p r gs /\ (length gs <= length (m_dWords seg))%nat.
Proof.
  intros [(ws & w & Ew & E1 & _ & _ & Wf & F) Hs]. pose proof (words_sorted seg gs ws F) as Ek. destruct (put_all f cp mode ws new_word_writer None Wf (new_wlast f None)) as (w' & d & Ew' & Ed & Hl & _ & Hr); [by rewrite Ek|by destruct ws|]. rewrite Ew in Ew'. injection Ew' as <-. cbn in Ed. rewrite E1, Ed in *.
  destruct (Hr (new_word_reader f d) [] (new_synced f d)) as (r' & R1 & R2 & R3 & _); [by rewrite app_nil_r|done|]. assert (length (wr_pCur r') <= wr_iTail r')%nat as Ht by (rewrite R2; cbn; lia). rewrite (Forall2_length _ _ _ F) in Hl. inversion R1 as [|t ws' ? r1 ? Hu Hrd]; subst.
  - eexists None, _. split; [unfold UnzipWord; apply Nat.leb_le in Ht; by rewrite Ht|]. split; [|done]. by exists [].
  - exists (Some t), r1. split; [done|]. split; [|done]. exists (t :: ws'). do 4 (split; [done|]). by exists r'.
Qed.

Lemma pending_next seg t r g gs : pending seg (Some t) r (g :: gs) -> word_at (m_dDocs seg) (m_dHits seg) t g /\ word_wf f mode t /\ Forall (key_lt (g_key g)) (map g_key gs) /\ ∃ p' r', UnzipWord f cp mode r = Some (p', r') /\ pending seg p' r' gs.
Proof.
  intros (ws & F & Wf & Hs & Hp). destruct ws as [|t' ws]; [by apply Forall2_nil_inv_l in F|]. destruct Hp as ([= <-] & rend & Hr & Ht). inversion F as [|? ? ? ? Hg F']; subst; clear F; rename F' into F. apply Forall_cons in Wf as [Wt Wf]. cbn [map] in Hs. apply StronglySorted_inv in Hs as [Hs Hlt]. split; [done|]. split; [done|]. split; [done|]. inversion Hr as [|t1 ws1 ? r1 ? Hu Hr1]; subst.
  - exists None, rend. split; [unfold UnzipWord; apply Nat.leb_le in Ht; by rewrite Ht|]. by exists [].
  - exists (Some t1), r1. split; [done|]. exists (t1 :: ws1). do 4 (split; [done|]). by exists rend.
Qed.

Lemma pending_head seg p r gs : pending seg p r gs -> match gs with [] => p = None | g :: _ => ∃ t, p = Some t /\ rw_key t = g_key g /\ rw_bHasHitlist t = g_hashits g /\ key_wf f (g_key g) end.
Proof.
  intros (ws & F & Wf & Hs & Hp). destruct F as [|t g ws gs Hg F]; [done|]. destruct Hp as [-> _]. exists t. split; [done|]. split; [apply Hg|]. split; [apply Hg|]. apply Forall_cons in Wf as [Wt _]. rewrite <- (wa_key _ _ _ _ Hg). apply Wt.
Qed.

(** ** The loop *)

Lemma enc_docs_app ds ds' : ∀ l, enc_docs l (ds ++ ds') = enc_docs l ds ++ enc_docs (last_row l ds) ds'.
Proof. induction ds as [|d ds IH]; intros l; [done|]. cbn [app enc_docs last_row]. by rewrite IH, app_assoc. Qed.

Lemma enc_docs_length ds : ∀ l, (length (enc_docs l ds) <= 25 * length ds)%nat.
Proof. induction ds as [|d ds IH]; intros l; [done|]. cbn [enc_docs length]. rewrite length_app. pose proof (enc_doc_length l d). specialize (IH (rd_tRowID d)). lia. Qed.

Definition mode_ok (b : bool) : Prop := match mode with SPH_HITLESS_NONE => b = true | SPH_HITLESS_SOME => True | SPH_HITLESS_ALL => b = false end.

(** What has been written of the new segment: at most [n] documents and [n] hits. *)
Record merged (tOutDoc : RtDocWriter_c) (tOut : RtWordWriter_c) (dHits : list Z) (gs : list gword) (n : nat) : Prop := {
  mg_words : ∃ ws, put_words f cp mode ws new_word_writer = Some tOut /\ Forall (word_wf f mode) ws /\ Forall2 (word_at (dw_dDocs tOutDoc) dHits) ws gs;
  mg_last : dw_tLastRowID tOutDoc = INVALID_ROWID;
  mg_docs : (length (dw_dDocs tOutDoc) <= 25 * n)%nat;
  mg_hits : (length dHits <= 5 * n)%nat;
  mg_sorted : sorted_keys (map g_key gs)
}.

Lemma merged_word tOutDoc tOut dHits gs n k b ods x gds m : merged tOutDoc tOut dHits gs n -> key_wf f k -> mode_ok b -> Forall (λ a, key_lt a k) (map g_key gs) ->
  Forall2 (doc_at (dHits ++ x)) ods gds -> (length ods <= m)%nat -> (length x <= 5 * m)%nat -> Z.of_nat (n + m) < 2 ^ 27 ->
  ∃ tOut', (if Z.of_nat (length ods) =? 0 then Some tOut else put_word f cp mode (RtWord k (Z.of_nat (length ods)) (cast DWORD (Z.of_nat (all_hits gds))) (pos (dw_dDocs tOutDoc)) b) tOut) = Some tOut' /\
    merged (RtDocWriter (dw_dDocs tOutDoc ++ enc_docs INVALID_ROWID ods) INVALID_ROWID) tOut' (dHits ++ x) (gs ++ join k b gds) (n + m).
Proof.
  intros [(ws & A1 & A2 & A3) B C D E] Hk Hb Hlt F L1 L2 Hn. pose proof (enc_docs_length ods INVALID_ROWID) as L3. pose proof (words_at_app _ _ (enc_docs INVALID_ROWID ods) x _ _ A3) as A4.
  destruct F as [|d g ods gds Hd F]; [|destruct (Z.eqb_spec (Z.of_nat (length (d :: ods))) 0) as [E0|_]; [cbn in E0; lia|]].
  - exists tOut. split; [done|]. cbn [join]. rewrite !app_nil_r. split; cbn [dw_dDocs dw_tLastRowID enc_docs] in *; [exists ws; by rewrite app_nil_r in A4 |done|lia|rewrite length_app; lia|done].
  - cbn [join]. rewrite pos_length by lia. set (t := RtWord _ _ _ _ _). assert (word_wf f mode t) as Wt. { split; [done|]. cbn [t rw_uDocs rw_uHits rw_uDoc rw_bHasHitlist]. split; [apply dword_range; lia|]. split; [apply dword_cast|]. split; [apply dword_range; lia|]. unfold mode_ok in Hb. destruct mode; [done|lia|split; [done|lia]]. }
    assert (word_at (dw_dDocs tOutDoc ++ enc_docs INVALID_ROWID (d :: ods)) (dHits ++ x) t (GWord k b (g :: gds))) as Wa. { split; cbn [t rw_key rw_bHasHitlist rw_uHits rw_uDoc rw_uDocs g_key g_hashits g_docs]; [done|done|by rewrite all_hits_count|done|]. exists (d :: ods), (dw_dDocs tOutDoc), []. rewrite app_nil_r. do 3 (split; [done|]). split; [lia|]. by constructor. }
    assert (sorted_keys (map g_key (gs ++ [GWord k b (g :: gds)]))) as Hs'. { rewrite map_app. apply StronglySorted_app_2; [|done|by repeat constructor]. intros a c Ha Hc. apply list_elem_of_singleton in Hc as ->. rewrite Forall_forall in Hlt. by apply Hlt. }
    destruct (put_snoc f cp mode ws t _ A1) as (w' & -> & Ew'); [apply Forall_app; split; [done|by apply Forall_singleton]| |].
    { assert (map rw_key (ws ++ [t]) = map g_key (gs ++ [GWord k b (g :: gds)])) as ->; [|done]. rewrite !map_app. cbn. f_equal. exact (words_sorted (RtSegment [] [] [] (dw_dDocs tOutDoc) dHits) gs ws A3). }
    exists w'. split; [done|]. split; cbn [dw_dDocs dw_tLastRowID]; [|done|rewrite length_app; lia|rewrite length_app; lia|done]. exists (ws ++ [t]). split; [done|]. split; [apply Forall_app; split; [done|by apply Forall_singleton]|]. apply Forall2_app; [done|]. by constructor.
Qed.

Section Loop.
Context (s1 s2 : RtSegment_t) (m1 m2 : list Z).

Lemma word_mode t : word_wf f mode t -> mode_ok (rw_bHasHitlist t).
Proof. intros (_ & _ & _ & _ & H). unfold mode_ok. destruct mode; [done..|by destruct H]. Qed.

Definition maps_ok (m : list Z) (gs : list gword) : Prop := Forall (λ g, map_wf m (g_docs g)) gs.

Lemma docs_for_after k k' gs : Forall (key_lt k) (map g_key gs) -> bool_decide (k = k') = true -> docs_for k' gs = [].
Proof. intros H ->%bool_decide_eq_true. by apply docs_for_none. Qed.

Lemma above_join k b ds gs ks : Forall (λ a, Forall (key_lt a) (k :: ks)) (map g_key gs) -> Forall (key_lt k) ks -> Forall (λ a, Forall (key_lt a) ks) (map g_key (gs ++ join k b ds)).
Proof.
  intros H Hk. rewrite map_app. apply Forall_app. split; [eapply Forall_impl; [exact H|]; by intros a [_ ?]%Forall_cons|]. destruct ds; cbn; [constructor|by apply Forall_singleton].
Qed.

Lemma below k gs ks : Forall (λ a, Forall (key_lt a) ks) (map g_key gs) -> k ∈ ks -> Forall (λ a, key_lt a k) (map g_key gs).
Proof. intros H Hk. eapply Forall_impl; [exact H|]. intros a Ha. cbn in Ha. rewrite Forall_forall in Ha. by apply Ha. Qed.

(** One side gives the word. *)
Lemma take_one seg m t r g gs' tOutDoc tOut dHits gs n : pending seg (Some t) r (g :: gs') -> map_wf m (g_docs g) -> merged tOutDoc tOut dHits gs n -> Forall (λ a, key_lt a (g_key g)) (map g_key gs) -> Z.of_nat (n + all_hits (g_docs g)) < 2 ^ 27 ->
  ∃ w' x uDocs uHits tOut' p' r', CopyWord seg t m tOutDoc dHits 0 0 = Some (w', dHits ++ x, uDocs, uHits) /\
    (if uDocs =? 0 then Some tOut else put_word f cp mode (RtWord (rw_key t) uDocs uHits (pos (dw_dDocs tOutDoc)) (rw_bHasHitlist t)) tOut) = Some tOut' /\
    UnzipWord f cp mode r = Some (p', r') /\ pending seg p' r' gs' /\ merged (doc_restart w') tOut' (dHits ++ x) (gs ++ join (g_key g) (g_hashits g) (remap m (g_docs g))) (n + all_hits (g_docs g)).
Proof.
  intros P Mw Hm Hlt Hn. destruct (pending_next _ _ _ _ _ P) as (Wa & Wf & _ & p' & r' & Hu & P'). pose proof (mg_hits _ _ _ _ _ Hm). destruct (CopyWord_ok seg t g m tOutDoc dHits 0 0 Wa Mw) as (ods & x & Ec & F & L1 & L2); [lia..|]. change (cast DWORD 0) with 0 in Ec. rewrite Ec.
  pose proof (word_mode t Wf) as Wm. rewrite (wa_has _ _ _ _ Wa) in *. rewrite (wa_key _ _ _ _ Wa) in *. rewrite (mg_last _ _ _ _ _ Hm). assert (key_wf f (g_key g)) as Hk by (rewrite <- (wa_key _ _ _ _ Wa); apply Wf). destruct (merged_word tOutDoc tOut dHits gs n (g_key g) (g_hashits g) ods x _ (all_hits (g_docs g)) Hm Hk Wm Hlt F) as (tOut' & Et & Hm'); [lia..|].
  rewrite !Z.add_0_l. do 7 eexists. split; [done|]. split; [exact Et|]. split; [exact Hu|]. split; [done|]. exact Hm'.
Qed.

(** Both sides give it. *)
Lemma take_both t1 t2 r1 r2 g1 g2 gs1 gs2 tOutDoc tOut dHits gs n : pending s1 (Some t1) r1 (g1 :: gs1) -> pending s2 (Some t2) r2 (g2 :: gs2) -> map_wf m1 (g_docs g1) -> map_wf m2 (g_docs g2) -> merged tOutDoc tOut dHits gs n -> Forall (λ a, key_lt a (g_key g1)) (map g_key gs) -> Z.of_nat (n + all_hits (g_docs g1) + all_hits (g_docs g2)) < 2 ^ 27 ->
  ∃ w' x uDocs uHits w'' y uDocs' uHits' tOut', CopyWord s1 t1 m1 tOutDoc dHits 0 0 = Some (w', dHits ++ x, uDocs, uHits) /\ CopyWord s2 t2 m2 w' (dHits ++ x) uDocs uHits = Some (w'', dHits ++ y, uDocs', uHits') /\
    (if uDocs' =? 0 then Some tOut else put_word f cp mode (RtWord (rw_key t1) uDocs' uHits' (pos (dw_dDocs tOutDoc)) (rw_bHasHitlist t1)) tOut) = Some tOut' /\
    merged (doc_restart w'') tOut' (dHits ++ y) (gs ++ join (g_key g1) (g_hashits g1) (remap m1 (g_docs g1) ++ remap m2 (g_docs g2))) (n + (all_hits (g_docs g1) + all_hits (g_docs g2))).
Proof.
  intros P1 P2 M1 M2 Hm Hlt Hn. destruct (pending_next _ _ _ _ _ P1) as (Wa & Wf & _). destruct (pending_next _ _ _ _ _ P2) as (Wa2 & Wf2 & _). pose proof (mg_hits _ _ _ _ _ Hm). destruct (CopyWord_ok s1 t1 g1 m1 tOutDoc dHits 0 0 Wa M1) as (ods & x & Ec & F & L1 & L2); [lia..|]. change (cast DWORD 0) with 0 in Ec. rewrite Ec.
  rewrite (mg_last _ _ _ _ _ Hm) in *. rewrite !Z.add_0_l. destruct (CopyWord_ok s2 t2 g2 m2 (RtDocWriter (dw_dDocs tOutDoc ++ enc_docs INVALID_ROWID ods) (last_row INVALID_ROWID ods)) (dHits ++ x) (Z.of_nat (length ods)) (Z.of_nat (all_hits (remap m1 (g_docs g1)))) Wa2 M2) as (ods2 & y & Ec2 & F2 & L3 & L4); [rewrite ?length_app; lia..|]. cbn [dw_dDocs dw_tLastRowID] in Ec2. rewrite <- app_assoc, <- enc_docs_app, <- app_assoc in Ec2. rewrite <- Nat2Z.inj_add, <- length_app, <- Nat2Z.inj_add, <- all_hits_app in Ec2.
  pose proof (word_mode t1 Wf) as Wm. assert (key_wf f (g_key g1)) as Hk by (rewrite <- (wa_key _ _ _ _ Wa); apply Wf). rewrite (wa_has _ _ _ _ Wa) in *. rewrite (wa_key _ _ _ _ Wa) in *. destruct (merged_word tOutDoc tOut dHits gs n (g_key g1) (g_hashits g1) (ods ++ ods2) (x ++ y) (remap m1 (g_docs g1) ++ remap m2 (g_docs g2)) (all_hits (g_docs g1) + all_hits (g_docs g2)) Hm Hk Wm Hlt) as (tOut' & Et & Hm').
  - rewrite app_assoc. apply Forall2_app; [by apply docs_at_app|done].
  - rewrite length_app. lia.
  - rewrite length_app. lia.
  - lia.
  - do 9 eexists. split; [done|]. split; [exact Ec2|]. split; [exact Et|]. exact Hm'.
Qed.

Lemma merge_words_loop_ok : ∀ fuel g1 g2 p1 p2 r1 r2 tOutDoc tOut dHits gs n, pending s1 p1 r1 g1 -> pending s2 p2 r2 g2 -> maps_ok m1 g1 -> maps_ok m2 g2 -> merged tOutDoc tOut dHits gs n ->
  Forall (λ a, Forall (key_lt a) (map g_key g1 ++ map g_key g2)) (map g_key gs) -> Z.of_nat (n + total_hits g1 + total_hits g2) < 2 ^ 27 -> (length g1 + length g2 < fuel)%nat ->
  ∃ tOutDoc' tOut' dHits' rest n', merge_loop f cp mode s1 s2 m1 m2 fuel p1 p2 r1 r2 tOutDoc tOut dHits = Some (tOutDoc', tOut', dHits') /\ merged tOutDoc' tOut' dHits' (gs ++ rest) n' /\
    ∀ k, docs_for k rest = remap m1 (docs_for k g1) ++ remap m2 (docs_for k g2).
Proof.
  induction fuel as [|fuel IH]; intros g1 g2 p1 p2 r1 r2 tOutDoc tOut dHits gs n P1 P2 M1 M2 Hm Hgt Hn Hf; [lia|]. cbn [merge_loop].
  pose proof (pending_head s1 p1 r1 g1 P1) as H1. pose proof (pending_head s2 p2 r2 g2 P2) as H2.
  assert (∀ t g g1', p1 = Some t -> g1 = g :: g1' -> CompareWords p1 p2 = Some Lt -> Forall (key_lt (g_key g)) (map g_key g2) -> ∃ tOutDoc' tOut' dHits' rest n', merge_loop f cp mode s1 s2 m1 m2 (S fuel) p1 p2 r1 r2 tOutDoc tOut dHits = Some (tOutDoc', tOut', dHits') /\ merged tOutDoc' tOut' dHits' (gs ++ rest) n' /\ ∀ k, docs_for k rest = remap m1 (docs_for k g1) ++ remap m2 (docs_for k g2)) as Left.
  { intros t g g1' -> -> Ec Hlt. apply Forall_cons in M1 as [Mg M1]. cbn [map app] in Hgt. destruct (pending_next _ _ _ _ _ P1) as (_ & _ & Hl1 & _). cbn [total_hits sum_list_with] in Hn. fold (total_hits g1') in Hn. destruct (take_one s1 m1 t r1 g g1' tOutDoc tOut dHits gs n P1 Mg Hm) as (w' & x & uDocs & uHits & tOut' & p' & r' & E1 & E2 & E3 & P' & Hm'); [by eapply below; [exact Hgt|left]|lia|].
    cbn [merge_loop]. rewrite Ec. cbn [mbind option_bind]. rewrite E1. cbn [mbind option_bind]. rewrite E2. cbn [mbind option_bind]. rewrite E3. cbn [mbind option_bind]. destruct (IH g1' g2 p' p2 r' r2 (doc_restart w') tOut' (dHits ++ x) _ _ P' P2 M1 M2 Hm') as (a & b & c & rest & n' & -> & Hr & Hd); [apply above_join; [done|]; by apply Forall_app|lia|cbn in Hf; lia|].
    eexists _, _, _, _, _. split; [done|]. rewrite <- app_assoc in Hr. split; [exact Hr|]. intros k. rewrite docs_for_app, Hd, docs_for_join, docs_for_cons, remap_app, <- app_assoc. by destruct (bool_decide (g_key g = k)). }
  assert (∀ t g g2', p2 = Some t -> g2 = g :: g2' -> CompareWords p1 p2 = Some Gt -> Forall (key_lt (g_key g)) (map g_key g1) -> ∃ tOutDoc' tOut' dHits' rest n', merge_loop f cp mode s1 s2 m1 m2 (S fuel) p1 p2 r1 r2 tOutDoc tOut dHits = Some (tOutDoc', tOut', dHits') /\ merged tOutDoc' tOut' dHits' (gs ++ rest) n' /\ ∀ k, docs_for k rest = remap m1 (docs_for k g1) ++ remap m2 (docs_for k g2)) as Right.
  { intros t g g2' -> -> Ec Hlt. apply Forall_cons in M2 as [Mg M2]. cbn [map] in Hgt. destruct (pending_next _ _ _ _ _ P2) as (_ & _ & Hl1 & _). cbn [total_hits sum_list_with] in Hn. fold (total_hits g2') in Hn. assert (Forall (λ a, Forall (key_lt a) (g_key g :: map g_key g1 ++ map g_key g2')) (map g_key gs)) as Hgt'. { eapply Forall_impl; [exact Hgt|]. cbn. intros a [? [? ?]%Forall_cons]%Forall_app. apply Forall_cons. split; [done|by apply Forall_app]. }
    destruct (take_one s2 m2 t r2 g g2' tOutDoc tOut dHits gs n P2 Mg Hm) as (w' & x & uDocs & uHits & tOut' & p' & r' & E1 & E2 & E3 & P' & Hm'); [by eapply below; [exact Hgt'|left]|lia|].
    cbn [merge_loop]. rewrite Ec. cbn [mbind option_bind]. rewrite E1. cbn [mbind option_bind]. rewrite E2. cbn [mbind option_bind]. rewrite E3. cbn [mbind option_bind]. destruct (IH g1 g2' p1 p' r1 r' (doc_restart w') tOut' (dHits ++ x) _ _ P1 P' M1 M2 Hm') as (a & b & c & rest & n' & -> & Hr & Hd); [apply above_join; [done|]; by apply Forall_app|lia|cbn in Hf; lia|].
    eexists _, _, _, _, _. split; [by destruct p1|]. rewrite <- app_assoc in Hr. split; [exact Hr|]. intros k. rewrite docs_for_app, Hd, docs_for_join, docs_for_cons, remap_app. destruct (bool_decide (g_key g = k)) eqn:Ek; [|done]. by rewrite (docs_for_after _ _ _ Hlt Ek). }
  destruct g1 as [|a1 g1], g2 as [|a2 g2].
  - rewrite H1, H2. exists tOutDoc, tOut, dHits, [], n. rewrite app_nil_r. by split.
  - destruct H2 as (t2 & -> & K2 & _). apply (Right t2 a2 g2); [done..|by rewrite H1|constructor].
  - destruct H1 as (t1 & -> & K1 & _). apply (Left t1 a1 g1); [done..|by rewrite H2|constructor].
  - destruct H1 as (t1 & E1 & K1 & B1 & W1). destruct H2 as (t2 & E2 & K2 & B2 & W2). destruct (cmp_wf _ _ W1 W2) as (c & Ec & Hc). assert (CompareWords p1 p2 = Some c) as Ew by (rewrite E1, E2; cbn; by rewrite K1, K2). subst p1 p2. destruct (pending_next _ _ _ _ _ P1) as (_ & _ & Hl1 & p1' & r1' & U1 & P1'). destruct (pending_next _ _ _ _ _ P2) as (_ & _ & Hl2 & p2' & r2' & U2 & P2'). destruct c.
    + apply Forall_cons in M1 as [Mg1 M1]. apply Forall_cons in M2 as [Mg2 M2]. cbn [total_hits sum_list_with] in Hn. fold (total_hits g1) in Hn. fold (total_hits g2) in Hn. cbn [map app] in Hgt. destruct (take_both t1 t2 r1 r2 a1 a2 g1 g2 tOutDoc tOut dHits gs n P1 P2 Mg1 Mg2 Hm) as (w' & x & uDocs & uHits & w'' & y & uDocs' & uHits' & tOut' & C1 & C2 & C3 & Hm'); [by eapply below; [exact Hgt|left]|lia|].
      rewrite Ew. cbn [mbind option_bind]. rewrite C1. cbn [mbind option_bind]. rewrite C2. cbn [mbind option_bind]. rewrite C3. cbn [mbind option_bind]. rewrite U1. cbn [mbind option_bind]. rewrite U2. cbn [mbind option_bind]. destruct (IH g1 g2 p1' p2' r1' r2' (doc_restart w'') tOut' (dHits ++ y) _ _ P1' P2' M1 M2 Hm') as (a & b & c & rest & n' & -> & Hr & Hd); [|lia|cbn in Hf; lia|].
      * apply above_join; [|apply Forall_app; split; [done|by rewrite Hc]]. eapply Forall_impl; [exact Hgt|]. cbn. intros k [? [? [? ?]%Forall_cons]%Forall_app]%Forall_cons. apply Forall_cons. split; [done|by apply Forall_app].
      * eexists _, _, _, _, _. split; [done|]. rewrite <- app_assoc in Hr. split; [exact Hr|]. intros k. rewrite docs_for_app, Hd, docs_for_join, !docs_for_cons, !remap_app. rewrite <- Hc. destruct (bool_decide (g_key a1 = k)) eqn:Ek; [|done]. rewrite (docs_for_after _ _ _ Hl1 Ek). rewrite Hc in Ek. rewrite (docs_for_after _ _ _ Hl2 Ek). cbn. by rewrite !app_nil_r.
    + apply (Left t1 a1 g1); [done..|]. cbn [map]. apply Forall_cons. split; [done|]. eapply Forall_impl; [exact Hl2|]. intros k. by apply key_lt_trans.
    + apply (Right t2 a2 g2); [done..|]. cbn [map]. apply Forall_cons. split; [done|]. eapply Forall_impl; [exact Hl1|]. intros k. by apply key_lt_trans.
Qed.

Lemma merge_represents gs1 gs2 : represents f cp mode s1 gs1 -> represents f cp mode s2 gs2 -> maps_ok m1 gs1 -> maps_ok m2 gs2 -> Z.of_nat (total_hits gs1 + total_hits gs2) < 2 ^ 27 ->
  ∃ seg gs, MergeKeywords f cp mode s1 s2 m1 m2 = Some seg /\ represents f cp mode seg gs /\ ∀ k, docs_for k gs = remap m1 (docs_for k gs1) ++ remap m2 (docs_for k gs2).
Proof.
  intros R1 R2 M1 M2 Hn. destruct (pending_start s1 gs1 R1) as (p1 & r1 & U1 & P1 & L1). destruct (pending_start s2 gs2 R2) as (p2 & r2 & U2 & P2 & L2). unfold MergeKeywords. rewrite U1. cbn [mbind option_bind]. rewrite U2. cbn [mbind option_bind].
  assert (merged (RtDocWriter [] INVALID_ROWID) new_word_writer [] [] 0) as Hm by (split; [exists []; split; [done|split; constructor]|done|cbn; lia|cbn; lia|constructor]).
  destruct (merge_words_loop_ok (3 + length (m_dWords s1) + length (m_dWords s2)) gs1 gs2 p1 p2 r1 r2 _ _ _ _ _ P1 P2 M1 M2 Hm) as (tOutDoc & tOut & dHits & gs & n & -> & [(ws & A1 & A2 & A3) _ _ _ Hs] & Hd); [constructor|lia|lia|].
  cbn [mbind option_bind]. eexists _, gs. split; [done|]. split; [|done]. split; [|done]. exists ws, tOut. cbn [m_dWords m_dWordCheckpoints m_dKeywordCheckpoints m_dDocs m_dHits]. done.
Qed.
End Loop.
End Merge.

(** [C5] [MergeKeywords] of two segments always succeeds (up to [2^27] hits in
    total) and gives a segment that reads back: its words are in strict order, and
    the documents of every word are those of the first segment and then those of the
    second one, with the rows of the new segment, without the documents whose rows
    are dead, each with its field mask and all its hits. *)
Theorem merge_correct f cp mode s1 s2 m1 m2 gs1 gs2 : represents f cp mode s1 gs1 -> represents f cp mode s2 gs2 -> maps_ok m1 gs1 -> maps_ok m2 gs2 -> Z.of_nat (total_hits gs1 + total_hits gs2) < 2 ^ 27 ->
  ∃ seg gs, MergeKeywords f cp mode s1 s2 m1 m2 = Some seg /\ dump f cp mode seg = Some gs /\ sorted_keys (map g_key gs) /\
    ∀ k, docs_for k gs = remap m1 (docs_for k gs1) ++ remap m2 (docs_for k gs2).
Proof.
  intros R1 R2 M1 M2 Hn. destruct (merge_represents f cp mode s1 s2 m1 m2 gs1 gs2 R1 R2 M1 M2 Hn) as (seg & gs & E & R & Hd). exists seg, gs. split; [done|]. split; [by apply dump_ok|]. split; [apply R|done].
Qed.

(** The words 5 and 7 of two rows, and the words 5 and 6 of two other rows. *)
Definition example1 : list CSphWordHit := [WordHit 0 5 1; WordHit 1 5 2; WordHit 1 5 3; WordHit 1 7 1].
Definition example2 : list CSphWordHit := [WordHit 0 5 9; WordHit 1 5 4; WordHit 0 6 8].

Lemma example_accum l : Forall (λ h, 0 <= wh_tRowID h < 2 /\ 5 <= wh_uWordID h <= 7 /\ 0 < wh_uWordPos h < 10) l -> Forall (accum_hit CRC SPH_HITLESS_NONE [] [] WordID (λ _, true)) l.
Proof.
  intros H. eapply Forall_impl; [exact H|]. intros h (A & B & C). cbn in *. split; try done; cbn.
  - change SearchNode.INVALID_ROWID with 4294967295. lia.
  - unfold WORDID_MAX. lia.
  - split; [apply dword_range; lia|lia].
  - unfold key_wf, in_type. cbn. lia.
Qed.

Lemma example_created l : Forall (λ h, 0 <= wh_tRowID h < 2 /\ 5 <= wh_uWordID h <= 7 /\ 0 < wh_uWordPos h < 10) l -> Z.of_nat (length l) < 2 ^ 27 -> sorted_keys (map WordID (map fst (group l))) ->
  ∃ seg, CreateSegmentHits CRC 4 SPH_HITLESS_NONE [] [] l = Some seg /\ represents CRC 4 SPH_HITLESS_NONE seg (map (word_of WordID (λ _, true)) (group l)).
Proof. intros H Hn Hs. apply create_represents; [by apply example_accum|done|done]. Qed.

(** Row 0 of the first segment is dead. *)
Lemma merge_correct_witness : ∃ s1 s2 seg gs, CreateSegmentHits CRC 4 SPH_HITLESS_NONE [] [] example1 = Some s1 /\ CreateSegmentHits CRC 4 SPH_HITLESS_NONE [] [] example2 = Some s2 /\
  MergeKeywords CRC 4 SPH_HITLESS_NONE s1 s2 [INVALID_ROWID; 0] [1; 2] = Some seg /\ dump CRC 4 SPH_HITLESS_NONE seg = Some gs /\ docs_for (WordID 5) gs = [GDoc 0 1 [2; 3]; GDoc 1 1 [9]; GDoc 2 1 [4]].
Proof.
  destruct (example_created example1) as (s1 & E1 & R1); [repeat constructor; cbn; lia|cbn; lia|repeat constructor|]. destruct (example_created example2) as (s2 & E2 & R2); [repeat constructor; cbn; lia|cbn; lia|repeat constructor|].
  destruct (merge_correct CRC 4 SPH_HITLESS_NONE s1 s2 [INVALID_ROWID; 0] [1; 2] _ _ R1 R2) as (seg & gs & E & Hd & _ & Hk).
  - repeat constructor; eexists; (split; [reflexivity|]); change SearchNode.INVALID_ROWID with 4294967295; lia.
  - repeat constructor; eexists; (split; [reflexivity|]); change SearchNode.INVALID_ROWID with 4294967295; lia.
  - reflexivity.
  - exists s1, s2, seg, gs. do 4 (split; [done|]). rewrite Hk. reflexivity.
Defined.
End RtMergeOk.
