(* ===== verification/RtDelete.v ===== *)
(** * Dropping a full-text field from a segment (src/src/sphinxrt.cpp)

    ALTER TABLE ... DROP COLUMN rewrites the dictionary of every RAM segment: the
    hits of the field go away, the fields behind it move one down, documents and
    words without hits are left out. *)

From stdpp Require Import sorting.
From S2P Require Import Prelude Zip Hits BinSearch SearchNode RtSegment RtSegmentOk.
Import Zip Hitman RtSegment RtSegmentOk RtCreateOk RtMergeOk.

Module RtDelete.

(** ** The operations *)

(** The hit in the new fields, or nothing for a hit of the field that goes away. *)
Definition kept_hit (iKillField uHit : Z) : option Z :=
  let iField := GetField uHit in
  if iKillField =? iField then None else Some (if iKillField <? iField then DecrementField uHit else uHit).

(** [ProcessField]: the document with one more hit, and the hit for [fnProcessor]. *)
Definition ProcessField (tOutDoc : RtDoc_t) (uHit iKillField : Z) : RtDoc_t * option Z :=
  let iField := GetField uHit in
  if iKillField =? iField then (tOutDoc, None)
  else
    let '(iField, uHit) := if iKillField <? iField then (iField - 1, DecrementField uHit) else (iField, uHit) in
    (RtDoc (rd_tRowID tOutDoc) (if iField <? 32 then Z.lor (rd_uDocFields tOutDoc) (Z.shiftl 1 iField) else rd_uDocFields tOutDoc) (cast DWORD (rd_uHits tOutDoc + 1)) (rd_uHit tOutDoc), Some uHit).

(** The loop over the hits of a document. *)
Fixpoint process_hits (fuel : nat) (iKillField : Z) (tInHits : RtHitReader_c) (tOutHits : RtHitWriter_c) (tOutDoc : RtDoc_t) : option (RtHitWriter_c * RtDoc_t) :=
  match fuel with
  | O => None
  | S fuel' =>
      '(uHit, tInHits) ← UnzipHit tInHits;
      if uHit =? 0 then Some (tOutHits, tOutDoc)
      else
        let '(tOutDoc, o) := ProcessField tOutDoc uHit iKillField in
        process_hits fuel' iKillField tInHits (match o with Some x => put_hit x tOutHits | None => tOutHits end) tOutDoc
  end.

(** One document; a byte at least stands for a hit. *)
Definition process_doc (dSrcHits : list Z) (iKillField : Z) (tIn : RtDoc_t) (dHits : list Z) : option (list Z * RtDoc_t) :=
  let tOutDoc := RtDoc (rd_tRowID tIn) 0 0 (rd_uHit tIn) in
  if negb (rd_uHits tIn =? 1) then
    let tOutDoc := RtDoc (rd_tRowID tIn) 0 0 (pos dHits) in
    '(w, tOutDoc) ← process_hits (2 + length dSrcHits) iKillField (new_hit_reader dSrcHits tIn) (RtHitWriter dHits 0) tOutDoc;
    Some (hw_dHits w, tOutDoc)
  else
    let '(tOutDoc, o) := ProcessField tOutDoc (rd_uHit tOutDoc) iKillField in
    Some (dHits, match o with Some x => RtDoc (rd_tRowID tOutDoc) (rd_uDocFields tOutDoc) (rd_uHits tOutDoc) x | None => tOutDoc end).

Fixpoint CopyWordWithoutField (fuel : nat) (dSrcHits : list Z) (iKillField : Z) (tInDocs : RtDocReader_c) (dHits : list Z) (tOutDocs : RtDocWriter_c) (uDocs uHits : Z) : option (list Z * RtDocWriter_c * Z * Z) :=
  match fuel with
  | O => None
  | S fuel' =>
      '(ok, tInDocs) ← UnzipDoc tInDocs;
      if negb ok then Some (dHits, tOutDocs, uDocs, uHits)
      else
        '(dHits, tOutDoc) ← process_doc dSrcHits iKillField (dr_tDoc tInDocs) dHits;
        if rd_uHits tOutDoc =? 0 then CopyWordWithoutField fuel' dSrcHits iKillField tInDocs dHits tOutDocs uDocs uHits
        else CopyWordWithoutField fuel' dSrcHits iKillField tInDocs dHits (put_doc tOutDoc tOutDocs) (cast DWORD (uDocs + 1)) (cast DWORD (uHits + rd_uHits tOutDoc))
  end.

Section Delete.
Context (f : DictFormat_e) (cp : Z) (mode : ESphHitless).

Fixpoint delete_loop (fuel : nat) (tInSeg : RtSegment_t) (iKillField : Z) (tInWord : RtWordReader_c) (dDocs dHits : list Z) (tOutWords : RtWordWriter_c) : option (list Z * list Z * RtWordWriter_c) :=
  match fuel with
  | O => None
  | S fuel' =>
      '(p, tInWord) ← UnzipWord f cp mode tInWord;
      match p with
      | None => Some (dDocs, dHits, tOutWords)
      | Some t =>
          let uDoc := pos dDocs in
          '(dHits, tOutDocs, uDocs, uHits) ← CopyWordWithoutField (S (length (m_dDocs tInSeg))) (m_dHits tInSeg) iKillField (new_doc_reader (m_dDocs tInSeg) t) dHits (RtDocWriter dDocs INVALID_ROWID) 0 0;
          tOutWords ← (if uDocs =? 0 then Some tOutWords else put_word f cp mode (RtWord (rw_key t) uDocs uHits uDoc (rw_bHasHitlist t)) tOutWords);
          delete_loop fuel' tInSeg iKillField tInWord (dw_dDocs tOutDocs) dHits tOutWords
      end
  end.

Definition DeleteFieldFromDict (tInSeg : RtSegment_t) (iKillField : Z) : option RtSegment_t :=
  '(dDocs, dHits, w) ← delete_loop (2 + length (m_dWords tInSeg)) tInSeg iKillField (new_word_reader f (m_dWords tInSeg)) [] [] new_word_writer;
  Some (RtSegment (ww_dWords w) (ww_dCheckpoints w) (ww_dKeywordCheckpoints w) dDocs dHits).
End Delete.

(** ** What is left of the documents *)

Definition kept (k : Z) (hs : list Z) : list Z := omap (kept_hit k) hs.

(** What is read back of a document, and where the next hits are written: the single
    hit that is left of several ones is not stored in the document. *)
Definition del_doc (k : Z) (off : nat) (g : gdoc) : option gdoc * nat :=
  let hs := kept k (g_hits g) in
  match g_hits g with
  | [_] => (match hs with [] => None | _ => Some (GDoc (g_row g) (fields_of hs) hs) end, off)
  | _ => (match hs with [] => None | [_] => Some (GDoc (g_row g) (fields_of hs) [Z.of_nat off]) | _ => Some (GDoc (g_row g) (fields_of hs) hs) end, (off + length (enc_hits 0 hs))%nat)
  end.

Fixpoint del_docs (k : Z) (off : nat) (ds : list gdoc) : list gdoc * nat :=
  match ds with
  | [] => ([], off)
  | g :: ds' => let '(o, off) := del_doc k off g in let '(l, off) := del_docs k off ds' in (match o with Some g' => g' :: l | None => l end, off)
  end.

Fixpoint del_words (k : Z) (off : nat) (gs : list gword) : list gword :=
  match gs with
  | [] => []
  | g :: gs' => let '(ds, off) := del_docs k off (g_docs g) in join (g_key g) (g_hashits g) ds ++ del_words k off gs'
  end.

Lemma hit_ranges h : dword h -> 0 <= GetField h < 256.
Proof.
  intros H. pose proof (proj1 (dword_range h) H). unfold GetField, FIELD_OFF. rewrite Z.shiftr_div_pow2 by lia. change (2 ^ 24) with 16777216. split; [apply Z.div_pos; lia|]. apply Z.div_lt_upper_bound; lia.
Qed.

Lemma decrement_field h : dword h -> 0 < GetField h -> dword (DecrementField h) /\ GetField (DecrementField h) = GetField h - 1.
Proof.
  intros H Hf. pose proof (proj1 (dword_range h) H) as R. change (2 ^ 32) with 4294967296 in R. unfold DecrementField, GetField, FIELD_OFF in *. change (Z.shiftl 1 24) with 16777216. rewrite !Z.shiftr_div_pow2 in * by lia. change (2 ^ 24) with 16777216 in *. assert (16777216 <= h) by (Z.to_euclidean_division_equations; lia). split; [apply dword_cast|]. rewrite cast_dword by (apply dword_range; lia). Z.to_euclidean_division_equations. lia.
Qed.

Lemma kept_dword k h x : 0 <= k -> dword h -> kept_hit k h = Some x -> dword x.
Proof. intros Hk H. unfold kept_hit. destruct (Z.eqb_spec k (GetField h)); [done|]. intros [= <-]. destruct (Z.ltb_spec k (GetField h)); [apply decrement_field; [done|lia]|done]. Qed.

Lemma kept_dwords k hs : 0 <= k -> Forall hit_ok hs -> Forall dword (kept k hs).
Proof. intros Hk H. induction H as [|h hs [Hh _] H IH]; [constructor|]. unfold kept. cbn. destruct (kept_hit k h) eqn:E; [|done]. constructor; [by eapply kept_dword|done]. Qed.

Lemma kept_length k hs : (length (kept k hs) <= length hs)%nat.
Proof. unfold kept. induction hs as [|h hs IH]; [done|]. cbn. destruct (kept_hit k h); cbn; lia. Qed.

Lemma process_field tOutDoc uHit k : 0 <= k -> dword uHit -> ProcessField tOutDoc uHit k =
  match kept_hit k uHit with None => (tOutDoc, None) | Some x => (RtDoc (rd_tRowID tOutDoc) (add_field (rd_uDocFields tOutDoc) x) (cast DWORD (rd_uHits tOutDoc + 1)) (rd_uHit tOutDoc), Some x) end.
Proof.
  intros Hk H. unfold ProcessField, kept_hit, add_field. destruct (Z.eqb_spec k (GetField uHit)); [done|]. destruct (Z.ltb_spec k (GetField uHit)) as [L|]; [|done]. destruct (decrement_field uHit H) as [_ ->]; [lia|]. done.
Qed.

Lemma process_hits_ok k : 0 <= k -> ∀ hs fuel last rest w d, Forall hit_ok hs -> (length hs < fuel)%nat -> 0 <= rd_uHits d -> rd_uHits d + Z.of_nat (length hs) < 2 ^ 32 ->
  ∃ l, process_hits fuel k (RtHitReader (Some (enc_hits last hs ++ rest)) (Z.of_nat (length hs)) last) w d =
    Some (RtHitWriter (hw_dHits w ++ enc_hits (hw_uLastHit w) (kept k hs)) l, RtDoc (rd_tRowID d) (fold_left add_field (kept k hs) (rd_uDocFields d)) (rd_uHits d + Z.of_nat (length (kept k hs))) (rd_uHit d)).
Proof.
  intros Hk. induction hs as [|h hs IH]; intros [|fuel] last rest w d H Hf H0 Hn; cbn [length] in *; try lia; cbn [process_hits].
  - unfold UnzipHit. cbn. rewrite app_nil_r, Z.add_0_r. destruct w, d. by eexists.
  - apply Forall_cons in H as [[Hh Nh] H]. unfold UnzipHit. cbn [hr_pCur hr_uLeft hr_uValue enc_hits]. destruct (Z.eqb_spec (Z.of_nat (S (length hs))) 0); [lia|]. rewrite <- app_assoc, unzip_dword. cbn [mbind option_bind]. rewrite delta_back by done. destruct (Z.eqb_spec h 0); [done|]. rewrite process_field by done. replace (Z.of_nat (S (length hs)) - 1) with (Z.of_nat (length hs)) by lia. unfold kept. cbn [omap list_omap]. destruct (kept_hit k h) as [x|].
    + destruct (IH fuel h rest (put_hit x w) (RtDoc (rd_tRowID d) (add_field (rd_uDocFields d) x) (cast DWORD (rd_uHits d + 1)) (rd_uHit d)) H) as (l & ->); [lia|cbn [rd_uHits]; rewrite cast_dword by (apply dword_range; lia); lia..|]. cbn [rd_tRowID rd_uDocFields rd_uHits rd_uHit put_hit hw_dHits hw_uLastHit]. exists l. rewrite cast_dword by (apply dword_range; lia). cbn [enc_hits fold_left length]. rewrite <- app_assoc. do 3 f_equal. unfold kept. lia.
    + destruct (IH fuel h rest w d H) as (l & ->); [lia..|]. by exists l.
Qed.

Lemma enc_hits_bytes hs : ∀ l, (length hs <= length (enc_hits l hs))%nat.
Proof. induction hs as [|h hs IH]; intros l; [done|]. cbn [enc_hits length]. rewrite length_app. specialize (IH h). pose proof (zip_nonempty (h - l)). destruct (ZipDword (h - l)); [done|]. cbn. lia. Qed.

Lemma process_doc_ok k dSrcHits d g dHits : 0 <= k -> doc_at dSrcHits d g -> Forall hit_ok (g_hits g) -> Z.of_nat (length dHits) < 2 ^ 32 ->
  ∃ x d', process_doc dSrcHits k d dHits = Some (dHits ++ x, d') /\ length (dHits ++ x) = snd (del_doc k (length dHits) g) /\ (length x <= 5 * length (g_hits g))%nat /\
    match fst (del_doc k (length dHits) g) with None => rd_uHits d' = 0 | Some g' => doc_at (dHits ++ x) d' g' end.
Proof.
  intros Hk [(W1 & W2 & W3 & W4) H2 H3 H4 H5 H6 H7] Hok Hs. pose proof (proj1 (dword_range _) W3) as R3. pose proof (kept_dwords k _ Hk Hok) as Hkd. pose proof (kept_length k (g_hits g)) as Lk. pose proof (fields_dword _ Hkd) as Hfd. unfold process_doc. rewrite H4 in *. destruct (Z.eqb_spec (Z.of_nat (length (g_hits g))) 1) as [E1|N1]; cbn [negb].
  - destruct (g_hits g) as [|h [|]] eqn:Eg; cbn in E1; try lia. cbn in H7. apply Forall_cons in H5 as [Hh _]. cbn [rd_uHit]. rewrite H7, process_field by done. exists []. rewrite app_nil_r. unfold del_doc. rewrite Eg. unfold kept in *. cbn [omap list_omap] in *. destruct (kept_hit k h) as [x|]; cbn [fst snd]; (eexists; split; [done|]; split; [done|]; split; [cbn; lia|]); [|done].
    cbn [rd_tRowID rd_uDocFields rd_uHits rd_uHit]. split; cbn [g_row g_fields g_hits rd_tRowID rd_uDocFields rd_uHits rd_uHit]; try done. split; [done|]. split; [done|]. split; [by apply dword_cast|]. by apply Forall_cons in Hkd as [? _].
  - assert (∃ pre post, dSrcHits = pre ++ enc_hits 0 (g_hits g) ++ post /\ rd_uHit d = Z.of_nat (length pre)) as (pre & post & Ed & Ep) by (destruct (g_hits g) as [|h [|]]; done). unfold new_hit_reader. subst dSrcHits. rewrite Ep, point_app by (destruct (g_hits g); [done|]; cbn; intros [E _]%app_eq_nil; by apply zip_nonempty in E). rewrite H4. pose proof (enc_hits_bytes (g_hits g) 0) as Lb.
    destruct (process_hits_ok k Hk (g_hits g) (2 + length (pre ++ enc_hits 0 (g_hits g) ++ post)) 0 post (RtHitWriter dHits 0) (RtDoc (rd_tRowID d) 0 0 (pos dHits)) Hok) as (l & El); [rewrite !length_app; lia|cbn; lia|cbn [rd_uHits]; lia|]. change EMPTY_HIT with 0. rewrite El. cbn [mbind option_bind hw_dHits hw_uLastHit rd_tRowID rd_uDocFields rd_uHits rd_uHit]. rewrite Z.add_0_l, pos_length by done. fold (fields_of (kept k (g_hits g))). pose proof (enc_hits_length (kept k (g_hits g)) 0) as Le. eexists _, _. split; [done|].
    assert (del_doc k (length dHits) g = (match kept k (g_hits g) with [] => None | [_] => Some (GDoc (g_row g) (fields_of (kept k (g_hits g))) [Z.of_nat (length dHits)]) | _ => Some (GDoc (g_row g) (fields_of (kept k (g_hits g))) (kept k (g_hits g))) end, (length dHits + length (enc_hits 0 (kept k (g_hits g))))%nat)) as -> by (unfold del_doc; destruct (g_hits g) as [|h [|]]; done). cbn [fst snd]. split; [by rewrite length_app|]. split; [lia|]. set (ks := kept k (g_hits g)) in *.
    assert (doc_wf (RtDoc (rd_tRowID d) (fields_of ks) (Z.of_nat (length ks)) (Z.of_nat (length dHits)))) as Wd. { split; [done|]. split; [done|]. split; apply dword_range; cbn [rd_uHits rd_uHit]; lia. }
    destruct ks as [|a [|b ks']]; [done|split; try done; cbn [g_hits]; repeat constructor; apply dword_range; lia|]. split; try done. exists dHits, []. by rewrite app_nil_r.
Qed.

(** ** The documents of a word *)

Definition hits_ok (ds : list gdoc) : Prop := Forall (λ g, Forall hit_ok (g_hits g)) ds.

Lemma without_docs k dSrcHits : 0 <= k -> ∀ ds gs n r w dHits uDocs H rest, Forall2 (doc_at dSrcHits) ds gs -> hits_ok gs -> (length ds < n)%nat ->
  dr_pDocs r = Some (enc_docs (rd_tRowID (dr_tDoc r)) ds ++ rest) -> dr_iLeft r = Z.of_nat (length ds) -> Z.of_nat (length dHits + 5 * all_hits gs) < 2 ^ 32 -> 0 <= uDocs -> uDocs + Z.of_nat (length ds) < 2 ^ 32 ->
  ∃ ods x, CopyWordWithoutField n dSrcHits k r dHits w uDocs (cast DWORD H) = Some (dHits ++ x, RtDocWriter (dw_dDocs w ++ enc_docs (dw_tLastRowID w) ods) (last_row (dw_tLastRowID w) ods), uDocs + Z.of_nat (length ods), cast DWORD (H + Z.of_nat (all_hits (fst (del_docs k (length dHits) gs))))) /\
    Forall2 (doc_at (dHits ++ x)) ods (fst (del_docs k (length dHits) gs)) /\ length (dHits ++ x) = snd (del_docs k (length dHits) gs) /\ (length x <= 5 * all_hits gs)%nat /\ (length ods <= length ds)%nat.
Proof.
  intros Hk. induction ds as [|d ds IH]; intros gs [|n] r w dHits uDocs H rest F Ho Hn Ep El Hs H0 Hu; try (cbn in Hn; lia); cbn [CopyWordWithoutField].
  - apply Forall2_nil_inv_l in F as ->. exists [], []. unfold UnzipDoc. rewrite Ep, El. cbn [length Z.of_nat Z.eqb mbind option_bind negb enc_docs last_row del_docs fst snd]. rewrite !app_nil_r, !Z.add_0_r. destruct w. split; [done|]. split; [constructor|]. cbn. lia.
  - apply Forall2_cons_inv_l in F as (g & gs' & Hd & F & ->). apply Forall_cons in Ho as [Hg Ho]. rewrite (unzip_doc d (enc_docs (rd_tRowID d) ds ++ rest)) by (apply Hd || (rewrite Ep; cbn [enc_docs]; by rewrite <- app_assoc) || (rewrite El; cbn; lia)). cbn [mbind option_bind negb dr_tDoc].
    assert (all_hits (g :: gs') = (length (g_hits g) + all_hits gs')%nat) as Ea by done. cbn [length] in *. destruct (process_doc_ok k dSrcHits d g dHits Hk Hd Hg) as (x & d' & -> & Lx & Lx5 & Hd'); [lia|]. cbn [mbind option_bind del_docs]. destruct (del_doc k (length dHits) g) as [o off] eqn:Edd. cbn [fst snd] in Lx, Hd'.
    replace (dr_iLeft r - 1) with (Z.of_nat (length ds)) by lia. destruct o as [g'|].
    + destruct (Z.eqb_spec (rd_uHits d') 0) as [E0|_]; [rewrite (da_count _ _ _ Hd') in E0; pose proof (da_some _ _ _ Hd'); destruct (g_hits g'); [done|cbn in E0; lia]|]. rewrite cast_dword by (apply dword_range; lia). rewrite cast_add, put_doc_enc.
      destruct (IH gs' n (RtDocReader (Some (enc_docs (rd_tRowID d) ds ++ rest)) (Z.of_nat (length ds)) d) (RtDocWriter (dw_dDocs w ++ enc_doc (dw_tLastRowID w) d') (rd_tRowID d')) (dHits ++ x) (uDocs + 1) (H + rd_uHits d') rest F Ho) as (ods & y & -> & A & B & C & D); [lia|done|done|rewrite length_app; lia|lia|lia|]. rewrite Lx in *. destruct (del_docs k off gs') as [l off'] eqn:El'. cbn [fst snd] in *.
      exists (d' :: ods), (x ++ y). cbn [dw_dDocs dw_tLastRowID enc_docs last_row length]. rewrite <- !app_assoc. split.
      * do 2 f_equal; [f_equal; lia|]. f_equal. unfold all_hits. cbn [sum_list_with]. rewrite (da_count _ _ _ Hd'). lia.
      * rewrite <- app_assoc in A, B. split; [constructor; [rewrite app_assoc; by apply doc_at_app|done]|]. split; [done|]. rewrite length_app. lia.
    + rewrite Hd'. cbn [Z.eqb]. destruct (IH gs' n (RtDocReader (Some (enc_docs (rd_tRowID d) ds ++ rest)) (Z.of_nat (length ds)) d) w (dHits ++ x) uDocs H rest F Ho) as (ods & y & -> & A & B & C & D); [lia|done|done|rewrite length_app; lia|lia|lia|]. rewrite Lx in *. destruct (del_docs k off gs') as [l off'] eqn:El'. cbn [fst snd] in *.
      exists ods, (x ++ y). rewrite <- app_assoc in A, B |- *. split; [done|]. split; [done|]. split; [done|]. rewrite length_app. lia.
Qed.

Lemma docs_bytes ds : ∀ l, (length ds <= length (enc_docs l ds))%nat.
Proof. induction ds as [|d ds IH]; intros l; [done|]. cbn [enc_docs length]. rewrite length_app. specialize (IH (rd_tRowID d)). pose proof (enc_doc_nonempty l d). destruct (enc_doc l d); [done|]. cbn [length]. lia. Qed.

Lemma without_word k seg t g dDocs dHits : 0 <= k -> word_at (m_dDocs seg) (m_dHits seg) t g -> hits_ok (g_docs g) -> Z.of_nat (length dHits + 5 * all_hits (g_docs g)) < 2 ^ 32 ->
  ∃ ods x l, CopyWordWithoutField (S (length (m_dDocs seg))) (m_dHits seg) k (new_doc_reader (m_dDocs seg) t) dHits (RtDocWriter dDocs INVALID_ROWID) 0 0 = Some (dHits ++ x, RtDocWriter (dDocs ++ enc_docs INVALID_ROWID ods) l, Z.of_nat (length ods), cast DWORD (Z.of_nat (all_hits (fst (del_docs k (length dHits) (g_docs g)))))) /\
    Forall2 (doc_at (dHits ++ x)) ods (fst (del_docs k (length dHits) (g_docs g))) /\ length (dHits ++ x) = snd (del_docs k (length dHits) (g_docs g)) /\ (length x <= 5 * all_hits (g_docs g))%nat /\ (length ods <= all_hits (g_docs g))%nat.
Proof.
  intros Hk [_ _ _ N (ds & pre & post & Ed & Ep & En & Hn & F)] Ho Hs. pose proof (docs_le_hits _ _ _ F) as Hle. pose proof (docs_bytes ds INVALID_ROWID) as Hld. destruct (without_docs k (m_dHits seg) Hk ds (g_docs g) (S (length (m_dDocs seg))) (new_doc_reader (m_dDocs seg) t) (RtDocWriter dDocs INVALID_ROWID) dHits 0 0 post F Ho) as (ods & x & E & A & B & C & D); [rewrite Ed, !length_app; lia| | |exact Hs|lia|lia|].
  - unfold new_doc_reader. cbn [dr_pDocs dr_tDoc rd_tRowID]. rewrite Ep, Ed. apply point_app. destruct ds as [|d ds]; [by apply Forall2_nil_inv_l in F|]. cbn. intros [E _]%app_eq_nil. by apply enc_doc_nonempty in E.
  - unfold new_doc_reader. cbn [dr_iLeft]. rewrite En. apply cast_id; [done|]. unfold in_type. cbn. lia.
  - change (cast DWORD 0) with 0 in E. rewrite !Z.add_0_l in E. eexists ods, x, _. split; [exact E|]. split; [done|]. split; [done|]. split; [done|lia].
Qed.

(** ** The dictionary *)

Section Delete.
Context (f : DictFormat_e) (cp : Z) (mode : ESphHitless).

Lemma delete_loop_ok k seg rend : 0 <= k -> (length (wr_pCur rend) <= wr_iTail rend)%nat -> ∀ ws gw fuel r dDocs dHits tOut gs n, reads f cp mode ws r rend -> Forall2 (word_at (m_dDocs seg) (m_dHits seg)) ws gw -> Forall (word_wf f mode) ws -> sorted_keys (map g_key gw) -> Forall (λ g, hits_ok (g_docs g)) gw ->
  merged f cp mode (RtDocWriter dDocs INVALID_ROWID) tOut dHits gs n -> Forall (λ a, Forall (key_lt a) (map g_key gw)) (map g_key gs) -> Z.of_nat (n + total_hits gw) < 2 ^ 27 -> (length ws < fuel)%nat ->
  ∃ dDocs' dHits' tOut' n', delete_loop f cp mode fuel seg k r dDocs dHits tOut = Some (dDocs', dHits', tOut') /\ merged f cp mode (RtDocWriter dDocs' INVALID_ROWID) tOut' dHits' (gs ++ del_words k (length dHits) gw) n'.
Proof.
  intros Hk Hend. induction ws as [|t ws IH]; intros gw [|fuel] r dDocs dHits tOut gs n Hr F Wf Hs Ho Hm Hgt Hn Hf; cbn [length] in Hf; try lia; inversion Hr as [|? ? ? r1 ? Hu Hr1]; subst; cbn [delete_loop].
  - apply Forall2_nil_inv_l in F as ->. unfold UnzipWord. apply Nat.leb_le in Hend. rewrite Hend. cbn [mbind option_bind]. eexists _, _, _, n. split; [done|]. cbn. by rewrite app_nil_r.
  - apply Forall2_cons_inv_l in F as (g & gw' & Hg & F & ->). apply Forall_cons in Wf as [Wt Wf]. apply Forall_cons in Ho as [Hog Ho]. cbn [map] in Hs, Hgt. apply StronglySorted_inv in Hs as [Hs Hlt]. cbn [total_hits sum_list_with] in Hn. fold (total_hits gw') in Hn. pose proof (mg_hits _ _ _ _ _ _ _ _ Hm). rewrite Hu. cbn [mbind option_bind].
    destruct (without_word k seg t g dDocs dHits Hk Hg Hog) as (ods & x & l & -> & A & B & C & D); [lia|]. cbn [mbind option_bind del_words dw_dDocs]. destruct (del_docs k (length dHits) (g_docs g)) as [ds off]. cbn [fst snd] in *. pose proof (word_mode f mode t Wt) as Wm. assert (key_wf f (g_key g)) as Kg by (rewrite <- (wa_key _ _ _ _ Hg); apply Wt). rewrite (wa_has _ _ _ _ Hg) in *. rewrite (wa_key _ _ _ _ Hg) in *.
    destruct (merged_word f cp mode (RtDocWriter dDocs INVALID_ROWID) tOut dHits gs n (g_key g) (g_hashits g) ods x ds (all_hits (g_docs g)) Hm Kg Wm) as (tOut' & Et & Hm'); [by eapply below; [exact Hgt|left]|done|lia|lia|lia|]. cbn [dw_dDocs] in Et, Hm'. rewrite Et. cbn [mbind option_bind].
    destruct (IH gw' fuel r1 _ _ tOut' _ _ Hr1 F Wf Hs Ho Hm') as (a & b & c & n' & -> & Hm2); [by apply above_join|lia|lia|]. eexists _, _, _, n'. split; [done|]. by rewrite <- app_assoc, B in Hm2.
Qed.

Lemma delete_represents k seg gs : 0 <= k -> represents f cp mode seg gs -> Forall (λ g, hits_ok (g_docs g)) gs -> Z.of_nat (total_hits gs) < 2 ^ 27 ->
  ∃ seg', DeleteFieldFromDict f cp mode seg k = Some seg' /\ represents f cp mode seg' (del_words k 0 gs).
Proof.
  intros Hk [(ws & w & Ew & E1 & _ & _ & Wf & F) Hs] Ho Hn. pose proof (words_sorted seg gs ws F) as Ek. destruct (put_all f cp mode ws new_word_writer None Wf (new_wlast f None)) as (w' & d & Ew' & Ed & Hl & _ & Hr); [by rewrite Ek|by destruct ws|]. rewrite Ew in Ew'. injection Ew' as <-. cbn in Ed. rewrite Ed in E1.
  destruct (Hr (new_word_reader f d) [] (new_synced f d)) as (r' & R1 & R2 & R3 & _); [by rewrite app_nil_r|done|]. assert (merged f cp mode (RtDocWriter [] INVALID_ROWID) new_word_writer [] [] 0) as Hm by (split; [exists []; split; [done|split; constructor]|done|cbn; lia|cbn; lia|constructor]). unfold DeleteFieldFromDict. rewrite E1.
  destruct (delete_loop_ok k seg r' Hk ltac:(rewrite R2; cbn; lia) ws gs (2 + length d) _ [] [] _ _ _ R1 F Wf Hs Ho Hm) as (dDocs & dHits & tOut & n' & -> & [(ws' & A1 & A2 & A3) _ _ _ Hs']); [constructor|lia|lia|].
  cbn [mbind option_bind]. eexists. split; [done|]. split; [|done]. by exists ws', tOut.
Qed.
End Delete.

(** ** What is left of the segment *)

(** What should be left. *)
Definition doc_without (k : Z) (g : gdoc) : option gdoc := match kept k (g_hits g) with [] => None | hs => Some (GDoc (g_row g) (fields_of hs) hs) end.
Definition words_without (k : Z) (gs : list gword) : list gword := concat (map (λ g, join (g_key g) (g_hashits g) (omap (doc_without k) (g_docs g))) gs).

(** No document is left with one of several hits. *)
Definition not_single (k : Z) (ds : list gdoc) : Prop := Forall (λ g, length (g_hits g) = 1%nat \/ length (kept k (g_hits g)) ≠ 1%nat) ds.

Lemma del_docs_without k ds : not_single k ds -> ∀ off, fst (del_docs k off ds) = omap (doc_without k) ds.
Proof.
  induction 1 as [|g ds Hg H IH]; intros off; [done|]. cbn [del_docs omap list_omap]. destruct (del_doc k off g) as [o off'] eqn:E. assert (o = doc_without k g) as ->.
  { apply (f_equal fst) in E. cbn in E. rewrite <- E. unfold del_doc, doc_without. destruct (g_hits g) as [|h [|h' hs]] eqn:Eh; [done|by destruct (kept k [h])|]. cbn [fst]. destruct Hg as [Hg|Hg]; [done|]. destruct (kept k (h :: h' :: hs)) as [|a [|b l]]; done. }
  specialize (IH off'). destruct (del_docs k off' ds) as [l off2]. cbn [fst] in *. rewrite <- IH. by destruct (doc_without k g).
Qed.

Lemma del_words_without k gs : Forall (λ g, not_single k (g_docs g)) gs -> ∀ off, del_words k off gs = words_without k gs.
Proof.
  unfold words_without. induction 1 as [|g gs Hg H IH]; intros off; [done|]. cbn [del_words map concat]. pose proof (del_docs_without k _ Hg off) as E. destruct (del_docs k off (g_docs g)) as [ds off']. cbn in E. by rewrite E, IH.
Qed.

(** [C21] Dropping a full-text field from the dictionary of a segment always succeeds
    (up to [2^27] hits) and leaves a segment that reads back as the old one without
    the hits of that field, with the hits of the fields behind it moved one field
    down, the field masks computed anew, and without the documents and words that
    lost their last hit - provided that no document with several hits of a word is
    left with a single one. *)
Theorem delete_field_correct f cp mode seg gs k : 0 <= k -> represents f cp mode seg gs -> Forall (λ g, hits_ok (g_docs g)) gs -> Z.of_nat (total_hits gs) < 2 ^ 27 -> Forall (λ g, not_single k (g_docs g)) gs ->
  ∃ seg', DeleteFieldFromDict f cp mode seg k = Some seg' /\ dump f cp mode seg' = Some (words_without k gs).
Proof.
  intros Hk R Ho Hn Hns. destruct (delete_represents f cp mode k seg gs Hk R Ho Hn) as (seg' & E & R'). exists seg'. split; [done|]. rewrite (del_words_without k gs Hns) in R'. by apply dump_ok.
Qed.

(** Three hits of one word in fields 0, 1 and 2. *)
Definition three_hits : list CSphWordHit := [WordHit 0 5 1; WordHit 1 5 2; WordHit 1 5 16777219; WordHit 1 5 33554436].

Lemma simple_accum mode b l : match mode with SPH_HITLESS_NONE => b = true | SPH_HITLESS_ALL => b = false | _ => False end -> Forall (λ h, 0 <= wh_tRowID h < INVALID_ROWID /\ 0 < wh_uWordID h < WORDID_MAX /\ hit_ok (wh_uWordPos h)) l -> Forall (accum_hit CRC mode [] [] WordID (λ _, b)) l.
Proof.
  intros Hb H. eapply Forall_impl; [exact H|]. intros h (A & B & C). cbn in *. split; try done; cbn.
  - unfold key_wf, in_type. cbn. unfold WORDID_MAX in B. lia.
  - unfold has_hitlist. destruct mode; [by rewrite Hb|done|]. destruct (Z.eqb_spec (wh_uWordID h) 0); [lia|by rewrite Hb].
Qed.

Lemma delete_field_correct_witness : ∃ seg seg', CreateSegmentHits CRC 4 SPH_HITLESS_NONE [] [] three_hits = Some seg /\ DeleteFieldFromDict CRC 4 SPH_HITLESS_NONE seg 0 = Some seg' /\
  dump CRC 4 SPH_HITLESS_NONE seg' = Some [GWord (WordID 5) true [GDoc 1 3 [3; 16777220]]].
Proof.
  destruct (create_represents CRC 4 SPH_HITLESS_NONE [] [] WordID (λ _, true) three_hits) as (seg & E & R); [apply simple_accum; [done|]; repeat constructor; cbn; unfold WORDID_MAX; try done; lia|cbn; lia|repeat constructor|].
  destruct (delete_field_correct CRC 4 SPH_HITLESS_NONE seg _ 0 ltac:(done) R) as (seg' & E' & Hd).
  - repeat constructor; done.
  - reflexivity.
  - apply Forall_singleton, Forall_cons. split; [by left|]. apply Forall_singleton. by right.
  - exists seg, seg'. split; [done|]. split; [done|]. exact Hd.
Defined.

Lemma field1_hit q : 0 < q < 2 ^ 23 -> GetField (16777216 + q) = 1 /\ DecrementField (16777216 + q) = q.
Proof.
  intros H. change (2 ^ 23) with 8388608 in H. unfold GetField, DecrementField, FIELD_OFF. rewrite Z.shiftr_div_pow2 by lia. change (Z.shiftl 1 24) with 16777216. replace (16777216 + q - 16777216) with q by lia. split; [|apply cast_dword, dword_range; lia]. change (2 ^ 24) with 16777216. Z.to_euclidean_division_equations. lia.
Qed.

Lemma field0_hit p : 0 < p < 2 ^ 23 -> GetField p = 0.
Proof. intros H. unfold GetField, FIELD_OFF. rewrite Z.shiftr_div_pow2 by lia. apply Z.div_small. change (2 ^ 23) with 8388608 in H. change (2 ^ 24) with 16777216. lia. Qed.

(** [C37] A document with one hit of a word in field 0 and one in field 1: after field
    0 is dropped, the hit that should be left is read back as 0, the offset at which
    it was written, as a document with a single hit stores the hit itself. In an
    index without hitlists the document keeps only its first hit, so that it is lost
    altogether, although its field mask names field 1. *)
Theorem delete_field_garbles_hit row p q : 0 <= row < INVALID_ROWID -> 0 < p < 2 ^ 23 -> 0 < q < 2 ^ 23 ->
  let hits := [WordHit row 5 p; WordHit row 5 (16777216 + q)] in
  kept 0 [p; 16777216 + q] = [q] /\
  (∃ seg seg', CreateSegmentHits CRC 4 SPH_HITLESS_NONE [] [] hits = Some seg /\ dump CRC 4 SPH_HITLESS_NONE seg = Some [GWord (WordID 5) true [GDoc row 3 [p; 16777216 + q]]] /\
    DeleteFieldFromDict CRC 4 SPH_HITLESS_NONE seg 0 = Some seg' /\ dump CRC 4 SPH_HITLESS_NONE seg' = Some [GWord (WordID 5) true [GDoc row 1 [0]]]) /\
  (∃ seg seg', CreateSegmentHits CRC 4 SPH_HITLESS_ALL [] [] hits = Some seg /\ dump CRC 4 SPH_HITLESS_ALL seg = Some [GWord (WordID 5) false [GDoc row 3 [p]]] /\
    DeleteFieldFromDict CRC 4 SPH_HITLESS_ALL seg 0 = Some seg' /\ dump CRC 4 SPH_HITLESS_ALL seg' = Some []).
Proof.
  intros Hr Hp Hq hits. destruct (field1_hit q Hq) as [F1 F2]. pose proof (field0_hit p Hp) as F0. pose proof (field0_hit q Hq) as Fq. change (2 ^ 23) with 8388608 in *. assert (kept 0 [p; 16777216 + q] = [q]) as Ek by (unfold kept, kept_hit; cbn [omap list_omap]; rewrite F0, F1; cbn [Z.eqb Z.ltb Z.compare]; by rewrite F2). split; [done|].
  assert (∀ mode b, match mode with SPH_HITLESS_NONE => b = true | SPH_HITLESS_ALL => b = false | _ => False end -> Forall (accum_hit CRC mode [] [] WordID (λ _, b)) hits) as Ha.
  { intros mode b Hb. apply simple_accum; [done|]. repeat constructor; cbn [wh_tRowID wh_uWordID wh_uWordPos]; try (unfold WORDID_MAX; lia); (apply dword_range; lia) || lia. }
  assert (∀ b, map (word_of WordID (λ _, b)) (group hits) = [GWord (WordID 5) b [GDoc row 3 (if b then [p; 16777216 + q] else [p])]]) as Eg.
  { intros b. cbn [group hits foldr wh_tRowID wh_uWordID wh_uWordPos attach]. change (5 =? 5) with true. cbn [app]. rewrite Z.eqb_refl. unfold word_of, doc_of. cbn [map fst snd squeeze]. change EMPTY_HIT with 0. destruct (Z.eqb_spec 0 p); [lia|]. destruct (Z.eqb_spec p (16777216 + q)); [lia|]. unfold fields_of. cbn [fold_left]. unfold add_field. rewrite F0, F1. by destruct b. }
  assert (sorted_keys (map WordID (map fst (group hits)))) as Hs by (cbn [group hits foldr wh_tRowID wh_uWordID wh_uWordPos attach]; change (5 =? 5) with true; cbn [app]; rewrite Z.eqb_refl; repeat constructor).
  assert (hit_ok p /\ hit_ok (16777216 + q)) as [Op Oq] by (split; (split; [apply dword_range; lia|lia])). split.
  - destruct (create_represents CRC 4 SPH_HITLESS_NONE [] [] WordID (λ _, true) hits (Ha SPH_HITLESS_NONE true eq_refl)) as (seg & E & R); [cbn; lia|done|]. rewrite Eg in R. destruct (delete_represents CRC 4 SPH_HITLESS_NONE 0 seg _ ltac:(lia) R) as (seg' & E' & R'); [by apply Forall_singleton, Forall_singleton, Forall_cons; (split; [|apply Forall_singleton])|cbn; lia|].
    exists seg, seg'. split; [done|]. split; [by apply dump_ok|]. split; [done|]. apply dump_ok. cbn [del_words del_docs g_docs] in R'. unfold del_doc in R'. cbn [g_hits g_row] in R'. rewrite Ek in R'. unfold fields_of, add_field in R'. cbn [fold_left] in R'. rewrite Fq in R'. exact R'.
  - destruct (create_represents CRC 4 SPH_HITLESS_ALL [] [] WordID (λ _, false) hits (Ha SPH_HITLESS_ALL false eq_refl)) as (seg & E & R); [cbn; lia|done|]. rewrite Eg in R. destruct (delete_represents CRC 4 SPH_HITLESS_ALL 0 seg _ ltac:(lia) R) as (seg' & E' & R'); [by apply Forall_singleton, Forall_singleton, Forall_singleton|cbn; lia|].
    exists seg, seg'. split; [done|]. split; [by apply dump_ok|]. split; [done|]. apply dump_ok. cbn [del_words del_docs g_docs] in R'. unfold del_doc in R'. cbn [g_hits g_row] in R'. assert (kept 0 [p] = []) as Ek0 by (unfold kept, kept_hit; cbn [omap list_omap]; by rewrite F0). rewrite Ek0 in R'. exact R'.
Qed.

Lemma delete_field_garbles_hit_witness : ∃ seg seg', CreateSegmentHits CRC 4 SPH_HITLESS_NONE [] [] [WordHit 3 5 10; WordHit 3 5 16777236] = Some seg /\ DeleteFieldFromDict CRC 4 SPH_HITLESS_NONE seg 0 = Some seg' /\
  dump CRC 4 SPH_HITLESS_NONE seg' = Some [GWord (WordID 5) true [GDoc 3 1 [0]]].
Proof.
  destruct (delete_field_garbles_hit 3 10 20 ltac:(done) ltac:(done) ltac:(done)) as (_ & (seg & seg' & E & _ & E' & H) & _). exists seg, seg'. split; [exact E|]. split; [done|]. exact H.
Defined.
End RtDelete.
