(* ===== verification/RtQword.v ===== *)
(** * Reading a keyword of a segment (src/src/sphinxrt.cpp)

    A keyword is looked up through the checkpoints of the dictionary, and read
    through [RtQword_t], the keyword reader of the RAM segments: it leaves out the
    rows that are dead, and reads the hits of a document at an offset that holds the
    number of the hits in its upper half. *)

From S2P Require Import Prelude Zip Hits BinSearch SearchNode ExtTerm DeadMap RtSegment.
Import Zip Hitman FieldMask RtSegment.

Module RtQword.

(** ** [RtQword_t] *)

Record RtQword_t := RtQword {
  rq_pSeg : RtSegment_t;
  rq_tDead : DeadMap.DeadRowMap_c;
  rq_tDocReader : RtDocReader_c;
  rq_tHitReader : RtHitReader_c;
  rq_uNextHit : Z;
  rq_tRowID : Z;
  rq_dQwordFields : FieldMask_t;
  rq_uMatchHits : Z;
  rq_iHitlistPos : Z;
  rq_bAllFieldsKnown : bool;
  rq_iDocs : Z
}.

(** The next document that is alive. Reading out of the vectors is undefined in the
    code; here it ends the documents. *)
Fixpoint next_alive (fuel : nat) (tDead : DeadMap.DeadRowMap_c) (r : RtDocReader_c) : bool * RtDocReader_c :=
  match fuel with
  | O => (false, r)
  | S fuel' =>
      match UnzipDoc r with
      | Some (true, r) => if default false (DeadMap.IsSet (rd_tRowID (dr_tDoc r)) tDead) then next_alive fuel' tDead r else (true, r)
      | Some (false, r) => (false, r)
      | None => (false, r)
      end
  end.

Definition left_bytes (r : RtDocReader_c) : nat := match dr_pDocs r with Some l => length l | None => 0 end.

Definition hitlist_pos (tDoc : RtDoc_t) : Z := cast int64_t (Z.shiftl (rd_uHits tDoc) 32 + rd_uHit tDoc).

Definition GetNextDoc (q : RtQword_t) : RtQword_t :=
  let '(ok, r) := next_alive (S (left_bytes (rq_tDocReader q))) (rq_tDead q) (rq_tDocReader q) in
  if ok then
    let pDoc := dr_tDoc r in
    RtQword (rq_pSeg q) (rq_tDead q) r (rq_tHitReader q) (rq_uNextHit q) (rd_tRowID pDoc) (Assign32 (rd_uDocFields pDoc)) (rd_uHits pDoc) (hitlist_pos pDoc) false (rq_iDocs q)
  else RtQword (rq_pSeg q) (rq_tDead q) r (rq_tHitReader q) (rq_uNextHit q) INVALID_ROWID (rq_dQwordFields q) (rq_uMatchHits q) (rq_iHitlistPos q) (rq_bAllFieldsKnown q) (rq_iDocs q).

(** Two halves of the hits: the reader and the single hit. *)
Definition seek_hits (dHits : list Z) (uOff : Z) (h : RtHitReader_c * Z) : RtHitReader_c * Z :=
  let iHits := cast int32_t (Z.shiftr uOff 32) in
  if iHits =? 1 then (fst h, cast DWORD uOff)
  else (RtHitReader (point dHits (cast DWORD uOff)) (cast DWORD iHits) EMPTY_HIT, 0).

Definition next_hit (h : RtHitReader_c * Z) : Z * (RtHitReader_c * Z) :=
  let '(r, uNextHit) := h in
  if uNextHit =? 0 then match UnzipHit r with Some (u, r) => (u, (r, 0)) | None => (EMPTY_HIT, h) end
  else if uNextHit =? 0xffffffff then (EMPTY_HIT, h)
  else (uNextHit, (r, 0xffffffff)).

Definition set_hits (q : RtQword_t) (h : RtHitReader_c * Z) : RtQword_t :=
  RtQword (rq_pSeg q) (rq_tDead q) (rq_tDocReader q) (fst h) (snd h) (rq_tRowID q) (rq_dQwordFields q) (rq_uMatchHits q) (rq_iHitlistPos q) (rq_bAllFieldsKnown q) (rq_iDocs q).

Definition hits_state (q : RtQword_t) : RtHitReader_c * Z := (rq_tHitReader q, rq_uNextHit q).

Definition SeekHitlist (uOff : Z) (q : RtQword_t) : RtQword_t := set_hits q (seek_hits (m_dHits (rq_pSeg q)) uOff (hits_state q)).

Definition GetNextHit (q : RtQword_t) : Z * RtQword_t := let '(u, h) := next_hit (hits_state q) in (u, set_hits q h).

(** [ISphQword::CollectHitMask] *)
Fixpoint mask_loop (fuel : nat) (m : FieldMask_t) (h : RtHitReader_c * Z) : FieldMask_t * (RtHitReader_c * Z) :=
  match fuel with
  | O => (m, h)
  | S fuel' => let '(uHit, h) := next_hit h in if uHit =? EMPTY_HIT then (m, h) else mask_loop fuel' (Set_ m (GetField uHit)) h
  end.

(** Every hit but a single one takes a byte at least. *)
Definition hits_fuel (dHits : list Z) : nat := 3 + length dHits.

Definition CollectHitMask (q : RtQword_t) : RtQword_t :=
  if rq_bAllFieldsKnown q then q
  else
    let h := seek_hits (m_dHits (rq_pSeg q)) (rq_iHitlistPos q) (hits_state q) in
    let '(m, h) := mask_loop (hits_fuel (m_dHits (rq_pSeg q))) (rq_dQwordFields q) h in
    RtQword (rq_pSeg q) (rq_tDead q) (rq_tDocReader q) (fst h) (snd h) (rq_tRowID q) m (rq_uMatchHits q) (rq_iHitlistPos q) true (rq_iDocs q).

#[export] Instance RtQword_qword : ExtTerm.ISphQword RtQword_t := {
  ExtTerm.q_iDocs := rq_iDocs;
  ExtTerm.q_set_iDocs n q := RtQword (rq_pSeg q) (rq_tDead q) (rq_tDocReader q) (rq_tHitReader q) (rq_uNextHit q) (rq_tRowID q) (rq_dQwordFields q) (rq_uMatchHits q) (rq_iHitlistPos q) (rq_bAllFieldsKnown q) n;
  ExtTerm.q_tRowID := rq_tRowID;
  ExtTerm.q_dQwordFields := rq_dQwordFields;
  ExtTerm.q_uMatchHits := rq_uMatchHits;
  ExtTerm.q_iHitlistPos := rq_iHitlistPos;
  ExtTerm.GetNextDoc := GetNextDoc;
  ExtTerm.CollectHitMask := CollectHitMask;
  ExtTerm.q_HintRowID _ q := q;
  ExtTerm.SeekHitlist := SeekHitlist;
  ExtTerm.GetNextHit := GetNextHit;
  ExtTerm.qwork q := left_bytes (rq_tDocReader q)
}.

(** ** Searching the checkpoints *)

(** The loop of [sphSearchCheckpointCrc] and [RtSearchCheckpointWrd] with the
    comparison of the word to the checkpoint of an index. *)
Fixpoint checkpoint_loop (fuel : nat) (cmp : Z -> option comparison) (iStart iEnd : Z) : option Z :=
  if 1 <? iEnd - iStart then
    match fuel with
    | O => None
    | S fuel' =>
        let iMid := iStart + Z.quot (iEnd - iStart) 2 in
        c ← cmp iMid;
        match c with Eq => Some iMid | Lt => checkpoint_loop fuel' cmp iStart iMid | Gt => checkpoint_loop fuel' cmp iMid iEnd end
    end
  else Some iStart.

(** [None] outside of the vectors, [Some None] for a null pointer. *)
Definition search_checkpoint (n : nat) (first cmp : Z -> option comparison) : option (option Z) :=
  c ← first 0;
  match c with
  | Lt => Some None
  | _ =>
      c ← cmp (Z.of_nat n - 1);
      match c with
      | Lt => i ← checkpoint_loop n cmp 0 (Z.of_nat n - 1); Some (Some i)
      | _ => Some (Some (Z.of_nat n - 1))
      end
  end.

Definition sphSearchCheckpointCrc (uWordID : Z) (dCheckpoints : list RtWordCheckpoint_t) : option (option Z) :=
  let cmp i := tCp ← dCheckpoints !! Z.to_nat i; Some (uWordID ?= cp_uWordID tCp) in
  search_checkpoint (length dCheckpoints) cmp cmp.

Definition sphDictCmp (a b : list Z) : comparison := sphDictCmpStrictly (take (length b) a) (take (length a) b).

(** The bytes before the terminating zero. *)
Fixpoint c_str (l : list Z) : list Z := match l with [] => [] | b :: l' => if b =? 0 then [] else b :: c_str l' end.

(** What [FixupSegmentCheckpoints] makes [m_szWord] point to. *)
Definition checkpoint_word (dKeywordCheckpoints : list Z) (tCp : RtWordCheckpoint_t) : list Z := c_str (drop (Z.to_nat (cp_uWordID tCp)) dKeywordCheckpoints).

Definition RtSearchCheckpointWrd (sWord : list Z) (bStarMode : bool) (dKeywordCheckpoints : list Z) (dCheckpoints : list RtWordCheckpoint_t) : option (option Z) :=
  let cmp i := tCp ← dCheckpoints !! Z.to_nat i; Some (sphDictCmpStrictly sWord (checkpoint_word dKeywordCheckpoints tCp)) in
  let first i := if bStarMode then tCp ← dCheckpoints !! Z.to_nat i; Some (sphDictCmp sWord (checkpoint_word dKeywordCheckpoints tCp)) else cmp i in
  search_checkpoint (length dCheckpoints) first cmp.

(** ** Looking a keyword up *)

Section Setup.
Context (m_eDictFormat : DictFormat_e) (m_iWordsCheckpoint : Z) (m_eHitlessMode : ESphHitless) (iMinPrefixLen iMinInfixLen : Z).

Definition IsWordDict : bool := negb (bool_decide (m_eDictFormat = CRC)).

(** The keyword without its star; nothing if it cannot be looked up. *)
Definition lookup_word (sDictWord : list Z) : option (list Z) :=
  let bPrefix := IsWordDict && match last sDictWord with Some c => c =? 42 | None => false end in
  let sWord := if bPrefix then take (length sDictWord - 1) sDictWord else sDictWord in
  let iWordLen := Z.of_nat (length sWord) in
  if iWordLen =? 0 then None
  else if bPrefix && ((negb (iMinPrefixLen =? 0) && (iWordLen <? iMinPrefixLen)) || (negb (iMinInfixLen =? 0) && (iWordLen <? iMinInfixLen))) then None
  else Some sWord.

(** The reader for the words between two checkpoints. *)
Definition ranged_reader (pCurSeg : RtSegment_t) (uWordID : Z) (sWord : list Z) : option RtWordReader_c :=
  let dCheckpoints := m_dWordCheckpoints pCurSeg in
  let dWords := m_dWords pCurSeg in
  let reader iCur iMax := RtWordReader (drop (Z.to_nat iCur) dWords) (length dWords - Z.to_nat iMax) (new_buf m_eDictFormat) (RtWord (WordID 0) 0 0 0 true) 0 0 in
  match dCheckpoints with
  | [] => Some (new_word_reader m_eDictFormat dWords)
  | tFirst :: _ =>
      pCp ← (if IsWordDict then RtSearchCheckpointWrd sWord false (m_dKeywordCheckpoints pCurSeg) dCheckpoints else sphSearchCheckpointCrc uWordID dCheckpoints);
      match pCp with
      | None => Some (reader 0 (cp_iOffset tFirst))
      | Some i =>
          tCp ← dCheckpoints !! Z.to_nat i;
          Some (reader (cp_iOffset tCp) (match dCheckpoints !! Z.to_nat (i + 1) with Some tNext => cp_iOffset tNext | None => Z.of_nat (length dWords) end))
      end
  end.

(** The loop until the first word that is not less. *)
Fixpoint find_loop (fuel : nat) (key : wordkey) (r : RtWordReader_c) : option (option RtWord_t) :=
  match fuel with
  | O => None
  | S fuel' =>
      '(p, r) ← UnzipWord m_eDictFormat m_iWordsCheckpoint m_eHitlessMode r;
      match p with
      | None => Some None
      | Some t => c ← cmp_keys (rw_key t) key; match c with Lt => find_loop fuel' key r | Eq => Some (Some t) | Gt => Some None end
      end
  end.

(** [RtQwordSetupSegment] without the statistics: the word that is found. *)
Definition find_word (pCurSeg : RtSegment_t) (uWordID : Z) (sDictWord : list Z) : option (option RtWord_t) :=
  match lookup_word sDictWord with
  | None => Some None
  | Some sWord =>
      r ← ranged_reader pCurSeg uWordID sWord;
      find_loop (S (length (m_dWords pCurSeg))) (if IsWordDict then Word sWord else WordID uWordID) r
  end.

(** The statistics of a qword. *)
Record qword_stat := QwordStat { qs_iDocs : Z; qs_iHits : Z; qs_bHasHitlist : bool }.

Definition add_stat (t : RtWord_t) (s : qword_stat) : qword_stat :=
  QwordStat (cast int32_t (qs_iDocs s + rw_uDocs t)) (cast int32_t (qs_iHits s + rw_uHits t)) (qs_bHasHitlist s && rw_bHasHitlist t).

(** [RtQwordSetupSegment] with [bSetup] false. *)
Definition stat_segment (pCurSeg : RtSegment_t) (uWordID : Z) (sDictWord : list Z) (s : qword_stat) : option (bool * qword_stat) :=
  o ← find_word pCurSeg uWordID sDictWord; Some (match o with Some t => (true, add_stat t s) | None => (false, s) end).

(** [RtQwordSetup], the pass over all segments. *)
Fixpoint stat_loop (dRamSegs : list RtSegment_t) (uWordID : Z) (sDictWord : list Z) (bFound : bool) (s : qword_stat) : option (bool * qword_stat) :=
  match dRamSegs with
  | [] => Some (bFound, s)
  | pSeg :: l => '(b, s) ← stat_segment pSeg uWordID sDictWord s; stat_loop l uWordID sDictWord (bFound || b) s
  end.

Definition stat_pass (dRamSegs : list RtSegment_t) (uWordID : Z) (sDictWord : list Z) (bHasHitlist : bool) : option (bool * qword_stat) :=
  let s := QwordStat 0 0 bHasHitlist in
  match dRamSegs with [] => Some (true, s) | _ => stat_loop dRamSegs uWordID sDictWord false s end.

(** [RtQwordSetupSegment] with [bSetup], and [SetupReader]. *)
Definition SetupReader (pSeg : RtSegment_t) (tDead : DeadMap.DeadRowMap_c) (tWord : RtWord_t) (q : RtQword_t) : RtQword_t :=
  RtQword pSeg tDead (new_doc_reader (m_dDocs pSeg) tWord) (rq_tHitReader q) (rq_uNextHit q) (rq_tRowID q) (rq_dQwordFields q) (rq_uMatchHits q) (rq_iHitlistPos q) (rq_bAllFieldsKnown q) (cast int32_t (rq_iDocs q + rw_uDocs tWord)).

Definition RtQwordSetupSegment (pCurSeg : RtSegment_t) (tDead : DeadMap.DeadRowMap_c) (uWordID : Z) (sDictWord : list Z) (q : RtQword_t) : option (bool * RtQword_t) :=
  o ← find_word pCurSeg uWordID sDictWord; Some (match o with Some t => (true, SetupReader pCurSeg tDead t q) | None => (false, q) end).
End Setup.
End RtQword.
