(* ===== verification/RtQwordOk.v ===== *)
(** * The keyword reader of the RAM segments meets its contract

    [RtQword_t] is an instance of [QwordOk], so that everything that holds of the
    boolean nodes and the match loop holds for the RAM segments too. A keyword is
    found through the checkpoints if and only if the segment has it. *)

From stdpp Require Import sorting.
From S2P Require Import Prelude Zip Hits BinSearch SearchNode ExtTerm DeadMap RtSegment RtSegmentOk RtDelete RtQword.
Import Zip Hitman FieldMask ExtTerm RtSegment RtSegmentOk RtCreateOk RtMergeOk RtDelete RtQword.

Module RtQwordOk.

(** ** The documents of a keyword *)

Definition alive (tDead : DeadMap.DeadRowMap_c) (d : RtDoc_t) : bool := negb (default false (DeadMap.IsSet (rd_tRowID d) tDead)).

(** The field mask after [CollectHitMask]. *)
Definition full_mask (dHits : list Z) (d : RtDoc_t) : FieldMask_t :=
  fst (mask_loop (hits_fuel dHits) (Assign32 (rd_uDocFields d)) (seek_hits dHits (hitlist_pos d) (RtHitReader None 0 0, 0))).

Definition posting_of (pSeg : RtSegment_t) (d : RtDoc_t) : posting :=
  Posting (rd_tRowID d) (Assign32 (rd_uDocFields d)) (full_mask (m_dHits pSeg) d) (rd_uHits d) (hitlist_pos d).

Definition alive_docs (q : RtQword_t) (ds : list RtDoc_t) : list posting := map (posting_of (rq_pSeg q)) (List.filter (alive (rq_tDead q)) ds).

Definition rt_rem (q : RtQword_t) : list posting :=
  match read_docs (Z.to_nat (dr_iLeft (rq_tDocReader q))) (rq_tDocReader q) with Some ds => alive_docs q ds | None => [] end.

(** A single hit is not 0, which [SeekHitlist] takes for no hit. *)
Definition good_doc (d : RtDoc_t) : Prop := doc_wf d /\ rd_uHits d < 2 ^ 31 /\ (rd_uHits d = 1 -> rd_uHit d ≠ 0).

(** The documents [ds] are left. *)
Definition stands (r : RtDocReader_c) (ds : list RtDoc_t) : Prop :=
  (∃ rest, dr_pDocs r = Some (enc_docs (rd_tRowID (dr_tDoc r)) ds ++ rest) /\ dr_iLeft r = Z.of_nat (length ds)) \/ (dr_pDocs r = None /\ ds = []).

Definition rt_inv (b : Z) (q : RtQword_t) : Prop := ∃ ds, Forall good_doc ds /\ stands (rq_tDocReader q) ds /\ pasc b (alive_docs q ds).

Lemma stands_rem q ds : Forall good_doc ds -> stands (rq_tDocReader q) ds -> rt_rem q = alive_docs q ds.
Proof.
  intros G [(rest & Ep & El)|(Ep & ->)]; unfold rt_rem.
  - destruct (rq_tDocReader q) as [p l d0]. cbn in Ep, El. subst p l. cbn [dr_iLeft]. rewrite Nat2Z.id, read_enc_docs; [done|]. eapply Forall_impl; [exact G|]. by intros d [? _].
  - destruct (Z.to_nat (dr_iLeft (rq_tDocReader q))) as [|n]; cbn [read_docs]; [done|]. unfold UnzipDoc. by rewrite Ep.
Qed.

Lemma next_alive_ok tDead ds : ∀ fuel r, Forall good_doc ds -> stands r ds -> (length ds < fuel)%nat ->
  match List.filter (alive tDead) ds with
  | [] => ∃ r', next_alive fuel tDead r = (false, r')
  | d :: l => ∃ r' ds', next_alive fuel tDead r = (true, r') /\ dr_tDoc r' = d /\ l = List.filter (alive tDead) ds' /\ Forall good_doc ds' /\ stands r' ds' /\ good_doc d /\ (left_bytes r' < left_bytes r)%nat
  end.
Proof.
  induction ds as [|d ds IH]; intros [|fuel] r G S Hf; cbn [length] in Hf; try lia; cbn [next_alive List.filter].
  - unfold UnzipDoc. destruct S as [(rest & -> & ->)|(-> & _)]; by eexists.
  - apply Forall_cons in G as [Hd G]. destruct S as [(rest & Ep & El)|(_ & ?)]; [|done]. rewrite (unzip_doc d (enc_docs (rd_tRowID d) ds ++ rest)) by (apply Hd || (rewrite Ep; cbn [enc_docs]; by rewrite <- app_assoc) || (rewrite El; cbn; lia)). set (r1 := RtDocReader _ _ d). cbn [dr_tDoc r1].
    assert (stands r1 ds) as S1 by (left; exists rest; cbn; split; [done|rewrite El; cbn; lia]). assert (left_bytes r1 < left_bytes r)%nat as Lb. { unfold left_bytes. rewrite Ep. cbn [r1 dr_pDocs enc_docs]. rewrite !length_app. pose proof (enc_doc_nonempty (rd_tRowID (dr_tDoc r)) d). destruct (enc_doc _ d); [done|]. cbn. lia. }
    unfold alive at 1. change (dr_tDoc r1) with d. destruct (default false (DeadMap.IsSet (rd_tRowID d) tDead)); cbn [negb].
    + specialize (IH fuel r1 G S1 ltac:(lia)). destruct (List.filter (alive tDead) ds); [done|]. destruct IH as (r' & ds' & A & B & C & D & E & F & H). exists r', ds'. repeat (split; [done|]). lia.
    + exists r1, ds. repeat (split; [done|]). done.
Qed.

Lemma stands_bytes r ds : stands r ds -> (length ds <= left_bytes r)%nat.
Proof. unfold left_bytes. intros [(rest & -> & _)|(-> & ->)]; [|done]. rewrite length_app. pose proof (docs_bytes ds (rd_tRowID (dr_tDoc r))). lia. Qed.

(** ** The mask of the fields does not depend on what was read before *)

Lemma offset_halves u v : 0 <= u < 2 ^ 31 -> dword v -> cast int32_t (Z.shiftr (cast int64_t (Z.shiftl u 32 + v)) 32) = u /\ cast DWORD (cast int64_t (Z.shiftl u 32 + v)) = v.
Proof.
  intros Hu Hv. pose proof (proj1 (dword_range v) Hv) as Rv. rewrite Z.shiftl_mul_pow2 by lia. rewrite (cast_id int64_t) by (done || (unfold in_type; cbn; lia)). rewrite Z.shiftr_div_pow2 by lia. rewrite Z.add_comm, Z.div_add, Z.div_small by lia. split; [apply cast_id; [done|]; unfold in_type; cbn; lia|].
  change (wrap 32 (v + u * 2 ^ 32) = v). unfold wrap. rewrite Z.mod_add by lia. apply Z.mod_small. lia.
Qed.

Lemma mask_indep dHits d fuel m h h' : good_doc d -> fst (mask_loop fuel m (seek_hits dHits (hitlist_pos d) h)) = fst (mask_loop fuel m (seek_hits dHits (hitlist_pos d) h')).
Proof.
  intros ((W1 & W2 & W3 & W4) & Hlt & Hne). pose proof (proj1 (dword_range _) W3) as R3. destruct (offset_halves (rd_uHits d) (rd_uHit d)) as [E1 E2]; [lia|done|]. unfold seek_hits, hitlist_pos. rewrite E1, E2. destruct (Z.eqb_spec (rd_uHits d) 1) as [E|]; [|done]. specialize (Hne E).
  destruct fuel as [|fuel]; [done|]. cbn [mask_loop next_hit]. destruct (Z.eqb_spec (rd_uHit d) 0); [done|]. destruct (Z.eqb_spec (rd_uHit d) 0xffffffff); [done|]. destruct (Z.eqb_spec (rd_uHit d) EMPTY_HIT); [done|]. by destruct fuel.
Qed.

(** ** The contract *)

Lemma rt_next b q ds d l : Forall good_doc ds -> stands (rq_tDocReader q) ds -> pasc b (alive_docs q ds) -> alive_docs q ds = d :: l ->
  let q' := RtQword.GetNextDoc q in
  rq_tRowID q' = p_row d /\ rq_dQwordFields q' = p_fields d /\ rq_uMatchHits q' = p_hits d /\ rq_iHitlistPos q' = p_hitpos d /\ rq_bAllFieldsKnown q' = false /\ rq_pSeg q' = rq_pSeg q /\ rq_tDead q' = rq_tDead q /\
  (∃ d0, good_doc d0 /\ d = posting_of (rq_pSeg q) d0) /\ (∃ ds', Forall good_doc ds' /\ stands (rq_tDocReader q') ds' /\ l = alive_docs q ds' /\ pasc (p_row d) l) /\ (left_bytes (rq_tDocReader q') < left_bytes (rq_tDocReader q))%nat.
Proof.
  intros G S A E. pose proof (next_alive_ok (rq_tDead q) ds (Datatypes.S (left_bytes (rq_tDocReader q))) (rq_tDocReader q) G S) as N. pose proof (stands_bytes _ _ S) as Lb. specialize (N ltac:(lia)). unfold alive_docs in E, A. destruct (List.filter (alive (rq_tDead q)) ds) as [|d0 l0]; [done|]. cbn [map] in E, A. injection E as <- <-. destruct N as (r' & ds' & N1 & N2 & N3 & N4 & N5 & N6 & N7). destruct A as [_ A].
  unfold RtQword.GetNextDoc. cbv zeta. rewrite N1. cbn [rq_tRowID rq_dQwordFields rq_uMatchHits rq_iHitlistPos rq_bAllFieldsKnown rq_pSeg rq_tDead rq_tDocReader]. rewrite N2. do 7 (split; [done|]). split; [by exists d0|]. split; [|done]. exists ds'. split; [done|]. split; [done|]. unfold alive_docs. rewrite <- N3. split; [done|exact A].
Qed.

#[export] Program Instance RtQword_ok : QwordOk RtQword_t := {
  qrem := rt_rem;
  qinv := rt_inv
}.
Next Obligation. intros b q (ds & G & S & A). by rewrite (stands_rem q ds G S). Qed.
Next Obligation.
  intros b b' q (ds & G & S & A) Hb. exists ds. split; [done|]. split; [done|]. destruct (alive_docs q ds); [done|]. destruct A as [? A]. split; [lia|done].
Qed.
Next Obligation.
  intros b q (ds & G & S & A) Er. rewrite (stands_rem q ds G S) in Er. pose proof (stands_bytes _ _ S) as Lb. pose proof (next_alive_ok (rq_tDead q) ds (Datatypes.S (left_bytes (rq_tDocReader q))) (rq_tDocReader q) G S ltac:(lia)) as N. unfold alive_docs in Er. apply map_eq_nil in Er. rewrite Er in N. destruct N as [r' N]. cbn. unfold RtQword.GetNextDoc. by rewrite N.
Qed.
Next Obligation.
  intros b q p l (ds & G & S & A) Er. rewrite (stands_rem q ds G S) in Er. destruct (rt_next b q ds p l G S A Er) as (H1 & H2 & H3 & H4 & H5 & H6 & H7 & _ & (ds' & D1 & D2 & D3 & D4) & H10). cbn. repeat (split; [done|]). assert (alive_docs (RtQword.GetNextDoc q) ds' = l) as E by (unfold alive_docs; by rewrite H6, H7, D3). split; [by rewrite (stands_rem _ ds' D1 D2)|]. split; [|done]. exists ds'. split; [done|]. split; [done|]. by rewrite E.
Qed.
Next Obligation.
  intros b q p l (ds & G & S & A) Er. rewrite (stands_rem q ds G S) in Er. destruct (rt_next b q ds p l G S A Er) as (H1 & H2 & H3 & H4 & H5 & H6 & H7 & (d0 & G0 & Ep) & (ds' & D1 & D2 & D3 & D4) & H10). cbn [ExtTerm.CollectHitMask ExtTerm.GetNextDoc RtQword_qword]. set (q1 := RtQword.GetNextDoc q) in *. unfold RtQword.CollectHitMask. rewrite H5.
  pose proof (mask_indep (m_dHits (rq_pSeg q1)) d0 (hits_fuel (m_dHits (rq_pSeg q1))) (rq_dQwordFields q1) (hits_state q1) (RtHitReader None 0 0, 0) G0) as M. assert (rq_iHitlistPos q1 = hitlist_pos d0) as Eh by (by rewrite H4, Ep). rewrite Eh. destruct (mask_loop _ _ (seek_hits _ _ (hits_state q1))) as [m h]. cbn [fst] in M. cbn [q_tRowID q_dQwordFields q_uMatchHits q_iHitlistPos qrem qinv qwork RtQword_qword rq_tRowID rq_dQwordFields rq_uMatchHits rq_iHitlistPos].
  split; [done|]. split; [rewrite M, H2, H6, Ep; done|]. split; [done|]. split; [by rewrite Ep|]. set (q2 := RtQword _ _ _ _ _ _ _ _ _ _ _). assert (alive_docs q2 ds' = l) as E by (unfold alive_docs; cbn [q2 rq_pSeg rq_tDead]; by rewrite H6, H7, D3). split; [by rewrite (stands_rem q2 ds' D1 D2)|]. split; [|done]. exists ds'. split; [done|]. split; [done|]. by rewrite E.
Qed.
Next Obligation. intros q. cbn. unfold RtQword.GetNextDoc. by destruct (next_alive _ _ _) as [[] ?]. Qed.
Next Obligation. intros q. cbn. unfold RtQword.CollectHitMask. destruct (rq_bAllFieldsKnown q); [done|]. by destruct (mask_loop _ _ _). Qed.
Next Obligation. done. Qed.
Next Obligation. done. Qed.
Next Obligation. done. Qed.

(** ** The words between the checkpoints *)

Lemma c_str_app l x : 0 ∈ l -> c_str (l ++ x) = c_str l.
Proof. induction l as [|b l IH]; [by intros ?%not_elem_of_nil|]. cbn. destruct (Z.eqb_spec b 0); [done|]. intros [E|H]%elem_of_cons; [congruence|]. by rewrite IH. Qed.

Lemma c_str_word s x : 0 ∉ s -> c_str (s ++ 0 :: x) = s.
Proof. induction s as [|b s IH]; [done|]. intros [Hb H]%not_elem_of_cons. cbn. destruct (Z.eqb_spec b 0); [congruence|]. by rewrite IH. Qed.

(** The words and the bytes from a checkpoint to the next one. *)
Abbreviation chunk := (list RtWord_t * list Z)%type.

Fixpoint marks (off : nat) (L : list chunk) : list (option wordkey * Z) := match L with [] => [] | c :: L' => (rw_key <$> head c.1, Z.of_nat off) :: marks (off + length c.2) L' end.

Lemma marks_snoc L c : ∀ off, marks off (L ++ [c]) = marks off L ++ [(rw_key <$> head c.1, Z.of_nat (off + length (concat (map snd L))))].
Proof. induction L as [|a L IH]; intros off; cbn [app marks map concat]; [cbn; by rewrite Nat.add_0_r|]. rewrite IH. cbn [app]. do 4 f_equal. rewrite length_app. lia. Qed.

Lemma marks_lookup L : ∀ off i c, L !! i = Some c -> marks off L !! i = Some (rw_key <$> head c.1, Z.of_nat (off + length (concat (map snd (take i L))))).
Proof. induction L as [|a L IH]; intros off [|i] c E; try done; cbn in E |- *; [injection E as ->; by rewrite Nat.add_0_r|]. rewrite (IH _ _ _ E). do 3 f_equal. rewrite length_app. lia. Qed.

Lemma marks_length L : ∀ off, length (marks off L) = length L.
Proof. induction L as [|a L IH]; intros off; [done|]. cbn. by rewrite IH. Qed.

(** ** The search of a checkpoint *)

Section Search.
Context (n : nat) (cmp : Z -> option comparison) (c : Z -> comparison).
Context (cmp_ok : ∀ i, 0 <= i < Z.of_nat n -> cmp i = Some (c i)) (mono : ∀ i j, 0 <= i -> i < j -> j < Z.of_nat n -> c j ≠ Lt -> c i = Gt).

Lemma checkpoint_loop_ok fuel : ∀ s e, 0 <= s < e -> e < Z.of_nat n -> c s ≠ Lt -> c e = Lt -> e - s <= Z.of_nat fuel + 1 -> ∃ i, checkpoint_loop fuel cmp s e = Some i /\ s <= i < e /\ c i ≠ Lt /\ c (i + 1) = Lt.
Proof.
  induction fuel as [|fuel IH]; intros s e Hs He Cs Ce Hf; cbn [checkpoint_loop]; destruct (Z.ltb_spec 1 (e - s)) as [L|L]; try lia; try (exists s; replace (s + 1) with e by lia; repeat split; (done || lia)).
  assert (s < s + Z.quot (e - s) 2 < e) as Hm by (Z.to_euclidean_division_equations; lia). assert (Z.quot (e - s) 2 <= Z.of_nat fuel + 1 /\ e - (s + Z.quot (e - s) 2) <= Z.of_nat fuel + 1) as [Hf1 Hf2] by (Z.to_euclidean_division_equations; lia). set (m := s + Z.quot (e - s) 2) in *. rewrite cmp_ok by lia. cbn [mbind option_bind]. destruct (c m) eqn:Em.
  - exists m. split; [done|]. split; [lia|]. split; [congruence|]. destruct (c (m + 1)) eqn:E1; [|done|]; exfalso; assert (c m = Gt) by (apply (mono m (m + 1)); [lia|lia|lia|congruence]); congruence.
  - destruct (IH s m) as (i & A & B & C & D); [lia|lia|done|done|lia|]. exists i. split; [done|]. split; [lia|done].
  - destruct (IH m e) as (i & A & B & C & D); [lia|lia|congruence|done|lia|]. exists i. split; [done|]. split; [lia|done].
Qed.

Lemma search_checkpoint_ok first : (0 < n)%nat -> first 0 = Some (c 0) -> ∃ o, search_checkpoint n first cmp = Some o /\ match o with None => c 0 = Lt | Some i => 0 <= i < Z.of_nat n /\ c i ≠ Lt /\ (i + 1 < Z.of_nat n -> c (i + 1) = Lt) end.
Proof.
  intros Hn Hf. unfold search_checkpoint. rewrite Hf. cbn [mbind option_bind]. assert (c 0 = Lt \/ c 0 ≠ Lt) as [E0|N0] by (destruct (c 0); [by right|by left|by right]); [rewrite E0; by exists None|]. rewrite cmp_ok by lia. cbn [mbind option_bind].
  assert (∃ o, (match c (Z.of_nat n - 1) with Lt => i ← checkpoint_loop n cmp 0 (Z.of_nat n - 1); Some (Some i) | _ => Some (Some (Z.of_nat n - 1)) end) = Some o /\ match o with None => c 0 = Lt | Some i => 0 <= i < Z.of_nat n /\ c i ≠ Lt /\ (i + 1 < Z.of_nat n -> c (i + 1) = Lt) end) as (o & E & H).
  { destruct (c (Z.of_nat n - 1)) eqn:El; [eexists; split; [done|]; split; [lia|]; split; [congruence|lia]| |eexists; split; [done|]; split; [lia|]; split; [congruence|lia]]. destruct (decide (n = 1%nat)) as [->|]; [by change (Z.of_nat 1 - 1) with 0 in El|]. destruct (checkpoint_loop_ok n 0 (Z.of_nat n - 1)) as (i & -> & B & C & D); [lia|lia|done|done|lia|]. eexists. split; [done|]. split; [lia|]. split; [done|]. by intros _. }
  exists o. split; [|done]. by destruct (c 0).
Qed.
End Search.

Section Chunks.
Context (f : DictFormat_e) (cp : Z) (mode : ESphHitless).
Abbreviation reads := (reads f cp mode).

(** A reader that starts anew. *)
Definition fresh (r : RtWordReader_c) : Prop := synced f new_word_writer r.

Definition chunk_reads (c : chunk) : Prop := ∀ r rest, fresh r -> wr_pCur r = c.2 ++ rest -> (wr_iTail r <= length rest)%nat -> ∃ r', reads c.1 r r' /\ wr_pCur r' = rest /\ wr_iTail r' = wr_iTail r.

Definition cp_key (dKw : list Z) (tCp : RtWordCheckpoint_t) : wordkey := match f with CRC => WordID (cp_uWordID tCp) | _ => Word (checkpoint_word dKw tCp) end.

Definition no_zero (k : wordkey) : Prop := match k with WordID _ => True | Word s => 0 ∉ s end.

Record chunked (w : RtWordWriter_c) (ws : list RtWord_t) (I : list chunk) (c : chunk) : Prop := {
  ck_words : ws = concat (map fst I) ++ c.1;
  ck_data : ww_dWords w = concat (map snd I) ++ c.2;
  ck_init : Forall chunk_reads I;
  ck_last : ∀ r rest, fresh r -> wr_pCur r = c.2 ++ rest -> (wr_iTail r <= length rest)%nat -> ∃ r', reads c.1 r r' /\ wr_pCur r' = rest /\ wr_iTail r' = wr_iTail r /\ synced f w r';
  ck_marks : ∃ c0 L, I ++ [c] = c0 :: L /\ Forall (λ a : chunk, a.1 ≠ []) L /\ map (λ tCp, (Some (cp_key (ww_dKeywordCheckpoints w) tCp), cp_iOffset tCp)) (ww_dCheckpoints w) = marks (length c0.2) L;
  ck_zero : f ≠ CRC -> Forall (λ tCp, 0 ∈ drop (Z.to_nat (cp_uWordID tCp)) (ww_dKeywordCheckpoints w)) (ww_dCheckpoints w)
}.

Lemma reads_app ws ws' r r1 r2 : reads ws r r1 -> reads ws' r1 r2 -> reads (ws ++ ws') r r2.
Proof. induction 1 as [|t ws r r0 r1 H _ IH]; [done|]. intros H2. cbn. econstructor; [exact H|]. by apply IH. Qed.

Lemma fresh_ready t w w1 r : fresh r -> ww_iWords w + 1 = cp -> before_word f cp t w = Some w1 -> ready f cp w1 r.
Proof.
  intros (S1 & S2 & S3) Ec E. unfold before_word in E. apply Z.eqb_eq in Ec. rewrite Ec in E. unfold put_checkpoint in E. unfold ready, at_checkpoint. rewrite S1, S2. cbn [new_word_writer ww_iWords ww_uLastDoc ww_sLastKeyword ww_uLastWordID] in *. destruct f, (rw_key t); try done; injection E as <-; cbn [ww_iWords ww_uLastDoc ww_sLastKeyword ww_uLastWordID]; (split; [by case_match|]; split; [by case_match|]); try done. rewrite S3. by case_match.
Qed.

Lemma before_checkpoints t w w1 : before_word f cp t w = Some w1 -> ww_iWords w + 1 ≠ cp -> ww_dCheckpoints w1 = ww_dCheckpoints w /\ ww_dKeywordCheckpoints w1 = ww_dKeywordCheckpoints w.
Proof. intros E N. unfold before_word in E. apply Z.eqb_neq in N. rewrite N in E. by injection E as <-. Qed.

Lemma cp_key_app dKw x tCp : (f ≠ CRC -> 0 ∈ drop (Z.to_nat (cp_uWordID tCp)) dKw) -> cp_key (dKw ++ x) tCp = cp_key dKw tCp.
Proof.
  intros H. unfold cp_key. destruct (decide (f = CRC)) as [E|N]; [by rewrite E|]. specialize (H N). assert (checkpoint_word (dKw ++ x) tCp = checkpoint_word dKw tCp) as ->; [|done]. unfold checkpoint_word. rewrite drop_app. by apply c_str_app.
Qed.

Lemma before_new t w w1 : key_wf f (rw_key t) -> no_zero (rw_key t) -> before_word f cp t w = Some w1 -> ww_iWords w + 1 = cp ->
  ∃ tCp x, ww_dCheckpoints w1 = ww_dCheckpoints w ++ [tCp] /\ ww_dKeywordCheckpoints w1 = ww_dKeywordCheckpoints w ++ x /\ cp_key (ww_dKeywordCheckpoints w1) tCp = rw_key t /\ cp_iOffset tCp = Z.of_nat (length (ww_dWords w)) /\ (f ≠ CRC -> 0 ∈ drop (Z.to_nat (cp_uWordID tCp)) (ww_dKeywordCheckpoints w1)).
Proof.
  intros K Nz E Ec. unfold before_word in E. apply Z.eqb_eq in Ec. rewrite Ec in E. unfold put_checkpoint, key_wf, cp_key in *. destruct f, (rw_key t) as [u|s]; try done; injection E as <-; cbn [ww_dCheckpoints ww_dKeywordCheckpoints].
  - exists (RtWordCheckpoint u (Z.of_nat (length (ww_dWords w)))), []. rewrite app_nil_r. done.
  - eexists _, (s ++ [0]). split; [done|]. split; [done|]. cbn [cp_uWordID cp_iOffset]. unfold checkpoint_word. cbn [cp_uWordID]. rewrite Nat2Z.id, drop_app_length. split; [by rewrite c_str_word|]. split; [done|]. intros _. apply elem_of_app. right. by left.
  - eexists _, (s ++ [0]). split; [done|]. split; [done|]. cbn [cp_uWordID cp_iOffset]. unfold checkpoint_word. cbn [cp_uWordID]. rewrite Nat2Z.id, drop_app_length. split; [by rewrite c_str_word|]. split; [done|]. intros _. apply elem_of_app. right. by left.
Qed.

Lemma chunked_new : chunked new_word_writer [] [] ([], []).
Proof.
  split; [done|done|constructor| | |constructor].
  - intros r rest Hr Ep Ht. exists r. split; [constructor|]. done.
  - exists ([], []), []. split; [done|]. split; [constructor|done].
Qed.

Lemma marks_extend (I : list chunk) (c c' : chunk) c0 L : I ++ [c] = c0 :: L -> Forall (λ a : chunk, a.1 ≠ []) L -> c'.1 ≠ [] -> (c.1 ≠ [] -> head c'.1 = head c.1) -> ∃ c0' L', I ++ [c'] = c0' :: L' /\ Forall (λ a : chunk, a.1 ≠ []) L' /\ marks (length c0'.2) L' = marks (length c0.2) L.
Proof.
  destruct I as [|i0 I]; cbn; intros [= <- <-] N Nc Hc; eexists _, _; (split; [done|]); [done|]. apply Forall_app in N as [N1 N2]. pose proof (proj1 (Forall_singleton _ _) N2) as N3. split; [apply Forall_app; split; [done|by apply Forall_singleton]|]. by rewrite !marks_snoc, Hc.
Qed.

Lemma chunked_snoc ws t w w' I c prev : chunked w ws I c -> word_wf f mode t -> no_zero (rw_key t) -> wlast f w prev -> next_key prev (rw_key t) -> put_word f cp mode t w = Some w' -> ∃ I' c', chunked w' (ws ++ [t]) I' c'.
Proof.
  intros [C1 C2 C3 C4 (c0 & L & EL & NL & EM) C6] Wf Nz Wl Hn Ep. destruct (put_one f cp mode t w prev Wf Wl Hn) as (w1 & w2 & d & E1 & E2 & E3 & Nd & _ & E4 & E5 & Hr). rewrite E2 in Ep. injection Ep as <-. destruct (decide (ww_iWords w + 1 = cp)) as [Ec|Nc].
  - destruct (before_new t w w1 (proj1 Wf) Nz E1 Ec) as (tCp & x & B1 & B2 & B3 & B4 & B5). exists (I ++ [c]), ([t], d). split; cbn [fst snd].
    + by rewrite map_app, concat_app, C1; cbn; rewrite app_nil_r.
    + rewrite E3, C2, map_app, concat_app. cbn. by rewrite app_nil_r.
    + apply Forall_app. split; [done|]. apply Forall_singleton. intros r rest F P T. destruct (C4 r rest F P T) as (r' & R1 & R2 & R3 & _). by exists r'.
    + intros r rest F P T. destruct (Hr r rest (fresh_ready t w w1 r F Ec E1) P T) as (r' & R1 & R2 & R3 & R4). exists r'. split; [econstructor; [exact R1|constructor]|]. done.
    + exists c0, (L ++ [([t], d)]). split; [by rewrite EL|]. split; [apply Forall_app; split; [done|by apply Forall_singleton]|]. rewrite marks_snoc, <- EM, E4, B1, map_app. cbn [map fst head]. rewrite E5, B3, B4. f_equal.
      * rewrite B2. clear -C6. induction (ww_dCheckpoints w) as [|a l IH]; [done|]. cbn. rewrite cp_key_app, IH; [done| |]; intros N; specialize (C6 N); apply Forall_cons in C6 as [? ?]; done.
      * cbn. do 3 f_equal. rewrite C2. apply (f_equal (λ l, length (concat (map snd l)))) in EL. rewrite map_app, concat_app in EL. cbn in EL. rewrite app_nil_r in EL. rewrite EL, length_app. lia.
    + intros N. rewrite E4, E5, B1. apply Forall_app. split; [|apply Forall_singleton; by apply B5]. eapply Forall_impl; [exact (C6 N)|]. intros a Ha. cbn in *. rewrite B2, drop_app. apply elem_of_app. by left.
  - destruct (before_checkpoints t w w1 E1 Nc) as [B1 B2]. exists I, (c.1 ++ [t], c.2 ++ d). split; cbn [fst snd].
    + by rewrite C1, app_assoc.
    + by rewrite E3, C2, app_assoc.
    + done.
    + intros r rest F P T. rewrite <- app_assoc in P. destruct (C4 r (d ++ rest) F P) as (r1 & R1 & R2 & R3 & R4); [rewrite length_app; lia|]. destruct (Hr r1 rest (synced_ready f cp t w w1 r1 R4 E1) R2) as (r2 & Q1 & Q2 & Q3 & Q4); [lia|]. exists r2. split; [eapply reads_app; [exact R1|]; econstructor; [exact Q1|constructor]|]. split; [done|]. split; [lia|done].
    + rewrite E4, E5, B1, B2, EM. destruct (marks_extend I c (c.1 ++ [t], c.2 ++ d) c0 L EL NL) as (c0' & L' & A & B & C); [by destruct (c.1)|cbn; by destruct (c.1)|]. exists c0', L'. done.
    + by rewrite E4, E5, B1, B2.
Qed.

Lemma chunked_all ws : ∀ w, put_words f cp mode ws new_word_writer = Some w -> Forall (word_wf f mode) ws -> Forall (λ t, no_zero (rw_key t)) ws -> sorted_keys (map rw_key ws) -> ∃ I c, chunked w ws I c.
Proof.
  induction ws as [|t ws IH] using rev_ind; intros w Ew Wf Nz Hs.
  - injection Ew as <-. eexists _, _. exact chunked_new.
  - apply Forall_app in Wf as [Wf Wt]. apply Forall_app in Nz as [Nz Nt]. pose proof (proj1 (Forall_singleton _ _) Wt) as Wt'. pose proof (proj1 (Forall_singleton _ _) Nt) as Nt'. rewrite map_app in Hs. rewrite put_words_snoc in Ew. destruct (put_words f cp mode ws new_word_writer) as [w0|] eqn:E0; [|done]. cbn [mbind option_bind] in Ew. pose proof (StronglySorted_app_1_l _ _ _ Hs) as Hs1.
    destruct (IH w0 eq_refl Wf Nz Hs1) as (I & c & Hc). destruct (put_all f cp mode ws new_word_writer None Wf (new_wlast f None) Hs1) as (w0' & d & E0' & _ & _ & Wl & _); [by destruct ws|]. rewrite E0 in E0'. injection E0' as <-. eapply chunked_snoc; [exact Hc|done|done|exact Wl| |done].
    destruct (last ws) as [t0|] eqn:El; [|done]. cbn. apply (StronglySorted_app_1_elem_of _ (map rw_key ws) [rw_key t]); [done| |by apply list_elem_of_singleton]. apply list_elem_of_fmap. exists t0. split; [done|]. by apply last_Some_elem_of.
Qed.

(** ** The words of the chosen range *)

Definition cmpk (a b : wordkey) : comparison := default Eq (cmp_keys a b).

Lemma cmpk_spec a b : key_wf f a -> key_wf f b -> match cmpk a b with Eq => a = b | Lt => key_lt a b | Gt => key_lt b a end.
Proof. intros Ha Hb. unfold cmpk. destruct (cmp_wf f a b Ha Hb) as (x & -> & H). exact H. Qed.

Lemma key_lt_not a b : key_lt a b -> ¬ key_lt b a.
Proof. intros H1 H2. by apply (key_lt_irrefl a), (key_lt_trans a b a). Qed.

(** The words of a chunk list. *)
Definition words_of (L : list chunk) : list RtWord_t := concat (map fst L).
Definition bytes_of (L : list chunk) : list Z := concat (map snd L).

Definition heads_at (L : list chunk) (key : nat -> wordkey) : Prop := ∀ i a, L !! i = Some a -> ∃ t l, a.1 = t :: l /\ rw_key t = key i.

Lemma words_split i L a : L !! i = Some a -> words_of L = words_of (take i L) ++ a.1 ++ words_of (drop (S i) L).
Proof. intros E. rewrite <- (take_drop_middle L i a E) at 1. unfold words_of. by rewrite map_app, concat_app. Qed.

Lemma bytes_split i L a : L !! i = Some a -> bytes_of L = bytes_of (take i L) ++ a.2 ++ bytes_of (drop (S i) L).
Proof. intros E. rewrite <- (take_drop_middle L i a E) at 1. unfold bytes_of. by rewrite map_app, concat_app. Qed.

Lemma sorted_before (A B : list RtWord_t) x y : sorted_keys (map rw_key (A ++ B)) -> x ∈ A -> y ∈ B -> key_lt (rw_key x) (rw_key y).
Proof. intros H Hx Hy. rewrite map_app in H. apply (StronglySorted_app_1_elem_of _ _ _ _ _ H); apply list_elem_of_fmap; eauto. Qed.

Lemma heads_sorted c0 L key i j : sorted_keys (map rw_key (words_of (c0 :: L))) -> heads_at L key -> (i < j)%nat -> (j < length L)%nat -> key_lt (key i) (key j).
Proof.
  intros Hs Hh Hij Hj. destruct (lookup_lt_is_Some_2 L i) as [a Ea]; [lia|]. destruct (lookup_lt_is_Some_2 L j) as [b Eb]; [lia|]. destruct (Hh i a Ea) as (t & l & E1 & <-). destruct (Hh j b Eb) as (t' & l' & E2 & <-).
  assert (words_of (c0 :: L) = (c0.1 ++ words_of (take j L)) ++ b.1 ++ words_of (drop (S j) L)) as Ew by (unfold words_of at 1; cbn; fold (words_of L); rewrite (words_split j L b Eb); by rewrite app_assoc). rewrite Ew in Hs. apply (sorted_before _ _ t t' Hs).
  - apply elem_of_app. right. rewrite (words_split i (take j L) a) by (by rewrite lookup_take_lt). rewrite E1. apply elem_of_app. right. by left.
  - rewrite E2. by left.
Qed.

(** Words before the chunk are less, words behind it greater. *)
Lemma chunk_range c0 L key k o : sorted_keys (map rw_key (words_of (c0 :: L))) -> heads_at L key -> (∀ i, (i < length L)%nat -> key_wf f (key i)) -> key_wf f k ->
  match o with None => match L with [] => True | _ => cmpk k (key 0%nat) = Lt end | Some i => (i < length L)%nat /\ cmpk k (key i) ≠ Lt /\ ((S i < length L)%nat -> cmpk k (key (S i)) = Lt) end ->
  ∃ A a B, c0 :: L = A ++ a :: B /\ length A = match o with None => 0%nat | Some i => S i end /\ (∀ t, t ∈ words_of A -> key_lt (rw_key t) k) /\ (∀ t, t ∈ words_of B -> key_lt k (rw_key t)).
Proof.
  intros Hs Hh Hw Hk Ho.
  assert (∀ A B, c0 :: L = A ++ B -> A ≠ [] -> (∀ i, length A = S i -> (i < length L)%nat -> cmpk k (key i) = Lt) -> ∀ t, t ∈ words_of B -> key_lt k (rw_key t)) as Behind.
  { intros A B E N Hi t Ht. destruct A as [|a0 A]; [done|]. cbn in E. injection E as <- ->. destruct B as [|b B]; [by apply not_elem_of_nil in Ht|]. assert ((A ++ b :: B) !! length A = Some b) as Eb by (rewrite lookup_app_r by lia; by rewrite Nat.sub_diag). destruct (Hh _ _ Eb) as (t0 & l & E0 & Ek). specialize (Hi (length A) eq_refl ltac:(rewrite length_app; cbn; lia)).
    pose proof (cmpk_spec k (key (length A)) Hk (Hw (length A) ltac:(rewrite length_app; cbn; lia))) as Hc. rewrite Hi, <- Ek in Hc. unfold words_of in Ht. cbn in Ht. rewrite E0 in Ht. cbn in Ht. apply elem_of_cons in Ht as [->|Ht]; [done|]. apply (key_lt_trans _ _ _ Hc). assert (words_of (c0 :: A ++ b :: B) = (c0.1 ++ concat (map fst A) ++ [t0]) ++ l ++ concat (map fst B)) as Ew by (unfold words_of; cbn; rewrite map_app, concat_app; cbn; rewrite E0; by rewrite <- !app_assoc). rewrite Ew in Hs. apply (sorted_before _ _ t0 t Hs); [|done]. rewrite !elem_of_app. right. right. by left. }
  destruct o as [i|].
  - destruct Ho as (Hi & Ci & Cn). destruct (lookup_lt_is_Some_2 L i Hi) as [a Ea]. exists (c0 :: take i L), a, (drop (S i) L). split; [cbn; by rewrite take_drop_middle|]. split; [cbn; rewrite length_take; lia|]. split.
    + intros t Ht. destruct (Hh i a Ea) as (t0 & l & E0 & Ek). assert (key_lt (rw_key t) (key i)) as Hlt. { rewrite <- Ek. apply (sorted_before (words_of (c0 :: take i L)) (a.1 ++ words_of (drop (S i) L)) t t0); [|done|rewrite E0; by left]. assert (words_of (c0 :: take i L) ++ a.1 ++ words_of (drop (S i) L) = words_of (c0 :: L)) as ->; [|done]. unfold words_of at 1 3. cbn. fold (words_of L). rewrite (words_split i L a Ea). by rewrite <- app_assoc. }
      pose proof (cmpk_spec k (key i) Hk (Hw i Hi)) as Hc. destruct (cmpk k (key i)); [by rewrite Hc|done|by eapply key_lt_trans].
    + apply (Behind (c0 :: take (S i) L)); [cbn; by rewrite take_drop|done|]. intros j E Hj. cbn [length] in E. rewrite length_take in E. assert (j = S i) as -> by lia. apply Cn. lia.
  - exists [], c0, L. split; [done|]. split; [done|]. split; [by intros t ?%not_elem_of_nil|]. apply (Behind [c0]); [done|done|]. cbn. intros j [= <-] Hj. destruct L; [cbn in Hj; lia|done].
Qed.

(** ** Finding a word *)

Lemma find_word_loop_ok k rend : key_wf f k -> (length (wr_pCur rend) <= wr_iTail rend)%nat -> ∀ ws fuel r, reads ws r rend -> Forall (word_wf f mode) ws -> sorted_keys (map rw_key ws) -> (length ws < fuel)%nat ->
  ∃ o, find_loop f cp mode fuel k r = Some o /\ match o with Some t => t ∈ ws /\ rw_key t = k | None => k ∉ map rw_key ws end.
Proof.
  intros Hk Hend. induction ws as [|t ws IH]; intros [|fuel] r Hr Wf Hs Hf; cbn in Hf; try lia; inversion Hr as [|? ? ? r1 ? Hu Hr1]; subst; cbn [find_loop].
  - unfold UnzipWord. apply Nat.leb_le in Hend. rewrite Hend. cbn [mbind option_bind]. exists None. split; [done|]. cbn. apply not_elem_of_nil.
  - apply Forall_cons in Wf as [Wt Wf]. cbn [map] in *. apply StronglySorted_inv in Hs as [Hs Hlt]. rewrite Hu. cbn [mbind option_bind]. destruct (cmp_wf f (rw_key t) k (proj1 Wt) Hk) as (x & -> & Hx). cbn [mbind option_bind]. destruct x.
    + exists (Some t). split; [done|]. split; [by left|done].
    + destruct (IH fuel r1 Hr1 Wf Hs ltac:(lia)) as (o & -> & Ho). exists o. split; [done|]. destruct o as [t'|]; [destruct Ho; split; [by right|done]|]. apply not_elem_of_cons. split; [|done]. intros ->. by apply key_lt_irrefl in Hx.
    + exists None. split; [done|]. apply not_elem_of_cons. split; [intros ->; by apply key_lt_irrefl in Hx|]. intros Hin. rewrite Forall_forall in Hlt. specialize (Hlt k Hin). by apply (key_lt_not _ _ Hx).
Qed.

Lemma fresh_reader dCur iTail : fresh (RtWordReader dCur iTail (new_buf f) (RtWord (WordID 0) 0 0 0 true) 0 0).
Proof. split; [done|]. split; [done|]. cbn [wr_dBuf]. destruct f eqn:E; [done|..]; by split. Qed.

Definition search_key (uWordID : Z) (sWord : list Z) : wordkey := if IsWordDict f then Word sWord else WordID uWordID.

(** The keys of the checkpoints. *)
Lemma checkpoint_key dKw dCp L off : map (λ tCp, (Some (cp_key dKw tCp), cp_iOffset tCp)) dCp = marks off L -> Forall (λ a : chunk, a.1 ≠ []) L ->
  length dCp = length L /\ heads_at L (λ i, from_option (cp_key dKw) (WordID 0) (dCp !! i)) /\ ∀ i tCp, dCp !! i = Some tCp -> cp_iOffset tCp = Z.of_nat (off + length (bytes_of (take i L))).
Proof.
  intros E N. assert (length dCp = length L) as El by (apply (f_equal length) in E; by rewrite length_map, marks_length in E). split; [done|]. assert (∀ i a tCp, L !! i = Some a -> dCp !! i = Some tCp -> Some (cp_key dKw tCp) = rw_key <$> head a.1 /\ cp_iOffset tCp = Z.of_nat (off + length (bytes_of (take i L)))) as H.
  { intros i a tCp Ea Et. pose proof (marks_lookup L off i a Ea) as M. rewrite <- E in M. rewrite list_lookup_fmap, Et in M. cbn in M. by injection M as M1 M2. }
  split.
  - intros i a Ea. destruct (lookup_lt_is_Some_2 dCp i) as [tCp Et]; [rewrite El; by eapply lookup_lt_Some|]. destruct (H i a tCp Ea Et) as [Hk _]. rewrite Et. cbn. rewrite Forall_forall in N. specialize (N a (list_elem_of_lookup_2 _ _ _ Ea)). destruct (a.1) as [|t l]; [done|]. exists t, l. cbn in Hk. by injection Hk as ->.
  - intros i tCp Et. destruct (lookup_lt_is_Some_2 L i) as [a Ea]; [rewrite <- El; by eapply lookup_lt_Some|]. by apply (H i a tCp Ea Et).
Qed.

Lemma search_ok dKw dCp (key := λ i : nat, from_option (cp_key dKw) (WordID 0) (dCp !! i)) u s : dCp ≠ [] -> key_wf f (search_key u s) -> (∀ i, (i < length dCp)%nat -> key_wf f (key i)) -> (∀ i j, (i < j)%nat -> (j < length dCp)%nat -> key_lt (key i) (key j)) ->
  ∃ o, (if IsWordDict f then RtSearchCheckpointWrd s false dKw dCp else sphSearchCheckpointCrc u dCp) = Some o /\
    match o with None => cmpk (search_key u s) (key 0%nat) = Lt | Some i => (Z.to_nat i < length dCp)%nat /\ 0 <= i /\ cmpk (search_key u s) (key (Z.to_nat i)) ≠ Lt /\ ((S (Z.to_nat i) < length dCp)%nat -> cmpk (search_key u s) (key (S (Z.to_nat i))) = Lt) end.
Proof.
  intros N Hk Hw Hs. set (k := search_key u s) in *. set (c := λ i : Z, cmpk k (key (Z.to_nat i))). assert (0 < length dCp)%nat as Hn by (destruct dCp; [done|cbn; lia]).
  assert (∀ i j, 0 <= i -> i < j -> j < Z.of_nat (length dCp) -> c j ≠ Lt -> c i = Gt) as Mono.
  { intros i j H0 Hij Hj Hc. pose proof (Hs (Z.to_nat i) (Z.to_nat j) ltac:(lia) ltac:(lia)) as Hlt. unfold c in *. pose proof (cmpk_spec k (key (Z.to_nat j)) Hk (Hw (Z.to_nat j) ltac:(lia))) as S1. pose proof (cmpk_spec k (key (Z.to_nat i)) Hk (Hw (Z.to_nat i) ltac:(lia))) as S2. assert (key_lt (key (Z.to_nat i)) k) as Hik by (destruct (cmpk k (key (Z.to_nat j))); [by rewrite S1|done|by eapply key_lt_trans]). destruct (cmpk k (key (Z.to_nat i))); [rewrite S2 in Hik; by apply key_lt_irrefl in Hik|by apply key_lt_not in Hik|done]. }
  assert (∀ (cmp : Z -> option comparison), (∀ i, 0 <= i < Z.of_nat (length dCp) -> cmp i = Some (c i)) -> ∃ o, search_checkpoint (length dCp) cmp cmp = Some o /\ match o with None => c 0 = Lt | Some i => 0 <= i < Z.of_nat (length dCp) /\ c i ≠ Lt /\ (i + 1 < Z.of_nat (length dCp) -> c (i + 1) = Lt) end) as K by (intros cmp Hc; apply (search_checkpoint_ok _ _ _ Hc Mono); [done|apply Hc; lia]).
  assert (∃ o, (if IsWordDict f then RtSearchCheckpointWrd s false dKw dCp else sphSearchCheckpointCrc u dCp) = Some o /\ match o with None => c 0 = Lt | Some i => 0 <= i < Z.of_nat (length dCp) /\ c i ≠ Lt /\ (i + 1 < Z.of_nat (length dCp) -> c (i + 1) = Lt) end) as (o & E & H).
  { unfold c, k, search_key, key, cp_key in *. unfold IsWordDict in *. destruct (decide (f = CRC)) as [Ef|Nf].
    - rewrite bool_decide_eq_true_2 in * by done. cbn [negb] in *. apply K. intros i Hi. destruct (lookup_lt_is_Some_2 dCp (Z.to_nat i)) as [tCp ->]; [lia|]. cbn. by rewrite Ef.
    - rewrite bool_decide_eq_false_2 in * by done. cbn [negb] in *. apply K. intros i Hi. destruct (lookup_lt_is_Some_2 dCp (Z.to_nat i)) as [tCp ->]; [lia|]. cbn. by destruct f. }
  exists o. split; [done|]. destruct o as [i|]; [|done]. destruct H as (H1 & H2 & H3). split; [lia|]. split; [lia|]. split; [done|]. intros H4. unfold c in H3. replace (S (Z.to_nat i)) with (Z.to_nat (i + 1)) by lia. apply H3. lia.
Qed.

Lemma ranged_ok seg w ws I a0 u s : chunked w ws I a0 -> m_dWords seg = ww_dWords w -> m_dWordCheckpoints seg = ww_dCheckpoints w -> m_dKeywordCheckpoints seg = ww_dKeywordCheckpoints w -> Forall (word_wf f mode) ws -> sorted_keys (map rw_key ws) -> key_wf f (search_key u s) ->
  ∃ A a B r, ws = words_of A ++ a.1 ++ words_of B /\ ranged_reader f seg u s = Some r /\ chunk_reads a /\ fresh r /\ wr_pCur r = a.2 ++ bytes_of B /\ wr_iTail r = length (bytes_of B) /\
    (∀ t, t ∈ words_of A -> key_lt (rw_key t) (search_key u s)) /\ (∀ t, t ∈ words_of B -> key_lt (search_key u s) (rw_key t)).
Proof.
  intros [C1 C2 C3 C4 (c0 & L & EL & NL & EM) C6] E1 E2 E3 Wf Hs Hk. set (k := search_key u s) in *.
  assert (Forall chunk_reads (c0 :: L)) as Hr. { rewrite <- EL. apply Forall_app. split; [done|]. apply Forall_singleton. intros r rest F P T. destruct (C4 r rest F P T) as (r' & R1 & R2 & R3 & _). by exists r'. }
  assert (ws = words_of (c0 :: L)) as Ew by (rewrite C1, <- EL; unfold words_of; rewrite map_app, concat_app; cbn; by rewrite app_nil_r). assert (ww_dWords w = bytes_of (c0 :: L)) as Ed by (rewrite C2, <- EL; unfold bytes_of; rewrite map_app, concat_app; cbn; by rewrite app_nil_r). rewrite Ew in Hs.
  destruct (checkpoint_key _ _ _ _ EM NL) as (Hl & Hh & Ho). set (key := λ i, from_option (cp_key (ww_dKeywordCheckpoints w)) (WordID 0) (ww_dCheckpoints w !! i)) in *.
  assert (∀ i, (i < length L)%nat -> key_wf f (key i)) as Hw. { intros i Hi. destruct (lookup_lt_is_Some_2 L i Hi) as [a Ea]. destruct (Hh i a Ea) as (t & l & Et & <-). rewrite Forall_forall in Wf. apply (Wf t). rewrite Ew. unfold words_of. cbn. apply elem_of_app. right. fold (words_of L). rewrite (words_split i L a Ea), Et. apply elem_of_app. right. by left. }
  assert (∀ o, match o with None => match L with [] => True | _ => cmpk k (key 0%nat) = Lt end | Some i => (i < length L)%nat /\ cmpk k (key i) ≠ Lt /\ ((S i < length L)%nat -> cmpk k (key (S i)) = Lt) end ->
    ranged_reader f seg u s = Some (RtWordReader (drop (match o with None => 0 | Some i => length c0.2 + length (bytes_of (take i L)) end) (bytes_of (c0 :: L))) (length (bytes_of (c0 :: L)) - match o with None => length c0.2 | Some i => length c0.2 + length (bytes_of (take (S i) L)) end) (new_buf f) (RtWord (WordID 0) 0 0 0 true) 0 0) ->
    ∃ A a B r, ws = words_of A ++ a.1 ++ words_of B /\ ranged_reader f seg u s = Some r /\ chunk_reads a /\ fresh r /\ wr_pCur r = a.2 ++ bytes_of B /\ wr_iTail r = length (bytes_of B) /\ (∀ t, t ∈ words_of A -> key_lt (rw_key t) k) /\ (∀ t, t ∈ words_of B -> key_lt k (rw_key t))) as Fin.
  { intros o Hoo Er. destruct (chunk_range c0 L key k o Hs Hh Hw Hk Hoo) as (A & a & B & EA & LA & HA & HB). exists A, a, B. eexists. split; [rewrite Ew, EA; unfold words_of; by rewrite map_app, concat_app|]. split; [exact Er|]. split; [rewrite EA in Hr; by apply Forall_app in Hr as [_ [? _]%Forall_cons]|]. split; [apply fresh_reader|]. cbn [wr_pCur wr_iTail]. assert (bytes_of (c0 :: L) = bytes_of A ++ a.2 ++ bytes_of B) as Eb by (rewrite EA; unfold bytes_of; by rewrite map_app, concat_app).
    assert (match o with None => 0%nat | Some i => (length c0.2 + length (bytes_of (take i L)))%nat end = length (bytes_of A) /\ match o with None => length c0.2 | Some i => (length c0.2 + length (bytes_of (take (S i) L)))%nat end = length (bytes_of A ++ a.2)) as [-> ->].
    { destruct o as [i|]; [|apply nil_length_inv in LA as ->; cbn in EA; injection EA as <- _; done]. destruct A as [|a' A]; [done|]. cbn in EA. injection EA as <- ->. injection LA as LA. subst i. replace (S (length A)) with (length A + 1)%nat by lia. rewrite take_app_length, take_app_add. unfold bytes_of. rewrite map_app, concat_app. cbn. rewrite app_nil_r, !length_app. lia. }
    rewrite Eb. split; [by rewrite drop_app_length|]. split; [rewrite !length_app; lia|done]. }
  unfold ranged_reader in *. rewrite E1, E2, E3, Ed in *. destruct (ww_dCheckpoints w) as [|tFirst dCp] eqn:Ec.
  - destruct L; [|done]. apply (Fin None); [done|]. unfold bytes_of. cbn. rewrite app_nil_r, Nat.sub_diag. done.
  - assert (tFirst :: dCp ≠ []) as Nc by done. destruct (search_ok (ww_dKeywordCheckpoints w) (tFirst :: dCp) u s Nc Hk) as (o & Eo & Hoo); [rewrite Hl; exact Hw|intros i j Hij Hj; rewrite Hl in Hj; by apply (heads_sorted c0 L key i j)|]. rewrite Eo in *. cbn [mbind option_bind] in *. destruct o as [i|].
    + destruct Hoo as (H1 & H0 & H2 & H3). change (cmpk k (key (Z.to_nat i)) ≠ Lt) in H2. change ((S (Z.to_nat i) < length (tFirst :: dCp))%nat -> cmpk k (key (S (Z.to_nat i))) = Lt) in H3. destruct (lookup_lt_is_Some_2 (tFirst :: dCp) (Z.to_nat i) H1) as [tCp Et]. rewrite Et in *. cbn [mbind option_bind] in *. apply (Fin (Some (Z.to_nat i))); [split; [lia|]; split; [exact H2|]; intros Hj; apply H3; lia|]. rewrite (Ho _ _ Et), Nat2Z.id. do 3 f_equal. replace (Z.to_nat (i + 1)) with (S (Z.to_nat i)) by lia. destruct ((tFirst :: dCp) !! S (Z.to_nat i)) as [tNext|] eqn:En; [by rewrite (Ho _ _ En), Nat2Z.id|]. apply lookup_ge_None in En. rewrite Nat2Z.id, take_ge by lia. unfold bytes_of. cbn. by rewrite length_app.
    + apply (Fin None); [by destruct L|]. rewrite (Ho 0%nat tFirst eq_refl), Nat2Z.id. cbn [take bytes_of map concat length]. by rewrite Nat.add_0_r.
Qed.

Lemma find_word_ok iMinPrefix iMinInfix seg gs u s sWord : represents f cp mode seg gs -> Forall (λ g, no_zero (g_key g)) gs -> lookup_word f iMinPrefix iMinInfix s = Some sWord -> key_wf f (search_key u sWord) ->
  ∃ o, find_word f cp mode iMinPrefix iMinInfix seg u s = Some o /\ match o with Some t => ∃ g, g ∈ gs /\ g_key g = search_key u sWord /\ word_at (m_dDocs seg) (m_dHits seg) t g | None => search_key u sWord ∉ map g_key gs end.
Proof.
  intros [(ws & w & Ew & E1 & E2 & E3 & Wf & F) Hs] Nz El Hk. pose proof (words_sorted seg gs ws F) as Ek. rewrite <- Ek in Hs. assert (Forall (λ t, no_zero (rw_key t)) ws) as Nz'. { rewrite <- (Forall_map rw_key no_zero), Ek, Forall_map. exact Nz. }
  destruct (chunked_all ws w Ew Wf Nz' Hs) as (I & a0 & Hc). destruct (ranged_ok seg w ws I a0 u sWord Hc E1 E2 E3 Wf Hs Hk) as (A & a & B & r & Es & Er & Ha & Hf & Hp & Ht & HA & HB). set (k := search_key u sWord) in *. unfold find_word. rewrite El, Er. cbn [mbind option_bind]. change (if IsWordDict f then Word sWord else WordID u) with k.
  destruct (Ha r (bytes_of B) Hf Hp) as (rend & R1 & R2 & R3); [lia|]. destruct (put_all f cp mode ws new_word_writer None Wf (new_wlast f None) Hs) as (w' & d & Ew' & Ed & Hl & _); [by destruct ws|]. rewrite Ew in Ew'. injection Ew' as <-. cbn in Ed. assert (Forall (word_wf f mode) a.1) as Wa by (rewrite Es in Wf; by apply Forall_app in Wf as [_ [? _]%Forall_app]).
  assert (sorted_keys (map rw_key a.1)) as Sa. { rewrite Es, !map_app in Hs. by apply StronglySorted_app_1_r, StronglySorted_app_1_l in Hs. } destruct (find_word_loop_ok k rend Hk ltac:(rewrite R2, R3; lia) (a.1) (S (length (m_dWords seg))) r R1 Wa Sa) as (o & -> & Ho). { rewrite E1, Ed. rewrite Es, !length_app in Hl. lia. }
  exists o. split; [done|]. destruct o as [t|].
  - destruct Ho as [Ht1 Ht2]. assert (t ∈ ws) as Hin by (rewrite Es, !elem_of_app; tauto). apply list_elem_of_lookup in Hin as [j Ej]. destruct (Forall2_lookup_l _ _ _ _ _ F Ej) as (g & Eg & Hg). exists g. split; [by eapply list_elem_of_lookup_2|]. split; [|done]. by rewrite <- (wa_key _ _ _ _ Hg).
  - rewrite <- Ek, Es, !map_app, !elem_of_app. intros [H|[H|H]]; [|done|]; apply list_elem_of_fmap in H as (t & Et & H); [specialize (HA t H); rewrite <- Et in HA; by apply key_lt_irrefl in HA|specialize (HB t H); rewrite <- Et in HB; by apply key_lt_irrefl in HB].
Qed.

(** ** The reader of a keyword *)

Definition rows_alive (tDead : DeadMap.DeadRowMap_c) (ds : list gdoc) : list gdoc := List.filter (λ g, negb (default false (DeadMap.IsSet (g_row g) tDead))) ds.

(** The rows ascend, the hits are not 0. *)
Definition docs_ok (ds : list gdoc) : Prop := StronglySorted Z.lt (map g_row ds) /\ Forall (λ g, 0 <= g_row g < INVALID_ROWID) ds /\ hits_ok ds /\ Z.of_nat (all_hits ds) < 2 ^ 31.

Lemma doc_good dHits d g : doc_at dHits d g -> Forall hit_ok (g_hits g) -> Z.of_nat (length (g_hits g)) < 2 ^ 31 -> good_doc d.
Proof.
  intros [W R F C D N H] Ho Hn. split; [done|]. split; [lia|]. intros E1. rewrite C in E1. destruct (g_hits g) as [|h [|]]; try (cbn in E1; lia). cbn in H. rewrite H. apply Forall_cons in Ho as [[_ ?] _]. done.
Qed.

Lemma docs_good dHits ds gs : Forall2 (doc_at dHits) ds gs -> hits_ok gs -> Z.of_nat (all_hits gs) < 2 ^ 31 -> Forall good_doc ds.
Proof.
  induction 1 as [|d g ds gs Hd F IH]; intros Ho Hn; [constructor|]. apply Forall_cons in Ho as [Hg Ho]. assert (all_hits (g :: gs) = (length (g_hits g) + all_hits gs)%nat) as Ea by done. constructor; [apply (doc_good dHits d g Hd Hg); lia|]. apply IH; [done|lia].
Qed.

(** The fields of a document after [CollectHitMask]. *)
Definition doc_mask (g : gdoc) : FieldMask_t := fold_left Set_ (map GetField (g_hits g)) (Assign32 (g_fields g)).

(** The postings of the documents. A single hit of the greatest value is taken for
    the end of the hits. *)
Definition gposting (p : posting) (g : gdoc) : Prop :=
  p_row p = g_row g /\ p_fields p = Assign32 (g_fields g) /\ p_hits p = Z.of_nat (length (g_hits g)) /\ (g_hits g ≠ [0xffffffff] -> p_mask p = doc_mask g).

Lemma mask_enc hs : ∀ fuel last rest m, Forall hit_ok hs -> (length hs < fuel)%nat ->
  fst (mask_loop fuel m (RtHitReader (Some (enc_hits last hs ++ rest)) (Z.of_nat (length hs)) last, 0)) = fold_left Set_ (map GetField hs) m.
Proof.
  induction hs as [|h hs IH]; intros [|fuel] last rest m H Hf; cbn [length] in Hf; try lia; cbn [mask_loop next_hit].
  - unfold UnzipHit. by destruct (hr_pCur _).
  - apply Forall_cons in H as [[Hh Nh] H]. unfold UnzipHit. cbn [hr_pCur hr_uLeft hr_uValue enc_hits length map fold_left]. destruct (Z.eqb_spec (Z.of_nat (S (length hs))) 0); [lia|].
    rewrite <- app_assoc, unzip_dword. cbn [mbind option_bind]. change (0 =? 0) with true. cbv iota beta. rewrite delta_back by done. destruct (Z.eqb_spec h EMPTY_HIT); [done|].
    replace (Z.of_nat (S (length hs)) - 1) with (Z.of_nat (length hs)) by lia. apply IH; [done|lia].
Qed.

Lemma full_mask_ok dHits d g : doc_at dHits d g -> Forall hit_ok (g_hits g) -> Z.of_nat (length (g_hits g)) < 2 ^ 31 -> g_hits g ≠ [0xffffffff] -> full_mask dHits d = doc_mask g.
Proof.
  intros [W R F C D N H] Ho Hn Ne. destruct W as (_ & _ & _ & Wu). destruct (offset_halves (rd_uHits d) (rd_uHit d)) as [E1 E2]; [lia|done|]. unfold full_mask, seek_hits, hitlist_pos, doc_mask. rewrite E1, E2, F, C. destruct (Z.eqb_spec (Z.of_nat (length (g_hits g))) 1) as [E|NE].
  - destruct (g_hits g) as [|h [|]]; try (cbn in E; lia). cbn in H. rewrite H. apply Forall_singleton in Ho as [_ Hh]. unfold hits_fuel. cbn [Nat.add mask_loop next_hit fst snd map fold_left]. rewrite (proj2 (Z.eqb_neq h 0)) by done. rewrite (proj2 (Z.eqb_neq h 0xffffffff)) by congruence. rewrite (proj2 (Z.eqb_neq h EMPTY_HIT)) by done. done.
  - assert (∃ pre post, dHits = pre ++ enc_hits 0 (g_hits g) ++ post /\ rd_uHit d = Z.of_nat (length pre)) as (pre & post & Ed & Ep) by (destruct (g_hits g) as [|h [|]]; done). rewrite Ed, Ep, point_app by (destruct (g_hits g) as [|h hs]; [done|]; cbn [enc_hits]; intros [Ez _]%app_eq_nil; by apply zip_nonempty in Ez). rewrite cast_dword by (apply dword_range; lia).
    apply mask_enc; [done|]. unfold hits_fuel. rewrite !length_app. pose proof (enc_hits_bytes (g_hits g) 0). lia.
Qed.

Lemma postings_of q ds gs : Forall2 (doc_at (m_dHits (rq_pSeg q))) ds gs -> hits_ok gs -> Z.of_nat (all_hits gs) < 2 ^ 31 -> Forall2 gposting (alive_docs q ds) (rows_alive (rq_tDead q) gs).
Proof.
  unfold alive_docs, rows_alive. induction 1 as [|d g ds gs Hd F IH]; [constructor|]. intros [Hg Ho]%Forall_cons Ha. assert (all_hits (g :: gs) = (length (g_hits g) + all_hits gs)%nat) as Ea by done. cbn [List.filter]. unfold alive at 1. pose proof Hd as [W R Fl C _ _ _]. rewrite R. specialize (IH Ho ltac:(lia)). destruct (negb _); [|done]. cbn [map]. constructor; [|done]. split; [done|]. split; [cbn; by rewrite Fl|]. split; [done|]. intros Ne. apply full_mask_ok; [done|done|lia|done].
Qed.

Lemma gpostings_asc b ps gs : Forall2 gposting ps gs -> StronglySorted Z.lt (map g_row gs) -> Forall (λ g, b < g_row g < INVALID_ROWID) gs -> pasc b ps.
Proof.
  intros F. revert b. induction F as [|p g ps gs (E & _) F IH]; intros b Hs Hb; [done|]. cbn [map] in Hs. apply StronglySorted_inv in Hs as [Hs Hlt]. apply Forall_cons in Hb as [Hg Hb]. cbn [pasc]. rewrite E. split; [done|]. apply IH; [done|]. rewrite Forall_map in Hlt. rewrite Forall_forall in *. intros x Hx. specialize (Hlt x Hx). specialize (Hb x Hx). cbn in *. lia.
Qed.

Lemma rows_alive_sorted tDead gs : StronglySorted Z.lt (map g_row gs) -> StronglySorted Z.lt (map g_row (rows_alive tDead gs)).
Proof.
  unfold rows_alive. induction gs as [|g gs IH]; [done|]. cbn [map List.filter]. intros [Hs Hlt]%StronglySorted_inv. destruct (negb _); [|by apply IH]. cbn [map]. constructor; [by apply IH|]. rewrite Forall_map in *. rewrite Forall_forall in *. intros x Hx. apply Hlt. apply list_elem_of_In, filter_In in Hx as [Hx _]. by apply list_elem_of_In.
Qed.

Lemma rt_setup_ok seg tDead t g q : word_at (m_dDocs seg) (m_dHits seg) t g -> docs_ok (g_docs g) -> rq_iDocs q = 0 ->
  let q' := SetupReader seg tDead t q in qinv (-1) q' /\ Forall2 gposting (qrem q') (rows_alive tDead (g_docs g)) /\ q_iDocs q' ≠ 0.
Proof.
  intros [Hk Hh _ N (ds & pre & post & Ed & Ep & En & Hn & F)] (Hs & Hr & Ho & Ha) H0. cbv zeta. pose proof (docs_good _ _ _ F Ho Ha) as G. set (q' := SetupReader seg tDead t q).
  assert (stands (rq_tDocReader q') ds) as S. { left. exists post. cbn [q' SetupReader rq_tDocReader new_doc_reader dr_pDocs dr_iLeft dr_tDoc rd_tRowID]. rewrite Ep, Ed, point_app by (destruct ds as [|d ds]; [by apply Forall2_nil_inv_l in F|]; cbn; intros [E _]%app_eq_nil; by apply enc_doc_nonempty in E). split; [done|]. rewrite En. apply cast_id; [done|]. unfold in_type. cbn. lia. }
  pose proof (postings_of q' ds (g_docs g) F Ho Ha) as Fp. change (rq_tDead q') with tDead in Fp. split; [|split].
  - exists ds. split; [done|]. split; [done|]. eapply gpostings_asc; [exact Fp|by apply rows_alive_sorted|]. rewrite Forall_forall in *. intros x Hx. apply list_elem_of_In, filter_In in Hx as [Hx _]. apply list_elem_of_In in Hx. specialize (Hr x Hx). cbn in Hr. lia.
  - cbn [qrem RtQword_ok]. by rewrite (stands_rem q' ds G S).
  - cbn [q_iDocs RtQword_qword q' SetupReader rq_iDocs]. rewrite H0, En, Z.add_0_l. rewrite cast_id by (done || (unfold in_type; cbn; lia)). destruct ds; [by apply Forall2_nil_inv_l in F|]. cbn. lia.
Qed.
End Chunks.
End RtQwordOk.
