(* ===== verification/RtSearch.v ===== *)
(** * The query tree over a RAM segment

    The keywords of a query are looked up in a segment and read through
    [RtQword_t], and the terms over them collect the fields from 32 up from the hits
    if the table has so many; what the tree over them finds is stated on the words
    of the segment. *)

From stdpp Require Import sorting.
From S2P Require Import Prelude Zip Hits BinSearch SearchNode SearchNodeOk ExtTerm Query DeadMap RtSegment RtSegmentOk RtDelete RtQword RtQwordOk.
Import Zip Hitman FieldMask SearchNode SearchNodeOk ExtTerm Query RtSegment RtSegmentOk RtCreateOk RtMergeOk RtDelete RtQword RtQwordOk.

Module RtSearch.

Section Lookup.
Context (f : DictFormat_e) (cp : Z) (mode : ESphHitless) (iMinPrefix iMinInfix : Z).

(** A segment whose words can be searched. *)
Record searchable (seg : RtSegment_t) (gs : list gword) : Prop := {
  se_represents : represents f cp mode seg gs;
  se_keys : Forall (λ g, no_zero (g_key g)) gs;
  se_docs : Forall (λ g, docs_ok (g_docs g)) gs
}.

Lemma key_unique gs g : sorted_keys (map g_key gs) -> g ∈ gs -> docs_for (g_key g) gs = g_docs g.
Proof.
  induction gs as [|g0 gs IH]; [by intros _ ?%not_elem_of_nil|]. cbn [map]. intros [Hs Hlt]%StronglySorted_inv [->|Hg]%elem_of_cons; rewrite docs_for_cons.
  - rewrite bool_decide_eq_true_2 by done. by rewrite docs_for_none, app_nil_r.
  - rewrite bool_decide_eq_false_2; [by rewrite IH|]. intros E. rewrite Forall_forall in Hlt. specialize (Hlt (g_key g) ltac:(apply list_elem_of_fmap; by exists g)). rewrite E in Hlt. by apply key_lt_irrefl in Hlt.
Qed.

Lemma docs_for_absent gs k : k ∉ map g_key gs -> docs_for k gs = [].
Proof. induction gs as [|g gs IH]; [done|]. cbn [map]. intros [N1 N2]%not_elem_of_cons. rewrite docs_for_cons, bool_decide_eq_false_2 by done. by apply IH. Qed.

(** The reader of a keyword after [RtQwordSetupSegment]. *)
Lemma setup_segment_ok seg gs tDead u s sWord q : searchable seg gs -> lookup_word f iMinPrefix iMinInfix s = Some sWord -> key_wf f (search_key f u sWord) -> rq_iDocs q = 0 ->
  ∃ q', RtQwordSetupSegment f cp mode iMinPrefix iMinInfix seg tDead u s q = Some (bool_decide (search_key f u sWord ∈ map g_key gs), q') /\
    if bool_decide (search_key f u sWord ∈ map g_key gs) then q_iDocs q' ≠ 0 /\ qinv (-1) q' /\ Forall2 gposting (qrem q') (rows_alive tDead (docs_for (search_key f u sWord) gs)) else q' = q /\ docs_for (search_key f u sWord) gs = [].
Proof.
  intros [R Nz Hd] El Hk H0. set (k := search_key f u sWord) in *. destruct (find_word_ok f cp mode iMinPrefix iMinInfix seg gs u s sWord R Nz El Hk) as (o & Eo & Ho). fold k in Ho. unfold RtQwordSetupSegment. rewrite Eo. cbn [mbind option_bind]. destruct o as [t|].
  - destruct Ho as (g & Hg & Eg & Wa). assert (k ∈ map g_key gs) as Hin by (apply list_elem_of_fmap; exists g; by rewrite Eg). rewrite bool_decide_eq_true_2 by done. eexists. split; [done|]. rewrite Forall_forall in Hd. destruct (rt_setup_ok seg tDead t g q Wa (Hd g Hg) H0) as (A & B & C). rewrite <- Eg, (key_unique gs g (re_sorted _ _ _ _ _ R) Hg). done.
  - rewrite bool_decide_eq_false_2 by done. eexists. split; [done|]. split; [done|]. by apply docs_for_absent.
Qed.

(** Looking a keyword up through the checkpoints of a segment finds it if and
    only if the segment has it, whichever way the words fall between the
    checkpoints; the reader that is set up then yields exactly its documents whose
    rows are alive, in order, each with its field mask and number of hits. *)
Theorem rt_lookup_correct seg gs tDead u s sWord q : searchable seg gs -> lookup_word f iMinPrefix iMinInfix s = Some sWord -> key_wf f (search_key f u sWord) -> rq_iDocs q = 0 ->
  ∃ q', RtQwordSetupSegment f cp mode iMinPrefix iMinInfix seg tDead u s q = Some (bool_decide (search_key f u sWord ∈ map g_key gs), q') /\
    (search_key f u sWord ∈ map g_key gs -> Forall2 gposting (qrem q') (rows_alive tDead (docs_for (search_key f u sWord) gs))).
Proof.
  intros R El Hk H0. destruct (setup_segment_ok seg gs tDead u s sWord q R El Hk H0) as (q' & E & H). exists q'. split; [done|]. intros Hin. rewrite bool_decide_eq_true_2 in H by done. apply H.
Qed.

(** ** Queries *)

(** A boolean query of keywords, each with the fields it is searched in and its
    weight for the ranker. *)
Inductive wquery := WTerm (uWordID : Z) (sDictWord : list Z) (dQueriedFields : FieldMask_t) (fIDF : float32) | WOp (eOp : XQOperator_e) (l r : wquery).

Definition new_qword (seg : RtSegment_t) (tDead : DeadMap.DeadRowMap_c) : RtQword_t := RtQword seg tDead (RtDocReader None 0 (RtDoc INVALID_ROWID 0 0 0)) (RtHitReader None 0 0) 0 INVALID_ROWID UnsetAll 0 0 false 0.

(** [m_bHasWideFields] of a term, from the flag of the setup and the fields asked
    for. *)
Definition wide_fields (bHasWideFields : bool) (m : FieldMask_t) : bool := bHasWideFields && existsb (λ i, negb (word m i =? 0)) (seq 1 (SIZE - 1)).

Definition new_term (bHasWideFields : bool) (fIDF : float32) (q : RtQword_t) (m : FieldMask_t) : ExtTerm_T RtQword_t :=
  MkTerm q false false m (wide_fields bHasWideFields m) fIDF false (RowIdBoundaries 0 INVALID_ROWID) 1 [] 0 0 0.

(** The tree over a segment; a keyword that the segment lacks has no documents.
    [bHasWideFields] says whether the table has more than 32 fields. *)
Fixpoint segment_tree (bHasWideFields : bool) (seg : RtSegment_t) (tDead : DeadMap.DeadRowMap_c) (w : wquery) : option (tree RtQword_t) :=
  match w with
  | WTerm u s m fIDF => '(_, q) ← RtQwordSetupSegment f cp mode iMinPrefix iMinInfix seg tDead u s (new_qword seg tDead); Some (Term (new_term bHasWideFields fIDF q m))
  | WOp eOp l r => a ← segment_tree bHasWideFields seg tDead l; b ← segment_tree bHasWideFields seg tDead r; Some (Twofer eOp a b)
  end.

(** What a keyword makes of one document of its list. *)
Definition word_doc (bHasWideFields : bool) (m : FieldMask_t) (fIDF : float32) (g : gdoc) : option ExtDoc_t :=
  let bWide := wide_fields bHasWideFields m in
  if (if bWide then has_same_fields (doc_mask g) m else negb (Z.land (g_fields g) (GetMask32 m) =? 0))
  then Some (ExtDoc (g_row g) (Z.land (if bWide then GetMask32 (doc_mask g) else g_fields g) (GetMask32 m)) (tfidf (Z.of_nat (length (g_hits g))) fIDF))
  else None.

(** What the query makes of a row. *)
Fixpoint row_value (bHasWideFields : bool) (gs : list gword) (tDead : DeadMap.DeadRowMap_c) (w : wquery) (x : Z) : option ExtDoc_t :=
  match w with
  | WTerm u s m fIDF =>
      sWord ← lookup_word f iMinPrefix iMinInfix s;
      g ← List.find (λ g, g_row g =? x) (rows_alive tDead (docs_for (search_key f u sWord) gs));
      word_doc bHasWideFields m fIDF g
  | WOp eOp l r => op_doc eOp (row_value bHasWideFields gs tDead l x) (row_value bHasWideFields gs tDead r x)
  end.

(** The keywords fit the dictionary. *)
Fixpoint query_wf (w : wquery) : Prop :=
  match w with
  | WTerm u s _ _ => match lookup_word f iMinPrefix iMinInfix s with Some sWord => key_wf f (search_key f u sWord) | None => True end
  | WOp _ l r => query_wf l /\ query_wf r
  end.

(** No row [x] has a single hit that is read as the end of the hits. *)
Definition hits_end (gs : list gdoc) (x : Z) : Prop := ∀ g, g ∈ gs -> g_row g = x -> g_hits g ≠ [0xffffffff].

Lemma posting_doc bWide q m fIDF p g : gposting p g -> g_hits g ≠ [0xffffffff] ->
  (if term_accepts (new_term bWide fIDF q m) p then Some (term_doc (new_term bWide fIDF q m) p) else None) = word_doc bWide m fIDF g.
Proof.
  intros (Er & Ef & Eh & Em) Ne. unfold term_accepts, term_doc, term_fields, word_doc. cbn [new_term m_bHasWideFields m_dQueriedFields ExtTerm.m_fIDF]. rewrite Er, Ef, Eh, (Em Ne). by destruct (wide_fields bWide m).
Qed.

Lemma term_other bWide q m fIDF x ps gs : Forall2 gposting ps gs -> Forall (λ g, x < g_row g) gs -> find_row x (term_docs (new_term bWide fIDF q m) ps) = None.
Proof.
  induction 1 as [|p g ps gs (Er & _) F IH]; [done|]. intros [Hg Hx]%Forall_cons. rewrite term_docs_cons by done. specialize (IH Hx). destruct (term_accepts _ p); [|done]. cbn [find_row]. change (m_tRowID (term_doc _ p)) with (p_row p). rewrite Er, (proj2 (Z.eqb_neq _ _)) by lia. done.
Qed.

Lemma term_value bWide fIDF q m ps gs x : q_iDocs q ≠ 0 -> qrem q = ps -> Forall2 gposting ps gs -> StronglySorted Z.lt (map g_row gs) -> hits_end gs x ->
  find_row x (term_rem (new_term bWide fIDF q m)) = g ← List.find (λ g, g_row g =? x) gs; word_doc bWide m fIDF g.
Proof.
  intros N E F. rewrite term_rem_on by done. cbn [new_term m_pQword]. rewrite E. clear E N. induction F as [|p g ps gs Hp F IH]; [done|]. cbn [map]. intros [Hs Hlt]%StronglySorted_inv He. rewrite term_docs_cons by done. cbn [List.find]. assert (hits_end gs x) as He' by (intros g' Hg'; apply He; by right). specialize (IH Hs He'). change (MkTerm _ _ _ _ _ _ _ _ _ _ _ _ _) with (new_term bWide fIDF q m) in *. destruct (Z.eqb_spec (g_row g) x) as [Ex|Nx].
  - cbn [mbind option_bind]. pose proof (posting_doc bWide q m fIDF p g Hp (He g ltac:(by left) Ex)) as D. destruct (term_accepts _ p).
    + cbn [find_row]. change (m_tRowID (term_doc _ p)) with (p_row p). destruct Hp as (-> & _). by rewrite Ex, Z.eqb_refl.
    + rewrite <- D. apply (term_other bWide q m fIDF x ps gs F). rewrite Forall_map in Hlt. by rewrite <- Ex.
  - destruct (term_accepts _ p); [|done]. cbn [find_row]. change (m_tRowID (term_doc _ p)) with (p_row p). destruct Hp as (-> & _). by rewrite (proj2 (Z.eqb_neq _ _)) by done.
Qed.

Lemma docs_for_sorted gs k : sorted_keys (map g_key gs) -> Forall (λ g, docs_ok (g_docs g)) gs -> StronglySorted Z.lt (map g_row (docs_for k gs)).
Proof.
  intros Hs Hd. destruct (decide (k ∈ map g_key gs)) as [Hk|Hk]; [|rewrite docs_for_absent by done; constructor]. apply list_elem_of_fmap in Hk as (g & -> & Hg). rewrite key_unique by done. rewrite Forall_forall in Hd. apply (Hd g Hg).
Qed.

Lemma segment_tree_ok bWide seg gs tDead w : searchable seg gs -> query_wf w -> ∃ t, segment_tree bWide seg tDead w = Some t /\ tree_ok t /\ ∀ x, (∀ k, hits_end (rows_alive tDead (docs_for k gs)) x) -> eval t x = row_value bWide gs tDead w x.
Proof.
  intros R. induction w as [u s m fIDF|eOp l IHl r IHr]; cbn [segment_tree query_wf row_value].
  - intros Hw. unfold RtQwordSetupSegment. destruct (lookup_word f iMinPrefix iMinInfix s) as [sWord|] eqn:El; cbn [mbind option_bind].
    + destruct (setup_segment_ok seg gs tDead u s sWord (new_qword seg tDead) R El Hw eq_refl) as (q & E & H). unfold RtQwordSetupSegment in E. rewrite E. cbn [mbind option_bind]. eexists. split; [done|]. case_bool_decide as Hin.
      * destruct H as (H1 & H2 & H3). split; [split; [done|by intros _]|]. intros x Hx. cbn [eval]. apply (term_value bWide fIDF q m _ _ x H1 eq_refl H3); [|apply Hx]. destruct R as [R _ Dk]. by apply rows_alive_sorted, docs_for_sorted; [apply R|].
      * destruct H as (-> & ->). split; [split; [done|]; by cbn|]. done.
    + unfold find_word. rewrite El. cbn [mbind option_bind]. eexists. split; [done|]. split; [split; [done|]; by cbn|]. done.
  - intros [Hl Hr]. destruct (IHl Hl) as (a & -> & Oa & Ea). destruct (IHr Hr) as (b & -> & Ob & Eb). cbn [mbind option_bind]. eexists. split; [done|]. split; [done|]. intros x Hx. cbn [eval]. by rewrite Ea, Eb.
Qed.
End Lookup.

(** ** An example *)

Definition demo_words : list gword := [GWord (Word [97]) true [GDoc 0 3 [1; 16777217]; GDoc 3 1 [2]]; GWord (Word [97; 98]) true [GDoc 0 1 [2]; GDoc 3 1 [3]]].

(** Row 0 of four rows is dead. *)
Definition demo_dead : DeadMap.DeadRowMap_c := DeadMap.DeadRowMap true 1 4 [1].

Lemma demo_segment : ∃ seg, CreateSegmentHits KEYWORDS 2 SPH_HITLESS_NONE example_packed [] example_hits = Some seg /\ searchable KEYWORDS 2 SPH_HITLESS_NONE seg demo_words.
Proof.
  destruct (create_represents KEYWORDS 2 SPH_HITLESS_NONE example_packed [] example_key (λ _, true) example_hits) as (seg & E & R).
  - repeat constructor; try done; cbn; unfold WORDID_MAX, is_byte; lia.
  - cbn. lia.
  - repeat constructor.
  - exists seg. split; [done|]. split; [exact R| |].
    + apply Forall_cons. split; [|apply Forall_singleton]; cbn [no_zero g_key]; intros H; repeat (apply elem_of_cons in H as [H|H]; [lia|]); by apply not_elem_of_nil in H.
    + assert (∀ l, forallb (λ h, (0 <? h) && (h <? 2 ^ 32)) l = true -> Forall hit_ok l) as K. { intros l. rewrite forallb_forall, Forall_forall. intros H h Hh. specialize (H h ltac:(by apply list_elem_of_In)). apply andb_true_iff in H as [?%Z.ltb_lt ?%Z.ltb_lt]. split; [apply dword_range; lia|lia]. }
      apply Forall_cons. split; [|apply Forall_singleton]; (split; [repeat constructor|]; split; [repeat constructor; cbn; lia|]; split; [repeat (apply Forall_cons; split; [by apply K|]); constructor|reflexivity]).
Qed.

Lemma demo_key s : s = [97] \/ s = [97; 98] -> key_wf KEYWORDS (Word s).
Proof. intros [->| ->]; (split; [repeat (apply Forall_cons; split; [unfold is_byte; lia|]); constructor|cbn; lia]). Qed.

Lemma rt_lookup_correct_witness : ∃ seg q', RtQwordSetupSegment KEYWORDS 2 SPH_HITLESS_NONE 0 0 seg demo_dead 0 [97; 98] (new_qword seg demo_dead) = Some (true, q') /\ Forall2 gposting (qrem q') [GDoc 3 1 [3]].
Proof.
  destruct demo_segment as (seg & _ & R). destruct (rt_lookup_correct KEYWORDS 2 SPH_HITLESS_NONE 0 0 seg demo_words demo_dead 0 [97; 98] [97; 98] (new_qword seg demo_dead) R) as (q' & E & H); [done|apply demo_key; by right|done|]. exists seg, q'. split; [exact E|]. apply H. cbn. right. by left.
Defined.

End RtSearch.
