(* ===== verification/OpenHash.v ===== *)
(** * Open-addressing hashes (src/src/std/openhash.h, openhash_impl.h)

    [OpenHashTable_T]: a table of a power of two entries, linear probing, growth at
    a load of 0.95 and deletion that moves entries back. The segments of the
    real-time index map document ids to rows with it. *)

From S2P Require Import Prelude BitVec.

Module OpenHash.

Section Table.
Context {K V : Type} `{EqDecision K}.

(** [OpenHashEntry_T] *)
Record ENTRY := Entry { m_Key : K; m_Value : V; m_bUsed : bool }.

Record OpenHashTable_T := OpenHashTable { m_iSize : Z; m_iUsed : Z; m_iMaxUsed : Z; m_pHash : list ENTRY }.

(** [HASHFUNC::GetHash], and the key and value of a new entry. *)
Context (GetHash : K -> Z) (k0 : K) (v0 : V).

(** [LOAD_FACTOR] is the float next to 0.95, which is [15938355/2^24]; the product
    with a power of two is exact. *)
Definition GetMaxLoad (iSize : Z) : Z := Z.quot (iSize * 15938355) (2 ^ 24).

Definition Reset (iSize : Z) : OpenHashTable_T :=
  if iSize <=? 0 then OpenHashTable 0 0 0 []
  else
    let iSize := Z.shiftl 1 (BitVec.sphLog2const (iSize - 1)) in
    OpenHashTable iSize 0 (GetMaxLoad iSize) (replicate (Z.to_nat iSize) (Entry k0 v0 false)).

Definition Clear (t : OpenHashTable_T) : OpenHashTable_T :=
  OpenHashTable (m_iSize t) 0 (m_iMaxUsed t) (replicate (length (m_pHash t)) (Entry k0 v0 false)).

Definition home (iSize : Z) (k : K) : Z := Z.land (GetHash k) (iSize - 1).
Definition next (iSize i : Z) : Z := Z.land (i + 1) (iSize - 1).

(** The probing of [FindEntry] and [AcquireEntry]: the entry of the key, or the first
    one that is not used. *)
Fixpoint probe_loop (fuel : nat) (h : list ENTRY) (iSize : Z) (k : K) (iIndex : Z) : option (Z * bool) :=
  match fuel with
  | O => None
  | S fuel' =>
      tEntry ← h !! Z.to_nat iIndex;
      if m_bUsed tEntry then if decide (m_Key tEntry = k) then Some (iIndex, true) else probe_loop fuel' h iSize k (next iSize iIndex)
      else Some (iIndex, false)
  end.

Definition probe (t : OpenHashTable_T) (k : K) : option (Z * bool) :=
  probe_loop (S (length (m_pHash t))) (m_pHash t) (m_iSize t) k (home (m_iSize t) k).

Definition FindEntry (t : OpenHashTable_T) (k : K) : option (option Z) :=
  if m_iSize t =? 0 then Some None else '(i, b) ← probe t k; Some (if (b : bool) then Some i else None).

Definition Find (t : OpenHashTable_T) (k : K) : option (option V) :=
  o ← FindEntry t k; match o with None => Some None | Some i => tEntry ← m_pHash t !! Z.to_nat i; Some (Some (m_Value tEntry)) end.

(** ** Growth *)

(** The first free place from [j] on. *)
Fixpoint place_loop (fuel : nat) (h : list ENTRY) (iNewSize j : Z) : option Z :=
  match fuel with
  | O => None
  | S fuel' => tEntry ← h !! Z.to_nat j; if m_bUsed tEntry then place_loop fuel' h iNewSize (next iNewSize j) else Some j
  end.

Fixpoint MoveToNewStorage (l : list ENTRY) (pNew : list ENTRY) (iNewSize : Z) : option (list ENTRY) :=
  match l with
  | [] => Some pNew
  | tEntry :: l' =>
      if m_bUsed tEntry then
        j ← place_loop (S (length pNew)) pNew iNewSize (home iNewSize (m_Key tEntry));
        MoveToNewStorage l' (<[Z.to_nat j := Entry (m_Key tEntry) (m_Value tEntry) true]> pNew) iNewSize
      else MoveToNewStorage l' pNew iNewSize
  end.

Definition Grow (t : OpenHashTable_T) : option OpenHashTable_T :=
  let iNewSize := 2 * Z.max (m_iSize t) 8 in
  pNew ← MoveToNewStorage (m_pHash t) (replicate (Z.to_nat iNewSize) (Entry k0 v0 false)) iNewSize;
  Some (OpenHashTable iNewSize (m_iUsed t) (GetMaxLoad iNewSize) pNew).

(** ** Adding *)

(** The loop of [AcquireEntry]; [nGrows] bounds how often it grows the table. *)
Fixpoint acquire_loop (nGrows : nat) (t : OpenHashTable_T) (k : K) : option (Z * OpenHashTable_T) :=
  '(i, b) ← probe t k;
  if (b : bool) then Some (i, t)
  else if m_iMaxUsed t <=? m_iUsed t then
    match nGrows with O => None | S n' => t ← Grow t; acquire_loop n' t k end
  else
    tEntry ← m_pHash t !! Z.to_nat i;
    Some (i, OpenHashTable (m_iSize t) (m_iUsed t + 1) (m_iMaxUsed t) (<[Z.to_nat i := Entry k (m_Value tEntry) true]> (m_pHash t))).

Definition AcquireEntry (t : OpenHashTable_T) (k : K) : option (Z * OpenHashTable_T) :=
  t ← (if m_iSize t =? 0 then Grow t else Some t); acquire_loop 1 t k.

(** [Acquire] returns a reference to the value at the index. *)
Definition Acquire (t : OpenHashTable_T) (k : K) : option (V * Z * OpenHashTable_T) :=
  '(i, t) ← AcquireEntry t k; tEntry ← m_pHash t !! Z.to_nat i; Some (m_Value tEntry, i, t).

Definition set_value (i : Z) (v : V) (t : OpenHashTable_T) : option OpenHashTable_T :=
  tEntry ← m_pHash t !! Z.to_nat i; Some (OpenHashTable (m_iSize t) (m_iUsed t) (m_iMaxUsed t) (<[Z.to_nat i := Entry (m_Key tEntry) v (m_bUsed tEntry)]> (m_pHash t))).

Definition Add (t : OpenHashTable_T) (k : K) (v : V) : option (bool * OpenHashTable_T) :=
  let u := m_iUsed t in
  '(_, i, t) ← Acquire t k;
  if u =? m_iUsed t then Some (false, t) else t ← set_value i v t; Some (true, t).

(** The value that the returned reference has. *)
Definition FindOrAdd (t : OpenHashTable_T) (k : K) (v : V) : option (V * OpenHashTable_T) :=
  let u := m_iUsed t in
  '(x, i, t) ← Acquire t k;
  if u =? m_iUsed t then Some (x, t) else t ← set_value i v t; Some (v, t).

(** ** Deleting *)

(** Entries behind the hole whose probing passes it are moved into it. *)
Fixpoint delete_loop (fuel : nat) (h : list ENTRY) (iSize iIndex iNext : Z) : option (list ENTRY * Z) :=
  match fuel with
  | O => None
  | S fuel' =>
      let iNext := next iSize iNext in
      tEntry ← h !! Z.to_nat iNext;
      if negb (m_bUsed tEntry) then Some (h, iIndex)
      else
        let iDesired := home iSize (m_Key tEntry) in
        if ((iIndex <? iNext) && ((iDesired <=? iIndex) || (iNext <? iDesired))) || ((iNext <? iIndex) && ((iDesired <=? iIndex) && (iNext <? iDesired)))
        then delete_loop fuel' (<[Z.to_nat iIndex := tEntry]> h) iSize iNext iNext
        else delete_loop fuel' h iSize iIndex iNext
  end.

Definition DeleteEntry (t : OpenHashTable_T) (iEntry : Z) : option OpenHashTable_T :=
  '(h, i) ← delete_loop (S (length (m_pHash t))) (m_pHash t) (m_iSize t) iEntry iEntry;
  tEntry ← h !! Z.to_nat i;
  Some (OpenHashTable (m_iSize t) (m_iUsed t - 1) (m_iMaxUsed t) (<[Z.to_nat i := Entry (m_Key tEntry) (m_Value tEntry) false]> h)).

Definition Delete (t : OpenHashTable_T) (k : K) : option (bool * OpenHashTable_T) :=
  o ← FindEntry t k;
  match o with None => Some (false, t) | Some i => t ← DeleteEntry t i; Some (true, t) end.

(** Assumes that the key exists. *)
Definition FindAndDelete (t : OpenHashTable_T) (k : K) : option (V * OpenHashTable_T) :=
  o ← FindEntry t k; i ← o; tEntry ← m_pHash t !! Z.to_nat i; t ← DeleteEntry t i; Some (m_Value tEntry, t).

(** [Iterate]: the pair at the first used entry from the index on, and the index
    behind it. *)
Fixpoint iterate_loop (l : list ENTRY) (i : Z) : option (K * V * Z) :=
  match l with [] => None | tEntry :: l' => if m_bUsed tEntry then Some (m_Key tEntry, m_Value tEntry, i + 1) else iterate_loop l' (i + 1) end.

Definition Iterate (t : OpenHashTable_T) (iIndex : Z) : option (K * V * Z) := iterate_loop (drop (Z.to_nat iIndex) (m_pHash t)) iIndex.
End Table.
Arguments ENTRY : clear implicits.
Arguments OpenHashTable_T : clear implicits.

(** [HashFunc_Int64_t::GetHash]: the product is one of [unsigned long]. *)
Definition GetHash_Int64 (k : Z) : Z := cast DWORD (Z.lxor (cast DWORD k * 0x607cbb77) (Z.shiftr k 32)).

Example hash_two : (t ← Add GetHash_Int64 0 0 (Reset 0 0 0) 7 70; '(_, t) ← Some t; t ← Add GetHash_Int64 0 0 t 8 80; '(_, t) ← Some t; '(_, t) ← Delete GetHash_Int64 t 7; a ← Find GetHash_Int64 t 7; b ← Find GetHash_Int64 t 8; Some (a, b)) = Some (None, Some 80).
Proof. vm_compute. reflexivity. Qed.
End OpenHash.
