(* ===== verification/OpenHashOk.v ===== *)
(** * An open-addressing hash is a map

    The invariant of the probing: every place between the home of a key and the
    place of its entry is taken. Under it the operations end and refine those of
    finite maps. *)

From stdpp Require Import gmap.
From S2P Require Import Prelude BitVec OpenHash.
Import OpenHash.

Module OpenHashOk.

(** ** Places on a circle *)

Definition plus (n x d : Z) : Z := (x + d) mod n.
Definition dist (n x y : Z) : Z := (y - x) mod n.

Lemma plus_cases n x d : 0 <= x < n -> 0 <= d <= n -> plus n x d = if x + d <? n then x + d else x + d - n.
Proof. intros Hx Hd. unfold plus. destruct (Z.ltb_spec (x + d) n); [by apply Z.mod_small; lia|]. symmetry. apply (Z.mod_unique_pos _ _ 1); lia. Qed.

Lemma dist_cases n x y : 0 <= x < n -> 0 <= y < n -> dist n x y = if x <=? y then y - x else y - x + n.
Proof. intros Hx Hy. unfold dist. destruct (Z.leb_spec x y); [by apply Z.mod_small; lia|]. symmetry. apply (Z.mod_unique_pos _ _ (-1)); lia. Qed.

(** Statements on places become linear. *)
Ltac circle := repeat match goal with
  | H : context [plus _ _ _] |- _ => rewrite plus_cases in H by lia
  | H : context [dist _ _ _] |- _ => rewrite dist_cases in H by lia
  | |- context [plus _ _ _] => rewrite plus_cases by lia
  | |- context [dist _ _ _] => rewrite dist_cases by lia
  | H : context [?a <? ?b] |- _ => destruct (Z.ltb_spec a b)
  | H : context [?a <=? ?b] |- _ => destruct (Z.leb_spec a b)
  | |- context [?a <? ?b] => destruct (Z.ltb_spec a b)
  | |- context [?a <=? ?b] => destruct (Z.leb_spec a b)
  end; try lia.

Lemma plus_range n x d : 0 < n -> 0 <= plus n x d < n.
Proof. intros. by apply Z.mod_pos_bound. Qed.

Lemma dist_range n x y : 0 < n -> 0 <= dist n x y < n.
Proof. intros. by apply Z.mod_pos_bound. Qed.

Lemma plus_dist n x y : 0 <= x < n -> 0 <= y < n -> plus n x (dist n x y) = y.
Proof. intros Hx Hy. pose proof (dist_range n x y). rewrite plus_cases by lia. circle. Qed.

Lemma dist_plus n x d : 0 <= x < n -> 0 <= d < n -> dist n x (plus n x d) = d.
Proof. intros Hx Hd. pose proof (plus_range n x d). rewrite dist_cases by lia. circle. Qed.

Lemma plus_succ n x d : 0 <= x < n -> 0 <= d < n -> plus n (plus n x d) 1 = plus n x (d + 1).
Proof. intros Hx Hd. pose proof (plus_range n x d). rewrite (plus_cases n (plus n x d)) by lia. circle. Qed.

Section Hash.
Context {K V : Type} `{EqDecision K} `{!Countable K} (GetHash : K -> Z) (k0 : K) (v0 : V).
Abbreviation entry := (ENTRY K V).
Abbreviation table := (OpenHashTable_T K V).
Abbreviation home := (home GetHash).

Definition is_pow (n : Z) : Prop := ∃ p, 0 <= p /\ n = 2 ^ p.

Lemma pow_pos n : is_pow n -> 0 < n.
Proof. intros (p & Hp & ->). by apply Z.pow_pos_nonneg. Qed.

Lemma land_mod n x : is_pow n -> Z.land x (n - 1) = x mod n.
Proof. intros (p & Hp & ->). replace (2 ^ p - 1) with (Z.ones p) by (rewrite Z.ones_equiv; lia). by apply Z.land_ones. Qed.

Lemma next_plus n i : is_pow n -> next n i = plus n i 1.
Proof. intros H. unfold next. by rewrite land_mod. Qed.

Lemma home_range n k : is_pow n -> 0 <= home n k < n.
Proof. intros H. unfold OpenHash.home. rewrite land_mod by done. apply Z.mod_pos_bound. by apply pow_pos. Qed.

(** ** What a place holds *)

Definition slot (h : list entry) (i : Z) : option (K * V) := e ← h !! Z.to_nat i; if m_bUsed e then Some (m_Key e, m_Value e) else None.

Definition used (h : list entry) (i : Z) : Prop := is_Some (slot h i).

Record probing (n : Z) (h : list entry) : Prop := {
  pr_pow : is_pow n;
  pr_length : Z.of_nat (length h) = n;
  pr_path : ∀ i k v, 0 <= i < n -> slot h i = Some (k, v) -> ∀ d, 0 <= d < dist n (home n k) i -> used h (plus n (home n k) d);
  pr_unique : ∀ i j k v v', 0 <= i < n -> 0 <= j < n -> slot h i = Some (k, v) -> slot h j = Some (k, v') -> i = j
}.

Definition count (h : list entry) : nat := length (List.filter (@m_bUsed K V) h).

Lemma lookup_place n (h : list entry) i : Z.of_nat (length h) = n -> 0 <= i < n -> ∃ e, h !! Z.to_nat i = Some e.
Proof. intros Hl Hi. apply lookup_lt_is_Some_2. lia. Qed.

Lemma slot_insert n (h : list entry) i j k v b : Z.of_nat (length h) = n -> 0 <= i < n -> 0 <= j -> slot (<[Z.to_nat i := Entry k v b]> h) j = if i =? j then if b then Some (k, v) else None else slot h j.
Proof.
  intros Hl Hi Hj. unfold slot. destruct (Z.eqb_spec i j) as [->|N]; [rewrite list_lookup_insert_eq by lia; by destruct b|]. by rewrite list_lookup_insert_ne by lia.
Qed.

Lemma count_insert (h : list entry) i e e' : h !! i = Some e -> (count (<[i := e']> h) + (if m_bUsed e then 1 else 0) = count h + (if m_bUsed e' then 1 else 0))%nat.
Proof.
  unfold count. revert i. induction h as [|a h IH]; intros [|i] E; try done; cbn in E |- *.
  - injection E as ->. destruct (m_bUsed e), (m_bUsed e'); cbn; lia.
  - specialize (IH i E). destruct (m_bUsed a); cbn; [exact (f_equal S IH)|exact IH].
Qed.

(** A table that is not full has a free place. *)
Lemma free_place n (h : list entry) : Z.of_nat (length h) = n -> Z.of_nat (count h) < n -> ∃ u, 0 <= u < n /\ slot h u = None.
Proof.
  intros Hl Hc. assert (∃ j e, h !! j = Some e /\ m_bUsed e = false) as (j & e & E & Ee).
  { subst n. clear -Hc. unfold count in Hc. induction h as [|a h IH]; [cbn in Hc; lia|]. cbn in Hc. destruct (m_bUsed a) eqn:Ea; [|exists 0%nat, a; done]. cbn in Hc. destruct IH as (j & e & E & Ee); [lia|]. by exists (S j), e. }
  exists (Z.of_nat j). split; [apply lookup_lt_Some in E; lia|]. unfold slot. rewrite Nat2Z.id, E. cbn. by rewrite Ee.
Qed.

(** ** Probing *)

Lemma probe_loop_ok n (h : list entry) k u : is_pow n -> Z.of_nat (length h) = n -> 0 <= u < n -> slot h u = None -> ∀ fuel j, 0 <= j < n -> (n - j < Z.of_nat fuel) -> (∀ d, 0 <= d < j -> ∃ k' v', slot h (plus n (home n k) d) = Some (k', v') /\ k' ≠ k) ->
  ∃ i b, probe_loop fuel h n k (plus n (home n k) j) = Some (i, b) /\ 0 <= i < n /\ (∀ d, 0 <= d < dist n (home n k) i -> ∃ k' v', slot h (plus n (home n k) d) = Some (k', v') /\ k' ≠ k) /\ if b then ∃ v, slot h i = Some (k, v) else slot h i = None.
Proof.
  intros Hp Hl Hu Eu. pose proof (pow_pos n Hp) as Hn. pose proof (home_range n k Hp) as Hh. induction fuel as [|fuel IH]; intros j Hj Hf Hd; [lia|]. cbn [probe_loop]. pose proof (plus_range n (home n k) j Hn) as Hi. destruct (lookup_place n h _ Hl Hi) as [e Ee]. rewrite Ee. cbn [mbind option_bind]. assert (slot h (plus n (home n k) j) = if m_bUsed e then Some (m_Key e, m_Value e) else None) as Es by (unfold slot; by rewrite Ee).
  assert (∀ b : bool, (if b then ∃ v, slot h (plus n (home n k) j) = Some (k, v) else slot h (plus n (home n k) j) = None) -> ∃ i (b0 : bool), Some (plus n (home n k) j, b) = Some (i, b0) /\ 0 <= i < n /\ (∀ d, 0 <= d < dist n (home n k) i -> ∃ k' v', slot h (plus n (home n k) d) = Some (k', v') /\ k' ≠ k) /\ if b0 then ∃ v, slot h i = Some (k, v) else slot h i = None) as Stop.
  { intros b Hb. eexists _, b. split; [done|]. split; [done|]. split; [|done]. intros d Hdd. rewrite dist_plus in Hdd by lia. by apply Hd. }
  destruct (m_bUsed e); [|by apply (Stop false)]. destruct (decide (m_Key e = k)) as [<-|Nk]; [apply (Stop true); by eexists|]. rewrite next_plus, plus_succ by (done || lia). assert (j + 1 < n) as Hj1.
  { destruct (Z.eq_dec (j + 1) n) as [Ej|]; [|lia]. exfalso. pose proof (dist_range n (home n k) u Hn) as Ru. pose proof (plus_dist n (home n k) u Hh Hu) as Pu. destruct (Z.eq_dec (dist n (home n k) u) j) as [Ed|Nd]; [rewrite Ed in Pu; rewrite Pu in Es; congruence|]. destruct (Hd (dist n (home n k) u)) as (k' & v' & Ek & _); [lia|]. rewrite Pu in Ek. congruence. }
  apply IH; [lia|lia|]. intros d Hdd. destruct (Z.eq_dec d j) as [->|]; [|apply Hd; lia]. exists (m_Key e), (m_Value e). by rewrite Es.
Qed.

Lemma probe_ok n (h : list entry) k : probing n h -> Z.of_nat (count h) < n ->
  ∃ i b, probe_loop (S (length h)) h n k (home n k) = Some (i, b) /\ 0 <= i < n /\ (∀ d, 0 <= d < dist n (home n k) i -> used h (plus n (home n k) d)) /\
    if b then ∃ v, slot h i = Some (k, v) else slot h i = None /\ ∀ j v, 0 <= j < n -> slot h j ≠ Some (k, v).
Proof.
  intros [P1 P2 P3 P4] Hc. pose proof (pow_pos n P1) as Hn. pose proof (home_range n k P1) as Hh. destruct (free_place n h P2 Hc) as (u & Hu & Eu). destruct (probe_loop_ok n h k u P1 P2 Hu Eu (S (length h)) 0) as (i & b & E & Hi & Hd & Hb); [lia|lia|intros d ?; lia|]. replace (plus n (home n k) 0) with (home n k) in E by circle. exists i, b. split; [done|]. split; [done|]. split; [intros d Hdd; destruct (Hd d Hdd) as (k' & v' & Ek & _); by eexists|].
  destruct b; [done|]. split; [done|]. intros j v Hj Ej. pose proof (P3 j k v Hj Ej) as Hpath. pose proof (plus_dist n (home n k) i Hh Hi) as Pi. pose proof (plus_dist n (home n k) j Hh Hj) as Pj. pose proof (dist_range n (home n k) i Hn). pose proof (dist_range n (home n k) j Hn). destruct (Z.lt_trichotomy (dist n (home n k) i) (dist n (home n k) j)) as [L|[E1|L]].
  - destruct (Hpath (dist n (home n k) i)) as [x Ex]; [lia|]. rewrite Pi, Hb in Ex. done.
  - rewrite <- Pi, E1, Pj in Hb. congruence.
  - destruct (Hd (dist n (home n k) j)) as (k' & v' & Ek & Nk); [lia|]. rewrite Pj, Ej in Ek. by injection Ek as <- _.
Qed.

(** ** Adding an entry *)

Definition holds (h : list entry) (k : K) (v : V) : Prop := ∃ i, slot h (Z.of_nat i) = Some (k, v).

Lemma slot_lookup (h : list entry) i k v : slot h i = Some (k, v) <-> ∃ e, h !! Z.to_nat i = Some e /\ m_bUsed e = true /\ m_Key e = k /\ m_Value e = v.
Proof.
  unfold slot. destruct (h !! Z.to_nat i) as [e|]; cbn; [|split; [done|by intros (? & ? & _)]]. destruct (m_bUsed e) eqn:Eu; split; [intros [= <- <-]; eauto|intros (? & [= <-] & _ & <- & <-); done|done|intros (? & [= <-] & ? & _); congruence].
Qed.

Lemma holds_slot n (h : list entry) k v : Z.of_nat (length h) = n -> holds h k v <-> ∃ i, 0 <= i < n /\ slot h i = Some (k, v).
Proof.
  intros Hl. split.
  - intros [i E]. exists (Z.of_nat i). split; [|done]. apply slot_lookup in E as (e & E & _). rewrite Nat2Z.id in E. apply lookup_lt_Some in E. lia.
  - intros (i & Hi & E). exists (Z.to_nat i). by rewrite Z2Nat.id by lia.
Qed.

Lemma probing_insert n (h : list entry) i k v : probing n h -> 0 <= i < n -> slot h i = None -> (∀ d, 0 <= d < dist n (home n k) i -> used h (plus n (home n k) d)) -> (∀ v', ¬ holds h k v') ->
  probing n (<[Z.to_nat i := Entry k v true]> h) /\ count (<[Z.to_nat i := Entry k v true]> h) = S (count h) /\ ∀ k' v', holds (<[Z.to_nat i := Entry k v true]> h) k' v' <-> (k' = k /\ v' = v) \/ holds h k' v'.
Proof.
  intros [P1 P2 P3 P4] Hi Ei Hd Ha. pose proof (pow_pos n P1) as Hn. set (h' := <[Z.to_nat i := Entry k v true]> h). assert (Z.of_nat (length h') = n) as Hl' by (unfold h'; by rewrite length_insert). assert (∀ j, 0 <= j -> slot h' j = if i =? j then Some (k, v) else slot h j) as Es by (intros j Hj; unfold h'; by rewrite (slot_insert n) by done).
  assert (∀ j, 0 <= j -> used h j -> used h' j) as Mono by (intros j Hj [x Ex]; unfold used; rewrite Es by done; destruct (i =? j); by eexists).
  assert (∀ j v', 0 <= j < n -> slot h j ≠ Some (k, v')) as Abs by (intros j v' Hj Ej; apply (Ha v'), (holds_slot n); [done|by exists j]). split; [split|split].
  - done.
  - done.
  - intros j k' v' Hj Ej d Hdd. pose proof (home_range n k' P1). pose proof (plus_range n (home n k') d Hn). apply Mono; [lia|]. rewrite Es in Ej by lia. destruct (Z.eqb_spec i j) as [->|]; [injection Ej as <- _; by apply Hd|by apply (P3 j k' v')].
  - intros a b k' v1 v2 Hra Hrb Ea Eb. rewrite Es in Ea, Eb by lia. destruct (Z.eqb_spec i a) as [E1|], (Z.eqb_spec i b) as [E2|]; [congruence|injection Ea as <- <-; by apply Abs in Eb|injection Eb as <- <-; by apply Abs in Ea|by eapply P4].
  - destruct (lookup_place n h i P2 Hi) as [e Ee]. pose proof (count_insert h (Z.to_nat i) e (Entry k v true) Ee) as C. unfold slot in Ei. rewrite Ee in Ei. cbn in Ei. destruct (m_bUsed e); [done|]. cbn [m_bUsed] in C. unfold h'. lia.
  - intros k' v'. rewrite !(holds_slot n) by done. split.
    + intros (j & Hj & Ej). rewrite Es in Ej by lia. destruct (i =? j); [left; by injection Ej as <- <-|right; by exists j].
    + intros [[-> ->]|(j & Hj & Ej)]; [exists i; split; [done|]; rewrite Es by lia; by rewrite Z.eqb_refl|]. exists j. split; [done|]. rewrite Es by lia. destruct (Z.eqb_spec i j) as [->|]; [congruence|done].
Qed.

(** ** Growth *)

Lemma place_probe n (h : list entry) k : (∀ e, e ∈ h -> m_bUsed e = true -> m_Key e ≠ k) -> ∀ fuel i, place_loop fuel h n i = fst <$> probe_loop fuel h n k i.
Proof.
  intros H. induction fuel as [|fuel IH]; intros i; [done|]. cbn [place_loop probe_loop]. destruct (h !! Z.to_nat i) as [e|] eqn:E; [|done]. cbn [mbind option_bind]. destruct (m_bUsed e) eqn:Eu; [|done]. rewrite decide_False by (apply H; [by eapply list_elem_of_lookup_2|done]). apply IH.
Qed.

(** The keys of the used entries differ. *)
Definition uniq (l : list entry) : Prop := ∀ i j e e', l !! i = Some e -> l !! j = Some e' -> m_bUsed e = true -> m_bUsed e' = true -> m_Key e = m_Key e' -> i = j.

Lemma uniq_tail e l : uniq (e :: l) -> uniq l.
Proof. intros H i j a b Ea Eb Ua Ub Ek. specialize (H (S i) (S j) a b Ea Eb Ua Ub Ek). lia. Qed.

Lemma move_ok n : ∀ l (h : list entry), probing n h -> uniq l -> (∀ e v, e ∈ l -> m_bUsed e = true -> ¬ holds h (m_Key e) v) -> Z.of_nat (count h + count l) < n ->
  ∃ h', MoveToNewStorage GetHash l h n = Some h' /\ probing n h' /\ count h' = (count h + count l)%nat /\ ∀ k v, holds h' k v <-> holds h k v \/ ∃ e, e ∈ l /\ m_bUsed e = true /\ m_Key e = k /\ m_Value e = v.
Proof.
  induction l as [|e l IH]; intros h P Hu Ha Hc; cbn [MoveToNewStorage].
  - exists h. split; [done|]. split; [done|]. split; [cbn; lia|]. intros k v. split; [by left|]. intros [H|(e & He & _)]; [done|by apply not_elem_of_nil in He].
  - assert (count (e :: l) = ((if m_bUsed e then 1 else 0) + count l)%nat) as Ec by (unfold count; cbn; by destruct (m_bUsed e)). destruct (m_bUsed e) eqn:Eu.
    + rewrite (place_probe n h (m_Key e)). 2: { intros a Ha1 Ha2 Ha3. apply (Ha e (m_Value a)); [by left|done|]. apply list_elem_of_lookup in Ha1 as [j Ej]. exists j. apply slot_lookup. exists a. by rewrite Nat2Z.id. }
      destruct (probe_ok n h (m_Key e) P) as (i & b & -> & Hi & Hd & Hb); [lia|]. destruct b. { destruct Hb as [v Ev]. exfalso. apply (Ha e v); [by left|done|]. apply (holds_slot n); [by apply P|by exists i]. } cbn [fmap option_fmap option_map fst mbind option_bind].
      destruct (probing_insert n h i (m_Key e) (m_Value e) P Hi (proj1 Hb) Hd) as (P' & C' & H'); [intros v; apply (Ha e v); [by left|done]|]. set (h1 := <[Z.to_nat i := Entry (m_Key e) (m_Value e) true]> h) in *.
      destruct (IH h1 P' (uniq_tail e l Hu)) as (h' & E' & P2 & C2 & H2); [|lia|].
      * intros a v Hin Ua [[E1 _]|Hh]%H'; [|by apply (Ha a v); [right|..]]. apply list_elem_of_lookup in Hin as [j Ej]. specialize (Hu 0%nat (S j) e a eq_refl Ej Eu Ua (eq_sym E1)). lia.
      * exists h'. split; [done|]. split; [done|]. split; [lia|]. intros k v. rewrite H2, H'. split.
        -- intros [[[-> ->]|Hh]|(a & Ha1 & Ha2)]; [right; exists e; split; [by left|done]|by left|right; exists a; split; [by right|done]].
        -- intros [Hh|(a & [->|Ha1]%elem_of_cons & Ua & <- & <-)]; [by left; right|left; left; done|right; by exists a].
    + destruct (IH h P (uniq_tail e l Hu)) as (h' & E' & P2 & C2 & H2); [intros a v Hin; apply Ha; by right|lia|]. exists h'. split; [done|]. split; [done|]. split; [lia|]. intros k v. rewrite H2. split; (intros [Hh|(a & Ha1 & Ua & Hk)]; [by left|right; exists a]); [split; [by right|done]|]. apply elem_of_cons in Ha1 as [->|]; [congruence|done].
Qed.

(** ** The table and its map *)

Lemma max_load n : 0 < n -> 0 <= GetMaxLoad n < n.
Proof. intros H. unfold GetMaxLoad. change (2 ^ 24) with 16777216. Z.to_euclidean_division_equations. lia. Qed.

Lemma max_load_double n : 8 <= n -> n <= GetMaxLoad (2 * n).
Proof. intros H. unfold GetMaxLoad. change (2 ^ 24) with 16777216. Z.to_euclidean_division_equations. lia. Qed.

Record refines (t : table) (m : gmap K V) : Prop := {
  rf_table : (m_iSize t = 0 /\ m_pHash t = [] /\ m_iMaxUsed t = 0) \/ (probing (m_iSize t) (m_pHash t) /\ m_iMaxUsed t = GetMaxLoad (m_iSize t));
  rf_used : m_iUsed t = Z.of_nat (count (m_pHash t));
  rf_load : m_iUsed t <= m_iMaxUsed t;
  rf_map : ∀ k v, m !! k = Some v <-> holds (m_pHash t) k v
}.

Lemma refines_probing t m : refines t m -> m_iSize t ≠ 0 -> probing (m_iSize t) (m_pHash t) /\ m_iMaxUsed t = GetMaxLoad (m_iSize t) /\ Z.of_nat (count (m_pHash t)) < m_iSize t.
Proof.
  intros [[(E & _)|[P M]] U L _] N; [done|]. split; [done|]. split; [done|]. pose proof (max_load (m_iSize t) (pow_pos _ (pr_pow _ _ P))). lia.
Qed.

Lemma empty_holds n k v : ¬ holds (replicate n (Entry k0 v0 false) : list entry) k v.
Proof. intros [i E]. apply slot_lookup in E as (e & E & Ue & _). apply lookup_replicate in E as [-> _]. done. Qed.

Lemma empty_count n : count (replicate n (Entry k0 v0 false) : list entry) = 0%nat.
Proof. unfold count. induction n; [done|]. cbn. done. Qed.

Lemma empty_probing n : is_pow n -> probing n (replicate (Z.to_nat n) (Entry k0 v0 false) : list entry).
Proof.
  intros P. pose proof (pow_pos n P) as Hn. assert (∀ i k v, slot (replicate (Z.to_nat n) (Entry k0 v0 false) : list entry) i ≠ Some (k, v)) as E. { intros i k v (e & E & Ue & _)%slot_lookup. apply lookup_replicate in E as [-> _]. done. }
  split; [done|rewrite length_replicate; lia| |]; intros i; intros; exfalso; by eapply E.
Qed.

Lemma empty_refines n : is_pow n -> refines (OpenHashTable n 0 (GetMaxLoad n) (replicate (Z.to_nat n) (Entry k0 v0 false))) ∅.
Proof.
  intros P. pose proof (max_load n (pow_pos n P)). split; cbn [m_iSize m_pHash m_iMaxUsed m_iUsed]; [right; split; [by apply empty_probing|done]|by rewrite empty_count|lia|]. intros k v. rewrite lookup_empty. split; [done|by intros ?%empty_holds].
Qed.

(** [Reset] gives an empty table. *)
Lemma hash_Reset_ok iSize : refines (Reset k0 v0 iSize) ∅.
Proof.
  unfold Reset. destruct (Z.leb_spec iSize 0).
  - split; cbn; [by left|done|lia|]. intros k v. rewrite lookup_empty. split; [done|]. by intros [i (e & E & _)%slot_lookup].
  - apply empty_refines. exists (BitVec.sphLog2const (iSize - 1)). split; [unfold BitVec.sphLog2const; pose proof (Z.log2_nonneg (Z.lor (iSize - 1) 1)); lia|]. rewrite Z.shiftl_mul_pow2; [lia|]. unfold BitVec.sphLog2const. pose proof (Z.log2_nonneg (Z.lor (iSize - 1) 1)). lia.
Qed.

Lemma hash_Clear_ok t m : refines t m -> refines (Clear k0 v0 t) ∅.
Proof.
  intros [[(E1 & E2 & E3)|[P M]] U L _]; unfold Clear.
  - split; cbn [m_iSize m_pHash m_iMaxUsed m_iUsed]; [left; by rewrite E2|by rewrite empty_count|lia|]. intros k v. rewrite lookup_empty. split; [done|by intros ?%empty_holds].
  - pose proof (pr_length _ _ P) as Hl. rewrite M. rewrite <- (Nat2Z.id (length (m_pHash t))), Hl. apply empty_refines, P.
Qed.

Lemma table_uniq n (h : list entry) : probing n h -> uniq h.
Proof.
  intros P i j e e' Ei Ej Ui Uj Ek. assert (Z.of_nat i = Z.of_nat j) as H; [|lia]. pose proof (pr_length _ _ P) as Hl. apply lookup_lt_Some in Ei as Li. apply lookup_lt_Some in Ej as Lj. apply (pr_unique n h P (Z.of_nat i) (Z.of_nat j) (m_Key e) (m_Value e) (m_Value e')); [lia|lia|apply slot_lookup; exists e; by rewrite Nat2Z.id|]. apply slot_lookup. exists e'. rewrite Nat2Z.id. done.
Qed.

Lemma holds_elem (h : list entry) k v : holds h k v <-> ∃ e, e ∈ h /\ m_bUsed e = true /\ m_Key e = k /\ m_Value e = v.
Proof.
  split.
  - intros [i (e & E & H)%slot_lookup]. exists e. split; [by eapply list_elem_of_lookup_2|done].
  - intros (e & [i E]%list_elem_of_lookup & H). exists i. apply slot_lookup. exists e. by rewrite Nat2Z.id.
Qed.

Lemma Grow_ok t m : refines t m -> ∃ t', Grow GetHash k0 v0 t = Some t' /\ refines t' m /\ m_iUsed t' = m_iUsed t /\ m_iUsed t' < m_iMaxUsed t' /\ m_iSize t' ≠ 0.
Proof.
  intros R. pose proof R as [T U L M]. set (n := 2 * Z.max (m_iSize t) 8). assert (is_pow n /\ m_iUsed t < Z.max (m_iSize t) 8) as [Pn Hu].
  { destruct T as [(E1 & E2 & E3)|[P Em]].
    - unfold n. rewrite E1. split; [by exists 4|]. rewrite E3 in L. lia.
    - pose proof (max_load _ (pow_pos _ (pr_pow _ _ P))). split; [|lia]. destruct (pr_pow _ _ P) as (p & Hp & Ep). unfold n. destruct (Z.max_spec (m_iSize t) 8) as [[_ ->]|[_ ->]]; [by exists 4|]. exists (p + 1). split; [lia|]. rewrite Z.pow_add_r by lia. lia. }
  pose proof (max_load_double (Z.max (m_iSize t) 8) ltac:(lia)) as Hd. fold n in Hd. assert (uniq (m_pHash t)) as Hq by (destruct T as [(_ & -> & _)|[P _]]; [by intros i j e e' E|by eapply table_uniq]).
  destruct (move_ok n (m_pHash t) (replicate (Z.to_nat n) (Entry k0 v0 false)) (empty_probing n Pn) Hq) as (h' & Eh & P' & C' & H'); [intros e v _ _; apply empty_holds|rewrite empty_count; lia|]. unfold Grow. fold n. rewrite Eh. cbn [mbind option_bind]. rewrite empty_count in C'. eexists. split; [done|]. split; [|cbn; split; [done|]; split; [lia|lia]].
  split; cbn [m_iSize m_pHash m_iMaxUsed m_iUsed]; [by right|by rewrite C'|lia|]. intros k v. rewrite M, H', <- holds_elem. split; [by right|]. intros [Hh|Hh]; [by apply empty_holds in Hh|done].
Qed.

(** ** Looking a key up *)

Lemma probe_map t m k : refines t m -> m_iSize t ≠ 0 -> ∃ i b, probe GetHash t k = Some (i, b) /\ 0 <= i < m_iSize t /\ (∀ d, 0 <= d < dist (m_iSize t) (home (m_iSize t) k) i -> used (m_pHash t) (plus (m_iSize t) (home (m_iSize t) k) d)) /\
  if (b : bool) then ∃ v, slot (m_pHash t) i = Some (k, v) /\ m !! k = Some v else slot (m_pHash t) i = None /\ m !! k = None.
Proof.
  intros R N. destruct (refines_probing t m R N) as (P & Em & Hc). unfold probe. destruct (probe_ok _ _ k P Hc) as (i & b & E & Hi & Hd & Hb). exists i, b. split; [done|]. split; [done|]. split; [done|]. pose proof (pr_length _ _ P) as Hl. destruct b.
  - destruct Hb as [v Ev]. exists v. split; [done|]. apply (rf_map _ _ R), (holds_slot _ _ _ _ Hl). by exists i.
  - destruct Hb as [E0 Ha]. split; [done|]. destruct (m !! k) as [v|] eqn:Ek; [|done]. apply (rf_map _ _ R), (holds_slot _ _ _ _ Hl) in Ek as (j & Hj & Ej). by apply Ha in Ej.
Qed.

Lemma zero_map t m : refines t m -> m_iSize t = 0 -> ∀ k, m !! k = None.
Proof.
  intros [T _ _ M] E0 k. destruct (m !! k) as [v|] eqn:Ek; [|done]. apply M in Ek. destruct T as [(_ & E & _)|[P _]]; [rewrite E in Ek; by destruct Ek as [i (e & ? & _)%slot_lookup]|]. pose proof (pow_pos _ (pr_pow _ _ P)). lia.
Qed.

Lemma FindEntry_ok t m k : refines t m -> ∃ o, FindEntry GetHash t k = Some o /\ match o with None => m !! k = None | Some i => 0 <= i < m_iSize t /\ m_iSize t ≠ 0 /\ ∃ v, slot (m_pHash t) i = Some (k, v) /\ m !! k = Some v end.
Proof.
  intros R. unfold FindEntry. destruct (Z.eqb_spec (m_iSize t) 0) as [E|N]; [exists None; split; [done|]; by eapply zero_map|]. destruct (probe_map t m k R N) as (i & b & -> & Hi & _ & Hb). cbn [mbind option_bind]. eexists. split; [done|]. destruct b; [done|]. by destruct Hb.
Qed.

Lemma hash_Find_ok t m k : refines t m -> Find GetHash t k = Some (m !! k).
Proof.
  intros R. unfold Find. destruct (FindEntry_ok t m k R) as (o & -> & Ho). cbn [mbind option_bind]. destruct o as [i|]; [|by rewrite Ho]. destruct Ho as (_ & _ & v & (e & -> & _ & _ & <-)%slot_lookup & ->). done.
Qed.

(** ** Adding a key *)

Lemma insert_map (m : gmap K V) k v k' v' : m !! k = None -> (<[k := v]> m) !! k' = Some v' <-> (k' = k /\ v' = v) \/ m !! k' = Some v'.
Proof. intros E. destruct (decide (k = k')) as [<-|N]; [rewrite lookup_insert_eq, E; split; [intros [= ->]; by left|intros [[_ ->]|?]; done]|rewrite lookup_insert_ne by done; split; [by right|intros [[-> _]|?]; done]]. Qed.

Lemma store_ok t m k : refines t m -> m_iSize t ≠ 0 -> m !! k = None -> m_iUsed t < m_iMaxUsed t -> ∃ i t' v, acquire_loop GetHash k0 v0 0 t k = Some (i, t') /\ m_iUsed t' = m_iUsed t + 1 /\ 0 <= i < m_iSize t' /\ m_iSize t' ≠ 0 /\ slot (m_pHash t') i = Some (k, v) /\ refines t' (<[k := v]> m).
Proof.
  intros R N Em Hl. destruct (refines_probing t m R N) as (P & Mx & Hc). destruct (probe_map t m k R N) as (i & b & E & Hi & Hd & Hb). cbn [acquire_loop]. rewrite E. cbn [mbind option_bind]. destruct b; [destruct Hb as (v & _ & Ev); congruence|]. destruct Hb as [E0 _]. destruct (Z.leb_spec (m_iMaxUsed t) (m_iUsed t)); [lia|]. destruct (lookup_place _ _ i (pr_length _ _ P) Hi) as [e Ee]. rewrite Ee. cbn [mbind option_bind]. eexists i, _, (m_Value e). split; [done|]. cbn [m_iUsed m_iSize m_pHash].
  destruct (probing_insert _ _ i k (m_Value e) P Hi E0 Hd) as (P' & C' & H'); [intros v Hv; apply (rf_map _ _ R) in Hv; congruence|]. split; [done|]. split; [done|]. split; [done|]. split; [rewrite (slot_insert (m_iSize t)) by (apply P || lia); by rewrite Z.eqb_refl|].
  split; cbn [m_iSize m_pHash m_iMaxUsed m_iUsed]; [by right|rewrite C', (rf_used _ _ R); lia|lia|]. intros k' v'. rewrite H', insert_map, (rf_map _ _ R) by done. done.
Qed.

(** [AcquireEntry] finds the key or adds it, with the value the entry happens to have. *)
Lemma AcquireEntry_ok t m k : refines t m -> ∃ i t', AcquireEntry GetHash k0 v0 t k = Some (i, t') /\ 0 <= i < m_iSize t' /\ m_iSize t' ≠ 0 /\
  match m !! k with Some v => refines t' m /\ slot (m_pHash t') i = Some (k, v) /\ m_iUsed t' = m_iUsed t | None => ∃ v, slot (m_pHash t') i = Some (k, v) /\ refines t' (<[k := v]> m) /\ m_iUsed t' = m_iUsed t + 1 end.
Proof.
  intros R. unfold AcquireEntry. assert (∃ t0, (if m_iSize t =? 0 then Grow GetHash k0 v0 t else Some t) = Some t0 /\ refines t0 m /\ m_iSize t0 ≠ 0 /\ m_iUsed t0 = m_iUsed t) as (t0 & -> & R0 & N0 & U0).
  { destruct (Z.eqb_spec (m_iSize t) 0); [|by exists t]. destruct (Grow_ok t m R) as (t' & E & R' & U & _ & N'). by exists t'. }
  cbn [mbind option_bind]. rewrite <- U0. clear t R U0. destruct (refines_probing t0 m R0 N0) as (P & Mx & Hc). destruct (probe_map t0 m k R0 N0) as (i & b & E & Hi & Hd & Hb). destruct b.
  - destruct Hb as (v & Es & Ev). exists i, t0. cbn [acquire_loop]. rewrite E. cbn [mbind option_bind]. split; [done|]. split; [done|]. split; [done|]. by rewrite Ev.
  - destruct Hb as [E0 Ev]. rewrite Ev. destruct (Z.leb_spec (m_iMaxUsed t0) (m_iUsed t0)) as [L|L].
    + destruct (Grow_ok t0 m R0) as (t1 & E1 & R1 & U1 & L1 & N1). destruct (store_ok t1 m k R1 N1 Ev L1) as (j & t' & v & Ea & Eu & Hj & N' & Es & R'). exists j, t'. cbn [acquire_loop]. rewrite E. cbn [mbind option_bind]. apply Z.leb_le in L. rewrite L, E1. cbn [mbind option_bind]. split; [exact Ea|]. split; [done|]. split; [done|]. exists v. split; [done|]. split; [done|lia].
    + destruct (store_ok t0 m k R0 N0 Ev L) as (j & t' & v & Ea & Eu & Hj & N' & Es & R'). exists j, t'. cbn [acquire_loop] in Ea |- *. rewrite E in *. cbn [mbind option_bind] in *. destruct (Z.leb_spec (m_iMaxUsed t0) (m_iUsed t0)); [lia|]. split; [exact Ea|]. split; [done|]. split; [done|]. by exists v.
Qed.

Lemma set_value_ok t m i k v v' : refines t m -> m_iSize t ≠ 0 -> 0 <= i < m_iSize t -> slot (m_pHash t) i = Some (k, v) -> ∃ t', set_value i v' t = Some t' /\ refines t' (<[k := v']> m).
Proof.
  intros R N Hi Es. destruct (refines_probing t m R N) as (P & Mx & Hc). pose proof P as [P1 P2 P3 P4]. unfold set_value. pose proof (proj1 (slot_lookup _ _ _ _) Es) as (e & Ee & Ue & Ke & Ve). rewrite Ee. cbn [mbind option_bind]. eexists. split; [done|]. rewrite Ue, Ke. set (h' := <[Z.to_nat i := Entry k v' true]> (m_pHash t)). assert (∀ j, 0 <= j -> slot h' j = if i =? j then Some (k, v') else slot (m_pHash t) j) as Es' by (intros j Hj; unfold h'; by rewrite (slot_insert (m_iSize t)) by done).
  assert (∀ j k1 v1, 0 <= j -> slot h' j = Some (k1, v1) -> ∃ v2, slot (m_pHash t) j = Some (k1, v2)) as Back by (intros j k1 v1 Hj E; rewrite Es' in E by done; destruct (Z.eqb_spec i j) as [<-|]; [injection E as <- <-; by eexists|by eexists]). assert (Z.of_nat (length h') = m_iSize t) as Hl' by (unfold h'; by rewrite length_insert).
  split; cbn [m_iSize m_pHash m_iMaxUsed m_iUsed].
  - right. split; [|done]. split; [done|done| |].
    + intros j k1 v1 Hj Ej d Hd. destruct (Back j k1 v1 ltac:(lia) Ej) as [v2 E2]. destruct (P3 j k1 v2 Hj E2 d Hd) as [x Ex]. unfold used. pose proof (plus_range (m_iSize t) (home (m_iSize t) k1) d (pow_pos _ P1)). rewrite Es' by lia. destruct (i =? _); by eexists.
    + intros a b k1 v1 v2 Ha Hb Ea Eb. destruct (Back a k1 v1 ltac:(lia) Ea) as [x Ex]. destruct (Back b k1 v2 ltac:(lia) Eb) as [y Ey]. by eapply P4.
  - pose proof (count_insert (m_pHash t) (Z.to_nat i) e (Entry k v' true) Ee) as C. rewrite Ue in C. cbn in C. rewrite (rf_used _ _ R). unfold h'. lia.
  - apply R.
  - intros k1 v1. assert (m !! k = Some v) as Ek by (apply (rf_map _ _ R), (holds_slot _ _ _ _ P2); by exists i). rewrite (holds_slot _ _ _ _ Hl'). destruct (decide (k = k1)) as [<-|Nk].
    + rewrite lookup_insert_eq. split; [intros [= <-]; exists i; split; [done|]; rewrite Es' by lia; by rewrite Z.eqb_refl|]. intros (j & Hj & Ej). rewrite Es' in Ej by lia. destruct (Z.eqb_spec i j) as [E1|Nj]; [by injection Ej as <-|]. exfalso. apply Nj. by eapply P4.
    + rewrite lookup_insert_ne, (rf_map _ _ R), (holds_slot _ _ _ _ P2) by done. split; intros (j & Hj & Ej); exists j; (split; [done|]); [rewrite Es' by lia; destruct (Z.eqb_spec i j) as [E1|]; [subst j; congruence|done]|rewrite Es' in Ej by lia; destruct (Z.eqb_spec i j); [congruence|done]].
Qed.

Lemma hash_Add_ok t m k v : refines t m -> ∃ t', Add GetHash k0 v0 t k v = Some (bool_decide (m !! k = None), t') /\ refines t' (match m !! k with Some _ => m | None => <[k := v]> m end).
Proof.
  intros R. unfold Add, Acquire. destruct (AcquireEntry_ok t m k R) as (i & t' & -> & Hi & N & H). cbn [mbind option_bind]. destruct (m !! k) as [x|] eqn:Ek.
  - destruct H as (R' & (e & -> & _)%slot_lookup & Eu). cbn [mbind option_bind]. rewrite Eu, Z.eqb_refl. exists t'. by rewrite bool_decide_eq_false_2.
  - destruct H as (x & Es & R' & Eu). pose proof (proj1 (slot_lookup _ _ _ _) Es) as (e & -> & _). cbn [mbind option_bind]. destruct (Z.eqb_spec (m_iUsed t) (m_iUsed t')); [lia|]. destruct (set_value_ok t' _ i k x v R' N Hi Es) as (t2 & -> & R2). cbn [mbind option_bind]. exists t2. rewrite bool_decide_eq_true_2 by done. split; [done|]. by rewrite insert_insert_eq in R2.
Qed.

Lemma FindOrAdd_ok t m k v : refines t m -> ∃ t', FindOrAdd GetHash k0 v0 t k v = Some (default v (m !! k), t') /\ refines t' (<[k := default v (m !! k)]> m).
Proof.
  intros R. unfold FindOrAdd, Acquire. destruct (AcquireEntry_ok t m k R) as (i & t' & -> & Hi & N & H). cbn [mbind option_bind]. destruct (m !! k) as [x|] eqn:Ek.
  - destruct H as (R' & (e & -> & _ & _ & <-)%slot_lookup & Eu). cbn [mbind option_bind]. rewrite Eu, Z.eqb_refl. exists t'. split; [done|]. cbn [default from_option]. by rewrite insert_id.
  - destruct H as (x & Es & R' & Eu). pose proof (proj1 (slot_lookup _ _ _ _) Es) as (e & -> & _). cbn [mbind option_bind]. destruct (Z.eqb_spec (m_iUsed t) (m_iUsed t')); [lia|]. destruct (set_value_ok t' _ i k x v R' N Hi Es) as (t2 & -> & R2). cbn [mbind option_bind]. exists t2. split; [done|]. by rewrite insert_insert_eq in R2.
Qed.

(** ** Deleting a key *)

(** The test of the loop: the probing of the entry passes the hole. *)
Lemma passes_hole n iIndex iNext iDesired : 0 <= iIndex < n -> 0 <= iNext < n -> 0 <= iDesired < n -> iIndex ≠ iNext ->
  (((iIndex <? iNext) && ((iDesired <=? iIndex) || (iNext <? iDesired))) || ((iNext <? iIndex) && ((iDesired <=? iIndex) && (iNext <? iDesired)))) = (dist n iIndex iNext <=? dist n iDesired iNext).
Proof.
  intros H1 H2 H3 N. rewrite !dist_cases by lia. apply eq_true_iff_eq. rewrite Z.leb_le, orb_true_iff, !andb_true_iff, orb_true_iff, !Z.ltb_lt, !Z.leb_le. destruct (Z.leb_spec iIndex iNext), (Z.leb_spec iDesired iNext); lia.
Qed.

(** A place on the arc from [x] to [i] is on the longer one from [y] to [i]. *)
Lemma on_arc n x y i z : 0 <= x < n -> 0 <= y < n -> 0 <= i < n -> 0 <= z < n -> dist n x i <= dist n y i -> dist n x z < dist n x i ->
  ∃ d, 0 <= d < dist n y i /\ plus n y d = z.
Proof.
  intros Hx Hy Hi Hz Hle Hlt. pose proof (dist_range n x z ltac:(lia)). pose proof (dist_range n y i ltac:(lia)). exists (dist n y i - dist n x i + dist n x z). split; [lia|]. assert (0 <= dist n y i - dist n x i + dist n x z < n) as Hd by lia. rewrite plus_cases by lia. revert Hle Hlt Hd. rewrite !dist_cases by lia. destruct (Z.leb_spec x z), (Z.leb_spec x i), (Z.leb_spec y i); intros; match goal with |- context [?a <? ?b] => destruct (Z.ltb_spec a b) end; lia.
Qed.

Section Delete.
Context (n i0 U : Z) (h0 : list entry) (Pn : is_pow n) (Hi0 : 0 <= i0 < n) (HU : 0 < U < n).
Abbreviation at_ o := (plus n i0 o).

Record shifting (h : list entry) (a b : Z) : Prop := {
  sh_length : Z.of_nat (length h) = n;
  sh_order : 0 <= a <= b /\ b < U;
  sh_used : ∀ o, 0 <= o < U -> used h (at_ o);
  sh_free : slot h (at_ U) = None;
  sh_path : ∀ i k v, 0 <= i < n -> i ≠ at_ a -> slot h i = Some (k, v) -> ∀ d, 0 <= d < dist n (home n k) i -> used h (plus n (home n k) d);
  sh_hole : ∀ i k v, 0 <= i < n -> i ≠ at_ a -> slot h i = Some (k, v) -> dist n (at_ a) i <= dist n (home n k) i -> b < dist n i0 i;
  sh_unique : ∀ i j k v v', 0 <= i < n -> 0 <= j < n -> i ≠ at_ a -> j ≠ at_ a -> slot h i = Some (k, v) -> slot h j = Some (k, v') -> i = j;
  sh_same : ∀ k v, (∃ i, 0 <= i < n /\ i ≠ at_ a /\ slot h i = Some (k, v)) <-> (∃ i, 0 <= i < n /\ i ≠ i0 /\ slot h0 i = Some (k, v));
  sh_count : count h = count h0
}.

Lemma at_inj o o' : 0 <= o < n -> 0 <= o' < n -> at_ o = at_ o' -> o = o'.
Proof. intros H H' E. apply (f_equal (dist n i0)) in E. by rewrite !dist_plus in E by lia. Qed.

(** An entry whose probing passes a place before the free one lies between them. *)
Lemma between h a b a' i k v : shifting h a b -> 0 <= a' < U -> 0 <= i < n -> i ≠ at_ a -> i ≠ at_ a' -> slot h i = Some (k, v) -> dist n (at_ a') i <= dist n (home n k) i -> a' < dist n i0 i < U.
Proof.
  intros S Ha' Hi Na Na' Es Hle. pose proof (home_range n k Pn) as Hh. pose proof (plus_range n i0 a' ltac:(lia)) as Hra. pose proof (plus_range n i0 U ltac:(lia)) as HrU. set (o := dist n i0 i). pose proof (dist_range n i0 i ltac:(lia)) as Ho. fold o in Ho. assert (i = at_ o) as Ei by (unfold o; by rewrite plus_dist).
  assert (¬ dist n (at_ a') (at_ U) < dist n (at_ a') i) as HnU. { intros Hlt. destruct (on_arc n (at_ a') (home n k) i (at_ U) Hra Hh Hi HrU Hle Hlt) as (d & Hd & Ed). destruct (sh_path _ _ _ S i k v Hi Na Es d Hd) as [x Ex]. rewrite Ed, (sh_free _ _ _ S) in Ex. done. }
  assert (o ≠ U) as NU by (intros E; rewrite Ei, E, (sh_free _ _ _ S) in Es; done). assert (o ≠ a') as Noa by (intros E; by rewrite Ei, E in Na'). rewrite Ei in HnU. revert HnU. rewrite !plus_cases by lia. repeat (match goal with |- context [?x <? ?y] => destruct (Z.ltb_spec x y) end); rewrite !dist_cases by lia; repeat (match goal with |- context [?x <=? ?y] => destruct (Z.leb_spec x y) end); lia.
Qed.

Lemma shift_keep h a b k v : shifting h a b -> b + 1 < U -> slot h (at_ (b + 1)) = Some (k, v) -> ¬ dist n (at_ a) (at_ (b + 1)) <= dist n (home n k) (at_ (b + 1)) -> shifting h a (b + 1).
Proof.
  intros S Hb Es Hn. pose proof S as [S1 S2 S3 S4 S5 S6 S7 S8 S9]. split; try done; [lia|]. intros i k' v' Hi Na Ei Hle. pose proof (S6 i k' v' Hi Na Ei Hle) as Hlt. destruct (Z.eq_dec (dist n i0 i) (b + 1)) as [E|]; [|lia]. exfalso. assert (i = at_ (b + 1)) as -> by (rewrite <- E; by rewrite plus_dist). rewrite Es in Ei. injection Ei as <- <-. done.
Qed.

Lemma shift_move h a b k v e : shifting h a b -> b + 1 < U -> h !! Z.to_nat (at_ (b + 1)) = Some e -> slot h (at_ (b + 1)) = Some (k, v) -> dist n (at_ a) (at_ (b + 1)) <= dist n (home n k) (at_ (b + 1)) -> shifting (<[Z.to_nat (at_ a) := e]> h) (b + 1) (b + 1).
Proof.
  intros S Hb Ee Es Hle. pose proof S as [S1 S2 S3 S4 S5 S6 S7 S8 S9]. pose proof (plus_range n i0 a ltac:(lia)) as Ra. pose proof (plus_range n i0 (b + 1) ltac:(lia)) as Rb. pose proof (plus_range n i0 U ltac:(lia)) as RU. pose proof (proj1 (slot_lookup _ _ _ _) Es) as (e' & Ee' & Ue & Ke & Ve). rewrite Ee in Ee'. injection Ee' as <-.
  assert (at_ a ≠ at_ (b + 1)) as Nab by (intros E; apply at_inj in E; lia). assert (at_ a ≠ at_ U) as NaU by (intros E; apply at_inj in E; lia). set (h' := <[Z.to_nat (at_ a) := e]> h). assert (∀ j, 0 <= j -> slot h' j = if at_ a =? j then Some (k, v) else slot h j) as E'. { intros j Hj. unfold h'. destruct e as [ke ve be]. cbn in Ue, Ke, Ve. subst be ke ve. by rewrite (slot_insert n) by done. }
  assert (∀ j, 0 <= j -> used h j -> used h' j) as Mono by (intros j Hj [x Ex]; unfold used; rewrite E' by done; destruct (at_ a =? j); by eexists).
  (* what is at a place other than the new hole was in the old table *)
  assert (∀ i k' v', 0 <= i < n -> i ≠ at_ (b + 1) -> slot h' i = Some (k', v') -> (i = at_ a /\ k' = k /\ v' = v) \/ (i ≠ at_ a /\ slot h i = Some (k', v'))) as Back. { intros i k' v' Hi Ni Ei. rewrite E' in Ei by lia. destruct (Z.eqb_spec (at_ a) i) as [<-|N]; [left; by injection Ei as <- <-|right; split; [congruence|done]]. }
  split.
  - unfold h'. by rewrite length_insert.
  - lia.
  - intros o Ho. apply Mono; [pose proof (plus_range n i0 o); lia|by apply S3].
  - rewrite E' by lia. by destruct (Z.eqb_spec (at_ a) (at_ U)).
  - intros i k' v' Hi Ni Ei d Hd. pose proof (home_range n k' Pn) as Hh. apply Mono; [pose proof (plus_range n (home n k') d); lia|]. destruct (Back i k' v' Hi Ni Ei) as [(-> & -> & ->)|[Na Eo]]; [|exact (S5 i k' v' Hi Na Eo d Hd)]. apply (S5 (at_ (b + 1)) k v); [done|congruence|done|]. assert (dist n (home n k) (at_ a) <= dist n (home n k) (at_ (b + 1))); [|lia]. revert Hle. rewrite !dist_cases by lia. repeat (match goal with |- context [?x <=? ?y] => destruct (Z.leb_spec x y) end); lia.
  - intros i k' v' Hi Ni Ei Hle'. destruct (Back i k' v' Hi Ni Ei) as [(-> & -> & ->)|[Na Eo]].
    + exfalso. assert (dist n (at_ a) (at_ (b + 1)) = b + 1 - a) as D1 by (rewrite !plus_cases by lia; repeat (match goal with |- context [?x <? ?y] => destruct (Z.ltb_spec x y) end); rewrite dist_cases by lia; match goal with |- context [?x <=? ?y] => destruct (Z.leb_spec x y) end; lia).
      (* the free place would be on the way *)
      pose proof (home_range n k Pn) as Hh. assert (dist n (at_ (b + 1)) (at_ U) < dist n (at_ (b + 1)) (at_ a)) as Hlt by (rewrite !plus_cases by lia; repeat (match goal with |- context [?x <? ?y] => destruct (Z.ltb_spec x y) end); rewrite !dist_cases by lia; repeat (match goal with |- context [?x <=? ?y] => destruct (Z.leb_spec x y) end); lia).
      destruct (on_arc n (at_ (b + 1)) (home n k) (at_ a) (at_ U) Rb Hh Ra RU Hle' Hlt) as (d & Hd & Ed). assert (dist n (home n k) (at_ a) <= dist n (home n k) (at_ (b + 1))) as Hdd by (revert Hle; rewrite !dist_cases by lia; repeat (match goal with |- context [?x <=? ?y] => destruct (Z.leb_spec x y) end); lia). destruct (S5 (at_ (b + 1)) k v Rb ltac:(congruence) Es d ltac:(lia)) as [x Ex]. rewrite Ed, S4 in Ex. done.
    + apply (between h a b (b + 1) i k' v' S); (done || lia).
  - intros i j k' v1 v2 Hi Hj Ni Nj Ei Ej. destruct (Back i k' v1 Hi Ni Ei) as [(-> & -> & ->)|[Na Eo]], (Back j _ v2 Hj Nj Ej) as [(-> & E1 & E2)|[Nb Eo']]; [done| |subst|by eapply S7].
    + exfalso. apply Nj. apply (S7 j (at_ (b + 1)) k v2 v); (done || congruence).
    + exfalso. apply Ni. apply (S7 i (at_ (b + 1)) (m_Key e) v1 (m_Value e)); (done || congruence).
  - intros k' v'. rewrite <- S8. split.
    + intros (i & Hi & Ni & Ei). destruct (Back i k' v' Hi Ni Ei) as [(-> & -> & ->)|[Na Eo]]; [exists (at_ (b + 1)); split; [done|]; split; [congruence|done]|by exists i].
    + intros (i & Hi & Ni & Ei). destruct (Z.eq_dec i (at_ (b + 1))) as [->|Nb]; [exists (at_ a); split; [done|]; split; [done|]; rewrite E' by lia; rewrite Z.eqb_refl; congruence|]. exists i. split; [done|]. split; [done|]. rewrite E' by lia. by destruct (Z.eqb_spec (at_ a) i).
  - rewrite <- S9. destruct (lookup_place n h (at_ a) S1 Ra) as [ea Eea]. pose proof (count_insert h (Z.to_nat (at_ a)) ea e Eea) as C. rewrite Ue in C. destruct (S3 a ltac:(lia)) as [x Ex]. unfold slot in Ex. rewrite Eea in Ex. cbn in Ex. destruct (m_bUsed ea); [|done]. unfold h'. lia.
Qed.

Lemma hash_delete_loop_ok fuel : ∀ h a b, shifting h a b -> U - b < Z.of_nat fuel -> ∃ h' a', delete_loop GetHash fuel h n (at_ a) (at_ b) = Some (h', at_ a') /\ shifting h' a' (U - 1).
Proof.
  induction fuel as [|fuel IH]; intros h a b S Hf; [pose proof (sh_order _ _ _ S); lia|]. pose proof (sh_order _ _ _ S) as So. cbn [delete_loop]. rewrite next_plus, plus_succ by (done || lia). pose proof (plus_range n i0 (b + 1) ltac:(lia)) as Rb. pose proof (plus_range n i0 a ltac:(lia)) as Ra. destruct (lookup_place n h _ (sh_length _ _ _ S) Rb) as [e Ee]. rewrite Ee. cbn [mbind option_bind]. destruct (Z.eq_dec (b + 1) U) as [EU|NU].
  - pose proof (sh_free _ _ _ S) as Sf. rewrite <- EU in Sf. unfold slot in Sf. rewrite Ee in Sf. cbn in Sf. destruct (m_bUsed e); [done|]. cbn [negb]. exists h, a. split; [done|]. by replace (U - 1) with b by lia.
  - destruct (sh_used _ _ _ S (b + 1) ltac:(lia)) as [[k v] Es]. pose proof (proj1 (slot_lookup _ _ _ _) Es) as (e' & Ee' & Ue & Ke & Ve). rewrite Ee in Ee'. injection Ee' as <-. rewrite Ue. cbn [negb]. rewrite Ke. pose proof (home_range n k Pn) as Hh. rewrite (passes_hole n) by (try done; intros E; apply at_inj in E; lia). destruct (Z.leb_spec (dist n (at_ a) (at_ (b + 1))) (dist n (home n k) (at_ (b + 1)))) as [L|L].
    + apply IH; [apply (shift_move h a b k v e S); (done || lia)|lia].
    + apply IH; [eapply shift_keep; [done|lia|exact Es|lia]|lia].
Qed.

Lemma rest_of_path x i d : 0 <= x < n -> 0 <= i < n -> 0 <= d < dist n x i -> dist n (plus n x d) i <= dist n x i.
Proof. intros Hx Hi. rewrite (dist_cases n x i) by lia. intros Hd. assert (0 <= d <= n) as Hd' by (destruct (Z.leb_spec x i); lia). pose proof (plus_range n x d ltac:(lia)). rewrite dist_cases by lia. rewrite plus_cases by lia. destruct (Z.leb_spec x i), (Z.ltb_spec (x + d) n); match goal with |- context [?p <=? ?q] => destruct (Z.leb_spec p q) end; lia. Qed.

(** The hole is marked as free at the end. *)
Lemma free_hole h a e : shifting h a (U - 1) -> h !! Z.to_nat (at_ a) = Some e ->
  let h' := <[Z.to_nat (at_ a) := Entry (m_Key e) (m_Value e) false]> h in
  probing n h' /\ S (count h') = count h0 /\ ∀ k v, holds h' k v <-> ∃ i, 0 <= i < n /\ i ≠ i0 /\ slot h0 i = Some (k, v).
Proof.
  intros S Ee. cbv zeta. pose proof S as [S1 S2 S3 S4 S5 S6 S7 S8 S9]. pose proof (plus_range n i0 a ltac:(lia)) as Ra. set (h' := <[Z.to_nat (at_ a) := Entry (m_Key e) (m_Value e) false]> h). assert (∀ j, 0 <= j -> slot h' j = if at_ a =? j then None else slot h j) as E' by (intros j Hj; unfold h'; by rewrite (slot_insert n) by done).
  assert (Z.of_nat (length h') = n) as Hl' by (unfold h'; by rewrite length_insert). assert (∀ i k v, 0 <= i < n -> slot h' i = Some (k, v) -> i ≠ at_ a /\ slot h i = Some (k, v)) as Back by (intros i k v Hi Ei; rewrite E' in Ei by lia; destruct (Z.eqb_spec (at_ a) i); [done|split; [congruence|done]]). split; [|split].
  - split; [done|done| |].
    + intros i k v Hi Ei d Hd. destruct (Back i k v Hi Ei) as [Na Eo]. pose proof (home_range n k Pn) as Hh. pose proof (plus_range n (home n k) d ltac:(lia)) as Rd. unfold used. rewrite E' by lia. destruct (Z.eqb_spec (at_ a) (plus n (home n k) d)) as [Ex|]; [|exact (S5 i k v Hi Na Eo d Hd)]. exfalso. pose proof (rest_of_path (home n k) i d Hh Hi Hd) as Hle. rewrite <- Ex in Hle. pose proof (S6 i k v Hi Na Eo Hle) as H6. pose proof (between h a (U - 1) a i k v S ltac:(lia) Hi Na Na Eo Hle). lia.
    + intros i j k v v' Hi Hj Ei Ej. destruct (Back i k v Hi Ei) as [Na Eo]. destruct (Back j k v' Hj Ej) as [Nb Eo']. by eapply S7.
  - pose proof (count_insert h (Z.to_nat (at_ a)) e (Entry (m_Key e) (m_Value e) false) Ee) as C. destruct (S3 a ltac:(lia)) as [x Ex]. unfold slot in Ex. rewrite Ee in Ex. cbn in Ex. destruct (m_bUsed e); [|done]. cbn [m_bUsed] in C. unfold h'. lia.
  - intros k v. rewrite (holds_slot n), <- S8 by done. split; intros (i & Hi & H).
    + destruct (Back i k v Hi H) as [Na Eo]. by exists i.
    + destruct H as [Na Eo]. exists i. split; [done|]. rewrite E' by lia. by destruct (Z.eqb_spec (at_ a) i).
Qed.
End Delete.

Lemma first_free n i0 (h : list entry) : ∀ N, (∀ o, 0 <= o < Z.of_nat N -> used h (plus n i0 o)) \/ ∃ U, 0 <= U < Z.of_nat N /\ slot h (plus n i0 U) = None /\ ∀ o, 0 <= o < U -> used h (plus n i0 o).
Proof.
  induction N as [|N [IH|(U & HU & EU & Hu)]]; [left; intros o ?; lia| |right; exists U; split; [lia|done]]. destruct (slot h (plus n i0 (Z.of_nat N))) as [x|] eqn:E.
  - left. intros o Ho. destruct (Z.eq_dec o (Z.of_nat N)) as [->|]; [by eexists|apply IH; lia].
  - right. exists (Z.of_nat N). split; [lia|done].
Qed.

Lemma DeleteEntry_ok t m i k v : refines t m -> m_iSize t ≠ 0 -> 0 <= i < m_iSize t -> slot (m_pHash t) i = Some (k, v) -> ∃ t', DeleteEntry GetHash t i = Some t' /\ refines t' (delete k m).
Proof.
  intros R N Hi Es. destruct (refines_probing t m R N) as (P & Mx & Hc). pose proof P as [P1 P2 P3 P4]. set (n := m_iSize t) in *. set (h := m_pHash t) in *. pose proof (pow_pos n P1) as Hn. assert (plus n i 0 = i) as Ez by (rewrite plus_cases by lia; destruct (Z.ltb_spec (i + 0) n); lia).
  destruct (first_free n i h (Z.to_nat n)) as [Hall|(U & HU & EU & Hu)].
  { destruct (free_place n h P2 Hc) as (u & Hru & Eu). destruct (Hall (dist n i u)) as [x Ex]; [pose proof (dist_range n i u Hn); lia|]. rewrite plus_dist in Ex by done. congruence. }
  assert (0 < U < n) as HU' by (split; [destruct (Z.eq_dec U 0) as [->|]; [rewrite Ez in EU; congruence|lia]|lia]).
  assert (shifting n i U h h 0 0) as S.
  { split; rewrite ?Ez; try done; [lia| | |].
    - intros j k' v' Hj Nj Ej d Hd. by apply (P3 j k' v').
    - intros j k' v' Hj Nj Ej _. pose proof (dist_range n i j Hn). assert (dist n i j ≠ 0); [|lia]. intros E. apply Nj. rewrite <- (plus_dist n i j) by done. by rewrite E.
    - intros j j' k' v' v'' Hj Hj' _ _ Ej Ej'. by eapply P4. }
  unfold DeleteEntry. fold h n. destruct (hash_delete_loop_ok n i U h P1 Hi HU' (Datatypes.S (length h)) h 0 0 S) as (h' & a & E & S'); [lia|]. rewrite Ez in E. rewrite E. cbn [mbind option_bind]. destruct (lookup_place n h' (plus n i a) (sh_length _ _ _ _ _ _ _ S') (plus_range n i a Hn)) as [e Ee]. rewrite Ee. cbn [mbind option_bind]. destruct (free_hole n i U h P1 Hi HU' h' a e S' Ee) as (P' & C' & H'). eexists. split; [done|].
  split; cbn [m_iSize m_pHash m_iMaxUsed m_iUsed]; [right; split; [done|exact Mx]|rewrite (rf_used _ _ R); fold h; lia|pose proof (rf_load _ _ R); lia|]. intros k' v'. rewrite H'. destruct (decide (k = k')) as [<-|Nk].
  - rewrite lookup_delete_eq. split; [done|]. intros (j & Hj & Nj & Ej). exfalso. apply Nj. by eapply P4.
  - rewrite lookup_delete_ne, (rf_map _ _ R), (holds_slot n) by done. split; intros (j & Hj & H); exists j; (split; [done|]); [split; [|done]; intros E'; subst j; apply Nk; change (slot h i = Some (k', v')) in H; rewrite Es in H; by injection H|by destruct H].
Qed.

Lemma Delete_ok t m k : refines t m -> ∃ t', Delete GetHash t k = Some (bool_decide (is_Some (m !! k)), t') /\ refines t' (delete k m).
Proof.
  intros R. unfold Delete. destruct (FindEntry_ok t m k R) as (o & -> & Ho). cbn [mbind option_bind]. destruct o as [i|].
  - destruct Ho as (Hi & N & v & Es & Ek). destruct (DeleteEntry_ok t m i k v R N Hi Es) as (t' & -> & R'). cbn [mbind option_bind]. exists t'. rewrite Ek. done.
  - exists t. rewrite Ho. split; [done|]. by rewrite delete_id.
Qed.

Lemma FindAndDelete_ok t m k v : refines t m -> m !! k = Some v -> ∃ t', FindAndDelete GetHash t k = Some (v, t') /\ refines t' (delete k m).
Proof.
  intros R Ek. unfold FindAndDelete. destruct (FindEntry_ok t m k R) as (o & -> & Ho). cbn [mbind option_bind]. destruct o as [i|]; [|congruence]. destruct Ho as (Hi & N & v' & Es & Ek'). rewrite Ek in Ek'. injection Ek' as <-. cbn [mbind option_bind]. pose proof (proj1 (slot_lookup _ _ _ _) Es) as (e & -> & _ & _ & <-). cbn [mbind option_bind]. destruct (DeleteEntry_ok t m i k _ R N Hi Es) as (t' & -> & R'). cbn [mbind option_bind]. by exists t'.
Qed.

(** ** Sequences of operations *)

Inductive op := OpAdd (k : K) (v : V) | OpFindOrAdd (k : K) (v : V) | OpFind (k : K) | OpDelete (k : K) | OpClear.

(** What an operation answers. *)
Definition answer : Type := bool + option V.

Definition run_op (t : table) (o : op) : option (answer * table) :=
  match o with
  | OpAdd k v => '(b, t) ← Add GetHash k0 v0 t k v; Some (inl b, t)
  | OpFindOrAdd k v => '(x, t) ← FindOrAdd GetHash k0 v0 t k v; Some (inr (Some x), t)
  | OpFind k => r ← Find GetHash t k; Some (inr r, t)
  | OpDelete k => '(b, t) ← Delete GetHash t k; Some (inl b, t)
  | OpClear => Some (inl true, Clear k0 v0 t)
  end.

Fixpoint run (t : table) (l : list op) : option (list answer * table) :=
  match l with [] => Some ([], t) | o :: l' => '(a, t) ← run_op t o; '(r, t) ← run t l'; Some (a :: r, t) end.

(** The same operation on a finite map. *)
Definition spec_op (m : gmap K V) (o : op) : answer * gmap K V :=
  match o with
  | OpAdd k v => match m !! k with Some _ => (inl false, m) | None => (inl true, <[k := v]> m) end
  | OpFindOrAdd k v => (inr (Some (default v (m !! k))), <[k := default v (m !! k)]> m)
  | OpFind k => (inr (m !! k), m)
  | OpDelete k => (inl (bool_decide (is_Some (m !! k))), delete k m)
  | OpClear => (inl true, ∅)
  end.

Fixpoint spec_run (m : gmap K V) (l : list op) : list answer * gmap K V :=
  match l with [] => ([], m) | o :: l' => let '(a, m) := spec_op m o in let '(r, m) := spec_run m l' in (a :: r, m) end.

Lemma run_op_ok t m o : refines t m -> ∃ t', run_op t o = Some ((spec_op m o).1, t') /\ refines t' (spec_op m o).2.
Proof.
  intros R. destruct o as [k v|k v|k|k|]; cbn [run_op spec_op fst snd].
  - destruct (hash_Add_ok t m k v R) as (t' & -> & R'). cbn [mbind option_bind]. exists t'. by destruct (m !! k).
  - destruct (FindOrAdd_ok t m k v R) as (t' & -> & R'). by exists t'.
  - rewrite (hash_Find_ok t m k R). by exists t.
  - destruct (Delete_ok t m k R) as (t' & -> & R'). by exists t'.
  - eexists. split; [done|]. by apply (hash_Clear_ok t m).
Qed.

Lemma hash_run_ok l : ∀ t m, refines t m -> ∃ t', run t l = Some ((spec_run m l).1, t') /\ refines t' (spec_run m l).2.
Proof.
  induction l as [|o l IH]; intros t m R; [by exists t|]. cbn [run spec_run]. destruct (run_op_ok t m o R) as (t1 & -> & R1). cbn [mbind option_bind]. destruct (spec_op m o) as [a m1]. destruct (IH t1 m1 R1) as (t2 & E2 & R2). cbn [fst]. rewrite E2. cbn [mbind option_bind]. exists t2. by destruct (spec_run m1 l).
Qed.

(** [C20] Every sequence of additions, lookups, deletions and clearings on a table of any
    initial size, whatever the hash function: no loop of probing, growing or moving
    entries back runs forever, and the answers are those of a finite map. At the end the
    count of used entries is the size of the map and is below the size of the table, so
    that the next probing meets a free place. *)
Theorem openhash_refines iSize l : ∃ t, run (Reset k0 v0 iSize) l = Some ((spec_run ∅ l).1, t) /\ m_iUsed t = Z.of_nat (count (m_pHash t)) /\ (m_iSize t ≠ 0 -> m_iUsed t < m_iSize t) /\ ∀ k, Find GetHash t k = Some ((spec_run ∅ l).2 !! k).
Proof.
  destruct (hash_run_ok l (Reset k0 v0 iSize) ∅ (hash_Reset_ok iSize)) as (t & E & R). exists t. split; [done|]. split; [apply (rf_used _ _ R)|]. split; [|intros k; by apply hash_Find_ok]. intros N. destruct (refines_probing t _ R N) as (_ & _ & Hc). by rewrite (rf_used _ _ R).
Qed.
End Hash.

(** [Acquire] of a key that the table does not have need not return a new default
    value: it returns the value of the entry that was deleted at the place. *)
Theorem acquire_stale_value : ∃ t t' i t'', Add GetHash_Int64 0 0 (Reset 0 0 16) 7 70 = Some (true, t) /\ Delete GetHash_Int64 t 7 = Some (true, t') /\ Find GetHash_Int64 t' 7 = Some None /\ Acquire GetHash_Int64 0 0 t' 7 = Some (70, i, t'').
Proof. do 4 eexists. repeat split; vm_compute; reflexivity. Qed.
End OpenHashOk.
