(* ===== verification/RtAccum.v ===== *)
(** * The accumulator of a transaction (src/src/accumulator.cpp, sphinxrt.cpp)

    [RtAccum_t] collects the documents and deletions of a transaction; before a
    commit [PreCommitAcc] drops the documents whose id is given more than once, sorts
    the hits and drops repeated ones. Rows are complete here: blob, columnar and
    stored attributes and the counted field lengths have no part in it. *)

From S2P Require Import Prelude Hits Sort SearchNode RtSegment.
Import Hitman Sort RtSegment.

Module RtAccum.

Abbreviation INVALID_ROWID := SearchNode.INVALID_ROWID.

Record RtAccum_t := RtAccum {
  ra_dAccum : list CSphWordHit;
  ra_dAccumRows : list Z;
  ra_uAccumDocs : Z;
  ra_dPerDocHitsCount : list Z;
  ra_dAccumKlist : list Z;
  ra_bReplace : bool;
  ra_bPreparedForCommit : bool;
  ra_tNextRowID : Z;
  ra_iAccumBytes : Z
}.

Definition new_accum : RtAccum_t := RtAccum [] [] 0 [] [] false false 0 0.

(** ** Adding documents *)

Definition same_hit (a b : CSphWordHit) : bool := (wh_tRowID a =? wh_tRowID b) && (wh_uWordID a =? wh_uWordID b) && (wh_uWordPos a =? wh_uWordPos b).

(** [ResetTailHit] of a hit and the one behind it. *)
Definition ResetTailHit (pHit pNext : CSphWordHit) : CSphWordHit :=
  if negb (wh_tRowID pHit =? wh_tRowID pNext) || negb (wh_uWordID pHit =? wh_uWordID pNext) then pHit
  else if (GetField (wh_uWordPos pHit) =? GetField (wh_uWordPos pNext)) && IsEnd (wh_uWordPos pNext) then WordHit (wh_tRowID pHit) (wh_uWordID pHit) (GetPosWithField (wh_uWordPos pHit))
  else pHit.

(** The loop over the hits of a document, after the hit [tLastHit]. *)
Fixpoint accumulate (tLastHit : CSphWordHit) (l : list CSphWordHit) : list CSphWordHit :=
  match l with
  | [] => []
  | pHit :: l' =>
      if same_hit pHit tLastHit then accumulate tLastHit l'
      else match l' with pNext :: _ => if IsEnd (wh_uWordPos pHit) then ResetTailHit pHit pNext else pHit | [] => pHit end :: accumulate pHit l'
  end.

(** [RtAccum_t::AddDocument] *)
Definition AddDocument (pHits : list CSphWordHit) (tDocID : Z) (pRow : list Z) (bReplace : bool) (iTotalBytes : Z) (a : RtAccum_t) : RtAccum_t :=
  let dHits := accumulate (WordHit INVALID_ROWID 0 0) pHits in
  RtAccum (ra_dAccum a ++ dHits) (ra_dAccumRows a ++ pRow) (cast DWORD (ra_uAccumDocs a + 1)) (ra_dPerDocHitsCount a ++ [Z.of_nat (length dHits)])
    (ra_dAccumKlist a ++ [tDocID]) bReplace false (ra_tNextRowID a) (ra_iAccumBytes a + iTotalBytes).

Definition GenerateRowID (a : RtAccum_t) : Z * RtAccum_t :=
  (ra_tNextRowID a, RtAccum (ra_dAccum a) (ra_dAccumRows a) (ra_uAccumDocs a) (ra_dPerDocHitsCount a) (ra_dAccumKlist a) (ra_bReplace a) (ra_bPreparedForCommit a) (cast DWORD (ra_tNextRowID a + 1)) (ra_iAccumBytes a)).

(** [sphGetDocID]: the first two items of a row. *)
Definition sphGetDocID (pData : list Z) : option Z :=
  match pData with uLo :: uHi :: _ => Some (cast int64_t (uLo + Z.shiftl uHi 32)) | _ => None end.

(** [RtIndex_c::AddDocument] from the new row id on, given the words and positions
    that the source yields for the document; they get its row. *)
Definition RtAddDocument (dHits : list (Z * Z)) (pRow : list Z) (bReplace : bool) (iTotalBytes : Z) (a : RtAccum_t) : option RtAccum_t :=
  tDocID ← sphGetDocID pRow;
  let '(tRowID, a) := GenerateRowID a in
  Some (AddDocument (map (λ '(u, p), WordHit tRowID u p) dHits) tDocID pRow bReplace iTotalBytes a).

Definition DeleteDocument (dDocs : list Z) (a : RtAccum_t) : RtAccum_t :=
  RtAccum (ra_dAccum a) (ra_dAccumRows a) (ra_uAccumDocs a) (ra_dPerDocHitsCount a) (ra_dAccumKlist a ++ dDocs) (ra_bReplace a) false (ra_tNextRowID a) (ra_iAccumBytes a).

(** ** Documents given more than once *)

Record AccumDocHits_t := AccumDocHits { ad_tDocID : Z; ad_iDocIndex : nat }.

(** The row with a number. *)
Definition row_at (iRowSize : nat) (dRows : list Z) (i : nat) : list Z := take iRowSize (drop (i * iRowSize) dRows).

Definition doc_ids (iRowSize : nat) (a : RtAccum_t) : option (list AccumDocHits_t) :=
  mapM (λ i, tDocID ← sphGetDocID (row_at iRowSize (ra_dAccumRows a) i); Some (AccumDocHits tDocID i)) (seq 0 (Z.to_nat (ra_uAccumDocs a))).

Definition doc_less (a b : AccumDocHits_t) : bool := (ad_tDocID a <? ad_tDocID b) || ((ad_tDocID a =? ad_tDocID b) && (ad_iDocIndex a <? ad_iDocIndex b)%nat).

(** Whether an id is the one before it. *)
Fixpoint any_repeated (uPrev : Z) (l : list AccumDocHits_t) : bool :=
  match l with [] => false | d :: l' => (ad_tDocID d =? uPrev) || any_repeated (ad_tDocID d) l' end.

Fixpoint mark_preceding (l : list AccumDocHits_t) (dRowMap : list Z) : list Z :=
  match l with
  | d :: (d' :: _) as l' => mark_preceding l' (if ad_tDocID d =? ad_tDocID d' then <[ad_iDocIndex d := INVALID_ROWID]> dRowMap else dRowMap)
  | _ => dRowMap
  end.

Fixpoint mark_subsequent (l : list AccumDocHits_t) (dRowMap : list Z) : list Z :=
  match l with
  | d :: (d' :: _) as l' => mark_subsequent l' (if ad_tDocID d' =? ad_tDocID d then <[ad_iDocIndex d' := INVALID_ROWID]> dRowMap else dRowMap)
  | _ => dRowMap
  end.

(** The rows that are left get new numbers. *)
Fixpoint number_rows (tNextRowID : Z) (l : list Z) : list Z :=
  match l with
  | [] => []
  | i :: l' => if i =? INVALID_ROWID then i :: number_rows tNextRowID l' else tNextRowID :: number_rows (cast DWORD (tNextRowID + 1)) l'
  end.

(** The hits of the rows that are left, moved to the front of the array. *)
Fixpoint compact_hits (n : nat) (dRowMap : list Z) (i iDstRow : nat) (dAccum : list CSphWordHit) : option (list CSphWordHit) :=
  match n with
  | O => Some (take iDstRow dAccum)
  | S n' =>
      dSrcHit ← dAccum !! i;
      tSrcRowID ← dRowMap !! Z.to_nat (wh_tRowID dSrcHit);
      if tSrcRowID =? INVALID_ROWID then compact_hits n' dRowMap (S i) iDstRow dAccum
      else compact_hits n' dRowMap (S i) (S iDstRow) (<[iDstRow := WordHit tSrcRowID (wh_uWordID dSrcHit) (wh_uWordPos dSrcHit)]> dAccum)
  end.

(** [memcpy] of a row. *)
Definition copy_row (iRowSize iDst iSrc : nat) (dRows : list Z) : list Z :=
  take (iDst * iRowSize) dRows ++ row_at iRowSize dRows iSrc ++ drop ((iDst + 1) * iRowSize) dRows.

(** The rows that are left and their counts of hits, moved to the front. *)
Fixpoint compact_rows (l : list Z) (iRowSize i iDstRow : nat) (dRows dCounts : list Z) : option (list Z * list Z * nat) :=
  match l with
  | [] => Some (take (iDstRow * iRowSize) dRows, take iDstRow dCounts, iDstRow)
  | r :: l' =>
      if r =? INVALID_ROWID then compact_rows l' iRowSize (S i) iDstRow dRows dCounts
      else if (i =? iDstRow)%nat then compact_rows l' iRowSize (S i) (S iDstRow) dRows dCounts
      else
        n ← dCounts !! i;
        compact_rows l' iRowSize (S i) (S iDstRow) (if (iRowSize =? 0)%nat then dRows else copy_row iRowSize iDstRow i dRows) (<[iDstRow := n]> dCounts)
  end.

Definition CleanupDuplicates (iRowSize : nat) (a : RtAccum_t) : option RtAccum_t :=
  if ra_uAccumDocs a <=? 1 then Some a
  else
    dDocHits ← doc_ids iRowSize a;
    dDocHits ← sphSort doc_less dDocHits;
    if negb (any_repeated 0 dDocHits) then Some a
    else
      let dRowMap := replicate (Z.to_nat (ra_uAccumDocs a)) 0 in
      let dRowMap := number_rows 0 (if ra_bReplace a then mark_preceding dDocHits dRowMap else mark_subsequent dDocHits dRowMap) in
      dAccum ← compact_hits (length (ra_dAccum a)) dRowMap 0 0 (ra_dAccum a);
      '(dRows, dCounts, iDstRow) ← compact_rows dRowMap iRowSize 0 0 (ra_dAccumRows a) (ra_dPerDocHitsCount a);
      Some (RtAccum dAccum dRows (Z.of_nat iDstRow) dCounts (ra_dAccumKlist a) (ra_bReplace a) (ra_bPreparedForCommit a) (ra_tNextRowID a) (ra_iAccumBytes a)).

(** ** The order of the hits *)

Section Format.
Context (m_eDictFormat : DictFormat_e) (dPacked : list Z).

(** What a word is compared by: its id, or its keyword; [None] is a read outside of
    the keywords. *)
Definition hit_key (h : CSphWordHit) : option wordkey :=
  match m_eDictFormat with CRC => Some (WordID (wh_uWordID h)) | _ => '(s, _) ← GetPackedKeyword m_eDictFormat dPacked (wh_uWordID h); Some (Word s) end.

Definition IsEarlierHit (a b : CSphWordHit) (iWordCmp : comparison) : bool :=
  match iWordCmp with
  | Lt => true
  | Eq => (wh_tRowID a <? wh_tRowID b) || ((wh_tRowID a =? wh_tRowID b) && (GetPosWithField (wh_uWordPos a) <? GetPosWithField (wh_uWordPos b)))
  | Gt => false
  end.

(** Hits whose keywords cannot be read are refused by [SortHits] before. *)
Definition key_of (h : CSphWordHit) : wordkey := default (Word []) (hit_key h).

Definition hit_less (a b : CSphWordHit) : bool := match cmp_keys (key_of a) (key_of b) with Some c => IsEarlierHit a b c | None => false end.

Definition SortHits (l : list CSphWordHit) : option (list CSphWordHit) :=
  if forallb (λ h, bool_decide (is_Some (hit_key h))) l then sphSort hit_less l else None.

(** ** Repeated hits *)

Fixpoint cleanup_loop (fuel : nat) (dHits : list CSphWordHit) (iSrc iDst : nat) : option (list CSphWordHit) :=
  match fuel with
  | O => None
  | S fuel' =>
      if (iSrc <? length dHits)%nat then
        tDst ← dHits !! (iDst - 1)%nat;
        tSrc ← dHits !! iSrc;
        let bSamePos := GetPosWithField (wh_uWordPos tDst) =? GetPosWithField (wh_uWordPos tSrc) in
        let bDstEnd := IsEnd (wh_uWordPos tDst) in
        if (wh_tRowID tDst =? wh_tRowID tSrc) && (wh_uWordID tDst =? wh_uWordID tSrc) && (bSamePos || ((GetField (wh_uWordPos tDst) =? GetField (wh_uWordPos tSrc)) && bDstEnd)) then
          if bSamePos then cleanup_loop fuel' (<[iDst := tSrc]> dHits) (S iSrc) iDst
          else if bDstEnd then
            cleanup_loop fuel' (<[iDst := tSrc]> (<[(iDst - 1)%nat := WordHit (wh_tRowID tDst) (wh_uWordID tDst) (CreateSum (wh_uWordPos tDst) 0)]> dHits)) (S iSrc) (S iDst)
          else cleanup_loop fuel' dHits (S iSrc) iDst
        else cleanup_loop fuel' (<[iDst := tSrc]> dHits) (S iSrc) (S iDst)
      else Some (take iDst dHits)
  end.

Definition CleanupHitDuplicates (dHits : list CSphWordHit) : option (list CSphWordHit) :=
  if (length dHits <? 2)%nat then Some dHits else cleanup_loop (length dHits) dHits 1 1.

Definition set_hits (l : list CSphWordHit) (a : RtAccum_t) : RtAccum_t :=
  RtAccum l (ra_dAccumRows a) (ra_uAccumDocs a) (ra_dPerDocHitsCount a) (ra_dAccumKlist a) (ra_bReplace a) (ra_bPreparedForCommit a) (ra_tNextRowID a) (ra_iAccumBytes a).

Definition PreCommitAcc (iRowSize : nat) (tAcc : RtAccum_t) : option RtAccum_t :=
  tAcc ← CleanupDuplicates iRowSize tAcc;
  dAccum ← SortHits (ra_dAccum tAcc);
  dAccum ← CleanupHitDuplicates dAccum;
  Some (set_hits dAccum tAcc).
End Format.

(** ** Examples *)

(** Two documents 5 and 6 and a second version of 5, with rows of three items. *)
Definition demo_docs (bReplace : bool) : option RtAccum_t :=
  a ← RtAddDocument [(7, 1); (8, 2)] [5; 0; 100] bReplace 10 new_accum;
  a ← RtAddDocument [(7, 3)] [6; 0; 101] bReplace 10 a;
  RtAddDocument [(9, 1); (7, 2); (7, 2)] [5; 0; 102] bReplace 10 a.

Example demo_replace : (a ← demo_docs true; a ← PreCommitAcc CRC [] 3 a; Some (ra_dAccum a, ra_dAccumRows a)) = Some ([WordHit 0 7 3; WordHit 1 7 2; WordHit 1 9 1], [6; 0; 101; 5; 0; 102]).
Proof. vm_compute. reflexivity. Qed.

Example demo_insert : (a ← demo_docs false; a ← PreCommitAcc CRC [] 3 a; Some (ra_dAccum a, ra_dAccumRows a)) = Some ([WordHit 0 7 1; WordHit 1 7 3; WordHit 0 8 2], [5; 0; 100; 6; 0; 101]).
Proof. vm_compute. reflexivity. Qed.
End RtAccum.
