(* ===== verification/RtAccumOk.v ===== *)
(** * What a transaction commits

    [PreCommitAcc] keeps one document of every id, the last one for REPLACE and the
    first one for INSERT, and leaves the hits of the documents it keeps in the order
    that [CreateSegmentHits] needs. *)

From stdpp Require Import sorting gmap.
From S2P Require Import Prelude Hits Sort SortOk SearchNode RtSegment RtSegmentOk RtQwordOk RtAccum.
Import Hitman Sort SortOk RtSegment RtSegmentOk RtCreateOk RtAccum.

Module RtAccumOk.

Abbreviation INVALID_ROWID := SearchNode.INVALID_ROWID.

(** ** Documents of a transaction *)

(** The row of a document and its hits: words and positions. *)
Abbreviation adoc := (list Z * list (Z * Z))%type.

Definition doc_id (d : adoc) : Z := default 0 (sphGetDocID d.1).

Fixpoint keep_last (ds : list adoc) : list adoc :=
  match ds with [] => [] | d :: ds' => if existsb (λ d', doc_id d =? doc_id d') ds' then keep_last ds' else d :: keep_last ds' end.

Fixpoint keep_first (seen : list Z) (ds : list adoc) : list adoc :=
  match ds with [] => [] | d :: ds' => if existsb (Z.eqb (doc_id d)) seen then keep_first (doc_id d :: seen) ds' else d :: keep_first (doc_id d :: seen) ds' end.

(** The documents that are kept. *)
Definition winners (bReplace : bool) (ds : list adoc) : list adoc := if bReplace then keep_last ds else keep_first [] ds.

Definition row_hits (i : nat) (l : list (Z * Z)) : list CSphWordHit := map (λ '(u, p), WordHit (Z.of_nat i) u p) l.

(** The hits of documents whose rows are numbered from [k] on. *)
Definition all_rows (k : nat) (ds : list adoc) : list CSphWordHit := concat (imap (λ i d, row_hits (k + i) d.2) ds).

Lemma all_rows_cons k d ds : all_rows k (d :: ds) = row_hits k d.2 ++ all_rows (S k) ds.
Proof. unfold all_rows. cbn [imap concat]. rewrite Nat.add_0_r. f_equal. f_equal. apply imap_ext. intros i x _. cbn. f_equal. lia. Qed.

Lemma all_rows_app ds : ∀ ds' k, all_rows k (ds ++ ds') = all_rows k ds ++ all_rows (k + length ds) ds'.
Proof. induction ds as [|d ds IH]; intros ds' k; cbn [app length]; [by rewrite Nat.add_0_r|]. rewrite !all_rows_cons, IH, <- app_assoc. do 3 f_equal. lia. Qed.

(** An accumulator holds documents. *)
Record holds_docs (n : nat) (a : RtAccum_t) (ds : list adoc) : Prop := {
  hd_hits : ra_dAccum a = all_rows 0 ds;
  hd_rows : ra_dAccumRows a = concat (map fst ds);
  hd_size : Forall (λ d, length d.1 = n) ds;
  hd_docs : ra_uAccumDocs a = Z.of_nat (length ds);
  hd_counts : length (ra_dPerDocHitsCount a) = length ds
}.

(** ** Selection by a mask *)

Fixpoint select {A} (m : list bool) (l : list A) : list A :=
  match m, l with b :: m', x :: l' => if b then x :: select m' l' else select m' l' | _, _ => [] end.

Fixpoint mask_last (ids : list Z) : list bool := match ids with [] => [] | x :: l => negb (existsb (Z.eqb x) l) :: mask_last l end.
Fixpoint mask_first (seen ids : list Z) : list bool := match ids with [] => [] | x :: l => negb (existsb (Z.eqb x) seen) :: mask_first (x :: seen) l end.

Definition mask (bReplace : bool) (ids : list Z) : list bool := if bReplace then mask_last ids else mask_first [] ids.

Lemma existsb_map {A B} (f : A -> B) (p : B -> bool) l : existsb p (map f l) = existsb (λ x, p (f x)) l.
Proof. induction l as [|x l IH]; [done|]. cbn. by rewrite IH. Qed.

Lemma winners_select bReplace ds : winners bReplace ds = select (mask bReplace (map doc_id ds)) ds.
Proof.
  destruct bReplace; cbn [winners mask].
  - induction ds as [|d ds IH]; [done|]. cbn [keep_last map mask_last select]. rewrite existsb_map, IH. by destruct (existsb _ _).
  - generalize (@nil Z). induction ds as [|d ds IH]; intros seen; [done|]. cbn [keep_first map mask_first select]. rewrite IH. by destruct (existsb _ _).
Qed.

Lemma mask_last_length ids : length (mask_last ids) = length ids.
Proof. induction ids as [|x ids IH]; [done|]. cbn. by rewrite IH. Qed.

Lemma mask_first_length ids : ∀ seen, length (mask_first seen ids) = length ids.
Proof. induction ids as [|x ids IH]; intros seen; [done|]. cbn. by rewrite IH. Qed.

Lemma mask_length b ids : length (mask b ids) = length ids.
Proof. destruct b; [apply mask_last_length|apply mask_first_length]. Qed.

Lemma existsb_in x l : existsb (Z.eqb x) l = true <-> x ∈ l.
Proof. rewrite existsb_exists. split; [intros (y & Hy & ->%Z.eqb_eq); by apply list_elem_of_In|intros H; exists x; split; [by apply list_elem_of_In|apply Z.eqb_refl]]. Qed.

(** A document is lost if its id stands again behind it, or before it. *)
Definition again (b : bool) (ids : list Z) (i : nat) : Prop := ∃ j x, ids !! i = Some x /\ ids !! j = Some x /\ if b then (i < j)%nat else (j < i)%nat.

Lemma mask_last_lookup ids : ∀ i x, ids !! i = Some x -> mask_last ids !! i = Some (negb (existsb (Z.eqb x) (drop (S i) ids))).
Proof. induction ids as [|y ids IH]; intros [|i] x E; try done; cbn in E |- *; [by injection E as ->; rewrite drop_0|by apply IH]. Qed.

Lemma mask_first_lookup ids : ∀ seen i x, ids !! i = Some x -> mask_first seen ids !! i = Some (negb (existsb (Z.eqb x) (take i ids ++ seen))).
Proof.
  induction ids as [|y ids IH]; intros seen [|i] x E; try done; [by injection E as ->|]. etrans; [exact (IH (y :: seen) i x E)|]. do 2 f_equal. apply eq_true_iff_eq. rewrite !existsb_in, !elem_of_app. cbn [take]. rewrite !elem_of_cons. tauto.
Qed.

Lemma mask_again b ids i x : ids !! i = Some x -> ∃ c, mask b ids !! i = Some c /\ (c = false <-> again b ids i).
Proof.
  intros E. destruct b; cbn [mask]; eexists; (split; [first [exact (mask_last_lookup ids i x E)|exact (mask_first_lookup ids [] i x E)]|]); rewrite negb_false_iff, existsb_in; [|rewrite app_nil_r]; rewrite list_elem_of_lookup; split.
  - intros (j & Ej). rewrite lookup_drop in Ej. exists (S i + j)%nat, x. split; [done|]. split; [done|lia].
  - intros (j & y & Ey & Ej & Hj). rewrite E in Ey. injection Ey as <-. exists (j - S i)%nat. rewrite lookup_drop. by replace (S i + (j - S i))%nat with j by lia.
  - intros (j & Ej). apply lookup_take_Some in Ej as [Ej Hj]. by exists j, x.
  - intros (j & y & Ey & Ej & Hj). rewrite E in Ey. injection Ey as <-. exists j. by rewrite lookup_take_lt by lia.
Qed.

(** ** The marks *)

Definition ids_of (k : nat) (ids : list Z) : list AccumDocHits_t := imap (λ i x, AccumDocHits x (k + i)) ids.

(** A pair of neighbours with one id. *)
Definition neighbours (l : list AccumDocHits_t) (d d' : AccumDocHits_t) : Prop := ∃ l1 l2, l = l1 ++ d :: d' :: l2 /\ ad_tDocID d = ad_tDocID d'.

Definition loser (b : bool) (d d' : AccumDocHits_t) : nat := if b then ad_iDocIndex d else ad_iDocIndex d'.

Definition marks_of (b : bool) (l : list AccumDocHits_t) (m : list Z) : list Z := if b then mark_preceding l m else mark_subsequent l m.

Lemma marks_cons b d d' l m : marks_of b (d :: d' :: l) m = marks_of b (d' :: l) (if ad_tDocID d =? ad_tDocID d' then <[loser b d d' := INVALID_ROWID]> m else m).
Proof. destruct b; cbn [marks_of mark_preceding mark_subsequent loser]; [done|]. by rewrite (Z.eqb_sym (ad_tDocID d')). Qed.

Lemma neighbours_cons d d' l x y : neighbours (d :: d' :: l) x y <-> (x = d /\ y = d' /\ ad_tDocID d = ad_tDocID d') \/ neighbours (d' :: l) x y.
Proof.
  split.
  - intros ([|z l1] & l2 & E & H); [injection E as -> -> ->; by left|injection E as -> E; right]. by exists l1, l2.
  - intros [(-> & -> & H)|(l1 & l2 & E & H)]; [by exists [], l|]. exists (d :: l1), l2. split; [|done]. by rewrite E.
Qed.

Lemma dup_marks_lookup b l : ∀ m i, (i < length m)%nat -> ∃ r, marks_of b l m !! i = Some r /\ length (marks_of b l m) = length m /\
  (((∃ d d', neighbours l d d' /\ loser b d d' = i) /\ r = INVALID_ROWID) \/ ((¬ ∃ d d', neighbours l d d' /\ loser b d d' = i) /\ m !! i = Some r)).
Proof.
  induction l as [|d [|d' l] IH]; intros m i Hi.
  1,2: destruct (lookup_lt_is_Some_2 m i Hi) as [r Er]; exists r; split; [by destruct b|]; split; [by destruct b|]; right; split; [|done]; intros (x & y & (l1 & l2 & E & _) & _); by destruct l1 as [|? [|]].
  rewrite marks_cons. set (m' := if _ =? _ then _ else _). assert (length m' = length m) as Hl by (unfold m'; destruct (_ =? _); [apply length_insert|done]). destruct (IH m' i) as (r & Er & Hl' & H); [lia|]. exists r. split; [done|]. split; [lia|]. destruct H as [((x & y & Hn & Hx) & ->)|(Hn & Em)]; [left; split; [|done]; exists x, y; split; [|done]; apply neighbours_cons; by right|].
  unfold m' in Em. destruct (Z.eqb_spec (ad_tDocID d) (ad_tDocID d')) as [Ed|Nd].
  - destruct (decide (loser b d d' = i)) as [<-|Ni].
    + rewrite list_lookup_insert_eq in Em by done. injection Em as <-. left. split; [|done]. exists d, d'. split; [|done]. apply neighbours_cons. by left.
    + rewrite list_lookup_insert_ne in Em by done. right. split; [|done]. intros (x & y & [(-> & -> & _)|Hxy]%neighbours_cons & Hx); [done|]. apply Hn. by exists x, y.
  - right. split; [|done]. intros (x & y & [(_ & _ & ?)|Hxy]%neighbours_cons & Hx); [done|]. apply Hn. by exists x, y.
Qed.
Lemma any_repeated_none l : ∀ uPrev, any_repeated uPrev l = false -> ∀ d d', ¬ neighbours l d d'.
Proof.
  induction l as [|d [|d' l] IH]; intros uPrev E x y Hn.
  1,2: destruct Hn as (l1 & l2 & El & _); by destruct l1 as [|? [|]].
  cbn [any_repeated] in E. apply orb_false_iff in E as [_ E]. apply neighbours_cons in Hn as [(_ & _ & Ed)|Hn]; [|by apply (IH _ E) in Hn]. cbn [any_repeated] in E. apply orb_false_iff in E as [E _]. apply Z.eqb_neq in E. congruence.
Qed.

Section Order.
Context (ids : list Z) (l : list AccumDocHits_t) (Hp : l ≡ₚ ids_of 0 ids) (Hs : StronglySorted (le doc_less) l).

Lemma entry_in d : d ∈ l <-> ids !! ad_iDocIndex d = Some (ad_tDocID d).
Proof.
  rewrite Hp. unfold ids_of. rewrite list_elem_of_lookup. split.
  - intros (i & E). apply list_lookup_imap_Some in E as (x & Ex & ->). done.
  - intros E. exists (ad_iDocIndex d). rewrite list_lookup_imap, E. by destruct d.
Qed.

Lemma entry_nodup : NoDup l.
Proof.
  rewrite Hp. apply NoDup_alt. intros i j d Ei Ej. unfold ids_of in *. apply list_lookup_imap_Some in Ei as (x & _ & ->). apply list_lookup_imap_Some in Ej as (y & _ & E). injection E as _ E. done.
Qed.

Lemma less_false a b : doc_less a b = false -> ad_tDocID b < ad_tDocID a \/ (ad_tDocID a = ad_tDocID b /\ (ad_iDocIndex b <= ad_iDocIndex a)%nat).
Proof. unfold doc_less. intros [H1%Z.ltb_ge H2]%orb_false_iff. apply andb_false_iff in H2 as [H2%Z.eqb_neq|H2%Nat.ltb_ge]; [left; lia|]. destruct (Z.eq_dec (ad_tDocID a) (ad_tDocID b)); [by right|left; lia]. Qed.

(** An entry in front of another one in the list. *)
Lemma ordered_pair l1 d l2 d' l3 : l = l1 ++ d :: l2 ++ d' :: l3 -> ad_tDocID d < ad_tDocID d' \/ (ad_tDocID d = ad_tDocID d' /\ (ad_iDocIndex d < ad_iDocIndex d')%nat).
Proof.
  intros E. pose proof Hs as H. rewrite E in H. apply StronglySorted_app_1_r in H. apply StronglySorted_inv in H as [_ H]. rewrite Forall_forall in H. specialize (H d' ltac:(apply elem_of_app; right; by left)). unfold le in H. apply less_false in H as [H|[Hx Hi]]; [by left|right]. split; [done|]. destruct (Nat.eq_dec (ad_iDocIndex d) (ad_iDocIndex d')) as [Ei|]; [|lia]. exfalso. pose proof entry_nodup as N. rewrite E in N. apply NoDup_app in N as (_ & _ & N). apply NoDup_cons in N as [N _]. apply N, elem_of_app. right. apply elem_of_cons. left. destruct d, d'. cbn in Hx, Ei. by subst.
Qed.

Lemma split_at (d d' : AccumDocHits_t) : d ∈ l -> d' ∈ l -> ad_tDocID d = ad_tDocID d' -> (ad_iDocIndex d < ad_iDocIndex d')%nat -> ∃ l1 l2 l3, l = l1 ++ d :: l2 ++ d' :: l3.
Proof.
  intros Hd Hd' Ei Hi. destruct (list_elem_of_split _ _ Hd) as (l1 & l2 & E). rewrite E in Hd'. apply elem_of_app in Hd' as [H|H].
  - destruct (list_elem_of_split _ _ H) as (a & b & Ea). exfalso. destruct (ordered_pair a d' b d l2) as [?|[? ?]]; [by rewrite E, Ea, <- app_assoc|lia..].
  - apply elem_of_cons in H as [->|H]; [lia|]. destruct (list_elem_of_split _ _ H) as (a & b & ->). by exists l1, a, b.
Qed.

Lemma neighbours_again b i : (∃ d d', neighbours l d d' /\ loser b d d' = i) <-> again b ids i.
Proof.
  split.
  - intros (d & d' & (l1 & l2 & E & Ed) & <-). destruct (ordered_pair l1 d [] d' l2 E) as [?|[_ Hi]]; [lia|]. assert (d ∈ l /\ d' ∈ l) as [Hd Hd'] by (rewrite E; split; apply elem_of_app; right; [by left|right; by left]). apply entry_in in Hd, Hd'. destruct b; cbn [loser]; [exists (ad_iDocIndex d')|exists (ad_iDocIndex d)]; eexists; (split; [done|]); (split; [|done]); congruence.
  - intros (j & x & Ei & Ej & Hj). assert (AccumDocHits x i ∈ l /\ AccumDocHits x j ∈ l) as [Hi' Hj'] by (split; by apply entry_in). destruct b.
    + destruct (split_at _ _ Hi' Hj' eq_refl Hj) as (l1 & l2 & l3 & E). destruct l2 as [|e l2]; [exists (AccumDocHits x i), (AccumDocHits x j); split; [|done]; by exists l1, l3|]. exists (AccumDocHits x i), e. split; [|done]. exists l1, (l2 ++ AccumDocHits x j :: l3). split; [done|]. pose proof (ordered_pair l1 _ [] e _ E) as H1. cbn [app] in E. assert (l = (l1 ++ [AccumDocHits x i]) ++ e :: l2 ++ AccumDocHits x j :: l3) as E2 by (rewrite <- app_assoc; exact E). pose proof (ordered_pair _ e l2 _ l3 E2) as H2. cbn in H1, H2 |- *. lia.
    + destruct (split_at _ _ Hj' Hi' eq_refl Hj) as (l1 & l2 & l3 & E). destruct (list_eq_nil_dec l2) as [->|N2]; [exists (AccumDocHits x j), (AccumDocHits x i); split; [|done]; by exists l1, l3|]. destruct (exists_last N2) as (l2' & e & ->). exists e, (AccumDocHits x i). split; [|done]. exists (l1 ++ AccumDocHits x j :: l2'), l3. rewrite <- !app_assoc in E. cbn [app] in E. split; [rewrite E, <- app_assoc; done|]. pose proof (ordered_pair l1 _ l2' e _ E) as H1. assert (l = (l1 ++ AccumDocHits x j :: l2') ++ e :: [] ++ AccumDocHits x i :: l3) as E2 by (rewrite <- app_assoc; exact E). pose proof (ordered_pair _ e [] _ l3 E2) as H2. cbn in H1, H2 |- *. lia.
Qed.

Definition row_marks (m : list bool) : list Z := map (λ c : bool, if c then 0 else INVALID_ROWID) m.

Lemma marks_mask b : marks_of b l (replicate (length ids) 0) = row_marks (mask b ids).
Proof.
  assert (length (marks_of b l (replicate (length ids) 0)) = length ids) as Hl.
  { destruct (decide (length ids = 0%nat)) as [E0|]; [destruct ids; [|done]; apply Permutation_nil_r in Hp; subst l; by destruct b|]. destruct (dup_marks_lookup b l (replicate (length ids) 0) 0) as (r & _ & Hl & _); [rewrite length_replicate; lia|]. by rewrite Hl, length_replicate. }
  apply list_eq_same_length with (n := length ids); [unfold row_marks; by rewrite length_map, mask_length|done|]. intros i x y Hi E1 E2. destruct (lookup_lt_is_Some_2 ids i Hi) as [v Ev]. destruct (mask_again b ids i v Ev) as (c & Ec & Hc). destruct (dup_marks_lookup b l (replicate (length ids) 0) i) as (r & Er & _ & H); [rewrite length_replicate; lia|]. rewrite E1 in Er. injection Er as <-. unfold row_marks in E2. rewrite list_lookup_fmap, Ec in E2. injection E2 as <-. rewrite neighbours_again in H. destruct H as [[H ->]|[H Hx]]; [by rewrite (proj2 Hc H)|]. apply lookup_replicate in Hx as [-> _]. destruct c; [done|]. exfalso. by apply H, Hc.
Qed.

Lemma mask_all b uPrev : any_repeated uPrev l = false -> mask b ids = replicate (length ids) true.
Proof.
  intros H. apply list_eq_same_length with (n := length ids); [apply length_replicate|apply mask_length|]. intros i x y Hi E1 E2. destruct (lookup_lt_is_Some_2 ids i Hi) as [v Ev]. destruct (mask_again b ids i v Ev) as (c & Ec & Hc). rewrite Ec in E1. injection E1 as <-. apply lookup_replicate in E2 as [-> _]. destruct c; [done|]. destruct (proj2 (neighbours_again b i) (proj1 Hc eq_refl)) as (d & d' & Hn & _). by apply (any_repeated_none l uPrev H) in Hn.
Qed.
End Order.

(** ** Moving what is left to the front *)

Lemma take_S_insert {A} (l : list A) i x : (i < length l)%nat -> take (S i) (<[i := x]> l) = take i l ++ [x].
Proof. intros H. rewrite (take_S_r _ i x) by (by apply list_lookup_insert_eq). by rewrite take_insert_ge by lia. Qed.

Definition remap_hit (m : list Z) (h : CSphWordHit) : option CSphWordHit :=
  r ← m !! Z.to_nat (wh_tRowID h); if r =? INVALID_ROWID then None else Some (WordHit r (wh_uWordID h) (wh_uWordPos h)).

Lemma compact_hits_ok m rest : ∀ i d h, (d <= i)%nat -> drop i h = rest -> Forall (λ x, is_Some (m !! Z.to_nat (wh_tRowID x))) rest -> compact_hits (length rest) m i d h = Some (take d h ++ omap (remap_hit m) rest).
Proof.
  induction rest as [|x rest IH]; intros i d h Hd E Hf; [cbn; by rewrite app_nil_r|]. apply Forall_cons in Hf as [[r Er] Hf]. cbn [length compact_hits]. assert (h !! i = Some x) as -> by (rewrite <- (Nat.add_0_r i), <- lookup_drop, E; done). cbn [mbind option_bind]. rewrite Er. cbn [mbind option_bind]. assert (drop (S i) h = rest) as E' by (rewrite <- Nat.add_1_r, <- drop_drop, E; done). assert (i < length h)%nat as Hi by (assert (length (drop i h) = S (length rest)) as L by (by rewrite E); rewrite length_drop in L; lia). cbn [omap list_omap]. unfold remap_hit at 1. rewrite Er. cbn [mbind option_bind]. destruct (r =? INVALID_ROWID); [apply IH; [lia|done|done]|].
  rewrite IH; [|lia|by rewrite drop_insert_lt by lia|done]. rewrite take_S_insert by lia. by rewrite <- app_assoc.
Qed.

Lemma number_lookup c m : c + Z.of_nat (length m) < INVALID_ROWID -> 0 <= c -> number_rows c (row_marks m) = match m with [] => [] | b :: m' => (if b then c else INVALID_ROWID) :: number_rows (if b then c + 1 else c) (row_marks m') end.
Proof.
  intros Hc H0. destruct m as [|[] m]; [done| |]; unfold row_marks; cbn [map number_rows]; [|by rewrite Z.eqb_refl]. change (0 =? INVALID_ROWID) with false. cbn iota. by rewrite (cast_id DWORD (c + 1)) by (done || unfold in_type; cbn; unfold INVALID_ROWID, SearchNode.INVALID_ROWID in Hc; cbn in Hc; lia).
Qed.

Lemma number_length c m : length (number_rows c (row_marks m)) = length m.
Proof. revert c. induction m as [|[] m IH]; intros c; cbn; [done| |]; by rewrite IH. Qed.

Lemma remap_row_hits m i l : omap (remap_hit m) (row_hits i l) = match m !! i with Some r => if r =? INVALID_ROWID then [] else map (λ '(u, p), WordHit r u p) l | None => [] end.
Proof.
  induction l as [|[u p] l IH]; [by destruct (m !! i) as [r|]; [destruct (r =? _)|]|]. unfold row_hits in *. cbn [map omap list_omap]. unfold remap_hit at 1. cbn [wh_tRowID wh_uWordID wh_uWordPos]. rewrite Nat2Z.id, IH. destruct (m !! i) as [r|]; cbn [mbind option_bind]; [|done]. by destruct (r =? INVALID_ROWID).
Qed.

Lemma omap_app' {A B} (f : A -> option B) l l' : omap f (l ++ l') = omap f l ++ omap f l'.
Proof. apply omap_app. Qed.

Lemma remap_all m msk : ∀ ds k c, length msk = length ds -> Z.of_nat (c + length ds) < INVALID_ROWID -> (∀ j x, number_rows (Z.of_nat c) (row_marks msk) !! j = Some x -> m !! (k + j)%nat = Some x) ->
  omap (remap_hit m) (all_rows k ds) = all_rows c (select msk ds).
Proof.
  induction msk as [|b msk IH]; intros [|d ds] k c Hl Hc Hm; try done. cbn in Hl. injection Hl as Hl. rewrite number_lookup in Hm by (cbn [length] in *; lia). rewrite all_rows_cons, omap_app', remap_row_hits. pose proof (Hm 0%nat _ eq_refl) as H0. rewrite Nat.add_0_r in H0. rewrite H0. assert (∀ j x, number_rows (Z.of_nat (if b then S c else c)) (row_marks msk) !! j = Some x -> m !! (S k + j)%nat = Some x) as Hm'.
  { intros j x E. replace (S k + j)%nat with (k + S j)%nat by lia. apply Hm. cbn. rewrite <- E. f_equal. f_equal. destruct b; lia. }
  destruct b; cbn [select].
  - rewrite (proj2 (Z.eqb_neq _ _)) by (cbn [length] in Hc; lia). rewrite all_rows_cons. f_equal. apply (IH ds (S k) (S c)); [done|cbn [length] in Hc; lia|done].
  - rewrite Z.eqb_refl. apply (IH ds (S k) c); [done|cbn [length] in Hc; lia|done].
Qed.

Lemma take_concat n i (R : list (list Z)) : Forall (λ r, length r = n) R -> take (i * n) (concat R) = concat (take i R).
Proof.
  revert i. induction R as [|r R IH]; intros i Hf; [cbn; by rewrite !take_nil|]. apply Forall_cons in Hf as [Hr Hf]. destruct i as [|i]; [done|]. cbn [concat take]. rewrite take_app_ge by lia. f_equal. rewrite Hr. replace (S i * n - n)%nat with (i * n)%nat by lia. by apply IH.
Qed.

Lemma drop_concat n i (R : list (list Z)) : Forall (λ r, length r = n) R -> drop (i * n) (concat R) = concat (drop i R).
Proof.
  revert i. induction R as [|r R IH]; intros i Hf; [cbn; by rewrite !drop_nil|]. apply Forall_cons in Hf as [Hr Hf]. destruct i as [|i]; [done|]. cbn [concat drop]. rewrite drop_app_ge by lia. rewrite Hr. replace (S i * n - n)%nat with (i * n)%nat by lia. by apply IH.
Qed.

Lemma row_at_concat n i (R : list (list Z)) r : Forall (λ r, length r = n) R -> R !! i = Some r -> row_at n (concat R) i = r.
Proof.
  intros Hf E. unfold row_at. rewrite drop_concat by done. rewrite (drop_S _ r i E). cbn [concat]. rewrite Forall_lookup in Hf. rewrite <- (Hf i r E). apply take_app_length.
Qed.

Lemma copy_row_concat n d i (R : list (list Z)) r : Forall (λ r, length r = n) R -> R !! i = Some r -> (d < length R)%nat -> copy_row n d i (concat R) = concat (<[d := r]> R).
Proof.
  intros Hf E Hd. unfold copy_row. rewrite (row_at_concat n i R r Hf E), take_concat, drop_concat by done. rewrite insert_take_drop by done. rewrite concat_app. cbn [concat]. by rewrite Nat.add_1_r.
Qed.

Lemma compact_rows_ok n msk : ∀ c i d R C, (d <= i)%nat -> Forall (λ r, length r = n) R -> length C = length R -> length msk = (length R - i)%nat -> (i <= length R)%nat -> 0 <= c -> c + Z.of_nat (length msk) < INVALID_ROWID ->
  compact_rows (number_rows c (row_marks msk)) n i d (concat R) C = Some (concat (take d R ++ select msk (drop i R)), take d C ++ select msk (drop i C), (d + length (select msk (drop i R)))%nat).
Proof.
  induction msk as [|b msk IH]; intros c i d R C Hd Hf Hc Hl Hi H0 Hn.
  { cbn. rewrite !app_nil_r, Nat.add_0_r. by rewrite take_concat. }
  cbn [length] in Hl, Hn. assert (i < length R)%nat as Hi' by lia. destruct (lookup_lt_is_Some_2 R i Hi') as [r Er]. destruct (lookup_lt_is_Some_2 C i ltac:(lia)) as [v Ev]. rewrite (drop_S _ r i Er), (drop_S _ v i Ev). rewrite number_lookup by (cbn [length]; lia). cbn [compact_rows select]. destruct b.
  - rewrite (proj2 (Z.eqb_neq _ _)) by lia. destruct (Nat.eqb_spec i d) as [<-|Nd].
    + rewrite IH by (done || lia). cbn [length]. rewrite (take_S_r R i r Er), (take_S_r C i v Ev), <- !app_assoc. do 2 f_equal. lia.
    + rewrite Ev. cbn [mbind option_bind]. assert ((if (n =? 0)%nat then concat R else copy_row n d i (concat R)) = concat (<[d := r]> R)) as ->.
      { destruct (Nat.eqb_spec n 0) as [->|]; [|apply copy_row_concat; (done || lia)]. assert (∀ Q : list (list Z), Forall (λ r, length r = 0%nat) Q -> concat Q = []) as K by (induction 1 as [|q Q Hq _ IHQ]; [done|]; cbn; rewrite IHQ; by destruct q). rewrite !K; [done|by apply Forall_insert; [|rewrite Forall_lookup in Hf; apply (Hf i)]|done]. }
      rewrite IH; [|lia| |by rewrite !length_insert|rewrite length_insert; lia|rewrite length_insert; lia|lia|lia].
      * rewrite !drop_insert_lt by lia. rewrite !take_S_insert by lia. rewrite <- !app_assoc. cbn [length app]. do 2 f_equal. lia.
      * apply Forall_insert; [done|]. rewrite Forall_lookup in Hf. by apply (Hf i).
  - rewrite Z.eqb_refl. by rewrite IH by (done || lia).
Qed.

(** ** [CleanupDuplicates] *)

#[export] Instance accumdoc_inhabited : Inhabited AccumDocHits_t := populate (AccumDocHits 0 0).

Lemma doc_less_asym x y : doc_less x y = true -> doc_less y x = false.
Proof. unfold doc_less. rewrite orb_true_iff, orb_false_iff, andb_true_iff, andb_false_iff, !Z.ltb_lt, Z.ltb_ge, Z.eqb_eq, Z.eqb_neq, Nat.ltb_lt, Nat.ltb_ge. lia. Qed.

Lemma doc_le_trans x y z : le doc_less x y -> le doc_less y z -> le doc_less x z.
Proof. unfold le, doc_less. rewrite !orb_false_iff, !andb_false_iff, !Z.ltb_ge, !Z.eqb_neq, !Nat.ltb_ge. lia. Qed.

Lemma doc_id_row n (d : adoc) : (2 <= n)%nat -> length d.1 = n -> sphGetDocID d.1 = Some (doc_id d).
Proof. intros Hn Hl. unfold doc_id. destruct d.1 as [|x [|y r]] eqn:E; cbn in Hl; try lia. done. Qed.

Lemma doc_ids_ok n a ds : holds_docs n a ds -> (2 <= n)%nat -> doc_ids n a = Some (ids_of 0 (map doc_id ds)).
Proof.
  intros [_ R S D _] Hn. unfold doc_ids. rewrite D, R, Nat2Z.id. apply mapM_Some_2. apply Forall2_same_length_lookup_2; [unfold ids_of; by rewrite length_imap, length_map, length_seq|]. intros i x e Ex Ee. apply lookup_seq in Ex as [-> Hi]. cbn [Nat.add] in *. unfold ids_of in Ee. rewrite list_lookup_imap, list_lookup_fmap in Ee. destruct (ds !! i) as [d|] eqn:Ed; [|done]. cbn in Ee. injection Ee as <-. rewrite (row_at_concat n i (map fst ds) d.1).
  - rewrite (doc_id_row n); [done|done|]. rewrite Forall_lookup in S. by apply (S i).
  - by rewrite Forall_map.
  - by rewrite list_lookup_fmap, Ed.
Qed.

Lemma select_all {A} (l : list A) : select (replicate (length l) true) l = l.
Proof. induction l as [|x l IH]; [done|]. cbn. by rewrite IH. Qed.

Lemma select_map {A B} (f : A -> B) m : ∀ l, select m (map f l) = map f (select m l).
Proof. induction m as [|b m IH]; intros [|x l]; try done. cbn. rewrite IH. by destruct b. Qed.

Lemma select_length {A B} m : ∀ (l : list A) (l' : list B), length l = length l' -> length (select m l) = length (select m l').
Proof. induction m as [|b m IH]; intros [|x l] [|y l'] E; try done. injection E as E. cbn. destruct b; cbn; by rewrite (IH l l' E). Qed.

Lemma select_in {A} m : ∀ (l : list A) x, x ∈ select m l -> x ∈ l.
Proof. induction m as [|b m IH]; intros [|y l] x H; try (by apply not_elem_of_nil in H). cbn in H. destruct b; [apply elem_of_cons in H as [->|H]; [by left|]|]; right; by apply IH. Qed.

Lemma rows_in k ds h : h ∈ all_rows k ds -> ∃ i, wh_tRowID h = Z.of_nat i /\ (k <= i < k + length ds)%nat.
Proof.
  revert k. induction ds as [|d ds IH]; intros k H; [by apply not_elem_of_nil in H|]. rewrite all_rows_cons in H. apply elem_of_app in H as [H|H].
  - apply list_elem_of_fmap in H as ([u p] & -> & _). exists k. cbn. split; [done|lia].
  - destruct (IH _ H) as (i & E & Hi). exists i. cbn. split; [done|lia].
Qed.

Lemma CleanupDuplicates_ok n a ds : holds_docs n a ds -> (2 <= n)%nat -> Z.of_nat (length ds) < INVALID_ROWID ->
  ∃ a', CleanupDuplicates n a = Some a' /\ holds_docs n a' (winners (ra_bReplace a) ds) /\ ra_dAccumKlist a' = ra_dAccumKlist a /\ ra_iAccumBytes a' = ra_iAccumBytes a.
Proof.
  intros H Hn Hl. pose proof H as [H1 H2 H3 H4 H5]. unfold CleanupDuplicates. rewrite winners_select. destruct (Z.leb_spec (ra_uAccumDocs a) 1) as [L|L].
  { exists a. split; [done|]. split; [|done]. rewrite H4 in L. destruct ds as [|d [|]]; [by destruct (ra_bReplace a)|by destruct (ra_bReplace a)|cbn in L; lia]. }
  rewrite (doc_ids_ok n a ds H Hn). cbn [mbind option_bind]. destruct (sort_ok doc_less doc_less_asym doc_le_trans (ids_of 0 (map doc_id ds))) as (l & -> & P & S); [unfold ids_of; rewrite length_imap, length_map; unfold INVALID_ROWID, SearchNode.INVALID_ROWID in Hl; cbn in Hl; lia|]. cbn [mbind option_bind]. destruct (any_repeated 0 l) eqn:Er; cbn [negb].
  2:{ exists a. split; [done|]. split; [|done]. rewrite (mask_all _ l P S _ 0 Er), length_map, select_all. done. }
  fold (marks_of (ra_bReplace a) l (replicate (Z.to_nat (ra_uAccumDocs a)) 0)). rewrite H4, Nat2Z.id. pose proof (marks_mask _ l P S (ra_bReplace a)) as M. rewrite length_map in M. rewrite M. set (msk := mask (ra_bReplace a) (map doc_id ds)). assert (length msk = length ds) as Hm by (unfold msk; by rewrite mask_length, length_map). set (m := number_rows 0 (row_marks msk)).
  rewrite (compact_hits_ok m (ra_dAccum a) 0 0 (ra_dAccum a)); [|lia|by rewrite drop_0|].
  2:{ rewrite H1. apply Forall_forall. intros h (i & -> & Hi)%rows_in. rewrite Nat2Z.id. apply lookup_lt_is_Some_2. unfold m. rewrite number_length. lia. }
  cbn [mbind option_bind]. rewrite H1. rewrite (remap_all m msk ds 0 0 Hm); [|lia|done]. pose proof (compact_rows_ok n msk 0 0 0 (map fst ds) (ra_dPerDocHitsCount a)) as C. unfold m. rewrite H2, C; [|lia|by rewrite Forall_map|by rewrite length_map|rewrite length_map; lia|lia|lia|lia]. cbn [mbind option_bind]. eexists. split; [done|]. split; [|done]. rewrite !drop_0. cbn [take app]. rewrite select_map. split; cbn [ra_dAccum ra_dAccumRows ra_uAccumDocs ra_dPerDocHitsCount]; [done|done| |by rewrite length_map|apply select_length; lia].
  rewrite Forall_forall in H3 |- *. intros d Hd. apply H3. by eapply select_in.
Qed.

(** ** The order of the hits *)

Section Hits.
Context (f : DictFormat_e) (dPacked : list Z).
Abbreviation key_of := (key_of f dPacked).
Abbreviation hit_less := (hit_less f dPacked).

Abbreviation gpos h := (GetPosWithField (wh_uWordPos h)).

Lemma key_kind h : match f, key_of h with CRC, WordID _ | KEYWORDS, Word _ | KEYWORDS_V2, Word _ => True | _, _ => False end.
Proof. unfold RtAccum.key_of, hit_key. destruct f; [done|destruct (GetPackedKeyword _ _ _) as [[s r]|]; done..]. Qed.

Lemma keys_compared a b : ∃ c, cmp_keys (key_of a) (key_of b) = Some c /\ cmp_keys (key_of b) (key_of a) = Some (CompOpp c) /\ (c = Eq <-> key_of a = key_of b).
Proof.
  pose proof (key_kind a) as Ka. pose proof (key_kind b) as Kb. destruct (key_of a) as [u|s], (key_of b) as [v|t]; try (destruct f; done); cbn [cmp_keys]; eexists; (split; [done|]).
  - rewrite Z.compare_antisym. split; [done|]. rewrite Z.compare_eq_iff. split; [by intros ->|by injection 1].
  - rewrite (dict_cmp_anti s t). split; [done|]. rewrite dict_cmp_eq. split; [by intros ->|by injection 1].
Qed.

(** The order of the hits of one word, strict and not strict. *)
Definition row_lt (a b : CSphWordHit) : Prop := wh_tRowID a < wh_tRowID b \/ (wh_tRowID a = wh_tRowID b /\ gpos a < gpos b).
Definition hit_lt (a b : CSphWordHit) : Prop := key_lt (key_of a) (key_of b) \/ (key_of a = key_of b /\ row_lt a b).
Definition hit_le (a b : CSphWordHit) : Prop := key_lt (key_of a) (key_of b) \/ (key_of a = key_of b /\ ¬ row_lt b a).

Lemma hit_less_lt a b : hit_less a b = true <-> hit_lt a b.
Proof.
  unfold RtAccum.hit_less, hit_lt, key_lt. destruct (keys_compared a b) as (c & -> & _ & He). destruct c; cbn [IsEarlierHit].
  - unfold row_lt. rewrite orb_true_iff, andb_true_iff, !Z.ltb_lt, Z.eqb_eq. pose proof (proj1 He eq_refl). naive_solver.
  - split; [by left|done].
  - split; [done|]. intros [?|[E _]]; [done|]. by apply He in E.
Qed.

Lemma hit_less_le a b : hit_less b a = false <-> hit_le a b.
Proof.
  rewrite <- not_true_iff_false, hit_less_lt. unfold hit_lt, hit_le, key_lt. destruct (keys_compared a b) as (c & -> & -> & He). destruct c; cbn [CompOpp].
  - pose proof (proj1 He eq_refl) as E. naive_solver.
  - split; [by left|]. intros _ [?|[E _]]; [done|]. symmetry in E. by apply He in E.
  - split; [intros H; exfalso; apply H; by left|]. intros [?|[E _]]; [done|]. by apply He in E.
Qed.

Lemma hit_lt_le a b : hit_lt a b -> hit_le a b.
Proof. unfold hit_lt, hit_le, row_lt. intros [?|[? ?]]; [by left|right]. split; [done|lia]. Qed.

Lemma key_lt_trans' a b c : key_lt a b -> key_lt b c -> key_lt a c.
Proof.
  unfold key_lt. destruct a, b, c; cbn [cmp_keys]; try done; intros [= H1] [= H2]; f_equal; [|by eapply dict_cmp_trans]. pose proof (proj1 (Z.compare_lt_iff _ _) H1). pose proof (proj1 (Z.compare_lt_iff _ _) H2). apply Z.compare_lt_iff. lia.
Qed.

Lemma hit_le_trans a b c : hit_le a b -> hit_le b c -> hit_le a c.
Proof.
  unfold hit_le, row_lt. intros [H1|[E1 H1]] [H2|[E2 H2]]; [left; by eapply key_lt_trans'|left; by rewrite <- E2|left; by rewrite E1|right]. split; [congruence|lia].
Qed.

Lemma hit_less_asym a b : hit_less a b = true -> hit_less b a = false.
Proof. rewrite hit_less_lt, hit_less_le. apply hit_lt_le. Qed.

#[export] Instance hit_inhabited : Inhabited CSphWordHit := populate (WordHit 0 0 0).

Lemma SortHits_ok l : Forall (λ h, is_Some (hit_key f dPacked h)) l -> Z.of_nat (length l) < 2 ^ 36 -> ∃ l', SortHits f dPacked l = Some l' /\ l' ≡ₚ l /\ StronglySorted hit_le l'.
Proof.
  intros Hk Hl. unfold SortHits. assert (forallb (λ h, bool_decide (is_Some (hit_key f dPacked h))) l = true) as ->.
  { apply forallb_forall. intros h Hh. apply bool_decide_eq_true_2. rewrite Forall_forall in Hk. by apply Hk, list_elem_of_In. }
  destruct (sort_ok hit_less hit_less_asym) with (l := l) as (l' & E & P & S); [|done|].
  - intros x y z. unfold le. rewrite !hit_less_le. apply hit_le_trans.
  - exists l'. split; [done|]. split; [done|]. clear -S. induction S as [|h l' _ IH Hf]; constructor; [done|]. rewrite Forall_forall in Hf |- *. intros x Hx. apply hit_less_le. by apply Hf.
Qed.

(** ** Repeated hits *)

Definition same_word (a b : CSphWordHit) : bool := (wh_tRowID a =? wh_tRowID b) && (wh_uWordID a =? wh_uWordID b).
Definition same_pos (a b : CSphWordHit) : bool := gpos a =? gpos b.
Definition reset_end (h : CSphWordHit) : CSphWordHit := WordHit (wh_tRowID h) (wh_uWordID h) (CreateSum (wh_uWordPos h) 0).

(** [cleanup_loop] as a function of the hits behind the last one that is kept. *)
Fixpoint clean (last : CSphWordHit) (l : list CSphWordHit) : list CSphWordHit :=
  match l with
  | [] => [last]
  | x :: l' =>
      if same_word last x && (same_pos last x || ((GetField (wh_uWordPos last) =? GetField (wh_uWordPos x)) && IsEnd (wh_uWordPos last)))
      then if same_pos last x then clean last l' else reset_end last :: clean x l'
      else last :: clean x l'
  end.

Lemma cleanup_loop_ok rest : ∀ fuel h i d x, (length rest < fuel)%nat -> (1 <= d <= i)%nat -> drop i h = rest -> h !! (d - 1)%nat = Some x -> cleanup_loop fuel h i d = Some (take (d - 1) h ++ clean x rest).
Proof.
  induction rest as [|y rest IH]; intros [|fuel] h i d x Hf Hd E Ex; cbn [length] in Hf; try lia; cbn [cleanup_loop].
  - assert (length h <= i)%nat as Hi by (apply (f_equal length) in E; rewrite length_drop in E; cbn in E; lia). rewrite (proj2 (Nat.ltb_ge _ _) Hi). cbn [clean]. rewrite <- (take_S_r _ _ _ Ex). by replace (S (d - 1)) with d by lia.
  - assert (i < length h)%nat as Hi by (apply (f_equal length) in E; rewrite length_drop in E; cbn in E; lia). rewrite (proj2 (Nat.ltb_lt _ _) Hi), Ex. assert (h !! i = Some y) as -> by (rewrite <- (Nat.add_0_r i), <- lookup_drop, E; done). cbn [mbind option_bind clean]. unfold same_word, same_pos. assert (drop (S i) h = rest) as E' by (rewrite <- Nat.add_1_r, <- drop_drop, E; done).
    assert (∀ h' x', length h' = length h -> drop (S i) h' = rest -> h' !! (d - 1)%nat = Some x' -> take (d - 1) h' = take (d - 1) h -> cleanup_loop fuel (<[d := y]> h') (S i) (S d) = Some (take (d - 1) h ++ x' :: clean y rest)) as Next.
    { intros h' x' Hl' Ed' Ex' Et. rewrite (IH _ _ _ _ y); [|lia|lia|by rewrite drop_insert_lt by lia|replace (S d - 1)%nat with d by lia; apply list_lookup_insert_eq; lia]. replace (S d - 1)%nat with d by lia. rewrite take_insert_ge by lia. replace d with (S (d - 1)) at 1 by lia. rewrite (take_S_r _ _ _ Ex'), Et, <- app_assoc. done. }
    destruct (_ && _) eqn:Ec; [|by apply Next]. destruct (gpos x =? gpos y) eqn:Ep.
    + rewrite (IH _ _ _ _ x); [|lia|lia|by rewrite drop_insert_lt by lia|rewrite list_lookup_insert_ne by lia; done]. by rewrite take_insert_ge by lia.
    + cbn [orb] in Ec. apply andb_true_iff in Ec as [_ [_ Ee]%andb_true_iff]. rewrite Ee. apply (Next _ (reset_end x)); [by rewrite length_insert|by rewrite drop_insert_lt by lia|apply list_lookup_insert_eq; lia|by rewrite take_insert_ge by lia].
Qed.

Lemma CleanupHitDuplicates_ok l : CleanupHitDuplicates l = Some match l with [] => [] | x :: l' => clean x l' end.
Proof.
  unfold CleanupHitDuplicates. destruct l as [|x [|y l]]; [done|done|]. cbn [length Nat.ltb Nat.leb]. rewrite (cleanup_loop_ok (y :: l) _ _ _ _ x); [done|cbn; lia|lia|done|done].
Qed.

(** What the order of a hit depends on. *)
Definition sig (h : CSphWordHit) : Z * Z * Z := (wh_tRowID h, wh_uWordID h, gpos h).

Lemma sig_key a b : sig a = sig b -> key_of a = key_of b.
Proof. intros [= _ E _]. unfold RtAccum.key_of, hit_key. by rewrite E. Qed.

Lemma sig_lt a b a' b' : sig a = sig a' -> sig b = sig b' -> hit_lt a b -> hit_lt a' b'.
Proof. intros Ea Eb. unfold hit_lt, row_lt. rewrite <- (sig_key a a' Ea), <- (sig_key b b' Eb). injection Ea as -> _ ->. by injection Eb as -> _ ->. Qed.

Lemma hit_lt_le_trans a b c : hit_lt a b -> hit_le b c -> hit_lt a c.
Proof. unfold hit_lt, hit_le, row_lt. intros [H1|[E1 H1]] [H2|[E2 H2]]; [left; by eapply key_lt_trans'|left; by rewrite <- E2|left; by rewrite E1|right]. split; [congruence|lia]. Qed.

Lemma reset_pos p : dword p -> CreateSum p 0 = GetPosWithField p.
Proof. intros Hp. unfold CreateSum, GetPosWithField. rewrite Z.add_0_r, (cast_id DWORD p) by done. done. Qed.

Lemma pos_twice p : GetPosWithField (GetPosWithField p) = GetPosWithField p.
Proof. unfold GetPosWithField. by rewrite <- Z.land_assoc. Qed.

Lemma reset_sig h : dword (wh_uWordPos h) -> sig (reset_end h) = sig h.
Proof. intros H. unfold sig, reset_end. cbn [wh_tRowID wh_uWordID wh_uWordPos]. by rewrite reset_pos, pos_twice. Qed.

(** One id of a word for a keyword. *)
Definition one_id (L : list CSphWordHit) : Prop := ∀ a b, a ∈ L -> b ∈ L -> key_of a = key_of b -> wh_uWordID a = wh_uWordID b.

Lemma clean_from l : ∀ x h, Forall (λ h, dword (wh_uWordPos h)) (x :: l) -> h ∈ clean x l -> ∃ h', h' ∈ x :: l /\ (h = h' \/ h = reset_end h').
Proof.
  induction l as [|y l IH]; intros x h Hd H; cbn [clean] in H; [exists h; split; [done|by left]|]. pose proof Hd as [Hx Hy]%Forall_cons. assert (∀ z, z = x \/ z = reset_end x -> h ∈ z :: clean y l -> ∃ h', h' ∈ x :: y :: l /\ (h = h' \/ h = reset_end h')) as K.
  { intros z Hz [->|Hh]%elem_of_cons; [exists x; split; [by left|done]|]. destruct (IH y h Hy Hh) as (h' & Hh' & E). exists h'. split; [by right|done]. }
  destruct (_ && _); [destruct (same_pos x y)|]; [|apply (K _ (or_intror eq_refl) H)|apply (K _ (or_introl eq_refl) H)]. destruct (IH x h) as (h' & Hh' & E); [apply Forall_cons; split; [done|]; by apply Forall_cons in Hy as [_ ?]|done|]. exists h'. split; [|done]. apply elem_of_cons in Hh' as [->|?]; [by left|by do 2 right].
Qed.

Lemma clean_sig l x h : Forall (λ h, dword (wh_uWordPos h)) (x :: l) -> h ∈ clean x l -> ∃ h', h' ∈ x :: l /\ sig h = sig h'.
Proof. intros Hd H. destruct (clean_from l x h Hd H) as (h' & Hh' & [->| ->]); exists h'; (split; [done|]); [done|]. apply reset_sig. rewrite Forall_forall in Hd. by apply Hd. Qed.

Lemma clean_keeps l : ∀ x h', Forall (λ h, dword (wh_uWordPos h)) (x :: l) -> h' ∈ x :: l -> ∃ h, h ∈ clean x l /\ sig h = sig h'.
Proof.
  induction l as [|y l IH]; intros x h' Hd H; cbn [clean]; [exists h'; done|]. pose proof Hd as [Hx Hy]%Forall_cons. assert (∀ z, sig z = sig x -> ∃ h, h ∈ z :: clean y l /\ sig h = sig h') as K.
  { intros z Hz. apply elem_of_cons in H as [->|H]; [exists z; split; [by left|done]|]. destruct (IH y h' Hy H) as (h & Hh & E). exists h. split; [by right|done]. }
  destruct (_ && _) eqn:Ec; [destruct (same_pos x y) eqn:Ep|]; [|by apply K, reset_sig|by apply K]. assert (Forall (λ h, dword (wh_uWordPos h)) (x :: l)) as Hd' by (apply Forall_cons; split; [done|]; by apply Forall_cons in Hy as [_ ?]). apply andb_true_iff in Ec as [Ew _]. unfold same_word, same_pos in *. apply andb_true_iff in Ew as [Er%Z.eqb_eq Eu%Z.eqb_eq]. apply Z.eqb_eq in Ep.
  apply elem_of_cons in H as [->|H]; [apply IH; [done|by left]|]. apply elem_of_cons in H as [->|H]; [|apply IH; [done|by right]]. destruct (IH x x Hd') as (h & Hh & E); [by left|]. exists h. split; [done|]. rewrite E. unfold sig. congruence.
Qed.

Lemma clean_sorted l : ∀ x, Forall (λ h, dword (wh_uWordPos h)) (x :: l) -> one_id (x :: l) -> StronglySorted hit_le (x :: l) -> StronglySorted hit_lt (clean x l).
Proof.
  induction l as [|y l IH]; intros x Hd Hi Hs; cbn [clean]; [repeat constructor|]. pose proof Hd as [Hx Hy]%Forall_cons. apply StronglySorted_inv in Hs as [Hs Hle]. pose proof Hle as [Hxy _]%Forall_cons. assert (one_id (y :: l)) as Hi' by (intros a b Ha Hb; apply Hi; by right).
  assert (same_word x y && same_pos x y = false -> ∀ z, sig z = sig x -> StronglySorted hit_lt (z :: clean y l)) as K.
  { intros Hn z Hz. constructor; [by apply IH|]. apply Forall_forall. intros h Hh. destruct (clean_sig l y h Hy Hh) as (h' & Hh' & E). apply (sig_lt x h' z h); [done|done|]. assert (hit_lt x y) as Hlt.
    { destruct Hxy as [?|[Ek Hr]]; [by left|right]. split; [done|]. assert (wh_uWordID x = wh_uWordID y) as Eu by (apply Hi; [by left|right; by left|done]). unfold row_lt in *. unfold same_word, same_pos in Hn. rewrite Eu, Z.eqb_refl, andb_true_r in Hn. apply andb_false_iff in Hn as [Hn%Z.eqb_neq|Hn%Z.eqb_neq]; lia. }
    apply (hit_lt_le_trans x y h' Hlt). apply elem_of_cons in Hh' as [->|Hh']; [right; split; [done|unfold row_lt; lia]|]. apply StronglySorted_inv in Hs as [_ Hf]. rewrite Forall_forall in Hf. by apply Hf. }
  match goal with |- context[if ?c then _ else _] => destruct c eqn:Ec end; [destruct (same_pos x y) eqn:Ep|].
  - apply IH; [apply Forall_cons; split; [done|]; by apply Forall_cons in Hy as [_ ?]|intros a b Ha Hb; apply Hi; [apply elem_of_cons in Ha as [->|?]; [by left|by do 2 right]|apply elem_of_cons in Hb as [->|?]; [by left|by do 2 right]]|]. apply StronglySorted_inv in Hs as [Hs _]. apply Forall_cons in Hle as [_ Hle]. by constructor.
  - apply K; [by rewrite andb_false_r|by apply reset_sig].
  - apply K; [|done]. destruct (same_word x y); [|done]. cbn [andb] in Ec |- *. by apply orb_false_iff in Ec as [-> _].
Qed.

(** ** A transaction that is ready *)

Context (key : Z -> wordkey).

(** A word of the transaction and a position. *)
Record good_hit (x : Z * Z) : Prop := {
  gh_key : packed_key f dPacked x.1 = Some (key x.1);
  gh_wf : key_wf f (key x.1);
  gh_zero : RtQwordOk.no_zero (key x.1);
  gh_word : 0 < x.1 < WORDID_MAX;
  gh_pos : dword x.2;
  gh_some : GetPosWithField x.2 ≠ 0
}.

Definition hit_of (h : CSphWordHit) : Z * Z := (wh_uWordID h, wh_uWordPos h).

Lemma good_key h : good_hit (hit_of h) -> hit_key f dPacked h = Some (key (wh_uWordID h)).
Proof. intros [H _ _ _ _ _]. exact H. Qed.

Lemma good_key_of h : good_hit (hit_of h) -> key_of h = key (wh_uWordID h).
Proof. intros H. unfold RtAccum.key_of. by rewrite (good_key h H). Qed.

(** The documents of a transaction; a keyword has one id. *)
Record good_docs (ds : list adoc) : Prop := {
  gd_hits : Forall (λ d : adoc, Forall good_hit d.2) ds;
  gd_inj : ∀ x y, x ∈ concat (map snd ds) -> y ∈ concat (map snd ds) -> key x.1 = key y.1 -> x.1 = y.1
}.

Lemma rows_hit k ds h : h ∈ all_rows k ds <-> ∃ i d, ds !! i = Some d /\ wh_tRowID h = Z.of_nat (k + i) /\ hit_of h ∈ d.2.
Proof.
  revert k. induction ds as [|d ds IH]; intros k; [split; [by intros ?%not_elem_of_nil|by intros (i & ? & ? & _)]|]. rewrite all_rows_cons, elem_of_app, IH. split.
  - intros [H|(i & d' & E & Hr & Hh)].
    + unfold row_hits in H. apply list_elem_of_fmap in H as ([u p] & -> & Hx). exists 0%nat, d. split; [done|]. cbn. split; [lia|done].
    + exists (S i), d'. split; [done|]. split; [lia|done].
  - intros ([|i] & d' & E & Hr & Hh); [left|right; exists i, d'; split; [done|]; split; [lia|done]]. injection E as <-. unfold row_hits. apply list_elem_of_fmap. exists (hit_of h). split; [|done]. unfold hit_of. destruct h; cbn in *. f_equal. lia.
Qed.

Lemma in_docs (ds : list adoc) i d x : ds !! i = Some d -> x ∈ d.2 -> x ∈ concat (map snd ds).
Proof. intros E Hx. apply list_elem_of_In, in_concat. exists d.2. split; apply list_elem_of_In; [|done]. apply list_elem_of_fmap. exists d. split; [done|]. by eapply list_elem_of_lookup_2. Qed.

Lemma good_rows ds h k : good_docs ds -> h ∈ all_rows k ds -> good_hit (hit_of h).
Proof. intros [Hf _] (i & d & E & _ & Hh)%rows_hit. rewrite Forall_lookup in Hf. specialize (Hf i d E). cbn in Hf. rewrite Forall_forall in Hf. by apply Hf. Qed.

Lemma good_one_id ds k : good_docs ds -> one_id (all_rows k ds).
Proof.
  intros Hg a b Ha Hb E. rewrite (good_key_of a (good_rows _ _ _ Hg Ha)), (good_key_of b (good_rows _ _ _ Hg Hb)) in E. apply rows_hit in Ha as (i & d & Ed & _ & Ha). apply rows_hit in Hb as (j & d' & Ed' & _ & Hb). exact (gd_inj ds Hg (hit_of a) (hit_of b) (in_docs _ _ _ _ Ed Ha) (in_docs _ _ _ _ Ed' Hb) E).
Qed.

Lemma good_sub (ds ds' : list adoc) : (∀ d, d ∈ ds' -> d ∈ ds) -> good_docs ds -> good_docs ds'.
Proof.
  intros Hs [Hf Hi]. split; [rewrite Forall_forall in Hf |- *; auto|]. assert (∀ x, x ∈ concat (map snd ds') -> x ∈ concat (map snd ds)) as K; [|auto]. intros x Hx. apply list_elem_of_In, in_concat in Hx as (l & Hl%list_elem_of_In & Hx%list_elem_of_In). apply list_elem_of_fmap in Hl as (d & -> & Hd). apply Hs, list_elem_of_lookup in Hd as (i & Ed). exact (in_docs _ _ _ _ Ed Hx).
Qed.

(** The accumulator after [PreCommitAcc]. *)
Record ready (n : nat) (a : RtAccum_t) (ds : list adoc) : Prop := {
  rd_rows : ra_dAccumRows a = concat (map fst ds);
  rd_size : Forall (λ d : adoc, length d.1 = n) ds;
  rd_docs : ra_uAccumDocs a = Z.of_nat (length ds);
  rd_sorted : StronglySorted hit_lt (ra_dAccum a);
  rd_sig : ∀ x, x ∈ map sig (ra_dAccum a) <-> x ∈ map sig (all_rows 0 ds);
  rd_good : Forall (λ h, good_hit (hit_of h)) (ra_dAccum a);
  rd_one : one_id (ra_dAccum a)
}.

Lemma good_reset h : good_hit (hit_of h) -> good_hit (hit_of (reset_end h)).
Proof.
  intros [H1 H2 H6 H3 H4 H5]. split; try done; unfold hit_of, reset_end in *; cbn [snd wh_uWordPos] in *; rewrite reset_pos by done; [by apply (pos_field_end _ H4)|by rewrite pos_twice].
Qed.

Lemma PreCommitAcc_ok n a ds : holds_docs n a ds -> (2 <= n)%nat -> Z.of_nat (length ds) < INVALID_ROWID -> good_docs ds -> Z.of_nat (length (all_rows 0 (winners (ra_bReplace a) ds))) < 2 ^ 36 ->
  ∃ a', PreCommitAcc f dPacked n a = Some a' /\ ready n a' (winners (ra_bReplace a) ds) /\ ra_dAccumKlist a' = ra_dAccumKlist a /\ ra_iAccumBytes a' = ra_iAccumBytes a /\ (length (ra_dAccum a') <= length (all_rows 0 (winners (ra_bReplace a) ds)))%nat.
Proof.
  intros H Hn Hl Hg Hb. unfold PreCommitAcc. destruct (CleanupDuplicates_ok n a ds H Hn Hl) as (a1 & -> & [H1 H2 H3 H4 H5] & Ek & Eb). cbn [mbind option_bind]. set (ws := winners (ra_bReplace a) ds) in *. assert (good_docs ws) as Hw by (apply (good_sub ds); [|done]; unfold ws; rewrite winners_select; intros d; apply select_in). rewrite H1.
  destruct (SortHits_ok (all_rows 0 ws)) as (l & -> & P & S); [apply Forall_forall; intros h Hh; rewrite good_key by (by eapply good_rows); by eexists|lia|]. cbn [mbind option_bind]. rewrite CleanupHitDuplicates_ok. cbn [mbind option_bind]. eexists. split; [done|]. assert (Forall (λ h, good_hit (hit_of h)) l) as Fg by (apply Forall_forall; intros h; rewrite P; by apply good_rows). assert (one_id l) as Ho by (intros x y; rewrite P; by apply good_one_id). assert (∀ x, x ∈ map sig l <-> x ∈ map sig (all_rows 0 ws)) as Es by (intros x; by rewrite P).
  assert (length l = length (all_rows 0 ws)) as El by (by rewrite P). rewrite <- El. destruct l as [|x l].
  { split; [|split; [done|split; [done|cbn; lia]]]. split; cbn [set_hits ra_dAccum ra_dAccumRows ra_uAccumDocs]; try done. constructor. }
  assert (Forall (λ h, dword (wh_uWordPos h)) (x :: l)) as Hd by (eapply Forall_impl; [exact Fg|]; intros h [_ _ _ _ ? _]; done). split.
  - split; cbn [set_hits ra_dAccum ra_dAccumRows ra_uAccumDocs]; try done.
    + by apply clean_sorted.
    + intros y. rewrite <- Es. rewrite !list_elem_of_fmap. split; [intros (h & -> & Hh); destruct (clean_sig l x h Hd Hh) as (h' & Hh' & E); by exists h'|intros (h' & -> & Hh'); destruct (clean_keeps l x h' Hd Hh') as (h & Hh & E); by exists h].
    + apply Forall_forall. intros h Hh. destruct (clean_from l x h Hd Hh) as (h' & Hh' & E). rewrite Forall_forall in Fg. specialize (Fg h' Hh'). destruct E as [->| ->]; [done|by apply good_reset].
    + intros p q Hp Hq E. destruct (clean_sig l x p Hd Hp) as (p' & Hp' & Ep). destruct (clean_sig l x q Hd Hq) as (q' & Hq' & Eq). rewrite (sig_key p p' Ep), (sig_key q q' Eq) in E. pose proof (Ho p' q' Hp' Hq' E). injection Ep as _ -> _. by injection Eq as _ -> _.
  - split; [done|]. split; [done|]. cbn [set_hits ra_dAccum]. clear. revert x. induction l as [|y l IH]; intros x; cbn [clean length]; [lia|]. destruct (_ && _); [destruct (same_pos x y)|]; cbn [length]; [specialize (IH x)|specialize (IH y)|specialize (IH y)]; cbn [length] in IH; lia.
Qed.
End Hits.
End RtAccumOk.

(** * The postings of the documents of a transaction

    The segment that is made of a prepared accumulator holds, for every word and
    every row, the hits of the document of that row. *)

From stdpp Require Import sorting gmap.
From S2P Require Import Prelude Hits SearchNode RtSegment RtSegmentOk RtDelete RtQwordOk RtSearch RtAccum.
Import Hitman RtSegment RtSegmentOk RtCreateOk RtMergeOk RtQwordOk RtSearch RtAccum RtAccumOk.

Module RtGroupOk.

Abbreviation INVALID_ROWID := SearchNode.INVALID_ROWID.

Section Group.
Context (f : DictFormat_e) (dPacked : list Z) (key : Z -> wordkey).

(** The positions of a word in a row. *)
Definition posts (L : list CSphWordHit) (u r : Z) : list Z := map wh_uWordPos (List.filter (λ h, (wh_uWordID h =? u) && (wh_tRowID h =? r)) L).

Definition hit_order (a b : CSphWordHit) : Prop := key_lt (key (wh_uWordID a)) (key (wh_uWordID b)) \/ (wh_uWordID a = wh_uWordID b /\ wh_tRowID a <= wh_tRowID b).

Record grouped (L : list CSphWordHit) (G : list rawword) : Prop := {
  gr_keys : sorted_keys (map key (map fst G));
  gr_rows : ∀ u ds, (u, ds) ∈ G -> ds ≠ [] /\ StronglySorted Z.lt (map fst ds) /\ ∀ r ps, (r, ps) ∈ ds -> ps = posts L u r;
  gr_all : ∀ h, h ∈ L -> ∃ ds ps, (wh_uWordID h, ds) ∈ G /\ (wh_tRowID h, ps) ∈ ds;
  gr_from : ∀ u ds r ps, (u, ds) ∈ G -> (r, ps) ∈ ds -> ∃ h, h ∈ L /\ wh_uWordID h = u /\ wh_tRowID h = r
}.

Lemma posts_cons h L u r : posts (h :: L) u r = if (wh_uWordID h =? u) && (wh_tRowID h =? r) then wh_uWordPos h :: posts L u r else posts L u r.
Proof. unfold posts. cbn [List.filter]. by destruct (_ && _). Qed.

Lemma posts_none L u r : (∀ h, h ∈ L -> wh_uWordID h = u -> wh_tRowID h = r -> False) -> posts L u r = [].
Proof.
  induction L as [|h L IH]; intros H; [done|]. rewrite posts_cons, IH by (intros x Hx; apply H; by right). destruct (Z.eqb_spec (wh_uWordID h) u) as [E|]; [|done]. destruct (Z.eqb_spec (wh_tRowID h) r) as [E'|]; [|done]. exfalso. apply (H h); [by left|done|done].
Qed.

Lemma sorted_ids (G : list rawword) u ds ds' : sorted_keys (map key (map fst G)) -> (u, ds) ∈ G -> (u, ds') ∈ G -> ds = ds'.
Proof.
  induction G as [|w G IH]; intros Hs H H'; [by apply not_elem_of_nil in H|]. cbn [map] in Hs. apply StronglySorted_inv in Hs as [Hs Hf]. rewrite Forall_map, Forall_map, Forall_forall in Hf. apply elem_of_cons in H as [<-|H]; apply elem_of_cons in H' as [E|H'].
  - by injection E.
  - specialize (Hf _ H'). cbn in Hf. by apply key_lt_irrefl in Hf.
  - subst w. specialize (Hf _ H). cbn in Hf. by apply key_lt_irrefl in Hf.
  - by apply IH.
Qed.

Lemma group_ok L : StronglySorted hit_order L -> grouped L (group L).
Proof.
  induction L as [|h L IH]; intros Hs; [split; cbn; [constructor|by intros ? ? ?%not_elem_of_nil|by intros ? ?%not_elem_of_nil|by intros ? ? ? ? ?%not_elem_of_nil]|]. apply StronglySorted_inv in Hs as [Hs Hf]. destruct (IH Hs) as [G1 G2 G3 G4]. cbn [group foldr]. fold (group L). set (G := group L) in *. set (u := wh_uWordID h). set (r := wh_tRowID h). set (p := wh_uWordPos h). rewrite Forall_forall in Hf.
  assert (∀ u' ds', (u', ds') ∈ G -> u' ≠ u -> key_lt (key u) (key u')) as Above.
  { intros u' ds' Hin Nu. destruct (G2 u' ds' Hin) as (Nn & _ & _). destruct ds' as [|[r' ps'] ds']; [done|]. destruct (G4 u' _ r' ps' Hin ltac:(by left)) as (h' & Hh' & Eu & _). destruct (Hf h' Hh') as [Hk|[Ew _]]; [by rewrite Eu in Hk|]. unfold u in Nu. congruence. }
  assert (∀ u' r' ps', u' ≠ u \/ r' ≠ r -> ps' = posts L u' r' -> ps' = posts (h :: L) u' r') as Other.
  { intros u' r' ps' N ->. rewrite posts_cons. fold u r. destruct (Z.eqb_spec u u') as [<-|]; [|done]. destruct (Z.eqb_spec r r') as [<-|]; [|done]. by destruct N. }
  assert (∀ ds0, (∀ ds, (u, ds) ∈ G -> ds = ds0) -> (∀ r' ps, (r', ps) ∈ ds0 -> r < r') -> posts (h :: L) u r = [p]) as New.
  { intros ds0 H1 H2. rewrite posts_cons. fold u r p. rewrite !Z.eqb_refl. cbn [andb]. f_equal. apply posts_none. intros h' Hh' Eu Er. destruct (G3 h' Hh') as (ds & ps & Hin & Hd). rewrite Eu in Hin. rewrite Er in Hd. rewrite (H1 ds Hin) in Hd. pose proof (H2 r ps Hd). lia. }
  destruct G as [|[u' [|[r' ps'] ds]] ws] eqn:EG.
  - assert (L = []) as EL by (destruct L as [|x L]; [done|]; destruct (G3 x ltac:(by left)) as (? & ? & ?%not_elem_of_nil & _); done). cbn [attach app]. split; cbn [map fst].
    + repeat constructor.
    + intros v ds [= -> ->]%list_elem_of_singleton. split; [done|]. split; [repeat constructor|]. intros r' ps [= -> ->]%list_elem_of_singleton. symmetry. apply (New []); [by intros ? ?%not_elem_of_nil|by intros ? ? ?%not_elem_of_nil].
    + intros x [->|Hx]%elem_of_cons; [|rewrite EL in Hx; by apply not_elem_of_nil in Hx]. exists [(r, [p])], [p]. split; by left.
    + intros v ds r' ps [= -> ->]%list_elem_of_singleton [= -> ->]%list_elem_of_singleton. exists h. split; [by left|done].
  - destruct (G2 u' []) as (? & _); [by left|done].
  - destruct (G2 u' ((r', ps') :: ds) ltac:(by left)) as (_ & Sr & Hp). cbn [map fst] in Sr, G1. pose proof (StronglySorted_inv Sr) as [Sd Fd]. rewrite Forall_map, Forall_forall in Fd. pose proof (StronglySorted_inv G1) as [Gs Gf]. rewrite Forall_map, Forall_map, Forall_forall in Gf. cbn [fst] in Gf. cbn [attach app]. destruct (Z.eqb_spec u u') as [<-|Nu].
    + assert (∀ x, x ∈ ws -> x.1 ≠ u) as Nw by (intros x Hx E; specialize (Gf x Hx); rewrite E in Gf; by apply key_lt_irrefl in Gf). assert (r <= r') as Hr. { destruct (G4 u _ r' ps' ltac:(by left) ltac:(by left)) as (h' & Hh' & Eu & Er). destruct (Hf h' Hh') as [Hk|[_ Hk]]; [fold u in Hk; rewrite Eu in Hk; by apply key_lt_irrefl in Hk|fold r in Hk; lia]. }
      assert (∀ D, D ≠ [] -> StronglySorted Z.lt (map fst D) -> (∀ r0 ps0, (r0, ps0) ∈ D -> ps0 = posts (h :: L) u r0) -> (∀ r0, (∃ ps0, (r0, ps0) ∈ (r', ps') :: ds) \/ r0 = r <-> ∃ ps0, (r0, ps0) ∈ D) -> grouped (h :: L) ((u, D) :: ws)) as Build.
      { intros D Dn Ds Dp De. split; cbn [map fst]; [done| | |].
        - intros v ds' [[= -> ->]|Hin]%elem_of_cons; [done|]. destruct (G2 v ds' ltac:(by right)) as (A & B & C). split; [done|]. split; [done|]. intros r0 ps0 H0. apply (Other v r0 ps0); [left; exact (Nw _ Hin)|by apply C].
        - intros x [->|Hx]%elem_of_cons; [destruct (proj1 (De r) (or_intror eq_refl)) as [ps0 H0]; exists D, ps0; split; [by left|done]|]. destruct (G3 x Hx) as (ds' & ps0 & [[= Eu ->]|Hin]%elem_of_cons & Hd); [|exists ds', ps0; split; [by right|done]]. destruct (proj1 (De (wh_tRowID x))) as [ps1 H1]; [left; by exists ps0|]. exists D, ps1. rewrite Eu. split; [by left|done].
        - intros v ds' r0 ps0 [[= -> ->]|Hin]%elem_of_cons H0; [|destruct (G4 v ds' r0 ps0 ltac:(by right) H0) as (x & Hx & ?); exists x; split; [by right|done]]. destruct (proj2 (De r0)) as [[ps1 H1]| ->]; [by exists ps0| |exists h; split; [by left|done]]. destruct (G4 u _ r0 ps1 ltac:(by left) H1) as (x & Hx & ?). exists x. split; [by right|done]. }
      destruct (Z.eqb_spec r r') as [<-|Nr]; apply Build.
      * done.
      * cbn [map fst]. done.
      * intros r0 ps0 [[= -> ->]|Hd]%elem_of_cons; [rewrite posts_cons; fold u r p; rewrite !Z.eqb_refl; cbn [andb]; f_equal; apply Hp; by left|]. apply Other; [right; specialize (Fd _ Hd); cbn in Fd; lia|apply Hp; by right].
      * intros r0. split; [intros [[ps0 [[= -> ->]|H0]%elem_of_cons]| ->]; eexists; [by left|by right|by left]|intros [ps0 [[= -> ->]|H0]%elem_of_cons]; [by right|left; eexists; by right]].
      * done.
      * cbn [map fst]. constructor; [done|]. apply Forall_cons. split; [lia|]. rewrite Forall_map, Forall_forall. intros x Hx. specialize (Fd x Hx). cbn in Fd. lia.
      * intros r0 ps0 [[= -> ->]|Hd]%elem_of_cons.
        -- symmetry. apply (New ((r', ps') :: ds)); [intros ds1 [[= ->]|Hin]%elem_of_cons; [done|]; exfalso; by apply (Nw _ Hin)|]. intros r1 ps1 [[= -> ->]|H1]%elem_of_cons; [lia|]. specialize (Fd _ H1). cbn in Fd. lia.
        -- apply Other; [right; apply elem_of_cons in Hd as [[= -> ->]|Hd]; [lia|]; specialize (Fd _ Hd); cbn in Fd; lia|by apply Hp].
      * intros r0. split; [intros [[ps0 H0]| ->]; eexists; [by right|by left]|intros [ps0 [[= -> ->]|H0]%elem_of_cons]; [by right|left; by eexists]].
    + assert (∀ ds', (u, ds') ∈ (u', (r', ps') :: ds) :: ws -> False) as No.
      { intros ds' [[= ? _]|Hin]%elem_of_cons; [done|]. pose proof (Above u' _ ltac:(by left) ltac:(done)) as K1. specialize (Gf _ Hin). cbn in Gf. apply (key_lt_irrefl (key u)). by apply (key_lt_trans _ _ _ K1). }
      split; cbn [map fst].
      * constructor; [done|]. apply Forall_cons. split; [apply (Above u' ((r', ps') :: ds)); [by left|done]|]. rewrite Forall_map, Forall_map, Forall_forall. intros [v dv] Hx. cbn. apply (Above v dv); [by right|]. intros ->. apply (No dv). by right.
      * intros v dv [[= -> ->]|Hin]%elem_of_cons.
        -- split; [done|]. split; [repeat constructor|]. intros r0 ps0 [= -> ->]%list_elem_of_singleton. symmetry. apply (New []); [intros ds1 Hin; exfalso; by apply (No ds1)|by intros ? ? ?%not_elem_of_nil].
        -- destruct (G2 v dv Hin) as (A & B & C). split; [done|]. split; [done|]. intros r0 ps0 H0. apply Other; [left; intros ->; by apply (No dv)|by apply C].
      * intros x [->|Hx]%elem_of_cons; [exists [(r, [p])], [p]; split; by left|]. destruct (G3 x Hx) as (dx & px & Hin & Hd). exists dx, px. split; [by right|done].
      * intros v dv r0 ps0 [[= -> ->]|Hin]%elem_of_cons H0; [apply list_elem_of_singleton in H0 as [= -> ->]; exists h; split; [by left|done]|]. destruct (G4 v dv r0 ps0 Hin H0) as (x & Hx & ?). exists x. split; [by right|done].
Qed.

(** ** The hits of a document *)

(** What the segment holds for a word and a row: field masks and hits. *)
Definition row_posts (k : wordkey) (r : Z) (gs : list gword) : list (Z * list Z) := map (λ g, (g_fields g, g_hits g)) (List.filter (λ g, g_row g =? r) (docs_for k gs)).

Definition pos_lt (p q : Z) : Prop := GetPosWithField p < GetPosWithField q.

(** It is right for a document with the hits [hs]: nothing if the document lacks the
    word, else its positions in order, each once, with the mask of their fields. *)
Definition shows (hs : list (wordkey * Z)) (k : wordkey) (ps : list (Z * list Z)) : Prop :=
  (ps = [] /\ ∀ p, (k, p) ∉ hs) \/
  (∃ l, ps = [(fields_of l, l)] /\ l ≠ [] /\ StronglySorted pos_lt l /\ ∀ g, g ∈ map GetPosWithField l <-> ∃ p, (k, p) ∈ hs /\ GetPosWithField p = g).

Definition keyed (hs : list (Z * Z)) : list (wordkey * Z) := map (λ x, (key x.1, x.2)) hs.

Lemma lookup_posts L u r g : g ∈ map GetPosWithField (posts L u r) <-> (r, u, g) ∈ map sig L.
Proof.
  unfold posts. rewrite map_map, !list_elem_of_fmap. split.
  - intros (h & -> & Hh). apply list_elem_of_In, filter_In in Hh as [Hh [Eu%Z.eqb_eq Er%Z.eqb_eq]%andb_true_iff]. exists h. split; [unfold sig; congruence|by apply list_elem_of_In].
  - intros (h & [= -> -> ->] & Hh). exists h. split; [done|]. apply list_elem_of_In, filter_In. split; [by apply list_elem_of_In|]. by rewrite !Z.eqb_refl.
Qed.

Lemma posts_sorted L u r : (∀ h, h ∈ L -> key_of f dPacked h = key (wh_uWordID h)) -> StronglySorted (hit_lt f dPacked) L -> StronglySorted pos_lt (posts L u r).
Proof.
  induction L as [|h L IH]; intros Hk Hs; [constructor|]. apply StronglySorted_inv in Hs as [Hs Hf]. assert (StronglySorted pos_lt (posts L u r)) as IH' by (apply IH; [intros x Hx; apply Hk; by right|done]). rewrite posts_cons. destruct (Z.eqb_spec (wh_uWordID h) u) as [Eu|]; [|done]. destruct (Z.eqb_spec (wh_tRowID h) r) as [Er|]; [|done]. cbn [andb]. constructor; [done|]. unfold posts. rewrite Forall_map, Forall_forall. intros x Hx. apply list_elem_of_In, filter_In in Hx as [Hx [Eu'%Z.eqb_eq Er'%Z.eqb_eq]%andb_true_iff]. rewrite Forall_forall in Hf. destruct (Hf x ltac:(by apply list_elem_of_In)) as [H|[_ H]]; [|unfold row_lt in H; unfold pos_lt; lia].
  rewrite (Hk h), (Hk x) in H; [|right; by apply list_elem_of_In|by left]. rewrite Eu, Eu' in H. by apply key_lt_irrefl in H.
Qed.

Lemma squeeze_sorted l : ∀ prev, (prev = 0 \/ ∀ p, p ∈ l -> pos_lt prev p) -> Forall (λ p, GetPosWithField p ≠ 0) l -> StronglySorted pos_lt l -> squeeze prev l = l.
Proof.
  induction l as [|p l IH]; intros prev H Hz Hs; [done|]. apply Forall_cons in Hz as [Hp Hz]. apply StronglySorted_inv in Hs as [Hs Hf]. cbn [squeeze]. destruct (Z.eqb_spec prev p) as [->|].
  - exfalso. destruct H as [->|H]; [done|]. specialize (H p ltac:(by left)). unfold pos_lt in H. lia.
  - f_equal. apply IH; [|done|done]. right. by rewrite Forall_forall in Hf.
Qed.

Lemma filter_row_doc has r (ds : list rawdoc) : StronglySorted Z.lt (map fst ds) -> (∀ ps, (r, ps) ∈ ds -> List.filter (λ g, g_row g =? r) (map (doc_of has) ds) = [doc_of has (r, ps)]) /\ ((∀ ps, (r, ps) ∉ ds) -> List.filter (λ g, g_row g =? r) (map (doc_of has) ds) = []).
Proof.
  induction ds as [|[r0 ps0] ds IH]; intros Hs; [split; [by intros ? ?%not_elem_of_nil|done]|]. cbn [map fst] in Hs. apply StronglySorted_inv in Hs as [Hs Hf]. destruct (IH Hs) as [IH1 IH2]. rewrite Forall_map, Forall_forall in Hf. cbn [map List.filter]. change (g_row (doc_of has (r0, ps0))) with r0. destruct (Z.eqb_spec r0 r) as [->|Nr]; split.
  - intros ps [[= ->]|H]%elem_of_cons; [|specialize (Hf _ H); cbn in Hf; lia]. f_equal. apply IH2. intros ps' H. specialize (Hf _ H). cbn in Hf. lia.
  - intros H. exfalso. apply (H ps0). by left.
  - intros ps [[= ? _]|H]%elem_of_cons; [done|by apply IH1].
  - intros H. apply IH2. intros ps Hp. apply (H ps). by right.
Qed.

Section Ready.
Context (n : nat) (a : RtAccum_t) (ds : list adoc) (R : ready f dPacked key n a ds).
Abbreviation L := (ra_dAccum a).
Abbreviation gs := (map (word_of key (λ _, true)) (group L)).

Lemma ready_key h : h ∈ L -> key_of f dPacked h = key (wh_uWordID h).
Proof. intros H. apply (good_key_of f dPacked key). pose proof (rd_good _ _ _ _ _ _ R) as G. rewrite Forall_forall in G. by apply G. Qed.

Lemma ready_order : StronglySorted (hit_order) L.
Proof.
  pose proof (rd_sorted _ _ _ _ _ _ R) as S. pose proof (rd_one _ _ _ _ _ _ R) as O. pose proof ready_key as K. revert O K. induction S as [|h l _ IH Hf]; intros O K; constructor; [apply IH; [intros x y Hx Hy; apply O; by right|intros x Hx; apply K; by right]|]. rewrite Forall_forall in Hf |- *. intros x Hx. destruct (Hf x Hx) as [H|[E H]]; unfold hit_order; rewrite <- (K h), <- (K x) by (by left || by right); [by left|right]. split; [apply O; [by left|by right|done]|unfold row_lt in H; lia].
Qed.

Lemma ready_sig r u g : (r, u, g) ∈ map sig L <-> ∃ i d p, ds !! i = Some d /\ r = Z.of_nat i /\ (u, p) ∈ d.2 /\ GetPosWithField p = g.
Proof.
  rewrite (rd_sig _ _ _ _ _ _ R), list_elem_of_fmap. split.
  - intros (h & [= -> -> ->] & (i & d & Ed & Er & Hh)%rows_hit). exists i, d, (wh_uWordPos h). done.
  - intros (i & d & p & Ed & -> & Hx & <-). exists (WordHit (Z.of_nat i) u p). split; [done|]. apply rows_hit. exists i, d. done.
Qed.

Lemma ready_word u ds' : (u, ds') ∈ group L -> ∃ h, h ∈ L /\ wh_uWordID h = u.
Proof.
  destruct (group_ok L ready_order) as [_ G2 _ G4]. intros H. destruct (G2 u ds' H) as (N & _ & _). destruct ds' as [|[r p] ds']; [done|]. destruct (G4 u _ r p H ltac:(by left)) as (h & Hh & E & _). by exists h.
Qed.

Lemma ready_unique u u' ds1 ds2 : (u, ds1) ∈ group L -> (u', ds2) ∈ group L -> key u = key u' -> u = u' /\ ds1 = ds2.
Proof.
  intros H H' E. destruct (ready_word u ds1 H) as (h & Hh & <-). destruct (ready_word u' ds2 H') as (h' & Hh' & <-). assert (wh_uWordID h = wh_uWordID h') as Eu by (apply (rd_one _ _ _ _ _ _ R); [done|done|by rewrite !ready_key]). split; [done|]. rewrite Eu in H. by apply (sorted_ids (group L) _ _ _ (gr_keys _ _ (group_ok L ready_order)) H H').
Qed.

(** A hit of a document is found in the groups. *)
Lemma ready_has i d k p : ds !! i = Some d -> (k, p) ∈ keyed d.2 -> ∃ u ds' ps, key u = k /\ (u, p) ∈ d.2 /\ (u, ds') ∈ group L /\ (Z.of_nat i, ps) ∈ ds'.
Proof.
  intros Ed H. unfold keyed in H. apply list_elem_of_fmap in H as ([u q] & [= -> ->] & Hx). pose proof (proj2 (ready_sig (Z.of_nat i) u (GetPosWithField q)) (ex_intro _ i (ex_intro _ d (ex_intro _ q (conj Ed (conj eq_refl (conj Hx eq_refl))))))) as Hs. apply list_elem_of_fmap in Hs as (h & [= Er Eu _] & Hh). destruct (gr_all _ _ (group_ok L ready_order) h Hh) as (ds' & ps & Hu & Hd). rewrite <- Eu in Hu. rewrite <- Er in Hd. by exists u, ds', ps.
Qed.

Lemma ready_docs u ds' : (u, ds') ∈ group L -> docs_for (key u) gs = map (doc_of true) ds'.
Proof.
  intros H. apply (key_unique gs (word_of key (λ _, true) (u, ds'))); [|apply list_elem_of_fmap; by exists (u, ds')]. rewrite map_map. cbn. pose proof (gr_keys _ _ (group_ok L ready_order)) as G. by rewrite map_map in G.
Qed.

Lemma ready_positions u ds' r ps : (u, ds') ∈ group L -> (r, ps) ∈ ds' -> ps = posts L u r /\ ps ≠ [] /\ StronglySorted pos_lt ps /\ squeeze 0 ps = ps.
Proof.
  intros H Hd. destruct (group_ok L ready_order) as [_ G2 _ G4]. destruct (G2 u ds' H) as (_ & _ & Hp). pose proof (Hp r ps Hd) as ->. destruct (G4 u ds' r _ H Hd) as (h & Hh & Eu & Er). assert (StronglySorted pos_lt (posts L u r)) as Ss by (apply posts_sorted; [apply ready_key|apply (rd_sorted _ _ _ _ _ _ R)]). split; [done|]. split; [|split; [done|]].
  - intros E. assert (GetPosWithField (wh_uWordPos h) ∈ map GetPosWithField (posts L u r)) as K; [apply lookup_posts, list_elem_of_fmap; exists h; split; [unfold sig; congruence|done]|]. rewrite E in K. by apply not_elem_of_nil in K.
  - apply squeeze_sorted; [by left| |done]. unfold posts. rewrite Forall_map, Forall_forall. intros x Hx. apply list_elem_of_In, filter_In in Hx as [Hx%list_elem_of_In _]. pose proof (rd_good _ _ _ _ _ _ R) as G. rewrite Forall_forall in G. exact (gh_some _ _ _ _ (G x Hx)).
Qed.

Lemma ready_shows i d k : ds !! i = Some d -> shows (keyed d.2) k (row_posts k (Z.of_nat i) gs).
Proof.
  intros Ed. destruct (decide (k ∈ map (λ w, key w.1) (group L))) as [Hk|Nk].
  - apply list_elem_of_fmap in Hk as ([u ds'] & -> & Hw). cbn [fst]. destruct (gr_rows _ _ (group_ok L ready_order) u ds' Hw) as (_ & Sr & _). destruct (filter_row_doc true (Z.of_nat i) ds' Sr) as [F1 F2]. unfold row_posts. rewrite (ready_docs u ds' Hw). destruct (decide (Z.of_nat i ∈ map fst ds')) as [Hi|Hi].
    + apply list_elem_of_fmap in Hi as ([r ps] & Er & Hr). cbn in Er. subst r. right. rewrite (F1 ps Hr). destruct (ready_positions u ds' _ ps Hw Hr) as (Ep & Nn & Ss & Sq). cbn [map doc_of g_fields g_hits fst snd]. change EMPTY_HIT with 0. rewrite Sq. exists ps. split; [done|]. split; [done|]. split; [done|]. intros g. rewrite Ep, lookup_posts, ready_sig. split.
      * intros (j & d' & p & Ej & Ei & Hx & <-). apply Nat2Z.inj in Ei as <-. rewrite Ed in Ej. injection Ej as <-. exists p. split; [|done]. unfold keyed. apply list_elem_of_fmap. by exists (u, p).
      * intros (p & Hp & <-). destruct (ready_has i d _ p Ed Hp) as (u' & ds'' & ps'' & Ek & Hx & Hu & _). destruct (ready_unique u' u ds'' ds' Hu Hw Ek) as [-> _]. by exists i, d, p.
    + left. rewrite F2 by (intros ps H; apply Hi, list_elem_of_fmap; by exists (Z.of_nat i, ps)). split; [done|]. intros p Hp. destruct (ready_has i d _ p Ed Hp) as (u' & ds'' & ps'' & Ek & Hx & Hu & Hd). destruct (ready_unique u' u ds'' ds' Hu Hw Ek) as [_ ->]. apply Hi, list_elem_of_fmap. by exists (Z.of_nat i, ps'').
  - left. unfold row_posts. rewrite docs_for_absent; [split; [done|]|].
    + intros p Hp. destruct (ready_has i d k p Ed Hp) as (u & ds' & ps & <- & _ & Hu & _). apply Nk, list_elem_of_fmap. by exists (u, ds').
    + intros H. apply Nk. by rewrite map_map in H.
Qed.

Definition raw_hits (G : list rawword) : nat := sum_list_with (λ w : rawword, sum_list_with (λ d : rawdoc, length d.2) w.2) G.

Lemma group_count (l : list CSphWordHit) : raw_hits (group l) = length l.
Proof.
  induction l as [|h l IH]; [done|]. cbn [group foldr length]. fold (group l). rewrite <- IH. destruct (group l) as [|[u [|[r ps] ds']] ws] eqn:E.
  - done.
  - destruct l as [|h' l]; [done|]. cbn [group foldr] in E. destruct (attach_cons (wh_uWordID h') [] (wh_tRowID h') [wh_uWordPos h'] (group l)) as (d1 & w1 & E1 & N1). fold (group l) in E. rewrite E1 in E. by injection E as _ -> _.
  - cbn [attach app]. unfold raw_hits. destruct (wh_uWordID h =? u); [destruct (wh_tRowID h =? r)|]; cbn [sum_list_with snd app length]; rewrite ?length_app; cbn; lia.
Qed.

Lemma total_raw (G : list rawword) : (total_hits (map (word_of key (λ _, true)) G) <= raw_hits G)%nat.
Proof.
  unfold total_hits, raw_hits. induction G as [|[u ds'] G IH]; [done|]. cbn [map sum_list_with word_of g_docs fst snd]. apply Nat.add_le_mono; [|done]. unfold all_hits. clear IH. induction ds' as [|[r ps] ds' IH]; [done|]. cbn [map sum_list_with doc_of g_hits fst snd]. apply Nat.add_le_mono; [apply squeeze_length|done].
Qed.

Lemma total_word g gs' : g ∈ gs' -> (all_hits (g_docs g) <= total_hits gs')%nat.
Proof. unfold total_hits. induction gs' as [|x gs' IH]; [by intros ?%not_elem_of_nil|]. intros [->|H]%elem_of_cons; cbn [sum_list_with]; [lia|specialize (IH H); lia]. Qed.

(** The hits are those that [CreateSegmentHits] takes. *)
Lemma ready_accum dHitlessWords : Z.of_nat (length ds) <= INVALID_ROWID -> Forall (accum_hit f SPH_HITLESS_NONE dPacked dHitlessWords key (λ _, true)) L.
Proof.
  intros Hn. apply Forall_forall. intros h Hh. pose proof (rd_good _ _ _ _ _ _ R) as G. rewrite Forall_forall in G. destruct (G h Hh) as [H1 H2 H3 H4 H5 H6]. assert (sig h ∈ map sig L) as Hs by (apply list_elem_of_fmap; by exists h). unfold sig in Hs. apply ready_sig in Hs as (i & d & p & Ed & Er & _ & _). split; [|done|split; [done|]|done|done|done].
  - rewrite Er. apply lookup_lt_Some in Ed. lia.
  - intros E. apply H6. cbn [hit_of snd]. by rewrite E.
Qed.

Lemma ready_segment cp dHitlessWords : Z.of_nat (length ds) <= INVALID_ROWID -> Z.of_nat (length L) < 2 ^ 27 ->
  ∃ seg, CreateSegmentHits f cp SPH_HITLESS_NONE dPacked dHitlessWords L = Some seg /\ searchable f cp SPH_HITLESS_NONE seg gs /\ (total_hits gs <= length L)%nat /\ Forall (λ g, Forall (λ d, 0 <= g_row d < Z.of_nat (length ds)) (g_docs g)) gs.
Proof.
  intros Hn Hl. destruct (group_ok L ready_order) as [G1 G2 G3 G4]. destruct (create_represents f cp SPH_HITLESS_NONE dPacked dHitlessWords key (λ _, true) L (ready_accum dHitlessWords Hn) Hl G1) as (seg & E & Re). exists seg. split; [done|]. pose proof (total_raw (group L)) as T. rewrite group_count in T. assert (Forall (λ g, Forall (λ d, 0 <= g_row d < Z.of_nat (length ds)) (g_docs g)) gs) as Fr.
  { rewrite Forall_map, Forall_forall. intros [u ds'] Hw. cbn [word_of g_docs fst snd]. rewrite Forall_map, Forall_forall. intros [r ps] Hd. cbn [doc_of g_row fst]. destruct (G4 u ds' r ps Hw Hd) as (h & Hh & _ & <-). assert (sig h ∈ map sig L) as Hs by (apply list_elem_of_fmap; by exists h). unfold sig in Hs. apply ready_sig in Hs as (i & d & p & Ed & -> & _ & _). apply lookup_lt_Some in Ed. lia. }
  split; [|by split]. split; [done| |].
  - rewrite Forall_map, Forall_forall. intros [u ds'] Hw. cbn [word_of g_key fst]. destruct (ready_word u ds' Hw) as (h & Hh & <-). pose proof (rd_good _ _ _ _ _ _ R) as G. rewrite Forall_forall in G. exact (gh_zero _ _ _ _ (G h Hh)).
  - rewrite Forall_forall. intros g Hg. pose proof (total_word g gs Hg) as Tg. apply list_elem_of_fmap in Hg as ([u ds'] & -> & Hw). destruct (G2 u ds' Hw) as (_ & Sr & Hp). cbn [word_of g_docs fst snd]. split; [rewrite map_map; exact Sr|]. rewrite Forall_map, Forall_forall in Fr. specialize (Fr _ Hw). cbn [word_of g_docs fst snd] in Fr. split; [eapply Forall_impl; [exact Fr|]; cbn; lia|]. split; [|cbn [word_of g_docs fst snd] in Tg; lia].
    unfold RtDelete.hits_ok. rewrite Forall_map, Forall_forall. intros [r ps] Hd. cbn [doc_of g_hits fst snd]. destruct (ready_positions u ds' r ps Hw Hd) as (-> & _ & _ & Sq). change EMPTY_HIT with 0. rewrite Sq. unfold posts. rewrite Forall_map, Forall_forall. intros h Hh. apply list_elem_of_In, filter_In in Hh as [Hh%list_elem_of_In _]. pose proof (ready_accum dHitlessWords Hn) as A. rewrite Forall_forall in A. exact (ah_pos _ _ _ _ _ _ _ (A h Hh)).
Qed.
End Ready.
End Group.
End RtGroupOk.
