(* ===== verification/RtRam.v ===== *)
(** * The RAM chunk of a real-time index (src/src/sphinxrt.cpp)

    Segments with their rows, the map from document ids to rows, the dead rows and
    the words; the commit of a transaction, which kills the old versions of its
    documents and adds a segment, and the merging of segments. An index without disk
    chunks, whose rows have no blob, columnar or stored attributes; the serial worker
    runs the operations one after another. *)

From Stdlib Require Import SpecFloat.
From stdpp Require Import sorting gmap.
From S2P Require Import Prelude Sort SearchNode Ranker Blob DeadMap OpenHash RtSegment RtAccum.
Import Sort SearchNode RtSegment RtAccum.

Module RtRam.

Abbreviation docid_map := (OpenHash.OpenHashTable_T Z Z).

(** [RtSegment_t]: the words are those of [RtSegment]. *)
Record RamSegment := RamSeg {
  rs_tWords : RtSegment_t;
  rs_uRows : Z;
  rs_tAliveRows : Z;
  rs_dRows : list Z;
  rs_tDocIDtoRowID : docid_map;
  rs_tDeadRowMap : DeadMap.DeadRowMap_c;
  rs_iLocked : Z
}.

(** ** Document ids and rows *)

Definition find_row (h : docid_map) (tDocID : Z) : option (option Z) := OpenHash.Find OpenHash.GetHash_Int64 h tDocID.
Definition add_row (h : docid_map) (tDocID tRowID : Z) : option (bool * docid_map) := OpenHash.Add OpenHash.GetHash_Int64 0 0 h tDocID tRowID.

Definition GetRowidByDocid (s : RamSegment) (tDocID : Z) : option Z := pRowID ← find_row (rs_tDocIDtoRowID s) tDocID; Some (default INVALID_ROWID pRowID).

Definition GetAliveRowidByDocid (s : RamSegment) (tDocID : Z) : option Z :=
  pRowID ← find_row (rs_tDocIDtoRowID s) tDocID;
  match pRowID with
  | None => Some INVALID_ROWID
  | Some tRowID => bDead ← DeadMap.IsSet tRowID (rs_tDeadRowMap s); Some (if (bDead : bool) then INVALID_ROWID else tRowID)
  end.

Definition IsAlive (s : RamSegment) (tDocid : Z) : option bool :=
  tRowID ← GetRowidByDocid s tDocid;
  if tRowID =? INVALID_ROWID then Some false else bDead ← DeadMap.IsSet tRowID (rs_tDeadRowMap s); Some (negb bDead).

(** The loop of [BuildDocID2RowIDMap] over the rows that are left. *)
Fixpoint map_rows (fuel : nat) (iStride : nat) (dRows : list Z) (tRowID : Z) (h : docid_map) : option docid_map :=
  match fuel with
  | O => None
  | S fuel' =>
      match dRows with
      | [] => Some h
      | _ => tDocID ← sphGetDocID dRows; '(_, h) ← add_row h tDocID tRowID; map_rows fuel' iStride (drop iStride dRows) (cast DWORD (tRowID + 1)) h
      end
  end.

Definition GetStride (dRows : list Z) (uRows : Z) : option nat := if uRows =? 0 then None else Some (Z.to_nat (Z.of_nat (length dRows) / uRows)).

Definition BuildDocID2RowIDMap (dRows : list Z) (uRows : Z) : option docid_map :=
  iStride ← GetStride dRows uRows; map_rows (S (length dRows)) iStride dRows 0 (OpenHash.Reset 0 0 uRows).

(** ** Killing *)

Definition Kill (tDocID : Z) (s : RamSegment) : option (Z * RamSegment) :=
  tRowID ← GetRowidByDocid s tDocID;
  '(bKilled, m) ← DeadMap.Set_ tRowID (rs_tDeadRowMap s);
  let iKilled := if (bKilled : bool) then 1 else 0 in
  Some (iKilled, RamSeg (rs_tWords s) (rs_uRows s) (rs_tAliveRows s - iKilled) (rs_dRows s) (rs_tDocIDtoRowID s) m (rs_iLocked s)).

Fixpoint KillMulti (dKlist : list Z) (s : RamSegment) : option (Z * RamSegment) :=
  match dKlist with [] => Some (0, s) | iDocID :: l => '(a, s) ← Kill iDocID s; '(b, s) ← KillMulti l s; Some (a + b, s) end.

(** [ApplyKillList]: the segments of the RAM chunk. *)
Fixpoint kill_segments (dAccKlist : list Z) (dSegs : list RamSegment) : option (Z * list RamSegment) :=
  match dSegs with [] => Some (0, []) | s :: l => '(a, s) ← KillMulti dAccKlist s; '(b, l) ← kill_segments dAccKlist l; Some (a + b, s :: l) end.

Definition ApplyKillList (dAccKlist : list Z) (dSegs : list RamSegment) : option (Z * list RamSegment) :=
  match dAccKlist with [] => Some (0, dSegs) | _ => kill_segments dAccKlist dSegs end.

(** ** Merging two segments *)

(** [RtLiveRows_c::SkipDeadRows] *)
Fixpoint SkipDeadRows (fuel : nat) (m : DeadMap.DeadRowMap_c) (tRowIDMax tRowID : Z) : option Z :=
  match fuel with
  | O => None
  | S fuel' => if tRowID <? tRowIDMax then bDead ← DeadMap.IsSet tRowID m; if (bDead : bool) then SkipDeadRows fuel' m tRowIDMax (tRowID + 1) else Some tRowID else Some tRowID
  end.

(** The rows that an [RtLiveRows_c] visits, from the row [tRowID] that [SkipDeadRows]
    returned. *)
Fixpoint live_rows (fuel : nat) (m : DeadMap.DeadRowMap_c) (tRowIDMax tRowID : Z) : option (list Z) :=
  match fuel with
  | O => None
  | S fuel' =>
      if tRowID =? tRowIDMax then Some []
      else tNext ← SkipDeadRows (S (Z.to_nat tRowIDMax)) m tRowIDMax (tRowID + 1); l ← live_rows fuel' m tRowIDMax tNext; Some (tRowID :: l)
  end.

Definition RtLiveRows (s : RamSegment) : option (list Z) :=
  let n := S (Z.to_nat (rs_uRows s)) in tRowID ← SkipDeadRows n (rs_tDeadRowMap s) (rs_uRows s) 0; live_rows n (rs_tDeadRowMap s) (rs_uRows s) tRowID.

(** The loop of [CopyAttributesFromAliveDocs]: the rows of the new segment, the map of
    the rows and the next row. *)
Fixpoint copy_alive (iStride : nat) (dSrcRows : list Z) (l : list Z) (dRows dRowMap : list Z) (tResultRowID : Z) : option (list Z * list Z * Z) :=
  match l with
  | [] => Some (dRows, dRowMap, tResultRowID)
  | tRowID :: l' =>
      let pRow := row_at iStride dSrcRows (Z.to_nat tRowID) in
      if (length pRow =? iStride)%nat then copy_alive iStride dSrcRows l' (dRows ++ pRow) (<[Z.to_nat tRowID := tResultRowID]> dRowMap) (cast DWORD (tResultRowID + 1)) else None
  end.

Definition CopyAttributesFromAliveDocs (iStride : nat) (tSrcSeg : RamSegment) (dRows : list Z) (tResultRowID : Z) : option (list Z * list Z * Z) :=
  l ← RtLiveRows tSrcSeg; copy_alive iStride (rs_dRows tSrcSeg) l dRows (replicate (Z.to_nat (rs_uRows tSrcSeg)) INVALID_ROWID) tResultRowID.

Section Index.
Context (m_eDictFormat : DictFormat_e) (iWordsCheckpoint : Z) (m_eHitlessMode : ESphHitless) (iStride : nat).

(** [None] inside: no row is left. *)
Definition MergeTwoSegments (pA pB : RamSegment) : option (option RamSegment) :=
  '(dRows, dRowMapA, tNextRowID) ← CopyAttributesFromAliveDocs iStride pA [] 0;
  '(dRows, dRowMapB, tNextRowID) ← CopyAttributesFromAliveDocs iStride pB dRows tNextRowID;
  if tNextRowID =? 0 then Some None
  else
    h ← BuildDocID2RowIDMap dRows tNextRowID;
    tWords ← MergeKeywords m_eDictFormat iWordsCheckpoint m_eHitlessMode (rs_tWords pA) (rs_tWords pB) dRowMapA dRowMapB;
    Some (Some (RamSeg tWords tNextRowID tNextRowID dRows h (DeadMap.Reset tNextRowID) 0)).

(** ** Committing *)

Record RtIndex_c := RtIndex {
  ri_dRamSegs : list RamSegment;
  ri_iTotalDocuments : Z;
  ri_iTotalBytes : Z;
  ri_iNextOp : Z
}.

Definition new_index : RtIndex_c := RtIndex [] 0 0 1.

(** A new segment of the documents of the accumulator, if it has any. *)
Definition CreateSegment (dPacked dHitlessWords : list Z) (pAcc : RtAccum_t) : option (option RamSegment) :=
  if ra_uAccumDocs pAcc =? 0 then Some None
  else
    tWords ← CreateSegmentHits m_eDictFormat iWordsCheckpoint m_eHitlessMode dPacked dHitlessWords (ra_dAccum pAcc);
    h ← BuildDocID2RowIDMap (ra_dAccumRows pAcc) (ra_uAccumDocs pAcc);
    Some (Some (RamSeg tWords (ra_uAccumDocs pAcc) (ra_uAccumDocs pAcc) (ra_dAccumRows pAcc) h (DeadMap.Reset (ra_uAccumDocs pAcc)) 0)).

(** [CommitReplayable]; [bBinlog] is the result of [BinlogCommit]. *)
Definition CommitReplayable (bBinlog : bool) (pNewSeg : option RamSegment) (dAccKlist : list Z) (iAddTotalBytes : Z) (s : RtIndex_c) : option (bool * Z * RtIndex_c) :=
  if negb bBinlog then Some (false, 0, s)
  else
    '(iTotalKilled, dSegs) ← ApplyKillList dAccKlist (ri_dRamSegs s);
    let iNewDocs := match pNewSeg with Some p => cast int32_t (rs_uRows p) | None => 0 end in
    Some (true, iTotalKilled, RtIndex (dSegs ++ match pNewSeg with Some p => [p] | None => [] end) (ri_iTotalDocuments s + (iNewDocs - iTotalKilled)) (ri_iTotalBytes s + iAddTotalBytes) (ri_iNextOp s)).

(** The kill-list in the order of unsigned ids, each once. *)
Definition sort_klist (l : list Z) : option (list Z) :=
  l ← sphSort (λ a b, cast uint64_t a <? cast uint64_t b) l; Some (match l with [] => [] | x :: l' => x :: Blob.sphUniq x l' end).

(** [PreCommit] before a replicated commit. *)
Definition PreCommit (dPacked : list Z) (pAcc : RtAccum_t) : option RtAccum_t :=
  if (ra_uAccumDocs pAcc =? 0) && (length (ra_dAccumKlist pAcc) =? 0)%nat then Some pAcc
  else a ← PreCommitAcc m_eDictFormat dPacked iStride pAcc; Some (RtAccum (ra_dAccum a) (ra_dAccumRows a) (ra_uAccumDocs a) (ra_dPerDocHitsCount a) (ra_dAccumKlist a) (ra_bReplace a) true (ra_tNextRowID a) (ra_iAccumBytes a)).

(** [Commit] of a transaction that is bound to this index, whose schema was not
    altered since: otherwise the source returns before it does anything. The result
    is whether it succeeded, and how many documents it killed. *)
Definition Commit (bBinlog : bool) (dPacked dHitlessWords : list Z) (pAcc : RtAccum_t) (s : RtIndex_c) : option (bool * Z * RtIndex_c) :=
  if (ra_uAccumDocs pAcc =? 0) && (length (ra_dAccumKlist pAcc) =? 0)%nat then Some (true, 0, s)
  else
    pAcc ← (if ra_bPreparedForCommit pAcc then Some pAcc else PreCommitAcc m_eDictFormat dPacked iStride pAcc);
    pNewSeg ← CreateSegment dPacked dHitlessWords pAcc;
    dAccumKlist ← sort_klist (ra_dAccumKlist pAcc);
    CommitReplayable bBinlog pNewSeg dAccumKlist (ra_iAccumBytes pAcc) s.

(** ** Which segments are merged *)

Definition GetMergeFactor (s : RamSegment) : Z := rs_uRows s.

Definition factor (dSegments : list RamSegment) (i : nat) : Z := from_option GetMergeFactor 0 (dSegments !! i).

Fixpoint min_loop (dSegments : list RamSegment) (n i a b : nat) : nat * nat :=
  match n with
  | O => (a, b)
  | S n' => if factor dSegments i <? factor dSegments a then min_loop dSegments n' (S i) i a else if factor dSegments i <? factor dSegments b then min_loop dSegments n' (S i) a i else min_loop dSegments n' (S i) a b
  end.

Definition Find2Minimums (dSegments : list RamSegment) : nat * nat :=
  let '(a, b) := if factor dSegments 0 <? factor dSegments 1 then (0, 1)%nat else (1, 0)%nat in min_loop dSegments (length dSegments - 2) 2 a b.

(** The growth of [TightRelimit]: [1.2f], and the conversion to [int], which has to fit. *)
Definition GROW : float32 := S754_finite false 10066330 (-23).
Definition SLOW_GROW_TRESHOLD : Z := 1024.

Definition int_of (x : float32) : option Z :=
  match x with
  | S754_zero _ => Some 0
  | S754_finite s m e =>
      let a := if 0 <=? e then Z.pos m * 2 ^ e else Z.pos m / 2 ^ (- e) in
      let x := if s then - a else a in
      if decide (in_type int32_t x) then Some x else None
  | _ => None
  end.

Fixpoint relimit_loop (fuel : nat) (iLimit iNewLimit : Z) : option Z :=
  match fuel with
  | O => None
  | S fuel' =>
      if negb (iLimit <? iNewLimit) then Some iLimit
      else if iLimit <? SLOW_GROW_TRESHOLD then relimit_loop fuel' (iLimit * 2) iNewLimit
      else iLimit ← int_of (fmul (float_of iLimit) GROW); relimit_loop fuel' iLimit iNewLimit
  end.

(** [TightRelimit::Relimit] from no limit on: eight doublings and less than a hundred
    steps of 1.2 pass [2^31]. *)
Definition TightRelimit (iNewLimit : Z) : option Z := relimit_loop 120 8 iNewLimit.

(** [DefaultRelimit::Relimit] from no limit on: 59 doublings stay in [int64_t]. *)
Fixpoint double_loop (fuel : nat) (iLimit iNewLimit : Z) : option Z :=
  match fuel with O => None | S fuel' => if negb (iLimit <? iNewLimit) then Some iLimit else double_loop fuel' (iLimit * 2) iNewLimit end.
Definition DefaultRelimit (iNewLimit : Z) : option Z := double_loop 60 8 iNewLimit.

Definition Relimit (bTight : bool) (iNewLimit : Z) : option Z := if bTight then TightRelimit iNewLimit else DefaultRelimit iNewLimit.

Inductive CheckMerge_e := MERGE | NOMERGE | FLUSH | FLUSH_EM.

Definition MAX_SEGMENTS : Z := 32.
Definition MAX_PROGRESSION_SEGMENT : Z := 8.
Definition MAX_SEGMENT_VECTOR_LEN : Z := 2 ^ 31 - 1.

(** The lengths of the vectors of a segment: words, documents, hits, blobs (none),
    keyword checkpoints and rows; all but the checkpoints grow tightly. *)
Definition vectors (s : RamSegment) : list (bool * Z) :=
  let w := rs_tWords s in map (λ x : bool * nat, (x.1, Z.of_nat x.2)) [(true, length (m_dWords w)); (true, length (m_dDocs w)); (true, length (m_dHits w)); (true, O); (false, length (m_dKeywordCheckpoints w)); (true, length (rs_dRows s))].

(** [LOC_ESTIMATE] over the vectors. The product is not wrapped: 64 bits hold it for
    vectors of up to [2^31] items and fewer than [2^31] rows. *)
Fixpoint estimate (iAlive uRows : Z) (la lb : list (bool * Z)) (iSize iMax : Z) : option (Z * Z) :=
  match la, lb with
  | (bTight, a) :: la', (_, b) :: lb' => t ← Relimit bTight ((a + b) * iAlive / uRows); estimate iAlive uRows la' lb' (iSize + t) (if iMax <? t then t else iMax)
  | _, _ => Some (iSize, iMax)
  end.

(** [GetLengthBytes] of the docid map: an entry takes 16 bytes. *)
Definition map_bytes (s : RamSegment) : Z := OpenHash.m_iSize (rs_tDocIDtoRowID s) * 16.

Definition CheckSegmentsPair (pA pB : RamSegment) (iRamLeft : Z) : option CheckMerge_e :=
  let uRows := cast DWORD (rs_uRows pA + rs_uRows pB) in
  if uRows =? 0 then None
  else
    '(iSize, iMax) ← estimate (rs_tAliveRows pA + rs_tAliveRows pB) uRows (vectors pA) (vectors pB) 0 0;
    let iSize := iSize + map_bytes pA + map_bytes pB in
    Some (if iRamLeft <? iSize then NOMERGE else if MAX_SEGMENT_VECTOR_LEN <? iMax then FLUSH else MERGE).

(** The decision and the two smallest segments. *)
Definition CheckWeCanMerge (dSegments : list RamSegment) (iHardRamLeft iSoftRamLeft : Z) (bNewAdded : bool) : option (CheckMerge_e * (nat * nat)) :=
  let iSegs := Z.of_nat (length dSegments) in
  if negb bNewAdded && (iSegs <? MAX_SEGMENTS) then Some (NOMERGE, (0, 0)%nat)
  else
    let '(iSoftRamLeft, eFLUSH) := if iHardRamLeft <? iSoftRamLeft then (iHardRamLeft, FLUSH_EM) else (iSoftRamLeft, FLUSH) in
    if iSoftRamLeft <=? 0 then Some (eFLUSH, (0, 0)%nat)
    else if iSegs <? MAX_SEGMENTS - MAX_PROGRESSION_SEGMENT then Some (NOMERGE, (0, 0)%nat)
    else
      let tSmallest := Find2Minimums dSegments in
      pA ← dSegments !! tSmallest.1;
      pB ← dSegments !! tSmallest.2;
      if (cast DWORD (GetMergeFactor pA * 2) <? GetMergeFactor pB) && (iSegs <? MAX_SEGMENTS) then Some (NOMERGE, tSmallest)
      else
        eDecision ← CheckSegmentsPair pA pB iSoftRamLeft;
        Some (match eDecision with NOMERGE => if MAX_SEGMENTS <=? iSegs then eFLUSH else NOMERGE | FLUSH => eFLUSH | _ => MERGE end, tSmallest).

(** [GetNextOpTicket], which skips zero: the ticket and the next one. *)
Definition GetNextOpTicket (iNextOp : Z) : Z * Z :=
  let next x := cast int32_t (x + 1) in if iNextOp =? 0 then (next iNextOp, next (next iNextOp)) else (iNextOp, next iNextOp).

Definition lock (iOp : Z) (s : RamSegment) : RamSegment := RamSeg (rs_tWords s) (rs_uRows s) (rs_tAliveRows s) (rs_dRows s) (rs_tDocIDtoRowID s) (rs_tDeadRowMap s) iOp.

(** The positions of the segments that no operation holds. *)
Definition unlocked (dSegs : list RamSegment) : list nat := List.filter (λ i, from_option (λ s, rs_iLocked s =? 0) false (dSegs !! i)) (seq 0 (length dSegs)).

Definition segs_at (dSegs : list RamSegment) (l : list nat) : list RamSegment := omap (λ i, dSegs !! i) l.

(** What a step of the merging does: it saves a disk chunk, has nothing to do, or
    leaves new segments. *)
Inductive step_result := SAVE (e : CheckMerge_e) | IDLE | DONE (s : RtIndex_c).

(** [MergeSegmentsStep]; [GetUsedRam] counts the memory that the vectors of a segment
    hold. *)
Definition MergeSegmentsStep (GetUsedRam : RamSegment -> Z) (m_iRtMemLimit m_iSoftRamLimit : Z) (bNewSeg : bool) (s : RtIndex_c) : option step_result :=
  let dSegs := ri_dRamSegs s in
  let dFree := unlocked dSegs in
  let dSegments := segs_at dSegs dFree in
  let iSoftRamLeft := m_iSoftRamLimit - foldr Z.add 0 (map GetUsedRam dSegments) in
  let iHardRamLeft := m_iRtMemLimit - foldr Z.add 0 (map GetUsedRam dSegs) in
  '(eAction, (a, b)) ← CheckWeCanMerge dSegments iHardRamLeft iSoftRamLeft bNewSeg;
  match eAction with
  | FLUSH | FLUSH_EM => Some (SAVE eAction)
  | _ =>
      '(pMerged, iMergeOp, iNextOp, dSegs) ← match eAction with
        | MERGE =>
            let '(iMergeOp, iNextOp) := GetNextOpTicket (ri_iNextOp s) in
            i ← dFree !! a; j ← dFree !! b; pA ← dSegs !! i; pB ← dSegs !! j;
            pMerged ← MergeTwoSegments pA pB;
            Some (pMerged, iMergeOp, iNextOp, <[j := lock iMergeOp pB]> (<[i := lock iMergeOp pA]> dSegs))
        | _ => Some (None, 0, ri_iNextOp s, dSegs)
        end;
      let pMerged := match pMerged with Some p => if rs_tAliveRows p =? 0 then None else Some p | None => None end in
      let bKilled := existsb (λ i, from_option (λ p, rs_tAliveRows p =? 0) false (dSegs !! i)) dFree in
      let '(iMergeOp, iNextOp) := if (iMergeOp =? 0) && bKilled then GetNextOpTicket iNextOp else (iMergeOp, iNextOp) in
      let dSegs := foldr (λ i l, match l !! i with Some p => if rs_tAliveRows p =? 0 then <[i := lock iMergeOp p]> l else l | None => l end) dSegs dFree in
      if match pMerged with None => iMergeOp =? 0 | Some _ => false end then Some IDLE
      else Some (DONE (RtIndex (List.filter (λ p, negb (rs_iLocked p =? iMergeOp)) dSegs ++ match pMerged with Some p => [p] | None => [] end) (ri_iTotalDocuments s) (ri_iTotalBytes s) iNextOp))
  end.

(** The chain of steps of [RunMergeSegmentsWorker] after a request: a step that changed
    the segments queues another one. *)
Fixpoint RunMergeSegmentsWorker (fuel : nat) (GetUsedRam : RamSegment -> Z) (m_iRtMemLimit m_iSoftRamLimit : Z) (bNewSeg : bool) (s : RtIndex_c) : option (step_result * RtIndex_c) :=
  match fuel with
  | O => None
  | S fuel' => r ← MergeSegmentsStep GetUsedRam m_iRtMemLimit m_iSoftRamLimit bNewSeg s; match r with DONE s' => RunMergeSegmentsWorker fuel' GetUsedRam m_iRtMemLimit m_iSoftRamLimit true s' | _ => Some (r, s) end
  end.
End Index.
End RtRam.
