(* ===== verification/RtFullText.v ===== *)
(** * The match loop over the RAM chunk (src/src/sphinxrt.cpp)

    [PerformFullTextSearch]: one ranker is reset to each segment in turn, and one
    cutoff counts the new matches of all segments. Dead rows need no test, the
    keyword readers leave them out. Sort expressions, packed factors and random
    weights are left out. *)

From stdpp Require Import sorting.
From S2P Require Import Prelude Hits SearchNode SearchNodeOk ExtTerm Query Ranker Search DeadMap RtSegment RtSegmentOk RtDelete RtQword RtQwordOk RtSearch RtRam.
Import SearchNode SearchNodeOk ExtTerm Query Ranker Search RtSegment RtSegmentOk RtQword RtQwordOk RtSearch RtRam.

Module RtFullText.

(** [ISphMatchSorter::Push] over all sorters, for a match with its [m_iTag]. *)
Class TagSorter (T : Type) := { PushTagged : Z * CSphMatch -> T -> bool * T }.

(** What the query brings: the ranker's settings, the filters on the attributes of a
    row and on the weight, the weight of the index. *)
Record rt_query := RtQuery {
  rt_bWeightSum : bool;                             (* the ranker *)
  rt_USE_BM25 : bool;
  rt_iWeights : nat;
  rt_pWeights : nat -> Z;
  rt_EarlyReject : RamSegment -> Z -> bool;         (* RtIndex_c::EarlyReject *)
  rt_pWeightFilter : option (RamSegment -> CSphMatch -> bool);
  rt_iIndexWeight : Z;
  rt_bHasWideFields : bool                          (* more than 32 fields *)
}.

Section FullText.
Context {T : Type} {P : TagSorter T} (f : DictFormat_e) (cp : Z) (mode : ESphHitless) (iMinPrefix iMinInfix : Z).
Variables (rq : rt_query) (w : wquery).

Definition rt_config (p : RamSegment) : config := Config (rt_USE_BM25 rq) (rt_EarlyReject rq p) (rt_iWeights rq) (rt_pWeights rq).

Definition rt_weigh (p : RamSegment) : candidate -> CSphMatch := weigh_of (rt_config p) (rt_bWeightSum rq).

(** The [for] loop over a block. *)
Fixpoint rt_push (pSeg : RamSegment) (iTag : Z) (l : list CSphMatch) (sorter : T) (iCutoff : Z) : T * Z :=
  match l with
  | [] => (sorter, iCutoff)
  | m :: l' =>
      let m := Match_ (mt_tRowID m) (cast int32_t (m_iWeight m * rt_iIndexWeight rq)) in
      if match rt_pWeightFilter rq with Some pFilter => negb (pFilter pSeg m) | None => false end then rt_push pSeg iTag l' sorter iCutoff
      else
        let '(bNewMatch, sorter) := PushTagged (iTag, m) sorter in
        if (bNewMatch : bool) then
          let iCutoff := iCutoff - 1 in
          if iCutoff =? 0 then (sorter, iCutoff) else rt_push pSeg iTag l' sorter iCutoff
        else rt_push pSeg iTag l' sorter iCutoff
  end.

(** The [while (true)] loop over the blocks of a segment. *)
Fixpoint rt_match_loop {U} `{ExtNode_i U} (fuel : nat) (pSeg : RamSegment) (iTag : Z) (r : ExtRanker_c U) (sorter : T) (iCutoff : Z) (wd : World) : option (T * Z * World) :=
  match fuel with
  | O => None
  | S fuel' =>
      '(l, r, wd) ← GetMatches (rt_config pSeg) (rt_weigh pSeg) r wd;
      match l with
      | [] => Some (sorter, iCutoff, wd)
      | _ =>
          let '(sorter, iCutoff) := rt_push pSeg iTag l sorter iCutoff in
          if iCutoff =? 0 then Some (sorter, iCutoff, wd) else rt_match_loop fuel' pSeg iTag r sorter iCutoff wd
      end
  end.

(** The loop over the segments. [pRanker->Reset] sets the readers up for the segment
    and finds no block left over, as the last one of a segment is null. *)
Fixpoint rt_segments (iSeg : Z) (dRamChunks : list RamSegment) (sorter : T) (iCutoff : Z) (wd : World) : option (T * World) :=
  match dRamChunks with
  | [] => Some (sorter, wd)
  | pSeg :: l =>
      t ← segment_tree f cp mode iMinPrefix iMinInfix (rt_bHasWideFields rq) (rs_tWords pSeg) (rs_tDeadRowMap pSeg) w;
      let pRanker := ranker_of t in
      '(sorter, iCutoff, wd) ← rt_match_loop (S (ranker_work pRanker)) pSeg (iSeg + 1) pRanker sorter iCutoff wd;
      if iCutoff =? 0 then Some (sorter, wd) else rt_segments (iSeg + 1) l sorter iCutoff wd
  end.

Definition PerformFullTextSearch (dRamChunks : list RamSegment) (sorter : T) (iCutoff : Z) (wd : World) : option (T * World) :=
  if iCutoff =? 0 then Some (sorter, wd) else rt_segments 0 dRamChunks sorter iCutoff wd.

(** ** The loop of a segment is that of a plain index with other settings *)

Definition tag_sorter (iTag : Z) : ISphMatchSorter T := {| Push m s := PushTagged (iTag, m) s |}.

Definition rt_mcfg (p : RamSegment) : match_cfg :=
  MatchCfg false (λ _, false) (bool_decide (is_Some (rt_pWeightFilter rq))) (λ m, match rt_pWeightFilter rq with Some pFilter => pFilter p m | None => true end) true (rt_iIndexWeight rq).

Lemma rt_push_ok p iTag l s c : rt_push p iTag l s c = (push_block (P := tag_sorter iTag) (rt_mcfg p) l s c).1.
Proof.
  revert s c. induction l as [|m l IH]; intros s c; [done|]. cbn [rt_push push_block rt_mcfg USE_KLIST HAS_WEIGHT_FILTER m_pWeightFilter HAS_CUTOFF iIndexWeight andb Push tag_sorter].
  destruct (rt_pWeightFilter rq) as [pf|]; cbn [bool_decide andb].
  - rewrite bool_decide_eq_true_2 by done. cbn [andb]. destruct (negb _); [apply IH|]. destruct (PushTagged _ s) as [[] s1]; [|apply IH]. destruct (_ =? 0); [done|apply IH].
  - destruct (PushTagged _ s) as [[] s1]; [|apply IH]. destruct (_ =? 0); [done|apply IH].
Qed.

Lemma rt_match_loop_ok {U} `{ExtNode_i U} fuel p iTag (r : ExtRanker_c U) s c wd :
  rt_match_loop fuel p iTag r s c wd = match_loop (P := tag_sorter iTag) (rt_config p) (rt_mcfg p) (rt_weigh p) fuel r s c wd.
Proof.
  revert r s c wd. induction fuel as [|fuel IH]; intros r s c wd; [done|]. cbn [rt_match_loop match_loop]. destruct (GetMatches _ _ r wd) as [[[l r1] w1]|]; [|done]. cbn [mbind option_bind].
  destruct l as [|m l]; [done|]. rewrite rt_push_ok. destruct (push_block _ _ _ _) as [[s1 c1] stop]. cbn [fst rt_mcfg HAS_CUTOFF andb]. destruct (c1 =? 0); [done|apply IH].
Qed.

Lemma tag_pushes iTag l s : push_all (Push (ISphMatchSorter := tag_sorter iTag)) l s = push_all PushTagged (map (pair iTag) l) s /\
  new_matches (Push (ISphMatchSorter := tag_sorter iTag)) l s = new_matches PushTagged (map (pair iTag) l) s.
Proof. revert s. induction l as [|m l IH]; intros s; [done|]. destruct (IH (PushTagged (iTag, m) s).2) as [E1 E2]. split; [exact E1|]. cbn [new_matches map]. by rewrite <- E2. Qed.

Lemma tag_cut iTag b c s l1 l2 Q : cut (Push (ISphMatchSorter := tag_sorter iTag)) b c s l1 l2 Q -> cut PushTagged b c s (map (pair iTag) l1) (map (pair iTag) l2) Q.
Proof.
  intros [B E]. split.
  - intros Hb l3 l4 E4 N. apply map_eq_app in E4 as (l5 & l6 & -> & <- & <-). rewrite <- (proj2 (tag_pushes iTag l5 s)). apply (B Hb l5 l6); [done|]. by intros ->.
  - rewrite <- (proj2 (tag_pushes iTag l1 s)). destruct E as [->|E]; [by left|by right].
Qed.

(** ** All segments *)

(** The matches of the segments, with their tags. *)
Fixpoint tagged (iSeg : Z) (Ls : list (list CSphMatch)) : list (Z * CSphMatch) :=
  match Ls with [] => [] | L :: Ls' => map (pair (iSeg + 1)) L ++ tagged (iSeg + 1) Ls' end.

Lemma tagged_elem iSeg Ls t m : (t, m) ∈ tagged iSeg Ls <-> ∃ k L, Ls !! k = Some L /\ m ∈ L /\ t = iSeg + 1 + Z.of_nat k.
Proof.
  revert iSeg. induction Ls as [|L Ls IH]; intros iSeg; cbn [tagged]; [split; [by intros ?%not_elem_of_nil|by intros ([|k] & ? & ? & _)]|]. rewrite elem_of_app, IH, list_elem_of_fmap. split.
  - intros [(m' & [= -> ->] & Hm)|(k & L' & E & Hm & ->)]; [exists 0%nat, L; cbn; split; [done|]; split; [done|lia]|exists (S k), L'; cbn; split; [done|]; split; [done|lia]].
  - intros ([|k] & L' & E & Hm & ->); cbn in E; [injection E as <-; left; exists m; split; [f_equal; lia|done]|right; exists k, L'; split; [done|]; split; [done|lia]].
Qed.

(** In order of the segments, and of the rows in each. *)
Definition tag_lt (a b : Z * CSphMatch) : Prop := a.1 < b.1 \/ (a.1 = b.1 /\ mt_tRowID a.2 < mt_tRowID b.2).

Lemma tagged_sorted iSeg Ls : Forall (StronglySorted (λ a b, mt_tRowID a < mt_tRowID b)) Ls -> StronglySorted tag_lt (tagged iSeg Ls).
Proof.
  intros H. revert iSeg. induction H as [|L Ls HL _ IH]; intros iSeg; cbn [tagged]; [constructor|]. induction HL as [|m L HL IHL Hm]; [apply IH|]. cbn [map app]. constructor; [exact IHL|]. apply Forall_app. split.
  - rewrite Forall_map. eapply Forall_impl; [exact Hm|]. intros m' Hlt. by right.
  - apply Forall_forall. intros [t m'] Ht. apply tagged_elem in Ht as (k & L' & _ & _ & ->). left. cbn. lia.
Qed.

(** The segment can be searched, and [found] are its documents. *)
Definition seg_found (p : RamSegment) (found : Z -> option ExtDoc_t) : Prop :=
  ∃ t, segment_tree f cp mode iMinPrefix iMinInfix (rt_bHasWideFields rq) (rs_tWords p) (rs_tDeadRowMap p) w = Some t /\ tree_ok t /\ ∀ x, eval t x = found x.

Definition seg_result (p : RamSegment) (found : Z -> option ExtDoc_t) (L : list CSphMatch) : Prop := result (rt_config p) (rt_bWeightSum rq) (rt_mcfg p) found L.

(** The results of segments that are not searched exist as well. *)
Lemma seg_result_some p found : seg_found p found -> ∃ L, seg_result p found L.
Proof.
  intros (t & _ & Ot & Ef). exists (omap (report (rt_config p) (rt_bWeightSum rq) (rt_mcfg p)) (rem (init t))). apply report_result; [by apply inv_asc, init_ok|]. intros x. by rewrite find_row_init.
Qed.

Lemma rt_segments_ok segs founds : Forall2 seg_found segs founds -> ∀ iSeg s c wd, w_kill wd = None -> w_timer wd = None -> c ≠ 0 ->
  ∃ Ls l1 l2 wd', length Ls = length segs /\ (∀ k p fd L, segs !! k = Some p -> founds !! k = Some fd -> Ls !! k = Some L -> seg_result p fd L) /\
    tagged iSeg Ls = l1 ++ l2 /\ cut PushTagged true c s l1 l2 False /\ rt_segments iSeg segs s c wd = Some (push_all PushTagged l1 s, wd').
Proof.
  induction 1 as [|p fd segs founds Hp F IH]; intros iSeg s c wd Hk Ht Hc.
  { exists [], [], [], wd. split; [done|]. split; [by intros [|]|]. split; [done|]. split; [|done]. split; [by intros _ [|] ? ?|by left]. }
  pose proof Hp as (t & Et & Ot & Ef). cbn [rt_segments]. rewrite Et. cbn [mbind option_bind]. rewrite rt_match_loop_ok.
  destruct (match_loop_node (P := tag_sorter (iSeg + 1)) (rt_config p) (rt_mcfg p) (rt_bWeightSum rq) (init t) fd s c wd) as (L1 & L2 & wd1 & R & C & [_ L] & Hk1 & E); [by apply init_ok|intros x; by rewrite find_row_init|done|done|]. specialize (L Ht).
  unfold rt_weigh, ranker_of. rewrite E. cbn [mbind option_bind rt_mcfg HAS_CUTOFF]. destruct (tag_pushes (iSeg + 1) L1 s) as [-> ->]. apply tag_cut in C. cbn [rt_mcfg HAS_CUTOFF] in C. eapply (cut_weaken _ _ _ _ _ _ _ False) in C; [|unfold expired; by rewrite L].
  set (l1 := map (pair (iSeg + 1)) L1) in *. set (l2 := map (pair (iSeg + 1)) L2) in *. assert (map (pair (iSeg + 1)) (L1 ++ L2) = l1 ++ l2) as El by apply map_app. destruct (Z.eqb_spec (c - new_matches PushTagged l1 s) 0) as [E0|N0].
  - assert (∃ Ls, length Ls = length segs /\ ∀ k p fd L, segs !! k = Some p -> founds !! k = Some fd -> Ls !! k = Some L -> seg_result p fd L) as (Ls & El1 & HL).
    { clear -F. induction F as [|p fd segs founds Hp _ (Ls & El & HL)]; [exists []; split; [done|]; by intros [|]|]. destruct (seg_result_some p fd Hp) as [L HL0]. exists (L :: Ls). split; [cbn; lia|]. intros [|k] p' fd' L' E1 E2 E3; cbn in *; [by simplify_eq|by eapply HL]. }
    exists ((L1 ++ L2) :: Ls), l1, (l2 ++ tagged (iSeg + 1) Ls), wd1. split; [cbn; lia|]. split; [intros [|k] p' fd' L' E1 E2 E3; cbn in *; [by simplify_eq|by eapply HL]|]. split; [cbn [tagged]; rewrite El; by rewrite <- app_assoc|]. split; [|done]. eapply cut_stop; [done|lia|exact C].
  - assert (l2 = []) as E2 by (destruct C as [_ [?|[[_ ?]|[]]]]; [done|lia]). destruct (IH (iSeg + 1) (push_all PushTagged l1 s) (c - new_matches PushTagged l1 s) wd1 Hk1 L N0) as (Ls & m1 & m2 & wd' & EL & HL & Etg & C' & E'). rewrite E2 in *.
    exists ((L1 ++ L2) :: Ls), (l1 ++ m1), m2, wd'. split; [cbn; lia|]. split; [intros [|k] p' fd' L' H1 H2 H3; cbn in *; [by simplify_eq|by eapply HL]|]. split; [cbn [tagged]; by rewrite El, Etg, app_nil_r, app_assoc|]. split; [|by rewrite push_all_app]. eapply cut_app; [exact C|lia|exact C'].
Qed.
End FullText.
End RtFullText.
