(* ===== verification/RtRamOk.v ===== *)
(** * The RAM chunk is a map of documents

    The invariant of a segment, and what the operations of [RtRam] do to it: killing
    takes documents away, a commit replaces documents, merging changes nothing. *)

From stdpp Require Import sorting gmap.
From S2P Require Import Prelude Hits Sort SortOk SearchNode Blob BlobOk DeadMap OpenHash OpenHashOk RtSegment RtSegmentOk RtDelete RtQword RtQwordOk RtSearch RtAccum RtAccumOk RtRam.
Import Hitman Sort SortOk SearchNode RtSegment RtSegmentOk RtCreateOk RtMergeOk RtQwordOk RtSearch RtAccum RtAccumOk RtGroupOk RtRam.

Module RtRamOk.

Abbreviation refines := (OpenHashOk.refines OpenHash.GetHash_Int64).

Definition row_id (row : list Z) : Z := default 0 (sphGetDocID row).

(** ** The map of document ids *)

Definition ids_map (i : nat) (rows : list (list Z)) (m m' : gmap Z Z) : Prop :=
  ∀ id r, m' !! id = Some r <-> m !! id = Some r \/ ∃ j row, rows !! j = Some row /\ row_id row = id /\ r = Z.of_nat (i + j).

Section Chunk.
Context (n : nat) (Hn : (2 <= n)%nat).

Lemma first_id row rest : length row = n -> sphGetDocID (row ++ rest) = Some (row_id row).
Proof. intros H. destruct row as [|a [|b row]]; cbn in H; try lia. done. Qed.

Lemma map_rows_ok rows : ∀ fuel i h m, Forall (λ r, length r = n) rows -> (length rows < fuel)%nat -> refines h m -> Z.of_nat (i + length rows) < 2 ^ 32 -> NoDup (map row_id rows) -> (∀ row, row ∈ rows -> m !! row_id row = None) ->
  ∃ h' m', map_rows fuel n (concat rows) (Z.of_nat i) h = Some h' /\ refines h' m' /\ ids_map i rows m m'.
Proof.
  induction rows as [|row rows IH]; intros [|fuel] i h m Hf Hl R Hi Nd Hm; cbn [length] in *; try lia.
  { exists h, m. split; [done|]. split; [done|]. intros id r. split; [by left|]. intros [?|(j & row & E & _)]; [done|by rewrite lookup_nil in E]. }
  apply Forall_cons in Hf as [Hr Hf]. cbn [map] in Nd. apply NoDup_cons in Nd as [Ni Nd]. cbn [concat map_rows]. destruct (row ++ concat rows) as [|x l] eqn:E; [destruct row; [cbn in Hr; lia|done]|]. rewrite <- E. clear E x l. rewrite (first_id row _ Hr). cbn [mbind option_bind]. unfold add_row. destruct (OpenHashOk.hash_Add_ok OpenHash.GetHash_Int64 0 0 h m (row_id row) (Z.of_nat i) R) as (h1 & -> & R1). cbn [mbind option_bind]. rewrite (Hm row ltac:(by left)) in R1. rewrite drop_app_le by lia. rewrite (drop_ge row n) by lia. cbn [app].
  rewrite (cast_id DWORD) by (done || unfold in_type; cbn; lia). replace (Z.of_nat i + 1) with (Z.of_nat (S i)) by lia. destruct (IH fuel (S i) h1 (<[row_id row := Z.of_nat i]> m)) as (h' & m' & E & R' & Hm'); [done|lia|done|lia|done| |].
  { intros row' Hin. rewrite lookup_insert_ne; [apply Hm; by right|]. intros Ei. apply Ni. rewrite Ei. apply list_elem_of_fmap. by exists row'. }
  exists h', m'. split; [done|]. split; [done|]. intros id r. unfold ids_map in Hm'. rewrite (Hm' id r). destruct (decide (id = row_id row)) as [->|N].
  - rewrite lookup_insert_eq, (Hm row ltac:(by left)). split.
    + intros [[= <-]|(j & row' & Ej & Ei & _)]; [right; exists 0%nat, row; split; [done|]; split; [done|]; f_equal; lia|]. exfalso. apply Ni. rewrite <- Ei. apply list_elem_of_fmap. exists row'. split; [done|]. by eapply list_elem_of_lookup_2.
    + intros [?|(j & row' & Ej & Ei & ->)]; [done|]. destruct j as [|j]; [left; f_equal; f_equal; lia|]. exfalso. apply Ni. rewrite <- Ei. apply list_elem_of_fmap. exists row'. split; [done|]. by eapply list_elem_of_lookup_2.
  - rewrite lookup_insert_ne by done. split.
    + intros [?|(j & row' & Ej & Ei & ->)]; [by left|right]. exists (S j), row'. split; [done|]. split; [done|]. f_equal. lia.
    + intros [?|(j & row' & Ej & Ei & ->)]; [by left|right]. destruct j as [|j]; [injection Ej as <-; congruence|]. exists j, row'. split; [done|]. split; [done|]. f_equal. lia.
Qed.

Lemma length_concat_rows (rows : list (list Z)) : Forall (λ r, length r = n) rows -> length (concat rows) = (length rows * n)%nat.
Proof. induction 1 as [|r rows Hr _ IH]; [done|]. cbn. rewrite length_app, IH. lia. Qed.

Lemma BuildMap_ok rows : rows ≠ [] -> Forall (λ r, length r = n) rows -> Z.of_nat (length rows) < 2 ^ 32 -> NoDup (map row_id rows) -> ∃ h m, BuildDocID2RowIDMap (concat rows) (Z.of_nat (length rows)) = Some h /\ refines h m /\ ids_map 0 rows ∅ m.
Proof.
  intros Nn Hf Hl Nd. unfold BuildDocID2RowIDMap, GetStride. rewrite (proj2 (Z.eqb_neq _ _)) by (destruct rows; [done|cbn; lia]). cbn [mbind option_bind]. rewrite length_concat_rows by done. rewrite Nat2Z.inj_mul, Z.mul_comm, Z.div_mul by (destruct rows; [done|cbn; lia]). rewrite Nat2Z.id. apply (map_rows_ok rows _ 0 _ ∅ Hf); [nia|apply OpenHashOk.hash_Reset_ok|lia|done|done].
Qed.

(** ** A segment *)

(** The rows, the words and the dead rows of a segment. *)
Record segview := SegView { sv_rows : list (list Z); sv_words : list gword; sv_dead : gset Z }.

(** The rows that are alive, with their numbers. *)
Definition lives (v : segview) : list (nat * list Z) := List.filter (λ x, negb (bool_decide (Z.of_nat x.1 ∈ sv_dead v))) (imap pair (sv_rows v)).
Definition live_ids (v : segview) : list Z := map (λ x, row_id x.2) (lives v).

Context (f : DictFormat_e) (cp : Z).
Abbreviation mode := SPH_HITLESS_NONE.

Record seg_ok (s : RamSegment) (v : segview) : Prop := {
  so_rows : rs_dRows s = concat (sv_rows v);
  so_stride : Forall (λ r, length r = n) (sv_rows v);
  so_count : rs_uRows s = Z.of_nat (length (sv_rows v));
  so_bound : 0 < rs_uRows s < 2 ^ 32 - 32;
  so_map : ∃ m, refines (rs_tDocIDtoRowID s) m /\ ids_map 0 (sv_rows v) ∅ m;
  so_ids : NoDup (map row_id (sv_rows v));
  so_dead : DeadMap.stands_for (rs_tDeadRowMap s) (sv_dead v);
  so_size : DeadMap.m_uRows (rs_tDeadRowMap s) = rs_uRows s;
  so_alive : rs_tAliveRows s = Z.of_nat (length (lives v));
  so_words : searchable f cp mode (rs_tWords s) (sv_words v);
  so_in : Forall (λ g, Forall (λ d, 0 <= g_row d < rs_uRows s) (g_docs g)) (sv_words v)
}.

Lemma in_lives v i row : (i, row) ∈ lives v <-> sv_rows v !! i = Some row /\ Z.of_nat i ∉ sv_dead v.
Proof.
  unfold lives. rewrite list_elem_of_In, filter_In, <- list_elem_of_In, negb_true_iff, bool_decide_eq_false. cbn [fst]. rewrite list_elem_of_lookup. split.
  - intros [(j & E) H]. apply list_lookup_imap_Some in E as (x & Ex & [= -> ->]). done.
  - intros [E H]. split; [|done]. exists i. by rewrite list_lookup_imap, E.
Qed.

Lemma nodup_map_filter {A B} (g : A -> B) (p : A -> bool) l : NoDup (map g l) -> NoDup (map g (List.filter p l)).
Proof.
  induction l as [|x l IH]; [done|]. cbn [map List.filter]. intros [N1 N2]%NoDup_cons. destruct (p x); [|by apply IH]. cbn [map]. apply NoDup_cons. split; [|by apply IH]. intros H. apply N1. apply list_elem_of_fmap in H as (y & E & Hy). rewrite E. apply list_elem_of_fmap. exists y. split; [done|]. apply list_elem_of_In in Hy. apply filter_In in Hy as [Hy _]. by apply list_elem_of_In.
Qed.

Lemma lives_nodup v : NoDup (map row_id (sv_rows v)) -> NoDup (live_ids v).
Proof.
  intros H. apply nodup_map_filter. assert (map (λ x : nat * list Z, row_id x.2) (imap pair (sv_rows v)) = map row_id (sv_rows v)) as ->; [|done]. etrans; [apply (fmap_imap pair (λ x : nat * list Z, row_id x.2))|]. apply (imap_const row_id).
Qed.

Lemma in_live_ids v id : id ∈ live_ids v <-> (∃ i row, sv_rows v !! i = Some row /\ Z.of_nat i ∉ sv_dead v /\ row_id row = id).
Proof.
  unfold live_ids. rewrite list_elem_of_fmap. split; [intros ([i row] & -> & [E H]%in_lives); by exists i, row|intros (i & row & E & H & <-)]. exists (i, row). split; [done|]. by apply in_lives.
Qed.

(** ** Killing *)

(** A segment without the documents of a list. *)
Definition without (l : list Z) (v v' : segview) : Prop :=
  sv_rows v' = sv_rows v /\ sv_words v' = sv_words v /\ lives v' = List.filter (λ x, negb (bool_decide (row_id x.2 ∈ l))) (lives v).

Lemma filter_one {A} (g : A -> Z) id l : NoDup (map g l) -> (length (List.filter (λ x, negb (bool_decide (g x ∈ [id]))) l) + (if bool_decide (id ∈ map g l) then 1 else 0) = length l)%nat.
Proof.
  induction l as [|x l IH]; [done|]. cbn [map List.filter]. intros [N1 N2]%NoDup_cons. specialize (IH N2). destruct (decide (g x = id)) as [E|N].
  - rewrite (bool_decide_eq_true_2 (g x ∈ [id])) by (rewrite E; by left). rewrite bool_decide_eq_true_2 by (rewrite E; by left). cbn [negb length]. rewrite bool_decide_eq_false_2 in IH by congruence. lia.
  - rewrite (bool_decide_eq_false_2 (g x ∈ [id])) by (intros H%list_elem_of_singleton; done). cbn [negb length]. rewrite <- IH. cbn. do 2 f_equal. rewrite (bool_decide_ext (id ∈ g x :: map g l) (id ∈ map g l)); [done|]. rewrite elem_of_cons. split; [intros [?|?]; [congruence|done]|by right].
Qed.

Lemma row_found s v id : seg_ok s v -> ∃ o, find_row (rs_tDocIDtoRowID s) id = Some o /\ ∀ r, o = Some r <-> (∃ j row, sv_rows v !! j = Some row /\ row_id row = id /\ r = Z.of_nat j).
Proof.
  intros H. destruct (so_map _ _ H) as (m & R & Hm). exists (m !! id). split; [apply OpenHashOk.hash_Find_ok; done|]. intros r. unfold ids_map in Hm. rewrite (Hm id r), lookup_empty. split; [by intros [?|?]|by right].
Qed.

Lemma row_unique s v i j row row' : seg_ok s v -> sv_rows v !! i = Some row -> sv_rows v !! j = Some row' -> row_id row = row_id row' -> i = j.
Proof.
  intros H Ei Ej E. apply (NoDup_lookup (map row_id (sv_rows v)) i j (row_id row) (so_ids _ _ H)); rewrite list_lookup_fmap; [by rewrite Ei|by rewrite Ej, E].
Qed.

Lemma Kill_ok s v id : seg_ok s v -> ∃ s' v', Kill id s = Some (Z.of_nat (length (lives v)) - Z.of_nat (length (lives v')), s') /\ seg_ok s' v' /\ without [id] v v' /\ rs_iLocked s' = rs_iLocked s.
Proof.
  intros H. pose proof H as [H1 H2 H3 H4 H5 H6 H7 H8 H9 H10 H11]. destruct (row_found s v id H) as (o & Eo & Ho). unfold Kill, GetRowidByDocid. rewrite Eo. cbn [mbind option_bind]. pose proof (filter_one (λ x : nat * list Z, row_id x.2) id (lives v) (lives_nodup v H6)) as Hc. fold (live_ids v) in Hc. destruct o as [r|].
  - destruct (proj1 (Ho r) eq_refl) as (j & row & Ej & Er & ->). change (default INVALID_ROWID (Some (Z.of_nat j))) with (Z.of_nat j). pose proof (lookup_lt_Some _ _ _ Ej) as Hj. destruct (DeadMap.set_stands _ _ (Z.of_nat j) H7) as (m' & -> & S' & U'); [lia|]. cbn [mbind option_bind]. set (v' := SegView (sv_rows v) (sv_words v) ({[Z.of_nat j]} ∪ sv_dead v)).
    assert (lives v' = List.filter (λ x, negb (bool_decide (row_id x.2 ∈ [id]))) (lives v)) as Lv.
    { unfold lives. cbn [v' sv_rows sv_dead]. assert (∀ x, x ∈ imap pair (sv_rows v) -> (row_id x.2 = id <-> x.1 = j)) as K. { intros [i r'] Hx. apply list_elem_of_lookup in Hx as (k & Ek). apply list_lookup_imap_Some in Ek as (y & Ey & [= -> ->]). cbn. split; [intros E; apply (row_unique s v k j y row H Ey Ej); congruence|intros ->; congruence]. }
      clear -K. induction (imap pair (sv_rows v)) as [|[i r'] l IH]; [done|]. cbn [List.filter fst snd]. specialize (K (i, r') ltac:(by left)) as K1. cbn in K1. rewrite IH by (intros x Hx; apply K; by right). destruct (decide (Z.of_nat i ∈ sv_dead v)) as [Hd|Hd].
      - rewrite (bool_decide_eq_true_2 (Z.of_nat i ∈ sv_dead v)) by done. rewrite bool_decide_eq_true_2 by set_solver. done.
      - rewrite (bool_decide_eq_false_2 (Z.of_nat i ∈ sv_dead v)) by done. cbn [negb List.filter snd]. destruct (decide (i = j)) as [->|Nj].
        + rewrite (bool_decide_eq_true_2 (Z.of_nat j ∈ _)) by set_solver. rewrite bool_decide_eq_true_2 by (rewrite (proj2 K1 eq_refl); by left). done.
        + rewrite (bool_decide_eq_false_2 (Z.of_nat i ∈ _)) by (intros [?%elem_of_singleton|?]%elem_of_union; [lia|done]). rewrite bool_decide_eq_false_2 by (intros ?%list_elem_of_singleton; tauto). done. }
    assert ((if bool_decide (Z.of_nat j ∉ sv_dead v) then 1 else 0) = Z.of_nat (length (lives v)) - Z.of_nat (length (lives v'))) as Ek.
    { rewrite Lv, <- Hc. rewrite (bool_decide_ext (id ∈ live_ids v) (Z.of_nat j ∉ sv_dead v)); [repeat case_bool_decide; (done || lia)|]. rewrite in_live_ids. split; [intros (i & row' & Ei & Hd & E); assert (i = j) as <- by (apply (row_unique s v i j row' row H Ei Ej); congruence); done|intros Hd; by exists j, row]. }
    eexists _, v'. split; [rewrite Ek; done|]. split; [|split; [done|done]]. split; cbn [rs_dRows rs_uRows rs_tDocIDtoRowID rs_tDeadRowMap rs_tAliveRows rs_tWords v' sv_rows sv_words sv_dead]; try done; [congruence|]. fold v'. lia.
  - change (default INVALID_ROWID None) with INVALID_ROWID. unfold DeadMap.Set_. rewrite Z.eqb_refl. cbn [mbind option_bind]. exists (RamSeg (rs_tWords s) (rs_uRows s) (rs_tAliveRows s - 0) (rs_dRows s) (rs_tDocIDtoRowID s) (rs_tDeadRowMap s) (rs_iLocked s)), v. rewrite Z.sub_diag. split; [done|]. split; [by split; cbn; rewrite ?Z.sub_0_r|]. split; [|done]. split; [done|]. split; [done|]. rewrite bool_decide_eq_false_2 in Hc; [|rewrite in_live_ids; intros (i & row & Ei & _ & E); pose proof (proj2 (Ho (Z.of_nat i)) (ex_intro _ i (ex_intro _ row (conj Ei (conj E eq_refl))))); done].
    clear -Hc. induction (lives v) as [|x l IH]; [done|]. cbn [List.filter length] in *. destruct (negb _); cbn [length] in *; [f_equal; apply IH; lia|]. exfalso. assert (length (List.filter (λ x : nat * list Z, negb (bool_decide (row_id x.2 ∈ [id]))) l) <= length l)%nat by (apply List.filter_length_le). lia.
Qed.

Lemma without_trans l l' v v1 v2 : without l v v1 -> without l' v1 v2 -> without (l ++ l') v v2.
Proof.
  intros (A1 & A2 & A3) (B1 & B2 & B3). split; [congruence|]. split; [congruence|]. rewrite B3, A3. clear. induction (lives v) as [|x L IH]; [done|]. cbn [List.filter]. destruct (decide (row_id x.2 ∈ l)) as [H|H].
  - rewrite (bool_decide_eq_true_2 (_ ∈ l)) by done. rewrite bool_decide_eq_true_2 by (apply elem_of_app; by left). done.
  - rewrite (bool_decide_eq_false_2 (_ ∈ l)) by done. cbn [negb List.filter]. rewrite (bool_decide_ext (row_id x.2 ∈ l ++ l') (row_id x.2 ∈ l')); [|rewrite elem_of_app; tauto]. rewrite IH. done.
Qed.

Lemma ram_KillMulti_ok l : ∀ s v, seg_ok s v -> ∃ s' v', KillMulti l s = Some (Z.of_nat (length (lives v)) - Z.of_nat (length (lives v')), s') /\ seg_ok s' v' /\ without l v v' /\ rs_iLocked s' = rs_iLocked s.
Proof.
  induction l as [|id l IH]; intros s v H; cbn [KillMulti].
  - exists s, v. rewrite Z.sub_diag. split; [done|]. split; [done|]. split; [|done]. split; [done|]. split; [done|]. clear. induction (lives v) as [|x L IH]; [done|]. cbn [List.filter]. rewrite bool_decide_eq_false_2 by apply not_elem_of_nil. cbn. by f_equal.
  - destruct (Kill_ok s v id H) as (s1 & v1 & -> & H1 & W1 & L1). cbn [mbind option_bind]. destruct (IH s1 v1 H1) as (s2 & v2 & -> & H2 & W2 & L2). cbn [mbind option_bind]. exists s2, v2. split; [do 2 f_equal; lia|]. split; [done|]. split; [|congruence]. exact (without_trans [id] l v v1 v2 W1 W2).
Qed.
End Chunk.
End RtRamOk.

(** * Merging two segments keeps their documents

    The rows that are alive are copied in order and the words are merged with the maps
    of the rows, so that every document keeps its row and its postings. *)

From stdpp Require Import sorting gmap.
From S2P Require Import Prelude Hits SearchNode DeadMap OpenHash OpenHashOk RtSegment RtSegmentOk RtDelete RtQword RtQwordOk RtSearch RtAccum RtAccumOk RtRam.
Import Hitman SearchNode RtSegment RtSegmentOk RtCreateOk RtMergeOk RtQwordOk RtSearch RtAccum RtAccumOk RtGroupOk RtRam RtRamOk.

Module RtRamMergeOk.

Section Live.
Context (m : DeadMap.DeadRowMap_c) (D : gset Z) (N : nat) (Sd : DeadMap.stands_for m D) (Em : DeadMap.m_uRows m = Z.of_nat N).

(** The rows that are alive, from [t] on. *)
Definition alive_from (t : nat) : list nat := List.filter (λ i, negb (bool_decide (Z.of_nat i ∈ D))) (seq t (N - t)).

Lemma alive_from_step t : (t < N)%nat -> alive_from t = if bool_decide (Z.of_nat t ∈ D) then alive_from (S t) else t :: alive_from (S t).
Proof. intros H. unfold alive_from. replace (N - t)%nat with (S (N - S t)) by lia. cbn [seq List.filter]. by case_bool_decide. Qed.

Lemma alive_from_end : alive_from N = [].
Proof. unfold alive_from. by rewrite Nat.sub_diag. Qed.

Lemma dead_at t : (t < N)%nat -> DeadMap.IsSet (Z.of_nat t) m = Some (bool_decide (Z.of_nat t ∈ D)).
Proof. intros H. destruct Sd as (S1 & S2 & _). rewrite DeadMap.IsSet_ok by (done || lia). by rewrite S2 by lia. Qed.

Lemma skip_ok fuel : ∀ t, (t <= N)%nat -> (N - t < fuel)%nat -> ∃ r, SkipDeadRows fuel m (Z.of_nat N) (Z.of_nat t) = Some (Z.of_nat r) /\ (t <= r <= N)%nat /\ alive_from t = alive_from r /\ ((r < N)%nat -> Z.of_nat r ∉ D).
Proof.
  induction fuel as [|fuel IH]; intros t Ht Hf; [lia|]. cbn [SkipDeadRows]. destruct (Z.ltb_spec (Z.of_nat t) (Z.of_nat N)) as [L|L].
  - rewrite dead_at by lia. cbn [mbind option_bind]. case_bool_decide as Hd.
    + replace (Z.of_nat t + 1) with (Z.of_nat (S t)) by lia. destruct (IH (S t)) as (r & E & Hr & Ea & Hd'); [lia|lia|]. exists r. split; [done|]. split; [lia|]. split; [|done]. rewrite alive_from_step by lia. by rewrite bool_decide_eq_true_2.
    + exists t. split; [done|]. split; [lia|]. done.
  - exists t. split; [done|]. split; [lia|]. split; [done|lia].
Qed.

Lemma live_rows_ok fuel : ∀ t, (t <= N)%nat -> (N - t < fuel)%nat -> ((t < N)%nat -> Z.of_nat t ∉ D) -> live_rows fuel m (Z.of_nat N) (Z.of_nat t) = Some (map Z.of_nat (alive_from t)).
Proof.
  induction fuel as [|fuel IH]; intros t Ht Hf Hd; [lia|]. cbn [live_rows]. destruct (Z.eqb_spec (Z.of_nat t) (Z.of_nat N)) as [E|E].
  - apply Nat2Z.inj in E as ->. by rewrite alive_from_end.
  - replace (Z.of_nat t + 1) with (Z.of_nat (S t)) by lia. destruct (skip_ok (S (Z.to_nat (Z.of_nat N))) (S t)) as (r & -> & Hr & Ea & Hd'); [lia|lia|]. cbn [mbind option_bind]. rewrite IH by (lia || done). cbn [mbind option_bind]. rewrite (alive_from_step t) by lia. rewrite bool_decide_eq_false_2 by (apply Hd; lia). by rewrite Ea.
Qed.
End Live.

Section Merge.
Context (n : nat) (Hn : (2 <= n)%nat) (f : DictFormat_e) (cp : Z).
Abbreviation seg_ok := (seg_ok n f cp).
Abbreviation mode := SPH_HITLESS_NONE.

Lemma lives_fst v : map fst (lives v) = alive_from (sv_dead v) (length (sv_rows v)) 0.
Proof.
  unfold lives, alive_from. rewrite Nat.sub_0_r. assert (∀ (rows : list (list Z)) k, map fst (List.filter (λ x : nat * list Z, negb (bool_decide (Z.of_nat x.1 ∈ sv_dead v))) (imap (λ i, pair (k + i)%nat) rows)) = List.filter (λ i, negb (bool_decide (Z.of_nat i ∈ sv_dead v))) (seq k (length rows))) as K; [|exact (K (sv_rows v) 0%nat)].
  induction rows as [|r rows IH]; intros k; [done|]. cbn [imap length seq List.filter fst]. rewrite Nat.add_0_r. assert (imap ((λ i, pair (k + i)%nat) ∘ S) rows = imap (λ i, pair (S k + i)%nat) rows) as -> by (apply imap_ext; intros i x _; cbn; f_equal; lia). destruct (negb _); [cbn [map fst]; f_equal|]; apply IH.
Qed.

Lemma RtLiveRows_ok s v : seg_ok s v -> RtLiveRows s = Some (map (λ x, Z.of_nat x.1) (lives v)).
Proof.
  intros H. unfold RtLiveRows. rewrite (so_count _ _ _ _ _ H), Nat2Z.id. pose proof (so_size _ _ _ _ _ H) as Sz. rewrite (so_count _ _ _ _ _ H) in Sz. destruct (skip_ok _ _ _ (so_dead _ _ _ _ _ H) Sz (S (length (sv_rows v))) 0) as (r & E & Hr & Ea & Hd); [lia|lia|]. change (Z.of_nat 0) with 0 in E. rewrite E. cbn [mbind option_bind]. rewrite (live_rows_ok _ _ _ (so_dead _ _ _ _ _ H) Sz) by (lia || done). rewrite <- Ea, <- lives_fst. by rewrite map_map.
Qed.

(** ** The map of the rows *)

Fixpoint number (c : nat) (xs : list (nat * list Z)) (M : list Z) : list Z :=
  match xs with [] => M | x :: xs' => number (S c) xs' (<[x.1 := Z.of_nat c]> M) end.

Lemma number_size xs : ∀ c M, length (number c xs M) = length M.
Proof. induction xs as [|x xs IH]; intros c M; [done|]. cbn. by rewrite IH, length_insert. Qed.

Lemma number_other xs : ∀ c M i, i ∉ map fst xs -> number c xs M !! i = M !! i.
Proof. induction xs as [|x xs IH]; intros c M i Hi; [done|]. cbn [number]. cbn [map] in Hi. apply not_elem_of_cons in Hi as [H1 H2]. rewrite IH by done. by rewrite list_lookup_insert_ne. Qed.

Lemma number_at xs : ∀ c M k i row, NoDup (map fst xs) -> Forall (λ x : nat * list Z, (x.1 < length M)%nat) xs -> xs !! k = Some (i, row) -> number c xs M !! i = Some (Z.of_nat (c + k)).
Proof.
  induction xs as [|x xs IH]; intros c M k i row Nd Hf E; [done|]. cbn [map] in Nd. apply NoDup_cons in Nd as [N1 N2]. apply Forall_cons in Hf as [F1 F2]. cbn [number]. destruct k as [|k].
  - injection E as ->. cbn [fst] in *. rewrite number_other by done. rewrite list_lookup_insert_eq by done. by rewrite Nat.add_0_r.
  - rewrite (IH (S c) _ k i row); [f_equal; f_equal; lia|done|rewrite length_insert; done|done].
Qed.

Lemma copy_alive_ok rows xs : Forall (λ r, length r = n) rows -> ∀ R M c, (∀ i row, (i, row) ∈ xs -> rows !! i = Some row) -> Z.of_nat (c + length xs) < 2 ^ 32 ->
  copy_alive n (concat rows) (map (λ x, Z.of_nat x.1) xs) (concat R) M (Z.of_nat c) = Some (concat (R ++ map snd xs), number c xs M, Z.of_nat (c + length xs)).
Proof.
  intros Hf. induction xs as [|[i row] xs IH]; intros R M c Hx Hc; cbn [map copy_alive length number]; [by rewrite app_nil_r, Nat.add_0_r|]. cbn [fst snd]. rewrite Nat2Z.id. pose proof (Hx i row ltac:(by left)) as Er. rewrite (row_at_concat n i rows row Hf Er). assert (length row = n) as Hl by (rewrite Forall_lookup in Hf; by apply (Hf i)). rewrite Hl, Nat.eqb_refl. cbn [length] in Hc. rewrite (cast_id DWORD) by (done || unfold in_type; cbn; lia). replace (Z.of_nat c + 1) with (Z.of_nat (S c)) by lia. replace (concat R ++ row) with (concat (R ++ [row])) by (rewrite concat_app; cbn; by rewrite app_nil_r). rewrite IH; [|intros j r Hj; apply Hx; by right|lia]. rewrite <- app_assoc. cbn [app]. do 3 f_equal. lia.
Qed.

(** The row map of a segment whose rows are numbered from [c] on. *)
Definition row_map (c : nat) (v : segview) : list Z := number c (lives v) (replicate (length (sv_rows v)) INVALID_ROWID).

Lemma Copy_ok s v R c : seg_ok s v -> Z.of_nat (c + length (lives v)) < 2 ^ 32 ->
  CopyAttributesFromAliveDocs n s (concat R) (Z.of_nat c) = Some (concat (R ++ map snd (lives v)), row_map c v, Z.of_nat (c + length (lives v))).
Proof.
  intros H Hc. unfold CopyAttributesFromAliveDocs. rewrite (RtLiveRows_ok s v H). cbn [mbind option_bind]. rewrite (so_rows _ _ _ _ _ H), (so_count _ _ _ _ _ H), Nat2Z.id. apply copy_alive_ok; [apply (so_stride _ _ _ _ _ H)|intros i row Hi; by apply in_lives in Hi as [? _]|done].
Qed.

Lemma lives_fst_nodup v : NoDup (map fst (lives v)).
Proof. rewrite lives_fst. unfold alive_from. clear. generalize (length (sv_rows v) - 0)%nat as k. intros k. assert (NoDup (seq 0 k)) as N by apply NoDup_seq. induction (seq 0 k) as [|x l IH]; [constructor|]. apply NoDup_cons in N as [N1 N2]. cbn [List.filter]. destruct (negb _); [|by apply IH]. apply NoDup_cons. split; [|by apply IH]. intros Hx. apply N1. apply list_elem_of_In, filter_In in Hx as [Hx _]. by apply list_elem_of_In. Qed.

Lemma row_map_alive c v k i row : lives v !! k = Some (i, row) -> row_map c v !! i = Some (Z.of_nat (c + k)).
Proof.
  intros E. apply (number_at _ _ _ _ _ row); [apply lives_fst_nodup| |done]. apply Forall_forall. intros [j r] [Hj _]%in_lives. rewrite length_replicate. cbn. by eapply lookup_lt_Some.
Qed.

Lemma row_map_dead c v i : (i < length (sv_rows v))%nat -> Z.of_nat i ∈ sv_dead v -> row_map c v !! i = Some INVALID_ROWID.
Proof.
  intros Hi Hd. unfold row_map. rewrite number_other; [by apply lookup_replicate_2|]. intros H. apply list_elem_of_fmap in H as ([j r] & -> & [_ Hj]%in_lives). done.
Qed.

Lemma row_map_cases c v i r : row_map c v !! i = Some r -> (∃ k row, lives v !! k = Some (i, row) /\ r = Z.of_nat (c + k)) \/ (Z.of_nat i ∈ sv_dead v /\ r = INVALID_ROWID).
Proof.
  intros E. assert (i < length (sv_rows v))%nat as Hi by (apply lookup_lt_Some in E; unfold row_map in E; by rewrite number_size, length_replicate in E). destruct (decide (Z.of_nat i ∈ sv_dead v)) as [Hd|Hd].
  - right. rewrite row_map_dead in E by done. by injection E as <-.
  - left. destruct (lookup_lt_is_Some_2 _ _ Hi) as [row Er]. assert ((i, row) ∈ lives v) as Hl by (by apply in_lives). apply list_elem_of_lookup in Hl as (k & Ek). exists k, row. split; [done|]. rewrite (row_map_alive c v k i row Ek) in E. by injection E as <-.
Qed.

(** ** The documents of a word *)

Abbreviation payload := (λ g : gdoc, (g_fields g, g_hits g)).

Definition in_rows (v : segview) (ds : list gdoc) : Prop := Forall (λ d, 0 <= g_row d < Z.of_nat (length (sv_rows v))) ds.

Lemma lives_sorted v : StronglySorted lt (map fst (lives v)).
Proof.
  rewrite lives_fst. unfold alive_from. assert (∀ k t, StronglySorted lt (List.filter (λ i, negb (bool_decide (Z.of_nat i ∈ sv_dead v))) (seq t k))) as K; [|apply K]. induction k as [|k IH]; intros t; [constructor|]. cbn [seq List.filter]. destruct (negb _); [|apply IH]. constructor; [apply IH|]. apply Forall_forall. intros x Hx. apply list_elem_of_In, filter_In in Hx as [Hx _]. apply in_seq in Hx. lia.
Qed.

Lemma lives_order v k k' i i' row row' : lives v !! k = Some (i, row) -> lives v !! k' = Some (i', row') -> (i < i')%nat -> (k < k')%nat.
Proof.
  intros E E' Hi. destruct (Nat.lt_ge_cases k k') as [|H]; [done|]. exfalso. assert (map fst (lives v) !! k = Some i /\ map fst (lives v) !! k' = Some i') as [F F'] by (split; rewrite list_lookup_fmap; [by rewrite E|by rewrite E']). destruct (Nat.eq_dec k k') as [->|N]; [rewrite F in F'; injection F' as ->; lia|]. pose proof (lives_sorted v) as S. apply list_elem_of_split_length in F' as (l1 & l2 & El & Hl). rewrite El in S, F. rewrite lookup_app_r in F by lia. destruct (k - length l1)%nat as [|q] eqn:Eq; [lia|]. cbn in F. apply list_elem_of_lookup_2 in F. apply StronglySorted_app_1_r in S. apply StronglySorted_inv in S as [_ S]. rewrite Forall_forall in S. specialize (S i F). lia.
Qed.

Section Remap.
Context (c : nat) (v : segview) (Hc : Z.of_nat (c + length (lives v)) <= INVALID_ROWID).

Definition moved (g : gdoc) : option gdoc := r ← row_map c v !! Z.to_nat (g_row g); if r =? INVALID_ROWID then None else Some (GDoc r (g_fields g) (g_hits g)).

Lemma moved_cases g : 0 <= g_row g < Z.of_nat (length (sv_rows v)) -> (∃ k row, lives v !! k = Some (Z.to_nat (g_row g), row) /\ moved g = Some (GDoc (Z.of_nat (c + k)) (g_fields g) (g_hits g))) \/ (g_row g ∈ sv_dead v /\ moved g = None).
Proof.
  intros Hg. unfold moved. assert (is_Some (row_map c v !! Z.to_nat (g_row g))) as [r Er] by (apply lookup_lt_is_Some_2; unfold row_map; rewrite number_size, length_replicate; lia). rewrite Er. cbn [mbind option_bind]. destruct (row_map_cases c v _ r Er) as [(k & row & Ek & ->)|[Hd ->]].
  - left. exists k, row. split; [done|]. apply lookup_lt_Some in Ek as Hk. by rewrite (proj2 (Z.eqb_neq _ _)) by lia.
  - right. rewrite Z2Nat.id in Hd by lia. by rewrite Z.eqb_refl.
Qed.

Lemma remap_row ds k i row : in_rows v ds -> lives v !! k = Some (i, row) -> map payload (List.filter (λ g, g_row g =? Z.of_nat (c + k)) (remap (row_map c v) ds)) = map payload (List.filter (λ g, g_row g =? Z.of_nat i) ds).
Proof.
  intros Hd Ek. unfold remap. induction Hd as [|g ds Hg _ IH]; [done|]. cbn [omap list_omap List.filter]. fold (moved g). destruct (moved_cases g Hg) as [(k' & row' & Ek' & ->)|[Hdead ->]].
  - cbn [List.filter g_row]. destruct (Z.eqb_spec (Z.of_nat (c + k')) (Z.of_nat (c + k))) as [E|N].
    + assert (k' = k) as -> by lia. rewrite Ek in Ek'. injection Ek' as E1 _. rewrite (proj2 (Z.eqb_eq _ _)) by lia. cbn [map]. by f_equal.
    + rewrite (proj2 (Z.eqb_neq (g_row g) (Z.of_nat i))); [done|]. intros E. apply N. rewrite E, Nat2Z.id in Ek'. assert (k' = k); [|lia]. apply (NoDup_lookup (map fst (lives v)) k' k i (lives_fst_nodup v)); rewrite list_lookup_fmap; [by rewrite Ek'|by rewrite Ek].
  - rewrite (proj2 (Z.eqb_neq (g_row g) (Z.of_nat i))); [done|]. intros E. assert ((i, row) ∈ lives v) as [_ Hl]%in_lives by (by eapply list_elem_of_lookup_2). by rewrite E in Hdead.
Qed.

Lemma remap_rows_in ds : in_rows v ds -> Forall (λ g, Z.of_nat c <= g_row g < Z.of_nat (c + length (lives v))) (remap (row_map c v) ds).
Proof.
  unfold remap. induction 1 as [|g ds Hg _ IH]; [constructor|]. cbn [omap list_omap]. fold (moved g). destruct (moved_cases g Hg) as [(k & row & Ek & ->)|[_ ->]]; [|done]. apply lookup_lt_Some in Ek. apply Forall_cons. split; [cbn; lia|done].
Qed.

Lemma remap_sorted ds : in_rows v ds -> StronglySorted Z.lt (map g_row ds) -> StronglySorted Z.lt (map g_row (remap (row_map c v) ds)).
Proof.
  intros Hd. unfold remap. induction Hd as [|g ds Hg Hd IH]; [constructor|]. cbn [map]. intros [Hs Hf]%StronglySorted_inv. specialize (IH Hs). cbn [omap list_omap]. fold (moved g). destruct (moved_cases g Hg) as [(k & row & Ek & ->)|[_ ->]]; [|done]. cbn [map g_row]. constructor; [done|]. clear IH Hs. rewrite Forall_map in Hf |- *. induction Hd as [|g' ds Hg' _ IH]; [constructor|]. apply Forall_cons in Hf as [H1 Hf]. cbn [omap list_omap]. fold (moved g'). destruct (moved_cases g' Hg') as [(k' & row' & Ek' & ->)|[_ ->]]; [|by apply IH]. apply Forall_cons. split; [|by apply IH]. cbn. pose proof (lives_order v k k' _ _ row row' Ek Ek' ltac:(lia)). lia.
Qed.

Lemma remap_hits_ok ds : RtDelete.hits_ok ds -> RtDelete.hits_ok (remap (row_map c v) ds).
Proof.
  unfold RtDelete.hits_ok, remap. induction 1 as [|g ds Hg _ IH]; [constructor|]. cbn [omap list_omap]. destruct (row_map c v !! Z.to_nat (g_row g)) as [r|]; cbn [mbind option_bind]; [|done]. destruct (r =? INVALID_ROWID); [done|]. by apply Forall_cons.
Qed.
End Remap.

Lemma filter_no_row r (ds : list gdoc) (lo hi : Z) : Forall (λ g, lo <= g_row g < hi) ds -> r < lo \/ hi <= r -> List.filter (λ g, g_row g =? r) ds = [].
Proof. intros H Hr. induction H as [|g ds Hg _ IH]; [done|]. cbn [List.filter]. by rewrite (proj2 (Z.eqb_neq _ _)) by lia. Qed.

Lemma hits_of_keys gs (ks : list wordkey) : NoDup ks -> (sum_list_with (λ k, all_hits (docs_for k gs)) ks <= total_hits gs)%nat.
Proof.
  intros N. induction gs as [|g gs IH]; [induction ks as [|k ks IHk]; [done|]; apply NoDup_cons in N as [_ N]; cbn; by apply IHk|]. change (total_hits (g :: gs)) with (all_hits (g_docs g) + total_hits gs)%nat. etrans; [|apply Nat.add_le_mono_l, IH]. clear IH. assert (∀ l : list wordkey, NoDup l -> sum_list_with (λ k, all_hits (docs_for k (g :: gs))) l <= (if bool_decide (g_key g ∈ l) then all_hits (g_docs g) else 0) + sum_list_with (λ k, all_hits (docs_for k gs)) l)%nat as K.
  { induction l as [|k l IHl]; intros Nl; [done|]. apply NoDup_cons in Nl as [N1 N2]. specialize (IHl N2). cbn [sum_list_with]. rewrite docs_for_cons, all_hits_app. destruct (decide (g_key g = k)) as [E|Ne].
    - rewrite (bool_decide_eq_true_2 (g_key g = k)) by done. rewrite bool_decide_eq_false_2 in IHl by congruence. rewrite bool_decide_eq_true_2 by (rewrite E; by left). lia.
    - rewrite (bool_decide_eq_false_2 (g_key g = k)) by done. change (all_hits []) with 0%nat. rewrite (bool_decide_ext (g_key g ∈ k :: l) (g_key g ∈ l)); [lia|]. rewrite elem_of_cons. tauto. }
  etrans; [by apply K|]. case_bool_decide; lia.
Qed.

(** ** The merged segment *)

Lemma lives_all rows gs : lives (SegView rows gs ∅) = imap pair rows.
Proof. unfold lives. cbn [sv_rows sv_dead]. induction (imap pair rows) as [|x l IH]; [done|]. cbn [List.filter]. rewrite bool_decide_eq_false_2 by set_solver. cbn. by f_equal. Qed.

Lemma live_ids_all rows gs : live_ids (SegView rows gs ∅) = map row_id rows.
Proof. unfold live_ids. rewrite lives_all. etrans; [apply (fmap_imap pair (λ x : nat * list Z, row_id x.2))|]. apply (imap_const row_id). Qed.

(** A segment without dead rows. *)
Lemma fresh_ok tWords rows gs h : rows ≠ [] -> Forall (λ r, length r = n) rows -> Z.of_nat (length rows) < 2 ^ 32 - 32 -> NoDup (map row_id rows) -> BuildDocID2RowIDMap (concat rows) (Z.of_nat (length rows)) = Some h -> searchable f cp mode tWords gs -> Forall (λ g, Forall (λ d, 0 <= g_row d < Z.of_nat (length rows)) (g_docs g)) gs ->
  seg_ok (RamSeg tWords (Z.of_nat (length rows)) (Z.of_nat (length rows)) (concat rows) h (DeadMap.Reset (Z.of_nat (length rows))) 0) (SegView rows gs ∅).
Proof.
  intros Nn Hf Hl Nd Eh Hs Hin. destruct (BuildMap_ok n Hn rows Nn Hf ltac:(lia) Nd) as (h' & m & Eh' & R & Hm). rewrite Eh in Eh'. injection Eh' as <-. split; cbn [rs_dRows rs_uRows rs_tAliveRows rs_tDocIDtoRowID rs_tDeadRowMap rs_tWords sv_rows sv_words sv_dead]; try done.
  - destruct rows; [done|cbn [length] in *; lia].
  - by exists m.
  - apply DeadMap.fresh_stands. lia.
  - rewrite lives_all, length_imap. done.
Qed.

Lemma row_map_wf c v gs : Z.of_nat (c + length (lives v)) <= INVALID_ROWID -> Forall (λ g, in_rows v (g_docs g)) gs -> maps_ok (row_map c v) gs.
Proof.
  intros Hc H. unfold maps_ok, map_wf. eapply Forall_impl; [exact H|]. intros g Hg. eapply Forall_impl; [exact Hg|]. cbn. intros d Hd. assert (is_Some (row_map c v !! Z.to_nat (g_row d))) as [r Er] by (apply lookup_lt_is_Some_2; unfold row_map; rewrite number_size, length_replicate; lia). exists r. split; [done|]. destruct (row_map_cases c v _ r Er) as [(k & row & Ek & ->)|[_ ->]]; [apply lookup_lt_Some in Ek; lia|unfold INVALID_ROWID; lia].
Qed.

Lemma docs_for_in v gs k : Forall (λ g, in_rows v (g_docs g)) gs -> in_rows v (docs_for k gs).
Proof. unfold docs_for, in_rows. induction 1 as [|g gs Hg _ IH]; [constructor|]. cbn [List.filter]. case_bool_decide; [cbn [map concat]; by apply Forall_app|done]. Qed.

Lemma docs_for_ok gs k : sorted_keys (map g_key gs) -> Forall (λ g, docs_ok (g_docs g)) gs -> docs_ok (docs_for k gs).
Proof.
  intros Hs Hd. destruct (decide (k ∈ map g_key gs)) as [Hk|Hk].
  - apply list_elem_of_fmap in Hk as (g & -> & Hg). rewrite (key_unique gs g Hs Hg). rewrite Forall_forall in Hd. by apply Hd.
  - rewrite docs_for_absent by done. split; [constructor|]. split; [constructor|]. split; [constructor|]. cbn. lia.
Qed.

Section Two.
Context (A B : RamSegment) (va vb : segview) (HA : seg_ok A va) (HB : seg_ok B vb).
Context (Hids : NoDup (live_ids va ++ live_ids vb)) (Hhits : Z.of_nat (total_hits (sv_words va) + total_hits (sv_words vb)) < 2 ^ 27).
Context (Hrows : Z.of_nat (length (lives va) + length (lives vb)) < 2 ^ 32 - 32).

Abbreviation la := (length (lives va)).
Abbreviation mA := (row_map 0 va).
Abbreviation mB := (row_map la vb).
Abbreviation rows := (map snd (lives va) ++ map snd (lives vb)).

Lemma words_in s v : seg_ok s v -> Forall (λ g, in_rows v (g_docs g)) (sv_words v).
Proof. intros H. pose proof (so_in _ _ _ _ _ H) as K. rewrite (so_count _ _ _ _ _ H) in K. exact K. Qed.

Lemma bound_a : Z.of_nat (0 + la) <= INVALID_ROWID.
Proof. unfold INVALID_ROWID. lia. Qed.

Lemma bound_b : Z.of_nat (la + length (lives vb)) <= INVALID_ROWID.
Proof. unfold INVALID_ROWID. lia. Qed.

Lemma merged_words : ∃ seg gs, MergeKeywords f cp mode (rs_tWords A) (rs_tWords B) mA mB = Some seg /\ searchable f cp mode seg gs /\ (∀ k, docs_for k gs = remap mA (docs_for k (sv_words va)) ++ remap mB (docs_for k (sv_words vb))) /\
  Forall (λ g, Forall (λ d, 0 <= g_row d < Z.of_nat (length rows)) (g_docs g)) gs /\ (total_hits gs <= total_hits (sv_words va) + total_hits (sv_words vb))%nat.
Proof.
  destruct (so_words _ _ _ _ _ HA) as [Ra Za Da]. destruct (so_words _ _ _ _ _ HB) as [Rb Zb Db]. pose proof (words_in A va HA) as Ia. pose proof (words_in B vb HB) as Ib. destruct (merge_represents f cp mode (rs_tWords A) (rs_tWords B) mA mB (sv_words va) (sv_words vb) Ra Rb (row_map_wf 0 va _ bound_a Ia) (row_map_wf la vb _ bound_b Ib) Hhits) as (seg & gs & E & R & Hd). exists seg, gs. split; [done|].
  assert (∀ g, g ∈ gs -> g_docs g = remap mA (docs_for (g_key g) (sv_words va)) ++ remap mB (docs_for (g_key g) (sv_words vb))) as Eg by (intros g Hg; rewrite <- Hd; symmetry; apply key_unique; [apply (re_sorted _ _ _ _ _ R)|done]).
  assert (∀ k, Forall (λ d, 0 <= g_row d < Z.of_nat la) (remap mA (docs_for k (sv_words va))) /\ Forall (λ d, Z.of_nat la <= g_row d < Z.of_nat (la + length (lives vb))) (remap mB (docs_for k (sv_words vb)))) as Rg by (intros k; split; [apply (remap_rows_in 0 va bound_a)|apply (remap_rows_in la vb bound_b)]; by apply docs_for_in).
  assert (Forall (λ g, Forall (λ d, 0 <= g_row d < Z.of_nat (length rows)) (g_docs g)) gs) as Hin.
  { apply Forall_forall. intros g Hg. rewrite (Eg g Hg), length_app, !length_map. destruct (Rg (g_key g)) as [R1 R2]. apply Forall_app. split; eapply Forall_impl; [exact R1|cbn; lia|exact R2|cbn; lia]. }
  assert (total_hits gs <= total_hits (sv_words va) + total_hits (sv_words vb))%nat as Ht.
  { assert (NoDup (map g_key gs)) as Nk. { pose proof (re_sorted _ _ _ _ _ R) as Hs. clear -Hs. induction Hs as [|k l _ IH Hf]; [constructor|]. apply NoDup_cons. split; [|done]. intros H. rewrite Forall_forall in Hf. specialize (Hf k H). by apply key_lt_irrefl in Hf. }
    etrans; [|apply Nat.add_le_mono; apply (hits_of_keys _ (map g_key gs) Nk)]. unfold total_hits. clear -Eg. induction gs as [|g gs IH]; [done|]. cbn [sum_list_with map]. specialize (IH ltac:(intros x Hx; apply Eg; by right)). rewrite (Eg g ltac:(by left)), all_hits_app. pose proof (remap_hits mA (docs_for (g_key g) (sv_words va))). pose proof (remap_hits mB (docs_for (g_key g) (sv_words vb))). lia. }
  split; [|done]. split; [done| |].
  - apply Forall_forall. intros g Hg. assert (g_docs g ≠ []) as Nn. { destruct (re_words _ _ _ _ _ R) as (ws & w & _ & _ & _ & _ & _ & F2). apply list_elem_of_lookup in Hg as (i & Ei). destruct (Forall2_lookup_r _ _ _ _ _ F2 Ei) as (t & _ & Wt). apply (wa_some _ _ _ _ Wt). }
    rewrite (Eg g Hg) in Nn. assert (g_key g ∈ map g_key (sv_words va) \/ g_key g ∈ map g_key (sv_words vb)) as [Hk|Hk].
    { destruct (decide (g_key g ∈ map g_key (sv_words va))) as [|Na]; [by left|]. destruct (decide (g_key g ∈ map g_key (sv_words vb))) as [|Nb]; [by right|]. by rewrite !docs_for_absent in Nn. }
    + apply list_elem_of_fmap in Hk as (g' & -> & Hg'). rewrite Forall_forall in Za. by apply Za.
    + apply list_elem_of_fmap in Hk as (g' & -> & Hg'). rewrite Forall_forall in Zb. by apply Zb.
  - apply Forall_forall. intros g Hg. destruct (Rg (g_key g)) as [R1 R2]. destruct (docs_for_ok (sv_words va) (g_key g) (re_sorted _ _ _ _ _ Ra) Da) as (Sa & _ & Oa & _). destruct (docs_for_ok (sv_words vb) (g_key g) (re_sorted _ _ _ _ _ Rb) Db) as (Sb & _ & Ob & _). pose proof (total_word g gs Hg) as Tw. split; [|split; [|split; [|lia]]]; rewrite (Eg g Hg).
    + rewrite map_app. apply StronglySorted_app_2; [|apply (remap_sorted 0 va bound_a); [by apply docs_for_in|done]|apply (remap_sorted la vb bound_b); [by apply docs_for_in|done]]. intros x y Hx Hy. apply list_elem_of_fmap in Hx as (dx & -> & Hx). apply list_elem_of_fmap in Hy as (dy & -> & Hy). rewrite Forall_forall in R1, R2. specialize (R1 dx Hx). specialize (R2 dy Hy). lia.
    + pose proof bound_b. apply Forall_app. split; eapply Forall_impl; [exact R1|cbn; lia|exact R2|cbn; lia].
    + unfold RtDelete.hits_ok. apply Forall_app. split; [by apply remap_hits_ok|by apply remap_hits_ok].
Qed.

Lemma merged_row k gs : (∀ k, docs_for k gs = remap mA (docs_for k (sv_words va)) ++ remap mB (docs_for k (sv_words vb))) ->
  (∀ j i row, lives va !! j = Some (i, row) -> row_posts k (Z.of_nat j) gs = row_posts k (Z.of_nat i) (sv_words va)) /\
  (∀ j i row, lives vb !! j = Some (i, row) -> row_posts k (Z.of_nat (la + j)) gs = row_posts k (Z.of_nat i) (sv_words vb)).
Proof.
  intros Hd. pose proof (docs_for_in va (sv_words va) k (words_in A va HA)) as Ia. pose proof (docs_for_in vb (sv_words vb) k (words_in B vb HB)) as Ib. unfold row_posts. rewrite Hd. split; intros j i row Ej; rewrite List.filter_app, map_app; apply lookup_lt_Some in Ej as Hj.
  - rewrite (filter_no_row _ (remap mB _) (Z.of_nat la) (Z.of_nat (la + length (lives vb)))); [|by apply (remap_rows_in la vb bound_b)|lia]. rewrite app_nil_r. exact (remap_row 0 va bound_a _ j i row Ia Ej).
  - rewrite (filter_no_row _ (remap mA _) (Z.of_nat 0) (Z.of_nat (0 + la))); [|by apply (remap_rows_in 0 va bound_a)|lia]. exact (remap_row la vb bound_b _ j i row Ib Ej).
Qed.

Lemma MergeTwo_ok : ∃ o, MergeTwoSegments f cp mode n A B = Some o /\
  match o with
  | None => lives va = [] /\ lives vb = []
  | Some s => ∃ v, seg_ok s v /\ sv_rows v = rows /\ sv_dead v = ∅ /\ rs_iLocked s = 0 /\ (total_hits (sv_words v) <= total_hits (sv_words va) + total_hits (sv_words vb))%nat /\
      ∀ k, (∀ j i row, lives va !! j = Some (i, row) -> row_posts k (Z.of_nat j) (sv_words v) = row_posts k (Z.of_nat i) (sv_words va)) /\
           (∀ j i row, lives vb !! j = Some (i, row) -> row_posts k (Z.of_nat (la + j)) (sv_words v) = row_posts k (Z.of_nat i) (sv_words vb))
  end.
Proof.
  unfold MergeTwoSegments. pose proof (Copy_ok A va [] 0 HA ltac:(lia)) as Ca. cbn [concat app Nat.add] in Ca. change (Z.of_nat 0) with 0 in Ca. rewrite Ca. cbn [mbind option_bind]. rewrite (Copy_ok B vb (map snd (lives va)) la HB) by lia. cbn [mbind option_bind]. destruct (Z.eqb_spec (Z.of_nat (la + length (lives vb))) 0) as [E0|N0].
  { exists None. split; [done|]. destruct (lives va), (lives vb); cbn in E0; try lia. done. }
  assert (length rows = (la + length (lives vb))%nat) as Hl by (by rewrite length_app, !length_map). assert (rows ≠ []) as Nn by (intros E; rewrite E in Hl; cbn in Hl; lia). assert (Forall (λ r, length r = n) rows) as Hf.
  { apply Forall_app. split; rewrite Forall_map, Forall_forall; intros [i r] [Hi _]%in_lives; cbn; [pose proof (so_stride _ _ _ _ _ HA) as F|pose proof (so_stride _ _ _ _ _ HB) as F]; rewrite Forall_lookup in F; by apply (F i). }
  assert (NoDup (map row_id rows)) as Nd by (rewrite map_app, !map_map; exact Hids). rewrite <- Hl. destruct (BuildMap_ok n Hn rows Nn Hf ltac:(lia) Nd) as (h & m & Eh & _ & _). rewrite Eh. cbn [mbind option_bind]. destruct merged_words as (seg & gs & -> & Hs & Hd & Hin & Ht). cbn [mbind option_bind]. eexists. split; [done|]. exists (SegView rows gs ∅). split; [apply fresh_ok; (done || lia)|]. do 4 (split; [done|]). intros k. by apply merged_row.
Qed.
End Two.
End Merge.
End RtRamMergeOk.
