(* ===== verification/RtChunk.v ===== *)
(** * The RAM chunk of a real-time index as a map of documents

    Transactions, the states that commits and merge steps can reach, and the map from
    document ids to documents that they refine. *)

From stdpp Require Import sorting gmap.
From S2P Require Import Prelude Hits Sort SortOk SearchNode Blob DeadMap OpenHash OpenHashOk RtSegment RtSegmentOk RtDelete RtQword RtQwordOk RtSearch RtAccum RtAccumOk RtRam RtRamOk.
Import Hitman Sort SortOk SearchNode RtSegment RtSegmentOk RtCreateOk RtMergeOk RtQwordOk RtSearch RtAccum RtAccumOk RtGroupOk RtRam RtRamOk RtRamMergeOk.

Module RtChunk.

(** ** Transactions *)

(** A statement: a document with its row and the words and positions of its text, added
    by INSERT or REPLACE, or ids to delete. *)
Inductive stmt := AddStmt (bReplace : bool) (pRow : list Z) (dHits : list (Z * Z)) | DeleteStmt (dDocs : list Z).

Definition run_stmt (a : RtAccum_t) (t : stmt) : option RtAccum_t :=
  match t with AddStmt b pRow dHits => RtAddDocument dHits pRow b 0 a | DeleteStmt l => Some (DeleteDocument l a) end.

Fixpoint run_stmts (a : RtAccum_t) (l : list stmt) : option RtAccum_t :=
  match l with [] => Some a | t :: l' => a ← run_stmt a t; run_stmts a l' end.

(** The hits that are accumulated: one of repeated neighbours, and the end marker of a
    field only if no other one of the word follows. *)
Fixpoint acc_hits (last : option (Z * Z)) (l : list (Z * Z)) : list (Z * Z) :=
  match l with
  | [] => []
  | x :: l' =>
      if bool_decide (last = Some x) then acc_hits last l'
      else match l' with
           | y :: _ => if IsEnd x.2 && (x.1 =? y.1) && ((GetField x.2 =? GetField y.2) && IsEnd y.2) then (x.1, GetPosWithField x.2) else x
           | [] => x
           end :: acc_hits (Some x) l'
  end.

Lemma accumulate_row i l : Z.of_nat i < INVALID_ROWID -> accumulate (WordHit INVALID_ROWID 0 0) (row_hits i l) = row_hits i (acc_hits None l).
Proof.
  intros Hi. assert (∀ o, accumulate match o with Some x => WordHit (Z.of_nat i) x.1 x.2 | None => WordHit INVALID_ROWID 0 0 end (row_hits i l) = row_hits i (acc_hits o l)) as K; [|exact (K None)].
  induction l as [|[u p] l IH]; intros o; [done|]. cbn [row_hits map acc_hits accumulate]. fold (row_hits i l). assert (same_hit (WordHit (Z.of_nat i) u p) match o with Some x => WordHit (Z.of_nat i) x.1 x.2 | None => WordHit INVALID_ROWID 0 0 end = bool_decide (o = Some (u, p))) as ->.
  { unfold same_hit. destruct o as [[u' p']|]; cbn [wh_tRowID wh_uWordID wh_uWordPos fst snd].
    - rewrite Z.eqb_refl. cbn [andb]. destruct (Z.eqb_spec u u') as [->|N], (Z.eqb_spec p p') as [->|N']; cbn [andb]; symmetry; (apply bool_decide_eq_true_2 || apply bool_decide_eq_false_2); congruence.
    - rewrite (proj2 (Z.eqb_neq _ _)) by lia. by rewrite bool_decide_eq_false_2. }
  case_bool_decide as Ho; [rewrite Ho; exact (IH (Some (u, p)))|]. cbn [row_hits map]. f_equal; [|exact (IH (Some (u, p)))]. destruct l as [|[u' p'] l]; [done|]. cbn [row_hits map fst snd]. unfold ResetTailHit. cbn [wh_tRowID wh_uWordID wh_uWordPos]. rewrite Z.eqb_refl. cbn [negb orb]. destruct (IsEnd p), (u =? u'); cbn [negb andb]; try done; by destruct (_ && _).
Qed.

(** The documents, the ids to kill and the mode of a transaction. *)
Definition txn_docs (l : list stmt) : list adoc := omap (λ t, match t with AddStmt _ pRow dHits => Some (pRow, acc_hits None dHits) | DeleteStmt _ => None end) l.
Definition txn_kills (l : list stmt) : list Z := concat (map (λ t, match t with AddStmt _ pRow _ => [row_id pRow] | DeleteStmt d => d end) l).
Definition txn_mode (l : list stmt) : bool := fold_left (λ b t, match t with AddStmt b' _ _ => b' | DeleteStmt _ => b end) l false.

Definition rows_ok (n : nat) (l : list stmt) : Prop := Forall (λ t, match t with AddStmt _ pRow _ => length pRow = n | DeleteStmt _ => True end) l.

Lemma run_stmts_ok n l : (2 <= n)%nat -> ∀ a ds, holds_docs n a ds -> ra_tNextRowID a = Z.of_nat (length ds) -> rows_ok n l -> Z.of_nat (length (ds ++ txn_docs l)) < INVALID_ROWID ->
  ∃ a', run_stmts a l = Some a' /\ holds_docs n a' (ds ++ txn_docs l) /\ ra_dAccumKlist a' = ra_dAccumKlist a ++ txn_kills l /\ ra_bReplace a' = fold_left (λ b t, match t with AddStmt b' _ _ => b' | DeleteStmt _ => b end) l (ra_bReplace a) /\ (ra_bPreparedForCommit a = false -> ra_bPreparedForCommit a' = false).
Proof.
  intros Hn. induction l as [|t l IH]; intros a ds H Hr Hl Hb; cbn [run_stmts].
  { exists a. cbn [txn_docs omap list_omap txn_kills map concat fold_left]. rewrite !app_nil_r. done. }
  apply Forall_cons in Hl as [Ht Hl]. destruct t as [b pRow dHits|l'].
  - cbn [run_stmt]. unfold RtAddDocument. assert (sphGetDocID pRow = Some (row_id pRow)) as -> by (rewrite <- (app_nil_r pRow) at 1; by apply (first_id n)). cbn [mbind option_bind GenerateRowID]. rewrite Hr. fold (row_hits (length ds) dHits). unfold AddDocument. change (txn_docs (AddStmt b pRow dHits :: l)) with ((pRow, acc_hits None dHits) :: txn_docs l) in *. rewrite length_app in Hb. cbn [length] in Hb. rewrite accumulate_row by lia. cbn [ra_dAccum ra_dAccumRows ra_uAccumDocs ra_dPerDocHitsCount ra_dAccumKlist ra_tNextRowID ra_iAccumBytes].
    set (a1 := RtAccum _ _ _ _ _ _ _ _ _). destruct H as [H1 H2 H3 H4 H5]. destruct (IH a1 (ds ++ [(pRow, acc_hits None dHits)])) as (a' & E & H' & K & M & P).
    + split; unfold a1; cbn [ra_dAccum ra_dAccumRows ra_uAccumDocs ra_dPerDocHitsCount].
      * rewrite H1, all_rows_app. f_equal. rewrite Nat.add_0_l, all_rows_cons. cbn. by rewrite app_nil_r.
      * rewrite H2, map_app, concat_app. cbn. by rewrite app_nil_r.
      * apply Forall_app. split; [done|]. by apply Forall_singleton.
      * rewrite H4, length_app. cbn [length]. rewrite cast_id by (done || unfold in_type; cbn; unfold INVALID_ROWID in Hb; lia). lia.
      * rewrite !length_app. cbn. lia.
    + unfold a1. cbn [ra_tNextRowID]. rewrite length_app. cbn [length]. rewrite cast_id by (done || unfold in_type; cbn; unfold INVALID_ROWID in Hb; lia). lia.
    + done.
    + rewrite !length_app. cbn. lia.
    + exists a'. split; [done|]. rewrite <- app_assoc in H'. split; [done|]. split; [|split; [done|intros _; by apply P]]. rewrite K. unfold a1. cbn [ra_dAccumKlist]. rewrite <- app_assoc. done.
  - cbn [run_stmt mbind option_bind]. destruct (IH (DeleteDocument l' a) ds) as (a' & E & H' & K & M & P); [destruct H; by split|done|done|done|]. exists a'. split; [done|]. split; [done|]. split; [|split; [done|intros _; by apply P]]. rewrite K. unfold DeleteDocument. cbn [ra_dAccumKlist]. rewrite <- app_assoc. done.
Qed.

(** ** What a chunk holds *)

(** A document: its row, and its words with positions. *)
Abbreviation document := (list Z * list (wordkey * Z))%type.

Definition all_ids (vs : list segview) : list Z := concat (map live_ids vs).
Definition chunk_hits (vs : list segview) : nat := sum_list_with (λ v, total_hits (sv_words v)) vs.

Section Chunk.
Context (n : nat) (Hn : (2 <= n)%nat) (f : DictFormat_e) (cp : Z).
Abbreviation seg_ok := (seg_ok n f cp).
Abbreviation mode := SPH_HITLESS_NONE.

(** The row [i] of a segment is the document. *)
Definition row_is (v : segview) (i : nat) (row : list Z) (d : document) : Prop := d.1 = row /\ ∀ k, shows d.2 k (row_posts k (Z.of_nat i) (sv_words v)).

(** The chunk holds the documents of a map, each in one row; [H] and [N] bound the hits
    and the documents. *)
Record chunk (s : RtIndex_c) (M : gmap Z document) (vs : list segview) (H N : nat) : Prop := {
  ck_segs : Forall2 seg_ok (ri_dRamSegs s) vs;
  ck_free : Forall (λ p, rs_iLocked p = 0) (ri_dRamSegs s);
  ck_ids : NoDup (all_ids vs);
  ck_dom : ∀ id, id ∈ all_ids vs <-> is_Some (M !! id);
  ck_docs : ∀ v i row, v ∈ vs -> (i, row) ∈ lives v -> ∃ d, M !! row_id row = Some d /\ row_is v i row d;
  ck_total : ri_iTotalDocuments s = Z.of_nat (length (all_ids vs));
  ck_hits : (chunk_hits vs <= H)%nat;
  ck_rows : (length (all_ids vs) <= N)%nat
}.

Lemma chunk_size s M vs H N : chunk s M vs H N -> base.size M = length (all_ids vs).
Proof.
  intros [_ _ Nd Dm _ _ _ _]. rewrite <- (size_dom M). assert (dom M = list_to_set (all_ids vs)) as ->; [apply set_eq; intros id; by rewrite elem_of_dom, elem_of_list_to_set, Dm|]. by apply size_list_to_set.
Qed.

(** ** Killing in all segments *)

Lemma all_ids_app vs vs' : all_ids (vs ++ vs') = all_ids vs ++ all_ids vs'.
Proof. unfold all_ids. by rewrite map_app, concat_app. Qed.

Lemma live_ids_without l v v' : without l v v' -> live_ids v' = List.filter (λ id, negb (bool_decide (id ∈ l))) (live_ids v).
Proof. intros (_ & _ & E). unfold live_ids. rewrite E. clear E. induction (lives v) as [|x L IH]; [done|]. cbn [List.filter map]. destruct (negb _); [cbn [map]; by f_equal|done]. Qed.

Lemma all_ids_without l vs vs' : Forall2 (without l) vs vs' -> all_ids vs' = List.filter (λ id, negb (bool_decide (id ∈ l))) (all_ids vs).
Proof. induction 1 as [|v v' vs vs' W _ IH]; [done|]. unfold all_ids in *. cbn [map concat]. by rewrite List.filter_app, IH, (live_ids_without l v v' W). Qed.

Lemma hits_without l vs vs' : Forall2 (without l) vs vs' -> chunk_hits vs' = chunk_hits vs.
Proof. induction 1 as [|v v' vs vs' (_ & E & _) _ IH]; [done|]. unfold chunk_hits in *. cbn. by rewrite IH, E. Qed.

Lemma kill_segments_ok l segs vs : Forall2 seg_ok segs vs -> Forall (λ p, rs_iLocked p = 0) segs ->
  ∃ segs' vs', kill_segments l segs = Some (Z.of_nat (length (all_ids vs)) - Z.of_nat (length (all_ids vs')), segs') /\ Forall2 seg_ok segs' vs' /\ Forall2 (without l) vs vs' /\ Forall (λ p, rs_iLocked p = 0) segs'.
Proof.
  induction 1 as [|s v segs vs Hs _ IH]; intros Hl; cbn [kill_segments].
  { exists [], []. split; [done|]. done. }
  apply Forall_cons in Hl as [L1 Hl]. destruct (ram_KillMulti_ok n Hn f cp l s v Hs) as (s' & v' & -> & S' & W' & L'). cbn [mbind option_bind]. destruct (IH Hl) as (segs' & vs' & -> & F1 & F2 & F3). cbn [mbind option_bind]. exists (s' :: segs'), (v' :: vs'). split; [|split; [by constructor|split; [by constructor|apply Forall_cons; split; [congruence|done]]]].
  do 2 f_equal. unfold all_ids. cbn [map concat]. rewrite !length_app. unfold live_ids. rewrite !length_map. lia.
Qed.

Lemma without_nil vs : Forall2 (without []) vs vs.
Proof.
  induction vs as [|v vs IH]; constructor; [|done]. split; [done|]. split; [done|]. clear. induction (lives v) as [|x L IH]; [done|]. cbn [List.filter]. rewrite bool_decide_eq_false_2 by apply not_elem_of_nil. cbn. by f_equal.
Qed.

Lemma ApplyKillList_ok l segs vs : Forall2 seg_ok segs vs -> Forall (λ p, rs_iLocked p = 0) segs ->
  ∃ segs' vs', ApplyKillList l segs = Some (Z.of_nat (length (all_ids vs)) - Z.of_nat (length (all_ids vs')), segs') /\ Forall2 seg_ok segs' vs' /\ Forall2 (without l) vs vs' /\ Forall (λ p, rs_iLocked p = 0) segs'.
Proof.
  intros Hs Hl. destruct l as [|id l]; [|exact (kill_segments_ok (id :: l) segs vs Hs Hl)]. exists segs, vs. rewrite Z.sub_diag. split; [done|]. split; [done|]. split; [apply without_nil|done].
Qed.

Lemma uniq_in l : ∀ x y, y ∈ x :: Blob.sphUniq x l <-> y ∈ x :: l.
Proof.
  induction l as [|z l IH]; intros x y; [done|]. cbn [Blob.sphUniq]. destruct (Z.eqb_spec x z) as [<-|N].
  - rewrite IH, !elem_of_cons. tauto.
  - specialize (IH z y). rewrite !elem_of_cons in *. tauto.
Qed.

Lemma sort_klist_ok l : Z.of_nat (length l) < 2 ^ 36 -> ∃ l', sort_klist l = Some l' /\ ∀ x, x ∈ l' <-> x ∈ l.
Proof.
  intros Hl. unfold sort_klist. destruct (sort_ok (λ a b, cast uint64_t a <? cast uint64_t b)) with (l := l) as (l' & -> & P & _); [intros x y; rewrite Z.ltb_lt, Z.ltb_ge; lia|unfold le; intros x y z; rewrite !Z.ltb_ge; lia|done|]. cbn [mbind option_bind]. eexists. split; [done|]. intros x. rewrite <- P. destruct l' as [|y l']; [done|]. apply uniq_in.
Qed.

Lemma filter_ext_in (l l' : list Z) (X : list Z) : (∀ x, x ∈ l <-> x ∈ l') -> List.filter (λ id, negb (bool_decide (id ∈ l))) X = List.filter (λ id, negb (bool_decide (id ∈ l'))) X.
Proof. intros H. apply List.filter_ext. intros x. f_equal. apply bool_decide_ext. apply H. Qed.

(** ** The documents that a transaction adds *)

Lemma keep_last_in ds d : d ∈ keep_last ds -> d ∈ ds.
Proof. induction ds as [|x ds IH]; [done|]. cbn. destruct (existsb _ _); [intros H; right; by apply IH|intros [->|H]%elem_of_cons; [by left|right; by apply IH]]. Qed.

Lemma winners_in b ds d : d ∈ winners b ds -> d ∈ ds.
Proof. rewrite winners_select. apply select_in. Qed.

Lemma winners_nodup b ds : NoDup (map doc_id (winners b ds)).
Proof.
  destruct b; cbn [winners].
  - induction ds as [|d ds IH]; [constructor|]. cbn [keep_last]. destruct (existsb _ _) eqn:E; [done|]. cbn [map]. apply NoDup_cons. split; [|done]. intros H. apply list_elem_of_fmap in H as (d' & Ed & Hd'%keep_last_in). rewrite <- not_true_iff_false in E. apply E, existsb_exists. exists d'. split; [by apply list_elem_of_In|]. by rewrite Ed, Z.eqb_refl.
  - assert (∀ seen, NoDup (map doc_id (keep_first seen ds)) /\ ∀ id, id ∈ map doc_id (keep_first seen ds) -> id ∉ seen) as K; [|apply K]. induction ds as [|d ds IH]; intros seen; [split; [constructor|by intros ? ?%not_elem_of_nil]|]. cbn [keep_first]. destruct (IH (doc_id d :: seen)) as [I1 I2]. destruct (existsb _ _) eqn:E.
    + split; [done|]. intros id Hid Hs. apply (I2 id Hid). by right.
    + cbn [map]. split.
      * apply NoDup_cons. split; [|done]. intros H. apply (I2 _ H). by left.
      * intros id [->|Hid]%elem_of_cons Hs; [|apply (I2 id Hid); by right]. rewrite <- not_true_iff_false in E. apply E. by apply existsb_in.
Qed.

(** The map after a transaction: what it kills goes, what it adds comes. *)
Definition stored (key : Z -> wordkey) (d : adoc) : Z * document := (doc_id d, (d.1, keyed key d.2)).
Definition apply_txn (key : Z -> wordkey) (l : list stmt) (M : gmap Z document) : gmap Z document :=
  list_to_map (map (stored key) (winners (txn_mode l) (txn_docs l))) ∪ filter (λ x, x.1 ∉ txn_kills l) M.

Lemma stored_lookup key b ds id d : (list_to_map (map (stored key) (winners b ds)) : gmap Z document) !! id = Some d <-> (∃ x, x ∈ winners b ds /\ doc_id x = id /\ d = (x.1, keyed key x.2)).
Proof.
  rewrite <- elem_of_list_to_map by (pose proof (winners_nodup b ds) as W; rewrite <- list_fmap_compose; exact W). rewrite list_elem_of_fmap. split; [intros (x & [= -> ->] & Hx); by exists x|intros (x & Hx & <- & ->); by exists x].
Qed.

Lemma txn_kills_docs l d : d ∈ txn_docs l -> doc_id d ∈ txn_kills l.
Proof.
  unfold txn_docs, txn_kills. induction l as [|[b pRow dHits|l'] l IH]; [by intros ?%not_elem_of_nil| |]; cbn [omap list_omap map concat].
  - intros [->|H]%elem_of_cons; [by left|]. apply elem_of_app. right. by apply IH.
  - intros H. apply elem_of_app. right. by apply IH.
Qed.

(** ** Committing *)

(** What a commit needs of a transaction: rows of the schema, keywords of the dictionary,
    and no more than the bounds. *)
Record good_txn (dPacked : list Z) (key : Z -> wordkey) (l : list stmt) : Prop := {
  gt_rows : rows_ok n l;
  gt_docs : good_docs f dPacked key (txn_docs l);
  gt_kills : Z.of_nat (length (txn_kills l)) < 2 ^ 36
}.

Definition txn_hits (l : list stmt) : nat := length (all_rows 0 (txn_docs l)).

Lemma all_rows_length ds : ∀ k, length (all_rows k ds) = sum_list_with (λ d : adoc, length d.2) ds.
Proof. induction ds as [|d ds IH]; intros k; [done|]. rewrite all_rows_cons, length_app, IH. unfold row_hits. by rewrite length_map. Qed.

Lemma select_sum m : ∀ ds : list adoc, (sum_list_with (λ d : adoc, length d.2) (select m ds) <= sum_list_with (λ d : adoc, length d.2) ds)%nat.
Proof. induction m as [|b m IH]; intros [|d ds]; cbn; try lia. specialize (IH ds). destruct b; cbn; lia. Qed.

Lemma winners_hits b ds : (length (all_rows 0 (winners b ds)) <= length (all_rows 0 ds))%nat.
Proof. rewrite !all_rows_length, winners_select. apply select_sum. Qed.

Lemma select_le {A} m : ∀ l : list A, (length (select m l) <= length l)%nat.
Proof. induction m as [|b m IH]; intros [|x l]; cbn; try lia. specialize (IH l). destruct b; cbn; lia. Qed.

Lemma winners_le b ds : (length (winners b ds) <= length ds)%nat.
Proof. rewrite winners_select. apply select_le. Qed.

(** The new segment. *)
Lemma CreateSegment_ok dPacked dHitless key a ds : ready f dPacked key n a ds -> NoDup (map doc_id ds) -> Z.of_nat (length ds) < 2 ^ 32 - 32 -> Z.of_nat (length (ra_dAccum a)) < 2 ^ 27 ->
  ∃ o, CreateSegment f cp mode dPacked dHitless a = Some o /\ match o with None => ds = [] | Some s => ∃ gs, seg_ok s (SegView (map fst ds) gs ∅) /\ rs_iLocked s = 0 /\ rs_uRows s = Z.of_nat (length ds) /\ (total_hits gs <= length (ra_dAccum a))%nat /\ ∀ i d k, ds !! i = Some d -> shows (keyed key d.2) k (row_posts k (Z.of_nat i) gs) end.
Proof.
  intros R Nd Hl Hh. unfold CreateSegment. rewrite (rd_docs _ _ _ _ _ _ R). destruct (Z.eqb_spec (Z.of_nat (length ds)) 0) as [E|N]; [exists None; split; [done|]; by destruct ds|]. destruct (ready_segment f dPacked key n a ds R cp dHitless) as (seg & -> & Hs & Ht & Hin); [unfold INVALID_ROWID; lia|done|]. cbn [mbind option_bind]. rewrite (rd_rows _ _ _ _ _ _ R). assert (length (map fst ds) = length ds) as El by apply length_map. rewrite <- El in *. assert (map fst ds ≠ []) as Nn by (intros E; rewrite E in N; cbn in N; lia). assert (Forall (λ r, length r = n) (map fst ds)) as Hf by (rewrite Forall_map; apply (rd_size _ _ _ _ _ _ R)). assert (NoDup (map row_id (map fst ds))) as Nd' by (rewrite map_map; exact Nd).
  destruct (BuildMap_ok n Hn (map fst ds) Nn Hf ltac:(lia) Nd') as (h & m & Eh & _ & _). rewrite Eh. cbn [mbind option_bind]. eexists. split; [done|]. eexists. split; [by apply (fresh_ok n Hn f cp)|]. do 3 (split; [done|]). intros i d k Ed. by apply (ready_shows f dPacked key n a ds R).
Qed.

Lemma chunk_without s M vs H N l segs' vs' : chunk s M vs H N -> Forall2 seg_ok segs' vs' -> Forall2 (without l) vs vs' -> ∀ v i row, v ∈ vs' -> (i, row) ∈ lives v -> row_id row ∉ l /\ ∃ d, M !! row_id row = Some d /\ row_is v i row d.
Proof.
  intros C Fs Fw v i row Hv Hi. apply list_elem_of_lookup in Hv as (j & Ej). destruct (Forall2_lookup_r _ _ _ _ _ Fw Ej) as (v0 & E0 & (W1 & W2 & W3)). rewrite W3 in Hi. apply list_elem_of_In, filter_In in Hi as [Hi%list_elem_of_In Hl]. apply negb_true_iff, bool_decide_eq_false in Hl. split; [done|]. destruct (ck_docs _ _ _ _ _ C v0 i row) as (d & Ed & Er); [by eapply list_elem_of_lookup_2|done|]. exists d. split; [done|]. unfold row_is in *. by rewrite W2.
Qed.

Lemma filter_kills (l l' : list Z) (M : gmap Z document) vs s H N : chunk s M vs H N -> (∀ x, x ∈ l' <-> x ∈ l) -> length (List.filter (λ id, negb (bool_decide (id ∈ l'))) (all_ids vs)) = base.size (filter (λ x, x.1 ∉ l) M).
Proof.
  intros C E. rewrite (filter_ext_in l' l _ E). rewrite <- (size_dom (filter (λ x, x.1 ∉ l) M)). set (X := List.filter _ _). assert (dom (filter (λ x : Z * document, x.1 ∉ l) M) = list_to_set X) as ->.
  { apply set_eq. intros id. rewrite elem_of_dom, elem_of_list_to_set. unfold X. rewrite list_elem_of_In, filter_In, <- list_elem_of_In, negb_true_iff, bool_decide_eq_false, (ck_dom _ _ _ _ _ C). split.
    - intros [d Hd]. apply map_lookup_filter_Some in Hd as [Hd Hl]. split; [by eexists|done].
    - intros [[d Hd] Hl]. exists d. apply map_lookup_filter_Some. done. }
  symmetry. apply size_list_to_set. unfold X. pose proof (nodup_map_filter (λ x : Z, x) (λ id, negb (bool_decide (id ∈ l))) (all_ids vs)) as K. rewrite !map_id in K. apply K. apply (ck_ids _ _ _ _ _ C).
Qed.

(** New segments next to the ones that were killed in. *)
Lemma chunk_add s M vs H N key l l' segs' vs' pn vn ws b : chunk s M vs H N -> Forall2 seg_ok segs' vs' -> Forall2 (without l') vs vs' -> Forall (λ p, rs_iLocked p = 0) segs' -> (∀ x, x ∈ l' <-> x ∈ txn_kills l) ->
  ws = winners (txn_mode l) (txn_docs l) -> Forall2 seg_ok pn vn -> Forall (λ p, rs_iLocked p = 0) pn -> all_ids vn = map doc_id ws -> (∀ v i row, v ∈ vn -> (i, row) ∈ lives v -> ∃ d, d ∈ ws /\ d.1 = row /\ row_is v i row (d.1, keyed key d.2)) -> (chunk_hits vn <= txn_hits l)%nat ->
  chunk (RtIndex (segs' ++ pn) (ri_iTotalDocuments s + (Z.of_nat (length ws) - (Z.of_nat (length (all_ids vs)) - Z.of_nat (length (all_ids vs'))))) b (ri_iNextOp s)) (apply_txn key l M) (vs' ++ vn) (H + txn_hits l) (N + length (txn_docs l)).
Proof.
  intros C F1 F2 F3 El Ew G1 G2 G3 G4 G5. pose proof (all_ids_without l' vs vs' F2) as Ea. assert (∀ x, x ∈ ws -> doc_id x ∈ txn_kills l) as Kw by (intros x Hx; rewrite Ew in Hx; by apply txn_kills_docs, (winners_in (txn_mode l))). assert (∀ id, id ∈ all_ids vs' <-> id ∈ all_ids vs /\ id ∉ txn_kills l) as Ia by (intros id; rewrite Ea, list_elem_of_In, filter_In, <- list_elem_of_In, negb_true_iff, bool_decide_eq_false, El; done).
  split; cbn [ri_dRamSegs ri_iTotalDocuments].
  - by apply Forall2_app.
  - by apply Forall_app.
  - rewrite all_ids_app, G3. apply NoDup_app. split; [|split].
    + rewrite Ea. pose proof (nodup_map_filter (λ x : Z, x) (λ id, negb (bool_decide (id ∈ l'))) (all_ids vs)) as K. rewrite !map_id in K. apply K. apply (ck_ids _ _ _ _ _ C).
    + intros id [_ Hk]%Ia Hw. apply Hk. apply list_elem_of_fmap in Hw as (d & -> & Hd). by apply Kw.
    + rewrite Ew. apply winners_nodup.
  - intros id. rewrite all_ids_app, elem_of_app, G3, Ia, (ck_dom _ _ _ _ _ C). unfold apply_txn. rewrite <- Ew. split.
    + intros [[[d Hd] Hk]|Hw]; apply lookup_union_is_Some; [right; exists d; by apply map_lookup_filter_Some|left]. apply list_elem_of_fmap in Hw as (x & -> & Hx). exists (x.1, keyed key x.2). rewrite Ew in *. apply stored_lookup. by exists x.
    + intros [[d Hd]|[d Hd]]%lookup_union_is_Some; [right|left].
      * rewrite Ew in Hd. apply stored_lookup in Hd as (x & Hx & <- & _). apply list_elem_of_fmap. exists x. by rewrite Ew.
      * apply map_lookup_filter_Some in Hd as [Hd Hk]. split; [by eexists|done].
  - intros v i row [Hv|Hv]%elem_of_app Hi.
    + destruct (chunk_without s M vs H N l' segs' vs' C F1 F2 v i row Hv Hi) as (Hl & d & Ed & Er). exists d. split; [|done]. rewrite El in Hl. unfold apply_txn. apply lookup_union_Some_raw. right. split; [|by apply map_lookup_filter_Some]. apply eq_None_not_Some. intros [d' Hd']. apply stored_lookup in Hd' as (x & Hx & Ex & _). apply Hl. rewrite <- Ex. apply Kw. by rewrite Ew.
    + destruct (G4 v i row Hv Hi) as (d & Hd & E1 & Er). exists (d.1, keyed key d.2). split; [|done]. unfold apply_txn. apply lookup_union_Some_raw. left. apply stored_lookup. exists d. rewrite Ew in Hd. split; [done|]. split; [|done]. unfold doc_id, row_id. by rewrite E1.
  - rewrite all_ids_app, length_app, G3, length_map, (ck_total _ _ _ _ _ C). lia.
  - unfold chunk_hits in *. rewrite sum_list_with_app. pose proof (hits_without l' vs vs' F2) as Hh. unfold chunk_hits in Hh. rewrite Hh. pose proof (ck_hits _ _ _ _ _ C) as K. unfold chunk_hits in K. lia.
  - rewrite all_ids_app, length_app, G3, length_map. assert (length (all_ids vs') <= length (all_ids vs))%nat by (rewrite Ea; apply List.filter_length_le). pose proof (ck_rows _ _ _ _ _ C). pose proof (winners_le (txn_mode l) (txn_docs l)). rewrite <- Ew in *. lia.
Qed.

(** A commit replaces the documents of the map. *)
Lemma Commit_ok s M vs H N dPacked dHitless key l : chunk s M vs H N -> good_txn dPacked key l -> Z.of_nat (H + txn_hits l) < 2 ^ 27 -> Z.of_nat (N + length (txn_docs l)) < 2 ^ 31 ->
  ∃ a s' vs', run_stmts new_accum l = Some a /\ Commit f cp mode n true dPacked dHitless a s = Some (true, Z.of_nat (base.size M) - Z.of_nat (base.size (filter (λ x, x.1 ∉ txn_kills l) M)), s') /\ chunk s' (apply_txn key l M) vs' (H + txn_hits l) (N + length (txn_docs l)).
Proof.
  intros C [T1 T2 T3] Hh Hr. destruct (run_stmts_ok n l Hn new_accum []) as (a & Ea & Ha & Ek & Em & Ep); [by split|done|done|cbn [app]; unfold INVALID_ROWID; lia|]. exists a. cbn [app] in Ha. change (ra_dAccumKlist new_accum) with (@nil Z) in Ek. cbn [app] in Ek. change (ra_bReplace a = txn_mode l) in Em. specialize (Ep eq_refl). pose proof (hd_docs _ _ _ Ha) as Ed. unfold Commit. rewrite Ed, Ek, Ep. destruct ((Z.of_nat (length (txn_docs l)) =? 0) && (length (txn_kills l) =? 0)%nat) eqn:E0.
  - apply andb_true_iff in E0 as [E0%Z.eqb_eq E1%Nat.eqb_eq]. assert (txn_docs l = []) as Ed0 by (apply nil_length_inv; lia). assert (txn_kills l = []) as Ek0 by (by apply nil_length_inv). assert (filter (λ x : Z * document, x.1 ∉ txn_kills l) M = M) as EM by (apply map_filter_id; intros i x _; cbn; rewrite Ek0; apply not_elem_of_nil). exists s, vs. split; [done|]. rewrite EM. split; [by rewrite Z.sub_diag|]. assert (apply_txn key l M = M) as -> by (unfold apply_txn; rewrite EM, Ed0; destruct (txn_mode l); cbn; apply map_empty_union). destruct C. split; try done; lia.
  - destruct (PreCommitAcc_ok f dPacked key n a (txn_docs l) Ha Hn) as (a' & Ea' & R & Ek' & _ & Hl'); [unfold INVALID_ROWID; lia|done|pose proof (winners_hits (ra_bReplace a) (txn_docs l)); unfold txn_hits in Hh; lia|]. rewrite Em in *. rewrite Ea'. cbn [mbind option_bind]. set (ws := winners (txn_mode l) (txn_docs l)) in *. pose proof (winners_hits (txn_mode l) (txn_docs l)) as Hw. fold ws in Hw. pose proof (winners_le (txn_mode l) (txn_docs l)) as Lw. fold ws in Lw.
    destruct (CreateSegment_ok dPacked dHitless key a' ws R (winners_nodup _ _)) as (o & -> & Ho); [lia|unfold txn_hits in Hh; lia|]. cbn [mbind option_bind]. rewrite Ek', Ek. destruct (sort_klist_ok (txn_kills l) T3) as (l' & -> & El). cbn [mbind option_bind]. unfold CommitReplayable. cbn [negb]. destruct (ApplyKillList_ok l' (ri_dRamSegs s) vs (ck_segs _ _ _ _ _ C) (ck_free _ _ _ _ _ C)) as (segs' & vs' & -> & F1 & F2 & F3). cbn [mbind option_bind]. pose proof (filter_kills (txn_kills l) l' M vs s H N C El) as Hs. rewrite <- (all_ids_without l' vs vs' F2) in Hs. rewrite <- Hs, (chunk_size s M vs H N C). destruct o as [p|].
    + destruct Ho as (gs & Sp & Lp & Up & Tp & Shp). rewrite Up, (cast_id int32_t) by (done || unfold in_type; cbn; lia). eexists _, (vs' ++ [SegView (map fst ws) gs ∅]). split; [done|]. split; [done|]. apply (chunk_add s M vs H N key l l' segs' vs' [p] _ ws _ C F1 F2 F3 El eq_refl); [constructor; [exact Sp|constructor]|by constructor| | |].
      * unfold all_ids. cbn [map concat]. rewrite app_nil_r, (live_ids_all n Hn), map_map. done.
      * intros v i row Hv Hi. apply list_elem_of_singleton in Hv as ->. rewrite (lives_all n Hn) in Hi. apply list_elem_of_lookup in Hi as (j & Ej). apply list_lookup_imap_Some in Ej as (r & Er & [= -> ->]). rewrite list_lookup_fmap in Er. destruct (ws !! j) as [d|] eqn:Ed'; [|done]. cbn in Er. injection Er as <-. exists d. split; [by eapply list_elem_of_lookup_2|]. split; [done|]. split; [done|]. intros k. by apply Shp.
      * unfold chunk_hits, txn_hits. cbn [sum_list_with sv_words]. lia.
    + eexists _, (vs' ++ []). split; [done|]. split; [done|]. pose proof (chunk_add s M vs H N key l l' segs' vs' [] [] ws (ri_iTotalBytes s + ra_iAccumBytes a') C F1 F2 F3 El eq_refl) as K. assert (Z.of_nat (length ws) = 0) as E by (by rewrite Ho). rewrite E in K. apply K; try done.
      * by rewrite Ho.
      * by intros v i row ?%not_elem_of_nil.
      * cbn. lia.
Qed.
End Chunk.
End RtChunk.

(** * A step of the merging keeps the documents of the RAM chunk

    Which segments [MergeSegmentsStep] merges and drops, and that the map of documents
    stays the same. *)

From stdpp Require Import sorting gmap.
From S2P Require Import Prelude Hits Sort SortOk SearchNode Blob DeadMap OpenHash OpenHashOk RtSegment RtSegmentOk RtDelete RtQword RtQwordOk RtSearch RtAccum RtAccumOk RtRam RtRamOk.
Import Hitman Sort SortOk SearchNode RtSegment RtSegmentOk RtCreateOk RtMergeOk RtQwordOk RtSearch RtAccum RtAccumOk RtGroupOk RtRam RtRamOk RtRamMergeOk RtChunk.

Module RtStepOk.

(** ** The two smallest segments *)

Lemma min_loop_ok segs k : ∀ i a b, (a < i)%nat -> (b < i)%nat -> a ≠ b -> let r := min_loop segs k i a b in (r.1 < i + k)%nat /\ (r.2 < i + k)%nat /\ r.1 ≠ r.2.
Proof.
  induction k as [|k IH]; intros i a b Ha Hb Hab; cbn [min_loop]; [cbn; lia|]. replace (i + S k)%nat with (S i + k)%nat by lia. destruct (_ <? _); [apply IH; lia|]. destruct (_ <? _); apply IH; lia.
Qed.

Lemma Find2Minimums_ok segs : (2 <= length segs)%nat -> let r := Find2Minimums segs in (r.1 < length segs)%nat /\ (r.2 < length segs)%nat /\ r.1 ≠ r.2.
Proof.
  intros H. unfold Find2Minimums. pose proof (min_loop_ok segs (length segs - 2) 2) as K. replace (2 + (length segs - 2))%nat with (length segs) in K by lia. destruct (_ <? _); apply K; lia.
Qed.

Lemma CheckWeCanMerge_ok segs hard soft new a b : CheckWeCanMerge segs hard soft new = Some (MERGE, (a, b)) -> (a < length segs)%nat /\ (b < length segs)%nat /\ a ≠ b.
Proof.
  unfold CheckWeCanMerge. destruct (negb new && _); [done|]. set (X := if hard <? soft then _ else _). assert (X.2 ≠ MERGE) as HX by (unfold X; by destruct (_ <? _)). destruct X as [s e]. cbn [snd] in HX. destruct (s <=? 0); [by intros [= -> _]|]. destruct (Z.ltb_spec (Z.of_nat (length segs)) (MAX_SEGMENTS - MAX_PROGRESSION_SEGMENT)) as [|L]; [done|]. unfold MAX_SEGMENTS, MAX_PROGRESSION_SEGMENT in L. pose proof (Find2Minimums_ok segs ltac:(lia)) as F. cbv zeta in F. destruct (Find2Minimums segs) as [i j]. cbn [fst snd] in *. destruct (segs !! i) as [pA|]; [|done]. destruct (segs !! j) as [pB|]; [|done]. cbn [mbind option_bind]. destruct (_ && _); [done|]. destruct (CheckSegmentsPair _ _ _) as [e'|]; [|done]. cbn [mbind option_bind]. intros [= _ <- <-]. done.
Qed.

Lemma ticket_some x : (GetNextOpTicket x).1 ≠ 0.
Proof. unfold GetNextOpTicket. destruct (Z.eqb_spec x 0) as [->|N]; done. Qed.

(** ** Which segments stay *)

Lemma unlocked_all segs : Forall (λ p, rs_iLocked p = 0) segs -> unlocked segs = seq 0 (length segs).
Proof.
  intros H. unfold unlocked. assert (∀ l, (∀ i, i ∈ l -> (i < length segs)%nat) -> List.filter (λ i, from_option (λ s, rs_iLocked s =? 0) false (segs !! i)) l = l) as K.
  { induction l as [|i l IH]; intros Hl; [done|]. cbn [List.filter]. destruct (lookup_lt_is_Some_2 segs i (Hl i ltac:(by left))) as [p Ep]. rewrite Ep. cbn [from_option]. rewrite Forall_lookup in H. rewrite (H i p Ep). cbn. f_equal. apply IH. intros j Hj. apply Hl. by right. }
  apply K. intros i [_ Hi]%elem_of_seq. lia.
Qed.

Lemma segs_at_all segs : segs_at segs (seq 0 (length segs)) = segs.
Proof.
  unfold segs_at. assert (∀ pre l : list RamSegment, omap (λ i, (pre ++ l) !! i) (seq (length pre) (length l)) = l) as K; [|exact (K [] segs)]. intros pre l. revert pre. induction l as [|x l IH]; intros pre; [done|]. cbn [length seq omap list_omap]. rewrite lookup_app_r, Nat.sub_diag by lia. cbn [lookup list_lookup]. f_equal. specialize (IH (pre ++ [x])). rewrite length_app, Nat.add_1_r, <- app_assoc in IH. exact IH.
Qed.

Definition retire (op : Z) (i : nat) (l : list RamSegment) : list RamSegment := match l !! i with Some p => if rs_tAliveRows p =? 0 then <[i := lock op p]> l else l | None => l end.

Lemma retire_length op l dFree : length (foldr (retire op) l dFree) = length l.
Proof. induction dFree as [|i dFree IH]; [done|]. cbn [foldr]. unfold retire at 1. destruct (_ !! i) as [p|]; [|done]. destruct (_ =? 0); [by rewrite length_insert|done]. Qed.

Lemma retire_lookup op l dFree k p : l !! k = Some p -> foldr (retire op) l dFree !! k = Some p \/ (rs_tAliveRows p = 0 /\ foldr (retire op) l dFree !! k = Some (lock op p)).
Proof.
  intros E. induction dFree as [|i dFree IH]; [by left|]. cbn [foldr]. unfold retire at 1 3. destruct (foldr _ _ _ !! i) as [q|] eqn:Eq; [|done]. destruct (Z.eqb_spec (rs_tAliveRows q) 0) as [Hq|]; [|done]. destruct (decide (i = k)) as [->|Nk]; [|by rewrite list_lookup_insert_ne]. right. rewrite list_lookup_insert_eq by (by eapply lookup_lt_Some). destruct IH as [IH|[Ha IH]]; rewrite IH in Eq; injection Eq as <-; [done|]. by split.
Qed.

(** The segments that are not in [dead] and have no live rows stay, by a mask. *)
Definition keeps (op : Z) (p : RamSegment) : bool := negb (rs_iLocked p =? op).

Lemma filter_select op l l' : length l' = length l -> (∀ k p q, l !! k = Some p -> l' !! k = Some q -> keeps op q = true -> q = p) -> List.filter (keeps op) l' = select (map (keeps op) l') l.
Proof.
  revert l'. induction l as [|p l IH]; intros [|q l'] Hl H; cbn in Hl; try done. cbn [List.filter map select]. rewrite IH; [|lia|intros k; exact (H (S k))]. destruct (keeps op q) eqn:Eq; [|done]. f_equal. by apply (H 0%nat).
Qed.

Definition no_view : segview := SegView [] [] ∅.

Lemma insert_ids vs i v : vs !! i = Some v -> all_ids vs ≡ₚ live_ids v ++ all_ids (<[i := no_view]> vs) /\ chunk_hits vs = (total_hits (sv_words v) + chunk_hits (<[i := no_view]> vs))%nat.
Proof.
  revert i. induction vs as [|w vs IH]; intros [|i] E; [done|done|injection E as ->; done|]. change (<[S i := no_view]> (w :: vs)) with (w :: <[i := no_view]> vs). destruct (IH i E) as [I1 I2]. unfold all_ids, chunk_hits in *. cbn [map concat sum_list_with]. split; [|lia]. rewrite I1. rewrite !app_assoc. apply Permutation_app_tail, Permutation_app_comm.
Qed.

Lemma select_views (m : list bool) (vs vs0 : list segview) : length m = length vs -> length vs0 = length vs -> (∀ k (b : bool) (v : segview), m !! k = Some b -> vs0 !! k = Some v -> if b then vs !! k = Some v else live_ids v = []) ->
  all_ids (select m vs) = all_ids vs0 /\ (chunk_hits (select m vs) <= chunk_hits vs0)%nat.
Proof.
  revert vs vs0. induction m as [|b m IH]; intros [|v vs] [|v0 vs0] H1 H2 H; cbn in H1, H2; try lia; [done|]. destruct (IH vs vs0) as [I1 I2]; [lia|lia|intros k; exact (H (S k))|]. specialize (H 0%nat b v0 eq_refl eq_refl). unfold all_ids, chunk_hits in *. destruct b; cbn [select map concat sum_list_with].
  - injection H as ->. split; [by f_equal|lia].
  - split; [by rewrite H|lia].
Qed.

Lemma select_forall2 {A B} (R : A -> B -> Prop) m l l' : Forall2 R l l' -> Forall2 R (select m l) (select m l').
Proof. intros H. revert m. induction H as [|x y l l' Hx _ IH]; intros [|[] m]; cbn [select]; try constructor; auto. Qed.

Section Step.
Context (n : nat) (Hn : (2 <= n)%nat) (f : DictFormat_e) (cp : Z).
Abbreviation seg_ok := (seg_ok n f cp).
Abbreviation chunk := (chunk n f cp).
Abbreviation mode := SPH_HITLESS_NONE.

(** Segments with other views of the same documents. *)
Lemma chunk_views s M vs H N segs' vs' b o : chunk s M vs H N -> Forall2 seg_ok segs' vs' -> Forall (λ p, rs_iLocked p = 0) segs' -> all_ids vs' ≡ₚ all_ids vs -> (chunk_hits vs' <= chunk_hits vs)%nat ->
  (∀ v i row, v ∈ vs' -> (i, row) ∈ lives v -> ∃ d, M !! row_id row = Some d /\ row_is v i row d) -> chunk (RtIndex segs' (ri_iTotalDocuments s) b o) M vs' H N.
Proof.
  intros C F1 F2 P Hh Hd. split; cbn [ri_dRamSegs ri_iTotalDocuments]; try done.
  - rewrite P. apply (ck_ids _ _ _ _ _ _ _ _ C).
  - intros id. rewrite P. apply (ck_dom _ _ _ _ _ _ _ _ C).
  - rewrite P. apply (ck_total _ _ _ _ _ _ _ _ C).
  - pose proof (ck_hits _ _ _ _ _ _ _ _ C). lia.
  - rewrite P. apply (ck_rows _ _ _ _ _ _ _ _ C).
Qed.

Lemma alive_none s v : seg_ok s v -> rs_tAliveRows s = 0 -> live_ids v = [].
Proof. intros H E. rewrite (so_alive _ _ _ _ _ H) in E. unfold live_ids. destruct (lives v); [done|cbn in E; lia]. Qed.

(** What is left of the segments: those locked by the operation and those without live
    rows are gone. [gone] are the ones that were merged. *)
Lemma survivors s M vs H N op segs1 vs0 dFree : chunk s M vs H N -> op ≠ 0 -> length segs1 = length (ri_dRamSegs s) -> length vs0 = length vs ->
  (∀ k p v, ri_dRamSegs s !! k = Some p -> vs !! k = Some v -> (segs1 !! k = Some p /\ vs0 !! k = Some v) \/ (segs1 !! k = Some (lock op p) /\ vs0 !! k = Some no_view)) ->
  ∃ m, List.filter (keeps op) (foldr (retire op) segs1 dFree) = select m (ri_dRamSegs s) /\ all_ids (select m vs) = all_ids vs0 /\ (chunk_hits (select m vs) <= chunk_hits vs0)%nat.
Proof.
  intros C Hop L1 L2 Hk. pose proof (Forall2_length _ _ _ (ck_segs _ _ _ _ _ _ _ _ C)) as Lv. set (l' := foldr (retire op) segs1 dFree). assert (length l' = length (ri_dRamSegs s)) as Ll by (unfold l'; by rewrite retire_length). pose proof (ck_free _ _ _ _ _ _ _ _ C) as Fr. rewrite Forall_lookup in Fr.
  assert (∀ k p v, ri_dRamSegs s !! k = Some p -> vs !! k = Some v -> seg_ok p v) as Sk by (intros k p v; apply (Forall2_lookup_lr _ _ _ _ _ _ (ck_segs _ _ _ _ _ _ _ _ C))).
  assert (∀ k p v, ri_dRamSegs s !! k = Some p -> vs !! k = Some v -> (l' !! k = Some p /\ vs0 !! k = Some v) \/ (∃ v0, l' !! k = Some (lock op p) /\ vs0 !! k = Some v0 /\ live_ids v0 = [])) as K.
  { intros k p v Ep Ev. destruct (Hk k p v Ep Ev) as [[E1 E0]|[E1 E0]].
    - destruct (retire_lookup op segs1 dFree k p E1) as [E|[Ha E]]; [by left|right; exists v; split; [done|]; split; [done|]; by apply (alive_none p v (Sk k p v Ep Ev))].
    - right. exists no_view. split; [|done]. destruct (retire_lookup op segs1 dFree k _ E1) as [E|[_ E]]; exact E. }
  assert (∀ p, keeps op (lock op p) = false) as Kl by (intros p; unfold keeps, lock; cbn; by rewrite Z.eqb_refl).
  exists (map (keeps op) l'). split; [apply filter_select; [done|]|apply select_views; [rewrite length_map; lia|done|]].
  - intros k p q Ep Eq Kq. destruct (lookup_lt_is_Some_2 vs k) as [v Ev]; [rewrite <- Lv; by eapply lookup_lt_Some|]. destruct (K k p v Ep Ev) as [[E _]|(v0 & E & _)]; rewrite E in Eq; injection Eq as <-; [done|]. by rewrite Kl in Kq.
  - intros k b v0 Eb E0. apply list_lookup_fmap_Some in Eb as (q & -> & Eq). destruct (lookup_lt_is_Some_2 vs k) as [v Ev]; [rewrite <- L2; by eapply lookup_lt_Some|]. destruct (lookup_lt_is_Some_2 (ri_dRamSegs s) k) as [p Ep]; [rewrite Lv; by eapply lookup_lt_Some|]. destruct (K k p v Ep Ev) as [[E E']|(v' & E & E' & Hv)]; rewrite E in Eq; injection Eq as <-; rewrite E' in E0; injection E0 as <-.
    + unfold keeps. rewrite (Fr k p Ep). rewrite (proj2 (Z.eqb_neq _ _)) by done. done.
    + by rewrite Kl.
Qed.

(** The documents that stay in segments that are kept. *)
Lemma kept_docs s M vs H N m : chunk s M vs H N -> ∀ v i row, v ∈ select m vs -> (i, row) ∈ lives v -> ∃ d, M !! row_id row = Some d /\ row_is v i row d.
Proof. intros C v i row Hv. apply (ck_docs _ _ _ _ _ _ _ _ C). by apply select_in in Hv. Qed.

Lemma kept_segs s M vs H N m : chunk s M vs H N -> Forall2 seg_ok (select m (ri_dRamSegs s)) (select m vs) /\ Forall (λ p, rs_iLocked p = 0) (select m (ri_dRamSegs s)).
Proof.
  intros C. split; [apply select_forall2, (ck_segs _ _ _ _ _ _ _ _ C)|]. pose proof (ck_free _ _ _ _ _ _ _ _ C) as F. rewrite Forall_forall in *. intros p Hp. apply F. by apply select_in in Hp.
Qed.

(** Only segments without live rows go. *)
Lemma drop_dead s M vs H N op dFree b o : chunk s M vs H N -> op ≠ 0 -> ∃ vs', chunk (RtIndex (List.filter (keeps op) (foldr (retire op) (ri_dRamSegs s) dFree) ++ []) (ri_iTotalDocuments s) b o) M vs' H N.
Proof.
  intros C Hop. destruct (survivors s M vs H N op (ri_dRamSegs s) vs dFree C Hop eq_refl eq_refl) as (m & -> & Ei & Hh); [intros k p v Ep Ev; by left|]. destruct (kept_segs s M vs H N m C) as [F1 F2]. exists (select m vs). rewrite app_nil_r. apply (chunk_views s M vs H N); try done; [by rewrite Ei|]. by apply (kept_docs s M vs H N).
Qed.

Section Merged.
Context (s : RtIndex_c) (M : gmap Z document) (vs : list segview) (H N : nat) (C : chunk s M vs H N).
Context (i j : nat) (A B : RamSegment) (va vb : segview) (Hij : i ≠ j).
Context (EA : ri_dRamSegs s !! i = Some A) (EB : ri_dRamSegs s !! j = Some B) (Ea : vs !! i = Some va) (Eb : vs !! j = Some vb).

Abbreviation vs0 := (<[j := no_view]> (<[i := no_view]> vs)).
Abbreviation segs1 op := (<[j := lock op B]> (<[i := lock op A]> (ri_dRamSegs s))).

Lemma pair_split : all_ids vs ≡ₚ (live_ids va ++ live_ids vb) ++ all_ids vs0 /\ chunk_hits vs = (total_hits (sv_words va) + total_hits (sv_words vb) + chunk_hits vs0)%nat.
Proof.
  destruct (insert_ids vs i va Ea) as [P1 Q1]. destruct (insert_ids (<[i := no_view]> vs) j vb) as [P2 Q2]; [by rewrite list_lookup_insert_ne|]. split; [by rewrite P1, P2, app_assoc|lia].
Qed.

Lemma pair_survivors op dFree : op ≠ 0 -> ∃ m, List.filter (keeps op) (foldr (retire op) (segs1 op) dFree) = select m (ri_dRamSegs s) /\ all_ids (select m vs) = all_ids vs0 /\ (chunk_hits (select m vs) <= chunk_hits vs0)%nat.
Proof.
  intros Hop. apply (survivors s M vs H N op (segs1 op) vs0 dFree C Hop); [by rewrite !length_insert|by rewrite !length_insert|]. intros k p v Ep Ev. apply lookup_lt_Some in EA as LA, EB as LB, Ea as La, Eb as Lb. destruct (decide (k = j)) as [->|Nj]; [|destruct (decide (k = i)) as [->|Ni]].
  - right. rewrite !list_lookup_insert_eq by (by rewrite length_insert). rewrite EB in Ep. by injection Ep as <-.
  - right. rewrite !(list_lookup_insert_ne _ j) by done. rewrite !list_lookup_insert_eq by done. rewrite EA in Ep. by injection Ep as <-.
  - left. by rewrite !list_lookup_insert_ne by done.
Qed.

(** Two segments without live rows. *)
Lemma merged_none op dFree b o : op ≠ 0 -> live_ids va = [] -> live_ids vb = [] -> ∃ vs', chunk (RtIndex (List.filter (keeps op) (foldr (retire op) (segs1 op) dFree) ++ []) (ri_iTotalDocuments s) b o) M vs' H N.
Proof.
  intros Hop Ia Ib. destruct (pair_survivors op dFree Hop) as (m & -> & Ei & Hh). destruct pair_split as [P Q]. rewrite Ia, Ib in P. destruct (kept_segs s M vs H N m C) as [F1 F2]. exists (select m vs). rewrite app_nil_r. apply (chunk_views s M vs H N); try done; [by rewrite Ei, P|lia|]. by apply (kept_docs s M vs H N).
Qed.

(** A merged segment in place of the two. *)
Lemma merged_some op dFree b o p v : op ≠ 0 -> seg_ok p v -> rs_iLocked p = 0 -> sv_rows v = map snd (lives va) ++ map snd (lives vb) -> sv_dead v = ∅ -> (total_hits (sv_words v) <= total_hits (sv_words va) + total_hits (sv_words vb))%nat ->
  (∀ k, (∀ q t row, lives va !! q = Some (t, row) -> row_posts k (Z.of_nat q) (sv_words v) = row_posts k (Z.of_nat t) (sv_words va)) /\ (∀ q t row, lives vb !! q = Some (t, row) -> row_posts k (Z.of_nat (length (lives va) + q)) (sv_words v) = row_posts k (Z.of_nat t) (sv_words vb))) ->
  ∃ vs', chunk (RtIndex (List.filter (keeps op) (foldr (retire op) (segs1 op) dFree) ++ [p]) (ri_iTotalDocuments s) b o) M vs' H N.
Proof.
  intros Hop Hs Lp Er Ed Ht Hp. destruct (pair_survivors op dFree Hop) as (m & -> & Ei & Hh). destruct pair_split as [P Q]. destruct (kept_segs s M vs H N m C) as [F1 F2]. assert (v = SegView (map snd (lives va) ++ map snd (lives vb)) (sv_words v) ∅) as Ev by (destruct v; cbn in *; congruence).
  assert (live_ids v = live_ids va ++ live_ids vb) as Iv by (rewrite Ev, (live_ids_all n Hn), map_app, !map_map; done). exists (select m vs ++ [v]). apply (chunk_views s M vs H N); try done.
  - apply Forall2_app; [done|]. constructor; [done|constructor].
  - apply Forall_app. split; [done|]. by apply Forall_singleton.
  - rewrite all_ids_app, Ei, P. unfold all_ids at 2. cbn [map concat]. rewrite app_nil_r, Iv. apply Permutation_app_comm.
  - unfold chunk_hits in *. rewrite sum_list_with_app. cbn [sum_list_with]. lia.
  - intros w t row [Hw|Hw]%elem_of_app Hi; [by apply (kept_docs s M vs H N m C w t row)|]. apply list_elem_of_singleton in Hw as ->. rewrite Ev in Hi. rewrite (lives_all n Hn) in Hi. apply list_elem_of_lookup in Hi as (q & Eq). apply list_lookup_imap_Some in Eq as (r & Er' & [= -> ->]). apply lookup_app_Some in Er' as [Er'|[Hq Er']]; apply list_lookup_fmap_Some in Er' as ([t' r'] & -> & El); cbn [snd].
    + destruct (ck_docs _ _ _ _ _ _ _ _ C va t' r') as (d & Ed' & E1 & E2); [by eapply list_elem_of_lookup_2|by eapply list_elem_of_lookup_2|]. exists d. split; [done|]. split; [done|]. intros k. destruct (Hp k) as [Hp1 _]. by rewrite (Hp1 q t' r' El).
    + destruct (ck_docs _ _ _ _ _ _ _ _ C vb t' r') as (d & Ed' & E1 & E2); [by eapply list_elem_of_lookup_2|by eapply list_elem_of_lookup_2|]. exists d. split; [done|]. split; [done|]. intros k. destruct (Hp k) as [_ Hp2]. rewrite length_map in Hq, El. specialize (Hp2 _ t' r' El). rewrite Nat.add_comm, Nat.sub_add in Hp2 by done. by rewrite Hp2.
Qed.
End Merged.

(** [MergeSegmentsStep] returns whenever its decision does, and what it leaves holds the
    same documents. *)
Lemma step_ok s M vs H N used hard soft new c : chunk s M vs H N -> Z.of_nat H < 2 ^ 27 -> Z.of_nat N < 2 ^ 32 - 32 ->
  CheckWeCanMerge (ri_dRamSegs s) (hard - foldr Z.add 0 (map used (ri_dRamSegs s))) (soft - foldr Z.add 0 (map used (ri_dRamSegs s))) new = Some c ->
  ∃ r, MergeSegmentsStep f cp mode n used hard soft new s = Some r /\ match r with DONE s' => ∃ vs', chunk s' M vs' H N | _ => True end.
Proof.
  intros C HH HN Ec. unfold MergeSegmentsStep. rewrite (unlocked_all _ (ck_free _ _ _ _ _ _ _ _ C)). set (dFree := seq 0 (length (ri_dRamSegs s))). assert (segs_at (ri_dRamSegs s) dFree = ri_dRamSegs s) as -> by apply segs_at_all. rewrite Ec. cbn [mbind option_bind]. destruct c as [e [a b]]. destruct e.
  - destruct (CheckWeCanMerge_ok _ _ _ _ _ _ Ec) as (La & Lb & Hab). pose proof (ticket_some (ri_iNextOp s)) as Ht. destruct (GetNextOpTicket (ri_iNextOp s)) as [op nx]. cbn [fst] in Ht. assert (∀ k, (k < length (ri_dRamSegs s))%nat -> dFree !! k = Some k) as Fr by (intros k Hk; unfold dFree; rewrite lookup_seq_lt by done; done). rewrite (Fr a La), (Fr b Lb). cbn [mbind option_bind]. destruct (lookup_lt_is_Some_2 _ _ La) as [A EA]. destruct (lookup_lt_is_Some_2 _ _ Lb) as [B EB]. rewrite EA, EB. cbn [mbind option_bind].
    pose proof (ck_segs _ _ _ _ _ _ _ _ C) as F. destruct (Forall2_lookup_l _ _ _ _ _ F EA) as (va & Ea & SA). destruct (Forall2_lookup_l _ _ _ _ _ F EB) as (vb & Eb & SB). destruct (pair_split vs a b va vb Hab Ea Eb) as [P Q]. pose proof (ck_hits _ _ _ _ _ _ _ _ C) as Kh. pose proof (ck_rows _ _ _ _ _ _ _ _ C) as Kr. pose proof (ck_ids _ _ _ _ _ _ _ _ C) as Kd. rewrite P in Kr, Kd. rewrite !length_app in Kr. assert (length (live_ids va) = length (lives va) /\ length (live_ids vb) = length (lives vb)) as [Ea' Eb'] by (unfold live_ids; by rewrite !length_map).
    destruct (MergeTwo_ok n Hn f cp A B va vb SA SB) as (p & -> & Hp); [by apply NoDup_app in Kd as [? _]|lia|lia|]. cbn [mbind option_bind]. rewrite (proj2 (Z.eqb_neq op 0)) by done. cbn [andb].     destruct p as [p|].
    + destruct Hp as (v & Sv & Rv & Dv & Lv & Tv & Pv). destruct (Z.eqb_spec (rs_tAliveRows p) 0) as [E0|_].
      * rewrite (proj2 (Z.eqb_neq op 0)) by done. eexists. split; [reflexivity|]. assert (live_ids va ++ live_ids vb = []) as [Ia Ib]%app_nil. { rewrite <- (alive_none p v Sv E0). assert (v = SegView (sv_rows v) (sv_words v) ∅) as -> by (destruct v; cbn in *; congruence). cbn [sv_rows]. by rewrite Rv, (live_ids_all n Hn), map_app, !map_map. }
        exact (merged_none s M vs H N C a b A B va vb Hab EA EB Ea Eb op dFree _ nx Ht Ia Ib).
      * eexists. split; [reflexivity|]. exact (merged_some s M vs H N C a b A B va vb Hab EA EB Ea Eb op dFree _ nx p v Ht Sv Lv Rv Dv Tv Pv).
    + rewrite (proj2 (Z.eqb_neq op 0)) by done. eexists. split; [reflexivity|]. destruct Hp as [Ia Ib]. apply (merged_none s M vs H N C a b A B va vb Hab EA EB Ea Eb op dFree _ nx Ht); unfold live_ids; [by rewrite Ia|by rewrite Ib].
  - cbn [mbind option_bind]. change (0 =? 0) with true. cbn [andb]. destruct (existsb _ dFree); [|eexists; by split]. pose proof (ticket_some (ri_iNextOp s)) as Ht. destruct (GetNextOpTicket (ri_iNextOp s)) as [op nx]. cbn [fst] in Ht. rewrite (proj2 (Z.eqb_neq op 0)) by done. eexists. split; [reflexivity|]. exact (drop_dead s M vs H N op dFree _ nx C Ht).
  - eexists. by split.
  - eexists. by split.
Qed.

(** ** Every step leaves fewer segments *)

Lemma filter_less {A} (P : A -> bool) (l : list A) i x : l !! i = Some x -> P x = false -> (length (List.filter P l) < length l)%nat.
Proof.
  revert i. induction l as [|y l IH]; intros [|i] E Hx; try done; cbn [List.filter length].
  - injection E as ->. rewrite Hx. pose proof (List.filter_length_le P l). lia.
  - specialize (IH i E Hx). destruct (P y); cbn [length]; lia.
Qed.

Lemma filter_less2 {A} (P : A -> bool) (l : list A) i j x y : l !! i = Some x -> l !! j = Some y -> i ≠ j -> P x = false -> P y = false -> (S (length (List.filter P l)) < length l)%nat.
Proof.
  revert i j. induction l as [|z l IH]; intros [|i] [|j] Ei Ej Hij Hx Hy; try done; cbn [List.filter length].
  - injection Ei as ->. rewrite Hx. pose proof (filter_less P l j y Ej Hy). lia.
  - injection Ej as ->. rewrite Hy. pose proof (filter_less P l i x Ei Hx). lia.
  - specialize (IH i j Ei Ej ltac:(lia) Hx Hy). destruct (P z); cbn [length]; lia.
Qed.

Lemma retire_locked op l dFree k p : l !! k = Some (lock op p) -> foldr (retire op) l dFree !! k = Some (lock op p).
Proof. intros E. by destruct (retire_lookup op l dFree k _ E) as [E'|[_ E']]. Qed.

Lemma retire_dead op l dFree k p : l !! k = Some p -> k ∈ dFree -> rs_tAliveRows p = 0 -> foldr (retire op) l dFree !! k = Some (lock op p).
Proof.
  intros E Hk Ha. induction dFree as [|i dFree IH]; [by apply not_elem_of_nil in Hk|]. cbn [foldr]. unfold retire at 1. destruct (decide (i = k)) as [->|N].
  - destruct (retire_lookup op l dFree k p E) as [E'|[_ E']]; rewrite E'; [|cbn]; rewrite Ha, Z.eqb_refl; rewrite list_lookup_insert_eq by (by eapply lookup_lt_Some); done.
  - apply elem_of_cons in Hk as [|Hk]; [congruence|]. specialize (IH Hk). destruct (_ !! i) as [q|]; [|done]. destruct (_ =? 0); [|done]. by rewrite list_lookup_insert_ne.
Qed.

Lemma step_shrinks s M vs H N used hard soft new s' : chunk s M vs H N -> MergeSegmentsStep f cp mode n used hard soft new s = Some (DONE s') -> (length (ri_dRamSegs s') < length (ri_dRamSegs s))%nat.
Proof.
  intros C. unfold MergeSegmentsStep. rewrite (unlocked_all _ (ck_free _ _ _ _ _ _ _ _ C)), segs_at_all. set (dFree := seq 0 (length (ri_dRamSegs s))). destruct (CheckWeCanMerge _ _ _ _) as [[e [a b]]|] eqn:Ec; [|done]. cbn [mbind option_bind]. assert (∀ op p, keeps op (lock op p) = false) as Kl by (intros op p; unfold keeps, lock; cbn; by rewrite Z.eqb_refl). destruct e; try done.
  - destruct (CheckWeCanMerge_ok _ _ _ _ _ _ Ec) as (La & Lb & Hab). destruct (GetNextOpTicket (ri_iNextOp s)) as [op nx] eqn:Et. pose proof (ticket_some (ri_iNextOp s)) as Ht. rewrite Et in Ht. cbn [fst] in Ht. assert (∀ k, (k < length (ri_dRamSegs s))%nat -> dFree !! k = Some k) as Fr by (intros k Hk; unfold dFree; rewrite lookup_seq_lt by done; done). rewrite (Fr a La), (Fr b Lb). cbn [mbind option_bind]. destruct (lookup_lt_is_Some_2 _ _ La) as [A EA]. destruct (lookup_lt_is_Some_2 _ _ Lb) as [B EB]. rewrite EA, EB. cbn [mbind option_bind]. destruct (MergeTwoSegments _ _ _ _ _ _) as [pm|]; [|done]. cbn [mbind option_bind]. rewrite (proj2 (Z.eqb_neq op 0)) by done. cbn [andb].
    set (pm' := match pm with Some p => _ | None => None end). intros E. assert (ri_dRamSegs s' = List.filter (keeps op) (foldr (retire op) (<[b := lock op B]> (<[a := lock op A]> (ri_dRamSegs s))) dFree) ++ match pm' with Some p => [p] | None => [] end) as -> by (destruct pm'; [|rewrite (proj2 (Z.eqb_neq op 0)) in E by done]; by injection E as <-). rewrite length_app. set (l' := foldr _ _ _). assert (length l' = length (ri_dRamSegs s)) as Ll by (unfold l'; by rewrite retire_length, !length_insert).
    pose proof (filter_less2 (keeps op) l' a b (lock op A) (lock op B)) as K. rewrite <- Ll. destruct pm'; cbn [length]; enough (S (length (List.filter (keeps op) l')) < length l')%nat by lia; apply K; try done; apply retire_locked; rewrite ?list_lookup_insert_eq, ?list_lookup_insert_ne by (rewrite ?length_insert; done); rewrite ?list_lookup_insert_eq by done; done.
  - cbn [mbind option_bind]. change (0 =? 0) with true. cbn [andb]. destruct (existsb _ dFree) eqn:Ek; [|done]. destruct (GetNextOpTicket (ri_iNextOp s)) as [op nx]. destruct (op =? 0); [done|]. intros [= <-]. cbn [ri_dRamSegs]. rewrite app_nil_r. apply existsb_exists in Ek as (k & Hk & Ha). destruct (ri_dRamSegs s !! k) as [p|] eqn:Ep; [|done]. cbn [from_option] in Ha. apply Z.eqb_eq in Ha. set (l' := foldr _ _ _). assert (length l' = length (ri_dRamSegs s)) as Ll by apply (retire_length op). rewrite <- Ll. apply (filter_less (keeps op) l' k (lock op p)); [|apply Kl]. apply (retire_dead op); [done|by apply list_elem_of_In|done].
Qed.
End Step.
End RtStepOk.
