(* ===== verification/RtReach.v ===== *)
(** * What a RAM chunk holds after any sequence of commits and merge steps

    The states that transactions, failed commits and merge steps reach refine a map
    from document ids to documents; lookups and queries answer from that map. *)

From stdpp Require Import sorting gmap.
From S2P Require Import Prelude Hits Sort SortOk SearchNode SearchNodeOk ExtTerm Query Ranker Search SearchExample Blob DeadMap OpenHash OpenHashOk RtSegment RtSegmentOk RtDelete RtQword RtQwordOk RtSearch RtAccum RtAccumOk RtRam RtRamOk RtChunk.
Import Hitman FieldMask Sort SortOk SearchNode SearchNodeOk Query Ranker Search RtSegment RtSegmentOk RtCreateOk RtMergeOk RtQwordOk RtSearch RtAccum RtAccumOk RtGroupOk RtRam RtRamOk RtRamMergeOk RtChunk RtStepOk.

Module RtReach.

(** ** The growth of vectors *)

(** The largest limit that the growth by 1.2 reaches before it leaves [int]. *)
Definition MAX_LIMIT : Z := 1838740736.

Lemma relimit_grows fuel : ∀ l N L, relimit_loop fuel l N = Some L -> ∀ k, k <= N -> ∃ t, relimit_loop fuel l k = Some t /\ k <= t.
Proof.
  induction fuel as [|fuel IH]; [done|]. intros l N L. cbn [relimit_loop]. destruct (Z.ltb_spec l N) as [H|H]; cbn [negb].
  - intros E k Hk. destruct (Z.ltb_spec l k) as [H'|H']; cbn [negb]; [|exists l; split; [done|lia]]. destruct (l <? SLOW_GROW_TRESHOLD); [by apply (IH _ N L)|]. destruct (int_of _) as [l'|]; [|done]. cbn [mbind option_bind] in *. by apply (IH _ N L).
  - intros _ k Hk. destruct (Z.ltb_spec l k); [lia|]. exists l. split; [done|lia].
Qed.

Lemma tight_ok k : k <= MAX_LIMIT -> ∃ t, TightRelimit k = Some t /\ k <= t.
Proof. apply (relimit_grows 120 8 MAX_LIMIT 1838740736). by vm_compute. Qed.

Lemma double_ok fuel : ∀ l k, 0 < l -> k <= l * 2 ^ Z.of_nat fuel -> ∃ t, double_loop (S fuel) l k = Some t /\ k <= t.
Proof.
  induction fuel as [|fuel IH]; intros l k Hl Hk; cbn [double_loop]; (destruct (Z.ltb_spec l k) as [H|H]; cbn [negb]; [|exists l; by split]).
  - change (2 ^ Z.of_nat 0) with 1 in Hk. lia.
  - apply (IH (l * 2) k); [lia|]. rewrite Nat2Z.inj_succ, Z.pow_succ_r in Hk by lia. lia.
Qed.

Lemma Relimit_ok b k : k <= MAX_LIMIT -> ∃ t, Relimit b k = Some t /\ k <= t.
Proof. destruct b; [apply tight_ok|]. intros Hk. apply (double_ok 59 8 k); [lia|]. unfold MAX_LIMIT in Hk. change (8 * 2 ^ Z.of_nat 59) with 4611686018427387904. lia. Qed.

(** A segment whose merging stays within the growth of vectors. *)
Definition small (p : RamSegment) : Prop := Forall (λ x, 2 * x.2 <= MAX_LIMIT) (vectors p) /\ 0 <= rs_tAliveRows p <= rs_uRows p /\ 0 < rs_uRows p < 2 ^ 31.

Lemma estimate_ok iAlive uRows : 0 <= iAlive <= uRows -> 0 < uRows -> ∀ la lb, Forall (λ x, 0 <= x.2 /\ 2 * x.2 <= MAX_LIMIT) la -> Forall (λ x, 0 <= x.2 /\ 2 * x.2 <= MAX_LIMIT) lb -> ∀ s m, is_Some (estimate iAlive uRows la lb s m).
Proof.
  intros H1 H2. induction la as [|[t a] la IH]; intros [|[t' b] lb] Fa Fb s m; cbn [estimate]; try by eexists. apply Forall_cons in Fa as [Ha Fa]. apply Forall_cons in Fb as [Hb Fb]. cbn [snd] in *. destruct (Relimit_ok t ((a + b) * iAlive / uRows)) as (r & -> & _); [|cbn [mbind option_bind]; by apply IH]. apply Z.div_le_upper_bound; [done|]. assert (a + b <= MAX_LIMIT) by lia. unfold MAX_LIMIT in *. nia.
Qed.

Lemma vectors_nonneg p : Forall (λ x, 0 <= x.2) (vectors p).
Proof. unfold vectors. apply Forall_map, Forall_true. intros x. cbn. lia. Qed.

Lemma CheckSegmentsPair_ok a b r : small a -> small b -> is_Some (CheckSegmentsPair a b r).
Proof.
  intros (Va & A1 & A2) (Vb & B1 & B2). unfold CheckSegmentsPair. rewrite cast_id by (done || unfold in_type; cbn; lia). rewrite (proj2 (Z.eqb_neq _ _)) by lia. destruct (estimate_ok (rs_tAliveRows a + rs_tAliveRows b) (rs_uRows a + rs_uRows b) ltac:(lia) ltac:(lia) (vectors a) (vectors b)) with (s := 0) (m := 0) as [[s m] ->]; [apply Forall_and; split; [apply vectors_nonneg|done]..|]. by eexists.
Qed.

Lemma CheckWeCanMerge_some segs hard soft new : Forall small segs -> is_Some (CheckWeCanMerge segs hard soft new).
Proof.
  intros F. unfold CheckWeCanMerge. destruct (negb new && _); [by eexists|]. destruct (if hard <? soft then _ else _) as [s e]. destruct (s <=? 0); [by eexists|]. destruct (Z.ltb_spec (Z.of_nat (length segs)) (MAX_SEGMENTS - MAX_PROGRESSION_SEGMENT)) as [|L]; [by eexists|]. unfold MAX_SEGMENTS, MAX_PROGRESSION_SEGMENT in L. destruct (Find2Minimums_ok segs ltac:(lia)) as (H1 & H2 & _). destruct (lookup_lt_is_Some_2 _ _ H1) as [a Ea]. destruct (lookup_lt_is_Some_2 _ _ H2) as [b Eb]. rewrite Ea, Eb. cbn [mbind option_bind]. destruct (_ && _); [by eexists|]. rewrite Forall_lookup in F. destruct (CheckSegmentsPair_ok a b s (F _ _ Ea) (F _ _ Eb)) as [d ->]. by eexists.
Qed.

Section Reach.
Context (n : nat) (Hn : (2 <= n)%nat) (f : DictFormat_e) (cp : Z).
Abbreviation mode := SPH_HITLESS_NONE.

(** ** Reachable states *)

(** The states of the RAM chunk, with the documents they stand for and the hits and
    documents that were committed. *)
Inductive reach : RtIndex_c -> gmap Z document -> nat -> nat -> Prop :=
| reach_new : reach new_index ∅ 0 0
| reach_commit s M H N dPacked dHitless key l a k s' :
    reach s M H N -> good_txn n f dPacked key l -> run_stmts new_accum l = Some a -> Commit f cp mode n true dPacked dHitless a s = Some (true, k, s') ->
    reach s' (apply_txn key l M) (H + txn_hits l) (N + length (txn_docs l))
| reach_failed s M H N dPacked dHitless a b k s' :
    reach s M H N -> Commit f cp mode n false dPacked dHitless a s = Some (b, k, s') -> reach s' M H N
| reach_step s M H N used hard soft new s' :
    reach s M H N -> MergeSegmentsStep f cp mode n used hard soft new s = Some (DONE s') -> reach s' M H N.

Lemma failed_commit dPacked dHitless a s b k s' : Commit f cp mode n false dPacked dHitless a s = Some (b, k, s') -> s' = s.
Proof.
  unfold Commit. destruct (_ && _); [congruence|]. destruct (if ra_bPreparedForCommit a then _ else _) as [a'|]; [|done]. cbn [mbind option_bind]. destruct (CreateSegment _ _ _ _ _ _) as [o|]; [|done]. cbn [mbind option_bind]. destruct (sort_klist _) as [l|]; [|done]. cbn [mbind option_bind]. unfold CommitReplayable. cbn [negb]. congruence.
Qed.

Lemma chunk_new : chunk n f cp new_index ∅ [] 0 0.
Proof. split; cbn; [constructor|constructor|constructor|intros id; split; [by intros ?%not_elem_of_nil|by intros [? ?]]|by intros v i row ?%not_elem_of_nil|done|lia|lia]. Qed.

Lemma reach_chunk s M H N : reach s M H N -> Z.of_nat H < 2 ^ 27 -> Z.of_nat N < 2 ^ 31 -> ∃ vs, chunk n f cp s M vs H N.
Proof.
  induction 1 as [|s M H N dPacked dHitless key l a k s' _ IH Hg Ea Ec|s M H N dPacked dHitless a b k s' _ IH Ec|s M H N used hard soft new s' _ IH Es]; intros HH HN.
  - exists []. apply chunk_new.
  - destruct IH as [vs C]; [lia|lia|]. destruct (Commit_ok n Hn f cp s M vs H N dPacked dHitless key l C Hg HH HN) as (a' & s'' & vs' & Ea' & Ec' & C'). rewrite Ea in Ea'. injection Ea' as <-. rewrite Ec in Ec'. injection Ec' as _ <-. by exists vs'.
  - rewrite (failed_commit _ _ _ _ _ _ _ Ec). by apply IH.
  - destruct IH as [vs C]; [lia|lia|]. destruct (CheckWeCanMerge (ri_dRamSegs s) (hard - foldr Z.add 0 (map used (ri_dRamSegs s))) (soft - foldr Z.add 0 (map used (ri_dRamSegs s))) new) as [c|] eqn:E.
    + destruct (step_ok n Hn f cp s M vs H N used hard soft new c C HH ltac:(lia) E) as (r & Er & Hr). rewrite Es in Er. injection Er as <-. exact Hr.
    + unfold MergeSegmentsStep in Es. rewrite (unlocked_all _ (ck_free _ _ _ _ _ _ _ _ C)), segs_at_all, E in Es. done.
Qed.

(** ** Lookups *)

Lemma GetAlive_ok s v id : seg_ok n f cp s v -> ∃ r, GetAliveRowidByDocid s id = Some r /\ ((r = INVALID_ROWID /\ id ∉ live_ids v) \/ ∃ i row, r = Z.of_nat i /\ (i, row) ∈ lives v /\ row_id row = id).
Proof.
  intros H. destruct (so_map _ _ _ _ _ H) as (m & R & Hm). unfold GetAliveRowidByDocid, find_row. rewrite (OpenHashOk.hash_Find_ok OpenHash.GetHash_Int64 0 (rs_tDocIDtoRowID s) m id R). cbn [mbind option_bind]. destruct (m !! id) as [r|] eqn:Er.
  - apply Hm in Er as [Er|(j & row & Ej & Eid & ->)]; [by rewrite lookup_empty in Er|]. cbn [Nat.add]. apply lookup_lt_Some in Ej as Lj. pose proof (so_count _ _ _ _ _ H) as Ec. pose proof (so_size _ _ _ _ _ H) as Es. destruct (so_dead _ _ _ _ _ H) as (S1 & S2 & _). rewrite DeadMap.IsSet_ok by (done || lia). cbn [mbind option_bind]. rewrite S2 by lia. eexists. split; [done|]. case_bool_decide as Hd.
    + left. split; [done|]. unfold live_ids. intros Hin. apply list_elem_of_fmap in Hin as ([i row'] & Ei & [Hi Hdi]%in_lives). cbn [snd] in Ei. assert (i = j) as ->; [|done]. apply (NoDup_lookup (map row_id (sv_rows v)) i j id (so_ids _ _ _ _ _ H)); rewrite list_lookup_fmap; [by rewrite Hi, Ei|by rewrite Ej; cbn; rewrite Eid].
    + right. exists j, row. split; [done|]. split; [by apply in_lives|done].
  - eexists. split; [done|]. left. split; [done|]. unfold live_ids. intros Hin. apply list_elem_of_fmap in Hin as ([i row] & Ei & [Hi _]%in_lives). cbn [snd] in Ei. rewrite (proj2 (Hm id (Z.of_nat i))) in Er; [done|]. right. exists i, row. done.
Qed.

Lemma GetAlive_row s v id i row : seg_ok n f cp s v -> (i, row) ∈ lives v -> row_id row = id -> GetAliveRowidByDocid s id = Some (Z.of_nat i) /\ Z.of_nat i ≠ INVALID_ROWID /\ row_at n (rs_dRows s) i = row.
Proof.
  intros H Hi Eid. destruct (GetAlive_ok s v id H) as (r & -> & [[_ Hn']|(j & row' & -> & Hj & Ej)]).
  - destruct Hn'. apply list_elem_of_fmap. by exists (i, row).
  - apply in_lives in Hi as [Hi _], Hj as [Hj _]. assert (j = i) as -> by (apply (NoDup_lookup (map row_id (sv_rows v)) j i id (so_ids _ _ _ _ _ H)); rewrite list_lookup_fmap; [by rewrite Hj; cbn; rewrite Ej|by rewrite Hi; cbn; rewrite Eid]). split; [done|]. apply lookup_lt_Some in Hi as Li. pose proof (so_count _ _ _ _ _ H). pose proof (so_bound _ _ _ _ _ H). split; [unfold INVALID_ROWID; lia|]. rewrite (so_rows _ _ _ _ _ H). apply row_at_concat; [apply (so_stride _ _ _ _ _ H)|done].
Qed.

(** An id is alive in one segment. *)
Lemma one_segment vs k k' v v' id : NoDup (all_ids vs) -> vs !! k = Some v -> vs !! k' = Some v' -> id ∈ live_ids v -> id ∈ live_ids v' -> k = k'.
Proof.
  revert k k'. induction vs as [|w vs IH]; intros k k' Nd E E' Hv Hv'; [done|]. unfold all_ids in *. cbn [map concat] in Nd. apply NoDup_app in Nd as (_ & Hd & Nd). assert (∀ q u, vs !! q = Some u -> id ∈ live_ids u -> id ∈ concat (map live_ids vs)) as K by (intros q u Eq Hu; apply list_elem_of_In, in_concat; exists (live_ids u); split; apply list_elem_of_In; [apply list_elem_of_fmap; exists u; split; [done|by eapply list_elem_of_lookup_2]|done]).
  destruct k as [|k], k' as [|k']; [done|injection E as ->; destruct (Hd id Hv); by apply (K k' v')|injection E' as ->; destruct (Hd id Hv'); by apply (K k v)|]. f_equal. by apply (IH k k').
Qed.

Lemma in_all_ids vs id : id ∈ all_ids vs <-> ∃ k v, vs !! k = Some v /\ id ∈ live_ids v.
Proof.
  unfold all_ids. rewrite list_elem_of_In, in_concat. split.
  - intros (l & Hl%list_elem_of_In & Hi%list_elem_of_In). apply list_elem_of_fmap in Hl as (v & -> & Hv). apply list_elem_of_lookup in Hv as (k & Ek). by exists k, v.
  - intros (k & v & Ek & Hi). exists (live_ids v). split; apply list_elem_of_In; [|done]. apply list_elem_of_fmap. exists v. split; [done|]. by eapply list_elem_of_lookup_2.
Qed.

(** What a segment holds of a document: the row, and the postings of every word. *)
Definition holds (p : RamSegment) (id : Z) (d : document) : Prop :=
  ∃ i gs, GetAliveRowidByDocid p id = Some (Z.of_nat i) /\ Z.of_nat i ≠ INVALID_ROWID /\ row_at n (rs_dRows p) i = d.1 /\ searchable f cp mode (rs_tWords p) gs /\ ∀ k, shows d.2 k (row_posts k (Z.of_nat i) gs).

Lemma chunk_holds s M vs H N id d : chunk n f cp s M vs H N -> M !! id = Some d -> ∃ k p v, ri_dRamSegs s !! k = Some p /\ vs !! k = Some v /\ id ∈ live_ids v /\ holds p id d.
Proof.
  intros C Ed. pose proof (proj2 (ck_dom _ _ _ _ _ _ _ _ C id) (ex_intro _ d Ed)) as Hin. apply in_all_ids in Hin as (k & v & Ev & Hv). destruct (Forall2_lookup_r _ _ _ _ _ (ck_segs _ _ _ _ _ _ _ _ C) Ev) as (p & Ep & Sp). exists k, p, v. do 3 (split; [done|]). unfold live_ids in Hv. apply list_elem_of_fmap in Hv as ([i row] & Eid & Hi). cbn [snd] in Eid. destruct (GetAlive_row p v id i row Sp Hi (eq_sym Eid)) as (G1 & G2 & G3). destruct (ck_docs _ _ _ _ _ _ _ _ C v i row) as (d' & Ed' & E1 & E2); [by eapply list_elem_of_lookup_2|done|]. rewrite <- Eid, Ed in Ed'. injection Ed' as <-. exists i, (sv_words v). split; [done|]. split; [done|]. split; [congruence|]. split; [apply (so_words _ _ _ _ _ Sp)|done].
Qed.

(** [C2] After any sequence of committed and failed transactions and merge steps, the
    RAM chunk holds exactly the documents of the map that the transactions define:
    every document is alive in one segment, with its row and with its words at its
    positions, and in no other; a document that was deleted, replaced or never added
    is found in none; and the counter of documents is the size of the map. *)
Theorem ram_chunk_refines s M H N : reach s M H N -> Z.of_nat H < 2 ^ 27 -> Z.of_nat N < 2 ^ 31 ->
  ri_iTotalDocuments s = Z.of_nat (base.size M) /\
  (∀ id d, M !! id = Some d -> ∃ k p, ri_dRamSegs s !! k = Some p /\ holds p id d /\ ∀ k' p', ri_dRamSegs s !! k' = Some p' -> k' ≠ k -> GetAliveRowidByDocid p' id = Some INVALID_ROWID) /\
  (∀ id, M !! id = None -> ∀ p, p ∈ ri_dRamSegs s -> GetAliveRowidByDocid p id = Some INVALID_ROWID).
Proof.
  intros Hr HH HN. destruct (reach_chunk s M H N Hr HH HN) as [vs C]. split; [by rewrite (chunk_size n f cp s M vs H N C), (ck_total _ _ _ _ _ _ _ _ C)|]. pose proof (ck_segs _ _ _ _ _ _ _ _ C) as F. split.
  - intros id d Ed. destruct (chunk_holds s M vs H N id d C Ed) as (k & p & v & Ep & Ev & Hv & Hp). exists k, p. split; [done|]. split; [done|]. intros k' p' Ep' Nk. destruct (Forall2_lookup_l _ _ _ _ _ F Ep') as (v' & Ev' & Sp'). destruct (GetAlive_ok p' v' id Sp') as (r & -> & [[-> _]|(j & row' & _ & Hj & Ej)]); [done|]. destruct Nk. apply (one_segment vs k' k v' v id (ck_ids _ _ _ _ _ _ _ _ C) Ev' Ev); [apply list_elem_of_fmap; by exists (j, row')|done].
  - intros id Ed p Hp. apply list_elem_of_lookup in Hp as (k & Ep). destruct (Forall2_lookup_l _ _ _ _ _ F Ep) as (v & Ev & Sp). destruct (GetAlive_ok p v id Sp) as (r & -> & [[-> _]|(j & row & _ & Hj & Ej)]); [done|]. assert (id ∈ all_ids vs) as [d Hd]%(ck_dom _ _ _ _ _ _ _ _ C); [|congruence]. apply in_all_ids. exists k, v. split; [done|]. apply list_elem_of_fmap. by exists (j, row).
Qed.

(** ** Well-formed segments *)

Lemma row_of_id p v i row : seg_ok n f cp p v -> sv_rows v !! i = Some row -> GetRowidByDocid p (row_id row) = Some (Z.of_nat i).
Proof.
  intros H E. unfold GetRowidByDocid. destruct (row_found n f cp p v (row_id row) H) as (o & -> & Ho). cbn [mbind option_bind]. rewrite (proj2 (Ho (Z.of_nat i))) by (by exists i, row). done.
Qed.

(** [C19] Every segment of a reachable chunk is well-formed: it has rows of the size of
    the schema and as many as it says; the id of every row leads back to the row; the
    map of dead rows covers the rows, and the counter of live rows counts those that
    are not dead; no operation holds the segment; and its words, with all rows inside
    the segment, can be read. *)
Theorem segments_wellformed s M H N p : reach s M H N -> Z.of_nat H < 2 ^ 27 -> Z.of_nat N < 2 ^ 31 -> p ∈ ri_dRamSegs s ->
  let uRows := Z.to_nat (rs_uRows p) in
  0 < rs_uRows p /\ length (rs_dRows p) = (uRows * n)%nat /\ rs_iLocked p = 0 /\
  (∀ i, (i < uRows)%nat -> GetRowidByDocid p (row_id (row_at n (rs_dRows p) i)) = Some (Z.of_nat i) /\ is_Some (DeadMap.IsSet (Z.of_nat i) (rs_tDeadRowMap p))) /\
  rs_tAliveRows p = Z.of_nat (length (List.filter (λ i, bool_decide (DeadMap.IsSet (Z.of_nat i) (rs_tDeadRowMap p) = Some false)) (seq 0 uRows))) /\
  ∃ gs, searchable f cp mode (rs_tWords p) gs /\ Forall (λ g, Forall (λ d, 0 <= g_row d < rs_uRows p) (g_docs g)) gs.
Proof.
  intros Hr HH HN Hp uRows. destruct (reach_chunk s M H N Hr HH HN) as [vs C]. pose proof (ck_free _ _ _ _ _ _ _ _ C) as Fr. apply list_elem_of_lookup in Hp as (k & Ek). rewrite Forall_lookup in Fr. specialize (Fr k p Ek). destruct (Forall2_lookup_l _ _ _ _ _ (ck_segs _ _ _ _ _ _ _ _ C) Ek) as (v & _ & Sv). pose proof (so_count _ _ _ _ _ Sv) as Ec. assert (uRows = length (sv_rows v)) as Eu by (unfold uRows; rewrite Ec; lia). rewrite Eu. pose proof (so_size _ _ _ _ _ Sv) as Es. pose proof (so_dead _ _ _ _ _ Sv) as Sd.
  assert (∀ i, (i < length (sv_rows v))%nat -> DeadMap.IsSet (Z.of_nat i) (rs_tDeadRowMap p) = Some (bool_decide (Z.of_nat i ∈ sv_dead v))) as Hd by (intros i Hi; apply (dead_at (rs_tDeadRowMap p) (sv_dead v) (length (sv_rows v))); [done|congruence|done]).
  split; [by apply (so_bound _ _ _ _ _ Sv)|]. split; [rewrite (so_rows _ _ _ _ _ Sv); by apply (length_concat_rows n), (so_stride _ _ _ _ _ Sv)|]. split; [done|]. split; [|split].
  - intros i Hi. destruct (lookup_lt_is_Some_2 _ _ Hi) as [row Er]. rewrite (so_rows _ _ _ _ _ Sv), (row_at_concat n i _ row (so_stride _ _ _ _ _ Sv) Er), (row_of_id p v i row Sv Er), (Hd i Hi). split; [done|by eexists].
  - rewrite (so_alive _ _ _ _ _ Sv), <- (length_map fst (lives v)), (lives_fst n Hn). unfold alive_from. rewrite Nat.sub_0_r. do 2 f_equal. apply List.filter_ext_in. intros i Hi%in_seq. rewrite Hd by lia. case_bool_decide as Hb; cbn [negb]; symmetry; [apply bool_decide_eq_false_2; congruence|by apply bool_decide_eq_true_2].
  - exists (sv_words v). split; [apply (so_words _ _ _ _ _ Sv)|apply (so_in _ _ _ _ _ Sv)].
Qed.

(** [C4] Every transaction that keeps within the bounds commits, from every state that
    was reached: the commit returns, reports the number of older documents that it
    killed, and the documents of the chunk become those of the map after the
    transaction. *)
Theorem commit_total s M H N dPacked dHitless key l : reach s M H N -> good_txn n f dPacked key l -> Z.of_nat (H + txn_hits l) < 2 ^ 27 -> Z.of_nat (N + length (txn_docs l)) < 2 ^ 31 ->
  ∃ a s', run_stmts new_accum l = Some a /\ Commit f cp mode n true dPacked dHitless a s = Some (true, Z.of_nat (base.size M) - Z.of_nat (base.size (filter (λ x, x.1 ∉ txn_kills l) M)), s') /\ reach s' (apply_txn key l M) (H + txn_hits l) (N + length (txn_docs l)).
Proof.
  intros Hr Hg HH HN. destruct (reach_chunk s M H N Hr) as [vs C]; [lia|lia|]. destruct (Commit_ok n Hn f cp s M vs H N dPacked dHitless key l C Hg HH HN) as (a & s' & vs' & Ea & Ec & _). exists a, s'. split; [done|]. split; [done|]. exact (reach_commit s M H N dPacked dHitless key l a _ s' Hr Hg Ea Ec).
Qed.

(** [C18] The chain of merge steps ends: every step leaves fewer segments, so that after
    no more steps than there are segments the worker is idle or asks for a disk chunk,
    and the documents of the chunk are still the same; unless a segment has grown past
    the sizes for which the growth of vectors is defined. *)
Theorem merge_worker_ends s M H N used hard soft new fuel : reach s M H N -> Z.of_nat H < 2 ^ 27 -> Z.of_nat N < 2 ^ 31 -> (length (ri_dRamSegs s) < fuel)%nat ->
  (∃ r s', RunMergeSegmentsWorker f cp mode n fuel used hard soft new s = Some (r, s') /\ reach s' M H N /\ match r with DONE _ => False | _ => True end) \/ (∃ s' p, reach s' M H N /\ p ∈ ri_dRamSegs s' /\ ¬ small p).
Proof.
  intros Hr HH HN. revert s new Hr. induction fuel as [|fuel IH]; intros s new Hr Hf; [lia|]. destruct (reach_chunk s M H N Hr HH HN) as [vs C]. cbn [RunMergeSegmentsWorker]. destruct (CheckWeCanMerge (ri_dRamSegs s) (hard - foldr Z.add 0 (map used (ri_dRamSegs s))) (soft - foldr Z.add 0 (map used (ri_dRamSegs s))) new) as [c|] eqn:Ec.
  - destruct (step_ok n Hn f cp s M vs H N used hard soft new c C HH ltac:(lia) Ec) as (r & Er & _). rewrite Er. cbn [mbind option_bind]. destruct r as [e| |s']; [left; by exists (SAVE e), s|left; by exists IDLE, s|]. apply IH; [by apply (reach_step s M H N used hard soft new)|]. pose proof (step_shrinks n Hn f cp s M vs H N used hard soft new s' C Er). lia.
  - right. assert (¬ Forall small (ri_dRamSegs s)) as Hs by (intros F; destruct (CheckWeCanMerge_some _ (hard - foldr Z.add 0 (map used (ri_dRamSegs s))) (soft - foldr Z.add 0 (map used (ri_dRamSegs s))) new F); congruence). apply not_Forall_Exists in Hs; [|intros p; unfold small; apply _]. apply Exists_exists in Hs as (p & Hp & Np). by exists s, p.
Qed.

(** ** Replicated transactions *)

Lemma winners_some b ds : ds ≠ [] -> winners b ds ≠ [].
Proof.
  intros Hd. destruct b; cbn [winners]; [|destruct ds; cbn; done]. induction ds as [|d ds IH]; [done|]. cbn [keep_last]. destruct (existsb _ ds) eqn:E; [|done]. apply IH. by destruct ds.
Qed.

(** [C22] A transaction that replication prepares by [PreCommit] commits as one that is
    prepared by the commit itself. *)
Theorem replicated_commit dPacked dHitless key l a s bBinlog : good_txn n f dPacked key l -> run_stmts new_accum l = Some a -> Z.of_nat (txn_hits l) < 2 ^ 27 -> Z.of_nat (length (txn_docs l)) < 2 ^ 32 - 32 ->
  ∃ a', PreCommit f n dPacked a = Some a' /\ Commit f cp mode n bBinlog dPacked dHitless a' s = Commit f cp mode n bBinlog dPacked dHitless a s.
Proof.
  intros [T1 T2 T3] Ea HH HN. destruct (run_stmts_ok n l Hn new_accum []) as (a0 & Ea0 & Ha & Ek & Em & Ep); [by split|done|done|cbn [app]; unfold INVALID_ROWID; lia|]. rewrite Ea in Ea0. injection Ea0 as <-. cbn [app] in Ha. specialize (Ep eq_refl). pose proof (hd_docs _ _ _ Ha) as Ed. unfold PreCommit. destruct ((ra_uAccumDocs a =? 0) && _) eqn:E0; [by exists a|].
  destruct (PreCommitAcc_ok f dPacked key n a (txn_docs l) Ha Hn) as (a' & Ea' & R & Ek' & _ & _); [unfold INVALID_ROWID; lia|done|pose proof (winners_hits n Hn (ra_bReplace a) (txn_docs l)); unfold txn_hits in HH; lia|]. rewrite Ea'. cbn [mbind option_bind]. eexists. split; [done|]. unfold Commit at 2. rewrite E0, Ep, Ea'. cbn [mbind option_bind]. unfold Commit. cbn [ra_uAccumDocs ra_dAccumKlist ra_bPreparedForCommit]. rewrite Ek'. assert ((ra_uAccumDocs a' =? 0) && (length (ra_dAccumKlist a) =? 0)%nat = false) as ->; [|done].
  rewrite andb_false_iff in *. destruct E0 as [E0|E0]; [left|by right]. rewrite Z.eqb_neq in *. rewrite (rd_docs _ _ _ _ _ _ R). pose proof (winners_some (ra_bReplace a) (txn_docs l)) as K. rewrite Ed in E0. destruct (txn_docs l); [done|]. specialize (K ltac:(done)). destruct (winners _ _); [done|]. cbn. lia.
Qed.
End Reach.
End RtReach.

(** * Searching the RAM chunk

    A boolean query over the segments of the RAM chunk finds the documents of the map
    that match it. *)

From stdpp Require Import sorting gmap.
From S2P Require Import Prelude Hits Sort SortOk SearchNode SearchNodeOk ExtTerm Query Ranker Search HitBuilderOk DeadMap OpenHash OpenHashOk RtSegment RtSegmentOk RtDelete RtQword RtQwordOk RtSearch RtAccum RtAccumOk RtRam RtRamOk RtChunk RtFullText.
Import Hitman FieldMask SearchNode SearchNodeOk ExtTerm Query Ranker Search RtSegment RtSegmentOk RtCreateOk RtMergeOk RtDelete RtQword RtQwordOk RtSearch RtAccum RtAccumOk RtGroupOk RtRam RtRamOk RtRamMergeOk RtChunk RtStepOk RtFullText RtReach.

Module RtRamSearch.

(** ** What a query means for a document *)

(** The positions of a word in a document. *)
Definition word_hits (k : wordkey) (d : document) : list Z := map snd (List.filter (λ x, bool_decide (x.1 = k)) d.2).

(** The bits of the queried fields among the lowest 32. *)
Definition field_bits (m : FieldMask_t) (ps : list Z) : Z :=
  foldr (λ p a, if (GetField p <? 32) && Test_ m (GetField p) then Z.lor (2 ^ GetField p) a else a) 0 ps.

(** A word matches if it has a position in a queried field; its frequency counts the
    positions in all fields. *)
Definition word_value (m : FieldMask_t) (fIDF : float32) (row : Z) (ps : list Z) : option ExtDoc_t :=
  if existsb (λ p, Test_ m (GetField p)) ps
  then Some (ExtDoc row (field_bits m ps) (tfidf (Z.of_nat (length (remove_dups (map GetPosWithField ps)))) fIDF))
  else None.

(** The fields of the hits are fields of the table, and the last position of the last
    field is not used: a single hit there is read as the end of the hits. *)
Definition doc_fits (iFields : Z) (d : document) : Prop := Forall (λ x, GetField x.2 < iFields /\ GetPosWithField x.2 ≠ GetPosWithField 0xffffffff) d.2.

Definition doc_dwords (d : document) : Prop := Forall (λ x, dword x.2) d.2.

(** ** The masks of fields *)

Lemma field_range p : dword p -> 0 <= GetField p < 256.
Proof. apply HitBuilderRead.hit_field. Qed.

Lemma field_same p q : dword p -> dword q -> GetPosWithField p = GetPosWithField q -> GetField p = GetField q.
Proof. intros Hp Hq E. destruct (pos_field_end p Hp) as (<- & _). destruct (pos_field_end q Hq) as (<- & _). by rewrite E. Qed.

Lemma high_bit a k : 0 <= a < 2 ^ 32 -> 32 <= k -> Z.testbit a k = false.
Proof. intros Ha Hk. destruct (decide (a = 0)) as [->|]; [apply Z.bits_0|]. apply Z.bits_above_log2; [lia|]. apply Z.log2_lt_pow2; [lia|]. apply (Z.lt_le_trans _ (2 ^ 32)); [lia|]. apply Z.pow_le_mono_r; lia. Qed.

Lemma land_bits a b : 0 <= a < 2 ^ 32 -> negb (Z.land a b =? 0) = true <-> ∃ k, 0 <= k < 32 /\ Z.testbit a k = true /\ Z.testbit b k = true.
Proof.
  intros Ha. split.
  - intros H. destruct (existsb (λ k, Z.testbit a (Z.of_nat k) && Z.testbit b (Z.of_nat k)) (seq 0 32)) eqn:E.
    + apply existsb_exists in E as (k & Hk%in_seq & [E1 E2]%andb_true_iff). exists (Z.of_nat k). split; [lia|done].
    + exfalso. apply negb_true_iff, Z.eqb_neq in H. apply H. apply Z.bits_inj'. intros k Hk. rewrite Z.land_spec, Z.bits_0. destruct (decide (k < 32)) as [L|L]; [|by rewrite high_bit by lia]. apply not_true_iff_false. intros K. apply not_true_iff_false in E. apply E, existsb_exists. exists (Z.to_nat k). rewrite Z2Nat.id by lia. split; [apply in_seq; lia|done].
  - intros (k & Hk & E1 & E2). apply negb_true_iff, Z.eqb_neq. intros E. pose proof (Z.land_spec a b k) as S. rewrite E, Z.bits_0, E1, E2 in S. done.
Qed.

Lemma same_fields_iff a m : wf a -> has_same_fields a m = true <-> ∃ j, 0 <= j < 256 /\ Test_ a j = true /\ Test_ m j = true.
Proof.
  intros Ha. unfold has_same_fields. rewrite existsb_exists. split.
  - intros (i & Hi%in_seq & H). pose proof (word_in a i Ha) as Hw. unfold in_type in Hw. cbn in Hw. apply land_bits in H as (k & Hk & E1 & E2); [|lia]. unfold SIZE in Hi. exists (32 * Z.of_nat i + k). split; [lia|].
    assert ((32 * Z.of_nat i + k) / 32 = Z.of_nat i /\ (32 * Z.of_nat i + k) mod 32 = k) as [Ed Em] by (Z.to_euclidean_division_equations; lia). rewrite !Test_bitw, Ed, Em, Nat2Z.id by lia. done.
  - intros (j & Hj & E1 & E2). rewrite Test_bitw in E1, E2 by lia. exists (Z.to_nat (j / 32)). split; [apply in_seq; unfold SIZE; Z.to_euclidean_division_equations; lia|]. apply land_bits; [|exists (j mod 32); split; [Z.to_euclidean_division_equations; lia|done]]. pose proof (word_in a (Z.to_nat (j / 32)) Ha) as Hw. unfold in_type in Hw. cbn in Hw. lia.
Qed.

Definition has_field (j : Z) (l : list Z) : bool := existsb (λ p, GetField p =? j) l.

Lemma fields_bit l j : Forall dword l -> 0 <= j -> Z.testbit (fields_of l) j = (j <? 32) && has_field j l.
Proof.
  intros H Hj. unfold fields_of, has_field. assert (∀ a, Z.testbit (fold_left add_field l a) j = Z.testbit a j || ((j <? 32) && existsb (λ p, GetField p =? j) l)) as K; [|by rewrite K, Z.bits_0].
  induction H as [|p l Hp _ IH]; intros a; cbn [fold_left existsb]; [by rewrite andb_false_r, orb_false_r|]. rewrite IH. pose proof (field_range p Hp) as Rp. unfold add_field. destruct (Z.ltb_spec (GetField p) 32) as [L|L].
  - rewrite Z.lor_spec, Z.shiftl_1_l, Z.pow2_bits_eqb by lia. destruct (Z.eqb_spec (GetField p) j) as [<-|]; [rewrite (proj2 (Z.ltb_lt _ _) L)|]; destruct (Z.testbit a _); try done.
  - destruct (Z.eqb_spec (GetField p) j) as [<-|]; [|done]. rewrite (proj2 (Z.ltb_ge _ _) L). done.
Qed.

Lemma doc_mask_test g j : g_fields g = fields_of (g_hits g) -> Forall dword (g_hits g) -> 0 <= j < 256 -> wf (doc_mask g) /\ Test_ (doc_mask g) j = has_field j (g_hits g).
Proof.
  intros Eg Hd Hj. unfold doc_mask. assert (wf (Assign32 (g_fields g))) as Hw by (apply Assign32_wf; rewrite Eg; by apply fields_dword). split; [by apply HitBuilderRead.fold_set_wf|]. rewrite HitBuilderRead.fold_set_test by done.
  assert (existsb (Z.eqb j) (map GetField (g_hits g)) = has_field j (g_hits g)) as -> by (unfold has_field; induction (g_hits g) as [|p l IH]; [done|]; cbn; rewrite Z.eqb_sym; apply Forall_cons in Hd as [_ Hd]; f_equal; clear -l; induction l as [|q l IH]; [done|]; cbn; by rewrite IH, Z.eqb_sym).
  assert (Test_ (Assign32 (g_fields g)) j = (j <? 32) && has_field j (g_hits g)) as ->; [|by destruct (j <? 32), (has_field _ _)]. rewrite Test_bitw by lia. unfold bitw, Assign32. rewrite word_insert by (cbn; lia). case_decide as E.
  - rewrite <- (fields_bit _ j Hd) by lia. rewrite Eg. f_equal. Z.to_euclidean_division_equations; lia.
  - rewrite (proj2 (Z.ltb_ge j 32)) by (Z.to_euclidean_division_equations; lia). pose proof (Test_UnsetAll j ltac:(lia)) as T. rewrite Test_bitw in T by lia. exact T.
Qed.

Lemma field_bits_spec m ps j : Forall dword ps -> 0 <= j -> Z.testbit (field_bits m ps) j = (j <? 32) && has_field j ps && Test_ m j.
Proof.
  intros H Hj. unfold field_bits, has_field. induction H as [|p ps Hp _ IH]; cbn [foldr existsb]; [by rewrite Z.bits_0, andb_false_r|]. pose proof (field_range p Hp). destruct ((GetField p <? 32) && Test_ m (GetField p)) eqn:E.
  - apply andb_true_iff in E as [E1 E2]. rewrite Z.lor_spec, Z.pow2_bits_eqb, IH by lia. destruct (Z.eqb_spec (GetField p) j) as [<-|]; [by rewrite E1, E2|done].
  - rewrite IH. destruct (Z.eqb_spec (GetField p) j) as [<-|]; [|done]. cbn [orb]. destruct (GetField p <? 32); [|done]. cbn [andb] in *. rewrite E. by rewrite !andb_false_r.
Qed.

(** ** A word and a document *)

Section Word.
Context (iFields : Z) (m : FieldMask_t) (fIDF : float32) (g : gdoc) (ps : list Z).
Context (Eg : g_fields g = fields_of (g_hits g)) (Hg : Forall dword (g_hits g)) (Hs : StronglySorted pos_lt (g_hits g)).
Context (Hp : Forall dword ps) (Hf : Forall (λ p, GetField p < iFields) ps) (He : ∀ x, x ∈ map GetPosWithField (g_hits g) <-> x ∈ map GetPosWithField ps).

Lemma fields_agree j : has_field j (g_hits g) = has_field j ps.
Proof.
  assert (∀ l l', Forall dword l -> Forall dword l' -> (∀ x, x ∈ map GetPosWithField l -> x ∈ map GetPosWithField l') -> has_field j l = true -> has_field j l' = true) as K.
  { intros l l' Dl Dl' H. unfold has_field. rewrite !existsb_exists. intros (p & Hin%list_elem_of_In & E%Z.eqb_eq). destruct (proj1 (list_elem_of_fmap _ _ _) (H (GetPosWithField p) ltac:(apply list_elem_of_fmap; by exists p))) as (q & Eq & Hq). rewrite Forall_forall in Dl, Dl'. exists q. split; [by apply list_elem_of_In|]. apply Z.eqb_eq. rewrite <- (field_same p q (Dl p Hin) (Dl' q Hq) Eq). done. }
  apply eq_true_iff_eq. split; apply K; try done; intros x; apply He.
Qed.

Lemma places_agree : length (g_hits g) = length (remove_dups (map GetPosWithField ps)).
Proof.
  rewrite <- (length_map GetPosWithField (g_hits g)). apply Permutation_length, NoDup_Permutation; [|apply NoDup_remove_dups|intros x; by rewrite elem_of_remove_dups].
  clear -Hs. induction Hs as [|p l Hl IH Hlt]; cbn [map]; [constructor|]. constructor; [|by apply IH]. intros (q & E & Hq)%list_elem_of_fmap. rewrite Forall_forall in Hlt. specialize (Hlt q Hq). unfold pos_lt in Hlt. lia.
Qed.

(** The term keeps the document if and only if the word is in a queried field. *)
Lemma accepts_agree : (if wide_fields (32 <? iFields) m then has_same_fields (doc_mask g) m else negb (Z.land (g_fields g) (GetMask32 m) =? 0)) = existsb (λ p, Test_ m (GetField p)) ps.
Proof.
  apply eq_true_iff_eq. transitivity (∃ j, 0 <= j < 256 /\ has_field j ps = true /\ Test_ m j = true).
  - destruct (wide_fields (32 <? iFields) m) eqn:Ew.
    + destruct (doc_mask_test g 0 Eg Hg ltac:(lia)) as [W _]. rewrite (same_fields_iff _ _ W). split; intros (j & Hj & E1 & E2); exists j; (split; [done|]); destruct (doc_mask_test g j Eg Hg Hj) as [_ T]; rewrite T, fields_agree in *; done.
    + rewrite Eg, land_bits by (pose proof (proj1 (dword_range _) (fields_dword _ Hg)); lia). split.
      * intros (k & Hk & E1 & E2). rewrite fields_bit in E1 by (done || lia). apply andb_true_iff in E1 as [_ E1]. exists k. split; [lia|]. rewrite <- fields_agree. split; [done|]. rewrite Test_bitw, Z.div_small, Z.mod_small by lia. exact E2.
      * intros (j & Hj & E1 & E2). assert (j < 32) as Lj.
        { destruct (Z.lt_ge_cases j 32) as [|Ge]; [done|]. exfalso. unfold wide_fields in Ew. destruct (32 <? iFields) eqn:E3; cbn [andb] in Ew.
          - apply not_true_iff_false in Ew. apply Ew, existsb_exists. exists (Z.to_nat (j / 32)). split; [apply in_seq; unfold SIZE; Z.to_euclidean_division_equations; lia|]. apply negb_true_iff, Z.eqb_neq. intros E0. rewrite Test_bitw in E2 by lia. unfold bitw in E2. by rewrite E0, Z.bits_0 in E2.
          - apply Z.ltb_ge in E3. unfold has_field in E1. apply existsb_exists in E1 as (p & Hin%list_elem_of_In & Ep%Z.eqb_eq). rewrite Forall_forall in Hf. specialize (Hf p Hin). lia. }
        exists j. split; [lia|]. rewrite fields_bit, fields_agree, E1, (proj2 (Z.ltb_lt _ _) Lj) by (done || lia). split; [done|]. rewrite Test_bitw, Z.div_small, Z.mod_small in E2 by lia. exact E2.
  - rewrite existsb_exists. split.
    + intros (j & _ & E1 & E2). unfold has_field in E1. apply existsb_exists in E1 as (p & Hin & Ep%Z.eqb_eq). exists p. split; [done|]. by rewrite Ep.
    + intros (p & Hin & E). rewrite Forall_forall in Hp. exists (GetField p). split; [apply field_range, Hp; by apply list_elem_of_In|]. split; [|done]. unfold has_field. apply existsb_exists. exists p. split; [done|]. by rewrite Z.eqb_refl.
Qed.

Lemma bits_agree : Z.land (if wide_fields (32 <? iFields) m then GetMask32 (doc_mask g) else g_fields g) (GetMask32 m) = field_bits m ps.
Proof.
  apply Z.bits_inj'. intros j Hj. rewrite field_bits_spec, Z.land_spec by done. assert (Z.testbit (if wide_fields (32 <? iFields) m then GetMask32 (doc_mask g) else g_fields g) j = (j <? 32) && has_field j ps) as ->.
  - rewrite <- fields_agree. destruct (wide_fields (32 <? iFields) m); [|rewrite Eg; by apply fields_bit]. destruct (doc_mask_test g 0 Eg Hg ltac:(lia)) as [W _]. pose proof (word_in (doc_mask g) 0 W) as Hw. unfold in_type in Hw. cbn in Hw. destruct (Z.ltb_spec j 32) as [L|L]; [|by apply high_bit].
    cbn [andb]. destruct (doc_mask_test g j Eg Hg ltac:(lia)) as [_ <-]. rewrite Test_bitw, Z.div_small, Z.mod_small by lia. done.
  - destruct (Z.ltb_spec j 32); [|done]. cbn [andb]. f_equal. rewrite Test_bitw, Z.div_small, Z.mod_small by lia. done.
Qed.

Lemma word_doc_value : word_doc (32 <? iFields) m fIDF g = word_value m fIDF (g_row g) ps.
Proof. unfold word_doc, word_value. by rewrite accepts_agree, bits_agree, places_agree. Qed.
End Word.

Section Query.
Context (n : nat) (Hn : (2 <= n)%nat) (f : DictFormat_e) (cp iMinPrefix iMinInfix iFields : Z).
Abbreviation mode := SPH_HITLESS_NONE.
Abbreviation lookup_word := (RtQword.lookup_word f iMinPrefix iMinInfix).
Abbreviation row_value := (RtSearch.row_value f iMinPrefix iMinInfix (32 <? iFields)).

(** What a query makes of a document at a row; nothing if it does not match. *)
Fixpoint doc_value (d : document) (row : Z) (w : wquery) : option ExtDoc_t :=
  match w with
  | WTerm u s m fIDF => sWord ← lookup_word s; word_value m fIDF row (word_hits (search_key f u sWord) d)
  | WOp eOp l r => op_doc eOp (doc_value d row l) (doc_value d row r)
  end.

(** ** The rows of a segment *)

Lemma alive_at s v g : seg_ok n f cp s v -> 0 <= g_row g < rs_uRows s -> default false (DeadMap.IsSet (g_row g) (rs_tDeadRowMap s)) = bool_decide (g_row g ∈ sv_dead v).
Proof.
  intros H Hg. destruct (so_dead _ _ _ _ _ H) as (S1 & S2 & _). pose proof (so_size _ _ _ _ _ H) as Es. rewrite DeadMap.IsSet_ok by (done || lia). cbn [default from_option]. by rewrite S2 by lia.
Qed.

Definition at_row (x : Z) (ds : list gdoc) : list gdoc := List.filter (λ g, g_row g =? x) ds.

Lemma alive_rows s v k x : seg_ok n f cp s v ->
  at_row x (rows_alive (rs_tDeadRowMap s) (docs_for k (sv_words v))) = if bool_decide (x ∈ sv_dead v) then [] else at_row x (docs_for k (sv_words v)).
Proof.
  intros H. pose proof (docs_for_in v (sv_words v) k (words_in n f cp s v H)) as Hd. unfold at_row, rows_alive. pose proof (so_count _ _ _ _ _ H) as Ec. induction Hd as [|g ds Hg _ IH]; [by destruct (bool_decide _)|]. cbn [List.filter]. rewrite (alive_at s v g H) by lia. destruct (Z.eqb_spec (g_row g) x) as [<-|N].
  - case_bool_decide; cbn [negb List.filter] in *; [done|]. by rewrite Z.eqb_refl, IH.
  - destruct (negb _); [|done]. cbn [List.filter]. by rewrite (proj2 (Z.eqb_neq _ _)) by done.
Qed.

Lemma find_at x ds : List.find (λ g, g_row g =? x) ds = head (at_row x ds).
Proof. unfold at_row. induction ds as [|g ds IH]; [done|]. cbn [List.find List.filter]. by destruct (g_row g =? x). Qed.

Lemma hits_end_at ds x : (∀ g, g ∈ at_row x ds -> g_hits g ≠ [0xffffffff]) -> hits_end ds x.
Proof. intros H g Hg E. apply H. unfold at_row. apply list_elem_of_In, filter_In. split; [by apply list_elem_of_In|]. by apply Z.eqb_eq. Qed.

Lemma at_row_dwords s v k x g : seg_ok n f cp s v -> g ∈ at_row x (docs_for k (sv_words v)) -> Forall dword (g_hits g).
Proof.
  intros H Hg. destruct (so_words _ _ _ _ _ H) as [R _ Dk]. destruct (docs_for_ok n Hn (sv_words v) k (re_sorted _ _ _ _ _ R) Dk) as (_ & _ & Hh & _). unfold at_row in Hg. apply list_elem_of_In, filter_In in Hg as [Hg%list_elem_of_In _]. unfold RtDelete.hits_ok in Hh. rewrite Forall_forall in Hh. specialize (Hh g Hg). eapply Forall_impl; [exact Hh|]. intros h [? _]. done.
Qed.

Lemma in_word_hits k d p : p ∈ word_hits k d <-> (k, p) ∈ d.2.
Proof.
  unfold word_hits. rewrite list_elem_of_fmap. split.
  - intros ([k' q] & -> & Hx). apply list_elem_of_In, filter_In in Hx as [Hx%list_elem_of_In Ek%bool_decide_eq_true]. cbn [fst snd] in *. by subst k'.
  - intros H. exists (k, p). split; [done|]. apply list_elem_of_In, filter_In. split; [by apply list_elem_of_In|]. by apply bool_decide_eq_true.
Qed.

Lemma word_hits_all k d (Q : Z -> Prop) : Forall (λ x, Q x.2) d.2 -> Forall Q (word_hits k d).
Proof. intros H. apply Forall_forall. intros p Hp%in_word_hits. exact (proj1 (Forall_forall _ _) H _ Hp). Qed.

(** The postings of a row are those of its document. *)
Lemma word_row s v k i row d m fIDF : seg_ok n f cp s v -> row_is v i row d -> doc_dwords d -> doc_fits iFields d ->
  (∀ g, g ∈ at_row (Z.of_nat i) (docs_for k (sv_words v)) -> g_hits g ≠ [0xffffffff]) /\
  (g ← head (at_row (Z.of_nat i) (docs_for k (sv_words v))); word_doc (32 <? iFields) m fIDF g) = word_value m fIDF (Z.of_nat i) (word_hits k d).
Proof.
  intros H [_ Hs] Hd Hfit. specialize (Hs k). unfold row_posts in Hs. fold (at_row (Z.of_nat i) (docs_for k (sv_words v))) in Hs. pose proof (at_row_dwords s v k (Z.of_nat i)) as Dw. assert (∀ g, g ∈ at_row (Z.of_nat i) (docs_for k (sv_words v)) -> g_row g = Z.of_nat i) as Er by (intros g Hg; unfold at_row in Hg; by apply list_elem_of_In, filter_In in Hg as [_ Hg%Z.eqb_eq]).
  destruct Hs as [[E Hno]|(l & E & Nl & Sl & Hl)].
  - apply map_eq_nil in E. rewrite E. split; [by intros g ?%not_elem_of_nil|]. cbn [head mbind option_bind]. assert (word_hits k d = []) as ->; [|done]. destruct (word_hits k d) as [|p ps] eqn:Ep; [done|]. exfalso. apply (Hno p), in_word_hits. rewrite Ep. by left.
  - destruct (at_row (Z.of_nat i) (docs_for k (sv_words v))) as [|g [|]] eqn:Ea; try discriminate E. cbn [map] in E. injection E as Ef Eh. assert (Forall dword (g_hits g)) as Dg by (apply (Dw g H); by left). pose proof (word_hits_all k d dword Hd) as Dp. split.
    + intros g' ->%list_elem_of_singleton Ex. rewrite <- Eh, Ex in Hl. destruct (proj1 (Hl (GetPosWithField 0xffffffff))) as (p & Hin & Ep); [cbn; by left|]. unfold doc_fits in Hfit. rewrite Forall_forall in Hfit. by destruct (Hfit _ Hin) as [_ ?].
    + cbn [head mbind option_bind]. rewrite (word_doc_value iFields m fIDF g (word_hits k d)); [by rewrite (Er g) by (by left)|by rewrite Ef, Eh|done|by rewrite Eh|done|apply (word_hits_all k d (λ p, GetField p < iFields)); eapply Forall_impl; [exact Hfit|]; by intros x [? _]|].
      intros x. rewrite Eh, Hl, list_elem_of_fmap. split; [intros (p & Hp & <-); exists p; split; [done|by apply in_word_hits]|intros (p & -> & Hp%in_word_hits); by exists p].
Qed.

(** A live row matches as its document does, no other row matches. *)
Lemma row_document s v w i row d : seg_ok n f cp s v -> (i, row) ∈ lives v -> row_is v i row d -> doc_dwords d -> doc_fits iFields d ->
  (∀ k, hits_end (rows_alive (rs_tDeadRowMap s) (docs_for k (sv_words v))) (Z.of_nat i)) /\ row_value (sv_words v) (rs_tDeadRowMap s) w (Z.of_nat i) = doc_value d (Z.of_nat i) w.
Proof.
  intros H [_ Hi]%in_lives Hr Hd Hfit. split.
  - intros k. apply hits_end_at. rewrite (alive_rows s v) by done. rewrite bool_decide_eq_false_2 by done. apply (word_row s v k i row d SetAll half H Hr Hd Hfit).
  - induction w as [u q m fIDF|eOp l IHl r IHr]; cbn [RtSearch.row_value doc_value]; [|by rewrite IHl, IHr]. destruct (RtQword.lookup_word _ _ _ q) as [sWord|]; [|done]. cbn [mbind option_bind]. rewrite find_at, (alive_rows s v) by done. rewrite bool_decide_eq_false_2 by done. apply (word_row s v _ i row d m fIDF H Hr Hd Hfit).
Qed.

Lemma row_none s v w x : seg_ok n f cp s v -> (∀ i row, x = Z.of_nat i -> (i, row) ∉ lives v) -> (∀ k, hits_end (rows_alive (rs_tDeadRowMap s) (docs_for k (sv_words v))) x) /\ row_value (sv_words v) (rs_tDeadRowMap s) w x = None.
Proof.
  intros H Hx. assert (∀ k, at_row x (rows_alive (rs_tDeadRowMap s) (docs_for k (sv_words v))) = []) as K.
  { intros k. rewrite (alive_rows s v) by done. destruct (decide (x ∈ sv_dead v)) as [Hd|Hd]; [by rewrite bool_decide_eq_true_2|]. rewrite bool_decide_eq_false_2 by done. unfold at_row. pose proof (docs_for_in v (sv_words v) k (words_in n f cp s v H)) as Hr. induction Hr as [|g ds Hg _ IH]; [done|]. cbn [List.filter]. destruct (Z.eqb_spec (g_row g) x) as [<-|]; [|done]. exfalso. destruct (lookup_lt_is_Some_2 (sv_rows v) (Z.to_nat (g_row g)) ltac:(lia)) as [row Er]. apply (Hx (Z.to_nat (g_row g)) row); [lia|]. apply in_lives. split; [done|]. by rewrite Z2Nat.id by lia. }
  split; [intros k; apply hits_end_at; rewrite K; by intros g ?%not_elem_of_nil|]. induction w as [u q m fIDF|eOp l IHl r IHr]; cbn [RtSearch.row_value]; [|rewrite IHl, IHr; by destruct eOp]. destruct (RtQword.lookup_word _ _ _ q) as [sWord|]; [|done]. cbn [mbind option_bind]. by rewrite find_at, K.
Qed.

(** A row is that of a live document, or of none. *)
Lemma live_case v x : (∃ i row, x = Z.of_nat i /\ (i, row) ∈ lives v) \/ ∀ i row, x = Z.of_nat i -> (i, row) ∉ lives v.
Proof.
  destruct (decide (0 <= x)) as [H0|H0]; [|right; intros i row ->; lia]. destruct (sv_rows v !! Z.to_nat x) as [row|] eqn:E; [destruct (decide (x ∈ sv_dead v)) as [Hd|Hd]|].
  - right. intros i r -> [_ ?]%in_lives. done.
  - left. exists (Z.to_nat x), row. rewrite in_lives, Z2Nat.id by done. done.
  - right. intros i r -> [Er _]%in_lives. by rewrite Nat2Z.id, Er in E.
Qed.

(** ** Over all segments *)

Lemma reach_dwords s M H N : reach n f cp s M H N -> ∀ id d, M !! id = Some d -> doc_dwords d.
Proof.
  induction 1 as [|s M H N dPacked dHitless key l a k s' _ IH Hg _ _|s M H N dPacked dHitless a b k s' _ IH _|s M H N used hard soft new s' _ IH _]; [by intros id d ?%lookup_empty_Some| |done|done]. intros id d. unfold apply_txn. intros [E|[_ [E _]%map_lookup_filter_Some]]%lookup_union_Some_raw; [|by apply (IH id)]. apply stored_lookup in E as (x & Hx%winners_in & _ & ->). destruct Hg as [_ [Hg _] _]. rewrite Forall_forall in Hg. specialize (Hg x Hx). unfold doc_dwords. cbn [snd]. unfold keyed. rewrite Forall_map. eapply Forall_impl; [exact Hg|]. intros y [_ _ _ _ Hy _]. exact Hy.
Qed.

(** The row [i] of the segment [k] is alive, and is the one of the document [id]. *)
Record live_row (s : RtIndex_c) (k : nat) (p : RamSegment) (i : nat) (id : Z) : Prop := {
  lr_seg : ri_dRamSegs s !! k = Some p;
  lr_row : Z.of_nat i < rs_uRows p;
  lr_alive : DeadMap.IsSet (Z.of_nat i) (rs_tDeadRowMap p) = Some false;
  lr_id : row_id (row_at n (rs_dRows p) i) = id
}.

Section Chunk.
Context (s : RtIndex_c) (M : gmap Z document) (vs : list segview) (H N : nat) (C : chunk n f cp s M vs H N).

Lemma live_row_iff k p i id : live_row s k p i id <-> ri_dRamSegs s !! k = Some p /\ ∃ v row, vs !! k = Some v /\ seg_ok n f cp p v /\ (i, row) ∈ lives v /\ row_id row = id.
Proof.
  assert (∀ v, seg_ok n f cp p v -> Z.of_nat i < rs_uRows p -> DeadMap.IsSet (Z.of_nat i) (rs_tDeadRowMap p) = Some (bool_decide (Z.of_nat i ∈ sv_dead v))) as K.
  { intros v Sv Hi. destruct (so_dead _ _ _ _ _ Sv) as (S1 & S2 & _). pose proof (so_size _ _ _ _ _ Sv) as Es. rewrite DeadMap.IsSet_ok by (done || lia). by rewrite S2 by lia. }
  split.
  - intros [Ep Hi Ha Eid]. split; [done|]. destruct (Forall2_lookup_l _ _ _ _ _ (ck_segs _ _ _ _ _ _ _ _ C) Ep) as (v & Ev & Sv). pose proof (so_count _ _ _ _ _ Sv) as Ec. destruct (lookup_lt_is_Some_2 (sv_rows v) i ltac:(lia)) as [row Er]. exists v, row. split; [done|]. split; [done|]. rewrite (K v Sv Hi) in Ha. injection Ha as Ha%bool_decide_eq_false. split; [by apply in_lives|]. by rewrite (so_rows _ _ _ _ _ Sv), (row_at_concat n i _ row (so_stride _ _ _ _ _ Sv) Er) in Eid.
  - intros (Ep & v & row & Ev & Sv & [Er Hd]%in_lives & Eid). pose proof (so_count _ _ _ _ _ Sv) as Ec. assert (Z.of_nat i < rs_uRows p) as Hi by (apply lookup_lt_Some in Er; lia). split; [done|done|by rewrite (K v Sv Hi), bool_decide_eq_false_2|]. by rewrite (so_rows _ _ _ _ _ Sv), (row_at_concat n i _ row (so_stride _ _ _ _ _ Sv) Er).
Qed.

(** Every document has a row, and only one. *)
Lemma document_row id : is_Some (M !! id) <-> ∃ k p i, live_row s k p i id.
Proof.
  rewrite <- (ck_dom _ _ _ _ _ _ _ _ C id), in_all_ids. split.
  - intros (k & v & Ev & Hv). unfold live_ids in Hv. apply list_elem_of_fmap in Hv as ([i row] & Eid & Hi). destruct (Forall2_lookup_r _ _ _ _ _ (ck_segs _ _ _ _ _ _ _ _ C) Ev) as (p & Ep & Sv). exists k, p, i. apply live_row_iff. split; [done|]. by exists v, row.
  - intros (k & p & i & (_ & v & row & Ev & _ & Hi & <-)%live_row_iff). exists k, v. split; [done|]. apply list_elem_of_fmap. by exists (i, row).
Qed.

Lemma row_once id k p i k' p' i' : live_row s k p i id -> live_row s k' p' i' id -> k = k' /\ i = i'.
Proof.
  intros (Ep & v & row & Ev & Sv & Hl & Eid)%live_row_iff (Ep' & v' & row' & Ev' & Sv' & Hl' & Eid')%live_row_iff. assert (k = k') as <- by (apply (one_segment vs k k' v v' id (ck_ids _ _ _ _ _ _ _ _ C) Ev Ev'); apply list_elem_of_fmap; [by exists (i, row)|by exists (i', row')]). rewrite Ev in Ev'. injection Ev' as <-. split; [done|]. apply in_lives in Hl as [Hl _], Hl' as [Hl' _]. apply (NoDup_lookup (map row_id (sv_rows v)) i i' id (so_ids _ _ _ _ _ Sv)); rewrite list_lookup_fmap; [by rewrite Hl, <- Eid|by rewrite Hl', <- Eid'].
Qed.

Context (Hd : ∀ id d, M !! id = Some d -> doc_dwords d) (Hfit : ∀ id d, M !! id = Some d -> doc_fits iFields d).
Context (rq : rt_query) (Hw : rt_bHasWideFields rq = (32 <? iFields)) (w : wquery) (Hq : query_wf f iMinPrefix iMinInfix w).

Definition found_at (pv : RamSegment * segview) (x : Z) : option ExtDoc_t := row_value (sv_words pv.2) (rs_tDeadRowMap pv.1) w x.

(** Every segment can be searched. *)
Lemma segments_found : Forall2 (seg_found f cp mode iMinPrefix iMinInfix rq w) (ri_dRamSegs s) (map found_at (zip (ri_dRamSegs s) vs)).
Proof.
  apply Forall2_same_length_lookup. pose proof (Forall2_length _ _ _ (ck_segs _ _ _ _ _ _ _ _ C)) as El. split; [rewrite length_map, length_zip_with; lia|]. intros k p fd Ep Ef. rewrite list_lookup_fmap in Ef. apply fmap_Some in Ef as ([p' v] & Ez & ->). apply lookup_zip_with_Some in Ez as (p1 & v1 & [= -> ->] & Ep' & Ev). rewrite Ep in Ep'. injection Ep' as <-. pose proof (Forall2_lookup_lr _ _ _ _ _ _ (ck_segs _ _ _ _ _ _ _ _ C) Ep Ev) as Sv.
  destruct (segment_tree_ok f cp mode iMinPrefix iMinInfix (32 <? iFields) (rs_tWords p) (sv_words v1) (rs_tDeadRowMap p) w (so_words _ _ _ _ _ Sv) Hq) as (t & Et & Ot & Em). exists t. rewrite Hw. split; [done|]. split; [done|]. intros x. apply Em. destruct (live_case v1 x) as [(i & row & -> & Hl)|Hno]; [|by apply (row_none p v1 w x Sv)].
  destruct (ck_docs _ _ _ _ _ _ _ _ C v1 i row) as (d & Hd' & Hr); [by eapply list_elem_of_lookup_2|done|]. apply (row_document p v1 w i row d Sv Hl Hr (Hd _ _ Hd') (Hfit _ _ Hd')).
Qed.

(** What a segment finds at a row is what the document of the row is worth. *)
Lemma found_value k p v x e : ri_dRamSegs s !! k = Some p -> vs !! k = Some v -> found_at (p, v) x = Some e <-> ∃ i id d, x = Z.of_nat i /\ live_row s k p i id /\ M !! id = Some d /\ doc_value d x w = Some e.
Proof.
  intros Ep Ev. pose proof (Forall2_lookup_lr _ _ _ _ _ _ (ck_segs _ _ _ _ _ _ _ _ C) Ep Ev) as Sv. unfold found_at. cbn [fst snd]. split.
  - intros E. destruct (live_case v x) as [(i & row & -> & Hl)|Hno]; [|destruct (row_none p v w x Sv Hno) as [_ K]; by rewrite K in E].
    destruct (ck_docs _ _ _ _ _ _ _ _ C v i row) as (d & Hd' & Hr); [by eapply list_elem_of_lookup_2|done|]. destruct (row_document p v w i row d Sv Hl Hr (Hd _ _ Hd') (Hfit _ _ Hd')) as [_ K]. exists i, (row_id row), d. split; [done|]. split; [apply live_row_iff; split; [done|]; by exists v, row|]. split; [done|]. by rewrite <- K.
  - intros (i & id & d & -> & (_ & v' & row & Ev' & _ & Hl & Eid)%live_row_iff & Ed & E). rewrite Ev in Ev'. injection Ev' as <-. destruct (ck_docs _ _ _ _ _ _ _ _ C v i row) as (d' & Ed' & Hr); [by eapply list_elem_of_lookup_2|done|]. rewrite Eid, Ed in Ed'. injection Ed' as <-. destruct (row_document p v w i row d Sv Hl Hr (Hd _ _ Ed) (Hfit _ _ Ed)) as [_ ->]. done.
Qed.
End Chunk.
End Query.

End RtRamSearch.
