(* ===== verification/RtExample.v ===== *)
(** * Transactions of an example, and what transactions get wrong

    A RAM chunk of two transactions, on which the theorems about the chunk are applied,
    and transactions whose outcome is not what their statements say. *)

From stdpp Require Import sorting gmap.
From S2P Require Import Prelude Hits Sort SortOk SearchNode SearchNodeOk ExtTerm Query Ranker Search DeadMap OpenHash OpenHashOk RtSegment RtSegmentOk RtDelete RtQword RtQwordOk RtSearch RtAccum RtAccumOk RtRam RtRamOk RtChunk RtFullText RtReach.
Import Hitman FieldMask SearchNode SearchNodeOk ExtTerm Query Ranker Search RtSegment RtSegmentOk RtCreateOk RtMergeOk RtDelete RtQword RtQwordOk RtSearch RtAccum RtAccumOk RtGroupOk RtRam RtRamOk RtRamMergeOk RtChunk RtStepOk RtFullText RtReach RtRamSearch.

Module RtExample.

(** ** Two transactions *)

Definition add_two : list stmt := [AddStmt false [1; 0; 100] [(10, 1); (11, 2)]; AddStmt false [2; 0; 200] [(10, 1)]].
Definition replace_one : list stmt := [AddStmt true [1; 0; 101] [(11, 1)]; DeleteStmt [2]].

(** The state after a transaction. *)
Definition committed (l : list stmt) (s : RtIndex_c) : option (bool * Z * RtIndex_c) := a ← run_stmts new_accum l; Commit CRC 2 SPH_HITLESS_NONE 3 true [] [] a s.
Definition after (l : list stmt) (s : RtIndex_c) : RtIndex_c := from_option snd s (committed l s).

Definition chunk1 : RtIndex_c := after add_two new_index.
Definition chunk2 : RtIndex_c := after replace_one chunk1.

Definition documents1 : gmap Z document := apply_txn WordID add_two ∅.
Definition documents2 : gmap Z document := apply_txn WordID replace_one documents1.

(** Word ids and positions that are in range, as a test. *)
Definition good_word (x : Z * Z) : bool := (0 <? x.1) && (x.1 <? WORDID_MAX) && (0 <? x.2) && (x.2 <? 2 ^ 23).

Lemma good_word_ok x : good_word x = true -> good_hit CRC [] WordID x.
Proof.
  unfold good_word. rewrite !andb_true_iff, !Z.ltb_lt. intros [[[H1 H2] H3] H4]. unfold WORDID_MAX in H2. split; [done|unfold key_wf, in_type; cbn; lia|done|unfold WORDID_MAX; lia|apply dword_range; lia|]. assert (GetPosWithField x.2 = x.2) as ->; [|lia]. unfold GetPosWithField. apply Z.bits_inj'. intros i Hi. rewrite Z.land_spec. destruct (Z.lt_ge_cases i 23) as [Hl|Hl]; [|by rewrite (testbit_high x.2 23 i) by lia]. rewrite land_pos_mask_bits by lia. rewrite (proj2 (Z.eqb_neq i 23)) by lia. by rewrite andb_true_r.
Qed.

Lemma good_example l : forallb (λ t, match t with AddStmt _ pRow dHits => (length pRow =? 3)%nat && forallb good_word (acc_hits None dHits) | DeleteStmt _ => true end) l = true -> Z.of_nat (length (txn_kills l)) < 2 ^ 36 -> good_txn 3 CRC [] WordID l.
Proof.
  intros H Hk. rewrite forallb_forall in H. split; [| |done].
  - apply Forall_forall. intros t Ht. specialize (H t (proj1 (list_elem_of_In _ _) Ht)). destruct t; [|done]. apply andb_true_iff in H as [H _]. by apply Nat.eqb_eq.
  - split; [|intros x y _ _ E; by injection E]. apply Forall_forall. intros d Hd. unfold txn_docs in Hd. apply list_elem_of_omap in Hd as (t & Ht & Ed). specialize (H t (proj1 (list_elem_of_In _ _) Ht)). destruct t as [b pRow dHits|]; [|done]. injection Ed as <-. apply andb_true_iff in H as [_ H]. cbn [snd]. rewrite forallb_forall in H. apply Forall_forall. intros x Hx. apply good_word_ok, H. by apply list_elem_of_In.
Qed.

Lemma good_add_two : good_txn 3 CRC [] WordID add_two.
Proof. by apply good_example. Qed.

Lemma good_replace_one : good_txn 3 CRC [] WordID replace_one.
Proof. by apply good_example. Qed.

(** A commit that computes is a step of the chunk. *)
Lemma reach_after l s M H N k : reach 3 CRC 2 s M H N -> good_txn 3 CRC [] WordID l -> committed l s = Some (true, k, after l s) -> reach 3 CRC 2 (after l s) (apply_txn WordID l M) (H + txn_hits l) (N + length (txn_docs l)).
Proof.
  unfold committed. intros Hr Hg. destruct (run_stmts new_accum l) as [a|] eqn:Ea; [|done]. cbn [mbind option_bind]. intros Ec. exact (reach_commit 3 CRC 2 s M H N [] [] WordID l a k _ Hr Hg Ea Ec).
Qed.

Lemma reach1 : reach 3 CRC 2 chunk1 documents1 3 2.
Proof. apply (reach_after add_two new_index ∅ 0 0 0); [constructor|apply good_add_two|vm_compute; reflexivity]. Qed.

Lemma reach2 : reach 3 CRC 2 chunk2 documents2 4 3.
Proof. apply (reach_after replace_one chunk1 documents1 3 2 2); [apply reach1|apply good_replace_one|vm_compute; reflexivity]. Qed.

Lemma ram_chunk_refines_witness : ri_iTotalDocuments chunk2 = 1 /\ (∃ k p, ri_dRamSegs chunk2 !! k = Some p /\ holds 3 CRC 2 p 1 ([1; 0; 101], [(WordID 11, 1)])) /\ ∀ p, p ∈ ri_dRamSegs chunk2 -> GetAliveRowidByDocid p 2 = Some INVALID_ROWID.
Proof.
  destruct (ram_chunk_refines 3 ltac:(lia) CRC 2 chunk2 documents2 4 3 reach2) as (A & B & C); [lia|lia|]. split; [rewrite A; vm_compute; reflexivity|]. split; [|apply C; vm_compute; reflexivity]. destruct (B 1 ([1; 0; 101], [(WordID 11, 1)])) as (k & p & Ep & Hp & _); [vm_compute; reflexivity|]. exists k, p. split; [exact Ep|exact Hp].
Defined.

Lemma segments_wellformed_witness : ∃ p, ri_dRamSegs chunk1 = [p] /\ rs_tAliveRows p = Z.of_nat (length (List.filter (λ i, bool_decide (DeadMap.IsSet (Z.of_nat i) (rs_tDeadRowMap p) = Some false)) (seq 0 (Z.to_nat (rs_uRows p))))).
Proof.
  assert (∃ p, ri_dRamSegs chunk1 = [p]) as [p E] by (eexists; vm_compute; reflexivity). exists p. split; [exact E|]. destruct (segments_wellformed 3 ltac:(lia) CRC 2 chunk1 documents1 3 2 p reach1) as (_ & _ & _ & _ & A & _); [lia|lia|rewrite E; apply list_elem_of_singleton; reflexivity|exact A].
Defined.

Lemma commit_total_witness : ∃ a s', run_stmts new_accum replace_one = Some a /\ Commit CRC 2 SPH_HITLESS_NONE 3 true [] [] a chunk1 = Some (true, 2, s') /\ reach 3 CRC 2 s' documents2 4 3.
Proof.
  destruct (commit_total 3 ltac:(lia) CRC 2 chunk1 documents1 3 2 [] [] WordID replace_one reach1 good_replace_one) as (a & s' & A & B & C); [vm_compute; reflexivity|vm_compute; reflexivity|]. exists a, s'. split; [exact A|]. assert (Z.of_nat (base.size documents1) - Z.of_nat (base.size (filter (λ x : Z * document, x.1 ∉ txn_kills replace_one) documents1)) = 2) as E by (vm_compute; reflexivity). rewrite E in B. split; [exact B|exact C].
Defined.
(** The worker has nothing to do, and one transaction less than 24 segments. *)
Lemma merge_worker_ends_witness : (∃ r s', RunMergeSegmentsWorker CRC 2 SPH_HITLESS_NONE 3 3 (λ _, 100) 1000000 500000 true chunk2 = Some (r, s') /\ reach 3 CRC 2 s' documents2 4 3 /\ match r with DONE _ => False | _ => True end) \/ (∃ s' p, reach 3 CRC 2 s' documents2 4 3 /\ p ∈ ri_dRamSegs s' /\ ¬ small p).
Proof. apply (merge_worker_ends 3 ltac:(lia) CRC 2 chunk2 documents2 4 3 (λ _, 100) 1000000 500000 true 3 reach2); [lia|lia|vm_compute; lia]. Defined.

Lemma replicated_commit_witness : ∃ a a', run_stmts new_accum replace_one = Some a /\ PreCommit CRC 3 [] a = Some a' /\ Commit CRC 2 SPH_HITLESS_NONE 3 true [] [] a' chunk1 = Commit CRC 2 SPH_HITLESS_NONE 3 true [] [] a chunk1.
Proof.
  destruct (run_stmts new_accum replace_one) as [a|] eqn:Ea; [|discriminate Ea]. destruct (replicated_commit 3 ltac:(lia) CRC 2 [] [] WordID replace_one a chunk1 true good_replace_one Ea) as (a' & A & B); [vm_compute; reflexivity|vm_compute; reflexivity|]. exists a, a'. split; [reflexivity|]. split; [exact A|exact B].
Defined.

(** The word 11 in any field of a table of 40 fields, no filters, weights of 2 times the
    index. *)
#[local] Instance demo_tags : TagSorter (list (Z * CSphMatch)) := {| PushTagged m l := (true, l ++ [m]) |}.

Definition demo_rt : rt_query := RtQuery true true 1 (λ _, 1) (λ _ _, false) None 2 true.
Definition demo_word : wquery := WTerm 11 [97] SetAll half.


(** The row of the document 1 in the second segment. *)
Example ram_search_demo : (map (λ x, (x.1, mt_tRowID x.2)) ∘ fst) <$> PerformFullTextSearch CRC 2 SPH_HITLESS_NONE 0 0 demo_rt demo_word (ri_dRamSegs chunk2) [] 10 (mkWorld None None) = Some [(2, 0)].
Proof. vm_compute. reflexivity. Qed.

(** ** Merging *)

Definition one_document (i : nat) : list stmt := [AddStmt false [Z.of_nat i; 0; 5] [(7, 1); (8, 2)]].

Fixpoint add_many (k : nat) (s : RtIndex_c) : RtIndex_c := match k with O => s | S k' => after (one_document k) (add_many k' s) end.

(** The live rows of the segments before and after a step. *)
Definition step_rows (s : RtIndex_c) : option (list Z * list Z) :=
  match MergeSegmentsStep CRC 2 SPH_HITLESS_NONE 3 (λ _, 100) 1000000 500000 true s with Some (DONE s') => Some (map rs_tAliveRows (ri_dRamSegs s), map rs_tAliveRows (ri_dRamSegs s')) | _ => None end.

(** Of 24 segments of one document each two are merged. *)
Example merge_demo : step_rows (add_many 24 new_index) = Some (repeat 1 24, repeat 1 22 ++ [2]).
Proof. vm_compute. reflexivity. Qed.

(** Segments without live rows go. *)
Example dead_demo : step_rows (after replace_one (add_many 24 new_index)) = Some (0 :: 0 :: repeat 1 23, repeat 1 23).
Proof. vm_compute. reflexivity. Qed.
End RtExample.

(** * Where transactions and the merging of segments go wrong

    Statements of a transaction that its commit does not follow, the end marker of a
    repeated hit, and the limit of the merged vectors that is never tested. *)

From stdpp Require Import sorting gmap.
From S2P Require Import Prelude Hits Sort SortOk SearchNode Ranker DeadMap OpenHash RtSegment RtSegmentOk RtSearch RtAccum RtAccumOk RtRam RtRamOk RtChunk RtReach.
Import Hitman SearchNode Ranker RtSegment RtSegmentOk RtCreateOk RtMergeOk RtSearch RtAccum RtAccumOk RtGroupOk RtRam RtRamOk RtRamMergeOk RtChunk RtStepOk RtReach RtExample.

Module RtTxnBugs.

Section Statements.
Context (n : nat) (Hn : (2 <= n)%nat) (f : DictFormat_e) (cp : Z).
Abbreviation mode := SPH_HITLESS_NONE.

Lemma commit_holds s M H N dPacked dHitless key l x : reach n f cp s M H N -> good_txn n f dPacked key l -> Z.of_nat (H + txn_hits l) < 2 ^ 27 -> Z.of_nat (N + length (txn_docs l)) < 2 ^ 31 -> x ∈ winners (txn_mode l) (txn_docs l) ->
  ∃ a k s' p, run_stmts new_accum l = Some a /\ Commit f cp mode n true dPacked dHitless a s = Some (true, k, s') /\ p ∈ ri_dRamSegs s' /\ holds n f cp p (doc_id x) (x.1, keyed key x.2).
Proof.
  intros Hr Hg HH HN Hx. destruct (reach_chunk n Hn f cp s M H N Hr) as [vs C]; [lia|lia|]. destruct (Commit_ok n Hn f cp s M vs H N dPacked dHitless key l C Hg HH HN) as (a & s' & vs' & Ea & Ec & C'). destruct (chunk_holds n Hn f cp s' _ vs' _ _ (doc_id x) (x.1, keyed key x.2) C') as (k & p & v & Ep & _ & _ & Hp); [unfold apply_txn; apply lookup_union_Some_raw; left; apply stored_lookup; by exists x|]. eexists a, _, s', p. split; [exact Ea|]. split; [exact Ec|]. split; [by eapply list_elem_of_lookup_2|exact Hp].
Qed.

Lemma docs_app l l' : txn_docs (l ++ l') = txn_docs l ++ txn_docs l'.
Proof. unfold txn_docs. apply omap_app'. Qed.

(** [C38] A document that a transaction adds and deletes again is there after the commit:
    the kill-list is applied to the older segments only, before the segment of the
    transaction is added. *)
Theorem delete_in_transaction_lost s M H N dPacked dHitless key l ids x : reach n f cp s M H N -> good_txn n f dPacked key (l ++ [DeleteStmt ids]) -> Z.of_nat (H + txn_hits l) < 2 ^ 27 -> Z.of_nat (N + length (txn_docs l)) < 2 ^ 31 -> x ∈ winners (txn_mode l) (txn_docs l) -> doc_id x ∈ ids ->
  ∃ a k s' p, run_stmts new_accum (l ++ [DeleteStmt ids]) = Some a /\ Commit f cp mode n true dPacked dHitless a s = Some (true, k, s') /\ p ∈ ri_dRamSegs s' /\ holds n f cp p (doc_id x) (x.1, keyed key x.2).
Proof.
  intros Hr Hg HH HN Hx _. assert (txn_docs (l ++ [DeleteStmt ids]) = txn_docs l) as Ed by (rewrite docs_app; apply app_nil_r). apply (commit_holds s M H N dPacked dHitless key (l ++ [DeleteStmt ids]) x Hr Hg); unfold txn_hits in *; rewrite ?Ed; try done. unfold txn_mode. rewrite fold_left_app. exact Hx.
Qed.

(** [C39] Two REPLACE statements for one document and an INSERT of another one in a
    transaction: the older version of the document stays, since the last statement
    decides for all of them which version of a document is kept. *)
Theorem mixed_statements_lose_replace s M H N dPacked dHitless key r1 r2 r3 h1 h2 h3 : let l := [AddStmt true r1 h1; AddStmt true r2 h2; AddStmt false r3 h3] in
  reach n f cp s M H N -> good_txn n f dPacked key l -> Z.of_nat (H + txn_hits l) < 2 ^ 27 -> Z.of_nat (N + length (txn_docs l)) < 2 ^ 31 -> row_id r2 = row_id r1 ->
  ∃ a k s' p, run_stmts new_accum l = Some a /\ Commit f cp mode n true dPacked dHitless a s = Some (true, k, s') /\ p ∈ ri_dRamSegs s' /\ holds n f cp p (row_id r2) (r1, keyed key (acc_hits None h1)).
Proof.
  intros l Hr Hg HH HN E. rewrite E. apply (commit_holds s M H N dPacked dHitless key l (r1, acc_hits None h1) Hr Hg HH HN). change (txn_mode l) with false. cbn [winners txn_docs omap list_omap l keep_first existsb]. by left.
Qed.
End Statements.

(** A hit at the end of a field that the document gives twice loses its end marker:
    the marker is reset because the next hit has it too, and the next hit is then left
    out as a repetition. *)
Theorem repeated_hit_loses_end tRowID u p : tRowID ≠ INVALID_ROWID -> IsEnd p = true ->
  accumulate (WordHit INVALID_ROWID 0 0) [WordHit tRowID u p] = [WordHit tRowID u p] /\
  accumulate (WordHit INVALID_ROWID 0 0) [WordHit tRowID u p; WordHit tRowID u p] = [WordHit tRowID u (GetPosWithField p)].
Proof.
  intros Hr He. cbn [accumulate]. unfold same_hit, ResetTailHit. cbn [wh_tRowID wh_uWordID wh_uWordPos]. rewrite (proj2 (Z.eqb_neq _ _)) by done. cbn [andb]. rewrite He, !Z.eqb_refl. done.
Qed.

(** ** The limit of the merged vectors *)

Lemma int_of_range x k : int_of x = Some k -> k <= MAX_SEGMENT_VECTOR_LEN.
Proof. unfold int_of, MAX_SEGMENT_VECTOR_LEN. destruct x as [b|b| |b m e]; try done; [intros [= <-]; lia|]. case_decide as Hd; [|done]. intros [= <-]. unfold in_type in Hd. cbn in Hd. lia. Qed.

Lemma relimit_range fuel : ∀ l k t, l <= MAX_SEGMENT_VECTOR_LEN -> relimit_loop fuel l k = Some t -> t <= MAX_SEGMENT_VECTOR_LEN.
Proof.
  induction fuel as [|fuel IH]; intros l k t Hl; cbn [relimit_loop]; [done|]. destruct (negb _); [by intros [= <-]|]. destruct (Z.ltb_spec l SLOW_GROW_TRESHOLD) as [H|H]; [apply IH; unfold SLOW_GROW_TRESHOLD, MAX_SEGMENT_VECTOR_LEN in *; lia|]. destruct (int_of _) as [l'|] eqn:E; [|done]. cbn [mbind option_bind]. apply IH. by apply int_of_range in E.
Qed.

Lemma tight_unfold k : TightRelimit k = relimit_loop 120 8 k.
Proof. reflexivity. Qed.

Lemma double_range fuel : ∀ l k t, l <= 2 ^ 30 -> k <= 2 ^ 30 -> double_loop fuel l k = Some t -> t < 2 ^ 31.
Proof.
  induction fuel as [|fuel IH]; intros l k t Hl Hk; cbn [double_loop]; [done|]. destruct (Z.ltb_spec l k) as [H|H]; cbn [negb]; [|intros [= <-]; lia]. destruct (decide (l * 2 <= 2 ^ 30)); [by apply IH|]. destruct fuel as [|fuel]; [done|]. cbn [double_loop]. rewrite (proj2 (Z.ltb_ge _ _)) by lia. cbn [negb]. intros [= <-]. lia.
Qed.

Lemma Relimit_range b k t : (b = false -> k <= 2 ^ 30) -> Relimit b k = Some t -> t <= MAX_SEGMENT_VECTOR_LEN.
Proof.
  intros Hk. destruct b; cbn [Relimit].
  - rewrite tight_unfold. apply relimit_range. unfold MAX_SEGMENT_VECTOR_LEN. lia.
  - intros E. apply double_range in E; [unfold MAX_SEGMENT_VECTOR_LEN; lia|lia|by apply Hk].
Qed.

Lemma estimate_range iAlive uRows la : ∀ lb s m s' m', m <= MAX_SEGMENT_VECTOR_LEN -> Forall2 (λ x y : bool * Z, x.1 = false -> (x.2 + y.2) * iAlive / uRows <= 2 ^ 30) la lb -> estimate iAlive uRows la lb s m = Some (s', m') -> m' <= MAX_SEGMENT_VECTOR_LEN.
Proof.
  induction la as [|[t a] la IH]; intros lb s m s' m' Hm F; inversion F as [|? [t' b] ? lb' Hx F' E1 E2]; subst; cbn [estimate]; [by intros [= _ <-]|]. cbn [fst snd] in Hx. destruct (Relimit _ _) as [r|] eqn:E; [|done]. cbn [mbind option_bind]. apply IH; [|done]. apply Relimit_range in E; [|done]. destruct (m <? r); done.
Qed.

Lemma relimit_stuck fuel : ∀ l k k', relimit_loop fuel l k = None -> k <= k' -> relimit_loop fuel l k' = None.
Proof.
  induction fuel as [|fuel IH]; intros l k k'; cbn [relimit_loop]; [done|]. destruct (Z.ltb_spec l k) as [H|H]; [|done]. cbn [negb]. intros E Hk. rewrite (proj2 (Z.ltb_lt l k')) by lia. cbn [negb]. destruct (l <? SLOW_GROW_TRESHOLD); [by apply (IH _ k)|]. destruct (int_of _) as [l'|]; [|done]. cbn [mbind option_bind] in *. by apply (IH _ k).
Qed.

Lemma relimit_past : relimit_loop 120 8 (MAX_LIMIT + 1) = None.
Proof. vm_compute. reflexivity. Qed.

(** [C40] The test that a merged vector would be too long holds for none of the tight
    vectors, so that a pair of segments never asks for a disk chunk by it: their
    estimate is computed through [int] and cannot exceed [INT_MAX]; only keyword
    checkpoints of more than a gigabyte could. For vectors of more than 1838740736
    items the estimate is not defined, as the conversion to [int] overflows. *)
Theorem vector_limit_never_tested pA pB iRamLeft : (Z.of_nat (length (m_dKeywordCheckpoints (rs_tWords pA))) + Z.of_nat (length (m_dKeywordCheckpoints (rs_tWords pB)))) * (rs_tAliveRows pA + rs_tAliveRows pB) / cast DWORD (rs_uRows pA + rs_uRows pB) <= 2 ^ 30 ->
  CheckSegmentsPair pA pB iRamLeft ≠ Some FLUSH /\ (∀ k, MAX_LIMIT < k -> TightRelimit k = None) /\ int_of (fmul (float_of MAX_LIMIT) GROW) = None.
Proof.
  intros Hk. split; [|split; [|vm_compute; reflexivity]].
  - unfold CheckSegmentsPair. destruct (_ =? 0); [done|]. destruct (estimate _ _ _ _ _ _) as [[s m]|] eqn:E; [|done]. cbn [mbind option_bind]. apply estimate_range in E; [|unfold MAX_SEGMENT_VECTOR_LEN; lia|repeat constructor; cbn [fst snd]; done]. destruct (_ <? _); [done|]. by rewrite (proj2 (Z.ltb_ge _ _) E).
  - intros k Hm. rewrite tight_unfold. apply (relimit_stuck 120 8 (MAX_LIMIT + 1) k relimit_past). lia.
Qed.

(** ** Examples *)

Definition add_delete : list stmt := [AddStmt true [3; 0; 300] [(10, 1)]].

Lemma delete_in_transaction_lost_witness : ∃ a k s' p, run_stmts new_accum (add_delete ++ [DeleteStmt [3]]) = Some a /\ Commit CRC 2 SPH_HITLESS_NONE 3 true [] [] a chunk1 = Some (true, k, s') /\ p ∈ ri_dRamSegs s' /\ holds 3 CRC 2 p 3 ([3; 0; 300], [(WordID 10, 1)]).
Proof.
  apply (delete_in_transaction_lost 3 ltac:(lia) CRC 2 chunk1 documents1 3 2 [] [] WordID add_delete [3] ([3; 0; 300], [(10, 1)]) reach1); [by apply good_example|vm_compute; reflexivity|vm_compute; reflexivity|by left|by left].
Defined.

Lemma mixed_statements_lose_replace_witness : ∃ a k s' p, run_stmts new_accum [AddStmt true [3; 0; 300] [(10, 1)]; AddStmt true [3; 0; 301] [(11, 1)]; AddStmt false [4; 0; 400] [(12, 1)]] = Some a /\ Commit CRC 2 SPH_HITLESS_NONE 3 true [] [] a chunk1 = Some (true, k, s') /\ p ∈ ri_dRamSegs s' /\ holds 3 CRC 2 p 3 ([3; 0; 300], [(WordID 10, 1)]).
Proof.
  apply (mixed_statements_lose_replace 3 ltac:(lia) CRC 2 chunk1 documents1 3 2 [] [] WordID [3; 0; 300] [3; 0; 301] [4; 0; 400] [(10, 1)] [(11, 1)] [(12, 1)] reach1); [by apply good_example|vm_compute; reflexivity|vm_compute; reflexivity|reflexivity].
Defined.

Lemma repeated_hit_loses_end_witness : accumulate (WordHit INVALID_ROWID 0 0) [WordHit 0 7 (SetEndMarker 5); WordHit 0 7 (SetEndMarker 5)] = [WordHit 0 7 5].
Proof. exact (proj2 (repeated_hit_loses_end 0 7 (SetEndMarker 5) ltac:(discriminate) eq_refl)). Defined.

Lemma vector_limit_never_tested_witness : ∃ p, ri_dRamSegs chunk1 = [p] /\ CheckSegmentsPair p p 1000000 ≠ Some FLUSH.
Proof. eexists. split; [vm_compute; reflexivity|]. refine (proj1 (vector_limit_never_tested _ _ 1000000 _)). vm_compute. discriminate. Defined.
End RtTxnBugs.
